(* ===== verification/_CoqProject ===== *)
-Q . S2P
Prelude.v
VotorBase.v
Bls.v
Vote.v
EpochInfo.v
Cert.v
BlsSerde.v
CertSerde.v
FinalityTracker.v
FinalityInv.v
ParentReady.v
ParentReadyInv.v
SlotState.v
SlotStateInv.v
SlotEvents.v
Pool.v
SlotVotes.v
SlotProps.v
PoolInv.v
Votor.v
VotorInv.v
VotorTimers.v
Ghost.v
GhostTree.v
GhostInv.v
GhostInsert.v
GhostVotes.v
GhostPublish.v
GhostChoice.v
GhostEqvoc.v
GhostProps.v
Tower.v
TowerVotes.v
TowerForks.v
TowerSwitch.v
TowerProps.v
TowerSerde.v
TowerSerdeProps.v
Sha256.v
Sha256Props.v
Bmtree.v
BmtreeSpec.v
BmtreeLeaves.v
BmtreePaths.v
BmtreeKnown.v
BmtreeFini.v
BmtreeRoot.v
BmtreeAgree.v
BmtreeProps.v
Voters.v
Votes.v
VotesProps.v
Hfork.v
HforkInv.v
HforkProps.v
Shred.v
ShredProps.v
Eqvoc.v
EqvocProof.v
EqvocInv.v
EqvocChunk.v
EqvocProps.v
ShredTree.v
Txn.v
TxnRuns.v
TxnCu16.v
TxnGrammar.v
TxnLegacy.v
TxnV1.v
TxnProps.v
TxnAccounts.v
Pb.v
Bam.v
BamDecode.v
BamFeedback.v
BamTiming.v
BamCommit.v
BamDrain.v
BamMessage.v
BamProps.v
