(* ===== verification/Prelude.v ===== *)
(** * Verification of the consensus libraries and the BAM client of the validator

    The program is the consensus code of the validator, the C libraries under
    src/src/choreo/.  There are two protocols.  For Alpenglow, the library
    choreo/votor counts the votes of every slot, builds and checks
    certificates, tracks which blocks are final and which blocks a leader may
    build on, and decides which votes this validator casts.  For TowerBFT,
    choreo/ghost keeps the tree of blocks with the stake of the latest vote of
    every validator and picks the heaviest fork, and choreo/tower keeps the
    stack of this validator's votes with their lockouts and decides what to
    vote for and which block to build on.  Three smaller libraries serve both:
    choreo/votes tallies the votes of every block, choreo/hfork compares the
    bank hashes that others vote for with our own, and choreo/eqvoc detects
    duplicate blocks from shreds and exchanges proofs of them over gossip.  The
    last one rests on the shred format of ballet/shred, whose Merkle roots rest
    on the trees of ballet/bmtree and the hash of ballet/sha256.  The votes of
    TowerBFT and every other transaction enter through the parser of ballet/txn.
    One way transactions come in is the client of the block assembly
    marketplace, disco/bam: a scheduler sends messages of batches, the client
    decodes them with nanopb, parses their transactions with ballet/txn, hands
    whole batches over to verification and answers every batch.

    ** Parts of the program and where they are modelled

    - [Prelude]: outcomes of C code ([outcome]: a returned value or the way the
      process ends), 64-bit arithmetic with wrap-around ([+w], [-w], [*w]),
      little-endian byte strings, sums over ranges, loops, the tactics and the
      hint databases.
    - [VotorBase] (ag_votor_base.h): constants, block identifiers, windows of
      four slots.
    - [Bls] (ag_bls.h, ag_bls.c): aggregate signatures over a set of signers.
      The class [BlsOps] holds the curve operations, code outside src/.
    - [Vote] (ag_vote, ag_vote_serde): the five kinds of votes, their wire
      format and the payload a validator signs.
    - [EpochInfo] (ag_epoch_info): the validators of an epoch, quorum tests
      and the ranking of the staked validators.
    - [Cert] (ag_cert): the five kinds of certificates.
    - [BlsSerde], [CertSerde] (ag_bls_serde, ag_cert_serde): their wire
      formats.
    - [FinalityTracker], [FinalityInv] (ag_finality_tracker): status of each
      slot and implicit finalization along the chain of parents.
    - [ParentReady], [ParentReadyInv] (ag_parent_ready_tracker): which
      notarized blocks a window may build on.
    - [SlotState] (ag_slot_state.h, ag_slot_state.c, ag_event.h): counting the
      votes of one slot.  [SlotStateInv] holds its counters, [SlotEvents] its
      safe-to-notar and safe-to-skip events, [SlotVotes] the certificates and
      the whole of [ag_slot_state_add_vote], [SlotProps] the properties.
    - [Pool], [PoolInv] (ag_pool.h, ag_pool.c): the slot states and the two
      trackers behind one interface; it admits votes, certificates and blocks,
      and queues the events for the voting engine and for repair.
    - [Votor], [VotorInv], [VotorTimers] (ag_votor): the voting engine, which
      consumes the events of the pool, replay results and timeouts.
    - [Ghost] (fd_ghost.h, fd_ghost.c): the fork tree as the C code has it, a
      map of blocks with parent, child and sibling links.  [GhostTree] is the
      specification, a rose tree of block ids; [GhostInv] says when the links
      represent a tree and when the stakes add up; [GhostInsert],
      [GhostVotes], [GhostPublish], [GhostChoice] and [GhostEqvoc] carry the
      operations over to the tree, [GhostProps] holds the properties.
    - [Tower] (fd_tower.h, fd_tower.c, fd_tower_stakes): the vote tower, the
      replayed blocks, lockout intervals and stakes, the checks before a vote,
      [fd_tower_vote_and_reset] and [fd_tower_reconcile].  [TowerVotes] is
      about the stack of votes, [TowerForks] about ancestors and the lockout
      check, [TowerSwitch] about the switch check, [TowerProps] holds the
      properties.
    - [TowerSerde], [TowerSerdeProps] (fd_tower_serdes, the readers of vote
      accounts in fd_tower.c): the vote instruction and the vote account.
    - [Sha256], [Sha256Props] (ballet/sha256/fd_sha256.c): the portable SHA-256,
      incremental, in one call and repeated.  The module [Fips] of [Sha256Props]
      is the specification, the standard's definition with the message
      schedule as a list of words and constants computed from the primes.
    - [Bmtree] (ballet/bmtree/fd_bmtree.h, fd_bmtree.c): Merkle trees, computed
      from all leaves or put together from inclusion proofs.  [BmtreeSpec] is
      the reference tree, layer by layer, and the numbering of its nodes;
      [BmtreeLeaves] is about calculations by leaves, [BmtreePaths] about
      inclusion proofs, [BmtreeKnown] about insertion with a proof,
      [BmtreeFini] and [BmtreeRoot] about the end of a calculation by proofs,
      [BmtreeAgree] about sequences of insertions, [BmtreeProps] holds the
      properties.
    - [Voters]: the exchange of the set of voters by mark and sweep over a
      list, which the next three components do with the same loops.
    - [Votes], [VotesProps] (fd_votes.h, fd_votes.c): who voted for which block
      of a slot; its specification is a list of ballots ([tally]).
    - [Hfork], [HforkInv], [HforkProps] (fd_hfork.h, fd_hfork.c): the stake of
      each bank hash of a block, with a bounded list of votes per voter.
    - [Shred], [ShredProps] (ballet/shred/fd_shred.h, fd_shred.c): the header
      of a shred as a view of its bytes, the sizes and offsets of its sections,
      and its validation [fd_shred_parse].
    - [Eqvoc] (fd_eqvoc.h, fd_eqvoc.c): duplicate detection.  [EqvocProof] is
      about the encoding of a proof in three chunks, [EqvocInv] about the
      bounded caches, [EqvocChunk] about putting chunks together,
      [EqvocProps] holds the properties.
    - [ShredTree] (fd_shred_merkle_root): the Merkle root of a shred with the
      Merkle tree it calls, which [Shred] and [Eqvoc] have as parameters.
    - [Txn] (ballet/txn: fd_compact_u16.h, fd_txn_parse.c, fd_txn_v1.h,
      fd_txn.h): the parser of transactions and the parsed form.  [TxnGrammar]
      is the specification, the messages of the three formats with their
      encoding and the conditions on them; [TxnRuns] says what a parsing step
      may read, [TxnCu16] is about the compact integers, [TxnLegacy] and
      [TxnV1] relate the parser to the grammar, [TxnProps] holds the
      properties, [TxnAccounts] is about the categories of accounts and the
      packed iterator over them.
    - [Pb] (third_party/nanopb/pb_decode.c): what the client uses of the
      decoder of protocol buffers, with streams as lists of bytes.
    - [Bam] (disco/bam: fd_bam_types.h, fd_bam_tile_private.h, fd_bam_client.c,
      fd_bam_tile.c): the state of the client, the ring of results, the tables
      by slot, the generations and the hand-over of transactions
      ([after_credit]).  [BamFeedback] says which list the ring represents and
      specifies the feedback queue, [BamTiming] is about the tables by slot,
      [BamDrain] about the hand-over.
    - [BamDecode] (disco/bam/fd_bam_client_decode.c): from the bytes of a
      response to queued transactions and results.  [BamCommit] is about one
      decoded batch, [BamMessage] about reading a message, [BamProps] holds the
      properties.

    A record models a C structure, field by field; an inductive type models a
    tagged union; a definition models the function of the same name, with the
    state passed explicitly.  Chained maps over element pools are finite maps
    with the capacity of the pool, queues are lists with the capacity of the
    queue, intrusive lists are lists of keys.

    ** What the theorems show

    - [Vote], [CertSerde]: round trips of the wire formats, rejection of
      every non-canonical encoding of a vote, domain separation of signed
      payloads.
    - [EpochInfo]: the ranking of validators is the sorted list of the
      candidates with unshared keys, whatever sort is used, and the epochs it
      builds are well formed.
    - [FinalityInv]: what each certificate decides (the block, its known
      ancestors, the gaps between them), for every status the slot can have;
      that the order of a notarization and a finalization does not matter; and
      that a late certificate can undo a final status.
    - [ParentReadyInv]: the tracker refines an abstract account of certified
      blocks and skipped slots: [p] is ready for a window exactly when it is
      certified and every slot between them is skipped.  Reports are exactly
      the newly ready pairs.
    - [SlotProps]: an admitted vote is counted without a failed test or an
      overrun array (in particular the fixed arrays of three events, three
      repairs and three certificates are large enough, because at most three
      blocks of a slot can be eligible at once); the certificates produced
      carry the true stake of their signers; the events sent are exactly the
      ones that are due; contradictory quorums do not occur.
    - [PoolInv]: every slot state of a reachable pool has these properties;
      rejected votes change nothing; two situations in which the pool ends the
      process or forgets a block.
    - [VotorInv]: over every sequence of calls the engine casts no two votes
      that contradict each other.
    - [VotorTimers]: the timers and lists of the engine, and what a timeout
      does to its window.
    - [GhostProps]: the linked blocks refine a rose tree.  Inserting grafts a
      leaf, publishing keeps the subtree of the new root, a vote moves a
      validator's stake from the ancestors of its previous vote to those of
      the new one so that every block has the stake of the latest votes in its
      subtree, the best block is found by the greedy heaviest-child walk, the
      deepest block has maximal depth, a duplicate mark reaches the whole
      subtree.
    - [TowerProps]: a vote is only cast for a block that respects every
      unexpired lockout; pushing a vote is the stack-depth rule; the lockout
      check is exact; a passed switch check has a proof made of the stakes of
      distinct voters; lowest common ancestors.
    - [TowerSerdeProps]: a tower survives the vote instruction, only canonical
      instructions are accepted, vote accounts are read within their bounds.
    - [VotesProps]: the counter refines the list of ballots, and when its
      pools are large enough; an example shows how they can be exhausted.
    - [HforkProps]: every call returns, the stake of a bank hash is the exact
      sum of the kept votes, and what is reported is the comparison with our
      bank hash at 52% of the stake.
    - [ShredProps]: exactly which shreds are valid, that validation stays
      within the buffer, and that the sections of a valid shred do not overlap.
    - [Sha256Props]: hashing in any split of the data, in one call and
      repeatedly is the hash of the standard.
    - [BmtreeProps]: a calculation by leaves gives the root of the reference
      tree; its inclusion proofs lead back to the root and bind the leaf up to
      collisions of the hash; a calculation by proofs returns from every call,
      gives only roots that agree with every leaf inserted, and gives the root
      once the leaves of a tree were inserted with their proofs, in any order.
      The proofs settle the two open remarks of fd_bmtree.c: the index after
      the walk along a proof is within the store, and one test of the index is
      enough on the way up the right edge.
    - [ShredTree]: what the Merkle root of a shred is, and that two shreds of
      the same position with the same root cover the same bytes, up to
      collisions of the hash.
    - [EqvocProps]: every call returns, whatever a peer sends; an accepted
      proof consists of two conflicting shreds signed by the leader; a
      constructed proof is put together again from its chunks in any order;
      when a shred makes a proof.

    - [TxnCu16]: decoding a compact-u16 accepts exactly what the encoder
      writes.
    - [TxnProps]: the parser reads and writes within its buffers on every
      input, accepts exactly the encodings of well-formed messages, and what it
      returns gives the message back; an encoding has one reading.
    - [TxnAccounts]: counting and iterating the accounts of a category visits
      exactly the accounts of that category, in order.
    - [BamFeedback]: the ring of results refines a list without duplicates,
      of one generation; messages take the oldest results.
    - [BamDrain]: only whole batches are handed over, in order and within the
      burst.
    - [BamProps]: a message is taken as a whole or leaves no trace but one
      counter; every batch is queued with all its transactions or answered with
      one result, and no simple vote is queued; every sequence of calls keeps
      the state well formed, unless a packet was sent as a scalar, whose bytes
      the client uses after they are gone (an example shows it).

    ** Bounds and fuel

    Loops over slots and over chains of parents take a fuel: the distance to
    the slot where the C loop stops ([implicitly_finalized_loop],
    [skip_between]), or the number of slot states plus one for walks that stop
    at the first slot without a state ([ready_walk], [skip_walk]).  Walks over
    the fork tree take the number of blocks plus one ([tree_fuel]), walks
    along the replayed blocks their number plus one ([tower_fuel]); a
    variable-length integer has at most ten bytes ([var_int_fuel]); the search
    for a free bit position takes the number of taken ones plus one.  Walks up a
    Merkle tree take 64, more than a tree can have layers; the theorems are
    about trees of up to 2^62 leaves and calculations that keep up to 62
    layers, which is what the indices of 64 bits allow for.  The
    theorems of the Inv files show that the fuel is enough: they conclude that
    the call returns.  The end of the fuel is the outcome [Diverge], never a
    result.  Loops over a protocol buffer take the number of bytes left plus
    one, since every field has a tag.

    ** Not modelled

    The curve arithmetic behind [BlsOps]; the layout of structures in memory
    (sizes, alignment and the magic numbers of the join functions); hash seeds
    of the chained maps; log messages and the printing functions; the
    transaction around the vote instruction; the variants of SHA-256 for vector
    units and for SHA instructions.  Signature checks are a parameter of
    [Eqvoc].  Of disco/bam: the connection (gRPC, authentication, contacts,
    heartbeats), status reporting, the frames of the other tiles, histograms and
    the debug dump; what the gRPC client answers is an argument.  Outside of
    choreo, disco/bam and the parts of ballet named above: the tiles that move
    messages, execution, networking, storage and the other
    cryptography. *)

From stdpp Require Export base gmap list numbers sorting.
From Stdlib Require Export ZArith Lia.

#[global] Open Scope Z_scope.

(** * Outcomes of C code

    A C function of the modelled sources either returns or ends the process:
    [FD_TEST] and [FD_CHECK_CRIT] failures, [FD_LOG_CRIT] and [FD_LOG_ERR] do not return.
    [OutOfBounds] marks what the C code does not check itself: a write past a
    fixed-size array, an element acquired from an exhausted pool, a push on a
    full queue.  [Unreachable] is [__builtin_unreachable], [NullPtr]
    the use of a NULL pointer, [Dangling] the use of a pointer to an object
    that no longer exists.  [Diverge] marks a
    loop that outlives the number of iterations its definition allows for; the
    components prove that no operation of theirs ends this way. *)

Inductive abort := FdTest | LogCrit | LogErr | OutOfBounds | Unreachable | NullPtr | Dangling | Diverge.

Inductive outcome (A : Type) :=
| Ok (a : A)
| Fail (e : abort).
Arguments Ok {A} a.
Arguments Fail {A} e.

#[export] Instance outcome_ret : MRet outcome := @Ok.
#[export] Instance outcome_bind : MBind outcome :=
  fun A B f m => match m with Ok a => f a | Fail e => Fail e end.

Definition check (e : abort) (b : bool) : outcome unit :=
  if b then Ok tt else Fail e.

Definition is_ok {A} (m : outcome A) : bool :=
  match m with Ok _ => true | Fail _ => false end.

(** Loops that thread a state and may abort. *)
Fixpoint ofold {A S} (f : S -> A -> outcome S) (s : S) (l : list A) : outcome S :=
  match l with
  | [] => Ok s
  | x :: l' => s' ← f s x; ofold f s' l'
  end.

(** [memcpy] of [n] bytes at an offset of what a pointer points to. *)
Definition mem_read (src : list Z) (off n : Z) : outcome (list Z) :=
  check OutOfBounds ((0 <=? off) && (0 <=? n) && (off + n <=? Z.of_nat (length src)));;
  Ok (take (Z.to_nat n) (drop (Z.to_nat off) src)).

(** * Machine integers

    [ulong] values are integers in [0, 2^64); additions and subtractions wrap. *)

Definition ULONG_MAX : Z := 18446744073709551615.
Definition USHORT_MAX : Z := 65535.
Definition LONG_MAX : Z := 9223372036854775807.

Definition u64 (x : Z) : Z := x mod 18446744073709551616.
Definition u64_add (a b : Z) : Z := u64 (a + b).
Definition u64_sub (a b : Z) : Z := u64 (a - b).
Definition u64_mul (a b : Z) : Z := u64 (a * b).

Definition is_u64 (x : Z) : Prop := 0 <= x <= ULONG_MAX.

Declare Scope u64_scope.
Delimit Scope u64_scope with u64.
Infix "+w" := u64_add (at level 50, left associativity) : u64_scope.
Infix "-w" := u64_sub (at level 50, left associativity) : u64_scope.
Infix "*w" := u64_mul (at level 40, left associativity) : u64_scope.
#[global] Open Scope u64_scope.

(** * Tactics *)

(** Splits a hypothesis that says a monadic computation returned. *)
Ltac inv_ok :=
  repeat match goal with
  | H : Ok _ = Ok _ |- _ => injection H as H; subst
  | H : Fail _ = Ok _ |- _ => discriminate H
  | H : Ok _ = Fail _ |- _ => discriminate H
  | H : mret _ = Ok _ |- _ => unfold mret, outcome_ret in H
  | H : (mbind _ ?m) = Ok _ |- _ =>
      let E := fresh "E" in destruct m eqn:E; cbn [mbind outcome_bind] in H
  | H : check _ ?b = Ok _ |- _ =>
      let E := fresh "E" in destruct b eqn:E; cbn [check] in H
  end.

(** Turns boolean tests of the code into propositions. *)
Ltac boolp :=
  repeat match goal with
  | H : (_ && _) = true |- _ => apply andb_prop in H; destruct H
  | H : (_ || _) = false |- _ => apply orb_false_iff in H; destruct H
  | H : negb _ = true |- _ => apply negb_true_iff in H
  | H : negb _ = false |- _ => apply negb_false_iff in H
  | H : (_ =? _) = true |- _ => apply Z.eqb_eq in H
  | H : (_ =? _) = false |- _ => apply Z.eqb_neq in H
  | H : (_ <? _) = true |- _ => apply Z.ltb_lt in H
  | H : (_ <? _) = false |- _ => apply Z.ltb_ge in H
  | H : (_ <=? _) = true |- _ => apply Z.leb_le in H
  | H : (_ <=? _) = false |- _ => apply Z.leb_gt in H
  | H : bool_decide _ = true |- _ => apply bool_decide_eq_true in H
  | H : bool_decide _ = false |- _ => apply bool_decide_eq_false in H
  end.

(** Case analysis on the innermost test of the goal. *)
Ltac case_if :=
  match goal with
  | |- context [ if ?b then _ else _ ] =>
      lazymatch type of b with
      | bool => let E := fresh "E" in destruct b eqn:E; boolp
      end
  end.

(** The same on the first test of a hypothesis. *)
Ltac case_if_in H :=
  match type of H with
  | context [ if ?b then _ else _ ] =>
      lazymatch type of b with
      | bool => let E := fresh "E" in destruct b eqn:E in H; boolp
      end
  end.

Create HintDb choreo.
Create Rewrite HintDb choreo.

(** * Integer lemmas *)

Lemma u64_small x : is_u64 x -> u64 x = x.
Proof. unfold is_u64, u64, ULONG_MAX. intros. apply Z.mod_small. lia. Qed.

Lemma u64_range x : is_u64 (u64 x).
Proof.
  unfold is_u64, u64, ULONG_MAX.
  pose proof (Z.mod_pos_bound x 18446744073709551616). lia.
Qed.

Lemma u64_add_small a b : is_u64 (a + b) -> a +w b = a + b.
Proof. apply u64_small. Qed.

Lemma u64_sub_small a b : is_u64 (a - b) -> a -w b = a - b.
Proof. apply u64_small. Qed.

#[export] Hint Resolve u64_range : choreo.

(** * Sums over an index range

    [nsum f n] is the sum of [f 0], ..., [f (n-1)], the value a C loop
    [for( i=0UL; i<n; i++ ) acc += f(i);] accumulates when it does not wrap. *)

Fixpoint nsum (f : Z -> Z) (n : nat) : Z :=
  match n with
  | O => 0
  | S k => nsum f k + f (Z.of_nat k)
  end.

Lemma nsum_ext f g n :
  (forall i, 0 <= i < Z.of_nat n -> f i = g i) -> nsum f n = nsum g n.
Proof.
  induction n as [|n IH]; intros H; cbn [nsum]; [done|].
  rewrite IH, H; [done|lia|intros i Hi; apply H; lia].
Qed.

Lemma nsum_le f g n :
  (forall i, 0 <= i < Z.of_nat n -> f i <= g i) -> nsum f n <= nsum g n.
Proof.
  induction n as [|n IH]; intros H; cbn [nsum]; [lia|].
  specialize (IH ltac:(intros; apply H; lia)).
  specialize (H (Z.of_nat n) ltac:(lia)). lia.
Qed.

Lemma nsum_nonneg f n :
  (forall i, 0 <= i < Z.of_nat n -> 0 <= f i) -> 0 <= nsum f n.
Proof.
  intros H. transitivity (nsum (fun _ => 0) n).
  - clear H. induction n; cbn; lia.
  - by apply nsum_le.
Qed.

Lemma nsum_add f g n : nsum (fun i => f i + g i) n = nsum f n + nsum g n.
Proof. induction n as [|n IH]; cbn [nsum]; lia. Qed.

Lemma nsum_zero n : nsum (fun _ => 0) n = 0.
Proof. induction n as [|n IH]; cbn [nsum]; lia. Qed.

(** Changing one summand changes the sum by the difference. *)
Lemma nsum_update f g n k :
  0 <= k < Z.of_nat n -> (forall i, i <> k -> f i = g i) ->
  nsum g n = nsum f n + (g k - f k).
Proof.
  induction n as [|n IH]; intros Hk H; [lia|]. cbn [nsum].
  destruct (decide (k = Z.of_nat n)) as [->|Hne].
  - rewrite (nsum_ext f g n); [lia|]. intros; apply H; lia.
  - rewrite IH, (H (Z.of_nat n)) by (auto; lia). lia.
Qed.

Lemma nsum_single_le f n k :
  0 <= k < Z.of_nat n -> (forall i, 0 <= i < Z.of_nat n -> 0 <= f i) ->
  f k <= nsum f n.
Proof.
  intros Hk H.
  rewrite (nsum_update (fun i => if decide (i = k) then 0 else f i) f n k Hk).
  - rewrite decide_True by done.
    assert (0 <= nsum (fun i => if decide (i = k) then 0 else f i) n); [|lia].
    apply nsum_nonneg. intros i Hi. case_decide; [lia|auto].
  - intros i Hi. by rewrite decide_False.
Qed.

(** The sum of a family over a duplicate-free list of keys is bounded by a
    total that bounds it index by index. *)
Definition lsum {A} (f : A -> Z) (l : list A) : Z := foldr (fun a acc => f a + acc) 0 l.

Lemma lsum_nsum {A} (f : A -> Z -> Z) (l : list A) n :
  lsum (fun a => nsum (f a) n) l = nsum (fun i => lsum (fun a => f a i) l) n.
Proof.
  induction l as [|a l IH]; cbn [lsum foldr].
  - by rewrite nsum_zero.
  - unfold lsum in IH |- *. rewrite IH. by rewrite <- nsum_add.
Qed.

Lemma lsum_le {A} (f g : A -> Z) (l : list A) :
  (forall a, a ∈ l -> f a <= g a) -> lsum f l <= lsum g l.
Proof.
  induction l as [|a l IH]; cbn; intros H; [lia|].
  unfold lsum in IH. specialize (IH ltac:(intros; apply H; by constructor 2)).
  specialize (H a ltac:(by constructor)). lia.
Qed.

Lemma lsum_nonneg {A} (f : A -> Z) (l : list A) :
  (forall a, a ∈ l -> 0 <= f a) -> 0 <= lsum f l.
Proof.
  intros H. transitivity (lsum (fun _ => 0) l).
  - clear. induction l; cbn; [lia|]. unfold lsum in *. lia.
  - by apply lsum_le.
Qed.

Lemma lsum_const {A} (c : Z) (l : list A) : lsum (fun _ => c) l = c * Z.of_nat (length l).
Proof. induction l as [|a l IH]; cbn [lsum foldr length]; [lia|]. unfold lsum in IH. lia. Qed.

(** A function that is non-zero on at most one key of a duplicate-free list. *)
Lemma lsum_indicator {A} `{EqDecision A} (k : option A) (c : Z) (l : list A) :
  0 <= c -> NoDup l ->
  lsum (fun a => if decide (k = Some a) then c else 0) l <= c.
Proof.
  intros Hc. induction 1 as [|a l Ha Hl IH]; cbn [lsum foldr]; [lia|].
  case_decide as Hk; [|unfold lsum in IH; lia]. subst k.
  assert (lsum (fun b => if decide (Some a = Some b) then c else 0) l <= 0).
  { transitivity (lsum (fun _ : A => 0) l); [|rewrite lsum_const; lia].
    apply lsum_le. intros b Hb. case_decide; [|done]. simplify_eq. done. }
  unfold lsum in *. lia.
Qed.

(** * Option and list lemmas *)

Lemma mem_read_ok src off n : 0 <= off -> 0 <= n -> off + n <= Z.of_nat (length src) -> mem_read src off n = Ok (take (Z.to_nat n) (drop (Z.to_nat off) src)).
Proof. intros H1 H2 H3. unfold mem_read. by rewrite (proj2 (Z.leb_le _ _) H1), (proj2 (Z.leb_le _ _) H2), (proj2 (Z.leb_le _ _) H3). Qed.

Lemma ofold_app {A S} (f : S -> A -> outcome S) s l1 l2 :
  ofold f s (l1 ++ l2) = (s' ← ofold f s l1; ofold f s' l2).
Proof.
  revert s. induction l1 as [|a l1 IH]; intros s; cbn; [done|].
  destruct (f s a); cbn; [apply IH|done].
Qed.

(** Rule of invariants for aborting loops. *)
Lemma ofold_inv {A S} (P : S -> Prop) (f : S -> A -> outcome S) l :
  (forall s a s', a ∈ l -> P s -> f s a = Ok s' -> P s') ->
  forall s s', P s -> ofold f s l = Ok s' -> P s'.
Proof.
  induction l as [|a l IH]; cbn; intros H s s' HP Hf; inv_ok; [done|].
  eapply IH; [|eapply H; [by constructor|exact HP|exact E]|exact Hf].
  intros; eapply H; [by constructor 2|..]; eauto.
Qed.

(** Total correctness: a loop whose body never aborts under the invariant
    returns, and returns in the invariant. *)
Lemma ofold_total {A S} (P : S -> Prop) (f : S -> A -> outcome S) l :
  (forall s a, a ∈ l -> P s -> exists s', f s a = Ok s' /\ P s') ->
  forall s, P s -> exists s', ofold f s l = Ok s' /\ P s'.
Proof.
  induction l as [|a l IH]; cbn; intros H s HP; [eauto|].
  destruct (H s a ltac:(by constructor) HP) as (s1 & -> & HP1). cbn.
  apply IH; [|done]. intros; apply H; [by constructor 2|done].
Qed.

(** The slots [lo], ..., [hi-1] a C loop [for( s=lo; s<hi; s++ )] visits. *)
Definition range (lo hi : Z) : list Z := seqZ lo (hi - lo).

Lemma elem_of_range lo hi x : x ∈ range lo hi <-> lo <= x < hi.
Proof. unfold range. rewrite elem_of_seqZ. lia. Qed.

(** * Little-endian stores and loads

    [FD_STORE( T, p, v )] writes the [sizeof(T)] bytes of [v], least
    significant first; [FD_LOAD] reads them back. *)

Fixpoint le_store (n : nat) (v : Z) : list Z :=
  match n with
  | O => []
  | S k => v mod 256 :: le_store k (v / 256)
  end.

Fixpoint le_load (l : list Z) : Z :=
  match l with
  | [] => 0
  | b :: l' => b + 256 * le_load l'
  end.

Definition is_byte (b : Z) : Prop := 0 <= b < 256.

Lemma le_store_length n v : length (le_store n v) = n.
Proof. revert v. induction n as [|n IH]; intros v; cbn; [done|]. by rewrite IH. Qed.

Lemma le_store_bytes n v : Forall is_byte (le_store n v).
Proof.
  revert v. induction n as [|n IH]; intros v; cbn; constructor; [|done].
  unfold is_byte. apply Z.mod_pos_bound. lia.
Qed.

Lemma le_load_store n v : 0 <= v < 256 ^ Z.of_nat n -> le_load (le_store n v) = v.
Proof.
  revert v. induction n as [|n IH]; intros v Hv; cbn [le_store le_load].
  - cbn in Hv. lia.
  - rewrite Nat2Z.inj_succ, Z.pow_succ_r in Hv by lia. rewrite IH.
    + pose proof (Z.div_mod v 256). lia.
    + split; [apply Z.div_pos; lia|]. apply Z.div_lt_upper_bound; lia.
Qed.

Lemma le_store_load l : Forall is_byte l -> le_store (length l) (le_load l) = l.
Proof.
  unfold is_byte. induction 1 as [|b l Hb Hl IH]; cbn [le_store le_load length]; [done|].
  f_equal.
  - rewrite Z.mul_comm, Z_mod_plus_full. by apply Z.mod_small.
  - rewrite Z.mul_comm, Z.div_add by lia. rewrite Z.div_small by done. by rewrite Z.add_0_l.
Qed.

Lemma le_load_range l : Forall is_byte l -> 0 <= le_load l < 256 ^ Z.of_nat (length l).
Proof.
  unfold is_byte. induction 1 as [|b l Hb Hl IH]; cbn [le_load length]; [lia|].
  rewrite Nat2Z.inj_succ, Z.pow_succ_r by lia. lia.
Qed.

Lemma le_store_inj n a b :
  0 <= a < 256 ^ Z.of_nat n -> 0 <= b < 256 ^ Z.of_nat n ->
  le_store n a = le_store n b -> a = b.
Proof. intros Ha Hb E. rewrite <- (le_load_store n a), <- (le_load_store n b) by done. by rewrite E. Qed.

Lemma StronglySorted_weaken {A} (R Q : A -> A -> Prop) l :
  (forall a b, R a b -> Q a b) -> StronglySorted R l -> StronglySorted Q l.
Proof.
  intros Himp. induction 1 as [|x l Hl IH Hx]; constructor; [done|].
  eapply Forall_impl; [exact Hx|]. auto.
Qed.

Lemma list_filter_ext_in {A} (P Q : A -> Prop) `{!forall x, Decision (P x), !forall x, Decision (Q x)}
    (l : list A) :
  (forall x, x ∈ l -> P x <-> Q x) -> filter P l = filter Q l.
Proof.
  induction l as [|x l IH]; intros Hpq; [done|]. rewrite !filter_cons.
  rewrite IH by (intros; apply Hpq; by constructor).
  specialize (Hpq x ltac:(constructor)). do 2 case_decide; tauto.
Qed.

Lemma lsum_app {A} (f : A -> Z) l1 l2 : lsum f (l1 ++ l2) = lsum f l1 + lsum f l2.
Proof. unfold lsum. induction l1 as [|a l1 IH]; cbn [foldr app]; lia. Qed.

(** Summing a list by index is summing its elements. *)
Lemma nsum_lookup {A} (f : A -> Z) (l : list A) :
  nsum (fun i => default 0 (f <$> l !! Z.to_nat i)) (length l) = lsum f l.
Proof.
  induction l as [|x l IH] using rev_ind; [done|].
  rewrite length_app, Nat.add_1_r. cbn [nsum]. rewrite lsum_app, <- IH.
  rewrite Nat2Z.id, list_lookup_middle by done. cbn [fmap option_fmap option_map default from_option id].
  replace (lsum f [x]) with (f x) by (cbn; lia). f_equal.
  apply nsum_ext. intros i Hi. by rewrite lookup_app_l by lia.
Qed.

(** A C loop that adds with wrap-around computes the sum modulo 2^64. *)
Lemma foldl_u64_add {A} (f : A -> Z) (l : list A) acc :
  foldl (fun t v => t +w f v) (u64 acc) l = u64 (acc + lsum f l).
Proof.
  revert acc. induction l as [|x l IH]; intros acc; cbn [foldl lsum foldr]; [by rewrite Z.add_0_r|].
  assert (u64 acc +w f x = u64 (acc + f x)) as ->
    by (unfold u64_add, u64; apply Zplus_mod_idemp_l).
  rewrite IH. unfold lsum. f_equal. lia.
Qed.

Lemma lsum_perm {A} (f : A -> Z) l1 l2 : l1 ≡ₚ l2 -> lsum f l1 = lsum f l2.
Proof. induction 1; cbn in *; unfold lsum in *; lia. Qed.

Lemma lsum_filter_le {A} (f : A -> Z) (P : A -> Prop) `{!forall x, Decision (P x)} l :
  (forall x, x ∈ l -> 0 <= f x) -> lsum f (filter P l) <= lsum f l.
Proof.
  induction l as [|x l IH]; intros Hf; [done|]. rewrite filter_cons.
  specialize (IH ltac:(intros; apply Hf; by constructor)).
  specialize (Hf x ltac:(constructor)).
  case_decide; cbn [lsum foldr]; unfold lsum in IH |- *; lia.
Qed.

Lemma length_omap_le {A B} (f : A -> option B) (l : list A) : (length (omap f l) <= length l)%nat.
Proof. induction l as [|x l IH]; cbn; [done|]. destruct (f x); cbn; lia. Qed.

(** Summing over a duplicate-free list of indices is summing an indicator. *)
Lemma lsum_indices (f : Z -> Z) (l : list Z) n :
  NoDup l -> Forall (fun i => 0 <= i < Z.of_nat n) l ->
  lsum f l = nsum (fun i => if bool_decide (i ∈ l) then f i else 0) n.
Proof.
  induction 1 as [|x l Hx Hl IH]; intros Hr.
  - symmetry. etrans; [|apply (nsum_zero n)]. apply nsum_ext. intros i _.
    rewrite bool_decide_eq_false_2; [done|]. apply not_elem_of_nil.
  - apply Forall_cons in Hr as [Hxr Hr]. cbn [lsum foldr]. fold (lsum f l). rewrite (IH Hr).
    rewrite (nsum_update (fun i => if bool_decide (i ∈ l) then f i else 0)
              (fun i => if bool_decide (i ∈ x :: l) then f i else 0) n x Hxr).
    + rewrite (bool_decide_eq_true_2 (x ∈ x :: l)) by constructor.
      rewrite (bool_decide_eq_false_2 (x ∈ l)) by done. lia.
    + intros i Hi. assert (i ∈ x :: l <-> i ∈ l) as E by (rewrite elem_of_cons; naive_solver).
      by rewrite (bool_decide_ext _ _ E).
Qed.

Lemma foldl_u64_add_if {A} (b : A -> bool) (f : A -> Z) (l : list A) acc :
  foldl (fun t v => if b v then t +w f v else t) (u64 acc) l
  = u64 (acc + lsum (fun v => if b v then f v else 0) l).
Proof.
  revert acc. induction l as [|x l IH]; intros acc; cbn [foldl lsum foldr]; [by rewrite Z.add_0_r|].
  fold (lsum (fun v => if b v then f v else 0) l). destruct (b x).
  - assert (u64 acc +w f x = u64 (acc + f x)) as ->
      by (unfold u64_add, u64; apply Zplus_mod_idemp_l).
    rewrite IH. f_equal. lia.
  - by rewrite IH, Z.add_0_l.
Qed.

Lemma check_true_ok e b : b = true -> check e b = Ok tt.
Proof. by intros ->. Qed.

(** * Counting the keys of a map from a slot on

    The measure of the loops that walk up through consecutive keys. *)

Definition keys_from (d : gset Z) (s : Z) : nat := size (filter (fun k => s <= k) d).

Lemma keys_from_step d s : s ∈ d -> keys_from d s = S (keys_from d (s + 1)).
Proof.
  intros Hs. unfold keys_from.
  replace (filter (fun k => s <= k) d) with ({[s]} ∪ filter (fun k => s + 1 <= k) d).
  - rewrite size_union, size_singleton; [done|]. set_unfold. intros x -> [? _]. lia.
  - apply set_eq. intros k. rewrite elem_of_union, elem_of_singleton, !elem_of_filter.
    split; [intros [->|[? ?]]; split; (done || lia)|].
    intros [? ?]. destruct (decide (k = s)); [by left|right; split; [lia|done]].
Qed.

Lemma keys_from_le {V} (m : gmap Z V) s : (keys_from (dom m) s <= size m)%nat.
Proof. unfold keys_from. rewrite <- size_dom. apply subseteq_size. set_solver. Qed.

(** The loop that removes the keys [lo], ..., [hi-1] of a map. *)
Definition remove_slots {V} (m : gmap Z V) (lo hi : Z) : gmap Z V := foldl (fun m s => delete s m) m (range lo hi).

Lemma remove_slots_lookup {V} (m : gmap Z V) lo hi k :
  remove_slots m lo hi !! k = if decide (lo <= k < hi) then None else m !! k.
Proof.
  unfold remove_slots.
  assert (forall l (m : gmap Z V), foldl (fun m s => delete s m) m l !! k = if decide (k ∈ l) then None else m !! k) as Hl.
  { induction l as [|x l IH]; intros m'; cbn.
    - rewrite decide_False; [done|]. apply not_elem_of_nil.
    - rewrite IH. rewrite lookup_delete. repeat case_decide; set_solver. }
  rewrite Hl. apply decide_ext. apply elem_of_range.
Qed.

