(* ===== verification/VotorBase.v ===== *)
(** The shared vocabulary of the Alpenglow voting library
    (src/src/choreo/votor/ag_votor_base.h): protocol constants, block
    identifiers, leader-window arithmetic, and the arithmetic of windows the
    other components use. *)
From S2P Require Import Prelude.

(** * Constants *)

Definition AG_SLOTS_PER_WINDOW : Z := 4.
Definition AG_SLOTS_PER_EPOCH : Z := 18000.
Definition AG_VAT_MAX : Z := 2000.
Definition AG_EQVOC_BLOCK_HASH_MAX : Z := 7.
Definition AG_NOTAR_FALLBACK_VOTE_MAX : Z := 3.
Definition AG_NOTAR_FALLBACK_CERT_MAX : Z := 4.
Definition AG_DELTA_NS : Z := 250000000.
Definition AG_DELTA_BLOCK_NS : Z := 200000000.
Definition AG_DELTA_FIRST_SLICE_NS : Z := 10000000.
Definition AG_DELTA_TIMEOUT_NS : Z := 3 * AG_DELTA_NS.
Definition AG_WEAKEST_QUORUM_THRESHOLD_NUMER : Z := 1.
Definition AG_WEAK_QUORUM_THRESHOLD_NUMER : Z := 2.
Definition AG_QUORUM_THRESHOLD_NUMER : Z := 3.
Definition AG_STRONG_QUORUM_THRESHOLD_NUMER : Z := 4.
Definition AG_QUORUM_THRESHOLD_DENOM : Z := 5.

(** * Block hashes and identifiers

    A [uchar[32]] is the list of its bytes; [memcmp(a,b,32)==0] is equality. *)

Abbreviation ag_block_hash_t := (list Z).

Definition hash_eqb (a b : ag_block_hash_t) : bool := bool_decide (a = b).

Definition zero_hash : ag_block_hash_t := replicate 32 0.

(** The sign of [memcmp( a, b, n )] on two byte arrays of one length. *)
Fixpoint memcmp (a b : list Z) : comparison :=
  match a, b with
  | x :: a', y :: b' => match x ?= y with Eq => memcmp a' b' | c => c end
  | [], [] => Eq
  | [], _ :: _ => Lt
  | _ :: _, [] => Gt
  end.

Record ag_block_id_t := ag_block_id { bid_slot : Z; bid_hash : ag_block_hash_t }.

#[export] Instance ag_block_id_eq_dec : EqDecision ag_block_id_t.
Proof. solve_decision. Defined.

#[export] Instance ag_block_id_countable : Countable ag_block_id_t.
Proof.
  apply (inj_countable' (fun b => (bid_slot b, bid_hash b))
           (fun p => ag_block_id p.1 p.2)).
  by intros [].
Defined.

#[export] Instance ag_block_id_inhabited : Inhabited ag_block_id_t :=
  populate (ag_block_id 0 zero_hash).

Definition ag_block_id_eq (a b : ag_block_id_t) : bool :=
  (bid_slot a =? bid_slot b) && hash_eqb (bid_hash a) (bid_hash b).

Record ag_block_info_t := mk_block_info {
  bi_hash : ag_block_hash_t;
  bi_parent : ag_block_id_t
}.

#[export] Instance ag_block_info_inhabited : Inhabited ag_block_info_t :=
  populate (mk_block_info zero_hash inhabitant).

(** * Leader windows *)

Definition ag_first_slot_in_window (slot : Z) : Z :=
  (slot / AG_SLOTS_PER_WINDOW) * AG_SLOTS_PER_WINDOW.

Definition ag_is_start_of_window (slot : Z) : bool :=
  slot mod AG_SLOTS_PER_WINDOW =? 0.

(** [fd_ulong_pow2_up] of src/src/util/bits/fd_bits.h, bit smearing. *)
Definition fd_ulong_pow2_up (x : Z) : Z :=
  let x := x -w 1 in
  let x := Z.lor x (Z.shiftr x 1) in
  let x := Z.lor x (Z.shiftr x 2) in
  let x := Z.lor x (Z.shiftr x 4) in
  let x := Z.lor x (Z.shiftr x 8) in
  let x := Z.lor x (Z.shiftr x 16) in
  let x := Z.lor x (Z.shiftr x 32) in
  x +w 1.

(** * Lemmas *)

Lemma hash_eqb_true a b : hash_eqb a b = true <-> a = b.
Proof. unfold hash_eqb. apply bool_decide_eq_true. Qed.

Lemma hash_eqb_false a b : hash_eqb a b = false <-> a <> b.
Proof. unfold hash_eqb. apply bool_decide_eq_false. Qed.

Lemma hash_eqb_refl a : hash_eqb a a = true.
Proof. by apply hash_eqb_true. Qed.

Lemma ag_block_id_eq_true a b : ag_block_id_eq a b = true <-> a = b.
Proof.
  unfold ag_block_id_eq. rewrite andb_true_iff, Z.eqb_eq, hash_eqb_true.
  destruct a, b; cbn. split; [intros [-> ->]; done|]. by intros [= -> ->].
Qed.

Lemma ag_block_id_eq_false a b : ag_block_id_eq a b = false <-> a <> b.
Proof.
  rewrite <- (ag_block_id_eq_true a b). destruct (ag_block_id_eq a b); split; congruence.
Qed.

Lemma memcmp_eq a b : memcmp a b = Eq <-> a = b.
Proof.
  revert b. induction a as [|x a IH]; intros [|y b]; cbn; try (split; congruence).
  destruct (x ?= y) eqn:E.
  - apply Z.compare_eq in E. subst. rewrite IH. split; congruence.
  - split; [done|]. intros [= -> ->]. by rewrite Z.compare_refl in E.
  - split; [done|]. intros [= -> ->]. by rewrite Z.compare_refl in E.
Qed.

Lemma memcmp_antisym a b : memcmp b a = CompOpp (memcmp a b).
Proof.
  revert b. induction a as [|x a IH]; intros [|y b]; cbn; try done.
  rewrite (Z.compare_antisym x y). destruct (x ?= y); cbn; auto.
Qed.

Lemma memcmp_lt_trans a b c : memcmp a b = Lt -> memcmp b c = Lt -> memcmp a c = Lt.
Proof.
  revert b c. induction a as [|x a IH]; intros [|y b] [|z c]; cbn; try done.
  destruct (Z.compare_spec x y), (Z.compare_spec y z), (Z.compare_spec x z);
    subst; try done; try lia; eauto.
Qed.

Lemma first_slot_bounds slot :
  ag_first_slot_in_window slot <= slot < ag_first_slot_in_window slot + AG_SLOTS_PER_WINDOW.
Proof.
  unfold ag_first_slot_in_window, AG_SLOTS_PER_WINDOW.
  pose proof (Z.div_mod slot 4). pose proof (Z.mod_pos_bound slot 4). lia.
Qed.

Lemma first_slot_start slot : ag_is_start_of_window (ag_first_slot_in_window slot) = true.
Proof.
  unfold ag_is_start_of_window, ag_first_slot_in_window, AG_SLOTS_PER_WINDOW.
  by rewrite Z.mod_mul.
Qed.

Lemma start_iff_first slot :
  ag_is_start_of_window slot = true <-> ag_first_slot_in_window slot = slot.
Proof.
  unfold ag_is_start_of_window, ag_first_slot_in_window, AG_SLOTS_PER_WINDOW.
  rewrite Z.eqb_eq. pose proof (Z.div_mod slot 4). lia.
Qed.

Lemma first_slot_idem slot :
  ag_first_slot_in_window (ag_first_slot_in_window slot) = ag_first_slot_in_window slot.
Proof. apply start_iff_first, first_slot_start. Qed.

Lemma first_slot_mono a b :
  a <= b -> ag_first_slot_in_window a <= ag_first_slot_in_window b.
Proof.
  intros. unfold ag_first_slot_in_window, AG_SLOTS_PER_WINDOW.
  pose proof (Z.div_le_mono a b 4). lia.
Qed.

(** A slot after the first of its window does not start a window. *)
Lemma inner_slot_not_start w s :
  ag_is_start_of_window w = true -> w < s < w + AG_SLOTS_PER_WINDOW ->
  ag_is_start_of_window s = false.
Proof.
  unfold ag_is_start_of_window, AG_SLOTS_PER_WINDOW.
  rewrite Z.eqb_eq, Z.eqb_neq. intros Hw Hs Hm.
  pose proof (Z.div_mod w 4). pose proof (Z.div_mod s 4). lia.
Qed.

(** The slots of the window that starts at [w] are those whose first slot is [w]. *)
Lemma window_slots w s :
  ag_is_start_of_window w = true ->
  w <= s < w + AG_SLOTS_PER_WINDOW <-> ag_first_slot_in_window s = w.
Proof.
  intros Hw. apply start_iff_first in Hw.
  pose proof (first_slot_bounds s). split; [|lia]. intros Hs.
  unfold ag_first_slot_in_window, AG_SLOTS_PER_WINDOW in *.
  pose proof (Z.div_mod s 4). pose proof (Z.mod_pos_bound s 4). lia.
Qed.

#[export] Hint Resolve hash_eqb_refl first_slot_start : choreo.
#[export] Hint Rewrite hash_eqb_true hash_eqb_false ag_block_id_eq_true
  ag_block_id_eq_false : choreo.
