(* ===== verification/Bls.v ===== *)
(** Aggregate BLS signatures (src/src/choreo/votor/ag_bls.h and ag_bls.c).

    The curve arithmetic itself, blst and the syscall wrappers of
    src/src/ballet/bls, is a parameter: the class [BlsOps] lists the entry
    points the voting library calls.  The signer set, the aggregation
    bookkeeping and the checks around the pairing are modelled. *)
From S2P Require Import Prelude VotorBase.

Definition AG_BLS_SIGNERS_MAX : Z := 2048.
Definition AG_BLS_SIG_SZ : Z := 192.
Definition AG_BLS_PUB_SZ : Z := 96.
Definition AG_BLS_PUB_COMPRESSED_SZ : Z := 48.
Definition AG_BLS_VERIFY_MAX : Z := 2.

Abbreviation ag_bls_sig_t := (list Z).
Abbreviation ag_bls_pub_t := (list Z).
Abbreviation ag_bls_sec_t := (list Z).

(** The cryptographic entry points.
    - [g2_add a b]: [fd_bls12_381_g2_add_syscall( r, a, b, 1 )], the bytes left in [r];
    - [g1_add a b]: [fd_bls12_381_g1_add_syscall], [None] when it reports an error;
    - [g2_is_inf s]: [blst_p2_deserialize] succeeds on [s] and yields the point at infinity;
    - [sec_sign sk msg]: [ag_bls_sec_sign];
    - [pub_validate pk]: [pub_validate] of ag_bls.c;
    - [pairing_is_one l s]: the product of pairings of [l] with the negated
      generator paired with [s] is computed without error and is the identity;
    - [g1_decompress b]: [fd_bls12_381_g1_decompress_syscall], [None] on error. *)
Class BlsOps := {
  g2_add : ag_bls_sig_t -> ag_bls_sig_t -> ag_bls_sig_t;
  g1_add : ag_bls_pub_t -> ag_bls_pub_t -> option ag_bls_pub_t;
  g2_is_inf : ag_bls_sig_t -> bool;
  sec_sign : ag_bls_sec_t -> list Z -> ag_bls_sig_t;
  pub_validate : ag_bls_pub_t -> bool;
  pairing_is_one : list (ag_bls_pub_t * list Z) -> ag_bls_sig_t -> bool;
  g1_decompress : list Z -> option ag_bls_pub_t
}.

(** * Signer sets: the fd_set of 2048 bits as one integer. *)

Definition signer_set_test (m rank : Z) : bool := Z.testbit m rank.
Definition signer_set_insert (m rank : Z) : Z := Z.setbit m rank.
Definition signer_set_cnt (m : Z) : Z :=
  Z.of_nat (length (filter (fun i => Z.testbit m i = true) (range 0 AG_BLS_SIGNERS_MAX))).
Definition signer_set_last (m : Z) : Z := if m =? 0 then ULONG_MAX else Z.log2 m.

Record ag_bls_agg_t := mk_agg { agg_sig : ag_bls_sig_t; agg_bitmask : Z }.

Definition zero_sig : ag_bls_sig_t := replicate 192 0.

Definition ag_bls_agg_zero : ag_bls_agg_t := mk_agg zero_sig 0.

#[export] Instance ag_bls_agg_eq_dec : EqDecision ag_bls_agg_t.
Proof. solve_decision. Defined.

Definition ag_bls_agg_is_signer (self : ag_bls_agg_t) (rank : Z) : bool :=
  if AG_BLS_SIGNERS_MAX <=? rank then false
  else signer_set_test (agg_bitmask self) rank.

Definition ag_bls_agg_signer_cnt (self : ag_bls_agg_t) : Z :=
  signer_set_cnt (agg_bitmask self).

Section Ops.
Context `{BlsOps}.

Definition ag_bls_agg_add (self : ag_bls_agg_t) (rank : Z) (sig : ag_bls_sig_t)
    : outcome ag_bls_agg_t :=
  check FdTest (rank <? AG_BLS_SIGNERS_MAX);;
  check FdTest (negb (signer_set_test (agg_bitmask self) rank));;
  let first := signer_set_cnt (agg_bitmask self) =? 0 in
  let bm := signer_set_insert (agg_bitmask self) rank in
  if first then Ok (mk_agg sig bm)
  else Ok (mk_agg (g2_add (agg_sig self) sig) bm).

(** [ag_bls_agg_merge dst src] returns both aggregates. *)
Definition ag_bls_agg_merge (dst src : ag_bls_agg_t) : ag_bls_agg_t * ag_bls_agg_t :=
  if signer_set_cnt (agg_bitmask src) =? 0 then (dst, src)
  else
    let sig := if signer_set_cnt (agg_bitmask dst) =? 0 then agg_sig src
               else g2_add (agg_sig dst) (agg_sig src) in
    (mk_agg sig (agg_bitmask dst), mk_agg zero_sig (agg_bitmask src)).

Definition ag_bls_agg_is_identity (self : ag_bls_agg_t) : bool := g2_is_inf (agg_sig self).

Definition pub_aggregate (pks : list ag_bls_pub_t) : option ag_bls_pub_t :=
  match pks with
  | [] => None
  | pk :: rest => foldl (fun acc p => a ← acc; g1_add a p) (Some pk) rest
  end.

Definition verify_pairs (pairs : list (ag_bls_pub_t * list Z)) (sig : ag_bls_sig_t) : bool :=
  let cnt := Z.of_nat (length pairs) in
  if (cnt =? 0) || (AG_BLS_VERIFY_MAX <? cnt) then false
  else if forallb (fun p => pub_validate p.1) pairs then pairing_is_one pairs sig
  else false.

Definition ag_bls_sig_verify (self : ag_bls_sig_t) (pk : ag_bls_pub_t) (msg : list Z) : bool :=
  verify_pairs [(pk, msg)] self.

(** The keys of the ranks in the set, in rank order; [pks] holds [pk_cnt] keys. *)
Definition gather (m : Z) (pks : list ag_bls_pub_t) : list ag_bls_pub_t :=
  omap (fun i => if signer_set_test m i then pks !! Z.to_nat i else None)
       (range 0 (Z.of_nat (length pks))).

Definition width_ok (m pk_cnt : Z) : bool :=
  negb (pk_cnt <? Z.min AG_BLS_SIGNERS_MAX (signer_set_last m +w 1)).

Definition ag_bls_agg_verify (self : ag_bls_agg_t) (msg : list Z) (pks : list ag_bls_pub_t) : bool :=
  if negb (width_ok (agg_bitmask self) (Z.of_nat (length pks))) then false
  else
    let gathered := gather (agg_bitmask self) pks in
    if Z.of_nat (length gathered) =? 0 then false
    else match pub_aggregate gathered with
         | None => false
         | Some apk => verify_pairs [(apk, msg)] (agg_sig self)
         end.

Definition ag_bls_agg_verify_without_bitmask (self : ag_bls_agg_t) (msg : list Z)
    (pks : list ag_bls_pub_t) : bool :=
  let pk_cnt := Z.of_nat (length pks) in
  if negb (ag_bls_agg_signer_cnt self =? pk_cnt) then false
  else if pk_cnt =? 0 then false
  else if AG_BLS_SIGNERS_MAX <? pk_cnt then false
  else match pub_aggregate pks with
       | None => false
       | Some apk => verify_pairs [(apk, msg)] (agg_sig self)
       end.

Definition ag_bls_agg_verify_merged (agg_base : ag_bls_agg_t) (msg_base : list Z)
    (agg_fb : ag_bls_agg_t) (msg_fb : list Z) (pks : list ag_bls_pub_t) : bool :=
  let pk_cnt := Z.of_nat (length pks) in
  if negb (width_ok (agg_bitmask agg_base) pk_cnt) then false
  else if negb (width_ok (agg_bitmask agg_fb) pk_cnt) then false
  else
    let g0 := gather (agg_bitmask agg_base) pks in
    let g1 := gather (agg_bitmask agg_fb) pks in
    (* a partition without signers contributes no pair; one whose keys do not
       aggregate rejects the whole certificate *)
    match (match g0 with [] => Some [] | _ => apk ← pub_aggregate g0; Some [(apk, msg_base)] end),
          (match g1 with [] => Some [] | _ => apk ← pub_aggregate g1; Some [(apk, msg_fb)] end) with
    | Some p0, Some p1 =>
        if (Z.of_nat (length g0) =? 0) && (Z.of_nat (length g1) =? 0) then false
        else verify_pairs (p0 ++ p1) (agg_sig agg_base)
    | _, _ => false
    end.

End Ops.

(** * Lemmas on signer sets *)

Lemma signer_test_insert m i j :
  0 <= i -> signer_set_test (signer_set_insert m i) j = (j =? i) || signer_set_test m j.
Proof.
  unfold signer_set_test, signer_set_insert. intros Hi.
  rewrite Z.setbit_eqb by done. by rewrite (Z.eqb_sym i j).
Qed.

Lemma signer_set_insert_nonneg m i : 0 <= m -> 0 <= signer_set_insert m i.
Proof. intros. unfold signer_set_insert. rewrite Z.setbit_spec'. apply Z.lor_nonneg.
  split; [done|]. destruct (decide (0 <= i)); [apply Z.pow_nonneg; lia|].
  rewrite Z.pow_neg_r by lia. lia. Qed.

Lemma signer_set_cnt_zero m :
  signer_set_cnt m = 0 <-> forall i, 0 <= i < AG_BLS_SIGNERS_MAX -> signer_set_test m i = false.
Proof.
  unfold signer_set_cnt. split.
  - intros Hl i Hi. destruct (signer_set_test m i) eqn:E; [|done].
    assert (i ∈ filter (fun i => Z.testbit m i = true) (range 0 AG_BLS_SIGNERS_MAX)) as Hin.
    { apply list_elem_of_filter. split; [done|]. by apply elem_of_range. }
    destruct (filter _ _); [by apply elem_of_nil in Hin|cbn in Hl; lia].
  - intros Hz. destruct (filter _ _) as [|x l] eqn:E; [done|].
    assert (x ∈ filter (fun i => Z.testbit m i = true) (range 0 AG_BLS_SIGNERS_MAX)) as Hin
      by (rewrite E; constructor).
    apply list_elem_of_filter in Hin as [Ht Hr].
    apply elem_of_range in Hr. specialize (Hz x Hr). unfold signer_set_test in Hz. congruence.
Qed.

(** * A concrete instance

    Signatures under byte-wise addition: enough structure to run the library on
    concrete inputs. *)
Definition sample_bls : BlsOps := {|
  g2_add a b := zip_with (fun x y => (x + y) mod 256) a b;
  g1_add a b := Some (zip_with (fun x y => (x + y) mod 256) a b);
  g2_is_inf s := forallb (fun b => b =? 0) s;
  sec_sign sk msg := take 192 (sk ++ msg ++ replicate 192 1);
  pub_validate pk := Z.of_nat (length pk) =? AG_BLS_PUB_SZ;
  pairing_is_one l s := negb (Z.of_nat (length l) =? 0) && (Z.of_nat (length s) =? AG_BLS_SIG_SZ);
  g1_decompress b := if Z.of_nat (length b) =? AG_BLS_PUB_COMPRESSED_SZ then Some (b ++ b) else None
|}.
