(* ===== verification/Vote.v ===== *)
(** Alpenglow votes (src/src/choreo/votor/ag_vote.h, ag_vote.c) and their wire
    and signing formats (ag_vote_serde.h, ag_vote_serde.c). *)
From S2P Require Import Prelude VotorBase Bls.

(** * Data *)

Record ag_vote_notar_t := mk_notar {
  vn_slot : Z; vn_block_hash : ag_block_hash_t; vn_sig : ag_bls_sig_t; vn_rank : Z }.
Record ag_vote_notar_fallback_t := mk_notar_fallback {
  vnf_slot : Z; vnf_block_hash : ag_block_hash_t; vnf_sig : ag_bls_sig_t; vnf_rank : Z }.
Record ag_vote_skip_t := mk_skip { vs_slot : Z; vs_sig : ag_bls_sig_t; vs_rank : Z }.
Record ag_vote_skip_fallback_t := mk_skip_fallback {
  vsf_slot : Z; vsf_sig : ag_bls_sig_t; vsf_rank : Z }.
Record ag_vote_final_t := mk_final { vf_slot : Z; vf_sig : ag_bls_sig_t; vf_rank : Z }.

(** The tagged union [ag_vote_t]; the constructors are the [AG_VOTE_KIND_*] tags. *)
Inductive ag_vote_t :=
| Notar (v : ag_vote_notar_t)
| Final (v : ag_vote_final_t)
| Skip (v : ag_vote_skip_t)
| NotarFallback (v : ag_vote_notar_fallback_t)
| SkipFallback (v : ag_vote_skip_fallback_t).

#[export] Instance ag_vote_notar_eq_dec : EqDecision ag_vote_notar_t.
Proof. solve_decision. Defined.
#[export] Instance ag_vote_notar_fallback_eq_dec : EqDecision ag_vote_notar_fallback_t.
Proof. solve_decision. Defined.
#[export] Instance ag_vote_skip_eq_dec : EqDecision ag_vote_skip_t.
Proof. solve_decision. Defined.
#[export] Instance ag_vote_skip_fallback_eq_dec : EqDecision ag_vote_skip_fallback_t.
Proof. solve_decision. Defined.
#[export] Instance ag_vote_final_eq_dec : EqDecision ag_vote_final_t.
Proof. solve_decision. Defined.
#[export] Instance ag_vote_eq_dec : EqDecision ag_vote_t.
Proof. solve_decision. Defined.

Definition ag_vote_kind (self : ag_vote_t) : Z :=
  match self with
  | Notar _ => 0 | Final _ => 1 | Skip _ => 2 | NotarFallback _ => 3 | SkipFallback _ => 4
  end.

Definition ag_vote_slot (self : ag_vote_t) : Z :=
  match self with
  | Notar v => vn_slot v
  | NotarFallback v => vnf_slot v
  | Skip v => vs_slot v
  | SkipFallback v => vsf_slot v
  | Final v => vf_slot v
  end.

Definition ag_vote_rank (self : ag_vote_t) : Z :=
  match self with
  | Notar v => vn_rank v
  | NotarFallback v => vnf_rank v
  | Skip v => vs_rank v
  | SkipFallback v => vsf_rank v
  | Final v => vf_rank v
  end.

Definition ag_vote_set_rank (self : ag_vote_t) (rank : Z) : ag_vote_t :=
  match self with
  | Notar v => Notar (mk_notar (vn_slot v) (vn_block_hash v) (vn_sig v) rank)
  | NotarFallback v =>
      NotarFallback (mk_notar_fallback (vnf_slot v) (vnf_block_hash v) (vnf_sig v) rank)
  | Skip v => Skip (mk_skip (vs_slot v) (vs_sig v) rank)
  | SkipFallback v => SkipFallback (mk_skip_fallback (vsf_slot v) (vsf_sig v) rank)
  | Final v => Final (mk_final (vf_slot v) (vf_sig v) rank)
  end.

Definition sig (self : ag_vote_t) : ag_bls_sig_t :=
  match self with
  | Notar v => vn_sig v
  | Final v => vf_sig v
  | Skip v => vs_sig v
  | NotarFallback v => vnf_sig v
  | SkipFallback v => vsf_sig v
  end.

Definition block_hash (self : ag_vote_t) : option ag_block_hash_t :=
  match self with
  | Notar v => Some (vn_block_hash v)
  | NotarFallback v => Some (vnf_block_hash v)
  | Final _ | Skip _ | SkipFallback _ => None
  end.

(** * Serialization *)

Definition AG_VOTE_SERDE_TAG_NOTAR : Z := 1.

Definition opt_bytes (h : option (list Z)) : list Z := default [] h.

Definition ag_vote_ser (self : ag_vote_t) (shred_version : Z) : list Z :=
  [1] ++ [ag_vote_kind self + AG_VOTE_SERDE_TAG_NOTAR] ++ le_store 8 (ag_vote_slot self)
  ++ opt_bytes (block_hash self) ++ sig self ++ le_store 2 shred_version.

Definition ag_vote_signing_ser (self : ag_vote_t) (shred_version : Z) : list Z :=
  [ag_vote_kind self + AG_VOTE_SERDE_TAG_NOTAR] ++ le_store 8 (ag_vote_slot self)
  ++ opt_bytes (block_hash self) ++ le_store 2 shred_version.

Inductive de_err := ErrSz | ErrInval | ErrShredVersion.

Definition AG_VOTE_SER_SZ (has_block_id : bool) : Z :=
  1 + 1 + 8 + (if has_block_id then 32 else 0) + AG_BLS_SIG_SZ + 2.

(** The bytes [buf[off..off+n)]. *)
Definition bytes_at (buf : list Z) (off n : Z) : list Z :=
  take (Z.to_nat n) (drop (Z.to_nat off) buf).

Definition byte_at (buf : list Z) (off : Z) : Z := default 0 (buf !! Z.to_nat off).

(** The [uint] difference [(uint)tag - base] wraps below zero. *)
Definition kind_of_tag (tag base : Z) : Z := (tag - base) mod 4294967296.

Definition ag_vote_de (shred_version : Z) (buf : list Z) : ag_vote_t + de_err :=
  let buf_sz := Z.of_nat (length buf) in
  if buf_sz <? 2 then inr ErrSz else
  let version := byte_at buf 0 in
  let tag := byte_at buf 1 in
  if negb (version =? 1) then inr ErrInval else
  let kind := kind_of_tag tag AG_VOTE_SERDE_TAG_NOTAR in
  let has_block_id := (kind =? 0) || (kind =? 3) in
  if negb (buf_sz =? AG_VOTE_SER_SZ has_block_id) then inr ErrSz else
  let slot := le_load (bytes_at buf 2 8) in
  let block_id := bytes_at buf 10 32 in
  let off := if has_block_id then 42 else 10 in
  let signature := bytes_at buf off AG_BLS_SIG_SZ in
  let version' := le_load (bytes_at buf (off + AG_BLS_SIG_SZ) 2) in
  if negb (version' =? shred_version) then inr ErrShredVersion else
  if kind =? 0 then inl (Notar (mk_notar slot block_id signature USHORT_MAX))
  else if kind =? 1 then inl (Final (mk_final slot signature USHORT_MAX))
  else if kind =? 2 then inl (Skip (mk_skip slot signature USHORT_MAX))
  else if kind =? 3 then inl (NotarFallback (mk_notar_fallback slot block_id signature USHORT_MAX))
  else if kind =? 4 then inl (SkipFallback (mk_skip_fallback slot signature USHORT_MAX))
  else inr ErrInval.

(** * Signing *)

Section Signing.
Context `{BlsOps}.

Definition sign (self : ag_vote_t) (sec : ag_bls_sec_t) (shred_version : Z) : ag_bls_sig_t :=
  sec_sign sec (ag_vote_signing_ser self shred_version).

Definition verify (self : ag_vote_t) (s : ag_bls_sig_t) (pub : ag_bls_pub_t)
    (shred_version : Z) : bool :=
  ag_bls_sig_verify s pub (ag_vote_signing_ser self shred_version).

Definition ag_vote_construct_notar (slot : Z) (hash : ag_block_hash_t) (sec : ag_bls_sec_t)
    (rank shred_version : Z) : ag_vote_t :=
  let vote := mk_notar slot hash zero_sig rank in
  Notar (mk_notar slot hash (sign (Notar vote) sec shred_version) rank).

Definition ag_vote_construct_notar_fallback (slot : Z) (hash : ag_block_hash_t)
    (sec : ag_bls_sec_t) (rank shred_version : Z) : ag_vote_t :=
  let vote := mk_notar_fallback slot hash zero_sig rank in
  NotarFallback
    (mk_notar_fallback slot hash (sign (NotarFallback vote) sec shred_version) rank).

Definition ag_vote_construct_skip (slot : Z) (sec : ag_bls_sec_t) (rank shred_version : Z)
    : ag_vote_t :=
  let vote := mk_skip slot zero_sig rank in
  Skip (mk_skip slot (sign (Skip vote) sec shred_version) rank).

Definition ag_vote_construct_skip_fallback (slot : Z) (sec : ag_bls_sec_t)
    (rank shred_version : Z) : ag_vote_t :=
  let vote := mk_skip_fallback slot zero_sig rank in
  SkipFallback (mk_skip_fallback slot (sign (SkipFallback vote) sec shred_version) rank).

Definition ag_vote_construct_final (slot : Z) (sec : ag_bls_sec_t) (rank shred_version : Z)
    : ag_vote_t :=
  let vote := mk_final slot zero_sig rank in
  Final (mk_final slot (sign (Final vote) sec shred_version) rank).

Definition ag_vote_verify (self : ag_vote_t) (pub : ag_bls_pub_t) (shred_version : Z) : bool :=
  match self with
  | Notar v => verify self (vn_sig v) pub shred_version
  | NotarFallback v => verify self (vnf_sig v) pub shred_version
  | Skip v => verify self (vs_sig v) pub shred_version
  | SkipFallback v => verify self (vsf_sig v) pub shred_version
  | Final v => verify self (vf_sig v) pub shred_version
  end.

End Signing.

(** * Well-formedness and round trips *)

(** The sizes and widths C's types give a vote. *)
Definition vote_wf (v : ag_vote_t) : Prop :=
  is_u64 (ag_vote_slot v) /\ 0 <= ag_vote_rank v <= USHORT_MAX /\
  length (sig v) = 192%nat /\ Forall is_byte (sig v) /\
  match block_hash v with
  | Some h => length h = 32%nat /\ Forall is_byte h
  | None => True
  end.

(** A field in the middle of a buffer. *)
Lemma bytes_at_mid pre mid post off n :
  off = Z.of_nat (length pre) -> n = Z.of_nat (length mid) ->
  bytes_at (pre ++ mid ++ post) off n = mid.
Proof.
  intros -> ->. unfold bytes_at. rewrite !Nat2Z.id, drop_app_length. apply take_app_length.
Qed.

Lemma le_load_store_u64 v : is_u64 v -> le_load (le_store 8 v) = v.
Proof. unfold is_u64, ULONG_MAX. intros. apply le_load_store. cbn. lia. Qed.

Lemma le_load_store_u16 v : 0 <= v <= USHORT_MAX -> le_load (le_store 2 v) = v.
Proof. unfold USHORT_MAX. intros. apply le_load_store. cbn. lia. Qed.

Lemma le_store_u64_inj a b : is_u64 a -> is_u64 b -> le_store 8 a = le_store 8 b -> a = b.
Proof. unfold is_u64, ULONG_MAX. intros ??. apply le_store_inj; cbn; lia. Qed.

(** A wire vote: two tag bytes, the slot, an optional block id, the signature
    and the shred version. *)
Definition vote_frame (tag slot : Z) (hb s : list Z) (sv : Z) : list Z :=
  [1] ++ [tag] ++ le_store 8 slot ++ hb ++ s ++ le_store 2 sv.

Lemma ag_vote_ser_frame v sv :
  ag_vote_ser v sv =
  vote_frame (ag_vote_kind v + AG_VOTE_SERDE_TAG_NOTAR) (ag_vote_slot v)
    (opt_bytes (block_hash v)) (sig v) sv.
Proof. done. Qed.

Section Frame.
Context (tag slot sv : Z) (hb s : list Z).
Context (Hslot : is_u64 slot) (Hsv : 0 <= sv <= USHORT_MAX) (Hs : length s = 192%nat).

Lemma frame_length :
  Z.of_nat (length (vote_frame tag slot hb s sv)) = 204 + Z.of_nat (length hb).
Proof. unfold vote_frame. rewrite !length_app, !le_store_length, Hs. cbn [length]. lia. Qed.

Lemma frame_slot : le_load (bytes_at (vote_frame tag slot hb s sv) 2 8) = slot.
Proof.
  unfold vote_frame. rewrite (app_assoc [1] [tag]).
  rewrite bytes_at_mid; [by apply le_load_store_u64|done|by rewrite le_store_length].
Qed.

Lemma frame_block_id n :
  n = Z.of_nat (length hb) -> bytes_at (vote_frame tag slot hb s sv) 10 n = hb.
Proof.
  intros ->. unfold vote_frame. rewrite (app_assoc [1] [tag]), (app_assoc ([1] ++ [tag])).
  rewrite bytes_at_mid; [done| |done]. rewrite length_app, le_store_length. done.
Qed.

Lemma frame_sig off :
  off = 10 + Z.of_nat (length hb) ->
  bytes_at (vote_frame tag slot hb s sv) off AG_BLS_SIG_SZ = s.
Proof.
  intros ->. unfold vote_frame.
  rewrite (app_assoc [1] [tag]), (app_assoc ([1] ++ [tag])), (app_assoc _ hb).
  rewrite bytes_at_mid; [done| |unfold AG_BLS_SIG_SZ; lia].
  rewrite !length_app, le_store_length. cbn [length]. lia.
Qed.

Lemma frame_version off :
  off = 10 + Z.of_nat (length hb) ->
  le_load (bytes_at (vote_frame tag slot hb s sv) (off + AG_BLS_SIG_SZ) 2) = sv.
Proof.
  intros ->. unfold vote_frame.
  rewrite (app_assoc [1] [tag]), (app_assoc ([1] ++ [tag])), (app_assoc _ hb), (app_assoc _ s).
  rewrite <- (app_nil_r (le_store 2 sv)).
  rewrite bytes_at_mid; [by apply le_load_store_u16| |by rewrite le_store_length].
  rewrite !length_app, le_store_length, Hs. unfold AG_BLS_SIG_SZ. cbn [length]. lia.
Qed.

End Frame.

(** A buffer of bytes splits into the fields the decoder reads. *)
Lemma frame_of_bytes buf k :
  Z.of_nat (length buf) = 204 + k -> 0 <= k -> Forall is_byte buf -> byte_at buf 0 = 1 ->
  buf = vote_frame (byte_at buf 1) (le_load (bytes_at buf 2 8)) (bytes_at buf 10 k)
          (bytes_at buf (10 + k) AG_BLS_SIG_SZ) (le_load (bytes_at buf (10 + k + AG_BLS_SIG_SZ) 2)).
Proof.
  intros Hl Hk Hb H0. unfold vote_frame, AG_BLS_SIG_SZ.
  assert (forall off n : Z, 0 <= off -> 0 <= n -> off + n <= Z.of_nat (length buf) ->
            le_store (Z.to_nat n) (le_load (bytes_at buf off n)) = bytes_at buf off n) as Hle.
  { intros off n Ho Hn Hon. rewrite <- (le_store_load (bytes_at buf off n)) at 2.
    - f_equal. unfold bytes_at. rewrite length_take, length_drop. lia.
    - by apply Forall_take, Forall_drop. }
  pose proof (Hle 2 8 ltac:(lia) ltac:(lia) ltac:(lia)) as E1.
  pose proof (Hle (10 + k + 192) 2 ltac:(lia) ltac:(lia) ltac:(lia)) as E2. clear Hle.
  change (Z.to_nat 8) with 8%nat in E1. change (Z.to_nat 2) with 2%nat in E2.
  rewrite E1, E2. clear E1 E2.
  destruct buf as [|b0 [|b1 buf]]; cbn [length] in Hl; [lia|lia|].
  change (b0 = 1) in H0. subst b0. cbn [app].
  f_equal. change (byte_at (1 :: b1 :: buf) 1) with b1. f_equal.
  unfold bytes_at.
  replace (Z.to_nat (10 + k + 192)) with (S (S (8 + (Z.to_nat k + 192))))%nat by lia.
  replace (Z.to_nat (10 + k)) with (S (S (8 + Z.to_nat k)))%nat by lia.
  change (Z.to_nat 10) with 10%nat. change (Z.to_nat 2) with 2%nat. cbn [drop].
  change (Z.to_nat 8) with 8%nat. change (Z.to_nat 192) with 192%nat.
  rewrite <- (take_drop 8 buf) at 1. f_equal.
  rewrite <- !drop_drop.
  change (drop 0 buf) with buf.
  set (r := drop 8 buf). rewrite <- (take_drop (Z.to_nat k) r) at 1. f_equal.
  set (q := drop (Z.to_nat k) r). rewrite <- (take_drop 192 q) at 1. f_equal.
  symmetry. apply take_ge. unfold q, r. rewrite !length_drop. lia.
Qed.

(** a vote survives its wire format.  Decoding the bytes [ag_vote_ser] writes,
    under the shred version it was written with, yields the vote itself, the
    rank apart, which the wire does not carry and [ag_vote_de] sets to
    [USHORT_MAX]. *)
Theorem ag_vote_ser_de v sv :
  vote_wf v -> 0 <= sv <= USHORT_MAX ->
  ag_vote_de sv (ag_vote_ser v sv) = inl (ag_vote_set_rank v USHORT_MAX).
Proof.
  intros (Hslot & _ & Hs & _ & Hh) Hsv. rewrite ag_vote_ser_frame.
  unfold ag_vote_de. cbv zeta. rewrite frame_length by done.
  set (f := vote_frame _ _ _ _ _).
  assert (byte_at f 0 = 1) as -> by done.
  assert (byte_at f 1 = ag_vote_kind v + AG_VOTE_SERDE_TAG_NOTAR) as -> by done.
  assert (le_load (bytes_at f 2 8) = ag_vote_slot v) as -> by by apply frame_slot.
  destruct v as [[slot h s r]|[slot s r]|[slot s r]|[slot h s r]|[slot s r]];
    cbn in Hslot, Hs, Hh; destruct_and?;
    cbn [ag_vote_kind block_hash opt_bytes default from_option id vn_block_hash vnf_block_hash] in f |- *;
    unfold f, AG_VOTE_SER_SZ, AG_VOTE_SERDE_TAG_NOTAR;
    try rewrite (frame_block_id _ _ _ h) by lia;
    repeat match goal with |- context [kind_of_tag ?a ?b] =>
      let k := eval vm_compute in (kind_of_tag a b) in change (kind_of_tag a b) with k end;
    cbn [Z.eqb orb negb Pos.eqb ag_vote_slot sig vn_slot vn_sig vnf_slot vnf_sig vs_slot vs_sig
         vsf_slot vsf_sig vf_slot vf_sig ag_vote_set_rank vn_block_hash vnf_block_hash] in *;
    rewrite ?frame_sig, ?frame_version by (done || (cbn [length]; lia));
    rewrite Z.eqb_refl; unfold AG_BLS_SIG_SZ; cbn [length];
    repeat match goal with |- context [?a =? ?b] => 
      first [replace (a =? b) with true by (symmetry; apply Z.eqb_eq; lia)
            |replace (a =? b) with false by (symmetry; apply Z.eqb_neq; lia)] end;
    repeat match goal with |- context [?a <? ?b] =>
      replace (a <? b) with false by (symmetry; apply Z.ltb_ge; lia) end;
    reflexivity.
Qed.

Lemma ag_vote_ser_de_witness :
  ag_vote_de 7 (ag_vote_ser (Notar (mk_notar 12 zero_hash zero_sig 3)) 7)
  = inl (Notar (mk_notar 12 zero_hash zero_sig USHORT_MAX)).
Proof.
  apply (ag_vote_ser_de (Notar (mk_notar 12 zero_hash zero_sig 3)) 7).
  - repeat split; try (cbn; unfold ULONG_MAX, USHORT_MAX; lia);
      repeat constructor; cbn; lia.
  - unfold USHORT_MAX. lia.
Defined.

Lemma bytes_at_length buf off n :
  0 <= off -> 0 <= n -> off + n <= Z.of_nat (length buf) ->
  length (bytes_at buf off n) = Z.to_nat n.
Proof. intros. unfold bytes_at. rewrite length_take, length_drop. lia. Qed.

Lemma bytes_at_bytes buf off n : Forall is_byte buf -> Forall is_byte (bytes_at buf off n).
Proof. intros. by apply Forall_take, Forall_drop. Qed.

Lemma le_load_u64 buf off :
  0 <= off -> off + 8 <= Z.of_nat (length buf) -> Forall is_byte buf ->
  is_u64 (le_load (bytes_at buf off 8)).
Proof.
  intros Ho Hl Hb. pose proof (le_load_range (bytes_at buf off 8) (bytes_at_bytes _ _ _ Hb)) as Hr.
  rewrite bytes_at_length in Hr by lia. unfold is_u64, ULONG_MAX.
  change (256 ^ Z.of_nat (Z.to_nat 8)) with 18446744073709551616 in Hr. lia.
Qed.

Lemma kind_of_tag_inj tag k :
  is_byte tag -> kind_of_tag tag AG_VOTE_SERDE_TAG_NOTAR = k -> 0 <= k <= 4 -> tag = k + 1.
Proof.
  unfold is_byte, kind_of_tag, AG_VOTE_SERDE_TAG_NOTAR. intros Hb <- Hk.
  destruct (decide (tag = 0)) as [->|]; [|rewrite Z.mod_small by lia; lia].
  change ((0 - 1) mod 4294967296) with 4294967295 in Hk. lia.
Qed.

Lemma byte_at_byte buf off : Forall is_byte buf -> is_byte (byte_at buf off).
Proof.
  intros Hb. unfold byte_at. destruct (buf !! Z.to_nat off) eqn:E; cbn; [|unfold is_byte; lia].
  by eapply Forall_lookup_1 in E.
Qed.

(** the wire format is canonical.  Whatever [ag_vote_de] accepts is exactly what
    [ag_vote_ser] writes for the vote it returns, and that vote is well formed:
    no two distinct byte strings decode to one vote, and no trailing bytes,
    unknown tags or foreign shred versions are accepted. *)
Theorem ag_vote_de_canonical sv buf v :
  Forall is_byte buf -> ag_vote_de sv buf = inl v ->
  ag_vote_ser v sv = buf /\ vote_wf v /\ ag_vote_rank v = USHORT_MAX.
Proof.
  intros Hb. unfold ag_vote_de. cbv zeta.
  set (kind := kind_of_tag _ _). set (has := (kind =? 0) || (kind =? 3)).
  destruct (_ <? 2) eqn:E0; [done|]. destruct (negb (_ =? 1)) eqn:E1; [done|].
  destruct (negb (_ =? AG_VOTE_SER_SZ has)) eqn:E2; [done|].
  destruct (negb (le_load _ =? sv)) eqn:E3; [done|]. boolp. subst sv.
  pose proof (byte_at_byte buf 1 Hb) as Hb1.
  pose proof (kind_of_tag_inj _ kind Hb1 eq_refl) as Htag.
  set (k := if has then 32 else 0).
  assert ((if has then 42 else 10) = 10 + k) as Hoff by (unfold k; by destruct has).
  rewrite Hoff.
  assert (Z.of_nat (length buf) = 204 + k) as Hlen
    by (unfold k; rewrite E2; unfold AG_VOTE_SER_SZ, AG_BLS_SIG_SZ; destruct has; lia).
  pose proof (frame_of_bytes buf k Hlen ltac:(unfold k; destruct has; lia) Hb E1) as Hf.
  pose proof (le_load_u64 buf 2 ltac:(lia) ltac:(unfold k in *; destruct has; lia) Hb) as Hslot.
  pose proof (bytes_at_length buf (10 + k) AG_BLS_SIG_SZ) as Hsl.
  pose proof (bytes_at_length buf 10 32) as Hhl.
  assert (forall o n, Forall is_byte (bytes_at buf o n)) as Hbs by (intros; by apply bytes_at_bytes).
  unfold USHORT_MAX, AG_BLS_SIG_SZ in *.
  intros Hv. unfold k in *. clearbody kind. unfold has in *.
  assert (kind = 0 \/ kind = 1 \/ kind = 2 \/ kind = 3 \/ kind = 4) as Hk.
  { destruct (kind =? 0) eqn:?, (kind =? 1) eqn:?, (kind =? 2) eqn:?, (kind =? 3) eqn:?,
      (kind =? 4) eqn:?; boolp; try lia; done. }
  destruct Hk as [->|[->|[->|[->| ->]]]]; cbn in Hv, Hsl, Hlen, Hhl; injection Hv as <-;
    rewrite ag_vote_ser_frame; rewrite Htag in Hf by lia;
    (split; [symmetry; exact Hf
            |split; [repeat split; cbn; unfold USHORT_MAX; auto; try apply Hslot; try lia; try (apply Hsl; lia); try (apply Hhl; lia)
                    |done]]).
Qed.

Lemma ag_vote_de_canonical_witness :
  ag_vote_ser (Skip (mk_skip 9 zero_sig USHORT_MAX)) 7 = [1; 3; 9] ++ replicate 199 0 ++ [7; 0].
Proof.
  apply (ag_vote_de_canonical 7 ([1; 3; 9] ++ replicate 199 0 ++ [7; 0])).
  - repeat (constructor; [unfold is_byte; lia|]). constructor.
  - vm_compute. reflexivity.
Defined.

(** signed payloads are domain separated.  Two well-formed votes that sign the
    same bytes have the same kind, slot and block hash and were signed under the
    same shred version: a signature on one vote never counts as a signature on
    another. *)
Theorem ag_vote_signing_ser_inj v1 v2 sv1 sv2 :
  vote_wf v1 -> vote_wf v2 -> 0 <= sv1 <= USHORT_MAX -> 0 <= sv2 <= USHORT_MAX ->
  ag_vote_signing_ser v1 sv1 = ag_vote_signing_ser v2 sv2 ->
  ag_vote_kind v1 = ag_vote_kind v2 /\ ag_vote_slot v1 = ag_vote_slot v2 /\
  block_hash v1 = block_hash v2 /\ sv1 = sv2.
Proof.
  intros (Hs1 & _ & _ & _ & Hh1) (Hs2 & _ & _ & _ & Hh2) Hv1 Hv2.
  unfold ag_vote_signing_ser. intros [Hk E]%app_inj_1; [|done].
  injection Hk as Hk. apply app_inj_1 in E as [Hslot E]; [|by rewrite !le_store_length].
  apply le_store_u64_inj in Hslot; [|done..].
  apply app_inj_2 in E as [Hh Hsv]; [|by rewrite !le_store_length].
  apply le_store_inj in Hsv; [|unfold USHORT_MAX in *; cbn; lia..].
  assert (ag_vote_kind v1 = ag_vote_kind v2) as Hk' by lia.
  split_and!; [done..| |done].
  destruct v1, v2; cbn in *; try lia; try done; by f_equal.
Qed.

Lemma ag_vote_signing_ser_inj_witness :
  exists v1 v2, v1 <> v2 /\ ag_vote_signing_ser v1 7 = ag_vote_signing_ser v2 7 /\
    ag_vote_slot v1 = ag_vote_slot v2.
Proof.
  exists (Skip (mk_skip 9 zero_sig 1)), (Skip (mk_skip 9 zero_sig 2)).
  split; [congruence|]. split; [reflexivity|].
  apply (ag_vote_signing_ser_inj (Skip (mk_skip 9 zero_sig 1)) (Skip (mk_skip 9 zero_sig 2)) 7 7);
    try (unfold USHORT_MAX; lia); try reflexivity;
    (repeat split; cbn; unfold ULONG_MAX, USHORT_MAX; try lia;
     repeat (constructor; [unfold is_byte; lia|]); constructor).
Defined.
