(* ===== verification/EpochInfo.v ===== *)
(** Validator sets and stake quorums (src/src/choreo/votor/ag_epoch_info.h and
    ag_epoch_info.c): quorum tests, the leader of a slot, and the ranking of the
    staked validators of an epoch. *)
From S2P Require Import Prelude VotorBase Bls.

Record ag_validator_info_t := mk_validator {
  vi_id : Z;
  vi_stake : Z;
  vi_id_key : list Z;
  vi_vote_key : list Z;
  vi_bls_key : ag_bls_pub_t
}.

(** [validators] and [pubkeys] hold the live prefix, [validator_cnt] entries. *)
Record ag_epoch_info_t := mk_epoch_info {
  ei_validator_cnt : Z;
  ei_total_stake : Z;
  ei_validators : list ag_validator_info_t;
  ei_pubkeys : list ag_bls_pub_t
}.

(** * Construction from a ranked list *)

Definition ag_epoch_info (validators : list ag_validator_info_t) : outcome ag_epoch_info_t :=
  st ← ofold (fun '(i, total) v =>
                check FdTest (vi_id v =? i);;
                Ok (i + 1, total +w vi_stake v)) (0, 0) validators;
  Ok (mk_epoch_info (Z.of_nat (length validators)) st.2 validators []).

(** * Quorums: the products are computed in 128 bits and cannot wrap. *)

Definition fraction_is_met (stake total numer denom : Z) : bool :=
  total * numer <=? stake * denom.

Definition ag_epoch_info_is_weakest_quorum (self : ag_epoch_info_t) (stake : Z) : bool :=
  fraction_is_met stake (ei_total_stake self) AG_WEAKEST_QUORUM_THRESHOLD_NUMER AG_QUORUM_THRESHOLD_DENOM.
Definition ag_epoch_info_is_weak_quorum (self : ag_epoch_info_t) (stake : Z) : bool :=
  fraction_is_met stake (ei_total_stake self) AG_WEAK_QUORUM_THRESHOLD_NUMER AG_QUORUM_THRESHOLD_DENOM.
Definition ag_epoch_info_is_quorum (self : ag_epoch_info_t) (stake : Z) : bool :=
  fraction_is_met stake (ei_total_stake self) AG_QUORUM_THRESHOLD_NUMER AG_QUORUM_THRESHOLD_DENOM.
Definition ag_epoch_info_is_strong_quorum (self : ag_epoch_info_t) (stake : Z) : bool :=
  fraction_is_met stake (ei_total_stake self) AG_STRONG_QUORUM_THRESHOLD_NUMER AG_QUORUM_THRESHOLD_DENOM.

Definition ag_epoch_info_validator (self : ag_epoch_info_t) (rank : Z) : outcome ag_validator_info_t :=
  check FdTest (rank <? ei_validator_cnt self);;
  match ei_validators self !! Z.to_nat rank with
  | Some v => Ok v
  | None => Fail OutOfBounds
  end.

Definition ag_epoch_info_leader (self : ag_epoch_info_t) (slot : Z) : outcome ag_validator_info_t :=
  let window := slot / AG_SLOTS_PER_WINDOW in
  let leader_id := window mod ei_validator_cnt self in
  ag_epoch_info_validator self leader_id.

(** * Ranking *)

(** fd_vote_stake_weight_t *)
Record fd_vote_stake_weight_t := mk_stake_weight {
  sw_vote_key : list Z;
  sw_id_key : list Z;
  sw_bls_key : list Z;
  sw_stake : Z
}.

(** epoch_info_rank_t; [er_src] is the index of the stake entry and
    [er_entry] the entry it points to. *)
Record epoch_info_rank_t := mk_rank {
  er_stake : Z;
  er_bls : list Z;
  er_id : list Z;
  er_src : Z;
  er_drop : bool;
  er_pk : ag_bls_pub_t;
  er_entry : fd_vote_stake_weight_t
}.

Definition set_drop (r : epoch_info_rank_t) : epoch_info_rank_t :=
  mk_rank (er_stake r) (er_bls r) (er_id r) (er_src r) true (er_pk r) (er_entry r).

(** The three [SORT_BEFORE] orders. *)
Definition rank_before (a b : epoch_info_rank_t) : bool :=
  (er_stake b <? er_stake a) ||
  ((er_stake a =? er_stake b) && match memcmp (er_bls a) (er_bls b) with Lt => true | _ => false end).
Definition bls_before (a b : epoch_info_rank_t) : bool :=
  match memcmp (er_bls a) (er_bls b) with Lt => true | _ => false end.
Definition id_before (a b : epoch_info_rank_t) : bool :=
  match memcmp (er_id a) (er_id b) with Lt => true | _ => false end.

(** What the sort template (src/src/util/tmpl/fd_sort.c) promises its callers:
    a permutation in which no element is [SORT_BEFORE] one that precedes it,
    for a strict weak order. *)
Class InplaceSort (srt : (epoch_info_rank_t -> epoch_info_rank_t -> bool) ->
                         list epoch_info_rank_t -> list epoch_info_rank_t) := {
  srt_perm before l : srt before l ≡ₚ l;
  srt_sorted before l :
    (forall a b, before a b = true -> before b a = false) ->
    (forall a b c, before b a = false -> before c b = false -> before c a = false) ->
    StronglySorted (fun a b => before b a = false) (srt before l)
}.

(** The loop that marks adjacent entries with equal keys. *)
Fixpoint mark_dups (key : epoch_info_rank_t -> list Z) (prev : epoch_info_rank_t)
    (l : list epoch_info_rank_t) : list epoch_info_rank_t :=
  match l with
  | [] => [prev]
  | x :: l' =>
      if bool_decide (key x = key prev) then set_drop prev :: mark_dups key (set_drop x) l'
      else prev :: mark_dups key x l'
  end.

Definition mark_all (key : epoch_info_rank_t -> list Z) (l : list epoch_info_rank_t)
    : list epoch_info_rank_t :=
  match l with [] => [] | x :: l' => mark_dups key x l' end.

Section Rank.
Context `{BlsOps}.
Context (srt : (epoch_info_rank_t -> epoch_info_rank_t -> bool) ->
               list epoch_info_rank_t -> list epoch_info_rank_t).

(** The first loop: zero stakes and keys that do not decompress are left out. *)
Definition rank_candidates (stakes : list fd_vote_stake_weight_t) : list epoch_info_rank_t :=
  omap (fun '(i, s) =>
          if sw_stake s =? 0 then None else
          match g1_decompress (sw_bls_key s) with
          | None => None
          | Some pk => Some (mk_rank (sw_stake s) (sw_bls_key s) (sw_id_key s) (Z.of_nat i) false pk s)
          end)
       (imap pair (take (Z.to_nat AG_VAT_MAX) stakes)).

Definition rank_validator (r : Z) (e : epoch_info_rank_t) : ag_validator_info_t :=
  mk_validator r (sw_stake (er_entry e)) (sw_id_key (er_entry e)) (sw_vote_key (er_entry e)) (er_pk e).

Definition ag_epoch_info_rank (stakes : list fd_vote_stake_weight_t) : option ag_epoch_info_t :=
  let r0 := rank_candidates stakes in
  let r1 := mark_all er_bls (srt bls_before r0) in
  let r2 := mark_all er_id (srt id_before r1) in
  let kept := filter (fun e => er_drop e = false) r2 in
  match kept with
  | [] => None
  | _ =>
      let ranked := srt rank_before kept in
      let vals := imap (fun r e => rank_validator (Z.of_nat r) e) ranked in
      Some (mk_epoch_info (Z.of_nat (length ranked))
              (foldl (fun total v => total +w vi_stake v) 0 vals)
              vals (er_pk <$> ranked))
  end.
End Rank.

(** * The insertion sort of fd_sort.c ([SORT_(insert)]) *)

(** One outer step: [x] moves left past every element it is before. *)
Fixpoint sort_place (before : epoch_info_rank_t -> epoch_info_rank_t -> bool)
    (x : epoch_info_rank_t) (rev_sorted : list epoch_info_rank_t) : list epoch_info_rank_t :=
  match rev_sorted with
  | [] => [x]
  | y :: l => if before x y then y :: sort_place before x l else x :: y :: l
  end.

Definition sort_insert (before : epoch_info_rank_t -> epoch_info_rank_t -> bool)
    (l : list epoch_info_rank_t) : list epoch_info_rank_t :=
  reverse (foldl (fun acc x => sort_place before x acc) [] l).

Section InsertSort.
Context (before : epoch_info_rank_t -> epoch_info_rank_t -> bool).
Context (Hasym : forall a b, before a b = true -> before b a = false).
Context (Htrans : forall a b c, before b a = false -> before c b = false -> before c a = false).

Lemma sort_place_perm x l : sort_place before x l ≡ₚ x :: l.
Proof.
  induction l as [|y l IH]; cbn; [done|]. destruct (before x y); [|done].
  rewrite IH. apply perm_swap.
Qed.

Lemma sort_place_sorted x l :
  StronglySorted (fun a b => before a b = false) l ->
  StronglySorted (fun a b => before a b = false) (sort_place before x l).
Proof using Hasym Htrans.
  induction 1 as [|y l Hl IH Hy]; cbn; [repeat constructor|].
  destruct (before x y) eqn:E; constructor; auto.
  - rewrite sort_place_perm. constructor; auto.
  - by constructor.
  - constructor; [done|]. eapply Forall_impl; [exact Hy|]. cbn. intros z Hz. eauto.
Qed.
End InsertSort.

Lemma sort_fold_perm before l acc :
  foldl (fun acc x => sort_place before x acc) acc l ≡ₚ l ++ acc.
Proof.
  revert acc. induction l as [|x l IH]; intros acc; cbn; [done|].
  rewrite IH, sort_place_perm. symmetry. apply Permutation_middle.
Qed.

Lemma StronglySorted_reverse {A} (R : A -> A -> Prop) l :
  StronglySorted R l -> StronglySorted (fun a b => R b a) (reverse l).
Proof.
  induction 1 as [|x l Hl IH Hx]; [constructor|]. rewrite reverse_cons.
  apply StronglySorted_app_2; [|done|repeat constructor].
  intros a b Ha Hb. apply list_elem_of_singleton in Hb as ->.
  rewrite elem_of_reverse in Ha. rewrite Forall_forall in Hx. auto.
Qed.

#[export] Instance sort_insert_inplace : InplaceSort sort_insert.
Proof.
  split.
  - intros before l. unfold sort_insert. by rewrite reverse_Permutation, sort_fold_perm, app_nil_r.
  - intros before l Ha Ht. apply (StronglySorted_reverse (fun a b => before a b = false)).
    assert (StronglySorted (fun a b => before a b = false) []) as Hn by constructor.
    revert Hn. generalize (@nil epoch_info_rank_t) as acc.
    induction l as [|x l IH]; intros acc Hacc; cbn; [done|].
    apply IH. by apply sort_place_sorted.
Qed.

(** * Quorum lemmas *)

Lemma fraction_mono s s' t n d :
  0 <= d -> s <= s' -> fraction_is_met s t n d = true -> fraction_is_met s' t n d = true.
Proof. unfold fraction_is_met. rewrite !Z.leb_le. nia. Qed.

Lemma is_quorum_spec ei s : ag_epoch_info_is_quorum ei s = true <-> ei_total_stake ei * 3 <= s * 5.
Proof.
  unfold ag_epoch_info_is_quorum, fraction_is_met, AG_QUORUM_THRESHOLD_NUMER, AG_QUORUM_THRESHOLD_DENOM.
  apply Z.leb_le.
Qed.
Lemma is_strong_quorum_spec ei s :
  ag_epoch_info_is_strong_quorum ei s = true <-> ei_total_stake ei * 4 <= s * 5.
Proof.
  unfold ag_epoch_info_is_strong_quorum, fraction_is_met, AG_STRONG_QUORUM_THRESHOLD_NUMER,
    AG_QUORUM_THRESHOLD_DENOM. apply Z.leb_le.
Qed.
Lemma is_weak_quorum_spec ei s :
  ag_epoch_info_is_weak_quorum ei s = true <-> ei_total_stake ei * 2 <= s * 5.
Proof.
  unfold ag_epoch_info_is_weak_quorum, fraction_is_met, AG_WEAK_QUORUM_THRESHOLD_NUMER,
    AG_QUORUM_THRESHOLD_DENOM. apply Z.leb_le.
Qed.
Lemma is_weakest_quorum_spec ei s :
  ag_epoch_info_is_weakest_quorum ei s = true <-> ei_total_stake ei * 1 <= s * 5.
Proof.
  unfold ag_epoch_info_is_weakest_quorum, fraction_is_met, AG_WEAKEST_QUORUM_THRESHOLD_NUMER,
    AG_QUORUM_THRESHOLD_DENOM. apply Z.leb_le.
Qed.

(** The stake of a rank, zero past the end. *)
Definition stake_of (ei : ag_epoch_info_t) (i : Z) : Z :=
  default 0 (vi_stake <$> ei_validators ei !! Z.to_nat i).

(** What [ag_epoch_info_rank] guarantees of the epochs it builds and what the
    slot states rely on. *)
Record epoch_wf (ei : ag_epoch_info_t) : Prop := {
  ewf_cnt : ei_validator_cnt ei = Z.of_nat (length (ei_validators ei));
  ewf_max : ei_validator_cnt ei <= AG_VAT_MAX;
  ewf_pos : 0 < ei_validator_cnt ei;
  ewf_stake : forall i, 0 <= i < ei_validator_cnt ei -> 0 < stake_of ei i;
  ewf_total : ei_total_stake ei = nsum (stake_of ei) (Z.to_nat (ei_validator_cnt ei));
  ewf_u64 : is_u64 (ei_total_stake ei);
  ewf_ids : forall i v, ei_validators ei !! i = Some v -> vi_id v = Z.of_nat i
}.

(** * Correctness of the ranking *)

(** How many entries of [l] carry key [k]. *)
Definition occ (key : epoch_info_rank_t -> list Z) (l : list epoch_info_rank_t) (k : list Z) : nat :=
  length (filter (fun y => key y = k) l).

Definition mark (key : epoch_info_rank_t -> list Z) (l : list epoch_info_rank_t)
    (y : epoch_info_rank_t) : epoch_info_rank_t :=
  if decide (2 <= occ key l (key y))%nat then set_drop y else y.

Section Marking.
Context (key : epoch_info_rank_t -> list Z).
Context (Hdrop : forall y, key (set_drop y) = key y).

Lemma occ_cons x l k :
  occ key (x :: l) k = ((if decide (key x = k) then 1 else 0) + occ key l k)%nat.
Proof. unfold occ. rewrite filter_cons. case_decide; done. Qed.

Lemma occ_pos y l : y ∈ l -> (1 <= occ key l (key y))%nat.
Proof.
  intros Hy. unfold occ. destruct (filter _ l) eqn:E; [|cbn; lia].
  assert (y ∈ filter (fun z => key z = key y) l) as Hin by by apply list_elem_of_filter.
  rewrite E in Hin. by apply elem_of_nil in Hin.
Qed.

Lemma occ_zero l k : (forall y, y ∈ l -> key y <> k) -> occ key l k = 0%nat.
Proof.
  intros Hn. unfold occ. destruct (filter _ l) as [|z l'] eqn:E; [done|].
  assert (z ∈ filter (fun y => key y = k) l) as Hin by (rewrite E; constructor).
  apply list_elem_of_filter in Hin as [? ?]. by destruct (Hn z).
Qed.

Lemma occ_perm l1 l2 k : l1 ≡ₚ l2 -> occ key l1 k = occ key l2 k.
Proof. intros Hp. unfold occ. by rewrite Hp. Qed.

(** In a list sorted by key, an entry whose key differs from its successor's
    shares it with no later entry. *)
Definition key_sorted (l : list epoch_info_rank_t) : Prop :=
  StronglySorted (fun a b => memcmp (key b) (key a) <> Lt) l.

Lemma key_sorted_gap x y l z :
  key_sorted (x :: y :: l) -> key y <> key x -> z ∈ y :: l -> key z <> key x.
Proof.
  intros Hs Hne Hz Heq. inversion_clear Hs as [|? ? Hs' Hx]. inversion_clear Hs' as [|? ? _ Hy].
  rewrite Forall_forall in Hx, Hy.
  apply elem_of_cons in Hz as [->|Hz]; [done|].
  specialize (Hx y ltac:(by constructor)). specialize (Hy z Hz). rewrite Heq in Hy.
  rewrite memcmp_antisym in Hy.
  destruct (memcmp (key y) (key x)) eqn:E; cbn in Hy; try done.
  by apply memcmp_eq in E.
Qed.

Lemma mark_dups_map prev l :
  key_sorted (prev :: l) -> mark_dups key prev l = mark key (prev :: l) <$> prev :: l.
Proof using Hdrop.
  revert prev. induction l as [|x l IH]; intros prev Hs; cbn [mark_dups].
  { cbn. unfold mark. rewrite decide_False; [done|]. rewrite occ_cons. cbn. case_decide; lia. }
  assert (key_sorted (x :: l)) as Hs' by by inversion Hs.
  assert (forall a b m, key a = key b -> key_sorted (a :: m) -> key_sorted (b :: m)) as Hswap.
  { intros a b m E Hm. inversion_clear Hm. constructor; [done|].
    eapply Forall_impl; [eassumption|]. cbn. by rewrite E. }
  destruct (bool_decide (key x = key prev)) eqn:E; boolp.
  - rewrite IH by (eapply Hswap; [|exact Hs']; by rewrite Hdrop). rewrite !fmap_cons.
    f_equal; [|f_equal].
    + unfold mark. rewrite decide_True; [done|]. rewrite !occ_cons, !decide_True by done. lia.
    + unfold mark. rewrite (decide_True (P := (2 <= occ key (prev :: x :: l) (key x))%nat));
        [by case_decide|]. rewrite !occ_cons, !decide_True by done. lia.
    + apply list_fmap_ext. intros i y Hy. unfold mark.
      apply list_elem_of_lookup_2 in Hy. apply occ_pos in Hy.
      destruct (decide (key prev = key y)) as [Ep|Ep].
      * rewrite !decide_True; [done| |]; rewrite ?occ_cons, ?Hdrop, ?decide_True by congruence; lia.
      * rewrite !occ_cons, Hdrop, (decide_False (P := key prev = key y)) by done. done.
  - rewrite IH by done. rewrite (fmap_cons _ prev). f_equal.
    + unfold mark. rewrite decide_False; [done|]. rewrite occ_cons, decide_True by done.
      rewrite occ_zero; [lia|]. intros y Hy. by eapply key_sorted_gap.
    + apply list_fmap_ext. intros i y Hy. unfold mark.
      rewrite (occ_cons prev), (decide_False (P := key prev = key y)); [done|].
      intros Heq. eapply key_sorted_gap; [exact Hs|done| |by symmetry].
      by eapply list_elem_of_lookup_2.
Qed.

Lemma mark_all_map l : key_sorted l -> mark_all key l = mark key l <$> l.
Proof using Hdrop. destruct l; [done|]. apply mark_dups_map. Qed.
End Marking.

Lemma bls_sorted srt `{!InplaceSort srt} l : key_sorted er_bls (srt bls_before l).
Proof.
  eapply StronglySorted_weaken; [|apply srt_sorted].
  - unfold bls_before. intros a b Hab Hlt. by rewrite Hlt in Hab.
  - unfold bls_before. intros a b. rewrite (memcmp_antisym (er_bls a) (er_bls b)).
    by destruct (memcmp _ _).
  - unfold bls_before. intros a b c Hab Hbc.
    destruct (memcmp (er_bls c) (er_bls a)) eqn:E; try done.
    destruct (memcmp (er_bls b) (er_bls a)) eqn:E1; [|done|].
    + apply memcmp_eq in E1. rewrite E1 in Hbc. by rewrite E in Hbc.
    + rewrite (memcmp_antisym (er_bls a)) in E1.
      rewrite (memcmp_lt_trans (er_bls c) (er_bls a) (er_bls b)) in Hbc; [done..|].
      by destruct (memcmp (er_bls a) (er_bls b)).
Qed.

Lemma id_sorted srt `{!InplaceSort srt} l : key_sorted er_id (srt id_before l).
Proof.
  eapply StronglySorted_weaken; [|apply srt_sorted].
  - unfold id_before. intros a b Hab Hlt. by rewrite Hlt in Hab.
  - unfold id_before. intros a b. rewrite (memcmp_antisym (er_id a) (er_id b)).
    by destruct (memcmp _ _).
  - unfold id_before. intros a b c Hab Hbc.
    destruct (memcmp (er_id c) (er_id a)) eqn:E; try done.
    destruct (memcmp (er_id b) (er_id a)) eqn:E1; [|done|].
    + apply memcmp_eq in E1. rewrite E1 in Hbc. by rewrite E in Hbc.
    + rewrite (memcmp_antisym (er_id a)) in E1.
      rewrite (memcmp_lt_trans (er_id c) (er_id a) (er_id b)) in Hbc; [done..|].
      by destruct (memcmp (er_id a) (er_id b)).
Qed.

Lemma filter_mark key l (m : list epoch_info_rank_t) (P : epoch_info_rank_t -> Prop) `{!forall y, Decision (P y)} :
  (forall y, ~ P (set_drop y)) ->
  filter P (mark key l <$> m) = filter (fun y => P y /\ ~ (2 <= occ key l (key y))%nat) m.
Proof.
  intros HP. induction m as [|y m IH]; [done|]. rewrite fmap_cons, !filter_cons.
  destruct (decide (2 <= occ key l (key y))%nat) as [Ho|Ho].
  - assert (mark key l y = set_drop y) as -> by (unfold mark; by rewrite decide_True).
    rewrite (decide_False (P := P (set_drop y))) by done.
    rewrite (decide_False (P := P y /\ _)) by tauto. done.
  - assert (mark key l y = y) as -> by (unfold mark; by rewrite decide_False).
    destruct (decide (P y)) as [Hy|Hy].
    + rewrite (decide_True (P := P y /\ _)) by tauto. by f_equal.
    + rewrite (decide_False (P := P y /\ _)) by tauto. done.
Qed.

Lemma occ_mark key key' l (m : list epoch_info_rank_t) k :
  (forall y, key' (set_drop y) = key' y) -> occ key' (mark key l <$> m) k = occ key' m k.
Proof.
  intros Hk. unfold occ. induction m as [|y m IH]; [done|].
  rewrite fmap_cons, !filter_cons.
  assert (key' (mark key l y) = key' y) as -> by (unfold mark; case_decide; auto).
  case_decide; cbn [length]; by rewrite ?IH.
Qed.

Lemma candidates_live `{BlsOps} stakes e :
  e ∈ rank_candidates stakes ->
  er_drop e = false /\ er_stake e = sw_stake (er_entry e) /\ er_stake e <> 0 /\
  er_entry e ∈ stakes /\ er_bls e = sw_bls_key (er_entry e) /\
  er_id e = sw_id_key (er_entry e) /\ g1_decompress (er_bls e) = Some (er_pk e).
Proof.
  unfold rank_candidates. intros ((i & s) & Hin & He)%list_elem_of_omap.
  destruct (sw_stake s =? 0) eqn:E; [done|]. boolp.
  destruct (g1_decompress (sw_bls_key s)) eqn:Ek; [|done]. injection He as <-. cbn.
  split_and!; try done.
  apply list_elem_of_lookup in Hin as [j Hj]. apply list_lookup_imap_Some in Hj as (s' & Hj & [= -> ->]).
  apply list_elem_of_lookup. exists j. rewrite lookup_take in Hj. by case_decide.
Qed.

(** The entries that are to be ranked: no other candidate has their BLS key or identity. *)
Definition rankable (c : list epoch_info_rank_t) (e : epoch_info_rank_t) : Prop :=
  (occ er_bls c (er_bls e) < 2)%nat /\ (occ er_id c (er_id e) < 2)%nat.

#[export] Instance rankable_dec c e : Decision (rankable c e).
Proof. unfold rankable. apply _. Defined.

Lemma rank_kept `{BlsOps} srt `{!InplaceSort srt} stakes :
  let c := rank_candidates stakes in
  filter (fun e => er_drop e = false)
    (mark_all er_id (srt id_before (mark_all er_bls (srt bls_before c)))) ≡ₚ filter (rankable c) c.
Proof.
  intros c. rewrite (mark_all_map er_bls) by (done || apply bls_sorted, _).
  rewrite (mark_all_map er_id) by (done || apply id_sorted, _).
  set (s1 := srt bls_before c). set (s2 := srt id_before _).
  rewrite (filter_mark er_id) by (intros y; cbn; congruence).
  etrans; [apply filter_Permutation; unfold s2; apply srt_perm|].
  rewrite (filter_mark er_bls) by (intros y [Hy _]; cbn in Hy; congruence).
  etrans; [apply filter_Permutation; unfold s1; apply srt_perm|].
  assert (forall k, occ er_id s2 k = occ er_id c k) as Hi.
  { intros k. unfold s2. rewrite (occ_perm er_id _ _ k (srt_perm _ _)), occ_mark by done.
    apply occ_perm, srt_perm. }
  assert (forall k, occ er_bls s1 k = occ er_bls c k) as Hb
    by (intros k; apply occ_perm, srt_perm).
  apply reflexive_eq, list_filter_ext_in. intros e He.
  apply candidates_live in He as (Hd & _). rewrite Hi, Hb. unfold rankable.
  rewrite !Nat.nle_gt. tauto.
Qed.

Lemma occ_filter_le key (P : epoch_info_rank_t -> Prop) `{!forall y, Decision (P y)} l k :
  (occ key (filter P l) k <= occ key l k)%nat.
Proof.
  unfold occ. induction l as [|y l IH]; [done|]. rewrite !(filter_cons _ y l).
  repeat case_decide; rewrite ?filter_cons; repeat case_decide; cbn [length]; try done; lia.
Qed.

Lemma occ_NoDup key l :
  (forall e, e ∈ l -> (occ key l (key e) < 2)%nat) -> NoDup (key <$> l).
Proof.
  induction l as [|x l IH]; intros Ho; cbn; constructor.
  - intros (y & Hk & Hy)%list_elem_of_fmap. specialize (Ho x ltac:(constructor)).
    rewrite occ_cons, decide_True in Ho by done. rewrite Hk in Ho.
    pose proof (occ_pos key y l Hy). lia.
  - apply IH. intros e He. specialize (Ho e ltac:(by constructor)).
    rewrite occ_cons in Ho. lia.
Qed.

Lemma rank_before_asym a b : rank_before a b = true -> rank_before b a = false.
Proof.
  unfold rank_before. rewrite (memcmp_antisym (er_bls a) (er_bls b)).
  destruct (Z.ltb_spec (er_stake b) (er_stake a)), (Z.ltb_spec (er_stake a) (er_stake b)),
    (Z.eqb_spec (er_stake a) (er_stake b)), (Z.eqb_spec (er_stake b) (er_stake a));
    cbn; try lia; try done; by destruct (memcmp _ _).
Qed.

Lemma rank_before_ntrans a b c :
  rank_before b a = false -> rank_before c b = false -> rank_before c a = false.
Proof.
  unfold rank_before. rewrite !orb_false_iff, !andb_false_iff, !Z.ltb_ge, !Z.eqb_neq.
  intros [H1 H2] [H3 H4]. split; [lia|].
  destruct (decide (er_stake c = er_stake a)) as [E|]; [right|by left].
  destruct H2 as [H2|H2]; [lia|]. destruct H4 as [H4|H4]; [lia|].
  destruct (memcmp (er_bls c) (er_bls a)) eqn:Eca; try done.
  destruct (memcmp (er_bls b) (er_bls a)) eqn:Eba; [|done|].
  - apply memcmp_eq in Eba. rewrite Eba in H4. by rewrite Eca in H4.
  - rewrite (memcmp_antisym (er_bls a)) in Eba.
    rewrite (memcmp_lt_trans (er_bls c) (er_bls a) (er_bls b)) in H4; [done..|].
    by destruct (memcmp (er_bls a) (er_bls b)).
Qed.

(** Sorted and pairwise distinct BLS keys: strictly sorted. *)
Lemma rank_strict l :
  NoDup (er_bls <$> l) -> StronglySorted (fun a b => rank_before b a = false) l ->
  StronglySorted (fun a b => rank_before a b = true) l.
Proof.
  intros Hnd. induction 1 as [|x l Hl IH Hx]; constructor.
  - apply IH. by apply NoDup_cons in Hnd as [_ ?].
  - cbn in Hnd. apply NoDup_cons in Hnd as [Hn _]. rewrite Forall_forall in Hx |- *.
    intros y Hy. specialize (Hx y Hy). revert Hx. unfold rank_before.
    rewrite (memcmp_antisym (er_bls x) (er_bls y)).
    destruct (memcmp (er_bls x) (er_bls y)) eqn:E.
    { apply memcmp_eq in E. destruct Hn. rewrite E. by apply list_elem_of_fmap_2. }
    all: cbn; destruct (Z.ltb_spec (er_stake y) (er_stake x)), (Z.ltb_spec (er_stake x) (er_stake y)),
      (Z.eqb_spec (er_stake x) (er_stake y)), (Z.eqb_spec (er_stake y) (er_stake x));
      cbn; try lia; done.
Qed.

(** What the ranking returns, in terms of the sorted survivors. *)
Lemma rank_result `{BlsOps} srt `{!InplaceSort srt} stakes :
  let c := rank_candidates stakes in
  match ag_epoch_info_rank srt stakes with
  | None => filter (rankable c) c = []
  | Some ei =>
      exists ranked,
        ranked ≡ₚ filter (rankable c) c /\ ranked <> [] /\
        StronglySorted (fun a b => rank_before b a = false) ranked /\
        ei = mk_epoch_info (Z.of_nat (length ranked))
               (foldl (fun total v => total +w vi_stake v) 0
                  (imap (fun r e => rank_validator (Z.of_nat r) e) ranked))
               (imap (fun r e => rank_validator (Z.of_nat r) e) ranked) (er_pk <$> ranked)
  end.
Proof.
  intros c. unfold ag_epoch_info_rank. cbv zeta.
  pose proof (rank_kept srt stakes) as Hk. cbv zeta in Hk. fold c in Hk |- *.
  set (kept := filter _ (mark_all er_id _)) in *.
  destruct kept as [|e0 k0] eqn:Ek; [by apply Permutation_nil in Hk|]. rewrite <- Ek in *.
  exists (srt rank_before kept). split_and!; try done.
  - by rewrite srt_perm.
  - intros Hn. pose proof (srt_perm rank_before kept) as Hp. rewrite Hn, Ek in Hp.
    by apply Permutation_nil_l in Hp.
  - apply srt_sorted; [apply rank_before_asym|apply rank_before_ntrans].
Qed.

Lemma rank_candidates_length `{BlsOps} stakes :
  Z.of_nat (length (rank_candidates stakes)) <= AG_VAT_MAX.
Proof.
  assert (length (rank_candidates stakes) <= 2000)%nat; [|unfold AG_VAT_MAX; lia].
  unfold rank_candidates. etrans; [apply length_omap_le|].
  rewrite length_imap, length_take. unfold AG_VAT_MAX. lia.
Qed.

Lemma omap_imap_sum {B} (h : nat * fd_vote_stake_weight_t -> option B) (F : B -> Z) :
  (forall i s b, h (i, s) = Some b -> F b = sw_stake s) ->
  forall (g : nat -> nat) l, Forall (fun s => 0 <= sw_stake s) l ->
  lsum F (omap h (imap (fun i s => (g i, s)) l)) <= lsum sw_stake l.
Proof.
  intros Hh g l Hl. revert g. induction Hl as [|s l Hs Hl IH]; intros g; [done|].
  rewrite imap_cons. cbn [omap list_omap]. specialize (IH (g ∘ S)).
  destruct (h (g 0%nat, s)) eqn:E; cbn [lsum foldr]; unfold lsum in IH |- *.
  - rewrite (Hh _ _ _ E). unfold compose in *. lia.
  - unfold compose in *. lia.
Qed.

Lemma rank_candidates_sum `{BlsOps} stakes :
  Forall (fun s => 0 <= sw_stake s) stakes ->
  lsum (fun e => sw_stake (er_entry e)) (rank_candidates stakes) <= lsum sw_stake stakes.
Proof.
  intros Hpos. transitivity (lsum sw_stake (take (Z.to_nat AG_VAT_MAX) stakes)).
  - apply (omap_imap_sum _ (fun e => sw_stake (er_entry e))) with (g := id).
    + intros i s e. destruct (sw_stake s =? 0); [done|].
      destruct (g1_decompress _); [|done]. by intros [= <-].
    + by apply Forall_take.
  - rewrite <- (take_drop (Z.to_nat AG_VAT_MAX) stakes) at 2. rewrite lsum_app.
    pose proof (lsum_nonneg sw_stake (drop (Z.to_nat AG_VAT_MAX) stakes)) as Hn.
    apply (Forall_drop _ (Z.to_nat AG_VAT_MAX)) in Hpos. rewrite Forall_forall in Hpos.
    specialize (Hn Hpos). lia.
Qed.

Lemma rank_validators_stakes ranked :
  vi_stake <$> imap (fun r e => rank_validator (Z.of_nat r) e) ranked
  = (fun e => sw_stake (er_entry e)) <$> ranked.
Proof. rewrite fmap_imap. apply list_eq. intros i. rewrite list_lookup_imap, list_lookup_fmap. done. Qed.

Lemma lsum_fmap {A B} (f : B -> Z) (g : A -> B) (l : list A) : lsum f (g <$> l) = lsum (fun a => f (g a)) l.
Proof. induction l as [|x l IH]; cbn; [done|]. unfold lsum in IH. by rewrite IH. Qed.

(** the ranking is canonical.  Whatever lawful sort is used, the ranked
    validators are exactly the candidates (non-zero stake, valid BLS key) that
    share neither BLS key nor identity with another candidate, in strictly
    decreasing order of stake with ties broken by BLS key; rank [r] gets id [r];
    there is no epoch exactly when nobody survives. *)
Theorem ag_epoch_info_rank_spec `{BlsOps} srt `{!InplaceSort srt} stakes :
  let c := rank_candidates stakes in
  match ag_epoch_info_rank srt stakes with
  | None => filter (rankable c) c = []
  | Some ei =>
      exists ranked,
        ranked ≡ₚ filter (rankable c) c /\
        StronglySorted (fun a b => rank_before a b = true) ranked /\
        ei_validators ei = imap (fun r e => rank_validator (Z.of_nat r) e) ranked /\
        ei_pubkeys ei = er_pk <$> ranked /\
        NoDup (er_bls <$> ranked) /\ NoDup (er_id <$> ranked)
  end.
Proof.
  intros c. pose proof (rank_result srt stakes) as Hr. cbv zeta in Hr. fold c in Hr.
  destruct (ag_epoch_info_rank srt stakes) as [ei|]; [|done].
  destruct Hr as (ranked & Hp & _ & Hs & ->). exists ranked.
  assert (NoDup (er_bls <$> ranked)) as Hb.
  { rewrite Hp. apply occ_NoDup. intros e He. apply list_elem_of_filter in He as [[Hb _] _].
    pose proof (occ_filter_le er_bls (rankable c) c (er_bls e)). lia. }
  split_and!; try done.
  - by apply rank_strict.
  - rewrite Hp. apply occ_NoDup. intros e He. apply list_elem_of_filter in He as [[_ Hi] _].
    pose proof (occ_filter_le er_id (rankable c) c (er_id e)). lia.
Qed.

(** the epochs the ranking builds are well formed.  When the stakes are [ulong]s
    whose sum does not exceed [ULONG_MAX], every ranked validator has positive
    stake, the recorded total is the exact sum of the ranked stakes, and there
    are between one and [AG_VAT_MAX] of them. *)
Theorem ag_epoch_info_rank_wf `{BlsOps} srt `{!InplaceSort srt} stakes ei :
  Forall (fun s => 0 <= sw_stake s) stakes -> lsum sw_stake stakes <= ULONG_MAX ->
  ag_epoch_info_rank srt stakes = Some ei -> epoch_wf ei.
Proof.
  intros Hpos Hsum Hei. pose proof (rank_result srt stakes) as Hr. cbv zeta in Hr.
  rewrite Hei in Hr. destruct Hr as (ranked & Hp & Hne & _ & ->). clear Hei.
  set (c := rank_candidates stakes) in *. set (vals := imap _ ranked).
  assert (length vals = length ranked) as Hlen by apply length_imap.
  assert (0 < length ranked)%nat as Hl by (destruct ranked; [done|cbn; lia]).
  assert (forall e, e ∈ ranked -> 0 < sw_stake (er_entry e)) as Hlive.
  { intros e He. rewrite Hp in He. apply list_elem_of_filter in He as [_ He].
    apply candidates_live in He as (_ & E & Hn & Hin & _).
    rewrite Forall_forall in Hpos. specialize (Hpos _ Hin). cbn in Hpos. lia. }
  assert (lsum vi_stake vals = lsum (fun e => sw_stake (er_entry e)) ranked) as Hv.
  { transitivity (lsum (fun z => z) (vi_stake <$> vals)); [symmetry; exact (lsum_fmap (fun z => z) vi_stake vals)|].
    unfold vals. rewrite rank_validators_stakes.
    exact (lsum_fmap (fun z => z) (fun e => sw_stake (er_entry e)) ranked). }
  assert (0 <= lsum vi_stake vals <= ULONG_MAX) as Hb.
  { rewrite Hv. split; [apply lsum_nonneg; intros; apply Z.lt_le_incl; auto|].
    rewrite (lsum_perm _ _ _ Hp).
    pose proof (lsum_filter_le (fun e => sw_stake (er_entry e)) (rankable c) c) as Hf.
    pose proof (rank_candidates_sum stakes Hpos). fold c in H0. etrans; [apply Hf|lia].
    intros e He. apply candidates_live in He as (_ & _ & _ & Hin & _).
    rewrite Forall_forall in Hpos. by apply Hpos. }
  pose proof (foldl_u64_add vi_stake vals 0) as Hfold. change (u64 0) with 0 in Hfold.
  rewrite Z.add_0_l, u64_small in Hfold by done.
  split; cbn; rewrite ?Hlen, ?Hfold, ?Nat2Z.id; try lia.
  - rewrite Hp. pose proof (length_filter (rankable c) c). pose proof (rank_candidates_length stakes).
    fold c in H1. lia.
  - intros i Hi. unfold stake_of. cbn. unfold vals. rewrite <- list_lookup_fmap, rank_validators_stakes.
    rewrite list_lookup_fmap.
    destruct (lookup_lt_is_Some_2 ranked (Z.to_nat i) ltac:(lia)) as [e He]. rewrite He. cbn.
    apply Hlive. by eapply list_elem_of_lookup_2.
  - rewrite <- Hlen. unfold stake_of. cbn. symmetry. apply nsum_lookup.
  - done.
  - intros i v Hv'. unfold vals in Hv'. apply list_lookup_imap_Some in Hv' as (e & _ & ->). done.
Qed.

(** Four stake entries: the second has no stake, the others rank 3, 0, 1 by stake. *)
Definition sample_stakes : list fd_vote_stake_weight_t :=
  [ mk_stake_weight (replicate 32 1) (replicate 32 11) (replicate 48 21) 30;
    mk_stake_weight (replicate 32 2) (replicate 32 12) (replicate 48 22) 0;
    mk_stake_weight (replicate 32 3) (replicate 32 13) (replicate 48 23) 25;
    mk_stake_weight (replicate 32 4) (replicate 32 14) (replicate 48 24) 45 ].

Lemma ag_epoch_info_rank_spec_witness :
  exists ei ranked, @ag_epoch_info_rank sample_bls sort_insert sample_stakes = Some ei /\
    ranked ≡ₚ filter (rankable (@rank_candidates sample_bls sample_stakes))
                (@rank_candidates sample_bls sample_stakes) /\
    StronglySorted (fun a b => rank_before a b = true) ranked /\
    vi_stake <$> ei_validators ei = [45; 30; 25].
Proof.
  pose proof (@ag_epoch_info_rank_spec sample_bls sort_insert sort_insert_inplace sample_stakes) as Hs.
  cbv zeta in Hs.
  assert (vi_stake <$> default [] (ei_validators <$> @ag_epoch_info_rank sample_bls sort_insert sample_stakes)
          = [45; 30; 25]) as Hv by (vm_compute; reflexivity).
  destruct (@ag_epoch_info_rank sample_bls sort_insert sample_stakes) as [ei|]; [|discriminate Hv].
  destruct Hs as (ranked & Hp & Hsort & _). exists ei, ranked. auto.
Defined.

Lemma ag_epoch_info_rank_wf_witness :
  exists ei, @ag_epoch_info_rank sample_bls sort_insert sample_stakes = Some ei /\ epoch_wf ei.
Proof.
  eexists. split; [vm_compute; reflexivity|].
  apply (@ag_epoch_info_rank_wf sample_bls sort_insert sort_insert_inplace sample_stakes).
  - repeat (constructor; [cbn; lia|]). constructor.
  - vm_compute. congruence.
  - vm_compute. reflexivity.
Defined.
