(* ===== verification/Cert.v ===== *)
(** Certificates: their construction from votes and their verification
    (src/src/choreo/votor/ag_cert.h, ag_cert.c). *)
From S2P Require Import Prelude VotorBase Bls Vote EpochInfo.

Record ag_cert_notar_t := mk_cert_notar {
  cn_slot : Z; cn_block_hash : ag_block_hash_t; cn_agg_sig : ag_bls_agg_t; cn_stake : Z }.
Record ag_cert_notar_fallback_t := mk_cert_notar_fallback {
  cnf_slot : Z; cnf_block_hash : ag_block_hash_t;
  cnf_agg_sig_notar : ag_bls_agg_t; cnf_agg_sig_notar_fallback : ag_bls_agg_t; cnf_stake : Z }.
Record ag_cert_skip_t := mk_cert_skip {
  cs_slot : Z; cs_agg_sig_skip : ag_bls_agg_t; cs_agg_sig_skip_fallback : ag_bls_agg_t; cs_stake : Z }.
Record ag_cert_fast_final_t := mk_cert_fast_final {
  cff_slot : Z; cff_block_hash : ag_block_hash_t; cff_agg_sig : ag_bls_agg_t; cff_stake : Z }.
Record ag_cert_final_t := mk_cert_final {
  cf_slot : Z; cf_agg_sig : ag_bls_agg_t; cf_stake : Z }.

(** The tagged union [ag_cert_t]; the genesis kind has no payload in the union
    and no operation accepts it. *)
Inductive ag_cert_t :=
| CFinal (c : ag_cert_final_t)
| CFastFinal (c : ag_cert_fast_final_t)
| CNotar (c : ag_cert_notar_t)
| CNotarFallback (c : ag_cert_notar_fallback_t)
| CSkip (c : ag_cert_skip_t).

Definition ag_cert_kind (self : ag_cert_t) : Z :=
  match self with
  | CFinal _ => 0 | CFastFinal _ => 1 | CNotar _ => 2 | CNotarFallback _ => 3 | CSkip _ => 4
  end.

Definition ag_cert_slot (self : ag_cert_t) : Z :=
  match self with
  | CNotar c => cn_slot c
  | CNotarFallback c => cnf_slot c
  | CSkip c => cs_slot c
  | CFastFinal c => cff_slot c
  | CFinal c => cf_slot c
  end.

Definition ag_cert_block_hash (self : ag_cert_t) : option ag_block_hash_t :=
  match self with
  | CNotar c => Some (cn_block_hash c)
  | CNotarFallback c => Some (cnf_block_hash c)
  | CFastFinal c => Some (cff_block_hash c)
  | CSkip _ | CFinal _ => None
  end.

(** The stake recorded in a certificate. *)
Definition cert_stake (self : ag_cert_t) : Z :=
  match self with
  | CNotar c => cn_stake c
  | CNotarFallback c => cnf_stake c
  | CSkip c => cs_stake c
  | CFastFinal c => cff_stake c
  | CFinal c => cf_stake c
  end.

(** * Verification *)

Definition is_signer (self : ag_cert_t) (rank : Z) : bool :=
  match self with
  | CNotar c => ag_bls_agg_is_signer (cn_agg_sig c) rank
  | CFastFinal c => ag_bls_agg_is_signer (cff_agg_sig c) rank
  | CFinal c => ag_bls_agg_is_signer (cf_agg_sig c) rank
  | CNotarFallback c =>
      ag_bls_agg_is_signer (cnf_agg_sig_notar c) rank ||
      ag_bls_agg_is_signer (cnf_agg_sig_notar_fallback c) rank
  | CSkip c =>
      ag_bls_agg_is_signer (cs_agg_sig_skip c) rank ||
      ag_bls_agg_is_signer (cs_agg_sig_skip_fallback c) rank
  end.

Definition signed_stake (self : ag_cert_t) (ei : ag_epoch_info_t) : Z :=
  foldl (fun stake v => if is_signer self (vi_id v) then stake +w vi_stake v else stake) 0
    (ei_validators ei).

Definition check_threshold (self : ag_cert_t) (ei : ag_epoch_info_t) : bool :=
  let stake := signed_stake self ei in
  match self with
  | CFastFinal _ => ag_epoch_info_is_strong_quorum ei stake
  | _ => ag_epoch_info_is_quorum ei stake
  end.

Inductive voter_kind := KNotar | KFinal | KSkip | KNotarFallback | KSkipFallback.

(** The bytes a voter of the given kind would have signed. *)
Definition voter_signing_ser (kind : voter_kind) (slot : Z) (hash : ag_block_hash_t)
    (shred_version : Z) : list Z :=
  let vote :=
    match kind with
    | KNotar => Notar (mk_notar slot hash zero_sig 0)
    | KFinal => Final (mk_final slot zero_sig 0)
    | KSkip => Skip (mk_skip slot zero_sig 0)
    | KNotarFallback => NotarFallback (mk_notar_fallback slot hash zero_sig 0)
    | KSkipFallback => SkipFallback (mk_skip_fallback slot zero_sig 0)
    end in
  ag_vote_signing_ser vote shred_version.

Section Verify.
Context `{BlsOps}.

Definition check_sig (self : ag_cert_t) (ei : ag_epoch_info_t) (shred_version : Z) : bool :=
  let pks := vi_bls_key <$> ei_validators ei in
  match self with
  | CNotar c =>
      ag_bls_agg_verify (cn_agg_sig c)
        (voter_signing_ser KNotar (cn_slot c) (cn_block_hash c) shred_version) pks
  | CFastFinal c =>
      ag_bls_agg_verify (cff_agg_sig c)
        (voter_signing_ser KNotar (cff_slot c) (cff_block_hash c) shred_version) pks
  | CFinal c =>
      ag_bls_agg_verify (cf_agg_sig c) (voter_signing_ser KFinal (cf_slot c) [] shred_version) pks
  | CNotarFallback c =>
      ag_bls_agg_verify_merged
        (cnf_agg_sig_notar c)
        (voter_signing_ser KNotar (cnf_slot c) (cnf_block_hash c) shred_version)
        (cnf_agg_sig_notar_fallback c)
        (voter_signing_ser KNotarFallback (cnf_slot c) (cnf_block_hash c) shred_version) pks
  | CSkip c =>
      ag_bls_agg_verify_merged
        (cs_agg_sig_skip c) (voter_signing_ser KSkip (cs_slot c) [] shred_version)
        (cs_agg_sig_skip_fallback c) (voter_signing_ser KSkipFallback (cs_slot c) [] shred_version) pks
  end.

Definition ag_cert_verify (self : ag_cert_t) (ei : ag_epoch_info_t) (shred_version : Z) : bool :=
  check_threshold self ei && check_sig self ei shred_version.

(** * Construction *)

(** [validators[ rank ].stake], a read of the validator array. *)
Definition rank_stake (ei : ag_epoch_info_t) (rank : Z) : outcome Z :=
  match ei_validators ei !! Z.to_nat rank with
  | Some v => Ok (vi_stake v)
  | None => Fail OutOfBounds
  end.

(** The loops [for( i<cnt ) ag_bls_agg_add( &agg, votes[i].rank, votes[i].sig )]. *)
Definition agg_votes {V} (rank : V -> Z) (sg : V -> ag_bls_sig_t) (votes : list V)
    : outcome ag_bls_agg_t :=
  ofold (fun agg v => ag_bls_agg_add agg (rank v) (sg v)) ag_bls_agg_zero votes.

Definition construct_notar (votes : list ag_vote_notar_t) (ei : ag_epoch_info_t)
    : outcome ag_cert_notar_t :=
  match votes with
  | [] => Fail FdTest
  | v0 :: _ =>
      let slot := vn_slot v0 in
      let block_hash := vn_block_hash v0 in
      stake ← ofold (fun stake v =>
                       check FdTest (vn_slot v =? slot);;
                       check FdTest (hash_eqb (vn_block_hash v) block_hash);;
                       s ← rank_stake ei (vn_rank v);
                       Ok (stake +w s)) 0 votes;
      agg ← agg_votes vn_rank vn_sig votes;
      Ok (mk_cert_notar slot block_hash agg stake)
  end.

Definition construct_fast_final (votes : list ag_vote_notar_t) (ei : ag_epoch_info_t)
    : outcome ag_cert_fast_final_t :=
  notar ← construct_notar votes ei;
  Ok (mk_cert_fast_final (cn_slot notar) (cn_block_hash notar) (cn_agg_sig notar) (cn_stake notar)).

Definition construct_final (votes : list ag_vote_final_t) (ei : ag_epoch_info_t)
    : outcome ag_cert_final_t :=
  match votes with
  | [] => Fail FdTest
  | v0 :: _ =>
      let slot := vf_slot v0 in
      stake ← ofold (fun stake v =>
                       check FdTest (vf_slot v =? slot);;
                       s ← rank_stake ei (vf_rank v);
                       Ok (stake +w s)) 0 votes;
      agg ← agg_votes vf_rank vf_sig votes;
      Ok (mk_cert_final slot agg stake)
  end.

(** An aggregate that is the identity is reset and its stake dropped. *)
Definition drop_identity (agg : ag_bls_agg_t) (stake : Z) : ag_bls_agg_t * Z :=
  if ag_bls_agg_is_identity agg then (ag_bls_agg_zero, 0) else (agg, stake).

Definition construct_notar_fallback (votes : list ag_vote_notar_t)
    (fallback_votes : list ag_vote_notar_fallback_t) (ei : ag_epoch_info_t)
    : outcome ag_cert_notar_fallback_t :=
  match (match votes, fallback_votes with
         | v :: _, _ => Some (vn_slot v, vn_block_hash v)
         | [], v :: _ => Some (vnf_slot v, vnf_block_hash v)
         | [], [] => None
         end) with
  | None => Fail FdTest
  | Some (slot, block_hash) =>
      stake ← ofold (fun stake v =>
                       check FdTest (vn_slot v =? slot);;
                       check FdTest (hash_eqb (vn_block_hash v) block_hash);;
                       s ← rank_stake ei (vn_rank v);
                       Ok (stake +w s)) 0 votes;
      stake_fb ← ofold (fun stake v =>
                       check FdTest (vnf_slot v =? slot);;
                       check FdTest (hash_eqb (vnf_block_hash v) block_hash);;
                       s ← rank_stake ei (vnf_rank v);
                       Ok (stake +w s)) 0 fallback_votes;
      agg0 ← agg_votes vn_rank vn_sig votes;
      let '(agg, stake) := drop_identity agg0 stake in
      agg1 ← agg_votes vnf_rank vnf_sig fallback_votes;
      let '(agg_fb, stake_fb) := drop_identity agg1 stake_fb in
      let '(agg, agg_fb) := ag_bls_agg_merge agg agg_fb in
      Ok (mk_cert_notar_fallback slot block_hash agg agg_fb (stake +w stake_fb))
  end.

Definition construct_skip (votes : list ag_vote_skip_t)
    (fallback_votes : list ag_vote_skip_fallback_t) (ei : ag_epoch_info_t)
    : outcome ag_cert_skip_t :=
  match (match votes, fallback_votes with
         | v :: _, _ => Some (vs_slot v)
         | [], v :: _ => Some (vsf_slot v)
         | [], [] => None
         end) with
  | None => Fail FdTest
  | Some slot =>
      stake ← ofold (fun stake v =>
                       check FdTest (vs_slot v =? slot);;
                       s ← rank_stake ei (vs_rank v);
                       Ok (stake +w s)) 0 votes;
      stake_fb ← ofold (fun stake v =>
                       check FdTest (vsf_slot v =? slot);;
                       s ← rank_stake ei (vsf_rank v);
                       Ok (stake +w s)) 0 fallback_votes;
      agg0 ← agg_votes vs_rank vs_sig votes;
      let '(agg, stake) := drop_identity agg0 stake in
      agg1 ← agg_votes vsf_rank vsf_sig fallback_votes;
      let '(agg_fb, stake_fb) := drop_identity agg1 stake_fb in
      let '(agg, agg_fb) := ag_bls_agg_merge agg agg_fb in
      Ok (mk_cert_skip slot agg agg_fb (stake +w stake_fb))
  end.

Definition ag_cert_construct_notar (votes : list ag_vote_notar_t) (ei : ag_epoch_info_t)
    : outcome ag_cert_t :=
  c ← construct_notar votes ei; Ok (CNotar c).
Definition ag_cert_construct_fast_final (votes : list ag_vote_notar_t) (ei : ag_epoch_info_t)
    : outcome ag_cert_t :=
  c ← construct_fast_final votes ei; Ok (CFastFinal c).
Definition ag_cert_construct_final (votes : list ag_vote_final_t) (ei : ag_epoch_info_t)
    : outcome ag_cert_t :=
  c ← construct_final votes ei; Ok (CFinal c).
Definition ag_cert_construct_notar_fallback (votes : list ag_vote_notar_t)
    (fallback_votes : list ag_vote_notar_fallback_t) (ei : ag_epoch_info_t) : outcome ag_cert_t :=
  c ← construct_notar_fallback votes fallback_votes ei; Ok (CNotarFallback c).
Definition ag_cert_construct_skip (votes : list ag_vote_skip_t)
    (fallback_votes : list ag_vote_skip_fallback_t) (ei : ag_epoch_info_t) : outcome ag_cert_t :=
  c ← construct_skip votes fallback_votes ei; Ok (CSkip c).

End Verify.

(** * Certificates built from votes *)


Section Built.
Context `{BlsOps}.

Lemma agg_add_ok agg r s :
  0 <= r < AG_BLS_SIGNERS_MAX -> signer_set_test (agg_bitmask agg) r = false ->
  exists sg, ag_bls_agg_add agg r s = Ok (mk_agg sg (signer_set_insert (agg_bitmask agg) r)).
Proof.
  intros Hr Ht. unfold ag_bls_agg_add.
  rewrite Ht. destruct (Z.ltb_spec r AG_BLS_SIGNERS_MAX); [cbn|lia].
  destruct (signer_set_cnt _ =? 0); eauto.
Qed.

(** Distinct ranks aggregate without tripping a test, into a set of exactly those ranks. *)
Lemma agg_votes_total {V} (rank : V -> Z) sg (votes : list V) :
  NoDup (rank <$> votes) -> Forall (fun v => 0 <= rank v < AG_BLS_SIGNERS_MAX) votes ->
  exists agg, agg_votes rank sg votes = Ok agg /\
    forall i, 0 <= i -> signer_set_test (agg_bitmask agg) i = bool_decide (i ∈ rank <$> votes).
Proof.
  intros Hnd Hr. unfold agg_votes.
  enough (forall agg0, (forall v, v ∈ votes -> signer_set_test (agg_bitmask agg0) (rank v) = false) ->
    exists agg, ofold (fun agg v => ag_bls_agg_add agg (rank v) (sg v)) agg0 votes = Ok agg /\
      forall i, 0 <= i -> signer_set_test (agg_bitmask agg) i
        = signer_set_test (agg_bitmask agg0) i || bool_decide (i ∈ rank <$> votes)) as Hgen.
  { destruct (Hgen ag_bls_agg_zero) as (agg & He & Hb).
    - intros v _. apply Z.testbit_0_l.
    - exists agg. split; [done|]. intros i Hi. rewrite (Hb i Hi). cbn.
      unfold signer_set_test. by rewrite Z.testbit_0_l. }
  induction votes as [|v votes IH]; intros agg0 Hdisj.
  - exists agg0. split; [done|]. intros i _.
    rewrite (bool_decide_eq_false_2 (i ∈ _)) by apply not_elem_of_nil. by rewrite orb_false_r.
  - cbn in Hnd. apply NoDup_cons in Hnd as [Hn Hnd]. apply Forall_cons in Hr as [Hrv Hr].
    destruct (agg_add_ok agg0 (rank v) (sg v) Hrv) as (s & E); [apply Hdisj; constructor|].
    cbn. rewrite E. cbn.
    destruct (IH Hnd Hr (mk_agg s (signer_set_insert (agg_bitmask agg0) (rank v)))) as (agg & He & Hb).
    { intros w Hw. cbn. rewrite signer_test_insert by lia. apply orb_false_iff. split.
      - apply Z.eqb_neq. intros Ew. apply Hn. rewrite <- Ew. by apply list_elem_of_fmap_2.
      - apply Hdisj. by constructor. }
    exists agg. split; [done|]. intros i Hi. rewrite (Hb i Hi). cbn [agg_bitmask].
    rewrite signer_test_insert by lia.
    destruct (signer_set_test (agg_bitmask agg0) i), (Z.eqb_spec i (rank v)) as [->|Hne]; cbn; try done.
    + symmetry. apply bool_decide_eq_true_2. constructor.
    + apply bool_decide_ext. cbn. rewrite elem_of_cons. naive_solver.
Qed.

Lemma rank_stake_ok ei r :
  epoch_wf ei -> 0 <= r < ei_validator_cnt ei -> rank_stake ei r = Ok (stake_of ei r).
Proof.
  intros Hwf Hr. unfold rank_stake, stake_of.
  destruct (lookup_lt_is_Some_2 (ei_validators ei) (Z.to_nat r)) as [v Hv];
    [rewrite (ewf_cnt _ Hwf) in Hr; lia|]. by rewrite Hv.
Qed.

(** The stake loops: every vote passes its tests, so the loop returns the sum. *)
Lemma stake_fold {V} (f : Z -> V -> outcome Z) (g : V -> Z) (votes : list V) :
  (forall acc v, v ∈ votes -> f acc v = Ok (acc +w g v)) ->
  ofold f 0 votes = Ok (u64 (lsum g votes)).
Proof.
  intros Hf. change 0 with (u64 0) at 1. rewrite <- (Z.add_0_l (lsum g votes)).
  rewrite <- foldl_u64_add. generalize (u64 0).
  induction votes as [|v votes IH]; intros acc; cbn; [done|].
  rewrite Hf by constructor. cbn. apply IH. intros. apply Hf. by constructor.
Qed.

Section Epoch.
Context (ei : ag_epoch_info_t) (Hwf : epoch_wf ei).
Local Abbreviation n := (Z.to_nat (ei_validator_cnt ei)).

Lemma stake_of_nonneg i : 0 <= i < ei_validator_cnt ei -> 0 <= stake_of ei i.
Proof using Hwf. intros. apply Z.lt_le_incl. by apply (ewf_stake ei Hwf). Qed.

Lemma sum_le_total (b : Z -> bool) :
  0 <= nsum (fun i => if b i then stake_of ei i else 0) n <= ei_total_stake ei.
Proof using Hwf.
  split.
  - apply nsum_nonneg. intros i Hi. destruct (b i); [|lia]. apply stake_of_nonneg. lia.
  - rewrite (ewf_total ei Hwf). apply nsum_le. intros i Hi.
    pose proof (stake_of_nonneg i ltac:(lia)). destruct (b i); lia.
Qed.

Lemma ranks_sum (l : list Z) :
  NoDup l -> Forall (fun r => 0 <= r < ei_validator_cnt ei) l ->
  lsum (stake_of ei) l = nsum (fun i => if bool_decide (i ∈ l) then stake_of ei i else 0) n.
Proof using Hwf.
  intros Hnd Hr. apply lsum_indices; [done|].
  eapply Forall_impl; [exact Hr|]. cbn. intros. pose proof (ewf_pos ei Hwf). lia.
Qed.

Lemma ranks_sum_u64 {V} (rank : V -> Z) (votes : list V) :
  NoDup (rank <$> votes) -> Forall (fun v => 0 <= rank v < ei_validator_cnt ei) votes ->
  u64 (lsum (fun v => stake_of ei (rank v)) votes)
  = nsum (fun i => if bool_decide (i ∈ rank <$> votes) then stake_of ei i else 0) n.
Proof using Hwf.
  intros Hnd Hr.
  assert (lsum (fun v => stake_of ei (rank v)) votes
          = nsum (fun i => if bool_decide (i ∈ rank <$> votes) then stake_of ei i else 0) n) as ->.
  { rewrite <- ranks_sum by (done || by apply Forall_fmap).
    symmetry. exact (lsum_fmap (stake_of ei) rank votes). }
  apply u64_small. pose proof (sum_le_total (fun i => bool_decide (i ∈ rank <$> votes))) as Hs.
  pose proof (ewf_u64 ei Hwf) as Hu. unfold is_u64 in *. cbv beta in Hs. lia.
Qed.

(** What [check_threshold] adds up. *)
Lemma signed_stake_nsum c :
  signed_stake c ei = nsum (fun i => if is_signer c i then stake_of ei i else 0) n.
Proof using Hwf.
  unfold signed_stake. change 0 with (u64 0) at 1.
  rewrite (foldl_u64_add_if (fun v => is_signer c (vi_id v)) vi_stake). rewrite Z.add_0_l.
  assert (lsum (fun v => if is_signer c (vi_id v) then vi_stake v else 0) (ei_validators ei)
    = nsum (fun i => if is_signer c i then stake_of ei i else 0) n) as ->.
  { rewrite <- nsum_lookup, (ewf_cnt ei Hwf), Nat2Z.id. apply nsum_ext. intros i Hi.
    unfold stake_of. destruct (ei_validators ei !! Z.to_nat i) as [v|] eqn:E; cbn.
    - rewrite (ewf_ids ei Hwf _ _ E), Z2Nat.id by lia. done.
    - by destruct (is_signer c i). }
  apply u64_small. pose proof (sum_le_total (is_signer c)) as Hs.
  pose proof (ewf_u64 ei Hwf) as Hu. unfold is_u64 in *. lia.
Qed.

Lemma rank_signer_bound r : 0 <= r < ei_validator_cnt ei -> 0 <= r < AG_BLS_SIGNERS_MAX.
Proof using Hwf.
  pose proof (ewf_max ei Hwf). unfold AG_VAT_MAX, AG_BLS_SIGNERS_MAX in *. lia.
Qed.

Lemma is_signer_bit agg i :
  0 <= i < ei_validator_cnt ei -> ag_bls_agg_is_signer agg i = signer_set_test (agg_bitmask agg) i.
Proof using Hwf.
  intros Hi. apply rank_signer_bound in Hi. unfold ag_bls_agg_is_signer.
  destruct (Z.leb_spec AG_BLS_SIGNERS_MAX i); [lia|done].
Qed.

(** A well-prepared list of votes: one slot, distinct known ranks. *)
Record votes_ok {V} (slot_of rank : V -> Z) (slot : Z) (votes : list V) : Prop := {
  vok_slot : Forall (fun v => slot_of v = slot) votes;
  vok_nodup : NoDup (rank <$> votes);
  vok_rank : Forall (fun v => 0 <= rank v < ei_validator_cnt ei) votes
}.

Lemma votes_agg {V} slot_of rank (sg : V -> ag_bls_sig_t) slot votes :
  votes_ok slot_of rank slot votes ->
  exists agg, agg_votes rank sg votes = Ok agg /\
    forall i, 0 <= i -> signer_set_test (agg_bitmask agg) i = bool_decide (i ∈ rank <$> votes).
Proof using Hwf.
  intros [Hs Hnd Hr]. apply agg_votes_total; [done|].
  eapply Forall_impl; [exact Hr|]. cbn. intros v Hv. by apply rank_signer_bound.
Qed.

(** The stake of the distinct ranks that cast [votes]. *)
Definition votes_stake {V} (rank : V -> Z) (votes : list V) : Z :=
  nsum (fun i => if bool_decide (i ∈ rank <$> votes) then stake_of ei i else 0) n.

Lemma construct_notar_ok slot h votes :
  votes <> [] -> votes_ok vn_slot vn_rank slot votes ->
  Forall (fun v => vn_block_hash v = h) votes ->
  exists c, construct_notar votes ei = Ok c /\ cn_slot c = slot /\ cn_block_hash c = h /\
    cn_stake c = votes_stake vn_rank votes /\
    forall i, 0 <= i -> signer_set_test (agg_bitmask (cn_agg_sig c)) i = bool_decide (i ∈ vn_rank <$> votes).
Proof using Hwf.
  intros Hne Hok Hh. destruct (votes_agg vn_slot vn_rank vn_sig slot votes Hok) as (agg & Ea & Hbits).
  destruct Hok as [Hs Hnd Hr]. rewrite Forall_forall in Hs, Hh, Hr.
  unfold construct_notar. destruct votes as [|v0 vs]; [done|]. set (votes := v0 :: vs) in *.
  cbv zeta. rewrite (Hs v0), (Hh v0) by constructor.
  rewrite (stake_fold _ (fun v => stake_of ei (vn_rank v))).
  - cbn [mbind outcome_bind]. rewrite Ea. cbn [mbind outcome_bind]. eexists. split; [done|]. split_and!; try done.
    exact (ranks_sum_u64 vn_rank votes Hnd ltac:(by apply Forall_forall)).
  - intros acc v Hv. rewrite (Hs v Hv), (Hh v Hv), Z.eqb_refl, hash_eqb_refl. cbn.
    by rewrite rank_stake_ok by auto.
Qed.

Lemma construct_final_ok slot votes :
  votes <> [] -> votes_ok vf_slot vf_rank slot votes ->
  exists c, construct_final votes ei = Ok c /\ cf_slot c = slot /\
    cf_stake c = votes_stake vf_rank votes /\
    forall i, 0 <= i -> signer_set_test (agg_bitmask (cf_agg_sig c)) i = bool_decide (i ∈ vf_rank <$> votes).
Proof using Hwf.
  intros Hne Hok. destruct (votes_agg vf_slot vf_rank vf_sig slot votes Hok) as (agg & Ea & Hbits).
  destruct Hok as [Hs Hnd Hr]. rewrite Forall_forall in Hs, Hr.
  unfold construct_final. destruct votes as [|v0 vs]; [done|]. set (votes := v0 :: vs) in *.
  cbv zeta. rewrite (Hs v0) by constructor.
  rewrite (stake_fold _ (fun v => stake_of ei (vf_rank v))).
  - cbn [mbind outcome_bind]. rewrite Ea. cbn [mbind outcome_bind]. eexists. split; [done|]. split_and!; try done.
    exact (ranks_sum_u64 vf_rank votes Hnd ltac:(by apply Forall_forall)).
  - intros acc v Hv. rewrite (Hs v Hv), Z.eqb_refl. cbn. by rewrite rank_stake_ok by auto.
Qed.

(** A partition of a merged certificate after the identity test: either all of
    its signers and their stake, or nothing. *)
Lemma drop_identity_cases {V} (rank : V -> Z) votes agg :
  (forall i, 0 <= i -> signer_set_test (agg_bitmask agg) i = bool_decide (i ∈ rank <$> votes)) ->
  let r := drop_identity agg (votes_stake rank votes) in
  r.2 = nsum (fun i => if signer_set_test (agg_bitmask r.1) i then stake_of ei i else 0) n /\
  forall i, 0 <= i -> signer_set_test (agg_bitmask r.1) i = true -> i ∈ rank <$> votes.
Proof using Hwf.
  intros Hb r. unfold r, drop_identity. destruct (ag_bls_agg_is_identity agg); cbn.
  - split; [|intros i _; unfold signer_set_test; by rewrite Z.testbit_0_l].
    symmetry. etrans; [|apply (nsum_zero n)]. apply nsum_ext. intros i _.
    unfold signer_set_test. by rewrite Z.testbit_0_l.
  - split; [|intros i Hi; rewrite Hb by done; by intros ?%bool_decide_eq_true].
    apply nsum_ext. intros i Hi. by rewrite Hb by lia.
Qed.

Lemma merge_bits dst src :
  agg_bitmask (ag_bls_agg_merge dst src).1 = agg_bitmask dst /\
  agg_bitmask (ag_bls_agg_merge dst src).2 = agg_bitmask src.
Proof. unfold ag_bls_agg_merge. by destruct (_ =? 0). Qed.

(** Two disjoint partitions add up to the stake of their union. *)
Lemma disjoint_sum (m1 m2 : Z) :
  (forall i, 0 <= i < ei_validator_cnt ei ->
     signer_set_test m1 i = true -> signer_set_test m2 i = true -> False) ->
  nsum (fun i => if signer_set_test m1 i then stake_of ei i else 0) n
  +w nsum (fun i => if signer_set_test m2 i then stake_of ei i else 0) n
  = nsum (fun i => if signer_set_test m1 i || signer_set_test m2 i then stake_of ei i else 0) n.
Proof using Hwf.
  intros Hd. pose proof (sum_le_total (fun i => signer_set_test m1 i || signer_set_test m2 i)) as Hle.
  assert (nsum (fun i => if signer_set_test m1 i then stake_of ei i else 0) n
    + nsum (fun i => if signer_set_test m2 i then stake_of ei i else 0) n
    = nsum (fun i => if signer_set_test m1 i || signer_set_test m2 i then stake_of ei i else 0) n) as E.
  { rewrite <- nsum_add. apply nsum_ext. intros i Hi. specialize (Hd i ltac:(lia)).
    destruct (signer_set_test m1 i), (signer_set_test m2 i); cbn; try lia. }
  cbv beta in Hle. rewrite <- E in Hle |- *. apply u64_add_small.
  pose proof (ewf_u64 ei Hwf). unfold is_u64 in *. lia.
Qed.

Lemma construct_notar_fallback_ok slot h votes fvotes :
  votes <> [] \/ fvotes <> [] ->
  votes_ok vn_slot vn_rank slot votes -> votes_ok vnf_slot vnf_rank slot fvotes ->
  Forall (fun v => vn_block_hash v = h) votes -> Forall (fun v => vnf_block_hash v = h) fvotes ->
  (forall i, i ∈ vn_rank <$> votes -> i ∈ vnf_rank <$> fvotes -> False) ->
  exists c, construct_notar_fallback votes fvotes ei = Ok c /\ cnf_slot c = slot /\
    cnf_block_hash c = h /\ signed_stake (CNotarFallback c) ei = cnf_stake c /\
    forall i, 0 <= i < ei_validator_cnt ei -> is_signer (CNotarFallback c) i = true ->
      i ∈ vn_rank <$> votes \/ i ∈ vnf_rank <$> fvotes.
Proof using Hwf.
  intros Hne Hok Hokf Hh Hhf Hdis.
  destruct (votes_agg vn_slot vn_rank vn_sig slot votes Hok) as (agg & Ea & Hb).
  destruct (votes_agg vnf_slot vnf_rank vnf_sig slot fvotes Hokf) as (aggf & Eaf & Hbf).
  destruct Hok as [Hs Hnd Hr], Hokf as [Hsf Hndf Hrf].
  rewrite Forall_forall in Hs, Hh, Hr. rewrite Forall_forall in Hsf, Hhf, Hrf.
  unfold construct_notar_fallback.
  assert ((match votes, fvotes with
         | v :: _, _ => Some (vn_slot v, vn_block_hash v)
         | [], v :: _ => Some (vnf_slot v, vnf_block_hash v)
         | [], [] => None
         end) = Some (slot, h)) as ->.
  { destruct votes as [|v votes]; [|by rewrite (Hs v), (Hh v) by constructor].
    destruct fvotes as [|v fvotes]; [naive_solver|]. by rewrite (Hsf v), (Hhf v) by constructor. }
  rewrite (stake_fold _ (fun v => stake_of ei (vn_rank v)) votes).
  2:{ intros acc v Hv. rewrite (Hs v Hv), (Hh v Hv), Z.eqb_refl, hash_eqb_refl. cbn.
      by rewrite rank_stake_ok by auto. }
  cbn [mbind outcome_bind]. rewrite (stake_fold _ (fun v => stake_of ei (vnf_rank v)) fvotes).
  2:{ intros acc v Hv. rewrite (Hsf v Hv), (Hhf v Hv), Z.eqb_refl, hash_eqb_refl. cbn.
      by rewrite rank_stake_ok by auto. }
  cbn [mbind outcome_bind].
  rewrite (ranks_sum_u64 vn_rank votes), (ranks_sum_u64 vnf_rank fvotes)
    by (done || by apply Forall_forall).
  rewrite Ea. cbn [mbind outcome_bind].
  pose proof (drop_identity_cases vn_rank votes agg Hb) as [Hst Hin]. unfold votes_stake in Hst, Hin.
  destruct (drop_identity agg _) as [a1 s1]. cbn in Hst, Hin. rewrite Eaf. cbn [mbind outcome_bind].
  pose proof (drop_identity_cases vnf_rank fvotes aggf Hbf) as [Hstf Hinf]. unfold votes_stake in Hstf, Hinf.
  destruct (drop_identity aggf _) as [a2 s2]. cbn in Hstf, Hinf.
  pose proof (merge_bits a1 a2) as [Hm1 Hm2]. destruct (ag_bls_agg_merge a1 a2) as [b1 b2]. cbn in Hm1, Hm2.
  eexists. split; [done|]. split; [done|]. split; [done|]. cbn [cnf_stake]. split.
  2:{ intros i Hi. cbn [is_signer]. rewrite !is_signer_bit by done. cbn. rewrite Hm1, Hm2.
      intros [Hs1|Hs2]%orb_prop; [left; apply Hin|right; apply Hinf]; done || lia. }
  rewrite signed_stake_nsum, Hst, Hstf, disjoint_sum.
  - apply nsum_ext. intros i Hi. cbn. rewrite !is_signer_bit by lia. by rewrite Hm1, Hm2.
  - intros i Hi H1 H2. apply (Hdis i); [apply Hin|apply Hinf]; done || lia.
Qed.

Lemma construct_skip_ok slot votes fvotes :
  votes <> [] \/ fvotes <> [] ->
  votes_ok vs_slot vs_rank slot votes -> votes_ok vsf_slot vsf_rank slot fvotes ->
  (forall i, i ∈ vs_rank <$> votes -> i ∈ vsf_rank <$> fvotes -> False) ->
  exists c, construct_skip votes fvotes ei = Ok c /\ cs_slot c = slot /\
    signed_stake (CSkip c) ei = cs_stake c /\
    forall i, 0 <= i < ei_validator_cnt ei -> is_signer (CSkip c) i = true ->
      i ∈ vs_rank <$> votes \/ i ∈ vsf_rank <$> fvotes.
Proof using Hwf.
  intros Hne Hok Hokf Hdis.
  destruct (votes_agg vs_slot vs_rank vs_sig slot votes Hok) as (agg & Ea & Hb).
  destruct (votes_agg vsf_slot vsf_rank vsf_sig slot fvotes Hokf) as (aggf & Eaf & Hbf).
  destruct Hok as [Hs Hnd Hr], Hokf as [Hsf Hndf Hrf].
  rewrite Forall_forall in Hs, Hr. rewrite Forall_forall in Hsf, Hrf.
  unfold construct_skip.
  assert ((match votes, fvotes with
         | v :: _, _ => Some (vs_slot v)
         | [], v :: _ => Some (vsf_slot v)
         | [], [] => None
         end) = Some slot) as ->.
  { destruct votes as [|v votes]; [|by rewrite (Hs v) by constructor].
    destruct fvotes as [|v fvotes]; [naive_solver|]. by rewrite (Hsf v) by constructor. }
  rewrite (stake_fold _ (fun v => stake_of ei (vs_rank v)) votes).
  2:{ intros acc v Hv. rewrite (Hs v Hv), Z.eqb_refl. cbn. by rewrite rank_stake_ok by auto. }
  cbn [mbind outcome_bind]. rewrite (stake_fold _ (fun v => stake_of ei (vsf_rank v)) fvotes).
  2:{ intros acc v Hv. rewrite (Hsf v Hv), Z.eqb_refl. cbn. by rewrite rank_stake_ok by auto. }
  cbn [mbind outcome_bind].
  rewrite (ranks_sum_u64 vs_rank votes), (ranks_sum_u64 vsf_rank fvotes)
    by (done || by apply Forall_forall).
  rewrite Ea. cbn [mbind outcome_bind].
  pose proof (drop_identity_cases vs_rank votes agg Hb) as [Hst Hin]. unfold votes_stake in Hst, Hin.
  destruct (drop_identity agg _) as [a1 s1]. cbn in Hst, Hin. rewrite Eaf. cbn [mbind outcome_bind].
  pose proof (drop_identity_cases vsf_rank fvotes aggf Hbf) as [Hstf Hinf]. unfold votes_stake in Hstf, Hinf.
  destruct (drop_identity aggf _) as [a2 s2]. cbn in Hstf, Hinf.
  pose proof (merge_bits a1 a2) as [Hm1 Hm2]. destruct (ag_bls_agg_merge a1 a2) as [b1 b2]. cbn in Hm1, Hm2.
  eexists. split; [done|]. split; [done|]. cbn [cs_stake]. split.
  2:{ intros i Hi. cbn [is_signer]. rewrite !is_signer_bit by done. cbn. rewrite Hm1, Hm2.
      intros [Hs1|Hs2]%orb_prop; [left; apply Hin|right; apply Hinf]; done || lia. }
  rewrite signed_stake_nsum, Hst, Hstf, disjoint_sum.
  - apply nsum_ext. intros i Hi. cbn. rewrite !is_signer_bit by lia. by rewrite Hm1, Hm2.
  - intros i Hi H1 H2. apply (Hdis i); [apply Hin|apply Hinf]; done || lia.
Qed.

End Epoch.
End Built.
