(* ===== verification/BlsSerde.v ===== *)
(** The wire format of signer sets (src/src/choreo/votor/ag_bls_serde.h,
    ag_bls_serde.c): one bit per rank for one partition, one base-3 digit per
    rank, five to a byte, for a pair of partitions. *)
From S2P Require Import Prelude VotorBase Bls Vote.

Definition AG_BLS_AGG_HDR_SZ : Z := 1 + 2.
Definition AG_BLS_AGG_SER_SZ (bit_cnt : Z) : Z := AG_BLS_AGG_HDR_SZ + (bit_cnt + 7) / 8.
Definition AG_BLS_AGG_PAIR_SER_SZ (bit_cnt : Z) : Z := AG_BLS_AGG_HDR_SZ + (bit_cnt + 4) / 5.
Definition AG_BLS_AGG_PAIR_SER_MAX : Z := AG_BLS_AGG_PAIR_SER_SZ AG_BLS_SIGNERS_MAX.

Definition BASE2_BITMAP : Z := 0.
Definition BASE3_BITMAP : Z := 1.

(** * Encoders *)

Definition bit_cnt (agg : ag_bls_agg_t) : Z :=
  Z.min AG_BLS_SIGNERS_MAX (signer_set_last (agg_bitmask agg) +w 1).

Definition ag_bls_agg_ser_sz (agg : ag_bls_agg_t) : Z := AG_BLS_AGG_SER_SZ (bit_cnt agg).

Definition ag_bls_agg_pair_ser_sz (base fb : ag_bls_agg_t) : Z :=
  AG_BLS_AGG_PAIR_SER_SZ (Z.max (bit_cnt base) (bit_cnt fb)).

(** [p[ i>>3 ] |= (uchar)( 1U << (i&7U) )] *)
Definition or_bit (p : list Z) (i : Z) : list Z :=
  alter (fun b => Z.lor b (Z.shiftl 1 (Z.land i 7) mod 256)) (Z.to_nat (Z.shiftr i 3)) p.

Definition base2_payload (mask bits payload_sz : Z) : list Z :=
  foldl (fun p i => if signer_set_test mask i then or_bit p i else p)
    (replicate (Z.to_nat payload_sz) 0) (range 0 bits).

Definition ag_bls_agg_ser (agg : ag_bls_agg_t) : list Z :=
  let bits := bit_cnt agg in
  [BASE2_BITMAP] ++ le_store 2 bits
  ++ base2_payload (agg_bitmask agg) bits (ag_bls_agg_ser_sz agg - AG_BLS_AGG_HDR_SZ).

(** The base-3 digit of a rank. *)
Definition digit (base fb i : Z) : Z :=
  if signer_set_test base i then 1 else if signer_set_test fb i then 2 else 0.

Definition base3_block (base fb start stop : Z) : Z :=
  (foldl (fun bp i => (bp.1 + digit base fb i * bp.2, bp.2 * 3)) (0, 1) (range start stop)).1 mod 256.

Definition base3_payload (base fb bits payload_sz : Z) : list Z :=
  (fun chunk => base3_block base fb (chunk * 5) (Z.min (chunk * 5 + 5) bits)) <$> range 0 payload_sz.

Definition ag_bls_agg_pair_ser (base fb : ag_bls_agg_t) : list Z :=
  let bits := Z.max (bit_cnt base) (bit_cnt fb) in
  [BASE3_BITMAP] ++ le_store 2 bits
  ++ base3_payload (agg_bitmask base) (agg_bitmask fb) bits (ag_bls_agg_pair_ser_sz base fb - AG_BLS_AGG_HDR_SZ).

(** * Decoders *)

Record ag_bls_agg_serde_t := mk_agg_serde { bm_version : Z; bm_bit_cnt : Z; bm_payload : list Z }.

Definition bitmap_hdr (b : list Z) : ag_bls_agg_serde_t + de_err :=
  if Z.of_nat (length b) <? AG_BLS_AGG_HDR_SZ then inr ErrSz
  else inl (mk_agg_serde (byte_at b 0) (le_load (bytes_at b 1 2)) (drop (Z.to_nat AG_BLS_AGG_HDR_SZ) b)).

Definition base2_de (bm : ag_bls_agg_serde_t) : ag_bls_agg_t + de_err :=
  let bits := bm_bit_cnt bm in
  if AG_BLS_SIGNERS_MAX <? bits then inr ErrSz
  else if negb (Z.of_nat (length (bm_payload bm)) =? AG_BLS_AGG_SER_SZ bits - AG_BLS_AGG_HDR_SZ) then inr ErrInval
  else inl (mk_agg zero_sig
    (foldl (fun m i =>
              if Z.land (Z.shiftr (byte_at (bm_payload bm) (Z.shiftr i 3)) (Z.land i 7)) 1 =? 1
              then signer_set_insert m i else m) 0 (range 0 bits))).

(** One rank of a base-3 byte: the digit is shifted out of the block. *)
Definition base3_de_step (s : Z * (Z * Z)) (i : Z) : Z * (Z * Z) :=
  let '(block, (mb, mf)) := s in
  let d := block mod 3 in
  (block / 3, if d =? 1 then (signer_set_insert mb i, mf)
              else if d =? 2 then (mb, signer_set_insert mf i) else (mb, mf)).

Definition base3_de_chunk (payload : list Z) (bits : Z) (ms : Z * Z) (chunk : Z) : Z * Z :=
  (foldl base3_de_step (byte_at payload chunk, ms) (range (chunk * 5) (Z.min (chunk * 5 + 5) bits))).2.

Definition base3_de (bm : ag_bls_agg_serde_t) : (ag_bls_agg_t * ag_bls_agg_t) + de_err :=
  let bits := bm_bit_cnt bm in
  let nchunks := AG_BLS_AGG_PAIR_SER_SZ bits - AG_BLS_AGG_HDR_SZ in
  if AG_BLS_SIGNERS_MAX <? bits then inr ErrSz
  else if negb (Z.of_nat (length (bm_payload bm)) =? nchunks) then inr ErrInval
  else
    let ms := foldl (base3_de_chunk (bm_payload bm) bits) (0, 0) (range 0 nchunks) in
    inl (mk_agg zero_sig ms.1, mk_agg zero_sig ms.2).

Definition ag_bls_agg_de (b : list Z) : ag_bls_agg_t + de_err :=
  match bitmap_hdr b with
  | inr e => inr e
  | inl bm => if negb (bm_version bm =? BASE2_BITMAP) then inr ErrInval else base2_de bm
  end.

Definition ag_bls_agg_pair_de (b : list Z) : (ag_bls_agg_t * ag_bls_agg_t) + de_err :=
  match bitmap_hdr b with
  | inr e => inr e
  | inl bm =>
      if bm_version bm =? BASE2_BITMAP then
        match base2_de bm with
        | inr e => inr e
        | inl base => inl (base, ag_bls_agg_zero)
        end
      else if bm_version bm =? BASE3_BITMAP then base3_de bm
      else inr ErrInval
  end.

(** * Round trips *)

(** A signer set of the width [fd_set] gives it. *)
Definition mask_wf (m : Z) : Prop := 0 <= m < 2 ^ AG_BLS_SIGNERS_MAX.

Lemma range_snoc lo hi : lo <= hi -> range lo (hi + 1) = range lo hi ++ [hi].
Proof.
  intros Hle. unfold range. rewrite <- (Z2Nat.id (hi - lo)) by lia.
  replace (hi + 1 - lo) with (Z.of_nat (S (Z.to_nat (hi - lo)))) by lia.
  rewrite seqZ_S. do 2 f_equal. lia.
Qed.

(** Induction over the iterations of a counted loop. *)
Lemma foldl_range_ind {S} (f : S -> Z -> S) (P : Z -> S -> Prop) s0 lo hi :
  lo <= hi -> P lo s0 -> (forall i s, lo <= i < hi -> P i s -> P (i + 1) (f s i)) ->
  P hi (foldl f s0 (range lo hi)).
Proof.
  intros Hle H0 Hs. replace hi with (lo + Z.of_nat (Z.to_nat (hi - lo))) by lia.
  assert (Z.to_nat (hi - lo) <= Z.to_nat (hi - lo))%nat as Hk by lia. revert Hk.
  generalize (Z.to_nat (hi - lo)) at 1 3 4 as k.
  induction k as [|k IH]; intros Hk.
  - unfold range. rewrite Z.add_0_r, Z.sub_diag. done.
  - rewrite Nat2Z.inj_succ. unfold Z.succ. rewrite Z.add_assoc, range_snoc by lia.
    rewrite foldl_app. cbn [foldl]. apply Hs; [lia|]. apply IH. lia.
Qed.

Lemma fold_setbits (b : Z -> bool) m0 lo n j :
  0 <= lo <= n -> 0 <= j ->
  Z.testbit (foldl (fun m i => if b i then signer_set_insert m i else m) m0 (range lo n)) j
  = Z.testbit m0 j || ((lo <=? j) && (j <? n) && b j).
Proof.
  intros Hn Hj. revert j Hj.
  apply (foldl_range_ind _ (fun k m => forall j, 0 <= j ->
    Z.testbit m j = Z.testbit m0 j || ((lo <=? j) && (j <? k) && b j))); [lia| |].
  - intros j Hj. replace ((lo <=? j) && (j <? lo)) with false by lia. by rewrite orb_false_r.
  - intros i m Hi IH j Hj.
    assert (Z.testbit (if b i then signer_set_insert m i else m) j = Z.testbit m j || ((j =? i) && b i)) as ->.
    { destruct (b i); [|by rewrite andb_false_r, orb_false_r]. rewrite andb_true_r, orb_comm.
      exact (signer_test_insert m i j ltac:(lia)). }
    rewrite (IH j Hj). destruct (Z.eqb_spec j i) as [->|Hne]; cbn.
    + replace (lo <=? i) with true by lia. replace (i <? i) with false by lia.
      replace (i <? i + 1) with true by lia. cbn. by rewrite orb_false_r.
    + replace (j <? i + 1) with (j <? i) by lia. by rewrite orb_false_r.
Qed.

Lemma bit_index i : 0 <= i -> Z.shiftr i 3 = i / 8 /\ Z.land i 7 = i mod 8.
Proof.
  intros Hi. split; [by rewrite Z.shiftr_div_pow2|].
  change 7 with (Z.ones 3). by rewrite Z.land_ones.
Qed.

Lemma bit_test x t : 0 <= t -> (Z.land (Z.shiftr x t) 1 =? 1) = Z.testbit x t.
Proof.
  intros Ht. change 1 with (Z.ones 1) at 1. rewrite Z.land_ones by lia.
  rewrite Z.shiftr_div_pow2 by done. change (2 ^ 1) with 2.
  rewrite <- (Z.testbit_spec' x t Ht). by destruct (Z.testbit x t).
Qed.

Lemma byte_at_or_bit p i k :
  0 <= i -> i / 8 < Z.of_nat (length p) -> 0 <= k ->
  byte_at (or_bit p i) k
  = if decide (k = i / 8) then Z.lor (byte_at p k) (2 ^ (i mod 8)) else byte_at p k.
Proof.
  intros Hi Hl Hk. unfold or_bit, byte_at. destruct (bit_index i Hi) as [-> ->].
  assert (Z.shiftl 1 (i mod 8) mod 256 = 2 ^ (i mod 8)) as ->.
  { pose proof (Z.mod_pos_bound i 8 ltac:(lia)) as Hm. rewrite Z.shiftl_mul_pow2, Z.mul_1_l by lia.
    apply Z.mod_small. split; [apply Z.pow_nonneg; lia|].
    change 256 with (2 ^ 8). apply Z.pow_lt_mono_r; lia. }
  pose proof (Z.div_pos i 8 Hi ltac:(lia)).
  case_decide as Hd.
  - subst k. rewrite list_lookup_alter_eq.
    destruct (lookup_lt_is_Some_2 p (Z.to_nat (i / 8))) as [b Hb]; [lia|]. by rewrite Hb.
  - by rewrite list_lookup_alter_ne by lia.
Qed.

Lemma base2_payload_spec m bits sz :
  0 <= bits -> bits <= 8 * sz ->
  length (base2_payload m bits sz) = Z.to_nat sz /\
  forall i, 0 <= i < 8 * sz ->
    Z.testbit (byte_at (base2_payload m bits sz) (i / 8)) (i mod 8) = (i <? bits) && signer_set_test m i.
Proof.
  intros Hb Hsz. unfold base2_payload.
  apply (foldl_range_ind _ (fun n p => length p = Z.to_nat sz /\
    forall i, 0 <= i < 8 * sz -> Z.testbit (byte_at p (i / 8)) (i mod 8) = (i <? n) && signer_set_test m i));
    [done| |].
  - rewrite length_replicate. split; [done|]. intros i Hi. unfold byte_at.
    assert (0 <= i / 8 < sz) by (split; [apply Z.div_pos|apply Z.div_lt_upper_bound]; lia).
    rewrite lookup_replicate_2 by lia. cbn. rewrite Z.testbit_0_l.
    destruct (Z.ltb_spec i 0); [lia|done].
  - intros n p Hn [Hl IH].
    assert ((n / 8 : Z) < Z.of_nat (length p)) as Hlt
      by (rewrite Hl; apply Z.div_lt_upper_bound; lia).
    destruct (signer_set_test m n) eqn:Et.
    + split; [unfold or_bit; by rewrite length_alter|]. intros i Hi.
      rewrite byte_at_or_bit by (done || lia || (apply Z.div_pos; lia)).
      pose proof (Z.mod_pos_bound n 8 ltac:(lia)).
      destruct (decide (i = n)) as [->|Hne].
      * rewrite decide_True by done. rewrite Z.lor_spec, Z.pow2_bits_true by lia.
        rewrite orb_true_r, Et. by replace (n <? n + 1) with true by lia.
      * replace (i <? n + 1) with (i <? n) by lia. rewrite <- IH by done.
        case_decide as Hd; [|done]. rewrite Z.lor_spec, Z.pow2_bits_false, orb_false_r; [done|].
        intros Hm. apply Hne. rewrite (Z.div_mod i 8), (Z.div_mod n 8) by lia. congruence.
    + split; [done|]. intros i Hi. rewrite IH by done.
      destruct (decide (i = n)) as [->|Hne]; [by rewrite Et, !andb_false_r|].
      by replace (i <? n + 1) with (i <? n) by lia.
Qed.

Lemma bit_cnt_spec agg :
  mask_wf (agg_bitmask agg) ->
  0 <= bit_cnt agg <= AG_BLS_SIGNERS_MAX /\
  forall i, bit_cnt agg <= i -> signer_set_test (agg_bitmask agg) i = false.
Proof.
  unfold mask_wf, bit_cnt, signer_set_last. intros [H0 H1].
  destruct (Z.eqb_spec (agg_bitmask agg) 0) as [E|E].
  - change (ULONG_MAX +w 1) with 0. rewrite E. unfold AG_BLS_SIGNERS_MAX. split; [lia|].
    intros i _. apply Z.testbit_0_l.
  - assert (0 <= Z.log2 (agg_bitmask agg) < 2048) as Hl.
    { split; [apply Z.log2_nonneg|]. apply Z.log2_lt_pow2; [lia|done]. }
    rewrite u64_add_small by (unfold is_u64, ULONG_MAX; lia). unfold AG_BLS_SIGNERS_MAX.
    rewrite Z.min_r by lia. split; [lia|]. intros i Hi. apply Z.bits_above_log2; lia.
Qed.

Lemma bitmap_hdr_frame v bits payload :
  0 <= bits <= USHORT_MAX ->
  bitmap_hdr ([v] ++ le_store 2 bits ++ payload) = inl (mk_agg_serde v bits payload).
Proof.
  intros Hb. unfold bitmap_hdr, AG_BLS_AGG_HDR_SZ. rewrite !length_app, le_store_length.
  case_if; [cbn [length] in E; lia|].
  rewrite bytes_at_mid by done. by rewrite le_load_store_u16.
Qed.

Lemma ser_sz_bound bits :
  0 <= bits -> bits <= 8 * (AG_BLS_AGG_SER_SZ bits - AG_BLS_AGG_HDR_SZ).
Proof.
  intros. unfold AG_BLS_AGG_SER_SZ. pose proof (Z.div_mod (bits + 7) 8).
  pose proof (Z.mod_pos_bound (bits + 7) 8). lia.
Qed.

Lemma base2_de_ser m bits :
  mask_wf m -> 0 <= bits <= AG_BLS_SIGNERS_MAX -> (forall i, bits <= i -> signer_set_test m i = false) ->
  base2_de (mk_agg_serde BASE2_BITMAP bits (base2_payload m bits (AG_BLS_AGG_SER_SZ bits - AG_BLS_AGG_HDR_SZ)))
  = inl (mk_agg zero_sig m).
Proof.
  intros Hm Hb Hhi. unfold base2_de. cbn [bm_bit_cnt bm_payload].
  set (sz := AG_BLS_AGG_SER_SZ bits - AG_BLS_AGG_HDR_SZ).
  pose proof (ser_sz_bound bits ltac:(lia)) as Hsz. fold sz in Hsz.
  destruct (base2_payload_spec m bits sz ltac:(lia) Hsz) as [Hl Hbits].
  replace (AG_BLS_SIGNERS_MAX <? bits) with false by lia.
  rewrite Hl, Z2Nat.id by lia. rewrite Z.eqb_refl. cbn [negb]. do 2 f_equal.
  apply Z.bits_inj'. intros j Hj.
  rewrite (fold_setbits (fun i => Z.land (Z.shiftr (byte_at (base2_payload m bits sz) (Z.shiftr i 3))
             (Z.land i 7)) 1 =? 1)) by lia.
  cbv beta. rewrite Z.testbit_0_l. replace (0 <=? j) with true by lia. cbn [orb andb].
  destruct (bit_index j Hj) as [-> ->].
  rewrite bit_test by (pose proof (Z.mod_pos_bound j 8); lia).
  destruct (Z.ltb_spec j bits) as [Hlt|Hge]; cbn.
  - rewrite Hbits by lia. by replace (j <? bits) with true by lia.
  - symmetry. by apply Hhi.
Qed.

Lemma bits_ushort agg : mask_wf (agg_bitmask agg) -> 0 <= bit_cnt agg <= USHORT_MAX.
Proof. intros H. destruct (bit_cnt_spec agg H). unfold AG_BLS_SIGNERS_MAX, USHORT_MAX in *. lia. Qed.

(** The base-2 bitmap of a set decodes to the set, on its own or as a pair
    whose second partition is empty. *)
Lemma agg_ser_de agg :
  mask_wf (agg_bitmask agg) ->
  ag_bls_agg_de (ag_bls_agg_ser agg) = inl (mk_agg zero_sig (agg_bitmask agg)) /\
  ag_bls_agg_pair_de (ag_bls_agg_ser agg) = inl (mk_agg zero_sig (agg_bitmask agg), ag_bls_agg_zero).
Proof.
  intros Hm. unfold ag_bls_agg_de, ag_bls_agg_pair_de, ag_bls_agg_ser.
  destruct (bit_cnt_spec agg Hm) as [Hb Hhi].
  rewrite bitmap_hdr_frame by by apply bits_ushort. cbn [bm_version].
  unfold ag_bls_agg_ser_sz. by rewrite base2_de_ser.
Qed.

(** A base-3 byte is the value of its digits, least significant first. *)
Definition horner (ds : list Z) : Z := foldr (fun d acc => d + 3 * acc) 0 ds.

Lemma block_fold (f : Z -> Z) l b p :
  foldl (fun bp i => (bp.1 + f i * bp.2, bp.2 * 3)) (b, p) l
  = (b + p * horner (f <$> l), p * 3 ^ Z.of_nat (length l)).
Proof.
  revert b p. induction l as [|i l IH]; intros b p; cbn [foldl fmap list_fmap length horner foldr fst snd].
  - f_equal; lia.
  - rewrite IH. unfold horner. rewrite Nat2Z.inj_succ, Z.pow_succ_r by lia. f_equal; lia.
Qed.

Lemma digit_range base fb i : 0 <= digit base fb i <= 2.
Proof. unfold digit. repeat case_if; lia. Qed.

Lemma horner_bound ds : Forall (fun d => 0 <= d <= 2) ds -> 0 <= horner ds < 3 ^ Z.of_nat (length ds).
Proof.
  induction 1 as [|d ds Hd _ IH]; cbn [horner foldr length]; [lia|].
  rewrite Nat2Z.inj_succ, Z.pow_succ_r by lia. unfold horner in IH. lia.
Qed.

Lemma range_length lo hi : length (range lo hi) = Z.to_nat (hi - lo).
Proof. unfold range. by rewrite length_seqZ. Qed.

Lemma base3_block_horner base fb start stop :
  stop <= start + 5 -> base3_block base fb start stop = horner (digit base fb <$> range start stop).
Proof.
  intros Hle. unfold base3_block. rewrite block_fold. cbn [fst]. rewrite Z.mul_1_l, Z.add_0_l.
  assert (Forall (fun d => 0 <= d <= 2) (digit base fb <$> range start stop)) as Hd
    by (apply Forall_fmap, Forall_forall; intros; apply digit_range).
  apply horner_bound in Hd. rewrite length_fmap, range_length in Hd.
  apply Z.mod_small. split; [lia|]. eapply Z.lt_le_trans; [apply Hd|].
  transitivity (3 ^ 5); [apply Z.pow_le_mono_r; lia|cbn; lia].
Qed.

(** Decoding a byte shifts out exactly the digits that were put in. *)
Lemma base3_de_fold base fb l mb mf :
  foldl base3_de_step (horner (digit base fb <$> l), (mb, mf)) l
  = (0, (foldl (fun m i => if digit base fb i =? 1 then signer_set_insert m i else m) mb l,
         foldl (fun m i => if digit base fb i =? 2 then signer_set_insert m i else m) mf l)).
Proof.
  revert mb mf. induction l as [|i l IH]; intros mb mf; [done|].
  cbn [foldl fmap list_fmap horner foldr]. pose proof (digit_range base fb i) as Hd.
  unfold base3_de_step at 2. fold (horner (digit base fb <$> l)).
  set (h := horner (digit base fb <$> l)) in *. set (d := digit base fb i) in *.
  assert ((d + 3 * h) mod 3 = d) as ->
    by (rewrite Z.mul_comm, Z_mod_plus_full; apply Z.mod_small; lia).
  assert ((d + 3 * h) / 3 = h) as ->
    by (rewrite Z.mul_comm, Z.div_add, Z.div_small; lia).
  destruct (Z.eqb_spec d 1) as [E|E]; [replace (d =? 2) with false by lia; apply IH|].
  destruct (d =? 2); apply IH.
Qed.

Lemma base3_de_ser mb mf bits nchunks :
  0 <= bits <= 5 * nchunks ->
  let payload := base3_payload mb mf bits nchunks in
  let ms := foldl (base3_de_chunk payload bits) (0, 0) (range 0 nchunks) in
  forall j, 0 <= j ->
    Z.testbit ms.1 j = (j <? bits) && (digit mb mf j =? 1) /\
    Z.testbit ms.2 j = (j <? bits) && (digit mb mf j =? 2).
Proof.
  intros Hb payload ms.
  enough (forall j, 0 <= j ->
    Z.testbit ms.1 j = (j <? Z.min (nchunks * 5) bits) && (digit mb mf j =? 1) /\
    Z.testbit ms.2 j = (j <? Z.min (nchunks * 5) bits) && (digit mb mf j =? 2)) as Hgen
    by (rewrite Z.min_r in Hgen by lia; done).
  unfold ms. apply (foldl_range_ind _ (fun c ms => forall j, 0 <= j ->
    Z.testbit ms.1 j = (j <? Z.min (c * 5) bits) && (digit mb mf j =? 1) /\
    Z.testbit ms.2 j = (j <? Z.min (c * 5) bits) && (digit mb mf j =? 2))); [lia| |].
  - intros j Hj. cbn [fst snd]. rewrite Z.testbit_0_l. replace (j <? Z.min _ _) with false by lia. done.
  - intros c [a b] Hc IH j Hj. unfold base3_de_chunk.
    assert (byte_at payload c = horner (digit mb mf <$> range (c * 5) (Z.min (c * 5 + 5) bits))) as ->.
    { rewrite <- base3_block_horner by lia. unfold byte_at, payload, base3_payload.
      rewrite list_lookup_fmap. unfold range at 1. rewrite lookup_seqZ_lt by lia. cbn.
      f_equal; lia. }
    rewrite base3_de_fold. cbn [fst snd]. destruct (IH j Hj) as [IH1 IH2]. cbn [fst snd] in IH1, IH2.
    replace ((c + 1) * 5) with (c * 5 + 5) by lia.
    destruct (Z.le_gt_cases (c * 5) bits) as [Hle|Hgt].
    + rewrite !(fold_setbits (fun i => digit mb mf i =? _)) by lia. cbv beta. rewrite IH1, IH2.
      rewrite (Z.min_l (c * 5)) by lia.
      split; destruct (digit mb mf j =? _); rewrite ?andb_true_r, ?andb_false_r; lia.
    + replace (range (c * 5) (Z.min (c * 5 + 5) bits)) with (@nil Z).
      { cbn [foldl]. rewrite IH1, IH2. rewrite !Z.min_r by lia. done. }
      symmetry. apply length_zero_iff_nil. rewrite range_length. lia.
Qed.

(** The base-3 bitmap of two disjoint sets decodes to the two sets. *)
Lemma agg_pair_ser_de base fb :
  mask_wf (agg_bitmask base) -> mask_wf (agg_bitmask fb) ->
  (forall i, signer_set_test (agg_bitmask base) i = true -> signer_set_test (agg_bitmask fb) i = false) ->
  ag_bls_agg_pair_de (ag_bls_agg_pair_ser base fb)
  = inl (mk_agg zero_sig (agg_bitmask base), mk_agg zero_sig (agg_bitmask fb)).
Proof.
  intros Hm1 Hm2 Hdis. unfold ag_bls_agg_pair_de, ag_bls_agg_pair_ser.
  pose proof (bits_ushort base Hm1). pose proof (bits_ushort fb Hm2).
  destruct (bit_cnt_spec base Hm1) as [Hb1 Hh1], (bit_cnt_spec fb Hm2) as [Hb2 Hh2].
  rewrite bitmap_hdr_frame by lia. cbn [bm_version]. change (BASE3_BITMAP =? BASE2_BITMAP) with false.
  change (BASE3_BITMAP =? BASE3_BITMAP) with true. cbv iota.
  unfold base3_de, ag_bls_agg_pair_ser_sz. cbn [bm_bit_cnt bm_payload].
  set (bits := Z.max (bit_cnt base) (bit_cnt fb)).
  set (nch := AG_BLS_AGG_PAIR_SER_SZ bits - AG_BLS_AGG_HDR_SZ).
  assert (0 <= bits <= 5 * nch) as Hn.
  { unfold nch, AG_BLS_AGG_PAIR_SER_SZ. pose proof (Z.div_mod (bits + 4) 5).
    pose proof (Z.mod_pos_bound (bits + 4) 5). lia. }
  clearbody nch. replace (AG_BLS_SIGNERS_MAX <? bits) with false by lia.
  replace (Z.of_nat (length (base3_payload (agg_bitmask base) (agg_bitmask fb) bits nch)) =? nch) with true
    by (symmetry; apply Z.eqb_eq; unfold base3_payload; rewrite length_fmap, range_length; lia).
  pose proof (base3_de_ser (agg_bitmask base) (agg_bitmask fb) bits nch Hn) as Hms. cbv zeta in Hms.
  cbn [negb]. destruct (foldl _ (0, 0) _) as [m1 m2]. cbn [fst snd] in *.
  assert (m1 = agg_bitmask base) as ->.
  { apply Z.bits_inj'. intros j Hj. destruct (Hms j Hj) as [-> _]. unfold digit.
    destruct (signer_set_test (agg_bitmask base) j) eqn:E.
    - unfold signer_set_test in E. rewrite E. destruct (Z.ltb_spec j bits) as [|Hge]; [done|].
      specialize (Hh1 j ltac:(lia)). unfold signer_set_test in Hh1. congruence.
    - unfold signer_set_test in E. rewrite E. case_if; by rewrite andb_false_r. }
  assert (m2 = agg_bitmask fb) as ->; [|done].
  apply Z.bits_inj'. intros j Hj. destruct (Hms j Hj) as [_ ->]. unfold digit.
  specialize (Hdis j). destruct (signer_set_test (agg_bitmask base) j).
  - unfold signer_set_test in Hdis. rewrite Hdis by done. by rewrite andb_false_r.
  - unfold signer_set_test at 1. destruct (Z.testbit (agg_bitmask fb) j) eqn:E; [|by rewrite andb_false_r].
    destruct (Z.ltb_spec j bits) as [|Hge]; [done|].
    specialize (Hh2 j ltac:(lia)). unfold signer_set_test in Hh2. congruence.
Qed.

(** The encoders write the number of bytes announced, within the buffers. *)
Lemma agg_ser_length agg :
  mask_wf (agg_bitmask agg) ->
  Z.of_nat (length (ag_bls_agg_ser agg)) = ag_bls_agg_ser_sz agg /\ 3 <= ag_bls_agg_ser_sz agg <= 259.
Proof.
  intros Hm. destruct (bit_cnt_spec agg Hm) as [Hb _]. pose proof (ser_sz_bound (bit_cnt agg) ltac:(lia)).
  unfold ag_bls_agg_ser. rewrite !length_app, le_store_length.
  destruct (base2_payload_spec (agg_bitmask agg) (bit_cnt agg) (ag_bls_agg_ser_sz agg - AG_BLS_AGG_HDR_SZ))
    as [-> _]; [lia|done|].
  unfold ag_bls_agg_ser_sz, AG_BLS_AGG_SER_SZ, AG_BLS_AGG_HDR_SZ, AG_BLS_SIGNERS_MAX in *. cbn [length].
  pose proof (Z.div_pos (bit_cnt agg + 7) 8). pose proof (Z.div_le_mono (bit_cnt agg + 7) 2055 8).
  change (2055 / 8) with 256 in *. lia.
Qed.

Lemma agg_pair_ser_length base fb :
  mask_wf (agg_bitmask base) -> mask_wf (agg_bitmask fb) ->
  Z.of_nat (length (ag_bls_agg_pair_ser base fb)) = ag_bls_agg_pair_ser_sz base fb /\
  3 <= ag_bls_agg_pair_ser_sz base fb <= 413.
Proof.
  intros Hm1 Hm2. destruct (bit_cnt_spec base Hm1) as [Hb1 _], (bit_cnt_spec fb Hm2) as [Hb2 _].
  unfold ag_bls_agg_pair_ser, base3_payload. rewrite !length_app, le_store_length, length_fmap, range_length.
  unfold ag_bls_agg_pair_ser_sz, AG_BLS_AGG_PAIR_SER_SZ, AG_BLS_AGG_HDR_SZ, AG_BLS_SIGNERS_MAX in *.
  set (bits := Z.max (bit_cnt base) (bit_cnt fb)). cbn [length].
  pose proof (Z.div_pos (bits + 4) 5). pose proof (Z.div_le_mono (bits + 4) 2052 5).
  change (2052 / 5) with 410 in *. lia.
Qed.
