(* ===== verification/CertSerde.v ===== *)
(** The wire format of certificates (src/src/choreo/votor/ag_cert_serde.h,
    ag_cert_serde.c). *)
From S2P Require Import Prelude VotorBase Bls Vote EpochInfo Cert BlsSerde.

Definition AG_CERT_SERDE_TAG_FINAL : Z := 7.

Definition AG_CERT_SER_HDR_SZ (has_block_id : bool) : Z :=
  1 + 1 + 8 + (if has_block_id then 32 else 0) + AG_BLS_SIG_SZ + 8.
Definition AG_CERT_SER_MIN : Z := AG_CERT_SER_HDR_SZ false + AG_BLS_AGG_HDR_SZ + 2.
Definition AG_CERT_SER_MAX : Z := AG_CERT_SER_HDR_SZ true + AG_BLS_AGG_PAIR_SER_MAX + 2.

(** The aggregate, and the second one of the kinds that have two partitions. *)
Definition ser_agg (self : ag_cert_t) : ag_bls_agg_t :=
  match self with
  | CFinal c => cf_agg_sig c
  | CFastFinal c => cff_agg_sig c
  | CNotar c => cn_agg_sig c
  | CNotarFallback c => cnf_agg_sig_notar c
  | CSkip c => cs_agg_sig_skip c
  end.
Definition ser_agg2 (self : ag_cert_t) : option ag_bls_agg_t :=
  match self with
  | CNotarFallback c => Some (cnf_agg_sig_notar_fallback c)
  | CSkip c => Some (cs_agg_sig_skip_fallback c)
  | _ => None
  end.

Definition ag_cert_ser (self : ag_cert_t) (shred_version : Z) : list Z :=
  let agg := ser_agg self in
  let agg2 := match ser_agg2 self with
              | Some a => if ag_bls_agg_signer_cnt a =? 0 then None else Some a
              | None => None
              end in
  let bitmap_sz := match agg2 with
                   | Some a => ag_bls_agg_pair_ser_sz agg a
                   | None => ag_bls_agg_ser_sz agg
                   end in
  [1] ++ [ag_cert_kind self + AG_CERT_SERDE_TAG_FINAL] ++ le_store 8 (ag_cert_slot self)
  ++ opt_bytes (ag_cert_block_hash self) ++ agg_sig agg ++ le_store 8 bitmap_sz
  ++ (match agg2 with Some a => ag_bls_agg_pair_ser agg a | None => ag_bls_agg_ser agg end)
  ++ le_store 2 shred_version.

(** The decoded partitions, with the signature put back into the first. *)
Definition with_sig (a : ag_bls_agg_t) (s : ag_bls_sig_t) : ag_bls_agg_t := mk_agg s (agg_bitmask a).

Definition de_one (bitmap : list Z) (s : ag_bls_sig_t) (k : ag_bls_agg_t -> ag_cert_t) : ag_cert_t + de_err :=
  match ag_bls_agg_de bitmap with
  | inr e => inr e
  | inl a => inl (k (with_sig a s))
  end.
Definition de_pair (bitmap : list Z) (s : ag_bls_sig_t) (k : ag_bls_agg_t -> ag_bls_agg_t -> ag_cert_t)
    : ag_cert_t + de_err :=
  match ag_bls_agg_pair_de bitmap with
  | inr e => inr e
  | inl (a, a2) => inl (k (with_sig a s) a2)
  end.

Definition ag_cert_de (shred_version : Z) (buf : list Z) : ag_cert_t + de_err :=
  let buf_sz := Z.of_nat (length buf) in
  if (buf_sz <? AG_CERT_SER_MIN) || (AG_CERT_SER_MAX <? buf_sz) then inr ErrSz else
  let version := byte_at buf 0 in
  let tag := byte_at buf 1 in
  if negb (version =? 1) then inr ErrInval else
  let kind := kind_of_tag tag AG_CERT_SERDE_TAG_FINAL in
  let has_block_id := (kind =? 1) || (kind =? 2) || (kind =? 3) in
  let hdr_sz := AG_CERT_SER_HDR_SZ has_block_id in
  if buf_sz <? hdr_sz then inr ErrSz else
  let slot := le_load (bytes_at buf 2 8) in
  let block_id := bytes_at buf 10 32 in
  let off := if has_block_id then 42 else 10 in
  let signature := bytes_at buf off AG_BLS_SIG_SZ in
  let bitmap_sz := le_load (bytes_at buf (off + AG_BLS_SIG_SZ) 8) in
  let rem := buf_sz - hdr_sz in
  if (rem <? bitmap_sz) || negb (rem - bitmap_sz =? 2) then inr ErrSz else
  let bitmap := bytes_at buf hdr_sz bitmap_sz in
  let version' := le_load (bytes_at buf (hdr_sz + bitmap_sz) 2) in
  if negb (version' =? shred_version) then inr ErrShredVersion else
  if kind =? 0 then de_one bitmap signature (fun a => CFinal (mk_cert_final slot a 0))
  else if kind =? 1 then de_one bitmap signature (fun a => CFastFinal (mk_cert_fast_final slot block_id a 0))
  else if kind =? 2 then de_one bitmap signature (fun a => CNotar (mk_cert_notar slot block_id a 0))
  else if kind =? 3 then
    de_pair bitmap signature (fun a a2 => CNotarFallback (mk_cert_notar_fallback slot block_id a a2 0))
  else if kind =? 4 then de_pair bitmap signature (fun a a2 => CSkip (mk_cert_skip slot a a2 0))
  else inr ErrInval.

(** * Round trip *)

(** What the wire keeps of a certificate: not the stake, and no signature of
    the second partition, which the merge has moved into the first. *)
Definition wire_cert (self : ag_cert_t) : ag_cert_t :=
  match self with
  | CFinal c => CFinal (mk_cert_final (cf_slot c) (cf_agg_sig c) 0)
  | CFastFinal c => CFastFinal (mk_cert_fast_final (cff_slot c) (cff_block_hash c) (cff_agg_sig c) 0)
  | CNotar c => CNotar (mk_cert_notar (cn_slot c) (cn_block_hash c) (cn_agg_sig c) 0)
  | CNotarFallback c =>
      CNotarFallback (mk_cert_notar_fallback (cnf_slot c) (cnf_block_hash c) (cnf_agg_sig_notar c)
        (with_sig (cnf_agg_sig_notar_fallback c) zero_sig) 0)
  | CSkip c =>
      CSkip (mk_cert_skip (cs_slot c) (cs_agg_sig_skip c) (with_sig (cs_agg_sig_skip_fallback c) zero_sig) 0)
  end.

(** The sizes and widths C's types give a certificate, and the disjointness of
    its partitions. *)
Record cert_wf (c : ag_cert_t) : Prop := {
  cwf_slot : is_u64 (ag_cert_slot c);
  cwf_hash : forall h, ag_cert_block_hash c = Some h -> length h = 32%nat;
  cwf_sig : length (agg_sig (ser_agg c)) = 192%nat;
  cwf_mask : mask_wf (agg_bitmask (ser_agg c));
  cwf_mask2 : forall a, ser_agg2 c = Some a -> mask_wf (agg_bitmask a) /\
    forall i, signer_set_test (agg_bitmask (ser_agg c)) i = true -> signer_set_test (agg_bitmask a) i = false
}.

Definition cert_frame (tag slot : Z) (hb s bm : list Z) (sv : Z) : list Z :=
  [1] ++ [tag] ++ le_store 8 slot ++ hb ++ s ++ le_store 8 (Z.of_nat (length bm)) ++ bm ++ le_store 2 sv.

Section Frame.
Context (tag slot sv : Z) (hb s bm : list Z).
Context (Hslot : is_u64 slot) (Hsv : 0 <= sv <= USHORT_MAX) (Hs : length s = 192%nat).
Context (Hbm : Z.of_nat (length bm) <= 413).

Lemma cframe_length :
  Z.of_nat (length (cert_frame tag slot hb s bm sv)) = 212 + Z.of_nat (length hb) + Z.of_nat (length bm).
Proof using Hs. unfold cert_frame. rewrite !length_app, !le_store_length, Hs. cbn [length]. lia. Qed.

Lemma cframe_slot : le_load (bytes_at (cert_frame tag slot hb s bm sv) 2 8) = slot.
Proof using Hslot.
  unfold cert_frame. rewrite (app_assoc [1] [tag]).
  rewrite bytes_at_mid; [by apply le_load_store_u64|done|by rewrite le_store_length].
Qed.

Lemma cframe_block_id n : n = Z.of_nat (length hb) -> bytes_at (cert_frame tag slot hb s bm sv) 10 n = hb.
Proof using.
  intros ->. unfold cert_frame. rewrite (app_assoc [1] [tag]), (app_assoc ([1] ++ [tag])).
  rewrite bytes_at_mid; [done| |done]. rewrite length_app, le_store_length. done.
Qed.

Lemma cframe_sig off :
  off = 10 + Z.of_nat (length hb) -> bytes_at (cert_frame tag slot hb s bm sv) off AG_BLS_SIG_SZ = s.
Proof using Hs.
  intros ->. unfold cert_frame.
  rewrite (app_assoc [1] [tag]), (app_assoc ([1] ++ [tag])), (app_assoc _ hb).
  rewrite bytes_at_mid; [done| |unfold AG_BLS_SIG_SZ; lia].
  rewrite !length_app, le_store_length. cbn [length]. lia.
Qed.

Lemma cframe_bitmap_sz off :
  off = 10 + Z.of_nat (length hb) ->
  le_load (bytes_at (cert_frame tag slot hb s bm sv) (off + AG_BLS_SIG_SZ) 8) = Z.of_nat (length bm).
Proof using Hs Hbm.
  intros ->. unfold cert_frame.
  rewrite (app_assoc [1] [tag]), (app_assoc ([1] ++ [tag])), (app_assoc _ hb), (app_assoc _ s).
  rewrite bytes_at_mid; [|rewrite !length_app, le_store_length, Hs; unfold AG_BLS_SIG_SZ; cbn [length]; lia
                         |by rewrite le_store_length].
  apply le_load_store_u64. unfold is_u64, ULONG_MAX. lia.
Qed.

Lemma cframe_tail off :
  off = 210 + Z.of_nat (length hb) ->
  bytes_at (cert_frame tag slot hb s bm sv) off (Z.of_nat (length bm)) = bm /\
  le_load (bytes_at (cert_frame tag slot hb s bm sv) (off + Z.of_nat (length bm)) 2) = sv.
Proof using Hs Hsv.
  intros ->. unfold cert_frame.
  rewrite (app_assoc [1] [tag]), (app_assoc ([1] ++ [tag])), (app_assoc _ hb), (app_assoc _ s),
    (app_assoc _ (le_store 8 (Z.of_nat (length bm)))).
  set (pre := ((([1] ++ [tag]) ++ le_store 8 slot) ++ hb) ++ s).
  assert (Z.of_nat (length (pre ++ le_store 8 (Z.of_nat (length bm)))) = 210 + Z.of_nat (length hb)) as Hpre.
  { unfold pre. rewrite !length_app, !le_store_length, Hs. cbn [length]. lia. }
  split; [by apply bytes_at_mid|].
  rewrite (app_assoc _ bm), <- (app_nil_r (le_store 2 sv)).
  rewrite bytes_at_mid; [by apply le_load_store_u16| |by rewrite le_store_length].
  rewrite length_app, Nat2Z.inj_add, Hpre. done.
Qed.

End Frame.

(** The bitmap [ag_cert_ser] writes. *)
Definition cert_bitmap (c : ag_cert_t) : list Z :=
  match ser_agg2 c with
  | Some a => if ag_bls_agg_signer_cnt a =? 0 then ag_bls_agg_ser (ser_agg c) else ag_bls_agg_pair_ser (ser_agg c) a
  | None => ag_bls_agg_ser (ser_agg c)
  end.

Lemma cert_ser_frame c sv :
  cert_wf c ->
  ag_cert_ser c sv = cert_frame (ag_cert_kind c + AG_CERT_SERDE_TAG_FINAL) (ag_cert_slot c)
    (opt_bytes (ag_cert_block_hash c)) (agg_sig (ser_agg c)) (cert_bitmap c) sv /\
  3 <= Z.of_nat (length (cert_bitmap c)) <= 413.
Proof.
  intros [_ _ _ Hm Hm2]. unfold ag_cert_ser, cert_frame, cert_bitmap.
  destruct (agg_ser_length _ Hm) as [Hl Hb].
  destruct (ser_agg2 c) as [a|]; [|rewrite Hl; split; [done|lia]].
  destruct (ag_bls_agg_signer_cnt a =? 0); [rewrite Hl; split; [done|lia]|].
  destruct (Hm2 a eq_refl) as [Hma _]. destruct (agg_pair_ser_length _ _ Hm Hma) as [Hl2 Hb2].
  rewrite Hl2. split; [done|lia].
Qed.

Lemma empty_mask a : mask_wf (agg_bitmask a) -> ag_bls_agg_signer_cnt a = 0 -> agg_bitmask a = 0.
Proof.
  intros Hm Hz. apply Z.bits_inj'. intros j Hj. rewrite Z.testbit_0_l.
  destruct (Z.lt_ge_cases j AG_BLS_SIGNERS_MAX) as [Hlt|Hge].
  - exact (proj1 (signer_set_cnt_zero _) Hz j ltac:(lia)).
  - destruct Hm as [H0 H1]. destruct (decide (agg_bitmask a = 0)) as [->|Hne]; [apply Z.testbit_0_l|].
    apply Z.bits_above_log2; [done|]. apply Z.log2_lt_pow2; [lia|].
    eapply Z.lt_le_trans; [exact H1|]. apply Z.pow_le_mono_r; unfold AG_BLS_SIGNERS_MAX in *; lia.
Qed.

(** The bitmap decodes to the partitions of the certificate. *)
Lemma cert_bitmap_de c :
  cert_wf c ->
  match ser_agg2 c with
  | None => ag_bls_agg_de (cert_bitmap c) = inl (with_sig (ser_agg c) zero_sig)
  | Some a => ag_bls_agg_pair_de (cert_bitmap c) = inl (with_sig (ser_agg c) zero_sig, with_sig a zero_sig)
  end.
Proof.
  intros [_ _ _ Hm Hm2]. unfold cert_bitmap. destruct (agg_ser_de _ Hm) as [H1 H2].
  destruct (ser_agg2 c) as [a|]; [|done]. destruct (Hm2 a eq_refl) as [Hma Hdis].
  destruct (Z.eqb_spec (ag_bls_agg_signer_cnt a) 0) as [E|E].
  - rewrite H2. unfold with_sig. by rewrite (empty_mask a Hma E).
  - by rewrite agg_pair_ser_de.
Qed.

(** A frame with a known kind decodes to its fields. *)
Lemma cert_de_frame kind slot hb s bm sv :
  0 <= kind <= 4 -> is_u64 slot -> 0 <= sv <= USHORT_MAX -> length s = 192%nat ->
  3 <= Z.of_nat (length bm) <= 413 ->
  length hb = (if (kind =? 1) || (kind =? 2) || (kind =? 3) then 32%nat else 0%nat) ->
  ag_cert_de sv (cert_frame (kind + AG_CERT_SERDE_TAG_FINAL) slot hb s bm sv) =
  if kind =? 0 then de_one bm s (fun a => CFinal (mk_cert_final slot a 0))
  else if kind =? 1 then de_one bm s (fun a => CFastFinal (mk_cert_fast_final slot hb a 0))
  else if kind =? 2 then de_one bm s (fun a => CNotar (mk_cert_notar slot hb a 0))
  else if kind =? 3 then de_pair bm s (fun a a2 => CNotarFallback (mk_cert_notar_fallback slot hb a a2 0))
  else de_pair bm s (fun a a2 => CSkip (mk_cert_skip slot a a2 0)).
Proof.
  intros Hk Hslot Hsv Hs Hbm Hhb. unfold ag_cert_de. cbv zeta. rewrite cframe_length by done.
  set (f := cert_frame _ _ _ _ _ _).
  assert (byte_at f 0 = 1) as -> by done.
  assert (byte_at f 1 = kind + AG_CERT_SERDE_TAG_FINAL) as -> by done.
  assert (le_load (bytes_at f 2 8) = slot) as -> by by apply cframe_slot.
  assert (kind_of_tag (kind + AG_CERT_SERDE_TAG_FINAL) AG_CERT_SERDE_TAG_FINAL = kind) as ->.
  { unfold kind_of_tag. rewrite Z.add_simpl_r. apply Z.mod_small. lia. }
  assert (AG_CERT_SER_HDR_SZ ((kind =? 1) || (kind =? 2) || (kind =? 3)) = 210 + Z.of_nat (length hb)) as Hh.
  { rewrite Hhb. unfold AG_CERT_SER_HDR_SZ, AG_BLS_SIG_SZ. by destruct (_ || _ || _). }
  assert ((if (kind =? 1) || (kind =? 2) || (kind =? 3) then 42 else 10) = 10 + Z.of_nat (length hb)) as Ho.
  { rewrite Hhb. by destruct (_ || _ || _). }
  rewrite Hh, Ho. unfold f. rewrite cframe_sig, cframe_bitmap_sz by (done || lia).
  destruct (cframe_tail (kind + AG_CERT_SERDE_TAG_FINAL) slot sv hb s bm Hsv Hs _ eq_refl) as [-> ->].
  change AG_CERT_SER_MIN with 215. change AG_CERT_SER_MAX with 657.
  assert ((length hb <= 32)%nat) by (rewrite Hhb; case_if; lia).
  replace (_ || _) with false by lia. cbn [negb Z.eqb Pos.eqb].
  replace (212 + Z.of_nat (length hb) + Z.of_nat (length bm) <? 210 + Z.of_nat (length hb)) with false by lia.
  replace (_ || _) with false by lia. rewrite Z.eqb_refl. cbn [negb].
  pose proof (cframe_block_id (kind + AG_CERT_SERDE_TAG_FINAL) slot sv hb s bm 32) as Hid.
  generalize dependent (bytes_at (cert_frame (kind + AG_CERT_SERDE_TAG_FINAL) slot hb s bm sv) 10 32).
  intros id Hid. assert (kind = 0 \/ kind = 1 \/ kind = 2 \/ kind = 3 \/ kind = 4) as Hcases by lia.
  destruct Hcases as [-> | [-> | [-> | [-> | ->]]]]; cbn in Hhb |- *; try done;
    by rewrite Hid by (by rewrite Hhb).
Qed.

(** a certificate survives its wire format, for signer sets in base 2 and
    in base 3, and its encoding fits the buffers of [AG_CERT_SER_MAX] bytes:
    decoding the bytes [ag_cert_ser] writes yields the certificate itself, its
    stake apart, which the wire does not carry. *)
Theorem ag_cert_ser_de c sv :
  cert_wf c -> 0 <= sv <= USHORT_MAX ->
  ag_cert_de sv (ag_cert_ser c sv) = inl (wire_cert c) /\
  AG_CERT_SER_MIN <= Z.of_nat (length (ag_cert_ser c sv)) <= AG_CERT_SER_MAX.
Proof.
  intros Hwf Hsv. pose proof (cert_bitmap_de c Hwf) as Hde.
  destruct (cert_ser_frame c sv Hwf) as [-> Hlen]. destruct Hwf as [Hslot Hh Hs Hm Hm2].
  assert (length (opt_bytes (ag_cert_block_hash c)) =
    if (ag_cert_kind c =? 1) || (ag_cert_kind c =? 2) || (ag_cert_kind c =? 3) then 32%nat else 0%nat) as Hhb
    by (destruct c; cbn in Hh |- *; try done; by apply Hh).
  split.
  - rewrite cert_de_frame by (done || (destruct c; cbn; lia)).
    destruct c as [[? []]|[? ? []]|[? ? []]|[? ? [] ?]|[? [] ?]]; cbn in Hde |- *;
      unfold de_one, de_pair; by rewrite Hde.
  - rewrite cframe_length by done. rewrite Hhb. change AG_CERT_SER_MIN with 215.
    change AG_CERT_SER_MAX with 657. case_if; lia.
Qed.

Lemma ag_cert_ser_de_witness :
  let c := CNotarFallback (mk_cert_notar_fallback 9 zero_hash (mk_agg zero_sig 5) (mk_agg zero_sig 1026) 77) in
  ag_cert_de 7 (ag_cert_ser c 7) = inl (wire_cert c) /\
  AG_CERT_SER_MIN <= Z.of_nat (length (ag_cert_ser c 7)) <= AG_CERT_SER_MAX.
Proof.
  apply ag_cert_ser_de; [|unfold USHORT_MAX; lia].
  split; cbn.
  - unfold is_u64, ULONG_MAX. lia.
  - by intros h [= <-].
  - done.
  - unfold mask_wf, AG_BLS_SIGNERS_MAX. split; [lia|]. apply Z.log2_lt_pow2; cbn; lia.
  - intros a [= <-]. cbn. split.
    + unfold mask_wf, AG_BLS_SIGNERS_MAX. split; [lia|]. apply Z.log2_lt_pow2; cbn; lia.
    + intros i. unfold signer_set_test. intros H5. destruct (Z.testbit 1026 i) eqn:E; [|done].
      assert (Z.testbit (Z.land 5 1026) i = true) as Hl by (by rewrite Z.land_spec, H5, E).
      change (Z.land 5 1026) with 0 in Hl. by rewrite Z.testbit_0_l in Hl.
Defined.
