(* ===== verification/FinalityTracker.v ===== *)
(** The finality tracker (src/src/choreo/votor/ag_finality_tracker.h,
    ag_finality_tracker.c): which slots are notarized, finalized, implicitly
    finalized or implicitly skipped, and which ancestors a finalization decides.

    The pool-backed chained maps are finite maps of bounded size; the event
    buffers the caller supplies are lists with the capacity of the buffers. *)
From S2P Require Import Prelude VotorBase.

Inductive finalization_status_t :=
| FsNotarized (hash : ag_block_hash_t)
| FsFinalPendingNotar
| FsFinalized (hash : ag_block_hash_t)
| FsImplicitlyFinalized (hash : ag_block_hash_t)
| FsImplicitlySkipped.

#[export] Instance finalization_status_eq_dec : EqDecision finalization_status_t.
Proof. solve_decision. Defined.

Definition status_kind (s : finalization_status_t) : Z :=
  match s with
  | FsNotarized _ => 0 | FsFinalPendingNotar => 1 | FsFinalized _ => 2
  | FsImplicitlyFinalized _ => 3 | FsImplicitlySkipped => 4
  end.

Definition status_hash (s : finalization_status_t) : option ag_block_hash_t :=
  match s with
  | FsNotarized h | FsFinalized h | FsImplicitlyFinalized h => Some h
  | FsFinalPendingNotar | FsImplicitlySkipped => None
  end.

(** [finalized.slot==ULONG_MAX] stands for no finalized block. *)
Record ag_finalization_event_t := mk_fevent {
  fe_finalized : option ag_block_id_t;
  fe_implicitly_finalized : list ag_block_id_t;
  fe_implicitly_skipped : list Z;
  fe_max : Z
}.

Definition ag_finalization_event_default (max : Z) : ag_finalization_event_t := mk_fevent None [] [] max.

Record ag_finality_tracker_t := mk_ft {
  ft_status : gmap Z finalization_status_t;
  ft_parents : gmap ag_block_id_t ag_block_id_t;
  ft_highest_finalized_slot : Z;
  ft_first_unpruned_slot : Z;
  ft_status_max : Z;
  ft_parent_max : Z
}.

Definition ft_set_status (self : ag_finality_tracker_t) m :=
  mk_ft m (ft_parents self) (ft_highest_finalized_slot self) (ft_first_unpruned_slot self)
    (ft_status_max self) (ft_parent_max self).
Definition ft_set_parents (self : ag_finality_tracker_t) m :=
  mk_ft (ft_status self) m (ft_highest_finalized_slot self) (ft_first_unpruned_slot self)
    (ft_status_max self) (ft_parent_max self).
Definition ft_set_slots (self : ag_finality_tracker_t) hi lo :=
  mk_ft (ft_status self) (ft_parents self) hi lo (ft_status_max self) (ft_parent_max self).

(** The alignment of the tracker is that of its widest member. *)
Definition ag_finality_tracker_align : Z := 8.

(** NULL when the memory is NULL or misaligned or [slot_max] is zero. *)
Definition ag_finality_tracker_new (shmem slot_max : Z) : option ag_finality_tracker_t :=
  if shmem =? 0 then None
  else if negb (shmem mod ag_finality_tracker_align =? 0) then None
  else if slot_max =? 0 then None
  else
    let slot_max := fd_ulong_pow2_up slot_max in
    let parent_max := slot_max *w AG_EQVOC_BLOCK_HASH_MAX in
    Some (mk_ft ∅ ∅ ULONG_MAX ULONG_MAX slot_max parent_max).

Definition ag_finality_tracker_init (self : ag_finality_tracker_t) (slot : Z) : ag_finality_tracker_t :=
  ft_set_slots self slot slot.

Definition ag_finality_tracker_fini (self : ag_finality_tracker_t) : ag_finality_tracker_t :=
  ft_set_slots self ULONG_MAX ULONG_MAX.

(** Returns the tracker and the status replaced, if any. *)
Definition status_insert (self : ag_finality_tracker_t) (slot : Z) (status : finalization_status_t)
    : outcome (ag_finality_tracker_t * option finalization_status_t) :=
  match ft_status self !! slot with
  | Some old => Ok (ft_set_status self (<[slot := status]> (ft_status self)), Some old)
  | None =>
      check OutOfBounds (Z.of_nat (size (ft_status self)) <? ft_status_max self);;
      Ok (ft_set_status self (<[slot := status]> (ft_status self)), None)
  end.

(** * Pruning *)

Definition is_decided (s : option finalization_status_t) : bool :=
  match s with
  | Some (FsFinalized _) | Some (FsImplicitlyFinalized _) | Some FsImplicitlySkipped => true
  | _ => false
  end.

(** The loop that advances [first_unpruned_slot]; a slot it passes is a key of
    the status map, so the size of the map bounds the iterations. *)
Fixpoint advance_unpruned (fuel : nat) (status : gmap Z finalization_status_t) (first next : Z) : outcome Z :=
  if is_decided (status !! next) then
    match fuel with
    | O => Fail Diverge
    | S f => advance_unpruned f status next (next +w 1)
    end
  else Ok first.

(** The removal loop over [parent_below] empties the map of blocks below the root. *)
Definition prune (self : ag_finality_tracker_t) : outcome ag_finality_tracker_t :=
  let root := ft_first_unpruned_slot self in
  first ← advance_unpruned (size (ft_status self)) (ft_status self) root (root +w 1);
  Ok (mk_ft (remove_slots (ft_status self) root first)
        (filter (fun p => first <= bid_slot p.1) (ft_parents self))
        (ft_highest_finalized_slot self) first (ft_status_max self) (ft_parent_max self)).

(** * Implicit finalization *)

Definition push_skipped (ev : ag_finalization_event_t) (slot : Z) : outcome ag_finalization_event_t :=
  check OutOfBounds (Z.of_nat (length (fe_implicitly_skipped ev)) <? fe_max ev);;
  Ok (mk_fevent (fe_finalized ev) (fe_implicitly_finalized ev) (fe_implicitly_skipped ev ++ [slot]) (fe_max ev)).
Definition push_finalized (ev : ag_finalization_event_t) (b : ag_block_id_t) : outcome ag_finalization_event_t :=
  check OutOfBounds (Z.of_nat (length (fe_implicitly_finalized ev)) <? fe_max ev);;
  Ok (mk_fevent (fe_finalized ev) (fe_implicitly_finalized ev ++ [b]) (fe_implicitly_skipped ev) (fe_max ev)).

Abbreviation fstate := (ag_finality_tracker_t * ag_finalization_event_t)%type.

(** [Next]: control goes on; [Return]: the C function returned. *)
Inductive flow := Next (s : fstate) | Return (s : fstate).

(** One slot between a finalized block and its parent. *)
Definition skip_between_step (f : flow) (slot : Z) : outcome flow :=
  match f with
  | Return s => Ok (Return s)
  | Next (self, ev) =>
      r ← status_insert self slot FsImplicitlySkipped;
      match r.2 with
      | Some FsImplicitlySkipped => Ok (Return (r.1, ev))
      | Some (FsFinalPendingNotar) | Some (FsFinalized _) | Some (FsImplicitlyFinalized _) => Fail LogCrit
      | Some (FsNotarized _) | None =>
          ev' ← push_skipped ev slot; Ok (Next (r.1, ev'))
      end
  end.

Definition skip_between (s : fstate) (parent_slot source_slot : Z) : outcome flow :=
  ofold skip_between_step (Next s) (range (parent_slot +w 1) source_slot).

(** [status_insert] of the implicitly finalized block; a status that was already
    final is put back. *)
Definition finalize_implicitly (s : fstate) (b : ag_block_id_t) : outcome flow :=
  let '(self, ev) := s in
  r ← status_insert self (bid_slot b) (FsImplicitlyFinalized (bid_hash b));
  match r.2 with
  | Some (FsFinalized h as old) | Some (FsImplicitlyFinalized h as old) =>
      check LogCrit (hash_eqb h (bid_hash b));;
      r' ← status_insert r.1 (bid_slot b) old;
      Ok (Return (r'.1, ev))
  | Some (FsNotarized h) =>
      check LogCrit (hash_eqb h (bid_hash b));;
      ev' ← push_finalized ev b; Ok (Next (r.1, ev'))
  | Some FsImplicitlySkipped => Fail LogCrit
  | Some FsFinalPendingNotar | None =>
      ev' ← push_finalized ev b; Ok (Next (r.1, ev'))
  end.

Fixpoint implicitly_finalized_loop (fuel : nat) (s : fstate) (source_slot : Z) (parent : ag_block_id_t)
    : outcome fstate :=
  check FdTest (bid_slot parent <? source_slot);;
  if bid_slot parent <? ft_first_unpruned_slot s.1 then Ok s else
  f ← skip_between s (bid_slot parent) source_slot;
  match f with
  | Return s' => Ok s'
  | Next s' =>
      f ← finalize_implicitly s' parent;
      match f with
      | Return s' => Ok s'
      | Next s' =>
          match ft_parents s'.1 !! parent with
          | None => Ok s'
          | Some grand =>
              match fuel with
              | O => Fail Diverge
              | S k => implicitly_finalized_loop k s' (bid_slot parent) grand
              end
          end
      end
  end.

(** The slots of the chain decrease and stay at or above the first unpruned one. *)
Definition handle_implicitly_finalized (self : ag_finality_tracker_t) (source_slot : Z)
    (implicitly_finalized : ag_block_id_t) (ev : ag_finalization_event_t) : outcome fstate :=
  implicitly_finalized_loop (Z.to_nat (source_slot - ft_first_unpruned_slot self)) (self, ev)
    source_slot implicitly_finalized.

Definition handle_finalized_block (self : ag_finality_tracker_t) (finalized : ag_block_id_t)
    (ev : ag_finalization_event_t) : outcome fstate :=
  let slot := bid_slot finalized in
  let ev := mk_fevent (Some finalized) (fe_implicitly_finalized ev) (fe_implicitly_skipped ev) (fe_max ev) in
  let self := ft_set_slots self (Z.max slot (ft_highest_finalized_slot self)) (ft_first_unpruned_slot self) in
  s ← match ft_parents self !! finalized with
      | Some parent => handle_implicitly_finalized self slot parent ev
      | None => Ok (self, ev)
      end;
  self ← prune s.1;
  Ok (self, s.2).

(** * The entry points *)

Definition ag_finality_tracker_add_parent (self : ag_finality_tracker_t) (block parent : ag_block_id_t)
    (ev : ag_finalization_event_t) : outcome fstate :=
  check FdTest (bid_slot parent <? bid_slot block);;
  if bid_slot block <? ft_first_unpruned_slot self then Ok (self, ev) else
  match ft_parents self !! block with
  | Some p => check FdTest (ag_block_id_eq p parent);; Ok (self, ev)
  | None =>
      check FdTest (Z.of_nat (size (ft_parents self)) <? ft_parent_max self);;
      let self := ft_set_parents self (<[block := parent]> (ft_parents self)) in
      match ft_status self !! bid_slot block with
      | Some (FsFinalized h) | Some (FsImplicitlyFinalized h) =>
          if hash_eqb (bid_hash block) h then
            s ← handle_implicitly_finalized self (bid_slot block) parent ev;
            self ← prune s.1;
            Ok (self, s.2)
          else Ok (self, ev)
      | _ => Ok (self, ev)
      end
  end.

Definition ag_finality_tracker_mark_fast_finalized (self : ag_finality_tracker_t) (block : ag_block_id_t)
    (ev : ag_finalization_event_t) : outcome fstate :=
  if bid_slot block <? ft_first_unpruned_slot self then Ok (self, ev) else
  r ← status_insert self (bid_slot block) (FsFinalized (bid_hash block));
  match r.2 with
  | Some (FsFinalized h) | Some (FsImplicitlyFinalized h) =>
      check LogCrit (hash_eqb h (bid_hash block));; Ok (r.1, ev)
  | Some (FsNotarized h) =>
      check LogCrit (hash_eqb h (bid_hash block));; handle_finalized_block r.1 block ev
  | Some FsImplicitlySkipped => Fail LogCrit
  | Some FsFinalPendingNotar | None => handle_finalized_block r.1 block ev
  end.

Definition ag_finality_tracker_mark_notarized (self : ag_finality_tracker_t) (block : ag_block_id_t)
    (ev : ag_finalization_event_t) : outcome fstate :=
  if bid_slot block <? ft_first_unpruned_slot self then Ok (self, ev) else
  r ← status_insert self (bid_slot block) (FsNotarized (bid_hash block));
  match r.2 with
  | None => Ok (r.1, ev)
  | Some (FsNotarized h) | Some (FsFinalized h) | Some (FsImplicitlyFinalized h) =>
      check LogCrit (hash_eqb h (bid_hash block));; Ok (r.1, ev)
  | Some FsImplicitlySkipped => Ok (r.1, ev)
  | Some FsFinalPendingNotar =>
      r' ← status_insert r.1 (bid_slot block) (FsFinalized (bid_hash block));
      handle_finalized_block r'.1 block ev
  end.

Definition ag_finality_tracker_mark_finalized (self : ag_finality_tracker_t) (slot : Z)
    (ev : ag_finalization_event_t) : outcome fstate :=
  if slot <? ft_first_unpruned_slot self then Ok (self, ev) else
  r ← status_insert self slot FsFinalPendingNotar;
  match r.2 with
  | None => Ok (r.1, ev)
  | Some FsFinalPendingNotar | Some (FsFinalized _) | Some (FsImplicitlyFinalized _) => Ok (r.1, ev)
  | Some (FsNotarized h) =>
      r' ← status_insert r.1 slot (FsFinalized h);
      handle_finalized_block r'.1 (ag_block_id slot h) ev
  | Some FsImplicitlySkipped => Fail LogCrit
  end.

(** -1 for an unknown slot; the hash is zeroed when the status carries none. *)
Definition ag_finality_tracker_status (self : ag_finality_tracker_t) (slot : Z) : Z * option ag_block_hash_t :=
  match ft_status self !! slot with
  | None => (-1, None)
  | Some s => (status_kind s, Some (default zero_hash (status_hash s)))
  end.

Definition ag_finality_tracker_has_parent (self : ag_finality_tracker_t) (block : ag_block_id_t) : bool :=
  bool_decide (is_Some (ft_parents self !! block)).
