(* ===== verification/FinalityInv.v ===== *)
(** Correctness of the finality tracker: its invariant, what an implicit
    finalization decides, termination and errors of the entry points, and the
    statuses that later certificates overwrite. *)
From S2P Require Import Prelude VotorBase FinalityTracker.

(** * What a finalization decides

    The edges from a block to its parent that an implicit finalization follows:
    from [source] to [parent], from there to the parent of [parent], and so on,
    down to the first unpruned slot or to a block whose parent is unknown. *)
Fixpoint edges (fuel : nat) (ps : gmap ag_block_id_t ag_block_id_t) (first source : Z) (parent : ag_block_id_t)
    : list (Z * ag_block_id_t) :=
  if bid_slot parent <? first then [] else
  (source, parent) ::
    match fuel, ps !! parent with
    | S k, Some grand => edges k ps first (bid_slot parent) grand
    | _, _ => []
    end.

(** The slots an edge passes over. *)
Definition gap (e : Z * ag_block_id_t) : list Z := range (bid_slot e.2 + 1) e.1.

(** Decisions the walk refuses to overrule: a slot it would skip was finalized, a
    block it would finalize lost its slot to another one or to a skip. *)
Definition skip_conflict (o : option finalization_status_t) : bool :=
  match o with
  | Some FsFinalPendingNotar | Some (FsFinalized _) | Some (FsImplicitlyFinalized _) => true
  | _ => false
  end.
Definition fin_conflict (o : option finalization_status_t) (h : ag_block_hash_t) : bool :=
  match o with
  | Some (FsNotarized h') | Some (FsFinalized h') | Some (FsImplicitlyFinalized h') => negb (hash_eqb h' h)
  | Some FsImplicitlySkipped => true
  | Some FsFinalPendingNotar | None => false
  end.
Definition conflict (st : gmap Z finalization_status_t) (E : list (Z * ag_block_id_t)) : Prop :=
  (exists k, k ∈ flat_map gap E /\ skip_conflict (st !! k) = true) \/
  (exists b, b ∈ E.*2 /\ fin_conflict (st !! bid_slot b) (bid_hash b) = true).

(** * Effects of a walk *)

(** The blocks [F] became implicitly finalized and the slots [K] implicitly
    skipped, in the state and in the event; nothing else changed. *)
Record decides (F : list ag_block_id_t) (K : list Z) (s s' : fstate) : Prop := {
  de_fin : forall b, b ∈ F -> ft_status s'.1 !! bid_slot b = Some (FsImplicitlyFinalized (bid_hash b));
  de_skip : forall k, k ∈ K -> ft_status s'.1 !! k = Some FsImplicitlySkipped;
  de_frame : forall k, k ∉ K -> k ∉ bid_slot <$> F -> ft_status s'.1 !! k = ft_status s.1 !! k;
  de_parents : ft_parents s'.1 = ft_parents s.1;
  de_highest : ft_highest_finalized_slot s'.1 = ft_highest_finalized_slot s.1;
  de_first : ft_first_unpruned_slot s'.1 = ft_first_unpruned_slot s.1;
  de_max : ft_status_max s'.1 = ft_status_max s.1 /\ ft_parent_max s'.1 = ft_parent_max s.1;
  de_event : s'.2 = mk_fevent (fe_finalized s.2) (fe_implicitly_finalized s.2 ++ F)
                      (fe_implicitly_skipped s.2 ++ K) (fe_max s.2);
  de_size : (size (ft_status s'.1) <= size (ft_status s.1) + length F + length K)%nat
}.

Lemma decides_nil s : decides [] [] s s.
Proof. split; try done; try (intros ? ?%elem_of_nil; done); [|lia]. rewrite !app_nil_r. by destruct s as [? []]. Qed.

Lemma decides_app F1 K1 F2 K2 s s1 s2 :
  decides F1 K1 s s1 -> decides F2 K2 s1 s2 ->
  (forall k, k ∈ K1 ++ (bid_slot <$> F1) -> k ∈ K2 ++ (bid_slot <$> F2) -> False) ->
  decides (F1 ++ F2) (K1 ++ K2) s s2.
Proof.
  intros [A1 A2 A3 A4 A5 A6 [A7 A7'] A8 A9] [B1 B2 B3 B4 B5 B6 [B7 B7'] B8 B9] Hdis.
  assert (forall k, k ∈ K1 ++ (bid_slot <$> F1) -> ft_status s2.1 !! k = ft_status s1.1 !! k) as Hkeep
    by (intros k Hk; specialize (Hdis k Hk); apply B3; set_solver).
  split; try congruence.
  - intros b [Hb|Hb]%elem_of_app; [|by apply B1]. rewrite Hkeep; [by apply A1|].
    apply elem_of_app. right. by apply list_elem_of_fmap_2.
  - intros k [Hk|Hk]%elem_of_app; [|by apply B2]. rewrite Hkeep; [by apply A2|set_solver].
  - intros k Hk Hf. rewrite fmap_app in Hf. rewrite B3, A3; [done|set_solver..].
  - split; congruence.
  - rewrite B8, A8. cbn. by rewrite !app_assoc.
  - rewrite !length_app. lia.
Qed.

Lemma status_insert_cases self slot st :
  Z.of_nat (size (ft_status self)) < ft_status_max self ->
  status_insert self slot st = Ok (ft_set_status self (<[slot := st]> (ft_status self)), ft_status self !! slot).
Proof.
  intros Hsz. unfold status_insert. destruct (ft_status self !! slot); [done|]. by rewrite check_true_ok by lia.
Qed.

Lemma insert_size (m : gmap Z finalization_status_t) k st : (size (<[k := st]> m) <= size m + 1)%nat.
Proof. rewrite map_size_insert. destruct (m !! k); cbn; lia. Qed.

(** One slot skipped, one block finalized. *)
Lemma decides_skip self ev k :
  decides [] [k] (self, ev) (ft_set_status self (<[k := FsImplicitlySkipped]> (ft_status self)),
    mk_fevent (fe_finalized ev) (fe_implicitly_finalized ev) (fe_implicitly_skipped ev ++ [k]) (fe_max ev)).
Proof.
  split; cbn; try done.
  - intros b Hb. by apply elem_of_nil in Hb.
  - intros k' ->%list_elem_of_singleton. by rewrite lookup_insert_eq.
  - intros k' Hk' _. rewrite lookup_insert_ne; [done|]. set_solver.
  - by rewrite app_nil_r.
  - pose proof (insert_size (ft_status self) k FsImplicitlySkipped). lia.
Qed.

Lemma decides_fin self ev b :
  decides [b] [] (self, ev)
    (ft_set_status self (<[bid_slot b := FsImplicitlyFinalized (bid_hash b)]> (ft_status self)),
     mk_fevent (fe_finalized ev) (fe_implicitly_finalized ev ++ [b]) (fe_implicitly_skipped ev) (fe_max ev)).
Proof.
  split; cbn; try done.
  - intros b' ->%list_elem_of_singleton. by rewrite lookup_insert_eq.
  - intros k' Hk. by apply elem_of_nil in Hk.
  - intros k' _ Hk'. rewrite lookup_insert_ne; [done|]. set_solver.
  - by rewrite app_nil_r.
  - pose proof (insert_size (ft_status self) (bid_slot b) (FsImplicitlyFinalized (bid_hash b))). lia.
Qed.

(** The same state, up to a status written over itself. *)
Lemma decides_same self ev m :
  (forall k, m !! k = ft_status self !! k) -> decides [] [] (self, ev) (ft_set_status self m, ev).
Proof.
  intros Hm. assert (m = ft_status self) as -> by by apply map_eq.
  replace (ft_set_status self (ft_status self)) with self by by destruct self. apply decides_nil.
Qed.

(** ** The slots between a block and its parent *)

Lemma skip_between_return l s : ofold skip_between_step (Return s) l = Ok (Return s).
Proof. induction l as [|x l IH]; cbn; [done|]. apply IH. Qed.

Lemma skip_between_spec l s :
  NoDup l ->
  Z.of_nat (size (ft_status s.1) + length l) <= ft_status_max s.1 ->
  Z.of_nat (length (fe_implicitly_skipped s.2) + length l) <= fe_max s.2 ->
  match ofold skip_between_step (Next s) l with
  | Ok (Next s') => decides [] l s s'
  | Ok (Return s') => exists l1 x l2, l = l1 ++ x :: l2 /\ decides [] l1 s s' /\
      ft_status s.1 !! x = Some FsImplicitlySkipped
  | Fail e => e = LogCrit /\ exists k, k ∈ l /\ skip_conflict (ft_status s.1 !! k) = true
  end.
Proof.
  intros Hnd. revert s. induction Hnd as [|x l Hx Hnd IH]; intros [self ev] Hsz Hev; [apply decides_nil|].
  cbn [ofold skip_between_step length fst snd] in *. rewrite status_insert_cases by lia.
  cbn [mbind outcome_bind fst snd].
  assert (forall o, o = None \/ (exists h, o = Some (FsNotarized h)) -> ft_status self !! x = o ->
    match (ev' ← push_skipped ev x;
      ofold skip_between_step (Next (ft_set_status self (<[x := FsImplicitlySkipped]> (ft_status self)), ev')) l) with
    | Ok (Next s') => decides [] (x :: l) (self, ev) s'
    | Ok (Return s') => exists l1 y l2, x :: l = l1 ++ y :: l2 /\ decides [] l1 (self, ev) s' /\
        ft_status self !! y = Some FsImplicitlySkipped
    | Fail e => e = LogCrit /\ exists k, k ∈ x :: l /\ skip_conflict (ft_status self !! k) = true
    end) as Hgo.
  { intros o Ho Eo. unfold push_skipped. rewrite check_true_ok by lia. cbn [mbind outcome_bind].
    pose proof (decides_skip self ev x) as Hd1. set (s1 := (ft_set_status _ _, mk_fevent _ _ _ _)) in *.
    pose proof (insert_size (ft_status self) x FsImplicitlySkipped) as Hins.
    specialize (IH s1). cbn [fst snd s1] in IH.
    destruct (ofold skip_between_step (Next s1) l) as [[s'|s']|e].
    - apply (decides_app [] [x] [] l (self, ev) s1 s'); [done| |set_solver].
      apply IH; cbn; [lia|rewrite length_app; cbn; lia].
    - destruct IH as (l1 & y & l2 & -> & Hd & Hy); [cbn; lia|cbn; rewrite length_app; cbn; lia|].
      exists (x :: l1), y, l2. split; [done|]. split.
      + apply (decides_app [] [x] [] l1 (self, ev) s1 s'); [done|done|set_solver].
      + cbn in Hy. rewrite lookup_insert_ne in Hy; [done|]. set_solver.
    - destruct IH as (-> & k & Hk & Hc); [cbn; lia|cbn; rewrite length_app; cbn; lia|].
      split; [done|]. exists k. split; [by constructor|]. cbn in Hc. rewrite lookup_insert_ne in Hc; [done|].
      set_solver. }
  assert (skip_conflict (ft_status self !! x) = true ->
    LogCrit = LogCrit /\ exists k, k ∈ x :: l /\ skip_conflict (ft_status self !! k) = true) as Hbad
    by (intros; split; [done|]; exists x; split; [constructor|done]).
  destruct (ft_status self !! x) as [[h| |h|h|]|] eqn:Ex; cbn [mbind outcome_bind];
    try by apply Hbad.
  - specialize (Hgo _ (or_intror (ex_intro _ h eq_refl)) eq_refl).
    destruct (push_skipped ev x); cbn [mbind outcome_bind] in *; done.
  - rewrite skip_between_return. exists [], x, l. split; [done|]. split; [|done].
    apply decides_same. intros k. rewrite lookup_insert. case_decide; [by subst|done].
  - specialize (Hgo _ (or_introl eq_refl) eq_refl).
    destruct (push_skipped ev x); cbn [mbind outcome_bind] in *; done.
Qed.

(** ** The block itself *)

Lemma finalize_implicitly_spec s b :
  Z.of_nat (size (ft_status s.1)) < ft_status_max s.1 ->
  Z.of_nat (length (fe_implicitly_finalized s.2)) < fe_max s.2 ->
  match finalize_implicitly s b with
  | Ok (Next s') => decides [b] [] s s'
  | Ok (Return s') => decides [] [] s s' /\ is_decided (ft_status s.1 !! bid_slot b) = true
  | Fail e => e = LogCrit /\ fin_conflict (ft_status s.1 !! bid_slot b) (bid_hash b) = true
  end.
Proof.
  destruct s as [self ev]. cbn [fst snd]. intros Hsz Hev. unfold finalize_implicitly.
  rewrite status_insert_cases by lia. cbn [mbind outcome_bind fst snd].
  assert (push_finalized ev b = Ok (mk_fevent (fe_finalized ev) (fe_implicitly_finalized ev ++ [b])
            (fe_implicitly_skipped ev) (fe_max ev))) as Hpush
    by (unfold push_finalized; by rewrite check_true_ok by lia).
  assert (forall old, ft_status self !! bid_slot b = Some old ->
    exists self', status_insert (ft_set_status self
      (<[bid_slot b := FsImplicitlyFinalized (bid_hash b)]> (ft_status self))) (bid_slot b) old
      = Ok (self', Some (FsImplicitlyFinalized (bid_hash b))) /\ decides [] [] (self, ev) (self', ev)) as Hback.
  { intros old Ho. unfold status_insert. cbn. rewrite lookup_insert_eq. eexists. split; [done|].
    refine (decides_same self ev _ _). intros k. rewrite insert_insert_eq, lookup_insert. by case_decide; subst. }
  destruct (ft_status self !! bid_slot b) as [[h| |h|h|]|] eqn:Eb; cbn [mbind outcome_bind]; try done;
    try (rewrite Hpush; apply decides_fin).
  - cbn. destruct (hash_eqb h (bid_hash b)); cbn [check mbind outcome_bind]; [|done]. rewrite Hpush. apply decides_fin.
  - cbn. destruct (hash_eqb h (bid_hash b)); cbn [check mbind outcome_bind]; [|done].
    destruct (Hback _ eq_refl) as (self' & -> & Hd). by cbn.
  - cbn. destruct (hash_eqb h (bid_hash b)); cbn [check mbind outcome_bind]; [|done].
    destruct (Hback _ eq_refl) as (self' & -> & Hd). by cbn.
Qed.

(** ** The chain of ancestors *)

Definition parents_ok (ps : gmap ag_block_id_t ag_block_id_t) : Prop :=
  forall b p, ps !! b = Some p -> bid_slot p < bid_slot b.

Lemma edges_slots fuel ps first source parent :
  parents_ok ps -> bid_slot parent < source ->
  (forall b, b ∈ (edges fuel ps first source parent).*2 -> first <= bid_slot b < source) /\
  (forall k, k ∈ flat_map gap (edges fuel ps first source parent) -> first < k < source).
Proof.
  intros Hps. revert source parent. induction fuel as [|fuel IH]; intros source parent Hlt; cbn [edges];
    (destruct (Z.ltb_spec (bid_slot parent) first) as [|Hge]; [split; intros ? ?%elem_of_nil; done|]).
  - cbn. split; [by intros b ->%list_elem_of_singleton|]. intros k. rewrite app_nil_r.
    intros Hk%elem_of_range. cbn in Hk. lia.
  - assert (forall b, b ∈ ((source, parent) ::
        match ps !! parent with Some grand => edges fuel ps first (bid_slot parent) grand | None => [] end).*2 ->
        b = parent \/ first <= bid_slot b < bid_slot parent) as HF.
    { intros b [->|Hb]%elem_of_cons; [by left|right]. destruct (ps !! parent) as [g|] eqn:Eg; [|by apply elem_of_nil in Hb].
      by apply (IH (bid_slot parent) g (Hps _ _ Eg)). }
    split; [intros b [->|?]%HF; lia|].
    intros k [Hk|Hk]%elem_of_app; [apply elem_of_range in Hk; cbn in Hk; lia|].
    destruct (ps !! parent) as [g|] eqn:Eg; [|by apply elem_of_nil in Hk].
    pose proof (proj2 (IH (bid_slot parent) g (Hps _ _ Eg)) k Hk). lia.
Qed.

Lemma prefix_elem {A} (l1 l2 : list A) x : l1 `prefix_of` l2 -> x ∈ l1 -> x ∈ l2.
Proof. intros [k ->] Hx. by apply elem_of_app; left. Qed.

(** What the walk along the chain of [parent] has decided. *)
Definition walk_result (E : list (Z * ag_block_id_t)) (first source : Z) (s : fstate) (r : outcome fstate) : Prop :=
  match r with
  | Ok s' => exists F K, decides F K s s' /\ F `prefix_of` E.*2 /\ K `prefix_of` flat_map gap E /\
      ((forall k, first <= k < source -> is_decided (ft_status s.1 !! k) = false) ->
        F = E.*2 /\ K = flat_map gap E)
  | Fail e => e = LogCrit /\ conflict (ft_status s.1) E
  end.

Lemma range_nodup lo hi : NoDup (range lo hi).
Proof. apply NoDup_seqZ. Qed.

Lemma gap_length source parent : length (gap (source, parent)) = Z.to_nat (source - bid_slot parent - 1).
Proof. unfold gap, range. rewrite length_seqZ. cbn. lia. Qed.

(** The first edge, then the rest of the chain. *)
Lemma walk_result_cons E first source parent s s2 r :
  decides [parent] (gap (source, parent)) s s2 -> first <= bid_slot parent ->
  (forall b, b ∈ E.*2 -> bid_slot b < bid_slot parent) -> (forall k, k ∈ flat_map gap E -> k < bid_slot parent) ->
  bid_slot parent < source ->
  walk_result E first (bid_slot parent) s2 r -> walk_result ((source, parent) :: E) first source s r.
Proof.
  intros Hd Hf HF HK Hlt.
  assert (forall k, k < bid_slot parent -> ft_status s2.1 !! k = ft_status s.1 !! k) as Hfr.
  { intros k Hk. apply (de_frame _ _ _ _ Hd).
    - unfold gap. rewrite elem_of_range. cbn. lia.
    - cbn. rewrite list_elem_of_singleton. lia. }
  destruct r as [s'|e].
  2:{ intros [-> [(k & Hk & Hc)|(b & Hb & Hc)]]; (split; [done|]).
      - left. exists k. split; [cbn; set_solver|]. by rewrite <- Hfr by by apply HK.
      - right. exists b. split; [cbn; set_solver|]. by rewrite <- Hfr by by apply HF. }
  intros (F & K & Hd' & HpF & HpK & Heq).
  exists ([parent] ++ F), (gap (source, parent) ++ K). split; [|split; [|split]].
  - apply (decides_app [parent] (gap (source, parent)) F K s s2 s' Hd Hd').
    assert (forall k, k ∈ K ++ (bid_slot <$> F) -> k < bid_slot parent) as Hlow.
    { intros k [Hk|(b & -> & Hb)%list_elem_of_fmap]%elem_of_app; [by apply HK, (prefix_elem K)|].
      by apply HF, (prefix_elem F). }
    intros k [Hk%elem_of_range|(b & -> & ->%list_elem_of_singleton)%list_elem_of_fmap]%elem_of_app Hk2%Hlow;
      cbn in *; lia.
  - cbn. by apply prefix_cons.
  - cbn. by apply prefix_app.
  - intros Hun. destruct Heq as [-> ->]; [|done]. intros k Hk. rewrite Hfr by lia. apply Hun. lia.
Qed.

Lemma walk_result_early E first source parent s s' K :
  decides [] K s s' -> K `prefix_of` gap (source, parent) ->
  (exists k, first <= k < source /\ is_decided (ft_status s.1 !! k) = true) ->
  walk_result ((source, parent) :: E) first source s (Ok s').
Proof.
  intros Hd Hp (k & Hk & Hdec). exists [], K. split; [done|]. split; [apply prefix_nil|]. split.
  - cbn. by apply prefix_app_r.
  - intros Hun. rewrite Hun in Hdec by done. done.
Qed.

Lemma loop_spec fuel s source parent :
  parents_ok (ft_parents s.1) -> 0 <= ft_first_unpruned_slot s.1 -> bid_slot parent < source <= ULONG_MAX ->
  bid_slot parent - ft_first_unpruned_slot s.1 + 1 <= Z.of_nat fuel ->
  Z.of_nat (size (ft_status s.1)) + (source - ft_first_unpruned_slot s.1) <= ft_status_max s.1 ->
  Z.of_nat (length (fe_implicitly_skipped s.2)) + (source - ft_first_unpruned_slot s.1) <= fe_max s.2 ->
  Z.of_nat (length (fe_implicitly_finalized s.2)) + (source - ft_first_unpruned_slot s.1) <= fe_max s.2 ->
  walk_result (edges fuel (ft_parents s.1) (ft_first_unpruned_slot s.1) source parent)
    (ft_first_unpruned_slot s.1) source s (implicitly_finalized_loop fuel s source parent).
Proof.
  revert s source parent. induction fuel as [|fuel IH]; intros s source parent Hps Hf0 Hlt Hfuel Hsz Hsk Hfin;
    cbn [implicitly_finalized_loop edges]; (rewrite check_true_ok by lia); cbn [mbind outcome_bind];
    (destruct (Z.ltb_spec (bid_slot parent) (ft_first_unpruned_slot s.1)) as [Hlo|Hhi];
       [exists [], []; split_and!; [apply decides_nil|apply prefix_nil|apply prefix_nil|done]|]); [lia|].
  unfold skip_between. rewrite u64_add_small by (unfold is_u64; lia).
  change (range (bid_slot parent + 1) source) with (gap (source, parent)).
  pose proof (gap_length source parent) as Hgl.
  pose proof (skip_between_spec (gap (source, parent)) s (range_nodup _ _) ltac:(lia) ltac:(lia)) as Hskip.
  destruct (ofold skip_between_step (Next s) (gap (source, parent))) as [[s1|s1]|e]; cbn [mbind outcome_bind].
  3:{ destruct Hskip as (-> & k & Hk & Hc). split; [done|]. left. exists k. split; [cbn; set_solver|done]. }
  2:{ destruct Hskip as (l1 & x & l2 & El & Hd & Hx).
      apply (walk_result_early _ _ _ parent s s1 l1 Hd); [rewrite El; by apply prefix_app_r|].
      exists x. split; [|by rewrite Hx].
      assert (x ∈ gap (source, parent)) as Hin by (rewrite El; set_solver).
      apply elem_of_range in Hin. cbn in Hin. lia. }
  pose proof (de_size _ _ _ _ Hskip) as Hs1. pose proof (de_event _ _ _ _ Hskip) as Hev1.
  pose proof (de_max _ _ _ _ Hskip) as [Hmax1 _]. rewrite Hgl in Hs1. cbn [length] in Hs1.
  pose proof (finalize_implicitly_spec s1 parent ltac:(rewrite Hmax1; lia)
                ltac:(rewrite Hev1; cbn; rewrite app_nil_r; lia)) as Hfi.
  destruct (finalize_implicitly s1 parent) as [[s2|s2]|e]; cbn [mbind outcome_bind].
  3:{ destruct Hfi as [-> Hc]. split; [done|]. right. exists parent. split; [constructor|].
      rewrite (de_frame _ _ _ _ Hskip) in Hc; [done| |set_solver]. unfold gap. rewrite elem_of_range. cbn. lia. }
  2:{ destruct Hfi as [Hd2 Hdec].
      apply (walk_result_early _ _ _ parent s s2 (gap (source, parent))); [|done|].
      - apply (decides_app [] (gap (source, parent)) [] [] s s1 s2) in Hd2; [|done|set_solver].
        by rewrite !app_nil_r in Hd2.
      - exists (bid_slot parent). split; [lia|]. rewrite (de_frame _ _ _ _ Hskip) in Hdec; [done| |set_solver].
        unfold gap. rewrite elem_of_range. cbn. lia. }
  assert (decides [parent] (gap (source, parent)) s s2) as Hd2.
  { apply (decides_app [] (gap (source, parent)) [parent] [] s s1 s2) in Hfi; [|done|].
    - by rewrite !app_nil_r in Hfi.
    - intros k Hk Hk'. cbn in Hk'. apply list_elem_of_singleton in Hk' as ->.
      rewrite app_nil_r in Hk. apply elem_of_range in Hk. cbn in Hk. lia. }
  clear Hskip Hfi. rewrite (de_parents _ _ _ _ Hd2).
  destruct (ft_parents s.1 !! parent) as [grand|] eqn:Eg.
  - pose proof (Hps _ _ Eg) as Hg. pose proof (de_event _ _ _ _ Hd2) as Hev2.
    pose proof (de_size _ _ _ _ Hd2) as Hs2. rewrite Hgl in Hs2. cbn [length] in Hs2.
    destruct (edges_slots fuel (ft_parents s.1) (ft_first_unpruned_slot s.1) (bid_slot parent) grand Hps Hg) as [HF HK].
    apply (walk_result_cons _ _ _ parent s s2); [done|done|intros b Hb; by apply HF|intros k Hk; by apply HK|lia|].
    rewrite <- (de_parents _ _ _ _ Hd2), <- (de_first _ _ _ _ Hd2).
    apply IH; rewrite ?(de_parents _ _ _ _ Hd2), ?(de_first _ _ _ _ Hd2), ?(proj1 (de_max _ _ _ _ Hd2)), ?Hev2;
      cbn; rewrite ?length_app, ?Hgl; cbn; try done; lia.
  - apply (walk_result_cons [] _ _ parent s s2); try done; [by intros ? ?%elem_of_nil|by intros ? ?%elem_of_nil|lia|].
    exists [], []. split_and!; [apply decides_nil|done|done|done].
Qed.

(** * The invariant *)

Record ft_inv (self : ag_finality_tracker_t) : Prop := {
  fi_slots : 0 <= ft_first_unpruned_slot self <= ft_highest_finalized_slot self;
  fi_highest : ft_highest_finalized_slot self < ULONG_MAX;
  fi_keys : forall s, s ∈ dom (ft_status self) -> ft_first_unpruned_slot self <= s < ULONG_MAX;
  fi_decided : forall s, is_decided (ft_status self !! s) = true -> s <= ft_highest_finalized_slot self;
  fi_parents : parents_ok (ft_parents self);
  fi_parent_keys : forall b, b ∈ dom (ft_parents self) -> ft_first_unpruned_slot self <= bid_slot b
}.

Lemma ft_inv_init sm pm slot : 0 <= slot < ULONG_MAX -> ft_inv (ag_finality_tracker_init (mk_ft ∅ ∅ ULONG_MAX ULONG_MAX sm pm) slot).
Proof. intros. split; cbn; try lia; try (intros ? Hs; set_solver); done. Qed.

(** ** Pruning *)

Lemma advance_unpruned_spec fuel status first next :
  (forall s, s ∈ dom status -> s < ULONG_MAX) -> 0 <= first -> next = first + 1 -> next <= ULONG_MAX ->
  (keys_from (dom status) next <= fuel)%nat ->
  exists f, advance_unpruned fuel status first next = Ok f /\ first <= f /\
    (forall k, first < k <= f -> is_decided (status !! k) = true) /\
    is_decided (status !! (f + 1)) = false.
Proof.
  intros Hk. revert first next. induction fuel as [|fuel IH]; intros first next Hf -> Hn Hfuel;
    cbn [advance_unpruned]; destruct (is_decided (status !! (first + 1))) eqn:Ed;
    try (exists first; split_and!; (done || lia)).
  - assert (first + 1 ∈ dom status) as Hin by (apply elem_of_dom; by destruct (status !! (first + 1))).
    rewrite keys_from_step in Hfuel by done. lia.
  - assert (first + 1 ∈ dom status) as Hin by (apply elem_of_dom; by destruct (status !! (first + 1))).
    pose proof (Hk _ Hin). rewrite u64_add_small by (unfold is_u64; lia).
    rewrite keys_from_step in Hfuel by done.
    destruct (IH (first + 1) (first + 1 + 1)) as (f & -> & ? & Hall & Hend); [lia|done|lia|lia|].
    exists f. split_and!; [done|lia| |done]. intros k Hkr. destruct (decide (k = first + 1)) as [->|]; [done|].
    apply Hall. lia.
Qed.

(** Pruning advances over decided slots only and forgets nothing above. *)
Lemma prune_spec self :
  ft_inv self ->
  exists self', prune self = Ok self' /\ ft_inv self' /\
    ft_highest_finalized_slot self' = ft_highest_finalized_slot self /\
    ft_first_unpruned_slot self <= ft_first_unpruned_slot self' /\
    (forall k, ft_first_unpruned_slot self < k <= ft_first_unpruned_slot self' ->
       is_decided (ft_status self !! k) = true) /\
    (forall k, ft_first_unpruned_slot self' <= k -> ft_status self' !! k = ft_status self !! k) /\
    (forall b, ft_first_unpruned_slot self' <= bid_slot b -> ft_parents self' !! b = ft_parents self !! b).
Proof.
  intros [[Hf0 Hfh] Hh Hkeys Hdec Hps Hpk]. unfold prune.
  rewrite u64_add_small by (unfold is_u64; lia).
  destruct (advance_unpruned_spec (size (ft_status self)) (ft_status self) (ft_first_unpruned_slot self)
    (ft_first_unpruned_slot self + 1)) as (f & -> & Hle & Hall & Hend);
    [intros s Hs; by apply Hkeys|done|done|lia|apply keys_from_le|].
  cbn [mbind outcome_bind].
  assert (f <= ft_highest_finalized_slot self) as Hfle.
  { destruct (decide (f = ft_first_unpruned_slot self)) as [->|]; [done|]. apply Hdec, Hall. lia. }
  assert (forall k, remove_slots (ft_status self) (ft_first_unpruned_slot self) f !! k
    = if decide (ft_first_unpruned_slot self <= k < f) then None else ft_status self !! k) as Hrm
    by apply remove_slots_lookup.
  eexists. split; [done|]. split_and!; cbn; try done.
  - split; cbn; try done; try lia.
    + intros s [st Hst]%elem_of_dom. rewrite Hrm in Hst. case_decide; [done|]. apply elem_of_dom_2, Hkeys in Hst. lia.
    + intros s. rewrite Hrm. case_decide; [done|]. apply Hdec.
    + intros b p Hb. apply map_lookup_filter_Some in Hb as [Hb _]. by apply Hps.
    + intros b [p Hb]%elem_of_dom. by apply map_lookup_filter_Some in Hb as [_ ?].
  - intros k Hk. rewrite Hrm. by rewrite decide_False by lia.
  - intros b Hb. rewrite map_lookup_filter. destruct (ft_parents self !! b); cbn; [|done].
    by rewrite option_guard_True.
Qed.

(** * Finalizing a block *)

(** The edges below a block whose parent may be known. *)
Definition chain (self : ag_finality_tracker_t) (block : ag_block_id_t) : list (Z * ag_block_id_t) :=
  match ft_parents self !! block with
  | Some parent => edges (Z.to_nat (bid_slot block - ft_first_unpruned_slot self)) (ft_parents self)
                     (ft_first_unpruned_slot self) (bid_slot block) parent
  | None => []
  end.

(** No slot below [slot] is decided yet. *)
Definition undecided_below (self : ag_finality_tracker_t) (slot : Z) : Prop :=
  forall k, ft_first_unpruned_slot self <= k < slot -> is_decided (ft_status self !! k) = false.

(** Room for every slot from the first unpruned one up to [slot], in the status
    pool and in the caller's event. *)
Definition has_room (self : ag_finality_tracker_t) (ev : ag_finalization_event_t) (slot : Z) : Prop :=
  let n := slot - ft_first_unpruned_slot self in
  Z.of_nat (size (ft_status self)) + n <= ft_status_max self /\
  Z.of_nat (length (fe_implicitly_skipped ev)) + n <= fe_max ev /\
  Z.of_nat (length (fe_implicitly_finalized ev)) + n <= fe_max ev.

(** The blocks of [E] are reported finalized and its gaps skipped, up to a point
    where the walk met a slot that was decided before; they keep that status as
    long as they are not pruned. *)
Definition walks (E : list (Z * ag_block_id_t)) (undecided : Prop) (ev : ag_finalization_event_t) (s' : fstate) : Prop :=
  exists F K,
    fe_implicitly_finalized s'.2 = fe_implicitly_finalized ev ++ F /\
    fe_implicitly_skipped s'.2 = fe_implicitly_skipped ev ++ K /\
    F `prefix_of` E.*2 /\ K `prefix_of` flat_map gap E /\ (undecided -> F = E.*2 /\ K = flat_map gap E) /\
    (forall b, b ∈ F -> ft_first_unpruned_slot s'.1 <= bid_slot b ->
       ft_status s'.1 !! bid_slot b = Some (FsImplicitlyFinalized (bid_hash b))) /\
    (forall k, k ∈ K -> ft_first_unpruned_slot s'.1 <= k -> ft_status s'.1 !! k = Some FsImplicitlySkipped).

Lemma decides_inv F K s s' source :
  ft_inv s.1 -> decides F K s s' -> source <= ft_highest_finalized_slot s.1 ->
  (forall k, k ∈ K ++ (bid_slot <$> F) -> ft_first_unpruned_slot s.1 <= k < source) -> ft_inv s'.1.
Proof.
  intros [Hfs Hh Hk Hd Hp Hpk] [D1 D2 D3 D4 D5 D6 D7 D8 D9] Hsrc Hin.
  split; rewrite ?D4, ?D5, ?D6; try done.
  - intros k [st Hst]%elem_of_dom. destruct (decide (k ∈ K ++ (bid_slot <$> F))) as [Hin'|Hn].
    + apply Hin in Hin'. lia.
    + rewrite D3 in Hst by set_solver. by apply elem_of_dom_2, Hk in Hst.
  - intros k Hdec. destruct (decide (k ∈ K ++ (bid_slot <$> F))) as [Hin'|Hn].
    + apply Hin in Hin'. lia.
    + rewrite D3 in Hdec by set_solver. by apply Hd.
Qed.

(** The walk and the pruning that follows it. *)
Lemma walk_and_prune self ev source parent :
  ft_inv self -> bid_slot parent < source <= ft_highest_finalized_slot self ->
  has_room self ev source ->
  match (s ← handle_implicitly_finalized self source parent ev; self' ← prune s.1; Ok (self', s.2)) with
  | Ok s' => ft_inv s'.1 /\ ft_highest_finalized_slot s'.1 = ft_highest_finalized_slot self /\
      ft_first_unpruned_slot self <= ft_first_unpruned_slot s'.1 /\
      fe_finalized s'.2 = fe_finalized ev /\
      (forall k, source <= k -> ft_first_unpruned_slot s'.1 <= k -> ft_status s'.1 !! k = ft_status self !! k) /\
      walks (edges (Z.to_nat (source - ft_first_unpruned_slot self)) (ft_parents self)
               (ft_first_unpruned_slot self) source parent) (undecided_below self source) ev s'
  | Fail e => e = LogCrit /\ conflict (ft_status self)
      (edges (Z.to_nat (source - ft_first_unpruned_slot self)) (ft_parents self)
         (ft_first_unpruned_slot self) source parent)
  end.
Proof.
  intros HI Hs (R1 & R2 & R3). pose proof HI as [[Hf0 Hfh] Hh Hk Hd Hp Hpk].
  unfold handle_implicitly_finalized. set (fuel := Z.to_nat (source - ft_first_unpruned_slot self)).
  pose proof (loop_spec fuel (self, ev) source parent Hp Hf0 ltac:(lia)) as Hloop. cbn [fst snd] in Hloop.
  specialize (Hloop ltac:(unfold fuel; lia) ltac:(lia) ltac:(lia) ltac:(lia)).
  destruct (implicitly_finalized_loop fuel (self, ev) source parent) as [s1|e]; cbn [mbind outcome_bind]; [|done].
  destruct Hloop as (F & K & Hdec & HF & HK & Heq).
  destruct (edges_slots fuel (ft_parents self) (ft_first_unpruned_slot self) source parent Hp ltac:(lia)) as [EF EK].
  assert (forall k, k ∈ K ++ (bid_slot <$> F) -> ft_first_unpruned_slot self <= k < source) as Hin.
  { intros k [Hk'|(b & -> & Hb)%list_elem_of_fmap]%elem_of_app.
    - pose proof (EK k (prefix_elem _ _ _ HK Hk')). lia.
    - apply EF. by apply (prefix_elem F). }
  pose proof (decides_inv F K (self, ev) s1 source HI Hdec ltac:(cbn; lia) Hin) as HI1.
  destruct (prune_spec s1.1 HI1) as (self' & -> & HI' & Hh' & Hf' & _ & Hst & _). cbn [mbind outcome_bind fst snd].
  destruct Hdec as [D1 D2 D3 D4 D5 D6 D7 D8 D9]. cbn [fst snd] in *.
  split_and!; [done|congruence|lia|by rewrite D8| |].
  - intros k Hks Hkf. rewrite Hst by done. apply D3; intros Hc; specialize (Hin k); set_solver by lia.
  - exists F, K. cbn [fst snd]. rewrite D8. cbn. split_and!; try done.
    + intros b Hb Hbf. rewrite Hst by done. by apply D1.
    + intros k Hkk Hkf. rewrite Hst by done. by apply D2.
Qed.

(** The outcome of finalizing [block]: an event that names it and its newly
    decided ancestors and gaps; or the end of the process, only when its chain
    contradicts an earlier decision. *)
Definition finalizes (self : ag_finality_tracker_t) (block : ag_block_id_t) (ev : ag_finalization_event_t)
    (r : outcome fstate) : Prop :=
  match r with
  | Ok s' =>
      ft_inv s'.1 /\
      ft_highest_finalized_slot s'.1 = Z.max (bid_slot block) (ft_highest_finalized_slot self) /\
      ft_first_unpruned_slot self <= ft_first_unpruned_slot s'.1 /\
      fe_finalized s'.2 = Some block /\
      (ft_first_unpruned_slot s'.1 <= bid_slot block ->
         ft_status s'.1 !! bid_slot block = Some (FsFinalized (bid_hash block))) /\
      walks (chain self block) (undecided_below self (bid_slot block)) ev s'
  | Fail e => e = LogCrit /\ conflict (ft_status self) (chain self block)
  end.

Definition set_finalized (self : ag_finality_tracker_t) (block : ag_block_id_t) : ag_finality_tracker_t :=
  ft_set_status self (<[bid_slot block := FsFinalized (bid_hash block)]> (ft_status self)).

Lemma set_finalized_inv self block :
  ft_inv self -> ft_first_unpruned_slot self <= bid_slot block < ULONG_MAX ->
  ft_inv (ft_set_slots (set_finalized self block) (Z.max (bid_slot block) (ft_highest_finalized_slot self))
            (ft_first_unpruned_slot self)).
Proof.
  intros [Hfs Hh Hk Hd Hp Hpk] Hs. split; cbn; try done; try lia.
  - intros s. rewrite dom_insert_L, elem_of_union, elem_of_singleton. intros [->|Hin]; [lia|by apply Hk].
  - intros s. rewrite lookup_insert. case_decide; [lia|]. intros Hdec%Hd. lia.
Qed.

Lemma conflict_below st st' fuel ps first parent source :
  parents_ok ps -> bid_slot parent < source -> (forall k, k < source -> st !! k = st' !! k) ->
  conflict st (edges fuel ps first source parent) -> conflict st' (edges fuel ps first source parent).
Proof.
  intros Hps Hlt Hst. destruct (edges_slots fuel ps first source parent Hps Hlt) as [HF HK].
  intros [(k & Hk & Hc)|(b & Hb & Hc)].
  - left. exists k. split; [done|]. rewrite <- Hst; [done|]. apply HK in Hk. lia.
  - right. exists b. split; [done|]. rewrite <- Hst; [done|]. apply HF in Hb. lia.
Qed.

Lemma handle_finalized_block_spec self block ev :
  ft_inv self -> ft_first_unpruned_slot self <= bid_slot block < ULONG_MAX -> has_room self ev (bid_slot block + 1) ->
  finalizes self block ev (handle_finalized_block (set_finalized self block) block ev).
Proof.
  intros HI Hs (R1 & R2 & R3). pose proof (set_finalized_inv self block HI Hs) as HI1.
  unfold handle_finalized_block. cbn [ft_highest_finalized_slot ft_first_unpruned_slot set_finalized ft_set_status].
  set (self1 := ft_set_slots _ _ _) in *. set (ev1 := mk_fevent _ _ _ _).
  assert (ft_parents self1 = ft_parents self) as Hps by done.
  assert (undecided_below self (bid_slot block) <-> undecided_below self1 (bid_slot block)) as Hun.
  { unfold undecided_below. split; intros Hu k Hk; specialize (Hu k Hk);
      change (ft_status self1) with (<[bid_slot block := FsFinalized (bid_hash block)]> (ft_status self)) in *;
      rewrite lookup_insert_ne in * by lia; done. }
  pose proof (insert_size (ft_status self) (bid_slot block) (FsFinalized (bid_hash block))) as Hins.
  unfold finalizes, chain. rewrite <- Hps. destruct (ft_parents self1 !! block) as [parent|] eqn:Ep.
  - pose proof (fi_parents _ HI1 _ _ Ep) as Hlt.
    pose proof (walk_and_prune self1 ev1 (bid_slot block) parent HI1) as Hwp. cbn [self1] in Hwp.
    destruct (s ← handle_implicitly_finalized self1 (bid_slot block) parent ev1; self' ← prune s.1; Ok (self', s.2))
      as [s'|e].
    2:{ destruct Hwp as [-> Hc]; [cbn; lia|unfold has_room; cbn; lia|]. split; [done|].
        change (ft_status self1) with (<[bid_slot block := FsFinalized (bid_hash block)]> (ft_status self)) in Hc.
        refine (conflict_below _ _ _ _ _ _ _ (fi_parents _ HI1) Hlt _ Hc).
        intros k Hk. by rewrite lookup_insert_ne by lia. }
    destruct Hwp as (H1 & H2 & H3 & H4 & H5 & H6); [cbn; lia|split_and!; cbn; lia|].
    split_and!; [done|done|done|done| |].
    + intros Hf. rewrite H5 by (done || lia). cbn. by rewrite lookup_insert_eq.
    + destruct H6 as (F & K & ? & ? & ? & ? & Heq & ? & ?). exists F, K. split_and!; try done.
      intros Hu. apply Heq. by apply Hun.
  - cbn [mbind outcome_bind fst snd]. destruct (prune_spec self1 HI1) as (self' & -> & HI' & Hh & Hf & _ & Hst & _).
    cbn [mbind outcome_bind]. split_and!; [done|done|done|done| |].
    + intros Hb. cbn. rewrite Hst by done. cbn. by rewrite lookup_insert_eq.
    + exists [], []. cbn. rewrite !app_nil_r. split_and!; try done; by intros ? ?%elem_of_nil.
Qed.

Lemma status_known self slot st old :
  ft_status self !! slot = Some old ->
  status_insert self slot st = Ok (ft_set_status self (<[slot := st]> (ft_status self)), Some old).
Proof. intros E. unfold status_insert. by rewrite E. Qed.

Lemma status_room self ev slot st :
  ft_inv self -> ft_first_unpruned_slot self <= slot -> has_room self ev (slot + 1) ->
  status_insert self slot st = Ok (ft_set_status self (<[slot := st]> (ft_status self)), ft_status self !! slot).
Proof. intros HI Hs (R1 & _). apply status_insert_cases. lia. Qed.

(** * The entry points *)


Lemma set_status_twice self slot a b :
  ft_set_status (ft_set_status self (<[slot := a]> (ft_status self)))
    (<[slot := b]> (ft_status (ft_set_status self (<[slot := a]> (ft_status self)))))
  = ft_set_status self (<[slot := b]> (ft_status self)).
Proof. unfold ft_set_status. cbn. by rewrite insert_insert_eq. Qed.

(** notarization and finalization certificates finalize together, in
    either order.  The one that arrives first is recorded; the second one
    finalizes the notarized block exactly as a fast finalization would. *)
Theorem notarized_and_finalized_commute self block ev :
  ft_inv self -> ft_first_unpruned_slot self <= bid_slot block < ULONG_MAX -> has_room self ev (bid_slot block + 1) ->
  ft_status self !! bid_slot block = None ->
  let r1 := (s ← ag_finality_tracker_mark_notarized self block ev;
             ag_finality_tracker_mark_finalized s.1 (bid_slot block) s.2) in
  let r2 := (s ← ag_finality_tracker_mark_finalized self (bid_slot block) ev;
             ag_finality_tracker_mark_notarized s.1 block s.2) in
  r1 = r2 /\ r1 = ag_finality_tracker_mark_fast_finalized self block ev /\ finalizes self block ev r1.
Proof.
  intros HI Hs Hr Hn. cbv zeta.
  assert (forall a b, status_insert (ft_set_status self (<[bid_slot block := a]> (ft_status self))) (bid_slot block) b
    = Ok (ft_set_status self (<[bid_slot block := b]> (ft_status self)), Some a)) as Htw
    by (intros a b; rewrite <- (set_status_twice self _ a b); apply status_known; cbn; by rewrite lookup_insert_eq).
  unfold ag_finality_tracker_mark_notarized, ag_finality_tracker_mark_finalized, ag_finality_tracker_mark_fast_finalized.
  replace (bid_slot block <? ft_first_unpruned_slot self) with false by lia.
  rewrite !(status_room self ev) by (done || lia). cbn [mbind outcome_bind fst snd]. rewrite Hn.
  cbn [mbind outcome_bind fst snd ft_first_unpruned_slot ft_set_status].
  replace (bid_slot block <? ft_first_unpruned_slot self) with false by lia.
  rewrite !Htw. cbn [mbind outcome_bind fst snd]. rewrite !Htw. cbn [mbind outcome_bind fst snd].
  replace (ag_block_id (bid_slot block) (bid_hash block)) with block by by destruct block.
  split_and!; [done|done|]. by apply handle_finalized_block_spec.
Qed.

(** a parent that becomes known after its block was finalized continues
    the finalization along the chain; for any other status of the block's slot
    it is only recorded. *)
Theorem add_parent_spec self block parent ev :
  ft_inv self -> bid_slot parent < bid_slot block -> ft_first_unpruned_slot self <= bid_slot block ->
  ft_parents self !! block = None -> Z.of_nat (size (ft_parents self)) < ft_parent_max self ->
  has_room self ev (bid_slot block) ->
  let self1 := ft_set_parents self (<[block := parent]> (ft_parents self)) in
  let r := ag_finality_tracker_add_parent self block parent ev in
  match ft_status self !! bid_slot block with
  | Some (FsFinalized h) | Some (FsImplicitlyFinalized h) =>
      if hash_eqb (bid_hash block) h then
        match r with
        | Ok s' => ft_inv s'.1 /\ ft_highest_finalized_slot s'.1 = ft_highest_finalized_slot self /\
            ft_first_unpruned_slot self <= ft_first_unpruned_slot s'.1 /\
            walks (chain self1 block) (undecided_below self (bid_slot block)) ev s'
        | Fail e => e = LogCrit /\ conflict (ft_status self) (chain self1 block)
        end
      else r = Ok (self1, ev) /\ ft_inv self1
  | _ => r = Ok (self1, ev) /\ ft_inv self1
  end.
Proof.
  intros HI Hlt Hf Hn Hsz Hr. cbv zeta. unfold ag_finality_tracker_add_parent.
  rewrite check_true_ok by lia. cbn [mbind outcome_bind].
  replace (bid_slot block <? ft_first_unpruned_slot self) with false by lia. rewrite Hn.
  rewrite check_true_ok by lia. cbn [mbind outcome_bind].
  set (self1 := ft_set_parents self (<[block := parent]> (ft_parents self))).
  assert (ft_inv self1) as HI1.
  { destruct HI as [Hfs Hh Hk Hd Hp Hpk]. split; try done.
    - intros b p Hb. cbn in Hb. rewrite lookup_insert in Hb. case_decide; [simplify_eq; done|by apply Hp].
    - intros b. cbn. rewrite dom_insert_L, elem_of_union, elem_of_singleton. intros [->|Hb]; [done|by apply Hpk]. }
  assert (forall s, is_decided (ft_status self !! s) = true -> s <= ft_highest_finalized_slot self) as Hd by apply HI.
  change (ft_status self1) with (ft_status self).
  assert (chain self1 block = edges (Z.to_nat (bid_slot block - ft_first_unpruned_slot self)) (ft_parents self1)
            (ft_first_unpruned_slot self) (bid_slot block) parent) as Hch
    by (unfold chain; cbn; by rewrite lookup_insert_eq).
  pose proof (walk_and_prune self1 ev (bid_slot block) parent HI1) as Hwp.
  destruct (ft_status self !! bid_slot block) as [[h| |h|h|]|] eqn:Est; try done;
    (destruct (hash_eqb (bid_hash block) h); [|done]);
    (specialize (Hwp (conj Hlt (Hd (bid_slot block) ltac:(by rewrite Est))) Hr));
    (destruct (s ← handle_implicitly_finalized self1 (bid_slot block) parent ev; self' ← prune s.1; Ok (self', s.2))
       as [s'|e]; [|by rewrite Hch]); destruct Hwp as (H1 & H2 & H3 & _ & _ & H6); rewrite Hch; by split_and!.
Qed.

(** * Statuses that later certificates overwrite *)

(** a notarization or finalization certificate that arrives after its
    block was fast-finalized replaces the final status by a weaker one and does
    not restore it, although the walk over ancestors does restore it. *)
Theorem final_status_overwritten self block ev :
  ft_first_unpruned_slot self <= bid_slot block ->
  ft_status self !! bid_slot block = Some (FsFinalized (bid_hash block)) ->
  ag_finality_tracker_mark_notarized self block ev =
    Ok (ft_set_status self (<[bid_slot block := FsNotarized (bid_hash block)]> (ft_status self)), ev) /\
  ag_finality_tracker_mark_finalized self (bid_slot block) ev =
    Ok (ft_set_status self (<[bid_slot block := FsFinalPendingNotar]> (ft_status self)), ev).
Proof.
  intros Hs Hst. unfold ag_finality_tracker_mark_notarized, ag_finality_tracker_mark_finalized.
  replace (bid_slot block <? ft_first_unpruned_slot self) with false by lia.
  rewrite !(status_known _ _ _ _ Hst). cbn [mbind outcome_bind fst snd]. by rewrite hash_eqb_refl.
Qed.

Definition hash_a : ag_block_hash_t := replicate 32 1.
Definition hash_b : ag_block_hash_t := replicate 32 2.

(** A tracker of 64 slots started at slot 4, and an event with room for them. *)
Definition sample_ft : ag_finality_tracker_t := ag_finality_tracker_init (mk_ft ∅ ∅ ULONG_MAX ULONG_MAX 64 448) 4.
Definition sample_event : ag_finalization_event_t := ag_finalization_event_default 64.

(** Three certificates in turn: fast finalization, finalization, notarization. *)
Definition conflicting_certs : outcome fstate :=
  s ← ag_finality_tracker_mark_fast_finalized sample_ft (ag_block_id 6 hash_a) sample_event;
  s ← ag_finality_tracker_mark_finalized s.1 6 sample_event;
  ag_finality_tracker_mark_notarized s.1 (ag_block_id 6 hash_b) sample_event.

(** because of the overwritten status, two different blocks of one slot are
    finalized one after the other without the consensus safety check. *)
Theorem two_blocks_finalized :
  (fun s => (fe_finalized s.2, ft_status s.1 !! 6)) <$>
    match conflicting_certs with Ok s => Some s | Fail _ => None end
  = Some (Some (ag_block_id 6 hash_b), Some (FsFinalized hash_b)).
Proof. vm_compute. reflexivity. Qed.

(** * Concrete runs *)

Lemma sample_ft_inv : ft_inv sample_ft.
Proof. apply ft_inv_init. unfold ULONG_MAX. lia. Qed.


Lemma notarized_and_finalized_commute_witness :
  let block := ag_block_id 6 hash_a in
  let r1 := (s ← ag_finality_tracker_mark_notarized sample_ft block sample_event;
             ag_finality_tracker_mark_finalized s.1 6 s.2) in
  let r2 := (s ← ag_finality_tracker_mark_finalized sample_ft 6 sample_event;
             ag_finality_tracker_mark_notarized s.1 block s.2) in
  r1 = r2 /\ r1 = ag_finality_tracker_mark_fast_finalized sample_ft block sample_event /\
  finalizes sample_ft block sample_event r1.
Proof.
  apply (notarized_and_finalized_commute sample_ft (ag_block_id 6 hash_a) sample_event).
  - apply sample_ft_inv.
  - vm_compute. split; [discriminate|reflexivity].
  - vm_compute. split_and!; discriminate.
  - reflexivity.
Defined.

(** Block 8 was fast-finalized before its parent was known. *)
Definition sample_ft2 : ag_finality_tracker_t :=
  mk_ft (<[8 := FsFinalized hash_a]> ∅) ∅ 8 4 64 448.

Lemma sample_ft2_inv : ft_inv sample_ft2.
Proof.
  pose proof (handle_finalized_block_spec sample_ft (ag_block_id 8 hash_a) sample_event sample_ft_inv) as H.
  vm_compute in H. destruct H as (H & _); [split; [discriminate|reflexivity]|split_and!; discriminate|].
  exact H.
Qed.

Lemma add_parent_spec_witness :
  match ag_finality_tracker_add_parent sample_ft2 (ag_block_id 8 hash_a) (ag_block_id 5 hash_b) sample_event with
  | Ok s' => ft_inv s'.1 /\ ft_highest_finalized_slot s'.1 = 8 /\ 4 <= ft_first_unpruned_slot s'.1 /\
      walks (chain (ft_set_parents sample_ft2 (<[ag_block_id 8 hash_a := ag_block_id 5 hash_b]> ∅))
               (ag_block_id 8 hash_a)) (undecided_below sample_ft2 8) sample_event s'
  | Fail e => e = LogCrit /\ conflict (ft_status sample_ft2)
      (chain (ft_set_parents sample_ft2 (<[ag_block_id 8 hash_a := ag_block_id 5 hash_b]> ∅)) (ag_block_id 8 hash_a))
  end.
Proof.
  apply (add_parent_spec sample_ft2 (ag_block_id 8 hash_a) (ag_block_id 5 hash_b) sample_event).
  - apply sample_ft2_inv.
  - reflexivity.
  - vm_compute. discriminate.
  - reflexivity.
  - reflexivity.
  - vm_compute. split_and!; discriminate.
Defined.

Lemma final_status_overwritten_witness :
  ag_finality_tracker_mark_notarized sample_ft2 (ag_block_id 8 hash_a) sample_event =
    Ok (ft_set_status sample_ft2 (<[8 := FsNotarized hash_a]> (ft_status sample_ft2)), sample_event) /\
  ag_finality_tracker_mark_finalized sample_ft2 8 sample_event =
    Ok (ft_set_status sample_ft2 (<[8 := FsFinalPendingNotar]> (ft_status sample_ft2)), sample_event).
Proof.
  apply (final_status_overwritten sample_ft2 (ag_block_id 8 hash_a) sample_event).
  - vm_compute. discriminate.
  - reflexivity.
Defined.
