(* ===== verification/ParentReady.v ===== *)
(** The parent-ready tracker (src/src/choreo/votor/ag_parent_ready_tracker.h,
    ag_parent_ready_tracker.c): for the first slot of each leader window, the
    notarized blocks it may build on.

    [newly_certified], the caller's array, is a list with the capacity [cap] of
    the array; [ready_ids] and [notar_fallbacks] keep their fixed capacities. *)
From S2P Require Import Prelude VotorBase FinalityTracker.

Record ag_parent_ready_t := mk_parent_ready { pr_slot : Z; pr_parent : ag_block_id_t }.

Record ag_parent_ready_state_t := mk_pr_state {
  prs_skip : bool;
  prs_notar_fallbacks : list ag_block_hash_t;
  prs_is_ready : bool;
  prs_ready_ids : list ag_block_id_t
}.

Record ag_parent_ready_tracker_t := mk_prt {
  prt_states : gmap Z ag_parent_ready_state_t;
  prt_root : Z;
  prt_max : Z
}.

Definition READY_IDS_MAX : Z := AG_SLOTS_PER_WINDOW * AG_NOTAR_FALLBACK_CERT_MAX.

Definition ag_parent_ready_tracker_align : Z := 128.

(** NULL when the memory is NULL or misaligned. *)
Definition ag_parent_ready_tracker_new (shmem slot_max : Z) : option ag_parent_ready_tracker_t :=
  if shmem =? 0 then None
  else if negb (shmem mod ag_parent_ready_tracker_align =? 0) then None
  else Some (mk_prt ∅ ULONG_MAX (fd_ulong_pow2_up slot_max)).

Definition put_state (self : ag_parent_ready_tracker_t) (slot : Z) (st : ag_parent_ready_state_t) :=
  mk_prt (<[slot := st]> (prt_states self)) (prt_root self) (prt_max self).

Definition add_to_ready (st : ag_parent_ready_state_t) (id : ag_block_id_t) : outcome ag_parent_ready_state_t :=
  if negb (prs_is_ready st) then
    Ok (mk_pr_state (prs_skip st) (prs_notar_fallbacks st) true [id])
  else
    check OutOfBounds (Z.of_nat (length (prs_ready_ids st)) <? READY_IDS_MAX);;
    Ok (mk_pr_state (prs_skip st) (prs_notar_fallbacks st) true (prs_ready_ids st ++ [id])).

(** [id] before [arg_min] in the order the loop uses. *)
Definition block_id_before (id arg_min : ag_block_id_t) : bool :=
  (bid_slot id <? bid_slot arg_min) ||
  ((bid_slot id =? bid_slot arg_min) &&
   match memcmp (bid_hash id) (bid_hash arg_min) with Lt => true | _ => false end).

Definition wait_for_parent_ready (st : ag_parent_ready_state_t) : option ag_block_id_t :=
  if prs_is_ready st then
    match prs_ready_ids st with
    | [] => None
    | id0 :: ids => Some (foldl (fun arg_min id => if block_id_before id arg_min then id else arg_min) id0 ids)
    end
  else None.

(** The state of a slot, created on first use. *)
Definition slot_state (self : ag_parent_ready_tracker_t) (slot : Z)
    : outcome (ag_parent_ready_tracker_t * ag_parent_ready_state_t) :=
  match prt_states self !! slot with
  | Some st => Ok (self, st)
  | None =>
      check LogErr (Z.of_nat (size (prt_states self)) <? prt_max self);;
      let st := mk_pr_state false [] false [] in
      Ok (put_state self slot st, st)
  end.

(** Appends to the caller's array. *)
Definition push_ready (cap : Z) (out : list ag_parent_ready_t) (r : ag_parent_ready_t)
    : outcome (list ag_parent_ready_t) :=
  check OutOfBounds (Z.of_nat (length out) <? cap);; Ok (out ++ [r]).

(** The loop [for( slot_=slot+1; ; slot_++ )] of [mark_notar_fallback].  It
    leaves at the first slot that is not skipped, and a skipped slot has a
    state: one iteration more than there are states is enough. *)
Fixpoint ready_walk (fuel : nat) (cap : Z) (self : ag_parent_ready_tracker_t) (s : Z)
    (id : ag_block_id_t) (out : list ag_parent_ready_t)
    : outcome (ag_parent_ready_tracker_t * list ag_parent_ready_t) :=
  match fuel with
  | O => Fail Diverge
  | S k =>
      r ← slot_state self s;
      so ← (if ag_is_start_of_window s then
              st ← add_to_ready r.2 id;
              out' ← push_ready cap out (mk_parent_ready s id);
              Ok (put_state r.1 s st, out')
            else Ok (r.1, out));
      if negb (prs_skip r.2) then Ok so else ready_walk k cap so.1 (s +w 1) id so.2
  end.

Definition ag_parent_ready_tracker_mark_notar_fallback (cap : Z) (self : ag_parent_ready_tracker_t)
    (id : ag_block_id_t) : outcome (ag_parent_ready_tracker_t * list ag_parent_ready_t) :=
  let slot := bid_slot id in
  let hash := bid_hash id in
  if slot <? prt_root self then Ok (self, []) else
  r ← slot_state self slot;
  if existsb (fun h => hash_eqb h hash) (prs_notar_fallbacks r.2) then Ok (r.1, []) else
  check OutOfBounds (Z.of_nat (length (prs_notar_fallbacks r.2)) <? AG_NOTAR_FALLBACK_CERT_MAX);;
  let self := put_state r.1 slot
    (mk_pr_state (prs_skip r.2) (prs_notar_fallbacks r.2 ++ [hash]) (prs_is_ready r.2) (prs_ready_ids r.2)) in
  ready_walk (S (size (prt_states self))) cap self (slot +w 1) id [].

Definition push_potential (pot : list ag_block_id_t) (id : ag_block_id_t) : outcome (list ag_block_id_t) :=
  check FdTest (Z.of_nat (length pot) <? READY_IDS_MAX);; Ok (pot ++ [id]).

(** The loop that walks down from the marked slot to the start of its window,
    or to the root.  The unsigned [slot--] wraps below slot 0. *)
Fixpoint collect_potential (fuel : nat) (self : ag_parent_ready_tracker_t) (marked_slot low slot : Z)
    (pot : list ag_block_id_t) : outcome (ag_parent_ready_tracker_t * list ag_block_id_t) :=
  if slot <? low then Ok (self, pot) else
  match fuel with
  | O => Fail Diverge
  | S k =>
      r ← slot_state self slot;
      pot ← (if negb (slot =? marked_slot)
             then ofold (fun pot h => push_potential pot (ag_block_id slot h)) pot (prs_notar_fallbacks r.2)
             else Ok pot);
      if negb (prs_skip r.2) then Ok (r.1, pot) else
      pot ← ofold push_potential pot (prs_ready_ids r.2);
      collect_potential k r.1 marked_slot low (slot -w 1) pot
  end.

(** Adds every potential parent to one window start. *)
Definition certify_all (cap : Z) (self : ag_parent_ready_tracker_t) (s : Z) (pot : list ag_block_id_t)
    (st : ag_parent_ready_state_t) (out : list ag_parent_ready_t)
    : outcome (ag_parent_ready_state_t * list ag_parent_ready_t) :=
  ofold (fun so id =>
           st ← add_to_ready so.1 id;
           check FdTest (Z.of_nat (length so.2) <? prt_max self);;
           out ← push_ready cap so.2 (mk_parent_ready s id);
           Ok (st, out)) (st, out) pot.

Fixpoint skip_walk (fuel : nat) (cap : Z) (self : ag_parent_ready_tracker_t) (s : Z)
    (pot : list ag_block_id_t) (out : list ag_parent_ready_t)
    : outcome (ag_parent_ready_tracker_t * list ag_parent_ready_t) :=
  match fuel with
  | O => Fail Diverge
  | S k =>
      r ← slot_state self s;
      so ← (if ag_is_start_of_window s then
              q ← certify_all cap r.1 s pot r.2 out;
              Ok (put_state r.1 s q.1, q.2)
            else Ok (r.1, out));
      if negb (prs_skip r.2) then Ok so else skip_walk k cap so.1 (s +w 1) pot so.2
  end.

Definition ag_parent_ready_tracker_mark_skipped (cap : Z) (self : ag_parent_ready_tracker_t)
    (marked_slot : Z) : outcome (ag_parent_ready_tracker_t * list ag_parent_ready_t) :=
  if marked_slot <? prt_root self then Ok (self, []) else
  r ← slot_state self marked_slot;
  if prs_skip r.2 then Ok (r.1, []) else
  let self := put_state r.1 marked_slot
    (mk_pr_state true (prs_notar_fallbacks r.2) (prs_is_ready r.2) (prs_ready_ids r.2)) in
  let low := Z.max (ag_first_slot_in_window marked_slot) (prt_root self) in
  p ← collect_potential (Z.to_nat (AG_SLOTS_PER_WINDOW + 1)) self marked_slot low marked_slot [];
  skip_walk (S (size (prt_states p.1))) cap p.1 (marked_slot +w 1) p.2 [].

Definition keep_highest (best : option ag_parent_ready_t) (ready : list ag_parent_ready_t)
    : option ag_parent_ready_t :=
  foldl (fun best r =>
           match best with
           | None => Some r
           | Some b => if pr_slot b <=? pr_slot r then Some r else Some b
           end) best ready.

Abbreviation prt_best := (ag_parent_ready_tracker_t * option ag_parent_ready_t)%type.

Definition ag_parent_ready_tracker_handle_finalization (cap : Z) (self : ag_parent_ready_tracker_t)
    (ev : ag_finalization_event_t) : outcome prt_best :=
  let notar (sb : prt_best) id :=
    r ← ag_parent_ready_tracker_mark_notar_fallback cap sb.1 id; Ok (r.1, keep_highest sb.2 r.2) in
  let skip (sb : prt_best) s :=
    r ← ag_parent_ready_tracker_mark_skipped cap sb.1 s; Ok (r.1, keep_highest sb.2 r.2) in
  sb ← match fe_finalized ev with Some id => notar (self, None) id | None => Ok (self, None) end;
  sb ← ofold notar sb (fe_implicitly_finalized ev);
  ofold skip sb (fe_implicitly_skipped ev).

Definition ag_parent_ready_tracker_parents_ready (self : ag_parent_ready_tracker_t) (slot : Z)
    : list ag_block_id_t :=
  match prt_states self !! slot with Some st => prs_ready_ids st | None => [] end.

Definition ag_parent_ready_tracker_wait_for_parent_ready (self : ag_parent_ready_tracker_t) (slot : Z)
    : option ag_block_id_t :=
  match prt_states self !! slot with Some st => wait_for_parent_ready st | None => None end.

Definition ag_parent_ready_tracker_prune (self : ag_parent_ready_tracker_t) (new_root : Z)
    : ag_parent_ready_tracker_t :=
  mk_prt (remove_slots (prt_states self) (prt_root self) new_root) new_root (prt_max self).
