(* ===== verification/ParentReadyInv.v ===== *)
(** Correctness of the parent-ready tracker: an abstract account of which
    parents are ready for which window, and the refinement theorems that the
    tracker of ag_parent_ready_tracker.c maintains it. *)
From S2P Require Import Prelude VotorBase FinalityTracker ParentReady.

(** * The abstract state

    The notarized-fallback blocks and the skipped slots reported so far. *)

Record certified := mk_certified { ce_notar : gset ag_block_id_t; ce_skip : gset Z }.

(** [p] is notarized and every slot between it and [s] is skipped. *)
Definition reach (A : certified) (s : Z) (p : ag_block_id_t) : Prop :=
  p ∈ ce_notar A /\ bid_slot p < s /\ forall t, bid_slot p < t < s -> t ∈ ce_skip A.

(** [p] may be the parent of the first block of the window that starts at [s]. *)
Definition ready (A : certified) (s : Z) (p : ag_block_id_t) : Prop :=
  ag_is_start_of_window s = true /\ reach A s p.

#[export] Instance ready_dec A s p : Decision (ready A s p).
Proof.
  refine (cast_if (decide (ag_is_start_of_window s = true /\ p ∈ ce_notar A /\ bid_slot p < s /\
    Forall (fun t => t ∈ ce_skip A) (range (bid_slot p + 1) s)))); unfold ready, reach;
    rewrite Forall_forall in *; setoid_rewrite elem_of_range in a || setoid_rewrite elem_of_range in n.
  - abstract (destruct a as (? & ? & ? & Hall); split_and!; try done; intros; apply Hall; lia).
  - abstract (intros (? & ? & ? & Hall); apply n; split_and!; try done; intros; apply Hall; lia).
Defined.

(** At most as many candidate parents for a slot, and notarized blocks in it,
    as the fixed arrays hold. *)
Record fits (A : certified) : Prop := {
  fits_reach : forall s l, NoDup l -> (forall p, p ∈ l -> reach A s p) -> Z.of_nat (length l) <= READY_IDS_MAX;
  fits_notar : forall s (l : list ag_block_hash_t), NoDup l -> (forall h, h ∈ l -> ag_block_id s h ∈ ce_notar A) ->
    Z.of_nat (length l) <= AG_NOTAR_FALLBACK_CERT_MAX
}.

(** * The concrete state as a function *)

Definition fresh : ag_parent_ready_state_t := mk_pr_state false [] false [].

Definition view (self : ag_parent_ready_tracker_t) (s : Z) : ag_parent_ready_state_t :=
  default fresh (prt_states self !! s).

Definition add_all (pot : list ag_block_id_t) (st : ag_parent_ready_state_t) : ag_parent_ready_state_t :=
  match pot with
  | [] => st
  | _ => mk_pr_state (prs_skip st) (prs_notar_fallbacks st) true (prs_ready_ids st ++ pot)
  end.

(** The trackers agree except possibly in the states; sizes grow by at most [n]. *)
Record grows (n : nat) (self self' : ag_parent_ready_tracker_t) : Prop := {
  gr_root : prt_root self' = prt_root self;
  gr_max : prt_max self' = prt_max self;
  gr_size : (size (prt_states self') <= size (prt_states self) + n)%nat
}.

Lemma grows_trans n m a b c : grows n a b -> grows m b c -> grows (n + m) a c.
Proof. intros [] []. split; [congruence|congruence|lia]. Qed.

Lemma view_put self s st t : view (put_state self s st) t = if decide (s = t) then st else view self t.
Proof. unfold view, put_state. cbn. rewrite lookup_insert. by case_decide. Qed.

Lemma view_key self s : view self s <> fresh -> is_Some (prt_states self !! s).
Proof. unfold view. destruct (prt_states self !! s); [eauto|]. by intros []. Qed.

Lemma slot_state_spec self s :
  (size (prt_states self) < Z.to_nat (prt_max self))%nat \/ is_Some (prt_states self !! s) ->
  exists self', slot_state self s = Ok (self', view self s) /\ (forall t, view self' t = view self t) /\
    dom (prt_states self') = {[s]} ∪ dom (prt_states self) /\
    grows (if decide (is_Some (prt_states self !! s)) then 0 else 1) self self'.
Proof.
  intros Hroom. unfold slot_state, view at 1. destruct (prt_states self !! s) as [st|] eqn:E.
  - exists self. split; [done|]. split; [done|]. split.
    + assert (s ∈ dom (prt_states self)) by by apply elem_of_dom_2 in E. set_solver.
    + rewrite decide_True by eauto. split; [done|done|lia].
  - destruct Hroom as [Hroom|[? ?]]; [|done]. rewrite check_true_ok by lia. cbn [mbind outcome_bind].
    eexists. split; [done|]. split; [|split].
    + intros t. rewrite view_put. case_decide; [subst|done]. unfold view. by rewrite E.
    + unfold put_state. cbn. by rewrite dom_insert_L.
    + rewrite decide_False by by intros [? ?]. split; [done|done|].
      cbn. rewrite map_size_insert_None by done. lia.
Qed.

Definition ok_state (st : ag_parent_ready_state_t) : Prop := prs_is_ready st = false <-> prs_ready_ids st = [].

Lemma add_to_ready_ok st id :
  ok_state st -> Z.of_nat (length (prs_ready_ids st)) < READY_IDS_MAX ->
  add_to_ready st id = Ok (add_all [id] st) /\ ok_state (add_all [id] st).
Proof.
  intros Hok Hlen. unfold add_to_ready, ok_state in *. split.
  - destruct (prs_is_ready st) eqn:E; cbn; [by rewrite check_true_ok by lia|].
    by rewrite (proj1 Hok eq_refl).
  - cbn. split; [done|]. by destruct (prs_ready_ids st).
Qed.

Lemma add_all_app a b st : add_all b (add_all a st) = add_all (a ++ b) st.
Proof.
  destruct a as [|x a]; [done|]. destruct b as [|y b]; cbn; [by rewrite app_nil_r|].
  by rewrite <- app_assoc.
Qed.

Lemma add_all_ready pot st : prs_ready_ids (add_all pot st) = prs_ready_ids st ++ pot.
Proof. destruct pot; cbn; [by rewrite app_nil_r|done]. Qed.
Lemma add_all_skip pot st : prs_skip (add_all pot st) = prs_skip st.
Proof. by destruct pot. Qed.
Lemma add_all_notar pot st : prs_notar_fallbacks (add_all pot st) = prs_notar_fallbacks st.
Proof. by destruct pot. Qed.
Lemma add_all_ok pot st : ok_state st -> ok_state (add_all pot st).
Proof.
  destruct pot; [done|]. unfold ok_state. cbn. split; [done|]. by destruct (prs_ready_ids st).
Qed.

Lemma certify_all_spec cap self s pot st out :
  ok_state st -> Z.of_nat (length (prs_ready_ids st) + length pot) <= READY_IDS_MAX ->
  Z.of_nat (length out + length pot) <= Z.min cap (prt_max self) ->
  certify_all cap self s pot st out = Ok (add_all pot st, out ++ (mk_parent_ready s <$> pot)).
Proof.
  unfold certify_all. revert st out. induction pot as [|id pot IH]; intros st out Hok Hr Ho.
  - cbn. by rewrite app_nil_r.
  - cbn [ofold fst snd length] in *. destruct (add_to_ready_ok st id Hok ltac:(lia)) as [-> Hok'].
    cbn [mbind outcome_bind]. rewrite check_true_ok by lia. cbn [mbind outcome_bind].
    unfold push_ready. rewrite check_true_ok by lia. cbn [mbind outcome_bind].
    rewrite IH; [|done|rewrite add_all_ready, length_app; cbn [length]; lia
                |rewrite length_app; cbn [length]; lia].
    rewrite add_all_app. cbn [app fmap list_fmap]. by rewrite <- app_assoc.
Qed.

(** The number of states at or above a slot. *)
Definition keys_ge (self : ag_parent_ready_tracker_t) (s : Z) : nat :=
  keys_from (dom (prt_states self)) s.

Lemma keys_ge_step self self' s :
  s ∈ dom (prt_states self) -> dom (prt_states self') = dom (prt_states self) ->
  keys_ge self s = S (keys_ge self' (s + 1)).
Proof. intros Hs Hd. unfold keys_ge. rewrite Hd. by apply keys_from_step. Qed.

Lemma keys_ge_le self s : (keys_ge self s <= size (prt_states self))%nat.
Proof. apply keys_from_le. Qed.

(** What a walk from [s] up to the first slot [e] that is not skipped does. *)
Record walked (s e : Z) (pot : list ag_block_id_t) (self self' : ag_parent_ready_tracker_t) : Prop := {
  wk_le : s <= e;
  wk_skip : forall t, s <= t < e -> prs_skip (view self t) = true;
  wk_end : prs_skip (view self e) = false;
  wk_view : forall t, view self' t =
    if decide (s <= t <= e /\ ag_is_start_of_window t = true) then add_all pot (view self t) else view self t;
  wk_dom : dom (prt_states self') = {[e]} ∪ dom (prt_states self);
  wk_grows : grows 1 self self'
}.

Definition walk_out (s e : Z) (pot : list ag_block_id_t) : list ag_parent_ready_t :=
  flat_map (fun t => if ag_is_start_of_window t then mk_parent_ready t <$> pot else []) (range s (e + 1)).

Lemma range_cons lo hi : lo < hi -> range lo hi = lo :: range (lo + 1) hi.
Proof. intros H. unfold range. rewrite seqZ_cons by lia. do 2 f_equal; lia. Qed.

Lemma walk_out_cons s e pot :
  s <= e -> walk_out s e pot =
  (if ag_is_start_of_window s then mk_parent_ready s <$> pot else []) ++ walk_out (s + 1) e pot.
Proof. intros H. unfold walk_out. by rewrite range_cons by lia. Qed.

(** One iteration: the state of [s] exists and holds the potential parents. *)
Lemma walk_step cap self s pot out :
  (size (prt_states self) < Z.to_nat (prt_max self))%nat \/ is_Some (prt_states self !! s) ->
  ok_state (view self s) ->
  (ag_is_start_of_window s = true -> Z.of_nat (length (prs_ready_ids (view self s)) + length pot) <= READY_IDS_MAX) ->
  Z.of_nat (length out + length pot) <= Z.min cap (prt_max self) ->
  exists self', (r ← slot_state self s;
    so ← (if ag_is_start_of_window s then
            q ← certify_all cap r.1 s pot r.2 out;
            Ok (put_state r.1 s q.1, q.2)
          else Ok (r.1, out)); Ok (r.2, so)) =
    Ok (view self s, (self', out ++ (if ag_is_start_of_window s then mk_parent_ready s <$> pot else []))) /\
    (forall t, view self' t = if decide (s = t /\ ag_is_start_of_window t = true)
                              then add_all pot (view self t) else view self t) /\
    dom (prt_states self') = {[s]} ∪ dom (prt_states self) /\
    grows (if decide (is_Some (prt_states self !! s)) then 0 else 1) self self'.
Proof.
  intros Hroom Hok Hlen Hout. destruct (slot_state_spec self s Hroom) as (self1 & -> & Hv & Hd & Hg).
  cbn [mbind outcome_bind fst snd]. destruct (ag_is_start_of_window s) eqn:Es.
  - rewrite certify_all_spec; [|done|by apply Hlen|by rewrite (gr_max _ _ _ Hg)].
    cbn [mbind outcome_bind fst snd]. eexists. split; [done|]. split; [|split].
    + intros t. rewrite view_put, Hv. destruct (decide (s = t)) as [<-|Hne].
      * by rewrite decide_True.
      * by rewrite decide_False by naive_solver.
    + unfold put_state. cbn. rewrite dom_insert_L, Hd. set_solver.
    + destruct Hg as [H1 H2 H3]. split; [done|done|].
      unfold put_state. cbn. rewrite map_size_insert_Some; [done|].
      apply elem_of_dom. rewrite Hd. set_solver.
  - rewrite app_nil_r. eexists. split; [done|]. split; [|done].
    intros t. rewrite Hv. rewrite decide_False; [done|]. intros [-> ?]. congruence.
Qed.

Lemma skip_walk_unfold k cap self s pot out :
  skip_walk (S k) cap self s pot out =
  (rs ← (r ← slot_state self s;
         so ← (if ag_is_start_of_window s then
                 q ← certify_all cap r.1 s pot r.2 out;
                 Ok (put_state r.1 s q.1, q.2)
               else Ok (r.1, out)); Ok (r.2, so));
   if negb (prs_skip (fst rs)) then Ok (snd rs) else skip_walk k cap (snd rs).1 (s +w 1) pot (snd rs).2).
Proof.
  cbn [skip_walk]. destruct (slot_state self s) as [[self1 st]|e]; cbn [mbind outcome_bind fst snd]; [|done].
  destruct (if ag_is_start_of_window s then _ else _); cbn [mbind outcome_bind]; done.
Qed.

Lemma skip_walk_spec k cap self s pot out :
  (size (prt_states self) < Z.to_nat (prt_max self))%nat ->
  (forall t, prs_skip (view self t) = true -> t < ULONG_MAX) ->
  0 <= s ->
  (forall t, s <= t -> ok_state (view self t)) ->
  (forall t, s <= t -> (forall u, s <= u < t -> prs_skip (view self u) = true) -> ag_is_start_of_window t = true ->
     Z.of_nat (length (prs_ready_ids (view self t)) + length pot) <= READY_IDS_MAX) ->
  (keys_ge self s < k)%nat ->
  Z.of_nat (length out) + Z.of_nat (length pot) * (Z.of_nat (keys_ge self s) + 1) <= Z.min cap (prt_max self) ->
  exists e self', skip_walk k cap self s pot out = Ok (self', out ++ walk_out s e pot) /\ walked s e pot self self'.
Proof.
  revert self s out. induction k as [|k IH]; intros self s out Hroom Hu Hs Hok Hlen Hfuel Hout; [lia|].
  rewrite skip_walk_unfold.
  destruct (walk_step cap self s pot out) as (self1 & -> & Hv & Hd & Hg).
  { by left. } { by apply Hok. } { intros Es. apply Hlen; [done|lia|done]. } { nia. }
  cbn [mbind outcome_bind fst snd]. destruct (prs_skip (view self s)) eqn:Esk; cbn [negb].
  - assert (is_Some (prt_states self !! s)) as Hkey by (apply view_key; intros E; by rewrite E in Esk).
    rewrite decide_True in Hg by done. pose proof (Hu s Esk) as Hsu.
    rewrite u64_add_small by (unfold is_u64; lia).
    assert (dom (prt_states self1) = dom (prt_states self)) as Hd'
      by (rewrite Hd; apply elem_of_dom in Hkey; set_solver).
    assert (keys_ge self s = S (keys_ge self1 (s + 1))) as Hkg
      by (apply keys_ge_step; [by apply elem_of_dom|done]).
    assert (forall t, s + 1 <= t -> view self1 t = view self t) as Hv'.
    { intros t Ht. rewrite Hv. rewrite decide_False by lia. done. }
    assert (forall t, prs_skip (view self1 t) = prs_skip (view self t)) as Hvs.
    { intros t. rewrite Hv. case_decide; [apply add_all_skip|done]. }
    destruct (IH self1 (s + 1) (out ++ (if ag_is_start_of_window s then mk_parent_ready s <$> pot else [])))
      as (e & self2 & -> & [Hle Hwsk Hwe Hwv Hwd Hwg]).
    { destruct Hg as [_ -> ?]. lia. }
    { intros t. rewrite Hvs. apply Hu. } { lia. }
    { intros t Ht. rewrite Hv' by done. apply Hok. lia. }
    { intros t Ht Hall Est. rewrite Hv' by done. apply Hlen; [lia| |done].
      intros u Hur. destruct (decide (u = s)) as [->|]; [done|].
      rewrite <- (Hv' u) by lia. apply Hall. lia. }
    { lia. }
    { rewrite (gr_max _ _ _ Hg), length_app.
      assert (length (if ag_is_start_of_window s then mk_parent_ready s <$> pot else []) <= length pot)%nat
        by (case_if; [by rewrite length_fmap|cbn; lia]). nia. }
    exists e, self2. split; [by rewrite <- app_assoc, <- walk_out_cons by lia|]. split.
    + lia.
    + intros t Ht. destruct (decide (t = s)) as [->|]; [done|]. rewrite <- (Hv' t) by lia. apply Hwsk. lia.
    + rewrite <- (Hv' e) by lia. done.
    + intros t. rewrite Hwv. destruct (decide (t = s)) as [->|Hts].
      * rewrite decide_False by lia. rewrite Hv. destruct (ag_is_start_of_window s) eqn:Es.
        -- rewrite !decide_True by (split; (done || lia)). done.
        -- rewrite !decide_False by naive_solver. done.
      * rewrite (Hv t), (decide_False (P := s = t /\ _)) by naive_solver.
        rewrite (decide_ext (s + 1 <= t <= e /\ ag_is_start_of_window t = true)
                            (s <= t <= e /\ ag_is_start_of_window t = true)); [done|].
        split; intros [? ?]; (split; [lia|done]).
    + by rewrite Hwd, Hd'.
    + exact (grows_trans _ _ _ _ _ Hg Hwg).
  - exists s, self1. split; [|split].
    + rewrite walk_out_cons by lia. f_equal. f_equal. f_equal. unfold walk_out, range.
      replace (s + 1 - (s + 1)) with 0 by lia. cbn. by rewrite app_nil_r.
    + lia.
    + intros t Ht. lia.
    + done.
    + intros t. rewrite Hv.
      rewrite (decide_ext (s = t /\ ag_is_start_of_window t = true)
                          (s <= t <= s /\ ag_is_start_of_window t = true)); [done|].
      split; intros [? ?]; (split; [lia|done]).
    + done.
    + case_decide; [|done]. destruct Hg. split; [done|done|lia].
Qed.

(** The walk for one block is the walk for a list of one. *)
Lemma ready_walk_skip_walk k cap self s id out r :
  skip_walk k cap self s [id] out = Ok r -> ready_walk k cap self s id out = Ok r.
Proof.
  revert self s out. induction k as [|k IH]; intros self s out; [done|]. cbn [skip_walk ready_walk].
  destruct (slot_state self s) as [[self1 st]|e]; cbn [mbind outcome_bind fst snd]; [|done].
  destruct (ag_is_start_of_window s); cbn [certify_all ofold mbind outcome_bind fst snd].
  - unfold certify_all. cbn [ofold fst snd]. destruct (add_to_ready st id) as [st'|]; cbn [mbind outcome_bind]; [|done].
    destruct (check FdTest _); cbn [mbind outcome_bind]; [|done].
    destruct (push_ready cap out _); cbn [mbind outcome_bind fst snd]; [|done].
    destruct (negb _); [done|]. apply IH.
  - destruct (negb _); [done|]. apply IH.
Qed.

(** * The refinement invariant *)

(** Skips, notarizations and bookkeeping, for the slots at or above the root. *)
Record prt_core (A : certified) (self : ag_parent_ready_tracker_t) : Prop := {
  pc_root : 0 <= prt_root self;
  pc_keys : forall s, s ∈ dom (prt_states self) -> prt_root self <= s <= ULONG_MAX;
  pc_ok : forall s, ok_state (view self s);
  pc_skip : forall s, prt_root self <= s -> prs_skip (view self s) = true <-> s ∈ ce_skip A;
  pc_notar : forall s h, prt_root self <= s ->
    h ∈ prs_notar_fallbacks (view self s) <-> ag_block_id s h ∈ ce_notar A;
  pc_nodup : forall s, NoDup (prs_notar_fallbacks (view self s));
  pc_skip_slots : forall s, s ∈ ce_skip A -> 0 <= s < ULONG_MAX;
  pc_notar_slots : forall p, p ∈ ce_notar A -> 0 <= bid_slot p < ULONG_MAX
}.

(** The recorded parents are ready, and none of an unpruned block is missing. *)
Record prt_ready (A : certified) (self : ag_parent_ready_tracker_t) : Prop := {
  pr_nodup : forall s, NoDup (prs_ready_ids (view self s));
  pr_sound : forall s p, p ∈ prs_ready_ids (view self s) -> ready A s p;
  pr_complete : forall s p, prt_root self <= bid_slot p -> ready A s p -> p ∈ prs_ready_ids (view self s)
}.

Record prt_inv (A : certified) (self : ag_parent_ready_tracker_t) : Prop := {
  pi_core : prt_core A self;
  pi_ready : prt_ready A self
}.

(** What a walk from [s] adds: the potential parents, at the window starts
    that only skipped slots separate from [s]. *)
Definition gain (A : certified) (s : Z) (pot : list ag_block_id_t) (s' : Z) (p : ag_block_id_t) : Prop :=
  s <= s' /\ ag_is_start_of_window s' = true /\ (forall t, s <= t < s' -> t ∈ ce_skip A) /\ p ∈ pot.

Lemma core_skip_below A self t : prt_core A self -> prs_skip (view self t) = true -> prt_root self <= t < ULONG_MAX.
Proof.
  intros HI Ht. assert (is_Some (prt_states self !! t)) as Hk%elem_of_dom
    by (apply view_key; intros E; by rewrite E in Ht).
  pose proof (pc_keys _ _ HI t Hk). split; [lia|]. apply (pc_skip _ _ HI) in Ht; [|lia].
  by apply (pc_skip_slots _ _ HI).
Qed.

Lemma walk_gain A s e pot self self' s' p :
  prt_core A self -> prt_root self <= s -> walked s e pot self self' ->
  gain A s pot s' p <-> (s <= s' <= e /\ ag_is_start_of_window s' = true) /\ p ∈ pot.
Proof.
  intros HI Hs [Hle Hsk Hend _ _ _]. unfold gain. split.
  - intros (H1 & H2 & H3 & H4). split; [|done]. split; [|done]. split; [done|].
    apply Z.nlt_ge. intros Hlt.
    specialize (H3 e ltac:(lia)). apply (pc_skip _ _ HI) in H3; [|lia]. congruence.
  - intros [[H1 H2] H3]. split_and!; [lia|done| |done]. intros t Ht.
    apply (pc_skip _ _ HI); [lia|]. apply Hsk. lia.
Qed.

Lemma walk_out_elem s e pot r :
  r ∈ walk_out s e pot <->
  (s <= pr_slot r <= e /\ ag_is_start_of_window (pr_slot r) = true) /\ pr_parent r ∈ pot.
Proof.
  unfold walk_out. rewrite list_elem_of_In, in_flat_map. split.
  - intros (t & Ht & Hr). apply list_elem_of_In, elem_of_range in Ht.
    destruct (ag_is_start_of_window t) eqn:Es; [|done].
    apply list_elem_of_In, list_elem_of_fmap in Hr as (p & -> & Hp). cbn. split; [split; [lia|done]|done].
  - intros [[Ht Es] Hp]. exists (pr_slot r). split; [apply list_elem_of_In, elem_of_range; lia|].
    rewrite Es. apply list_elem_of_In, list_elem_of_fmap. exists (pr_parent r). split; [by destruct r|done].
Qed.

Lemma walk_out_nodup s e pot : NoDup pot -> NoDup (walk_out s e pot).
Proof.
  intros Hp. unfold walk_out. assert (NoDup (range s (e + 1))) as Hr by apply NoDup_seqZ.
  induction Hr as [|t l Ht _ IH]; cbn; [constructor|]. apply NoDup_app. split_and!; [| |done].
  - case_if; [|constructor]. apply NoDup_fmap_2; [|done]. by intros ? ? [= ->].
  - intros r Hr Hin. apply list_elem_of_In, in_flat_map in Hin as (t' & Ht' & Hr').
    destruct (ag_is_start_of_window t), (ag_is_start_of_window t'); try (by apply elem_of_nil in Hr); [|done].
    apply list_elem_of_In, list_elem_of_fmap in Hr' as (? & -> & _).
    apply list_elem_of_fmap in Hr as (? & [= <- _] & _). apply Ht. by apply list_elem_of_In.
Qed.

(** A walk re-establishes the invariant for a state that gained exactly its
    potential parents. *)
Lemma walk_inv A A' self self' s e pot :
  prt_core A' self -> prt_ready A self -> prt_root self <= s -> walked s e pot self self' -> NoDup pot ->
  (forall s' p, ready A s' p -> ready A' s' p) ->
  (forall s' p, gain A' s pot s' p -> ready A' s' p /\ ~ ready A s' p) ->
  (forall s' p, prt_root self <= bid_slot p -> ready A' s' p -> ready A s' p \/ gain A' s pot s' p) ->
  s <= ULONG_MAX -> prt_inv A' self'.
Proof.
  intros HC [Hnd Hsnd Hcmp] Hs Hw Hpn Hmono Hgain Hnew Hsu.
  pose proof (fun s' p => walk_gain A' s e pot self self' s' p HC Hs Hw) as Hg.
  destruct Hw as [Hle Hsk Hend Hv Hd [Hroot Hmax Hsize]].
  assert (e <= ULONG_MAX) as Heu.
  { destruct (decide (e = s)) as [->|]; [done|].
    pose proof (core_skip_below _ _ _ HC (Hsk (e - 1) ltac:(lia))). lia. }
  assert (forall t, prs_skip (view self' t) = prs_skip (view self t)) as Hvs
    by (intros t; rewrite Hv; case_decide; [apply add_all_skip|done]).
  assert (forall t, prs_notar_fallbacks (view self' t) = prs_notar_fallbacks (view self t)) as Hvn
    by (intros t; rewrite Hv; case_decide; [apply add_all_notar|done]).
  assert (forall t p, p ∈ prs_ready_ids (view self' t) <->
    p ∈ prs_ready_ids (view self t) \/ gain A' s pot t p) as Hvr.
  { intros t p. rewrite Hg, Hv. case_decide as Hd'; [rewrite add_all_ready, elem_of_app|]; naive_solver. }
  destruct HC as [Hr0 Hkeys Hok Hskip Hnot Hnd' Hss Hns].
  split; split; rewrite ?Hroot; try done.
  - intros t. rewrite Hd, elem_of_union, elem_of_singleton. intros [->|Ht]; [lia|by apply Hkeys].
  - intros t. rewrite Hv. case_decide; [by apply add_all_ok|done].
  - intros t. rewrite Hvs. apply Hskip.
  - intros t h. rewrite Hvn. apply Hnot.
  - intros t. by rewrite Hvn.
  - intros t. rewrite Hv. case_decide as Hd'; [|done]. rewrite add_all_ready. apply NoDup_app.
    split_and!; [done| |done]. intros p Hp Hpot. apply Hsnd in Hp.
    destruct (Hgain t p) as [_ Hn]; [by apply Hg|]. by apply Hn.
  - intros t p. rewrite Hvr. intros [Hp|Hp]; [by apply Hmono, Hsnd|by apply Hgain].
  - intros t p Hp Hrd. rewrite Hvr. destruct (Hnew t p Hp Hrd) as [Hold|Hg']; [left; by apply Hcmp|by right].
Qed.

(** A tracker that differs from [self0] by at most one fresh state. *)
Record same_view (self0 self1 : ag_parent_ready_tracker_t) : Prop := {
  sv_view : forall t, view self1 t = view self0 t;
  sv_keys : forall s, s ∈ dom (prt_states self1) -> prt_root self0 <= s <= ULONG_MAX;
  sv_grows : grows 1 self0 self1
}.

Lemma touch A self0 s :
  prt_core A self0 ->
  (size (prt_states self0) < Z.to_nat (prt_max self0))%nat -> prt_root self0 <= s <= ULONG_MAX ->
  exists self1, slot_state self0 s = Ok (self1, view self0 s) /\ same_view self0 self1 /\
    s ∈ dom (prt_states self1) /\ (prs_skip (view self0 s) = true -> self1 = self0).
Proof.
  intros Hcore Hsz Hs. destruct (slot_state_spec self0 s (or_introl Hsz)) as (self1 & E & Hv & Hd & Hg).
  exists self1. split; [done|]. split; [split; [done| |]|split].
  - intros k. rewrite Hd, elem_of_union, elem_of_singleton. intros [->|?]; [done|by apply (pc_keys _ _ Hcore)].
  - case_decide; [destruct Hg; split; (done || lia)|done].
  - rewrite Hd. set_solver.
  - intros Hsk. assert (is_Some (prt_states self0 !! s)) as [st Hst]
      by (apply view_key; intros E'; by rewrite E' in Hsk).
    unfold slot_state in E. rewrite Hst in E. by injection E.
Qed.

Lemma same_view_inv A A' self0 self1 :
  same_view self0 self1 -> prt_core A' self0 -> prt_ready A self0 -> prt_core A' self1 /\ prt_ready A self1.
Proof.
  intros [Hv Hk [Hr _ _]] [] []. split; split; intros; rewrite ?Hr, ?Hv in *; eauto.
Qed.

Lemma put_size self s st : s ∈ dom (prt_states self) -> size (prt_states (put_state self s st)) = size (prt_states self).
Proof. intros Hs. unfold put_state. cbn. by apply map_size_insert_Some, elem_of_dom. Qed.

(** * Marking a block notarized *)

Definition add_notar (A : certified) (id : ag_block_id_t) : certified :=
  mk_certified ({[id]} ∪ ce_notar A) (ce_skip A).

Lemma add_notar_ready A id s p : ready (add_notar A id) s p <-> ready A s p \/ (p = id /\ ready (add_notar A id) s p).
Proof.
  unfold ready, reach, add_notar. cbn. split; [|intros [(? & ? & ?)|(? & ?)]; [set_solver|done]].
  intros (H1 & H2 & H3). apply elem_of_union in H2 as [->%elem_of_singleton|H2].
  - right. split; [done|]. split; [done|]. split; [set_solver|done].
  - by left.
Qed.

(** The state after the hash is recorded. *)
Lemma record_notar_core A self id st :
  prt_core A self -> prt_root self <= bid_slot id < ULONG_MAX -> id ∉ ce_notar A ->
  st = mk_pr_state (prs_skip (view self (bid_slot id)))
         (prs_notar_fallbacks (view self (bid_slot id)) ++ [bid_hash id])
         (prs_is_ready (view self (bid_slot id))) (prs_ready_ids (view self (bid_slot id))) ->
  prt_core (add_notar A id) (put_state self (bid_slot id) st).
Proof.
  intros [Hr0 Hkeys Hok Hskip Hnot Hnd Hss Hns] Hs Hn ->.
  split; cbn [put_state prt_root prt_states add_notar ce_notar ce_skip]; try done.
  - intros s. rewrite dom_insert_L, elem_of_union, elem_of_singleton. intros [->|Hk]; [lia|by apply Hkeys].
  - intros s. rewrite view_put. case_decide; [subst; apply Hok|apply Hok].
  - intros s. rewrite view_put. case_decide; [subst; apply Hskip|apply Hskip].
  - intros s h Hsr. rewrite view_put, elem_of_union, elem_of_singleton. case_decide as Hd.
    + subst s. cbn. rewrite elem_of_app, Hnot, list_elem_of_singleton by done.
      split; [intros [? | ->]; [by right|left; by destruct id]|].
      intros [<-|?]; [by right|by left].
    + rewrite Hnot by done. split; [by right|]. intros [<-|?]; [done|done].
  - intros s. rewrite view_put. case_decide as Hd; [|done]. cbn. apply NoDup_app.
    split_and!; [done| |apply NoDup_singleton]. intros h Hh ->%list_elem_of_singleton.
    apply Hnot in Hh; [|lia]. apply Hn. by destruct id.
  - intros p. rewrite elem_of_union, elem_of_singleton. intros [->|Hp]; [lia|by apply Hns].
Qed.

(** Recording changes neither skips nor ready lists. *)
Lemma put_same_ready A self s st :
  prs_ready_ids st = prs_ready_ids (view self s) -> prt_ready A self -> prt_ready A (put_state self s st).
Proof.
  intros Hst [Hnd Hsnd Hcmp].
  assert (forall t, prs_ready_ids (view (put_state self s st) t) = prs_ready_ids (view self t)) as Hv
    by (intros t; rewrite view_put; case_decide; [by subst|done]).
  split; intros t; rewrite ?Hv; auto.
Qed.

Lemma core_view_ext A self self' :
  prt_root self' = prt_root self -> (forall s, s ∈ dom (prt_states self') -> prt_root self <= s <= ULONG_MAX) ->
  (forall t, view self' t = view self t) -> prt_inv A self -> prt_inv A self'.
Proof.
  intros Hr Hk Hv [[] []]. split; split; intros; rewrite ?Hr, ?Hv in *; eauto.
Qed.

Lemma existsb_hash l h : existsb (fun x => hash_eqb x h) l = bool_decide (h ∈ l).
Proof.
  apply eq_true_iff_eq. rewrite existsb_exists, bool_decide_eq_true. split.
  - intros (x & Hx & E). apply hash_eqb_true in E as ->. by apply list_elem_of_In.
  - intros Hx. exists h. split; [by apply list_elem_of_In|apply hash_eqb_refl].
Qed.

(** What a call reports: newly ready pairs only, none twice, and all of those
    whose parent is not pruned. *)
Record reports (root : Z) (A A' : certified) (out : list ag_parent_ready_t) : Prop := {
  rp_nodup : NoDup out;
  rp_sound : forall s p, mk_parent_ready s p ∈ out -> ready A' s p /\ ~ ready A s p;
  rp_complete : forall s p, root <= bid_slot p -> ready A' s p -> ~ ready A s p -> mk_parent_ready s p ∈ out
}.

Lemma reports_walk A A' s e pot self self' :
  prt_core A' self -> prt_root self <= s -> walked s e pot self self' -> NoDup pot ->
  (forall s' p, gain A' s pot s' p -> ready A' s' p /\ ~ ready A s' p) ->
  (forall s' p, prt_root self <= bid_slot p -> ready A' s' p -> ready A s' p \/ gain A' s pot s' p) ->
  reports (prt_root self) A A' (walk_out s e pot).
Proof.
  intros HC Hs Hw Hpn Hg1 Hg2.
  assert (forall s' p, mk_parent_ready s' p ∈ walk_out s e pot <-> gain A' s pot s' p) as Hel
    by (intros s' p; rewrite walk_out_elem; symmetry; by apply (walk_gain A' s e pot self self')).
  split; [by apply walk_out_nodup| |].
  - intros s' p. rewrite Hel. apply Hg1.
  - intros s' p Hr Hy Hn. apply Hel. destruct (Hg2 s' p Hr Hy); done.
Qed.

Lemma notar_gain A id s' p :
  id ∉ ce_notar A ->
  gain (add_notar A id) (bid_slot id + 1) [id] s' p <-> ready (add_notar A id) s' p /\ ~ ready A s' p.
Proof.
  intros Hn. unfold gain. rewrite list_elem_of_singleton. split.
  - intros (H1 & H2 & H3 & ->). split.
    + split; [done|]. split; [cbn; set_solver|]. split; [lia|]. intros t Ht. apply H3. lia.
    + intros (_ & Hin & _). done.
  - intros [Hr Hnr]. apply add_notar_ready in Hr as [Hr|[-> Hr]]; [done|].
    destruct Hr as (Hst & _ & Hlt & Hsk). split_and!; [lia|done| |done]. intros t Ht. apply Hsk. lia.
Qed.

Lemma notar_new A id s' p :
  id ∉ ce_notar A -> ready (add_notar A id) s' p ->
  ready A s' p \/ gain (add_notar A id) (bid_slot id + 1) [id] s' p.
Proof.
  intros Hn Hrd. destruct (proj1 (add_notar_ready _ _ _ _) Hrd) as [?|[-> _]]; [by left|].
  right. apply notar_gain; [done|]. split; [done|]. by intros (_ & ? & _).
Qed.

Lemma mark_notar_fresh A self id cap :
  prt_inv A self -> fits (add_notar A id) -> prt_root self <= bid_slot id < ULONG_MAX -> id ∉ ce_notar A ->
  Z.of_nat (size (prt_states self)) + 2 <= Z.min cap (prt_max self) ->
  exists self' out, ag_parent_ready_tracker_mark_notar_fallback cap self id = Ok (self', out) /\
    prt_inv (add_notar A id) self' /\ grows 2 self self' /\ reports (prt_root self) A (add_notar A id) out.
Proof.
  intros [HC HR] [Hfr Hfn] Hs Hn Hsz. unfold ag_parent_ready_tracker_mark_notar_fallback.
  replace (bid_slot id <? prt_root self) with false by lia.
  destruct (touch A self (bid_slot id) HC ltac:(lia) ltac:(lia)) as (self1 & -> & Hsv & Hd & _).
  destruct (same_view_inv A A self self1 Hsv HC HR) as [HC1 HR1]. destruct Hsv as [Hv _ Hg1].
  pose proof (pc_root _ _ HC) as Hr0.
  cbn [mbind outcome_bind fst snd]. rewrite existsb_hash, bool_decide_eq_false_2.
  2:{ rewrite (pc_notar _ _ HC) by lia. by destruct id. }
  set (st := mk_pr_state _ _ _ _).
  assert (st = mk_pr_state (prs_skip (view self1 (bid_slot id)))
         (prs_notar_fallbacks (view self1 (bid_slot id)) ++ [bid_hash id])
         (prs_is_ready (view self1 (bid_slot id))) (prs_ready_ids (view self1 (bid_slot id)))) as Est
    by (unfold st; by rewrite Hv).
  assert (prt_core (add_notar A id) (put_state self1 (bid_slot id) st)) as HC2.
  { apply record_notar_core; [done| |done|done]. rewrite (gr_root _ _ _ Hg1). done. }
  assert (prt_ready A (put_state self1 (bid_slot id) st)) as HR2
    by (apply put_same_ready; [by rewrite Est|done]).
  set (self2 := put_state self1 (bid_slot id) st) in *.
  assert (prt_root self2 = prt_root self) as Hroot2 by apply Hg1.
  assert (size (prt_states self2) = size (prt_states self1)) as Hsz2 by by apply put_size.
  assert (Z.of_nat (length (prs_notar_fallbacks (view self (bid_slot id)))) < AG_NOTAR_FALLBACK_CERT_MAX) as Hnf.
  { pose proof (Hfn (bid_slot id) (prs_notar_fallbacks st)) as Hlen.
    unfold st in Hlen. cbn [prs_notar_fallbacks] in Hlen. rewrite length_app in Hlen. cbn [length] in Hlen.
    enough (Z.of_nat (length (prs_notar_fallbacks (view self (bid_slot id))) + 1) <= AG_NOTAR_FALLBACK_CERT_MAX)
      by lia. apply Hlen.
    - pose proof (pc_nodup _ _ HC2 (bid_slot id)) as H'. unfold self2 in H'.
      rewrite view_put, decide_True in H' by done. exact H'.
    - intros h Hh. apply (pc_notar _ _ HC2); [lia|]. unfold self2. by rewrite view_put, decide_True. }
  rewrite check_true_ok by lia. cbn [mbind outcome_bind].
  rewrite u64_add_small by (unfold is_u64; lia).
  pose proof (keys_ge_le self2 (bid_slot id + 1)) as Hkg. destruct Hg1 as [Hroot1 Hmax1 Hsize1].
  destruct (skip_walk_spec (S (size (prt_states self2))) cap self2 (bid_slot id + 1) [id] [])
    as (e & self3 & Hrun & Hw).
  - change (prt_max self2) with (prt_max self1). rewrite Hmax1. lia.
  - intros t Ht. apply (core_skip_below _ _ _ HC2) in Ht. lia.
  - lia.
  - intros t _. apply (pc_ok _ _ HC2).
  - intros t Ht Hall Est'. pose proof (Hfr t (id :: prs_ready_ids (view self2 t))) as Hlen.
    cbn [length] in Hlen |- *. rewrite Nat.add_1_r. apply Hlen.
    + constructor; [|apply (pr_nodup _ _ HR2)]. intros Hin%(pr_sound _ _ HR2). by destruct Hin as (_ & ? & _).
    + intros p [->|Hp]%elem_of_cons.
      * split; [cbn; set_solver|]. split; [lia|]. intros u Hu.
        apply (pc_skip _ _ HC2); [lia|]. apply Hall. lia.
      * apply (pr_sound _ _ HR2) in Hp. assert (ready (add_notar A id) t p) as [_ ?]
          by (apply add_notar_ready; by left). done.
  - lia.
  - cbn [length]. change (prt_max self2) with (prt_max self1). rewrite Hmax1. lia.
  - exists self3, (walk_out (bid_slot id + 1) e [id]).
    split; [by apply ready_walk_skip_walk|]. split; [|split].
    + apply (walk_inv A (add_notar A id) self2 self3 (bid_slot id + 1) e [id]); try done.
      * lia.
      * apply NoDup_singleton.
      * intros s' p Hrd. apply add_notar_ready. by left.
      * intros s' p. by apply notar_gain.
      * intros s' p _ Hrd. by apply notar_new.
      * lia.
    + destruct Hw as [_ _ _ _ _ [Hr3 Hm3 Hs3]]. split; [congruence|rewrite Hm3; done|lia].
    + rewrite <- Hroot2. eapply reports_walk; [exact HC2|lia|exact Hw|apply NoDup_singleton| |].
      * intros. by apply notar_gain.
      * intros s' p _ Hrd. by apply notar_new.
Qed.

(** * Marking a slot skipped *)

Definition add_skip (A : certified) (m : Z) : certified := mk_certified (ce_notar A) ({[m]} ∪ ce_skip A).

Lemma reach_add_skip A m s p : reach A s p -> reach (add_skip A m) s p.
Proof. intros (H1 & H2 & H3). split; [done|]. split; [done|]. intros t Ht. cbn. set_solver. Qed.

Lemma reach_skip_below A m p : reach (add_skip A m) m p -> reach A m p.
Proof.
  intros (H1 & H2 & H3). split; [done|]. split; [done|]. intros t Ht.
  specialize (H3 t Ht). cbn in H3. apply elem_of_union in H3 as [->%elem_of_singleton|?]; [lia|done].
Qed.

Lemma record_skip_core A self m st :
  prt_core A self -> prt_root self <= m < ULONG_MAX ->
  st = mk_pr_state true (prs_notar_fallbacks (view self m)) (prs_is_ready (view self m))
         (prs_ready_ids (view self m)) ->
  prt_core (add_skip A m) (put_state self m st).
Proof.
  intros [Hr0 Hkeys Hok Hskip Hnot Hnd Hss Hns] Hs ->.
  split; cbn [put_state prt_root prt_states add_skip ce_notar ce_skip]; try done.
  - intros s. rewrite dom_insert_L, elem_of_union, elem_of_singleton. intros [->|Hk]; [lia|by apply Hkeys].
  - intros s. rewrite view_put. case_decide; [subst; apply Hok|apply Hok].
  - intros s Hsr. rewrite view_put, elem_of_union, elem_of_singleton. case_decide as Hd.
    + subst s. cbn. split; [by left|done].
    + rewrite Hskip by done. split; [by right|]. intros [->|?]; done.
  - intros s h Hsr. rewrite view_put. case_decide; [subst s; by apply Hnot|by apply Hnot].
  - intros s. rewrite view_put. case_decide; [subst s; apply Hnd|apply Hnd].
  - intros s. rewrite elem_of_union, elem_of_singleton. intros [->|Hk]; [lia|by apply Hss].
Qed.

Lemma push_all {A} (f : A -> ag_block_id_t) l pot :
  Z.of_nat (length (pot ++ (f <$> l))) <= READY_IDS_MAX ->
  ofold (fun pot x => push_potential pot (f x)) pot l = Ok (pot ++ (f <$> l)).
Proof.
  revert pot. induction l as [|x l IH]; intros pot Hlen; cbn [ofold fmap list_fmap] in *; [by rewrite app_nil_r|].
  rewrite length_app in Hlen. cbn [length] in Hlen.
  assert (push_potential pot (f x) = Ok (pot ++ [f x])) as ->
    by (unfold push_potential; by rewrite check_true_ok by lia).
  cbn [mbind outcome_bind].
  rewrite IH by (rewrite !length_app in *; cbn [length]; lia). by rewrite <- app_assoc.
Qed.

Lemma push_all_id l pot :
  Z.of_nat (length (pot ++ l)) <= READY_IDS_MAX -> ofold push_potential pot l = Ok (pot ++ l).
Proof.
  intros Hlen. pose proof (push_all (fun x => x) l pot) as H. rewrite list_fmap_id in H. by apply H.
Qed.

(** The parents that would be ready right after [m] once [m] is skipped. *)
Record collected (A : certified) (root m : Z) (pot : list ag_block_id_t) : Prop := {
  co_nodup : NoDup pot;
  co_sound : forall p, p ∈ pot -> reach A m p;
  co_complete : forall p, root <= bid_slot p -> reach A m p -> p ∈ pot
}.

Section Collect.
Context (A : certified) (self0 : ag_parent_ready_tracker_t) (m : Z).
Let A' := add_skip A m.
Let low := Z.max (ag_first_slot_in_window m) (prt_root self0).
Context (Hcore : prt_core A' self0) (Hready : prt_ready A self0) (Hfits : fits A').
Context (Hm : prt_root self0 <= m < ULONG_MAX).

(** The parents of the slots above [slot], all of which are skipped. *)
Record collecting (slot : Z) (pot : list ag_block_id_t) : Prop := {
  cg_nodup : NoDup pot;
  cg_elem : forall p, p ∈ pot <-> p ∈ ce_notar A /\ slot < bid_slot p < m;
  cg_skip : forall t, slot < t <= m -> t ∈ ce_skip A'
}.

Lemma collecting_reach slot pot p : collecting slot pot -> p ∈ pot -> reach A m p.
Proof.
  intros [_ He Hs] Hp. apply He in Hp as [Hp Hr]. split; [done|]. split; [lia|].
  intros t Ht. specialize (Hs t ltac:(lia)). unfold A' in Hs. cbn in Hs.
  apply elem_of_union in Hs as [->%elem_of_singleton|?]; [lia|done].
Qed.

Lemma reach_fits pot : NoDup pot -> (forall p, p ∈ pot -> reach A m p) -> Z.of_nat (length pot) <= READY_IDS_MAX.
Proof.
  intros Hnd Hr. apply (fits_reach _ Hfits m); [done|]. intros p Hp. by apply reach_add_skip, Hr.
Qed.

Lemma low_bounds : 0 <= low /\ ag_first_slot_in_window m <= low <= m /\ prt_root self0 <= low.
Proof.
  pose proof (first_slot_bounds m). pose proof (pc_root _ _ Hcore). unfold low. lia.
Qed.

(** Adding the notarized blocks of [slot]. *)
Lemma collect_notar slot pot :
  low <= slot <= m -> collecting slot pot ->
  let pot' := pot ++ (if negb (slot =? m) then ag_block_id slot <$> prs_notar_fallbacks (view self0 slot) else []) in
  NoDup pot' /\ forall p, p ∈ pot' <-> p ∈ ce_notar A /\ slot - 1 < bid_slot p < m.
Proof.
  intros Hs [Hnd He _]. destruct low_bounds as (? & ? & ?). cbv zeta.
  destruct (Z.eqb_spec slot m) as [->|Hne]; cbn [negb].
  - rewrite app_nil_r. split; [done|]. intros p. rewrite He. split; intros [? ?]; split; (done || lia).
  - assert (forall p, p ∈ ag_block_id slot <$> prs_notar_fallbacks (view self0 slot) <->
              p ∈ ce_notar A /\ bid_slot p = slot) as Hel.
    { intros p. rewrite list_elem_of_fmap. split.
      - intros (h & -> & Hh). apply (pc_notar _ _ Hcore) in Hh; [done|lia].
      - intros [Hp <-]. exists (bid_hash p). split; [by destruct p|].
        apply (pc_notar _ _ Hcore); [lia|]. by destruct p. }
    split.
    + apply NoDup_app. split_and!; [done| |].
      * intros p Hp Hp'. apply He in Hp. apply Hel in Hp'. lia.
      * apply NoDup_fmap_2; [by intros ? ? [= ->]|apply (pc_nodup _ _ Hcore)].
    + intros p. rewrite elem_of_app, He, Hel. split; [intros [[? ?]|[? ?]]; split; (done || lia)|].
      intros [? ?]. destruct (decide (bid_slot p = slot)); [by right|left; split; [done|lia]].
Qed.

(** A slot that is not skipped ends the walk. *)
Lemma collect_stop slot pot :
  low <= slot <= m -> slot ∉ ce_skip A' -> (forall t, slot < t <= m -> t ∈ ce_skip A') -> NoDup pot ->
  (forall p, p ∈ pot <-> p ∈ ce_notar A /\ slot - 1 < bid_slot p < m) ->
  collected A (prt_root self0) m pot.
Proof.
  intros Hs Hns Hsk Hnd He. split; [done| |].
  - intros p Hp. apply He in Hp as [Hp Hr]. apply reach_skip_below. split; [done|]. split; [lia|].
    intros t Ht. apply Hsk. lia.
  - intros p Hr Hp. pose proof (reach_add_skip A m m p Hp) as Hp'. destruct Hp as (H1 & H2 & _), Hp' as (_ & _ & H3).
    apply He. split; [done|]. split; [|lia]. apply Z.nle_gt. intros Hle. apply Hns, H3.
    split; [lia|]. destruct (decide (slot = m)) as [->|]; [|lia].
    exfalso. apply Hns. unfold A'. cbn. set_solver.
Qed.

(** The walk reached the lowest slot: the parents of its window's start complete
    the list. *)
Lemma collect_low pot :
  low ∈ ce_skip A' -> (forall t, low < t <= m -> t ∈ ce_skip A') -> NoDup pot ->
  (forall p, p ∈ pot <-> p ∈ ce_notar A /\ low - 1 < bid_slot p < m) ->
  collected A (prt_root self0) m (pot ++ prs_ready_ids (view self0 low)).
Proof.
  intros Hls Hsk Hnd He. destruct low_bounds as (Hl0 & Hl1 & Hl2).
  assert (forall p, p ∈ prs_ready_ids (view self0 low) -> ready A low p) as Hrd by apply (pr_sound _ _ Hready).
  assert (forall t, low <= t < m -> t ∈ ce_skip A) as Hsk'.
  { intros t Ht. assert (t ∈ ce_skip A') as H by (destruct (decide (t = low)) as [->|]; [done|apply Hsk; lia]).
    unfold A' in H. cbn in H. apply elem_of_union in H as [->%elem_of_singleton|?]; [lia|done]. }
  split.
  - apply NoDup_app. split_and!; [done| |apply (pr_nodup _ _ Hready)].
    intros p Hp Hp'. apply He in Hp. apply Hrd in Hp' as (_ & _ & ? & _). lia.
  - intros p [Hp|Hp]%elem_of_app.
    + apply He in Hp as [? ?]. split; [done|]. split; [lia|]. intros t Ht. apply Hsk'. lia.
    + apply Hrd in Hp as (_ & H1 & H2 & H3). split; [done|]. split; [lia|]. intros t Ht.
      destruct (decide (t < low)); [apply H3; lia|apply Hsk'; lia].
  - intros p Hr (H1 & H2 & H3). apply elem_of_app. destruct (Z.le_gt_cases low (bid_slot p)) as [Hle|Hgt].
    + left. apply He. split; [done|lia].
    + right. apply (pr_complete _ _ Hready); [done|].
      assert (low = ag_first_slot_in_window m) as -> by (unfold low in *; lia).
      split; [apply first_slot_start|]. split; [done|]. split; [lia|]. intros t Ht. apply H3. lia.
Qed.

(** Inside a window only its first slot has ready parents. *)
Lemma collect_inner slot : low < slot <= m -> prs_ready_ids (view self0 slot) = [].
Proof.
  intros Hs. destruct low_bounds as (? & Hl & ?). pose proof (first_slot_bounds m).
  destruct (prs_ready_ids (view self0 slot)) as [|p l] eqn:E; [done|].
  assert (ready A slot p) as [Hst _] by (apply (pr_sound _ _ Hready); rewrite E; constructor).
  rewrite (inner_slot_not_start (ag_first_slot_in_window m) slot) in Hst; [done|apply first_slot_start|lia].
Qed.

Lemma view_max : prs_skip (view self0 ULONG_MAX) = false /\ prs_notar_fallbacks (view self0 ULONG_MAX) = [].
Proof.
  assert (prt_root self0 <= ULONG_MAX) as Hr by lia. split.
  - apply not_true_iff_false. intros Hs%(core_skip_below _ _ _ Hcore). lia.
  - destruct (prs_notar_fallbacks _) as [|h l] eqn:E; [done|].
    assert (h ∈ prs_notar_fallbacks (view self0 ULONG_MAX)) as Hh by (rewrite E; constructor).
    apply (pc_notar _ _ Hcore) in Hh; [|done]. apply (pc_notar_slots _ _ Hcore) in Hh. cbn in Hh. lia.
Qed.

(** Past the lowest slot the loop ends, after one more state when the unsigned
    counter wrapped at slot 0. *)
Lemma collect_end k pot :
  (size (prt_states self0) < Z.to_nat (prt_max self0))%nat ->
  exists self1, collect_potential (S k) self0 m low (low -w 1) pot = Ok (self1, pot) /\ same_view self0 self1.
Proof.
  intros Hsz. destruct low_bounds as (Hl0 & Hl1 & Hl2).
  destruct (decide (low = 0)) as [E|E].
  - rewrite E. change (0 -w 1) with ULONG_MAX. cbn [collect_potential].
    change (ULONG_MAX <? 0) with false. cbv iota.
    destruct (touch A' self0 ULONG_MAX Hcore Hsz ltac:(lia)) as (self1 & -> & Hsv & _).
    destruct view_max as [Hs Hn]. cbn [mbind outcome_bind fst snd]. rewrite Hs, Hn.
    replace (ULONG_MAX =? m) with false by lia. cbn. eauto.
  - rewrite u64_sub_small by (unfold is_u64; lia). exists self0.
    cbn [collect_potential]. replace (low - 1 <? low) with true by lia. split; [done|].
    split; [done|apply (pc_keys _ _ Hcore)|split; (done || lia)].
Qed.

Lemma collect_spec fuel slot pot :
  (size (prt_states self0) < Z.to_nat (prt_max self0))%nat ->
  low <= slot <= m -> collecting slot pot -> slot - low + 2 <= Z.of_nat fuel ->
  exists self1 pot1, collect_potential fuel self0 m low slot pot = Ok (self1, pot1) /\
    collected A (prt_root self0) m pot1 /\ same_view self0 self1.
Proof.
  intros Hsz. revert slot pot. induction fuel as [|fuel IH]; intros slot pot Hs Hcg Hf; [lia|].
  destruct low_bounds as (Hl0 & Hl1 & Hl2). cbn [collect_potential].
  replace (slot <? low) with false by lia.
  destruct (touch A' self0 slot Hcore Hsz ltac:(lia)) as (self1 & -> & Hsv & _ & Hself). cbn [mbind outcome_bind fst snd].
  destruct (collect_notar slot pot Hs Hcg) as [Hnd Hel].
  set (pot1 := pot ++ _) in Hnd, Hel.
  assert (forall t, slot < t <= m -> t ∈ ce_skip A') as Hsk by apply Hcg.
  assert (forall p, p ∈ pot1 -> reach A m p) as Hreach.
  { intros p Hp. apply Hel in Hp as [? ?]. apply reach_skip_below. split; [done|]. split; [lia|].
    intros t Ht. apply Hsk. lia. }
  assert ((if negb (slot =? m)
           then ofold (fun pot h => push_potential pot (ag_block_id slot h)) pot
                  (prs_notar_fallbacks (view self0 slot)) else Ok pot) = Ok pot1) as ->.
  { pose proof (reach_fits pot1 Hnd Hreach) as Hlen. unfold pot1 in *.
    destruct (negb _); [by apply push_all|by rewrite app_nil_r]. }
  cbn [mbind outcome_bind]. destruct (prs_skip (view self0 slot)) eqn:Esk; cbn [negb].
  - rewrite Hself in * by done. clear Hself.
    assert (slot ∈ ce_skip A') as Hslot by (apply (pc_skip _ _ Hcore); [lia|done]).
    destruct (decide (slot = low)) as [->|Hne].
    + pose proof (collect_low pot1 Hslot Hsk Hnd Hel) as Hco.
      rewrite push_all_id by (apply reach_fits; [apply Hco|apply (co_sound _ _ _ _ Hco)]).
      cbn [mbind outcome_bind]. destruct fuel as [|fuel]; [lia|].
      destruct (collect_end fuel (pot1 ++ prs_ready_ids (view self0 low)) Hsz) as (self2 & -> & Hsv2). eauto.
    + rewrite collect_inner by lia. cbn [ofold mbind outcome_bind].
      rewrite u64_sub_small by (unfold is_u64; lia). apply IH; [lia| |lia].
      split; [done|done|]. intros t Ht. destruct (decide (t = slot)) as [->|]; [done|apply Hsk; lia].
  - exists self1, pot1. split; [done|]. split; [|done].
    apply (collect_stop slot); try done. intros Hin. apply (pc_skip _ _ Hcore) in Hin; [congruence|lia].
Qed.

End Collect.

Lemma skip_gain A root m pot s' p :
  m ∉ ce_skip A -> collected A root m pot ->
  gain (add_skip A m) (m + 1) pot s' p -> ready (add_skip A m) s' p /\ ~ ready A s' p.
Proof.
  intros Hm [_ Hsnd _] (H1 & H2 & H3 & H4). apply Hsnd in H4 as (Hp & Hlt & Hsk). split.
  - split; [done|]. split; [done|]. split; [lia|]. intros t Ht.
    destruct (Z.lt_trichotomy t m) as [?|[->|?]]; [cbn; specialize (Hsk t); set_solver by lia|cbn; set_solver|].
    apply H3. lia.
  - intros (_ & _ & _ & Hall). apply Hm, Hall. lia.
Qed.

Lemma skip_new A root m pot s' p :
  collected A root m pot -> root <= bid_slot p -> ready (add_skip A m) s' p ->
  ready A s' p \/ gain (add_skip A m) (m + 1) pot s' p.
Proof.
  intros Hco Hr (Hst & Hp & Hlt & Hsk).
  destruct (decide (bid_slot p < m < s')) as [Hm|Hm].
  - right. split; [lia|]. split; [done|]. split; [intros t Ht; apply Hsk; lia|].
    apply (co_complete _ _ _ _ Hco); [done|]. apply reach_skip_below. split; [done|]. split; [lia|].
    intros t Ht. apply Hsk. lia.
  - left. split; [done|]. split; [done|]. split; [done|]. intros t Ht. specialize (Hsk t Ht). cbn in Hsk.
    apply elem_of_union in Hsk as [->%elem_of_singleton|?]; [lia|done].
Qed.

(** The walk has room in the ready arrays. *)
Lemma skip_walk_room A self m pot t :
  prt_core (add_skip A m) self -> prt_ready A self -> fits (add_skip A m) -> m ∉ ce_skip A ->
  collected A (prt_root self) m pot -> prt_root self <= m -> m + 1 <= t ->
  (forall u, m + 1 <= u < t -> prs_skip (view self u) = true) -> ag_is_start_of_window t = true ->
  Z.of_nat (length (prs_ready_ids (view self t)) + length pot) <= READY_IDS_MAX.
Proof.
  intros HC HR Hf Hm Hco Hrm Ht Hall Hst. rewrite <- length_app.
  assert (forall p, p ∈ pot -> gain (add_skip A m) (m + 1) pot t p) as Hg.
  { intros p Hp. split; [done|]. split; [done|]. split; [|done]. intros u Hu.
    apply (pc_skip _ _ HC); [lia|]. by apply Hall. }
  apply (fits_reach _ Hf t).
  - apply NoDup_app. split_and!; [apply (pr_nodup _ _ HR)| |apply Hco].
    intros p Hp Hp'. apply (pr_sound _ _ HR) in Hp.
    destruct (skip_gain A _ m pot t p Hm Hco (Hg p Hp')) as [_ Hn]. by apply Hn.
  - intros p [Hp|Hp]%elem_of_app.
    + apply (pr_sound _ _ HR) in Hp as [_ Hp]. by apply reach_add_skip.
    + by apply (skip_gain A _ m pot t p Hm Hco (Hg p Hp)).
Qed.

Lemma mark_skip_fresh A self m cap :
  prt_inv A self -> fits (add_skip A m) -> prt_root self <= m < ULONG_MAX -> m ∉ ce_skip A ->
  READY_IDS_MAX * (Z.of_nat (size (prt_states self)) + 4) <= Z.min cap (prt_max self) ->
  exists self' out, ag_parent_ready_tracker_mark_skipped cap self m = Ok (self', out) /\
    prt_inv (add_skip A m) self' /\ grows 3 self self' /\ reports (prt_root self) A (add_skip A m) out.
Proof.
  intros [HC HR] Hf Hs Hn Hsz. unfold ag_parent_ready_tracker_mark_skipped.
  pose proof (pc_root _ _ HC) as Hr0. replace (m <? prt_root self) with false by lia.
  assert (READY_IDS_MAX = 16) as E16 by done. rewrite E16 in Hsz.
  destruct (touch A self m HC ltac:(lia) ltac:(lia)) as (self1 & -> & Hsv & Hd & _).
  destruct (same_view_inv A A self self1 Hsv HC HR) as [HC1 HR1].
  destruct Hsv as [Hv _ [Hroot1 Hmax1 Hsize1]]. cbn [mbind outcome_bind fst snd].
  destruct (prs_skip (view self m)) eqn:Esk; [apply (pc_skip _ _ HC) in Esk; [done|lia]|].
  set (st := mk_pr_state _ _ _ _). set (self2 := put_state self1 m st).
  assert (prt_core (add_skip A m) self2) as HC2
    by (apply record_skip_core; [done|lia|unfold st; by rewrite Hv]).
  assert (prt_ready A self2) as HR2 by (apply put_same_ready; [unfold st; by rewrite Hv|done]).
  assert (size (prt_states self2) = size (prt_states self1)) as Hsz2 by by apply put_size.
  assert (prt_root self2 = prt_root self) as Hroot2 by done.
  assert (prt_max self2 = prt_max self) as Hmax2 by done.
  pose proof (first_slot_bounds m) as Hw. unfold AG_SLOTS_PER_WINDOW in Hw.
  destruct (collect_spec A self2 m HC2 HR2 Hf ltac:(lia) (Z.to_nat (AG_SLOTS_PER_WINDOW + 1)) m [])
    as (self3 & pot & -> & Hco & Hsv3).
  { lia. } { lia. }
  { split; [constructor| |intros; lia]. intros p. split; [by intros ?%elem_of_nil|intros; lia]. }
  { unfold AG_SLOTS_PER_WINDOW. lia. }
  destruct (same_view_inv A (add_skip A m) self2 self3 Hsv3 HC2 HR2) as [HC3 HR3].
  destruct Hsv3 as [_ _ [Hroot3 Hmax3 Hsize3]]. rewrite <- Hroot3 in Hco.
  cbn [mbind outcome_bind fst snd]. rewrite u64_add_small by (unfold is_u64; lia).
  pose proof (keys_ge_le self3 (m + 1)) as Hkg.
  assert (Z.of_nat (length pot) <= 16) as Hpl.
  { rewrite <- E16. apply (fits_reach _ Hf m); [apply Hco|]. intros p Hp. by apply reach_add_skip, Hco. }
  destruct (skip_walk_spec (S (size (prt_states self3))) cap self3 (m + 1) pot []) as (e & self4 & -> & Hwk).
  { lia. } { intros t Ht. apply (core_skip_below _ _ _ HC3) in Ht. lia. } { lia. }
  { intros t _. apply (pc_ok _ _ HC3). }
  { intros t Ht Hall Hst. apply (skip_walk_room A self3 m pot t); (done || lia). }
  { lia. } { cbn [length]. nia. }
  exists self4, (walk_out (m + 1) e pot). split; [done|]. split; [|split].
  - apply (walk_inv A (add_skip A m) self3 self4 (m + 1) e pot); try done; try lia.
    + apply Hco.
    + intros s' p [? ?]. split; [done|]. by apply reach_add_skip.
    + intros s' p. by apply (skip_gain A (prt_root self3)).
    + intros s' p. by apply skip_new.
  - destruct Hwk as [_ _ _ _ _ [? ? ?]]. split; [congruence|congruence|lia].
  - replace (prt_root self) with (prt_root self3) by congruence.
    eapply reports_walk; [exact HC3|lia|exact Hwk|apply Hco| |].
    + intros s' p. by apply (skip_gain A (prt_root self3)).
    + intros s' p. by apply skip_new.
Qed.

(** * The entry points *)

Lemma reports_nil root A : reports root A A [].
Proof. split; [constructor|intros s p Hin; by apply elem_of_nil in Hin|done]. Qed.

Lemma mark_notar_any A self id cap :
  prt_inv A self -> fits (add_notar A id) -> prt_root self <= bid_slot id < ULONG_MAX ->
  Z.of_nat (size (prt_states self)) + 2 <= Z.min cap (prt_max self) ->
  exists self' out, ag_parent_ready_tracker_mark_notar_fallback cap self id = Ok (self', out) /\
    prt_inv (add_notar A id) self' /\ grows 2 self self' /\ reports (prt_root self) A (add_notar A id) out.
Proof.
  intros HI Hf Hs Hsz. destruct (decide (id ∈ ce_notar A)) as [Hin|Hn]; [|by apply mark_notar_fresh].
  assert (add_notar A id = A) as -> by (unfold add_notar; destruct A; cbn in *; f_equal; set_solver).
  destruct HI as [HC HR]. unfold ag_parent_ready_tracker_mark_notar_fallback.
  replace (bid_slot id <? prt_root self) with false by lia.
  destruct (touch A self (bid_slot id) HC ltac:(lia) ltac:(lia)) as (self1 & -> & Hsv & _).
  cbn [mbind outcome_bind fst snd]. rewrite existsb_hash, bool_decide_eq_true_2.
  2:{ apply (pc_notar _ _ HC); [lia|]. by destruct id. }
  exists self1, []. split; [done|]. split; [|split; [|apply reports_nil]].
  - by destruct (same_view_inv A A self self1 Hsv HC HR).
  - destruct Hsv as [_ _ []]. split; (done || lia).
Qed.

Lemma mark_skip_any A self m cap :
  prt_inv A self -> fits (add_skip A m) -> prt_root self <= m < ULONG_MAX ->
  READY_IDS_MAX * (Z.of_nat (size (prt_states self)) + 4) <= Z.min cap (prt_max self) ->
  exists self' out, ag_parent_ready_tracker_mark_skipped cap self m = Ok (self', out) /\
    prt_inv (add_skip A m) self' /\ grows 3 self self' /\ reports (prt_root self) A (add_skip A m) out.
Proof.
  intros HI Hf Hs Hsz. destruct (decide (m ∈ ce_skip A)) as [Hin|Hn]; [|by apply mark_skip_fresh].
  assert (add_skip A m = A) as -> by (unfold add_skip; destruct A; cbn in *; f_equal; set_solver).
  destruct HI as [HC HR]. unfold ag_parent_ready_tracker_mark_skipped.
  replace (m <? prt_root self) with false by lia. assert (READY_IDS_MAX = 16) as E16 by done.
  destruct (touch A self m HC ltac:(lia) ltac:(lia)) as (self1 & -> & Hsv & _).
  cbn [mbind outcome_bind fst snd].
  assert (prs_skip (view self m) = true) as -> by (apply (pc_skip _ _ HC); [lia|done]).
  exists self1, []. split; [done|]. split; [|split; [|apply reports_nil]].
  - by destruct (same_view_inv A A self self1 Hsv HC HR).
  - destruct Hsv as [_ _ []]. split; (done || lia).
Qed.

(** C22: marking a block notarized (or notarized-fallback) returns, refines the
    abstract step that adds the block, and reports exactly the window starts
    the block has just become a ready parent of.  The premises bound the fixed
    arrays and the state pool. *)
Theorem mark_notar_fallback_refines A self id cap :
  prt_inv A self -> fits (add_notar A id) -> prt_root self <= bid_slot id < ULONG_MAX ->
  Z.of_nat (size (prt_states self)) + 2 <= Z.min cap (prt_max self) ->
  exists self' out, ag_parent_ready_tracker_mark_notar_fallback cap self id = Ok (self', out) /\
    prt_inv (add_notar A id) self' /\ reports (prt_root self) A (add_notar A id) out.
Proof.
  intros HI Hf Hs Hsz. destruct (mark_notar_any A self id cap HI Hf Hs Hsz) as (self' & out & ? & ? & _ & ?). eauto.
Qed.

(** marking a slot skipped returns, refines the abstract step that adds the
    slot, and reports exactly the unpruned parents that the skip makes ready,
    whatever the window they were notarized in. *)
Theorem mark_skipped_refines A self m cap :
  prt_inv A self -> fits (add_skip A m) -> prt_root self <= m < ULONG_MAX ->
  READY_IDS_MAX * (Z.of_nat (size (prt_states self)) + 4) <= Z.min cap (prt_max self) ->
  exists self' out, ag_parent_ready_tracker_mark_skipped cap self m = Ok (self', out) /\
    prt_inv (add_skip A m) self' /\ reports (prt_root self) A (add_skip A m) out.
Proof.
  intros HI Hf Hs Hsz. destruct (mark_skip_any A self m cap HI Hf Hs Hsz) as (self' & out & ? & ? & _ & ?). eauto.
Qed.

Definition certified_empty : certified := mk_certified ∅ ∅.

Lemma prt_inv_init root max : 0 <= root -> prt_inv certified_empty (mk_prt ∅ root max).
Proof.
  intros Hr. assert (forall t, view (mk_prt ∅ root max) t = fresh) as Hv by done.
  split; split; intros; rewrite ?Hv in *; cbn in *; try set_solver; try done; try constructor.
  destruct H0 as (_ & H0 & _). cbn in H0. set_solver.
Qed.

Lemma prune_view self r s :
  view (ag_parent_ready_tracker_prune self r) s = if decide (prt_root self <= s < r) then fresh else view self s.
Proof. unfold view. cbn. rewrite remove_slots_lookup. by case_decide. Qed.

(** pruning keeps the refinement, and keeps the ready parents of every
    unpruned slot. *)
Theorem parent_ready_prune_refines A self r :
  prt_inv A self -> prt_root self <= r ->
  prt_inv A (ag_parent_ready_tracker_prune self r) /\
  forall s, r <= s -> ag_parent_ready_tracker_parents_ready (ag_parent_ready_tracker_prune self r) s
                    = ag_parent_ready_tracker_parents_ready self s.
Proof.
  intros [[Hr0 Hkeys Hok Hskip Hnot Hnd Hss Hns] [Hrn Hsnd Hcmp]] Hr. split.
  - assert (forall s, r <= s -> view (ag_parent_ready_tracker_prune self r) s = view self s) as Hv
      by (intros s Hs; rewrite prune_view; by rewrite decide_False by lia).
    split; split; cbn [ag_parent_ready_tracker_prune prt_root]; try done; try lia.
    + intros s [st Hst]%elem_of_dom. cbn in Hst. rewrite remove_slots_lookup in Hst.
      case_decide as Hd; [done|]. apply elem_of_dom_2, Hkeys in Hst. lia.
    + intros s. rewrite prune_view. by case_decide.
    + intros s Hs. rewrite Hv by lia. apply Hskip. lia.
    + intros s h Hs. rewrite Hv by lia. apply Hnot. lia.
    + intros s. rewrite prune_view. case_decide; [constructor|done].
    + intros s. rewrite prune_view. case_decide; [constructor|done].
    + intros s p. rewrite prune_view. case_decide; [by intros ?%elem_of_nil|apply Hsnd].
    + intros s p Hp Hrd. assert (bid_slot p < s) by apply Hrd. rewrite Hv by lia. apply Hcmp; [lia|done].
  - intros s Hs. unfold ag_parent_ready_tracker_parents_ready. cbn. rewrite remove_slots_lookup.
    by rewrite decide_False by lia.
Qed.

(** ** The earliest ready parent *)

Lemma before_irrefl a : block_id_before a a = false.
Proof.
  unfold block_id_before. rewrite Z.ltb_irrefl. cbn. rewrite (proj2 (memcmp_eq _ _) eq_refl).
  by rewrite andb_false_r.
Qed.

Lemma before_trans a b c : block_id_before a b = true -> block_id_before b c = true -> block_id_before a c = true.
Proof.
  unfold block_id_before. rewrite !orb_true_iff, !andb_true_iff, !Z.ltb_lt, !Z.eqb_eq.
  intros [?|[? H1]] [?|[? H2]]; try (left; lia). right. split; [congruence|].
  destruct (memcmp (bid_hash a) (bid_hash b)) eqn:E1; try done.
  destruct (memcmp (bid_hash b) (bid_hash c)) eqn:E2; try done.
  by rewrite (memcmp_lt_trans _ _ _ E1 E2).
Qed.

Lemma before_total a b : block_id_before a b = false -> a = b \/ block_id_before b a = true.
Proof.
  unfold block_id_before. rewrite orb_false_iff, andb_false_iff, Z.ltb_ge, Z.eqb_neq. intros [Hle Hor].
  destruct (decide (bid_slot b < bid_slot a)) as [Hlt|Hge].
  { right. apply orb_true_iff. left. by apply Z.ltb_lt. }
  assert (bid_slot a = bid_slot b) as Es by lia. destruct Hor as [?|Hm]; [lia|].
  destruct (memcmp (bid_hash a) (bid_hash b)) eqn:Ec; [|done|].
  - left. apply memcmp_eq in Ec. destruct a, b; cbn in *; congruence.
  - right. rewrite Es, Z.eqb_refl, memcmp_antisym, Ec. by rewrite orb_true_r.
Qed.

Lemma fold_earliest ids id0 :
  let r := foldl (fun arg_min id => if block_id_before id arg_min then id else arg_min) id0 ids in
  r ∈ id0 :: ids /\ forall q, q ∈ id0 :: ids -> block_id_before q r = false.
Proof.
  revert id0. induction ids as [|id ids IH]; intros id0; cbn.
  - split; [constructor|]. intros q ->%list_elem_of_singleton. apply before_irrefl.
  - destruct (IH (if block_id_before id id0 then id else id0)) as [Hin Hmin].
    set (r := foldl _ _ ids) in *. split.
    + apply elem_of_cons in Hin as [->|Hin]; [case_if; set_solver|set_solver].
    + assert (block_id_before (if block_id_before id id0 then id else id0) r = false) as Hx
        by (apply Hmin; constructor).
      assert (forall a, a = id0 \/ a = id -> block_id_before a r = false) as Hboth.
      { intros a Ha. apply not_true_is_false. intros Hb.
        destruct (block_id_before id id0) eqn:E.
        - destruct Ha as [-> | ->]; [|congruence]. by rewrite (before_trans _ _ _ E Hb) in Hx.
        - destruct Ha as [-> | ->]; [congruence|]. apply before_total in E as [->|E]; [congruence|].
          by rewrite (before_trans _ _ _ E Hb) in Hx. }
      intros q [->|[->|Hq]%elem_of_cons]%elem_of_cons; [apply Hboth; by left|apply Hboth; by right|].
      apply Hmin. by constructor.
Qed.

(** the parent a leader is told to build on is ready for its window, and no
    ready parent of an unpruned slot precedes it in the order of slots and
    hashes; the answer is empty only when no unpruned parent is ready. *)
Theorem wait_for_parent_ready_earliest A self s :
  prt_inv A self ->
  match ag_parent_ready_tracker_wait_for_parent_ready self s with
  | Some p => ready A s p /\
      forall q, prt_root self <= bid_slot q -> ready A s q -> block_id_before q p = false
  | None => forall q, prt_root self <= bid_slot q -> ~ ready A s q
  end.
Proof.
  intros [HC HR]. unfold ag_parent_ready_tracker_wait_for_parent_ready.
  assert (forall q, prt_root self <= bid_slot q -> ready A s q -> q ∈ prs_ready_ids (view self s)) as Hc
    by (intros; by apply (pr_complete _ _ HR)).
  pose proof (pr_sound _ _ HR s) as Hs. pose proof (pc_ok _ _ HC s) as Hok.
  unfold view in Hc, Hs, Hok. destruct (prt_states self !! s) as [st|]; cbn in Hc, Hs, Hok.
  - unfold wait_for_parent_ready. unfold ok_state in Hok. destruct (prs_is_ready st) eqn:E.
    + destruct (prs_ready_ids st) as [|id0 ids]; [by specialize (proj2 Hok eq_refl)|].
      destruct (fold_earliest ids id0) as [Hin Hmin]. split; [by apply Hs|].
      intros q Hq Hrd. by apply Hmin, Hc.
    + rewrite (proj1 Hok eq_refl) in Hc. intros q Hq Hrd. by apply (Hc q Hq), elem_of_nil in Hrd.
  - intros q Hq Hrd. by apply (Hc q Hq), elem_of_nil in Hrd.
Qed.

(** ** Finalization events *)

Inductive mark := MNotar (id : ag_block_id_t) | MSkip (s : Z).

Definition mark_slot (k : mark) : Z := match k with MNotar id => bid_slot id | MSkip s => s end.

Definition marks (ev : ag_finalization_event_t) : list mark :=
  (MNotar <$> (option_list (fe_finalized ev) ++ fe_implicitly_finalized ev)) ++ (MSkip <$> fe_implicitly_skipped ev).

(** A mark below the root is ignored. *)
Definition apply_mark (root : Z) (A : certified) (k : mark) : certified :=
  if mark_slot k <? root then A else match k with MNotar id => add_notar A id | MSkip s => add_skip A s end.

Definition mark_step (cap : Z) (sb : prt_best) (k : mark) : outcome prt_best :=
  match k with
  | MNotar id => r ← ag_parent_ready_tracker_mark_notar_fallback cap sb.1 id; Ok (r.1, keep_highest sb.2 r.2)
  | MSkip s => r ← ag_parent_ready_tracker_mark_skipped cap sb.1 s; Ok (r.1, keep_highest sb.2 r.2)
  end.

Lemma ofold_fmap {A B S} (f : S -> B -> outcome S) (g : A -> B) s l :
  ofold f s (g <$> l) = ofold (fun s a => f s (g a)) s l.
Proof. revert s. induction l as [|a l IH]; intros s; cbn; [done|]. destruct (f s (g a)); cbn; auto. Qed.

Lemma handle_finalization_marks cap self ev :
  ag_parent_ready_tracker_handle_finalization cap self ev = ofold (mark_step cap) (self, None) (marks ev).
Proof.
  unfold ag_parent_ready_tracker_handle_finalization, marks.
  rewrite ofold_app, ofold_fmap, ofold_app. destruct (fe_finalized ev) as [id|]; cbn.
  - destruct (ag_parent_ready_tracker_mark_notar_fallback cap self id); cbn; [|done].
    destruct (ofold _ _ (fe_implicitly_finalized ev)); cbn; [by rewrite ofold_fmap|done].
  - destruct (ofold _ _ (fe_implicitly_finalized ev)); cbn; [by rewrite ofold_fmap|done].
Qed.

(** The best pair so far: newly ready, and no newly ready pair of an unpruned
    parent is for a later window. *)
Record best_of (root : Z) (A A' : certified) (best : option ag_parent_ready_t) : Prop := {
  bo_sound : forall r, best = Some r -> ready A' (pr_slot r) (pr_parent r) /\ ~ ready A (pr_slot r) (pr_parent r);
  bo_highest : forall s p, root <= bid_slot p -> ready A' s p -> ~ ready A s p ->
    exists r, best = Some r /\ s <= pr_slot r
}.

Lemma keep_highest_spec best out :
  (forall r, keep_highest best out = Some r -> best = Some r \/ r ∈ out) /\
  (forall r, best = Some r \/ r ∈ out -> exists r', keep_highest best out = Some r' /\ pr_slot r <= pr_slot r').
Proof.
  unfold keep_highest. revert best. induction out as [|x out IH]; intros best; cbn.
  - split; [by left|]. intros r [->|Hr]; [by exists r|by apply elem_of_nil in Hr].
  - set (b := match best with None => Some x | Some b => if pr_slot b <=? pr_slot x then Some x else Some b end).
    destruct (IH b) as [H1 H2]. split.
    + intros r Hr. apply H1 in Hr as [Hr|Hr]; [|right; by constructor]. unfold b in Hr.
      destruct best as [b0|]; [destruct (pr_slot b0 <=? pr_slot x)|]; injection Hr as <-;
        (by left) || (right; constructor).
    + intros r Hr. assert (exists y, b = Some y /\ (best = Some r \/ r = x -> pr_slot r <= pr_slot y)) as (y & Hy & Hle).
      { unfold b. destruct best as [b0|]; [destruct (Z.leb_spec (pr_slot b0) (pr_slot x))|];
          eexists; (split; [done|]); (intros [[= <-] | ->]; lia) || (intros [? | ->]; [done|lia]). }
      destruct Hr as [Hr|[->|Hr]%elem_of_cons].
      * destruct (H2 y (or_introl Hy)) as (r' & ? & ?). exists r'. split; [done|].
        specialize (Hle (or_introl Hr)). lia.
      * destruct (H2 y (or_introl Hy)) as (r' & ? & ?). exists r'. split; [done|].
        specialize (Hle (or_intror eq_refl)). lia.
      * by apply H2; right.
Qed.

Lemma best_extend root A A1 A2 best out :
  best_of root A A1 best -> reports root A1 A2 out ->
  (forall s p, ready A s p -> ready A1 s p) -> (forall s p, ready A1 s p -> ready A2 s p) ->
  best_of root A A2 (keep_highest best out).
Proof.
  intros [Hb1 Hb2] [_ Hr1 Hr2] Hm1 Hm2. destruct (keep_highest_spec best out) as [Hk1 Hk2]. split.
  - intros r Hr. destruct (Hk1 r Hr) as [Hr'|Hr'].
    + destruct (Hb1 r Hr'). auto.
    + destruct r as [s p]. destruct (Hr1 s p Hr') as [? Hn]. cbn. split; [done|]. intros Ha. by apply Hn, Hm1.
  - intros s p Hp Hy Hn. destruct (decide (ready A1 s p)) as [Ha|Ha].
    + destruct (Hb2 s p Hp Ha Hn) as (r & Hr & Hle). destruct (Hk2 r (or_introl Hr)) as (r' & ? & ?).
      exists r'. split; [done|lia].
    + destruct (Hk2 (mk_parent_ready s p)) as (r' & ? & ?); [right; by apply Hr2|]. eauto.
Qed.

Lemma apply_mark_mono root A k s p : ready A s p -> ready (apply_mark root A k) s p.
Proof.
  intros Hr. unfold apply_mark. case_if; [done|]. destruct k as [id|m].
  - apply add_notar_ready. by left.
  - destruct Hr. split; [done|]. by apply reach_add_skip.
Qed.

Lemma marks_mono root ks A s p : ready A s p -> ready (foldl (apply_mark root) A ks) s p.
Proof. revert A. induction ks as [|k ks IH]; intros A Hr; cbn; [done|]. by apply IH, apply_mark_mono. Qed.

Lemma marks_subset root ks A :
  ce_notar A ⊆ ce_notar (foldl (apply_mark root) A ks) /\ ce_skip A ⊆ ce_skip (foldl (apply_mark root) A ks).
Proof.
  revert A. induction ks as [|k ks IH]; intros A; cbn; [done|].
  destruct (IH (apply_mark root A k)) as [H1 H2]. unfold apply_mark in *.
  destruct (mark_slot k <? root); [done|]. destruct k; cbn in *; set_solver.
Qed.

(** Fewer certificates fit whenever more do. *)
Lemma fits_subset A B : ce_notar A ⊆ ce_notar B -> ce_skip A ⊆ ce_skip B -> fits B -> fits A.
Proof.
  intros H1 H2 [Hr Hn]. split.
  - intros s l Hnd Hl. apply (Hr s); [done|]. intros p Hp. destruct (Hl p Hp) as (? & ? & ?).
    split; [set_solver|]. split; [done|]. intros t Ht. set_solver.
  - intros s l Hnd Hl. apply (Hn s); [done|]. intros h Hh. set_solver.
Qed.

Lemma mark_step_spec cap A self best k root :
  prt_inv A self -> prt_root self = root -> fits (apply_mark root A k) -> mark_slot k < ULONG_MAX ->
  READY_IDS_MAX * (Z.of_nat (size (prt_states self)) + 4) <= Z.min cap (prt_max self) ->
  exists self' out, mark_step cap (self, best) k = Ok (self', keep_highest best out) /\
    prt_inv (apply_mark root A k) self' /\ grows 3 self self' /\ reports root A (apply_mark root A k) out.
Proof.
  intros HI <- Hf Hs Hsz. assert (READY_IDS_MAX = 16) as E16 by done.
  unfold apply_mark in *. destruct (Z.ltb_spec (mark_slot k) (prt_root self)) as [Hlt|Hge].
  - exists self, []. split; [|split; [done|split; [split; (done || lia)|apply reports_nil]]].
    destruct k; cbn in Hlt |- *.
    + unfold ag_parent_ready_tracker_mark_notar_fallback. by rewrite (proj2 (Z.ltb_lt _ _) Hlt).
    + unfold ag_parent_ready_tracker_mark_skipped. by rewrite (proj2 (Z.ltb_lt _ _) Hlt).
  - destruct k as [id|m]; cbn in Hs, Hge |- *.
    + destruct (mark_notar_any A self id cap HI Hf ltac:(lia) ltac:(lia)) as (self' & out & -> & ? & [] & ?).
      exists self', out. split_and!; try done. split; (done || lia).
    + destruct (mark_skip_any A self m cap HI Hf ltac:(lia) ltac:(lia)) as (self' & out & -> & ? & ? & ?).
      by exists self', out.
Qed.

Lemma marks_spec cap A0 A self best ks root :
  prt_inv A self -> prt_root self = root -> best_of root A0 A best -> (forall s p, ready A0 s p -> ready A s p) ->
  fits (foldl (apply_mark root) A ks) -> Forall (fun k => mark_slot k < ULONG_MAX) ks ->
  READY_IDS_MAX * (Z.of_nat (size (prt_states self)) + 3 * Z.of_nat (length ks) + 4) <= Z.min cap (prt_max self) ->
  exists self' best', ofold (mark_step cap) (self, best) ks = Ok (self', best') /\
    prt_inv (foldl (apply_mark root) A ks) self' /\ prt_root self' = root /\
    best_of root A0 (foldl (apply_mark root) A ks) best'.
Proof.
  assert (READY_IDS_MAX = 16) as E16 by done. revert A self best.
  induction ks as [|k ks IH]; intros A self best HI Hroot Hb Hm Hf Hks Hsz; cbn [ofold foldl] in *; [by exists self, best|].
  apply Forall_cons in Hks as [Hk Hks]. cbn [length] in Hsz.
  destruct (marks_subset root ks (apply_mark root A k)) as [Hs1 Hs2].
  destruct (mark_step_spec cap A self best k root HI Hroot) as (self1 & out & -> & HI1 & [Hr1 Hm1 Hz1] & Hrep);
    [by eapply fits_subset|done|lia|].
  cbn [mbind outcome_bind]. apply IH; [done|congruence| |by intros; apply apply_mark_mono, Hm|done|done|].
  - eapply best_extend; [exact Hb|exact Hrep|done|]. intros. by apply apply_mark_mono.
  - rewrite Hm1. lia.
Qed.

(** a finalization event returns, refines the marks it carries (the
    finalized block, the implicitly finalized blocks, the implicitly skipped
    slots, in this order, those below the root ignored), and answers with the
    newly ready parent of the latest window, if there is a newly ready parent. *)
Theorem parent_ready_handle_finalization_refines cap A self ev :
  prt_inv A self -> fits (foldl (apply_mark (prt_root self)) A (marks ev)) ->
  Forall (fun k => mark_slot k < ULONG_MAX) (marks ev) ->
  READY_IDS_MAX * (Z.of_nat (size (prt_states self)) + 3 * Z.of_nat (length (marks ev)) + 4)
    <= Z.min cap (prt_max self) ->
  exists self' best, ag_parent_ready_tracker_handle_finalization cap self ev = Ok (self', best) /\
    prt_inv (foldl (apply_mark (prt_root self)) A (marks ev)) self' /\
    best_of (prt_root self) A (foldl (apply_mark (prt_root self)) A (marks ev)) best.
Proof.
  intros HI Hf Hs Hsz. rewrite handle_finalization_marks.
  destruct (marks_spec cap A A self None (marks ev) (prt_root self)) as (self' & best & ? & ? & _ & ?);
    [done|done|split; [done|intros; done]|done|done|done|done|]. eauto.
Qed.

(** * Concrete runs *)

Lemma fits_of_size A : Z.of_nat (size (ce_notar A)) <= AG_NOTAR_FALLBACK_CERT_MAX -> fits A.
Proof.
  intros Hsz.
  assert (forall l, NoDup l -> (forall p, p ∈ l -> p ∈ ce_notar A) ->
    Z.of_nat (length l) <= AG_NOTAR_FALLBACK_CERT_MAX) as Hl.
  { intros l Hnd Hl. etrans; [|exact Hsz]. rewrite <- (size_list_to_set (C := gset ag_block_id_t) l) by done.
    apply inj_le, subseteq_size. intros p Hp. apply Hl. by apply elem_of_list_to_set in Hp. }
  split.
  - intros s l Hnd Hr. etrans; [apply Hl; [done|]|by unfold READY_IDS_MAX].
    intros p Hp. by apply Hr.
  - intros s l Hnd Hr. rewrite <- (length_fmap (ag_block_id s)). apply Hl.
    + apply NoDup_fmap_2; [by intros ? ? [= ->]|done].
    + intros p (h & -> & Hh)%list_elem_of_fmap. by apply Hr.
Qed.

Definition sample_id : ag_block_id_t := ag_block_id 5 zero_hash.
Definition sample_tracker : ag_parent_ready_tracker_t := mk_prt ∅ 4 256.

Lemma mark_notar_fallback_refines_witness :
  exists self' out, ag_parent_ready_tracker_mark_notar_fallback 256 sample_tracker sample_id = Ok (self', out) /\
    prt_inv (add_notar certified_empty sample_id) self' /\
    reports 4 certified_empty (add_notar certified_empty sample_id) out.
Proof.
  apply (mark_notar_fallback_refines certified_empty sample_tracker sample_id 256).
  - apply prt_inv_init. lia.
  - apply fits_of_size. vm_compute. discriminate.
  - vm_compute. split; [discriminate|reflexivity].
  - vm_compute. discriminate.
Defined.

(** The tracker after one block: its slot, and the slot after it. *)
Definition sample_tracker2 : ag_parent_ready_tracker_t :=
  mk_prt (<[6 := mk_pr_state false [] false []]> (<[5 := mk_pr_state false [zero_hash] false []]> ∅)) 4 256.

Lemma sample_tracker2_inv : prt_inv (add_notar certified_empty sample_id) sample_tracker2.
Proof.
  destruct (mark_notar_any certified_empty sample_tracker sample_id 256) as (self' & out & E & HI & _).
  - apply prt_inv_init. lia.
  - apply fits_of_size. vm_compute. discriminate.
  - vm_compute. split; [discriminate|reflexivity].
  - vm_compute. discriminate.
  - vm_compute in E. injection E as <- <-. exact HI.
Qed.

Lemma mark_skipped_refines_witness :
  exists self' out, ag_parent_ready_tracker_mark_skipped 256 sample_tracker2 6 = Ok (self', out) /\
    prt_inv (add_skip (add_notar certified_empty sample_id) 6) self' /\
    reports 4 (add_notar certified_empty sample_id) (add_skip (add_notar certified_empty sample_id) 6) out.
Proof.
  apply (mark_skipped_refines (add_notar certified_empty sample_id) sample_tracker2 6 256).
  - apply sample_tracker2_inv.
  - apply fits_of_size. vm_compute. discriminate.
  - vm_compute. split; [discriminate|reflexivity].
  - vm_compute. discriminate.
Defined.

Lemma parent_ready_prune_refines_witness :
  prt_inv (add_notar certified_empty sample_id) (ag_parent_ready_tracker_prune sample_tracker2 5) /\
  forall s, 5 <= s -> ag_parent_ready_tracker_parents_ready (ag_parent_ready_tracker_prune sample_tracker2 5) s
                    = ag_parent_ready_tracker_parents_ready sample_tracker2 s.
Proof. apply parent_ready_prune_refines; [apply sample_tracker2_inv|vm_compute; discriminate]. Defined.

Lemma wait_for_parent_ready_earliest_witness :
  match ag_parent_ready_tracker_wait_for_parent_ready sample_tracker2 8 with
  | Some p => ready (add_notar certified_empty sample_id) 8 p /\
      forall q, 4 <= bid_slot q -> ready (add_notar certified_empty sample_id) 8 q -> block_id_before q p = false
  | None => forall q, 4 <= bid_slot q -> ~ ready (add_notar certified_empty sample_id) 8 q
  end.
Proof. apply (wait_for_parent_ready_earliest _ sample_tracker2 8). apply sample_tracker2_inv. Defined.

Definition sample_finalization : ag_finalization_event_t :=
  mk_fevent (Some (ag_block_id 9 zero_hash)) [sample_id] [6; 7; 8] 256.

Lemma parent_ready_handle_finalization_refines_witness :
  let A' := foldl (apply_mark 4) (add_notar certified_empty sample_id) (marks sample_finalization) in
  exists self' best,
    ag_parent_ready_tracker_handle_finalization 512 (mk_prt (prt_states sample_tracker2) 4 512) sample_finalization
      = Ok (self', best) /\
    prt_inv A' self' /\ best_of 4 (add_notar certified_empty sample_id) A' best.
Proof.
  apply (parent_ready_handle_finalization_refines 512 (add_notar certified_empty sample_id)
           (mk_prt (prt_states sample_tracker2) 4 512)).
  - destruct sample_tracker2_inv as [[] []]. split; split; assumption.
  - apply fits_of_size. vm_compute. discriminate.
  - repeat constructor.
  - vm_compute. discriminate.
Defined.

(** The fixed arrays are too small for parents of several windows.  Four
    notarized-fallback blocks in each slot of a window whose slots are all
    skipped, and one more block before the window: *)
Definition crowded : list mark :=
  (s ← range 4 8; k ← range 0 4; [MNotar (ag_block_id s (replicate 31 0 ++ [k]))]) ++ (MSkip <$> range 4 8).

(** [add_to_ready] writes past the sixteen entries of [ready_ids] when a
    seventeenth parent becomes ready, and [mark_skipped] ends the process when
    the parents it inherits exceed its array. *)
Theorem ready_ids_overflow :
  ofold (mark_step 256) (mk_prt ∅ 0 256, None) (crowded ++ [MNotar (ag_block_id 3 zero_hash)]) = Fail OutOfBounds /\
  ofold (mark_step 256) (mk_prt ∅ 0 256, None) (crowded ++ [MNotar (ag_block_id 8 zero_hash); MSkip 8; MSkip 9])
    = Fail FdTest.
Proof. split; vm_compute; reflexivity. Qed.
