(* ===== verification/SlotState.v ===== *)
(** Per-slot vote counting (src/src/choreo/votor/ag_slot_state.h,
    ag_slot_state.c) and the events it emits (ag_event.h).

    The vote arrays keep the C representation: [AG_VAT_MAX] entries, a vote
    absent when its slot is [ULONG_MAX].  The scratch [cert_builder] only holds
    the vote lists while a certificate is built and has no counterpart here. *)
From S2P Require Import Prelude VotorBase Bls Vote EpochInfo Cert ParentReady.

(** * Events *)


Record ag_standstill_t := mk_standstill {
  ss_slot : Z; ss_certs : list ag_cert_t; ss_votes : list ag_vote_t }.

Inductive ag_event_pool_kind :=
| ParentReady (r : ag_parent_ready_t)
| SafeToNotar (b : ag_block_id_t)
| SafeToSkip (slot : Z)
| CertCreated (c : ag_cert_t)
| Standstill (s : ag_standstill_t).

Record ag_event_pool_t := mk_event_pool { ep_seq : Z; ep_ts : Z; ep_kind : ag_event_pool_kind }.
Record ag_event_repair_t := mk_event_repair { er_seq : Z; er_ts : Z; er_block : ag_block_id_t }.

(** * State *)

#[export] Instance notar_inhabited : Inhabited ag_vote_notar_t :=
  populate (mk_notar ULONG_MAX zero_hash zero_sig 0).
#[export] Instance skip_inhabited : Inhabited ag_vote_skip_t :=
  populate (mk_skip ULONG_MAX zero_sig 0).
#[export] Instance skip_fallback_inhabited : Inhabited ag_vote_skip_fallback_t :=
  populate (mk_skip_fallback ULONG_MAX zero_sig 0).
#[export] Instance final_inhabited : Inhabited ag_vote_final_t :=
  populate (mk_final ULONG_MAX zero_sig 0).

Record ag_hashstake_t := mk_hashstake { hs_hash : ag_block_hash_t; hs_stake : Z }.

Inductive parent_status_kind := ParentKnown | ParentCertified.
Record ag_parent_status_t := mk_parent_status { ps_hash : ag_block_hash_t; ps_kind : parent_status_kind }.

(** [notar_fallback[i][0..notar_fallback_cnt[i])] is the list at index [i]. *)
Record ag_slot_votes_t := mk_slot_votes {
  sv_notar : list ag_vote_notar_t;
  sv_notar_fallback : list (list ag_vote_notar_fallback_t);
  sv_skip : list ag_vote_skip_t;
  sv_skip_fallback : list ag_vote_skip_fallback_t;
  sv_finalize : list ag_vote_final_t
}.

Record ag_slot_voted_stake_t := mk_voted_stake {
  vk_notar : list ag_hashstake_t;
  vk_notar_fallback : list ag_hashstake_t;
  vk_skip : Z;
  vk_skip_fallback : Z;
  vk_finalize : Z;
  vk_notar_or_skip : Z;
  vk_top_notar : Z
}.

Record ag_slot_certs_t := mk_slot_certs {
  sc_notar : ag_cert_notar_t;
  sc_notar_fallback : list ag_cert_notar_fallback_t;
  sc_skip : ag_cert_skip_t;
  sc_fast_finalize : ag_cert_fast_final_t;
  sc_finalize : ag_cert_final_t
}.

Record ag_slot_state_t := mk_slot_state {
  ss_votes_ : ag_slot_votes_t;
  ss_voted_stakes : ag_slot_voted_stake_t;
  ss_certs_ : ag_slot_certs_t;
  ss_parents : list ag_parent_status_t;
  ss_pending_safe_to_notar : list ag_block_hash_t;
  ss_sent_safe_to_notar : list ag_block_hash_t;
  ss_sent_safe_to_skip : bool;
  ss_slot_ : Z;
  ss_own_rank : Z;
  ss_epoch_info : ag_epoch_info_t
}.

(** Field updates. *)
Definition set_votes (s : ag_slot_state_t) v :=
  mk_slot_state v (ss_voted_stakes s) (ss_certs_ s) (ss_parents s) (ss_pending_safe_to_notar s)
    (ss_sent_safe_to_notar s) (ss_sent_safe_to_skip s) (ss_slot_ s) (ss_own_rank s) (ss_epoch_info s).
Definition set_voted_stakes (s : ag_slot_state_t) k :=
  mk_slot_state (ss_votes_ s) k (ss_certs_ s) (ss_parents s) (ss_pending_safe_to_notar s)
    (ss_sent_safe_to_notar s) (ss_sent_safe_to_skip s) (ss_slot_ s) (ss_own_rank s) (ss_epoch_info s).
Definition set_certs (s : ag_slot_state_t) c :=
  mk_slot_state (ss_votes_ s) (ss_voted_stakes s) c (ss_parents s) (ss_pending_safe_to_notar s)
    (ss_sent_safe_to_notar s) (ss_sent_safe_to_skip s) (ss_slot_ s) (ss_own_rank s) (ss_epoch_info s).
Definition set_parents (s : ag_slot_state_t) p :=
  mk_slot_state (ss_votes_ s) (ss_voted_stakes s) (ss_certs_ s) p (ss_pending_safe_to_notar s)
    (ss_sent_safe_to_notar s) (ss_sent_safe_to_skip s) (ss_slot_ s) (ss_own_rank s) (ss_epoch_info s).
Definition set_s2n (s : ag_slot_state_t) pending sent :=
  mk_slot_state (ss_votes_ s) (ss_voted_stakes s) (ss_certs_ s) (ss_parents s) pending
    sent (ss_sent_safe_to_skip s) (ss_slot_ s) (ss_own_rank s) (ss_epoch_info s).
Definition set_sent_skip (s : ag_slot_state_t) b :=
  mk_slot_state (ss_votes_ s) (ss_voted_stakes s) (ss_certs_ s) (ss_parents s)
    (ss_pending_safe_to_notar s) (ss_sent_safe_to_notar s) b (ss_slot_ s) (ss_own_rank s) (ss_epoch_info s).

Definition ag_slot_state_zero (slot : Z) (epoch_info : ag_epoch_info_t) (own_rank : Z) : ag_slot_state_t :=
  let n := Z.to_nat AG_VAT_MAX in
  mk_slot_state
    (mk_slot_votes (replicate n inhabitant) (replicate n []) (replicate n inhabitant)
       (replicate n inhabitant) (replicate n inhabitant))
    (mk_voted_stake [] [] 0 0 0 0 0)
    (mk_slot_certs (mk_cert_notar ULONG_MAX zero_hash ag_bls_agg_zero 0) []
       (mk_cert_skip ULONG_MAX ag_bls_agg_zero ag_bls_agg_zero 0)
       (mk_cert_fast_final ULONG_MAX zero_hash ag_bls_agg_zero 0)
       (mk_cert_final ULONG_MAX ag_bls_agg_zero 0))
    [] [] [] false slot own_rank epoch_info.

(** Array reads: [v->notar[ i ]] and the like. *)
Definition notar_at (v : ag_slot_votes_t) (i : Z) : ag_vote_notar_t := sv_notar v !!! Z.to_nat i.
Definition notar_fallback_at (v : ag_slot_votes_t) (i : Z) : list ag_vote_notar_fallback_t :=
  sv_notar_fallback v !!! Z.to_nat i.
Definition skip_at (v : ag_slot_votes_t) (i : Z) : ag_vote_skip_t := sv_skip v !!! Z.to_nat i.
Definition skip_fallback_at (v : ag_slot_votes_t) (i : Z) : ag_vote_skip_fallback_t :=
  sv_skip_fallback v !!! Z.to_nat i.
Definition finalize_at (v : ag_slot_votes_t) (i : Z) : ag_vote_final_t := sv_finalize v !!! Z.to_nat i.

(** [slot!=ULONG_MAX], the presence test. *)
Definition present (slot : Z) : bool := negb (slot =? ULONG_MAX).

(** * Stake per hash, and small hash sets *)

Fixpoint ag_slot_state_stake (ele : list ag_hashstake_t) (hash : ag_block_hash_t) : Z :=
  match ele with
  | [] => 0
  | e :: ele' => if hash_eqb (hs_hash e) hash then hs_stake e else ag_slot_state_stake ele' hash
  end.

Definition AG_NOTAR_STAKE_MAX : Z := AG_VAT_MAX.
Definition AG_NOTAR_FALLBACK_STAKE_MAX : Z := AG_VAT_MAX * AG_NOTAR_FALLBACK_VOTE_MAX.

(** Returns the new array and the hash's new total. *)
Fixpoint hashstake_add_at (ele : list ag_hashstake_t) (hash : ag_block_hash_t) (stake : Z)
    : option (list ag_hashstake_t * Z) :=
  match ele with
  | [] => None
  | e :: ele' =>
      if hash_eqb (hs_hash e) hash then
        let total := hs_stake e +w stake in Some (mk_hashstake (hs_hash e) total :: ele', total)
      else match hashstake_add_at ele' hash stake with
           | Some (r, total) => Some (e :: r, total)
           | None => None
           end
  end.

Definition hashstake_add (ele : list ag_hashstake_t) (cap : Z) (hash : ag_block_hash_t) (stake : Z)
    : outcome (list ag_hashstake_t * Z) :=
  match hashstake_add_at ele hash stake with
  | Some r => Ok r
  | None =>
      check FdTest (Z.of_nat (length ele) <? cap);;
      let total := 0 +w stake in
      Ok (ele ++ [mk_hashstake hash total], total)
  end.

Definition set_contains (set : list ag_block_hash_t) (hash : ag_block_hash_t) : bool :=
  existsb (fun h => hash_eqb h hash) set.

Definition set_insert (set : list ag_block_hash_t) (hash : ag_block_hash_t)
    : outcome (list ag_block_hash_t) :=
  if set_contains set hash then Ok set else
  check FdTest (Z.of_nat (length set) <? AG_EQVOC_BLOCK_HASH_MAX);;
  Ok (set ++ [hash]).

(** The removed entry is overwritten by the last one. *)
Fixpoint set_remove (set : list ag_block_hash_t) (hash : ag_block_hash_t) : list ag_block_hash_t :=
  match set with
  | [] => []
  | h :: set' =>
      if hash_eqb h hash then
        match last set' with
        | None => []
        | Some l => l :: removelast set'
        end
      else h :: set_remove set' hash
  end.

(** * Certificates held *)

Definition ag_slot_state_is_notar_fallback (self : ag_slot_state_t) (block_hash : ag_block_hash_t) : bool :=
  existsb (fun c => hash_eqb (cnf_block_hash c) block_hash) (sc_notar_fallback (ss_certs_ self)).

Definition ag_slot_state_is_notar_fallback_or_stronger (self : ag_slot_state_t)
    (block_hash : ag_block_hash_t) : bool :=
  let c := ss_certs_ self in
  let has_notar_cert := present (cn_slot (sc_notar c)) && hash_eqb (cn_block_hash (sc_notar c)) block_hash in
  let has_fast_final_cert :=
    present (cff_slot (sc_fast_finalize c)) && hash_eqb (cff_block_hash (sc_fast_finalize c)) block_hash in
  has_notar_cert || has_fast_final_cert || ag_slot_state_is_notar_fallback self block_hash.

(** * Safe to notarize *)

Inductive safe_to_notar_status := StSafeToNotar | StMissingBlock | StAwaitingVotes.

Definition find_parent (ps : list ag_parent_status_t) (h : ag_block_hash_t) : option ag_parent_status_t :=
  snd <$> list_find (fun p => ps_hash p = h) ps.

Definition to_pending (self : ag_slot_state_t) (h : ag_block_hash_t) : outcome ag_slot_state_t :=
  pending ← set_insert (ss_pending_safe_to_notar self) h;
  Ok (set_s2n self pending (ss_sent_safe_to_notar self)).

Definition to_sent (self : ag_slot_state_t) (h : ag_block_hash_t) : outcome ag_slot_state_t :=
  sent ← set_insert (ss_sent_safe_to_notar self) h;
  Ok (set_s2n self (set_remove (ss_pending_safe_to_notar self) h) sent).

Definition check_safe_to_notar (self : ag_slot_state_t) (block_hash : ag_block_hash_t)
    : outcome (ag_slot_state_t * safe_to_notar_status) :=
  let ei := ss_epoch_info self in
  let notar_stake := ag_slot_state_stake (vk_notar (ss_voted_stakes self)) block_hash in
  let skip_stake := vk_skip (ss_voted_stakes self) in
  if negb (ag_epoch_info_is_weakest_quorum ei notar_stake) then Ok (self, StAwaitingVotes) else
  if negb (ag_epoch_info_is_weak_quorum ei notar_stake) &&
     negb (ag_epoch_info_is_quorum ei (notar_stake +w skip_stake)) then
    s ← to_pending self block_hash; Ok (s, StAwaitingVotes)
  else
  match find_parent (ss_parents self) block_hash with
  | None => Ok (self, StMissingBlock)
  | Some parent =>
      match ps_kind parent with
      | ParentKnown => Ok (self, StAwaitingVotes)
      | ParentCertified =>
          let v := ss_votes_ self in
          let own := ss_own_rank self in
          if negb (own =? USHORT_MAX) && present (vs_slot (skip_at v own)) then
            s ← to_sent self block_hash; Ok (s, StSafeToNotar)
          else if negb (own =? USHORT_MAX) && present (vn_slot (notar_at v own)) then
            if negb (hash_eqb (vn_block_hash (notar_at v own)) block_hash) then
              s ← to_sent self block_hash; Ok (s, StSafeToNotar)
            else Ok (self, StAwaitingVotes)
          else
            s ← to_pending self block_hash; Ok (s, StAwaitingVotes)
      end
  end.

(** * Outputs: three fixed arrays of three entries *)

Definition AG_SLOT_STATE_OUT_CERT_MAX : Z := 3.
Definition AG_SLOT_STATE_OUT_EVENT_MAX : Z := 3.
Definition AG_SLOT_STATE_OUT_REPAIR_MAX : Z := 3.

Record ag_slot_state_outputs_t := mk_outputs {
  out_certs : list ag_cert_t;
  out_events : list ag_event_pool_kind;
  out_repairs : list ag_block_id_t
}.

Definition no_outputs : ag_slot_state_outputs_t := mk_outputs [] [] [].

Definition push_cert (o : ag_slot_state_outputs_t) (c : ag_cert_t) : outcome ag_slot_state_outputs_t :=
  check OutOfBounds (Z.of_nat (length (out_certs o)) <? AG_SLOT_STATE_OUT_CERT_MAX);;
  Ok (mk_outputs (out_certs o ++ [c]) (out_events o) (out_repairs o)).
Definition push_event (o : ag_slot_state_outputs_t) (e : ag_event_pool_kind) : outcome ag_slot_state_outputs_t :=
  check OutOfBounds (Z.of_nat (length (out_events o)) <? AG_SLOT_STATE_OUT_EVENT_MAX);;
  Ok (mk_outputs (out_certs o) (out_events o ++ [e]) (out_repairs o)).
Definition push_repair (o : ag_slot_state_outputs_t) (b : ag_block_id_t) : outcome ag_slot_state_outputs_t :=
  if existsb (fun r => hash_eqb (bid_hash r) (bid_hash b)) (out_repairs o) then Ok o else
  check OutOfBounds (Z.of_nat (length (out_repairs o)) <? AG_SLOT_STATE_OUT_REPAIR_MAX);;
  Ok (mk_outputs (out_certs o) (out_events o) (out_repairs o ++ [b])).

(** The switch on the result of [check_safe_to_notar]. *)
Definition emit_s2n (slot : Z) (h : ag_block_hash_t) (st : safe_to_notar_status)
    (o : ag_slot_state_outputs_t) : outcome ag_slot_state_outputs_t :=
  match st with
  | StSafeToNotar => push_event o (SafeToNotar (ag_block_id slot h))
  | StMissingBlock => push_repair o (ag_block_id slot h)
  | StAwaitingVotes => Ok o
  end.

Definition try_s2n (slot : Z) (so : ag_slot_state_t * ag_slot_state_outputs_t) (h : ag_block_hash_t)
    : outcome (ag_slot_state_t * ag_slot_state_outputs_t) :=
  let '(self, o) := so in
  if set_contains (ss_sent_safe_to_notar self) h then Ok (self, o) else
  r ← check_safe_to_notar self h;
  o' ← emit_s2n slot h r.2 o;
  Ok (r.1, o').

(** The loop over a snapshot of the pending set. *)
Definition process_pending (slot : Z) (self : ag_slot_state_t) (o : ag_slot_state_outputs_t)
    : outcome (ag_slot_state_t * ag_slot_state_outputs_t) :=
  ofold (try_s2n slot) (self, o) (ss_pending_safe_to_notar self).

Definition try_s2s (slot : Z) (self : ag_slot_state_t) (o : ag_slot_state_outputs_t)
    : outcome (ag_slot_state_t * ag_slot_state_outputs_t) :=
  let k := ss_voted_stakes self in
  if negb (ss_sent_safe_to_skip self)
     && ag_epoch_info_is_weak_quorum (ss_epoch_info self) (vk_notar_or_skip k -w vk_top_notar k)
     && negb (ss_own_rank self =? USHORT_MAX)
     && present (vn_slot (notar_at (ss_votes_ self) (ss_own_rank self)))
  then o' ← push_event o (SafeToSkip slot); Ok (set_sent_skip self true, o')
  else Ok (self, o).

(** * Collecting the votes of a certificate *)

Definition notar_votes (self : ag_slot_state_t) (h : ag_block_hash_t) : list ag_vote_notar_t :=
  omap (fun i => let v := notar_at (ss_votes_ self) i in
                 if present (vn_slot v) && hash_eqb (vn_block_hash v) h then Some v else None)
    (range 0 (ei_validator_cnt (ss_epoch_info self))).

Definition notar_fallback_votes (self : ag_slot_state_t) (h : ag_block_hash_t)
    : list ag_vote_notar_fallback_t :=
  omap (fun i => snd <$> list_find (fun v => vnf_block_hash v = h) (notar_fallback_at (ss_votes_ self) i))
    (range 0 (ei_validator_cnt (ss_epoch_info self))).

Definition skip_votes (self : ag_slot_state_t) : list ag_vote_skip_t :=
  omap (fun i => let v := skip_at (ss_votes_ self) i in if present (vs_slot v) then Some v else None)
    (range 0 (ei_validator_cnt (ss_epoch_info self))).

Definition skip_fallback_votes (self : ag_slot_state_t) : list ag_vote_skip_fallback_t :=
  omap (fun i => let v := skip_fallback_at (ss_votes_ self) i in
                 if present (vsf_slot v) then Some v else None)
    (range 0 (ei_validator_cnt (ss_epoch_info self))).

Definition final_votes (self : ag_slot_state_t) : list ag_vote_final_t :=
  omap (fun i => let v := finalize_at (ss_votes_ self) i in if present (vf_slot v) then Some v else None)
    (range 0 (ei_validator_cnt (ss_epoch_info self))).

Section Counting.
Context `{BlsOps}.

(** * Counting a vote *)

Definition try_notar_fallback_cert (self : ag_slot_state_t) (h : ag_block_hash_t) (stake : Z)
    (o : ag_slot_state_outputs_t) : outcome ag_slot_state_outputs_t :=
  let ei := ss_epoch_info self in
  if ag_epoch_info_is_quorum ei stake && negb (ag_slot_state_is_notar_fallback self h) then
    cert ← construct_notar_fallback (notar_votes self h) (notar_fallback_votes self h) ei;
    if ag_epoch_info_is_quorum ei (cnf_stake cert) then push_cert o (CNotarFallback cert) else Ok o
  else Ok o.

Definition count_notar_stake (self : ag_slot_state_t) (slot : Z) (block_hash : ag_block_hash_t)
    (stake : Z) : outcome (ag_slot_state_t * ag_slot_state_outputs_t) :=
  let ei := ss_epoch_info self in
  let k := ss_voted_stakes self in
  r ← hashstake_add (vk_notar k) AG_NOTAR_STAKE_MAX block_hash stake;
  let notar_stake := r.2 in
  let self := set_voted_stakes self
    (mk_voted_stake r.1 (vk_notar_fallback k) (vk_skip k) (vk_skip_fallback k) (vk_finalize k)
       (vk_notar_or_skip k +w stake) (Z.max notar_stake (vk_top_notar k))) in
  so ← try_s2n slot (self, no_outputs) block_hash;
  so ← try_s2s slot so.1 so.2;
  let self := so.1 in
  let nf_stake := ag_slot_state_stake (vk_notar_fallback (ss_voted_stakes self)) block_hash in
  o ← try_notar_fallback_cert self block_hash (nf_stake +w notar_stake) so.2;
  o ← (if ag_epoch_info_is_quorum ei notar_stake
          && negb (present (cn_slot (sc_notar (ss_certs_ self))))
       then cert ← ag_cert_construct_notar (notar_votes self block_hash) ei; push_cert o cert
       else Ok o);
  o ← (if ag_epoch_info_is_strong_quorum ei notar_stake
          && negb (present (cff_slot (sc_fast_finalize (ss_certs_ self))))
       then cert ← ag_cert_construct_fast_final (notar_votes self block_hash) ei; push_cert o cert
       else Ok o);
  Ok (self, o).

Definition count_notar_fallback_stake (self : ag_slot_state_t) (block_hash : ag_block_hash_t)
    (stake : Z) : outcome (ag_slot_state_t * ag_slot_state_outputs_t) :=
  let k := ss_voted_stakes self in
  r ← hashstake_add (vk_notar_fallback k) AG_NOTAR_FALLBACK_STAKE_MAX block_hash stake;
  let self := set_voted_stakes self
    (mk_voted_stake (vk_notar k) r.1 (vk_skip k) (vk_skip_fallback k) (vk_finalize k)
       (vk_notar_or_skip k) (vk_top_notar k)) in
  let notar_stake := ag_slot_state_stake (vk_notar (ss_voted_stakes self)) block_hash in
  o ← try_notar_fallback_cert self block_hash (r.2 +w notar_stake) no_outputs;
  Ok (self, o).

Definition count_skip_stake (self : ag_slot_state_t) (slot stake : Z) (fallback : bool)
    : outcome (ag_slot_state_t * ag_slot_state_outputs_t) :=
  let ei := ss_epoch_info self in
  let k := ss_voted_stakes self in
  let self := set_voted_stakes self
    (if fallback then
       mk_voted_stake (vk_notar k) (vk_notar_fallback k) (vk_skip k) (vk_skip_fallback k +w stake)
         (vk_finalize k) (vk_notar_or_skip k) (vk_top_notar k)
     else
       mk_voted_stake (vk_notar k) (vk_notar_fallback k) (vk_skip k +w stake) (vk_skip_fallback k)
         (vk_finalize k) (vk_notar_or_skip k) (vk_top_notar k)) in
  so ← process_pending slot self no_outputs;
  let self := so.1 in
  let k := ss_voted_stakes self in
  o ← (if ag_epoch_info_is_quorum ei (vk_skip k +w vk_skip_fallback k)
          && negb (present (cs_slot (sc_skip (ss_certs_ self))))
       then cert ← construct_skip (skip_votes self) (skip_fallback_votes self) ei;
            if ag_epoch_info_is_quorum ei (cs_stake cert) then push_cert so.2 (CSkip cert) else Ok so.2
       else Ok so.2);
  try_s2s slot self o.

Definition count_finalize_stake (self : ag_slot_state_t) (stake : Z)
    : outcome (ag_slot_state_t * ag_slot_state_outputs_t) :=
  let ei := ss_epoch_info self in
  let k := ss_voted_stakes self in
  let self := set_voted_stakes self
    (mk_voted_stake (vk_notar k) (vk_notar_fallback k) (vk_skip k) (vk_skip_fallback k)
       (vk_finalize k +w stake) (vk_notar_or_skip k) (vk_top_notar k)) in
  o ← (if ag_epoch_info_is_quorum ei (vk_finalize (ss_voted_stakes self))
          && negb (present (cf_slot (sc_finalize (ss_certs_ self))))
       then cert ← ag_cert_construct_final (final_votes self) ei; push_cert no_outputs cert
       else Ok no_outputs);
  Ok (self, o).

End Counting.

(** * Adding certificates, votes and parents *)

Definition ag_slot_state_add_cert (self : ag_slot_state_t) (cert : ag_cert_t) : outcome ag_slot_state_t :=
  let c := ss_certs_ self in
  match cert with
  | CNotar n =>
      Ok (set_certs self (mk_slot_certs n (sc_notar_fallback c) (sc_skip c) (sc_fast_finalize c) (sc_finalize c)))
  | CNotarFallback n =>
      if ag_slot_state_is_notar_fallback self (cnf_block_hash n) then Ok self else
      check FdTest (Z.of_nat (length (sc_notar_fallback c)) <? AG_NOTAR_FALLBACK_CERT_MAX);;
      Ok (set_certs self (mk_slot_certs (sc_notar c) (sc_notar_fallback c ++ [n]) (sc_skip c)
                            (sc_fast_finalize c) (sc_finalize c)))
  | CSkip n =>
      Ok (set_certs self (mk_slot_certs (sc_notar c) (sc_notar_fallback c) n (sc_fast_finalize c) (sc_finalize c)))
  | CFastFinal n =>
      Ok (set_certs self (mk_slot_certs (sc_notar c) (sc_notar_fallback c) (sc_skip c) n (sc_finalize c)))
  | CFinal n =>
      Ok (set_certs self (mk_slot_certs (sc_notar c) (sc_notar_fallback c) (sc_skip c) (sc_fast_finalize c) n))
  end.

(** Stores into the per-voter arrays. *)
Definition put_notar (v : ag_slot_votes_t) (i : Z) (x : ag_vote_notar_t) :=
  mk_slot_votes (<[Z.to_nat i := x]> (sv_notar v)) (sv_notar_fallback v) (sv_skip v)
    (sv_skip_fallback v) (sv_finalize v).
Definition put_notar_fallback (v : ag_slot_votes_t) (i : Z) (x : ag_vote_notar_fallback_t) :=
  mk_slot_votes (sv_notar v) (<[Z.to_nat i := notar_fallback_at v i ++ [x]]> (sv_notar_fallback v))
    (sv_skip v) (sv_skip_fallback v) (sv_finalize v).
Definition put_skip (v : ag_slot_votes_t) (i : Z) (x : ag_vote_skip_t) :=
  mk_slot_votes (sv_notar v) (sv_notar_fallback v) (<[Z.to_nat i := x]> (sv_skip v))
    (sv_skip_fallback v) (sv_finalize v).
Definition put_skip_fallback (v : ag_slot_votes_t) (i : Z) (x : ag_vote_skip_fallback_t) :=
  mk_slot_votes (sv_notar v) (sv_notar_fallback v) (sv_skip v)
    (<[Z.to_nat i := x]> (sv_skip_fallback v)) (sv_finalize v).
Definition put_finalize (v : ag_slot_votes_t) (i : Z) (x : ag_vote_final_t) :=
  mk_slot_votes (sv_notar v) (sv_notar_fallback v) (sv_skip v) (sv_skip_fallback v)
    (<[Z.to_nat i := x]> (sv_finalize v)).

Definition add_notar_or_skip (k : ag_slot_voted_stake_t) (stake : Z) : ag_slot_voted_stake_t :=
  mk_voted_stake (vk_notar k) (vk_notar_fallback k) (vk_skip k) (vk_skip_fallback k) (vk_finalize k)
    (vk_notar_or_skip k +w stake) (vk_top_notar k).

Section AddVote.
Context `{BlsOps}.

(** The switch on the kind of the vote. *)
Definition count_vote (self : ag_slot_state_t) (vote : ag_vote_t) (voter_stake : Z)
    : outcome (ag_slot_state_t * ag_slot_state_outputs_t) :=
  let v := ss_votes_ self in
  let slot := ag_vote_slot vote in
  let voter := ag_vote_rank vote in
  check OutOfBounds (voter <? AG_VAT_MAX);;
  match vote with
  | Notar x =>
      count_notar_stake (set_votes self (put_notar v voter x)) slot (vn_block_hash x) voter_stake
  | NotarFallback x =>
      check FdTest (Z.of_nat (length (notar_fallback_at v voter)) <? AG_NOTAR_FALLBACK_VOTE_MAX);;
      count_notar_fallback_stake (set_votes self (put_notar_fallback v voter x)) (vnf_block_hash x) voter_stake
  | Skip x =>
      let self := set_votes self (put_skip v voter x) in
      let self := set_voted_stakes self (add_notar_or_skip (ss_voted_stakes self) voter_stake) in
      count_skip_stake self slot voter_stake false
  | SkipFallback x =>
      count_skip_stake (set_votes self (put_skip_fallback v voter x)) slot voter_stake true
  | Final x =>
      count_finalize_stake (set_votes self (put_finalize v voter x)) voter_stake
  end.

Definition ag_slot_state_add_vote (self : ag_slot_state_t) (vote : ag_vote_t) (voter_stake : Z)
    : outcome (ag_slot_state_t * ag_slot_state_outputs_t) :=
  so ← count_vote self vote voter_stake;
  if ag_vote_rank vote =? ss_own_rank so.1 then process_pending (ag_vote_slot vote) so.1 so.2
  else Ok so.

End AddVote.

Definition ag_slot_state_notify_parent_known (self : ag_slot_state_t) (hash : ag_block_hash_t)
    : outcome ag_slot_state_t :=
  match find_parent (ss_parents self) hash with
  | Some _ => Ok self
  | None =>
      check FdTest (Z.of_nat (length (ss_parents self)) <? AG_EQVOC_BLOCK_HASH_MAX);;
      Ok (set_parents self (ss_parents self ++ [mk_parent_status hash ParentKnown]))
  end.

Fixpoint certify_parent (ps : list ag_parent_status_t) (hash : ag_block_hash_t)
    : option (list ag_parent_status_t) :=
  match ps with
  | [] => None
  | p :: ps' =>
      if hash_eqb (ps_hash p) hash then Some (mk_parent_status (ps_hash p) ParentCertified :: ps')
      else cons p <$> certify_parent ps' hash
  end.

(** Returns -1, 0 or 1 as in C: the block is missing, votes are awaited (or the
    event was already sent), safe to notarize. *)
Definition ag_slot_state_notify_parent_certified (self : ag_slot_state_t) (hash : ag_block_hash_t)
    : outcome (ag_slot_state_t * Z) :=
  match certify_parent (ss_parents self) hash with
  | None => Fail FdTest
  | Some ps =>
      let self := set_parents self ps in
      if set_contains (ss_sent_safe_to_notar self) hash then Ok (self, 0) else
      r ← check_safe_to_notar self hash;
      Ok (r.1, match r.2 with StMissingBlock => -1 | StAwaitingVotes => 0 | StSafeToNotar => 1 end)
  end.

(** * Admission of votes *)

Inductive slashable :=
| SlashableNone | SlashNotarDifferentHash | SlashSkipAndNotarize | SlashSkipAndFinalize
| SlashNotarFallbackAndFinalize.

#[export] Instance slashable_eq_dec : EqDecision slashable.
Proof. solve_decision. Defined.

Definition ag_slot_state_check_slashable_offence (self : ag_slot_state_t) (vote : ag_vote_t) : slashable :=
  let voter := ag_vote_rank vote in
  let v := ss_votes_ self in
  match vote with
  | Notar x =>
      if present (vs_slot (skip_at v voter)) then SlashSkipAndNotarize
      else if present (vn_slot (notar_at v voter))
              && negb (hash_eqb (vn_block_hash x) (vn_block_hash (notar_at v voter)))
      then SlashNotarDifferentHash else SlashableNone
  | NotarFallback _ =>
      if present (vf_slot (finalize_at v voter)) then SlashNotarFallbackAndFinalize else SlashableNone
  | Skip _ =>
      if present (vf_slot (finalize_at v voter)) then SlashSkipAndFinalize
      else if present (vn_slot (notar_at v voter)) then SlashSkipAndNotarize else SlashableNone
  | SkipFallback _ =>
      if present (vf_slot (finalize_at v voter)) then SlashSkipAndFinalize else SlashableNone
  | Final _ =>
      if present (vs_slot (skip_at v voter)) || present (vsf_slot (skip_fallback_at v voter))
      then SlashSkipAndFinalize
      else if negb (Z.of_nat (length (notar_fallback_at v voter)) =? 0)
      then SlashNotarFallbackAndFinalize else SlashableNone
  end.

Definition ag_slot_state_should_ignore_vote (self : ag_slot_state_t) (vote : ag_vote_t) : bool :=
  let voter := ag_vote_rank vote in
  let v := ss_votes_ self in
  match vote with
  | Notar x =>
      if present (vn_slot (notar_at v voter)) then true
      else existsb (fun y => hash_eqb (vnf_block_hash y) (vn_block_hash x)) (notar_fallback_at v voter)
  | NotarFallback x =>
      if existsb (fun y => hash_eqb (vnf_block_hash y) (vnf_block_hash x)) (notar_fallback_at v voter) then true
      else present (vn_slot (notar_at v voter))
           && hash_eqb (vn_block_hash (notar_at v voter)) (vnf_block_hash x)
  | Skip _ | SkipFallback _ =>
      present (vs_slot (skip_at v voter)) || present (vsf_slot (skip_fallback_at v voter))
  | Final _ => present (vf_slot (finalize_at v voter))
  end.
