(* ===== verification/SlotStateInv.v ===== *)
(** Vote counting of one slot: the recorded stakes are the stakes of the
    recorded votes, admitted votes never trip a test or overrun an array, and
    the certificates that come out carry the stake they claim. *)
From S2P Require Import Prelude VotorBase Bls Vote EpochInfo Cert ParentReady SlotState.

(** * Who voted for what *)

Definition notar_of (v : ag_slot_votes_t) (i : Z) : option ag_block_hash_t :=
  if present (vn_slot (notar_at v i)) then Some (vn_block_hash (notar_at v i)) else None.
Definition notar_for (v : ag_slot_votes_t) (h : ag_block_hash_t) (i : Z) : bool := bool_decide (notar_of v i = Some h).
Definition notars (v : ag_slot_votes_t) (i : Z) : bool := present (vn_slot (notar_at v i)).
Definition nfb_for (v : ag_slot_votes_t) (h : ag_block_hash_t) (i : Z) : bool :=
  existsb (fun y => hash_eqb (vnf_block_hash y) h) (notar_fallback_at v i).
Definition skips (v : ag_slot_votes_t) (i : Z) : bool := present (vs_slot (skip_at v i)).
Definition skip_fbs (v : ag_slot_votes_t) (i : Z) : bool := present (vsf_slot (skip_fallback_at v i)).
Definition finals (v : ag_slot_votes_t) (i : Z) : bool := present (vf_slot (finalize_at v i)).

(** The stake of the validators for which [b] holds. *)
Definition wsum (ei : ag_epoch_info_t) (b : Z -> bool) : Z :=
  nsum (fun i => if b i then stake_of ei i else 0) (Z.to_nat (ei_validator_cnt ei)).

(** The votes of one validator: for this slot, under its rank, and not
    contradictory. *)
Record voter_ok (slot : Z) (v : ag_slot_votes_t) (i : Z) : Prop := {
  vo_notar : notars v i = true -> vn_slot (notar_at v i) = slot /\ vn_rank (notar_at v i) = i;
  vo_nfb : Forall (fun y => vnf_slot y = slot /\ vnf_rank y = i) (notar_fallback_at v i);
  vo_nfb_len : Z.of_nat (length (notar_fallback_at v i)) <= AG_NOTAR_FALLBACK_VOTE_MAX;
  vo_skip : skips v i = true -> vs_slot (skip_at v i) = slot /\ vs_rank (skip_at v i) = i;
  vo_skip_fb : skip_fbs v i = true -> vsf_slot (skip_fallback_at v i) = slot /\ vsf_rank (skip_fallback_at v i) = i;
  vo_final : finals v i = true -> vf_slot (finalize_at v i) = slot /\ vf_rank (finalize_at v i) = i;
  vo_notar_skip : notars v i = true -> skips v i = false;
  vo_skip_once : skips v i = true -> skip_fbs v i = false;
  vo_notar_once : forall h, notar_of v i = Some h -> nfb_for v h i = false;
  vo_final_only : finals v i = true -> skips v i = false /\ skip_fbs v i = false /\ notar_fallback_at v i = []
}.

(** The counters are the sums of the stakes of the recorded votes. *)
Record stakes_ok (ei : ag_epoch_info_t) (v : ag_slot_votes_t) (k : ag_slot_voted_stake_t) : Prop := {
  st_notar : forall h, ag_slot_state_stake (vk_notar k) h = wsum ei (notar_for v h);
  st_nfb : forall h, ag_slot_state_stake (vk_notar_fallback k) h = wsum ei (nfb_for v h);
  st_skip : vk_skip k = wsum ei (skips v);
  st_skip_fb : vk_skip_fallback k = wsum ei (skip_fbs v);
  st_final : vk_finalize k = wsum ei (finals v);
  st_notar_or_skip : vk_notar_or_skip k = wsum ei (fun i => notars v i || skips v i);
  st_top : (forall h, ag_slot_state_stake (vk_notar k) h <= vk_top_notar k) /\
    (vk_top_notar k = 0 \/ exists h, vk_top_notar k = ag_slot_state_stake (vk_notar k) h);
  st_notar_len : Z.of_nat (length (vk_notar k)) <=
    nsum (fun i => if notars v i then 1 else 0) (Z.to_nat (ei_validator_cnt ei));
  st_nfb_len : Z.of_nat (length (vk_notar_fallback k)) <=
    nsum (fun i => Z.of_nat (length (notar_fallback_at v i))) (Z.to_nat (ei_validator_cnt ei))
}.

Record arrays_ok (v : ag_slot_votes_t) : Prop := {
  ar_notar : Z.of_nat (length (sv_notar v)) = AG_VAT_MAX;
  ar_nfb : Z.of_nat (length (sv_notar_fallback v)) = AG_VAT_MAX;
  ar_skip : Z.of_nat (length (sv_skip v)) = AG_VAT_MAX;
  ar_skip_fb : Z.of_nat (length (sv_skip_fallback v)) = AG_VAT_MAX;
  ar_final : Z.of_nat (length (sv_finalize v)) = AG_VAT_MAX
}.

(** * Sums *)

Lemma upd_at {A} `{Inhabited A} (l : list A) i j x :
  0 <= i -> 0 <= j -> i < Z.of_nat (length l) ->
  <[Z.to_nat i := x]> l !!! Z.to_nat j = if decide (j = i) then x else l !!! Z.to_nat j.
Proof.
  intros Hi Hj Hl. case_decide as Hd.
  - subst. apply list_lookup_total_insert_eq. lia.
  - apply list_lookup_total_insert_ne. lia.
Qed.

Section Sums.
Context (ei : ag_epoch_info_t) (Hwf : epoch_wf ei).

Lemma wsum_le (b : Z -> bool) : 0 <= wsum ei b <= ei_total_stake ei.
Proof using Hwf. by apply sum_le_total. Qed.

Lemma wsum_u64 b : is_u64 (wsum ei b).
Proof using Hwf. pose proof (wsum_le b). pose proof (ewf_u64 ei Hwf). unfold is_u64 in *. lia. Qed.

Lemma wsum_ext b b' : (forall i, 0 <= i < ei_validator_cnt ei -> b i = b' i) -> wsum ei b = wsum ei b'.
Proof. intros Hb. apply nsum_ext. intros i Hi. by rewrite Hb by lia. Qed.

Lemma wsum_mono b b' : (forall i, 0 <= i < ei_validator_cnt ei -> b i = true -> b' i = true) -> wsum ei b <= wsum ei b'.
Proof using Hwf.
  intros Hb. apply nsum_le. intros i Hi. specialize (Hb i ltac:(lia)).
  pose proof (stake_of_nonneg ei Hwf i ltac:(lia)). destruct (b i), (b' i); lia.
Qed.

(** One more validator. *)
Lemma wsum_more b b' i :
  0 <= i < ei_validator_cnt ei -> b i = false -> b' i = true ->
  (forall j, 0 <= j < ei_validator_cnt ei -> j <> i -> b' j = b j) ->
  wsum ei b' = wsum ei b + stake_of ei i.
Proof.
  intros Hi Hb Hb' Hne. unfold wsum. set (n := Z.to_nat (ei_validator_cnt ei)).
  rewrite (nsum_ext _ (fun j => if (if decide (j = i) then true else b j) then stake_of ei j else 0)).
  - rewrite (nsum_update (fun j => if b j then stake_of ei j else 0) _ n i ltac:(lia)).
    + rewrite decide_True by done. rewrite Hb. lia.
    + intros j Hj. by rewrite decide_False by done.
  - intros j Hj. case_decide; [by subst; rewrite Hb'|]. by rewrite Hne by lia.
Qed.

Lemma wsum_set b b' i :
  0 <= i < ei_validator_cnt ei -> b i = false -> b' i = true ->
  (forall j, 0 <= j < ei_validator_cnt ei -> j <> i -> b' j = b j) ->
  wsum ei b +w stake_of ei i = wsum ei b'.
Proof using Hwf.
  intros Hi Hb Hb' Hne. pose proof (wsum_more b b' i Hi Hb Hb' Hne) as E.
  rewrite E. apply u64_add_small. rewrite <- E. apply wsum_u64.
Qed.

Lemma wsum_or b1 b2 :
  (forall i, 0 <= i < ei_validator_cnt ei -> b1 i = true -> b2 i = true -> False) ->
  wsum ei b1 + wsum ei b2 = wsum ei (fun i => b1 i || b2 i).
Proof.
  intros Hd. unfold wsum. rewrite <- nsum_add. apply nsum_ext. intros i Hi. specialize (Hd i ltac:(lia)).
  destruct (b1 i), (b2 i); cbn; lia.
Qed.
End Sums.

(** * Stake per hash *)

Lemma hashstake_add_at_spec ele h s :
  match hashstake_add_at ele h s with
  | Some (ele', total) => total = ag_slot_state_stake ele h +w s /\ length ele' = length ele /\
      forall h', ag_slot_state_stake ele' h' = if decide (h' = h) then total else ag_slot_state_stake ele h'
  | None => ag_slot_state_stake ele h = 0 /\ forall s' h', ag_slot_state_stake (ele ++ [mk_hashstake h s']) h' =
      if decide (h' = h) then s' else ag_slot_state_stake ele h'
  end.
Proof.
  induction ele as [|e ele IH]; cbn.
  - split; [done|]. intros s' h'. unfold hash_eqb. case_bool_decide; case_decide; congruence.
  - destruct (hash_eqb (hs_hash e) h) eqn:Eh.
    + split_and!; try done. intros h'. cbn. apply hash_eqb_true in Eh. subst h. unfold hash_eqb.
      case_bool_decide; case_decide; congruence.
    + destruct (hashstake_add_at ele h s) as [[ele' total]|].
      * destruct IH as (-> & Hl & Hs). split_and!; [done|cbn; by rewrite Hl|]. intros h'. cbn. rewrite Hs.
        apply hash_eqb_false in Eh. unfold hash_eqb. case_bool_decide; case_decide; congruence.
      * destruct IH as [H0 Hs]. split; [done|]. intros s' h'. cbn. rewrite Hs.
        apply hash_eqb_false in Eh. unfold hash_eqb. case_bool_decide; case_decide; congruence.
Qed.

(** Counting a stake for [h]. *)
Lemma hashstake_add_spec ele cap h s :
  Z.of_nat (length ele) < cap ->
  exists ele', hashstake_add ele cap h s = Ok (ele', ag_slot_state_stake ele h +w s) /\
    (length ele' <= length ele + 1)%nat /\
    forall h', ag_slot_state_stake ele' h' =
      if decide (h' = h) then ag_slot_state_stake ele h +w s else ag_slot_state_stake ele h'.
Proof.
  intros Hl. unfold hashstake_add. pose proof (hashstake_add_at_spec ele h s) as Hs.
  destruct (hashstake_add_at ele h s) as [[ele' total]|].
  - destruct Hs as (-> & Hlen & Hs). exists ele'. split_and!; [done|lia|done].
  - destruct Hs as [H0 Hs]. rewrite check_true_ok by lia. cbn [mbind outcome_bind]. eexists. rewrite H0.
    split_and!; [done|rewrite length_app; cbn; lia|]. apply Hs.
Qed.

(** * Recording a vote *)

Lemma voter_ok_ext slot v v' j :
  notar_at v' j = notar_at v j -> notar_fallback_at v' j = notar_fallback_at v j -> skip_at v' j = skip_at v j ->
  skip_fallback_at v' j = skip_fallback_at v j -> finalize_at v' j = finalize_at v j ->
  voter_ok slot v j -> voter_ok slot v' j.
Proof.
  intros E1 E2 E3 E4 E5 [H1 H2 H3 H4 H5 H6 H7 H8 H9 H10].
  unfold notars, skips, skip_fbs, finals, notar_of, nfb_for in *. rewrite <- E1, <- E2, <- E3, <- E4, <- E5 in *.
  by split.
Qed.

(** Adding one to a count that bounds a list length. *)
Lemma nsum_bump (f g : Z -> Z) n i c :
  0 <= i < Z.of_nat n -> g i = f i + c -> (forall j, 0 <= j < Z.of_nat n -> j <> i -> g j = f j) ->
  nsum g n = nsum f n + c.
Proof.
  intros Hi Hg Hne. rewrite (nsum_ext g (fun j => if decide (j = i) then f i + c else f j)).
  - rewrite (nsum_update f (fun j => if decide (j = i) then f i + c else f j) n i Hi).
    + rewrite decide_True by done. lia.
    + intros j Hj. by rewrite decide_False by done.
  - intros j Hj. case_decide; [by subst|by apply Hne].
Qed.

Lemma nsum_le_count f n c : (forall i, 0 <= i < Z.of_nat n -> f i <= c) -> nsum f n <= c * Z.of_nat n.
Proof.
  intros Hf. induction n as [|n IH]; cbn [nsum]; [lia|].
  specialize (IH ltac:(intros; apply Hf; lia)). specialize (Hf (Z.of_nat n) ltac:(lia)). lia.
Qed.

Section Record.
Context (ei : ag_epoch_info_t) (Hwf : epoch_wf ei) (slot : Z) (v : ag_slot_votes_t) (k : ag_slot_voted_stake_t).
Context (Harr : arrays_ok v) (Hvot : forall j, 0 <= j < ei_validator_cnt ei -> voter_ok slot v j) (Hst : stakes_ok ei v k).
Context (i : Z) (Hi : 0 <= i < ei_validator_cnt ei) (Hslot : present slot = true).

Local Abbreviation n := (Z.to_nat (ei_validator_cnt ei)).

Lemma vat : ei_validator_cnt ei <= AG_VAT_MAX.
Proof using Hwf. apply (ewf_max ei Hwf). Qed.

Lemma put_notar_at x j : 0 <= j -> notar_at (put_notar v i x) j = if decide (j = i) then x else notar_at v j.
Proof using Harr Hwf Hi.
  intros Hj. unfold notar_at, put_notar. cbn. apply upd_at; [lia|lia|].
  pose proof vat. rewrite (ar_notar v Harr). lia.
Qed.

Lemma put_nfb_at x j :
  0 <= j -> notar_fallback_at (put_notar_fallback v i x) j =
    if decide (j = i) then notar_fallback_at v i ++ [x] else notar_fallback_at v j.
Proof using Harr Hwf Hi.
  intros Hj. unfold notar_fallback_at at 1, put_notar_fallback. cbn. apply upd_at; [lia|lia|].
  pose proof vat. rewrite (ar_nfb v Harr). lia.
Qed.

Lemma put_skip_at x j : 0 <= j -> skip_at (put_skip v i x) j = if decide (j = i) then x else skip_at v j.
Proof using Harr Hwf Hi.
  intros Hj. unfold skip_at, put_skip. cbn. apply upd_at; [lia|lia|].
  pose proof vat. rewrite (ar_skip v Harr). lia.
Qed.

Lemma put_skip_fb_at x j :
  0 <= j -> skip_fallback_at (put_skip_fallback v i x) j = if decide (j = i) then x else skip_fallback_at v j.
Proof using Harr Hwf Hi.
  intros Hj. unfold skip_fallback_at, put_skip_fallback. cbn. apply upd_at; [lia|lia|].
  pose proof vat. rewrite (ar_skip_fb v Harr). lia.
Qed.

Lemma put_final_at x j : 0 <= j -> finalize_at (put_finalize v i x) j = if decide (j = i) then x else finalize_at v j.
Proof using Harr Hwf Hi.
  intros Hj. unfold finalize_at, put_finalize. cbn. apply upd_at; [lia|lia|].
  pose proof vat. rewrite (ar_final v Harr). lia.
Qed.

(** A notarization vote. *)
Lemma record_notar x :
  vn_slot x = slot -> vn_rank x = i -> notars v i = false -> skips v i = false -> nfb_for v (vn_block_hash x) i = false ->
  let v' := put_notar v i x in
  let h := vn_block_hash x in
  arrays_ok v' /\ (forall j, 0 <= j < ei_validator_cnt ei -> voter_ok slot v' j) /\
  exists ele', hashstake_add (vk_notar k) AG_NOTAR_STAKE_MAX h (stake_of ei i) = Ok (ele', wsum ei (notar_for v' h)) /\
    stakes_ok ei v' (mk_voted_stake ele' (vk_notar_fallback k) (vk_skip k) (vk_skip_fallback k) (vk_finalize k)
      (vk_notar_or_skip k +w stake_of ei i) (Z.max (wsum ei (notar_for v' h)) (vk_top_notar k))).
Proof using Harr Hwf Hi Hvot Hst Hslot.
  intros Hxs Hxr Hnn Hns Hnf. cbv zeta. set (v' := put_notar v i x). set (h := vn_block_hash x).
  assert (forall j, 0 <= j < ei_validator_cnt ei -> j <> i -> notar_at v' j = notar_at v j) as Hne
    by (intros j Hj Hji; unfold v'; rewrite put_notar_at, decide_False by (done || lia); done).
  assert (notar_at v' i = x) as Hat by (unfold v'; rewrite put_notar_at, decide_True by (done || lia); done).
  assert (notar_of v' i = Some h) as Hof by (unfold notar_of; rewrite Hat, Hxs, Hslot; done).
  assert (notar_of v i = None) as Hof0 by (unfold notar_of, notars in *; by rewrite Hnn).
  split; [destruct Harr; split; cbn; rewrite ?length_insert; done|]. split.
  { intros j Hj. specialize (Hvot j Hj). destruct (decide (j = i)) as [->|Hji].
    - destruct Hvot as [H1 H2 H3 H4 H5 H6 H7 H8 H9 H10]. split; try done.
      + by rewrite Hat.
      + rewrite Hof. intros h' [= <-]. done.
    - apply (voter_ok_ext slot v); try done. by apply Hne. }
  assert (forall h' j, 0 <= j < ei_validator_cnt ei -> j <> i -> notar_for v' h' j = notar_for v h' j) as Hfor
    by (intros h' j Hj Hji; unfold notar_for, notar_of; by rewrite Hne).
  assert (ag_slot_state_stake (vk_notar k) h +w stake_of ei i = wsum ei (notar_for v' h)) as Hsum.
  { rewrite (st_notar _ _ _ Hst). apply (wsum_set ei Hwf _ _ i Hi).
    - unfold notar_for. rewrite Hof0. by apply bool_decide_eq_false_2.
    - unfold notar_for. rewrite Hof. by apply bool_decide_eq_true_2.
    - intros j Hj Hji. by apply Hfor. }
  pose proof vat as Hvat.
  assert (nsum (fun j => if notars v' j then 1 else 0) n = nsum (fun j => if notars v j then 1 else 0) n + 1) as Hcnt.
  { apply (nsum_bump _ _ _ i); [lia|unfold notars in *; rewrite Hat, Hnn, Hxs, Hslot; done|].
    intros j Hj Hji. unfold notars. by rewrite Hne by (done || lia). }
  assert (nsum (fun j => if notars v' j then 1 else 0) n <= 1 * Z.of_nat n) as Hcnt2
    by (apply nsum_le_count; intros j _; destruct (notars v' j); lia).
  pose proof (st_notar_len _ _ _ Hst) as Hlen.
  destruct (hashstake_add_spec (vk_notar k) AG_NOTAR_STAKE_MAX h (stake_of ei i)) as (ele' & -> & Hel & Hes);
    [unfold AG_NOTAR_STAKE_MAX; lia|]. rewrite Hsum in *. exists ele'. split; [done|].
  destruct Hst as [T1 T2 T3 T4 T5 T6 [T7 T7'] T8 T9]. split; cbn; try done.
  - intros h'. rewrite Hes. case_decide; [by subst|]. rewrite T1. apply wsum_ext. intros j Hj.
    destruct (decide (j = i)) as [->|]; [|symmetry; by apply Hfor].
    unfold notar_for. rewrite Hof, Hof0. rewrite !bool_decide_eq_false_2; congruence.
  - rewrite T6. apply (wsum_set ei Hwf _ _ i Hi).
    + by rewrite Hnn, Hns.
    + unfold notars. by rewrite Hat, Hxs, Hslot.
    + intros j Hj Hji. unfold notars. by rewrite Hne.
  - split.
    + intros h'. rewrite Hes. case_decide; [lia|]. specialize (T7 h'). lia.
    + destruct (Z.max_spec (wsum ei (notar_for v' h)) (vk_top_notar k)) as [[Hlt ->]|[Hle ->]].
      * destruct T7' as [T7'|(h' & T7')]; [by left|right]. destruct (decide (h' = h)) as [->|Hh].
        -- exfalso. rewrite T7', T1 in Hlt. enough (wsum ei (notar_for v h) <= wsum ei (notar_for v' h)) by lia.
           apply (wsum_mono ei Hwf). intros j Hj. destruct (decide (j = i)) as [->|]; [|by rewrite Hfor].
           intros _. unfold notar_for. rewrite Hof. by apply bool_decide_eq_true_2.
        -- exists h'. by rewrite Hes, decide_False by done.
      * right. exists h. by rewrite Hes, decide_True by done.
  - lia.
Qed.
(** The recorded votes and counters agree. *)
Definition recorded (v' : ag_slot_votes_t) (k' : ag_slot_voted_stake_t) : Prop :=
  arrays_ok v' /\ (forall j, 0 <= j < ei_validator_cnt ei -> voter_ok slot v' j) /\ stakes_ok ei v' k'.

(** A notar-fallback vote. *)
Lemma record_notar_fallback x :
  let h := vnf_block_hash x in
  vnf_slot x = slot -> vnf_rank x = i -> finals v i = false -> nfb_for v h i = false -> notar_of v i <> Some h ->
  Z.of_nat (length (notar_fallback_at v i)) < AG_NOTAR_FALLBACK_VOTE_MAX ->
  let v' := put_notar_fallback v i x in
  exists ele', hashstake_add (vk_notar_fallback k) AG_NOTAR_FALLBACK_STAKE_MAX h (stake_of ei i)
      = Ok (ele', wsum ei (nfb_for v' h)) /\
    recorded v' (mk_voted_stake (vk_notar k) ele' (vk_skip k) (vk_skip_fallback k) (vk_finalize k)
      (vk_notar_or_skip k) (vk_top_notar k)).
Proof using Harr Hwf Hi Hvot Hst Hslot.
  intros h Hxs Hxr Hnf Hnew Hno Hcap. cbv zeta. set (v' := put_notar_fallback v i x).
  assert (forall j, 0 <= j < ei_validator_cnt ei -> j <> i -> notar_fallback_at v' j = notar_fallback_at v j) as Hne
    by (intros j Hj Hji; unfold v'; rewrite put_nfb_at, decide_False by (done || lia); done).
  assert (notar_fallback_at v' i = notar_fallback_at v i ++ [x]) as Hat
    by (unfold v'; rewrite put_nfb_at, decide_True by (done || lia); done).
  assert (forall h', nfb_for v' h' i = nfb_for v h' i || hash_eqb h h') as Hfor
    by (intros h'; unfold nfb_for; rewrite Hat, existsb_app; cbn; by rewrite orb_false_r).
  assert (forall h' j, 0 <= j < ei_validator_cnt ei -> j <> i -> nfb_for v' h' j = nfb_for v h' j) as Hforne
    by (intros h' j Hj Hji; unfold nfb_for; by rewrite Hne).
  assert (ag_slot_state_stake (vk_notar_fallback k) h +w stake_of ei i = wsum ei (nfb_for v' h)) as Hsum.
  { rewrite (st_nfb _ _ _ Hst). apply (wsum_set ei Hwf _ _ i Hi); [done| |by apply Hforne].
    by rewrite Hfor, hash_eqb_refl, orb_true_r. }
  assert (nsum (fun j => Z.of_nat (length (notar_fallback_at v' j))) n
          = nsum (fun j => Z.of_nat (length (notar_fallback_at v j))) n + 1) as Hcnt.
  { apply (nsum_bump _ _ _ i); [lia|rewrite Hat, length_app; cbn; lia|]. intros j Hj Hji. by rewrite Hne by lia. }
  assert (forall j, 0 <= j < ei_validator_cnt ei ->
            Z.of_nat (length (notar_fallback_at v' j)) <= AG_NOTAR_FALLBACK_VOTE_MAX) as Hlen.
  { intros j Hj. destruct (decide (j = i)) as [->|]; [rewrite Hat, length_app; cbn; lia|].
    rewrite Hne by done. by apply (vo_nfb_len slot v j), Hvot. }
  assert (nsum (fun j => Z.of_nat (length (notar_fallback_at v' j))) n
          <= AG_NOTAR_FALLBACK_VOTE_MAX * Z.of_nat n) as Hcnt2 by (apply nsum_le_count; intros; apply Hlen; lia).
  pose proof vat as Hvat. pose proof (st_nfb_len _ _ _ Hst) as Hl.
  destruct (hashstake_add_spec (vk_notar_fallback k) AG_NOTAR_FALLBACK_STAKE_MAX h (stake_of ei i))
    as (ele' & -> & Hel & Hes);
    [unfold AG_NOTAR_FALLBACK_STAKE_MAX, AG_NOTAR_FALLBACK_VOTE_MAX in *; lia|].
  rewrite Hsum in *. exists ele'. split; [done|]. split_and!.
  - destruct Harr; split; cbn; rewrite ?length_insert; done.
  - intros j Hj. pose proof (Hvot j Hj) as Hv. destruct (decide (j = i)) as [->|Hji].
    + destruct Hv as [H1 H2 H3 H4 H5 H6 H7 H8 H9 H10]. split; try done.
      * rewrite Hat. apply Forall_app. split; [done|]. by constructor.
      * by apply Hlen.
      * intros h' Hh'. rewrite Hfor, (H9 h' Hh'). cbn. apply hash_eqb_false. intros <-. by apply Hno.
      * intros Hf. unfold finals, v' in *. cbn in Hf. unfold finalize_at in *. cbn in Hf. congruence.
    + apply (voter_ok_ext slot v); try done. by apply Hne.
  - destruct Hst as [T1 T2 T3 T4 T5 T6 [T7 T7'] T8 T9]. split; cbn; try done.
    + intros h'. rewrite Hes. case_decide as Hh; [by subst|]. rewrite T2. apply wsum_ext. intros j Hj.
      destruct (decide (j = i)) as [->|]; [|symmetry; by apply Hforne].
      rewrite Hfor. replace (hash_eqb h h') with false by (symmetry; apply hash_eqb_false; congruence).
      by rewrite orb_false_r.
    + lia.
Qed.

(** A skip vote. *)
Lemma record_skip x :
  vs_slot x = slot -> vs_rank x = i -> notars v i = false -> skips v i = false -> skip_fbs v i = false ->
  finals v i = false ->
  recorded (put_skip v i x) (mk_voted_stake (vk_notar k) (vk_notar_fallback k) (vk_skip k +w stake_of ei i)
    (vk_skip_fallback k) (vk_finalize k) (vk_notar_or_skip k +w stake_of ei i) (vk_top_notar k)).
Proof using Harr Hwf Hi Hvot Hst Hslot.
  intros Hxs Hxr Hnn Hns Hnsf Hnf. set (v' := put_skip v i x).
  assert (forall j, 0 <= j < ei_validator_cnt ei -> j <> i -> skip_at v' j = skip_at v j) as Hne
    by (intros j Hj Hji; unfold v'; rewrite put_skip_at, decide_False by (done || lia); done).
  assert (skip_at v' i = x) as Hat by (unfold v'; rewrite put_skip_at, decide_True by (done || lia); done).
  assert (skips v' i = true) as Hs by (unfold skips; by rewrite Hat, Hxs).
  split_and!.
  - destruct Harr; split; cbn; rewrite ?length_insert; done.
  - intros j Hj. pose proof (Hvot j Hj) as Hv. destruct (decide (j = i)) as [->|Hji].
    + destruct Hv as [H1 H2 H3 H4 H5 H6 H7 H8 H9 H10]. split; try done; try (intros E; unfold notars, finals in *; exfalso;
        first [change (notar_at v' i) with (notar_at v i) in E; congruence
              |change (finalize_at v' i) with (finalize_at v i) in E; congruence]).
      by rewrite Hat.
    + apply (voter_ok_ext slot v); try done. by apply Hne.
  - destruct Hst as [T1 T2 T3 T4 T5 T6 [T7 T7'] T8 T9]. split; cbn; try done.
    + rewrite T3. apply (wsum_set ei Hwf _ _ i Hi); try done. intros j Hj Hji. unfold skips. by rewrite Hne.
    + rewrite T6. apply (wsum_set ei Hwf _ _ i Hi); [by rewrite Hnn, Hns|by rewrite Hs, orb_true_r|].
      intros j Hj Hji. unfold skips. by rewrite Hne.
Qed.

(** A skip-fallback vote. *)
Lemma record_skip_fallback x :
  vsf_slot x = slot -> vsf_rank x = i -> skips v i = false -> skip_fbs v i = false -> finals v i = false ->
  recorded (put_skip_fallback v i x) (mk_voted_stake (vk_notar k) (vk_notar_fallback k) (vk_skip k)
    (vk_skip_fallback k +w stake_of ei i) (vk_finalize k) (vk_notar_or_skip k) (vk_top_notar k)).
Proof using Harr Hwf Hi Hvot Hst Hslot.
  intros Hxs Hxr Hns Hnsf Hnf. set (v' := put_skip_fallback v i x).
  assert (forall j, 0 <= j < ei_validator_cnt ei -> j <> i -> skip_fallback_at v' j = skip_fallback_at v j) as Hne
    by (intros j Hj Hji; unfold v'; rewrite put_skip_fb_at, decide_False by (done || lia); done).
  assert (skip_fallback_at v' i = x) as Hat
    by (unfold v'; rewrite put_skip_fb_at, decide_True by (done || lia); done).
  assert (skip_fbs v' i = true) as Hs by (unfold skip_fbs; by rewrite Hat, Hxs).
  split_and!.
  - destruct Harr; split; cbn; rewrite ?length_insert; done.
  - intros j Hj. pose proof (Hvot j Hj) as Hv. destruct (decide (j = i)) as [->|Hji].
    + destruct Hv as [H1 H2 H3 H4 H5 H6 H7 H8 H9 H10]. split; try done; try (intros E; unfold skips, finals in *; exfalso;
        first [change (skip_at v' i) with (skip_at v i) in E; congruence
              |change (finalize_at v' i) with (finalize_at v i) in E; congruence]).
      by rewrite Hat.
    + apply (voter_ok_ext slot v); try done. by apply Hne.
  - destruct Hst as [T1 T2 T3 T4 T5 T6 [T7 T7'] T8 T9]. split; cbn; try done.
    rewrite T4. apply (wsum_set ei Hwf _ _ i Hi); try done. intros j Hj Hji. unfold skip_fbs. by rewrite Hne.
Qed.

(** A finalization vote. *)
Lemma record_final x :
  vf_slot x = slot -> vf_rank x = i -> finals v i = false -> skips v i = false -> skip_fbs v i = false ->
  notar_fallback_at v i = [] ->
  recorded (put_finalize v i x) (mk_voted_stake (vk_notar k) (vk_notar_fallback k) (vk_skip k)
    (vk_skip_fallback k) (vk_finalize k +w stake_of ei i) (vk_notar_or_skip k) (vk_top_notar k)).
Proof using Harr Hwf Hi Hvot Hst Hslot.
  intros Hxs Hxr Hnf Hns Hnsf Hnb. set (v' := put_finalize v i x).
  assert (forall j, 0 <= j < ei_validator_cnt ei -> j <> i -> finalize_at v' j = finalize_at v j) as Hne
    by (intros j Hj Hji; unfold v'; rewrite put_final_at, decide_False by (done || lia); done).
  assert (finalize_at v' i = x) as Hat by (unfold v'; rewrite put_final_at, decide_True by (done || lia); done).
  assert (finals v' i = true) as Hs by (unfold finals; by rewrite Hat, Hxs).
  split_and!.
  - destruct Harr; split; cbn; rewrite ?length_insert; done.
  - intros j Hj. pose proof (Hvot j Hj) as Hv. destruct (decide (j = i)) as [->|Hji].
    + destruct Hv as [H1 H2 H3 H4 H5 H6 H7 H8 H9 H10]. split; try done. by rewrite Hat.
    + apply (voter_ok_ext slot v); try done. by apply Hne.
  - destruct Hst as [T1 T2 T3 T4 T5 T6 [T7 T7'] T8 T9]. split; cbn; try done.
    rewrite T5. apply (wsum_set ei Hwf _ _ i Hi); try done. intros j Hj Hji. unfold finals. by rewrite Hne.
Qed.
End Record.
