(* ===== verification/SlotEvents.v ===== *)
(** The safe-to-notar and safe-to-skip events of one slot: when they are due,
    and that they are sent exactly then, once, within the fixed output arrays. *)
From S2P Require Import Prelude VotorBase Bls Vote EpochInfo Cert ParentReady SlotState SlotStateInv.

(** * When an event is due *)

Definition notar_stake (st : ag_slot_state_t) (h : ag_block_hash_t) : Z :=
  ag_slot_state_stake (vk_notar (ss_voted_stakes st)) h.

(** 20% of the stake voted for the block, and either 40%, or 60% together with
    the skip votes. *)
Definition weakest (st : ag_slot_state_t) (h : ag_block_hash_t) : bool :=
  ag_epoch_info_is_weakest_quorum (ss_epoch_info st) (notar_stake st h).
Definition eligible (st : ag_slot_state_t) (h : ag_block_hash_t) : bool :=
  weakest st h && (ag_epoch_info_is_weak_quorum (ss_epoch_info st) (notar_stake st h)
                   || ag_epoch_info_is_quorum (ss_epoch_info st) (notar_stake st h +w vk_skip (ss_voted_stakes st))).

Definition certified (st : ag_slot_state_t) (h : ag_block_hash_t) : bool :=
  match find_parent (ss_parents st) h with
  | Some p => match ps_kind p with ParentCertified => true | ParentKnown => false end
  | None => false
  end.

(** This validator's own vote: for the block, or for something else. *)
Definition voting (st : ag_slot_state_t) : bool := negb (ss_own_rank st =? USHORT_MAX).
Definition own_for (st : ag_slot_state_t) (h : ag_block_hash_t) : bool :=
  voting st && notar_for (ss_votes_ st) h (ss_own_rank st).
Definition own_against (st : ag_slot_state_t) (h : ag_block_hash_t) : bool :=
  voting st && (skips (ss_votes_ st) (ss_own_rank st) ||
                (notars (ss_votes_ st) (ss_own_rank st) && negb (notar_for (ss_votes_ st) h (ss_own_rank st)))).

Definition s2n_ready (st : ag_slot_state_t) (h : ag_block_hash_t) : bool :=
  eligible st h && certified st h && own_against st h.

(** 40% of the stake did not vote for the most voted block. *)
Definition s2s_ready (st : ag_slot_state_t) : bool :=
  let k := ss_voted_stakes st in
  ag_epoch_info_is_weak_quorum (ss_epoch_info st) (vk_notar_or_skip k -w vk_top_notar k)
  && voting st && notars (ss_votes_ st) (ss_own_rank st).

(** A block that may still become due is remembered: it was sent, is pending,
    waits for the certificate of its parent, or is the block this validator
    voted for, for which the event is never due. *)
Definition tracked (st : ag_slot_state_t) (h : ag_block_hash_t) : Prop :=
  h ∈ ss_sent_safe_to_notar st \/ h ∈ ss_pending_safe_to_notar st \/
  (eligible st h = true /\ certified st h = false) \/ own_for st h = true.

(** The votes, ranks and counters of the slot. *)
Record core_inv (st : ag_slot_state_t) : Prop := {
  co_epoch : epoch_wf (ss_epoch_info st);
  co_own : voting st = true -> 0 <= ss_own_rank st < ei_validator_cnt (ss_epoch_info st);
  co_slot : present (ss_slot_ st) = true;
  co_arrays : arrays_ok (ss_votes_ st);
  co_voters : forall i, 0 <= i < ei_validator_cnt (ss_epoch_info st) -> voter_ok (ss_slot_ st) (ss_votes_ st) i;
  co_stakes : stakes_ok (ss_epoch_info st) (ss_votes_ st) (ss_voted_stakes st)
}.

(** The safe-to-notar sets: no duplicates, and every entry with its reason. *)
Record sets_inv (st : ag_slot_state_t) : Prop := {
  se_pending : NoDup (ss_pending_safe_to_notar st) /\ forall h, h ∈ ss_pending_safe_to_notar st -> weakest st h = true;
  se_sent : NoDup (ss_sent_safe_to_notar st) /\ forall h, h ∈ ss_sent_safe_to_notar st -> s2n_ready st h = true
}.

(** Between two calls every due event was sent. *)
Record slot_inv (st : ag_slot_state_t) : Prop := {
  si_core : core_inv st;
  si_sets : sets_inv st;
  si_complete : forall h, s2n_ready st h = true -> h ∈ ss_sent_safe_to_notar st;
  si_tracked : forall h, weakest st h = true -> tracked st h;
  si_skip : ss_sent_safe_to_skip st = s2s_ready st
}.

(** * How many blocks can be due *)

Section Count.
Context (st : ag_slot_state_t) (Hco : core_inv st).
Local Abbreviation ei := (ss_epoch_info st).
Local Abbreviation T := (ei_total_stake (ss_epoch_info st)).

Definition votes_among (L : list ag_block_hash_t) (i : Z) : bool :=
  match notar_of (ss_votes_ st) i with Some h => bool_decide (h ∈ L) | None => false end.

Lemma notar_stake_wsum h : notar_stake st h = wsum ei (notar_for (ss_votes_ st) h).
Proof using Hco. apply (st_notar _ _ _ (co_stakes _ Hco)). Qed.

Lemma among_sum L : NoDup L -> lsum (notar_stake st) L = wsum ei (votes_among L).
Proof using Hco.
  induction L as [|h L IH]; intros Hnd.
  - cbn. symmetry. etrans; [|apply (nsum_zero (Z.to_nat (ei_validator_cnt ei)))]. apply nsum_ext. intros i _.
    unfold votes_among. by destruct (notar_of _ i).
  - apply NoDup_cons in Hnd as [Hh Hnd]. change (lsum (notar_stake st) (h :: L)) with (notar_stake st h + lsum (notar_stake st) L).
    rewrite (IH Hnd), notar_stake_wsum, wsum_or.
    + apply wsum_ext. intros i _. unfold notar_for, votes_among.
      destruct (notar_of (ss_votes_ st) i) as [h'|]; [|by rewrite bool_decide_eq_false_2].
      destruct (decide (h' = h)) as [->|Hne].
      * rewrite (bool_decide_eq_true_2 (Some h = Some h)) by done. cbn. symmetry. apply bool_decide_eq_true_2. by left.
      * rewrite (bool_decide_eq_false_2 (Some h' = Some h)) by congruence. cbn. apply bool_decide_ext.
        rewrite elem_of_cons. naive_solver.
    + intros i _. unfold notar_for, votes_among. intros E%bool_decide_eq_true. rewrite E.
      by intros ?%bool_decide_eq_true.
Qed.

Lemma total_pos : 0 < T.
Proof using Hco.
  pose proof (co_epoch _ Hco) as Hwf. rewrite (ewf_total _ Hwf).
  pose proof (ewf_pos _ Hwf) as Hp. pose proof (ewf_stake _ Hwf 0 ltac:(lia)) as Hs.
  enough (stake_of ei 0 <= nsum (stake_of ei) (Z.to_nat (ei_validator_cnt ei))) by lia.
  apply nsum_single_le; [lia|]. intros i Hi. apply (stake_of_nonneg _ Hwf). lia.
Qed.

(** The voters of distinct blocks and the skip voters are distinct. *)
Lemma among_skip_sum L :
  NoDup L -> lsum (notar_stake st) L + vk_skip (ss_voted_stakes st)
    = wsum ei (fun i => votes_among L i || skips (ss_votes_ st) i).
Proof using Hco.
  intros Hnd. rewrite (among_sum L Hnd), (st_skip _ _ _ (co_stakes _ Hco)). apply wsum_or.
  intros i Hi Ha Hs. pose proof (co_voters _ Hco i Hi) as Hv.
  enough (notars (ss_votes_ st) i = true) as Hn by (rewrite (vo_notar_skip _ _ _ Hv Hn) in Hs; done).
  unfold votes_among, notar_of in Ha. unfold notars. by destruct (present _).
Qed.

Lemma among_skip_le L : NoDup L -> lsum (notar_stake st) L + vk_skip (ss_voted_stakes st) <= T.
Proof using Hco. intros Hnd. rewrite among_skip_sum by done. apply (wsum_le _ (co_epoch _ Hco)). Qed.

Lemma among_own_lt L :
  NoDup L -> voting st = true -> notars (ss_votes_ st) (ss_own_rank st) = true ->
  (forall h, h ∈ L -> own_for st h = false) ->
  lsum (notar_stake st) L + vk_skip (ss_voted_stakes st) < T.
Proof using Hco.
  intros Hnd Hvo Hno Hfor. rewrite among_skip_sum by done. pose proof (co_epoch _ Hco) as Hwf.
  pose proof (co_own _ Hco Hvo) as Hown. pose proof (co_voters _ Hco _ Hown) as Hv.
  set (b := fun i => votes_among L i || skips (ss_votes_ st) i).
  set (b' := fun i => b i || (i =? ss_own_rank st)).
  assert (b (ss_own_rank st) = false) as Hb.
  { unfold b. rewrite (vo_notar_skip _ _ _ Hv Hno), orb_false_r. unfold votes_among.
    destruct (notar_of _ _) as [h|] eqn:E; [|done]. apply bool_decide_eq_false_2. intros Hin.
    specialize (Hfor h Hin). unfold own_for, notar_for in Hfor. rewrite Hvo, E, bool_decide_eq_true_2 in Hfor; done. }
  assert (wsum ei b' = wsum ei b + stake_of ei (ss_own_rank st)) as E.
  { apply wsum_more; [done|done|unfold b'; by rewrite Z.eqb_refl, orb_true_r|].
    intros j Hj Hne. unfold b'. by rewrite (proj2 (Z.eqb_neq _ _) Hne), orb_false_r. }
  pose proof (ewf_stake _ Hwf _ Hown). pose proof (wsum_le ei Hwf b'). lia.
Qed.

Lemma weakest_spec h : weakest st h = true <-> T <= notar_stake st h * 5.
Proof. unfold weakest. rewrite is_weakest_quorum_spec. lia. Qed.

Lemma eligible_spec h :
  eligible st h = true <-> T <= notar_stake st h * 5 /\
    (T * 2 <= notar_stake st h * 5 \/ T * 3 <= (notar_stake st h + vk_skip (ss_voted_stakes st)) * 5).
Proof using Hco.
  unfold eligible. rewrite andb_true_iff, orb_true_iff, weakest_spec, is_weak_quorum_spec, is_quorum_spec.
  rewrite u64_add_small; [done|].
  pose proof (among_skip_le [h] ltac:(apply NoDup_singleton)) as Hle. cbn in Hle.
  pose proof (wsum_le ei (co_epoch _ Hco) (skips (ss_votes_ st))) as Hs.
  rewrite <- (st_skip _ _ _ (co_stakes _ Hco)) in Hs. pose proof (wsum_le ei (co_epoch _ Hco) (notar_for (ss_votes_ st) h)).
  rewrite <- notar_stake_wsum in *. pose proof (ewf_u64 _ (co_epoch _ Hco)). unfold is_u64 in *. lia.
Qed.

Lemma skip_nonneg : 0 <= vk_skip (ss_voted_stakes st).
Proof using Hco. rewrite (st_skip _ _ _ (co_stakes _ Hco)). apply (wsum_le _ (co_epoch _ Hco)). Qed.

Lemma few_weakest L : NoDup L -> (forall h, h ∈ L -> weakest st h = true) -> (length L <= 5)%nat.
Proof using Hco.
  intros Hnd Hw. pose proof (among_skip_le L Hnd) as Hle. pose proof skip_nonneg. pose proof total_pos.
  assert (lsum (fun _ => T) L <= lsum (fun h => notar_stake st h * 5) L) as Hs
    by (apply lsum_le; intros h Hh; by apply weakest_spec, Hw).
  rewrite lsum_const in Hs.
  assert (lsum (fun h => notar_stake st h * 5) L = lsum (notar_stake st) L * 5) as E
    by (clear; induction L as [|h L IH]; cbn; [done|]; unfold lsum in IH; lia).
  nia.
Qed.

(** At most three blocks are eligible, and at most two besides a block this
    validator voted for. *)
Lemma few_eligible L : NoDup L -> (forall h, h ∈ L -> eligible st h = true) -> (length L <= 3)%nat.
Proof using Hco.
  intros Hnd He. destruct (Nat.le_gt_cases (length L) 3) as [|Hl]; [done|exfalso].
  destruct L as [|h1 [|h2 [|h3 [|h4 L]]]]; cbn in Hl; try lia.
  change (h1 :: h2 :: h3 :: h4 :: L) with ([h1; h2; h3; h4] ++ L) in Hnd, He. apply NoDup_app in Hnd as (Hnd & _).
  pose proof (among_skip_le _ Hnd) as Hle. unfold lsum in Hle. cbn [foldr] in Hle.
  pose proof (proj1 (eligible_spec h1) (He h1 ltac:(apply list_elem_of_In; cbn; auto))). pose proof (proj1 (eligible_spec h2) (He h2 ltac:(apply list_elem_of_In; cbn; auto))).
  pose proof (proj1 (eligible_spec h3) (He h3 ltac:(apply list_elem_of_In; cbn; auto))). pose proof (proj1 (eligible_spec h4) (He h4 ltac:(apply list_elem_of_In; cbn; auto))).
  pose proof total_pos. pose proof skip_nonneg. lia.
Qed.

Lemma few_eligible_own L :
  NoDup L -> voting st = true -> notars (ss_votes_ st) (ss_own_rank st) = true ->
  (forall h, h ∈ L -> eligible st h = true /\ own_for st h = false) -> (length L <= 2)%nat.
Proof using Hco.
  intros Hnd Hvo Hno He. destruct (Nat.le_gt_cases (length L) 2) as [|Hl]; [done|exfalso].
  destruct L as [|h1 [|h2 [|h3 L]]]; cbn in Hl; try lia.
  change (h1 :: h2 :: h3 :: L) with ([h1; h2; h3] ++ L) in Hnd, He. apply NoDup_app in Hnd as (Hnd & _).
  pose proof (among_own_lt _ Hnd Hvo Hno ltac:(intros h Hh; apply He, elem_of_app; by left)) as Hle.
  unfold lsum in Hle. cbn [foldr] in Hle.
  pose proof (proj1 (eligible_spec h1) (proj1 (He h1 ltac:(apply list_elem_of_In; cbn; auto)))).
  pose proof (proj1 (eligible_spec h2) (proj1 (He h2 ltac:(apply list_elem_of_In; cbn; auto)))).
  pose proof (proj1 (eligible_spec h3) (proj1 (He h3 ltac:(apply list_elem_of_In; cbn; auto)))).
  pose proof total_pos. pose proof skip_nonneg. lia.
Qed.
End Count.

(** * The small sets *)

Lemma set_contains_spec l h : set_contains l h = true <-> h ∈ l.
Proof.
  unfold set_contains. rewrite existsb_exists. split.
  - intros (x & Hx & E). apply hash_eqb_true in E. subst. by apply list_elem_of_In.
  - intros Hx. exists h. by rewrite hash_eqb_refl, <- list_elem_of_In.
Qed.

Lemma set_insert_ok l h :
  NoDup l -> (length l <= 5)%nat -> exists l', set_insert l h = Ok l' /\ NoDup l' /\
    (forall x, x ∈ l' <-> x = h \/ x ∈ l) /\ (h ∉ l -> l' = l ++ [h]).
Proof.
  intros Hnd Hl. unfold set_insert. destruct (set_contains l h) eqn:E.
  - apply set_contains_spec in E. exists l. split_and!; [done|done|naive_solver|done].
  - rewrite check_true_ok by (unfold AG_EQVOC_BLOCK_HASH_MAX; lia). cbn [mbind outcome_bind].
    assert (h ∉ l) by (rewrite <- set_contains_spec, E; done).
    exists (l ++ [h]). split_and!; [done| |intros x; rewrite elem_of_app, list_elem_of_singleton; tauto|done].
    apply NoDup_app. split_and!; [done| |apply NoDup_singleton]. intros x Hx ->%list_elem_of_singleton. done.
Qed.

Lemma set_remove_perm l h : h ∈ l -> h :: set_remove l h ≡ₚ l.
Proof.
  induction l as [|x l IH]; [by intros ?%not_elem_of_nil|]. intros Hin. cbn. destruct (hash_eqb x h) eqn:E.
  - apply hash_eqb_true in E. subst x. f_equiv. destruct (last l) as [y|] eqn:El.
    + apply last_Some in El as [l' ->]. rewrite removelast_last. apply Permutation_cons_append.
    + by apply last_None in El as ->.
  - apply hash_eqb_false in E. apply elem_of_cons in Hin as [Hin|Hin]; [congruence|].
    rewrite Permutation_swap. f_equiv. by apply IH.
Qed.

Lemma set_remove_absent l h : h ∉ l -> set_remove l h = l.
Proof.
  induction l as [|x l IH]; [done|]. intros Hn. apply not_elem_of_cons in Hn as [Hne Hn]. cbn.
  replace (hash_eqb x h) with false by (symmetry; apply hash_eqb_false; congruence). by rewrite IH.
Qed.

Lemma set_remove_spec l h :
  NoDup l -> NoDup (set_remove l h) /\ forall x, x ∈ set_remove l h <-> x ∈ l /\ x <> h.
Proof.
  intros Hnd. destruct (decide (h ∈ l)) as [Hin|Hn].
  - pose proof (set_remove_perm l h Hin) as Hp. rewrite <- Hp in Hnd. apply NoDup_cons in Hnd as [Hh Hnd].
    split; [done|]. intros x. assert (x ∈ l <-> x = h \/ x ∈ set_remove l h) as -> by (rewrite <- elem_of_cons; by rewrite Hp).
    split; [|tauto]. intros Hx. split; [by right|]. by intros ->.
  - rewrite set_remove_absent by done. split; [done|]. intros x. split; [|tauto]. intros Hx. split; [done|]. by intros ->.
Qed.

(** * Checking one block *)

(** Only the two sets and the safe-to-skip flag differ. *)
Definition with_sets (st : ag_slot_state_t) p s b : ag_slot_state_t := set_sent_skip (set_s2n st p s) b.
Definition same_core (st st' : ag_slot_state_t) : Prop := exists p s b, st' = with_sets st p s b.

Lemma same_core_refl st : same_core st st.
Proof. exists (ss_pending_safe_to_notar st), (ss_sent_safe_to_notar st), (ss_sent_safe_to_skip st). by destruct st. Qed.

Lemma same_core_trans a b c : same_core a b -> same_core b c -> same_core a c.
Proof. intros (p & s & x & ->) (p' & s' & x' & ->). by exists p', s', x'. Qed.

Lemma same_core_inv a b : same_core a b -> core_inv a -> core_inv b.
Proof. intros (p & s & x & ->) [H1 H2 H3 H4 H5 H6]. by split. Qed.

Lemma same_core_eq a b :
  same_core a b -> (weakest b = weakest a) /\ (eligible b = eligible a) /\ (certified b = certified a) /\
    (own_for b = own_for a) /\ (s2n_ready b = s2n_ready a) /\ s2s_ready b = s2s_ready a /\
    ss_parents b = ss_parents a.
Proof. by intros (p & s & x & ->). Qed.

Lemma ready_weakest st h : s2n_ready st h = true -> weakest st h = true.
Proof. unfold s2n_ready, eligible. destruct (weakest st h); done. Qed.

Section Check.
Context (st : ag_slot_state_t) (Hco : core_inv st) (Hse : sets_inv st).

Lemma to_pending_ok h :
  weakest st h = true ->
  exists st', to_pending st h = Ok st' /\ same_core st st' /\ sets_inv st' /\
    ss_sent_safe_to_notar st' = ss_sent_safe_to_notar st /\ ss_sent_safe_to_skip st' = ss_sent_safe_to_skip st /\
    forall x, x ∈ ss_pending_safe_to_notar st' <-> x = h \/ x ∈ ss_pending_safe_to_notar st.
Proof using Hco Hse.
  intros Hw. destruct (se_pending _ Hse) as [Hnd Hpw]. unfold to_pending.
  destruct (set_insert_ok _ h Hnd (few_weakest st Hco _ Hnd Hpw)) as (l' & -> & Hnd' & Hin & _).
  cbn [mbind outcome_bind]. eexists. split; [done|]. split_and!; try done.
  - by exists l', (ss_sent_safe_to_notar st), (ss_sent_safe_to_skip st).
  - split; cbn; [split; [done|]|apply Hse]. intros x [->|Hx]%Hin; [done|]. by apply Hpw.
Qed.

Lemma to_sent_ok h :
  s2n_ready st h = true -> h ∉ ss_sent_safe_to_notar st ->
  exists st', to_sent st h = Ok st' /\ same_core st st' /\ sets_inv st' /\
    ss_sent_safe_to_notar st' = ss_sent_safe_to_notar st ++ [h] /\ ss_sent_safe_to_skip st' = ss_sent_safe_to_skip st /\
    forall x, x ∈ ss_pending_safe_to_notar st' <-> x ∈ ss_pending_safe_to_notar st /\ x <> h.
Proof using Hco Hse.
  intros Hr Hn. destruct (se_pending _ Hse) as [Hnd Hpw]. destruct (se_sent _ Hse) as [Hsnd Hsr]. unfold to_sent.
  assert (length (ss_sent_safe_to_notar st) <= 5)%nat as Hl
    by (apply (few_weakest st Hco _ Hsnd); intros x Hx; by apply ready_weakest, Hsr).
  destruct (set_insert_ok _ h Hsnd Hl) as (l' & -> & Hnd' & Hin & Happ). specialize (Happ Hn). subst l'.
  destruct (set_remove_spec (ss_pending_safe_to_notar st) h Hnd) as [Hrnd Hrin].
  cbn [mbind outcome_bind]. eexists. split; [done|]. split_and!; try done.
  - by exists (set_remove (ss_pending_safe_to_notar st) h), (ss_sent_safe_to_notar st ++ [h]), (ss_sent_safe_to_skip st).
  - split; cbn; (split; [done|]).
    + intros x [Hx _]%Hrin. by apply Hpw.
    + intros x [->|Hx]%Hin; [done|]. by apply Hsr.
Qed.

Lemma eligible_code h :
  negb (negb (ag_epoch_info_is_weak_quorum (ss_epoch_info st) (notar_stake st h)) &&
        negb (ag_epoch_info_is_quorum (ss_epoch_info st) (notar_stake st h +w vk_skip (ss_voted_stakes st)))) && weakest st h
  = eligible st h.
Proof. unfold eligible. rewrite negb_andb, !negb_involutive. apply andb_comm. Qed.

(** What [check_safe_to_notar] answers, and what it remembers. *)
Record checked (h : ag_block_hash_t) (st' : ag_slot_state_t) (r : safe_to_notar_status) : Prop := {
  ck_core : same_core st st';
  ck_sets : sets_inv st';
  ck_flag : ss_sent_safe_to_skip st' = ss_sent_safe_to_skip st;
  ck_tracked : forall x, tracked st x \/ (x = h /\ weakest st h = true) -> tracked st' x;
  ck_status : match r with
    | StSafeToNotar => s2n_ready st h = true /\ ss_sent_safe_to_notar st' = ss_sent_safe_to_notar st ++ [h]
    | StMissingBlock => eligible st h = true /\ find_parent (ss_parents st) h = None /\
        ss_sent_safe_to_notar st' = ss_sent_safe_to_notar st
    | StAwaitingVotes => ss_sent_safe_to_notar st' = ss_sent_safe_to_notar st
    end;
  ck_ready : s2n_ready st h = true -> r = StSafeToNotar
}.

Lemma checked_same h r :
  match r with StSafeToNotar => False
  | StMissingBlock => eligible st h = true /\ find_parent (ss_parents st) h = None | StAwaitingVotes => True end ->
  s2n_ready st h = false -> (weakest st h = true -> tracked st h) -> checked h st r.
Proof using Hse.
  intros Hr Hn Hw. split; try done.
  - apply same_core_refl.
  - intros x [Hx|[-> Hx]]; auto.
  - destruct r; naive_solver.
  - congruence.
Qed.

Lemma checked_pending h :
  weakest st h = true -> s2n_ready st h = false ->
  exists st', to_pending st h = Ok st' /\ checked h st' StAwaitingVotes.
Proof using Hco Hse.
  intros Hw Hn. destruct (to_pending_ok h Hw) as (st' & E & Hc & Hs & Hse' & Hf & Hp). exists st'. split; [done|].
  destruct (same_core_eq _ _ Hc) as (_ & Ee & Ec & Eo & _). split; try done; [|congruence].
  unfold tracked. rewrite Ee, Ec, Eo, Hse'. intros x. setoid_rewrite Hp. naive_solver.
Qed.

Lemma checked_sent h :
  h ∉ ss_sent_safe_to_notar st -> s2n_ready st h = true ->
  exists st', to_sent st h = Ok st' /\ checked h st' StSafeToNotar.
Proof using Hco Hse.
  intros Hn Hr. destruct (to_sent_ok h Hr Hn) as (st' & E & Hc & Hs & Hse' & Hf & Hp). exists st'. split; [done|].
  destruct (same_core_eq _ _ Hc) as (_ & Ee & Ec & Eo & _). split; try done.
  unfold tracked. rewrite Ee, Ec, Eo, Hse'. intros x. setoid_rewrite Hp. rewrite elem_of_app, list_elem_of_singleton.
  destruct (decide (x = h)); naive_solver.
Qed.

Lemma notar_for_code v h i :
  notar_for v h i = notars v i && hash_eqb (vn_block_hash (notar_at v i)) h.
Proof.
  unfold notar_for, notar_of, notars, hash_eqb. destruct (present _); cbn; [|done]. apply bool_decide_ext.
  split; congruence.
Qed.

Lemma check_safe_to_notar_ok h :
  h ∉ ss_sent_safe_to_notar st ->
  exists st' r, check_safe_to_notar st h = Ok (st', r) /\ checked h st' r.
Proof using Hco Hse.
  intros Hn. unfold check_safe_to_notar. fold (notar_stake st h). cbv zeta. fold (weakest st h).
  destruct (weakest st h) eqn:Hw; cbn [negb].
  2:{ exists st, StAwaitingVotes. split; [done|]. apply checked_same; [done| |congruence].
      destruct (s2n_ready st h) eqn:E; [|done]. apply ready_weakest in E. congruence. }
  pose proof (eligible_code h) as He. rewrite Hw, andb_true_r in He. destruct (_ && _); cbn [negb] in He.
  { destruct (checked_pending h Hw) as (st' & -> & Hc); [unfold s2n_ready; by rewrite <- He|].
    exists st', StAwaitingVotes. by split. }
  assert (certified st h = match find_parent (ss_parents st) h with
    | Some p => match ps_kind p with ParentCertified => true | ParentKnown => false end | None => false end) as Hcert by done.
  destruct (find_parent (ss_parents st) h) as [p|] eqn:Ep.
  2:{ exists st, StMissingBlock. split; [done|]. apply checked_same; [done|unfold s2n_ready; by rewrite Hcert, andb_false_r|].
      intros _. right; right; left. by split. }
  destruct (ps_kind p).
  { exists st, StAwaitingVotes. split; [done|]. apply checked_same; [done|unfold s2n_ready; by rewrite Hcert, andb_false_r|].
    intros _. right; right; left. by split. }
  assert (s2n_ready st h = own_against st h) as Hr by (unfold s2n_ready; by rewrite Hcert, <- He).
  pose proof (notar_for_code (ss_votes_ st) h (ss_own_rank st)) as Hfor.
  unfold own_against, voting in Hr. fold (skips (ss_votes_ st) (ss_own_rank st)) (notars (ss_votes_ st) (ss_own_rank st)).
  rewrite Hfor in Hr. destruct (negb (ss_own_rank st =? USHORT_MAX)) eqn:Hvo; cbn [andb] in Hr |- *.
  - destruct (skips (ss_votes_ st) (ss_own_rank st)); [|destruct (notars (ss_votes_ st) (ss_own_rank st)) eqn:Hno].
    + destruct (checked_sent h Hn Hr) as (st' & -> & Hc). by exists st', StSafeToNotar.
    + destruct (hash_eqb _ h) eqn:Eh; cbn [negb andb orb] in Hr |- *.
      * exists st, StAwaitingVotes. split; [done|]. apply checked_same; [done|done|]. intros _. right; right; right.
        unfold own_for, voting. by rewrite Hvo, Hfor.
      * destruct (checked_sent h Hn Hr) as (st' & -> & Hc). by exists st', StSafeToNotar.
    + destruct (checked_pending h Hw Hr) as (st' & -> & Hc). by exists st', StAwaitingVotes.
  - destruct (checked_pending h Hw Hr) as (st' & -> & Hc). by exists st', StAwaitingVotes.
Qed.
End Check.

(** * Emitting events *)

Definition s2n_hashes (events : list ag_event_pool_kind) : list ag_block_hash_t :=
  omap (fun e => match e with SafeToNotar b => Some (bid_hash b) | _ => None end) events.

(** The events and repairs of an output are due in the state [st]. *)
Definition due (st : ag_slot_state_t) (e : ag_event_pool_kind) : Prop :=
  match e with
  | SafeToNotar b => bid_slot b = ss_slot_ st /\ s2n_ready st (bid_hash b) = true
  | SafeToSkip s => s = ss_slot_ st /\ s2s_ready st = true
  | _ => False
  end.
Definition missing (st : ag_slot_state_t) (b : ag_block_id_t) : Prop :=
  bid_slot b = ss_slot_ st /\ eligible st (bid_hash b) = true /\ find_parent (ss_parents st) (bid_hash b) = None.

(** From [st1] on, [so] emitted events and updated the sets. *)
Record emitted (st1 : ag_slot_state_t) (so : ag_slot_state_t * ag_slot_state_outputs_t) : Prop := {
  em_core : same_core st1 so.1;
  em_sets : sets_inv so.1;
  em_tracked : forall h, tracked st1 h -> tracked so.1 h;
  em_sent : ss_sent_safe_to_notar so.1 = ss_sent_safe_to_notar st1 ++ s2n_hashes (out_events so.2);
  em_events : Forall (due st1) (out_events so.2);
  em_flag : ss_sent_safe_to_skip so.1 = ss_sent_safe_to_skip st1 \/ (ss_sent_safe_to_skip so.1 = true /\ s2s_ready st1 = true);
  em_count : Z.of_nat (length (out_events so.2)) = Z.of_nat (length (s2n_hashes (out_events so.2))) +
    (if ss_sent_safe_to_skip so.1 && negb (ss_sent_safe_to_skip st1) then 1 else 0);
  em_repairs : NoDup (bid_hash <$> out_repairs so.2) /\ Forall (missing st1) (out_repairs so.2)
}.

Lemma due_hashes st events h : Forall (due st) events -> h ∈ s2n_hashes events -> s2n_ready st h = true.
Proof.
  intros Hd Hin. apply list_elem_of_omap in Hin as (e & He & E). rewrite Forall_forall in Hd. specialize (Hd e He).
  destruct e; simplify_eq. apply Hd.
Qed.

Lemma ready_own st h :
  s2n_ready st h = true -> eligible st h = true /\ (notars (ss_votes_ st) (ss_own_rank st) = true ->
    skips (ss_votes_ st) (ss_own_rank st) = false -> own_for st h = false).
Proof.
  unfold s2n_ready, own_against, own_for. intros H. boolp. split; [done|]. intros Hn Hs. rewrite Hn, Hs in *.
  destruct (voting st); [|done]. cbn in *. by destruct (notar_for _ _ _).
Qed.

(** There is room for one more event. *)
Lemma few_ready st L :
  core_inv st -> NoDup L -> (forall h, h ∈ L -> s2n_ready st h = true) ->
  (length L <= 3)%nat /\ (s2s_ready st = true -> (length L <= 2)%nat).
Proof.
  intros Hco Hnd Hr. split; [apply (few_eligible st Hco L Hnd); intros h Hh; by apply (ready_own st h), Hr|].
  unfold s2s_ready. intros Hs. boolp. apply (few_eligible_own st Hco L Hnd); try done. intros h Hh.
  destruct (ready_own st h (Hr h Hh)) as [He Ho]. split; [done|]. apply Ho; [done|].
  eapply vo_notar_skip; [|done]. by apply (co_voters _ Hco), (co_own _ Hco).
Qed.

Section Emit.
Context (st1 : ag_slot_state_t) (Hco : core_inv st1).

Lemma emitted_start : sets_inv st1 -> emitted st1 (st1, no_outputs).
Proof.
  intros Hse. split; cbn; try done; [apply same_core_refl|by rewrite app_nil_r|by left| |by split; [apply NoDup_nil|]].
  by destruct (ss_sent_safe_to_skip st1).
Qed.

Lemma s2n_hashes_app l1 l2 : s2n_hashes (l1 ++ l2) = s2n_hashes l1 ++ s2n_hashes l2.
Proof. unfold s2n_hashes. by rewrite omap_app. Qed.

(** Going on from an emitted state: certificates are untouched, sent blocks stay. *)
Record goes_on (so so' : ag_slot_state_t * ag_slot_state_outputs_t) : Prop := {
  go_emitted : emitted st1 so';
  go_certs : out_certs so'.2 = out_certs so.2;
  go_sent : forall x, x ∈ ss_sent_safe_to_notar so.1 -> x ∈ ss_sent_safe_to_notar so'.1;
  go_tracked : forall x, tracked so.1 x -> tracked so'.1 x;
  go_flag : ss_sent_safe_to_skip so.1 = true -> ss_sent_safe_to_skip so'.1 = true
}.

Lemma goes_on_refl so : emitted st1 so -> goes_on so so.
Proof. by split. Qed.

Lemma goes_on_trans a b c : goes_on a b -> goes_on b c -> goes_on a c.
Proof. intros [A1 A2 A3 A4 A5] [B1 B2 B3 B4 B5]. split; [done|congruence|auto..]. Qed.

Lemma push_event_ok st o e :
  emitted st1 (st, o) ->
  (length (s2n_hashes (out_events o)) <= 2)%nat ->
  (s2s_ready st1 = true -> ss_sent_safe_to_skip st && negb (ss_sent_safe_to_skip st1) = true ->
     (length (s2n_hashes (out_events o)) <= 1)%nat) ->
  push_event o e = Ok (mk_outputs (out_certs o) (out_events o ++ [e]) (out_repairs o)).
Proof.
  intros Hem H2 H1. unfold push_event. rewrite check_true_ok; [done|].
  pose proof (em_count _ _ Hem) as Hc. pose proof (em_flag _ _ Hem) as Hf. cbn [fst snd] in *.
  unfold AG_SLOT_STATE_OUT_EVENT_MAX. destruct (_ && _) eqn:E; [|lia]. apply andb_prop in E as [E1 E2].
  destruct Hf as [Hf|[_ Hf]]; [rewrite Hf in E1; by rewrite E1 in E2|]. specialize (H1 Hf eq_refl). lia.
Qed.

(** One more event for a block not sent yet. *)
Lemma emit_safe st o h st' :
  emitted st1 (st, o) -> h ∉ ss_sent_safe_to_notar st -> checked st h st' StSafeToNotar ->
  exists o', emit_s2n (ss_slot_ st1) h StSafeToNotar o = Ok o' /\ goes_on (st, o) (st', o').
Proof using Hco.
  intros Hem Hn [C1 C2 C3 C4 [C5 C5'] _]. pose proof Hem as [E1 E2 E3 E4 E5 E6 E7 E8]. cbn [fst snd] in *.
  destruct (same_core_eq _ _ E1) as (_ & _ & _ & _ & Er & _). rewrite Er in C5.
  set (L := s2n_hashes (out_events o)) in *.
  assert (NoDup (L ++ [h])) as HndL.
  { pose proof (proj1 (se_sent _ C2)) as Hnd. rewrite C5', E4, <- app_assoc in Hnd. by apply NoDup_app in Hnd as (_ & _ & ?). }
  destruct (few_ready st1 (L ++ [h]) Hco HndL) as [H3 H2].
  { intros x [Hx| ->%list_elem_of_singleton]%elem_of_app; [by apply (due_hashes _ _ _ E5)|done]. }
  rewrite length_app in H3, H2. cbn in H3, H2. unfold emit_s2n.
  rewrite (push_event_ok st o _ Hem) by (subst L; first [lia|intros Hs _; specialize (H2 Hs); lia]).
  eexists. split; [done|].
  split; cbn; [|done|intros x Hx; rewrite C5'; apply elem_of_app; by left|intros x Hx; apply C4; by left|by rewrite C3].
  split; cbn.
  - by eapply same_core_trans.
  - done.
  - intros x Hx. apply C4. left. by apply E3.
  - rewrite C5', E4, s2n_hashes_app. cbn. by rewrite app_assoc.
  - apply Forall_app. split; [done|]. by constructor; [split|].
  - by rewrite C3.
  - rewrite length_app, s2n_hashes_app, length_app, C3. cbn. fold L. lia.
  - done.
Qed.

Lemma emit_missing st o h st' :
  emitted st1 (st, o) -> checked st h st' StMissingBlock ->
  exists o', emit_s2n (ss_slot_ st1) h StMissingBlock o = Ok o' /\ goes_on (st, o) (st', o').
Proof using Hco.
  intros Hem [C1 C2 C3 C4 (C5 & C5' & C5'') _]. pose proof Hem as [E1 E2 E3 E4 E5 E6 E7 [E8 E8']]. cbn [fst snd] in *.
  destruct (same_core_eq _ _ E1) as (_ & Ee & _ & _ & _ & _ & Ep). rewrite Ee in C5. rewrite Ep in C5'.
  assert (forall rs, NoDup (bid_hash <$> rs) -> Forall (missing st1) rs ->
    goes_on (st, o) (st', mk_outputs (out_certs o) (out_events o) rs)) as Hgo.
  { intros rs Hnd Hrs. split; cbn; [|done|by rewrite C5''|intros x Hx; apply C4; by left|by rewrite C3]. split; cbn; try done.
    - by eapply same_core_trans.
    - intros x Hx. apply C4. left. by apply E3.
    - by rewrite C5''.
    - by rewrite C3.
    - by rewrite C3. }
  unfold emit_s2n, push_repair. cbn [bid_hash]. destruct (existsb _ _) eqn:Ex.
  { exists o. split; [done|]. destruct o. by apply Hgo. }
  assert (h ∉ bid_hash <$> out_repairs o) as Hn.
  { intros (b & -> & Hb)%list_elem_of_fmap. apply not_true_iff_false in Ex. apply Ex. apply existsb_exists.
    exists b. rewrite <- list_elem_of_In. by rewrite hash_eqb_refl. }
  assert (NoDup (bid_hash <$> out_repairs o ++ [ag_block_id (ss_slot_ st1) h])) as Hnd'.
  { rewrite fmap_app. apply NoDup_app. split_and!; [done| |apply NoDup_singleton]. intros x Hx ->%list_elem_of_singleton. done. }
  assert (Forall (missing st1) (out_repairs o ++ [ag_block_id (ss_slot_ st1) h])) as Hm
    by (apply Forall_app; split; [done|]; by constructor).
  pose proof (few_eligible st1 Hco _ Hnd') as Hfew. rewrite length_fmap, length_app in Hfew. cbn in Hfew.
  rewrite check_true_ok.
  - eexists. split; [done|]. by apply Hgo.
  - unfold AG_SLOT_STATE_OUT_REPAIR_MAX.
    enough (length (out_repairs o) + 1 <= 3)%nat by lia. apply Hfew. intros x (b & -> & Hb)%list_elem_of_fmap.
    rewrite Forall_forall in Hm. apply (Hm b Hb).
Qed.

Lemma try_s2n_ok so h :
  emitted st1 so ->
  exists so', try_s2n (ss_slot_ st1) so h = Ok so' /\ goes_on so so' /\
    (s2n_ready st1 h = true -> h ∈ ss_sent_safe_to_notar so'.1) /\ (weakest st1 h = true -> tracked so'.1 h).
Proof using Hco.
  destruct so as [st o]. intros Hem. unfold try_s2n. destruct (set_contains _ h) eqn:Ec.
  { apply set_contains_spec in Ec. exists (st, o). split; [done|]. split; [by apply goes_on_refl|].
    split; [done|]. intros _. by left. }
  assert (h ∉ ss_sent_safe_to_notar st) as Hn by (rewrite <- set_contains_spec, Ec; done).
  pose proof (em_core _ _ Hem) as Hsc. destruct (same_core_eq _ _ Hsc) as (Ew & _ & _ & _ & Er & _).
  destruct (check_safe_to_notar_ok st (same_core_inv _ _ Hsc Hco) (em_sets _ _ Hem) h Hn) as (st' & r & -> & Hck).
  cbn [mbind outcome_bind fst snd].
  assert (exists o', emit_s2n (ss_slot_ st1) h r o = Ok o' /\ goes_on (st, o) (st', o')) as (o' & -> & Hgo).
  { destruct r; [by apply emit_safe|by apply emit_missing|]. exists o. split; [done|].
    destruct Hem as [E1 E2 E3 E4 E5 E6 E7 E8], Hck as [C1 C2 C3 C4 C5 _]. cbn [fst snd] in *.
    split; cbn; [|done|by rewrite C5|intros x Hx; apply C4; by left|by rewrite C3]. split; cbn; try done.
    - by eapply same_core_trans.
    - intros x Hx. apply C4. left. by apply E3.
    - by rewrite C5.
    - by rewrite C3.
    - by rewrite C3. }
  cbn [mbind outcome_bind]. exists (st', o'). split; [done|]. split; [done|]. cbn. split.
  - intros Hr. cbn in Er. rewrite <- Er in Hr. pose proof (ck_ready _ _ _ _ Hck Hr) as ->.
    destruct (ck_status _ _ _ _ Hck) as [_ ->]. apply elem_of_app. right. by apply list_elem_of_singleton.
  - intros Hw. apply (ck_tracked _ _ _ _ Hck). right. cbn in Ew. by rewrite Ew.
Qed.

Lemma try_s2n_all l so :
  emitted st1 so ->
  exists so', ofold (try_s2n (ss_slot_ st1)) so l = Ok so' /\ goes_on so so' /\
    forall h, h ∈ l -> s2n_ready st1 h = true -> h ∈ ss_sent_safe_to_notar so'.1.
Proof using Hco.
  revert so. induction l as [|h l IH]; intros so Hem; cbn [ofold].
  - exists so. split; [done|]. split; [by apply goes_on_refl|]. by intros h ?%not_elem_of_nil.
  - destruct (try_s2n_ok so h Hem) as (so1 & -> & Hgo & Hr & _). cbn [mbind outcome_bind].
    destruct (IH so1 (go_emitted _ _ Hgo)) as (so2 & -> & Hgo2 & Hr2). exists so2. split; [done|].
    split; [by eapply goes_on_trans|]. intros x [->|Hx]%elem_of_cons Hx'; [|by apply Hr2].
    apply (go_sent _ _ Hgo2). by apply Hr.
Qed.

Lemma process_pending_ok so :
  emitted st1 so ->
  exists so', process_pending (ss_slot_ st1) so.1 so.2 = Ok so' /\ goes_on so so' /\
    forall h, h ∈ ss_pending_safe_to_notar so.1 -> s2n_ready st1 h = true -> h ∈ ss_sent_safe_to_notar so'.1.
Proof using Hco. destruct so as [st o]. apply try_s2n_all. Qed.

Lemma try_s2s_ok so :
  emitted st1 so ->
  exists so', try_s2s (ss_slot_ st1) so.1 so.2 = Ok so' /\ goes_on so so' /\
    ss_sent_safe_to_skip so'.1 = ss_sent_safe_to_skip so.1 || s2s_ready st1 /\
    ss_pending_safe_to_notar so'.1 = ss_pending_safe_to_notar so.1.
Proof using Hco.
  destruct so as [st o]. intros Hem. pose proof Hem as [E1 E2 E3 E4 E5 E6 E7 E8]. cbn [fst snd] in *. unfold try_s2s.
  destruct (same_core_eq _ _ E1) as (_ & _ & _ & _ & _ & Es & _).
  match goal with |- context [if ?b then _ else _] =>
    assert (b = negb (ss_sent_safe_to_skip st) && s2s_ready st1) as -> end.
  { rewrite <- Es. unfold s2s_ready, voting. cbv zeta. by rewrite <- !andb_assoc. }
  destruct (negb (ss_sent_safe_to_skip st) && s2s_ready st1) eqn:E.
  - apply andb_prop in E as [Ens Esr]. apply negb_true_iff in Ens.
    assert (ss_sent_safe_to_skip st1 = false) as Hns by (destruct E6 as [?|[? _]]; congruence).
    destruct (few_ready st1 (s2n_hashes (out_events o)) Hco) as [_ H2].
    { pose proof (proj1 (se_sent _ E2)) as Hnd. rewrite E4 in Hnd. by apply NoDup_app in Hnd as (_ & _ & ?). }
    { intros h. by apply due_hashes. }
    specialize (H2 Esr). rewrite (push_event_ok st o) by (done || rewrite Ens; done).
    eexists. split; [done|]. cbn. split; [|by rewrite Ens, Esr]. split; cbn; [|done..]. split; cbn.
    + eapply same_core_trans; [done|]. by exists (ss_pending_safe_to_notar st), (ss_sent_safe_to_notar st), true.
    + by destruct E2 as [? ?]; split.
    + intros h Hh. by apply E3.
    + by rewrite E4, s2n_hashes_app, app_nil_r.
    + apply Forall_app. split; [done|]. by constructor.
    + by right.
    + rewrite length_app, s2n_hashes_app, app_nil_r, Hns. rewrite Ens in E7. cbn in E7 |- *. lia.
    + done.
  - exists (st, o). split; [done|]. split; [by apply goes_on_refl|]. cbn.
    destruct (ss_sent_safe_to_skip st); [done|]. cbn in E. by rewrite E.
Qed.
End Emit.
