(* ===== verification/Pool.v ===== *)
(** The pool (src/src/choreo/votor/ag_pool.h, ag_pool.c): the slot states of
    the unpruned slots, the two trackers, the blocks that wait for a
    certificate of their parent, and the queues of events for the voting
    engine and for repair.

    The maps are finite maps of bounded size, the queues lists with the
    capacity [slot_max]; the scratch arrays live only during a call.  A slot
    state records its epoch info by pointer; where the C code would record a
    NULL pointer, because no epoch was set before, the model stops with
    [NullPtr]. *)
From S2P Require Import Prelude VotorBase Bls Vote EpochInfo Cert FinalityTracker ParentReady SlotState.

(** The results of [ag_pool_add_cert] and [ag_pool_add_vote]. *)
Inductive pool_err := AG_POOL_SUCCESS | AG_POOL_ERR_SLOT_OUT_OF_BOUNDS | AG_POOL_ERR_DUPLICATE
  | AG_POOL_ERR_SLASHABLE | AG_POOL_ERR_HASH_CAPACITY.

#[export] Instance pool_err_eq_dec : EqDecision pool_err.
Proof. solve_decision. Defined.

Record ag_pool_t := mk_pool {
  pl_slot_states : gmap Z ag_slot_state_t;
  pl_parent_ready_tracker : ag_parent_ready_tracker_t;
  pl_finality_tracker : ag_finality_tracker_t;
  pl_s2n_waiting_parent_cert : gmap ag_block_id_t ag_block_id_t;
  pl_curr_epoch_info : option ag_epoch_info_t;
  pl_curr_epoch_rank : Z;
  pl_curr_epoch_slot : Z;
  pl_next_epoch_info : option ag_epoch_info_t;
  pl_next_epoch_rank : Z;
  pl_next_epoch_slot : Z;
  pl_pool_events : list ag_event_pool_t;
  pl_repair_events : list ag_event_repair_t;
  pl_seq : Z;
  pl_slot_max : Z
}.

Definition pl_set_slot_states (p : ag_pool_t) x :=
  mk_pool x (pl_parent_ready_tracker p) (pl_finality_tracker p) (pl_s2n_waiting_parent_cert p)
    (pl_curr_epoch_info p) (pl_curr_epoch_rank p) (pl_curr_epoch_slot p) (pl_next_epoch_info p)
    (pl_next_epoch_rank p) (pl_next_epoch_slot p) (pl_pool_events p) (pl_repair_events p) (pl_seq p)
    (pl_slot_max p).
Definition pl_set_prt (p : ag_pool_t) x :=
  mk_pool (pl_slot_states p) x (pl_finality_tracker p) (pl_s2n_waiting_parent_cert p)
    (pl_curr_epoch_info p) (pl_curr_epoch_rank p) (pl_curr_epoch_slot p) (pl_next_epoch_info p)
    (pl_next_epoch_rank p) (pl_next_epoch_slot p) (pl_pool_events p) (pl_repair_events p) (pl_seq p)
    (pl_slot_max p).
Definition pl_set_ft (p : ag_pool_t) x :=
  mk_pool (pl_slot_states p) (pl_parent_ready_tracker p) x (pl_s2n_waiting_parent_cert p)
    (pl_curr_epoch_info p) (pl_curr_epoch_rank p) (pl_curr_epoch_slot p) (pl_next_epoch_info p)
    (pl_next_epoch_rank p) (pl_next_epoch_slot p) (pl_pool_events p) (pl_repair_events p) (pl_seq p)
    (pl_slot_max p).
Definition pl_set_s2n (p : ag_pool_t) x :=
  mk_pool (pl_slot_states p) (pl_parent_ready_tracker p) (pl_finality_tracker p) x
    (pl_curr_epoch_info p) (pl_curr_epoch_rank p) (pl_curr_epoch_slot p) (pl_next_epoch_info p)
    (pl_next_epoch_rank p) (pl_next_epoch_slot p) (pl_pool_events p) (pl_repair_events p) (pl_seq p)
    (pl_slot_max p).
Definition pl_set_events (p : ag_pool_t) evs reps seq :=
  mk_pool (pl_slot_states p) (pl_parent_ready_tracker p) (pl_finality_tracker p)
    (pl_s2n_waiting_parent_cert p) (pl_curr_epoch_info p) (pl_curr_epoch_rank p) (pl_curr_epoch_slot p)
    (pl_next_epoch_info p) (pl_next_epoch_rank p) (pl_next_epoch_slot p) evs reps seq (pl_slot_max p).
Definition pl_set_epochs (p : ag_pool_t) ci cr cs ni nr ns :=
  mk_pool (pl_slot_states p) (pl_parent_ready_tracker p) (pl_finality_tracker p)
    (pl_s2n_waiting_parent_cert p) ci cr cs ni nr ns (pl_pool_events p) (pl_repair_events p) (pl_seq p)
    (pl_slot_max p).

Definition ag_pool_align : Z := 128.

(** NULL when the memory is NULL or misaligned, or when the footprint is zero,
    which it is when [slot_max] is less than a leader window.  The trackers are
    laid out at aligned addresses inside the same memory. *)
Definition ag_pool_new (mem slot_max : Z) : option ag_pool_t :=
  if mem =? 0 then None
  else if negb (mem mod ag_pool_align =? 0) then None
  else if slot_max <? AG_SLOTS_PER_WINDOW then None
  else
    prt ← ag_parent_ready_tracker_new mem slot_max;
    ft ← ag_finality_tracker_new mem slot_max;
    Some (mk_pool ∅ prt ft ∅ None 0 ULONG_MAX None 0 ULONG_MAX [] [] 0 slot_max).

Definition s2n_max (self : ag_pool_t) : Z := pl_slot_max self *w AG_EQVOC_BLOCK_HASH_MAX.

(** * Queues *)

Definition pool_events_push (self : ag_pool_t) (k : ag_event_pool_kind) : outcome ag_pool_t :=
  check OutOfBounds (Z.of_nat (length (pl_pool_events self)) <? pl_slot_max self);;
  Ok (pl_set_events self (pl_pool_events self ++ [mk_event_pool (pl_seq self) 0 k])
        (pl_repair_events self) (pl_seq self +w 1)).

Definition repair_events_push (self : ag_pool_t) (b : ag_block_id_t) : outcome ag_pool_t :=
  check OutOfBounds (Z.of_nat (length (pl_repair_events self)) <? pl_slot_max self);;
  Ok (pl_set_events self (pl_pool_events self)
        (pl_repair_events self ++ [mk_event_repair (pl_seq self) 0 b]) (pl_seq self +w 1)).

Definition ag_pool_poll_pool_event (self : ag_pool_t) : ag_pool_t * option ag_event_pool_t :=
  match pl_pool_events self with
  | [] => (self, None)
  | e :: es => (pl_set_events self es (pl_repair_events self) (pl_seq self), Some e)
  end.

Definition ag_pool_poll_repair_event (self : ag_pool_t) : ag_pool_t * option ag_event_repair_t :=
  match pl_repair_events self with
  | [] => (self, None)
  | e :: es => (pl_set_events self (pl_pool_events self) es (pl_seq self), Some e)
  end.

(** * Queries *)

Definition ag_pool_finalized_slot (self : ag_pool_t) : Z :=
  ft_highest_finalized_slot (pl_finality_tracker self).

Definition ag_pool_finalized_block_hash (self : ag_pool_t) (slot : Z) : bool * option ag_block_hash_t :=
  let '(kind, h) := ag_finality_tracker_status (pl_finality_tracker self) slot in
  ((kind =? 2) || (kind =? 3), h).

Definition ag_pool_parents_ready (self : ag_pool_t) (slot : Z) : list ag_block_id_t :=
  ag_parent_ready_tracker_parents_ready (pl_parent_ready_tracker self) slot.

Definition ag_pool_wait_for_parent_ready (self : ag_pool_t) (slot : Z) : option ag_block_id_t :=
  ag_parent_ready_tracker_wait_for_parent_ready (pl_parent_ready_tracker self) slot.

(** * Slot states *)

Definition epoch_info_at (self : ag_pool_t) (slot : Z) : option ag_epoch_info_t :=
  if pl_next_epoch_slot self <=? slot then pl_next_epoch_info self else pl_curr_epoch_info self.
Definition epoch_rank_at (self : ag_pool_t) (slot : Z) : Z :=
  if pl_next_epoch_slot self <=? slot then pl_next_epoch_rank self else pl_curr_epoch_rank self.

Definition slot_state (self : ag_pool_t) (slot : Z) : outcome (ag_pool_t * ag_slot_state_t) :=
  match pl_slot_states self !! slot with
  | Some st => Ok (self, st)
  | None =>
      check FdTest (Z.of_nat (size (pl_slot_states self)) <? pl_slot_max self);;
      match epoch_info_at self slot with
      | None => Fail NullPtr
      | Some info =>
          let st := ag_slot_state_zero slot info (epoch_rank_at self slot) in
          Ok (pl_set_slot_states self (<[slot := st]> (pl_slot_states self)), st)
      end
  end.

Definition put_slot_state (self : ag_pool_t) (slot : Z) (st : ag_slot_state_t) : ag_pool_t :=
  pl_set_slot_states self (<[slot := st]> (pl_slot_states self)).

(** * Certificates *)

Definition finalization_event_default (self : ag_pool_t) : ag_finalization_event_t :=
  ag_finalization_event_default (pl_slot_max self).

Definition push_parent_ready (self : ag_pool_t) (best : option ag_parent_ready_t) : outcome ag_pool_t :=
  match best with
  | Some r => pool_events_push self (ParentReady r)
  | None => Ok self
  end.

Definition handle_finalization (self : ag_pool_t) (ev : ag_finalization_event_t) : outcome ag_pool_t :=
  r ← ag_parent_ready_tracker_handle_finalization (pl_slot_max self) (pl_parent_ready_tracker self) ev;
  self ← push_parent_ready (pl_set_prt self r.1) r.2;
  let first_unpruned_slot := ft_first_unpruned_slot (pl_finality_tracker self) in
  let self := pl_set_slot_states self
    (remove_slots (pl_slot_states self) (prt_root (pl_parent_ready_tracker self)) first_unpruned_slot) in
  Ok (pl_set_prt self (ag_parent_ready_tracker_prune (pl_parent_ready_tracker self) first_unpruned_slot)).

(** The switch on the result of [ag_slot_state_notify_parent_certified]. *)
Definition notify_certified (self : ag_pool_t) (child : ag_block_id_t) : outcome (ag_pool_t * Z) :=
  r ← slot_state self (bid_slot child);
  n ← ag_slot_state_notify_parent_certified r.2 (bid_hash child);
  let self := put_slot_state r.1 (bid_slot child) n.1 in
  self ← (if n.2 =? -1 then repair_events_push self child
          else if n.2 =? 1 then pool_events_push self (SafeToNotar child)
          else Ok self);
  Ok (self, n.2).

Definition push_readys (self : ag_pool_t) (readys : list ag_parent_ready_t) : outcome ag_pool_t :=
  ofold (fun self r =>
           check FdTest (ag_is_start_of_window (pr_slot r));;
           pool_events_push self (ParentReady r)) self readys.

(** What both kinds of notarization certificate do after finality is handled. *)
Definition block_certified (self : ag_pool_t) (block_id : ag_block_id_t) : outcome ag_pool_t :=
  self ← match pl_s2n_waiting_parent_cert self !! block_id with
         | None => Ok self
         | Some child =>
             let self := pl_set_s2n self (delete block_id (pl_s2n_waiting_parent_cert self)) in
             r ← notify_certified self child; Ok r.1
         end;
  r ← ag_parent_ready_tracker_mark_notar_fallback (pl_slot_max self) (pl_parent_ready_tracker self) block_id;
  self ← push_readys (pl_set_prt self r.1) r.2;
  repair_events_push self block_id.

Definition add_valid_cert (self : ag_pool_t) (cert : ag_cert_t) : outcome ag_pool_t :=
  let slot := ag_cert_slot cert in
  r ← slot_state self slot;
  st ← ag_slot_state_add_cert r.2 cert;
  let self := put_slot_state r.1 slot st in
  self ←
    match cert with
    | CNotar c =>
        let block_id := ag_block_id slot (cn_block_hash c) in
        s ← ag_finality_tracker_mark_notarized (pl_finality_tracker self) block_id
              (finalization_event_default self);
        self ← handle_finalization (pl_set_ft self s.1) s.2;
        block_certified self block_id
    | CNotarFallback c => block_certified self (ag_block_id slot (cnf_block_hash c))
    | CSkip _ =>
        r ← ag_parent_ready_tracker_mark_skipped (pl_slot_max self) (pl_parent_ready_tracker self) slot;
        push_readys (pl_set_prt self r.1) r.2
    | CFastFinal c =>
        s ← ag_finality_tracker_mark_fast_finalized (pl_finality_tracker self)
              (ag_block_id slot (cff_block_hash c)) (finalization_event_default self);
        handle_finalization (pl_set_ft self s.1) s.2
    | CFinal _ =>
        s ← ag_finality_tracker_mark_finalized (pl_finality_tracker self) slot
              (finalization_event_default self);
        handle_finalization (pl_set_ft self s.1) s.2
    end;
  pool_events_push self (CertCreated cert).

Definition ag_pool_advance_epoch (self : ag_pool_t) (epoch_info : ag_epoch_info_t)
    (epoch_rank epoch_slot : Z) : ag_pool_t :=
  match pl_curr_epoch_info self, pl_next_epoch_info self with
  | None, _ =>
      pl_set_epochs self (Some epoch_info) epoch_rank epoch_slot
        (pl_next_epoch_info self) (pl_next_epoch_rank self) (pl_next_epoch_slot self)
  | Some _, None =>
      pl_set_epochs self (pl_curr_epoch_info self) (pl_curr_epoch_rank self) (pl_curr_epoch_slot self)
        (Some epoch_info) epoch_rank epoch_slot
  | Some _, Some _ =>
      pl_set_epochs self (pl_next_epoch_info self) (pl_next_epoch_rank self) (pl_next_epoch_slot self)
        (Some epoch_info) epoch_rank epoch_slot
  end.

Definition prt_set_root (t : ag_parent_ready_tracker_t) (root : Z) : ag_parent_ready_tracker_t :=
  mk_prt (prt_states t) root (prt_max t).

Definition ag_pool_init (self : ag_pool_t) (slot : Z) : ag_pool_t :=
  pl_set_prt (pl_set_ft self (ag_finality_tracker_init (pl_finality_tracker self) slot))
    (prt_set_root (pl_parent_ready_tracker self) slot).

Definition ag_pool_fini (self : ag_pool_t) : ag_pool_t :=
  pl_set_prt (pl_set_ft self (ag_finality_tracker_fini (pl_finality_tracker self)))
    (prt_set_root (pl_parent_ready_tracker self) ULONG_MAX).

(** The bounds both entry points test. *)
Definition slot_out_of_bounds (self : ag_pool_t) (slot : Z) : bool :=
  let slot_far_in_future := ag_pool_finalized_slot self +w 2 * AG_SLOTS_PER_EPOCH in
  (slot <? ft_first_unpruned_slot (pl_finality_tracker self)) || (slot_far_in_future <=? slot).

Definition cert_is_duplicate (state : ag_slot_state_t) (cert : ag_cert_t) : bool :=
  let c := ss_certs_ state in
  match cert with
  | CNotar _ => present (cn_slot (sc_notar c))
  | CNotarFallback n => ag_slot_state_is_notar_fallback state (cnf_block_hash n)
  | CSkip _ => present (cs_slot (sc_skip c))
  | CFastFinal _ => present (cff_slot (sc_fast_finalize c))
  | CFinal _ => present (cf_slot (sc_finalize c))
  end.

Definition ag_pool_add_cert (self : ag_pool_t) (cert : ag_cert_t) : outcome (ag_pool_t * pool_err) :=
  let slot := ag_cert_slot cert in
  if slot_out_of_bounds self slot then Ok (self, AG_POOL_ERR_SLOT_OUT_OF_BOUNDS) else
  r ← slot_state self slot;
  if cert_is_duplicate r.2 cert then Ok (r.1, AG_POOL_ERR_DUPLICATE) else
  self ← add_valid_cert r.1 cert;
  Ok (self, AG_POOL_SUCCESS).

Definition is_notar_fallback_vote (v : ag_vote_t) : bool :=
  match v with NotarFallback _ => true | _ => false end.

Section AddVote.
Context `{BlsOps}.

Definition ag_pool_add_vote (self : ag_pool_t) (vote : ag_vote_t) : outcome (ag_pool_t * pool_err) :=
  let slot := ag_vote_slot vote in
  if slot_out_of_bounds self slot then Ok (self, AG_POOL_ERR_SLOT_OUT_OF_BOUNDS) else
  let voter := ag_vote_rank vote in
  match epoch_info_at self slot with
  | None => Fail NullPtr
  | Some info =>
      validator ← ag_epoch_info_validator info voter;
      let voter_stake := vi_stake validator in
      r ← slot_state self slot;
      if negb (bool_decide (ag_slot_state_check_slashable_offence r.2 vote = SlashableNone))
      then Ok (r.1, AG_POOL_ERR_SLASHABLE)
      else if ag_slot_state_should_ignore_vote r.2 vote then Ok (r.1, AG_POOL_ERR_DUPLICATE)
      else if is_notar_fallback_vote vote &&
              (AG_NOTAR_FALLBACK_VOTE_MAX <=? Z.of_nat (length (notar_fallback_at (ss_votes_ r.2) voter)))
      then Ok (r.1, AG_POOL_ERR_HASH_CAPACITY)
      else
        so ← ag_slot_state_add_vote r.2 vote voter_stake;
        let self := put_slot_state r.1 slot so.1 in
        self ← ofold add_valid_cert self (out_certs so.2);
        self ← ofold pool_events_push self (out_events so.2);
        self ← ofold repair_events_push self (out_repairs so.2);
        Ok (self, AG_POOL_SUCCESS)
  end.

End AddVote.

(** * Blocks *)

Definition ag_pool_add_block (self : ag_pool_t) (block_id parent_id : ag_block_id_t) : outcome ag_pool_t :=
  let slot := bid_slot block_id in
  s ← ag_finality_tracker_add_parent (pl_finality_tracker self) block_id parent_id
        (finalization_event_default self);
  let self := pl_set_ft self s.1 in
  r ← ag_parent_ready_tracker_handle_finalization (pl_slot_max self) (pl_parent_ready_tracker self) s.2;
  self ← push_parent_ready (pl_set_prt self r.1) r.2;
  r ← slot_state self slot;
  st ← ag_slot_state_notify_parent_known r.2 (bid_hash block_id);
  let self := put_slot_state r.1 slot st in
  let certified :=
    match pl_slot_states self !! bid_slot parent_id with
    | Some ps => ag_slot_state_is_notar_fallback_or_stronger ps (bid_hash parent_id)
    | None => false
    end in
  r ← (if certified then notify_certified self block_id else Ok (self, 0));
  if certified && negb (r.2 =? 0) then Ok r.1 else
  let self := r.1 in
  let m := pl_s2n_waiting_parent_cert self in
  check OutOfBounds (bool_decide (is_Some (m !! parent_id)) || (Z.of_nat (size m) <? s2n_max self));;
  Ok (pl_set_s2n self (<[parent_id := block_id]> m)).

(** * Standstill *)

Section Standstill.
(** The order in which the iteration over the chained map visits the states. *)
Context (iter : gmap Z ag_slot_state_t -> list (Z * ag_slot_state_t)).

(** Appends while the scratch array has room. *)
Definition push_room {A} (max : Z) (l : list A) (b : bool) (x : A) : list A :=
  if b && (Z.of_nat (length l) <? max) then l ++ [x] else l.

Definition standstill_certs (max : Z) (certs : list ag_cert_t) (sc : ag_slot_certs_t) : list ag_cert_t :=
  let certs := push_room max certs (present (cf_slot (sc_finalize sc))) (CFinal (sc_finalize sc)) in
  let certs := push_room max certs (present (cff_slot (sc_fast_finalize sc))) (CFastFinal (sc_fast_finalize sc)) in
  let certs := push_room max certs (present (cn_slot (sc_notar sc))) (CNotar (sc_notar sc)) in
  let certs := push_room max certs (present (cs_slot (sc_skip sc))) (CSkip (sc_skip sc)) in
  foldl (fun certs n => push_room max certs true (CNotarFallback n)) certs (sc_notar_fallback sc).

Definition standstill_votes (max : Z) (votes : list ag_vote_t) (st : ag_slot_state_t) : list ag_vote_t :=
  let sv := ss_votes_ st in
  let rank := ss_own_rank st in
  if rank =? USHORT_MAX then votes else
  let votes := push_room max votes (present (vf_slot (finalize_at sv rank))) (Final (finalize_at sv rank)) in
  let votes := push_room max votes (present (vn_slot (notar_at sv rank))) (Notar (notar_at sv rank)) in
  let votes := push_room max votes (present (vs_slot (skip_at sv rank))) (Skip (skip_at sv rank)) in
  let votes := push_room max votes (present (vsf_slot (skip_fallback_at sv rank)))
                 (SkipFallback (skip_fallback_at sv rank)) in
  foldl (fun votes n => push_room max votes true (NotarFallback n)) votes (notar_fallback_at sv rank).

(** The certificates of the finalized slot; none for a snapshot slot. *)
Definition finalized_certs (self : ag_pool_t) : outcome (list ag_cert_t) :=
  match pl_slot_states self !! ag_pool_finalized_slot self with
  | None => Ok []
  | Some st =>
      let sc := ss_certs_ st in
      if present (cff_slot (sc_fast_finalize sc)) then Ok [CFastFinal (sc_fast_finalize sc)]
      else
        check FdTest (present (cf_slot (sc_finalize sc)));;
        check FdTest (present (cn_slot (sc_notar sc)));;
        Ok [CFinal (sc_finalize sc); CNotar (sc_notar sc)]
  end.

Definition ag_pool_recover_from_standstill (self : ag_pool_t) : outcome ag_pool_t :=
  let finalized_slot := ag_pool_finalized_slot self in
  certs ← finalized_certs self;
  let '(certs, votes) :=
    foldl (fun cv p =>
             if p.1 <=? finalized_slot then cv
             else (standstill_certs (pl_slot_max self) cv.1 (ss_certs_ p.2),
                   standstill_votes (pl_slot_max self) cv.2 p.2))
      (certs, []) (iter (pl_slot_states self)) in
  pool_events_push self (Standstill (mk_standstill (finalized_slot +w 1) certs votes)).

End Standstill.
