(* ===== verification/SlotVotes.v ===== *)
(** Adding votes to a slot state: an admitted vote is counted without tripping a
    test or overrunning an array, the certificates that come out are backed by
    the recorded votes and new, and the events are the ones that became due. *)
From S2P Require Import Prelude VotorBase Bls Vote EpochInfo Cert FinalityTracker ParentReady SlotState SlotStateInv SlotEvents Pool.

(** * The votes of a certificate *)

Section Collect.
Context (ei : ag_epoch_info_t) (Hwf : epoch_wf ei).

(** Votes collected by rank. *)
Lemma collect_ok {V} (f : Z -> option V) (slot_of rank : V -> Z) slot :
  (forall i v, 0 <= i < ei_validator_cnt ei -> f i = Some v -> slot_of v = slot /\ rank v = i) ->
  let l := omap f (range 0 (ei_validator_cnt ei)) in
  votes_ok ei slot_of rank slot l /\
  (forall i, 0 <= i < ei_validator_cnt ei -> i ∈ rank <$> l <-> is_Some (f i)) /\
  (forall v, v ∈ l -> exists i, 0 <= i < ei_validator_cnt ei /\ f i = Some v).
Proof.
  intros Hf l.
  assert (forall v, v ∈ l -> exists i, 0 <= i < ei_validator_cnt ei /\ f i = Some v) as Hin.
  { intros v (i & Hi%elem_of_range & E)%list_elem_of_omap. by exists i. }
  split_and!; [|intros i Hi; split|done].
  - split.
    + apply Forall_forall. intros v (i & Hi & E)%Hin. by apply (Hf i).
    + unfold l. assert (Forall (fun i => 0 <= i < ei_validator_cnt ei) (range 0 (ei_validator_cnt ei))) as Hr
        by (apply Forall_forall; intros i; apply elem_of_range).
      pose proof (NoDup_seqZ 0 (ei_validator_cnt ei - 0)) as Hnd. fold (range 0 (ei_validator_cnt ei)) in Hnd.
      clear Hin l. induction (range 0 (ei_validator_cnt ei)) as [|i l IH]; cbn; [apply NoDup_nil; exact I|].
      apply Forall_cons in Hr as [Hi Hr]. apply NoDup_cons in Hnd as [Hni Hnd]. specialize (IH Hr Hnd).
      destruct (f i) as [v|] eqn:E; [|done]. cbn. apply NoDup_cons. split; [|done].
      intros (w & Ew & (j & Hj & Ej)%list_elem_of_omap)%list_elem_of_fmap. rewrite Forall_forall in Hr.
      destruct (Hf i v Hi E) as [_ Ev], (Hf j w (Hr j Hj) Ej) as [_ Ew']. congruence.
    + apply Forall_forall. intros v (i & Hi & E)%Hin. destruct (Hf i v Hi E) as [_ ->]. done.
  - intros (v & -> & (j & Hj & E)%Hin)%list_elem_of_fmap. destruct (Hf j v Hj E) as [_ Ev]. rewrite Ev in *. by exists v.
  - intros [v E]. apply list_elem_of_fmap. exists v. destruct (Hf i v Hi E) as [_ ->]. split; [done|].
    apply list_elem_of_omap. exists i. split; [by apply elem_of_range|done].
Qed.

Lemma collect_stake {V} (rank : V -> Z) (votes : list V) (b : Z -> bool) :
  (forall i, 0 <= i < ei_validator_cnt ei -> i ∈ rank <$> votes <-> b i = true) ->
  votes_stake ei rank votes = wsum ei b.
Proof.
  intros Hb. apply nsum_ext. intros i Hi. specialize (Hb i ltac:(lia)).
  case_bool_decide as E; rewrite Hb in E; destruct (b i); congruence.
Qed.

Lemma collect_nonempty {V} (rank : V -> Z) (votes : list V) (b : Z -> bool) :
  (forall i, 0 <= i < ei_validator_cnt ei -> i ∈ rank <$> votes <-> b i = true) -> 0 < wsum ei b -> votes <> [].
Proof.
  intros Hb Hs ->. rewrite <- (collect_stake rank [] b Hb) in Hs. unfold votes_stake in Hs.
  rewrite (nsum_ext _ (fun _ => 0)) in Hs by (intros; by rewrite bool_decide_eq_false_2 by apply not_elem_of_nil). rewrite nsum_zero in Hs. lia.
Qed.
End Collect.

Section Lists.
Context (st : ag_slot_state_t) (Hco : core_inv st).
Local Abbreviation ei := (ss_epoch_info st).
Local Abbreviation v := (ss_votes_ st).

(** The collected votes: well prepared, and cast by exactly the ranks [b]. *)
Definition collects {V} (slot_of rank : V -> Z) (votes : list V) (b : Z -> bool) : Prop :=
  votes_ok ei slot_of rank (ss_slot_ st) votes /\
  forall i, 0 <= i < ei_validator_cnt ei -> i ∈ rank <$> votes <-> b i = true.

Lemma notar_votes_ok h :
  collects vn_slot vn_rank (notar_votes st h) (notar_for v h) /\ Forall (fun x => vn_block_hash x = h) (notar_votes st h).
Proof using Hco.
  unfold collects, notar_votes.
  match goal with |- context [omap ?f _] => destruct (collect_ok ei f vn_slot vn_rank (ss_slot_ st)) as (Hok & Hin & Hv) end.
  { intros i x Hi. destruct (present _ && _) eqn:E; [|done]. intros [= <-]. boolp.
    by apply (vo_notar _ _ _ (co_voters _ Hco i Hi)). }
  split; [split; [done|]|].
  - intros i Hi. rewrite (Hin i Hi), notar_for_code. unfold notars. destruct (present _ && _); split; intros; done || by eexists.
  - apply Forall_forall. intros x (i & Hi & E)%Hv. destruct (present _ && _) eqn:Eb; [|done].
    apply andb_prop in Eb as [_ Eb%hash_eqb_true]. congruence.
Qed.

Lemma nfb_votes_ok h :
  collects vnf_slot vnf_rank (notar_fallback_votes st h) (nfb_for v h) /\
  Forall (fun x => vnf_block_hash x = h) (notar_fallback_votes st h).
Proof using Hco.
  unfold collects, notar_fallback_votes.
  match goal with |- context [omap ?f _] => destruct (collect_ok ei f vnf_slot vnf_rank (ss_slot_ st)) as (Hok & Hin & Hv) end.
  { intros i x Hi E. apply fmap_Some in E as ([j y] & E & ->). apply list_find_Some in E as (E & _ & _).
    pose proof (vo_nfb _ _ _ (co_voters _ Hco i Hi)) as Hf. rewrite Forall_forall in Hf. apply Hf.
    by eapply list_elem_of_lookup_2. }
  split; [split; [done|]|].
  - intros i Hi. rewrite (Hin i Hi). unfold nfb_for. rewrite existsb_exists, fmap_is_Some. split.
    + intros [[j y] (E & Eh & _)%list_find_Some]. exists y. split; [|by apply hash_eqb_true].
      apply list_elem_of_In. by eapply list_elem_of_lookup_2.
    + intros (y & Hy%list_elem_of_In & Eh%hash_eqb_true). by eapply list_find_elem_of.
  - apply Forall_forall. intros x (i & Hi & E)%Hv. apply fmap_Some in E as ([j y] & E & ->).
    by apply list_find_Some in E as (_ & E & _).
Qed.

Lemma skip_votes_ok : collects vs_slot vs_rank (skip_votes st) (skips v).
Proof using Hco.
  unfold collects, skip_votes.
  match goal with |- context [omap ?f _] => destruct (collect_ok ei f vs_slot vs_rank (ss_slot_ st)) as (Hok & Hin & _) end.
  { intros i x Hi. destruct (present _) eqn:E; [|done]. intros [= <-]. by apply (vo_skip _ _ _ (co_voters _ Hco i Hi)). }
  split; [done|]. intros i Hi. rewrite (Hin i Hi). unfold skips. destruct (present _); split; intros; done || by eexists.
Qed.

Lemma skip_fallback_votes_ok : collects vsf_slot vsf_rank (skip_fallback_votes st) (skip_fbs v).
Proof using Hco.
  unfold collects, skip_fallback_votes.
  match goal with |- context [omap ?f _] => destruct (collect_ok ei f vsf_slot vsf_rank (ss_slot_ st)) as (Hok & Hin & _) end.
  { intros i x Hi. destruct (present _) eqn:E; [|done]. intros [= <-]. by apply (vo_skip_fb _ _ _ (co_voters _ Hco i Hi)). }
  split; [done|]. intros i Hi. rewrite (Hin i Hi). unfold skip_fbs. destruct (present _); split; intros; done || by eexists.
Qed.

Lemma final_votes_ok : collects vf_slot vf_rank (final_votes st) (finals v).
Proof using Hco.
  unfold collects, final_votes.
  match goal with |- context [omap ?f _] => destruct (collect_ok ei f vf_slot vf_rank (ss_slot_ st)) as (Hok & Hin & _) end.
  { intros i x Hi. destruct (present _) eqn:E; [|done]. intros [= <-]. by apply (vo_final _ _ _ (co_voters _ Hco i Hi)). }
  split; [done|]. intros i Hi. rewrite (Hin i Hi). unfold finals. destruct (present _); split; intros; done || by eexists.
Qed.
End Lists.

(** * Certificates *)

(** Validator [i] cast a vote that counts for [c]. *)
Definition backs (st : ag_slot_state_t) (c : ag_cert_t) (i : Z) : bool :=
  let v := ss_votes_ st in
  match c with
  | CNotar c => notar_for v (cn_block_hash c) i
  | CFastFinal c => notar_for v (cff_block_hash c) i
  | CNotarFallback c => notar_for v (cnf_block_hash c) i || nfb_for v (cnf_block_hash c) i
  | CSkip _ => skips v i || skip_fbs v i
  | CFinal _ => finals v i
  end.

(** A certificate that the recorded votes back: for this slot, claiming the
    stake of its signers, above its threshold, signed only by validators that
    cast such a vote, and not held already. *)
Record cert_ok (st : ag_slot_state_t) (c : ag_cert_t) : Prop := {
  cok_slot : ag_cert_slot c = ss_slot_ st;
  cok_stake : signed_stake c (ss_epoch_info st) = cert_stake c;
  cok_threshold : check_threshold c (ss_epoch_info st) = true;
  cok_signers : forall i, 0 <= i < ei_validator_cnt (ss_epoch_info st) -> is_signer c i = true -> backs st c i = true;
  cok_new : cert_is_duplicate st c = false
}.

Lemma push_cert_ok o c :
  (length (out_certs o) <= 2)%nat -> push_cert o c = Ok (mk_outputs (out_certs o ++ [c]) (out_events o) (out_repairs o)).
Proof.
  intros Hl. unfold push_cert. rewrite check_true_ok; [done|]. unfold AG_SLOT_STATE_OUT_CERT_MAX. lia.
Qed.

Section Certs.
Context `{BlsOps}.
Context (st : ag_slot_state_t) (Hco : core_inv st).
Local Abbreviation ei := (ss_epoch_info st).
Local Abbreviation v := (ss_votes_ st).

Lemma quorum_pos s : ag_epoch_info_is_quorum ei s = true -> 0 < s.
Proof using Hco. rewrite is_quorum_spec. pose proof (total_pos st Hco). lia. Qed.

Lemma strong_quorum s : ag_epoch_info_is_strong_quorum ei s = true -> ag_epoch_info_is_quorum ei s = true.
Proof using Hco. rewrite is_quorum_spec, is_strong_quorum_spec. pose proof (total_pos st Hco). lia. Qed.

(** What both notarization certificates share. *)
Lemma cert_notar_parts h :
  ag_epoch_info_is_quorum ei (notar_stake st h) = true ->
  exists c, construct_notar (notar_votes st h) ei = Ok c /\ cn_slot c = ss_slot_ st /\ cn_block_hash c = h /\
    cn_stake c = notar_stake st h /\ signed_stake (CNotar c) ei = notar_stake st h /\
    forall i, 0 <= i < ei_validator_cnt ei -> ag_bls_agg_is_signer (cn_agg_sig c) i = notar_for v h i.
Proof using Hco.
  intros Hq. pose proof (co_epoch _ Hco) as Hwf. destruct (notar_votes_ok st Hco h) as [[Hok Hin] Hh].
  pose proof (quorum_pos _ Hq) as Hpos. rewrite notar_stake_wsum in * by done.
  pose proof (collect_nonempty ei _ _ _ Hin Hpos) as Hne.
  destruct (construct_notar_ok ei Hwf _ h _ Hne Hok Hh) as (c & E & Es & Eh & Est & Hb).
  rewrite (collect_stake ei _ _ _ Hin) in Est.
  assert (forall i, 0 <= i < ei_validator_cnt ei -> ag_bls_agg_is_signer (cn_agg_sig c) i = notar_for v h i) as Hsig.
  { intros i Hi. rewrite (is_signer_bit ei Hwf) by done. rewrite Hb by lia. specialize (Hin i Hi).
    case_bool_decide as Ei; rewrite Hin in Ei; by destruct (notar_for v h i). }
  exists c. split_and!; try done. rewrite signed_stake_nsum by done. apply nsum_ext. intros i Hi. cbn [is_signer].
  by rewrite Hsig by lia.
Qed.

Lemma cert_notar_ok h :
  ag_epoch_info_is_quorum ei (notar_stake st h) = true -> present (cn_slot (sc_notar (ss_certs_ st))) = false ->
  exists c, ag_cert_construct_notar (notar_votes st h) ei = Ok (CNotar c) /\ cn_block_hash c = h /\ cert_ok st (CNotar c).
Proof using Hco.
  intros Hq Hp. destruct (cert_notar_parts h Hq) as (c & E & Es & Eh & Est & Esg & Hsig).
  exists c. unfold ag_cert_construct_notar. rewrite E. split; [done|]. split; [done|]. split; try done.
  - by rewrite Esg.
  - unfold check_threshold. by rewrite Esg.
  - intros i Hi. cbn. by rewrite Hsig, Eh.
Qed.

Lemma cert_fast_final_ok h :
  ag_epoch_info_is_strong_quorum ei (notar_stake st h) = true ->
  present (cff_slot (sc_fast_finalize (ss_certs_ st))) = false ->
  exists c, ag_cert_construct_fast_final (notar_votes st h) ei = Ok (CFastFinal c) /\ cff_block_hash c = h /\
    cert_ok st (CFastFinal c).
Proof using Hco.
  intros Hq Hp. destruct (cert_notar_parts h (strong_quorum _ Hq)) as (c & E & Es & Eh & Est & Esg & Hsig).
  exists (mk_cert_fast_final (cn_slot c) (cn_block_hash c) (cn_agg_sig c) (cn_stake c)).
  unfold ag_cert_construct_fast_final, construct_fast_final. rewrite E. split; [done|]. split; [done|].
  assert (signed_stake (CFastFinal (mk_cert_fast_final (cn_slot c) (cn_block_hash c) (cn_agg_sig c) (cn_stake c))) ei
    = signed_stake (CNotar c) ei) as Eff by done.
  split; try done.
  - by rewrite Eff, Esg.
  - unfold check_threshold. by rewrite Eff, Esg.
  - intros i Hi. cbn. by rewrite Hsig, Eh.
Qed.

Lemma cert_final_ok :
  ag_epoch_info_is_quorum ei (vk_finalize (ss_voted_stakes st)) = true ->
  present (cf_slot (sc_finalize (ss_certs_ st))) = false ->
  exists c, ag_cert_construct_final (final_votes st) ei = Ok (CFinal c) /\ cert_ok st (CFinal c).
Proof using Hco.
  intros Hq Hp. pose proof (co_epoch _ Hco) as Hwf. destruct (final_votes_ok st Hco) as [Hok Hin].
  pose proof (quorum_pos _ Hq) as Hpos. rewrite (st_final _ _ _ (co_stakes _ Hco)) in *.
  pose proof (collect_nonempty ei _ _ _ Hin Hpos) as Hne.
  destruct (construct_final_ok ei Hwf _ _ Hne Hok) as (c & E & Es & Est & Hb).
  rewrite (collect_stake ei _ _ _ Hin) in Est.
  assert (forall i, 0 <= i < ei_validator_cnt ei -> ag_bls_agg_is_signer (cf_agg_sig c) i = finals v i) as Hsig.
  { intros i Hi. rewrite (is_signer_bit ei Hwf) by done. rewrite Hb by lia. specialize (Hin i Hi).
    case_bool_decide as Ei; rewrite Hin in Ei; by destruct (finals v i). }
  assert (signed_stake (CFinal c) ei = wsum ei (finals v)) as Esg.
  { rewrite signed_stake_nsum by done. apply nsum_ext. intros i Hi. cbn [is_signer]. by rewrite Hsig by lia. }
  exists c. unfold ag_cert_construct_final. rewrite E. split; [done|]. split; try done.
  - by rewrite Esg.
  - unfold check_threshold. by rewrite Esg.
  - intros i Hi. cbn. by rewrite Hsig.
Qed.

(** Adding up two kinds of votes that no validator cast both of. *)
Lemma two_kinds (b1 b2 : Z -> bool) :
  (forall i, 0 <= i < ei_validator_cnt ei -> b1 i = true -> b2 i = true -> False) ->
  ag_epoch_info_is_quorum ei (wsum ei b1 +w wsum ei b2) = true -> 0 < wsum ei b1 \/ 0 < wsum ei b2.
Proof using Hco.
  intros Hd Hq%quorum_pos. pose proof (co_epoch _ Hco) as Hwf. pose proof (wsum_le ei Hwf b1).
  pose proof (wsum_le ei Hwf b2). pose proof (wsum_or ei b1 b2 Hd) as E.
  rewrite u64_add_small in Hq; [lia|]. rewrite E. by apply wsum_u64.
Qed.

Lemma notar_nfb_disjoint h i :
  0 <= i < ei_validator_cnt ei -> nfb_for v h i = true -> notar_for v h i = true -> False.
Proof using Hco.
  intros Hi Hn Hf%bool_decide_eq_true. by rewrite (vo_notar_once _ _ _ (co_voters _ Hco i Hi) h Hf) in Hn.
Qed.

Lemma cert_notar_fallback_ok h :
  ag_epoch_info_is_quorum ei (wsum ei (nfb_for v h) +w wsum ei (notar_for v h)) = true ->
  exists c, construct_notar_fallback (notar_votes st h) (notar_fallback_votes st h) ei = Ok c /\ cnf_block_hash c = h /\
    (ag_epoch_info_is_quorum ei (cnf_stake c) = true -> ag_slot_state_is_notar_fallback st h = false ->
     cert_ok st (CNotarFallback c)).
Proof using Hco.
  intros Hq. pose proof (co_epoch _ Hco) as Hwf. destruct (notar_votes_ok st Hco h) as [[Hok Hin] Hh].
  destruct (nfb_votes_ok st Hco h) as [[Hokf Hinf] Hhf].
  pose proof (two_kinds _ _ (notar_nfb_disjoint h) Hq) as Hpos.
  destruct (construct_notar_fallback_ok ei Hwf (ss_slot_ st) h (notar_votes st h) (notar_fallback_votes st h)) as (c & E & Es & Eh & Esg & Hsig);
    try done.
  { destruct Hpos as [Hp|Hp]; [right; by eapply collect_nonempty|left; by eapply collect_nonempty]. }
  { intros i Hi Hi'. destruct Hok as [_ _ Hr]. rewrite Forall_forall in Hr.
    assert (0 <= i < ei_validator_cnt ei) as Hb by (apply list_elem_of_fmap in Hi as (x & -> & Hx); by apply Hr).
    apply (notar_nfb_disjoint h i Hb); [by apply Hinf|by apply Hin]. }
  exists c. split; [done|]. split; [done|]. intros Hqc Hnew. split; try done.
  - unfold check_threshold. by rewrite Esg.
  - intros i Hi Hs. cbn. rewrite Eh. apply orb_true_iff. destruct (Hsig i Hi Hs) as [Hs'|Hs'].
    + left. by apply Hin.
    + right. by apply Hinf.
  - cbn. by rewrite Eh.
Qed.

Lemma cert_skip_ok :
  ag_epoch_info_is_quorum ei (vk_skip (ss_voted_stakes st) +w vk_skip_fallback (ss_voted_stakes st)) = true ->
  present (cs_slot (sc_skip (ss_certs_ st))) = false ->
  exists c, construct_skip (skip_votes st) (skip_fallback_votes st) ei = Ok c /\
    (ag_epoch_info_is_quorum ei (cs_stake c) = true -> cert_ok st (CSkip c)).
Proof using Hco.
  intros Hq Hp. pose proof (co_epoch _ Hco) as Hwf. destruct (skip_votes_ok st Hco) as [Hok Hin].
  destruct (skip_fallback_votes_ok st Hco) as [Hokf Hinf].
  rewrite (st_skip _ _ _ (co_stakes _ Hco)), (st_skip_fb _ _ _ (co_stakes _ Hco)) in Hq.
  assert (forall i, 0 <= i < ei_validator_cnt ei -> skips v i = true -> skip_fbs v i = true -> False) as Hdis
    by (intros i Hi Hs Hf; by rewrite (vo_skip_once _ _ _ (co_voters _ Hco i Hi) Hs) in Hf).
  pose proof (two_kinds _ _ Hdis Hq) as Hpos.
  destruct (construct_skip_ok ei Hwf (ss_slot_ st) (skip_votes st) (skip_fallback_votes st)) as (c & E & Es & Esg & Hsig); try done.
  { destruct Hpos as [Hpo|Hpo]; [left; by eapply collect_nonempty|right; by eapply collect_nonempty]. }
  { intros i Hi Hi'. destruct Hok as [_ _ Hr]. rewrite Forall_forall in Hr.
    assert (0 <= i < ei_validator_cnt ei) as Hb by (apply list_elem_of_fmap in Hi as (x & -> & Hx); by apply Hr).
    apply (Hdis i Hb); [by apply Hin|by apply Hinf]. }
  exists c. split; [done|]. intros Hqc. split; try done.
  - unfold check_threshold. by rewrite Esg.
  - intros i Hi Hs. cbn. apply orb_true_iff. destruct (Hsig i Hi Hs) as [Hs'|Hs'].
    + left. by apply Hin.
    + right. by apply Hinf.
Qed.
End Certs.

(** The certificates due for the block or the slot of a vote. *)
Definition notar_due (st : ag_slot_state_t) (h : ag_block_hash_t) (certs : list ag_cert_t) : Prop :=
  let ei := ss_epoch_info st in
  (ag_epoch_info_is_quorum ei (notar_stake st h) = true -> present (cn_slot (sc_notar (ss_certs_ st))) = false ->
     exists c, CNotar c ∈ certs /\ cn_block_hash c = h) /\
  (ag_epoch_info_is_strong_quorum ei (notar_stake st h) = true ->
   present (cff_slot (sc_fast_finalize (ss_certs_ st))) = false ->
     exists c, CFastFinal c ∈ certs /\ cff_block_hash c = h).

(** The two certificates below are dropped when the aggregate of one kind of
    vote is the identity and the rest does not reach the quorum. *)
Definition notar_fallback_due `{BlsOps} (st : ag_slot_state_t) (h : ag_block_hash_t) (certs : list ag_cert_t) : Prop :=
  let ei := ss_epoch_info st in
  ag_epoch_info_is_quorum ei (wsum ei (nfb_for (ss_votes_ st) h) +w wsum ei (notar_for (ss_votes_ st) h)) = true ->
  ag_slot_state_is_notar_fallback st h = false ->
  exists c, construct_notar_fallback (notar_votes st h) (notar_fallback_votes st h) ei = Ok c /\ cnf_block_hash c = h /\
    (ag_epoch_info_is_quorum ei (cnf_stake c) = true -> CNotarFallback c ∈ certs).
Definition skip_due `{BlsOps} (st : ag_slot_state_t) (certs : list ag_cert_t) : Prop :=
  let ei := ss_epoch_info st in
  ag_epoch_info_is_quorum ei (vk_skip (ss_voted_stakes st) +w vk_skip_fallback (ss_voted_stakes st)) = true ->
  present (cs_slot (sc_skip (ss_certs_ st))) = false ->
  exists c, construct_skip (skip_votes st) (skip_fallback_votes st) ei = Ok c /\
    (ag_epoch_info_is_quorum ei (cs_stake c) = true -> CSkip c ∈ certs).
Definition final_due (st : ag_slot_state_t) (certs : list ag_cert_t) : Prop :=
  ag_epoch_info_is_quorum (ss_epoch_info st) (vk_finalize (ss_voted_stakes st)) = true ->
  present (cf_slot (sc_finalize (ss_certs_ st))) = false -> exists c, CFinal c ∈ certs.

Section CertSteps.
Context `{BlsOps} (st : ag_slot_state_t) (Hco : core_inv st).
Local Abbreviation ei := (ss_epoch_info st).

Lemma try_notar_fallback_cert_ok h o :
  out_certs o = [] ->
  exists certs, try_notar_fallback_cert st h (wsum ei (nfb_for (ss_votes_ st) h) +w wsum ei (notar_for (ss_votes_ st) h)) o
      = Ok (mk_outputs certs (out_events o) (out_repairs o)) /\
    (length certs <= 1)%nat /\ Forall (cert_ok st) certs /\ notar_fallback_due st h certs.
Proof using Hco.
  intros Ho. unfold try_notar_fallback_cert, notar_fallback_due. cbv zeta. destruct (ag_epoch_info_is_quorum _ _) eqn:Eq.
  - destruct (cert_notar_fallback_ok st Hco h Eq) as (c & -> & Eh & Hc).
    destruct (ag_slot_state_is_notar_fallback st h) eqn:En; cbn [andb negb mbind outcome_bind].
    + exists []. split_and!; [by destruct o; cbn in *; subst|cbn; lia|done|done].
    + destruct (ag_epoch_info_is_quorum ei (cnf_stake c)) eqn:Eqc.
      * rewrite push_cert_ok, Ho by (rewrite Ho; cbn; lia). eexists. split; [done|]. split; [cbn; lia|]. split.
        -- constructor; [|done]. by apply Hc.
        -- intros _ _. exists c. split_and!; [done|done|]. intros _. by apply list_elem_of_singleton.
      * exists []. split_and!; [by destruct o; cbn in *; subst|cbn; lia|done|]. intros _ _. exists c. split_and!; [done|done|].
        congruence.
  - exists []. split_and!; [by destruct o; cbn in *; subst|cbn; lia|done|done].
Qed.

(** The notarization and fast-finalization certificates of a block. *)
Lemma notar_certs_ok h o :
  (length (out_certs o) <= 1)%nat -> Forall (cert_ok st) (out_certs o) ->
  exists certs,
    (o ← (if ag_epoch_info_is_quorum ei (notar_stake st h) && negb (present (cn_slot (sc_notar (ss_certs_ st))))
          then cert ← ag_cert_construct_notar (notar_votes st h) ei; push_cert o cert else Ok o);
     if ag_epoch_info_is_strong_quorum ei (notar_stake st h) && negb (present (cff_slot (sc_fast_finalize (ss_certs_ st))))
     then cert ← ag_cert_construct_fast_final (notar_votes st h) ei; push_cert o cert else Ok o)
    = Ok (mk_outputs certs (out_events o) (out_repairs o)) /\
    Forall (cert_ok st) certs /\ notar_due st h certs /\ forall c, c ∈ out_certs o -> c ∈ certs.
Proof using Hco.
  intros Hl Hok. set (q := ag_epoch_info_is_quorum ei (notar_stake st h)).
  set (p := present (cn_slot (sc_notar (ss_certs_ st)))).
  assert (exists certs,
    (if q && negb p then cert ← ag_cert_construct_notar (notar_votes st h) ei; push_cert o cert else Ok o)
      = Ok (mk_outputs certs (out_events o) (out_repairs o)) /\ (length certs <= 2)%nat /\ Forall (cert_ok st) certs /\
      (q = true -> p = false -> exists c, CNotar c ∈ certs /\ cn_block_hash c = h) /\
      forall c, c ∈ out_certs o -> c ∈ certs) as (certs & -> & Hl1 & Hok1 & Hd1 & Hsub).
  { destruct q eqn:Eq; [destruct p eqn:Ep|]; cbn [andb negb].
    - exists (out_certs o). split_and!; [by destruct o|lia|done|done|done].
    - destruct (cert_notar_ok st Hco h Eq Ep) as (c & -> & Eh & Hc). cbn [mbind outcome_bind].
      rewrite push_cert_ok by lia. eexists. split; [done|]. split; [rewrite length_app; cbn; lia|]. split.
      + apply Forall_app. by split; [|constructor].
      + split; [|intros c' Hc'; apply elem_of_app; by left].
        intros _ _. exists c. split; [apply elem_of_app; right; by apply list_elem_of_singleton|done].
    - exists (out_certs o). split_and!; [by destruct o|lia|done|done|done]. }
  cbn [mbind outcome_bind]. unfold notar_due. fold ei q p.
  set (q' := ag_epoch_info_is_strong_quorum ei (notar_stake st h)).
  set (p' := present (cff_slot (sc_fast_finalize (ss_certs_ st)))).
  destruct q' eqn:Eq'; [destruct p' eqn:Ep'|]; cbn [andb negb].
  - exists certs. split; [done|]. split; [done|]. split; [by split|done].
  - destruct (cert_fast_final_ok st Hco h Eq' Ep') as (c & -> & Eh & Hc). cbn [mbind outcome_bind].
    rewrite push_cert_ok by (cbn; lia). eexists. split; [done|]. cbn. split.
    + apply Forall_app. by split; [|constructor].
    + split; [|intros c' Hc'; apply elem_of_app; left; by apply Hsub]. split.
      * intros H1 H2. destruct (Hd1 H1 H2) as (c' & Hc' & E'). exists c'. split; [|done]. apply elem_of_app. by left.
      * intros _ _. exists c. split; [apply elem_of_app; right; by apply list_elem_of_singleton|done].
  - exists certs. split; [done|]. split; [done|]. split; [by split|done].
Qed.
End CertSteps.

Lemma cert_ok_same a b c : same_core a b -> cert_ok b c -> cert_ok a c.
Proof. intros (p & s & x & ->) [H1 H2 H3 H4 H5]. by split. Qed.

Lemma emitted_certs st1 st o certs :
  emitted st1 (st, o) -> emitted st1 (st, mk_outputs certs (out_events o) (out_repairs o)).
Proof. intros [E1 E2 E3 E4 E5 E6 E7 E8]. by split. Qed.

(** * Recording a vote changes what is due only upwards *)

Record grows (st st1 : ag_slot_state_t) : Prop := {
  gr_same : st1 = set_voted_stakes (set_votes st (ss_votes_ st1)) (ss_voted_stakes st1);
  gr_core : core_inv st1;
  gr_notar : forall h, notar_stake st h <= notar_stake st1 h;
  gr_skip : vk_skip (ss_voted_stakes st) <= vk_skip (ss_voted_stakes st1);
  gr_own_skip : voting st = true -> skips (ss_votes_ st) (ss_own_rank st) = true -> skips (ss_votes_ st1) (ss_own_rank st) = true;
  gr_own_notar : voting st = true -> forall h, notar_of (ss_votes_ st) (ss_own_rank st) = Some h ->
    notar_of (ss_votes_ st1) (ss_own_rank st) = Some h;
  gr_s2s : s2s_ready st = true -> s2s_ready st1 = true
}.

Section Grows.
Context (st st1 : ag_slot_state_t) (Hco : core_inv st) (Hgr : grows st st1).

Lemma grows_fields :
  ss_epoch_info st1 = ss_epoch_info st /\ ss_own_rank st1 = ss_own_rank st /\ ss_slot_ st1 = ss_slot_ st /\
  ss_parents st1 = ss_parents st /\ ss_pending_safe_to_notar st1 = ss_pending_safe_to_notar st /\
  ss_sent_safe_to_notar st1 = ss_sent_safe_to_notar st /\ ss_sent_safe_to_skip st1 = ss_sent_safe_to_skip st /\
  voting st1 = voting st /\ certified st1 = certified st.
Proof using Hgr. unfold voting, certified. rewrite (gr_same _ _ Hgr). done. Qed.

Lemma weakest_mono h : weakest st h = true -> weakest st1 h = true.
Proof using Hgr.
  rewrite !weakest_spec. destruct grows_fields as (-> & _). pose proof (gr_notar _ _ Hgr h). lia.
Qed.

Lemma eligible_mono h : eligible st h = true -> eligible st1 h = true.
Proof using Hco Hgr.
  rewrite (eligible_spec st Hco), (eligible_spec st1 (gr_core _ _ Hgr)). destruct grows_fields as (-> & _).
  pose proof (gr_notar _ _ Hgr h). pose proof (gr_skip _ _ Hgr). lia.
Qed.

Lemma own_for_mono h : own_for st h = true -> own_for st1 h = true.
Proof using Hgr.
  unfold own_for, notar_for. destruct grows_fields as (_ & -> & _ & _ & _ & _ & _ & -> & _). 
  intros [Hv Ho%bool_decide_eq_true]%andb_prop. rewrite Hv. apply bool_decide_eq_true_2. by apply (gr_own_notar _ _ Hgr).
Qed.

Lemma own_against_mono h : own_against st h = true -> own_against st1 h = true.
Proof using Hgr.
  unfold own_against. destruct grows_fields as (_ & -> & _ & _ & _ & _ & _ & -> & _). intros Ho.
  apply andb_prop in Ho as [Hv Ho]. rewrite Hv. cbn. apply orb_true_iff. apply orb_prop in Ho as [Ho|Ho].
  - left. by apply (gr_own_skip _ _ Hgr).
  - right. unfold notars, notar_for in *. apply andb_prop in Ho as [Hp Hn].
    assert (notar_of (ss_votes_ st) (ss_own_rank st) = Some (vn_block_hash (notar_at (ss_votes_ st) (ss_own_rank st)))) as E
      by (unfold notar_of; by rewrite Hp).
    pose proof (gr_own_notar _ _ Hgr Hv _ E) as E1. rewrite E in Hn. rewrite E1, Hn, andb_true_r.
    revert E1. unfold notar_of. destruct (present (vn_slot (notar_at (ss_votes_ st1) (ss_own_rank st)))); [done|discriminate].
Qed.

Lemma ready_mono h : s2n_ready st h = true -> s2n_ready st1 h = true.
Proof using Hco Hgr.
  unfold s2n_ready. destruct grows_fields as (_ & _ & _ & _ & _ & _ & _ & _ & ->). intros Hr.
  apply andb_prop in Hr as [[He Hc]%andb_prop Ho]. rewrite eligible_mono, Hc, own_against_mono by done. done.
Qed.

Lemma tracked_mono h : tracked st h -> tracked st1 h.
Proof using Hco Hgr.
  unfold tracked. destruct grows_fields as (_ & _ & _ & _ & -> & -> & _ & _ & ->).
  intros [Ht|[Ht|[[Ht Hc]|Ht]]]; [by left|by right; left|right; right; left|right; right; right].
  - split; [by apply eligible_mono|done].
  - by apply own_for_mono.
Qed.

Lemma sets_mono : sets_inv st -> sets_inv st1.
Proof using Hco Hgr.
  intros [[P1 P2] [S1 S2]]. destruct grows_fields as (_ & _ & _ & _ & Ep & Es & _). split.
  - rewrite Ep. split; [done|]. intros h Hh. by apply weakest_mono, P2.
  - rewrite Es. split; [done|]. intros h Hh. by apply ready_mono, S2.
Qed.
End Grows.

(** A due block that is tracked was sent or is pending. *)
Lemma ready_tracked st h :
  core_inv st -> s2n_ready st h = true -> tracked st h ->
  h ∈ ss_sent_safe_to_notar st \/ h ∈ ss_pending_safe_to_notar st.
Proof.
  intros Hco Hr [Ht|[Ht|[[_ Ht]|Ht]]]; [by left|by right| |]; exfalso.
  - unfold s2n_ready in Hr. rewrite Ht, andb_false_r in Hr. done.
  - unfold s2n_ready, own_against in Hr. unfold own_for in Ht. apply andb_prop in Ht as [Hv Ht].
    apply andb_prop in Hr as [_ Hr]. rewrite Hv in Hr. cbn in Hr. rewrite Ht, andb_false_r, orb_false_r in Hr.
    pose proof (co_voters _ Hco _ (co_own _ Hco Hv)) as Hvo. rewrite notar_for_code in Ht. apply andb_prop in Ht as [Hn _].
    by rewrite (vo_notar_skip _ _ _ Hvo Hn) in Hr.
Qed.

(** * Closing a call *)

(** The state and outputs of a call that recorded a vote in [st1]. *)
Record call_ok (st st1 : ag_slot_state_t) (so : ag_slot_state_t * ag_slot_state_outputs_t) : Prop := {
  ca_emitted : emitted st1 so;
  ca_tracked : forall h, weakest st1 h = true -> tracked so.1 h;
  ca_flag : ss_sent_safe_to_skip so.1 = s2s_ready st1;
  ca_certs : Forall (cert_ok st1) (out_certs so.2)
}.

Lemma call_slot_inv st st1 so :
  slot_inv st -> grows st st1 -> call_ok st st1 so ->
  (forall h, s2n_ready st1 h = true -> h ∈ ss_sent_safe_to_notar so.1) -> slot_inv so.1.
Proof.
  intros Hin Hgr [C1 C2 C3 C4] Hc. pose proof (em_core _ _ C1) as Hsc.
  destruct (same_core_eq _ _ Hsc) as (Ew & _ & _ & _ & Er & Es & _). split.
  - by eapply same_core_inv; [|apply Hgr].
  - apply C1.
  - intros h. rewrite Er. apply Hc.
  - intros h. rewrite Ew. apply C2.
  - by rewrite Es.
Qed.

Lemma emitted_flag st st1 so :
  slot_inv st -> grows st st1 -> emitted st1 so -> (s2s_ready st1 = true -> ss_sent_safe_to_skip so.1 = true) ->
  ss_sent_safe_to_skip so.1 = s2s_ready st1.
Proof.
  intros Hin Hgr Hem Hs. destruct (s2s_ready st1) eqn:Es; [by apply Hs|]. destruct (em_flag _ _ Hem) as [->|[_ ?]]; [|congruence].
  destruct (grows_fields _ _ Hgr) as (_ & _ & _ & _ & _ & _ & -> & _). rewrite (si_skip _ Hin).
  destruct (s2s_ready st) eqn:Es0; [|done]. by rewrite (gr_s2s _ _ Hgr Es0) in Es.
Qed.

Lemma call_goes_on st st1 so so' :
  slot_inv st -> grows st st1 -> call_ok st st1 so -> goes_on st1 so so' -> call_ok st st1 so'.
Proof.
  intros Hin Hgr [C1 C2 C3 C4] [G1 G2 G3 G4 G5]. split; [done|auto| |by rewrite G2].
  apply (emitted_flag st); try done. intros Hs. apply G5. by rewrite C3.
Qed.

(** * The five kinds of votes *)

(** What the pool checks before it adds a vote. *)
Record admissible (st : ag_slot_state_t) (vote : ag_vote_t) : Prop := {
  ad_rank : 0 <= ag_vote_rank vote < ei_validator_cnt (ss_epoch_info st);
  ad_slot : ag_vote_slot vote = ss_slot_ st;
  ad_slash : ag_slot_state_check_slashable_offence st vote = SlashableNone;
  ad_new : ag_slot_state_should_ignore_vote st vote = false;
  ad_room : is_notar_fallback_vote vote = true ->
    Z.of_nat (length (notar_fallback_at (ss_votes_ st) (ag_vote_rank vote))) < AG_NOTAR_FALLBACK_VOTE_MAX
}.

Lemma s2s_spec st :
  core_inv st -> let k := ss_voted_stakes st in
  s2s_ready st = true <-> ei_total_stake (ss_epoch_info st) * 2 <= (vk_notar_or_skip k - vk_top_notar k) * 5 /\
    voting st = true /\ notars (ss_votes_ st) (ss_own_rank st) = true.
Proof.
  intros Hco k. pose proof (co_epoch _ Hco) as Hwf. destruct (co_stakes _ Hco) as [T1 _ _ _ _ T6 [T7 T7'] _ _].
  unfold s2s_ready. fold k. fold k in T1, T6, T7, T7'. rewrite !andb_true_iff, is_weak_quorum_spec.
  assert (0 <= vk_top_notar k <= vk_notar_or_skip k) as Htop.
  { rewrite T6. destruct T7' as [->|[h ->]]; [pose proof (wsum_le _ Hwf (fun i => notars (ss_votes_ st) i || skips (ss_votes_ st) i)); lia|].
    rewrite T1. split; [apply (wsum_le _ Hwf)|]. apply (wsum_mono _ Hwf). intros i _. rewrite notar_for_code.
    intros [-> _]%andb_prop. done. }
  rewrite u64_sub_small; [tauto|].
  pose proof (wsum_u64 _ Hwf (fun i => notars (ss_votes_ st) i || skips (ss_votes_ st) i)) as Hu. rewrite <- T6 in Hu.
  unfold is_u64 in *. lia.
Qed.

Lemma core_with st v' k' :
  core_inv st -> recorded (ss_epoch_info st) (ss_slot_ st) v' k' -> core_inv (set_voted_stakes (set_votes st v') k').
Proof. intros [H1 H2 H3 H4 H5 H6] (R1 & R2 & R3). by split. Qed.

(** Votes at another rank do not change this validator's own. *)
Lemma own_other st v' :
  core_inv st -> (forall j, 0 <= j < ei_validator_cnt (ss_epoch_info st) -> j = ss_own_rank st ->
    notar_at v' j = notar_at (ss_votes_ st) j /\ skip_at v' j = skip_at (ss_votes_ st) j) ->
  voting st = true -> notar_of v' (ss_own_rank st) = notar_of (ss_votes_ st) (ss_own_rank st) /\
    notars v' (ss_own_rank st) = notars (ss_votes_ st) (ss_own_rank st) /\
    skips v' (ss_own_rank st) = skips (ss_votes_ st) (ss_own_rank st).
Proof.
  intros Hco Ho Hv. destruct (Ho _ (co_own _ Hco Hv) eq_refl) as [E1 E2]. unfold notar_of, notars, skips. by rewrite E1, E2.
Qed.

Section CountNotar.
Context (st : ag_slot_state_t) (Hin : slot_inv st) (x : ag_vote_notar_t) (Had : admissible st (Notar x)).
Local Abbreviation ei := (ss_epoch_info st).
Local Abbreviation v := (ss_votes_ st).
Local Abbreviation k := (ss_voted_stakes st).
Local Abbreviation i := (vn_rank x).
Local Abbreviation h := (vn_block_hash x).
Local Abbreviation v1 := (put_notar v i x).

Definition notar_counted (ele : list ag_hashstake_t) : ag_slot_state_t :=
  set_voted_stakes (set_votes st v1)
    (mk_voted_stake ele (vk_notar_fallback k) (vk_skip k) (vk_skip_fallback k) (vk_finalize k)
       (vk_notar_or_skip k +w stake_of ei i) (Z.max (wsum ei (notar_for v1 h)) (vk_top_notar k))).

Lemma notar_admitted : notars v i = false /\ skips v i = false /\ nfb_for v h i = false.
Proof using Had.
  destruct Had as [_ _ H1 H2 _]. cbn in H1, H2. unfold notars, skips, nfb_for.
  destruct (present (vs_slot _)); [done|]. destruct (present (vn_slot _)); [done|]. done.
Qed.

Lemma notar_rank : 0 <= i < ei_validator_cnt ei /\ vn_slot x = ss_slot_ st.
Proof using Had. split; [apply (ad_rank _ _ Had)|apply (ad_slot _ _ Had)]. Qed.

Lemma notar_core :
  exists ele, hashstake_add (vk_notar k) AG_NOTAR_STAKE_MAX h (stake_of ei i) = Ok (ele, wsum ei (notar_for v1 h)) /\
    core_inv (notar_counted ele).
Proof using Hin Had.
  pose proof (si_core _ Hin) as Hco. pose proof (co_epoch _ Hco) as Hwf. destruct notar_admitted as (A1 & A2 & A3).
  destruct notar_rank as [Hi Hs].
  destruct (record_notar ei Hwf (ss_slot_ st) v k (co_arrays _ Hco) (co_voters _ Hco) (co_stakes _ Hco) i Hi (co_slot _ Hco) x)
    as (R1 & R2 & ele & E & R3); try done.
  exists ele. split; [done|by apply core_with].
Qed.

Lemma notar_at_counted j :
  0 <= j < ei_validator_cnt ei -> notar_at v1 j = if decide (j = i) then x else notar_at v j.
Proof using Hin Had.
  intros Hj. pose proof (si_core _ Hin) as Hco. destruct notar_rank as [Hi _].
  by rewrite (put_notar_at ei (co_epoch _ Hco) v (co_arrays _ Hco) i Hi x j) by lia.
Qed.

Lemma notar_for_counted h' j :
  0 <= j < ei_validator_cnt ei -> notar_for v1 h' j = if decide (j = i) then hash_eqb h h' else notar_for v h' j.
Proof using Hin Had.
  intros Hj. rewrite !notar_for_code. unfold notars. rewrite (notar_at_counted j Hj).
  destruct notar_rank as [_ Hs]. case_decide; [|done]. by rewrite Hs, (co_slot _ (si_core _ Hin)).
Qed.

Section Counted.
Context (ele : list ag_hashstake_t) (Hco1 : core_inv (notar_counted ele)).
Local Abbreviation st1 := (notar_counted ele).

Lemma notar_stake_counted h' : notar_stake st1 h' = notar_stake st h' + (if decide (h' = h) then stake_of ei i else 0).
Proof using Hin Had Hco1.
  pose proof (si_core _ Hin) as Hco. destruct notar_rank as [Hi _]. destruct notar_admitted as (A1 & _ & _).
  rewrite (notar_stake_wsum st Hco), (notar_stake_wsum st1 Hco1). cbn. case_decide as Hd.
  - subst h'. apply wsum_more; [done|by rewrite notar_for_code, A1| |].
    + rewrite notar_for_counted, decide_True by done. apply hash_eqb_refl.
    + intros j Hj Hji. by rewrite notar_for_counted, decide_False.
  - rewrite Z.add_0_r. apply wsum_ext. intros j Hj. rewrite notar_for_counted by done. case_decide; [|done]. subst j.
    rewrite notar_for_code, A1. apply hash_eqb_false. congruence.
Qed.

Lemma notar_own_counted :
  voting st = true -> i <> ss_own_rank st ->
  notar_of v1 (ss_own_rank st) = notar_of v (ss_own_rank st) /\ notars v1 (ss_own_rank st) = notars v (ss_own_rank st) /\
  skips v1 (ss_own_rank st) = skips v (ss_own_rank st).
Proof using Hin Had.
  intros Hv Hne. apply own_other; [apply Hin| |done]. intros j Hj ->. split; [|done].
  rewrite notar_at_counted, decide_False by done. done.
Qed.

Lemma notar_grows : grows st st1.
Proof using Hin Had Hco1.
  pose proof (si_core _ Hin) as Hco. pose proof (co_epoch _ Hco) as Hwf. destruct notar_rank as [Hi Hs].
  destruct notar_admitted as (A1 & A2 & _). pose proof (ewf_stake _ Hwf i Hi) as Hpos.
  assert (voting st = true -> forall h', notar_of v (ss_own_rank st) = Some h' -> notar_of v1 (ss_own_rank st) = Some h') as Hno.
  { intros Hv h' Eo. destruct (decide (i = ss_own_rank st)) as [E|Hne].
    - unfold notar_of in Eo. unfold notars in A1. rewrite <- E, A1 in Eo. done.
    - by destruct (notar_own_counted Hv Hne) as [-> _]. }
  split; [done|done| |done|done|exact Hno|].
  - intros h'. rewrite notar_stake_counted. case_decide; lia.
  - rewrite (s2s_spec st Hco), (s2s_spec st1 Hco1). cbn. intros (Hq & Hv & Hn). split_and!; [|done|].
    + rewrite (st_notar_or_skip _ _ _ (co_stakes _ Hco)) in *.
      rewrite (wsum_set ei Hwf _ (fun j => notars v1 j || skips v j) i Hi).
      * rewrite (wsum_more ei (fun j => notars v j || skips v j) (fun j => notars v1 j || skips v j) i Hi).
        -- pose proof (notar_stake_counted h) as E. rewrite decide_True in E by done.
           pose proof (proj1 (st_top _ _ _ (co_stakes _ Hco)) h) as Ht. fold (notar_stake st h) in Ht.
           rewrite (notar_stake_wsum st1 Hco1) in E. cbn in E. rewrite E. lia.
        -- by rewrite A1, A2.
        -- unfold notars. rewrite notar_at_counted, decide_True by done. by rewrite Hs, (co_slot _ Hco).
        -- intros j Hj Hji. unfold notars. by rewrite notar_at_counted, decide_False.
      * by rewrite A1, A2.
      * unfold notars. rewrite notar_at_counted, decide_True by done. by rewrite Hs, (co_slot _ Hco).
      * intros j Hj Hji. unfold notars. by rewrite notar_at_counted, decide_False.
    + destruct (decide (i = ss_own_rank st)) as [E|Hne]; [rewrite <- E, A1 in Hn; done|].
      by destruct (notar_own_counted Hv Hne) as (_ & -> & _).
Qed.

(** Another validator's vote leaves the other blocks as they were. *)
Lemma notar_others h' : h' <> h -> weakest st1 h' = weakest st h' /\ (i <> ss_own_rank st -> s2n_ready st1 h' = s2n_ready st h').
Proof using Hin Had Hco1.
  intros Hh. pose proof (notar_stake_counted h') as Hst. rewrite decide_False, Z.add_0_r in Hst by done.
  split; [unfold weakest; by rewrite Hst|]. intros Hne. unfold s2n_ready, eligible, weakest. rewrite Hst. cbn. f_equal.
  unfold own_against, notar_for. change (voting st1) with (voting st). destruct (voting st) eqn:Hv; [|done].
  cbn. destruct (notar_own_counted Hv Hne) as (E1 & E2 & E3). by rewrite E1, E2, E3.
Qed.
End Counted.
End CountNotar.

Section CountNotarVote.
Context `{BlsOps} (st : ag_slot_state_t) (Hin : slot_inv st) (x : ag_vote_notar_t) (Had : admissible st (Notar x)).
Local Abbreviation ei := (ss_epoch_info st).
Local Abbreviation i := (vn_rank x).
Local Abbreviation h := (vn_block_hash x).

Lemma count_notar_ok :
  exists ele so, let st1 := notar_counted st x ele in
    count_notar_stake (set_votes st (put_notar (ss_votes_ st) i x)) (ss_slot_ st) h (stake_of ei i) = Ok so /\
    grows st st1 /\ call_ok st st1 so /\ notar_due st1 h (out_certs so.2) /\ notar_fallback_due st1 h (out_certs so.2) /\
    (i <> ss_own_rank st -> forall h', s2n_ready st1 h' = true -> h' ∈ ss_sent_safe_to_notar so.1).
Proof using Hin Had.
  destruct (notar_core st Hin x Had) as (ele & E & Hco1). exists ele. cbv zeta.
  set (st1 := notar_counted st x ele) in *. pose proof (notar_grows st Hin x Had ele Hco1) as Hgr. fold st1 in Hgr.
  pose proof (sets_mono st st1 (si_core _ Hin) Hgr (si_sets _ Hin)) as Hse.
  destruct (try_s2n_ok st1 Hco1 (st1, no_outputs) h (emitted_start st1 Hse)) as (so1 & E1 & G1 & Hr1 & Ht1).
  destruct (try_s2s_ok st1 Hco1 so1 (go_emitted _ _ _ G1)) as (so2 & E2 & G2 & Hf2 & _).
  pose proof (goes_on_trans st1 _ _ _ G1 G2) as G. pose proof (go_emitted _ _ _ G) as Hem.
  pose proof (em_core _ _ Hem) as Hsc. pose proof (same_core_inv _ _ Hsc Hco1) as Hco2. destruct so2 as [st2 o2].
  cbn [fst snd] in *.
  destruct (try_notar_fallback_cert_ok st2 Hco2 h o2) as (c3 & E3 & Hl3 & Hok3 & Hd3); [exact (go_certs _ _ _ G)|].
  destruct (notar_certs_ok st2 Hco2 h (mk_outputs c3 (out_events o2) (out_repairs o2)) Hl3 Hok3) as (c4 & E4 & Hok4 & Hd4 & Hsub).
  exists (st2, mk_outputs c4 (out_events o2) (out_repairs o2)).
  assert (ss_epoch_info st2 = ei /\ ss_votes_ st2 = ss_votes_ st1 /\ ss_voted_stakes st2 = ss_voted_stakes st1 /\
    notar_due st1 h c4 /\ notar_fallback_due st1 h c3) as (Ee & Ev & Ek & Hd & Hnf) by (by destruct Hsc as (p' & s' & b' & ->)).
  split; [|split_and!; [done| |done| |]].
  - unfold count_notar_stake. cbn [ss_voted_stakes set_votes]. rewrite E. cbn [mbind outcome_bind fst snd].
    change (set_voted_stakes _ _) with st1. change (ss_slot_ st) with (ss_slot_ st1). rewrite E1. cbn [mbind outcome_bind].
    rewrite E2. cbn [mbind outcome_bind fst snd]. rewrite <- (st_nfb _ _ _ (co_stakes _ Hco2)) in E3.
    rewrite Ee, Ev in E3. change (ss_votes_ st1) with (put_notar (ss_votes_ st) i x) in E3. rewrite E3.
    cbn [mbind outcome_bind]. rewrite (notar_stake_wsum st2 Hco2), Ev, Ee in E4. cbn [out_events out_repairs] in E4.
    change (ss_votes_ st1) with (put_notar (ss_votes_ st) i x) in E4. change (ss_epoch_info (set_votes _ _)) with ei.
    revert E4. match goal with |- context [if ?b then _ else Ok (mk_outputs c3 _ _)] => destruct b end.
    + destruct (ag_cert_construct_notar _ _) as [c|]; cbn [mbind outcome_bind]; [|done].
      destruct (push_cert _ _) as [o|]; cbn [mbind outcome_bind]; [|done]. by intros ->.
    + cbn [mbind outcome_bind]. by intros ->.
  - split; cbn.
    + by apply emitted_certs.
    + intros h' Hw. destruct (decide (h' = h)) as [->|Hh].
      * apply (go_tracked _ _ _ G2). by apply Ht1.
      * apply (go_tracked _ _ _ G). apply (tracked_mono st st1 (si_core _ Hin) Hgr). apply (si_tracked _ Hin).
        by rewrite <- (proj1 (notar_others st Hin x Had ele Hco1 h' Hh)).
    + apply (emitted_flag st st1 (st2, o2)); try done. intros Hs. cbn. by rewrite Hf2, Hs, orb_true_r.
    + eapply Forall_impl; [exact Hok4|]. intros c. by apply cert_ok_same.
  - intros Hq Hn. destruct (Hnf Hq Hn) as (c & Ec & Ech & Hc). exists c. split_and!; [done|done|]. intros Hqc. by apply Hsub, Hc.
  - intros Hne h' Hr. cbn. destruct (decide (h' = h)) as [->|Hh].
    + apply (go_sent _ _ _ G2). by apply Hr1.
    + pose proof (proj2 (notar_others st Hin x Had ele Hco1 h' Hh) Hne) as Eo. fold st1 in Eo. rewrite Eo in Hr. apply (go_sent _ _ _ G). cbn.
      by apply (si_complete _ Hin).
Qed.
End CountNotarVote.

(** Votes that change neither a notarization nor a skip vote. *)
Section Quiet.
Context (st : ag_slot_state_t) (Hin : slot_inv st) (v' : ag_slot_votes_t) (k' : ag_slot_voted_stake_t).
Context (Hrec : recorded (ss_epoch_info st) (ss_slot_ st) v' k').
Context (Ev : sv_notar v' = sv_notar (ss_votes_ st) /\ sv_skip v' = sv_skip (ss_votes_ st)).
Context (Ek : vk_notar k' = vk_notar (ss_voted_stakes st) /\ vk_skip k' = vk_skip (ss_voted_stakes st) /\
  vk_notar_or_skip k' = vk_notar_or_skip (ss_voted_stakes st) /\ vk_top_notar k' = vk_top_notar (ss_voted_stakes st)).
Local Abbreviation st1 := (set_voted_stakes (set_votes st v') k').

Lemma quiet_same :
  (forall h, notar_stake st1 h = notar_stake st h) /\ (forall i, notar_of v' i = notar_of (ss_votes_ st) i) /\
  (forall i, notars v' i = notars (ss_votes_ st) i) /\ (forall i, skips v' i = skips (ss_votes_ st) i) /\
  (forall h, weakest st1 h = weakest st h) /\ (forall h, s2n_ready st1 h = s2n_ready st h) /\
  s2s_ready st1 = s2s_ready st.
Proof using Ev Ek.
  destruct Ev as [V1 V2], Ek as (K1 & K2 & K3 & K4).
  unfold s2n_ready, s2s_ready, own_against, voting, eligible, weakest, notar_stake, notar_for, notar_of, notars, skips,
    notar_at, skip_at. cbn. rewrite V1, V2, K1, K2, K3, K4. done.
Qed.

Lemma quiet_grows : grows st st1.
Proof using Hin Hrec Ev Ek.
  destruct quiet_same as (Q1 & Q2 & Q3 & Q4 & Q5 & Q6 & Q7). split; [done| | | | | |by rewrite Q7].
  - apply core_with; [apply Hin|done].
  - intros h. rewrite Q1. lia.
  - destruct Ek as (_ & K2 & _). cbn. lia.
  - intros _ Hs. cbn. by rewrite Q4.
  - intros _ h Hh. cbn. by rewrite Q2.
Qed.

Lemma quiet_call certs :
  Forall (cert_ok st1) certs ->
  let so := (st1, mk_outputs certs [] []) in
  call_ok st st1 so /\ forall h, s2n_ready st1 h = true -> h ∈ ss_sent_safe_to_notar so.1.
Proof using Hin Hrec Ev Ek.
  intros Hc so. destruct quiet_same as (_ & _ & _ & _ & Q5 & Q6 & Q7). pose proof quiet_grows as Hgr.
  split; [split|].
  - apply (emitted_certs st1 st1 no_outputs). apply emitted_start. by apply (sets_mono st); [apply Hin| |apply Hin].
  - intros h. rewrite Q5. intros Hw. apply (tracked_mono st st1); [apply Hin|done|]. by apply (si_tracked _ Hin).
  - rewrite Q7. apply (si_skip _ Hin).
  - done.
  - intros h. rewrite Q6. apply (si_complete _ Hin).
Qed.
End Quiet.

Section CountOthers.
Context `{BlsOps} (st : ag_slot_state_t) (Hin : slot_inv st).
Local Abbreviation ei := (ss_epoch_info st).
Local Abbreviation v := (ss_votes_ st).
Local Abbreviation k := (ss_voted_stakes st).

Lemma count_notar_fallback_ok x :
  admissible st (NotarFallback x) ->
  let v1 := put_notar_fallback v (vnf_rank x) x in
  exists k1 so, let st1 := set_voted_stakes (set_votes st v1) k1 in
    count_notar_fallback_stake (set_votes st v1) (vnf_block_hash x) (stake_of ei (vnf_rank x)) = Ok so /\
    grows st st1 /\ call_ok st st1 so /\ notar_fallback_due st1 (vnf_block_hash x) (out_certs so.2) /\
    forall h, s2n_ready st1 h = true -> h ∈ ss_sent_safe_to_notar so.1.
Proof using Hin.
  intros [Hi Hs Hsl Hig Hroom] v1. cbn in Hi, Hs, Hsl, Hig, Hroom. specialize (Hroom eq_refl).
  pose proof (si_core _ Hin) as Hco. pose proof (co_epoch _ Hco) as Hwf. set (h := vnf_block_hash x) in *.
  destruct (record_notar_fallback ei Hwf (ss_slot_ st) v k (co_arrays _ Hco) (co_voters _ Hco) (co_stakes _ Hco)
    (vnf_rank x) Hi (co_slot _ Hco) x) as (ele & E & Hrec); try done.
  { unfold finals. by destruct (present _). }
  { unfold nfb_for. fold h. by destruct (existsb _ _). }
  { fold h. intros En. destruct (existsb _ _); [done|]. pose proof (notar_for_code v h (vnf_rank x)) as Hf.
    unfold notar_for in Hf. rewrite En, bool_decide_eq_true_2 in Hf by done. unfold notars in Hf. by rewrite Hig in Hf. }
  fold v1 in E, Hrec. fold h in E. eexists _. set (k1 := mk_voted_stake _ _ _ _ _ _ _) in Hrec.
  assert (grows st (set_voted_stakes (set_votes st v1) k1)) as Hgr by (by apply quiet_grows).
  pose proof (gr_core _ _ Hgr) as Hco1.
  destruct (try_notar_fallback_cert_ok _ Hco1 h no_outputs eq_refl) as (certs & Ec & _ & Hok & Hd).
  destruct (quiet_call st Hin v1 k1 Hrec (conj eq_refl eq_refl) ltac:(done) certs Hok) as [Hca Hsent].
  eexists. split; [|split; [exact Hgr|split; [exact Hca|split; [exact Hd|exact Hsent]]]].
  unfold count_notar_fallback_stake. cbn [ss_voted_stakes set_votes]. rewrite E. cbn [mbind outcome_bind fst snd].
  change (set_voted_stakes _ _) with (set_voted_stakes (set_votes st v1) k1).
  change (ag_slot_state_stake _ _) with (notar_stake (set_voted_stakes (set_votes st v1) k1) h).
  rewrite (notar_stake_wsum _ Hco1). cbn in Ec |- *. rewrite Ec. done.
Qed.

Lemma count_final_ok x :
  admissible st (Final x) ->
  let v1 := put_finalize v (vf_rank x) x in
  exists k1 so, let st1 := set_voted_stakes (set_votes st v1) k1 in
    count_finalize_stake (set_votes st v1) (stake_of ei (vf_rank x)) = Ok so /\
    grows st st1 /\ call_ok st st1 so /\ final_due st1 (out_certs so.2) /\
    forall h, s2n_ready st1 h = true -> h ∈ ss_sent_safe_to_notar so.1.
Proof using Hin.
  intros [Hi Hs Hsl Hig _] v1. cbn in Hi, Hs, Hsl, Hig. pose proof (si_core _ Hin) as Hco. pose proof (co_epoch _ Hco) as Hwf.
  destruct (present (vs_slot (skip_at v (vf_rank x)))) eqn:E1; [done|].
  destruct (present (vsf_slot (skip_fallback_at v (vf_rank x)))) eqn:E2; [done|]. cbn in Hsl.
  destruct (notar_fallback_at v (vf_rank x)) eqn:E3; [|done].
  pose proof (record_final ei Hwf (ss_slot_ st) v k (co_arrays _ Hco) (co_voters _ Hco) (co_stakes _ Hco)
    (vf_rank x) Hi (co_slot _ Hco) x Hs eq_refl Hig E1 E2 E3) as Hrec. fold v1 in Hrec.
  eexists _. set (k1 := mk_voted_stake _ _ _ _ _ _ _) in Hrec.
  assert (grows st (set_voted_stakes (set_votes st v1) k1)) as Hgr by (by apply quiet_grows).
  pose proof (gr_core _ _ Hgr) as Hco1. set (st1 := set_voted_stakes (set_votes st v1) k1) in *.
  assert (exists certs, (if ag_epoch_info_is_quorum ei (vk_finalize k1) && negb (present (cf_slot (sc_finalize (ss_certs_ st))))
    then cert ← ag_cert_construct_final (final_votes st1) ei; push_cert no_outputs cert else Ok no_outputs)
    = Ok (mk_outputs certs [] []) /\ Forall (cert_ok st1) certs /\ final_due st1 certs) as (certs & Ec & Hok & Hd).
  { unfold final_due. cbn [ss_epoch_info ss_certs_ ss_voted_stakes st1 set_voted_stakes set_votes].
    destruct (ag_epoch_info_is_quorum ei (vk_finalize k1)) eqn:Eq;
      [destruct (present (cf_slot (sc_finalize (ss_certs_ st)))) eqn:Ep|]; cbn [andb negb].
    - by exists [].
    - destruct (cert_final_ok st1 Hco1 Eq Ep) as (c & Ec & Hc). change (ss_epoch_info st1) with ei in Ec. rewrite Ec.
      cbn [mbind outcome_bind]. rewrite push_cert_ok by (cbn; lia). eexists. split; [done|]. split; [by constructor|].
      intros _ _. exists c. by apply list_elem_of_singleton.
    - by exists []. }
  destruct (quiet_call st Hin v1 k1 Hrec (conj eq_refl eq_refl) ltac:(done) certs Hok) as [Hca Hsent].
  eexists. split; [|split; [exact Hgr|split; [exact Hca|split; [exact Hd|exact Hsent]]]].
  unfold count_finalize_stake. cbn [ss_voted_stakes set_votes]. change (set_voted_stakes _ _) with st1.
  change (ss_epoch_info (set_votes st v1)) with ei. change (ss_voted_stakes st1) with k1. change (ss_certs_ st1) with (ss_certs_ st).
  rewrite Ec. done.
Qed.
End CountOthers.

Section CountSkip.
Context `{BlsOps}.

(** The skip certificate. *)
Lemma skip_cert_ok st o :
  core_inv st -> out_certs o = [] ->
  let k := ss_voted_stakes st in
  exists certs,
    (if ag_epoch_info_is_quorum (ss_epoch_info st) (vk_skip k +w vk_skip_fallback k) && negb (present (cs_slot (sc_skip (ss_certs_ st))))
     then cert ← construct_skip (skip_votes st) (skip_fallback_votes st) (ss_epoch_info st);
          if ag_epoch_info_is_quorum (ss_epoch_info st) (cs_stake cert) then push_cert o (CSkip cert) else Ok o
     else Ok o) = Ok (mk_outputs certs (out_events o) (out_repairs o)) /\
    Forall (cert_ok st) certs /\ skip_due st certs.
Proof.
  intros Hco Ho k. assert (o = mk_outputs [] (out_events o) (out_repairs o)) as Eo by (destruct o; cbn in *; by subst).
  unfold skip_due. fold k. destruct (ag_epoch_info_is_quorum _ (_ +w _)) eqn:Eq; [|by exists []; rewrite <- Eo].
  destruct (present _) eqn:Ep; cbn [andb negb]; [by exists []; rewrite <- Eo|].
  destruct (cert_skip_ok st Hco Eq Ep) as (c & -> & Hc). cbn [mbind outcome_bind].
  destruct (ag_epoch_info_is_quorum _ (cs_stake c)) eqn:Eqc.
  - rewrite push_cert_ok, Ho by (rewrite Ho; cbn; lia). eexists. split; [done|]. split; [constructor; [by apply Hc|done]|].
    intros _ _. exists c. split; [done|]. intros _. by apply list_elem_of_singleton.
  - exists []. rewrite <- Eo. split; [done|]. split; [done|]. intros _ _. exists c. split; [done|]. congruence.
Qed.

Lemma skip_tail st st1 :
  slot_inv st -> grows st st1 -> (forall h, weakest st1 h = weakest st h) ->
  exists so,
    (so ← process_pending (ss_slot_ st1) st1 no_outputs;
     let self := so.1 in
     let k := ss_voted_stakes self in
     o ← (if ag_epoch_info_is_quorum (ss_epoch_info st1) (vk_skip k +w vk_skip_fallback k)
             && negb (present (cs_slot (sc_skip (ss_certs_ self))))
          then cert ← construct_skip (skip_votes self) (skip_fallback_votes self) (ss_epoch_info st1);
               if ag_epoch_info_is_quorum (ss_epoch_info st1) (cs_stake cert) then push_cert so.2 (CSkip cert) else Ok so.2
          else Ok so.2);
     try_s2s (ss_slot_ st1) self o) = Ok so /\
    call_ok st st1 so /\ skip_due st1 (out_certs so.2) /\ forall h, s2n_ready st1 h = true -> h ∈ ss_sent_safe_to_notar so.1.
Proof.
  intros Hin Hgr Hw. pose proof (gr_core _ _ Hgr) as Hco1.
  pose proof (sets_mono st st1 (si_core _ Hin) Hgr (si_sets _ Hin)) as Hse.
  destruct (process_pending_ok st1 Hco1 (st1, no_outputs) (emitted_start st1 Hse)) as (so1 & E1 & G1 & Hr1).
  cbn [fst snd] in E1, Hr1. rewrite E1. cbn [mbind outcome_bind]. pose proof (em_core _ _ (go_emitted _ _ _ G1)) as Hsc.
  destruct so1 as [st2 o2]. cbn [fst snd] in *.
  destruct (skip_cert_ok st2 o2 (same_core_inv _ _ Hsc Hco1) (go_certs _ _ _ G1)) as (certs & E2 & Hok & Hd).
  assert (ss_epoch_info st2 = ss_epoch_info st1 /\ (skip_due st2 certs -> skip_due st1 certs)) as [Ee Hd']
    by (by destruct Hsc as (p' & s' & b' & ->)).
  cbv zeta in E2 |- *. rewrite Ee in E2. rewrite E2. cbn [mbind outcome_bind].
  pose proof (emitted_certs st1 st2 o2 certs (go_emitted _ _ _ G1)) as Hem.
  destruct (try_s2s_ok st1 Hco1 _ Hem) as (so3 & E3 & G3 & Hf3 & _). cbn [fst snd] in E3, Hf3. rewrite E3.
  exists so3. split; [done|].
  assert (forall h, weakest st1 h = true -> tracked st1 h) as Htr
    by (intros h Hh; rewrite Hw in Hh; apply (tracked_mono st st1 (si_core _ Hin) Hgr); by apply (si_tracked _ Hin)).
  split; [split|split].
  - apply G3.
  - intros h Hh. apply (go_tracked _ _ _ G3). apply (go_tracked _ _ _ G1). by apply Htr.
  - apply (emitted_flag st); try done; [apply G3|]. intros Hs. by rewrite Hf3, Hs, orb_true_r.
  - rewrite (go_certs _ _ _ G3). cbn. eapply Forall_impl; [exact Hok|]. intros c. by apply cert_ok_same.
  - rewrite (go_certs _ _ _ G3). by apply Hd'.
  - intros h Hr. apply (go_sent _ _ _ G3). cbn.
    destruct (ready_tracked st1 h Hco1 Hr (Htr h (ready_weakest _ _ Hr))) as [Hs|Hp]; [|by apply Hr1].
    apply (go_sent _ _ _ G1). done.
Qed.

Context (st : ag_slot_state_t) (Hin : slot_inv st).
Local Abbreviation ei := (ss_epoch_info st).
Local Abbreviation v := (ss_votes_ st).
Local Abbreviation k := (ss_voted_stakes st).

Lemma skip_grows x :
  admissible st (Skip x) ->
  let k1 := mk_voted_stake (vk_notar k) (vk_notar_fallback k) (vk_skip k +w stake_of ei (vs_rank x))
    (vk_skip_fallback k) (vk_finalize k) (vk_notar_or_skip k +w stake_of ei (vs_rank x)) (vk_top_notar k) in
  grows st (set_voted_stakes (set_votes st (put_skip v (vs_rank x) x)) k1).
Proof using Hin.
  intros [Hi Hs Hsl Hig _] k1. cbn in Hi, Hs, Hsl, Hig. pose proof (si_core _ Hin) as Hco. pose proof (co_epoch _ Hco) as Hwf.
  set (i := vs_rank x) in *. set (v1 := put_skip v i x).
  assert (finals v i = false /\ notars v i = false) as [F1 F2].
  { unfold finals, notars. destruct (present (vf_slot _)); [done|]. by destruct (present (vn_slot _)). }
  apply orb_false_iff in Hig as [F3 F4].
  pose proof (record_skip ei Hwf (ss_slot_ st) v k (co_arrays _ Hco) (co_voters _ Hco) (co_stakes _ Hco)
    i Hi (co_slot _ Hco) x Hs eq_refl F2 F3 F4 F1) as Hrec. fold v1 k1 in Hrec.
  pose proof (core_with st v1 k1 Hco Hrec) as Hco1. set (st1 := set_voted_stakes (set_votes st v1) k1) in *.
  assert (forall j, 0 <= j < ei_validator_cnt ei -> skips v1 j = if decide (j = i) then true else skips v j) as Hsk.
  { intros j Hj. unfold skips, v1. rewrite (put_skip_at ei Hwf v (co_arrays _ Hco) i Hi x j) by lia.
    case_decide; [by rewrite Hs, (co_slot _ Hco)|done]. }
  pose proof (ewf_stake _ Hwf i Hi) as Hpos.
  assert (wsum ei (skips v1) = wsum ei (skips v) + stake_of ei i) as Esk.
  { apply wsum_more; [done|done|by rewrite Hsk, decide_True|]. intros j Hj Hji. by rewrite Hsk, decide_False. }
  assert (wsum ei (fun j => notars v j || skips v1 j) = wsum ei (fun j => notars v j || skips v j) + stake_of ei i) as Eos.
  { apply wsum_more; [done|by rewrite F2; apply F3|by rewrite Hsk, decide_True, orb_true_r|].
    intros j Hj Hji. by rewrite Hsk, decide_False. }
  split; [done|done|done| | |done|].
  - rewrite (st_skip _ _ _ (co_stakes _ Hco1)), (st_skip _ _ _ (co_stakes _ Hco)). cbn. lia.
  - intros Hv Hso. cbn. rewrite Hsk by (apply (co_own _ Hco Hv)). by case_decide.
  - rewrite (s2s_spec st Hco), (s2s_spec st1 Hco1). intros (Hq & Hv & Hn). split; [|done].
    rewrite (st_notar_or_skip _ _ _ (co_stakes _ Hco1)). rewrite (st_notar_or_skip _ _ _ (co_stakes _ Hco)) in Hq.
    cbn. change (notars v1) with (notars v). rewrite Eos. lia.
Qed.

Lemma count_skip_ok x :
  admissible st (Skip x) ->
  let v1 := put_skip v (vs_rank x) x in
  exists k1 so, let st1 := set_voted_stakes (set_votes st v1) k1 in
    (let self := set_votes st v1 in
     let self := set_voted_stakes self (add_notar_or_skip (ss_voted_stakes self) (stake_of ei (vs_rank x))) in
     count_skip_stake self (ss_slot_ st) (stake_of ei (vs_rank x)) false) = Ok so /\
    grows st st1 /\ call_ok st st1 so /\ skip_due st1 (out_certs so.2) /\
    forall h, s2n_ready st1 h = true -> h ∈ ss_sent_safe_to_notar so.1.
Proof using Hin.
  intros Had v1. pose proof (skip_grows x Had) as Hgr. cbv zeta in Hgr. fold v1 in Hgr.
  destruct (skip_tail _ _ Hin Hgr ltac:(done)) as (so & E & Hca & Hd & Hs).
  eexists _, so. split; [exact E|]. by split_and!.
Qed.

Lemma count_skip_fallback_ok x :
  admissible st (SkipFallback x) ->
  let v1 := put_skip_fallback v (vsf_rank x) x in
  exists k1 so, let st1 := set_voted_stakes (set_votes st v1) k1 in
    count_skip_stake (set_votes st v1) (ss_slot_ st) (stake_of ei (vsf_rank x)) true = Ok so /\
    grows st st1 /\ call_ok st st1 so /\ skip_due st1 (out_certs so.2) /\
    forall h, s2n_ready st1 h = true -> h ∈ ss_sent_safe_to_notar so.1.
Proof using Hin.
  intros [Hi Hs Hsl Hig _] v1. cbn in Hi, Hs, Hsl, Hig. pose proof (si_core _ Hin) as Hco.
  assert (finals v (vsf_rank x) = false) as F1 by (unfold finals; by destruct (present (vf_slot _))).
  apply orb_false_iff in Hig as [F2 F3].
  pose proof (record_skip_fallback ei (co_epoch _ Hco) (ss_slot_ st) v k (co_arrays _ Hco) (co_voters _ Hco) (co_stakes _ Hco)
    (vsf_rank x) Hi (co_slot _ Hco) x Hs eq_refl F2 F3 F1) as Hrec. fold v1 in Hrec.
  match type of Hrec with recorded _ _ _ ?kk => set (k1 := kk) in Hrec end.
  assert (grows st (set_voted_stakes (set_votes st v1) k1)) as Hgr by (by apply quiet_grows).
  destruct (skip_tail _ _ Hin Hgr ltac:(done)) as (so & E & Hca & Hd & Hsent).
  exists k1, so. split; [exact E|]. by split_and!.
Qed.
End CountSkip.

(** * Adding a vote *)

Definition put_vote (v : ag_slot_votes_t) (vote : ag_vote_t) : ag_slot_votes_t :=
  match vote with
  | Notar x => put_notar v (vn_rank x) x
  | NotarFallback x => put_notar_fallback v (vnf_rank x) x
  | Skip x => put_skip v (vs_rank x) x
  | SkipFallback x => put_skip_fallback v (vsf_rank x) x
  | Final x => put_finalize v (vf_rank x) x
  end.

(** The certificates that the vote makes due are among [certs]. *)
Definition certs_due `{BlsOps} (st : ag_slot_state_t) (vote : ag_vote_t) (certs : list ag_cert_t) : Prop :=
  match vote with
  | Notar x => notar_due st (vn_block_hash x) certs /\ notar_fallback_due st (vn_block_hash x) certs
  | NotarFallback x => notar_fallback_due st (vnf_block_hash x) certs
  | Skip _ | SkipFallback _ => skip_due st certs
  | Final _ => final_due st certs
  end.

Section AddVote.
Context `{BlsOps} (st : ag_slot_state_t) (Hin : slot_inv st) (vote : ag_vote_t) (Had : admissible st vote).
Local Abbreviation ei := (ss_epoch_info st).

Lemma count_vote_ok :
  exists st1 so, count_vote st vote (stake_of ei (ag_vote_rank vote)) = Ok so /\
    grows st st1 /\ ss_votes_ st1 = put_vote (ss_votes_ st) vote /\ call_ok st st1 so /\ certs_due st1 vote (out_certs so.2) /\
    (ag_vote_rank vote <> ss_own_rank st -> forall h, s2n_ready st1 h = true -> h ∈ ss_sent_safe_to_notar so.1).
Proof using Hin Had.
  unfold count_vote. pose proof (ad_rank _ _ Had) as Hi. pose proof (ewf_max _ (co_epoch _ (si_core _ Hin))) as Hm.
  cbv zeta. rewrite (check_true_ok OutOfBounds (ag_vote_rank vote <? AG_VAT_MAX)) by (apply Z.ltb_lt; lia).
  cbn [mbind outcome_bind]. rewrite (ad_slot _ _ Had). destruct vote as [x|x|x|x|x];
    cbn [ag_vote_rank put_vote certs_due] in Hi |- *.
  - destruct (count_notar_ok st Hin x Had) as (ele & so & E & Hgr & Hca & Hd & Hd' & Hs).
    exists (notar_counted st x ele), so. by split_and!.
  - destruct (count_final_ok st Hin x Had) as (k1 & so & E & Hgr & Hca & Hd & Hs). by eexists _, so; split_and!.
  - destruct (count_skip_ok st Hin x Had) as (k1 & so & E & Hgr & Hca & Hd & Hs). by eexists _, so; split_and!.
  - rewrite check_true_ok by (pose proof (ad_room _ _ Had eq_refl) as Hr; cbn in Hr; apply Z.ltb_lt; exact Hr). cbn [mbind outcome_bind].
    destruct (count_notar_fallback_ok st Hin x Had) as (k1 & so & E & Hgr & Hca & Hd & Hs). by eexists _, so; split_and!.
  - destruct (count_skip_fallback_ok st Hin x Had) as (k1 & so & E & Hgr & Hca & Hd & Hs). by eexists _, so; split_and!.
Qed.

Lemma add_vote_ok :
  exists st1 so, ag_slot_state_add_vote st vote (stake_of ei (ag_vote_rank vote)) = Ok so /\
    grows st st1 /\ ss_votes_ st1 = put_vote (ss_votes_ st) vote /\ call_ok st st1 so /\ certs_due st1 vote (out_certs so.2) /\
    slot_inv so.1.
Proof using Hin Had.
  destruct count_vote_ok as (st1 & so & E & Hgr & Ev & Hca & Hd & Hs). exists st1.
  unfold ag_slot_state_add_vote. rewrite E. cbn [mbind outcome_bind]. pose proof (gr_core _ _ Hgr) as Hco1.
  pose proof (em_core _ _ (ca_emitted _ _ _ Hca)) as Hsc.
  assert (ss_own_rank so.1 = ss_own_rank st) as -> by
    (destruct Hsc as (p & s & b & ->); by destruct (grows_fields _ _ Hgr) as (_ & ? & _)).
  destruct (Z.eqb_spec (ag_vote_rank vote) (ss_own_rank st)) as [Eo|Hne].
  - rewrite (ad_slot _ _ Had). destruct (grows_fields _ _ Hgr) as (_ & _ & <- & _).
    destruct (process_pending_ok st1 Hco1 so (ca_emitted _ _ _ Hca)) as (so' & -> & G & Hr). exists so'.
    pose proof (call_goes_on st st1 so so' Hin Hgr Hca G) as Hca'. split_and!; try done; [by rewrite (go_certs _ _ _ G)|].
    apply (call_slot_inv st st1 so' Hin Hgr Hca'). intros h Hh.
    destruct (same_core_eq _ _ Hsc) as (_ & _ & _ & _ & Er & _).
    destruct (ready_tracked so.1 h) as [Hx|Hx].
    + by apply (same_core_inv _ _ Hsc).
    + by rewrite Er.
    + apply (ca_tracked _ _ _ Hca). by apply ready_weakest.
    + by apply (go_sent _ _ _ G).
    + by apply Hr.
  - exists so. split_and!; try done. apply (call_slot_inv st st1 so Hin Hgr Hca). by apply Hs.
Qed.
End AddVote.

