(* ===== verification/SlotProps.v ===== *)
(** What the slot states promise the pool: the properties of counting votes,
    over single calls and over every sequence of calls. *)
From S2P Require Import Prelude VotorBase Bls Vote EpochInfo Cert FinalityTracker ParentReady SlotState SlotStateInv SlotEvents Pool SlotVotes.

(** * Events of one call *)

(** Of the events that are due, the ones that are not for a block ask to skip. *)
Lemma due_skip_count st events :
  Forall (due st) events ->
  (SafeToSkip (ss_slot_ st) ∈ events <-> (length (s2n_hashes events) < length events)%nat) /\
  (length (s2n_hashes events) <= length events)%nat.
Proof.
  induction 1 as [|e l He Hl [IH IH']]; cbn; [split; [split; [by intros ?%not_elem_of_nil|lia]|lia]|].
  destruct e; cbn in He; try done; cbn.
  - fold (s2n_hashes l). split; [|lia]. rewrite elem_of_cons, IH. split; [intros [?|?]; [done|lia]|intros; right; lia].
  - destruct He as [-> _]. fold (s2n_hashes l). split; [|lia]. split; [lia|]. intros _. by left.
Qed.

Lemma due_notar_elem st events h :
  Forall (due st) events -> SafeToNotar (ag_block_id (ss_slot_ st) h) ∈ events <-> h ∈ s2n_hashes events.
Proof.
  intros Hd. unfold s2n_hashes. rewrite list_elem_of_omap. split.
  - intros Hin. eexists. split; [exact Hin|done].
  - intros (e & He & E). rewrite Forall_forall in Hd. specialize (Hd e He). destruct e as [|[s h'] | | |]; try done.
    cbn in Hd, E. destruct Hd as [<- _]. by injection E as <-.
Qed.

Lemma grows_slot_inv_sent st st1 so :
  slot_inv st -> grows st st1 -> call_ok st st1 so -> slot_inv so.1 ->
  (forall h, h ∈ s2n_hashes (out_events so.2) <-> s2n_ready so.1 h = true /\ s2n_ready st h = false) /\
  ((length (s2n_hashes (out_events so.2)) < length (out_events so.2))%nat <->
     s2s_ready so.1 = true /\ s2s_ready st = false).
Proof.
  intros Hin Hgr Hca Hin'. pose proof (ca_emitted _ _ _ Hca) as Hem.
  destruct (grows_fields _ _ Hgr) as (_ & _ & _ & _ & _ & Es & Ef & _). split.
  - intros h. pose proof (em_sent _ _ Hem) as Hs. rewrite Es in Hs. pose proof (proj1 (se_sent _ (si_sets _ Hin'))) as Hnd.
    rewrite Hs in Hnd. apply NoDup_app in Hnd as (_ & Hdis & _). split.
    + intros Hh. split.
      * apply (proj2 (se_sent _ (si_sets _ Hin'))). rewrite Hs. apply elem_of_app. by right.
      * destruct (s2n_ready st h) eqn:E; [|done]. exfalso. apply (Hdis h); [by apply (si_complete _ Hin)|done].
    + intros [Hr Hn]. pose proof (si_complete _ Hin' h Hr) as Hx. rewrite Hs in Hx. apply elem_of_app in Hx as [Hx|Hx]; [|done].
      apply (proj2 (se_sent _ (si_sets _ Hin))) in Hx. congruence.
  - pose proof (em_count _ _ Hem) as Hc. rewrite (si_skip _ Hin'), Ef, (si_skip _ Hin) in Hc.
    destruct (s2s_ready so.1), (s2s_ready st); cbn in Hc;
      (split; [intros; first [done|lia]|intros [? ?]; first [done|lia]]).
Qed.

(** * Parents *)

Lemma find_parent_cons p ps h :
  find_parent (p :: ps) h = if decide (ps_hash p = h) then Some p else find_parent ps h.
Proof.
  unfold find_parent. cbn. case_decide; [done|]. destruct (list_find _ ps) as [[n q]|]; done.
Qed.

Lemma find_parent_app ps q h :
  find_parent (ps ++ [q]) h = match find_parent ps h with Some p => Some p
    | None => if decide (ps_hash q = h) then Some q else None end.
Proof.
  induction ps as [|p ps IH]; cbn [app]; rewrite !find_parent_cons; [done|]. rewrite IH.
  by destruct (decide (ps_hash p = h)).
Qed.

Lemma certify_parent_spec ps h :
  match certify_parent ps h with
  | Some ps' => is_Some (find_parent ps h) /\
      forall h', find_parent ps' h' = if decide (h' = h) then Some (mk_parent_status h ParentCertified) else find_parent ps h'
  | None => find_parent ps h = None
  end.
Proof.
  induction ps as [|p ps IH]; cbn [certify_parent]; [done|]. rewrite find_parent_cons.
  destruct (hash_eqb (ps_hash p) h) eqn:E.
  - apply hash_eqb_true in E. subst h. rewrite decide_True by done. split; [by eexists|]. intros h'.
    rewrite !find_parent_cons. cbn [ps_hash]. repeat case_decide; congruence.
  - apply hash_eqb_false in E. rewrite decide_False by done. destruct (certify_parent ps h) as [ps'|]; cbn [fmap option_fmap option_map]; [|done].
    destruct IH as [IH1 IH2]. split; [done|]. intros h'. rewrite !find_parent_cons, IH2. repeat case_decide; congruence.
Qed.

(** Parents only change what [certified] says. *)
Lemma core_set_parents st ps : core_inv st -> core_inv (set_parents st ps).
Proof. intros [H1 H2 H3 H4 H5 H6]. by split. Qed.

Lemma notify_parent_known_inv st h st' :
  slot_inv st -> ag_slot_state_notify_parent_known st h = Ok st' -> slot_inv st'.
Proof.
  intros Hin. unfold ag_slot_state_notify_parent_known. destruct (find_parent _ h) eqn:Ef; [by intros [= <-]|].
  destruct (_ <? _); cbn; [|done]. intros [= <-]. set (ps := _ ++ _).
  assert (forall h', certified (set_parents st ps) h' = certified st h') as Hc.
  { intros h'. unfold certified. cbn [ss_parents set_parents]. unfold ps. rewrite find_parent_app. destruct (find_parent (ss_parents st) h') as [p|]; [done|].
    case_decide; done. }
  assert (forall h', s2n_ready (set_parents st ps) h' = s2n_ready st h') as Hr
    by (intros h'; unfold s2n_ready; rewrite Hc; done).
  destruct Hin as [I1 [I2 I3] I4 I5 I6]. split.
  - by apply core_set_parents.
  - split; [done|]. destruct I3 as [I3 I3']. split; [done|]. intros h'. rewrite Hr. apply I3'.
  - intros h'. rewrite Hr. apply I4.
  - intros h' Hw. specialize (I5 h' Hw). unfold tracked. rewrite Hc. exact I5.
  - done.
Qed.

Section Certified.
Context (st : ag_slot_state_t) (Hin : slot_inv st) (h : ag_block_hash_t) (ps : list ag_parent_status_t).
Context (Hps : certify_parent (ss_parents st) h = Some ps).
Local Abbreviation st1 := (set_parents st ps).

Lemma certify_others :
  certified st1 h = true /\ find_parent ps h <> None /\ (forall h', h' <> h -> certified st1 h' = certified st h') /\
  (forall h', h' <> h -> s2n_ready st1 h' = s2n_ready st h') /\ (forall h', s2n_ready st h' = true -> s2n_ready st1 h' = true) /\
  (forall h', h' <> h -> tracked st h' -> tracked st1 h').
Proof using Hps.
  pose proof (certify_parent_spec (ss_parents st) h) as Hc. rewrite Hps in Hc. destruct Hc as [_ Hc].
  assert (certified st1 h = true) as H1 by (unfold certified; cbn [ss_parents set_parents]; by rewrite Hc, decide_True).
  assert (forall h', h' <> h -> certified st1 h' = certified st h') as H2
    by (intros h' Hne; unfold certified; cbn [ss_parents set_parents]; by rewrite Hc, decide_False).
  assert (forall h', h' <> h -> s2n_ready st1 h' = s2n_ready st h') as H3
    by (intros h' Hne; unfold s2n_ready; by rewrite (H2 h' Hne)).
  split_and!; [done|by rewrite Hc, decide_True|done|done| |].
  - intros h' Hr. destruct (decide (h' = h)) as [->|Hne]; [|by rewrite H3].
    unfold s2n_ready in Hr |- *. rewrite H1. apply andb_prop in Hr as [[He _]%andb_prop Ho]. by rewrite andb_true_r, andb_true_iff.
  - intros h' Hne. unfold tracked. rewrite H2 by done. done.
Qed.

Lemma certify_sets : sets_inv st1.
Proof using Hin Hps.
  destruct certify_others as (_ & _ & _ & _ & Hm & _). destruct (si_sets _ Hin) as [I2 [I3 I3']]. split; [done|].
  split; [done|]. intros h' Hh. by apply Hm, I3'.
Qed.
End Certified.

(** Certifying a parent keeps the invariant, never reports the block missing,
    and answers 1 exactly when the event becomes due. *)
Lemma notify_parent_certified_ok st h :
  slot_inv st -> is_Some (find_parent (ss_parents st) h) ->
  exists st' r, ag_slot_state_notify_parent_certified st h = Ok (st', r) /\ slot_inv st' /\ ((r = 0 \/ r = 1) /\ certified st' h = true) /\
    (ss_slot_ st' = ss_slot_ st /\ ss_epoch_info st' = ss_epoch_info st) /\
    (r = 1 <-> s2n_ready st' h = true /\ s2n_ready st h = false).
Proof.
  intros Hin Hf. unfold ag_slot_state_notify_parent_certified. pose proof (certify_parent_spec (ss_parents st) h) as Hc.
  destruct (certify_parent (ss_parents st) h) as [ps|] eqn:Eps; [clear Hc|rewrite Hc in Hf; by destruct Hf].
  destruct (certify_others st h ps Eps) as (C1 & C2 & C3 & C4 & C5 & C6). pose proof (certify_sets st Hin h ps Eps) as Hse.
  pose proof (core_set_parents st ps (si_core _ Hin)) as Hco. set (st1 := set_parents st ps) in *.
  assert (forall st2, same_core st1 st2 -> sets_inv st2 -> ss_sent_safe_to_skip st2 = ss_sent_safe_to_skip st1 ->
    (forall x, x ∈ ss_sent_safe_to_notar st1 -> x ∈ ss_sent_safe_to_notar st2) ->
    (forall x, tracked st1 x -> tracked st2 x) -> (s2n_ready st1 h = true -> h ∈ ss_sent_safe_to_notar st2) ->
    (weakest st1 h = true -> tracked st2 h) -> slot_inv st2) as Hclose.
  { intros st2 Hsc Hs Hfl Hsub Htr Hrh Hwh. destruct (same_core_eq _ _ Hsc) as (Ew & _ & _ & _ & Er & Es & _). split.
    - by eapply same_core_inv.
    - done.
    - intros x. rewrite Er. intros Hx. destruct (decide (x = h)) as [->|Hne]; [by apply Hrh|].
      rewrite (C4 x Hne) in Hx. apply Hsub. by apply (si_complete _ Hin).
    - intros x. rewrite Ew. intros Hx. destruct (decide (x = h)) as [->|Hne]; [by apply Hwh|].
      apply Htr, (C6 x Hne), (si_tracked _ Hin x Hx).
    - rewrite Hfl, Es. apply (si_skip _ Hin). }
  cbv zeta. destruct (set_contains _ h) eqn:Ec.
  - apply set_contains_spec in Ec. exists st1, 0. split; [done|]. split; [|split; [split; [by left|done]|split; [done|]]].
    + apply Hclose; try done; [apply same_core_refl|]. intros _. by left.
    + split; [lia|]. intros [_ Hn]. rewrite (proj2 (se_sent _ (si_sets _ Hin)) h Ec) in Hn. done.
  - assert (h ∉ ss_sent_safe_to_notar st1) as Hn by (rewrite <- set_contains_spec, Ec; done).
    destruct (check_safe_to_notar_ok st1 Hco Hse h Hn) as (st2 & r & -> & [K1 K2 K3 K4 K5 K6]). cbn [mbind outcome_bind fst snd].
    eexists _, _. split; [done|]. assert (s2n_ready st h = false) as Hnr.
    { destruct (s2n_ready st h) eqn:E; [|done]. exfalso. apply Hn. by apply (si_complete _ Hin). }
    destruct (same_core_eq _ _ K1) as (_ & _ & Ecc & _ & Er & _). split; [|split; [|split; [by destruct K1 as (p & s & b & ->)|]]].
    + apply Hclose; try done.
      * intros x Hx. destruct r; cbn in K5; destruct_and?; try (rewrite K5 || rewrite H0 || rewrite H1); set_solver.
      * intros x Hx. apply K4. by left.
      * intros Hr. pose proof (K6 Hr) as ->. destruct K5 as [_ ->]. apply elem_of_app. right. by apply list_elem_of_singleton.
      * intros Hw. apply K4. by right.
    + rewrite Ecc. split; [|done]. destruct r; [by right| |by left]. destruct K5 as (_ & K5 & _). done.
    + rewrite Er. destruct r; split; try lia; [intros _; split; [apply K5|done]| |]; intros [Hr _]; by apply K6 in Hr.
Qed.

(** * Every sequence of calls *)

(** The calls of the pool on a slot state. *)
Inductive slot_step `{BlsOps} : ag_slot_state_t -> ag_slot_state_t -> Prop :=
| SlotVote st vote st' o :
    admissible st vote ->
    ag_slot_state_add_vote st vote (stake_of (ss_epoch_info st) (ag_vote_rank vote)) = Ok (st', o) -> slot_step st st'
| SlotCert st c st' : ag_slot_state_add_cert st c = Ok st' -> slot_step st st'
| SlotKnown st h st' : ag_slot_state_notify_parent_known st h = Ok st' -> slot_step st st'
| SlotCertified st h st' r : ag_slot_state_notify_parent_certified st h = Ok (st', r) -> slot_step st st'.

(** A slot state the pool can hold: a fresh one, or one after some calls. *)
Inductive slot_reachable `{BlsOps} : ag_slot_state_t -> Prop :=
| SlotZero slot ei own :
    epoch_wf ei -> present slot = true -> own = USHORT_MAX \/ 0 <= own < ei_validator_cnt ei ->
    slot_reachable (ag_slot_state_zero slot ei own)
| SlotStep st st' : slot_reachable st -> slot_step st st' -> slot_reachable st'.

Lemma absent_at {A} `{Inhabited A} n i : (replicate n inhabitant : list A) !!! i = inhabitant.
Proof.
  destruct (decide (i < n)%nat) as [Hlt|Hge]; [by apply lookup_total_replicate_2|].
  rewrite list_lookup_total_alt, lookup_ge_None_2; [done|]. rewrite length_replicate. lia.
Qed.

Lemma wsum_none ei b : (forall i, 0 <= i -> b i = false) -> wsum ei b = 0.
Proof.
  intros Hb. etrans; [|apply (nsum_zero (Z.to_nat (ei_validator_cnt ei)))]. apply nsum_ext. intros i Hi. by rewrite Hb by lia.
Qed.

Lemma zero_inv slot ei own :
  epoch_wf ei -> present slot = true -> own = USHORT_MAX \/ 0 <= own < ei_validator_cnt ei ->
  slot_inv (ag_slot_state_zero slot ei own).
Proof.
  intros Hwf Hs Ho. set (st := ag_slot_state_zero slot ei own). set (v := ss_votes_ st).
  assert (forall i, notar_at v i = inhabitant /\ notar_fallback_at v i = [] /\ skip_at v i = inhabitant /\
    skip_fallback_at v i = inhabitant /\ finalize_at v i = inhabitant) as Hat
    by (intros i; split_and!; [apply absent_at|exact (absent_at (A := list ag_vote_notar_fallback_t) (Z.to_nat AG_VAT_MAX) (Z.to_nat i))|apply absent_at..]).
  assert (forall i, notars v i = false /\ skips v i = false /\ skip_fbs v i = false /\ finals v i = false /\
    notar_of v i = None /\ forall h, nfb_for v h i = false) as Hno.
  { intros i. destruct (Hat i) as (E1 & E2 & E3 & E4 & E5). unfold notars, skips, skip_fbs, finals, notar_of, nfb_for.
    by rewrite E1, E2, E3, E4, E5. }
  assert (forall h, wsum ei (notar_for v h) = 0) as Hw
    by (intros h; apply wsum_none; intros i _; unfold notar_for; by rewrite (proj1 (proj2 (proj2 (proj2 (proj2 (Hno i))))))).
  assert (core_inv st) as Hco.
  { split; [done| |done| | |].
    - intros Hv. destruct Ho as [Ho|Ho]; [|done]. unfold voting in Hv. cbn in Hv. rewrite Ho in Hv. done.
    - split; cbn [ss_votes_ st ag_slot_state_zero sv_notar sv_notar_fallback sv_skip sv_skip_fallback sv_finalize];
        rewrite length_replicate; done.
    - intros i _. fold v. destruct (Hat i) as (_ & E2 & _), (Hno i) as (N1 & N2 & N3 & N4 & N5 & N6).
      split; try congruence; try (rewrite E2); done.
    - fold v. split; cbn [ss_voted_stakes st ag_slot_state_zero vk_notar vk_notar_fallback vk_skip vk_skip_fallback
        vk_finalize vk_notar_or_skip vk_top_notar ag_slot_state_stake ss_epoch_info length].
      + intros h. by rewrite Hw.
      + intros h. by rewrite (wsum_none ei (nfb_for v h)) by (intros i _; apply Hno).
      + by rewrite (wsum_none ei (skips v)) by (intros i _; apply Hno).
      + by rewrite (wsum_none ei (skip_fbs v)) by (intros i _; apply Hno).
      + by rewrite (wsum_none ei (finals v)) by (intros i _; apply Hno).
      + rewrite wsum_none; [done|]. intros i _. destruct (Hno i) as (-> & -> & _). done.
      + split; [done|by left].
      + apply nsum_nonneg. intros i _. destruct (notars v i); lia.
      + apply nsum_nonneg. intros i _. lia. }
  assert (forall h, weakest st h = false) as Hwe.
  { intros h. destruct (weakest st h) eqn:E; [|done]. apply weakest_spec in E. pose proof (total_pos st Hco).
    rewrite (notar_stake_wsum st Hco) in E. fold v in E. change (ss_epoch_info st) with ei in *. rewrite Hw in E. lia. }
  assert (forall h, s2n_ready st h = false) as Hr
    by (intros h; destruct (s2n_ready st h) eqn:E; [|done]; apply ready_weakest in E; congruence).
  split; [done| |intros h; by rewrite Hr|intros h; by rewrite Hwe|].
  - split; cbn; (split; [apply NoDup_nil; exact I|by intros h ?%not_elem_of_nil]).
  - cbn. unfold s2s_ready. fold v. rewrite (proj1 (Hno (ss_own_rank st))). by rewrite andb_false_r.
Qed.

Lemma add_cert_inv st c st' : slot_inv st -> ag_slot_state_add_cert st c = Ok st' -> slot_inv st'.
Proof.
  intros Hin E.
  assert (exists cs, st' = set_certs st cs) as [cs ->].
  { destruct c; cbn in E; try (eexists; by injection E as <-). destruct (ag_slot_state_is_notar_fallback _ _).
    - injection E as <-. exists (ss_certs_ st). by destruct st.
    - destruct (_ <? _); cbn in E; [|done]. eexists. by injection E as <-. }
  destruct Hin as [[C1 C2 C3 C4 C5 C6] [S1 S2] I3 I4 I5]. by split; [split|split|..].
Qed.

Lemma slot_step_inv `{BlsOps} st st' : slot_inv st -> slot_step st st' -> slot_inv st'.
Proof.
  intros Hin Hs. destruct Hs as [st vote st' o Had E|st c st' E|st h st' E|st h st' r E].
  - destruct (add_vote_ok st Hin vote Had) as (st1 & so & E' & _ & _ & _ & _ & Hi). rewrite E in E'. by injection E' as <-.
  - by eapply add_cert_inv.
  - by eapply notify_parent_known_inv.
  - destruct (find_parent (ss_parents st) h) eqn:Ef.
    + destruct (notify_parent_certified_ok st h Hin ltac:(by eexists)) as (st2 & r2 & E' & Hi & _). rewrite E in E'.
      by injection E' as <-.
    + unfold ag_slot_state_notify_parent_certified in E. pose proof (certify_parent_spec (ss_parents st) h) as Hc.
      destruct (certify_parent _ h); [|done]. rewrite Ef in Hc. by destruct Hc as [[? ?] _].
Qed.

Lemma slot_step_fields `{BlsOps} st st' :
  slot_inv st -> slot_step st st' -> ss_slot_ st' = ss_slot_ st /\ ss_epoch_info st' = ss_epoch_info st.
Proof.
  intros Hin Hs. destruct Hs as [st vote st' o Had E|st c st' E|st h st' E|st h st' r E].
  - destruct (add_vote_ok st Hin vote Had) as (st1 & so & E' & Hgr & _ & Hca & _). rewrite E in E'. injection E' as <-.
    destruct (em_core _ _ (ca_emitted _ _ _ Hca)) as (p & s & b & Est). cbn in Est. subst st'.
    by destruct (grows_fields _ _ Hgr) as (? & _ & ? & _).
  - destruct c; cbn in E; try (by injection E as <-). destruct (ag_slot_state_is_notar_fallback _ _); [by injection E as <-|].
    destruct (_ <? _); cbn in E; [|done]. by injection E as <-.
  - unfold ag_slot_state_notify_parent_known in E. destruct (find_parent _ h); [by injection E as <-|].
    destruct (_ <? _); cbn in E; [|done]. by injection E as <-.
  - destruct (find_parent (ss_parents st) h) eqn:Ef.
    + destruct (notify_parent_certified_ok st h Hin ltac:(by eexists)) as (st2 & r2 & E' & _ & _ & Hf & _). rewrite E in E'.
      by injection E' as <-.
    + unfold ag_slot_state_notify_parent_certified in E. pose proof (certify_parent_spec (ss_parents st) h) as Hc.
      destruct (certify_parent _ h); [|done]. rewrite Ef in Hc. by destruct Hc as [[? ?] _].
Qed.

Lemma slot_reachable_inv `{BlsOps} st : slot_reachable st -> slot_inv st.
Proof.
  induction 1 as [slot ei own H1 H2 H3|st st' Hr IH Hs]; [by apply zero_inv|by eapply slot_step_inv].
Qed.

(** * Properties *)

Lemma cert_ok_core a b c : same_core a b -> cert_ok a c -> cert_ok b c.
Proof. intros (p & s & x & ->) [H1 H2 H3 H4 H5]. by split. Qed.

Lemma certs_due_core `{BlsOps} a b vote certs : same_core a b -> certs_due a vote certs -> certs_due b vote certs.
Proof. by intros (p & s & x & ->). Qed.

(** C17: an admitted vote is counted.  The call returns, so no test fails and no
    fixed array overflows; exactly this vote is added to the record; afterwards
    every counter is the exact stake of the validators whose votes it counts,
    and no validator has contradictory votes on record. *)
Theorem add_vote_counts `{BlsOps} st vote :
  slot_reachable st -> admissible st vote ->
  exists st' o, ag_slot_state_add_vote st vote (stake_of (ss_epoch_info st) (ag_vote_rank vote)) = Ok (st', o) /\
    ss_votes_ st' = put_vote (ss_votes_ st) vote /\
    stakes_ok (ss_epoch_info st) (ss_votes_ st') (ss_voted_stakes st') /\
    forall i, 0 <= i < ei_validator_cnt (ss_epoch_info st) -> voter_ok (ss_slot_ st) (ss_votes_ st') i.
Proof.
  intros Hr Had. destruct (add_vote_ok st (slot_reachable_inv _ Hr) vote Had) as (st1 & [st' o] & E & Hgr & Ev & Hca & _ & Hin).
  pose proof (em_core _ _ (ca_emitted _ _ _ Hca)) as (p & s & b & Est). cbn in Est. subst st'.
  destruct (grows_fields _ _ Hgr) as (E1 & _ & E2 & _). pose proof (gr_core _ _ Hgr) as Hco.
  eexists _, o. split; [exact E|]. split; [exact Ev|]. rewrite <- E1, <- E2. split; [apply Hco|apply Hco].
Qed.

(** C18: the certificates a vote produces are backed by the votes on record:
    they carry this slot, claim exactly the stake of their signers, reach their
    threshold, are signed only by validators that cast such a vote, and are not
    held yet; and every certificate the vote makes due is produced. *)
Theorem add_vote_certs `{BlsOps} st vote st' o :
  slot_reachable st -> admissible st vote ->
  ag_slot_state_add_vote st vote (stake_of (ss_epoch_info st) (ag_vote_rank vote)) = Ok (st', o) ->
  Forall (cert_ok st') (out_certs o) /\ certs_due st' vote (out_certs o).
Proof.
  intros Hr Had E. destruct (add_vote_ok st (slot_reachable_inv _ Hr) vote Had) as (st1 & so & E' & _ & _ & Hca & Hd & _).
  rewrite E in E'. injection E' as <-. pose proof (em_core _ _ (ca_emitted _ _ _ Hca)) as Hsc. cbn in Hsc. split.
  - eapply Forall_impl; [apply (ca_certs _ _ _ Hca)|]. intros c. by apply cert_ok_core.
  - by eapply certs_due_core.
Qed.

(** the events a vote produces are exactly the ones that become due with
    it: safe-to-notar for the blocks that were not due before and are now,
    safe-to-skip if that was not due before and is now, and nothing else. *)
Theorem add_vote_events `{BlsOps} st vote st' o :
  slot_reachable st -> admissible st vote ->
  ag_slot_state_add_vote st vote (stake_of (ss_epoch_info st) (ag_vote_rank vote)) = Ok (st', o) ->
  Forall (due st') (out_events o) /\
  (forall h, SafeToNotar (ag_block_id (ss_slot_ st) h) ∈ out_events o <-> s2n_ready st' h = true /\ s2n_ready st h = false) /\
  (SafeToSkip (ss_slot_ st) ∈ out_events o <-> s2s_ready st' = true /\ s2s_ready st = false).
Proof.
  intros Hr Had E. pose proof (slot_reachable_inv _ Hr) as Hin.
  destruct (add_vote_ok st Hin vote Had) as (st1 & so & E' & Hgr & _ & Hca & _ & Hin').
  rewrite E in E'. injection E' as <-. destruct (grows_slot_inv_sent st st1 _ Hin Hgr Hca Hin') as [Hn Hs]. cbn [fst snd] in Hn, Hs.
  pose proof (em_events _ _ (ca_emitted _ _ _ Hca)) as Hd. cbn in Hd.
  destruct (grows_fields _ _ Hgr) as (_ & _ & Eslot & _). rewrite <- Eslot. split_and!.
  - destruct (em_core _ _ (ca_emitted _ _ _ Hca)) as (p & s & b & Est). cbn in Est. by subst st'.
  - intros h. by rewrite (due_notar_elem st1 _ h Hd).
  - by rewrite (proj1 (due_skip_count st1 _ Hd)).
Qed.

(** C19: in every reachable slot state, whatever the order of votes,
    certificates and blocks, the safe-to-notar events sent are exactly those of
    the blocks that are due, and safe-to-skip was sent exactly if it is due. *)
Theorem slot_events_complete `{BlsOps} st :
  slot_reachable st ->
  (forall h, h ∈ ss_sent_safe_to_notar st <-> s2n_ready st h = true) /\ ss_sent_safe_to_skip st = s2s_ready st /\
  NoDup (ss_sent_safe_to_notar st).
Proof.
  intros Hin%slot_reachable_inv. destruct (se_sent _ (si_sets _ Hin)) as [Hnd Hs]. split_and!; [|apply Hin|done].
  intros h. split; [apply Hs|apply Hin].
Qed.

(** notifying that the parent of a known block is certified returns, never
    reports the block missing, and answers 1 exactly when the safe-to-notar
    event becomes due by it; for an unknown block it ends the process. *)
Theorem notify_parent_certified_spec `{BlsOps} st h :
  slot_reachable st ->
  match find_parent (ss_parents st) h with
  | None => ag_slot_state_notify_parent_certified st h = Fail FdTest
  | Some _ => exists st' r, ag_slot_state_notify_parent_certified st h = Ok (st', r) /\ (r = 0 \/ r = 1) /\
      certified st' h = true /\ (r = 1 <-> s2n_ready st' h = true /\ s2n_ready st h = false)
  end.
Proof.
  intros Hin%slot_reachable_inv. destruct (find_parent (ss_parents st) h) eqn:Ef.
  - destruct (notify_parent_certified_ok st h Hin ltac:(by eexists)) as (st' & r & E & Hi & [Hr Hc] & _ & Hiff). by exists st', r.
  - unfold ag_slot_state_notify_parent_certified. pose proof (certify_parent_spec (ss_parents st) h) as Hc.
    destruct (certify_parent _ h); [|done]. rewrite Ef in Hc. by destruct Hc as [[? ?] _].
Qed.

(** C20: no slot collects contradictory quorums: two blocks are never both
    notarized by 60% of the stake, no block and no skip vote both reach it, and
    finalization votes and skip or skip-fallback votes never both reach it. *)
Theorem slot_quorums_exclusive `{BlsOps} st :
  slot_reachable st ->
  let ei := ss_epoch_info st in
  let k := ss_voted_stakes st in
  (forall h1 h2, ag_epoch_info_is_quorum ei (ag_slot_state_stake (vk_notar k) h1) = true ->
     ag_epoch_info_is_quorum ei (ag_slot_state_stake (vk_notar k) h2) = true -> h1 = h2) /\
  (forall h, ag_epoch_info_is_quorum ei (ag_slot_state_stake (vk_notar k) h) = true ->
     ag_epoch_info_is_quorum ei (vk_skip k) = false) /\
  (ag_epoch_info_is_quorum ei (vk_finalize k) = true ->
     ag_epoch_info_is_quorum ei (vk_skip k +w vk_skip_fallback k) = false).
Proof.
  intros Hr. pose proof (slot_reachable_inv _ Hr) as Hin. pose proof (si_core _ Hin) as Hco. intros ei k.
  pose proof (total_pos st Hco) as Hpos. pose proof (skip_nonneg st Hco) as Hsk. split_and!.
  - intros h1 h2 Q1%is_quorum_spec Q2%is_quorum_spec. destruct (decide (h1 = h2)) as [|Hne]; [done|exfalso].
    pose proof (among_skip_le st Hco [h1; h2]) as Hle. unfold lsum in Hle. cbn [foldr] in Hle.
    specialize (Hle ltac:(apply NoDup_cons; split; [by intros ->%list_elem_of_singleton|apply NoDup_singleton])).
    unfold notar_stake in Hle. unfold ei, k in Q1, Q2. lia.
  - intros h Q%is_quorum_spec. apply not_true_iff_false. intros Q'%is_quorum_spec.
    pose proof (among_skip_le st Hco [h] (NoDup_singleton h)) as Hle. unfold lsum in Hle. cbn [foldr] in Hle.
    unfold notar_stake in Hle. unfold ei, k in Q, Q'. lia.
  - intros Q%is_quorum_spec. apply not_true_iff_false. intros Q'%is_quorum_spec. pose proof (co_epoch _ Hco) as Hwf.
    destruct (co_stakes _ Hco) as [_ _ T3 T4 T5 _ _ _ _]. fold k ei in T3, T4, T5, Hwf. rewrite T3, T4 in Q'. rewrite T5 in Q.
    set (v := ss_votes_ st) in *. pose proof (co_voters _ Hco) as Hv. fold v ei in Hv.
    assert (wsum ei (skips v) + wsum ei (skip_fbs v) = wsum ei (fun i => skips v i || skip_fbs v i)) as E1.
    { apply wsum_or. intros i Hi Hs Hf. by rewrite (vo_skip_once _ _ _ (Hv i Hi) Hs) in Hf. }
    rewrite u64_add_small in Q' by (rewrite E1; by apply wsum_u64). rewrite E1 in Q'.
    assert (wsum ei (finals v) + wsum ei (fun i => skips v i || skip_fbs v i)
      = wsum ei (fun i => finals v i || (skips v i || skip_fbs v i))) as E2.
    { apply wsum_or. intros i Hi Hf Hs. destruct (vo_final_only _ _ _ (Hv i Hi) Hf) as (F1 & F2 & _). by rewrite F1, F2 in Hs. }
    pose proof (wsum_le ei Hwf (fun i => finals v i || (skips v i || skip_fbs v i))). fold ei in Hpos. lia.
Qed.

(** * A sample run

    Five validators with ten units of stake; this validator, rank 0, skips; the
    parent of block A is certified; rank 1 votes for A, which makes it pending.
    The vote of rank 2 then makes A due. *)

#[local] Existing Instance sample_bls.

Definition slot_validator (i : Z) : ag_validator_info_t := mk_validator i 10 [] [] [].
Definition slot_epoch : ag_epoch_info_t := mk_epoch_info 5 50 (slot_validator <$> [0; 1; 2; 3; 4]) [].
Definition block_a : ag_block_hash_t := replicate 32 1.

Lemma slot_epoch_wf : epoch_wf slot_epoch.
Proof.
  split; [done|done|done| |done|done|].
  - intros i Hi. cbn in Hi. assert (i = 0 \/ i = 1 \/ i = 2 \/ i = 3 \/ i = 4) as [->|[->|[->|[->| ->]]]] by lia; done.
  - intros i v. do 5 (destruct i as [|i]; [by intros [= <-]|]). done.
Qed.

Definition vote_1 : ag_vote_t := Notar (mk_notar 7 block_a zero_sig 1).
Definition vote_2 : ag_vote_t := Notar (mk_notar 7 block_a zero_sig 2).
Definition own_skip : ag_vote_t := Skip (mk_skip 7 zero_sig 0).

Definition voted (st : ag_slot_state_t) (vote : ag_vote_t) : ag_slot_state_t :=
  match @ag_slot_state_add_vote sample_bls st vote (stake_of (ss_epoch_info st) (ag_vote_rank vote)) with
  | Ok so => so.1
  | Fail _ => st
  end.
Definition slot_0 : ag_slot_state_t := ag_slot_state_zero 7 slot_epoch 0.
Definition slot_1 : ag_slot_state_t := voted slot_0 own_skip.
Definition slot_2 : ag_slot_state_t :=
  match ag_slot_state_notify_parent_known slot_1 block_a with Ok st => st | Fail _ => slot_1 end.
Definition slot_3 : ag_slot_state_t :=
  match ag_slot_state_notify_parent_certified slot_2 block_a with Ok r => r.1 | Fail _ => slot_2 end.
Definition slot_4 : ag_slot_state_t := voted slot_3 vote_1.

Definition admits (st : ag_slot_state_t) (vote : ag_vote_t) : bool :=
  (0 <=? ag_vote_rank vote) && (ag_vote_rank vote <? ei_validator_cnt (ss_epoch_info st))
  && (ag_vote_slot vote =? ss_slot_ st)
  && bool_decide (ag_slot_state_check_slashable_offence st vote = SlashableNone)
  && negb (ag_slot_state_should_ignore_vote st vote) && negb (is_notar_fallback_vote vote).

Lemma admits_spec st vote : admits st vote = true -> admissible st vote.
Proof.
  unfold admits. rewrite !andb_true_iff. intros [[[[[H1 H2] H3] H4] H5] H6]. boolp.
  split; [lia|done|done|done|congruence].
Qed.

Lemma voted_ok st vote :
  @slot_reachable sample_bls st -> admits st vote = true ->
  @slot_reachable sample_bls (voted st vote) /\
  exists o, @ag_slot_state_add_vote sample_bls st vote (stake_of (ss_epoch_info st) (ag_vote_rank vote)) = Ok (voted st vote, o).
Proof.
  intros Hr Ha%admits_spec. destruct (add_vote_ok st (slot_reachable_inv _ Hr) vote Ha) as (st1 & [st' o] & E & _).
  unfold voted. rewrite E. cbn [fst]. split; [|by exists o]. eapply SlotStep; [exact Hr|]. by eapply SlotVote.
Qed.

Lemma slot_4_reachable : @slot_reachable sample_bls slot_4.
Proof.
  apply (voted_ok slot_3); [|by vm_compute].
  assert (@slot_reachable sample_bls slot_2) as H2.
  { apply (SlotStep slot_1).
    - apply (voted_ok slot_0); [|by vm_compute]. apply SlotZero; [apply slot_epoch_wf|done|right; done].
    - apply (SlotKnown slot_1 block_a). unfold slot_2.
      assert (is_ok (ag_slot_state_notify_parent_known slot_1 block_a) = true) as E by (by vm_compute).
      by destruct (ag_slot_state_notify_parent_known slot_1 block_a). }
  apply (SlotStep slot_2); [done|]. apply (SlotCertified slot_2 block_a slot_3
    (match ag_slot_state_notify_parent_certified slot_2 block_a with Ok r => r.2 | Fail _ => 0 end)). unfold slot_3.
  assert (is_ok (ag_slot_state_notify_parent_certified slot_2 block_a) = true) as E by (by vm_compute).
  by destruct (ag_slot_state_notify_parent_certified slot_2 block_a) as [[? ?]|].
Qed.

Lemma vote_2_admitted : admissible slot_4 vote_2.
Proof. apply admits_spec. by vm_compute. Qed.

Lemma add_vote_counts_witness :
  exists st' o, @ag_slot_state_add_vote sample_bls slot_4 vote_2 10 = Ok (st', o) /\
    stakes_ok slot_epoch (ss_votes_ st') (ss_voted_stakes st').
Proof.
  destruct (@add_vote_counts sample_bls slot_4 vote_2 slot_4_reachable vote_2_admitted) as (st' & o & E & _ & Hs & _).
  exists st', o. split; [exact E|]. assert (ss_epoch_info slot_4 = slot_epoch) as <- by (by vm_compute). exact Hs.
Defined.

Lemma add_vote_certs_witness :
  exists o, @ag_slot_state_add_vote sample_bls slot_4 vote_2 (stake_of (ss_epoch_info slot_4) 2) = Ok (voted slot_4 vote_2, o) /\
    Forall (cert_ok (voted slot_4 vote_2)) (out_certs o).
Proof.
  destruct (voted_ok slot_4 vote_2 slot_4_reachable ltac:(by vm_compute)) as (_ & o & E). exists o. split; [exact E|].
  exact (proj1 (@add_vote_certs sample_bls slot_4 vote_2 _ o slot_4_reachable vote_2_admitted E)).
Defined.

Lemma add_vote_events_witness :
  exists o, @ag_slot_state_add_vote sample_bls slot_4 vote_2 (stake_of (ss_epoch_info slot_4) 2) = Ok (voted slot_4 vote_2, o) /\
    SafeToNotar (ag_block_id (ss_slot_ slot_4) block_a) ∈ out_events o.
Proof.
  destruct (voted_ok slot_4 vote_2 slot_4_reachable ltac:(by vm_compute)) as (_ & o & E). exists o. split; [exact E|].
  apply (@add_vote_events sample_bls slot_4 vote_2 _ o slot_4_reachable vote_2_admitted E). split; by vm_compute.
Defined.

Lemma slot_events_complete_witness : block_a ∉ ss_sent_safe_to_notar slot_4.
Proof.
  intros Hin. apply (@slot_events_complete sample_bls slot_4 slot_4_reachable) in Hin. revert Hin. vm_compute. discriminate.
Defined.

Lemma notify_parent_certified_spec_witness :
  exists st' r, ag_slot_state_notify_parent_certified slot_4 block_a = Ok (st', r) /\ (r = 0 \/ r = 1).
Proof.
  pose proof (@notify_parent_certified_spec sample_bls slot_4 block_a slot_4_reachable) as Hs.
  assert (bool_decide (is_Some (find_parent (ss_parents slot_4) block_a)) = true) as E by (by vm_compute).
  apply bool_decide_eq_true in E. destruct (find_parent (ss_parents slot_4) block_a); [|by destruct E].
  destruct Hs as (st' & r & E1 & E2 & _). by exists st', r.
Defined.

Definition vote_3 : ag_vote_t := Notar (mk_notar 7 block_a zero_sig 3).
Definition slot_6 : ag_slot_state_t := voted (voted slot_4 vote_2) vote_3.

Lemma slot_6_reachable : @slot_reachable sample_bls slot_6.
Proof. apply voted_ok; [apply voted_ok; [apply slot_4_reachable|]|]; by vm_compute. Qed.

Lemma slot_quorums_exclusive_witness :
  ag_epoch_info_is_quorum (ss_epoch_info slot_6) (vk_skip (ss_voted_stakes slot_6)) = false.
Proof.
  apply (proj1 (proj2 (@slot_quorums_exclusive sample_bls slot_6 slot_6_reachable)) block_a). by vm_compute.
Defined.
