(* ===== verification/PoolInv.v ===== *)
(** The pool: every slot state it holds stays consistent over all sequences of
    calls, rejected votes and certificates change nothing, and two ways in which
    a correct peer can be let down. *)
From S2P Require Import Prelude VotorBase Bls Vote EpochInfo Cert FinalityTracker ParentReady SlotState SlotStateInv SlotEvents Pool SlotVotes SlotProps.

(** * The invariant *)

(** Epoch infos come from the ranking, and this validator has a rank in them or
    [USHORT_MAX]. *)
Definition epochs_ok (self : ag_pool_t) : Prop :=
  forall s info, epoch_info_at self s = Some info ->
    epoch_wf info /\ (epoch_rank_at self s = USHORT_MAX \/ 0 <= epoch_rank_at self s < ei_validator_cnt info).

(** The state kept for a slot is the state of that slot, under its epoch, and
    satisfies the invariant of slot states. *)
Definition states_ok (self : ag_pool_t) : Prop :=
  forall s st, pl_slot_states self !! s = Some st ->
    slot_inv st /\ ss_slot_ st = s /\ epoch_info_at self s = Some (ss_epoch_info st).

(** Blocks parked until their parent is certified have a slot. *)
Definition waiting_ok (self : ag_pool_t) : Prop :=
  forall parent child, pl_s2n_waiting_parent_cert self !! parent = Some child -> present (bid_slot child) = true.

Definition pool_inv (self : ag_pool_t) : Prop := epochs_ok self /\ states_ok self /\ waiting_ok self.

(** Steps that touch the slot states only by removing some, and no epoch. *)
Record shrinks (self self' : ag_pool_t) : Prop := {
  sh_states : forall s st, pl_slot_states self' !! s = Some st -> pl_slot_states self !! s = Some st;
  sh_waiting : forall p c, pl_s2n_waiting_parent_cert self' !! p = Some c -> pl_s2n_waiting_parent_cert self !! p = Some c;
  sh_epochs : forall s, epoch_info_at self' s = epoch_info_at self s /\ epoch_rank_at self' s = epoch_rank_at self s
}.

Lemma shrinks_inv self self' : shrinks self self' -> pool_inv self -> pool_inv self'.
Proof.
  intros [H1 H3 H2] (He & Hs & Hw). split_and!.
  - intros s info. destruct (H2 s) as [-> ->]. apply He.
  - intros s st Hst. destruct (H2 s) as [-> _]. by apply Hs, H1.
  - intros p c Hc. by apply (Hw p), H3.
Qed.

Lemma shrinks_refl self : shrinks self self.
Proof. by split. Qed.
Lemma shrinks_trans a b c : shrinks a b -> shrinks b c -> shrinks a c.
Proof.
  intros [A1 A3 A2] [B1 B3 B2]. split; [auto|auto|]. intros s. destruct (A2 s) as [<- <-]. apply B2.
Qed.

Lemma pool_events_push_shrinks self k self' : pool_events_push self k = Ok self' -> shrinks self self'.
Proof. unfold pool_events_push. intros H. inv_ok. by split. Qed.
Lemma repair_events_push_shrinks self b self' : repair_events_push self b = Ok self' -> shrinks self self'.
Proof. unfold repair_events_push. intros H. inv_ok. by split. Qed.

Lemma ofold_shrinks {A} (f : ag_pool_t -> A -> outcome ag_pool_t) l self self' :
  (forall s x s', f s x = Ok s' -> shrinks s s') -> ofold f self l = Ok self' -> shrinks self self'.
Proof.
  intros Hf. revert self. induction l as [|x l IH]; intros self; cbn; [intros [= <-]; apply shrinks_refl|].
  destruct (f self x) as [s|] eqn:E; cbn; [|done]. intros H. eapply shrinks_trans; [by eapply Hf|by apply IH].
Qed.

Lemma push_readys_shrinks self l self' : push_readys self l = Ok self' -> shrinks self self'.
Proof.
  apply ofold_shrinks. intros s x s'. destruct (ag_is_start_of_window _); cbn; [|done]. apply pool_events_push_shrinks.
Qed.

Lemma push_parent_ready_shrinks self best self' : push_parent_ready self best = Ok self' -> shrinks self self'.
Proof. destruct best; cbn; [apply pool_events_push_shrinks|intros [= <-]; apply shrinks_refl]. Qed.

Lemma handle_finalization_shrinks self ev self' : handle_finalization self ev = Ok self' -> shrinks self self'.
Proof.
  unfold handle_finalization.
  destruct (ag_parent_ready_tracker_handle_finalization _ _ _) as [r|]; cbn [mbind outcome_bind]; [|done].
  destruct (push_parent_ready _ r.2) as [s1|] eqn:E; cbn [mbind outcome_bind]; [|done]. intros [= <-].
  apply push_parent_ready_shrinks in E. destruct E as [E1 E3 E2]. split; [|exact E3|exact E2]. intros s st Hs. apply E1. cbn in Hs.
  rewrite remove_slots_lookup in Hs. by case_decide.
Qed.

(** * One slot state *)

Lemma put_slot_state_inv self slot st :
  pool_inv self -> slot_inv st -> ss_slot_ st = slot -> epoch_info_at self slot = Some (ss_epoch_info st) ->
  pool_inv (put_slot_state self slot st).
Proof.
  intros (He & Hs & Hw) Hi Es Ee. split; [exact He|]. split; [|exact Hw]. intros s st'. cbn. rewrite lookup_insert. case_decide as Hd.
  - intros [= <-]. subst s. by split_and!.
  - apply Hs.
Qed.

Lemma slot_state_inv self slot self' st :
  pool_inv self -> present slot = true -> slot_state self slot = Ok (self', st) ->
  pool_inv self' /\ slot_inv st /\ ss_slot_ st = slot /\ epoch_info_at self' slot = Some (ss_epoch_info st) /\
  (forall s, epoch_info_at self' s = epoch_info_at self s) /\ pl_slot_states self' !! slot = Some st.
Proof.
  intros Hinv Hp. unfold slot_state. destruct (pl_slot_states self !! slot) as [st0|] eqn:E.
  - intros [= <- <-]. destruct (proj1 (proj2 Hinv) slot st0 E) as (H1 & H2 & H3). by split_and!.
  - destruct (_ <? _); cbn [check mbind outcome_bind]; [|done]. destruct (epoch_info_at self slot) as [info|] eqn:Ei; [|done].
    intros [= <- <-]. destruct (proj1 Hinv slot info Ei) as [Hwf Hr].
    pose proof (zero_inv slot info (epoch_rank_at self slot) Hwf Hp Hr) as Hz. split_and!; try done.
    + by apply (put_slot_state_inv self).
    + cbn. apply lookup_insert_eq.
Qed.

Lemma notify_certified_inv self child r :
  pool_inv self -> present (bid_slot child) = true -> notify_certified self child = Ok r -> pool_inv r.1.
Proof.
  intros Hinv Hp. unfold notify_certified. destruct (slot_state _ _) as [[self1 st]|] eqn:E; cbn [mbind outcome_bind fst snd]; [|done].
  destruct (slot_state_inv _ _ _ _ Hinv Hp E) as (I1 & I2 & I3 & I4 & _ & _).
  destruct (ag_slot_state_notify_parent_certified st _) as [[st' n]|] eqn:En; cbn [mbind outcome_bind fst snd]; [|done].
  assert (slot_inv st' /\ ss_slot_ st' = ss_slot_ st /\ ss_epoch_info st' = ss_epoch_info st) as (I5 & I6 & I7).
  { assert (@slot_step sample_bls st st') as Hst by (by eapply SlotCertified).
    split; [by eapply slot_step_inv|by eapply slot_step_fields]. }
  assert (pool_inv (put_slot_state self1 (bid_slot child) st')) as Hput by (apply put_slot_state_inv; [done|done|congruence|congruence]).
  destruct (n =? -1); [|destruct (n =? 1)]; cbn [mbind outcome_bind].
  - destruct (repair_events_push _ _) as [s|] eqn:Ep; cbn; [|done]. intros [= <-]. by eapply shrinks_inv; [eapply repair_events_push_shrinks|].
  - destruct (pool_events_push _ _) as [s|] eqn:Ep; cbn; [|done]. intros [= <-]. by eapply shrinks_inv; [eapply pool_events_push_shrinks|].
  - by intros [= <-].
Qed.

Lemma block_certified_inv self block self' :
  pool_inv self -> block_certified self block = Ok self' -> pool_inv self'.
Proof.
  intros Hinv. unfold block_certified.
  assert (forall o, match pl_s2n_waiting_parent_cert self !! block with
    | None => Ok self
    | Some child => r ← notify_certified (pl_set_s2n self (delete block (pl_s2n_waiting_parent_cert self))) child; Ok r.1
    end = Ok o -> pool_inv o) as Hm.
  { intros o. destruct (_ !! block) as [child|] eqn:Ec; [|by intros [= <-]].
    destruct (notify_certified _ child) as [r|] eqn:E; cbn; [|done]. intros [= <-].
    eapply notify_certified_inv; [|by eapply (proj2 (proj2 Hinv))|exact E]. destruct Hinv as (H1 & H2 & H3). split; [exact H1|].
    split; [exact H2|]. intros p c. cbn. rewrite lookup_delete. case_decide; [done|]. apply H3. }
  destruct (match pl_s2n_waiting_parent_cert self !! block with Some _ => _ | None => _ end) as [s1|] eqn:E1 in |- *;
    cbn [mbind outcome_bind]; [|done]. specialize (Hm s1 E1).
  destruct (ag_parent_ready_tracker_mark_notar_fallback _ _ _) as [r|]; cbn [mbind outcome_bind]; [|done].
  destruct (push_readys _ _) as [s2|] eqn:E2; cbn [mbind outcome_bind]; [|done]. intros E3.
  eapply shrinks_inv; [by eapply repair_events_push_shrinks|]. eapply shrinks_inv; [by eapply push_readys_shrinks|]. exact Hm.
Qed.

Lemma mark_then_finalize_inv self (m : outcome fstate) self' :
  pool_inv self -> (s ← m; handle_finalization (pl_set_ft self s.1) s.2) = Ok self' -> pool_inv self'.
Proof.
  intros Hinv. destruct m as [s|]; cbn [mbind outcome_bind]; [|done]. intros E.
  eapply shrinks_inv; [by eapply handle_finalization_shrinks|]. exact Hinv.
Qed.

Lemma add_valid_cert_inv self cert self' :
  pool_inv self -> present (ag_cert_slot cert) = true -> add_valid_cert self cert = Ok self' -> pool_inv self'.
Proof.
  intros Hinv Hp. unfold add_valid_cert. destruct (slot_state _ _) as [[self1 st]|] eqn:E; cbn [mbind outcome_bind fst snd]; [|done].
  destruct (slot_state_inv _ _ _ _ Hinv Hp E) as (I1 & I2 & I3 & I4 & _ & _).
  destruct (ag_slot_state_add_cert st cert) as [st'|] eqn:Ea; cbn [mbind outcome_bind fst snd]; [|done].
  assert (@slot_step sample_bls st st') as Hst by (by eapply SlotCert).
  pose proof (slot_step_inv _ _ I2 Hst) as I5. destruct (slot_step_fields _ _ I2 Hst) as [I6 I7].
  assert (pool_inv (put_slot_state self1 (ag_cert_slot cert) st')) as Hput by (apply put_slot_state_inv; [done|done|congruence|congruence]).
  revert Hput. generalize (put_slot_state self1 (ag_cert_slot cert) st'). intros p Hput.
  match goal with |- (mbind _ ?m) = Ok _ -> _ => destruct m as [p'|] eqn:Em; cbn [mbind outcome_bind]; [|done] end.
  intros Hev. eapply shrinks_inv; [by eapply pool_events_push_shrinks|].
  destruct cert as [c|c|c|c|c].
  - by eapply mark_then_finalize_inv.
  - by eapply mark_then_finalize_inv.
  - destruct (ag_finality_tracker_mark_notarized _ _ _) as [s|]; cbn [mbind outcome_bind] in Em; [|done].
    destruct (handle_finalization _ _) as [p1|] eqn:Eh; cbn [mbind outcome_bind] in Em; [|done].
    eapply block_certified_inv; [|exact Em]. eapply shrinks_inv; [by eapply handle_finalization_shrinks|]. exact Hput.
  - by eapply block_certified_inv.
  - destruct (ag_parent_ready_tracker_mark_skipped _ _ _) as [r|]; cbn [mbind outcome_bind] in Em; [|done].
    eapply shrinks_inv; [by eapply push_readys_shrinks|]. exact Hput.
Qed.

Lemma in_bounds_present self slot :
  slot_out_of_bounds self slot = false -> present slot = true.
Proof.
  unfold slot_out_of_bounds, present, u64_add. intros [_ H]%orb_false_iff. boolp. apply negb_true_iff, Z.eqb_neq.
  pose proof (u64_range (ag_pool_finalized_slot self + 2 * AG_SLOTS_PER_EPOCH)). unfold is_u64 in *. lia.
Qed.

Lemma add_cert_pool_inv self cert self' e :
  pool_inv self -> ag_pool_add_cert self cert = Ok (self', e) -> pool_inv self'.
Proof.
  intros Hinv. unfold ag_pool_add_cert. destruct (slot_out_of_bounds self _) eqn:Eb; [by intros [= <- <-]|].
  pose proof (in_bounds_present _ _ Eb) as Hp.
  destruct (slot_state _ _) as [[self1 st]|] eqn:E; cbn [mbind outcome_bind fst snd]; [|done].
  destruct (slot_state_inv _ _ _ _ Hinv Hp E) as (I1 & _). destruct (cert_is_duplicate st cert); [by intros [= <- <-]|].
  destruct (add_valid_cert self1 cert) as [s|] eqn:Ea; cbn; [|done]. intros [= <- <-]. by eapply add_valid_cert_inv.
Qed.

Lemma validator_stake info voter val :
  epoch_wf info -> 0 <= voter -> ag_epoch_info_validator info voter = Ok val ->
  0 <= voter < ei_validator_cnt info /\ vi_stake val = stake_of info voter.
Proof.
  intros Hwf Hv. unfold ag_epoch_info_validator. destruct (voter <? ei_validator_cnt info) eqn:E; cbn; [|done]. boolp.
  destruct (ei_validators info !! Z.to_nat voter) as [w|] eqn:Ew; [|done]. intros [= <-]. split; [lia|].
  unfold stake_of. by rewrite Ew.
Qed.

Section Votes.
Context `{BlsOps}.

(** A vote that passed the tests of the pool is admissible. *)
Lemma accepted_admissible st vote :
  0 <= ag_vote_rank vote < ei_validator_cnt (ss_epoch_info st) -> ag_vote_slot vote = ss_slot_ st ->
  negb (bool_decide (ag_slot_state_check_slashable_offence st vote = SlashableNone)) = false ->
  ag_slot_state_should_ignore_vote st vote = false ->
  is_notar_fallback_vote vote &&
    (AG_NOTAR_FALLBACK_VOTE_MAX <=? Z.of_nat (length (notar_fallback_at (ss_votes_ st) (ag_vote_rank vote)))) = false ->
  admissible st vote.
Proof.
  intros Hr Hs Hsl Hi Hc. boolp. split; try done. intros Hn. rewrite Hn in Hc. cbn [andb] in Hc. boolp. lia.
Qed.

Lemma add_valid_certs_inv certs self self' :
  Forall (fun c => present (ag_cert_slot c) = true) certs -> pool_inv self -> ofold add_valid_cert self certs = Ok self' ->
  pool_inv self'.
Proof.
  intros Hf. revert self. induction Hf as [|c l Hc Hl IH]; intros self Hinv; cbn; [by intros [= <-]|].
  destruct (add_valid_cert self c) as [s|] eqn:E; cbn; [|done]. apply IH. by eapply add_valid_cert_inv.
Qed.

Lemma add_vote_pool_inv self vote self' e :
  pool_inv self -> 0 <= ag_vote_rank vote -> ag_pool_add_vote self vote = Ok (self', e) -> pool_inv self'.
Proof.
  intros Hinv Hr0. unfold ag_pool_add_vote. destruct (slot_out_of_bounds self _) eqn:Eb; [by intros [= <- <-]|].
  pose proof (in_bounds_present _ _ Eb) as Hp. destruct (epoch_info_at self (ag_vote_slot vote)) as [info|] eqn:Ei; [|done].
  destruct (ag_epoch_info_validator info _) as [val|] eqn:Ev; cbn [mbind outcome_bind]; [|done].
  destruct (slot_state _ _) as [[self1 st]|] eqn:E; cbn [mbind outcome_bind fst snd]; [|done].
  destruct (slot_state_inv _ _ _ _ Hinv Hp E) as (I1 & I2 & I3 & I4 & I5 & _). rewrite I5, Ei in I4. injection I4 as ->.
  destruct (validator_stake _ _ _ (co_epoch _ (si_core _ I2)) Hr0 Ev) as [Hr Hstk].
  destruct (negb _) eqn:Esl; [by intros [= <- <-]|].
  destruct (ag_slot_state_should_ignore_vote st vote) eqn:Eig; [by intros [= <- <-]|].
  destruct (is_notar_fallback_vote vote && _) eqn:Ecap; [by intros [= <- <-]|].
  pose proof (accepted_admissible st vote Hr (eq_sym I3) Esl Eig Ecap) as Had.
  destruct (add_vote_ok st I2 vote Had) as (st1 & so & Ea & Hgr & _ & Hca & _ & Hin'). rewrite Hstk, Ea.
  cbn [mbind outcome_bind fst snd].
  assert (slot_step st so.1) as Hst by (destruct so; by eapply SlotVote).
  destruct (slot_step_fields _ _ I2 Hst) as [I6 I7].
  assert (pool_inv (put_slot_state self1 (ag_vote_slot vote) so.1)) as Hput.
  { apply put_slot_state_inv; [done|done|congruence|]. rewrite I5, Ei. congruence. }
  destruct (ofold add_valid_cert _ _) as [s1|] eqn:E1; cbn [mbind outcome_bind]; [|done].
  destruct (ofold pool_events_push _ _) as [s2|] eqn:E2; cbn [mbind outcome_bind]; [|done].
  destruct (ofold repair_events_push _ _) as [s3|] eqn:E3; cbn [mbind outcome_bind]; [|done]. intros [= <- <-].
  eapply shrinks_inv; [eapply ofold_shrinks; [|exact E3]; apply repair_events_push_shrinks|].
  eapply shrinks_inv; [eapply ofold_shrinks; [|exact E2]; apply pool_events_push_shrinks|].
  eapply add_valid_certs_inv; [|exact Hput|exact E1]. eapply Forall_impl; [apply (ca_certs _ _ _ Hca)|].
  intros c Hc. rewrite (cok_slot _ _ Hc). apply (co_slot _ (gr_core _ _ Hgr)).
Qed.
End Votes.

Lemma add_block_pool_inv self block parent self' :
  pool_inv self -> present (bid_slot block) = true -> ag_pool_add_block self block parent = Ok self' -> pool_inv self'.
Proof.
  intros Hinv Hp. unfold ag_pool_add_block.
  destruct (ag_finality_tracker_add_parent _ _ _ _) as [s|]; cbn [mbind outcome_bind]; [|done].
  destruct (ag_parent_ready_tracker_handle_finalization _ _ _) as [r|]; cbn [mbind outcome_bind]; [|done].
  destruct (push_parent_ready _ _) as [s1|] eqn:E1; cbn [mbind outcome_bind]; [|done].
  assert (pool_inv s1) as H1 by (eapply shrinks_inv; [by eapply push_parent_ready_shrinks|]; exact Hinv).
  destruct (slot_state s1 _) as [[self1 st]|] eqn:E; cbn [mbind outcome_bind fst snd]; [|done].
  destruct (slot_state_inv _ _ _ _ H1 Hp E) as (I1 & I2 & I3 & I4 & _).
  destruct (ag_slot_state_notify_parent_known st _) as [st'|] eqn:Ek; cbn [mbind outcome_bind]; [|done].
  assert (@slot_step sample_bls st st') as Hst by (by eapply SlotKnown).
  pose proof (slot_step_inv _ _ I2 Hst) as I5. destruct (slot_step_fields _ _ I2 Hst) as [I6 I7].
  assert (pool_inv (put_slot_state self1 (bid_slot block) st')) as Hput by (apply put_slot_state_inv; [done|done|congruence|congruence]).
  cbv zeta. set (p := put_slot_state self1 (bid_slot block) st') in *.
  set (b := match pl_slot_states p !! bid_slot parent with Some ps => _ | None => false end).
  destruct (if b then notify_certified p block else Ok (p, 0)) as [r2|] eqn:E2; cbn [mbind outcome_bind]; [|done].
  assert (pool_inv r2.1) as H2.
  { destruct b; [by eapply notify_certified_inv|]. by injection E2 as <-. }
  destruct (b && _); [by intros [= <-]|]. destruct (_ || _); cbn [check mbind outcome_bind]; [|done]. intros [= <-].
  destruct H2 as (A1 & A2 & A3). split; [exact A1|]. split; [exact A2|]. intros q c. cbn. rewrite lookup_insert.
  case_decide; [intros [= <-]; done|apply A3].
Qed.

(** * Every sequence of calls *)

(** The epochs advance before a slot state of the new epoch exists, and after
    the slot states of the epoch that is forgotten are gone. *)
Inductive pool_step `{BlsOps} : ag_pool_t -> ag_pool_t -> Prop :=
| PoolInit self slot : pool_step self (ag_pool_init self slot)
| PoolFini self : pool_step self (ag_pool_fini self)
| PoolVote self vote self' e : 0 <= ag_vote_rank vote -> ag_pool_add_vote self vote = Ok (self', e) -> pool_step self self'
| PoolCert self cert self' e : ag_pool_add_cert self cert = Ok (self', e) -> pool_step self self'
| PoolBlock self block parent self' :
    present (bid_slot block) = true -> ag_pool_add_block self block parent = Ok self' -> pool_step self self'
| PoolEpoch self info rank slot :
    epoch_wf info -> rank = USHORT_MAX \/ 0 <= rank < ei_validator_cnt info ->
    (forall s, is_Some (pl_slot_states self !! s) ->
       epoch_info_at (ag_pool_advance_epoch self info rank slot) s = epoch_info_at self s) ->
    pool_step self (ag_pool_advance_epoch self info rank slot)
| PoolPoll self : pool_step self (ag_pool_poll_pool_event self).1
| PoolPollRepair self : pool_step self (ag_pool_poll_repair_event self).1
| PoolStandstill self iter self' : ag_pool_recover_from_standstill iter self = Ok self' -> pool_step self self'.

Definition pool_reachable `{BlsOps} (self : ag_pool_t) : Prop :=
  exists mem slot_max p0, ag_pool_new mem slot_max = Some p0 /\ rtc pool_step p0 self.

(** Both infos are fine, as the epoch of some slot. *)
Lemma epochs_ok_both self :
  epochs_ok self <->
  (forall info, pl_curr_epoch_info self = Some info ->
     epoch_wf info /\ (pl_curr_epoch_rank self = USHORT_MAX \/ 0 <= pl_curr_epoch_rank self < ei_validator_cnt info)) /\
  (forall info, pl_next_epoch_info self = Some info ->
     epoch_wf info /\ (pl_next_epoch_rank self = USHORT_MAX \/ 0 <= pl_next_epoch_rank self < ei_validator_cnt info)).
Proof.
  unfold epochs_ok, epoch_info_at, epoch_rank_at. split.
  - intros H. split; intros info Hi.
    + specialize (H (pl_next_epoch_slot self - 1) info). destruct (Z.leb_spec (pl_next_epoch_slot self) (pl_next_epoch_slot self - 1));
        [lia|]. by apply H.
    + specialize (H (pl_next_epoch_slot self) info). rewrite Z.leb_refl in H. by apply H.
  - intros [H1 H2] s info. destruct (_ <=? s); [apply H2|apply H1].
Qed.

Lemma advance_epoch_inv self info rank slot :
  pool_inv self -> epoch_wf info -> rank = USHORT_MAX \/ 0 <= rank < ei_validator_cnt info ->
  (forall s, is_Some (pl_slot_states self !! s) ->
     epoch_info_at (ag_pool_advance_epoch self info rank slot) s = epoch_info_at self s) ->
  pool_inv (ag_pool_advance_epoch self info rank slot).
Proof.
  intros (He & Hs & Hw) Hwf Hr Hsame. apply epochs_ok_both in He as [H1 H2].
  assert (pl_slot_states (ag_pool_advance_epoch self info rank slot) = pl_slot_states self /\
    pl_s2n_waiting_parent_cert (ag_pool_advance_epoch self info rank slot) = pl_s2n_waiting_parent_cert self) as [E1 E2]
    by (unfold ag_pool_advance_epoch; destruct (pl_curr_epoch_info self), (pl_next_epoch_info self); done).
  split_and!.
  - apply epochs_ok_both. unfold ag_pool_advance_epoch. destruct (pl_curr_epoch_info self) as [c|]; [|split; [by intros i [= <-]|exact H2]].
    destruct (pl_next_epoch_info self) as [n|]; cbn; (split; [|by intros i [= <-]]); [exact H2|exact H1].
  - intros s st Hst. rewrite E1 in Hst. rewrite Hsame by (by eexists). by apply Hs.
  - intros p c. rewrite E2. apply Hw.
Qed.

Lemma pool_step_inv `{BlsOps} self self' : pool_inv self -> pool_step self self' -> pool_inv self'.
Proof.
  intros Hinv Hs. destruct Hs as [self slot|self|self vote self' e Hr E|self cert self' e E|self block parent self' Hp E
    |self info rank slot Hwf Hr Hsame|self|self|self iter self' E]; try exact Hinv.
  - by eapply add_vote_pool_inv.
  - by eapply add_cert_pool_inv.
  - by eapply add_block_pool_inv.
  - by apply advance_epoch_inv.
  - unfold ag_pool_poll_pool_event. by destruct (pl_pool_events self).
  - unfold ag_pool_poll_repair_event. by destruct (pl_repair_events self).
  - unfold ag_pool_recover_from_standstill in E. destruct (finalized_certs self) as [certs|]; cbn [mbind outcome_bind] in E; [|done].
    destruct (foldl _ _ _) as [cs vs]. by eapply shrinks_inv; [eapply pool_events_push_shrinks|].
Qed.

Lemma pool_new_inv mem slot_max p : ag_pool_new mem slot_max = Some p -> pool_inv p.
Proof.
  unfold ag_pool_new. destruct (mem =? 0); [done|]. destruct (negb _); [done|]. destruct (slot_max <? _); [done|].
  destruct (ag_parent_ready_tracker_new _ _) as [prt|]; cbn; [|done].
  destruct (ag_finality_tracker_new _ _) as [ft|]; cbn; [|done]. intros [= <-]. split_and!.
  - intros s info. unfold epoch_info_at. cbn. by destruct (_ <=? s).
  - intros s st. cbn. by rewrite lookup_empty.
  - intros q c. cbn. by rewrite lookup_empty.
Qed.

Lemma pool_reachable_inv `{BlsOps} self : pool_reachable self -> pool_inv self.
Proof.
  intros (mem & slot_max & p0 & E & Hr). apply pool_new_inv in E. induction Hr as [|a b c Hs _ IH]; [done|].
  apply IH. by eapply pool_step_inv.
Qed.

(** * Properties *)


(** The pool is as before, or got a fresh state for the slot. *)
Definition only_fresh (self : ag_pool_t) (slot : Z) (self' : ag_pool_t) : Prop :=
  self' = self \/ exists info, pl_slot_states self !! slot = None /\ epoch_info_at self slot = Some info /\
    self' = put_slot_state self slot (ag_slot_state_zero slot info (epoch_rank_at self slot)).

Lemma slot_state_fresh self slot self' st :
  slot_state self slot = Ok (self', st) -> only_fresh self slot self' /\ pl_slot_states self' !! slot = Some st.
Proof.
  unfold slot_state. destruct (pl_slot_states self !! slot) as [st0|] eqn:E; [intros [= <- <-]; split; [by left|done]|].
  destruct (_ <? _); cbn [check mbind outcome_bind]; [|done]. destruct (epoch_info_at self slot) as [info|] eqn:Ei; [|done].
  intros [= <- <-]. split; [right; by exists info|]. cbn. apply lookup_insert_eq.
Qed.

(** a rejected vote leaves the pool as it was, up to a fresh state for its
    slot, and is rejected for the reason its error names. *)
Theorem pool_vote_rejected `{BlsOps} self vote self' e :
  ag_pool_add_vote self vote = Ok (self', e) -> e <> AG_POOL_SUCCESS ->
  let slot := ag_vote_slot vote in
  only_fresh self slot self' /\
  match e with
  | AG_POOL_SUCCESS => False
  | AG_POOL_ERR_SLOT_OUT_OF_BOUNDS => self' = self /\ slot_out_of_bounds self slot = true
  | _ => slot_out_of_bounds self slot = false /\ exists st, pl_slot_states self' !! slot = Some st /\
      match e with
      | AG_POOL_ERR_SLASHABLE => ag_slot_state_check_slashable_offence st vote <> SlashableNone
      | AG_POOL_ERR_DUPLICATE => ag_slot_state_check_slashable_offence st vote = SlashableNone /\
          ag_slot_state_should_ignore_vote st vote = true
      | _ => is_notar_fallback_vote vote = true /\
          AG_NOTAR_FALLBACK_VOTE_MAX <= Z.of_nat (length (notar_fallback_at (ss_votes_ st) (ag_vote_rank vote)))
      end
  end.
Proof.
  intros E Hne slot. revert E. unfold ag_pool_add_vote. fold slot. destruct (slot_out_of_bounds self slot) eqn:Eb.
  { intros [= <- <-]. split; [by left|done]. }
  destruct (epoch_info_at self slot) as [info|]; [|done].
  destruct (ag_epoch_info_validator info _) as [val|]; cbn [mbind outcome_bind]; [|done].
  destruct (slot_state self slot) as [[self1 st]|] eqn:E; cbn [mbind outcome_bind fst snd]; [|done].
  destruct (slot_state_fresh _ _ _ _ E) as [Hf Hl].
  destruct (negb _) eqn:Esl; [intros [= <- <-]; boolp; split; [done|]; split; [done|]; by exists st|]. boolp.
  destruct (ag_slot_state_should_ignore_vote st vote) eqn:Eig; [intros [= <- <-]; split; [done|]; split; [done|]; by exists st|].
  destruct (is_notar_fallback_vote vote && _) eqn:Ecap.
  { intros [= <- <-]. apply andb_prop in Ecap as [Ec1 Ec2]. boolp. split; [done|]. split; [done|]. by exists st. }
  destruct (ag_slot_state_add_vote _ _ _) as [so|]; cbn [mbind outcome_bind]; [|done].
  destruct (ofold add_valid_cert _ _) as [s1|]; cbn [mbind outcome_bind]; [|done].
  destruct (ofold pool_events_push _ _) as [s2|]; cbn [mbind outcome_bind]; [|done].
  destruct (ofold repair_events_push _ _) as [s3|]; cbn [mbind outcome_bind]; [|done]. intros [= <- <-]. done.
Qed.

(** * Two failures *)

#[local] Existing Instance sample_bls.

Definition block_p : ag_block_id_t := ag_block_id 7 (replicate 32 7).
Definition child_8 : ag_block_id_t := ag_block_id 8 (replicate 32 8).
Definition child_12 : ag_block_id_t := ag_block_id 12 (replicate 32 12).

(** A pool of 64 slots, booted from slot 6. *)
Definition boot_pool : outcome ag_pool_t :=
  match ag_pool_new 128 64 with
  | Some p => Ok (ag_pool_advance_epoch (ag_pool_init p 6) slot_epoch 0 0)
  | None => Fail NullPtr
  end.

(** after a start from slot 6, one vote for slot 6 makes the next standstill
    recovery end the process: it expects the certificates of the finalized slot
    as soon as there is a state for that slot, but a snapshot slot has none. *)
Theorem standstill_after_boot_vote iter :
  (p ← boot_pool; r ← ag_pool_add_vote p (Notar (mk_notar 6 block_a zero_sig 1));
   check Unreachable (bool_decide (r.2 = AG_POOL_SUCCESS));;
   ag_pool_recover_from_standstill iter r.1) = Fail FdTest.
Proof.
  assert (exists q, (p ← boot_pool; ag_pool_add_vote p (Notar (mk_notar 6 block_a zero_sig 1))) = Ok (q, AG_POOL_SUCCESS) /\
    finalized_certs q = Fail FdTest) as (q & E & Hf).
  { eexists. split; [vm_compute; reflexivity|by vm_compute]. }
  destruct boot_pool as [p|]; cbn [mbind outcome_bind] in E |- *; [|done]. rewrite E. cbn [mbind outcome_bind fst snd check].
  rewrite bool_decide_eq_true_2 by done. cbn [check mbind outcome_bind]. unfold ag_pool_recover_from_standstill. by rewrite Hf.
Qed.

(** when two known blocks have the same uncertified parent, only the later
    one is remembered: the certificate of the parent certifies the parent of
    the later block, and the earlier one stays as it was, with nothing left that
    would certify it. *)
Theorem first_child_forgotten :
  match (p ← boot_pool; p ← ag_pool_add_block p child_8 block_p; p ← ag_pool_add_block p child_12 block_p;
         ag_pool_add_cert p (CNotar (mk_cert_notar 7 (bid_hash block_p) ag_bls_agg_zero 50))) with
  | Ok (p, e) => e = AG_POOL_SUCCESS /\ pl_s2n_waiting_parent_cert p = ∅ /\
      (ss_parents <$> pl_slot_states p !! 8) = Some [mk_parent_status (bid_hash child_8) ParentKnown] /\
      (ss_parents <$> pl_slot_states p !! 12) = Some [mk_parent_status (bid_hash child_12) ParentCertified]
  | Fail _ => False
  end.
Proof. vm_compute. done. Qed.

(** * Witnesses *)

Definition or_pool {A} (f : A -> ag_pool_t) (o : outcome A) : ag_pool_t :=
  match o with
  | Ok a => f a
  | Fail _ => mk_pool ∅ (mk_prt ∅ 0 0) (mk_ft ∅ ∅ 0 0 0 0) ∅ None 0 0 None 0 0 [] [] 0 0
  end.
Definition pool_new : ag_pool_t :=
  or_pool id (match ag_pool_new 128 64 with Some p => Ok p | None => Fail NullPtr end).
Definition pool_0 : ag_pool_t := ag_pool_advance_epoch (ag_pool_init pool_new 6) slot_epoch 0 0.
Definition pool_1 : ag_pool_t := or_pool fst (ag_pool_add_vote pool_0 vote_1).

Lemma pool_1_reachable : pool_reachable pool_1.
Proof.
  exists 128, 64, pool_new. split; [by vm_compute|]. eapply rtc_l; [apply (PoolInit pool_new 6)|].
  eapply rtc_l.
  - apply (PoolEpoch (ag_pool_init pool_new 6) slot_epoch 0 0); [apply slot_epoch_wf|by right; vm_compute|].
    intros s [st Hs]. assert (pl_slot_states (ag_pool_init pool_new 6) = ∅) as E by (by vm_compute).
    rewrite E, lookup_empty in Hs. done.
  - apply rtc_once. apply (PoolVote pool_0 vote_1 pool_1 AG_POOL_SUCCESS); [done|]. vm_compute. reflexivity.
Qed.


(** The same vote again is a duplicate and changes nothing. *)
Lemma pool_vote_rejected_witness : only_fresh pool_1 7 (or_pool fst (ag_pool_add_vote pool_1 vote_1)).
Proof.
  assert (ag_pool_add_vote pool_1 vote_1 = Ok (or_pool fst (ag_pool_add_vote pool_1 vote_1), AG_POOL_ERR_DUPLICATE)) as E
    by (vm_compute; reflexivity).
  apply (pool_vote_rejected pool_1 vote_1 _ _ E). discriminate.
Defined.
