(* ===== verification/Votor.v ===== *)
(** The voting engine (src/src/choreo/votor/ag_votor.h, ag_votor.c): which
    votes this validator casts in answer to pool events, blocks, replay
    results and timeouts.

    The slot states form a finite map of bounded size.  The two intrusive
    lists through the states are lists of slots; the queues are lists with the
    capacity of the queue.  [long] times are integers. *)
From S2P Require Import Prelude VotorBase Bls Vote EpochInfo Cert ParentReady SlotState.

(** * Events (ag_event.h) *)

Inductive block_event_kind := FirstShred | InvalidBlock.
Record ag_event_block_t := mk_event_block { eb_seq : Z; eb_ts : Z; eb_kind : block_event_kind; eb_slot : Z }.

Inductive replay_event_kind := ReplayCompleted | ReplayDead.
Record ag_event_replay_t := mk_event_replay {
  ery_seq : Z; ery_ts : Z; ery_kind : replay_event_kind; ery_slot : Z; ery_block_info : ag_block_info_t }.

Inductive timeout_event_kind := Timeout | TimeoutCrashedLeader.
Record ag_event_timeout_t := mk_event_timeout {
  et_seq : Z; et_ts : Z; et_kind : timeout_event_kind; et_slot : Z }.

Record ag_event_vote_t := mk_event_vote { ev_seq : Z; ev_ts : Z; ev_vote : ag_vote_t }.
Record ag_event_cert_t := mk_event_cert { ec_seq : Z; ec_ts : Z; ec_cert : ag_cert_t }.

(** * State *)

Definition PARENTS_READY_MAX : Z := AG_SLOTS_PER_WINDOW * AG_NOTAR_FALLBACK_CERT_MAX + 1.

Record slot_state_ele_t := mk_ele {
  el_voted : bool;
  el_voted_notar : bool;
  el_voted_notar_hash : ag_block_hash_t;
  el_bad_window : bool;
  el_block_notarized : bool;
  el_block_notarized_hash : ag_block_hash_t;
  el_parents_ready : list ag_block_id_t;
  el_received_shred : bool;
  el_pending_block : bool;
  el_pending_block_info : ag_block_info_t;
  el_retired : bool;
  el_timeout : Z;
  el_timeout_crashed_leader : Z
}.

(** A zeroed element with both timers idle. *)
Definition ele_zero : slot_state_ele_t :=
  mk_ele false false zero_hash false false zero_hash [] false false inhabitant false LONG_MAX LONG_MAX.

Definition el_set_vote (e : slot_state_ele_t) voted notar hash bad :=
  mk_ele voted notar hash bad (el_block_notarized e) (el_block_notarized_hash e) (el_parents_ready e)
    (el_received_shred e) (el_pending_block e) (el_pending_block_info e) (el_retired e) (el_timeout e)
    (el_timeout_crashed_leader e).
Definition el_set_notarized (e : slot_state_ele_t) b hash :=
  mk_ele (el_voted e) (el_voted_notar e) (el_voted_notar_hash e) (el_bad_window e) b hash
    (el_parents_ready e) (el_received_shred e) (el_pending_block e) (el_pending_block_info e)
    (el_retired e) (el_timeout e) (el_timeout_crashed_leader e).
Definition el_set_parents_ready (e : slot_state_ele_t) ps :=
  mk_ele (el_voted e) (el_voted_notar e) (el_voted_notar_hash e) (el_bad_window e) (el_block_notarized e)
    (el_block_notarized_hash e) ps (el_received_shred e) (el_pending_block e) (el_pending_block_info e)
    (el_retired e) (el_timeout e) (el_timeout_crashed_leader e).
Definition el_set_received_shred (e : slot_state_ele_t) b :=
  mk_ele (el_voted e) (el_voted_notar e) (el_voted_notar_hash e) (el_bad_window e) (el_block_notarized e)
    (el_block_notarized_hash e) (el_parents_ready e) b (el_pending_block e) (el_pending_block_info e)
    (el_retired e) (el_timeout e) (el_timeout_crashed_leader e).
Definition el_set_pending (e : slot_state_ele_t) b info :=
  mk_ele (el_voted e) (el_voted_notar e) (el_voted_notar_hash e) (el_bad_window e) (el_block_notarized e)
    (el_block_notarized_hash e) (el_parents_ready e) (el_received_shred e) b info
    (el_retired e) (el_timeout e) (el_timeout_crashed_leader e).
Definition el_set_retired (e : slot_state_ele_t) b :=
  mk_ele (el_voted e) (el_voted_notar e) (el_voted_notar_hash e) (el_bad_window e) (el_block_notarized e)
    (el_block_notarized_hash e) (el_parents_ready e) (el_received_shred e) (el_pending_block e)
    (el_pending_block_info e) b (el_timeout e) (el_timeout_crashed_leader e).
Definition el_set_timers (e : slot_state_ele_t) timeout crashed :=
  mk_ele (el_voted e) (el_voted_notar e) (el_voted_notar_hash e) (el_bad_window e) (el_block_notarized e)
    (el_block_notarized_hash e) (el_parents_ready e) (el_received_shred e) (el_pending_block e)
    (el_pending_block_info e) (el_retired e) timeout crashed.

Record ag_votor_t := mk_votor {
  vt_now : Z;
  vt_seq : Z;
  vt_root : Z;
  vt_slot_max : Z;
  vt_shred_version : Z;
  vt_slot_states : gmap Z slot_state_ele_t;
  vt_highest_final_cert_slot : Z;
  vt_curr_epoch_rank : Z;
  vt_curr_epoch_slot : Z;
  vt_next_epoch_rank : Z;
  vt_next_epoch_slot : Z;
  vt_bls_sec : ag_bls_sec_t;
  vt_vote_events : list ag_event_vote_t;
  vt_cert_events : list ag_event_cert_t;
  vt_pending_dlist : list Z;
  vt_timeout_dlist : list Z
}.

Definition vt_set_now (v : ag_votor_t) now :=
  mk_votor now (vt_seq v) (vt_root v) (vt_slot_max v) (vt_shred_version v) (vt_slot_states v)
    (vt_highest_final_cert_slot v) (vt_curr_epoch_rank v) (vt_curr_epoch_slot v) (vt_next_epoch_rank v)
    (vt_next_epoch_slot v) (vt_bls_sec v) (vt_vote_events v) (vt_cert_events v) (vt_pending_dlist v)
    (vt_timeout_dlist v).
Definition vt_set_states (v : ag_votor_t) m pending timeout :=
  mk_votor (vt_now v) (vt_seq v) (vt_root v) (vt_slot_max v) (vt_shred_version v) m
    (vt_highest_final_cert_slot v) (vt_curr_epoch_rank v) (vt_curr_epoch_slot v) (vt_next_epoch_rank v)
    (vt_next_epoch_slot v) (vt_bls_sec v) (vt_vote_events v) (vt_cert_events v) pending timeout.
Definition vt_set_root (v : ag_votor_t) root highest :=
  mk_votor (vt_now v) (vt_seq v) root (vt_slot_max v) (vt_shred_version v) (vt_slot_states v)
    highest (vt_curr_epoch_rank v) (vt_curr_epoch_slot v) (vt_next_epoch_rank v) (vt_next_epoch_slot v)
    (vt_bls_sec v) (vt_vote_events v) (vt_cert_events v) (vt_pending_dlist v) (vt_timeout_dlist v).
Definition vt_set_epochs (v : ag_votor_t) cr cs nr ns :=
  mk_votor (vt_now v) (vt_seq v) (vt_root v) (vt_slot_max v) (vt_shred_version v) (vt_slot_states v)
    (vt_highest_final_cert_slot v) cr cs nr ns (vt_bls_sec v) (vt_vote_events v) (vt_cert_events v)
    (vt_pending_dlist v) (vt_timeout_dlist v).
Definition vt_set_keys (v : ag_votor_t) sec version :=
  mk_votor (vt_now v) (vt_seq v) (vt_root v) (vt_slot_max v) version (vt_slot_states v)
    (vt_highest_final_cert_slot v) (vt_curr_epoch_rank v) (vt_curr_epoch_slot v) (vt_next_epoch_rank v)
    (vt_next_epoch_slot v) sec (vt_vote_events v) (vt_cert_events v) (vt_pending_dlist v) (vt_timeout_dlist v).
Definition vt_set_events (v : ag_votor_t) votes certs seq :=
  mk_votor (vt_now v) seq (vt_root v) (vt_slot_max v) (vt_shred_version v) (vt_slot_states v)
    (vt_highest_final_cert_slot v) (vt_curr_epoch_rank v) (vt_curr_epoch_slot v) (vt_next_epoch_rank v)
    (vt_next_epoch_slot v) (vt_bls_sec v) votes certs (vt_pending_dlist v) (vt_timeout_dlist v).

Definition timer_idle (ele : slot_state_ele_t) : bool :=
  (el_timeout ele =? LONG_MAX) && (el_timeout_crashed_leader ele =? LONG_MAX).

(** Unlinks an element from an intrusive list. *)
Definition dlist_remove (slot : Z) (l : list Z) : list Z := filter (fun s => s <> slot) l.

(** The state of a slot, created on first use. *)
Definition state_mut (self : ag_votor_t) (slot : Z) : outcome (ag_votor_t * slot_state_ele_t) :=
  match vt_slot_states self !! slot with
  | Some ele => Ok (self, ele)
  | None =>
      check FdTest (Z.of_nat (size (vt_slot_states self)) <? vt_slot_max self);;
      Ok (vt_set_states self (<[slot := ele_zero]> (vt_slot_states self)) (vt_pending_dlist self)
            (vt_timeout_dlist self), ele_zero)
  end.

Definition put_ele (self : ag_votor_t) (slot : Z) (ele : slot_state_ele_t) : ag_votor_t :=
  vt_set_states self (<[slot := ele]> (vt_slot_states self)) (vt_pending_dlist self) (vt_timeout_dlist self).

(** [state_mut( self, slot )->field = ...] *)
Definition update_state (self : ag_votor_t) (slot : Z) (f : slot_state_ele_t -> slot_state_ele_t)
    : outcome ag_votor_t :=
  r ← state_mut self slot; Ok (put_ele r.1 slot (f r.2)).

(** * Timers *)

(** Changes the timers of a slot and links it into the timer list when both were idle. *)
Definition arm (self : ag_votor_t) (slot : Z) (f : slot_state_ele_t -> slot_state_ele_t) : outcome ag_votor_t :=
  r ← state_mut self slot;
  let self := put_ele r.1 slot (f r.2) in
  Ok (if timer_idle r.2
      then vt_set_states self (vt_slot_states self) (vt_pending_dlist self) (vt_timeout_dlist self ++ [slot])
      else self).

Definition set_timeouts (self : ag_votor_t) (slot : Z) : outcome ag_votor_t :=
  check FdTest (ag_is_start_of_window slot);;
  let deadline := vt_now self + AG_DELTA_TIMEOUT_NS + AG_DELTA_FIRST_SLICE_NS in
  self ← arm self slot (fun e => el_set_timers e (el_timeout e) (Z.min (el_timeout_crashed_leader e) deadline));
  r ← ofold (fun sd s =>
               let deadline := snd sd + (if ag_is_start_of_window s
                                        then Z.max (AG_DELTA_BLOCK_NS - AG_DELTA_FIRST_SLICE_NS) 0
                                        else AG_DELTA_BLOCK_NS) in
               self ← arm (fst sd) s (fun e => el_set_timers e (Z.min (el_timeout e) deadline) (el_timeout_crashed_leader e));
               Ok (self, deadline))
        (self, deadline) (range slot (slot +w AG_SLOTS_PER_WINDOW));
  Ok (fst r).

(** * Creation and settings *)

Definition ag_votor_align : Z := 128.

Definition ag_votor_fini (self : ag_votor_t) : ag_votor_t := vt_set_root self ULONG_MAX ULONG_MAX.

(** NULL when the memory is NULL or misaligned, or when the footprint is zero,
    which it is when [slot_max] is less than a leader window. *)
Definition ag_votor_new (mem slot_max : Z) : option ag_votor_t :=
  if mem =? 0 then None
  else if negb (mem mod ag_votor_align =? 0) then None
  else if slot_max <? AG_SLOTS_PER_WINDOW then None
  else Some (mk_votor 0 0 ULONG_MAX slot_max 0 ∅ ULONG_MAX 0 ULONG_MAX 0 ULONG_MAX (replicate 32 0) [] [] [] []).

Definition events_max (self : ag_votor_t) : Z := 2 * vt_slot_max self.

Definition own_rank (self : ag_votor_t) (slot : Z) : Z :=
  (if vt_next_epoch_slot self <=? slot then vt_next_epoch_rank self else vt_curr_epoch_rank self) mod 65536.

Definition ag_votor_advance_epoch (self : ag_votor_t) (epoch_rank epoch_slot : Z) : ag_votor_t :=
  if vt_curr_epoch_slot self =? ULONG_MAX then
    vt_set_epochs self epoch_rank epoch_slot (vt_next_epoch_rank self) (vt_next_epoch_slot self)
  else if vt_next_epoch_slot self =? ULONG_MAX then
    vt_set_epochs self (vt_curr_epoch_rank self) (vt_curr_epoch_slot self) epoch_rank epoch_slot
  else
    vt_set_epochs self (vt_next_epoch_rank self) (vt_next_epoch_slot self) epoch_rank epoch_slot.

Definition ag_votor_set_bls_key (self : ag_votor_t) (bls_key : ag_bls_sec_t) : ag_votor_t :=
  vt_set_keys self bls_key (vt_shred_version self).

Definition ag_votor_set_shred_version (self : ag_votor_t) (shred_version : Z) : ag_votor_t :=
  vt_set_keys self (vt_bls_sec self) shred_version.

(** [parents_ready[ 0 ].slot = slot] writes over entry 0. *)
Definition set_first_parent (ps : list ag_block_id_t) (slot : Z) : list ag_block_id_t :=
  [ag_block_id slot (match ps with p :: _ => bid_hash p | [] => zero_hash end)].

Definition ag_votor_init (self : ag_votor_t) (slot now : Z) : outcome ag_votor_t :=
  let self := vt_set_root (vt_set_now self now) slot slot in
  self ← update_state self slot (fun e =>
    el_set_retired
      (el_set_parents_ready
         (el_set_notarized (el_set_vote e true true (el_voted_notar_hash e) (el_bad_window e))
            true (el_block_notarized_hash e))
         (set_first_parent (el_parents_ready e) slot)) true);
  set_timeouts self (ag_first_slot_in_window slot).

(** * Queries *)

Definition is_retired (self : ag_votor_t) (slot : Z) : bool :=
  match vt_slot_states self !! slot with Some e => el_retired e | None => false end.
Definition has_voted (self : ag_votor_t) (slot : Z) : bool :=
  match vt_slot_states self !! slot with Some e => el_voted e | None => false end.
Definition received_shred (self : ag_votor_t) (slot : Z) : bool :=
  match vt_slot_states self !! slot with Some e => el_received_shred e | None => false end.

Definition first_unpruned_slot (self : ag_votor_t) : Z :=
  ag_first_slot_in_window (vt_highest_final_cert_slot self).

Definition pool_event_slot (event : ag_event_pool_t) : Z :=
  match ep_kind event with
  | ParentReady r => pr_slot r
  | SafeToNotar b => bid_slot b
  | SafeToSkip slot => slot
  | CertCreated c => ag_cert_slot c
  | Standstill s => ss_slot s
  end.

Definition should_ignore_pool_event (self : ag_votor_t) (event : ag_event_pool_t) : bool :=
  let slot := pool_event_slot event in
  match ep_kind event with
  | Standstill _ => false
  | CertCreated _ => slot <? first_unpruned_slot self
  | ParentReady _ | SafeToNotar _ | SafeToSkip _ => (slot <? first_unpruned_slot self) || is_retired self slot
  end.

(** * Voting *)

(** [FD_TEST( !vote_events_full )] and the push. *)
Definition push_vote (self : ag_votor_t) (vote : ag_vote_t) : outcome ag_votor_t :=
  check FdTest (Z.of_nat (length (vt_vote_events self)) <? events_max self);;
  Ok (vt_set_events self (vt_vote_events self ++ [mk_event_vote (vt_seq self) (vt_now self) vote])
        (vt_cert_events self) (vt_seq self +w 1)).

Definition push_cert_event (self : ag_votor_t) (cert : ag_cert_t) : outcome ag_votor_t :=
  check FdTest (Z.of_nat (length (vt_cert_events self)) <? events_max self);;
  Ok (vt_set_events self (vt_vote_events self)
        (vt_cert_events self ++ [mk_event_cert (vt_seq self) (vt_now self) cert]) (vt_seq self +w 1)).

Section Voting.
Context `{BlsOps}.

Definition try_final (self : ag_votor_t) (slot : Z) (hash : ag_block_hash_t) : outcome ag_votor_t :=
  check FdTest (first_unpruned_slot self <=? slot);;
  let state := vt_slot_states self !! slot in
  let notarized := match state with
    | Some e => el_block_notarized e && hash_eqb (el_block_notarized_hash e) hash | None => false end in
  let voted_notar := match state with
    | Some e => el_voted_notar e && hash_eqb (el_voted_notar_hash e) hash | None => false end in
  let not_bad := negb (match state with Some e => el_bad_window e | None => false end) in
  if notarized && voted_notar && not_bad then
    let vote := ag_vote_construct_final slot (vt_bls_sec self) (own_rank self slot) (vt_shred_version self) in
    self ← push_vote self vote;
    update_state self slot (fun e => el_set_retired e true)
  else Ok self.

(** The parent of a block may be built on: ready for the first slot of a
    window, the block voted for in the previous slot otherwise. *)
Definition valid_parent (self : ag_votor_t) (slot : Z) (parent : ag_block_id_t) : bool :=
  if ag_is_start_of_window slot then
    match vt_slot_states self !! slot with
    | Some e => existsb (fun p => ag_block_id_eq p parent) (el_parents_ready e)
    | None => false
    end
  else
    (bid_slot parent =? slot -w 1) &&
    match vt_slot_states self !! bid_slot parent with
    | Some e => el_voted_notar e && hash_eqb (el_voted_notar_hash e) (bid_hash parent)
    | None => false
    end.

Definition try_notar (self : ag_votor_t) (slot : Z) (block_info : ag_block_info_t) : outcome (ag_votor_t * bool) :=
  check FdTest (first_unpruned_slot self <=? slot);;
  if has_voted self slot then Ok (self, false) else
  let hash := bi_hash block_info in
  let parent := bi_parent block_info in
  if negb (valid_parent self slot parent) then Ok (self, false) else
  let vote := ag_vote_construct_notar slot hash (vt_bls_sec self) (own_rank self slot) (vt_shred_version self) in
  self ← push_vote self vote;
  r ← state_mut self slot;
  let '(self, e) := r in
  let pending := if el_pending_block e then dlist_remove slot (vt_pending_dlist self) else vt_pending_dlist self in
  let e := el_set_pending (el_set_vote e true true hash (el_bad_window e)) false (el_pending_block_info e) in
  let self := vt_set_states self (<[slot := e]> (vt_slot_states self)) pending (vt_timeout_dlist self) in
  self ← try_final self slot hash;
  Ok (self, true).

Definition skip_slot (self : ag_votor_t) (s : Z) : outcome ag_votor_t :=
  if has_voted self s then Ok self else
  self ← update_state self s (fun e => el_set_vote e true (el_voted_notar e) (el_voted_notar_hash e) true);
  push_vote self (ag_vote_construct_skip s (vt_bls_sec self) (own_rank self s) (vt_shred_version self)).

Definition try_skip_window (self : ag_votor_t) (slot : Z) : outcome ag_votor_t :=
  check FdTest (first_unpruned_slot self <=? slot);;
  let window_start := ag_first_slot_in_window slot in
  ofold skip_slot self (range window_start (window_start +w AG_SLOTS_PER_WINDOW)).

(** [slot_sort_inplace] sorts distinct slots in increasing order: the result
    does not depend on the algorithm. *)
Definition check_pending_blocks (self : ag_votor_t) : outcome ag_votor_t :=
  let slots := merge_sort Z.le (take (Z.to_nat (vt_slot_max self)) (vt_pending_dlist self)) in
  ofold (fun self slot =>
           match vt_slot_states self !! slot with
           | Some e => if el_pending_block e then
                         r ← try_notar self slot (el_pending_block_info e); Ok (fst r)
                       else Ok self
           | None => Ok self
           end) self slots.

Definition prune_slot (self : ag_votor_t) (slot : Z) : ag_votor_t :=
  match vt_slot_states self !! slot with
  | None => self
  | Some e =>
      vt_set_states self (delete slot (vt_slot_states self))
        (if el_pending_block e then dlist_remove slot (vt_pending_dlist self) else vt_pending_dlist self)
        (if timer_idle e then vt_timeout_dlist self else dlist_remove slot (vt_timeout_dlist self))
  end.

Definition prune (self : ag_votor_t) : ag_votor_t :=
  let first_unpruned := first_unpruned_slot self in
  let self := foldl prune_slot self (range (vt_root self) first_unpruned) in
  vt_set_root self first_unpruned (vt_highest_final_cert_slot self).

Definition handle_cert_created (self : ag_votor_t) (cert : ag_cert_t) : outcome ag_votor_t :=
  let slot := ag_cert_slot cert in
  self ←
    match cert with
    | CNotar c =>
        let hash := cn_block_hash c in
        self ← update_state self slot (fun e => el_set_notarized e true hash);
        try_final self slot hash
    | CFinal _ | CFastFinal _ =>
        self ← set_timeouts self (ag_first_slot_in_window slot);
        Ok (prune (vt_set_root self (vt_root self) (Z.max (vt_highest_final_cert_slot self) slot)))
    | CSkip _ | CNotarFallback _ => Ok self
    end;
  push_cert_event self cert.

Definition add_parent_ready (ps : list ag_block_id_t) (parent : ag_block_id_t) : outcome (list ag_block_id_t) :=
  if existsb (fun p => ag_block_id_eq p parent) ps then Ok ps else
  check FdTest (Z.of_nat (length ps) <? PARENTS_READY_MAX);; Ok (ps ++ [parent]).

Definition handle_parent_ready (self : ag_votor_t) (r : ag_parent_ready_t) : outcome ag_votor_t :=
  let slot := pr_slot r in
  q ← state_mut self slot;
  ps ← add_parent_ready (el_parents_ready q.2) (pr_parent r);
  let self := put_ele q.1 slot (el_set_parents_ready q.2 ps) in
  self ← check_pending_blocks self;
  set_timeouts self slot.

(** The two fallback votes: vote, skip the rest of the window, mark the slot bad. *)
Definition vote_fallback (self : ag_votor_t) (slot : Z) (vote : ag_vote_t) : outcome ag_votor_t :=
  self ← push_vote self vote;
  self ← try_skip_window self slot;
  update_state self slot (fun e => el_set_vote e (el_voted e) (el_voted_notar e) (el_voted_notar_hash e) true).

Definition handle_safe_to_notar (self : ag_votor_t) (b : ag_block_id_t) : outcome ag_votor_t :=
  vote_fallback self (bid_slot b)
    (ag_vote_construct_notar_fallback (bid_slot b) (bid_hash b) (vt_bls_sec self) (own_rank self (bid_slot b))
       (vt_shred_version self)).

Definition handle_safe_to_skip (self : ag_votor_t) (slot : Z) : outcome ag_votor_t :=
  vote_fallback self slot
    (ag_vote_construct_skip_fallback slot (vt_bls_sec self) (own_rank self slot) (vt_shred_version self)).

Definition handle_standstill (self : ag_votor_t) (s : ag_standstill_t) : outcome ag_votor_t :=
  check FdTest (Z.of_nat (length (ss_certs s)) <=? events_max self - Z.of_nat (length (vt_cert_events self)));;
  self ← ofold push_cert_event self (ss_certs s);
  check FdTest (Z.of_nat (length (ss_votes s)) <=? events_max self - Z.of_nat (length (vt_vote_events self)));;
  ofold push_vote self (ss_votes s).

Definition ag_votor_handle_pool_event (self : ag_votor_t) (event : ag_event_pool_t) (now : Z)
    : outcome ag_votor_t :=
  let self := vt_set_now self now in
  if should_ignore_pool_event self event then Ok self else
  match ep_kind event with
  | ParentReady r => handle_parent_ready self r
  | SafeToNotar b => handle_safe_to_notar self b
  | SafeToSkip slot => handle_safe_to_skip self slot
  | CertCreated c => handle_cert_created self c
  | Standstill s => handle_standstill self s
  end.

Definition ag_votor_handle_block_event (self : ag_votor_t) (event : ag_event_block_t) : outcome ag_votor_t :=
  let slot := eb_slot event in
  if (slot <=? vt_highest_final_cert_slot self) || is_retired self slot then Ok self else
  match eb_kind event with
  | FirstShred => update_state self slot (fun e => el_set_received_shred e true)
  | InvalidBlock => try_skip_window self slot
  end.

Definition ag_votor_handle_replay_event (self : ag_votor_t) (event : ag_event_replay_t) : outcome ag_votor_t :=
  let slot := ery_slot event in
  if (slot <=? vt_highest_final_cert_slot self) || is_retired self slot then Ok self else
  match ery_kind event with
  | ReplayCompleted =>
      if has_voted self slot then Ok self else
      '(self, voted) ← try_notar self slot (ery_block_info event);
      if (voted : bool) then check_pending_blocks self else
      '(self, e) ← state_mut self slot;
      let pending := if el_pending_block e then vt_pending_dlist self else vt_pending_dlist self ++ [slot] in
      Ok (vt_set_states self (<[slot := el_set_pending e true (ery_block_info event)]> (vt_slot_states self))
            pending (vt_timeout_dlist self))
  | ReplayDead => try_skip_window self slot
  end.

Definition ag_votor_handle_timeout_event (self : ag_votor_t) (event : ag_event_timeout_t) : outcome ag_votor_t :=
  let slot := et_slot event in
  if (slot <=? vt_highest_final_cert_slot self) || is_retired self slot then Ok self else
  match et_kind event with
  | Timeout => if negb (has_voted self slot) then try_skip_window self slot else Ok self
  | TimeoutCrashedLeader =>
      if negb (received_shred self slot) && negb (has_voted self slot) then try_skip_window self slot else Ok self
  end.

End Voting.

(** * Polling *)

(** The timer of a linked state that has expired, the crashed-leader one first. *)
Definition expired (now : Z) (e : slot_state_ele_t) : option (timeout_event_kind * slot_state_ele_t) :=
  if el_timeout_crashed_leader e <=? now then
    Some (TimeoutCrashedLeader, el_set_timers e (el_timeout e) LONG_MAX)
  else if el_timeout e <=? now then
    Some (Timeout, el_set_timers e LONG_MAX (el_timeout_crashed_leader e))
  else None.

Fixpoint poll_timeouts (self : ag_votor_t) (l : list Z) : ag_votor_t * option ag_event_timeout_t :=
  match l with
  | [] => (self, None)
  | slot :: l' =>
      match vt_slot_states self !! slot with
      | None => poll_timeouts self l'
      | Some e =>
          match expired (vt_now self) e with
          | None => poll_timeouts self l'
          | Some (kind, e') =>
              let event := mk_event_timeout (vt_seq self) (vt_now self) kind slot in
              let self := vt_set_events self (vt_vote_events self) (vt_cert_events self) (vt_seq self +w 1) in
              (vt_set_states self (<[slot := e']> (vt_slot_states self)) (vt_pending_dlist self)
                 (if timer_idle e' then dlist_remove slot (vt_timeout_dlist self) else vt_timeout_dlist self),
               Some event)
          end
      end
  end.

Definition ag_votor_poll_timeout_event (self : ag_votor_t) (now : Z) : ag_votor_t * option ag_event_timeout_t :=
  let self := vt_set_now self now in
  poll_timeouts self (vt_timeout_dlist self).

Definition ag_votor_poll_vote_event (self : ag_votor_t) : ag_votor_t * option ag_event_vote_t :=
  match vt_vote_events self with
  | [] => (self, None)
  | e :: es => (vt_set_events self es (vt_cert_events self) (vt_seq self), Some e)
  end.

Definition ag_votor_poll_cert_event (self : ag_votor_t) : ag_votor_t * option ag_event_cert_t :=
  match vt_cert_events self with
  | [] => (self, None)
  | e :: es => (vt_set_events self (vt_vote_events self) es (vt_seq self), Some e)
  end.
