(* ===== verification/VotorInv.v ===== *)
(** Voting safety of the engine of [Votor]: over every sequence of calls its
    entry points allow, the votes it casts never contradict each other.

    The votes cast are the ones already polled and the ones still queued.  A
    vote is reduced to its slot and ballot: signature, rank and shred version
    do not matter here. *)
From S2P Require Import Prelude VotorBase Bls Vote EpochInfo Cert ParentReady SlotState Votor.

(** * Ballots *)

Inductive ballot := BNotar (h : ag_block_hash_t) | BFinal | BSkip | BNotarFallback (h : ag_block_hash_t) | BSkipFallback.

Definition ballot_of (v : ag_vote_t) : Z * ballot :=
  match v with
  | Notar n => (vn_slot n, BNotar (vn_block_hash n))
  | Final f => (vf_slot f, BFinal)
  | Skip s => (vs_slot s, BSkip)
  | NotarFallback n => (vnf_slot n, BNotarFallback (vnf_block_hash n))
  | SkipFallback s => (vsf_slot s, BSkipFallback)
  end.

Definition is_fallback (b : ballot) : bool :=
  match b with BNotarFallback _ | BSkipFallback => true | _ => false end.

Abbreviation blog := (list (Z * ballot)).

(** What a log of ballots must never contain.  [N s h] says that a notarization
    certificate for block [h] of slot [s] was received; [boot] is the slot the
    engine started from, which it treats as voted for. *)
Record safe_log (N : Z -> ag_block_hash_t -> Prop) (boot : Z) (L : blog) : Prop := {
  sl_notar : forall s h h', (s, BNotar h) ∈ L -> (s, BNotar h') ∈ L -> h = h';
  sl_skip : forall s h, (s, BNotar h) ∈ L -> (s, BSkip) ∉ L;
  sl_final : forall s b, (s, BFinal) ∈ L -> (s, b) ∈ L -> b = BFinal \/ exists h, b = BNotar h;
  sl_cert : forall s, (s, BFinal) ∈ L -> s = boot \/ exists h, (s, BNotar h) ∈ L /\ N s h;
  sl_chain : forall s h, (s, BNotar h) ∈ L ->
    ag_is_start_of_window s = true \/ s - 1 = boot \/ exists h', (s - 1, BNotar h') ∈ L
}.

(** The slot is marked bad, or is about to be: a fallback vote is queued before
    its slot [X] is marked. *)
Definition bad (X : option Z) (s : Z) (e : slot_state_ele_t) : bool := el_bad_window e || bool_decide (X = Some s).

(** What the state of a slot remembers of the votes cast for it. *)
Record slot_ok (X : option Z) (N : Z -> ag_block_hash_t -> Prop) (boot : Z) (L : blog) (s : Z)
    (e : slot_state_ele_t) : Prop := {
  so_notar : forall h, (s, BNotar h) ∈ L -> el_voted_notar e = true /\ el_voted_notar_hash e = h;
  so_skip : (s, BSkip) ∈ L -> el_voted e = true /\ el_voted_notar e = false;
  so_final : (s, BFinal) ∈ L -> el_retired e = true;
  so_fallback : forall b, is_fallback b = true -> (s, b) ∈ L -> bad X s e = true;
  so_voted : el_voted_notar e = true -> el_voted e = true /\ (s = boot \/ (s, BNotar (el_voted_notar_hash e)) ∈ L);
  so_retired : el_retired e = true -> el_voted_notar e = true /\ bad X s e = false;
  so_cert : el_block_notarized e = true -> s = boot \/ N s (el_block_notarized_hash e)
}.

(** The state of a slot; one that was never touched reads as zero. *)
Definition ele (self : ag_votor_t) (s : Z) : slot_state_ele_t := default ele_zero (vt_slot_states self !! s).

(** The ballots cast: [base] was polled before, the rest is queued. *)
Definition blog_of (base : blog) (self : ag_votor_t) : blog := base ++ (ballot_of ∘ ev_vote <$> vt_vote_events self).

Record votor_inv (X : option Z) (N : Z -> ag_block_hash_t -> Prop) (boot : Z) (base : blog)
    (self : ag_votor_t) : Prop := {
  vi_safe : safe_log N boot (blog_of base self);
  vi_slots : forall s, first_unpruned_slot self <= s -> slot_ok X N boot (blog_of base self) s (ele self s);
  vi_pending : Forall (fun s => s <= ULONG_MAX) (vt_pending_dlist self);
  vi_highest : is_u64 (vt_highest_final_cert_slot self)
}.

(** * Steps that cast no vote *)

(** The fields of a state that voting depends on. *)
Definition vote_part (e : slot_state_ele_t) :=
  (el_voted e, el_voted_notar e, el_voted_notar_hash e, el_bad_window e, el_block_notarized e,
   el_block_notarized_hash e, el_retired e).

Record same_votes (self self' : ag_votor_t) : Prop := {
  sv_events : vt_vote_events self' = vt_vote_events self;
  sv_highest : vt_highest_final_cert_slot self' = vt_highest_final_cert_slot self;
  sv_part : forall s, vote_part (ele self' s) = vote_part (ele self s)
}.

#[export] Instance same_votes_preorder : PreOrder same_votes.
Proof.
  split; [by split|]. intros a b c [A1 A2 A3] [B1 B2 B3]. split; [by rewrite B1|by rewrite B2|].
  intros s. by rewrite B3.
Qed.

Lemma slot_ok_part X N boot L s e e' : vote_part e' = vote_part e -> slot_ok X N boot L s e -> slot_ok X N boot L s e'.
Proof.
  destruct e, e'. unfold vote_part. cbn. intros [= -> -> -> -> -> -> ->] [H1 H2 H3 H4 H5 H6 H7]. by split.
Qed.

Lemma same_first self self' : same_votes self self' -> first_unpruned_slot self' = first_unpruned_slot self.
Proof. intros [_ H _]. unfold first_unpruned_slot. by rewrite H. Qed.

Lemma votor_inv_same X N boot base self self' :
  same_votes self self' -> Forall (fun s => s <= ULONG_MAX) (vt_pending_dlist self') ->
  votor_inv X N boot base self -> votor_inv X N boot base self'.
Proof.
  intros HS Hp [I1 I2 I3 I4]. pose proof (same_first _ _ HS) as Hf. destruct HS as [S1 S2 S3].
  assert (blog_of base self' = blog_of base self) as Hl by (unfold blog_of; by rewrite S1).
  split; rewrite ?Hl, ?Hf, ?S2; try done. intros s Hs. apply (slot_ok_part _ _ _ _ _ (ele self s)); [done|by apply I2].
Qed.

Lemma ele_put self s e k : ele (put_ele self s e) k = if decide (k = s) then e else ele self k.
Proof. unfold ele. cbn. rewrite lookup_insert. by repeat case_decide; subst. Qed.

(** Reading a state, or creating it, changes nothing of the above. *)
Lemma state_mut_ok self s self' e :
  state_mut self s = Ok (self', e) ->
  e = ele self s /\ same_votes self self' /\ (forall k, ele self' k = ele self k) /\
  vt_pending_dlist self' = vt_pending_dlist self /\ vt_timeout_dlist self' = vt_timeout_dlist self /\
  vt_slot_states self' !! s = Some e /\ vt_cert_events self' = vt_cert_events self.
Proof.
  unfold state_mut. destruct (vt_slot_states self !! s) as [e0|] eqn:E; intros H; inv_ok.
  - unfold ele at 1. rewrite E. by split_and!.
  - assert (forall k, ele (put_ele self s ele_zero) k = ele self k) as Hk.
    { intros k. rewrite ele_put. case_decide; [|done]. subst. unfold ele. by rewrite E. }
    split_and!; try done.
    + unfold ele. by rewrite E.
    + split; try done. intros k. f_equal. apply Hk.
    + cbn. by rewrite lookup_insert_eq.
Qed.

Lemma update_state_ok self s f self' :
  update_state self s f = Ok self' ->
  vt_vote_events self' = vt_vote_events self /\ vt_highest_final_cert_slot self' = vt_highest_final_cert_slot self /\
  vt_pending_dlist self' = vt_pending_dlist self /\ vt_cert_events self' = vt_cert_events self /\
  forall k, ele self' k = if decide (k = s) then f (ele self s) else ele self k.
Proof.
  unfold update_state. intros H. inv_ok. destruct a as [self1 e]. apply state_mut_ok in E as (-> & [] & Hk & Hp & _ & _ & Hc).
  cbn. split_and!; try done. intros k. rewrite ele_put. by case_decide.
Qed.

Lemma update_state_same self s f self' :
  (forall e, vote_part (f e) = vote_part e) -> update_state self s f = Ok self' -> same_votes self self'.
Proof.
  intros Hf Hu. apply update_state_ok in Hu as (H1 & H2 & _ & _ & Hk). split; try done.
  intros k. rewrite Hk. case_decide; [subst; by rewrite Hf|done].
Qed.

Lemma arm_same self s f self' :
  (forall e, vote_part (f e) = vote_part e) -> arm self s f = Ok self' ->
  same_votes self self' /\ vt_pending_dlist self' = vt_pending_dlist self /\ vt_cert_events self' = vt_cert_events self.
Proof.
  unfold arm. intros Hf H. inv_ok. destruct a as [self1 e]. apply state_mut_ok in E as (-> & [] & Hk & Hp & _ & _ & Hc).
  cbn [fst snd]. assert (forall k, vote_part (ele (put_ele self1 s (f (ele self s))) k) = vote_part (ele self k)) as Hv.
  { intros k. rewrite ele_put. case_decide; [subst; by rewrite Hf|by rewrite Hk]. }
  destruct (timer_idle _); (split_and!; [split; done|done|done]).
Qed.

Lemma set_timeouts_same self s self' :
  set_timeouts self s = Ok self' ->
  same_votes self self' /\ vt_pending_dlist self' = vt_pending_dlist self /\ vt_cert_events self' = vt_cert_events self.
Proof.
  unfold set_timeouts. intros H. inv_ok. apply arm_same in E0 as HA; [|done]. destruct a1 as [self2 d]. cbn.
  refine (ofold_inv (fun sd => same_votes self (fst sd) /\ vt_pending_dlist (fst sd) = vt_pending_dlist self /\
    vt_cert_events (fst sd) = vt_cert_events self) _ _ _ _ _ _ E1); [|done].
  intros [v d1] k [v' d'] _ (IH1 & IH2 & IH3) Hf. cbn in *.
  destruct (arm v k _) as [v1|] eqn:Ea in Hf; cbn in Hf; [|done]. injection Hf as -> _.
  apply arm_same in Ea as (B1 & B2 & B3); [|done].
  split_and!; [by etrans|congruence|congruence].
Qed.

(** * Casting one vote *)

Lemma push_vote_ok self v self' :
  push_vote self v = Ok self' ->
  vt_vote_events self' = vt_vote_events self ++ [mk_event_vote (vt_seq self) (vt_now self) v] /\
  vt_highest_final_cert_slot self' = vt_highest_final_cert_slot self /\
  vt_slot_states self' = vt_slot_states self /\ vt_pending_dlist self' = vt_pending_dlist self /\
  vt_cert_events self' = vt_cert_events self.
Proof. unfold push_vote. intros H. by inv_ok. Qed.

Lemma blog_of_snoc base self self' a b v :
  vt_vote_events self' = vt_vote_events self ++ [mk_event_vote a b v] ->
  blog_of base self' = blog_of base self ++ [ballot_of v].
Proof. intros H. unfold blog_of. by rewrite H, fmap_app, app_assoc. Qed.

(** When a ballot may join a safe log. *)
Definition can_cast (N : Z -> ag_block_hash_t -> Prop) (boot : Z) (L : blog) (s : Z) (b : ballot) : Prop :=
  match b with
  | BNotar _ => (forall h', (s, BNotar h') ∉ L) /\ (s, BSkip) ∉ L /\
      (ag_is_start_of_window s = true \/ s - 1 = boot \/ exists h', (s - 1, BNotar h') ∈ L)
  | BSkip => (forall h, (s, BNotar h) ∉ L) /\ (s, BFinal) ∉ L
  | BFinal => (forall b', (s, b') ∈ L -> b' = BFinal \/ exists h, b' = BNotar h) /\
      (s = boot \/ exists h, (s, BNotar h) ∈ L /\ N s h)
  | BNotarFallback _ | BSkipFallback => (s, BFinal) ∉ L
  end.

Lemma elem_of_snoc {A} (l : list A) x y : x ∈ l ++ [y] <-> x ∈ l \/ x = y.
Proof. by rewrite elem_of_app, list_elem_of_singleton. Qed.

Lemma safe_log_snoc N boot L s b : safe_log N boot L -> can_cast N boot L s b -> safe_log N boot (L ++ [(s, b)]).
Proof.
  intros [S1 S2 S3 S4 S5] Hc. split.
  - intros k h h'. rewrite !elem_of_snoc. intros [Hh|E1] [Hh'|E2]; simplify_eq; cbn in Hc;
      [by eapply S1|naive_solver..].
  - intros k h. rewrite !elem_of_snoc. intros [Hh|E1] [Hk|E2]; simplify_eq; cbn in Hc; [by eapply S2|naive_solver..].
  - intros k b'. rewrite !elem_of_snoc. intros [Hh|E1] [Hk|E2]; simplify_eq; cbn in Hc; [by eapply S3| |by apply Hc|by left].
    destruct b; cbn in Hc; naive_solver.
  - intros k. rewrite elem_of_snoc. intros [Hk|[= -> <-]].
    + destruct (S4 k Hk) as [|(h & ? & ?)]; [by left|right]. exists h. by rewrite elem_of_snoc; auto.
    + destruct Hc as [_ [|(h & ? & ?)]]; [by left|right]. exists h. by rewrite elem_of_snoc; auto.
  - intros k h. rewrite elem_of_snoc. intros [Hk|[= -> <-]].
    + destruct (S5 k h Hk) as [|[|(h' & ?)]]; [by left|by right; left|right; right]. exists h'. rewrite elem_of_snoc; auto.
    + destruct Hc as (_ & _ & [|[|(h' & ?)]]); [by left|by right; left|right; right]. exists h'. rewrite elem_of_snoc; auto.
Qed.

Lemma slot_ok_other X N boot L s b k e :
  k <> s -> slot_ok X N boot L k e -> slot_ok X N boot (L ++ [(s, b)]) k e.
Proof.
  intros Hne [H1 H2 H3 H4 H5 H6 H7].
  assert (forall b', (k, b') ∈ L ++ [(s, b)] -> (k, b') ∈ L) as Hin
    by (intros b'; rewrite elem_of_snoc; intros [|[=]]; done).
  split; auto.
  - intros b' Hb Hin'%Hin. by eapply H4.
  - intros Hv. destruct (H5 Hv) as [? [|]]; [auto|]. rewrite elem_of_snoc; auto.
Qed.

(** The invariant after a vote for slot [s] and an update of its state. *)
Lemma votor_inv_cast X N boot base self self' s b :
  votor_inv X N boot base self ->
  vt_highest_final_cert_slot self' = vt_highest_final_cert_slot self ->
  vt_pending_dlist self' ⊆ vt_pending_dlist self ->
  blog_of base self' = blog_of base self ++ [(s, b)] ->
  (forall k, k <> s -> ele self' k = ele self k) ->
  can_cast N boot (blog_of base self) s b ->
  slot_ok X N boot (blog_of base self ++ [(s, b)]) s (ele self' s) ->
  votor_inv X N boot base self'.
Proof.
  intros [I1 I2 I3 I4] Hh Hp Hl Hk Hc Hs. unfold first_unpruned_slot in *.
  split; unfold first_unpruned_slot; rewrite ?Hh, ?Hl; try done.
  - by apply safe_log_snoc.
  - intros k Hf. destruct (decide (k = s)) as [->|Hne]; [done|]. rewrite Hk by done.
    apply slot_ok_other; [done|]. by apply I2.
  - rewrite Forall_forall in *. set_solver.
Qed.

(** What each ballot requires of its slot and leaves there. *)
Lemma cast_final N boot L s e h :
  slot_ok None N boot L s e -> el_block_notarized e = true -> el_block_notarized_hash e = h ->
  el_voted_notar e = true -> el_voted_notar_hash e = h -> el_bad_window e = false ->
  can_cast N boot L s BFinal /\ slot_ok None N boot (L ++ [(s, BFinal)]) s (el_set_retired e true).
Proof.
  intros [H1 H2 H3 H4 H5 H6 H7] Hn Hnh Hv Hvh Hb. destruct (H5 Hv) as [Hvo Hlog]. split.
  - split.
    + intros [h'| | |h'|] Hin; [by right; eauto|by left| | |].
      * destruct (H2 Hin). congruence.
      * specialize (H4 (BNotarFallback h') eq_refl Hin). unfold bad in H4. rewrite Hb in H4. done.
      * specialize (H4 BSkipFallback eq_refl Hin). unfold bad in H4. rewrite Hb in H4. done.
    + destruct Hlog as [|Hlog]; [by left|]. destruct (H7 Hn) as [|Hc]; [by left|right].
      exists h. rewrite <- Hvh at 1. rewrite <- Hnh. done.
  - split; cbn; try setoid_rewrite elem_of_snoc.
    + intros h' [Hin|[=]]. by apply H1.
    + intros [Hin|[=]]. by apply H2.
    + done.
    + intros b' Hfb [Hin|[=->]]; [by eapply H4|done].
    + intros _. split; [done|]. destruct Hlog; auto.
    + intros _. split; [done|]. unfold bad. cbn. by rewrite Hb.
    + done.
Qed.

Lemma cast_notar X N boot L s e h e' :
  slot_ok X N boot L s e -> el_voted e = false ->
  (ag_is_start_of_window s = true \/ s - 1 = boot \/ exists h', (s - 1, BNotar h') ∈ L) ->
  vote_part e' = (true, true, h, el_bad_window e, el_block_notarized e, el_block_notarized_hash e, el_retired e) ->
  can_cast N boot L s (BNotar h) /\ slot_ok X N boot (L ++ [(s, BNotar h)]) s e'.
Proof.
  destruct e'. unfold vote_part. cbn. intros [H1 H2 H3 H4 H5 H6 H7] Hv Hchain [= -> -> -> -> -> -> ->].
  assert (el_voted_notar e = false) as Hvn by (destruct (el_voted_notar e); [|done]; destruct H5; congruence).
  assert (forall h', (s, BNotar h') ∉ L) as Hnn by (intros h' Hin; destruct (H1 _ Hin); congruence).
  assert ((s, BSkip) ∉ L) as Hns by (intros Hin; destruct (H2 Hin); congruence).
  split; [done|]. split; cbn; try setoid_rewrite elem_of_snoc.
  - intros h' [Hin|[=->]]; [by destruct (Hnn h')|done].
  - intros [Hin|[=]]. done.
  - intros [Hin|[=]]. by apply H3.
  - intros b' Hfb [Hin|[=->]]; [by apply (H4 b')|done].
  - intros _. auto.
  - intros Hr. destruct (H6 Hr). congruence.
  - done.
Qed.

Lemma cast_skip X N boot L s e :
  slot_ok X N boot L s e -> el_voted e = false ->
  can_cast N boot L s BSkip /\
  slot_ok X N boot (L ++ [(s, BSkip)]) s (el_set_vote e true (el_voted_notar e) (el_voted_notar_hash e) true).
Proof.
  intros [H1 H2 H3 H4 H5 H6 H7] Hv.
  assert (el_voted_notar e = false) as Hvn by (destruct (el_voted_notar e); [|done]; destruct H5; congruence).
  assert (forall h', (s, BNotar h') ∉ L) as Hnn by (intros h' Hin; destruct (H1 _ Hin); congruence).
  assert ((s, BFinal) ∉ L) as Hnf by (intros Hin; destruct (H6 (H3 Hin)); congruence).
  split; [done|]. split; cbn; try setoid_rewrite elem_of_snoc.
  - intros h' [Hin|[=]]. by destruct (Hnn h').
  - done.
  - intros [Hin|[=]]. done.
  - done.
  - congruence.
  - intros Hr. destruct (H6 Hr). congruence.
  - done.
Qed.

Lemma cast_fallback N boot L s e b :
  is_fallback b = true -> slot_ok (Some s) N boot L s e ->
  can_cast N boot L s b /\ slot_ok (Some s) N boot (L ++ [(s, b)]) s e.
Proof.
  intros Hb [H1 H2 H3 H4 H5 H6 H7].
  assert (bad (Some s) s e = true) as Hbad
    by (unfold bad; rewrite bool_decide_eq_true_2 by done; apply orb_true_r).
  assert ((s, BFinal) ∉ L) as Hnf by (intros Hin; destruct (H6 (H3 Hin)); congruence).
  split; [by destruct b|]. split; try setoid_rewrite elem_of_snoc.
  - intros h' [Hin|[=<-]]; [by apply H1|done].
  - intros [Hin|[=<-]]; [by apply H2|done].
  - intros [Hin|[=<-]]; [done|done].
  - done.
  - intros Hv. destruct (H5 Hv) as [? [|]]; auto.
  - done.
  - done.
Qed.

(** * The operations *)

(** What an operation leaves in place. *)
Record frame (self self' : ag_votor_t) : Prop := {
  fr_highest : vt_highest_final_cert_slot self' = vt_highest_final_cert_slot self;
  fr_certs : vt_cert_events self' = vt_cert_events self
}.

#[export] Instance frame_preorder : PreOrder frame.
Proof. split; [by split|]. intros a b c [A1 A2] [B1 B2]. split; congruence. Qed.

Lemma frame_first self self' : frame self self' -> first_unpruned_slot self' = first_unpruned_slot self.
Proof. intros [H _]. unfold first_unpruned_slot. by rewrite H. Qed.

Section Operations.
Context `{BlsOps} (N : Z -> ag_block_hash_t -> Prop) (boot : Z) (base : blog).

Lemma try_final_inv self s h self' :
  votor_inv None N boot base self -> try_final self s h = Ok self' ->
  votor_inv None N boot base self' /\ frame self self'.
Proof.
  unfold try_final. intros HI Ht. inv_ok. boolp.
  set (e := ele self s).
  assert (match vt_slot_states self !! s with Some e => el_block_notarized e && hash_eqb (el_block_notarized_hash e) h
    | None => false end = el_block_notarized e && hash_eqb (el_block_notarized_hash e) h) as En
    by (unfold e, ele; by destruct (vt_slot_states self !! s)).
  assert (match vt_slot_states self !! s with Some e => el_voted_notar e && hash_eqb (el_voted_notar_hash e) h
    | None => false end = el_voted_notar e && hash_eqb (el_voted_notar_hash e) h) as Ev
    by (unfold e, ele; by destruct (vt_slot_states self !! s)).
  assert (match vt_slot_states self !! s with Some e => el_bad_window e | None => false end = el_bad_window e) as Eb
    by (unfold e, ele; by destruct (vt_slot_states self !! s)).
  rewrite En, Ev, Eb in Ht. clear En Ev Eb.
  destruct (_ && _ && _) eqn:Ec in Ht; [|by inv_ok]. boolp.
  destruct (push_vote _ _) as [v1|] eqn:Ep in Ht; cbn in Ht; [|done].
  apply push_vote_ok in Ep as (P1 & P2 & P3 & P4 & P5). apply update_state_ok in Ht as (U1 & U2 & U3 & U4 & U5).
  assert (forall k, ele v1 k = ele self k) as Hk by (intros k; unfold ele; by rewrite P3).
  destruct (cast_final N boot (blog_of base self) s e h) as [Hc Hs];
    [by apply HI|done|by apply hash_eqb_true|done|by apply hash_eqb_true|done|].
  split; [|split; congruence].
  apply (votor_inv_cast None N boot base self self' s BFinal); try done.
  - congruence.
  - by rewrite U3, P4.
  - rewrite (blog_of_snoc base self self' _ _ _ (eq_trans U1 P1)). done.
  - intros k Hne. rewrite U5, decide_False by done. apply Hk.
  - rewrite U5, decide_True by done. by rewrite Hk.
Qed.

Lemma first_unpruned_nonneg self : is_u64 (vt_highest_final_cert_slot self) -> 0 <= first_unpruned_slot self.
Proof.
  intros [Hh _]. unfold first_unpruned_slot, ag_first_slot_in_window, AG_SLOTS_PER_WINDOW.
  pose proof (Z.div_pos (vt_highest_final_cert_slot self) 4). lia.
Qed.

Lemma not_start_above self s :
  ag_is_start_of_window s = false -> first_unpruned_slot self <= s -> first_unpruned_slot self <= s - 1.
Proof.
  intros Hs Hf. destruct (decide (s = first_unpruned_slot self)) as [->|]; [|lia].
  unfold first_unpruned_slot in Hs. by rewrite first_slot_start in Hs.
Qed.

(** A block inside a window is built on the block voted for in the slot before. *)
Lemma valid_parent_chain X self s parent :
  votor_inv X N boot base self -> first_unpruned_slot self <= s <= ULONG_MAX -> valid_parent self s parent = true ->
  ag_is_start_of_window s = true \/ s - 1 = boot \/ exists h', (s - 1, BNotar h') ∈ blog_of base self.
Proof.
  intros HI Hs Hv. unfold valid_parent in Hv. destruct (ag_is_start_of_window s) eqn:Es; [by left|right].
  boolp. pose proof (not_start_above self s Es ltac:(lia)) as Hf.
  pose proof (first_unpruned_nonneg self (vi_highest _ _ _ _ _ HI)).
  assert (s -w 1 = s - 1) as Hw by (apply u64_sub_small; unfold is_u64; lia).
  destruct (vi_slots _ _ _ _ _ HI (s - 1) Hf) as [_ _ _ _ H5 _ _].
  match goal with H : bid_slot parent = _ |- _ => rewrite H, Hw in * end. unfold ele in H5.
  destruct (vt_slot_states self !! (s - 1)) as [e|]; [|done]. boolp. destruct H5 as [_ [|Hin]]; [done|by left|].
  right. eauto.
Qed.

Lemma dlist_remove_subseteq s l : dlist_remove s l ⊆ l.
Proof. unfold dlist_remove. intros x. rewrite list_elem_of_filter. tauto. Qed.

Lemma has_voted_ele self s : has_voted self s = el_voted (ele self s).
Proof. unfold has_voted, ele. by destruct (vt_slot_states self !! s). Qed.

Lemma is_retired_ele self s : is_retired self s = el_retired (ele self s).
Proof. unfold is_retired, ele. by destruct (vt_slot_states self !! s). Qed.

Lemma try_notar_inv self s info self' voted :
  votor_inv None N boot base self -> s <= ULONG_MAX -> try_notar self s info = Ok (self', voted) ->
  votor_inv None N boot base self' /\ frame self self'.
Proof.
  unfold try_notar. intros HI Hmax Ht. inv_ok. boolp. rewrite has_voted_ele in Ht.
  destruct (el_voted (ele self s)) eqn:Ev; [by inv_ok|].
  destruct (valid_parent self s (bi_parent info)) eqn:Evp; cbn in Ht; [|by inv_ok].
  pose proof (valid_parent_chain None self s _ HI ltac:(lia) Evp) as Hchain.
  destruct (push_vote _ _) as [v1|] eqn:Ep in Ht; cbn in Ht; [|done].
  destruct (state_mut v1 s) as [[v2 e]|] eqn:Em in Ht; cbn in Ht; [|done].
  destruct (try_final _ _ _) as [v3|] eqn:Ef in Ht; cbn in Ht; [|done]. injection Ht as <- <-.
  apply push_vote_ok in Ep as (P1 & P2 & P3 & P4 & P5).
  apply state_mut_ok in Em as (-> & [M1 M2 _] & M4 & M5 & _ & _ & M6).
  assert (forall k, ele v1 k = ele self k) as Hk by (intros k; unfold ele; by rewrite P3).
  set (w := vt_set_states _ _ _ _) in Ef.
  destruct (cast_notar None N boot (blog_of base self) s (ele self s) (bi_hash info) (ele w s)) as [Hc Hs];
    [by apply HI|done|done| |].
  { unfold ele, w. cbn. rewrite lookup_insert_eq. cbn. rewrite Hk. done. }
  assert (votor_inv None N boot base w /\ frame self w) as [Hw Hfr].
  { split; [|split; cbn; congruence].
    apply (votor_inv_cast None N boot base self w s (BNotar (bi_hash info))); try done.
    - cbn. congruence.
    - unfold w. cbn. rewrite <- P4, <- M5. destruct (el_pending_block _); [apply dlist_remove_subseteq|done].
    - assert (vt_vote_events w = vt_vote_events v1) as Hew by (cbn; congruence).
      rewrite (blog_of_snoc base self w _ _ _ (eq_trans Hew P1)). done.
    - intros k Hne. transitivity (ele v2 k); [|by rewrite M4]. unfold ele, w. cbn. by rewrite lookup_insert_ne by done. }
  apply try_final_inv in Ef as [H1 H2]; [|done]. split; [done|by etrans].
Qed.

Lemma skip_slot_inv X self s self' :
  votor_inv X N boot base self -> first_unpruned_slot self <= s -> skip_slot self s = Ok self' ->
  votor_inv X N boot base self' /\ frame self self'.
Proof.
  unfold skip_slot. intros HI Hs Ht. rewrite has_voted_ele in Ht.
  destruct (el_voted (ele self s)) eqn:Ev; [by inv_ok|].
  destruct (update_state _ _ _) as [v1|] eqn:Eu in Ht; cbn in Ht; [|done].
  apply update_state_ok in Eu as (U1 & U2 & U3 & U4 & U5). apply push_vote_ok in Ht as (P1 & P2 & P3 & P4 & P5).
  destruct (cast_skip X N boot (blog_of base self) s (ele self s)) as [Hc Hok]; [by apply HI|done|].
  assert (forall k, ele self' k = ele v1 k) as Hk by (intros k; unfold ele; by rewrite P3).
  split; [|split; congruence].
  apply (votor_inv_cast X N boot base self self' s BSkip); try done.
  - congruence.
  - by rewrite P4, U3.
  - rewrite U1 in P1. rewrite (blog_of_snoc base self self' _ _ _ P1). done.
  - intros k Hne. rewrite Hk, U5, decide_False by done. done.
  - rewrite Hk, U5, decide_True by done. done.
Qed.

Lemma try_skip_window_inv X self s self' :
  votor_inv X N boot base self -> try_skip_window self s = Ok self' ->
  votor_inv X N boot base self' /\ frame self self'.
Proof.
  unfold try_skip_window. intros HI Ht. inv_ok. boolp.
  refine (ofold_inv (fun v => votor_inv X N boot base v /\ frame self v) _ _ _ _ _ _ Ht); [|done].
  intros v k v' Hk%elem_of_range [Hv Hf] Hstep.
  apply (skip_slot_inv X) in Hstep as [? ?]; [split; [done|by etrans]|done|].
  rewrite (frame_first _ _ Hf). pose proof (first_slot_mono (first_unpruned_slot self) s ltac:(lia)) as Hm.
  unfold first_unpruned_slot in Hm at 1. rewrite first_slot_idem in Hm. fold (first_unpruned_slot self) in Hm. lia.
Qed.

Lemma check_pending_blocks_inv self self' :
  votor_inv None N boot base self -> check_pending_blocks self = Ok self' ->
  votor_inv None N boot base self' /\ frame self self'.
Proof.
  unfold check_pending_blocks. intros HI Ht.
  refine (ofold_inv (fun v => votor_inv None N boot base v /\ frame self v) _ _ _ _ _ _ Ht); [|done].
  intros v k v' Hk [Hv Hf] Hstep.
  assert (k ∈ vt_pending_dlist self) as Hin.
  { rewrite merge_sort_Permutation in Hk. by apply elem_of_take in Hk as (i & Hi & _); apply list_elem_of_lookup_2 in Hi. }
  pose proof (proj1 (Forall_forall _ _) (vi_pending _ _ _ _ _ HI) k Hin) as Hr. cbn in Hr.
  destruct (vt_slot_states v !! k) as [e|]; [|by inv_ok].
  destruct (el_pending_block e); [|by inv_ok].
  destruct (try_notar v k _) as [[w b]|] eqn:En in Hstep; cbn in Hstep; [|done]. inv_ok.
  apply try_notar_inv in En as [? ?]; [split; [done|by etrans]|done|lia].
Qed.
(** Marks slot [s] as about to become bad, and takes the mark back once it is. *)
Lemma votor_inv_mark self s :
  votor_inv None N boot base self -> el_retired (ele self s) = false -> votor_inv (Some s) N boot base self.
Proof.
  intros [I1 I2 I3 I4] Hr. split; try done. intros k Hk. destruct (I2 k Hk) as [H1 H2 H3 H4 H5 H6 H7]. split; try done.
  - intros b Hb Hin. specialize (H4 b Hb Hin). unfold bad in *. destruct (el_bad_window (ele self k)); done.
  - intros Hret. destruct (H6 Hret) as [? Hb]. split; [done|]. unfold bad in *. destruct (decide (k = s)) as [->|Hne].
    + congruence.
    + destruct (el_bad_window (ele self k)); [done|]. apply bool_decide_eq_false_2. congruence.
Qed.

Lemma votor_inv_unmark self s self' :
  votor_inv (Some s) N boot base self ->
  update_state self s (fun e => el_set_vote e (el_voted e) (el_voted_notar e) (el_voted_notar_hash e) true) = Ok self' ->
  votor_inv None N boot base self' /\ frame self self'.
Proof.
  intros [I1 I2 I3 I4] (U1 & U2 & U3 & U4 & U5)%update_state_ok.
  assert (blog_of base self' = blog_of base self) as Hl by (unfold blog_of; by rewrite U1).
  split; [|by split]. split; unfold first_unpruned_slot in *; rewrite ?Hl, ?U2, ?U3; try done.
  intros k Hk. destruct (I2 k Hk) as [H1 H2 H3 H4 H5 H6 H7]. rewrite U5. case_decide as Hks.
  - subst k. split; cbn; try done. intros Hr. destruct (H6 Hr) as [_ Hb]. unfold bad in Hb.
    rewrite bool_decide_eq_true_2 in Hb by done. by rewrite orb_true_r in Hb.
  - assert (bool_decide (Some s = Some k) = false) as Hd by (apply bool_decide_eq_false_2; congruence).
    split; try done.
    + intros b Hb Hin. specialize (H4 b Hb Hin). unfold bad in *. by rewrite Hd in H4.
    + intros Hr. destruct (H6 Hr) as [? Hb]. unfold bad in *. by rewrite Hd in Hb.
Qed.

Lemma vote_fallback_inv self s vote b self' :
  votor_inv None N boot base self -> first_unpruned_slot self <= s -> is_retired self s = false ->
  ballot_of vote = (s, b) -> is_fallback b = true -> vote_fallback self s vote = Ok self' ->
  votor_inv None N boot base self' /\ frame self self'.
Proof.
  unfold vote_fallback. intros HI Hs Hr Hv Hb Ht. rewrite is_retired_ele in Hr.
  destruct (push_vote _ _) as [v1|] eqn:Ep in Ht; cbn in Ht; [|done].
  destruct (try_skip_window _ _) as [v2|] eqn:Es in Ht; cbn in Ht; [|done].
  apply push_vote_ok in Ep as (P1 & P2 & P3 & P4 & P5).
  pose proof (votor_inv_mark self s HI Hr) as HI1.
  assert (forall k, ele v1 k = ele self k) as Hk by (intros k; unfold ele; by rewrite P3).
  destruct (cast_fallback N boot (blog_of base self) s (ele self s) b Hb) as [Hc Hok]; [by apply HI1|].
  assert (votor_inv (Some s) N boot base v1) as HI2.
  { apply (votor_inv_cast (Some s) N boot base self v1 s b); try done.
    - by rewrite P4.
    - rewrite (blog_of_snoc base self v1 _ _ _ P1). by rewrite Hv.
    - by rewrite Hk. }
  apply (try_skip_window_inv (Some s)) in Es as [HI3 F3]; [|done].
  apply votor_inv_unmark in Ht as [HI4 F4]; [|done].
  split; [done|]. transitivity v1; [by split|]. by etrans.
Qed.

Lemma prune_slot_ele self s k : k <> s -> ele (prune_slot self s) k = ele self k.
Proof.
  intros Hne. unfold prune_slot, ele. destruct (vt_slot_states self !! s); [|done]. cbn.
  by rewrite lookup_delete_ne by done.
Qed.

Lemma prune_slot_frame self s :
  frame self (prune_slot self s) /\ vt_vote_events (prune_slot self s) = vt_vote_events self /\
  vt_pending_dlist (prune_slot self s) ⊆ vt_pending_dlist self.
Proof.
  unfold prune_slot. destruct (vt_slot_states self !! s); [|done]. split_and!; cbn; try done.
  destruct (el_pending_block _); [apply dlist_remove_subseteq|done].
Qed.

Lemma prune_slots_frame l self :
  let self' := foldl prune_slot self l in
  frame self self' /\ vt_vote_events self' = vt_vote_events self /\
  vt_pending_dlist self' ⊆ vt_pending_dlist self /\ (forall k, k ∉ l -> ele self' k = ele self k).
Proof.
  cbv zeta. revert self. induction l as [|s l IH]; intros self; cbn [foldl]; [done|].
  destruct (IH (prune_slot self s)) as (F1 & F2 & F3 & F4). destruct (prune_slot_frame self s) as (G1 & G2 & G3).
  split_and!; [by etrans|congruence|set_solver|].
  intros k Hk. rewrite F4 by set_solver. apply prune_slot_ele. set_solver.
Qed.

(** Raising the highest finalized slot and pruning below its window. *)
Lemma prune_inv self slot :
  votor_inv None N boot base self -> is_u64 slot ->
  let self' := prune (vt_set_root self (vt_root self) (Z.max (vt_highest_final_cert_slot self) slot)) in
  votor_inv None N boot base self' /\ vt_cert_events self' = vt_cert_events self.
Proof.
  intros [I1 I2 I3 [I4 I5]] [Hs1 Hs2]. cbv zeta. unfold prune.
  set (v := vt_set_root self _ _). set (l := range _ _).
  destruct (prune_slots_frame l v) as ([F1 F2] & F3 & F4 & F5).
  set (w := vt_set_root _ _ _).
  assert (vt_highest_final_cert_slot w = Z.max (vt_highest_final_cert_slot self) slot) as Hh by (cbn; by rewrite F1).
  assert (blog_of base w = blog_of base self) as Hl by (unfold blog_of; cbn; by rewrite F3).
  assert (first_unpruned_slot w = first_unpruned_slot v) as Hf by (unfold first_unpruned_slot; by rewrite Hh).
  split; [|cbn; by rewrite F2]. split; rewrite ?Hl, ?Hf, ?Hh; try done.
  - intros k Hk. assert (ele w k = ele self k) as ->.
    { transitivity (ele (foldl prune_slot v l) k); [done|]. rewrite F5; [done|]. unfold l. rewrite elem_of_range. lia. }
    apply I2. pose proof (first_slot_mono (vt_highest_final_cert_slot self) (vt_highest_final_cert_slot v)
      ltac:(cbn; lia)). unfold first_unpruned_slot in *. lia.
  - cbn. rewrite Forall_forall in *. intros k Hk. apply I3. by apply F4 in Hk.
  - unfold is_u64. lia.
Qed.
End Operations.

Lemma safe_log_mono (N N' : Z -> ag_block_hash_t -> Prop) boot L L' :
  (forall s h, N s h -> N' s h) -> (forall x, x ∈ L <-> x ∈ L') -> safe_log N boot L -> safe_log N' boot L'.
Proof.
  intros HN HL [S1 S2 S3 S4 S5]. split; intros *; rewrite <- ?HL; eauto.
  - intros Hs. destruct (S4 s Hs) as [|(h & Hh & Hn)]; [by left|right; exists h; rewrite <- HL; auto].
  - intros Hs. destruct (S5 s h Hs) as [|[|(h' & Hh)]]; [by left|by right; left|right; right; exists h'; by rewrite <- HL].
Qed.

Lemma slot_ok_mono X (N N' : Z -> ag_block_hash_t -> Prop) boot L L' s e :
  (forall s h, N s h -> N' s h) -> (forall x, x ∈ L <-> x ∈ L') -> slot_ok X N boot L s e -> slot_ok X N' boot L' s e.
Proof.
  intros HN HL [H1 H2 H3 H4 H5 H6 H7]. split; intros *; rewrite <- ?HL; eauto.
  intros Hb. destruct (H7 Hb); auto.
Qed.

(** More certificates known, votes cast again, certificates queued. *)
Lemma votor_inv_mono X (N N' : Z -> ag_block_hash_t -> Prop) boot base base' self self' :
  (forall s h, N s h -> N' s h) -> (forall x, x ∈ blog_of base self <-> x ∈ blog_of base' self') ->
  vt_slot_states self' = vt_slot_states self -> vt_highest_final_cert_slot self' = vt_highest_final_cert_slot self ->
  vt_pending_dlist self' = vt_pending_dlist self ->
  votor_inv X N boot base self -> votor_inv X N' boot base' self'.
Proof.
  intros HN HL Hs Hh Hp [I1 I2 I3 I4].
  split; unfold first_unpruned_slot, ele in *; rewrite ?Hs, ?Hh, ?Hp; try done.
  - by eapply safe_log_mono.
  - intros s Hf. eapply slot_ok_mono; [done|done|]. by apply I2.
Qed.

(** * Runs *)

(** The engine, and what was polled from it so far. *)
Record config := mk_config { cf_votor : ag_votor_t; cf_votes : list ag_vote_t; cf_certs : list ag_cert_t }.

Definition votes_cast (c : config) : list ag_vote_t := cf_votes c ++ (ev_vote <$> vt_vote_events (cf_votor c)).
Definition certs_seen (c : config) : list ag_cert_t := cf_certs c ++ (ec_cert <$> vt_cert_events (cf_votor c)).

(** The ballots of the votes cast. *)
Definition cast (c : config) : blog := ballot_of <$> votes_cast c.

(** A notarization certificate of block [h] in slot [s] is among [cs]. *)
Definition notarized_by (cs : list ag_cert_t) (s : Z) (h : ag_block_hash_t) : Prop :=
  exists n, CNotar n ∈ cs /\ cn_slot n = s /\ cn_block_hash n = h.

(** The clock values from which no deadline reaches [LONG_MAX], which marks an
    idle timer. *)
Definition CLOCK_MAX : Z :=
  LONG_MAX - AG_DELTA_TIMEOUT_NS - AG_SLOTS_PER_WINDOW * AG_DELTA_BLOCK_NS - AG_DELTA_FIRST_SLICE_NS.

(** A new engine whose epoch, key and shred version may have been set. *)
Definition fresh (v : ag_votor_t) : Prop :=
  vt_slot_states v = ∅ /\ vt_vote_events v = [] /\ vt_cert_events v = [] /\ vt_pending_dlist v = [] /\
  vt_timeout_dlist v = [].

Section Runs.
Context `{BlsOps}.

(** One call of the library, at a clock value from which no deadline overflows
    a [long].  The votes of a standstill event are votes this
    validator has cast: the pool collects them from its own rank. *)
Inductive votor_step : config -> config -> Prop :=
| step_pool v v' ev now vs cs :
    is_u64 (pool_event_slot ev) -> now < CLOCK_MAX ->
    (forall s, ep_kind ev = Standstill s -> (ballot_of <$> ss_votes s) ⊆ cast (mk_config v vs cs)) ->
    ag_votor_handle_pool_event v ev now = Ok v' ->
    votor_step (mk_config v vs cs) (mk_config v' vs cs)
| step_block v v' ev vs cs :
    ag_votor_handle_block_event v ev = Ok v' -> votor_step (mk_config v vs cs) (mk_config v' vs cs)
| step_replay v v' ev vs cs :
    is_u64 (ery_slot ev) ->
    ag_votor_handle_replay_event v ev = Ok v' -> votor_step (mk_config v vs cs) (mk_config v' vs cs)
| step_timeout v v' ev vs cs :
    ag_votor_handle_timeout_event v ev = Ok v' -> votor_step (mk_config v vs cs) (mk_config v' vs cs)
| step_poll_timeout v v' now r vs cs :
    now < CLOCK_MAX -> ag_votor_poll_timeout_event v now = (v', r) -> votor_step (mk_config v vs cs) (mk_config v' vs cs)
| step_poll_vote v v' e vs cs :
    ag_votor_poll_vote_event v = (v', Some e) -> votor_step (mk_config v vs cs) (mk_config v' (vs ++ [ev_vote e]) cs)
| step_poll_cert v v' e vs cs :
    ag_votor_poll_cert_event v = (v', Some e) -> votor_step (mk_config v vs cs) (mk_config v' vs (cs ++ [ec_cert e]))
| step_epoch v rank slot vs cs :
    votor_step (mk_config v vs cs) (mk_config (ag_votor_advance_epoch v rank slot) vs cs)
| step_key v key vs cs : votor_step (mk_config v vs cs) (mk_config (ag_votor_set_bls_key v key) vs cs)
| step_version v version vs cs :
    votor_step (mk_config v vs cs) (mk_config (ag_votor_set_shred_version v version) vs cs).

(** The configurations a fresh engine booted at slot [boot] can reach. *)
Definition reachable (boot : Z) (c : config) : Prop :=
  exists v now v', fresh v /\ is_u64 boot /\ now < CLOCK_MAX /\ ag_votor_init v boot now = Ok v' /\
    rtc votor_step (mk_config v' [] []) c.

Definition config_inv (boot : Z) (c : config) : Prop :=
  votor_inv None (notarized_by (certs_seen c)) boot (ballot_of <$> cf_votes c) (cf_votor c).

Lemma config_log c : cast c = blog_of (ballot_of <$> cf_votes c) (cf_votor c).
Proof. unfold cast, votes_cast, blog_of. by rewrite fmap_app, <- list_fmap_compose. Qed.

Lemma init_inv v boot now v' :
  fresh v -> is_u64 boot -> ag_votor_init v boot now = Ok v' -> config_inv boot (mk_config v' [] []).
Proof.
  unfold ag_votor_init. intros (F1 & F2 & F3 & F4 & _) Hb Hi.
  destruct (update_state _ _ _) as [v1|] eqn:Eu in Hi; cbn in Hi; [|done].
  apply update_state_ok in Eu as (U1 & U2 & U3 & U4 & U5). apply set_timeouts_same in Hi as (HS & Hp & Hc).
  cbn in U1, U2, U3, U4. unfold config_inv. cbn.
  apply (votor_inv_same None _ _ _ v1); [done|by rewrite Hp, U3, F4|].
  assert (blog_of [] v1 = []) as Hl by (unfold blog_of; by rewrite U1, F2).
  split; rewrite ?Hl, ?U2, ?U3, ?F4; try done.
  - split; intros *; intros ?%elem_of_nil; done.
  - intros s _. rewrite U5. set (z := vt_set_root _ _ _). assert (forall k, ele z k = ele_zero) as Hz
      by (intros k; unfold ele, z; cbn; by rewrite F1).
    rewrite !Hz. case_decide as Hs; (split; try (intros *; intros ?%elem_of_nil; done); try done; cbn; auto);
      intros b _ ?%elem_of_nil; done.
Qed.

Lemma push_cert_event_ok self cert self' :
  push_cert_event self cert = Ok self' ->
  ec_cert <$> vt_cert_events self' = (ec_cert <$> vt_cert_events self) ++ [cert] /\
  vt_vote_events self' = vt_vote_events self /\ vt_slot_states self' = vt_slot_states self /\
  vt_highest_final_cert_slot self' = vt_highest_final_cert_slot self /\
  vt_pending_dlist self' = vt_pending_dlist self.
Proof. unfold push_cert_event. intros Hp. inv_ok. cbn. by rewrite fmap_app. Qed.

(** Recording a notarization certificate. *)
Lemma notarized_inv N boot base self s n self' :
  votor_inv None N boot base self -> cn_slot n = s ->
  update_state self s (fun e => el_set_notarized e true (cn_block_hash n)) = Ok self' ->
  votor_inv None (fun s h => N s h \/ notarized_by [CNotar n] s h) boot base self' /\ frame self self'.
Proof.
  intros [I1 I2 I3 I4] Hn (U1 & U2 & U3 & U4 & U5)%update_state_ok. split; [|by split].
  assert (blog_of base self' = blog_of base self) as Hl by (unfold blog_of; by rewrite U1).
  split; unfold first_unpruned_slot in *; rewrite ?Hl, ?U2, ?U3; try done.
  - eapply safe_log_mono; [| |exact I1]; [auto|done].
  - intros k Hk. specialize (I2 k Hk). apply (slot_ok_mono _ N (fun s h => N s h \/ notarized_by [CNotar n] s h) _ _ (blog_of base self)) in I2; [|auto|done].
    rewrite U5. case_decide as Hks; [|done]. subst k. destruct I2 as [H1 H2 H3 H4 H5 H6 H7]. split; try done.
    intros _. right; right. exists n. split_and!; [constructor|done|done].
Qed.

Lemma handle_cert_created_inv N boot base self cert self' :
  votor_inv None N boot base self -> is_u64 (ag_cert_slot cert) -> handle_cert_created self cert = Ok self' ->
  votor_inv None (fun s h => N s h \/ notarized_by [cert] s h) boot base self' /\
  ec_cert <$> vt_cert_events self' = (ec_cert <$> vt_cert_events self) ++ [cert].
Proof.
  unfold handle_cert_created. intros HI Hs Ht. set (N' := fun s h => N s h \/ notarized_by [cert] s h).
  match type of Ht with (mbind _ ?m) = _ => destruct m as [v1|] eqn:E end; cbn in Ht; [|done].
  assert (votor_inv None N' boot base v1 /\ vt_cert_events v1 = vt_cert_events self) as [H1 H2].
  { assert (votor_inv None N' boot base self) as HI'
      by (eapply votor_inv_mono; [| | | | |exact HI]; unfold N'; auto; done).
    assert (forall slot r, (v ← set_timeouts self (ag_first_slot_in_window slot); Ok (prune (vt_set_root v (vt_root v)
        (Z.max (vt_highest_final_cert_slot v) slot)))) = Ok r -> is_u64 slot ->
        votor_inv None N' boot base r /\ vt_cert_events r = vt_cert_events self) as Hfin.
    { intros slot r Hr Hsl. destruct (set_timeouts _ _) as [v2|] eqn:Est in Hr; cbn in Hr; [|done]. injection Hr as <-.
      apply set_timeouts_same in Est as (HS & Hp & Hc). apply (votor_inv_same _ _ _ _ _ _ HS) in HI';
        [|rewrite Hp; by apply (vi_pending _ _ _ _ _ HI)].
      destruct (prune_inv N' boot base v2 slot HI' Hsl) as [? Hce]. split; [done|]. cbv zeta in Hce. by rewrite Hce. }
    destruct cert as [n|n|n|n|n]; try (by inv_ok); try (by apply Hfin in E).
    destruct (update_state _ _ _) as [v2|] eqn:Eu in E; cbn in E; [|done].
    apply (notarized_inv N boot base) in Eu as [HI2 F2]; [|done|done].
    apply (try_final_inv N' boot base) in E as [? [_ F3]]; [|done]. split; [done|]. rewrite F3. apply F2. }
  apply push_cert_event_ok in Ht as (C1 & C2 & C3 & C4 & C5). split; [|by rewrite C1, H2].
  eapply votor_inv_mono; [| | | | |exact H1]; try done. intros x. unfold blog_of. by rewrite C2.
Qed.

Lemma handle_parent_ready_inv N boot base self r self' :
  votor_inv None N boot base self -> handle_parent_ready self r = Ok self' ->
  votor_inv None N boot base self' /\ vt_cert_events self' = vt_cert_events self.
Proof.
  unfold handle_parent_ready. intros HI Ht.
  destruct (state_mut _ _) as [[v1 e]|] eqn:Em in Ht; cbn in Ht; [|done].
  destruct (add_parent_ready _ _) as [ps|] in Ht; cbn in Ht; [|done].
  destruct (check_pending_blocks _) as [v2|] eqn:Ec in Ht; cbn in Ht; [|done].
  apply state_mut_ok in Em as (-> & [M1 M2 M3] & M4 & M5 & _ & _ & M6).
  apply (check_pending_blocks_inv N boot base) in Ec as [HI2 [_ F2]].
  - apply set_timeouts_same in Ht as (HS & Hp & Hc). split; [|by rewrite Hc, F2; cbn].
    apply (votor_inv_same _ _ _ _ _ _ HS); [|done]. rewrite Hp. by apply (vi_pending _ _ _ _ _ HI2).
  - apply (votor_inv_same _ _ _ _ self); [|cbn; rewrite M5; by apply (vi_pending _ _ _ _ _ HI)|done].
    split; [done|done|]. intros k. rewrite ele_put. case_decide; [by subst|]. by rewrite M4.
Qed.

Lemma handle_standstill_inv N boot base self s self' :
  votor_inv None N boot base self -> (ballot_of <$> ss_votes s) ⊆ blog_of base self -> handle_standstill self s = Ok self' ->
  votor_inv None N boot base self' /\
  ec_cert <$> vt_cert_events self' = (ec_cert <$> vt_cert_events self) ++ ss_certs s.
Proof.
  unfold handle_standstill. intros HI Hsub Ht. inv_ok.
  assert (forall l v v', ofold push_cert_event v l = Ok v' ->
    (votor_inv None N boot base v -> votor_inv None N boot base v') /\
    vt_vote_events v' = vt_vote_events v /\
    ec_cert <$> vt_cert_events v' = (ec_cert <$> vt_cert_events v) ++ l) as Hcerts.
  { induction l as [|c l IH]; intros v v' Hf; cbn in Hf; [inv_ok; by rewrite app_nil_r|].
    destruct (push_cert_event v c) as [v1|] eqn:Ep; cbn in Hf; [|done].
    apply push_cert_event_ok in Ep as (C1 & C2 & C3 & C4 & C5). apply IH in Hf as (A1 & A2 & A3).
    split_and!; [|congruence|rewrite A3, C1; by rewrite <- app_assoc].
    intros Hv. apply A1. eapply votor_inv_mono; [| | | | |exact Hv]; try done. intros x. unfold blog_of. by rewrite C2. }
  apply Hcerts in E0 as (A1 & A2 & A3).
  assert (forall l v, (ballot_of <$> l) ⊆ blog_of base v -> votor_inv None N boot base v ->
    ofold push_vote v l = Ok self' ->
    votor_inv None N boot base self' /\ vt_cert_events self' = vt_cert_events v) as Hvotes.
  { induction l as [|x l IH]; intros v Hs Hv Hf; cbn in Hf; [by inv_ok|].
    destruct (push_vote v x) as [v1|] eqn:Ep; cbn in Hf; [|done].
    apply push_vote_ok in Ep as (P1 & P2 & P3 & P4 & P5). pose proof (blog_of_snoc base v v1 _ _ _ P1) as Hl.
    apply IH in Hf as [B1 B2]; [split; [done|congruence]|rewrite Hl; set_solver|].
    eapply votor_inv_mono; [| | | | |exact Hv]; try done. intros y. rewrite Hl, elem_of_snoc. set_solver. }
  apply Hvotes in Ht as [B1 B2]; [split; [done|by rewrite B2]| |by apply A1].
  unfold blog_of. by rewrite A2.
Qed.

Lemma set_now_inv N boot base self now :
  votor_inv None N boot base self -> votor_inv None N boot base (vt_set_now self now).
Proof. intros HI. by eapply votor_inv_mono; [| | | | |exact HI]. Qed.

Lemma handle_pool_event_inv N boot base self ev now self' :
  votor_inv None N boot base self -> is_u64 (pool_event_slot ev) ->
  (forall s, ep_kind ev = Standstill s -> (ballot_of <$> ss_votes s) ⊆ blog_of base self) ->
  ag_votor_handle_pool_event self ev now = Ok self' ->
  exists cs, ec_cert <$> vt_cert_events self' = (ec_cert <$> vt_cert_events self) ++ cs /\
    votor_inv None (fun s h => N s h \/ notarized_by cs s h) boot base self'.
Proof.
  unfold ag_votor_handle_pool_event. intros HI0 Hslot Hss Ht. apply (set_now_inv _ _ _ _ now) in HI0 as HI.
  assert (forall v, vt_cert_events v = vt_cert_events self -> votor_inv None N boot base v ->
    exists cs, ec_cert <$> vt_cert_events v = (ec_cert <$> vt_cert_events self) ++ cs /\
      votor_inv None (fun s h => N s h \/ notarized_by cs s h) boot base v) as Hnone.
  { intros v Hv HIv. exists []. split; [by rewrite app_nil_r, Hv|].
    eapply votor_inv_mono; [| | | | |exact HIv]; auto; done. }
  unfold should_ignore_pool_event in Ht. unfold pool_event_slot in *.
  destruct (ep_kind ev) as [r|b|k|c|s] eqn:Ek.
  - case_if_in Ht; [inv_ok; by apply Hnone|]. apply (handle_parent_ready_inv N boot base) in Ht as [? ?]; [|done]. by apply Hnone.
  - case_if_in Ht; [inv_ok; by apply Hnone|]. unfold handle_safe_to_notar in Ht.
    apply (vote_fallback_inv N boot base) with (b := BNotarFallback (bid_hash b)) in Ht as [? [_ ?]]; [|done|done|done|done|done].
    by apply Hnone.
  - case_if_in Ht; [inv_ok; by apply Hnone|]. unfold handle_safe_to_skip in Ht.
    apply (vote_fallback_inv N boot base) with (b := BSkipFallback) in Ht as [? [_ ?]]; [|done|done|done|done|done].
    by apply Hnone.
  - case_if_in Ht; [inv_ok; by apply Hnone|]. apply (handle_cert_created_inv N boot base) in Ht as [? ?]; [|done|done].
    by exists [c].
  - apply (handle_standstill_inv N boot base) in Ht as [HI' ?]; [|done|by apply Hss].
    exists (ss_certs s). split; [done|]. eapply votor_inv_mono; [| | | | |exact HI']; auto; done.
Qed.

Lemma handle_block_event_inv N boot base self ev self' :
  votor_inv None N boot base self -> ag_votor_handle_block_event self ev = Ok self' ->
  votor_inv None N boot base self' /\ vt_cert_events self' = vt_cert_events self.
Proof.
  unfold ag_votor_handle_block_event. intros HI Ht. case_if_in Ht; [by inv_ok|]. destruct (eb_kind ev).
  - apply update_state_same in Ht as HS; [|done]. apply update_state_ok in Ht as (_ & _ & Hp & Hc & _).
    split; [|done]. apply (votor_inv_same _ _ _ _ _ _ HS); [|done]. rewrite Hp. by apply (vi_pending _ _ _ _ _ HI).
  - by apply (try_skip_window_inv N boot base None) in Ht as [? []].
Qed.

Lemma handle_replay_event_inv N boot base self ev self' :
  votor_inv None N boot base self -> is_u64 (ery_slot ev) -> ag_votor_handle_replay_event self ev = Ok self' ->
  votor_inv None N boot base self' /\ vt_cert_events self' = vt_cert_events self.
Proof.
  unfold ag_votor_handle_replay_event. intros HI [_ Hs] Ht. case_if_in Ht; [by inv_ok|]. destruct (ery_kind ev).
  2:{ by apply (try_skip_window_inv N boot base None) in Ht as [? []]. }
  case_if_in Ht; [by inv_ok|].
  destruct (try_notar _ _ _) as [[v1 voted]|] eqn:En in Ht; cbn in Ht; [|done].
  apply (try_notar_inv N boot base) in En as [HI1 [_ F1]]; [|done|done]. destruct voted.
  - apply (check_pending_blocks_inv N boot base) in Ht as [? [_ F2]]; [|done]. split; [done|congruence].
  - destruct (state_mut v1 _) as [[v2 e]|] eqn:Em in Ht; cbn in Ht; [|done]. inv_ok.
    apply state_mut_ok in Em as (-> & [M1 M2 M3] & M4 & M5 & _ & _ & M6). split; [|cbn; congruence].
    apply (votor_inv_same _ _ _ _ v1); [| |done].
    + split; [done|done|]. intros k. unfold ele at 1. cbn. rewrite lookup_insert.
      case_decide; [by subst|]. by rewrite <- (M4 k).
    + pose proof (vi_pending _ _ _ _ _ HI1). cbn. rewrite M5. case_if; [done|]. by apply Forall_app; auto.
Qed.

Lemma handle_timeout_event_inv N boot base self ev self' :
  votor_inv None N boot base self -> ag_votor_handle_timeout_event self ev = Ok self' ->
  votor_inv None N boot base self' /\ vt_cert_events self' = vt_cert_events self.
Proof.
  unfold ag_votor_handle_timeout_event. intros HI Ht. case_if_in Ht; [by inv_ok|].
  destruct (et_kind ev); (case_if_in Ht; [|by inv_ok]); by apply (try_skip_window_inv N boot base None) in Ht as [? []].
Qed.

Lemma poll_timeouts_inv N boot base l self self' r :
  votor_inv None N boot base self -> poll_timeouts self l = (self', r) ->
  votor_inv None N boot base self' /\ vt_cert_events self' = vt_cert_events self.
Proof.
  intros HI. induction l as [|k l IH]; cbn; [by intros [= <- <-]|].
  destruct (vt_slot_states self !! k) as [e|] eqn:Ek; [|done].
  destruct (expired (vt_now self) e) as [[kind e']|] eqn:Ee; [|done]. intros [= <- <-]. split; [|done].
  eapply votor_inv_same; [| |exact HI]; [|by apply (vi_pending _ _ _ _ _ HI)].
  split; [done|done|]. intros s. unfold ele. cbn. rewrite lookup_insert. case_decide; [|done]. subst. rewrite Ek. cbn.
  unfold expired in Ee. repeat case_if_in Ee; by simplify_eq.
Qed.

Lemma votor_step_inv boot c c' : config_inv boot c -> votor_step c c' -> config_inv boot c'.
Proof.
  assert (forall v v' vs cs, config_inv boot (mk_config v vs cs) ->
    votor_inv None (notarized_by (certs_seen (mk_config v vs cs))) boot (ballot_of <$> vs) v' /\
    vt_cert_events v' = vt_cert_events v -> config_inv boot (mk_config v' vs cs)) as Hq.
  { intros v v' vs cs _ [HI Hc]. unfold config_inv, certs_seen in *. cbn in *. by rewrite Hc. }
  intros HI Hst. unfold config_inv in HI.
  destruct Hst as [v v' ev now vs cs Hslot Hnow Hss Ht|v v' ev vs cs Ht|v v' ev vs cs Hslot Ht|v v' ev vs cs Ht|
    v v' now r vs cs Hnow Ht|v v' e vs cs Ht|v v' e vs cs Ht|v rank slot vs cs|v key vs cs|v version vs cs]; cbn in HI.
  - rewrite config_log in Hss. apply (handle_pool_event_inv _ _ _ _ _ _ _ HI Hslot Hss) in Ht as (cs' & Hc & HI').
    unfold config_inv, certs_seen in *. cbn in *. rewrite Hc.
    eapply votor_inv_mono; [| | | | |exact HI']; try done.
    intros s h [(n & Hn & ?)|(n & Hn & ?)]; exists n; (split; [set_solver|done]).
  - apply (Hq v); [done|]. by apply (handle_block_event_inv _ _ _ _ ev).
  - apply (Hq v); [done|]. by apply (handle_replay_event_inv _ _ _ _ ev).
  - apply (Hq v); [done|]. by apply (handle_timeout_event_inv _ _ _ _ ev).
  - apply (Hq v); [done|]. unfold ag_votor_poll_timeout_event in Ht.
    eapply poll_timeouts_inv in Ht; [exact Ht|]. by apply set_now_inv.
  - unfold ag_votor_poll_vote_event in Ht. destruct (vt_vote_events v) as [|e0 es] eqn:Ev; [done|]. simplify_eq.
    unfold config_inv, certs_seen in *. cbn in *. eapply votor_inv_mono; [| | | | |exact HI]; try done.
    intros x. unfold blog_of. cbn. rewrite Ev, fmap_app. cbn. set_solver.
  - unfold ag_votor_poll_cert_event in Ht. destruct (vt_cert_events v) as [|e0 es] eqn:Ev; [done|]. simplify_eq.
    unfold config_inv, certs_seen in *. cbn in *. eapply votor_inv_mono; [| | | | |exact HI]; try done.
    intros s h (n & Hn & ?). exists n. split; [|done]. cbn. rewrite ?Ev in Hn. cbn in *. set_solver.
  - assert (vt_cert_events (ag_votor_advance_epoch v rank slot) = vt_cert_events v) as Hc
      by (unfold ag_votor_advance_epoch; by repeat case_if).
    apply (Hq v); [done|]. split; [|done].
    eapply votor_inv_mono; [| | | | |exact HI]; unfold blog_of, ag_votor_advance_epoch; by repeat case_if.
  - apply (Hq v); [done|]. split; [|done]. by eapply votor_inv_mono; [| | | | |exact HI].
  - apply (Hq v); [done|]. split; [|done]. by eapply votor_inv_mono; [| | | | |exact HI].
Qed.

Lemma reachable_inv boot c : reachable boot c -> config_inv boot c.
Proof.
  intros (v & now & v' & Hf & Hb & _ & Hi & Hrun). apply (init_inv _ _ _ _ Hf Hb) in Hi.
  remember (mk_config v' [] []) as c0. clear Heqc0. induction Hrun; [done|]. apply IHHrun. by eapply votor_step_inv.
Qed.

Lemma reachable_safe boot c : reachable boot c -> safe_log (notarized_by (certs_seen c)) boot (cast c).
Proof. intros Hr. rewrite config_log. by apply (vi_safe _ _ _ _ _ (reachable_inv _ _ Hr)). Qed.
End Runs.

(** * Safety *)

(** C1: the engine never casts two notarization votes for different blocks of
    one slot, and never a notarization and a skip vote for one slot, whatever
    the order of events, replays, timeouts, certificates and re-sent votes. *)
Theorem votes_never_conflict `{BlsOps} boot c s h :
  reachable boot c -> (s, BNotar h) ∈ cast c ->
  (forall h', (s, BNotar h') ∈ cast c -> h' = h) /\ (s, BSkip) ∉ cast c.
Proof.
  intros Hr Hn. destruct (reachable_safe _ _ Hr) as [S1 S2 _ _ _]. split; [|by apply (S2 s h)].
  intros h' Hh'. by apply (S1 s).
Qed.

(** C2: a finalization vote excludes every skip, skip-fallback and
    notar-fallback vote for its slot, cast before or after it; and, except for
    the slot the engine started from, it is cast only for a block the engine
    voted to notarize and whose notarization certificate it has received. *)
Theorem final_votes_exclusive `{BlsOps} boot c s :
  reachable boot c -> (s, BFinal) ∈ cast c ->
  (forall b, (s, b) ∈ cast c -> b = BFinal \/ exists h, b = BNotar h) /\
  (s = boot \/ exists h, (s, BNotar h) ∈ cast c /\ notarized_by (certs_seen c) s h).
Proof.
  intros Hr Hn. destruct (reachable_safe _ _ Hr) as [_ _ S3 S4 _]. split; [|by apply S4].
  intros b Hb. by apply (S3 s).
Qed.


(** * A concrete run

    Booted at slot 4: slot 8 gets a ready parent, blocks of slots 8 and 9 are
    replayed, and the block of slot 8 is notarized. *)

Definition sample_votor : ag_votor_t :=
  default (mk_votor 0 0 0 0 0 ∅ 0 0 0 0 0 [] [] [] [] []) (ag_votor_new 128 64).

Definition hash_8 : ag_block_hash_t := replicate 32 8.
Definition hash_9 : ag_block_hash_t := replicate 32 9.

Definition or_sample (r : outcome ag_votor_t) : ag_votor_t := match r with Ok v => v | Fail _ => sample_votor end.

Definition run_ready : ag_event_pool_t := mk_event_pool 0 0 (ParentReady (mk_parent_ready 8 (ag_block_id 4 zero_hash))).
Definition run_replay_8 : ag_event_replay_t :=
  mk_event_replay 0 0 ReplayCompleted 8 (mk_block_info hash_8 (ag_block_id 4 zero_hash)).
Definition run_replay_9 : ag_event_replay_t :=
  mk_event_replay 0 0 ReplayCompleted 9 (mk_block_info hash_9 (ag_block_id 8 hash_8)).
Definition run_cert : ag_event_pool_t :=
  mk_event_pool 0 0 (CertCreated (CNotar (mk_cert_notar 8 hash_8 ag_bls_agg_zero 0))).

Definition run_0 : ag_votor_t := or_sample (ag_votor_init sample_votor 4 1000).
Definition run_1 : ag_votor_t := or_sample (@ag_votor_handle_pool_event sample_bls run_0 run_ready 2000).
Definition run_2 : ag_votor_t := or_sample (@ag_votor_handle_replay_event sample_bls run_1 run_replay_8).
Definition run_3 : ag_votor_t := or_sample (@ag_votor_handle_replay_event sample_bls run_2 run_replay_9).
Definition run_4 : ag_votor_t := or_sample (@ag_votor_handle_pool_event sample_bls run_3 run_cert 3000).

Lemma run_reachable : @reachable sample_bls 4 (mk_config run_4 [] []).
Proof.
  exists sample_votor, 1000, run_0. split_and!; [by vm_compute|by vm_compute; split; discriminate|by vm_compute|by vm_compute|].
  eapply rtc_l; [apply (step_pool run_0 run_1 run_ready 2000); [by vm_compute; split; discriminate|by vm_compute|done|by vm_compute]|].
  eapply rtc_l; [apply (step_replay run_1 run_2 run_replay_8); [by vm_compute; split; discriminate|by vm_compute]|].
  eapply rtc_l; [apply (step_replay run_2 run_3 run_replay_9); [by vm_compute; split; discriminate|by vm_compute]|].
  apply rtc_once. apply (step_pool run_3 run_4 run_cert 3000); [by vm_compute; split; discriminate|by vm_compute|done|by vm_compute].
Qed.

Lemma run_cast : cast (mk_config run_4 [] []) = [(8, BNotar hash_8); (9, BNotar hash_9); (8, BFinal)].
Proof. vm_compute. reflexivity. Qed.

Lemma votes_never_conflict_witness :
  (8, BNotar hash_8) ∈ cast (mk_config run_4 [] []) /\ (8, BSkip) ∉ cast (mk_config run_4 [] []).
Proof.
  assert ((8, BNotar hash_8) ∈ cast (mk_config run_4 [] [])) as Hin by (rewrite run_cast; set_solver).
  split; [exact Hin|]. exact (proj2 (@votes_never_conflict sample_bls 4 (mk_config run_4 [] []) 8 hash_8 run_reachable Hin)).
Defined.

Lemma final_votes_exclusive_witness :
  8 = 4 \/ exists h, (8, BNotar h) ∈ cast (mk_config run_4 [] []) /\
    notarized_by (certs_seen (mk_config run_4 [] [])) 8 h.
Proof.
  assert ((8, BFinal) ∈ cast (mk_config run_4 [] [])) as Hin by (rewrite run_cast; set_solver).
  exact (proj2 (@final_votes_exclusive sample_bls 4 (mk_config run_4 [] []) 8 run_reachable Hin)).
Defined.

