(* ===== verification/VotorTimers.v ===== *)
(** Timers, pending blocks and skipped windows of the voting engine: the two
    intrusive lists stay in step with the slot states, an expired timer is
    reported exactly once, and a timeout of a slot without a vote skips what is
    left of its window. *)
From S2P Require Import Prelude VotorBase Bls Vote EpochInfo Cert ParentReady SlotState Votor VotorInv.

(** * The intrusive lists *)

Record lists_inv (self : ag_votor_t) : Prop := {
  li_pending : forall s, s ∈ vt_pending_dlist self <-> el_pending_block (ele self s) = true;
  li_timeout : forall s, s ∈ vt_timeout_dlist self <-> timer_idle (ele self s) = false;
  li_pending_nodup : NoDup (vt_pending_dlist self);
  li_timeout_nodup : NoDup (vt_timeout_dlist self);
  li_bound : forall s, s ∈ vt_pending_dlist self -> vt_root self <= s /\ first_unpruned_slot self <= s;
  li_root : vt_root self <= vt_highest_final_cert_slot self
}.

(** What the lists depend on. *)
Definition link_part (e : slot_state_ele_t) := (el_pending_block e, timer_idle e).

Record same_links (self self' : ag_votor_t) : Prop := {
  sk_pending : vt_pending_dlist self' = vt_pending_dlist self;
  sk_timeout : vt_timeout_dlist self' = vt_timeout_dlist self;
  sk_root : vt_root self' = vt_root self;
  sk_highest : vt_highest_final_cert_slot self' = vt_highest_final_cert_slot self;
  sk_now : vt_now self' = vt_now self;
  sk_part : forall s, link_part (ele self' s) = link_part (ele self s)
}.

#[export] Instance same_links_preorder : PreOrder same_links.
Proof.
  split; [by split|]. intros a b c [A1 A2 A3 A4 A5 A6] [B1 B2 B3 B4 B5 B6]. split; congruence.
Qed.

Lemma lists_inv_same self self' : same_links self self' -> lists_inv self -> lists_inv self'.
Proof.
  intros [A1 A2 A3 A4 _ A5] [I1 I2 I3 I4 I5 I6].
  split; unfold first_unpruned_slot in *; rewrite ?A1, ?A2, ?A3, ?A4; try done; intros s; specialize (A5 s);
    unfold link_part in A5; injection A5 as A6 A7; rewrite ?A6, ?A7; auto.
Qed.

Lemma state_mut_links self s self' e : state_mut self s = Ok (self', e) -> same_links self self'.
Proof.
  intros Hm. pose proof (state_mut_ok _ _ _ _ Hm) as (_ & [_ S2 _] & Hk & Hp & Ht & _).
  assert (vt_root self' = vt_root self /\ vt_now self' = vt_now self) as [Hr Hn]
    by (unfold state_mut in Hm; destruct (vt_slot_states self !! s); by inv_ok).
  split; try done. intros k. by rewrite Hk.
Qed.

Lemma put_ele_links self s e :
  link_part e = link_part (ele self s) -> same_links self (put_ele self s e).
Proof. intros Hl. split; try done. intros k. rewrite ele_put. case_decide; [by subst|done]. Qed.

Lemma update_state_links self s f self' :
  (forall e, link_part (f e) = link_part e) -> update_state self s f = Ok self' -> same_links self self'.
Proof.
  intros Hf Hu. unfold update_state in Hu. inv_ok. destruct a as [v e]. cbn.
  pose proof (state_mut_ok _ _ _ _ E) as (-> & _ & Hk & _). apply state_mut_links in E.
  etrans; [exact E|]. apply put_ele_links. by rewrite Hf, Hk.
Qed.

Lemma push_vote_links self v self' : push_vote self v = Ok self' -> same_links self self'.
Proof. unfold push_vote. intros Hp. by inv_ok. Qed.

Lemma push_cert_links self c self' : push_cert_event self c = Ok self' -> same_links self self'.
Proof. unfold push_cert_event. intros Hp. by inv_ok. Qed.

(** ** Arming *)

(** A timer that is set keeps its slot linked, or links it. *)
Lemma arm_lists self s f self' :
  lists_inv self -> (forall e, timer_idle (f e) = false /\ el_pending_block (f e) = el_pending_block e) ->
  arm self s f = Ok self' ->
  lists_inv self' /\ vt_root self' = vt_root self /\ vt_highest_final_cert_slot self' = vt_highest_final_cert_slot self /\
  vt_now self' = vt_now self.
Proof.
  intros HI0 Hf Ha. unfold arm in Ha. inv_ok. destruct a as [v e]. cbn [fst snd].
  pose proof (state_mut_ok _ _ _ _ E) as (-> & _ & Hk & _). apply state_mut_links in E as HL.
  pose proof (lists_inv_same _ _ HL HI0) as [I1 I2 I3 I4 I5 I6]. destruct (Hf (ele self s)) as [Hf1 Hf2].
  destruct HL as [L1 L2 L3 L4 L5 L6].
  set (w := put_ele v s (f (ele self s))).
  assert (forall k, ele w k = if decide (k = s) then f (ele self s) else ele v k) as Hw by apply ele_put.
  assert (forall k, el_pending_block (ele w k) = el_pending_block (ele v k)) as Hpend
    by (intros k; rewrite Hw; case_decide; [subst; by rewrite Hf2, Hk|done]).
  destruct (timer_idle (ele self s)) eqn:Ei; (split_and!; [split; cbn -[ele w]|done..]); try done;
    try (intros k; change (ele (vt_set_states w _ _ _)) with (ele w); rewrite ?Hpend; apply I1); intros *;
    try change (ele (vt_set_states w _ _ _)) with (ele w); rewrite ?Hw.
  - rewrite elem_of_app, list_elem_of_singleton, I2. case_decide as Hd; [subst; naive_solver|]. naive_solver.
  - apply NoDup_app. split; [done|]. split; [|apply NoDup_singleton].
    intros k Hk'%I2 ->%list_elem_of_singleton. rewrite Hk in Hk'. congruence.
  - change (vt_timeout_dlist w) with (vt_timeout_dlist v). rewrite I2. case_decide as Hd; [|done]. subst. rewrite Hk, Ei, Hf1. done.
Qed.

Lemma min_not_idle e x :
  x < LONG_MAX ->
  timer_idle (el_set_timers e (Z.min (el_timeout e) x) (el_timeout_crashed_leader e)) = false /\
  timer_idle (el_set_timers e (el_timeout e) (Z.min (el_timeout_crashed_leader e) x)) = false.
Proof. unfold timer_idle. cbn. intros Hx. split; apply andb_false_iff; rewrite !Z.eqb_neq; lia. Qed.

Lemma window_length s : is_u64 s -> Z.of_nat (length (range s (s +w AG_SLOTS_PER_WINDOW))) <= AG_SLOTS_PER_WINDOW.
Proof.
  unfold is_u64, ULONG_MAX, range, u64_add, u64, AG_SLOTS_PER_WINDOW. intros Hs. rewrite length_seqZ.
  pose proof (Z.div_mod (s + 4) 18446744073709551616). pose proof (Z.mod_pos_bound (s + 4) 18446744073709551616).
  assert (0 <= (s + 4) / 18446744073709551616) by (apply Z.div_pos; lia). lia.
Qed.

(** Arming a run of slots with increasing deadlines. *)
Lemma arm_all_lists l self d self' d' :
  lists_inv self -> d + Z.of_nat (length l) * AG_DELTA_BLOCK_NS < LONG_MAX ->
  ofold (fun sd s =>
           let deadline := snd sd + (if ag_is_start_of_window s
                                     then Z.max (AG_DELTA_BLOCK_NS - AG_DELTA_FIRST_SLICE_NS) 0
                                     else AG_DELTA_BLOCK_NS) in
           self ← arm (fst sd) s (fun e => el_set_timers e (Z.min (el_timeout e) deadline) (el_timeout_crashed_leader e));
           Ok (self, deadline)) (self, d) l = Ok (self', d') ->
  lists_inv self' /\ vt_root self' = vt_root self /\
  vt_highest_final_cert_slot self' = vt_highest_final_cert_slot self /\ vt_now self' = vt_now self.
Proof.
  revert self d. induction l as [|s l IH]; intros self d HI Hd Hf; cbn [ofold fst snd] in Hf; [by inv_ok|].
  cbv zeta in Hf. set (d1 := d + _) in Hf.
  assert (d1 <= d + AG_DELTA_BLOCK_NS) as Hd1
    by (unfold d1, AG_DELTA_BLOCK_NS, AG_DELTA_FIRST_SLICE_NS; case_if; lia).
  cbn [length] in Hd. unfold AG_DELTA_BLOCK_NS in *.
  destruct (arm _ _ _) as [v|] eqn:Ea in Hf; cbn in Hf; [|done].
  apply arm_lists in Ea as (I1 & R1 & H1 & N1); [|done|intros e; split; [apply min_not_idle; lia|done]].
  apply IH in Hf as (I2 & R2 & H2 & N2); [|done|lia]. split_and!; [done|congruence..].
Qed.

(** The timers of the window are set; deadlines stay below [LONG_MAX]. *)
Lemma set_timeouts_lists self s self' :
  lists_inv self -> is_u64 s -> vt_now self < CLOCK_MAX -> set_timeouts self s = Ok self' ->
  lists_inv self' /\ vt_root self' = vt_root self /\
  vt_highest_final_cert_slot self' = vt_highest_final_cert_slot self /\ vt_now self' = vt_now self.
Proof.
  unfold set_timeouts. intros HI Hs Hnow Ht. inv_ok. destruct a1 as [w d]. cbn [fst].
  set (d0 := vt_now self + AG_DELTA_TIMEOUT_NS + AG_DELTA_FIRST_SLICE_NS) in *.
  assert (d0 + AG_SLOTS_PER_WINDOW * AG_DELTA_BLOCK_NS < LONG_MAX) as Hd0 by (unfold d0, CLOCK_MAX in *; lia).
  apply arm_lists in E0 as (I0 & R0 & H0 & N0);
    [|done|intros e; split; [apply min_not_idle; unfold AG_SLOTS_PER_WINDOW, AG_DELTA_BLOCK_NS in Hd0; lia|done]].
  apply arm_all_lists in E1 as (I1 & R1 & H1 & N1); [|done|].
  - split_and!; [done|congruence..].
  - pose proof (window_length s Hs). unfold AG_DELTA_BLOCK_NS in *. lia.
Qed.

Lemma first_slot_u64 s : is_u64 s -> is_u64 (ag_first_slot_in_window s).
Proof.
  unfold is_u64. intros Hs. pose proof (first_slot_bounds s).
  unfold ag_first_slot_in_window, AG_SLOTS_PER_WINDOW in *. pose proof (Z.div_pos s 4). lia.
Qed.

(** ** Voting *)

Lemma elem_of_dlist_remove s l k : k ∈ dlist_remove s l <-> k <> s /\ k ∈ l.
Proof. unfold dlist_remove. by rewrite list_elem_of_filter. Qed.

(** A list of linked slots after one of them, if it was linked, is unlinked. *)
Lemma unlink_iff s l (linked : Z -> bool) k (b : bool) :
  (forall k, k ∈ l <-> linked k = true) -> b = linked s ->
  k ∈ (if b then dlist_remove s l else l) <-> k <> s /\ linked k = true.
Proof.
  intros Hl ->. destruct (linked s) eqn:E.
  - by rewrite elem_of_dlist_remove, Hl.
  - rewrite Hl. split; [|tauto]. intros Hk. split; [congruence|done].
Qed.

Lemma unlink_nodup s l (b : bool) : NoDup l -> NoDup (if b then dlist_remove s l else l).
Proof. intros Hl. destruct b; [by apply NoDup_filter|done]. Qed.

Section Lists.
Context `{BlsOps}.

Lemma try_final_links self s h self' : try_final self s h = Ok self' -> same_links self self'.
Proof.
  unfold try_final. intros Ht. inv_ok. case_if_in Ht; [|by inv_ok].
  destruct (push_vote _ _) as [v|] eqn:Ep in Ht; cbn in Ht; [|done].
  apply push_vote_links in Ep. apply update_state_links in Ht; [by etrans|done].
Qed.

Lemma skip_slot_links self s self' : skip_slot self s = Ok self' -> same_links self self'.
Proof.
  unfold skip_slot. intros Ht. case_if_in Ht; [by inv_ok|].
  destruct (update_state _ _ _) as [v|] eqn:Eu in Ht; cbn in Ht; [|done].
  apply update_state_links in Eu; [|done]. apply push_vote_links in Ht. by etrans.
Qed.

Lemma try_skip_window_links self s self' : try_skip_window self s = Ok self' -> same_links self self'.
Proof.
  unfold try_skip_window. intros Ht. inv_ok.
  refine (ofold_inv (fun v => same_links self v) _ _ _ _ _ _ Ht); [|done].
  intros v k v' _ Hv Hk%skip_slot_links. by etrans.
Qed.

(** What the voting operations keep. *)
Definition lists_kept (self self' : ag_votor_t) : Prop :=
  lists_inv self' /\ vt_root self' = vt_root self /\
  vt_highest_final_cert_slot self' = vt_highest_final_cert_slot self /\ vt_now self' = vt_now self.

Lemma lists_kept_links self self' : lists_inv self -> same_links self self' -> lists_kept self self'.
Proof. intros HI HL. pose proof (lists_inv_same _ _ HL HI). by destruct HL. Qed.

Lemma lists_kept_trans a b c : lists_kept a b -> lists_kept b c -> lists_kept a c.
Proof. intros (_ & A1 & A2 & A3) (B0 & B1 & B2 & B3). split_and!; [done|congruence..]. Qed.

Lemma try_notar_lists self s info self' voted :
  lists_inv self -> try_notar self s info = Ok (self', voted) -> lists_kept self self'.
Proof.
  unfold try_notar. intros HI Ht. inv_ok. case_if_in Ht; [by inv_ok; apply lists_kept_links|].
  case_if_in Ht; [by inv_ok; apply lists_kept_links|].
  destruct (push_vote _ _) as [v1|] eqn:Ep in Ht; cbn in Ht; [|done].
  destruct (state_mut v1 s) as [[v2 e]|] eqn:Em in Ht; cbn in Ht; [|done].
  destruct (try_final _ _ _) as [v3|] eqn:Ef in Ht; cbn in Ht; [|done]. injection Ht as <- <-.
  apply push_vote_links in Ep. pose proof (state_mut_ok _ _ _ _ Em) as (-> & _ & Hk & _). apply state_mut_links in Em.
  assert (lists_kept self v2) as K2 by (apply lists_kept_links; [done|by etrans]).
  set (w := vt_set_states _ _ _ _) in Ef.
  assert (lists_kept v2 w) as K3.
  { destruct K2 as ([I1 I2 I3 I4 I5 I6] & _). split; [|done].
    assert (forall k, ele w k = if decide (k = s) then el_set_pending (el_set_vote (ele v1 s) true true (bi_hash info)
      (el_bad_window (ele v1 s))) false (el_pending_block_info (ele v1 s)) else ele v2 k) as Hw.
    { intros k. unfold ele at 1, w. cbn. rewrite lookup_insert. by repeat case_decide; subst. }
    assert (forall k, k ∈ vt_pending_dlist w <-> k <> s /\ el_pending_block (ele v2 k) = true) as Hp.
    { intros k. apply (unlink_iff s (vt_pending_dlist v2) (fun k => el_pending_block (ele v2 k))); [done|by rewrite Hk]. }
    split; try done.
    - intros k. rewrite Hp, Hw. case_decide; [subst; naive_solver|naive_solver].
    - intros k. rewrite Hw. change (vt_timeout_dlist w) with (vt_timeout_dlist v2). rewrite I2.
      case_decide; [subst; by rewrite Hk|done].
    - by apply unlink_nodup.
    - intros k Hkp%Hp. apply I5, I1. tauto. }
  apply try_final_links in Ef.
  apply (lists_kept_trans _ v2); [done|]. apply (lists_kept_trans _ w); [done|]. apply lists_kept_links; [|done]. apply K3.
Qed.

Lemma check_pending_blocks_lists self self' :
  lists_inv self -> check_pending_blocks self = Ok self' -> lists_kept self self'.
Proof.
  unfold check_pending_blocks. intros HI Ht.
  refine (ofold_inv (fun v => lists_kept self v) _ _ _ _ _ _ Ht); [|by apply lists_kept_links].
  intros v k v' _ Hv Hstep. destruct (vt_slot_states v !! k) as [e|]; [|by inv_ok].
  destruct (el_pending_block e); [|by inv_ok].
  destruct (try_notar v k _) as [[w b]|] eqn:En in Hstep; cbn in Hstep; [|done]. inv_ok.
  apply (lists_kept_trans _ v); [done|]. eapply try_notar_lists; [apply Hv|exact En].
Qed.

(** ** Pruning *)

(** The part of the invariant that does not mention the root. *)
Definition lists_core (self : ag_votor_t) : Prop :=
  (forall s, s ∈ vt_pending_dlist self <-> el_pending_block (ele self s) = true) /\
  (forall s, s ∈ vt_timeout_dlist self <-> timer_idle (ele self s) = false) /\
  NoDup (vt_pending_dlist self) /\ NoDup (vt_timeout_dlist self).

Lemma prune_slot_core self s :
  lists_core self -> lists_core (prune_slot self s) /\
  (forall k, k ∈ vt_pending_dlist (prune_slot self s) <-> k <> s /\ k ∈ vt_pending_dlist self).
Proof.
  intros (I1 & I2 & I3 & I4). unfold prune_slot. destruct (vt_slot_states self !! s) as [e|] eqn:Es.
  2:{ split; [done|]. intros k. split; [|tauto]. intros Hk. split; [|done]. intros ->.
      apply I1 in Hk. unfold ele in Hk. by rewrite Es in Hk. }
  set (w := vt_set_states _ _ _ _).
  assert (forall k, ele w k = if decide (k = s) then ele_zero else ele self k) as Hw.
  { intros k. unfold ele, w. cbn. rewrite lookup_delete. by repeat case_decide; subst. }
  assert (e = ele self s) as He by (unfold ele; by rewrite Es).
  assert (forall k, k ∈ vt_pending_dlist w <-> k <> s /\ el_pending_block (ele self k) = true) as Hp
    by (intros k; apply (unlink_iff s (vt_pending_dlist self) (fun k => el_pending_block (ele self k))); [done|by rewrite He]).
  assert (forall k, k ∈ vt_timeout_dlist w <-> k <> s /\ negb (timer_idle (ele self k)) = true) as Ht.
  { intros k. rewrite <- (unlink_iff s (vt_timeout_dlist self) (fun k => negb (timer_idle (ele self k))) k
      (negb (timer_idle e))); [cbn; by destruct (timer_idle e)| |by rewrite He].
    intros k'. by rewrite negb_true_iff. }
  split; [|intros k; by rewrite Hp, I1]. split_and!.
  - intros k. rewrite Hp, Hw. case_decide; [subst; naive_solver|naive_solver].
  - intros k. rewrite Ht, Hw, negb_true_iff. case_decide; [subst; naive_solver|naive_solver].
  - by apply unlink_nodup.
  - cbn. destruct (timer_idle e); [done|by apply NoDup_filter].
Qed.

Lemma prune_slots_core l self :
  lists_core self ->
  let self' := foldl prune_slot self l in
  lists_core self' /\ (forall k, k ∈ vt_pending_dlist self' <-> k ∉ l /\ k ∈ vt_pending_dlist self) /\
  vt_root self' = vt_root self /\ vt_highest_final_cert_slot self' = vt_highest_final_cert_slot self /\
  vt_now self' = vt_now self.
Proof.
  cbv zeta. revert self. induction l as [|s l IH]; intros self HI; cbn [foldl].
  { split_and!; try done. intros k. split; [intros; split; [apply not_elem_of_nil|done]|tauto]. }
  destruct (prune_slot_core self s HI) as [HI1 Hp]. destruct (IH _ HI1) as (C & P & R & Hh & Hn).
  assert (vt_root (prune_slot self s) = vt_root self /\
    vt_highest_final_cert_slot (prune_slot self s) = vt_highest_final_cert_slot self /\
    vt_now (prune_slot self s) = vt_now self) as (R1 & Hh1 & Hn1)
    by (unfold prune_slot; by destruct (vt_slot_states self !! s)).
  split_and!; [done| |congruence..]. intros k. rewrite P, Hp, not_elem_of_cons. tauto.
Qed.

Lemma prune_lists self slot :
  lists_inv self ->
  let self' := prune (vt_set_root self (vt_root self) (Z.max (vt_highest_final_cert_slot self) slot)) in
  lists_inv self' /\ vt_now self' = vt_now self.
Proof.
  intros [I1 I2 I3 I4 I5 I6]. cbv zeta. unfold prune. set (v := vt_set_root self _ _). set (l := range _ _).
  destruct (prune_slots_core l v) as ((C1 & C2 & C3 & C4) & P & R & Hh & Hn); [by split_and!|].
  set (w := vt_set_root _ _ _).
  assert (first_unpruned_slot w = first_unpruned_slot v) as Hf by (unfold first_unpruned_slot; cbn; by rewrite Hh).
  split; [|done]. split; try done.
  - rewrite Hf. intros s Hs%P. cbn in Hs. destruct Hs as [Hl Hs]. destruct (I5 s Hs) as [Hr _].
    unfold l in Hl. rewrite elem_of_range in Hl. cbn [vt_root w vt_set_root] in *. cbn in Hl. lia.
  - cbn. rewrite Hh. pose proof (first_slot_bounds (vt_highest_final_cert_slot v)). unfold first_unpruned_slot. cbn in *. lia.
Qed.

(** ** The entry points *)

Lemma set_now_lists self now : lists_inv self -> lists_inv (vt_set_now self now).
Proof. intros [I1 I2 I3 I4 I5 I6]. by split. Qed.

Lemma handle_cert_created_lists self cert self' :
  lists_inv self -> is_u64 (ag_cert_slot cert) -> vt_now self < CLOCK_MAX ->
  handle_cert_created self cert = Ok self' -> lists_inv self' /\ vt_now self' = vt_now self.
Proof.
  unfold handle_cert_created. intros HI Hs Hnow Ht.
  match type of Ht with (mbind _ ?m) = _ => destruct m as [v1|] eqn:E end; cbn in Ht; [|done].
  apply push_cert_links in Ht.
  assert (lists_inv v1 /\ vt_now v1 = vt_now self) as [H1 H2].
  { assert (forall slot r, (v ← set_timeouts self (ag_first_slot_in_window slot); Ok (prune (vt_set_root v (vt_root v)
        (Z.max (vt_highest_final_cert_slot v) slot)))) = Ok r -> is_u64 slot ->
        lists_inv r /\ vt_now r = vt_now self) as Hfin.
    { intros slot r Hr Hsl. destruct (set_timeouts _ _) as [v2|] eqn:Est in Hr; cbn in Hr; [|done]. injection Hr as <-.
      apply set_timeouts_lists in Est as (HI2 & _ & _ & Hn); [|done|by apply first_slot_u64|done].
      destruct (prune_lists v2 slot HI2) as [? Hn2]. split; [done|]. cbv zeta in Hn2. by rewrite Hn2. }
    destruct cert as [n|n|n|n|n]; try (by inv_ok); try (by apply Hfin in E).
    destruct (update_state _ _ _) as [v2|] eqn:Eu in E; cbn in E; [|done].
    apply update_state_links in Eu; [|done]. apply try_final_links in E.
    assert (same_links self v1) as HL by by etrans. split; [by apply (lists_inv_same self)|by apply HL]. }
  split; [by apply (lists_inv_same v1)|]. rewrite <- H2. by apply Ht.
Qed.

Lemma handle_parent_ready_lists self r self' :
  lists_inv self -> is_u64 (pr_slot r) -> vt_now self < CLOCK_MAX -> handle_parent_ready self r = Ok self' ->
  lists_kept self self'.
Proof.
  unfold handle_parent_ready. intros HI Hs Hnow Ht.
  destruct (state_mut _ _) as [[v1 e]|] eqn:Em in Ht; cbn in Ht; [|done].
  destruct (add_parent_ready _ _) as [ps|] in Ht; cbn in Ht; [|done].
  destruct (check_pending_blocks _) as [v2|] eqn:Ec in Ht; cbn in Ht; [|done].
  pose proof (state_mut_ok _ _ _ _ Em) as (-> & _ & Hk & _). apply state_mut_links in Em.
  set (w := put_ele _ _ _) in Ec.
  assert (same_links self w) as HL by (etrans; [exact Em|]; apply put_ele_links; by rewrite Hk).
  pose proof (lists_kept_links _ _ HI HL) as K1. apply check_pending_blocks_lists in Ec as K2; [|apply K1].
  pose proof (lists_kept_trans _ _ _ K1 K2) as K3.
  apply set_timeouts_lists in Ht as K4; [by eapply lists_kept_trans|apply K3|done|].
  destruct K3 as (_ & _ & _ & ->). done.
Qed.

Lemma vote_fallback_links self s vote self' : vote_fallback self s vote = Ok self' -> same_links self self'.
Proof.
  unfold vote_fallback. intros Ht.
  destruct (push_vote _ _) as [v1|] eqn:Ep in Ht; cbn in Ht; [|done].
  destruct (try_skip_window _ _) as [v2|] eqn:Es in Ht; cbn in Ht; [|done].
  apply push_vote_links in Ep. apply try_skip_window_links in Es. apply update_state_links in Ht; [|done].
  etrans; [done|]. by etrans.
Qed.

Lemma handle_standstill_links self s self' : handle_standstill self s = Ok self' -> same_links self self'.
Proof.
  unfold handle_standstill. intros Ht. inv_ok.
  assert (same_links self a0) as H1.
  { refine (ofold_inv (fun v => same_links self v) _ _ _ _ _ _ E0); [|done].
    intros v c v' _ Hv Hc%push_cert_links. by etrans. }
  refine (ofold_inv (fun v => same_links self v) _ _ _ _ _ _ Ht); [|done].
  intros v c v' _ Hv Hc%push_vote_links. by etrans.
Qed.

Lemma handle_pool_event_lists self ev now self' :
  lists_inv self -> is_u64 (pool_event_slot ev) -> now < CLOCK_MAX ->
  ag_votor_handle_pool_event self ev now = Ok self' -> lists_inv self'.
Proof.
  unfold ag_votor_handle_pool_event. intros HI0 Hslot Hnow Ht. apply (set_now_lists _ now) in HI0 as HI.
  case_if_in Ht; [by inv_ok|]. unfold pool_event_slot in Hslot. destruct (ep_kind ev) as [r|b|k|c|s].
  - by apply handle_parent_ready_lists in Ht as [? _].
  - apply vote_fallback_links in Ht. by eapply lists_inv_same.
  - apply vote_fallback_links in Ht. by eapply lists_inv_same.
  - by apply handle_cert_created_lists in Ht as [? _].
  - apply handle_standstill_links in Ht. by eapply lists_inv_same.
Qed.

Lemma handle_block_event_lists self ev self' :
  lists_inv self -> ag_votor_handle_block_event self ev = Ok self' -> lists_inv self' /\ vt_now self' = vt_now self.
Proof.
  unfold ag_votor_handle_block_event. intros HI Ht. case_if_in Ht; [by inv_ok|]. destruct (eb_kind ev).
  - apply update_state_links in Ht as HL; [|done]. split; [by eapply lists_inv_same|by apply HL].
  - apply try_skip_window_links in Ht as HL. split; [by eapply lists_inv_same|by apply HL].
Qed.

Lemma handle_replay_event_lists self ev self' :
  lists_inv self -> ag_votor_handle_replay_event self ev = Ok self' -> lists_inv self' /\ vt_now self' = vt_now self.
Proof.
  unfold ag_votor_handle_replay_event. intros HI Ht. case_if_in Ht; [by inv_ok|]. destruct (ery_kind ev).
  2:{ apply try_skip_window_links in Ht as HL. split; [by eapply lists_inv_same|by apply HL]. }
  case_if_in Ht; [by inv_ok|].
  destruct (try_notar _ _ _) as [[v1 voted]|] eqn:En in Ht; cbn in Ht; [|done].
  apply try_notar_lists in En as (HI1 & R1 & Hh1 & N1); [|done]. destruct voted.
  { apply check_pending_blocks_lists in Ht as (? & _ & _ & N2); [split; [done|congruence]|done]. }
  destruct (state_mut v1 _) as [[v2 e]|] eqn:Em in Ht; cbn in Ht; [|done]. inv_ok.
  pose proof (state_mut_ok _ _ _ _ Em) as (-> & _ & Hk & _). apply state_mut_links in Em as HL.
  pose proof (lists_inv_same _ _ HL HI1) as [I1 I2 I3 I4 I5 I6]. set (slot := ery_slot ev) in *.
  destruct HL as [L1 L2 L3 L4 L5 L6]. split; [|cbn; congruence]. set (w := vt_set_states _ _ _ _).
  assert (forall k, ele w k = if decide (k = slot) then el_set_pending (ele v1 slot) true (ery_block_info ev)
    else ele v2 k) as Hw by (intros k; unfold ele at 1, w; cbn; rewrite lookup_insert; by repeat case_decide; subst).
  assert (forall k, k ∈ vt_pending_dlist w <-> k = slot \/ k ∈ vt_pending_dlist v2) as Hp.
  { intros k. cbn. destruct (el_pending_block (ele v1 slot)) eqn:Ep.
    - split; [tauto|]. intros [->|]; [|done]. apply I1. by rewrite Hk.
    - rewrite elem_of_snoc. tauto. }
  split; try done.
  - intros k. rewrite Hp, Hw, I1. case_decide; [subst; naive_solver|naive_solver].
  - intros k. rewrite Hw. change (vt_timeout_dlist w) with (vt_timeout_dlist v2). rewrite I2.
    case_decide; [subst; by rewrite Hk|done].
  - cbn. destruct (el_pending_block (ele v1 slot)) eqn:Ep; [done|]. apply NoDup_app.
    split_and!; [done| |apply NoDup_singleton]. intros k Hin%I1 ->%list_elem_of_singleton. rewrite Hk in Hin. congruence.
  - intros k [->|Hin]%Hp; [|by apply I5]. pose proof (first_slot_bounds (vt_highest_final_cert_slot v1)).
    unfold first_unpruned_slot. cbn. rewrite L4. rewrite L3, L4 in I6. cbn. rewrite L3. unfold slot.
    lia.
Qed.

Lemma handle_timeout_event_lists self ev self' :
  lists_inv self -> ag_votor_handle_timeout_event self ev = Ok self' -> lists_inv self' /\ vt_now self' = vt_now self.
Proof.
  unfold ag_votor_handle_timeout_event. intros HI Ht. case_if_in Ht; [by inv_ok|].
  destruct (et_kind ev); (case_if_in Ht; [|by inv_ok]); apply try_skip_window_links in Ht as HL;
    (split; [by eapply lists_inv_same|by apply HL]).
Qed.
End Lists.

(** * Polling *)

(** The timer that is reported, and the state without it. *)
Definition fires (now : Z) (kind : timeout_event_kind) (e : slot_state_ele_t) : Prop :=
  match kind with
  | TimeoutCrashedLeader => el_timeout_crashed_leader e <= now
  | Timeout => el_timeout e <= now < el_timeout_crashed_leader e
  end.

Definition disarm (kind : timeout_event_kind) (e : slot_state_ele_t) : slot_state_ele_t :=
  match kind with
  | TimeoutCrashedLeader => el_set_timers e (el_timeout e) LONG_MAX
  | Timeout => el_set_timers e LONG_MAX (el_timeout_crashed_leader e)
  end.

Lemma expired_spec now e :
  match expired now e with
  | Some (kind, e') => fires now kind e /\ e' = disarm kind e
  | None => now < el_timeout e /\ now < el_timeout_crashed_leader e
  end.
Proof. unfold expired. repeat case_if; cbn; try done; lia. Qed.

(** The state after the timer [kind] of slot [s] is reported. *)
Definition report (self : ag_votor_t) (s : Z) (kind : timeout_event_kind) : ag_votor_t :=
  let e := disarm kind (ele self s) in
  vt_set_states (vt_set_events self (vt_vote_events self) (vt_cert_events self) (vt_seq self +w 1))
    (<[s := e]> (vt_slot_states self)) (vt_pending_dlist self)
    (if timer_idle e then dlist_remove s (vt_timeout_dlist self) else vt_timeout_dlist self).

Lemma poll_timeouts_spec self l :
  (forall s, s ∈ l -> timer_idle (ele self s) = false) ->
  match poll_timeouts self l with
  | (v, None) => v = self /\ forall s, s ∈ l -> vt_now self < el_timeout (ele self s) /\
      vt_now self < el_timeout_crashed_leader (ele self s)
  | (v, Some ev) => exists s kind, s ∈ l /\ ev = mk_event_timeout (vt_seq self) (vt_now self) kind s /\
      fires (vt_now self) kind (ele self s) /\ v = report self s kind
  end.
Proof.
  induction l as [|s l IH]; intros Hl; cbn [poll_timeouts]; [split; [done|]; by intros s ?%elem_of_nil|].
  specialize (IH ltac:(intros; apply Hl; by constructor)).
  assert (vt_slot_states self !! s = Some (ele self s)) as ->.
  { specialize (Hl s ltac:(constructor)). unfold ele in *. by destruct (vt_slot_states self !! s). }
  pose proof (expired_spec (vt_now self) (ele self s)) as He.
  destruct (expired (vt_now self) (ele self s)) as [[kind e']|].
  - destruct He as [Hf ->]. exists s, kind. split_and!; [constructor|done..].
  - destruct (poll_timeouts self l) as [v [ev|]].
    + destruct IH as (s' & kind & Hs & IH). exists s', kind. split; [by constructor|done].
    + destruct IH as [-> IH]. split; [done|]. intros s' [->|Hs']%elem_of_cons; [done|by apply IH].
Qed.

Lemma ele_report self s kind k : ele (report self s kind) k = if decide (k = s) then disarm kind (ele self s) else ele self k.
Proof. unfold ele at 1, report. cbn. rewrite lookup_insert. by repeat case_decide; subst. Qed.

Lemma report_lists self s kind : lists_inv self -> s ∈ vt_timeout_dlist self -> lists_inv (report self s kind).
Proof.
  intros [I1 I2 I3 I4 I5 I6] Hs.
  assert (forall k, el_pending_block (ele (report self s kind) k) = el_pending_block (ele self k)) as Hp
    by (intros k; rewrite ele_report; case_decide; [subst; by destruct kind|done]).
  split; try done.
  - intros k. by rewrite Hp.
  - intros k. rewrite ele_report. cbn. destruct (timer_idle (disarm kind (ele self s))) eqn:Ei.
    + rewrite elem_of_dlist_remove, I2. case_decide; [subst; rewrite Ei; split; [tauto|done]|tauto].
    + rewrite I2. case_decide; [|done]. subst. rewrite Ei. split; [done|]. intros _. by apply I2.
  - cbn. destruct (timer_idle _); [by apply NoDup_filter|done].
Qed.

Lemma poll_timeouts_at self now :
  lists_inv self ->
  match ag_votor_poll_timeout_event self now with
  | (v, None) => v = vt_set_now self now /\ forall s, s ∈ vt_timeout_dlist self -> now < el_timeout (ele self s) /\
      now < el_timeout_crashed_leader (ele self s)
  | (v, Some ev) => exists s kind, s ∈ vt_timeout_dlist self /\ ev = mk_event_timeout (vt_seq self) now kind s /\
      fires now kind (ele self s) /\ v = report (vt_set_now self now) s kind
  end.
Proof.
  intros HI. refine (poll_timeouts_spec (vt_set_now self now) (vt_timeout_dlist self) _).
  intros s. change (ele (vt_set_now self now)) with (ele self). apply HI.
Qed.

Lemma poll_timeout_lists self now : lists_inv self -> lists_inv (ag_votor_poll_timeout_event self now).1.
Proof.
  intros HI. pose proof (poll_timeouts_at self now HI) as Hp. pose proof (set_now_lists self now HI).
  destruct (ag_votor_poll_timeout_event self now) as [v [ev|]]; [|by destruct Hp as [-> _]].
  destruct Hp as (s & kind & Hs & -> & Hf & ->). by apply report_lists.
Qed.

(** polling the timers reports one expired timer, the crashed-leader one
    before the slot's own, disarms exactly that timer and keeps the timer list
    consistent; it reports nothing only when no timer of any slot has expired. *)
Theorem poll_timeout_event_spec self now :
  lists_inv self -> now < LONG_MAX ->
  match ag_votor_poll_timeout_event self now with
  | (self', None) => self' = vt_set_now self now /\
      forall s, now < el_timeout (ele self s) /\ now < el_timeout_crashed_leader (ele self s)
  | (self', Some ev) =>
      et_seq ev = vt_seq self /\ et_ts ev = now /\ fires now (et_kind ev) (ele self (et_slot ev)) /\
      self' = report (vt_set_now self now) (et_slot ev) (et_kind ev) /\ lists_inv self'
  end.
Proof.
  intros HI Hnow. pose proof (poll_timeouts_at self now HI) as Hp. pose proof (poll_timeout_lists self now HI) as HL.
  destruct (ag_votor_poll_timeout_event self now) as [v [ev|]].
  - by destruct Hp as (s & kind & Hs & -> & Hf & ->).
  - destruct Hp as [-> Hall]. split; [done|]. intros s. destruct (timer_idle (ele self s)) eqn:Ei.
    + unfold timer_idle in Ei. boolp. lia.
    + apply Hall. by apply HI.
Qed.

(** * Runs *)

Section Runs.
Context `{BlsOps}.

Lemma init_lists v boot now v' :
  fresh v -> is_u64 boot -> now < CLOCK_MAX -> ag_votor_init v boot now = Ok v' -> lists_inv v'.
Proof.
  unfold ag_votor_init. intros (F1 & _ & _ & F4 & F5) Hb Hnow Hi. set (z := vt_set_root _ _ _) in Hi.
  assert (lists_inv z) as HI.
  { assert (forall k, ele z k = ele_zero) as Hz by (intros k; unfold ele, z; cbn; by rewrite F1).
    split; cbn; rewrite ?F4, ?F5; try apply NoDup_nil_2; intros *; rewrite ?Hz;
      try (split; [by intros ?%elem_of_nil|done]); try by intros ?%elem_of_nil. lia. }
  destruct (update_state _ _ _) as [v1|] eqn:Eu in Hi; cbn in Hi; [|done].
  apply update_state_links in Eu as HL; [|done]. apply set_timeouts_lists in Hi as [? _];
    [done|by eapply lists_inv_same|by apply first_slot_u64|]. destruct HL as [_ _ _ _ -> _]. done.
Qed.

Lemma votor_step_lists c c' :
  lists_inv (cf_votor c) -> votor_step c c' -> lists_inv (cf_votor c').
Proof.
  intros HI Hst.
  destruct Hst as [v v' ev now vs cs Hslot Hnow Hss Ht|v v' ev vs cs Ht|v v' ev vs cs Hslot Ht|v v' ev vs cs Ht|
    v v' now r vs cs Hnow Ht|v v' e vs cs Ht|v v' e vs cs Ht|v rank slot vs cs|v key vs cs|v version vs cs]; cbn [cf_votor] in *.
  - by apply (handle_pool_event_lists v ev now).
  - by apply (handle_block_event_lists v ev).
  - by apply (handle_replay_event_lists v ev).
  - by apply (handle_timeout_event_lists v ev).
  - pose proof (poll_timeout_lists v now HI) as Hp. by rewrite Ht in Hp.
  - unfold ag_votor_poll_vote_event in Ht. destruct (vt_vote_events v); simplify_eq. by destruct HI.
  - unfold ag_votor_poll_cert_event in Ht. destruct (vt_cert_events v); simplify_eq. by destruct HI.
  - unfold ag_votor_advance_epoch. destruct HI. by repeat case_if.
  - by destruct HI.
  - by destruct HI.
Qed.

Lemma reachable_lists boot c : reachable boot c -> lists_inv (cf_votor c).
Proof.
  intros (v & now & v' & Hf & Hb & Hn & Hi & Hrun). apply (init_lists _ _ _ _ Hf Hb Hn) in Hi.
  change v' with (cf_votor (mk_config v' [] [])) in Hi. remember (mk_config v' [] []) as c0. clear Heqc0.
  induction Hrun; [done|]. apply IHHrun. by eapply votor_step_lists.
Qed.

(** in every reachable configuration the pending list holds exactly the
    slots with a pending block and the timer list exactly the slots with an
    armed timer, each once; and every pending slot is at or above the window of
    the highest finalized slot. *)
Theorem lists_consistent boot c :
  reachable boot c ->
  let self := cf_votor c in
  NoDup (vt_pending_dlist self) /\ NoDup (vt_timeout_dlist self) /\
  (forall s, s ∈ vt_pending_dlist self <-> el_pending_block (ele self s) = true) /\
  (forall s, s ∈ vt_timeout_dlist self <-> timer_idle (ele self s) = false) /\
  (forall s, s ∈ vt_pending_dlist self -> first_unpruned_slot self <= s).
Proof.
  intros Hr. destruct (reachable_lists boot c Hr) as [I1 I2 I3 I4 I5 _]. split_and!; try done. intros s Hs. by apply I5.
Qed.

(** * Skipping a window *)

Definition skip_ballots (self : ag_votor_t) (l : list Z) : blog :=
  (fun s => (s, BSkip)) <$> filter (fun s => el_voted (ele self s) = false) l.

Definition queued (self : ag_votor_t) : blog := ballot_of ∘ ev_vote <$> vt_vote_events self.

(** Room for [n] more slot states and votes. *)
Definition votor_room (self : ag_votor_t) (n : nat) : Prop :=
  Z.of_nat (size (vt_slot_states self) + n) <= vt_slot_max self /\
  Z.of_nat (length (vt_vote_events self) + n) <= events_max self.

(** The slots of [l] are voted for, skipped unless they were voted for before;
    no other slot changes. *)
Record skipped (l : list Z) (self self' : ag_votor_t) : Prop := {
  sd_votes : queued self' = queued self ++ skip_ballots self l;
  sd_voted : forall s, s ∈ l -> el_voted (ele self' s) = true;
  sd_bad : forall s, s ∈ l -> el_voted (ele self s) = false -> el_bad_window (ele self' s) = true;
  sd_frame : forall s, s ∉ l \/ el_voted (ele self s) = true -> ele self' s = ele self s
}.

Lemma skip_slot_total self s n :
  votor_room self (S n) -> exists self', skip_slot self s = Ok self' /\ skipped [s] self self' /\ votor_room self' n.
Proof.
  intros [R1 R2]. unfold skip_slot. rewrite has_voted_ele. unfold skip_ballots.
  destruct (el_voted (ele self s)) eqn:Ev.
  { exists self. split; [done|]. split; [|unfold votor_room; lia]. split; try done.
    - unfold skip_ballots. rewrite filter_cons_False by congruence. cbn. by rewrite app_nil_r.
    - by intros k ->%list_elem_of_singleton.
    - intros k ->%list_elem_of_singleton. congruence. }
  set (f := fun e => el_set_vote e true (el_voted_notar e) (el_voted_notar_hash e) true).
  assert (exists v, update_state self s f = Ok v /\ vt_slot_max v = vt_slot_max self /\
    (size (vt_slot_states v) <= S (size (vt_slot_states self)))%nat) as (v & Eu & Hm & Hsz).
  { unfold update_state, state_mut. destruct (vt_slot_states self !! s) as [e|] eqn:Es.
    - eexists. split; [done|]. split; [done|]. cbn. rewrite map_size_insert, Es. cbn. lia.
    - rewrite check_true_ok by lia. eexists. split; [done|]. split; [done|]. cbn.
      rewrite insert_insert_eq, map_size_insert, Es. cbn. lia. }
  rewrite Eu. cbn [mbind outcome_bind]. apply update_state_ok in Eu as (U1 & _ & _ & _ & U5).
  unfold push_vote. unfold events_max in *. rewrite check_true_ok by (rewrite U1, Hm; lia). cbn [mbind outcome_bind].
  eexists. split; [done|]. split; [|unfold votor_room, events_max; cbn; rewrite length_app, U1, Hm; cbn; lia].
  set (w := vt_set_events _ _ _ _). assert (forall k, ele w k = ele v k) as Hw by done.
  split.
  - unfold queued, skip_ballots. rewrite filter_cons_True by done. cbn [vt_vote_events w vt_set_events].
    by rewrite U1, fmap_app.
  - intros k ->%list_elem_of_singleton. rewrite Hw, U5, decide_True by done. done.
  - intros k ->%list_elem_of_singleton _. rewrite Hw, U5, decide_True by done. done.
  - intros k Hk. rewrite Hw, U5. case_decide; [|done]. subst. destruct Hk as [Hk|]; [set_solver|congruence].
Qed.

Lemma skip_slots_total l self :
  NoDup l -> votor_room self (length l) -> exists self', ofold skip_slot self l = Ok self' /\ skipped l self self'.
Proof.
  intros Hnd. revert self. induction Hnd as [|s l Hs Hnd IH]; intros self Hr.
  { exists self. split; [done|]. split; try done; try by intros s ?%elem_of_nil. by unfold skip_ballots; rewrite app_nil_r. }
  destruct (skip_slot_total self s (length l) Hr) as (v & Es & [D1 D2 D3 D4] & Hr1). cbn [ofold]. rewrite Es.
  cbn [mbind outcome_bind]. destruct (IH v Hr1) as (w & Ew & [E1 E2 E3 E4]). exists w. split; [done|].
  assert (forall k, k ∈ l -> ele v k = ele self k) as Hk by (intros k Hin; apply D4; left; set_solver).
  split.
  - rewrite E1, D1, <- app_assoc. f_equal. unfold skip_ballots. rewrite <- fmap_app. f_equal.
    change (s :: l) with ([s] ++ l). rewrite filter_app. f_equal. apply list_filter_ext_in.
    intros k Hin. by rewrite Hk.
  - intros k [->|Hin]%elem_of_cons; [|by apply E2]. rewrite E4; [apply D2; set_solver|by left].
  - intros k [->|Hin]%elem_of_cons Hv; [|apply E3; [done|by rewrite Hk]]. rewrite E4; [apply D3; set_solver|by left].
  - intros k Hc. rewrite E4, D4; [done| |].
    + destruct Hc as [Hc|]; [left; set_solver|by right].
    + destruct Hc as [Hc|Hc]; [left; set_solver|]. destruct (decide (k ∈ l)); [right; by rewrite Hk|by left].
Qed.

Lemma try_skip_window_total self s :
  first_unpruned_slot self <= s -> is_u64 s -> votor_room self 4 ->
  exists self', try_skip_window self s = Ok self' /\
    skipped (range (ag_first_slot_in_window s) (ag_first_slot_in_window s +w AG_SLOTS_PER_WINDOW)) self self'.
Proof.
  intros Hf Hs [R1 R2]. unfold try_skip_window. rewrite check_true_ok by lia. cbn [mbind outcome_bind].
  apply skip_slots_total; [apply NoDup_seqZ|].
  pose proof (window_length (ag_first_slot_in_window s) (first_slot_u64 s Hs)). unfold votor_room, AG_SLOTS_PER_WINDOW in *. lia.
Qed.

(** when the timer of a slot above the highest finalized one expires
    before the slot was voted for, handling it returns, and casts skip votes for
    exactly the slots of its window not voted for yet, in order; afterwards
    every slot of the window is voted for.  A crashed-leader timer does so only
    if no shred of the slot arrived; in every other case nothing changes. *)
Theorem timeout_skips_window self ev :
  is_u64 (et_slot ev) -> votor_room self 4 ->
  let s := et_slot ev in
  let ignored := (s <=? vt_highest_final_cert_slot self) || el_retired (ele self s) || el_voted (ele self s) ||
    match et_kind ev with TimeoutCrashedLeader => el_received_shred (ele self s) | Timeout => false end in
  exists self', ag_votor_handle_timeout_event self ev = Ok self' /\
    if ignored then self' = self
    else skipped (range (ag_first_slot_in_window s) (ag_first_slot_in_window s +w AG_SLOTS_PER_WINDOW)) self self'.
Proof.
  intros Hs Hr. cbv zeta. unfold ag_votor_handle_timeout_event. rewrite is_retired_ele, has_voted_ele.
  assert (received_shred self (et_slot ev) = el_received_shred (ele self (et_slot ev))) as ->
    by (unfold received_shred, ele; by destruct (vt_slot_states self !! et_slot ev)).
  destruct (_ || el_retired _) eqn:Ei; [by exists self|]. boolp.
  pose proof (first_slot_bounds (vt_highest_final_cert_slot self)).
  destruct (try_skip_window_total self (et_slot ev)) as (v & Ev & Hv); [unfold first_unpruned_slot; lia|done|done|].
  destruct (et_kind ev), (el_voted (ele self (et_slot ev))), (el_received_shred (ele self (et_slot ev))); cbn; eauto.
Qed.
End Runs.

(** * Booting inside a window *)

(** Booted at slot 6, whose window is 4 to 7; the timer of slot 7 expires. *)
Definition boot_6 : ag_votor_t := or_sample (ag_votor_init sample_votor 6 1000).
Definition late_timeout : ag_event_timeout_t := mk_event_timeout 0 0 Timeout 7.

(** an engine booted inside a window records only the boot slot as voted
    for: the timeout of a later slot of the window makes it cast skip votes for
    the slots below the boot slot too, which its earlier run may have voted to
    notarize. *)
Theorem boot_window_skips_below_boot :
  match @ag_votor_handle_timeout_event sample_bls boot_6 late_timeout with
  | Ok v => queued v = [(4, BSkip); (5, BSkip); (7, BSkip)]
  | Fail _ => False
  end.
Proof. vm_compute. reflexivity. Qed.

(** Slot 9 is finalized: the states below slot 8 are pruned. *)
Definition final_9 : ag_event_pool_t :=
  mk_event_pool 0 0 (CertCreated (CFinal (mk_cert_final 9 ag_bls_agg_zero 0))).

(** pruning starts at the boot slot, so the states that arming the timers
    of the boot window created below the boot slot are never released: they
    stay in the bounded state pool, with their timers, after every later
    finalization. *)
Theorem boot_window_states_leak :
  match @ag_votor_handle_pool_event sample_bls boot_6 final_9 2000 with
  | Ok v => first_unpruned_slot v = 8 /\ vt_root v = 8 /\ is_Some (vt_slot_states v !! 4) /\
      is_Some (vt_slot_states v !! 5) /\ vt_slot_states v !! 6 = None /\ vt_timeout_dlist v = [4; 5; 8; 9; 10; 11]
  | Fail _ => False
  end.
Proof. vm_compute. split_and!; try reflexivity; by eexists. Qed.

(** * Concrete runs *)

Lemma lists_consistent_witness : NoDup (vt_pending_dlist run_4) /\ NoDup (vt_timeout_dlist run_4).
Proof.
  destruct (@lists_consistent sample_bls 4 (mk_config run_4 [] []) run_reachable) as (H1 & H2 & _).
  split; [exact H1|exact H2].
Defined.

Lemma run_4_lists : lists_inv run_4.
Proof. exact (@reachable_lists sample_bls 4 (mk_config run_4 [] []) run_reachable). Qed.

(** At time 10^9 the crashed-leader timer of slot 4 has expired. *)
Lemma poll_timeout_event_spec_witness :
  fires 1000000000 TimeoutCrashedLeader (ele run_4 4) /\
  lists_inv (report (vt_set_now run_4 1000000000) 4 TimeoutCrashedLeader).
Proof.
  pose proof (poll_timeout_event_spec run_4 1000000000 run_4_lists ltac:(reflexivity)) as Hp.
  assert ((ag_votor_poll_timeout_event run_4 1000000000).2
    = Some (mk_event_timeout (vt_seq run_4) 1000000000 TimeoutCrashedLeader 4)) as He by (vm_compute; reflexivity).
  destruct (ag_votor_poll_timeout_event run_4 1000000000) as [v [ev|]]; [|discriminate He].
  apply Some_inj in He. cbn [snd] in He. subst ev. destruct Hp as (_ & _ & Hf & -> & HL).
  cbn [et_slot et_kind] in Hf, HL. split; [exact Hf|exact HL].
Defined.

Lemma timeout_skips_window_witness :
  exists self', @ag_votor_handle_timeout_event sample_bls run_4 (mk_event_timeout 0 0 Timeout 10) = Ok self' /\
    skipped [8; 9; 10; 11] run_4 self'.
Proof.
  destruct (@timeout_skips_window sample_bls run_4 (mk_event_timeout 0 0 Timeout 10)) as (v & Hv & Hs).
  - vm_compute. split; discriminate.
  - vm_compute. split; discriminate.
  - exists v. split; [exact Hv|].
    match type of Hs with context [ if ?b then _ else _ ] => assert (b = false) as Hb by (vm_compute; reflexivity) end.
    rewrite Hb in Hs. exact Hs.
Defined.
