(* ===== verification/Ghost.v ===== *)
(** LMD-GHOST fork choice (src/src/choreo/ghost/fd_ghost.h, fd_ghost.c): the
    tree of blocks with the stake that voted for each subtree, the latest vote
    of each voter, and the choice of the best block.

    A block of the pool is named by its block id, which is unique while the
    block is in the tree: a pool index or pointer to a block is its id, the null
    index and the NULL pointer are [None].  The [next] field only threads the
    queues of the level-order traversals, which are lists here; a block on such
    a queue is out of the map, which the set [out] of the traversals records. *)
From S2P Require Import Prelude VotorBase.

Abbreviation fd_hash_t := (list Z).
Abbreviation fd_pubkey_t := (list Z).

(** [vtrs] is the dlist of the voters whose latest vote is for the block. *)
Record fd_ghost_blk_t := mk_ghost_blk {
  gb_slot : Z;
  gb_parent : option fd_hash_t;
  gb_child : option fd_hash_t;
  gb_sibling : option fd_hash_t;
  gb_stake : Z;
  gb_total_stake : Z;
  gb_valid : bool;
  gb_vtrs : list fd_pubkey_t;
  gb_bank_seq : Z
}.

Record fd_ghost_vtr_t := mk_ghost_vtr {
  gv_prev_stake : Z;
  gv_prev_slot : Z;
  gv_prev_block_id : fd_hash_t
}.

Record fd_ghost_t := mk_ghost {
  gh_root : option fd_hash_t;
  gh_blks : gmap fd_hash_t fd_ghost_blk_t;
  gh_vtrs : gmap fd_pubkey_t fd_ghost_vtr_t;
  gh_width : Z;
  gh_blk_max : Z;
  gh_vtr_max : Z
}.

Definition gh_set_blks (g : fd_ghost_t) m := mk_ghost (gh_root g) m (gh_vtrs g) (gh_width g) (gh_blk_max g) (gh_vtr_max g).
Definition gh_set_vtrs (g : fd_ghost_t) m := mk_ghost (gh_root g) (gh_blks g) m (gh_width g) (gh_blk_max g) (gh_vtr_max g).
Definition gh_set_root (g : fd_ghost_t) r := mk_ghost r (gh_blks g) (gh_vtrs g) (gh_width g) (gh_blk_max g) (gh_vtr_max g).
Definition gh_set_width (g : fd_ghost_t) w := mk_ghost (gh_root g) (gh_blks g) (gh_vtrs g) w (gh_blk_max g) (gh_vtr_max g).

Definition gb_set_links (b : fd_ghost_blk_t) p c s :=
  mk_ghost_blk (gb_slot b) p c s (gb_stake b) (gb_total_stake b) (gb_valid b) (gb_vtrs b) (gb_bank_seq b).
Definition gb_set_stake (b : fd_ghost_blk_t) x :=
  mk_ghost_blk (gb_slot b) (gb_parent b) (gb_child b) (gb_sibling b) x (gb_total_stake b) (gb_valid b) (gb_vtrs b) (gb_bank_seq b).
Definition gb_set_valid (b : fd_ghost_blk_t) x :=
  mk_ghost_blk (gb_slot b) (gb_parent b) (gb_child b) (gb_sibling b) (gb_stake b) (gb_total_stake b) x (gb_vtrs b) (gb_bank_seq b).
Definition gb_set_vtrs (b : fd_ghost_blk_t) x :=
  mk_ghost_blk (gb_slot b) (gb_parent b) (gb_child b) (gb_sibling b) (gb_stake b) (gb_total_stake b) (gb_valid b) x (gb_bank_seq b).

(** Blocks are stored and updated in place. *)
Abbreviation blks := (gmap fd_hash_t fd_ghost_blk_t).
Definition upd_blk (m : blks) (id : fd_hash_t) (f : fd_ghost_blk_t -> fd_ghost_blk_t) : blks := alter f id m.

(** Reading through a pointer. *)
Definition deref {A} (o : option A) : outcome A := match o with Some a => Ok a | None => Fail NullPtr end.

(** * Construction *)

Definition fd_ghost_align : Z := 128.

(** NULL for NULL, misaligned memory and memory outside of a workspace; the
    footprint of a ghost is never zero. *)
Definition fd_ghost_new (shmem blk_max vtr_max : Z) (in_wksp : bool) : option fd_ghost_t :=
  if shmem =? 0 then None
  else if negb (shmem mod fd_ghost_align =? 0) then None
  else if negb in_wksp then None
  else Some (mk_ghost None ∅ ∅ 0 (fd_ulong_pow2_up blk_max) (fd_ulong_pow2_up vtr_max *w 2)).

(** * Accessors *)

Definition fd_ghost_root (g : fd_ghost_t) : option fd_hash_t := gh_root g.
Definition fd_ghost_parent (g : fd_ghost_t) (blk : fd_hash_t) : option fd_hash_t := gh_blks g !! blk ≫= gb_parent.
Definition fd_ghost_query (g : fd_ghost_t) (block_id : fd_hash_t) : option fd_hash_t :=
  if bool_decide (is_Some (gh_blks g !! block_id)) then Some block_id else None.
Definition fd_ghost_width (g : fd_ghost_t) : Z := gh_width g.

(** Every loop over the tree visits a block at most once. *)
Definition tree_fuel (m : blks) : nat := S (size m).

(** The heaviest of two valid children; the lower slot on equal stake. *)
Definition heavier (child best : fd_ghost_blk_t) : bool :=
  if gb_stake child =? gb_stake best then gb_slot child <? gb_slot best else gb_stake best <? gb_stake child.

(** The inner loop over the children: [valid] says whether [best] is a child. *)
Fixpoint best_child (fuel : nat) (m : blks) (child : option fd_hash_t) (best : fd_hash_t) (valid : bool)
    : outcome (fd_hash_t * bool) :=
  match child with
  | None => Ok (best, valid)
  | Some c =>
      match fuel with
      | O => Fail Diverge
      | S k =>
          cb ← deref (m !! c);
          bv ← (if gb_valid cb then
                  let best := if valid then best else c in
                  bb ← deref (m !! best);
                  Ok (if heavier cb bb then c else best, true)
                else Ok (best, valid));
          best_child k m (gb_sibling cb) bv.1 bv.2
      end
  end.

Fixpoint best_walk (fuel : nat) (m : blks) (best : fd_hash_t) : outcome fd_hash_t :=
  match fuel with
  | O => Fail Diverge
  | S k =>
      b ← deref (m !! best);
      match gb_child b with
      | None => Ok best
      | Some _ =>
          r ← best_child (tree_fuel m) m (gb_child b) best false;
          if (r.2 : bool) then best_walk k m r.1 else Ok r.1
      end
  end.

Definition fd_ghost_best (g : fd_ghost_t) (root : fd_hash_t) : outcome fd_hash_t :=
  best_walk (tree_fuel (gh_blks g)) (gh_blks g) root.

(** Pushes the children that [keep] keeps on the queue, taking them out of the
    map; counts the siblings stepped to. *)
Fixpoint push_children (fuel : nat) (e : abort) (keep : fd_hash_t -> bool) (m : blks) (out : gset fd_hash_t)
    (child : option fd_hash_t) (queue : list fd_hash_t) (steps : Z)
    : outcome (gset fd_hash_t * list fd_hash_t * Z) :=
  match child with
  | None => Ok (out, queue, steps)
  | Some c =>
      match fuel with
      | O => Fail Diverge
      | S k =>
          cb ← deref (m !! c);
          oq ← (if keep c then
                  check e (negb (bool_decide (c ∈ out)));;
                  Ok ({[c]} ∪ out, queue ++ [c])
                else Ok (out, queue));
          push_children k e keep m oq.1 (gb_sibling cb) oq.2
            (match gb_sibling cb with Some _ => steps + 1 | None => steps end)
      end
  end.

(** Level order; the head goes back into the map when it is popped. *)
Fixpoint deepest_walk (fuel : nat) (m : blks) (out : gset fd_hash_t) (queue : list fd_hash_t) (prev : option fd_hash_t)
    : outcome (option fd_hash_t) :=
  match queue with
  | [] => Ok prev
  | head :: queue =>
      match fuel with
      | O => Fail Diverge
      | S k =>
          b ← deref (m !! head);
          r ← push_children (tree_fuel m) FdTest (fun _ => true) m out (gb_child b) queue 0;
          deepest_walk k m (r.1.1 ∖ {[head]}) r.1.2 (Some head)
      end
  end.

Definition fd_ghost_deepest (g : fd_ghost_t) (root : fd_hash_t) : outcome (option fd_hash_t) :=
  check NullPtr (bool_decide (is_Some (gh_blks g !! root)));;
  deepest_walk (tree_fuel (gh_blks g)) (gh_blks g) {[root]} [root] None.

(** The first ancestor, from [descendant] on, with a property. *)
Fixpoint predicate_ancestor (fuel : nat) (m : blks) (p : fd_hash_t -> fd_ghost_blk_t -> bool) (ancestor : option fd_hash_t)
    : outcome (option fd_hash_t) :=
  match ancestor with
  | None => Ok None
  | Some a =>
      match fuel with
      | O => Fail Diverge
      | S k =>
          b ← deref (m !! a);
          if p a b then Ok (Some a) else predicate_ancestor k m p (gb_parent b)
      end
  end.

Definition fd_ghost_ancestor (g : fd_ghost_t) (descendant ancestor_id : fd_hash_t) : outcome (option fd_hash_t) :=
  predicate_ancestor (tree_fuel (gh_blks g)) (gh_blks g) (fun a _ => bool_decide (a = ancestor_id)) (Some descendant).
Definition fd_ghost_slot_ancestor (g : fd_ghost_t) (descendant : fd_hash_t) (slot : Z) : outcome (option fd_hash_t) :=
  predicate_ancestor (tree_fuel (gh_blks g)) (gh_blks g) (fun _ b => gb_slot b =? slot) (Some descendant).
Definition fd_ghost_invalid_ancestor (g : fd_ghost_t) (descendant : fd_hash_t) : outcome (option fd_hash_t) :=
  predicate_ancestor (tree_fuel (gh_blks g)) (gh_blks g) (fun _ b => negb (gb_valid b)) (Some descendant).

(** Other traversals take blocks out of the map and put them back themselves. *)
Definition fd_ghost_blk_map_remove (out : gset fd_hash_t) (blk : fd_hash_t) : gset fd_hash_t := {[blk]} ∪ out.
Definition fd_ghost_blk_map_insert (out : gset fd_hash_t) (blk : fd_hash_t) : gset fd_hash_t := out ∖ {[blk]}.

(** * Insertion *)

Definition insert_blk (g : fd_ghost_t) (bank_seq slot : Z) (block_id : fd_hash_t) : outcome fd_ghost_t :=
  check FdTest (negb (bool_decide (is_Some (gh_blks g !! block_id))));;
  check FdTest (Z.of_nat (size (gh_blks g)) <? gh_blk_max g);;
  Ok (gh_set_blks g (<[block_id := mk_ghost_blk slot None None None 0 0 true [] bank_seq]> (gh_blks g))).

Definition fd_ghost_init (g : fd_ghost_t) (bank_seq slot : Z) (block_id : fd_hash_t) : outcome fd_ghost_t :=
  g ← insert_blk g bank_seq slot block_id;
  Ok (gh_set_width (gh_set_root g (Some block_id)) 1).

(** [while( sibling->sibling != null ) sibling = sibling->sibling] *)
Fixpoint last_sibling (fuel : nat) (m : blks) (s : fd_hash_t) : outcome fd_hash_t :=
  match fuel with
  | O => Fail Diverge
  | S k =>
      b ← deref (m !! s);
      match gb_sibling b with None => Ok s | Some s' => last_sibling k m s' end
  end.

Definition set_parent (p : option fd_hash_t) (b : fd_ghost_blk_t) := gb_set_links b p (gb_child b) (gb_sibling b).
Definition set_child (c : option fd_hash_t) (b : fd_ghost_blk_t) := gb_set_links b (gb_parent b) c (gb_sibling b).
Definition set_sibling (s : option fd_hash_t) (b : fd_ghost_blk_t) := gb_set_links b (gb_parent b) (gb_child b) s.

Definition fd_ghost_insert (g : fd_ghost_t) (bank_seq slot : Z) (block_id parent_block_id : fd_hash_t) : outcome fd_ghost_t :=
  g ← insert_blk g bank_seq slot block_id;
  match gh_blks g !! parent_block_id with
  | None => Fail FdTest
  | Some _ =>
      let m := upd_blk (gh_blks g) block_id (set_parent (Some parent_block_id)) in
      parent ← deref (m !! parent_block_id);
      match gb_child parent with
      | None => Ok (gh_set_blks g (upd_blk m parent_block_id (set_child (Some block_id))))
      | Some c =>
          s ← last_sibling (tree_fuel m) m c;
          Ok (gh_set_width (gh_set_blks g (upd_blk m s (set_sibling (Some block_id)))) (gh_width g +w 1))
      end
  end.

(** * Votes *)

Inductive ghost_err := FD_GHOST_SUCCESS | FD_GHOST_ERR_NOT_VOTED | FD_GHOST_ERR_VOTE_TOO_OLD | FD_GHOST_ERR_ALREADY_VOTED.
#[export] Instance ghost_err_eq_dec : EqDecision ghost_err.
Proof. solve_decision. Defined.

(** Adds to, or subtracts from, the stakes of a block and its ancestors, with
    the overflow checks of [__builtin_uaddl_overflow] and [__builtin_usubl_overflow]. *)
Fixpoint sub_stake (fuel : nat) (m : blks) (ancestor : option fd_hash_t) (stake : Z) : outcome blks :=
  match ancestor with
  | None => Ok m
  | Some a =>
      match fuel with
      | O => Fail Diverge
      | S k =>
          b ← deref (m !! a);
          check LogCrit (stake <=? gb_stake b);;
          sub_stake k (<[a := gb_set_stake b (gb_stake b - stake)]> m) (gb_parent b) stake
      end
  end.

Fixpoint add_stake (fuel : nat) (m : blks) (ancestor : option fd_hash_t) (stake : Z) : outcome blks :=
  match ancestor with
  | None => Ok m
  | Some a =>
      match fuel with
      | O => Fail Diverge
      | S k =>
          b ← deref (m !! a);
          check LogCrit (gb_stake b + stake <=? ULONG_MAX);;
          add_stake k (<[a := gb_set_stake b (gb_stake b + stake)]> m) (gb_parent b) stake
      end
  end.

Definition dlist_del (v : fd_pubkey_t) (l : list fd_pubkey_t) : list fd_pubkey_t := filter (fun w => w <> v) l.

Definition fd_ghost_count_vote (g : fd_ghost_t) (blk : fd_hash_t) (vote_acc : fd_pubkey_t) (stake slot : Z)
    : outcome (fd_ghost_t * ghost_err) :=
  root ← deref (gh_root g ≫= fun r => gh_blks g !! r);
  if slot =? ULONG_MAX then Ok (g, FD_GHOST_ERR_NOT_VOTED)
  else if slot <? gb_slot root then Ok (g, FD_GHOST_ERR_VOTE_TOO_OLD)
  else
    let finish (m : blks) :=
      m ← add_stake (tree_fuel m) (upd_blk m blk (fun b => gb_set_vtrs b (gb_vtrs b ++ [vote_acc]))) (Some blk) stake;
      Ok (gh_set_vtrs (gh_set_blks g m) (<[vote_acc := mk_ghost_vtr stake slot blk]> (gh_vtrs g)), FD_GHOST_SUCCESS) in
    match gh_vtrs g !! vote_acc with
    | None =>
        check OutOfBounds (Z.of_nat (size (gh_vtrs g)) <? gh_vtr_max g);;
        finish (gh_blks g)
    | Some vtr =>
        if slot <=? gv_prev_slot vtr then Ok (g, FD_GHOST_ERR_ALREADY_VOTED)
        else
          match fd_ghost_query g (gv_prev_block_id vtr) with
          | None => finish (gh_blks g)
          | Some prev =>
              let m := upd_blk (gh_blks g) prev (fun b => gb_set_vtrs b (dlist_del vote_acc (gb_vtrs b))) in
              m ← sub_stake (tree_fuel m) m (Some prev) (gv_prev_stake vtr);
              finish m
          end
    end.

(** * Publishing a new root *)

(** Prunes the blocks of the queue and what hangs below them, except [newr]. *)
Fixpoint prune_walk (fuel : nat) (newr : fd_hash_t) (g : fd_ghost_t) (out : gset fd_hash_t) (queue : list fd_hash_t)
    : outcome fd_ghost_t :=
  match queue with
  | [] => Ok g
  | head :: queue =>
      match fuel with
      | O => Fail Diverge
      | S k =>
          b ← deref (gh_blks g !! head);
          r ← push_children (tree_fuel (gh_blks g)) NullPtr (fun c => negb (bool_decide (c = newr))) (gh_blks g) out
                (gb_child b) queue 0;
          let g := gh_set_width g (gh_width g -w r.2) in
          let g := gh_set_vtrs g (foldl (fun vs v => delete v vs) (gh_vtrs g) (gb_vtrs b)) in
          prune_walk k newr (gh_set_blks g (delete head (gh_blks g))) r.1.1 r.1.2
      end
  end.

Definition fd_ghost_publish (g : fd_ghost_t) (newr : fd_hash_t) : outcome fd_ghost_t :=
  oldr ← deref (gh_root g);
  if bool_decide (oldr = newr) then Ok g else
  g ← prune_walk (tree_fuel (gh_blks g)) newr g {[oldr]} [oldr];
  Ok (gh_set_root (gh_set_blks g (upd_blk (gh_blks g) newr (fun b => gb_set_links b None (gb_child b) None))) (Some newr)).

(** * Equivocation *)

(** Step 3: up to an ancestor with a right sibling, or to the root. *)
Fixpoint backtrack (fuel : nat) (m : blks) (root curr : fd_hash_t) : outcome fd_hash_t :=
  if bool_decide (curr = root) then Ok curr else
  match fuel with
  | O => Fail Diverge
  | S k =>
      b ← deref (m !! curr);
      match gb_sibling b with
      | Some s => Ok s
      | None => p ← deref (gb_parent b); backtrack k m root p
      end
  end.

Fixpoint mark_walk (fuel : nat) (m : blks) (root curr : fd_hash_t) : outcome blks :=
  match fuel with
  | O => Fail Diverge
  | S k =>
      b ← deref (m !! curr);
      let m := <[curr := gb_set_valid b false]> m in
      match gb_child b with
      | Some c => mark_walk k m root c
      | None =>
          c ← backtrack (tree_fuel m) m root curr;
          if bool_decide (c = root) then Ok m else mark_walk k m root c
      end
  end.

Definition mark_invalid (g : fd_ghost_t) (root : fd_hash_t) : outcome fd_ghost_t :=
  m ← mark_walk (tree_fuel (gh_blks g)) (gh_blks g) root root; Ok (gh_set_blks g m).

Fixpoint confirm_walk (fuel : nat) (m : blks) (anc : option fd_hash_t) : outcome blks :=
  match anc with
  | None => Ok m
  | Some a =>
      match fuel with
      | O => Fail Diverge
      | S k =>
          b ← deref (m !! a);
          if gb_valid b then Ok m else confirm_walk k (<[a := gb_set_valid b true]> m) (gb_parent b)
      end
  end.

Definition fd_ghost_confirm (g : fd_ghost_t) (confirmed_block_id : fd_hash_t) : outcome fd_ghost_t :=
  match fd_ghost_query g confirmed_block_id with
  | None => Ok g
  | Some blk => m ← confirm_walk (tree_fuel (gh_blks g)) (gh_blks g) (Some blk); Ok (gh_set_blks g m)
  end.

Definition fd_ghost_eqvoc (g : fd_ghost_t) (block_id : fd_hash_t) : outcome fd_ghost_t :=
  match fd_ghost_query g block_id with
  | None => Ok g
  | Some blk => mark_invalid g blk
  end.
