(* ===== verification/GhostTree.v ===== *)
(** The shape of the ghost tree: the left-child right-sibling pointers encode a
    tree of block ids, and walking them visits what the tree says. *)
From S2P Require Import Prelude VotorBase Ghost.

(** * Trees of block ids *)

Inductive tree := Node (x : fd_hash_t) (ts : list tree).

Definition tid (t : tree) : fd_hash_t := match t with Node x _ => x end.
Definition kids (t : tree) : list tree := match t with Node _ ts => ts end.

Fixpoint ids (t : tree) : list fd_hash_t := match t with Node x ts => x :: concat (map ids ts) end.
Abbreviation fids ts := (concat (map ids ts)).

Lemma tree_rect' (P : tree -> Prop) :
  (forall x ts, Forall P ts -> P (Node x ts)) -> forall t, P t.
Proof.
  intros HN. fix go 1. intros [x ts]. apply HN. induction ts as [|t ts IH]; constructor; [apply go|exact IH].
Qed.

(** The first id of a list of siblings. *)
Definition hd_id (ts : list tree) : option fd_hash_t := tid <$> head ts.

(** * Pointers that encode a tree *)

Section Links.
Variable m : blks.

Fixpoint links (par sib : option fd_hash_t) (t : tree) : Prop :=
  match t with
  | Node x ts =>
      (exists b, m !! x = Some b /\ gb_parent b = par /\ gb_sibling b = sib /\ gb_child b = hd_id ts) /\
      (fix forest ts := match ts with [] => True | t :: ts' => links (Some x) (hd_id ts') t /\ forest ts' end) ts
  end.

Fixpoint forest (par : option fd_hash_t) (ts : list tree) : Prop :=
  match ts with
  | [] => True
  | t :: ts' => links par (hd_id ts') t /\ forest par ts'
  end.

Lemma links_node par sib x ts :
  links par sib (Node x ts) <->
  (exists b, m !! x = Some b /\ gb_parent b = par /\ gb_sibling b = sib /\ gb_child b = hd_id ts) /\ forest (Some x) ts.
Proof. cbn. f_equiv. induction ts as [|t ts IH]; cbn; [done|]. by rewrite IH. Qed.

Lemma links_root par sib t :
  links par sib t -> exists b, m !! tid t = Some b /\ gb_parent b = par /\ gb_sibling b = sib /\ gb_child b = hd_id (kids t).
Proof. destruct t as [x ts]. by intros [Hb _]%links_node. Qed.

Lemma links_kids par sib t : links par sib t -> forest (Some (tid t)) (kids t).
Proof. destruct t as [x ts]. by intros [_ Hf]%links_node. Qed.

Lemma forest_app par ts1 ts2 t :
  forest par (ts1 ++ t :: ts2) -> links par (hd_id ts2) t /\ forest par (t :: ts2).
Proof. induction ts1 as [|t1 ts1 IH]; cbn; [tauto|]. intros [_ Hf]. by apply IH. Qed.

Lemma forest_tail par ts1 ts2 : forest par (ts1 ++ ts2) -> forest par ts2.
Proof. induction ts1 as [|t1 ts1 IH]; [done|]. cbn. intros [_ Hf]. by apply IH. Qed.

Lemma links_dom par sib t x : links par sib t -> x ∈ ids t -> is_Some (m !! x).
Proof.
  revert par sib. induction t as [y ts IH] using tree_rect'. intros par sib [(b & Hb & _) Hf]%links_node Hx.
  cbn in Hx. apply elem_of_cons in Hx as [->|Hx]; [by exists b|].
  revert Hf Hx. induction IH as [|t ts Ht _ IHts]; cbn; [by intros _ ?%not_elem_of_nil|].
  intros [Hl Hf] [Hx|Hx]%elem_of_app; [by eapply Ht|by apply IHts].
Qed.
End Links.

(** Links depend only on the pointers of the tree's own blocks. *)
Definition same_links (b b' : fd_ghost_blk_t) : Prop :=
  gb_parent b' = gb_parent b /\ gb_child b' = gb_child b /\ gb_sibling b' = gb_sibling b.

Lemma links_ext m m' par sib t :
  (forall x b, x ∈ ids t -> m !! x = Some b -> exists b', m' !! x = Some b' /\ same_links b b') ->
  links m par sib t -> links m' par sib t.
Proof.
  revert par sib. induction t as [x ts IH] using tree_rect'. intros par sib Hm.
  rewrite !links_node. intros [(b & Hb & H1 & H2 & H3) Hf]. split.
  - destruct (Hm x b ltac:(cbn; by left) Hb) as (b' & Hb' & E1 & E2 & E3). exists b'. split; [done|]. by rewrite E1, E2, E3.
  - assert (forall y b, y ∈ fids ts -> m !! y = Some b -> exists b', m' !! y = Some b' /\ same_links b b') as Hm'
      by (intros y b0 Hy; apply Hm; cbn; by right).
    clear Hm Hb H1 H2 H3 b. revert Hf Hm'. induction IH as [|t ts Ht _ IHts]; cbn; [done|]. intros [Hl Hf] Hm'. split.
    + apply Ht; [|done]. intros y b Hy. apply Hm'. apply elem_of_app. by left.
    + apply IHts; [done|]. intros y b Hy. apply Hm'. apply elem_of_app. by right.
Qed.

Lemma forest_ext m m' par ts :
  (forall x b, x ∈ fids ts -> m !! x = Some b -> exists b', m' !! x = Some b' /\ same_links b b') ->
  forest m par ts -> forest m' par ts.
Proof.
  induction ts as [|t ts IH]; cbn; [done|]. intros Hm [Hl Hf]. split.
  - eapply links_ext; [|exact Hl]. intros x b Hx. apply Hm. apply elem_of_app. by left.
  - apply IH; [|done]. intros x b Hx. apply Hm. apply elem_of_app. by right.
Qed.

(** * Ancestors *)

(** From [x] up to the root of the tree. *)
Fixpoint rpath (t : tree) (x : fd_hash_t) : option (list fd_hash_t) :=
  match t with
  | Node y ts =>
      if bool_decide (x = y) then Some [y]
      else (fix first ts := match ts with
            | [] => None
            | t :: ts' => match rpath t x with Some l => Some (l ++ [y]) | None => first ts' end
            end) ts
  end.
Fixpoint fpath (ts : list tree) (x : fd_hash_t) : option (list fd_hash_t) :=
  match ts with
  | [] => None
  | t :: ts' => match rpath t x with Some l => Some l | None => fpath ts' x end
  end.

Lemma rpath_node y ts x :
  rpath (Node y ts) x = if bool_decide (x = y) then Some [y] else (fun l => l ++ [y]) <$> fpath ts x.
Proof.
  cbn. case_bool_decide; [done|]. induction ts as [|t ts IH]; cbn; [done|]. destruct (rpath t x); cbn; [done|]. exact IH.
Qed.

Lemma rpath_ids t x : is_Some (rpath t x) <-> x ∈ ids t.
Proof.
  induction t as [y ts IH] using tree_rect'. rewrite rpath_node. cbn. rewrite elem_of_cons. case_bool_decide as E.
  - split; [by left|by eexists].
  - rewrite fmap_is_Some. assert (is_Some (fpath ts x) <-> x ∈ fids ts) as ->; [|naive_solver].
    induction IH as [|t ts Ht _ IHts]; cbn.
    + split; [by intros [? ?]|by intros ?%not_elem_of_nil].
    + rewrite elem_of_app, <- Ht, <- IHts. destruct (rpath t x) as [l|]; [split; [by left|by eexists]|].
      split; [by right|]. intros [[? ?]|?]; done.
Qed.

(** A chain of parent pointers from [o], through [l], to [o']. *)
Fixpoint chain (m : blks) (o : option fd_hash_t) (l : list fd_hash_t) (o' : option fd_hash_t) : Prop :=
  match l with
  | [] => o = o'
  | a :: l' => o = Some a /\ exists b, m !! a = Some b /\ chain m (gb_parent b) l' o'
  end.

Lemma chain_app m o l1 l2 o1 o2 : chain m o l1 o1 -> chain m o1 l2 o2 -> chain m o (l1 ++ l2) o2.
Proof.
  revert o. induction l1 as [|a l1 IH]; cbn; [by intros o ->|]. intros o [-> (b & Hb & Hc)] H2. split; [done|].
  exists b. split; [done|]. by apply IH.
Qed.

Lemma rpath_chain m par sib t x l :
  links m par sib t -> rpath t x = Some l -> chain m (Some x) l par.
Proof.
  revert par sib l. induction t as [y ts IH] using tree_rect'. intros par sib l [(b & Hb & Hp & _) Hf]%links_node.
  rewrite rpath_node. case_bool_decide as E.
  - intros [= <-]. subst y. cbn. split; [done|]. exists b. by split.
  - intros (l1 & E1 & ->)%fmap_Some. apply (chain_app m _ l1 [y] (Some y)).
    + revert Hf E1. induction IH as [|t ts Ht _ IHts]; cbn; [done|]. intros [Hl Hf].
      destruct (rpath t x) as [l2|] eqn:Et; [intros [= ->]; by eapply Ht|by apply IHts].
    + cbn. split; [done|]. exists b. by split.
Qed.

Lemma rpath_sub t x l : rpath t x = Some l -> forall y, y ∈ l -> y ∈ ids t.
Proof.
  revert l. induction t as [z ts IH] using tree_rect'. intros l. rewrite rpath_node. case_bool_decide as E.
  - intros [= <-] y ->%list_elem_of_singleton. cbn. by left.
  - intros (l1 & E1 & ->)%fmap_Some y [Hy| ->%list_elem_of_singleton]%elem_of_app; cbn; [right|by left].
    revert E1. induction IH as [|t ts Ht _ IHts]; cbn; [done|]. intros Ep. apply elem_of_app.
    destruct (rpath t x) as [l2|] eqn:Et; [injection Ep as ->; left; by eapply Ht|right; by apply IHts].
Qed.

Lemma rpath_nodup t x l : NoDup (ids t) -> rpath t x = Some l -> NoDup l.
Proof.
  revert l. induction t as [z ts IH] using tree_rect'. cbn [ids]. intros l [Hz Hnd]%NoDup_cons. rewrite rpath_node. case_bool_decide as E.
  - intros [= <-]. apply NoDup_singleton.
  - intros (l1 & E1 & ->)%fmap_Some.
    assert (NoDup l1 /\ forall y, y ∈ l1 -> y ∈ fids ts) as [H1 H2].
    { clear Hz. revert E1 Hnd. induction IH as [|t ts Ht _ IHts]; cbn; [done|]. intros Ep (N1 & _ & N2)%NoDup_app.
      destruct (rpath t x) as [l2|] eqn:Et.
      - injection Ep as ->. split; [by apply Ht|]. intros y Hy. apply elem_of_app. left. by eapply rpath_sub.
      - destruct (IHts Ep N2) as [A B]. split; [done|]. intros y Hy. apply elem_of_app. right. by apply B. }
    apply NoDup_app. split_and!; [done| |apply NoDup_singleton]. intros y Hy ->%list_elem_of_singleton. by apply Hz, H2.
Qed.

(** * Subtrees *)

Fixpoint sub (t : tree) (x : fd_hash_t) : option tree :=
  match t with
  | Node y ts =>
      if bool_decide (x = y) then Some t
      else (fix first ts := match ts with
            | [] => None
            | t :: ts' => match sub t x with Some s => Some s | None => first ts' end
            end) ts
  end.
Fixpoint fsub (ts : list tree) (x : fd_hash_t) : option tree :=
  match ts with
  | [] => None
  | t :: ts' => match sub t x with Some s => Some s | None => fsub ts' x end
  end.

Lemma sub_node y ts x : sub (Node y ts) x = if bool_decide (x = y) then Some (Node y ts) else fsub ts x.
Proof.
  cbn. case_bool_decide; [done|]. induction ts as [|t ts IH]; cbn; [done|]. destruct (sub t x); cbn; [done|]. exact IH.
Qed.

Lemma fsub_Some ts x s : fsub ts x = Some s -> exists t, t ∈ ts /\ sub t x = Some s.
Proof.
  induction ts as [|t ts IH]; cbn; [done|]. destruct (sub t x) as [s'|] eqn:E.
  - intros [= ->]. exists t. split; [by left|done].
  - intros H. destruct (IH H) as (t' & Ht & Es). exists t'. split; [by right|done].
Qed.

Lemma fids_elem ts x : x ∈ fids ts <-> exists t, t ∈ ts /\ x ∈ ids t.
Proof.
  induction ts as [|t ts IH]; cbn.
  - split; [by intros ?%not_elem_of_nil|by intros (? & ?%not_elem_of_nil & _)].
  - rewrite elem_of_app, IH. setoid_rewrite elem_of_cons. naive_solver.
Qed.

Lemma sub_tid t x s : sub t x = Some s -> tid s = x.
Proof.
  revert s. induction t as [y ts IH] using tree_rect'. intros s. rewrite sub_node. case_bool_decide as E; [by intros [= <-]|].
  intros (t & Ht & Es)%fsub_Some. by eapply Forall_forall in IH; [apply IH|].
Qed.

Lemma sub_ids t x s y : sub t x = Some s -> y ∈ ids s -> y ∈ ids t.
Proof.
  revert s. induction t as [z ts IH] using tree_rect'. intros s. rewrite sub_node. case_bool_decide as E; [by intros [= <-]|].
  intros (t & Ht & Es)%fsub_Some Hy. cbn [ids]. right. apply fids_elem. exists t. split; [done|].
  by eapply Forall_forall in IH; [eapply IH|].
Qed.

Lemma sub_is_Some t x : x ∈ ids t -> is_Some (sub t x).
Proof.
  induction t as [y ts IH] using tree_rect'. cbn [ids]. rewrite elem_of_cons, sub_node. case_bool_decide as E; [by eexists|].
  intros [?|Hx]; [done|]. revert Hx. induction IH as [|t ts Ht _ IHts]; cbn; [by intros ?%not_elem_of_nil|].
  intros [Hx|Hx]%elem_of_app; destruct (sub t x) eqn:Et; try by eexists.
  - by apply Ht in Hx as [? ?].
  - by apply IHts.
Qed.

Lemma sub_self t : sub t (tid t) = Some t.
Proof. destruct t as [x ts]. rewrite sub_node. by rewrite bool_decide_true. Qed.

Lemma forest_elem m par ts t : forest m par ts -> t ∈ ts -> exists sib, links m par sib t.
Proof.
  induction ts as [|t' ts IH]; cbn; [by intros _ ?%not_elem_of_nil|]. intros [Hl Hf] [->|Ht]%elem_of_cons; [by eexists|by apply IH].
Qed.

Lemma sub_links m par sib t x s : links m par sib t -> sub t x = Some s -> exists par' sib', links m par' sib' s.
Proof.
  revert par sib s. induction t as [y ts IH] using tree_rect'. intros par sib s Hl. rewrite sub_node.
  case_bool_decide as E; [by intros [= <-]; eauto|]. intros (t & Ht & Es)%fsub_Some.
  destruct (forest_elem m (Some y) ts t (links_kids _ _ _ _ Hl) Ht) as [sib' Hl'].
  eapply Forall_forall in IH; [by eapply IH|done].
Qed.

Lemma NoDup_fids_elem ts t : NoDup (fids ts) -> t ∈ ts -> NoDup (ids t).
Proof.
  induction ts as [|t' ts IH]; cbn; [by intros _ ?%not_elem_of_nil|].
  intros (H1 & _ & H2)%NoDup_app [->|Ht]%elem_of_cons; [done|by apply IH].
Qed.

Lemma sub_nodup t x s : NoDup (ids t) -> sub t x = Some s -> NoDup (ids s).
Proof.
  revert s. induction t as [y ts IH] using tree_rect'. intros s Hnd. rewrite sub_node.
  case_bool_decide as E; [by intros [= <-]|]. intros (t & Ht & Es)%fsub_Some. cbn [ids] in Hnd. apply NoDup_cons in Hnd as [_ Hnd].
  eapply Forall_forall in IH; [eapply IH; [|done]|done]. by eapply NoDup_fids_elem.
Qed.

(** The ancestors of a block, itself included. *)
Definition anc (t : tree) (x : fd_hash_t) : list fd_hash_t := default [] (rpath t x).

Lemma anc_node y ts x : anc (Node y ts) x = if bool_decide (x = y) then [y] else match fpath ts x with Some l => l ++ [y] | None => [] end.
Proof. unfold anc. rewrite rpath_node. case_bool_decide; [done|]. by destruct (fpath ts x). Qed.

Lemma rpath_None t x : x ∉ ids t -> rpath t x = None.
Proof. rewrite <- rpath_ids, <- eq_None_not_Some. done. Qed.

Lemma fpath_elem ts t x : NoDup (fids ts) -> t ∈ ts -> x ∈ ids t -> fpath ts x = rpath t x.
Proof.
  induction ts as [|t' ts IH]; cbn; [by intros _ ?%not_elem_of_nil|].
  intros (H1 & Hd & H2)%NoDup_app [->|Ht]%elem_of_cons Hx.
  - apply rpath_ids in Hx as [l ->]. done.
  - rewrite (rpath_None t' x); [by apply IH|]. intros Hx'. apply (Hd x Hx'). apply fids_elem. eauto.
Qed.

Lemma fpath_None ts x : x ∉ fids ts -> fpath ts x = None.
Proof.
  induction ts as [|t ts IH]; cbn; [done|]. rewrite not_elem_of_app. intros [H1 H2]. rewrite (rpath_None t x H1). by apply IH.
Qed.

Lemma fsub_elem ts t x : NoDup (fids ts) -> t ∈ ts -> x ∈ ids t -> fsub ts x = sub t x.
Proof.
  induction ts as [|t' ts IH]; cbn; [by intros _ ?%not_elem_of_nil|].
  intros (H1 & Hd & H2)%NoDup_app [->|Ht]%elem_of_cons Hx.
  - destruct (sub_is_Some t' x Hx) as [s ->]. done.
  - destruct (sub t' x) as [s|] eqn:E; [|by apply IH].
    destruct (Hd x); [|apply fids_elem; eauto]. eapply sub_ids; [done|]. rewrite <- (sub_tid _ _ _ E). destruct s; cbn. by left.
Qed.

Lemma anc_sub t x y : y ∈ anc t x -> y ∈ ids t.
Proof. unfold anc. destruct (rpath t x) as [l|] eqn:E; cbn; [by eapply rpath_sub|by intros ?%not_elem_of_nil]. Qed.

Lemma anc_dom t x y : y ∈ anc t x -> x ∈ ids t.
Proof. unfold anc. destruct (rpath t x) eqn:E; cbn; [intros _; apply rpath_ids; by eexists|by intros ?%not_elem_of_nil]. Qed.

Lemma anc_root t x : x ∈ ids t -> tid t ∈ anc t x.
Proof.
  destruct t as [y ts]. rewrite <- rpath_ids. unfold anc. rewrite rpath_node. case_bool_decide; [by left|].
  intros [l E]. rewrite E. apply fmap_Some in E as (l1 & _ & ->). cbn. apply elem_of_app. right. by left.
Qed.

(** In a forest without repetitions an id is in one tree only. *)
Lemma fids_same ts t t' y : NoDup (fids ts) -> t ∈ ts -> t' ∈ ts -> y ∈ ids t -> y ∈ ids t' -> t = t'.
Proof.
  induction ts as [|t0 ts IH]; cbn; [by intros _ ?%not_elem_of_nil|].
  intros (N1 & Hd & N2)%NoDup_app [->|Ht]%elem_of_cons [E0|Ht']%elem_of_cons Hy Hy'; subst; [done| | |by apply IH].
  - destruct (Hd y Hy). apply fids_elem. eauto.
  - destruct (Hd y Hy'). apply fids_elem. eauto.
Qed.

(** An ancestor inside a subtree is an ancestor in the subtree. *)
Lemma anc_in_sub t x s y p :
  NoDup (ids t) -> sub t x = Some s -> y ∈ ids s -> (y ∈ anc t p <-> y ∈ anc s p).
Proof.
  revert s. induction t as [z ts IH] using tree_rect'. intros s Hnd. rewrite sub_node.
  case_bool_decide as E; [by intros [= <-]|]. intros (t & Ht & Es)%fsub_Some Hy.
  cbn [ids] in Hnd. apply NoDup_cons in Hnd as [Hz Hnd].
  assert (y ∈ ids t) as Hyt by by eapply sub_ids.
  assert (y <> z) as Hyz by (intros ->; apply Hz, fids_elem; eauto).
  eapply Forall_forall in IH; [|exact Ht]. rewrite <- (IH s (NoDup_fids_elem _ _ Hnd Ht) Es Hy). rewrite anc_node.
  case_bool_decide as Ep.
  - subst p. split; [by intros ->%list_elem_of_singleton|]. intros H%anc_dom. destruct Hz. apply fids_elem. eauto.
  - destruct (decide (p ∈ ids t)) as [Hp|Hp].
    + rewrite (fpath_elem ts t p Hnd Ht Hp). unfold anc. apply rpath_ids in Hp as [l ->]. cbn.
      rewrite elem_of_app, list_elem_of_singleton. tauto.
    + split; [|by intros ?%anc_dom]. destruct (fpath ts p) as [l|] eqn:Ef; [|by intros ?%not_elem_of_nil].
      intros [Hl|Hl%list_elem_of_singleton]%elem_of_app; [|done]. exfalso.
      assert (p ∈ fids ts) as Hpf by (destruct (decide (p ∈ fids ts)) as [|H]; [done|by rewrite fpath_None in Ef]).
      apply fids_elem in Hpf as (t' & Ht' & Hp'). rewrite (fpath_elem ts t' p Hnd Ht' Hp') in Ef.
      pose proof (rpath_sub _ _ _ Ef y Hl) as Hyt'.
      by rewrite (fids_same ts t t' y Hnd Ht Ht' Hyt Hyt') in Hp.
Qed.

(** The descendants of a block are the blocks it is an ancestor of. *)
Lemma anc_sub_ids t x s p : NoDup (ids t) -> sub t x = Some s -> (x ∈ anc t p <-> p ∈ ids s).
Proof.
  intros Hnd Es. pose proof (sub_tid _ _ _ Es) as <-.
  rewrite (anc_in_sub t (tid s) s (tid s) p Hnd Es) by (destruct s; cbn; by left).
  split; [apply anc_dom|apply anc_root].
Qed.
