(* ===== verification/GhostInv.v ===== *)
(** The invariants of the ghost: the blocks form a tree, the voters hang on the
    blocks they last voted for, and the stake of a block is the stake of the
    latest votes for it and its descendants. *)
From S2P Require Import Prelude VotorBase Ghost GhostTree.

(** * The tree *)

(** A fork with [k] children counts [k-1] times. *)
Fixpoint forks (t : tree) : Z :=
  match t with Node _ ts => Z.of_nat (Nat.pred (length ts)) + lsum forks ts end.
Fixpoint leaves (t : tree) : Z :=
  match t with Node _ [] => 1 | Node _ ts => lsum leaves ts end.

Lemma leaves_forks t : leaves t = 1 + forks t.
Proof.
  induction t as [x ts IH] using tree_rect'. destruct ts as [|t0 ts]; [done|].
  change (lsum leaves (t0 :: ts) = 1 + (Z.of_nat (length ts) + lsum forks (t0 :: ts))).
  assert (forall l, Forall (fun t => leaves t = 1 + forks t) l -> lsum leaves l = Z.of_nat (length l) + lsum forks l) as H.
  { induction 1 as [|t l Ht _ IHl]; [done|]. change (leaves t + lsum leaves l = Z.of_nat (S (length l)) + (forks t + lsum forks l)). lia. }
  rewrite (H _ IH). cbn [length]. lia.
Qed.

Lemma forks_nonneg t : 0 <= forks t.
Proof.
  induction t as [x ts IH] using tree_rect'. cbn [forks].
  pose proof (lsum_nonneg forks ts ltac:(intros t Ht; by eapply Forall_forall in IH)). lia.
Qed.

Record tree_inv (g : fd_ghost_t) (T : tree) : Prop := {
  ti_root : gh_root g = Some (tid T);
  ti_links : links (gh_blks g) None None T;
  ti_nodup : NoDup (ids T);
  ti_dom : forall x, is_Some (gh_blks g !! x) <-> x ∈ ids T;
  ti_width : gh_width g = leaves T
}.

(** Only the blocks of the tree are stored, so loops of that many steps suffice. *)
Lemma NoDup_size {A} (m : gmap fd_hash_t A) (l : list fd_hash_t) :
  NoDup l -> (forall x, x ∈ l -> is_Some (m !! x)) -> (length l <= size m)%nat.
Proof.
  intros Hnd Hl. rewrite <- (size_dom (D:=gset fd_hash_t)). rewrite <- (size_list_to_set (C:=gset fd_hash_t) l Hnd).
  apply subseteq_size. intros x Hx%elem_of_list_to_set. apply elem_of_dom. by apply Hl.
Qed.

(** * Walks towards the root *)

(** The path from [x] to the root of the tree. *)
Lemma anc_chain g T x :
  tree_inv g T -> x ∈ ids T ->
  chain (gh_blks g) (Some x) (anc T x) None /\ NoDup (anc T x) /\ (length (anc T x) <= size (gh_blks g))%nat.
Proof.
  intros HI [l El]%rpath_ids. unfold anc. rewrite El. cbn.
  pose proof (rpath_nodup _ _ _ (ti_nodup _ _ HI) El) as Hnd. split_and!; [|done|].
  - by eapply rpath_chain; [apply HI|].
  - apply NoDup_size; [done|]. intros y Hy. apply (ti_dom _ _ HI). by eapply rpath_sub.
Qed.

(** A path survives changes that keep the parents of its blocks. *)
Lemma chain_ext m m' o l o' :
  (forall a b, a ∈ l -> m !! a = Some b -> exists b', m' !! a = Some b' /\ gb_parent b' = gb_parent b) ->
  chain m o l o' -> chain m' o l o'.
Proof.
  revert o. induction l as [|a l IH]; cbn; [done|]. intros o Hm [-> (b & Hb & Hc)]. split; [done|].
  destruct (Hm a b ltac:(by left) Hb) as (b' & Hb' & Ep). exists b'. split; [done|]. rewrite Ep.
  apply IH; [|done]. intros a' b0 Ha'. apply Hm. by right.
Qed.

(** [m] with [f] applied to the blocks of [l]. *)
Definition on (l : list fd_hash_t) (f : fd_ghost_blk_t -> fd_ghost_blk_t) (m : blks) : blks :=
  map_imap (fun x b => Some (if bool_decide (x ∈ l) then f b else b)) m.

Lemma on_lookup l f m x : on l f m !! x = (fun b => if bool_decide (x ∈ l) then f b else b) <$> m !! x.
Proof. unfold on. rewrite map_lookup_imap. by destruct (m !! x). Qed.

Lemma on_cons a l f m b : a ∉ l -> m !! a = Some b -> on l f (<[a := f b]> m) = on (a :: l) f m.
Proof.
  intros Ha Hb. apply map_eq. intros x. rewrite !on_lookup. destruct (decide (x = a)) as [->|Hx].
  - rewrite lookup_insert_eq, Hb. cbn. rewrite bool_decide_false by done. rewrite bool_decide_true by (by left). done.
  - rewrite lookup_insert_ne by done. destruct (m !! x); cbn; [|done]. do 2 f_equal.
    rewrite (bool_decide_ext (x ∈ a :: l) (x ∈ l)); [done|]. rewrite elem_of_cons. tauto.
Qed.

Lemma on_nil f m : on [] f m = m.
Proof. apply map_eq. intros x. rewrite on_lookup. destruct (m !! x); cbn; [|done]. done. Qed.

Lemma on_chain l0 f m o l o' : (forall b, gb_parent (f b) = gb_parent b) -> chain m o l o' -> chain (on l0 f m) o l o'.
Proof.
  intros Hf. apply chain_ext. intros a b _ Hb. rewrite on_lookup, Hb. cbn. eexists. split; [done|]. case_bool_decide; [apply Hf|done].
Qed.

Lemma insert_chain m a b b' o l o' : m !! a = Some b -> gb_parent b' = gb_parent b -> chain m o l o' -> chain (<[a := b']> m) o l o'.
Proof.
  intros Ha Ep. apply chain_ext. intros x c _ Hx. destruct (decide (x = a)) as [->|Hne].
  - rewrite lookup_insert_eq. eexists. split; [done|]. congruence.
  - rewrite lookup_insert_ne by done. eauto.
Qed.

Definition bump (d : Z) (b : fd_ghost_blk_t) : fd_ghost_blk_t := gb_set_stake b (gb_stake b + d).

Lemma add_stake_spec fuel m o l d :
  chain m o l None -> NoDup l -> (length l < fuel)%nat ->
  (forall a b, a ∈ l -> m !! a = Some b -> gb_stake b + d <= ULONG_MAX) ->
  add_stake fuel m o d = Ok (on l (bump d) m).
Proof.
  revert fuel m o. induction l as [|a l IH]; intros [|k] m o; cbn [chain length]; try lia.
  - intros -> _ _ _. cbn. by rewrite on_nil.
  - intros [-> (b & Hb & Hc)] [Ha Hnd]%NoDup_cons Hlen Hmax. cbn [add_stake]. rewrite Hb.
    cbn [deref mbind outcome_bind]. rewrite (proj2 (Z.leb_le _ _) (Hmax a b ltac:(by left) Hb)). cbn [check mbind outcome_bind].
    change (gb_set_stake b (gb_stake b + d)) with (bump d b).
    rewrite (IH k), (on_cons a l (bump d) m b Ha Hb); [done| |done|lia|].
    + by eapply insert_chain.
    + intros x c Hx. rewrite lookup_insert_ne by (intros ->; done). apply Hmax. by right.
Qed.

Lemma sub_stake_spec fuel m o l d :
  chain m o l None -> NoDup l -> (length l < fuel)%nat ->
  (forall a b, a ∈ l -> m !! a = Some b -> d <= gb_stake b) ->
  sub_stake fuel m o d = Ok (on l (bump (- d)) m).
Proof.
  revert fuel m o. induction l as [|a l IH]; intros [|k] m o; cbn [chain length]; try lia.
  - intros -> _ _ _. cbn. by rewrite on_nil.
  - intros [-> (b & Hb & Hc)] [Ha Hnd]%NoDup_cons Hlen Hmax. cbn [sub_stake]. rewrite Hb.
    cbn [deref mbind outcome_bind]. rewrite (proj2 (Z.leb_le _ _) (Hmax a b ltac:(by left) Hb)). cbn [check mbind outcome_bind].
    replace (gb_set_stake b (gb_stake b - d)) with (bump (- d) b) by (unfold bump; f_equal; lia).
    rewrite (IH k), (on_cons a l (bump (- d)) m b Ha Hb); [done| |done|lia|].
    + by eapply insert_chain.
    + intros x c Hx. rewrite lookup_insert_ne by (intros ->; done). apply Hmax. by right.
Qed.

(** The first block of the path with the property. *)
Definition holds (m : blks) (p : fd_hash_t -> fd_ghost_blk_t -> bool) (a : fd_hash_t) : bool :=
  match m !! a with Some b => p a b | None => false end.

Lemma predicate_ancestor_spec fuel m p o l :
  chain m o l None -> (length l < fuel)%nat ->
  predicate_ancestor fuel m p o = Ok (snd <$> list_find (fun a => holds m p a = true) l).
Proof.
  revert fuel o. induction l as [|a l IH]; intros [|k] o; cbn [chain length]; try lia; [by intros ->|].
  intros [-> (b & Hb & Hc)] Hlen. cbn [predicate_ancestor list_find]. rewrite Hb. cbn [deref mbind outcome_bind].
  assert (holds m p a = p a b) as Eh by (unfold holds; by rewrite Hb). rewrite <- Eh. destruct (holds m p a) eqn:E.
  - rewrite decide_True by done. done.
  - rewrite decide_False by congruence. rewrite (IH k _ Hc) by lia. f_equal.
    destruct (list_find _ l) as [[i y]|]; done.
Qed.

(** * Sums over the voters *)

Definition vsum {A} (f : A -> Z) (m : gmap fd_pubkey_t A) : Z := lsum (fun kv => f kv.2) (map_to_list m).

Lemma vsum_insert {A} (f : A -> Z) m k v : m !! k = None -> vsum f (<[k := v]> m) = f v + vsum f m.
Proof. intros Hk. unfold vsum. rewrite (lsum_perm _ _ _ (map_to_list_insert m k v Hk)). done. Qed.

Lemma vsum_delete {A} (f : A -> Z) m k v : m !! k = Some v -> vsum f m = f v + vsum f (delete k m).
Proof. intros Hk. rewrite <- (insert_delete_id m k v Hk) at 1. apply vsum_insert. apply lookup_delete_eq. Qed.

Lemma vsum_nonneg {A} (f : A -> Z) m : (forall k v, m !! k = Some v -> 0 <= f v) -> 0 <= vsum f m.
Proof. intros H. apply lsum_nonneg. intros [k v] Hkv%elem_of_map_to_list. by eapply H. Qed.

Lemma vsum_le {A} (f h : A -> Z) m : (forall k v, m !! k = Some v -> f v <= h v) -> vsum f m <= vsum h m.
Proof. intros H. apply lsum_le. intros [k v] Hkv%elem_of_map_to_list. by eapply H. Qed.

Lemma vsum_ext {A} (f h : A -> Z) m : (forall k v, m !! k = Some v -> f v = h v) -> vsum f m = vsum h m.
Proof. intros H. apply Z.le_antisymm; apply vsum_le; intros k v Hk; rewrite (H k v Hk); done. Qed.

Lemma vsum_subset {A} (f : A -> Z) m m' :
  m' ⊆ m -> (forall k v, m !! k = Some v -> m' !! k = None -> f v = 0) -> vsum f m = vsum f m'.
Proof.
  revert m. induction m' as [|k v m' Hk IH] using map_ind; intros m Hsub H0.
  - transitivity (vsum (fun _ : A => 0) m); [apply vsum_ext; intros k v Hkv; by apply (H0 k v Hkv), lookup_empty|].
    unfold vsum. rewrite lsum_const. unfold vsum. rewrite map_to_list_empty. cbn. lia.
  - assert (m !! k = Some v) as Hm by (eapply lookup_weaken; [apply lookup_insert_eq|done]).
    rewrite (vsum_delete f m k v Hm), (vsum_insert f m' k v Hk). f_equal. apply IH.
    + apply map_subseteq_spec. intros j w Hj. destruct (decide (j = k)) as [->|Hne]; [congruence|].
      rewrite lookup_delete_ne by done. eapply lookup_weaken; [|exact Hsub]. by rewrite lookup_insert_ne.
    + intros j w Hj Hn. destruct (decide (j = k)) as [->|Hne]; [by rewrite lookup_delete_eq in Hj|].
      rewrite lookup_delete_ne in Hj by done. apply (H0 j w Hj). by rewrite lookup_insert_ne.
Qed.

(** * The votes *)

(** What a voter's latest vote adds to the stake of [x]: its stake when it is for
    [x] or a descendant of it. *)
Definition contrib (T : tree) (x : fd_hash_t) (v : fd_ghost_vtr_t) : Z :=
  if bool_decide (x ∈ anc T (gv_prev_block_id v)) then gv_prev_stake v else 0.

Record vote_inv (g : fd_ghost_t) (T : tree) : Prop := {
  vi_prev : forall k v, gh_vtrs g !! k = Some v -> gv_prev_block_id v ∈ ids T /\ 0 <= gv_prev_stake v;
  vi_vtrs : forall x b k, gh_blks g !! x = Some b ->
    (k ∈ gb_vtrs b <-> exists v, gh_vtrs g !! k = Some v /\ gv_prev_block_id v = x);
  vi_stake : forall x b, gh_blks g !! x = Some b -> gb_stake b = vsum (contrib T x) (gh_vtrs g)
}.

Lemma contrib_bounds T x v : 0 <= gv_prev_stake v -> 0 <= contrib T x v <= gv_prev_stake v.
Proof. unfold contrib. case_bool_decide; lia. Qed.
