(* ===== verification/GhostInsert.v ===== *)
(** Inserting a block grafts a leaf onto the tree, as the last child of its
    parent, and keeps the invariants of the ghost. *)
From S2P Require Import Prelude VotorBase Ghost GhostTree GhostInv.

(** * Grafting a leaf *)

(** [x] becomes the last child of [p], whose children were [ks]. *)
Inductive grafted (p x : fd_hash_t) (ks : list tree) : tree -> tree -> Prop :=
| grafted_here : grafted p x ks (Node p ks) (Node p (ks ++ [Node x []]))
| grafted_in y ts1 t t' ts2 :
    grafted p x ks t t' -> grafted p x ks (Node y (ts1 ++ t :: ts2)) (Node y (ts1 ++ t' :: ts2)).

Lemma grafted_exists p x T : p ∈ ids T -> exists ks T', grafted p x ks T T'.
Proof.
  induction T as [y ts IH] using tree_rect'. cbn [ids]. intros [->|(t & Ht & Hp)%fids_elem]%elem_of_cons.
  - eexists _, _. constructor.
  - eapply Forall_forall in IH; [|exact Ht]. destruct (IH Hp) as (ks & t' & Hg).
    apply list_elem_of_split in Ht as (ts1 & ts2 & ->). eexists _, _. by constructor.
Qed.

Lemma fids_app ts1 ts2 : fids (ts1 ++ ts2) = fids ts1 ++ fids ts2.
Proof. by rewrite map_app, concat_app. Qed.

Lemma grafted_ids p x ks T T' : grafted p x ks T T' -> ids T' ≡ₚ x :: ids T.
Proof.
  induction 1 as [|y ts1 t t' ts2 _ IH]; cbn [ids]; rewrite !fids_app; cbn.
  - rewrite <- Permutation_cons_append. apply Permutation_swap.
  - rewrite IH. cbn. rewrite Permutation_middle. rewrite <- !Permutation_middle. apply Permutation_swap.
Qed.

Lemma grafted_tid p x ks T T' : grafted p x ks T T' -> tid T' = tid T.
Proof. by destruct 1. Qed.

Lemma grafted_p p x ks T T' : grafted p x ks T T' -> p ∈ ids T.
Proof.
  induction 1 as [|y ts1 t t' ts2 _ IH]; cbn [ids]; [by left|]. right. apply fids_elem. exists t. split; [|done].
  apply elem_of_app. right. by left.
Qed.

Lemma grafted_forks p x ks T T' :
  grafted p x ks T T' -> forks T' = forks T + (if bool_decide (ks = []) then 0 else 1).
Proof.
  induction 1 as [|y ts1 t t' ts2 _ IH]; cbn [forks]; rewrite !length_app, !lsum_app; cbn [length].
  - change (lsum forks [Node x []]) with 0. case_bool_decide as E; [by subst ks|]. destruct ks; [done|]. cbn [length]. lia.
  - change (lsum forks (t' :: ts2)) with (forks t' + lsum forks ts2). change (lsum forks (t :: ts2)) with (forks t + lsum forks ts2).
    rewrite IH. lia.
Qed.

(** The children of [p] are where the tree says. *)
Lemma grafted_kids m par sib p x ks T T' :
  links m par sib T -> grafted p x ks T T' ->
  forest m (Some p) ks /\ exists b, m !! p = Some b /\ gb_child b = hd_id ks.
Proof.
  intros Hl Hg. revert par sib Hl. induction Hg as [|y ts1 t t' ts2 _ IH]; intros par sib Hl.
  - apply links_node in Hl as [(b & Hb & _ & _ & Hc) Hf]. eauto.
  - apply links_node in Hl as [_ Hf]. destruct (forest_app _ _ _ _ _ Hf) as [Ht _]. by eapply IH.
Qed.

(** * The pointers of the grafted tree *)

Section Graft.
Context (m m' : blks) (p x : fd_hash_t) (ks : list tree).
Hypothesis Hnew : exists b, m' !! x = Some b /\ gb_parent b = Some p /\ gb_child b = None /\ gb_sibling b = None.
Hypothesis Hold : forall y b, y <> x -> m !! y = Some b -> exists b', m' !! y = Some b' /\ gb_parent b' = gb_parent b /\
  gb_child b' = (if bool_decide (y = p /\ ks = []) then Some x else gb_child b) /\
  gb_sibling b' = (if bool_decide (tid <$> last ks = Some y) then Some x else gb_sibling b).

Lemma last_kid y : tid <$> last ks = Some y -> y ∈ fids ks.
Proof.
  intros (t & Ht & ->)%fmap_Some. apply fids_elem. exists t. split; [|destruct t; cbn; by left].
  apply last_Some in Ht as [l ->]. apply elem_of_app. right. by left.
Qed.

(** Trees away from [p] and its children keep their pointers. *)
Lemma links_away par sib t :
  x ∉ ids t -> p ∉ ids t -> (forall y, y ∈ ids t -> y ∉ fids ks) -> links m par sib t -> links m' par sib t.
Proof using Hold.
  intros Hx Hp Hk. apply links_ext. intros y b Hy Hb.
  destruct (Hold y b ltac:(intros ->; done) Hb) as (b' & Hb' & E1 & E2 & E3). exists b'. split; [done|].
  rewrite bool_decide_false in E2 by (intros [-> _]; done).
  rewrite bool_decide_false in E3 by (intros Hy'%last_kid; by apply (Hk y)). done.
Qed.

Lemma forest_away par ts :
  x ∉ fids ts -> p ∉ fids ts -> (forall y, y ∈ fids ts -> y ∉ fids ks) -> forest m par ts -> forest m' par ts.
Proof using Hold.
  induction ts as [|t ts IH]; cbn; [done|]. rewrite !not_elem_of_app. intros [X1 X2] [P1 P2] Hk [Hl Hf]. split.
  - apply links_away; [done|done| |done]. intros y Hy. apply Hk, elem_of_app. by left.
  - apply IH; [done|done| |done]. intros y Hy. apply Hk, elem_of_app. by right.
Qed.

Lemma links_sib par sib sib' y ts :
  (exists b, m !! y = Some b /\ gb_parent b = par /\ gb_sibling b = sib /\ gb_child b = hd_id ts) ->
  y <> x -> y <> p -> sib' = (if bool_decide (tid <$> last ks = Some y) then Some x else sib) ->
  forest m' (Some y) ts -> links m' par sib' (Node y ts).
Proof using Hold.
  intros (b & Hb & Ep & Es & Ec) Hx Hp -> Hf. apply links_node. split; [|done].
  destruct (Hold y b Hx Hb) as (b' & Hb' & E1 & E2 & E3). exists b'. rewrite bool_decide_false in E2 by (by intros [-> _]).
  rewrite E1, E2, E3, Ep, Es, Ec. done.
Qed.

(** The subtrees below the children of [p] do not contain children of [p]. *)
Lemma kids_forest_graft l ts :
  ks = l ++ ts -> NoDup (fids ks) -> x ∉ fids ks -> p ∉ fids ks ->
  forest m (Some p) ts -> forest m' (Some p) (ts ++ [Node x []]).
Proof using All.
  revert l. induction ts as [|t ts IH]; intros l El Hnd Hx Hp Hf.
  - split; [|done]. apply links_node. split; [|done]. destruct Hnew as (b & Hb & E1 & E2 & E3). exists b. done.
  - destruct Hf as [Hl Hf]. assert (forest m' (Some p) (ts ++ [Node x []])) as Hf'
      by (apply (IH (l ++ [t])); [by rewrite <- app_assoc|done..]).
    cbn [app forest]. split; [|done].
    assert (forall y, y ∈ ids t -> y ∈ fids ks) as Hin
      by (intros y Hy; apply fids_elem; exists t; split; [rewrite El; apply elem_of_app; right; by left|done]).
    assert (Hnd' := Hnd). rewrite El, fids_app in Hnd'. apply NoDup_app in Hnd' as (_ & _ & Hnd').
    cbn in Hnd'. apply NoDup_app in Hnd' as (Ht & Hd & _).
    destruct t as [y us]. destruct (links_root _ _ _ _ Hl) as (b & Hb & E1 & E2 & E3).
    cbn [ids] in Ht. apply NoDup_cons in Ht as [Hy _].
    eapply links_sib; [exists b; eauto|intros ->; by apply Hx, Hin; left|intros ->; by apply Hp, Hin; left| |].
    + destruct ts as [|t1 ts].
      * rewrite bool_decide_true; [done|]. rewrite El, last_snoc. done.
      * rewrite bool_decide_false; [done|]. rewrite El, last_app_cons, last_cons_cons. intros (t2 & Ht2 & E)%fmap_Some.
        apply (Hd y); [by left|]. apply fids_elem. exists t2. split; [|rewrite E; destruct t2; by left].
        apply last_Some in Ht2 as [l2 E2']. rewrite E2'. apply elem_of_app. right. by left.
    + apply links_kids in Hl. apply forest_ext with m; [|done]. intros z bz Hz Hbz. cbn [kids tid] in *.
      assert (z ∈ fids ks) as Hzk by (apply Hin; cbn; by right).
      destruct (Hold z bz ltac:(intros ->; done) Hbz) as (b' & Hb' & D1 & D2 & D3). exists b'. split; [done|].
      rewrite bool_decide_false in D2 by (intros [-> _]; done). rewrite bool_decide_false in D3; [done|].
      (* the last child of [p] is not below another child of [p] *)
      rewrite El. rewrite last_app_cons. intros (t2 & Ht2 & E)%fmap_Some. destruct ts as [|t1 ts].
      * cbn in Ht2. injection Ht2 as <-. cbn in E. subst z. done.
      * rewrite last_cons_cons in Ht2. apply (Hd z); [cbn; by right|]. apply fids_elem. exists t2.
        split; [|rewrite E; destruct t2; by left]. apply last_Some in Ht2 as [l2 E2']. rewrite E2'. apply elem_of_app. right. by left.
Qed.

Lemma grafted_ks T T' y : grafted p x ks T T' -> y ∈ fids ks -> y ∈ fids (kids T).
Proof using Type.
  induction 1 as [|z ts1 t t' ts2 _ IH]; [done|]. intros Hy. apply fids_elem. exists t. split; [apply elem_of_app; right; by left|].
  destruct t as [w us]. cbn [ids kids] in *. right. by apply IH.
Qed.

Lemma forest_split ts1 t t' ts2 par :
  tid t' = tid t -> forest m par (ts1 ++ t :: ts2) -> x ∉ fids (ts1 ++ t :: ts2) -> p ∈ ids t ->
  (forall y, y ∈ fids ks -> y ∈ ids t) -> NoDup (fids (ts1 ++ t :: ts2)) ->
  links m' par (hd_id ts2) t' -> forest m' par (ts1 ++ t' :: ts2).
Proof using All.
  intros Et. induction ts1 as [|t1 ts1 IH]; cbn; rewrite ?not_elem_of_app; intros [Hl Hf] [X1 X2] Hp Hk (N1 & Nd & N2)%NoDup_app Hl'.
  - split; [done|]. apply forest_away; [done| | |done].
    + intros H. by apply (Nd p).
    + intros y Hy Hk'. by apply (Nd y); [apply Hk|].
  - assert (forall y, y ∈ ids t -> y ∉ ids t1) as Hd.
    { intros y Hy H. apply (Nd y H). rewrite fids_app. apply elem_of_app. right. apply elem_of_app. by left. }
    split; [|by apply IH].
    replace (hd_id (ts1 ++ t' :: ts2)) with (hd_id (ts1 ++ t :: ts2)) by (destruct ts1; cbn; [by rewrite Et|done]).
    apply links_away; [done|by apply Hd| |done]. intros y Hy H. by apply (Hd y (Hk y H)).
Qed.

Lemma grafted_links par sib T T' :
  grafted p x ks T T' -> NoDup (ids T) -> x ∉ ids T -> links m par sib T -> links m' par sib T'.
Proof using All.
  intros Hg. revert par sib. induction Hg as [|y ts1 t t' ts2 Hg IH]; intros par sib Hnd Hx Hl;
    cbn [ids] in Hnd, Hx; apply NoDup_cons in Hnd as [Hy Hnd]; apply not_elem_of_cons in Hx as [Hxy Hx];
    apply links_node in Hl as [(b & Hb & E1 & E2 & E3) Hf]; apply links_node;
    destruct (Hold _ b ltac:(done) Hb) as (b' & Hb' & D1 & D2 & D3).
  - split; [|by apply (kids_forest_graft [] ks)]. exists b'. split; [done|].
    rewrite bool_decide_false in D3 by (intros H%last_kid; done). split_and!; [congruence..|]. rewrite D2, E3.
    destruct ks as [|k0 ks']; [by rewrite bool_decide_true|rewrite bool_decide_false; [done|naive_solver]].
  - pose proof (grafted_p _ _ _ _ _ Hg) as Hp.
    assert (forall z, z ∈ ids t -> z ∈ fids (ts1 ++ t :: ts2)) as Hin
      by (intros z Hz; apply fids_elem; exists t; split; [apply elem_of_app; right; by left|done]).
    assert (forall z, z ∈ fids ks -> z ∈ ids t) as Hk.
    { intros z Hz. pose proof (grafted_ks _ _ _ Hg Hz). destruct t as [w us]. cbn. by right. }
    split.
    + exists b'. split; [done|]. rewrite bool_decide_false in D3 by (intros H%last_kid; by apply Hy, Hin, Hk).
      rewrite bool_decide_false in D2 by (intros [-> _]; by apply Hy, Hin). split_and!; [congruence..|].
      rewrite D2, E3. destruct ts1; cbn; [by rewrite (grafted_tid _ _ _ _ _ Hg)|done].
    + apply (forest_split ts1 t t' ts2); [by eapply grafted_tid|done..|].
      apply IH; [|by intros H%Hin|by destruct (forest_app _ _ _ _ _ Hf)].
      eapply NoDup_fids_elem; [exact Hnd|]. apply elem_of_app. right. by left.
Qed.

(** Grafting does not move the other blocks. *)
Lemma grafted_anc T T' y :
  grafted p x ks T T' -> NoDup (ids T) -> x ∉ ids T -> y ∈ ids T -> anc T' y = anc T y.
Proof using Type.
  intros Hg. induction Hg as [|z ts1 t t' ts2 Hg IH]; intros Hnd Hx Hy;
    cbn [ids] in Hnd, Hx, Hy; apply NoDup_cons in Hnd as [Hz Hnd]; apply not_elem_of_cons in Hx as [Hxz Hx]; rewrite !anc_node;
    case_bool_decide as E; try done; apply elem_of_cons in Hy as [?|Hy]; try done.
  - assert (fpath (ks ++ [Node x []]) y = fpath ks y) as ->; [|done].
    assert (y <> x) by (intros ->; done). clear -H. induction ks as [|t ts IH]; cbn; [by rewrite bool_decide_false|].
    destruct (rpath t y); [done|]. apply IH.
  - assert (fpath (ts1 ++ t' :: ts2) y = fpath (ts1 ++ t :: ts2) y) as ->; [|done].
    assert (y <> x) as Hyx by (intros ->; done).
    assert (rpath t' y = rpath t y) as Et.
    { destruct (decide (y ∈ ids t)) as [Hyt|Hyt].
      - specialize (IH ltac:(eapply NoDup_fids_elem; [exact Hnd|apply elem_of_app; right; by left])
          ltac:(intros H; apply Hx, fids_elem; exists t; split; [apply elem_of_app; right; by left|done]) Hyt).
        unfold anc in IH. assert (is_Some (rpath t' y)) as [l' El'].
        { apply rpath_ids. rewrite (grafted_ids _ _ _ _ _ Hg). by right. }
        apply rpath_ids in Hyt as [l El]. rewrite El, El' in IH |- *. cbn in IH. congruence.
      - rewrite !rpath_None; [done|done|]. rewrite (grafted_ids _ _ _ _ _ Hg), elem_of_cons. tauto. }
    clear -Et. induction ts1 as [|t0 ts IH]; cbn; [by rewrite Et|]. destruct (rpath t0 y); [done|]. apply IH.
Qed.

Lemma grafted_anc_new T T' y :
  grafted p x ks T T' -> NoDup (ids T) -> x ∉ ids T -> y ∈ ids T -> x ∉ anc T' y.
Proof using Type. intros Hg Hnd Hx Hy. rewrite (grafted_anc T T' y Hg Hnd Hx Hy). by intros H%anc_sub. Qed.
End Graft.

(** * The operation *)

Lemma last_sibling_spec m par fuel t ts :
  forest m par (t :: ts) -> (length ts < fuel)%nat ->
  exists l s, t :: ts = l ++ [s] /\ last_sibling fuel m (tid t) = Ok (tid s).
Proof.
  revert fuel t. induction ts as [|t' ts IH]; intros [|k] t [Hl Hf] Hlen; cbn [length] in Hlen; try lia;
    destruct (links_root _ _ _ _ Hl) as (b & Hb & _ & Hs & _); cbn [last_sibling]; rewrite Hb; cbn [deref mbind outcome_bind]; rewrite Hs; cbn.
  - by exists [], t.
  - destruct (IH k t' Hf ltac:(lia)) as (l & s & El & ->). exists (t :: l), s. split; [by rewrite El|done].
Qed.

Lemma kids_size m (ks : list tree) par :
  forest m par ks -> NoDup (fids ks) -> (length ks <= size m)%nat.
Proof.
  intros Hf Hnd. rewrite <- (length_map tid ks). apply NoDup_size.
  - clear Hf. induction ks as [|[y us] ks IH]; cbn in *; [constructor|]. apply NoDup_cons in Hnd as [Hy Hnd].
    constructor; [|apply IH; by apply NoDup_app in Hnd as (_ & _ & ?)].
    intros (t & E & Ht)%list_elem_of_fmap. apply Hy, elem_of_app. right. apply fids_elem. exists t. split; [done|]. rewrite E. destruct t; by left.
  - intros y (t & -> & Ht)%list_elem_of_fmap. destruct (forest_elem _ _ _ _ Hf Ht) as [sib Hl].
    destruct (links_root _ _ _ _ Hl) as (b & Hb & _). by exists b.
Qed.

Lemma grafted_ks_nodup p x ks T T' : grafted p x ks T T' -> NoDup (ids T) -> NoDup (fids ks) /\ p ∉ fids ks.
Proof.
  induction 1 as [|y ts1 t t' ts2 _ IH]; cbn [ids]; intros [Hy Hnd]%NoDup_cons; [done|].
  apply IH. eapply NoDup_fids_elem; [exact Hnd|]. apply elem_of_app. right. by left.
Qed.

(** A block that is not changed but for a pointer. *)
Definition same_votes (b b' : fd_ghost_blk_t) : Prop :=
  gb_stake b' = gb_stake b /\ gb_vtrs b' = gb_vtrs b /\ gb_slot b' = gb_slot b /\ gb_valid b' = gb_valid b.

Section Insert.
Context (g : fd_ghost_t) (T T' : tree) (bank_seq slot : Z) (x p : fd_hash_t) (ks : list tree).
Hypothesis HT : tree_inv g T.
Hypothesis HV : vote_inv g T.
Hypothesis Hg : grafted p x ks T T'.
Hypothesis Hx : x ∉ ids T.
Hypothesis Hfull : Z.of_nat (size (gh_blks g)) < gh_blk_max g.
Hypothesis Hwidth : leaves T < ULONG_MAX.

Let m := gh_blks g.
Let bx := mk_ghost_blk slot (Some p) None None 0 0 true [] bank_seq.
Let m2 : blks := <[x := bx]> m.
Let m3 : blks :=
  match last ks with
  | None => upd_blk m2 p (set_child (Some x))
  | Some s => upd_blk m2 (tid s) (set_sibling (Some x))
  end.

Lemma p_not_x : p <> x.
Proof using Hg Hx. intros E. apply Hx. rewrite <- E. exact (grafted_p _ _ _ _ _ Hg). Qed.

Lemma m_x : m !! x = None.
Proof using HT Hx. apply eq_None_not_Some. intros H%(ti_dom _ _ HT). done. Qed.

Lemma insert_code :
  fd_ghost_insert g bank_seq slot x p =
  Ok (gh_set_width (gh_set_blks g m3) (if bool_decide (ks = []) then gh_width g else gh_width g +w 1)).
Proof using HT Hg Hx Hfull.
  destruct (grafted_kids _ _ _ _ _ _ _ _ (ti_links _ _ HT) Hg) as (Hf & b & Hb & Hc). fold m in Hf, Hb.
  pose proof p_not_x as Hpx. pose proof m_x as Hmx.
  unfold fd_ghost_insert, insert_blk. fold m. rewrite bool_decide_false by (rewrite Hmx; by intros [? ?]).
  rewrite (proj2 (Z.ltb_lt (Z.of_nat (size m)) _) Hfull). cbn [negb check mbind outcome_bind gh_blks gh_set_blks].
  rewrite lookup_insert_ne, Hb by done.
  assert (upd_blk (<[x:=mk_ghost_blk slot None None None 0 0 true [] bank_seq]> m) x (set_parent (Some p)) = m2) as ->
    by (unfold upd_blk; by rewrite alter_insert_eq).
  assert (m2 !! p = Some b) as -> by (unfold m2; by rewrite lookup_insert_ne).
  cbn [deref mbind outcome_bind]. rewrite Hc. unfold m3. destruct ks as [|k0 ks'] eqn:Ek.
  - cbn. done.
  - cbn [hd_id head fmap option_fmap option_map]. rewrite bool_decide_false by done.
    destruct (grafted_ks_nodup _ _ _ _ _ Hg (ti_nodup _ _ HT)) as [Hnk _].
    assert (forest m2 (Some p) (k0 :: ks')) as Hf2.
    { eapply forest_ext; [|exact Hf]. intros y by' Hy Hby. exists by'. split; [|done]. unfold m2. rewrite lookup_insert_ne; [done|].
      intros <-. congruence. }
    pose proof (kids_size _ _ _ Hf2 Hnk) as Hlen.
    destruct (last_sibling_spec m2 (Some p) (tree_fuel m2) k0 ks' Hf2) as (l & s & El & ->); [unfold tree_fuel; cbn [length] in Hlen; lia|].
    rewrite El, last_snoc. done.
Qed.

Lemma insert_new : exists b, m3 !! x = Some b /\ b = bx.
Proof using HT Hg Hx.
  destruct (grafted_kids _ _ _ _ _ _ _ _ (ti_links _ _ HT) Hg) as (Hf & _). pose proof p_not_x as Hpx.
  exists bx. split; [|done]. unfold m3, upd_blk. destruct (last ks) as [s|] eqn:El.
  - rewrite lookup_alter_ne; [apply lookup_insert_eq|]. intros E. apply Hx. rewrite <- E.
    apply last_Some in El as [l ->]. destruct (grafted_kids _ _ _ _ _ _ _ _ (ti_links _ _ HT) Hg) as (_ & _).
    apply (ti_dom _ _ HT). destruct (forest_elem _ _ _ s Hf) as [sib Hl]; [apply elem_of_app; right; by left|].
    destruct (links_root _ _ _ _ Hl) as (b & Hb & _). by exists b.
  - rewrite lookup_alter_ne by done. apply lookup_insert_eq.
Qed.

Lemma insert_old y b : y <> x -> m !! y = Some b -> exists b', m3 !! y = Some b' /\ same_votes b b' /\ gb_parent b' = gb_parent b /\
  gb_child b' = (if bool_decide (y = p /\ ks = []) then Some x else gb_child b) /\
  gb_sibling b' = (if bool_decide (tid <$> last ks = Some y) then Some x else gb_sibling b).
Proof using Hg Hx.
  intros Hy Hb. unfold m3, upd_blk. destruct (last ks) as [s|] eqn:El.
  - assert (ks <> []) as Hk by (intros ->; done). rewrite (bool_decide_false (y = p /\ _)) by tauto.
    destruct (decide (tid s = y)) as [<-|Hne].
    + rewrite lookup_alter_eq. unfold m2. rewrite lookup_insert_ne, Hb by done. eexists. split; [done|].
      rewrite bool_decide_true by done. done.
    + rewrite lookup_alter_ne by done. unfold m2. rewrite lookup_insert_ne, Hb by done. eexists. split; [done|].
      rewrite bool_decide_false by (cbn; congruence). done.
  - apply last_None in El. subst ks. rewrite (bool_decide_false (_ = Some y)) by done. destruct (decide (p = y)) as [->|Hne].
    + rewrite lookup_alter_eq. unfold m2. rewrite lookup_insert_ne, Hb by done. eexists. split; [done|].
      rewrite bool_decide_true by done. done.
    + rewrite lookup_alter_ne by done. unfold m2. rewrite lookup_insert_ne, Hb by done. eexists. split; [done|].
      rewrite bool_decide_false by (intros [? _]; congruence). done.
Qed.

Lemma insert_dom y : is_Some (m3 !! y) <-> y = x \/ is_Some (m !! y).
Proof using Type.
  unfold m3, upd_blk. destruct (last ks) as [s|]; rewrite lookup_alter_is_Some; unfold m2; rewrite lookup_insert_is_Some; tauto || (destruct (decide (y = x)); naive_solver).
Qed.

Lemma insert_tree : tree_inv (gh_set_width (gh_set_blks g m3) (if bool_decide (ks = []) then gh_width g else gh_width g +w 1)) T'.
Proof using All.
  split; cbn.
  - rewrite (ti_root _ _ HT). by rewrite (grafted_tid _ _ _ _ _ Hg).
  - eapply (grafted_links m m3 p x ks); [| |exact Hg|apply HT|done|apply HT].
    + destruct insert_new as (b & Hb & ->). exists bx. done.
    + intros y b Hy Hb. destruct (insert_old y b Hy Hb) as (b' & Hb' & _ & E). eauto.
  - rewrite (grafted_ids _ _ _ _ _ Hg). constructor; [done|apply HT].
  - intros y. rewrite insert_dom, (grafted_ids _ _ _ _ _ Hg), elem_of_cons. unfold m. by rewrite (ti_dom _ _ HT).
  - rewrite (ti_width _ _ HT). rewrite !leaves_forks, (grafted_forks _ _ _ _ _ Hg). case_bool_decide; [lia|].
    pose proof (forks_nonneg T). rewrite leaves_forks in Hwidth. rewrite u64_add_small; [lia|]. unfold is_u64. lia.
Qed.

Lemma insert_votes : vote_inv (gh_set_width (gh_set_blks g m3) (if bool_decide (ks = []) then gh_width g else gh_width g +w 1)) T'.
Proof using All.
  pose proof (ti_nodup _ _ HT) as Hnd. destruct insert_new as (b0 & Hbx & ->).
  split; cbn.
  - intros k v Hk. destruct (vi_prev _ _ HV k v Hk) as [H1 H2]. split; [|done]. rewrite (grafted_ids _ _ _ _ _ Hg). by right.
  - intros y b k Hb. destruct (decide (y = x)) as [->|Hy].
    + rewrite Hbx in Hb. injection Hb as <-. cbn. split; [by intros ?%not_elem_of_nil|]. intros (v & Hv & Ev).
      destruct (vi_prev _ _ HV k v Hv) as [H1 _]. by rewrite Ev in H1.
    + destruct (proj1 (insert_dom y) ltac:(by exists b)) as [?|[b1 Hb1]]; [done|].
      destruct (insert_old y b1 Hy Hb1) as (b' & Hb' & (_ & Ev & _) & _). rewrite Hb in Hb'. injection Hb' as <-. rewrite Ev.
      by apply (vi_vtrs _ _ HV).
  - intros y b Hb. destruct (decide (y = x)) as [->|Hy].
    + rewrite Hbx in Hb. injection Hb as <-. cbn. rewrite (vsum_ext _ (fun _ => 0)).
      * unfold vsum. rewrite lsum_const. lia.
      * intros k v Hk. unfold contrib. destruct (vi_prev _ _ HV k v Hk) as [H1 _].
        rewrite bool_decide_false; [done|]. exact (grafted_anc_new p x ks T T' _ Hg Hnd Hx H1).
    + destruct (proj1 (insert_dom y) ltac:(by exists b)) as [?|[b1 Hb1]]; [done|].
      destruct (insert_old y b1 Hy Hb1) as (b' & Hb' & (Es & _) & _). rewrite Hb in Hb'. injection Hb' as <-.
      rewrite Es, (vi_stake _ _ HV y b1 Hb1). apply vsum_ext. intros k v Hk. unfold contrib.
      destruct (vi_prev _ _ HV k v Hk) as [H1 _]. by rewrite (grafted_anc p x ks T T' _ Hg Hnd Hx H1).
Qed.
End Insert.

Lemma leaves_le_ids t : leaves t <= Z.of_nat (length (ids t)).
Proof.
  induction t as [y ts IH] using tree_rect'. destruct ts as [|t0 ts]; [done|].
  change (lsum leaves (t0 :: ts) <= Z.of_nat (S (length (fids (t0 :: ts))))).
  induction IH as [|t l Ht _ IHl]; [cbn; lia|].
  change (leaves t + lsum leaves l <= Z.of_nat (S (length (ids t ++ fids l)))). rewrite length_app. lia.
Qed.

Lemma tree_inv_size g T : tree_inv g T -> (length (ids T) <= size (gh_blks g))%nat.
Proof. intros HT. apply NoDup_size; [apply HT|]. intros y. apply HT. Qed.

Lemma insert_inv g T bank_seq slot x p :
  tree_inv g T -> vote_inv g T -> x ∉ ids T -> p ∈ ids T ->
  Z.of_nat (size (gh_blks g)) < gh_blk_max g <= ULONG_MAX ->
  exists g' ks T', fd_ghost_insert g bank_seq slot x p = Ok g' /\ grafted p x ks T T' /\ tree_inv g' T' /\ vote_inv g' T' /\
    gh_vtrs g' = gh_vtrs g /\
    gh_blks g' !! x = Some (mk_ghost_blk slot (Some p) None None 0 0 true [] bank_seq) /\
    forall y b, gh_blks g !! y = Some b -> exists b', gh_blks g' !! y = Some b' /\ same_votes b b' /\ gb_parent b' = gb_parent b.
Proof.
  intros HT HV Hx Hp [Hfull Hmax]. destruct (grafted_exists p x T Hp) as (ks & T' & Hg).
  assert (leaves T < ULONG_MAX) as Hw by (pose proof (leaves_le_ids T); pose proof (tree_inv_size g T HT); lia).
  eexists _, ks, T'. split; [by eapply insert_code|]. split; [done|]. split; [by apply (insert_tree g T)|].
  split; [by apply (insert_votes g T)|]. split; [done|]. split.
  - destruct (insert_new g T T' bank_seq slot x p ks HT Hg Hx) as (b & Hb & ->). exact Hb.
  - intros y b Hb. destruct (decide (y = x)) as [->|Hy]; [by rewrite (m_x g T x HT Hx) in Hb|].
    destruct (insert_old g T T' bank_seq slot x p ks Hg Hx y b Hy Hb) as (b' & Hb' & Hs & Ep & _). eauto.
Qed.
