(* ===== verification/GhostVotes.v ===== *)
(** Counting votes keeps the invariants of the ghost: only the latest vote of a
    voter counts, and it counts for the block and all its ancestors. *)
From S2P Require Import Prelude VotorBase Ghost GhostTree GhostInv.

(** What counting a vote leaves alone in a block. *)
Definition frame (b b' : fd_ghost_blk_t) : Prop :=
  same_links b b' /\ gb_slot b' = gb_slot b /\ gb_valid b' = gb_valid b /\ gb_bank_seq b' = gb_bank_seq b.
Definition frames (m m' : blks) : Prop := forall x, option_Forall2 frame (m !! x) (m' !! x).

Lemma frame_refl b : frame b b. Proof. done. Qed.
Lemma frames_trans m1 m2 m3 : frames m1 m2 -> frames m2 m3 -> frames m1 m3.
Proof.
  intros H1 H2 x. specialize (H1 x). specialize (H2 x). destruct H1 as [b1 b2 (A1 & A2 & A3 & A4)|].
  - inversion H2 as [? b3 (B1 & B2 & B3 & B4) E1 E2|]. constructor.
    destruct A1 as (? & ? & ?), B1 as (? & ? & ?). repeat split; congruence.
  - inversion H2. constructor.
Qed.

Lemma frames_on l f m : (forall b, frame b (f b)) -> frames m (on l f m).
Proof. intros Hf x. rewrite on_lookup. destruct (m !! x) as [b|]; cbn; constructor. case_bool_decide; [apply Hf|apply frame_refl]. Qed.

Lemma frames_upd x f m : (forall b, frame b (f b)) -> frames m (upd_blk m x f).
Proof.
  intros Hf y. unfold upd_blk. destruct (decide (y = x)) as [->|Hne].
  - rewrite lookup_alter_eq. destruct (m !! x); cbn; constructor. apply Hf.
  - rewrite lookup_alter_ne by done. destruct (m !! y); constructor. apply frame_refl.
Qed.

Lemma frames_links m m' par sib t : frames m m' -> links m par sib t -> links m' par sib t.
Proof.
  intros Hm. apply links_ext. intros x b _ Hb. specialize (Hm x). rewrite Hb in Hm. inversion Hm as [? b' Hf E1 E2|].
  exists b'. split; [done|]. apply Hf.
Qed.

Lemma frames_dom m m' x : frames m m' -> is_Some (m' !! x) <-> is_Some (m !! x).
Proof. intros Hm. specialize (Hm x). inversion Hm as [b b' _ E1 E2|E1 E2]; split; intros [? ?]; eauto; congruence. Qed.

Lemma frames_size m m' : frames m m' -> size m' = size m.
Proof.
  intros Hm. rewrite <- !(size_dom (D:=gset fd_hash_t)). f_equal. apply set_eq. intros x. rewrite !elem_of_dom. by apply frames_dom.
Qed.

Lemma tree_inv_frames g T m' vs :
  frames (gh_blks g) m' -> tree_inv g T -> tree_inv (gh_set_vtrs (gh_set_blks g m') vs) T.
Proof.
  intros Hm [H1 H2 H3 H4 H5]. split; cbn; [done|by eapply frames_links|done| |done].
  intros x. rewrite <- H4. by apply frames_dom.
Qed.

Lemma bump_vtrs (c : bool) d b : gb_vtrs (if c then bump d b else b) = gb_vtrs b.
Proof. by destruct c. Qed.

(** * Taking a vote back *)

Section Unvote.
Context (g : fd_ghost_t) (T : tree) (k : fd_pubkey_t) (v : fd_ghost_vtr_t).
Hypothesis HT : tree_inv g T.
Hypothesis HV : vote_inv g T.
Hypothesis Hk : gh_vtrs g !! k = Some v.

Let prev := gv_prev_block_id v.
Let m1 := upd_blk (gh_blks g) prev (fun b => gb_set_vtrs b (dlist_del k (gb_vtrs b))).
Let m2 := on (anc T prev) (bump (- gv_prev_stake v)) m1.

Lemma prev_in : prev ∈ ids T. Proof using HV Hk. by eapply vi_prev. Qed.

Lemma unvote_frames : frames (gh_blks g) m2.
Proof using Type. apply (frames_trans _ m1); [by apply frames_upd|by apply frames_on]. Qed.

Lemma stake_at_least x b : x ∈ anc T prev -> gh_blks g !! x = Some b -> gv_prev_stake v <= gb_stake b.
Proof using HV Hk.
  intros Hx Hb. rewrite (vi_stake _ _ HV x b Hb), (vsum_delete _ _ _ _ Hk).
  unfold contrib at 1. fold prev. rewrite bool_decide_true by done.
  assert (0 <= vsum (contrib T x) (delete k (gh_vtrs g))); [|lia].
  apply vsum_nonneg. intros j w [_ Hw]%lookup_delete_Some. apply contrib_bounds. by apply (vi_prev _ _ HV j w Hw).
Qed.

Lemma m1_stake x b : m1 !! x = Some b -> exists b0, gh_blks g !! x = Some b0 /\ gb_stake b = gb_stake b0 /\
  gb_vtrs b = if bool_decide (x = prev) then dlist_del k (gb_vtrs b0) else gb_vtrs b0.
Proof using Type.
  unfold m1, upd_blk. destruct (decide (x = prev)) as [->|Hne].
  - rewrite lookup_alter_eq. intros (b0 & -> & ->)%fmap_Some. exists b0. by rewrite bool_decide_true.
  - rewrite lookup_alter_ne by done. intros Hb. exists b. by rewrite bool_decide_false.
Qed.

Lemma unvote_ok : sub_stake (tree_fuel m1) m1 (Some prev) (gv_prev_stake v) = Ok m2.
Proof using All.
  destruct (anc_chain g T prev HT prev_in) as (Hc & Hnd & Hlen).
  assert (frames (gh_blks g) m1) as Hf by by apply frames_upd.
  apply sub_stake_spec; [|done|unfold tree_fuel; rewrite (frames_size _ _ Hf); lia|].
  - eapply chain_ext; [|exact Hc]. intros a b _ Ha. specialize (Hf a). rewrite Ha in Hf. inversion Hf as [? b' Hb E1 E2|].
    exists b'. split; [done|]. apply Hb.
  - intros a b Ha Hb. destruct (m1_stake a b Hb) as (b0 & Hb0 & -> & _). by apply (stake_at_least a b0 Ha).
Qed.

Lemma dlist_del_elem w l : w ∈ dlist_del k l <-> w <> k /\ w ∈ l.
Proof. unfold dlist_del. by rewrite list_elem_of_filter. Qed.

Lemma unvote_inv : vote_inv (gh_set_vtrs (gh_set_blks g m2) (delete k (gh_vtrs g))) T.
Proof using All.
  split; cbn.
  - intros j w [_ Hw]%lookup_delete_Some. by apply (vi_prev _ _ HV j w).
  - intros x b j Hb. unfold m2 in Hb. rewrite on_lookup in Hb. apply fmap_Some in Hb as (b1 & Hb1 & ->).
    destruct (m1_stake x b1 Hb1) as (b0 & Hb0 & _ & Ev).
    rewrite bump_vtrs, Ev. setoid_rewrite lookup_delete_Some. case_bool_decide as Ex.
    + rewrite dlist_del_elem, (vi_vtrs _ _ HV x b0 j Hb0). naive_solver.
    + rewrite (vi_vtrs _ _ HV x b0 j Hb0). split; [|naive_solver]. intros (w & Hw & E). exists w. split_and!; [|done|done].
      intros <-. apply Ex. rewrite <- E. unfold prev. congruence.
  - intros x b Hb. unfold m2 in Hb. rewrite on_lookup in Hb. apply fmap_Some in Hb as (b1 & Hb1 & ->).
    destruct (m1_stake x b1 Hb1) as (b0 & Hb0 & Es & _).
    pose proof (vi_stake _ _ HV x b0 Hb0) as E. rewrite (vsum_delete _ _ _ _ Hk) in E. unfold contrib at 1 in E. fold prev in E.
    case_bool_decide; cbn; lia.
Qed.
End Unvote.

(** * Counting a new vote *)

Section Vote.
Context (g : fd_ghost_t) (T : tree) (k : fd_pubkey_t) (blk : fd_hash_t) (stake slot : Z).
Hypothesis HT : tree_inv g T.
Hypothesis HV : vote_inv g T.
Hypothesis Hk : gh_vtrs g !! k = None.
Hypothesis Hblk : blk ∈ ids T.
Hypothesis Hstake : 0 <= stake.
Hypothesis Htotal : vsum gv_prev_stake (gh_vtrs g) + stake <= ULONG_MAX.

Let m1 := upd_blk (gh_blks g) blk (fun b => gb_set_vtrs b (gb_vtrs b ++ [k])).
Let m2 := on (anc T blk) (bump stake) m1.

Lemma vote_frames : frames (gh_blks g) m2.
Proof using Type. apply (frames_trans _ m1); [by apply frames_upd|by apply frames_on]. Qed.

Lemma m1_pushed x b : m1 !! x = Some b -> exists b0, gh_blks g !! x = Some b0 /\ gb_stake b = gb_stake b0 /\
  gb_vtrs b = if bool_decide (x = blk) then gb_vtrs b0 ++ [k] else gb_vtrs b0.
Proof using Type.
  unfold m1, upd_blk. destruct (decide (x = blk)) as [->|Hne].
  - rewrite lookup_alter_eq. intros (b0 & -> & ->)%fmap_Some. exists b0. by rewrite bool_decide_true.
  - rewrite lookup_alter_ne by done. intros Hb. exists b. by rewrite bool_decide_false.
Qed.

Lemma vote_ok fuel : (size (gh_blks g) < fuel)%nat -> add_stake fuel m1 (Some blk) stake = Ok m2.
Proof using All.
  intros Hfuel. destruct (anc_chain g T blk HT Hblk) as (Hc & Hnd & Hlen).
  assert (frames (gh_blks g) m1) as Hf by by apply frames_upd.
  apply add_stake_spec; [|done|lia|].
  - eapply chain_ext; [|exact Hc]. intros a b _ Ha. specialize (Hf a). rewrite Ha in Hf. inversion Hf as [? b' Hb E1 E2|].
    exists b'. split; [done|]. apply Hb.
  - intros a b Ha Hb. destruct (m1_pushed a b Hb) as (b0 & Hb0 & -> & _). rewrite (vi_stake _ _ HV a b0 Hb0).
    pose proof (vsum_le (contrib T a) gv_prev_stake (gh_vtrs g)) as Hle.
    assert (vsum (contrib T a) (gh_vtrs g) <= vsum gv_prev_stake (gh_vtrs g)); [|lia].
    apply Hle. intros j w Hw. apply contrib_bounds. by apply (vi_prev _ _ HV j w Hw).
Qed.

Lemma voted_inv : vote_inv (gh_set_vtrs (gh_set_blks g m2) (<[k := mk_ghost_vtr stake slot blk]> (gh_vtrs g))) T.
Proof using All.
  split; cbn.
  - intros j w [[-> <-]|[_ Hw]]%lookup_insert_Some; [done|]. by apply (vi_prev _ _ HV j w).
  - intros x b j Hb. unfold m2 in Hb. rewrite on_lookup in Hb. apply fmap_Some in Hb as (b1 & Hb1 & ->).
    destruct (m1_pushed x b1 Hb1) as (b0 & Hb0 & _ & Ev).
    rewrite bump_vtrs, Ev. setoid_rewrite lookup_insert_Some. case_bool_decide as Ex.
    + rewrite elem_of_app, list_elem_of_singleton, (vi_vtrs _ _ HV x b0 j Hb0). split.
      * intros [(w & Hw & E)| ->]; [exists w; split; [right; split; [congruence|done]|done]|by eexists; split; [left; done|]].
      * intros (w & [[E _]|[_ Hw]] & E'); [by right|left; eauto].
    + rewrite (vi_vtrs _ _ HV x b0 j Hb0). split.
      * intros (w & Hw & E). exists w. split; [right; split; [congruence|done]|done].
      * intros (w & [[_ E]|[_ Hw]] & E'); [subst w; by destruct Ex|eauto].
  - intros x b Hb. unfold m2 in Hb. rewrite on_lookup in Hb. apply fmap_Some in Hb as (b1 & Hb1 & ->).
    destruct (m1_pushed x b1 Hb1) as (b0 & Hb0 & Es & _).
    pose proof (vi_stake _ _ HV x b0 Hb0) as E. rewrite vsum_insert by done. unfold contrib at 1. cbn [gv_prev_block_id gv_prev_stake].
    case_bool_decide; cbn; lia.
Qed.
End Vote.
