(* ===== verification/GhostPublish.v ===== *)
(** Publishing a new root prunes every block outside of the new root's subtree,
    releases exactly the voters on the pruned blocks and keeps the invariants. *)
From S2P Require Import Prelude VotorBase Ghost GhostTree GhostInv GhostInsert.

(** * Pushing the children of a block *)

Lemma push_children_spec e (keep : fd_hash_t -> bool) m par ts :
  forest m par ts -> NoDup (map tid ts) ->
  forall fuel out queue steps, (length ts <= fuel)%nat -> (forall c, c ∈ map tid ts -> keep c = true -> c ∉ out) ->
  exists out', push_children fuel e keep m out (hd_id ts) queue steps =
    Ok (out', queue ++ filter (fun c => keep c = true) (map tid ts), steps + Z.of_nat (Nat.pred (length ts))) /\
    forall y, y ∈ out' <-> y ∈ out \/ (y ∈ map tid ts /\ keep y = true).
Proof.
  induction ts as [|t ts IH]; cbn [map]; intros Hf Hnd fuel out queue steps Hlen Hout.
  - exists out. split; [|intros y; split; [tauto|intros [?|[?%not_elem_of_nil _]]; done]].
    destruct fuel; cbn; by rewrite app_nil_r, Z.add_0_r.
  - destruct fuel as [|k]; [cbn in Hlen; lia|]. destruct Hf as [Hl Hf]. apply NoDup_cons in Hnd as [Ht Hnd].
    destruct (links_root _ _ _ _ Hl) as (b & Hb & _ & Hs & _). cbn [hd_id head fmap option_fmap option_map push_children].
    rewrite Hb. cbn [deref mbind outcome_bind]. rewrite Hs, filter_cons.
    set (steps' := match hd_id ts with Some _ => steps + 1 | None => steps end).
    assert (steps' + Z.of_nat (Nat.pred (length ts)) = steps + Z.of_nat (Nat.pred (length (t :: ts)))) as <-
      by (unfold steps'; destruct ts; cbn [hd_id head fmap option_fmap option_map length Nat.pred]; lia).
    destruct (keep (tid t)) eqn:Ek.
    + rewrite bool_decide_false by (apply Hout; [by left|done]). cbn [negb check mbind outcome_bind fst snd].
      rewrite decide_True by done.
      destruct (IH Hf Hnd k ({[tid t]} ∪ out) (queue ++ [tid t]) steps') as (out' & E & Ho); [cbn in Hlen; lia| |].
      { intros c Hc Hk [->%elem_of_singleton|Hin]%elem_of_union; [done|]. by apply (Hout c); [right|..]. }
      exists out'. split; [rewrite E, <- app_assoc; done|]. intros y. rewrite Ho, elem_of_union, elem_of_singleton, elem_of_cons. naive_solver.
    + cbn [mbind outcome_bind fst snd]. rewrite decide_False by done.
      destruct (IH Hf Hnd k out queue steps') as (out' & E & Ho); [cbn in Hlen; lia| |].
      { intros c Hc Hk. by apply Hout; [right|]. }
      exists out'. split; [done|]. intros y. rewrite Ho, elem_of_cons. split; [naive_solver|].
      intros [?|[[->|?] ?]]; [by left|congruence|by right].
Qed.

Lemma tids_nodup ts : NoDup (fids ts) -> NoDup (map tid ts).
Proof.
  induction ts as [|[y us] ts IH]; cbn; [done|]. intros [Hy Hnd]%NoDup_cons. constructor; [|apply IH; by apply NoDup_app in Hnd as (_ & _ & ?)].
  intros (t & E & Ht)%list_elem_of_fmap. apply Hy, elem_of_app. right. apply fids_elem. exists t. split; [done|]. rewrite E. destruct t; by left.
Qed.

Lemma tid_in t : tid t ∈ ids t.
Proof. destruct t; cbn; by left. Qed.

(** * What publishing prunes *)

Section Prune.
Context (newr : fd_hash_t).

(** The blocks outside of [newr]'s subtree, and the forks they make. *)
Fixpoint pids (t : tree) : list fd_hash_t :=
  match t with Node x ts => x :: concat (map (fun t => if bool_decide (tid t = newr) then [] else pids t) ts) end.
Fixpoint pforks (t : tree) : Z :=
  match t with
  | Node _ ts => Z.of_nat (Nat.pred (length ts)) + lsum (fun t => if bool_decide (tid t = newr) then 0 else pforks t) ts
  end.

Definition others (ts : list tree) : list tree := filter (fun t => tid t <> newr) ts.
Abbreviation fpids ts := (concat (map pids ts)).

Lemma pids_others ts : concat (map (fun t => if bool_decide (tid t = newr) then [] else pids t) ts) = fpids (others ts).
Proof.
  unfold others. induction ts as [|t ts IH]; [done|]. cbn [map concat]. rewrite filter_cons, IH.
  case_bool_decide; [rewrite decide_False by tauto|rewrite decide_True by done]; done.
Qed.

Lemma pforks_others ts : lsum (fun t => if bool_decide (tid t = newr) then 0 else pforks t) ts = lsum pforks (others ts).
Proof.
  unfold others. induction ts as [|t ts IH]; [done|]. rewrite filter_cons.
  change (lsum (fun t => if bool_decide (tid t = newr) then 0 else pforks t) (t :: ts)) with
    ((if bool_decide (tid t = newr) then 0 else pforks t) + lsum (fun t => if bool_decide (tid t = newr) then 0 else pforks t) ts).
  rewrite IH. case_bool_decide; [rewrite decide_False by tauto|rewrite decide_True by done]; [lia|done].
Qed.

Lemma others_id ts : newr ∉ fids ts -> others ts = ts.
Proof.
  unfold others. induction ts as [|t ts IH]; cbn [map concat]; [done|]. rewrite not_elem_of_app. intros [H1 H2].
  rewrite filter_cons, decide_True; [by rewrite IH|]. intros <-. by apply H1, tid_in.
Qed.

Lemma pids_away t : newr ∉ ids t -> pids t = ids t.
Proof.
  induction t as [x ts IH] using tree_rect'. cbn [ids pids]. intros [_ Hn]%not_elem_of_cons. f_equal.
  rewrite pids_others, others_id by done. induction IH as [|t ts Ht _ IHts]; cbn in *; [done|].
  apply not_elem_of_app in Hn as [H1 H2]. by rewrite Ht, IHts.
Qed.

Lemma pforks_away t : newr ∉ ids t -> pforks t = forks t.
Proof.
  induction t as [x ts IH] using tree_rect'. cbn [ids pforks forks]. intros [_ Hn]%not_elem_of_cons. f_equal.
  rewrite pforks_others, others_id by done. induction IH as [|t ts Ht _ IHts]; cbn in *; [done|].
  apply not_elem_of_app in Hn as [H1 H2]. unfold lsum in *. cbn. by rewrite Ht, IHts.
Qed.

(** The tree is what is pruned and the subtree that stays. *)
Lemma sub_split T s :
  NoDup (ids T) -> tid T <> newr -> sub T newr = Some s ->
  ids T ≡ₚ pids T ++ ids s /\ forks T = pforks T + forks s.
Proof.
  induction T as [x ts IH] using tree_rect'. intros Hnd Hx. rewrite sub_node. rewrite bool_decide_false by (cbn in Hx; congruence).
  cbn [ids pids forks pforks] in *. apply NoDup_cons in Hnd as [_ Hnd]. intros Hs.
  assert (fids ts ≡ₚ fpids (others ts) ++ ids s /\ lsum forks ts = lsum pforks (others ts) + forks s) as [E1 E2].
  2:{ rewrite pids_others, pforks_others, E1, E2. split; [done|lia]. }
  clear Hx x. revert Hnd Hs. unfold others. induction IH as [|t ts Ht _ IHts]; cbn [fsub map concat]; [done|].
  intros (N1 & Nd & N2)%NoDup_app. rewrite filter_cons. change (lsum forks (t :: ts)) with (forks t + lsum forks ts).
  destruct (sub t newr) as [s'|] eqn:Es.
  - intros [= ->]. assert (newr ∈ ids t) as Hin by (rewrite <- (sub_tid _ _ _ Es); eapply sub_ids; [done|apply tid_in]).
    assert (newr ∉ fids ts) as Hout by by apply Nd.
    assert (fpids ts = fids ts /\ lsum pforks ts = lsum forks ts) as [Ep Ef].
    { clear -Hout. induction ts as [|t ts IH]; [done|]. cbn in Hout. apply not_elem_of_app in Hout as [H1 H2].
      destruct (IH H2) as [I1 I2]. cbn. rewrite pids_away, I1 by done. split; [done|].
      unfold lsum in *. cbn. rewrite I2, pforks_away by done. done. }
    pose proof (others_id ts Hout) as Eo. unfold others in Eo. rewrite Eo. destruct (decide (tid t = newr)) as [Et|Et].
    + rewrite decide_False by tauto. rewrite <- Et, sub_self in Es. injection Es as <-. rewrite Ep, Ef. split; [apply Permutation_app_comm|lia].
    + rewrite decide_True by done. destruct (Ht N1 Et eq_refl) as [I1 I2].
      cbn [map concat]. change (lsum pforks (t :: ts)) with (pforks t + lsum pforks ts).
      rewrite Ep, Ef, I1, I2. split; [|lia]. rewrite <- !app_assoc. apply Permutation_app_head, Permutation_app_comm.
  - intros Hs. destruct (IHts N2 Hs) as [I1 I2]. assert (newr ∉ ids t) as Hout by (intros [? ?]%sub_is_Some; congruence).
    rewrite decide_True by (intros <-; by apply Hout, tid_in). cbn [map concat].
    match goal with |- context [lsum pforks (t :: ?l)] => change (lsum pforks (t :: l)) with (pforks t + lsum pforks l) end.
    rewrite I1, I2, (pids_away t), (pforks_away t) by done. split; [by rewrite app_assoc|lia].
Qed.

Lemma others_elem t qs ts : t ∈ qs ++ others ts -> t ∈ qs \/ t ∈ ts.
Proof. intros [?|H]%elem_of_app; [by left|right]. unfold others in H. by apply list_elem_of_filter in H as [_ ?]. Qed.

Lemma others_fids qs ts : fids (qs ++ others ts) ⊆+ fids ts ++ fids qs.
Proof.
  rewrite fids_app. rewrite (Permutation_app_comm (fids qs)). apply submseteq_app; [|done]. unfold others.
  induction ts as [|t ts IH]; [done|]. rewrite filter_cons. case_decide; cbn [map concat]; [by apply submseteq_app|].
  by apply submseteq_inserts_l.
Qed.

Lemma others_tids qs ts :
  map tid qs ++ filter (fun c => negb (bool_decide (c = newr)) = true) (map tid ts) = map tid (qs ++ others ts).
Proof.
  rewrite map_app. f_equal. unfold others. induction ts as [|t ts IH]; [done|]. cbn [map]. rewrite !filter_cons, IH.
  destruct (decide (tid t = newr)) as [E|E].
  - rewrite !decide_False; [done|tauto|by rewrite bool_decide_true].
  - rewrite !decide_True; [done|done|by rewrite bool_decide_false].
Qed.

Lemma pforks_nonneg ts : 0 <= lsum pforks ts.
Proof.
  apply lsum_nonneg. intros t _. induction t as [y us IH] using tree_rect'. cbn [pforks]. rewrite pforks_others.
  assert (0 <= lsum pforks (others us)); [|lia]. apply lsum_nonneg. intros t Ht.
  apply (others_elem t [] us) in Ht as [?%not_elem_of_nil|Ht]; [done|]. by eapply Forall_forall in IH.
Qed.
End Prune.

(** * The prune walk *)

Lemma foldl_delete_lookup (vs : gmap fd_pubkey_t fd_ghost_vtr_t) l k :
  foldl (fun vs v => delete v vs) vs l !! k = if bool_decide (k ∈ l) then None else vs !! k.
Proof.
  revert vs. induction l as [|v l IH]; intros vs; cbn [foldl]; [done|]. rewrite IH.
  destruct (decide (k ∈ l)) as [H|H].
  - rewrite !bool_decide_true by (by right || done). done.
  - rewrite (bool_decide_false (k ∈ l)) by done. destruct (decide (k = v)) as [->|Hne].
    + rewrite lookup_delete_eq, bool_decide_true by (by left). done.
    + rewrite lookup_delete_ne, bool_decide_false; [done|rewrite elem_of_cons; tauto|done].
Qed.

(** The dlist of a block holds the voters whose latest vote is for it. *)
Definition parked (g : fd_ghost_t) : Prop :=
  forall x b k, gh_blks g !! x = Some b -> (k ∈ gb_vtrs b <-> exists v, gh_vtrs g !! k = Some v /\ gv_prev_block_id v = x).

(** [g'] is [g] without the blocks of [P] and the voters on them. *)
Record pruned (P : list fd_hash_t) (g g' : fd_ghost_t) : Prop := {
  pr_blks : forall y, gh_blks g' !! y = if bool_decide (y ∈ P) then None else gh_blks g !! y;
  pr_vtrs : forall k, gh_vtrs g' !! k =
    match gh_vtrs g !! k with Some v => if bool_decide (gv_prev_block_id v ∈ P) then None else Some v | None => None end;
  pr_root : gh_root g' = gh_root g;
  pr_blk_max : gh_blk_max g' = gh_blk_max g;
  pr_vtr_max : gh_vtr_max g' = gh_vtr_max g
}.

Lemma pruned_nil g w : pruned [] g (gh_set_width g w).
Proof. split; cbn; try done. intros k. by destruct (gh_vtrs g !! k). Qed.

Lemma pruned_trans P1 P2 P g1 g2 g3 :
  (forall y, y ∈ P <-> y ∈ P1 \/ y ∈ P2) -> pruned P1 g1 g2 -> pruned P2 g2 g3 -> pruned P g1 g3.
Proof.
  intros HP [B1 V1 R1 M1 N1] [B2 V2 R2 M2 N2]. split; [| |congruence..].
  - intros y. rewrite B2, B1. rewrite (bool_decide_ext (y ∈ P) (y ∈ P1 \/ y ∈ P2)) by apply HP. repeat case_bool_decide; tauto.
  - intros k. rewrite V2, V1. destruct (gh_vtrs g1 !! k) as [v|]; [|done].
    rewrite (bool_decide_ext (gv_prev_block_id v ∈ P) (gv_prev_block_id v ∈ P1 \/ gv_prev_block_id v ∈ P2)) by apply HP.
    repeat case_bool_decide; tauto.
Qed.

(** One step prunes one block and the voters parked on it. *)
Lemma prune_one g x b w :
  parked g -> gh_blks g !! x = Some b ->
  let g' := gh_set_blks (gh_set_vtrs (gh_set_width g w) (foldl (fun vs v => delete v vs) (gh_vtrs g) (gb_vtrs b))) (delete x (gh_blks g)) in
  pruned [x] g g' /\ parked g'.
Proof.
  intros HP Hb g'. assert (pruned [x] g g') as Hpr.
  { split; cbn; try done.
    - intros y. destruct (decide (y = x)) as [->|Hne].
      + rewrite lookup_delete_eq, bool_decide_true by (by left). done.
      + rewrite lookup_delete_ne, bool_decide_false by (done || by rewrite list_elem_of_singleton). done.
    - intros k. rewrite foldl_delete_lookup. destruct (gh_vtrs g !! k) as [v|] eqn:Ev; [|by case_bool_decide].
      rewrite (bool_decide_ext (k ∈ gb_vtrs b) (gv_prev_block_id v ∈ [x])); [done|].
      rewrite (HP x b k Hb), list_elem_of_singleton. naive_solver. }
  split; [done|]. intros y c k Hy. rewrite (pr_blks _ _ _ Hpr) in Hy. case_bool_decide as E; [done|].
  rewrite (HP y c k Hy). rewrite (pr_vtrs _ _ _ Hpr). split.
  - intros (v & Hv & Ev). exists v. rewrite Hv, bool_decide_false by congruence. done.
  - intros (v & Hv & Ev). destruct (gh_vtrs g !! k) as [v'|]; [|done]. case_bool_decide; naive_solver.
Qed.

Lemma prune_walk_spec newr fuel g out qs :
  (length (concat (map (pids newr) qs)) <= fuel)%nat -> NoDup (fids qs) ->
  (forall t, t ∈ qs -> exists par sib, links (gh_blks g) par sib t) ->
  (forall t y, t ∈ qs -> y ∈ fids (kids t) -> y ∉ out) ->
  parked g -> 0 <= gh_width g - lsum (pforks newr) qs -> gh_width g <= ULONG_MAX ->
  exists g', prune_walk fuel newr g out (map tid qs) = Ok g' /\ pruned (concat (map (pids newr) qs)) g g' /\
    gh_width g' = gh_width g - lsum (pforks newr) qs.
Proof.
  revert g out qs. induction fuel as [|fuel IH]; intros g out [|[x ts] qs] Hlen Hnd Hl Hout HP Hw Hw'.
  1,3: exists g; split; [done|]; split; [|cbn; lia]; pose proof (pruned_nil g (gh_width g)) as Hn; by destruct g.
  { cbn in Hlen. lia. }
  assert (lsum (pforks newr) (Node x ts :: qs) =
    Z.of_nat (Nat.pred (length ts)) + lsum (pforks newr) (others newr ts) + lsum (pforks newr) qs) as Ew
    by (rewrite <- (pforks_others newr ts); done).
  destruct (Hl (Node x ts) ltac:(by left)) as (par & sib & Hlx). change (NoDup (x :: fids ts ++ fids qs)) in Hnd. apply NoDup_cons in Hnd as [Hx Hnd].
  pose proof (proj1 (NoDup_app _ _) Hnd) as (Nts & Nd & Nqs).
  destruct (links_root _ _ _ _ Hlx) as (b & Hb & _ & _ & Hc). pose proof (links_kids _ _ _ _ Hlx) as Hf. cbn [tid kids] in *.
  destruct (push_children_spec NullPtr (fun c => negb (bool_decide (c = newr))) (gh_blks g) (Some x) ts Hf (tids_nodup _ Nts)
    (tree_fuel (gh_blks g)) out (map tid qs) 0) as (out' & Ep & Ho).
  { pose proof (kids_size _ _ _ Hf Nts). unfold tree_fuel. lia. }
  { intros c (t & -> & Ht)%list_elem_of_fmap _. apply (Hout (Node x ts)); [by left|]. apply fids_elem. exists t. split; [done|apply tid_in]. }
  cbn [prune_walk map tid]. rewrite Hb. cbn [deref mbind outcome_bind]. rewrite Hc, Ep, (others_tids newr qs ts). cbn [mbind outcome_bind fst snd].
  set (w := gh_width g -w (0 + Z.of_nat (Nat.pred (length ts)))).
  pose proof (pforks_nonneg newr (others newr ts)) as F1. pose proof (pforks_nonneg newr qs) as F2.
  assert (w = gh_width g - Z.of_nat (Nat.pred (length ts))) as Ew1 by (unfold w; rewrite Z.add_0_l; apply u64_sub_small; unfold is_u64; lia).
  destruct (prune_one g x b w HP Hb) as [Hpr HP']. cbn [gh_set_width gh_vtrs gh_set_vtrs gh_blks gh_set_blks] in *.
  set (g1 := gh_set_blks _ _) in *.
  pose proof (fun t => others_elem newr t qs ts) as Hin.
  destruct (IH g1 out' (qs ++ others newr ts)) as (g' & Eg & Hp' & Ewid).
  - rewrite map_app, concat_app, length_app. cbn [map concat pids length] in Hlen. rewrite pids_others in Hlen. rewrite length_app in Hlen. cbn in Hlen. lia.
  - destruct (submseteq_Permutation _ _ (others_fids newr qs ts)) as [k Ek]. rewrite Ek in Hnd. by apply NoDup_app in Hnd as [? _].
  - intros t Ht. assert (x ∉ ids t) as Hxt.
    { intros H. apply Hx. apply elem_of_app. destruct (Hin t Ht) as [H'|H']; [right|left]; apply fids_elem; eauto. }
    assert (exists par sib, links (gh_blks g) par sib t) as (par' & sib' & Hl').
    { destruct (Hin t Ht) as [H|H]; [by apply Hl; right|]. destruct (forest_elem _ _ _ _ Hf H) as [s' ?]. eauto. }
    exists par', sib'. eapply links_ext; [|exact Hl']. intros y c Hy Hc'. exists c. split; [|done]. cbn.
    rewrite lookup_delete_ne; [done|]. intros ->. done.
  - intros t y Ht Hy. rewrite Ho. intros [H|[H _]].
    + destruct (Hin t Ht) as [H'|H']; [by apply (Hout t y); [right|..]|]. apply (Hout (Node x ts) y); [by left| |done].
      cbn [kids]. apply fids_elem. exists t. split; [done|]. destruct t; cbn in *. by right.
    + apply list_elem_of_fmap in H as (t' & -> & Ht'). destruct (Hin t Ht) as [H'|H'].
      * apply (Nd (tid t')); apply fids_elem; [exists t'; split; [done|apply tid_in]|exists t; split; [done|]; destruct t; cbn in *; by right].
      * assert (t = t') as -> by (eapply (fids_same ts); try done; [destruct t; cbn in *; by right|apply tid_in]).
        pose proof (NoDup_fids_elem _ _ Nts H') as N. destruct t'; cbn in *. by apply NoDup_cons in N as [? _].
  - done.
  - change (gh_width g1) with w. rewrite lsum_app. lia.
  - change (gh_width g1) with w. lia.
  - exists g'. split; [done|]. split.
    + eapply pruned_trans; [|exact Hpr|exact Hp']. intros y. cbn [map concat pids].
      rewrite pids_others, map_app, concat_app, elem_of_app, elem_of_cons, elem_of_app, list_elem_of_singleton. tauto.
    + rewrite Ewid, lsum_app. change (gh_width g1) with w. lia.
Qed.

(** * Publishing *)

Lemma vote_inv_parked g T : vote_inv g T -> parked g.
Proof. intros HV x b k. apply (vi_vtrs _ _ HV). Qed.

(** The subtree that stays keeps its blocks but for the links of the new root. *)
Definition unlink (b : fd_ghost_blk_t) : fd_ghost_blk_t := gb_set_links b None (gb_child b) None.

Section Publish.
Context (g g1 : fd_ghost_t) (T s : tree).
Hypothesis HT : tree_inv g T.
Hypothesis HV : vote_inv g T.
Hypothesis Hne : tid T <> tid s.
Hypothesis Hs : sub T (tid s) = Some s.
Hypothesis Hp : pruned (pids (tid s) T) g g1.
Hypothesis Hw : gh_width g1 = gh_width g - pforks (tid s) T.

Let g' := gh_set_root (gh_set_blks g1 (upd_blk (gh_blks g1) (tid s) unlink)) (Some (tid s)).

Lemma kept_or_pruned y : y ∈ ids T -> (y ∉ pids (tid s) T <-> y ∈ ids s).
Proof using HT Hne Hs.
  destruct (sub_split (tid s) T s (ti_nodup _ _ HT) Hne Hs) as [E _].
  pose proof (ti_nodup _ _ HT) as Hnd. rewrite E in Hnd. apply NoDup_app in Hnd as (_ & Hd & _).
  rewrite E, elem_of_app. intros [H|H]; split; [done|intros Hy; by destruct (Hd y)|done|intros _ Hy; by apply (Hd y)].
Qed.

Lemma publish_lookup y :
  gh_blks g' !! y = if bool_decide (y ∈ ids s) then (if bool_decide (y = tid s) then unlink else id) <$> gh_blks g !! y else None.
Proof using HT Hne Hs Hp.
  cbn. unfold upd_blk. assert (gh_blks g1 !! y = if bool_decide (y ∈ ids s) then gh_blks g !! y else None) as E.
  { rewrite (pr_blks _ _ _ Hp). destruct (decide (y ∈ ids T)) as [Hy|Hy].
    - pose proof (kept_or_pruned y Hy). repeat case_bool_decide; tauto.
    - assert (gh_blks g !! y = None) as -> by (apply eq_None_not_Some; by intros ?%(ti_dom _ _ HT)). by repeat case_bool_decide. }
  destruct (decide (y = tid s)) as [->|Hy].
  - rewrite lookup_alter_eq, E, (bool_decide_true (tid s = tid s)) by done. by case_bool_decide.
  - rewrite lookup_alter_ne, E, (bool_decide_false (y = tid s)) by done. case_bool_decide; [|done]. by destruct (gh_blks g !! y).
Qed.

Lemma publish_tree : tree_inv g' s.
Proof using All.
  pose proof (ti_nodup _ _ HT) as Hnd. pose proof (sub_nodup _ _ _ Hnd Hs) as Hnds. split; [done| |done| |].
  - destruct (sub_links _ _ _ _ _ _ (ti_links _ _ HT) Hs) as (par & sib & Hl). pose proof publish_lookup as Hlk. clearbody g'.
    destruct s as [x ts]. cbn [tid ids] in *. apply links_node in Hl as [(b & Hb & _ & _ & Hc) Hf]. apply links_node. split.
    + exists (unlink b). rewrite Hlk, (bool_decide_true (x = x)), bool_decide_true, Hb by (by left || done). done.
    + apply forest_ext with (gh_blks g); [|done]. intros y c Hy Hyc. exists c. split; [|done].
      apply NoDup_cons in Hnds as [Hx _]. rewrite Hlk, bool_decide_true, bool_decide_false, Hyc by ((by right) || by intros ->). done.
  - intros y. rewrite publish_lookup. split.
    + case_bool_decide; [done|by intros [? ?]].
    + intros Hy. rewrite bool_decide_true by done. apply fmap_is_Some. apply (ti_dom _ _ HT). by eapply sub_ids.
  - cbn. rewrite Hw, (ti_width _ _ HT), !leaves_forks. destruct (sub_split (tid s) T s Hnd Hne Hs) as [_ ->]. lia.
Qed.

Lemma publish_vtrs k v : gh_vtrs g' !! k = Some v <-> gh_vtrs g !! k = Some v /\ gv_prev_block_id v ∈ ids s.
Proof using HT HV Hne Hs Hp.
  cbn. rewrite (pr_vtrs _ _ _ Hp). destruct (gh_vtrs g !! k) as [w|] eqn:E; [|naive_solver].
  destruct (vi_prev _ _ HV k w E) as [Hw' _]. pose proof (kept_or_pruned _ Hw'). case_bool_decide; naive_solver.
Qed.

Lemma publish_votes : vote_inv g' s.
Proof using All.
  pose proof (ti_nodup _ _ HT) as Hnd. pose proof publish_lookup as Hlk. pose proof publish_vtrs as Hv.
  assert (forall y b, gh_blks g' !! y = Some b -> y ∈ ids s /\ exists b0, gh_blks g !! y = Some b0 /\ gb_vtrs b = gb_vtrs b0 /\ gb_stake b = gb_stake b0) as Hb.
  { intros y b. rewrite Hlk. case_bool_decide as Hy; [|done]. intros (b0 & Hb0 & ->)%fmap_Some. split; [done|]. exists b0. by case_bool_decide. }
  clearbody g'. split.
  - intros k v [Hk Hin]%Hv. by destruct (vi_prev _ _ HV k v Hk).
  - intros y b k [Hy (b0 & Hb0 & -> & _)]%Hb. rewrite (vi_vtrs _ _ HV y b0 k Hb0). setoid_rewrite Hv. naive_solver.
  - intros y b [Hy (b0 & Hb0 & _ & ->)]%Hb. rewrite (vi_stake _ _ HV y b0 Hb0).
    rewrite (vsum_subset (contrib T y) (gh_vtrs g) (gh_vtrs g')).
    + apply vsum_ext. intros k v _. unfold contrib. rewrite (bool_decide_ext _ _ (anc_in_sub T (tid s) s y (gv_prev_block_id v) Hnd Hs Hy)). done.
    + apply map_subseteq_spec. intros k v [Hk _]%Hv. done.
    + intros k v Hk Hn. unfold contrib. rewrite bool_decide_false; [done|]. rewrite (anc_in_sub T (tid s) s y _ Hnd Hs Hy). intros Hin%anc_dom.
      assert (gh_vtrs g' !! k = Some v) by (by apply Hv). congruence.
Qed.
End Publish.

Lemma publish_inv g T newr :
  tree_inv g T -> vote_inv g T -> newr ∈ ids T -> leaves T <= ULONG_MAX ->
  exists g' s, fd_ghost_publish g newr = Ok g' /\ sub T newr = Some s /\ tree_inv g' s /\ vote_inv g' s /\
    (forall k v, gh_vtrs g' !! k = Some v <-> gh_vtrs g !! k = Some v /\ gv_prev_block_id v ∈ ids s) /\
    (forall y b, gh_blks g' !! y = Some b -> exists b0, gh_blks g !! y = Some b0 /\ same_votes b0 b).
Proof.
  intros HT HV Hin Hmax. destruct (sub_is_Some T newr Hin) as [s Hs]. pose proof (sub_tid _ _ _ Hs) as <-.
  unfold fd_ghost_publish. rewrite (ti_root _ _ HT). cbn [deref mbind outcome_bind]. case_bool_decide as E.
  - rewrite <- E, sub_self in Hs. injection Hs as ->. exists g, s. rewrite sub_self. split_and!; [done..| |].
    + intros k v. split; [|tauto]. intros Hk. by destruct (vi_prev _ _ HV k v Hk).
    + intros y b Hb. by exists b.
  - pose proof (ti_nodup _ _ HT) as Hnd. destruct (sub_split (tid s) T s Hnd E Hs) as [Ei Ef].
    pose proof (forks_nonneg s). pose proof (ti_width _ _ HT) as Hw. rewrite leaves_forks in Hw. rewrite leaves_forks in Hmax.
    assert (concat (map (pids (tid s)) [T]) = pids (tid s) T) as Ep by (cbn; by rewrite app_nil_r).
    assert (lsum (pforks (tid s)) [T] = pforks (tid s) T) as Epf by (cbn; lia).
    destruct (prune_walk_spec (tid s) (tree_fuel (gh_blks g)) g {[tid T]} [T]) as (g1 & Eg & Hp & Hw1).
    + rewrite Ep. pose proof (tree_inv_size g T HT). rewrite Ei, length_app in *. unfold tree_fuel. lia.
    + cbn. by rewrite app_nil_r.
    + intros t ->%list_elem_of_singleton. eexists _, _. apply HT.
    + intros t y ->%list_elem_of_singleton Hy ->%elem_of_singleton. destruct T as [x ts]. cbn in *. by apply NoDup_cons in Hnd as [? _].
    + by eapply vote_inv_parked.
    + rewrite Epf. lia.
    + lia.
    + cbn [map] in Eg. rewrite Eg. cbn [mbind outcome_bind]. rewrite Ep in Hp. rewrite Epf in Hw1.
      eexists _, s. split; [done|]. split; [done|]. split; [by apply (publish_tree g g1 T s)|].
      split; [by apply (publish_votes g g1 T s)|]. split; [by apply (publish_vtrs g g1 T s)|].
      intros y b. rewrite (publish_lookup g g1 T s HT E Hs Hp). case_bool_decide; [|done].
      intros (b0 & Hb0 & ->)%fmap_Some. exists b0. split; [done|]. by case_bool_decide.
Qed.
