(* ===== verification/GhostChoice.v ===== *)
(** Fork choice: the best block is reached from the root by always stepping to
    the heaviest valid child, and the deepest block is at the largest depth. *)
From S2P Require Import Prelude VotorBase Ghost GhostTree GhostInv GhostInsert GhostPublish.

(** * The best block *)

(** At least as good: more stake, or as much stake and not a higher slot. *)
Definition beats (b c : fd_ghost_blk_t) : Prop :=
  gb_stake c < gb_stake b \/ (gb_stake c = gb_stake b /\ gb_slot b <= gb_slot c).

Lemma heavier_spec c b : if heavier c b then beats c b else beats b c.
Proof.
  unfold heavier, beats. destruct (Z.eqb_spec (gb_stake c) (gb_stake b)).
  - destruct (Z.ltb_spec (gb_slot c) (gb_slot b)); lia.
  - destruct (Z.ltb_spec (gb_stake b) (gb_stake c)); lia.
Qed.

Lemma beats_refl b : beats b b. Proof. unfold beats. lia. Qed.
Lemma beats_trans a b c : beats a b -> beats b c -> beats a c. Proof. unfold beats. lia. Qed.

(** The greedy descent: step to a valid child that no valid sibling beats,
    stop where no child is valid. *)
Inductive greedy (m : blks) : tree -> fd_hash_t -> Prop :=
| greedy_stop x ts :
    (forall t b, t ∈ ts -> m !! tid t = Some b -> gb_valid b = false) -> greedy m (Node x ts) x
| greedy_step x ts t b y :
    t ∈ ts -> m !! tid t = Some b -> gb_valid b = true ->
    (forall t' b', t' ∈ ts -> m !! tid t' = Some b' -> gb_valid b' = true -> beats b b') ->
    greedy m t y -> greedy m (Node x ts) y.

Section Best.
Context (m : blks) (par : option fd_hash_t).

Definition valid_kid (ts : list tree) (r : fd_hash_t) (br : fd_ghost_blk_t) : Prop :=
  exists t, t ∈ ts /\ tid t = r /\ m !! r = Some br /\ gb_valid br = true.
Definition unbeaten (ts : list tree) (br : fd_ghost_blk_t) : Prop :=
  forall t b, t ∈ ts -> m !! tid t = Some b -> gb_valid b = true -> beats br b.

Lemma unbeaten_cons t ts b br :
  m !! tid t = Some b -> (gb_valid b = true -> beats br b) -> unbeaten ts br -> unbeaten (t :: ts) br.
Proof. intros Hb H1 H2 t' b' [->|Ht]%elem_of_cons Hb' Hv; [assert (b' = b) as -> by congruence; auto|by apply (H2 t' b')]. Qed.

Lemma valid_kid_cons t ts r br : valid_kid ts r br -> valid_kid (t :: ts) r br.
Proof. intros (t' & Ht & E). exists t'. split; [by right|done]. Qed.

Lemma best_child_some fuel ts best bb :
  forest m par ts -> (length ts <= fuel)%nat -> m !! best = Some bb ->
  exists r br, best_child fuel m (hd_id ts) best true = Ok (r, true) /\ ((r = best /\ br = bb) \/ valid_kid ts r br) /\
    beats br bb /\ unbeaten ts br.
Proof using Type.
  revert ts best bb. induction fuel as [|k IH]; intros [|t ts] best bb Hf Hlen Hbb; cbn [length] in Hlen; try lia.
  1,2: exists best, bb; split_and!; [done|by left|apply beats_refl|by intros t b ?%not_elem_of_nil].
  destruct Hf as [Hl Hf]. destruct (links_root _ _ _ _ Hl) as (b & Hb & _ & Hs & _).
  cbn [hd_id head fmap option_fmap option_map best_child]. rewrite Hb. cbn [deref mbind outcome_bind]. destruct (gb_valid b) eqn:Ev.
  - rewrite Hbb. cbn [deref mbind outcome_bind fst snd]. pose proof (heavier_spec b bb) as Hh. rewrite Hs. destruct (heavier b bb) eqn:Eh.
    + destruct (IH ts (tid t) b Hf ltac:(lia) Hb) as (r & br & -> & Hr & H1 & H2). exists r, br. split; [done|]. split_and!.
      * right. destruct Hr as [[-> ->]|Hr]; [exists t; split; [by left|done]|by apply valid_kid_cons].
      * by eapply beats_trans.
      * by eapply unbeaten_cons.
    + destruct (IH ts best bb Hf ltac:(lia) Hbb) as (r & br & -> & Hr & H1 & H2). exists r, br. split; [done|]. split_and!.
      * destruct Hr as [?|Hr]; [by left|right; by apply valid_kid_cons].
      * done.
      * eapply unbeaten_cons; [done|intros _; by eapply beats_trans|done].
  - cbn [mbind outcome_bind fst snd]. rewrite Hs. destruct (IH ts best bb Hf ltac:(lia) Hbb) as (r & br & -> & Hr & H1 & H2).
    exists r, br. split; [done|]. split_and!; [|done|eapply unbeaten_cons; [done|congruence|done]].
    destruct Hr as [?|Hr]; [by left|right; by apply valid_kid_cons].
Qed.

Lemma best_child_none fuel ts best :
  forest m par ts -> (length ts <= fuel)%nat ->
  (best_child fuel m (hd_id ts) best false = Ok (best, false) /\ forall t b, t ∈ ts -> m !! tid t = Some b -> gb_valid b = false) \/
  exists r br, best_child fuel m (hd_id ts) best false = Ok (r, true) /\ valid_kid ts r br /\ unbeaten ts br.
Proof using Type.
  revert ts. induction fuel as [|k IH]; intros [|t ts] Hf Hlen; cbn [length] in Hlen; try lia.
  1,2: left; split; [done|by intros t b ?%not_elem_of_nil].
  destruct Hf as [Hl Hf]. destruct (links_root _ _ _ _ Hl) as (b & Hb & _ & Hs & _).
  cbn [hd_id head fmap option_fmap option_map best_child]. rewrite Hb. cbn [deref mbind outcome_bind]. destruct (gb_valid b) eqn:Ev.
  - right. cbn [deref mbind outcome_bind fst snd]. rewrite Hs.
    destruct (best_child_some k ts (tid t) b Hf ltac:(lia) Hb) as (r & br & E & Hr & H1 & H2). exists r, br. split; [by destruct (heavier b b)|]. split.
    + destruct Hr as [[-> ->]|Hr]; [exists t; split; [by left|done]|by apply valid_kid_cons].
    + by eapply unbeaten_cons.
  - cbn [mbind outcome_bind fst snd]. rewrite Hs. destruct (IH ts Hf ltac:(lia)) as [[-> Hall]|(r & br & -> & Hr & H2)]; [left|right].
    + split; [done|]. intros t' b' [->|Ht]%elem_of_cons Hb'; [congruence|by apply (Hall t')].
    + exists r, br. split; [done|]. split; [by apply valid_kid_cons|]. eapply unbeaten_cons; [done|congruence|done].
Qed.
End Best.

Lemma NoDup_kids t : NoDup (ids t) -> NoDup (fids (kids t)).
Proof. destruct t. cbn. by intros [_ ?]%NoDup_cons. Qed.

Lemma kid_smaller (t : tree) ts : t ∈ ts -> (length (ids t) <= length (fids ts))%nat.
Proof.
  intros Ht. apply list_elem_of_split in Ht as (l1 & l2 & ->). rewrite fids_app. cbn. rewrite !length_app. lia.
Qed.

Lemma best_walk_spec m fuel par sib t :
  links m par sib t -> NoDup (ids t) -> (length (ids t) <= fuel)%nat ->
  exists y, best_walk fuel m (tid t) = Ok y /\ greedy m t y.
Proof.
  revert par sib t. induction fuel as [|k IH]; intros par sib [x ts] Hl Hnd Hlen; cbn [ids length] in Hlen; [lia|].
  pose proof (NoDup_kids _ Hnd) as Hnk. pose proof (links_kids _ _ _ _ Hl) as Hf.
  destruct (links_root _ _ _ _ Hl) as (b & Hb & _ & _ & Hc). cbn [tid kids] in *.
  cbn [best_walk]. rewrite Hb. cbn [deref mbind outcome_bind]. rewrite Hc. destruct (hd_id ts) as [c|] eqn:Ets.
  2:{ destruct ts; [|done]. exists x. split; [done|]. constructor. by intros t b' ?%not_elem_of_nil. }
  rewrite <- Ets. clear Ets.
  destruct (best_child_none m (Some x) (tree_fuel m) ts x Hf) as [[-> Hall]|(r & br & -> & (t & Ht & <- & Hr & Hv) & Hu)].
  { pose proof (kids_size _ _ _ Hf Hnk). unfold tree_fuel. lia. }
  - exists x. split; [done|]. by constructor.
  - destruct (forest_elem _ _ _ _ Hf Ht) as [sib' Hl']. pose proof (kid_smaller t ts Ht).
    destruct (IH (Some x) sib' t Hl' (NoDup_fids_elem _ _ Hnk Ht) ltac:(lia)) as (y & Ey & Hg).
    exists y. cbn [mbind outcome_bind fst snd]. split; [done|]. by econstructor.
Qed.

(** * The deepest block *)

(** [d] grows by one from a block to its children. *)
Fixpoint graded (d : fd_hash_t -> nat) (t : tree) : Prop :=
  match t with
  | Node x ts => (fix all ts := match ts with [] => True | t :: ts' => (d (tid t) = S (d x) /\ graded d t) /\ all ts' end) ts
  end.

Lemma graded_node d x ts : graded d (Node x ts) <-> forall t, t ∈ ts -> d (tid t) = S (d x) /\ graded d t.
Proof.
  cbn. induction ts as [|t ts IH].
  - split; [by intros _ t ?%not_elem_of_nil|done].
  - rewrite IH. setoid_rewrite elem_of_cons. naive_solver.
Qed.

Lemma graded_shift d d' n t : (forall y, y ∈ ids t -> d' y = (n + d y)%nat) -> graded d t -> graded d' t.
Proof.
  induction t as [x ts IH] using tree_rect'. intros Hd. rewrite !graded_node. intros Hg t Ht.
  destruct (Hg t Ht) as [H1 H2]. assert (forall y, y ∈ ids t -> d' y = (n + d y)%nat) as Hd'.
  { intros y Hy. apply Hd. cbn. right. apply fids_elem. eauto. }
  split; [|by eapply Forall_forall in IH; [apply IH|]]. rewrite Hd' by apply tid_in. rewrite (Hd x) by (cbn; by left). lia.
Qed.

Definition depth (t : tree) (y : fd_hash_t) : nat := length (anc t y).

Lemma depth_root t : depth t (tid t) = 1%nat.
Proof. destruct t as [x ts]. unfold depth. rewrite anc_node, bool_decide_true by done. done. Qed.

Lemma depth_kid x ts t y : NoDup (ids (Node x ts)) -> t ∈ ts -> y ∈ ids t -> depth (Node x ts) y = (1 + depth t y)%nat.
Proof.
  cbn [ids]. intros [Hx Hnd]%NoDup_cons Ht Hy. unfold depth. rewrite anc_node, bool_decide_false.
  - rewrite (fpath_elem ts t y Hnd Ht Hy). unfold anc. apply rpath_ids in Hy as [l ->]. cbn. rewrite length_app. cbn. lia.
  - intros ->. apply Hx, fids_elem. eauto.
Qed.

Lemma graded_depth t : NoDup (ids t) -> graded (depth t) t.
Proof.
  induction t as [x ts IH] using tree_rect'. intros Hnd. apply graded_node. intros t Ht.
  pose proof (NoDup_fids_elem _ _ (NoDup_kids _ Hnd) Ht) as Hnt.
  assert (depth (Node x ts) x = 1%nat) as -> by apply (depth_root (Node x ts)). split.
  - rewrite (depth_kid x ts t _ Hnd Ht (tid_in t)), depth_root. done.
  - eapply Forall_forall in IH; [|exact Ht]. apply (graded_shift (depth t) _ 1); [|by apply IH].
    intros y Hy. by apply depth_kid.
Qed.

(** The queue of a level-order traversal: the depths on it grow, by at most one. *)
Record level_order (d : fd_hash_t -> nat) (prev : fd_hash_t) (qs : list tree) : Prop := {
  lo_sorted : StronglySorted (fun t t' => (d (tid t) <= d (tid t'))%nat) qs;
  lo_span : forall t t', t ∈ qs -> t' ∈ qs -> (d (tid t') <= S (d (tid t)))%nat;
  lo_prev : forall t, t ∈ qs -> (d prev <= d (tid t))%nat
}.

Lemma level_order_pop d prev x ts qs :
  level_order d prev (Node x ts :: qs) -> graded d (Node x ts) -> level_order d x (qs ++ ts).
Proof.
  intros [Hs Hp _] Hg. rewrite graded_node in Hg. apply StronglySorted_inv in Hs as [Hs Hx]. rewrite Forall_forall in Hx.
  assert (forall t, t ∈ qs -> (d x <= d (tid t) <= S (d x))%nat) as Hq.
  { intros t Ht. split; [by apply Hx|]. apply (Hp (Node x ts)); [by left|by right]. }
  assert (forall t, t ∈ ts -> d (tid t) = S (d x)) as Hk by (intros t Ht; by apply Hg). split.
  - clear Hx Hp Hg. induction Hs as [|t qs _ IH Ht]; cbn [app].
    + assert (forall l, (forall t, t ∈ l -> d (tid t) = S (d x)) -> StronglySorted (fun t t' => (d (tid t) <= d (tid t'))%nat) l) as H.
      { induction l as [|t l IH]; intros Hl; constructor; [apply IH; intros; apply Hl; by right|].
        apply Forall_forall. intros t' Ht'. rewrite (Hl t), (Hl t') by ((by left) || by right). done. }
      by apply H.
    + constructor; [apply IH; intros; apply Hq; by right|]. apply Forall_app. split; [done|]. apply Forall_forall.
      intros t' Ht'. rewrite (Hk t' Ht'). apply Hq. by left.
  - intros t t' [H1|H1]%elem_of_app [H2|H2]%elem_of_app.
    + apply Hp; by right.
    + rewrite (Hk t' H2). specialize (Hq t H1). lia.
    + rewrite (Hk t H1). specialize (Hq t' H2). lia.
    + rewrite (Hk t H1), (Hk t' H2). lia.
  - intros t [H1|H1]%elem_of_app; [by apply Hq|]. rewrite (Hk t H1). lia.
Qed.

(** What [push_children] needs of the queue, and gives back. *)
Record bfs_queue (m : blks) (out : gset fd_hash_t) (qs : list tree) : Prop := {
  bq_nodup : NoDup (fids qs);
  bq_links : forall t, t ∈ qs -> exists par sib, links m par sib t;
  bq_out : forall t y, t ∈ qs -> y ∈ fids (kids t) -> y ∉ out
}.

Lemma bfs_queue_pop m out x ts qs :
  bfs_queue m out (Node x ts :: qs) ->
  exists b out', m !! x = Some b /\
    push_children (tree_fuel m) FdTest (fun _ => true) m out (gb_child b) (map tid qs) 0 =
      Ok (out', map tid (qs ++ ts), Z.of_nat (Nat.pred (length ts))) /\
    bfs_queue m (out' ∖ {[x]}) (qs ++ ts).
Proof.
  intros [Hnd Hl Ho]. change (NoDup (x :: fids ts ++ fids qs)) in Hnd. apply NoDup_cons in Hnd as [Hx Hnd].
  pose proof (proj1 (NoDup_app _ _) Hnd) as (Nts & Nd & Nqs).
  destruct (Hl (Node x ts) ltac:(by left)) as (par & sib & Hlx). pose proof (links_kids _ _ _ _ Hlx) as Hf.
  destruct (links_root _ _ _ _ Hlx) as (b & Hb & _ & _ & Hc). cbn [tid kids] in *.
  destruct (push_children_spec FdTest (fun _ => true) m (Some x) ts Hf (tids_nodup _ Nts) (tree_fuel m) out (map tid qs) 0) as (out' & Ep & Hout).
  { pose proof (kids_size _ _ _ Hf Nts). unfold tree_fuel. lia. }
  { intros c (t & -> & Ht)%list_elem_of_fmap _. apply (Ho (Node x ts)); [by left|]. apply fids_elem. exists t. split; [done|apply tid_in]. }
  exists b, out'. split; [done|]. rewrite Hc, Ep, Z.add_0_l. split.
  - do 3 f_equal. rewrite map_app. f_equal. clear. induction (map tid ts) as [|c l IH]; [done|]. rewrite filter_cons, decide_True by done. by f_equal.
  - split.
    + rewrite fids_app. by rewrite (Permutation_app_comm (fids qs)).
    + intros t [H|H]%elem_of_app; [apply Hl; by right|]. destruct (forest_elem _ _ _ _ Hf H) as [s ?]. eauto.
    + assert (forall t y, y ∈ fids (kids t) -> y ∈ ids t) as Hk by (intros [z us] y Hy; cbn in *; by right).
      intros t y Ht Hy. rewrite elem_of_difference, Hout. intros [[H|[H _]] _].
      * apply elem_of_app in Ht as [Ht|Ht]; [by apply (Ho t y); [right|..]|]. apply (Ho (Node x ts) y); [by left| |done].
        apply fids_elem. eauto.
      * apply list_elem_of_fmap in H as (t' & -> & Ht'). apply elem_of_app in Ht as [Ht|Ht].
        -- apply (Nd (tid t')); apply fids_elem; [exists t'; split; [done|apply tid_in]|eauto].
        -- assert (t = t') as -> by (apply (fids_same ts t t' (tid t')); auto using tid_in).
           pose proof (NoDup_fids_elem _ _ Nts Ht) as N. destruct t'. cbn in *. by apply NoDup_cons in N as [? _].
Qed.

Lemma deepest_walk_spec m d fuel out qs prev :
  (length (fids qs) <= fuel)%nat -> bfs_queue m out qs -> (forall t, t ∈ qs -> graded d t) -> level_order d prev qs ->
  exists r, deepest_walk fuel m out (map tid qs) (Some prev) = Ok (Some r) /\
    (r = prev \/ r ∈ fids qs) /\ (d prev <= d r)%nat /\ forall z, z ∈ fids qs -> (d z <= d r)%nat.
Proof.
  revert out qs prev. induction fuel as [|fuel IH]; intros out [|[x ts] qs] prev Hlen Hq Hg Ho.
  1,3: exists prev; split_and!; [done|by left|done|by intros z ?%not_elem_of_nil].
  { cbn in Hlen. lia. }
  destruct (bfs_queue_pop _ _ _ _ _ Hq) as (b & out' & Hb & Ep & Hq').
  pose proof (level_order_pop _ _ _ _ _ Ho (Hg _ ltac:(by left))) as Ho'.
  destruct (IH (out' ∖ {[x]}) (qs ++ ts) x) as (r & Er & Hr & Hx & Hall).
  - rewrite fids_app, length_app. change (S (length (fids ts ++ fids qs)) <= S fuel)%nat in Hlen. rewrite length_app in Hlen. lia.
  - done.
  - intros t [H|H]%elem_of_app; [by apply Hg; right|]. specialize (Hg (Node x ts) ltac:(by left)). rewrite graded_node in Hg. by apply Hg.
  - done.
  - exists r. cbn [deepest_walk map tid]. rewrite Hb. cbn [deref mbind outcome_bind]. rewrite Ep. cbn [mbind outcome_bind fst snd].
    split; [done|]. pose proof (lo_prev _ _ _ Ho (Node x ts) ltac:(by left)) as Hp. cbn [tid] in Hp.
    rewrite fids_app in Hr, Hall. change (concat (ids (Node x ts) :: map ids qs)) with (x :: fids ts ++ fids qs). split_and!.
    + right. rewrite elem_of_cons, elem_of_app. rewrite elem_of_app in Hr. tauto.
    + lia.
    + intros z [->|Hz]%elem_of_cons; [done|]. apply Hall. rewrite elem_of_app in *. tauto.
Qed.

Lemma deepest_spec g T r t :
  tree_inv g T -> sub T r = Some t ->
  exists y, fd_ghost_deepest g r = Ok (Some y) /\ y ∈ ids t /\ forall z, z ∈ ids t -> (depth t z <= depth t y)%nat.
Proof.
  intros HT Hs. pose proof (sub_nodup _ _ _ (ti_nodup _ _ HT) Hs) as Hnd. pose proof (sub_tid _ _ _ Hs) as <-.
  destruct (sub_links _ _ _ _ _ _ (ti_links _ _ HT) Hs) as (par & sib & Hl).
  assert (is_Some (gh_blks g !! tid t)) as Hin by (destruct (links_root _ _ _ _ Hl) as (b & Hb & _); by exists b).
  assert (bfs_queue (gh_blks g) {[tid t]} [t]) as Hq.
  { split; [cbn; by rewrite app_nil_r|intros t' ->%list_elem_of_singleton; eauto|].
    intros t' y ->%list_elem_of_singleton Hy ->%elem_of_singleton. destruct t as [x ts]. cbn in *. by apply NoDup_cons in Hnd as [? _]. }
  assert (length (ids t) <= size (gh_blks g))%nat as Hsz.
  { apply NoDup_size; [done|]. intros y Hy. apply (ti_dom _ _ HT). by eapply sub_ids. }
  unfold fd_ghost_deepest. rewrite bool_decide_true by done. cbn [check mbind outcome_bind].
  destruct t as [x ts]. destruct (bfs_queue_pop _ _ _ _ _ Hq) as (b & out' & Hb & Ep & Hq').
  unfold tree_fuel. cbn [deepest_walk tid]. rewrite Hb. cbn [deref mbind outcome_bind]. cbn [tid map] in Ep. rewrite Ep. cbn [mbind outcome_bind fst snd app] in *.
  pose proof (graded_depth _ Hnd) as Hg. assert (level_order (depth (Node x ts)) x [Node x ts]) as Ho.
  { split.
    - repeat constructor.
    - intros t t' ->%list_elem_of_singleton ->%list_elem_of_singleton. lia.
    - by intros t ->%list_elem_of_singleton. }
  destruct (deepest_walk_spec (gh_blks g) (depth (Node x ts)) (size (gh_blks g)) (out' ∖ {[x]}) ts x) as (y & Ey & Hy & Hx & Hall).
  - cbn [ids length] in Hsz. lia.
  - done.
  - intros t Ht. rewrite graded_node in Hg. by apply Hg.
  - by eapply (level_order_pop _ _ _ _ []).
  - exists y. split; [done|]. cbn [ids]. split; [rewrite elem_of_cons; tauto|]. intros z [->|Hz]%elem_of_cons; [done|by apply Hall].
Qed.
