(* ===== verification/GhostEqvoc.v ===== *)
(** Equivocation: marking a block invalid marks exactly its subtree, confirming
    a block makes it and its invalid ancestors valid up to the first valid one. *)
From S2P Require Import Prelude VotorBase Ghost GhostTree GhostInv GhostInsert GhostPublish GhostVotes.

Definition invalid (b : fd_ghost_blk_t) : fd_ghost_blk_t := gb_set_valid b false.
Definition valid (b : fd_ghost_blk_t) : fd_ghost_blk_t := gb_set_valid b true.

(** * The preorder walk *)

(** The subtrees a walk has left: [ctx] lists, from [t] up to [root], the right
    siblings that come after. *)
Inductive zip (m : blks) (root : fd_hash_t) : tree -> list (list tree) -> Prop :=
| zip_root t : tid t = root -> zip m root t []
| zip_kid p ctx t ts :
    zip m root p ctx -> tid t <> root -> forest m (Some (tid p)) (t :: ts) -> zip m root t (ts :: ctx).

Definition pend (ctx : list (list tree)) : list fd_hash_t := concat (map (fun ts => fids ts) ctx).

Lemma backtrack_spec m root fuel t ctx :
  zip m root t ctx -> (length ctx <= fuel)%nat -> root ∉ pend ctx ->
  (backtrack fuel m root (tid t) = Ok root /\ pend ctx = []) \/
  exists t' ctx' par sib, backtrack fuel m root (tid t) = Ok (tid t') /\ zip m root t' ctx' /\ links m par sib t' /\
    pend ctx = ids t' ++ pend ctx' /\ (length ctx' <= length ctx)%nat.
Proof.
  intros Hz. revert fuel. induction Hz as [t Ht|p ctx t ts Hz IH Hne Hf]; intros fuel Hlen Hr.
  - left. split; [|done]. destruct fuel; cbn [backtrack]; rewrite bool_decide_true by done; by rewrite Ht.
  - destruct fuel as [|k]; [cbn in Hlen; lia|]. cbn [length] in Hlen. cbn [backtrack]. rewrite bool_decide_false by done.
    destruct Hf as [Hl Hf]. destruct (links_root _ _ _ _ Hl) as (b & Hb & Ep & Es & _). rewrite Hb. cbn [deref mbind outcome_bind].
    rewrite Es. destruct ts as [|t' ts].
    + cbn [hd_id head fmap option_fmap option_map]. rewrite Ep. cbn [deref mbind outcome_bind].
      destruct (IH k ltac:(lia) Hr) as [[-> E]|(t' & ctx' & par & sib & -> & Hz' & Hl' & E & Hc)]; [by left|].
      right. exists t', ctx', par, sib. split_and!; [done..|cbn; lia].
    + right. exists t', (ts :: ctx), (Some (tid p)), (hd_id ts). destruct Hf as [Hl' Hf']. split_and!; [done| |done| |done].
      * apply (zip_kid _ _ p); [done| |done]. intros E. apply Hr. unfold pend. cbn. rewrite <- E. do 2 (apply elem_of_app; left). apply tid_in.
      * unfold pend. cbn. by rewrite app_assoc.
Qed.

Lemma backtrack_on l f fuel m root c :
  (forall b, same_links b (f b)) -> backtrack fuel (on l f m) root c = backtrack fuel m root c.
Proof.
  intros Hf. revert c. induction fuel as [|k IH]; intros c; cbn; [done|]. case_bool_decide; [done|]. rewrite on_lookup.
  destruct (m !! c) as [b|]; [|done]. cbn. destruct (Hf b) as (E1 & _ & E3).
  assert (gb_sibling (if bool_decide (c ∈ l) then f b else b) = gb_sibling b) as -> by (by case_bool_decide).
  assert (gb_parent (if bool_decide (c ∈ l) then f b else b) = gb_parent b) as -> by (by case_bool_decide).
  destruct (gb_sibling b); [done|]. destruct (gb_parent b); cbn; [apply IH|done].
Qed.

Lemma on_snoc l m x b :
  on l invalid m !! x = Some b -> <[x := invalid b]> (on l invalid m) = on (l ++ [x]) invalid m.
Proof.
  intros Hb. apply map_eq. intros y. rewrite (on_lookup (l ++ [x])). destruct (decide (y = x)) as [->|Hne].
  - rewrite lookup_insert_eq. rewrite on_lookup in Hb. apply fmap_Some in Hb as (b0 & -> & ->). cbn.
    rewrite (bool_decide_true (x ∈ l ++ [x])) by (apply elem_of_app; right; by left). by case_bool_decide.
  - rewrite lookup_insert_ne, on_lookup by done. destruct (m !! y); cbn; [|done]. f_equal.
    rewrite (bool_decide_ext (y ∈ l ++ [x]) (y ∈ l)); [done|]. rewrite elem_of_app, list_elem_of_singleton. tauto.
Qed.

Lemma on_size l f m : size (on l f m) = size m.
Proof.
  rewrite <- !(size_dom (D:=gset fd_hash_t)). f_equal. apply set_eq. intros x. rewrite !elem_of_dom, on_lookup, fmap_is_Some. done.
Qed.

(** The walk from [t] on marks [t]'s subtree and what is left in the context. *)
Lemma mark_walk_spec m root fuel l t ctx par sib :
  zip m root t ctx -> links m par sib t -> root ∉ fids (kids t) ++ pend ctx ->
  (length (ids t ++ pend ctx) <= fuel)%nat -> (length ctx <= length l)%nat ->
  (length l + length (ids t ++ pend ctx) <= size m)%nat ->
  mark_walk fuel (on l invalid m) root (tid t) = Ok (on (l ++ ids t ++ pend ctx) invalid m).
Proof.
  revert l t ctx par sib. induction fuel as [|k IH]; intros l [x ts] ctx par sib Hz Hl Hr Hlen Hctx Hsz; [cbn in Hlen; lia|].
  destruct (links_root _ _ _ _ Hl) as (b & Hb & _ & _ & Hc). pose proof (links_kids _ _ _ _ Hl) as Hf. cbn [tid kids] in *.
  cbn [mark_walk]. assert (exists b', on l invalid m !! x = Some b' /\ gb_child b' = gb_child b) as (b' & Hb' & Ec).
  { rewrite on_lookup, Hb. cbn. eexists. split; [done|]. by case_bool_decide. }
  rewrite Hb'. cbn [deref mbind outcome_bind]. change (gb_set_valid b' false) with (invalid b'). rewrite (on_snoc l m x b' Hb'), Ec, Hc.
  cbn [ids] in *. rewrite <- app_comm_cons in *. cbn [length] in *. destruct ts as [|t ts].
  - cbn [hd_id head fmap option_fmap option_map map concat app] in *. rewrite backtrack_on by done.
    destruct (backtrack_spec m root (tree_fuel (on (l ++ [x]) invalid m)) (Node x []) ctx Hz) as
      [[Eb Ep]|(t' & ctx' & par' & sib' & Eb & Hz' & Hl' & Ep & Hc')].
    { unfold tree_fuel. rewrite on_size. lia. }
    { done. }
    + cbn [tid] in Eb. rewrite Eb. cbn [mbind outcome_bind]. rewrite bool_decide_true by done. by rewrite Ep.
    + cbn [tid] in Eb. rewrite Eb. cbn [mbind outcome_bind]. rewrite Ep in *. rewrite bool_decide_false.
      2:{ intros E. apply Hr. rewrite <- E. apply elem_of_app. left. apply tid_in. }
      rewrite (IH (l ++ [x]) t' ctx' par' sib'); [by rewrite <- app_assoc|done|done| |lia|rewrite length_app; cbn; lia|rewrite !length_app in *; cbn; lia].
      intros H. apply Hr. rewrite elem_of_app in *. destruct H as [H|H]; [left; destruct t'; cbn in *; by right|by right].
  - cbn [hd_id head fmap option_fmap option_map].
    rewrite (IH (l ++ [x]) t (ts :: ctx) (Some x) (hd_id ts)).
    + unfold pend. cbn [map concat]. by rewrite <- !app_assoc.
    + apply (zip_kid _ _ (Node x (t :: ts))); [done| |done]. intros <-. apply Hr. do 2 (apply elem_of_app; left). apply tid_in.
    + by destruct Hf.
    + intros H. apply Hr. unfold pend in *. cbn [map concat] in *. rewrite !elem_of_app in *. destruct t; cbn in *. set_solver.
    + unfold pend in *. cbn [map concat] in *. rewrite !length_app in *. lia.
    + rewrite length_app. cbn. lia.
    + unfold pend in *. cbn [map concat] in *. rewrite !length_app in *. cbn. lia.
Qed.

(** * Marking keeps the invariants *)

Section Flip.
Context (g : fd_ghost_t) (T : tree) (l : list fd_hash_t) (v : bool).
Let g' := gh_set_blks g (on l (fun b => gb_set_valid b v) (gh_blks g)).

Lemma flip_lookup y b : gh_blks g' !! y = Some b ->
  exists b0, gh_blks g !! y = Some b0 /\ b = if bool_decide (y ∈ l) then gb_set_valid b0 v else b0.
Proof using Type. cbn. rewrite on_lookup. by intros (b0 & -> & ->)%fmap_Some; exists b0. Qed.

Lemma flip_tree : tree_inv g T -> tree_inv g' T.
Proof using Type.
  intros [H1 H2 H3 H4 H5]. split; [done| |done| |done].
  - eapply links_ext; [|exact H2]. intros x b _ Hb. cbn. rewrite on_lookup, Hb. cbn. eexists. split; [done|]. by case_bool_decide.
  - intros x. cbn. rewrite on_lookup, fmap_is_Some. apply H4.
Qed.

Lemma flip_votes : vote_inv g T -> vote_inv g' T.
Proof using Type.
  intros [H1 H2 H3]. split; [done| |].
  - intros x b k (b0 & Hb0 & ->)%flip_lookup. change (gh_vtrs g') with (gh_vtrs g). rewrite <- (H2 x b0 k Hb0). by case_bool_decide.
  - intros x b (b0 & Hb0 & ->)%flip_lookup. cbn. rewrite <- (H3 x b0 Hb0). by case_bool_decide.
Qed.
End Flip.

Lemma eqvoc_code g T x s :
  tree_inv g T -> sub T x = Some s -> fd_ghost_eqvoc g x = Ok (gh_set_blks g (on (ids s) invalid (gh_blks g))).
Proof.
  intros HT Hs. pose proof (sub_nodup _ _ _ (ti_nodup _ _ HT) Hs) as Hnd. pose proof (sub_tid _ _ _ Hs) as <-.
  destruct (sub_links _ _ _ _ _ _ (ti_links _ _ HT) Hs) as (par & sib & Hl).
  destruct (links_root _ _ _ _ Hl) as (b & Hb & _). unfold fd_ghost_eqvoc, fd_ghost_query. rewrite bool_decide_true by (by exists b).
  assert (length (ids s) <= size (gh_blks g))%nat as Hsz.
  { apply NoDup_size; [done|]. intros y Hy. apply (ti_dom _ _ HT). by eapply sub_ids. }
  pose proof (mark_walk_spec (gh_blks g) (tid s) (tree_fuel (gh_blks g)) [] s [] par sib) as Hm. rewrite on_nil in Hm.
  unfold pend in Hm. cbn [map concat] in Hm. rewrite !app_nil_r in Hm. cbn [app length] in Hm. unfold mark_invalid. rewrite Hm; [done|by constructor|done| |unfold tree_fuel; lia|done|lia].
  destruct s. cbn in *. by apply NoDup_cons in Hnd as [? _].
Qed.

(** The blocks a confirmation flips: from the block up, until a valid one. *)
Fixpoint invalid_prefix (m : blks) (l : list fd_hash_t) : list fd_hash_t :=
  match l with
  | [] => []
  | a :: l' => match m !! a with
               | Some b => if gb_valid b then [] else a :: invalid_prefix m l'
               | None => []
               end
  end.

Lemma invalid_prefix_ext m m' l : (forall a, a ∈ l -> m' !! a = m !! a) -> invalid_prefix m' l = invalid_prefix m l.
Proof.
  induction l as [|a l IH]; intros H; cbn; [done|]. rewrite H by (by left). rewrite IH; [done|]. intros; apply H; by right.
Qed.

Lemma invalid_prefix_sub m l a : a ∈ invalid_prefix m l -> a ∈ l.
Proof.
  induction l as [|c l IH]; cbn; [done|]. destruct (m !! c) as [b|]; [|by intros ?%not_elem_of_nil].
  destruct (gb_valid b); [by intros ?%not_elem_of_nil|]. intros [->|H]%elem_of_cons; [by left|right; by apply IH].
Qed.

Lemma confirm_walk_spec fuel m o l :
  chain m o l None -> NoDup l -> (length l < fuel)%nat -> confirm_walk fuel m o = Ok (on (invalid_prefix m l) valid m).
Proof.
  revert fuel m o. induction l as [|a l IH]; intros [|k] m o; cbn [chain length]; try lia.
  - intros -> _ _. cbn. by rewrite on_nil.
  - intros [-> (b & Hb & Hc)] [Ha Hnd]%NoDup_cons Hlen. cbn [confirm_walk invalid_prefix]. rewrite Hb. cbn [deref mbind outcome_bind].
    destruct (gb_valid b); [by rewrite on_nil|]. change (gb_set_valid b true) with (valid b).
    rewrite (IH k), (invalid_prefix_ext m), on_cons; [done|by intros H%invalid_prefix_sub|done| |by eapply insert_chain|done|lia].
    intros c Hc'. rewrite lookup_insert_ne; [done|]. by intros ->.
Qed.

Lemma confirm_code g T x :
  tree_inv g T -> x ∈ ids T -> fd_ghost_confirm g x = Ok (gh_set_blks g (on (invalid_prefix (gh_blks g) (anc T x)) valid (gh_blks g))).
Proof.
  intros HT Hx. destruct (anc_chain g T x HT Hx) as (Hc & Hnd & Hlen). unfold fd_ghost_confirm, fd_ghost_query.
  rewrite bool_decide_true by (by apply (ti_dom _ _ HT)). rewrite (confirm_walk_spec _ _ _ _ Hc Hnd); [done|]. unfold tree_fuel. lia.
Qed.
