(* ===== verification/GhostProps.v ===== *)
(** What the ghost promises to its callers, and a small tree that shows it. *)
From S2P Require Import Prelude VotorBase Ghost GhostTree GhostInv GhostInsert GhostVotes GhostPublish GhostChoice GhostEqvoc.

(** Settles a decidable closed statement by evaluation. *)
Ltac by_decide := match goal with |- ?P => apply (bool_decide_eq_true_1 P); vm_compute; reflexivity end.

(** * A sample ghost *)

(** Root 1 with children 2 and 3. *)
Definition H (n : Z) : fd_hash_t := [n].

Definition ok_or {A} (d : A) (m : outcome A) : A := match m with Ok a => a | Fail _ => d end.

Definition ghost0 : fd_ghost_t := default (mk_ghost None ∅ ∅ 0 0 0) (fd_ghost_new 128 8 4 true).
Definition ghost1 : fd_ghost_t := ok_or ghost0 (fd_ghost_init ghost0 1 10 (H 1)).
Definition ghost2 : fd_ghost_t := ok_or ghost1 (fd_ghost_insert ghost1 2 11 (H 2) (H 1)).
Definition ghost3 : fd_ghost_t := ok_or ghost2 (fd_ghost_insert ghost2 3 12 (H 3) (H 1)).

Definition tree1 : tree := Node (H 1) [].
Definition tree2 : tree := Node (H 1) [Node (H 2) []].
Definition tree3 : tree := Node (H 1) [Node (H 2) []; Node (H 3) []].

(** * Creation *)

Lemma ghost_init_inv g bank_seq slot x :
  gh_blks g = ∅ -> gh_vtrs g = ∅ -> 0 < gh_blk_max g ->
  exists g', fd_ghost_init g bank_seq slot x = Ok g' /\ tree_inv g' (Node x []) /\ vote_inv g' (Node x []).
Proof.
  intros Hb Hv Hmax. unfold fd_ghost_init, insert_blk. rewrite Hb, lookup_empty, bool_decide_false by (by intros [? ?]).
  rewrite map_size_empty, (proj2 (Z.ltb_lt _ _)) by done. cbn [negb check mbind outcome_bind]. eexists. split; [done|]. split.
  - split; cbn; [done| | | |done].
    + split; [|done]. eexists. rewrite lookup_insert_eq. done.
    + apply NoDup_singleton.
    + intros y. rewrite list_elem_of_singleton, lookup_insert_is_Some, lookup_empty. split; [|by left].
      intros [->|[_ [? ?]]]; done.
  - split; cbn; rewrite Hv.
    + intros k v. by rewrite lookup_empty.
    + intros y b k [[<- <-]|[_ ?]]%lookup_insert_Some; [|by rewrite lookup_empty in *]. cbn. setoid_rewrite lookup_empty.
      split; [by intros ?%not_elem_of_nil|by intros (? & ? & _)].
    + intros y b [[<- <-]|[_ ?]]%lookup_insert_Some; [done|by rewrite lookup_empty in *].
Qed.

Lemma grafted_inv p x ks y ts T' :
  grafted p x ks (Node y ts) T' -> NoDup (ids (Node y ts)) -> p = y -> T' = Node y (ts ++ [Node x []]).
Proof.
  intros Hg Hnd ->. inversion Hg as [|? ts1 t t' ts2 Hg']; subst; [done|]. exfalso. cbn [ids] in Hnd. apply NoDup_cons in Hnd as [Hy _].
  apply Hy, fids_elem. exists t. split; [apply elem_of_app; right; by left|]. by eapply grafted_p.
Qed.

Definition good (g : fd_ghost_t) (T : tree) : Prop := tree_inv g T /\ vote_inv g T.

Lemma good1 : good ghost1 tree1.
Proof.
  destruct (ghost_init_inv ghost0 1 10 (H 1)) as (g' & E & H1 & H2); [done|done|vm_compute; done|]. unfold good, ghost1. by rewrite E.
Qed.

Lemma good_insert g T bank slot x p y ts :
  good g T -> T = Node y ts -> p = y -> x ∉ ids T -> Z.of_nat (size (gh_blks g)) < gh_blk_max g <= ULONG_MAX ->
  good (ok_or g (fd_ghost_insert g bank slot x p)) (Node y (ts ++ [Node x []])).
Proof.
  intros [HT HV] -> -> Hx Hmax. destruct (insert_inv g (Node y ts) bank slot x y HT HV Hx (tid_in (Node y ts)) Hmax) as
    (g' & ks & T' & E & Hg & HT' & HV' & _). rewrite E.
  rewrite (grafted_inv _ _ _ _ _ _ Hg (ti_nodup _ _ HT) eq_refl) in *. done.
Qed.

Lemma good2 : good ghost2 tree2.
Proof. apply (good_insert ghost1 tree1 2 11 (H 2) (H 1) (H 1) []); [apply good1|done..| |vm_compute; done]. by_decide. Qed.

Lemma good3 : good ghost3 tree3.
Proof. apply (good_insert ghost2 tree2 3 12 (H 3) (H 1) (H 1) [Node (H 2) []]); [apply good2|done..| |vm_compute; done]. by_decide. Qed.

(** * Votes *)

(** C5: Counting a vote applies the latest-message-driven rule.  In a ghost whose
    blocks form a tree and whose stakes are in order, the call returns and leaves
    it in order: the stake of every block is the sum of the stakes of the voters
    whose latest vote is for the block or a descendant, and every voter is parked
    on the block of its latest vote.  The vote counts if and only if its slot is
    not ULONG_MAX, not below the root's and above the voter's previous vote's; then
    it replaces that vote and nothing but stakes and parking changes; otherwise
    nothing changes.  The stakes of the voters are assumed to fit a ulong together. *)
Theorem ghost_count_vote_lmd g T root blk k stake slot :
  tree_inv g T -> vote_inv g T -> gh_blks g !! tid T = Some root -> blk ∈ ids T -> 0 <= stake ->
  vsum gv_prev_stake (delete k (gh_vtrs g)) + stake <= ULONG_MAX ->
  (gh_vtrs g !! k = None -> Z.of_nat (size (gh_vtrs g)) < gh_vtr_max g) ->
  exists g' e, fd_ghost_count_vote g blk k stake slot = Ok (g', e) /\ tree_inv g' T /\ vote_inv g' T /\
    (e = FD_GHOST_SUCCESS <->
      slot <> ULONG_MAX /\ gb_slot root <= slot /\ forall v, gh_vtrs g !! k = Some v -> gv_prev_slot v < slot) /\
    if decide (e = FD_GHOST_SUCCESS)
    then gh_vtrs g' = <[k := mk_ghost_vtr stake slot blk]> (gh_vtrs g) /\ frames (gh_blks g) (gh_blks g')
    else g' = g.
Proof.
  intros HT HV Hroot Hblk Hst Htot Hpool. unfold fd_ghost_count_vote. rewrite (ti_root _ _ HT). cbn [mbind option_bind].
  rewrite Hroot. cbn [deref mbind outcome_bind].
  destruct (Z.eqb_spec slot ULONG_MAX) as [E1|E1]; [eexists _, _; split_and!; [done|done|done|naive_solver|done]|].
  destruct (Z.ltb_spec slot (gb_slot root)) as [E2|E2]; [eexists _, _; split_and!; [done|done|done|split; [done|lia]|done]|].
  destruct (gh_vtrs g !! k) as [v|] eqn:Ek.
  - destruct (Z.leb_spec slot (gv_prev_slot v)) as [E3|E3].
    { eexists _, _; split_and!; [done|done|done|split; [done|]|done]. intros (_ & _ & H3). specialize (H3 v eq_refl). lia. }
    unfold fd_ghost_query. rewrite bool_decide_true by (apply (ti_dom _ _ HT); by apply (vi_prev _ _ HV k v)).
    rewrite (unvote_ok g T k v HT HV Ek). cbn [mbind outcome_bind].
    pose proof (unvote_frames g T k v) as Hf1. pose proof (unvote_inv g T k v HT HV Ek) as HV1.
    set (m1 := on (anc T (gv_prev_block_id v)) _ _) in *. set (g1 := gh_set_vtrs (gh_set_blks g m1) (delete k (gh_vtrs g))) in *.
    pose proof (tree_inv_frames g T _ (delete k (gh_vtrs g)) Hf1 HT) as HT1.
    assert (gh_vtrs g1 !! k = None) as Hk1 by apply lookup_delete_eq.
    pose proof (vote_ok g1 T k blk stake slot HT1 HV1 Hk1 Hblk Hst Htot) as Ha. pose proof (voted_inv g1 T k blk stake slot HT1 HV1 Hk1 Hblk Hst Htot) as HV2.
    pose proof (vote_frames g1 T k blk stake) as Hf2. cbn [g1 gh_vtrs gh_set_vtrs gh_blks gh_set_blks] in *.
    rewrite Ha by (unfold tree_fuel; lia). cbn [mbind outcome_bind]. eexists _, _. split; [done|].
    rewrite insert_delete_eq in HV2. split_and!; [by apply (tree_inv_frames g1); [|done]|done| |].
    + split; [intros _|done]. split_and!; [done|done|]. intros v' [= <-]. lia.
    + cbn. split; [done|]. by eapply frames_trans.
  - rewrite (proj2 (Z.ltb_lt _ _) (Hpool eq_refl)). cbn [check mbind outcome_bind].
    rewrite delete_id in Htot by done. rewrite (vote_ok g T k blk stake slot HT HV Ek Hblk Hst Htot) by (unfold tree_fuel; lia). cbn [mbind outcome_bind].
    pose proof (vote_frames g T k blk stake) as Hf. eexists _, _. split; [done|]. split_and!.
    + by apply tree_inv_frames.
    + by apply voted_inv.
    + split; [intros _|done]. split_and!; [done|done|done].
    + cbn. done.
Qed.

Lemma ghost_count_vote_lmd_witness :
  exists g' e, fd_ghost_count_vote ghost3 (H 2) (H 9) 5 11 = Ok (g', e) /\ e = FD_GHOST_SUCCESS /\ vote_inv g' tree3.
Proof.
  destruct good3 as [HT HV].
  destruct (ghost_count_vote_lmd ghost3 tree3 (mk_ghost_blk 10 None (Some (H 2)) None 0 0 true [] 1) (H 2) (H 9) 5 11 HT HV)
    as (g' & e & E & _ & HV' & He & _).
  - vm_compute. reflexivity.
  - by_decide.
  - lia.
  - vm_compute. discriminate.
  - intros _. vm_compute. reflexivity.
  - exists g', e. split; [exact E|]. split; [|exact HV']. apply He. split_and!; [done|vm_compute; discriminate|].
    intros v Hv. vm_compute in Hv. discriminate Hv.
Defined.

(** * Fork choice *)

Lemma greedy_in m t y : greedy m t y -> y ∈ ids t.
Proof.
  induction 1 as [x ts _|x ts t b y Ht _ _ _ _ IH]; [by left|]. cbn. right. apply fids_elem. eauto.
Qed.

(** The descent never enters the subtree of an invalid block. *)
Lemma greedy_avoids m t y x s :
  greedy m t y -> NoDup (ids t) -> sub t x = Some s -> tid t <> x -> (exists b, m !! x = Some b /\ gb_valid b = false) -> y ∉ ids s.
Proof.
  intros Hg Hnd Hs Hne (bx & Hbx & Hv). revert Hnd Hs Hne.
  induction Hg as [z ts _|z ts t b y Ht Hb Hvt _ Hg IH]; intros Hnd; rewrite sub_node; cbn [tid]; intros Hs Hne;
    rewrite bool_decide_false in Hs by congruence; cbn [ids] in Hnd; apply NoDup_cons in Hnd as [Hz Hnd];
    destruct (fsub_Some _ _ _ Hs) as (t0 & Ht0 & Hs0).
  - intros Hy. apply Hz, fids_elem. exists t0. split; [done|]. by eapply sub_ids.
  - assert (tid t <> x) as Hne' by (intros <-; congruence). destruct (decide (x ∈ ids t)) as [Hx|Hx].
    + rewrite (fsub_elem ts t x Hnd Ht Hx) in Hs. apply IH; [by eapply NoDup_fids_elem|done|done].
    + intros Hy. apply Hx. assert (t0 = t) as <-; [|eapply sub_ids; [exact Hs0|]; rewrite <- (sub_tid _ _ _ Hs0); apply tid_in].
      apply (fids_same ts t0 t y); [done|done|done|by eapply sub_ids|by eapply greedy_in].
Qed.

Lemma best_inv g T r t : tree_inv g T -> sub T r = Some t -> exists y, fd_ghost_best g r = Ok y /\ greedy (gh_blks g) t y.
Proof.
  intros HT Hs. pose proof (sub_nodup _ _ _ (ti_nodup _ _ HT) Hs) as Hnd. pose proof (sub_tid _ _ _ Hs) as <-.
  destruct (sub_links _ _ _ _ _ _ (ti_links _ _ HT) Hs) as (par & sib & Hl). apply (best_walk_spec _ _ par sib); [done|done|].
  unfold tree_fuel. assert (length (ids t) <= size (gh_blks g))%nat; [|lia].
  apply NoDup_size; [done|]. intros y Hy. apply (ti_dom _ _ HT). by eapply sub_ids.
Qed.

(** C6: Fork choice from any block of the tree returns, and returns the block that
    the greedy descent reaches: from the start, step to a valid child with the most
    stake among the valid children, the one with the lowest slot on equal stake,
    until no child is valid. *)
Theorem ghost_best_greedy g T r t :
  tree_inv g T -> sub T r = Some t -> exists y, fd_ghost_best g r = Ok y /\ greedy (gh_blks g) t y.
Proof. apply best_inv. Qed.

Lemma ghost_best_greedy_witness : exists y, fd_ghost_best ghost3 (H 1) = Ok y /\ greedy (gh_blks ghost3) tree3 y /\ y = H 2.
Proof.
  destruct (ghost_best_greedy ghost3 tree3 (H 1) tree3 (proj1 good3) ltac:(vm_compute; reflexivity)) as (y & E & Hg).
  exists y. split; [exact E|]. split; [exact Hg|]. vm_compute in E. injection E as <-. reflexivity.
Defined.

(** The deepest block of a subtree: the level-order traversal returns, without
    finding a block twice, a block of the subtree that no block of it is deeper than. *)
Theorem ghost_deepest_max g T r t :
  tree_inv g T -> sub T r = Some t ->
  exists y, fd_ghost_deepest g r = Ok (Some y) /\ y ∈ ids t /\ forall z, z ∈ ids t -> (depth t z <= depth t y)%nat.
Proof. apply deepest_spec. Qed.

Lemma ghost_deepest_max_witness :
  exists y, fd_ghost_deepest ghost3 (H 1) = Ok (Some y) /\ forall z, z ∈ ids tree3 -> (depth tree3 z <= depth tree3 y)%nat.
Proof.
  destruct (ghost_deepest_max ghost3 tree3 (H 1) tree3 (proj1 good3) ltac:(vm_compute; reflexivity)) as (y & E & _ & Hy).
  exists y. split; [exact E|exact Hy].
Defined.

(** Among the deepest blocks the last of its level is returned, which need not
    be the one inserted last: here 4 is inserted after 5. *)
Example deepest_tie_not_latest :
  exists g5 g4, fd_ghost_insert ghost3 5 14 (H 5) (H 3) = Ok g5 /\ fd_ghost_insert g5 4 13 (H 4) (H 2) = Ok g4 /\
    fd_ghost_deepest g4 (H 1) = Ok (Some (H 5)).
Proof. eexists _, _. split; [vm_compute; reflexivity|]. split; vm_compute; reflexivity. Qed.

(** * Equivocation *)

(** Marking an equivocating block invalid marks the block and all its
    descendants, no other block, and keeps the tree and the stakes; fork choice
    from the root then never returns a block of the invalid subtree.  Confirming a
    block makes valid the invalid blocks on the way up to its first valid ancestor. *)
Theorem ghost_eqvoc_subtree g T x s :
  tree_inv g T -> vote_inv g T -> sub T x = Some s -> x <> tid T ->
  exists g' y, fd_ghost_eqvoc g x = Ok g' /\ tree_inv g' T /\ vote_inv g' T /\
    (forall z b, gh_blks g !! z = Some b ->
      gh_blks g' !! z = Some (gb_set_valid b (gb_valid b && negb (bool_decide (x ∈ anc T z))))) /\
    fd_ghost_best g' (tid T) = Ok y /\ y ∉ ids s /\
    forall c, c ∈ ids T -> fd_ghost_confirm g' c = Ok (gh_set_blks g' (on (invalid_prefix (gh_blks g') (anc T c)) valid (gh_blks g'))).
Proof.
  intros HT HV Hs Hne. pose proof (ti_nodup _ _ HT) as Hnd.
  pose proof (flip_tree g T (ids s) false HT) as HT'. pose proof (flip_votes g T (ids s) false HV) as HV'.
  destruct (best_inv _ T (tid T) T HT' (sub_self T)) as (y & Ey & Hg).
  eexists _, y. split; [by apply (eqvoc_code g T)|]. split; [done|]. split; [done|]. split_and!; [|done| |].
  - intros z b Hz. cbn. rewrite on_lookup, Hz. cbn. f_equal. rewrite (bool_decide_ext _ _ (anc_sub_ids T x s z Hnd Hs)).
    unfold invalid. case_bool_decide; cbn; [by rewrite andb_false_r|]. rewrite andb_true_r. by destruct b.
  - apply (greedy_avoids _ T y x s Hg Hnd Hs); [done|]. assert (x ∈ ids s) as Hx by (rewrite <- (sub_tid _ _ _ Hs) at 1; apply tid_in).
    destruct (proj2 (ti_dom _ _ HT x) (sub_ids _ _ _ _ Hs Hx)) as [b Hb]. exists (gb_set_valid b false). split; [|done].
    cbn. rewrite on_lookup, Hb. cbn. by rewrite bool_decide_true.
  - intros c Hc. by apply (confirm_code _ T).
Qed.

Lemma ghost_eqvoc_subtree_witness :
  exists g' y, fd_ghost_eqvoc ghost3 (H 2) = Ok g' /\ fd_ghost_best g' (H 1) = Ok y /\ y ∉ [H 2].
Proof.
  destruct good3 as [HT HV].
  destruct (ghost_eqvoc_subtree ghost3 tree3 (H 2) (Node (H 2) []) HT HV ltac:(vm_compute; reflexivity) ltac:(discriminate))
    as (g' & y & E & _ & _ & _ & Ey & Hy & _).
  exists g', y. split; [exact E|]. split; [exact Ey|exact Hy].
Defined.

(** A block inserted below an invalid block starts out valid, so confirming it
    stops at once and its invalid ancestors stay invalid: fork choice still
    avoids the confirmed block. *)
Example confirm_keeps_invalid_ancestor :
  exists g1 g2 g3, fd_ghost_eqvoc ghost3 (H 2) = Ok g1 /\ fd_ghost_insert g1 4 13 (H 4) (H 2) = Ok g2 /\
    fd_ghost_confirm g2 (H 4) = Ok g3 /\ g3 = g2 /\ fd_ghost_invalid_ancestor g3 (H 4) = Ok (Some (H 2)) /\
    fd_ghost_best g3 (H 1) = Ok (H 3).
Proof. eexists _, _, _. split; [vm_compute; reflexivity|]. split; [vm_compute; reflexivity|]. split; [vm_compute; reflexivity|]. split; [reflexivity|]. split; vm_compute; reflexivity. Qed.

(** * Insertion and publication *)

(** Inserting a block below a block of the tree grafts it as the last child of
    its parent: the pointers encode the grafted tree, the number of leaves is kept
    up to date, no vote moves, and the new block is valid and has no stake.  A
    block that is in the tree already, a full pool and an unknown parent are
    refused by an assertion. *)
Theorem ghost_insert_grafts g T bank_seq slot x p :
  tree_inv g T -> vote_inv g T -> gh_blk_max g <= ULONG_MAX -> p <> x ->
  match fd_ghost_insert g bank_seq slot x p with
  | Ok g' =>
      x ∉ ids T /\ p ∈ ids T /\ Z.of_nat (size (gh_blks g)) < gh_blk_max g /\
      exists ks T', grafted p x ks T T' /\ tree_inv g' T' /\ vote_inv g' T' /\ gh_vtrs g' = gh_vtrs g /\
        gh_blks g' !! x = Some (mk_ghost_blk slot (Some p) None None 0 0 true [] bank_seq) /\
        forall y b, gh_blks g !! y = Some b -> exists b', gh_blks g' !! y = Some b' /\ same_votes b b' /\ gb_parent b' = gb_parent b
  | Fail e => e = FdTest /\ (x ∈ ids T \/ p ∉ ids T \/ gh_blk_max g <= Z.of_nat (size (gh_blks g)))
  end.
Proof.
  intros HT HV Hmax Hpx.
  destruct (decide (x ∈ ids T)) as [Hx|Hx].
  { unfold fd_ghost_insert, insert_blk. rewrite bool_decide_true by (by apply (ti_dom _ _ HT)). split; [done|by left]. }
  destruct (Z.ltb_spec (Z.of_nat (size (gh_blks g))) (gh_blk_max g)) as [Hf|Hf].
  2:{ unfold fd_ghost_insert, insert_blk. rewrite bool_decide_false by (by intros ?%(ti_dom _ _ HT)).
      rewrite (proj2 (Z.ltb_ge _ _) Hf). split; [done|tauto]. }
  destruct (decide (p ∈ ids T)) as [Hp|Hp].
  - destruct (insert_inv g T bank_seq slot x p HT HV Hx Hp ltac:(lia)) as (g' & ks & T' & -> & H1 & H2 & H3 & H4 & H5 & H6).
    split_and!; [done|done|done|]. exists ks, T'. done.
  - unfold fd_ghost_insert, insert_blk. rewrite bool_decide_false by (by intros ?%(ti_dom _ _ HT)).
    rewrite (proj2 (Z.ltb_lt _ _) Hf). cbn [negb check mbind outcome_bind gh_blks gh_set_blks]. rewrite lookup_insert_ne by done.
    assert (gh_blks g !! p = None) as -> by (apply eq_None_not_Some; by intros ?%(ti_dom _ _ HT)). split; [done|tauto].
Qed.

Lemma ghost_insert_grafts_witness :
  exists g' T', fd_ghost_insert ghost3 4 13 (H 4) (H 3) = Ok g' /\ tree_inv g' T' /\ vote_inv g' T'.
Proof.
  destruct good3 as [HT HV].
  pose proof (ghost_insert_grafts ghost3 tree3 4 13 (H 4) (H 3) HT HV ltac:(vm_compute; discriminate) ltac:(discriminate)) as Hi.
  destruct (fd_ghost_insert ghost3 4 13 (H 4) (H 3)) as [g'|e] eqn:E.
  - destruct Hi as (_ & _ & _ & ks & T' & _ & H1 & H2 & _). exists g', T'. split; [reflexivity|]. split; assumption.
  - exfalso. vm_compute in E. discriminate E.
Defined.

(** Publishing a new root keeps exactly the subtree of the new root, with its
    stakes, its voters and the number of its leaves; the voters whose latest vote
    was for a pruned block, and only they, are released. *)
Theorem ghost_publish_subtree g T newr :
  tree_inv g T -> vote_inv g T -> newr ∈ ids T -> leaves T <= ULONG_MAX ->
  exists g' s, fd_ghost_publish g newr = Ok g' /\ sub T newr = Some s /\ tree_inv g' s /\ vote_inv g' s /\
    (forall k v, gh_vtrs g' !! k = Some v <-> gh_vtrs g !! k = Some v /\ gv_prev_block_id v ∈ ids s) /\
    (forall y b, gh_blks g' !! y = Some b -> exists b0, gh_blks g !! y = Some b0 /\ same_votes b0 b).
Proof. apply publish_inv. Qed.

Lemma ghost_publish_subtree_witness :
  exists g' s, fd_ghost_publish ghost3 (H 3) = Ok g' /\ tree_inv g' s /\ vote_inv g' s /\ s = Node (H 3) [].
Proof.
  destruct good3 as [HT HV].
  destruct (ghost_publish_subtree ghost3 tree3 (H 3) HT HV ltac:(by_decide) ltac:(vm_compute; discriminate)) as (g' & s & E & Es & H1 & H2 & _).
  exists g', s. split; [exact E|]. split; [exact H1|]. split; [exact H2|]. vm_compute in Es. injection Es as <-. reflexivity.
Defined.
