(* ===== verification/Tower.v ===== *)
(** TowerBFT (src/src/choreo/tower/fd_tower.h, fd_tower.c, fd_tower_stakes.h,
    fd_tower_stakes.c): the vote tower with its lockouts, the metadata of the
    replayed blocks, the towers, stakes and lockout intervals of the other
    voters, and the rules that decide what to vote for and what to build on.

    Votes are listed from the bottom of the tower (head of the deque) to the top
    (tail).  Pool elements are named by their map keys, null indices are [None]. *)
From Stdlib Require Import Floats.SpecFloat.
From S2P Require Import Prelude VotorBase Ghost.

Definition FD_TOWER_VOTE_MAX : Z := 31.
Definition UINT_MAX : Z := 4294967295.
Definition u32 (x : Z) : Z := x mod 4294967296.

(** * Data *)

Record fd_tower_vote_t := mk_tower_vote { tv_slot : Z; tv_conf : Z }.

Record fd_tower_blk_t := mk_tower_blk {
  tb_parent_slot : Z;
  tb_epoch : Z;
  tb_bank_hash : fd_hash_t;
  tb_block_hash : fd_hash_t;
  tb_replayed : bool;
  tb_replayed_block_id : fd_hash_t;
  tb_voted : bool;
  tb_voted_block_id : fd_hash_t;
  tb_confirmed : bool;
  tb_confirmed_block_id : fd_hash_t;
  tb_leader : bool;
  tb_propagated : bool;
  tb_prev_leader_slot : Z
}.

Record fd_tower_vtr_t := mk_tower_vtr {
  vt_vote_acc : fd_pubkey_t;
  vt_stake : Z;
  vt_votes : list fd_tower_vote_t;
  vt_root : Z
}.

(** A lockout interval of a vote account; a sentinel has no vote account. *)
Record lockout_interval_t := mk_lockout_interval { li_pubkey : option fd_pubkey_t; li_start : Z }.

(** The stake of a vote account in a slot; [sv_prev] links the stakes of a slot. *)
Abbreviation fd_tower_stakes_vtr_xid_t := (fd_pubkey_t * Z)%type.
Record fd_tower_stakes_vtr_t := mk_stakes_vtr { sv_prev : option fd_tower_stakes_vtr_xid_t; sv_stake : Z }.

(** [tw_lck] is the multi-map of lockout intervals by fork slot and interval end,
    [tw_lck_pubkeys] the reference counts of their vote accounts, [tw_stk_vtr] the
    stakes by vote account and slot, [tw_stk_slot] the last stake inserted for a slot. *)
Record fd_tower_t := mk_tower {
  tw_votes : list fd_tower_vote_t;
  tw_root : Z;
  tw_blk_max : Z;
  tw_vtr_max : Z;
  tw_blks : gmap Z fd_tower_blk_t;
  tw_vtrs : list fd_tower_vtr_t;
  tw_lck : gmap (Z * Z) (list lockout_interval_t);
  tw_lck_pubkeys : gmap fd_pubkey_t Z;
  tw_stk_vtr : gmap fd_tower_stakes_vtr_xid_t fd_tower_stakes_vtr_t;
  tw_stk_slot : gmap Z fd_tower_stakes_vtr_xid_t
}.

Definition tw_set_votes (t : fd_tower_t) x := mk_tower x (tw_root t) (tw_blk_max t) (tw_vtr_max t) (tw_blks t) (tw_vtrs t) (tw_lck t) (tw_lck_pubkeys t) (tw_stk_vtr t) (tw_stk_slot t).
Definition tw_set_root (t : fd_tower_t) x := mk_tower (tw_votes t) x (tw_blk_max t) (tw_vtr_max t) (tw_blks t) (tw_vtrs t) (tw_lck t) (tw_lck_pubkeys t) (tw_stk_vtr t) (tw_stk_slot t).
Definition tw_set_blks (t : fd_tower_t) x := mk_tower (tw_votes t) (tw_root t) (tw_blk_max t) (tw_vtr_max t) x (tw_vtrs t) (tw_lck t) (tw_lck_pubkeys t) (tw_stk_vtr t) (tw_stk_slot t).
Definition tw_set_vtrs (t : fd_tower_t) x := mk_tower (tw_votes t) (tw_root t) (tw_blk_max t) (tw_vtr_max t) (tw_blks t) x (tw_lck t) (tw_lck_pubkeys t) (tw_stk_vtr t) (tw_stk_slot t).
Definition tw_set_lck (t : fd_tower_t) x y := mk_tower (tw_votes t) (tw_root t) (tw_blk_max t) (tw_vtr_max t) (tw_blks t) (tw_vtrs t) x y (tw_stk_vtr t) (tw_stk_slot t).
Definition tw_set_stk (t : fd_tower_t) x y := mk_tower (tw_votes t) (tw_root t) (tw_blk_max t) (tw_vtr_max t) (tw_blks t) (tw_vtrs t) (tw_lck t) (tw_lck_pubkeys t) x y.

Definition tb_set_voted (b : fd_tower_blk_t) v id := mk_tower_blk (tb_parent_slot b) (tb_epoch b) (tb_bank_hash b) (tb_block_hash b) (tb_replayed b) (tb_replayed_block_id b) v id (tb_confirmed b) (tb_confirmed_block_id b) (tb_leader b) (tb_propagated b) (tb_prev_leader_slot b).

(** * Construction *)

Definition fd_tower_align : Z := 128.

(** The limits keep the number of lockout intervals within a 32-bit index. *)
Definition fd_tower_max_valid (blk_max vtr_max : Z) : bool :=
  if (UINT_MAX <? blk_max) || (UINT_MAX / 2 <? vtr_max) then false
  else if negb (blk_max =? 0) && (UINT_MAX / blk_max <? vtr_max) then false
  else negb (UINT_MAX / (2 *w FD_TOWER_VOTE_MAX) <? blk_max *w vtr_max).

Definition fd_tower_new (shmem blk_max vtr_max : Z) : option fd_tower_t :=
  if shmem =? 0 then None
  else if negb (shmem mod fd_tower_align =? 0) then None
  else if negb (fd_tower_max_valid blk_max vtr_max) then None
  else Some (mk_tower [] ULONG_MAX blk_max vtr_max ∅ [] ∅ ∅ ∅ ∅).

(** * Votes and lockouts *)

Abbreviation votes_t := (list fd_tower_vote_t).

(** [1UL << conf]; the confirmation counts of a tower are below 64. *)
Definition expiration_slot (vote : fd_tower_vote_t) : Z := tv_slot vote +w u64 (Z.shiftl 1 (tv_conf vote)).

(** How many votes are left: those on top are popped while they are expired.
    The votes are given from the top. *)
Fixpoint simulate_pop (rvotes : votes_t) (slot : Z) : votes_t :=
  match rvotes with
  | [] => []
  | top_vote :: rest => if slot <=? expiration_slot top_vote then rvotes else simulate_pop rest slot
  end.

Definition simulate_vote (votes : votes_t) (slot : Z) : Z := Z.of_nat (length (simulate_pop (rev votes) slot)).

(** Confirmations are incremented from the top as long as they are consecutive. *)
Fixpoint bump_conf (prev_conf : Z) (rvotes : votes_t) : votes_t :=
  match rvotes with
  | [] => []
  | vote :: rest =>
      let prev_conf := prev_conf +w 1 in
      if negb (tv_conf vote =? prev_conf) then rvotes
      else mk_tower_vote (tv_slot vote) (tv_conf vote +w 1) :: bump_conf prev_conf rest
  end.

Definition vote_push_tail (votes : votes_t) (vote : fd_tower_vote_t) : outcome votes_t :=
  check OutOfBounds (Z.of_nat (length votes) <? FD_TOWER_VOTE_MAX);; Ok (votes ++ [vote]).

(** The new tower, and the new root or ULONG_MAX. *)
Definition push_vote (votes : votes_t) (slot : Z) : outcome (votes_t * Z) :=
  check LogCrit (match last votes with Some vote => tv_slot vote <? slot | None => true end);;
  let cnt := simulate_vote votes slot in
  let votes := take (Z.to_nat cnt) votes in
  let '(votes, root) :=
    match votes with
    | bottom :: rest => if Z.of_nat (length votes) =? FD_TOWER_VOTE_MAX then (rest, tv_slot bottom) else (votes, ULONG_MAX)
    | [] => (votes, ULONG_MAX)
    end in
  votes ← vote_push_tail (rev (bump_conf 0 (rev votes))) (mk_tower_vote slot 1);
  Ok (votes, root).

(** Slots grow and confirmations shrink from the bottom to the top. *)
Fixpoint verify_votes (prev : option fd_tower_vote_t) (votes : votes_t) : bool :=
  match votes with
  | [] => true
  | vote :: rest =>
      match prev with
      | Some p => if (tv_slot vote <=? tv_slot p) || (tv_conf p <=? tv_conf vote) then false else verify_votes (Some vote) rest
      | None => verify_votes (Some vote) rest
      end
  end.

Definition fd_tower_verify (votes : votes_t) : Z :=
  if FD_TOWER_VOTE_MAX <? Z.of_nat (length votes) then -1
  else if verify_votes None votes then 0 else -1.

(** * Blocks *)

Definition fd_tower_blocks_query (tower : fd_tower_t) (slot : Z) : option fd_tower_blk_t := tw_blks tower !! slot.

(** Every block is visited at most once. *)
Definition tower_fuel (m : gmap Z fd_tower_blk_t) : nat := S (size m).

Fixpoint is_ancestor_walk (fuel : nat) (m : gmap Z fd_tower_blk_t) (anc : option fd_tower_blk_t) (ancestor_slot : Z) : outcome bool :=
  match anc with
  | None => Ok false
  | Some anc =>
      match fuel with
      | O => Fail Diverge
      | S k =>
          if tb_parent_slot anc =? ancestor_slot then Ok true
          else is_ancestor_walk k m (if tb_parent_slot anc =? ULONG_MAX then None else m !! tb_parent_slot anc) ancestor_slot
      end
  end.

Definition is_ancestor (m : gmap Z fd_tower_blk_t) (slot ancestor_slot : Z) : outcome bool :=
  is_ancestor_walk (tower_fuel m) m (m !! slot) ancestor_slot.

Definition fd_tower_blocks_is_slot_ancestor (tower : fd_tower_t) (descendant_slot ancestor_slot : Z) : outcome bool :=
  is_ancestor (tw_blks tower) descendant_slot ancestor_slot.
Definition fd_tower_blocks_is_slot_descendant (tower : fd_tower_t) (ancestor_slot descendant_slot : Z) : outcome bool :=
  is_ancestor (tw_blks tower) descendant_slot ancestor_slot.

(** The fork with the higher slot steps to its parent until the slots agree. *)
Fixpoint lca_walk (fuel : nat) (m : gmap Z fd_tower_blk_t) (slot1 slot2 : Z) : outcome Z :=
  match m !! slot1, m !! slot2 with
  | Some fork1, Some fork2 =>
      match fuel with
      | O => Fail Diverge
      | S k =>
          if slot1 =? slot2 then Ok slot1
          else if slot2 <? slot1 then lca_walk k m (tb_parent_slot fork1) slot2
          else lca_walk k m slot1 (tb_parent_slot fork2)
      end
  | _, _ => Ok ULONG_MAX
  end.

Definition fd_tower_blocks_lowest_common_ancestor (tower : fd_tower_t) (slot1 slot2 : Z) : outcome Z :=
  check LogCrit (bool_decide (is_Some (tw_blks tower !! slot1)));;
  check LogCrit (bool_decide (is_Some (tw_blks tower !! slot2)));;
  lca_walk (S (2 * size (tw_blks tower))) (tw_blks tower) slot1 slot2.

Definition fd_tower_blocks_canonical_block_id (tower : fd_tower_t) (slot : Z) : option fd_hash_t :=
  match tw_blks tower !! slot with
  | None => None
  | Some blk => Some (if tb_confirmed blk then tb_confirmed_block_id blk
                      else if tb_voted blk then tb_voted_block_id blk else tb_replayed_block_id blk)
  end.

Definition zero_hash : fd_hash_t := repeat 0 32.

Definition fd_tower_blocks_insert (tower : fd_tower_t) (slot parent_slot : Z) : outcome fd_tower_t :=
  check FdTest (Z.of_nat (size (tw_blks tower)) <? tw_blk_max tower);;
  Ok (tw_set_blks tower (<[slot := mk_tower_blk parent_slot 0 zero_hash zero_hash false zero_hash false zero_hash false zero_hash
    false false ULONG_MAX]> (tw_blks tower))).

Definition fd_tower_blocks_remove (tower : fd_tower_t) (slot : Z) : fd_tower_t :=
  tw_set_blks tower (delete slot (tw_blks tower)).

(** * Lockout intervals *)

Abbreviation lck_map := (gmap (Z * Z) (list lockout_interval_t)).

Definition lockout_interval_key (fork_slot interval_end : Z) : Z * Z := (u32 fork_slot, u32 interval_end).

Definition lck_at (m : lck_map) (key : Z * Z) : list lockout_interval_t := default [] (m !! key).
Definition lck_size (m : lck_map) : Z := lsum (fun kv => Z.of_nat (length kv.2)) (map_to_list m).

(** The multi-map returns the latest of the elements with a key first. *)
Definition lck_insert (lck_max : Z) (m : lck_map) (key : Z * Z) (e : lockout_interval_t) : outcome lck_map :=
  check FdTest (lck_size m <? lck_max);; Ok (<[key := e :: lck_at m key]> m).

Definition lockos_insert_vote (lck_max slot : Z) (addr : fd_pubkey_t) (m : lck_map) (vote : fd_tower_vote_t) : outcome lck_map :=
  let interval_start := u32 (tv_slot vote) in
  let interval_end := u32 (tv_slot vote +w u64 (Z.shiftl 1 (tv_conf vote))) in
  let key := lockout_interval_key slot interval_end in
  m ← (match lck_at m key with
       | [] => lck_insert lck_max m (lockout_interval_key slot 0) (mk_lockout_interval None interval_end)
       | _ :: _ => Ok m
       end);
  lck_insert lck_max m key (mk_lockout_interval (Some addr) interval_start).

Definition fd_tower_lockos_insert (tower : fd_tower_t) (slot : Z) (addr : fd_pubkey_t) (votes : votes_t) : outcome fd_tower_t :=
  let vote_cnt := Z.of_nat (length votes) in
  refs ← (if vote_cnt =? 0 then Ok (tw_lck_pubkeys tower) else
          check LogCrit (vote_cnt <=? UINT_MAX);;
          ref_cnt ← (match tw_lck_pubkeys tower !! addr with
                     | Some ref_cnt => Ok ref_cnt
                     | None => check LogCrit (Z.of_nat (size (tw_lck_pubkeys tower)) <? 2 *w tw_vtr_max tower);; Ok 0
                     end);
          Ok (<[addr := u32 (ref_cnt + vote_cnt)]> (tw_lck_pubkeys tower)));
  m ← ofold (lockos_insert_vote (2 *w (FD_TOWER_VOTE_MAX *w tw_blk_max tower *w tw_vtr_max tower)) slot addr) (tw_lck tower) votes;
  Ok (tw_set_lck tower m refs).

(** Drops the reference that an interval holds on its vote account. *)
Definition lockos_release (refs : gmap fd_pubkey_t Z) (itrvl : lockout_interval_t) : outcome (gmap fd_pubkey_t Z) :=
  match li_pubkey itrvl with
  | None => Fail OutOfBounds
  | Some addr =>
      ref_cnt ← deref (refs !! addr);
      let ref_cnt := u32 (ref_cnt - 1) in
      Ok (if ref_cnt =? 0 then delete addr refs else <[addr := ref_cnt]> refs)
  end.

Fixpoint lockos_remove_walk (fuel : nat) (slot : Z) (m : lck_map) (refs : gmap fd_pubkey_t Z)
    : outcome (lck_map * gmap fd_pubkey_t Z) :=
  let sentinel_key := lockout_interval_key slot 0 in
  match lck_at m sentinel_key with
  | [] => Ok (delete sentinel_key m, refs)
  | sentinel :: rest =>
      match fuel with
      | O => Fail Diverge
      | S k =>
          let m := <[sentinel_key := rest]> m in
          check LogCrit (bool_decide (li_pubkey sentinel = None));;
          let key := lockout_interval_key slot (li_start sentinel) in
          refs ← ofold lockos_release refs (lck_at m key);
          lockos_remove_walk k slot (delete key m) refs
      end
  end.

Definition fd_tower_lockos_remove (tower : fd_tower_t) (slot : Z) : outcome fd_tower_t :=
  r ← lockos_remove_walk (S (length (lck_at (tw_lck tower) (lockout_interval_key slot 0)))) slot (tw_lck tower) (tw_lck_pubkeys tower);
  Ok (tw_set_lck tower r.1 r.2).

(** * Stakes *)

Definition fd_tower_stakes_insert (tower : fd_tower_t) (slot : Z) (vote_account : fd_pubkey_t) (stake : Z)
    (prev_voter : option fd_tower_stakes_vtr_xid_t) : outcome (fd_tower_t * fd_tower_stakes_vtr_xid_t) :=
  check LogCrit (Z.of_nat (size (tw_stk_vtr tower)) <? tw_vtr_max tower *w tw_blk_max tower);;
  let key := (vote_account, slot) in
  check OutOfBounds (bool_decide (is_Some (tw_stk_slot tower !! slot)) ||
                     (Z.of_nat (size (tw_stk_slot tower)) <? 2 *w fd_ulong_pow2_up (tw_blk_max tower) -w 1));;
  Ok (tw_set_stk tower (<[key := mk_stakes_vtr prev_voter stake]> (tw_stk_vtr tower)) (<[slot := key]> (tw_stk_slot tower)), key).

Fixpoint stakes_remove_walk (fuel : nat) (m : gmap fd_tower_stakes_vtr_xid_t fd_tower_stakes_vtr_t)
    (voter : option fd_tower_stakes_vtr_xid_t) : outcome (gmap fd_tower_stakes_vtr_xid_t fd_tower_stakes_vtr_t) :=
  match voter with
  | None => Ok m
  | Some key =>
      match fuel with
      | O => Fail Diverge
      | S k =>
          match m !! key with
          | None => Fail LogCrit
          | Some voter_stake => stakes_remove_walk k (delete key m) (sv_prev voter_stake)
          end
      end
  end.

Definition fd_tower_stakes_remove (tower : fd_tower_t) (slot : Z) : outcome fd_tower_t :=
  match tw_stk_slot tower !! slot with
  | None => Ok tower
  | Some head =>
      m ← stakes_remove_walk (S (size (tw_stk_vtr tower))) (tw_stk_vtr tower) (Some head);
      Ok (tw_set_stk tower m (delete slot (tw_stk_slot tower)))
  end.

(** * Voting rules *)

(** [(double)x] and the comparison [(double)x / (double)y > ratio], in binary64
    with rounding to nearest even. *)
Definition to_double (x : Z) : spec_float := binary_normalize 53 1024 x 0 false.
Definition double_div (x y : spec_float) : spec_float := SFdiv 53 1024 x y.
Definition ratio_above (x y : Z) (ratio : spec_float) : bool := SFltb ratio (double_div (to_double x) (to_double y)).

Definition THRESHOLD_DEPTH : Z := 8.
Definition THRESHOLD_RATIO : spec_float := double_div (to_double 2) (to_double 3).
(** The double nearest to 0.38. *)
Definition SWITCH_RATIO : spec_float := double_div (to_double 38) (to_double 100).

Definition lockout_check (tower : fd_tower_t) (slot : Z) : outcome bool :=
  match last (tw_votes tower) with
  | None => Ok ((tw_root tower =? ULONG_MAX) || (tw_root tower <? slot))
  | Some top =>
      if slot <=? tv_slot top then Ok false else
      let cnt := simulate_vote (tw_votes tower) slot in
      if cnt =? 0 then Ok true else
      vote ← deref (tw_votes tower !! Z.to_nat (cnt - 1));
      fd_tower_blocks_is_slot_descendant tower (tv_slot vote) slot
  end.

Definition is_purged (tower : fd_tower_t) (blk : fd_hash_t) (b : fd_ghost_blk_t) : outcome bool :=
  tower_blk ← deref (fd_tower_blocks_query tower (gb_slot b));
  Ok (tb_confirmed tower_blk && negb (bool_decide (tb_confirmed_block_id tower_blk = blk))).

(** The voters counted so far, their stake, and whether the switch threshold is passed. *)
Record switch_acc := mk_switch_acc { sa_used : gset fd_tower_stakes_vtr_xid_t; sa_stake : Z; sa_pass : bool }.

Section Switch.
Context (tower : fd_tower_t) (ghost : fd_ghost_t) (total_stake switch_slot vote_slot : Z).

(** One lockout interval of the candidate: its voter counts when it is locked
    out from our last vote, has a stake on the switch fork and was not counted. *)
Definition switch_interval (acc : switch_acc) (interval : lockout_interval_t) : outcome switch_acc :=
  if sa_pass acc then Ok acc else
  d ← fd_tower_blocks_is_slot_descendant tower (li_start interval) vote_slot;
  if negb d && (tw_root tower <? li_start interval) then
    vote_acc ← (match li_pubkey interval with Some a => Ok a | None => Fail OutOfBounds end);
    let key := (vote_acc, switch_slot) in
    match tw_stk_vtr tower !! key with
    | None => Ok acc
    | Some voter_stake =>
        if bool_decide (key ∈ sa_used acc) then Ok acc else
        let switch_stake := sa_stake acc +w sv_stake voter_stake in
        Ok (mk_switch_acc ({[key]} ∪ sa_used acc) switch_stake (ratio_above switch_stake total_stake SWITCH_RATIO))
    end
  else Ok acc.

Definition switch_sentinel (candidate_slot : Z) (acc : switch_acc) (sentinel : lockout_interval_t) : outcome switch_acc :=
  if sa_pass acc then Ok acc else
  let interval_end := li_start sentinel in
  if interval_end <? vote_slot then Ok acc
  else ofold switch_interval acc (lck_at (tw_lck tower) (lockout_interval_key candidate_slot interval_end)).

(** Pushes the children that are not purged; without any the block is a leaf. *)
Fixpoint switch_children (fuel : nat) (out : gset fd_hash_t) (child : option fd_hash_t) (queue : list fd_hash_t) (leaf : bool)
    : outcome (gset fd_hash_t * list fd_hash_t * bool) :=
  match child with
  | None => Ok (out, queue, leaf)
  | Some c =>
      match fuel with
      | O => Fail Diverge
      | S k =>
          cb ← deref (gh_blks ghost !! c);
          purged ← is_purged tower c cb;
          if (purged : bool) then switch_children k out (gb_sibling cb) queue leaf
          else switch_children k (fd_ghost_blk_map_remove out c) (gb_sibling cb) (queue ++ [c]) false
      end
  end.

(** A leaf counts when the switch fork descends from its common ancestor with our last vote. *)
Definition switch_leaf (acc : switch_acc) (candidate_slot : Z) : outcome switch_acc :=
  lca ← fd_tower_blocks_lowest_common_ancestor tower candidate_slot vote_slot;
  if candidate_slot =? vote_slot then Ok acc
  else if lca =? ULONG_MAX then Ok acc
  else
    d ← fd_tower_blocks_is_slot_descendant tower lca switch_slot;
    if (d : bool) then ofold (switch_sentinel candidate_slot) acc (lck_at (tw_lck tower) (lockout_interval_key candidate_slot 0))
    else Ok acc.

Fixpoint switch_walk (fuel : nat) (out : gset fd_hash_t) (queue : list fd_hash_t) (acc : switch_acc) : outcome (bool * gset fd_hash_t) :=
  match queue with
  | [] => Ok (false, out)
  | blk :: queue =>
      match fuel with
      | O => Fail Diverge
      | S k =>
          b ← deref (gh_blks ghost !! blk);
          r ← switch_children (tree_fuel (gh_blks ghost)) out (gb_child b) queue true;
          let out := fd_ghost_blk_map_insert r.1.1 blk in
          acc ← (if (r.2 : bool) then switch_leaf acc (gb_slot b) else Ok acc);
          if sa_pass acc then Ok (true, foldl fd_ghost_blk_map_insert out r.1.2)
          else switch_walk k out r.1.2 acc
      end
  end.
End Switch.

(** Also returns the blocks left out of the ghost's map. *)
Definition switch_check (tower : fd_tower_t) (ghost : fd_ghost_t) (total_stake switch_slot : Z) : outcome (bool * gset fd_hash_t) :=
  vote ← deref (last (tw_votes tower));
  root ← deref (fd_ghost_root ghost);
  switch_walk tower ghost total_stake switch_slot (tv_slot vote) (tree_fuel (gh_blks ghost)) (fd_ghost_blk_map_remove ∅ root) [root]
    (mk_switch_acc ∅ 0 false).

(** A voter counts when its latest unexpired vote is at or above our vote from eight votes back. *)
Definition threshold_vtr (slot threshold_slot : Z) (threshold_stake : Z) (acct : fd_tower_vtr_t) : outcome Z :=
  let cnt := simulate_vote (vt_votes acct) slot in
  if cnt =? 0 then Ok threshold_stake else
  vote ← deref (vt_votes acct !! Z.to_nat (cnt - 1));
  Ok (if threshold_slot <=? tv_slot vote then threshold_stake +w vt_stake acct else threshold_stake).

Definition threshold_check (tower : fd_tower_t) (accts : list fd_tower_vtr_t) (total_stake slot : Z) : outcome bool :=
  let cnt := simulate_vote (tw_votes tower) slot in
  if cnt <? THRESHOLD_DEPTH then Ok true else
  threshold_vote ← deref (tw_votes tower !! Z.to_nat (cnt - THRESHOLD_DEPTH));
  threshold_stake ← ofold (threshold_vtr slot (tv_slot threshold_vote)) 0 accts;
  Ok (ratio_above threshold_stake total_stake THRESHOLD_RATIO).

Definition propagated_check (tower : fd_tower_t) (slot : Z) : outcome bool :=
  match fd_tower_blocks_query tower slot with
  | None => Fail FdTest
  | Some blk =>
      if tb_leader blk then Ok true
      else if tb_prev_leader_slot blk =? ULONG_MAX then Ok true
      else match fd_tower_blocks_query tower (tb_prev_leader_slot blk) with
           | None => Ok true
           | Some prev_leader_blk => Ok (tb_propagated prev_leader_blk)
           end
  end.

(** * Voting *)

Inductive tower_flag := ANCESTOR_ROLLBACK | SIBLING_CONFIRMED | SAME_FORK | SWITCH_PASS | SWITCH_FAIL | LOCKOUT_FAIL | THRESHOLD_FAIL | PROPAGATED_FAIL.

(** What [fd_tower_vote_and_reset] returns and writes; [ULONG_MAX] slots mean none. *)
Record fd_tower_out_t := mk_tower_out {
  to_flags : list tower_flag;
  to_reset_slot : Z;
  to_reset_block_id : fd_hash_t;
  to_reset_bank_seq : Z;
  to_vote_slot : Z;
  to_vote_block_id : fd_hash_t;
  to_vote_bank_hash : fd_hash_t;
  to_root_slot : Z;
  to_root_block_id : fd_hash_t
}.

(** Records a vote for a block and pushes it onto the tower. *)
Definition record_vote (tower : fd_tower_t) (slot : Z) (id : fd_hash_t) : outcome fd_tower_t :=
  b ← deref (fd_tower_blocks_query tower slot);
  Ok (tw_set_blks tower (<[slot := tb_set_voted b true id]> (tw_blks tower))).

(** Case 0: no vote yet.  [bank_hash0] is what the caller's buffer holds. *)
Definition vote_and_reset_empty (tower : fd_tower_t) (best : fd_hash_t) (best_blk : fd_ghost_blk_t) (bank_hash0 : fd_hash_t)
    : outcome (fd_tower_t * fd_tower_out_t) :=
  recent ← lockout_check tower (gb_slot best_blk);
  if negb recent then
    Ok (tower, mk_tower_out [] (gb_slot best_blk) best (gb_bank_seq best_blk) ULONG_MAX zero_hash bank_hash0 ULONG_MAX zero_hash)
  else
    tower_blk ← deref (fd_tower_blocks_query tower (gb_slot best_blk));
    tower ← record_vote tower (gb_slot best_blk) best;
    vr ← push_vote (tw_votes tower) (gb_slot best_blk);
    Ok (tw_set_votes tower vr.1,
        mk_tower_out [] (gb_slot best_blk) best (gb_bank_seq best_blk) (gb_slot best_blk) best (tb_bank_hash tower_blk) vr.2 zero_hash).

(** Cases 1 to 4: flags, the block to reset to and whether the best block may be voted for. *)
Definition choose_fork (tower : fd_tower_t) (ghost : fd_ghost_t) (best : fd_hash_t) (best_blk : fd_ghost_blk_t) (prev_vote_slot : Z)
    : outcome (list tower_flag * option fd_hash_t * bool) :=
  prev_vote_fork ← deref (fd_tower_blocks_query tower prev_vote_slot);
  let prev_vote_blk := fd_ghost_query ghost (tb_voted_block_id prev_vote_fork) in
  inv ← (match prev_vote_blk with Some p => fd_ghost_invalid_ancestor ghost p | None => Ok None end);
  let invalid_ancestor := bool_decide (is_Some inv) in
  anc ← (if bool_decide (prev_vote_blk = Some best) then Ok None
         else match prev_vote_blk with Some p => fd_ghost_ancestor ghost p best | None => Ok None end);
  let ancestor_rollback := bool_decide (is_Some anc) in
  let sibling_confirmed := tb_confirmed prev_vote_fork &&
        negb (bool_decide (tb_voted_block_id prev_vote_fork = tb_confirmed_block_id prev_vote_fork)) in
  if invalid_ancestor && ancestor_rollback then Ok ([ANCESTOR_ROLLBACK], Some best, false)
  else if invalid_ancestor && sibling_confirmed then Ok ([SIBLING_CONFIRMED], Some best, true)
  else
    same ← (if gb_slot best_blk =? prev_vote_slot then Ok true
            else fd_tower_blocks_is_slot_ancestor tower (gb_slot best_blk) prev_vote_slot);
    if (same : bool) then Ok ([SAME_FORK], Some best, true)
    else
      sw ← switch_check tower ghost (gb_total_stake best_blk) (gb_slot best_blk);
      if (sw.1 : bool) then Ok ([SWITCH_PASS], Some best, true)
      else
        p ← deref prev_vote_blk;
        if invalid_ancestor then r ← fd_ghost_deepest ghost p; Ok ([SWITCH_FAIL], r, false)
        else r ← fd_ghost_best ghost p; Ok ([SWITCH_FAIL], Some r, false).

(** The checks before a vote: the flag of the first one that fails. *)
Definition can_vote (tower : fd_tower_t) (vote_blk : fd_ghost_blk_t) : outcome (option tower_flag) :=
  l ← lockout_check tower (gb_slot vote_blk);
  if negb l then Ok (Some LOCKOUT_FAIL) else
  t ← threshold_check tower (tw_vtrs tower) (gb_total_stake vote_blk) (gb_slot vote_blk);
  if negb t then Ok (Some THRESHOLD_FAIL) else
  p ← propagated_check tower (gb_slot vote_blk);
  Ok (if negb p then Some PROPAGATED_FAIL else None).

Definition fd_tower_vote_and_reset (tower : fd_tower_t) (ghost : fd_ghost_t) (bank_hash0 : fd_hash_t) : outcome (fd_tower_t * fd_tower_out_t) :=
  root ← deref (fd_ghost_root ghost);
  best ← fd_ghost_best ghost root;
  best_blk ← deref (gh_blks ghost !! best);
  match last (tw_votes tower) with
  | None => vote_and_reset_empty tower best best_blk bank_hash0
  | Some prev_vote =>
      choice ← choose_fork tower ghost best best_blk (tv_slot prev_vote);
      fail ← (if (choice.2 : bool) then can_vote tower best_blk else Ok None);
      reset ← (match choice.1.2 with Some r => Ok r | None => Fail FdTest end);
      reset_blk ← deref (gh_blks ghost !! reset);
      let flags := choice.1.1 ++ match fail with Some f => [f] | None => [] end in
      if negb choice.2 || bool_decide (is_Some fail) then
        Ok (tower, mk_tower_out flags (gb_slot reset_blk) reset (gb_bank_seq reset_blk) ULONG_MAX zero_hash zero_hash ULONG_MAX zero_hash)
      else
        vr ← push_vote (tw_votes tower) (gb_slot best_blk);
        let tower := tw_set_votes tower vr.1 in
        fork ← deref (fd_tower_blocks_query tower (gb_slot best_blk));
        tower ← record_vote tower (gb_slot best_blk) best;
        root_block_id ← (if vr.2 =? ULONG_MAX then Ok zero_hash
                         else root_fork ← deref (fd_tower_blocks_query tower vr.2);
                              Ok (if tb_confirmed root_fork then tb_confirmed_block_id root_fork else tb_voted_block_id root_fork));
        Ok (tower, mk_tower_out flags (gb_slot reset_blk) reset (gb_bank_seq reset_blk)
                     (gb_slot best_blk) best (tb_bank_hash fork) vr.2 root_block_id)
  end.

(** * Reconciling with the vote account *)

Fixpoint drop_rooted (local_root : Z) (votes : votes_t) : votes_t :=
  match votes with
  | vote :: rest => if local_root <? tv_slot vote then votes else drop_rooted local_root rest
  | [] => []
  end.

Definition unvote_blk (m : gmap Z fd_tower_blk_t) (vote : fd_tower_vote_t) : outcome (gmap Z fd_tower_blk_t) :=
  match m !! tv_slot vote with
  | None => Fail FdTest
  | Some b => Ok (<[tv_slot vote := tb_set_voted b false (tb_voted_block_id b)]> m)
  end.

Definition remove_slot (tower : fd_tower_t) (slot : Z) : outcome fd_tower_t :=
  tower ← fd_tower_lockos_remove (fd_tower_blocks_remove tower slot) slot;
  fd_tower_stakes_remove tower slot.

Definition backfill_vote (tower : fd_tower_t) (vote : fd_tower_vote_t) : outcome fd_tower_t :=
  votes ← vote_push_tail (tw_votes tower) vote;
  match tw_blks tower !! tv_slot vote with
  | None => Fail FdTest
  | Some b =>
      let b := if tb_voted b then b else tb_set_voted b true (tb_replayed_block_id b) in
      Ok (tw_set_votes (tw_set_blks tower (<[tv_slot vote := b]> (tw_blks tower))) votes)
  end.

Definition top_slot (votes : votes_t) : Z := match last votes with Some v => tv_slot v | None => ULONG_MAX end.

Definition fd_tower_reconcile (tower : fd_tower_t) (onchain_votes : votes_t) (onchain_root : Z) : outcome fd_tower_t :=
  let local_root := tw_root tower in
  let local_vote := top_slot (tw_votes tower) in
  let onchain_vote := top_slot onchain_votes in
  if (onchain_vote =? ULONG_MAX) || (negb (local_vote =? ULONG_MAX) && (onchain_vote <=? local_vote)) then Ok tower else
  check FdTest (negb (local_root =? ULONG_MAX));;
  let '(onchain_root, onchain_votes) :=
    if (onchain_root =? ULONG_MAX) || (onchain_root <? local_root) then (local_root, drop_rooted local_root onchain_votes)
    else (onchain_root, onchain_votes) in
  m ← ofold unvote_blk (tw_blks tower) (tw_votes tower);
  tower ← ofold remove_slot (tw_set_blks tower m) (range (tw_root tower) onchain_root);
  ofold backfill_vote (tw_set_votes (tw_set_root tower onchain_root) []) onchain_votes.
