(* ===== verification/TowerVotes.v ===== *)
(** The vote tower: pushing a vote keeps the tower well formed, and the way
    confirmations are incremented is the stack-depth rule of the protocol. *)
From S2P Require Import Prelude VotorBase Ghost Tower.

(** * Well-formed towers *)

(** Slots are far from the end of their range: expirations do not wrap. *)
Definition SLOT_LIM : Z := 9223372036854775808.

(** [v] is above [w] in the tower. *)
Definition above (v w : fd_tower_vote_t) : Prop := tv_slot w < tv_slot v /\ tv_conf v < tv_conf w.
Definition vote_ok (v : fd_tower_vote_t) : Prop := 0 <= tv_slot v < SLOT_LIM /\ 1 <= tv_conf v <= FD_TOWER_VOTE_MAX.

Record wf_votes (votes : votes_t) : Prop := {
  wv_above : StronglySorted above (rev votes);
  wv_ok : Forall vote_ok votes;
  wv_len : Z.of_nat (length votes) <= FD_TOWER_VOTE_MAX
}.

Lemma expiration_small v : vote_ok v -> expiration_slot v = tv_slot v + 2 ^ tv_conf v.
Proof.
  intros [Hs Hc]. unfold expiration_slot. rewrite Z.shiftl_1_l. unfold FD_TOWER_VOTE_MAX, SLOT_LIM in *.
  assert (0 <= 2 ^ tv_conf v <= 2 ^ 31) by (split; [apply Z.pow_nonneg; lia|apply Z.pow_le_mono_r; lia]).
  rewrite u64_small by (unfold is_u64, ULONG_MAX; lia). apply u64_add_small. unfold is_u64, ULONG_MAX. lia.
Qed.

(** * Expiring votes *)

Lemma simulate_pop_split l slot :
  exists popped, l = popped ++ simulate_pop l slot /\ Forall (fun v => expiration_slot v < slot) popped.
Proof.
  induction l as [|v l (popped & E & Hp)]; cbn; [by exists []|]. destruct (Z.leb_spec slot (expiration_slot v)).
  - by exists [].
  - exists (v :: popped). split; [by rewrite E at 1|]. by constructor.
Qed.

Lemma simulate_pop_top l slot v k : simulate_pop l slot = v :: k -> slot <= expiration_slot v.
Proof.
  induction l as [|w l IH]; cbn; [done|]. destruct (Z.leb_spec slot (expiration_slot w)); [|done]. by intros [= -> _].
Qed.

(** The votes that stay, from the bottom. *)
Definition kept (votes : votes_t) (slot : Z) : votes_t := rev (simulate_pop (rev votes) slot).

Lemma kept_take votes slot : take (Z.to_nat (simulate_vote votes slot)) votes = kept votes slot.
Proof.
  unfold simulate_vote, kept. rewrite Nat2Z.id. destruct (simulate_pop_split (rev votes) slot) as (popped & E & _).
  set (l := simulate_pop (rev votes) slot) in *. assert (votes = rev l ++ rev popped) as Ev.
  { rewrite <- rev_app_distr, <- E. by rewrite rev_involutive. }
  rewrite Ev. rewrite take_app_length'; [done|]. by rewrite length_rev.
Qed.

Lemma kept_split votes slot : exists popped, votes = kept votes slot ++ popped /\ Forall (fun v => expiration_slot v < slot) popped.
Proof.
  destruct (simulate_pop_split (rev votes) slot) as (popped & E & Hp). exists (rev popped). split.
  - unfold kept. rewrite <- rev_app_distr, <- E. by rewrite rev_involutive.
  - by apply Forall_rev.
Qed.

Lemma simulate_vote_kept votes slot : simulate_vote votes slot = Z.of_nat (length (kept votes slot)).
Proof. unfold simulate_vote, kept. by rewrite length_rev. Qed.

(** * Incrementing confirmations *)

(** The protocol's rule: with the new vote on top, a vote whose confirmations do
    not exceed the number of votes above it gains one. *)
Fixpoint stack_depth_rule (height : Z) (rvotes : votes_t) : votes_t :=
  match rvotes with
  | [] => []
  | v :: rest => (if tv_conf v <=? height then mk_tower_vote (tv_slot v) (tv_conf v + 1) else v) :: stack_depth_rule (height + 1) rest
  end.

Lemma rule_high h l : Forall (fun v => h < tv_conf v) l -> StronglySorted above l -> stack_depth_rule h l = l.
Proof.
  intros Hl Hs. revert h Hl. induction Hs as [|v l Hs IH Hv]; intros h Hl; cbn; [done|]. inversion Hl as [|? ? Hh Hl']; subst.
  rewrite (proj2 (Z.leb_gt _ _) Hh). f_equal. apply IH. eapply Forall_impl; [exact Hv|]. intros w [_ Hw]. lia.
Qed.

Lemma bump_conf_rule h l :
  0 <= h -> h + Z.of_nat (length l) < ULONG_MAX -> StronglySorted above l -> Forall (fun v => h < tv_conf v) l ->
  bump_conf h l = stack_depth_rule (h + 1) l.
Proof.
  intros Hh Hlen Hs. revert h Hh Hlen. induction Hs as [|v l Hs IH Hv]; intros h Hh Hlen Hl; cbn [bump_conf stack_depth_rule]; [done|].
  inversion Hl as [|? ? Hv' Hl']; subst. cbn [length] in Hlen. rewrite u64_add_small by (unfold is_u64; lia).
  destruct (Z.eqb_spec (tv_conf v) (h + 1)) as [E|E]; cbn [negb].
  - rewrite (proj2 (Z.leb_le _ _)) by lia. rewrite u64_add_small by (unfold is_u64; lia).
    rewrite IH; [done|lia|lia|]. eapply Forall_impl; [exact Hv|]. intros w [_ Hw]. lia.
  - rewrite (proj2 (Z.leb_gt _ _)) by lia. f_equal. symmetry. apply rule_high; [|done].
    eapply Forall_impl; [exact Hv|]. intros w [_ Hw]. lia.
Qed.

Lemma rule_slots h l : map tv_slot (stack_depth_rule h l) = map tv_slot l.
Proof. revert h. induction l as [|v l IH]; intros h; cbn; [done|]. rewrite IH. by case_if. Qed.

Lemma rule_length h l : length (stack_depth_rule h l) = length l.
Proof. revert h. induction l as [|v l IH]; intros h; cbn; [done|]. by rewrite IH. Qed.

(** Every vote ends up above the height it was tested at. *)
Lemma rule_conf h l : Forall (fun v => h <= tv_conf v) l -> StronglySorted above l ->
  Forall (fun v => h < tv_conf v) (stack_depth_rule h l) /\ StronglySorted above (stack_depth_rule h l).
Proof.
  intros Hl Hs. revert h Hl. induction Hs as [|v l Hs IH Hv]; intros h Hl; cbn; [repeat constructor|].
  inversion Hl as [|? ? Hh Hl']; subst.
  destruct (IH (h + 1)) as [I1 I2]; [eapply Forall_impl; [exact Hv|]; intros w [_ Hw]; lia|].
  assert (forall w, w ∈ stack_depth_rule (h + 1) l -> tv_slot w < tv_slot v /\ tv_conf v < tv_conf w /\ h + 1 < tv_conf w) as Hw.
  { intros w Hw. rewrite Forall_forall in I1. split_and!; [| |by apply I1].
    - assert (tv_slot w ∈ map tv_slot (stack_depth_rule (h + 1) l)) as Hin by (by apply list_elem_of_fmap_2).
      rewrite rule_slots in Hin. apply list_elem_of_fmap in Hin as (u & -> & Hu). rewrite Forall_forall in Hv. by apply Hv.
    - clear -Hv Hw. revert h Hw. induction l as [|u l IHl]; intros h; cbn; [by intros ?%not_elem_of_nil|].
      inversion Hv as [|? ? [_ Hu] Hv']; subst. intros [->|Hw]%elem_of_cons; [case_if; cbn; lia|by apply (IHl Hv' (h + 1))]. }
  split.
  - constructor; [case_if; cbn; lia|]. eapply Forall_impl; [exact I1|]. cbn. intros; lia.
  - constructor; [done|]. apply Forall_forall. intros w Hin. destruct (Hw w Hin) as (W1 & W2 & W3). case_if; split; cbn; lia.
Qed.

Lemma rule_ok h l : Forall vote_ok l -> 1 <= h -> h + Z.of_nat (length l) <= FD_TOWER_VOTE_MAX -> Forall vote_ok (stack_depth_rule h l).
Proof.
  revert h. induction l as [|v l IH]; intros h Hl Hh Hlen; cbn; [done|]. inversion Hl as [|? ? [Hs Hc] Hl']; subst. cbn [length] in Hlen.
  constructor; [|apply IH; [done|lia|lia]]. case_if; [|done]. split; cbn; [done|]. lia.
Qed.

(** * Pushing a vote *)

(** What is left below the new vote, and the vote that becomes the root. *)
Definition base (votes : votes_t) (slot : Z) : votes_t :=
  if Z.of_nat (length (kept votes slot)) =? FD_TOWER_VOTE_MAX then tail (kept votes slot) else kept votes slot.
Definition new_root (votes : votes_t) (slot : Z) : Z :=
  if Z.of_nat (length (kept votes slot)) =? FD_TOWER_VOTE_MAX then match head (kept votes slot) with Some v => tv_slot v | None => ULONG_MAX end
  else ULONG_MAX.

(** The tower after a vote for [slot], by the stack-depth rule. *)
Definition voted_tower (votes : votes_t) (slot : Z) : votes_t :=
  rev (stack_depth_rule 1 (rev (base votes slot))) ++ [mk_tower_vote slot 1].

Lemma wf_rev_infix votes l r : wf_votes votes -> votes = l ++ r -> wf_votes l /\ wf_votes r.
Proof.
  intros [Hs Hok Hlen] ->. rewrite rev_app_distr in Hs. apply StronglySorted_app in Hs as (H1 & H2 & H3).
  apply Forall_app in Hok as [O1 O2]. rewrite length_app in Hlen. split; split; try done; lia.
Qed.

Lemma kept_wf votes slot : wf_votes votes -> wf_votes (kept votes slot).
Proof. intros Hw. destruct (kept_split votes slot) as (popped & E & _). exact (proj1 (wf_rev_infix votes _ popped Hw E)). Qed.

Lemma base_wf votes slot : wf_votes votes -> wf_votes (base votes slot) /\ Z.of_nat (length (base votes slot)) < FD_TOWER_VOTE_MAX.
Proof.
  intros Hw%(kept_wf votes slot). unfold base. pose proof (wv_len _ Hw). destruct (Z.eqb_spec (Z.of_nat (length (kept votes slot))) FD_TOWER_VOTE_MAX).
  - destruct (kept votes slot) as [|v l]; [cbn in *; unfold FD_TOWER_VOTE_MAX in *; lia|]. cbn [tail length] in *. split; [|lia].
    exact (proj2 (wf_rev_infix (v :: l) [v] l Hw eq_refl)).
  - split; [done|lia].
Qed.

Lemma base_elem votes slot v : v ∈ base votes slot -> v ∈ votes.
Proof.
  destruct (kept_split votes slot) as (popped & E & _). unfold base. intros Hv. rewrite E. apply elem_of_app. left.
  case_if_in Hv; [|done]. destruct (kept votes slot); cbn in *; [done|by right].
Qed.

Lemma last_above votes v w : wf_votes votes -> last votes = Some w -> v ∈ votes -> tv_slot v <= tv_slot w.
Proof.
  intros [Hs _ _] [l ->]%last_Some Hv. rewrite rev_app_distr in Hs. cbn in Hs. apply StronglySorted_inv in Hs as [_ Hs].
  apply elem_of_app in Hv as [Hv| ->%list_elem_of_singleton]; [|lia]. rewrite Forall_forall in Hs.
  assert (above w v) as [? _] by (apply Hs; rewrite list_elem_of_In, <- in_rev, <- list_elem_of_In; done). lia.
Qed.

Lemma push_vote_code votes slot :
  wf_votes votes -> (forall v, v ∈ votes -> tv_slot v < slot) ->
  push_vote votes slot = Ok (voted_tower votes slot, new_root votes slot).
Proof.
  intros Hw Hslot. unfold push_vote.
  assert (match last votes with Some vote => tv_slot vote <? slot | None => true end = true) as ->.
  { destruct (last votes) as [w|] eqn:El; [|done]. apply Z.ltb_lt, Hslot. apply last_Some in El as [l ->]. apply elem_of_app. right. by left. }
  cbn [check mbind outcome_bind]. rewrite kept_take. destruct (base_wf votes slot Hw) as [[Hs Hok _] Hlen].
  assert (bump_conf 0 (rev (base votes slot)) = stack_depth_rule 1 (rev (base votes slot))) as Eb.
  { apply (bump_conf_rule 0); [lia|rewrite length_rev; unfold FD_TOWER_VOTE_MAX, ULONG_MAX in *; lia|done|].
    apply Forall_rev. eapply Forall_impl; [exact Hok|]. intros v [_ Hv]. lia. }
  assert ((match kept votes slot with
    | [] => (kept votes slot, ULONG_MAX)
    | bottom :: rest => if Z.of_nat (length (kept votes slot)) =? FD_TOWER_VOTE_MAX then (rest, tv_slot bottom) else (kept votes slot, ULONG_MAX)
    end) = (base votes slot, new_root votes slot)) as ->.
  { unfold base, new_root. destruct (kept votes slot) as [|v l]; [done|]. cbn [head tail]. by case_if. }
  rewrite Eb. unfold vote_push_tail. rewrite length_rev, rule_length, length_rev, (proj2 (Z.ltb_lt _ _) Hlen). done.
Qed.

Lemma voted_tower_wf votes slot :
  wf_votes votes -> (forall v, v ∈ votes -> tv_slot v < slot) -> 0 <= slot < SLOT_LIM -> wf_votes (voted_tower votes slot).
Proof.
  intros Hw Hslot Hlim. destruct (base_wf votes slot Hw) as [[Hs Hok _] Hlen]. unfold voted_tower.
  destruct (rule_conf 1 (rev (base votes slot))) as [R1 R2]; [|done|].
  { apply Forall_rev. eapply Forall_impl; [exact Hok|]. intros v [_ Hv]. lia. }
  split.
  - rewrite rev_app_distr, rev_involutive. cbn. constructor; [done|]. apply Forall_forall. intros w Hin. rewrite Forall_forall in R1.
    split; cbn; [|by apply R1].
    assert (tv_slot w ∈ map tv_slot (stack_depth_rule 1 (rev (base votes slot)))) as Hin' by (by apply list_elem_of_fmap_2).
    rewrite rule_slots in Hin'. apply list_elem_of_fmap in Hin' as (u & -> & Hu). apply Hslot, (base_elem votes slot).
    by rewrite list_elem_of_In, in_rev, <- list_elem_of_In.
  - apply Forall_app. split; [|repeat constructor; cbn; unfold FD_TOWER_VOTE_MAX in *; lia].
    apply Forall_rev, rule_ok; [by apply Forall_rev|lia|]. rewrite length_rev. unfold FD_TOWER_VOTE_MAX in *. lia.
  - rewrite length_app, length_rev, rule_length, length_rev. cbn. lia.
Qed.

Lemma voted_slots votes slot : map tv_slot (voted_tower votes slot) = map tv_slot (base votes slot) ++ [slot].
Proof. unfold voted_tower. rewrite map_app, map_rev, rule_slots, map_rev, rev_involutive. done. Qed.

(** A well-formed tower passes the tower's own check. *)
Lemma StronglySorted_flip {A} (R : A -> A -> Prop) l : StronglySorted R (rev l) -> StronglySorted (fun a b => R b a) l.
Proof.
  induction l as [|x l IH]; cbn; [constructor|]. intros (Hx & H1 & _)%StronglySorted_app. constructor; [by apply IH|].
  apply Forall_forall. intros y Hy. apply (Hx y x); [|by left]. by rewrite list_elem_of_In, <- in_rev, <- list_elem_of_In.
Qed.

Lemma verify_wf votes : wf_votes votes -> fd_tower_verify votes = 0.
Proof.
  intros [Hs _ Hlen]. unfold fd_tower_verify. rewrite (proj2 (Z.ltb_ge _ _) Hlen).
  assert (forall prev, Forall (fun v => match prev with Some p => above v p | None => True end) votes -> verify_votes prev votes = true) as ->; [|done|].
  2:{ apply Forall_forall. done. }
  apply StronglySorted_flip in Hs. induction Hs as [|v l _ IH Hv]; intros prev Hp; cbn; [done|]. inversion Hp as [|? ? Hpv _]; subst.
  assert (verify_votes (Some v) l = true) as Hl.
  { apply IH; [cbn in *; lia|]. done. }
  destruct prev as [p|]; [|done]. destruct Hpv as [H1 H2]. rewrite (proj2 (Z.leb_gt _ _) H1), (proj2 (Z.leb_gt _ _) H2). done.
Qed.
