(* ===== verification/TowerForks.v ===== *)
(** Forks of the tower: the ancestor walks of the block map compute the ancestor
    relation, and a vote that passes the lockout check respects every lockout. *)
From S2P Require Import Prelude VotorBase Ghost Tower TowerVotes.

Abbreviation tblks := (gmap Z fd_tower_blk_t).

(** * Ancestors *)

(** Parents have lower slots; ULONG_MAX marks a block without a parent. *)
Definition wf_blks (m : tblks) : Prop :=
  forall s b, m !! s = Some b -> 0 <= s < SLOT_LIM /\ 0 <= tb_parent_slot b /\ (tb_parent_slot b < s \/ tb_parent_slot b = ULONG_MAX).

(** [a] is a strict ancestor of [s]. *)
Inductive anc_slot (m : tblks) : Z -> Z -> Prop :=
| anc_parent s b : m !! s = Some b -> anc_slot m s (tb_parent_slot b)
| anc_up s b a : m !! s = Some b -> tb_parent_slot b <> ULONG_MAX -> anc_slot m (tb_parent_slot b) a -> anc_slot m s a.

Lemma anc_slot_lt m s a : wf_blks m -> anc_slot m s a -> a < s \/ a = ULONG_MAX.
Proof.
  intros Hm. induction 1 as [s b Hb|s b a Hb Hn _ IH]; [by apply (Hm s b)|]. destruct (Hm s b Hb) as (_ & _ & [?|?]); [lia|done].
Qed.

Lemma anc_slot_trans m s a c : wf_blks m -> a <> ULONG_MAX -> anc_slot m s a -> anc_slot m a c -> anc_slot m s c.
Proof. intros Hm Ha. induction 1 as [s b Hb|s b a Hb Hn _ IH]; intros H2; [by eapply anc_up|]. eapply anc_up; [done|done|by apply IH]. Qed.

(** The ancestor relation only depends on the parents. *)
Lemma anc_slot_parents m m' s a :
  (forall x, tb_parent_slot <$> m' !! x = tb_parent_slot <$> m !! x) -> anc_slot m s a -> anc_slot m' s a.
Proof.
  intros Hm. induction 1 as [s b Hb|s b a Hb Hn _ IH]; specialize (Hm s); rewrite Hb in Hm; cbn in Hm;
    apply fmap_Some in Hm as (b' & Hb' & E); rewrite E in *; [by constructor|by eapply anc_up].
Qed.

(** Blocks below an ancestor can be removed. *)
Lemma anc_slot_delete m r s a : wf_blks m -> a <> ULONG_MAX -> r <= a -> anc_slot m s a -> anc_slot (delete r m) s a.
Proof.
  intros Hm Ha Hr. induction 1 as [s b Hb|s b a Hb Hn Hanc IH].
  - destruct (Hm s b Hb) as (_ & _ & [?|?]); [|done]. constructor. rewrite lookup_delete_ne by lia. done.
  - destruct (anc_slot_lt m _ _ Hm Hanc) as [?|?]; [|done]. destruct (Hm s b Hb) as (_ & _ & [?|?]); [|done].
    eapply anc_up; [rewrite lookup_delete_ne by lia; done|done|by apply IH].
Qed.

(** * The ancestor walk *)

(** The blocks up to a slot. *)
Definition upto (m : tblks) (s : Z) : tblks := filter (fun kv => kv.1 <= s) m.

Lemma upto_size m s : (size (upto m s) <= size m)%nat.
Proof. apply map_subseteq_size, map_filter_subseteq. Qed.

Lemma upto_lt m s p b : m !! s = Some b -> p < s -> (size (upto m p) < size (upto m s))%nat.
Proof.
  intros Hb Hp. apply map_subset_size. apply map_subset_alt. split.
  - apply map_subseteq_spec. intros x c [Hx Hle]%map_lookup_filter_Some. apply map_lookup_filter_Some. cbn in *. split; [done|lia].
  - exists s. split.
    + apply map_lookup_filter_None. right. intros c _. cbn. lia.
    + exists b. apply map_lookup_filter_Some. cbn. split; [done|lia].
Qed.

Lemma is_ancestor_walk_spec m fuel s a :
  wf_blks m -> (size (upto m s) < fuel)%nat ->
  exists r, is_ancestor_walk fuel m (m !! s) a = Ok r /\ (r = true <-> anc_slot m s a).
Proof.
  intros Hm. revert s. induction fuel as [|k IH]; intros s Hf; [lia|]. destruct (m !! s) as [b|] eqn:Hb; cbn [is_ancestor_walk].
  2:{ exists false. split; [done|]. split; [done|]. intros Ha. inversion Ha; congruence. }
  destruct (Hm s b Hb) as (_ & _ & Hp). destruct (Z.eqb_spec (tb_parent_slot b) a) as [<-|Hne].
  { exists true. split; [done|]. split; [|done]. intros _. by constructor. }
  destruct (Z.eqb_spec (tb_parent_slot b) ULONG_MAX) as [E|E].
  - exists false. assert (is_ancestor_walk k m None a = Ok false) as -> by (by destruct k). split; [done|]. split; [done|].
    intros Ha. inversion Ha as [? b' Hb'|? b' ? Hb' Hn]; subst; assert (b' = b) as -> by congruence; done.
  - destruct Hp as [Hp|?]; [|done]. pose proof (upto_lt m s _ b Hb Hp).
    destruct (IH (tb_parent_slot b) ltac:(lia)) as (r & Er & Hr). exists r. split; [done|]. rewrite Hr. split.
    + intros Ha. by eapply anc_up.
    + intros Ha. inversion Ha as [? b' Hb'|? b' ? Hb' Hn Ha']; subst; assert (b' = b) as -> by congruence; done.
Qed.

Lemma is_ancestor_spec m s a :
  wf_blks m -> exists r, is_ancestor m s a = Ok r /\ (r = true <-> anc_slot m s a).
Proof. intros Hm. apply is_ancestor_walk_spec; [done|]. unfold tower_fuel. pose proof (upto_size m s). lia. Qed.

(** * Chains of votes *)

(** Every vote is an ancestor of the votes above it. *)
Definition chained (m : tblks) (slots : list Z) : Prop := StronglySorted (fun a s => anc_slot m s a) slots.

Record tower_ok (tower : fd_tower_t) : Prop := {
  tk_votes : wf_votes (tw_votes tower);
  tk_blks : wf_blks (tw_blks tower);
  tk_chain : chained (tw_blks tower) (map tv_slot (tw_votes tower))
}.

(** What a lockout demands of a vote for [slot]: the votes that have not expired
    are its ancestors. *)
Definition respects_lockouts (tower : fd_tower_t) (slot : Z) : Prop :=
  forall v, v ∈ tw_votes tower ->
    tv_slot v < slot /\ (anc_slot (tw_blks tower) slot (tv_slot v) \/ tv_slot v + 2 ^ tv_conf v < slot).

Lemma slot_not_null votes v : wf_votes votes -> v ∈ votes -> tv_slot v <> ULONG_MAX.
Proof. intros Hw Hv. pose proof (proj1 (Forall_forall _ _) (wv_ok _ Hw) v Hv) as [? _]. unfold SLOT_LIM, ULONG_MAX in *. lia. Qed.

Lemma kept_last votes slot v l :
  kept votes slot = l ++ [v] -> votes !! Z.to_nat (simulate_vote votes slot - 1) = Some v /\ slot <= expiration_slot v.
Proof.
  intros E. split.
  - rewrite simulate_vote_kept, E, length_app. destruct (kept_split votes slot) as (popped & Ev & _). rewrite E in Ev. rewrite Ev. cbn [length].
    replace (Z.to_nat (Z.of_nat (length l + 1) - 1)) with (length l) by lia.
    rewrite lookup_app_l by (rewrite length_app; cbn; lia). by rewrite list_lookup_middle.
  - unfold kept in E. apply (simulate_pop_top (rev votes) slot v (rev l)). rewrite <- (rev_involutive (simulate_pop _ _)), E. by rewrite rev_app_distr.
Qed.

Lemma chained_prefix m l1 l2 : chained m (l1 ++ l2) -> chained m l1.
Proof. unfold chained. intros H. by apply StronglySorted_app in H as (_ & ? & _). Qed.

Section Lockout.
Context (tower : fd_tower_t) (slot : Z).
Hypothesis Hok : tower_ok tower.

(** A vote whose top unexpired vote is an ancestor has all of them as ancestors. *)
Lemma kept_ancestors l w v :
  kept (tw_votes tower) slot = l ++ [w] -> anc_slot (tw_blks tower) slot (tv_slot w) -> v ∈ l ++ [w] -> anc_slot (tw_blks tower) slot (tv_slot v).
Proof using Hok.
  intros E Hw Hv. destruct (kept_split (tw_votes tower) slot) as (popped & Ev & _).
  pose proof (tk_chain _ Hok) as Hc. rewrite Ev, E, map_app in Hc. apply chained_prefix in Hc. rewrite map_app in Hc.
  apply elem_of_app in Hv as [Hv| ->%list_elem_of_singleton]; [|done]. unfold chained in Hc. apply StronglySorted_app in Hc as (Hc & _ & _).
  apply (anc_slot_trans _ _ (tv_slot w)); [apply Hok| |done|].
  - apply (slot_not_null (tw_votes tower)); [apply Hok|]. rewrite Ev, E. apply elem_of_app; left. apply elem_of_app; right. by left.
  - apply Hc; [by apply list_elem_of_fmap_2|by left].
Qed.

Lemma lockout_check_spec :
  exists r, lockout_check tower slot = Ok r /\
    (r = true <-> if decide (tw_votes tower = []) then tw_root tower = ULONG_MAX \/ tw_root tower < slot else respects_lockouts tower slot).
Proof using Hok.
  unfold lockout_check. destruct (last (tw_votes tower)) as [top|] eqn:El.
  2:{ apply last_None in El. rewrite El. rewrite decide_True by done. eexists. split; [done|].
      rewrite orb_true_iff, Z.eqb_eq, Z.ltb_lt. done. }
  assert (tw_votes tower <> []) as Hne by (intros E; by rewrite E in El). rewrite decide_False by done.
  pose proof (last_above _ top top (tk_votes _ Hok) El) as _. pose proof (fun v => last_above _ v top (tk_votes _ Hok) El) as Htop.
  assert (top ∈ tw_votes tower) as Hin by (apply last_Some in El as [l ->]; apply elem_of_app; right; by left).
  destruct (Z.leb_spec slot (tv_slot top)) as [Hle|Hlt].
  { exists false. split; [done|]. split; [done|]. intros Hr. destruct (Hr top Hin). lia. }
  destruct (kept_split (tw_votes tower) slot) as (popped & Ev & Hp). rewrite Forall_forall in Hp.
  assert (forall v, v ∈ tw_votes tower -> expiration_slot v = tv_slot v + 2 ^ tv_conf v) as Hexp.
  { intros v Hv. apply expiration_small. pose proof (wv_ok _ (tk_votes _ Hok)) as H. rewrite Forall_forall in H. by apply H. }
  destruct (kept (tw_votes tower) slot) as [|k0 kl] eqn:Ek using rev_ind.
  - rewrite simulate_vote_kept, Ek. exists true. split; [done|]. split; [|done]. intros _ v Hv. split; [specialize (Htop v Hv); lia|].
    right. rewrite <- Hexp by done. apply Hp. by rewrite Ev in Hv.
  - clear IHkl. destruct (kept_last _ _ _ _ Ek) as [Hl Hexp0]. rewrite simulate_vote_kept, Ek, length_app in *. cbn [length] in *.
    rewrite (proj2 (Z.eqb_neq _ _)) by lia. rewrite Hl. cbn [deref mbind outcome_bind].
    destruct (is_ancestor_spec (tw_blks tower) slot (tv_slot k0) (tk_blks _ Hok)) as (r & Er & Hr).
    exists r. split; [done|]. rewrite Hr. split.
    + intros Ha v Hv. split; [specialize (Htop v Hv); lia|]. rewrite Ev in Hv. apply elem_of_app in Hv as [Hv|Hv].
      * left. by eapply kept_ancestors.
      * right. rewrite <- Hexp; [by apply Hp|]. rewrite Ev. apply elem_of_app. by right.
    + intros Hres. assert (k0 ∈ tw_votes tower) as Hk by (rewrite Ev; apply elem_of_app; left; apply elem_of_app; right; by left).
      destruct (Hres k0 Hk) as [_ [?|Hx]]; [done|]. rewrite <- Hexp in Hx by done. lia.
Qed.
End Lockout.

(** * Voting keeps the chain *)

Lemma base_chain tower slot :
  tower_ok tower -> respects_lockouts tower slot ->
  chained (tw_blks tower) (map tv_slot (base (tw_votes tower) slot)) /\
  forall v, v ∈ base (tw_votes tower) slot -> anc_slot (tw_blks tower) slot (tv_slot v).
Proof.
  intros Hok Hres. destruct (kept_split (tw_votes tower) slot) as (popped & Ev & _).
  assert (chained (tw_blks tower) (map tv_slot (kept (tw_votes tower) slot)) /\
    forall v, v ∈ kept (tw_votes tower) slot -> anc_slot (tw_blks tower) slot (tv_slot v)) as [Hc Ha].
  { split.
    - pose proof (tk_chain _ Hok) as Hc. rewrite Ev, map_app in Hc. by apply chained_prefix in Hc.
    - intros v Hv. destruct (kept (tw_votes tower) slot) as [|w l _] eqn:Ek using rev_ind; [by apply not_elem_of_nil in Hv|].
      destruct (kept_last _ _ _ _ Ek) as [Hl Hexp]. assert (w ∈ tw_votes tower) as Hw by (by eapply list_elem_of_lookup_2).
      apply (kept_ancestors tower slot Hok l w v Ek); [|done]. destruct (Hres w Hw) as [_ [?|Hx]]; [done|].
      rewrite expiration_small in Hexp; [lia|]. pose proof (wv_ok _ (tk_votes _ Hok)) as H. rewrite Forall_forall in H. by apply H. }
  unfold base. case_if; [|done]. destruct (kept (tw_votes tower) slot) as [|k l]; [done|]. cbn [tail map] in *. split.
  - unfold chained in *. by apply StronglySorted_inv in Hc as [? _].
  - intros v Hv. apply Ha. by right.
Qed.

Lemma vote_keeps_ok tower slot :
  tower_ok tower -> respects_lockouts tower slot -> 0 <= slot < SLOT_LIM ->
  tower_ok (tw_set_votes tower (voted_tower (tw_votes tower) slot)).
Proof.
  intros Hok Hres Hlim. split; cbn [tw_votes tw_blks tw_set_votes].
  - apply voted_tower_wf; [apply Hok| |done]. intros v Hv. by apply Hres.
  - apply Hok.
  - rewrite voted_slots. destruct (base_chain tower slot Hok Hres) as [Hc Ha]. unfold chained in *. apply StronglySorted_app. split_and!; [|done|repeat constructor].
    intros a s (v & -> & Hv)%list_elem_of_fmap ->%list_elem_of_singleton. by apply Ha.
Qed.

(** The voted flag of a block is no part of the chain. *)
Lemma record_vote_ok tower slot id tower' :
  tower_ok tower -> record_vote tower slot id = Ok tower' ->
  tower_ok tower' /\ tw_votes tower' = tw_votes tower /\ tw_root tower' = tw_root tower /\
  forall s a, anc_slot (tw_blks tower') s a <-> anc_slot (tw_blks tower) s a.
Proof.
  intros Hok. unfold record_vote, fd_tower_blocks_query. destruct (tw_blks tower !! slot) as [b|] eqn:Hb; cbn; [|done]. intros [= <-].
  set (m' := <[slot := tb_set_voted b true id]> (tw_blks tower)).
  assert (forall x, tb_parent_slot <$> m' !! x = tb_parent_slot <$> tw_blks tower !! x) as Hp.
  { intros x. unfold m'. destruct (decide (x = slot)) as [->|Hne]; [by rewrite lookup_insert_eq, Hb|by rewrite lookup_insert_ne]. }
  assert (forall s a, anc_slot m' s a <-> anc_slot (tw_blks tower) s a) as Ha.
  { intros s a. split; apply anc_slot_parents; [|done]. intros x. by rewrite Hp. }
  split_and!; [|done|done|done]. split; cbn.
  - apply Hok.
  - intros s c Hc. specialize (Hp s). fold m' in Hc. rewrite Hc in Hp. cbn in Hp. symmetry in Hp. apply fmap_Some in Hp as (c0 & Hc0 & E).
    destruct (tk_blks _ Hok s c0 Hc0) as (H1 & H2 & H3). rewrite E. done.
  - unfold chained. eapply StronglySorted_weaken; [|apply Hok]. intros a s. apply Ha.
Qed.

(** * The lowest common ancestor *)

Definition anc_eq (m : tblks) (s a : Z) : Prop := s = a \/ anc_slot m s a.

Definition is_lca (m : tblks) (s1 s2 l : Z) : Prop :=
  if decide (l = ULONG_MAX) then forall a, is_Some (m !! a) -> anc_eq m s1 a -> anc_eq m s2 a -> False
  else is_Some (m !! l) /\ anc_eq m s1 l /\ anc_eq m s2 l /\
       forall a, is_Some (m !! a) -> anc_eq m s1 a -> anc_eq m s2 a -> a <= l.

Lemma wf_key m s : wf_blks m -> is_Some (m !! s) -> s <> ULONG_MAX.
Proof. intros Hm [b Hb]. destruct (Hm s b Hb) as (Hs & _). unfold SLOT_LIM, ULONG_MAX in *. lia. Qed.

Lemma anc_eq_le m s a : wf_blks m -> is_Some (m !! a) -> anc_eq m s a -> a <= s.
Proof. intros Hm Ha%(wf_key m a Hm) [->|H]; [lia|]. destruct (anc_slot_lt m s a Hm H); [lia|done]. Qed.

Lemma anc_eq_parent m s b a : wf_blks m -> m !! s = Some b -> a <> s -> anc_eq m s a <-> anc_eq m (tb_parent_slot b) a.
Proof.
  intros Hm Hb Hne. split.
  - intros [?|H]; [congruence|]. inversion H as [? b' Hb'|? b' ? Hb' Hn H']; subst; assert (b' = b) as -> by congruence; [by left|by right].
  - intros [<-|H]; right; [by constructor|]. eapply anc_up; [done| |done]. inversion H as [? b' Hb'|? b' ? Hb']; subst; apply (wf_key m); eauto.
Qed.

Lemma is_lca_parent m s1 s2 b l : wf_blks m -> m !! s1 = Some b -> s2 < s1 -> is_lca m (tb_parent_slot b) s2 l -> is_lca m s1 s2 l.
Proof.
  intros Hm Hb Hlt. assert (forall a, is_Some (m !! a) -> anc_eq m s2 a -> anc_eq m s1 a <-> anc_eq m (tb_parent_slot b) a) as Heq.
  { intros a Ha H2. apply anc_eq_parent; [done|done|]. pose proof (anc_eq_le m s2 a Hm Ha H2). lia. }
  unfold is_lca. case_decide.
  - intros Hno a Ha H1 H2. apply (Hno a Ha); [by apply Heq|done].
  - intros (Hl & H1 & H2 & Hmax). split_and!; [done|by apply Heq|done|]. intros a Ha Ha1 Ha2. apply (Hmax a Ha); [by apply Heq|done].
Qed.

Lemma is_lca_sym m s1 s2 l : is_lca m s1 s2 l -> is_lca m s2 s1 l.
Proof. unfold is_lca. case_decide; naive_solver. Qed.

Lemma lca_none m s1 s2 : m !! s1 = None -> is_lca m s1 s2 ULONG_MAX.
Proof.
  intros Hs. unfold is_lca. rewrite decide_True by done. intros a [b Hb] [->|Ha] _; [congruence|].
  inversion Ha; congruence.
Qed.

Lemma lca_walk_spec m fuel s1 s2 :
  wf_blks m -> (size (upto m s1) + size (upto m s2) < fuel)%nat -> exists l, lca_walk fuel m s1 s2 = Ok l /\ is_lca m s1 s2 l.
Proof.
  intros Hm. revert s1 s2. induction fuel as [|k IH]; intros s1 s2 Hf; [lia|]. cbn [lca_walk].
  destruct (m !! s1) as [b1|] eqn:H1; [|eexists; split; [done|by apply lca_none]].
  destruct (m !! s2) as [b2|] eqn:H2; [|eexists; split; [done|by apply is_lca_sym, lca_none]].
  destruct (Z.eqb_spec s1 s2) as [<-|Hne].
  { exists s1. split; [done|]. unfold is_lca. rewrite decide_False by (apply (wf_key m); eauto). split_and!; [eauto|by left|by left|].
    intros a Ha Ha1 _. by apply (anc_eq_le m). }
  assert (forall s b, m !! s = Some b -> (size (upto m (tb_parent_slot b)) < size (upto m s))%nat \/ tb_parent_slot b = ULONG_MAX) as Hstep.
  { intros s b Hb. destruct (Hm s b Hb) as (_ & _ & [Hlt|?]); [left; by eapply upto_lt|by right]. }
  assert (m !! ULONG_MAX = None) as Hnull by (apply eq_None_not_Some; by intros ?%(wf_key m)).
  assert (forall s, lca_walk k m ULONG_MAX s = Ok ULONG_MAX) as L1 by (intros s; destruct k; cbn; by rewrite Hnull).
  assert (forall s, lca_walk k m s ULONG_MAX = Ok ULONG_MAX) as L2 by (intros s; destruct k; cbn; rewrite Hnull; by destruct (m !! s)).
  destruct (Z.ltb_spec s2 s1) as [Hlt|Hlt].
  - destruct (Hstep s1 b1 H1) as [Hs|E].
    + destruct (IH (tb_parent_slot b1) s2 ltac:(lia)) as (l & -> & Hl). exists l. split; [done|]. by eapply is_lca_parent.
    + rewrite E, L1. eexists. split; [done|]. eapply is_lca_parent; [done|done|done|]. rewrite E. by apply lca_none.
  - destruct (Hstep s2 b2 H2) as [Hs|E].
    + destruct (IH s1 (tb_parent_slot b2) ltac:(lia)) as (l & -> & Hl). exists l. split; [done|]. apply is_lca_sym.
      eapply is_lca_parent; [done|done|lia|]. by apply is_lca_sym.
    + rewrite E, L2. eexists. split; [done|]. apply is_lca_sym. eapply is_lca_parent; [done|done|lia|]. rewrite E. by apply lca_none.
Qed.

Lemma lca_spec tower s1 s2 :
  wf_blks (tw_blks tower) -> is_Some (tw_blks tower !! s1) -> is_Some (tw_blks tower !! s2) ->
  exists l, fd_tower_blocks_lowest_common_ancestor tower s1 s2 = Ok l /\ is_lca (tw_blks tower) s1 s2 l.
Proof.
  intros Hm H1 H2. unfold fd_tower_blocks_lowest_common_ancestor. rewrite !bool_decide_true by done. cbn [check mbind outcome_bind].
  apply lca_walk_spec; [done|]. pose proof (upto_size (tw_blks tower) s1). pose proof (upto_size (tw_blks tower) s2). lia.
Qed.
