(* ===== verification/TowerSwitch.v ===== *)
(** The switch check: it always returns, puts every block it took out of the
    ghost's map back, and passes only on the stake of distinct voters that are
    locked out from our last vote on forks that the switch fork shares. *)
From S2P Require Import Prelude VotorBase Ghost GhostTree GhostInv GhostInsert GhostPublish GhostChoice Tower TowerVotes TowerForks.

(** * What the check relies on *)

(** Lockout intervals: sentinels index positive ends, and what is stored under a
    positive end belongs to a vote account. *)
Definition wf_lck (m : lck_map) : Prop :=
  forall k e i, i ∈ lck_at m (k, e) -> if decide (e = 0) then 0 < li_start i <= UINT_MAX else is_Some (li_pubkey i).

Record switch_ready (tower : fd_tower_t) (ghost : fd_ghost_t) (T : tree) : Prop := {
  sr_blks : wf_blks (tw_blks tower);
  sr_tree : tree_inv ghost T;
  sr_slots : forall x b, gh_blks ghost !! x = Some b -> 0 <= gb_slot b < SLOT_LIM /\ is_Some (tw_blks tower !! gb_slot b);
  sr_lck : wf_lck (tw_lck tower)
}.

(** * The evidence *)

(** Why the stake of [key] counts: a block of the ghost holds a lockout interval
    of the voter that reaches our last vote and starts off its fork. *)
Record evidence (tower : fd_tower_t) (ghost : fd_ghost_t) (vote_slot switch_slot : Z) (key : fd_tower_stakes_vtr_xid_t) : Prop := {
  ev_slot : key.2 = switch_slot;
  ev_stake : is_Some (tw_stk_vtr tower !! key);
  ev_interval : exists x b l e i,
    gh_blks ghost !! x = Some b /\ gb_slot b <> vote_slot /\
    is_lca (tw_blks tower) (gb_slot b) vote_slot l /\ l <> ULONG_MAX /\ anc_slot (tw_blks tower) switch_slot l /\
    vote_slot <= e /\ i ∈ lck_at (tw_lck tower) (lockout_interval_key (gb_slot b) e) /\ li_pubkey i = Some key.1 /\
    tw_root tower < li_start i /\ ~ anc_slot (tw_blks tower) vote_slot (li_start i)
}.

Definition stake_of (tower : fd_tower_t) (key : fd_tower_stakes_vtr_xid_t) : Z :=
  match tw_stk_vtr tower !! key with Some v => sv_stake v | None => 0 end.

(** The stake is that of a set of voters, each counted once, with evidence for each. *)
Definition switch_proof (tower : fd_tower_t) (ghost : fd_ghost_t) (total_stake vote_slot switch_slot : Z)
    (used : gset fd_tower_stakes_vtr_xid_t) (stake : Z) : Prop :=
  (forall key, key ∈ used -> evidence tower ghost vote_slot switch_slot key) /\
  stake = u64 (lsum (stake_of tower) (elements used)).

Section Switch.
Context (tower : fd_tower_t) (ghost : fd_ghost_t) (T : tree) (total_stake vote_slot switch_slot : Z).
Hypothesis HR : switch_ready tower ghost T.
Hypothesis Hvote : is_Some (tw_blks tower !! vote_slot).

Definition acc_ok (acc : switch_acc) : Prop :=
  switch_proof tower ghost total_stake vote_slot switch_slot (sa_used acc) (sa_stake acc) /\
  (sa_pass acc = true -> ratio_above (sa_stake acc) total_stake SWITCH_RATIO = true).

Lemma used_add used stake key :
  switch_proof tower ghost total_stake vote_slot switch_slot used stake -> key ∉ used -> evidence tower ghost vote_slot switch_slot key ->
  switch_proof tower ghost total_stake vote_slot switch_slot ({[key]} ∪ used) (stake +w stake_of tower key).
Proof using Type.
  intros [H1 ->] Hk He. split.
  - intros k [->%elem_of_singleton|Hk']%elem_of_union; [done|by apply H1].
  - rewrite (lsum_perm _ _ _ (elements_union_singleton used key Hk)). cbn [lsum foldr]. unfold u64_add, u64.
    rewrite Zplus_mod_idemp_l. f_equal. unfold lsum. lia.
Qed.

(** One interval of a leaf that qualifies. *)
Lemma switch_interval_ok acc x b l e i :
  acc_ok acc -> gh_blks ghost !! x = Some b -> gb_slot b <> vote_slot ->
  is_lca (tw_blks tower) (gb_slot b) vote_slot l -> l <> ULONG_MAX -> anc_slot (tw_blks tower) switch_slot l ->
  vote_slot <= e -> 0 < e <= UINT_MAX -> i ∈ lck_at (tw_lck tower) (lockout_interval_key (gb_slot b) e) ->
  exists acc', switch_interval tower total_stake switch_slot vote_slot acc i = Ok acc' /\ acc_ok acc'.
Proof using HR.
  intros Hacc Hx Hne Hl Hl0 Hd He He0 Hi. unfold switch_interval. destruct (sa_pass acc) eqn:Ep; [eauto|].
  destruct (is_ancestor_spec (tw_blks tower) vote_slot (li_start i) (sr_blks _ _ _ HR)) as (d & Ed & Hd').
  unfold fd_tower_blocks_is_slot_descendant. rewrite Ed. cbn [mbind outcome_bind].
  destruct d; cbn [negb andb]; [eauto|]. destruct (Z.ltb_spec (tw_root tower) (li_start i)) as [Hroot|]; [|eauto].
  pose proof (sr_lck _ _ _ HR _ _ _ Hi) as Hpk. unfold lockout_interval_key, u32 in Hpk. cbn in Hpk. rewrite (Z.mod_small e) in Hpk by (unfold UINT_MAX in *; lia).
  rewrite decide_False in Hpk by lia. destruct Hpk as [a Ha]. rewrite Ha. cbn [mbind outcome_bind].
  destruct (tw_stk_vtr tower !! (a, switch_slot)) as [vs|] eqn:Evs; [|eauto]. case_bool_decide as Hu; [eauto|].
  eexists. split; [done|]. split; cbn [sa_used sa_stake sa_pass]; [|done].
  replace (sv_stake vs) with (stake_of tower (a, switch_slot)) by (unfold stake_of; by rewrite Evs).
  apply used_add; [apply Hacc|done|]. split; [done|by eexists|]. exists x, b, l, e, i. split_and!; try done.
  intros Hanc. by apply Hd' in Hanc.
Qed.

Lemma switch_leaf_ok acc x b :
  acc_ok acc -> gh_blks ghost !! x = Some b ->
  exists acc', switch_leaf tower total_stake switch_slot vote_slot acc (gb_slot b) = Ok acc' /\ acc_ok acc'.
Proof using HR Hvote.
  intros Hacc Hx. unfold switch_leaf. destruct (sr_slots _ _ _ HR x b Hx) as [Hs Hin].
  destruct (lca_spec tower (gb_slot b) vote_slot (sr_blks _ _ _ HR) Hin Hvote) as (l & -> & Hl). cbn [mbind outcome_bind].
  destruct (Z.eqb_spec (gb_slot b) vote_slot); [eauto|]. destruct (Z.eqb_spec l ULONG_MAX); [eauto|].
  destruct (is_ancestor_spec (tw_blks tower) switch_slot l (sr_blks _ _ _ HR)) as (d & Ed & Hd).
  unfold fd_tower_blocks_is_slot_descendant. rewrite Ed. cbn [mbind outcome_bind]. destruct d; [|eauto]. apply proj1 in Hd. specialize (Hd eq_refl).
  apply ofold_total; [|done]. intros acc1 sentinel Hsent Hacc1. unfold switch_sentinel. destruct (sa_pass acc1); [eauto|].
  pose proof (sr_lck _ _ _ HR _ _ _ Hsent) as He. cbn in He. destruct (Z.ltb_spec (li_start sentinel) vote_slot) as [|Hle]; [eauto|].
  apply ofold_total; [|done]. intros acc2 i Hi Hacc2. by apply (switch_interval_ok acc2 x b l (li_start sentinel)).
Qed.

(** The children that are pushed are a part of the children. *)
Lemma switch_children_ok par ts fuel out queue leaf :
  forest (gh_blks ghost) par ts -> (length ts <= fuel)%nat ->
  exists ts' leaf' out', switch_children tower ghost fuel out (hd_id ts) queue leaf = Ok (out', queue ++ map tid ts', leaf') /\
    ts' `sublist_of` ts /\ forall y, y ∈ out' <-> y ∈ out \/ y ∈ map tid ts'.
Proof using HR.
  revert ts out queue leaf. induction fuel as [|k IH]; intros [|t ts] out queue leaf Hf Hlen; cbn [length] in Hlen; try lia.
  1,2: exists [], leaf, out; cbn; rewrite app_nil_r; split_and!; [done|done|]; intros y; rewrite elem_of_nil; tauto.
  destruct Hf as [Hl Hf]. destruct (links_root _ _ _ _ Hl) as (b & Hb & _ & Hs & _). destruct (sr_slots _ _ _ HR _ _ Hb) as [_ [tb Htb]].
  cbn [hd_id head fmap option_fmap option_map switch_children]. rewrite Hb. cbn [deref mbind outcome_bind].
  unfold is_purged, fd_tower_blocks_query. rewrite Htb. cbn [deref mbind outcome_bind]. rewrite Hs.
  destruct (tb_confirmed tb && negb (bool_decide (tb_confirmed_block_id tb = tid t))).
  - destruct (IH ts out queue leaf Hf ltac:(lia)) as (ts' & leaf' & out' & E & Hsub & Ho). exists ts', leaf', out'.
    split_and!; [done|by apply sublist_cons|done].
  - destruct (IH ts (fd_ghost_blk_map_remove out (tid t)) (queue ++ [tid t]) false Hf ltac:(lia)) as (ts' & leaf' & out' & E & Hsub & Ho).
    exists (t :: ts'), leaf', out'. split_and!; [rewrite E, <- app_assoc; done|by apply sublist_skip|].
    intros y. rewrite Ho. unfold fd_ghost_blk_map_remove. rewrite elem_of_union, elem_of_singleton. cbn [map]. rewrite elem_of_cons. tauto.
Qed.

(** The blocks out of the map are the blocks on the queue. *)
Record switch_queue (out : gset fd_hash_t) (qs : list tree) : Prop := {
  sq_nodup : NoDup (fids qs);
  sq_links : forall t, t ∈ qs -> exists par sib, links (gh_blks ghost) par sib t;
  sq_out : forall y, y ∈ out <-> y ∈ map tid qs
}.

Lemma insert_all out l : forall y, y ∈ foldl fd_ghost_blk_map_insert out l <-> y ∈ out /\ y ∉ l.
Proof using Type.
  revert out. induction l as [|x l IH]; intros out y; cbn [foldl]; [rewrite elem_of_nil; tauto|].
  rewrite IH. unfold fd_ghost_blk_map_insert. rewrite elem_of_difference, elem_of_singleton, elem_of_cons. tauto.
Qed.

Lemma switch_queue_pop x ts qs ts' out out' :
  switch_queue out (Node x ts :: qs) -> ts' `sublist_of` ts -> (forall y, y ∈ out' <-> y ∈ out \/ y ∈ map tid ts') ->
  switch_queue (fd_ghost_blk_map_insert out' x) (qs ++ ts') /\ (length (fids (qs ++ ts')) < length (fids (Node x ts :: qs)))%nat.
Proof using Type.
  intros [Hnd Hl Ho] Hsub Ho'. change (NoDup (x :: fids ts ++ fids qs)) in Hnd. apply NoDup_cons in Hnd as [Hx Hnd].
  assert (fids ts' `sublist_of` fids ts) as Hfs by (clear -Hsub; induction Hsub; cbn; [done|by apply sublist_app|by apply sublist_inserts_l]).
  assert (fids (qs ++ ts') ⊆+ fids ts ++ fids qs) as Hsm.
  { rewrite fids_app, (Permutation_app_comm (fids qs)). apply submseteq_app; [by apply sublist_submseteq|done]. }
  split; [split|].
  - destruct (submseteq_Permutation _ _ Hsm) as [k Ek]. rewrite Ek in Hnd. by apply NoDup_app in Hnd as [? _].
  - intros t [Ht|Ht]%elem_of_app; [apply Hl; by right|]. assert (t ∈ ts) as Ht' by (by eapply elem_of_sublist).
    destruct (Hl (Node x ts) ltac:(by left)) as (par & sib & Hlx). destruct (forest_elem _ _ _ _ (links_kids _ _ _ _ Hlx) Ht') as [s ?]. eauto.
  - intros y. unfold fd_ghost_blk_map_insert. rewrite elem_of_difference, elem_of_singleton, Ho', Ho, map_app, elem_of_app. cbn [map tid].
    rewrite elem_of_cons. split; [tauto|]. intros H. split; [tauto|]. intros ->. apply Hx. apply elem_of_app.
    destruct H as [H|H]; apply list_elem_of_fmap in H as (t & -> & Ht).
    + right. apply fids_elem. exists t. split; [done|apply tid_in].
    + left. apply fids_elem. exists t. split; [by eapply elem_of_sublist|apply tid_in].
  - apply submseteq_length in Hsm. change (length (fids (qs ++ ts')) < length (x :: fids ts ++ fids qs))%nat. cbn [length]. lia.
Qed.

Lemma switch_walk_ok fuel out qs acc :
  (length (fids qs) <= fuel)%nat -> switch_queue out qs -> acc_ok acc -> sa_pass acc = false ->
  exists r, switch_walk tower ghost total_stake switch_slot vote_slot fuel out (map tid qs) acc = Ok (r, ∅) /\
    (r = true -> exists used stake, switch_proof tower ghost total_stake vote_slot switch_slot used stake /\
                                    ratio_above stake total_stake SWITCH_RATIO = true).
Proof using HR Hvote.
  revert out qs acc. induction fuel as [|k IH]; intros out [|[x ts] qs] acc Hlen Hq Hacc Hp.
  1,3: exists false; split; [|done]; cbn; do 2 f_equal; apply set_eq; intros y; rewrite (sq_out _ _ Hq), elem_of_nil; set_solver.
  { cbn in Hlen. lia. }
  destruct (sq_links _ _ Hq (Node x ts) ltac:(by left)) as (par & sib & Hlx). destruct (links_root _ _ _ _ Hlx) as (b & Hb & _ & _ & Hc).
  pose proof (links_kids _ _ _ _ Hlx) as Hf. cbn [tid kids] in *.
  assert (NoDup (fids ts)) as Nts.
  { pose proof (sq_nodup _ _ Hq) as Hnd. change (NoDup (x :: fids ts ++ fids qs)) in Hnd. apply NoDup_cons in Hnd as [_ Hnd]. by apply NoDup_app in Hnd as [? _]. }
  destruct (switch_children_ok (Some x) ts (tree_fuel (gh_blks ghost)) out (map tid qs) true Hf) as (ts' & leaf & out' & Ech & Hsub & Ho).
  { pose proof (kids_size _ _ _ Hf Nts). unfold tree_fuel. lia. }
  destruct (switch_queue_pop x ts qs ts' out out' Hq Hsub Ho) as [Hq' Hlt].
  cbn [switch_walk map tid]. rewrite Hb. cbn [deref mbind outcome_bind]. rewrite Hc, Ech. cbn [mbind outcome_bind fst snd]. rewrite <- map_app.
  assert (exists acc', (if leaf then switch_leaf tower total_stake switch_slot vote_slot acc (gb_slot b) else Ok acc) = Ok acc' /\ acc_ok acc')
    as (acc' & -> & Hacc') by (destruct leaf; [by apply (switch_leaf_ok acc x)|eauto]).
  cbn [mbind outcome_bind]. destruct (sa_pass acc') eqn:Ep.
  - exists true. split.
    + do 2 f_equal. apply set_eq. intros y. rewrite insert_all, (sq_out _ _ Hq'). split; [tauto|set_solver].
    + intros _. exists (sa_used acc'), (sa_stake acc'). split; [apply Hacc'|by apply Hacc'].
  - apply IH; [lia|done|done|done].
Qed.
End Switch.

Lemma switch_check_ok tower ghost T total_stake switch_slot vote :
  switch_ready tower ghost T -> last (tw_votes tower) = Some vote -> is_Some (tw_blks tower !! tv_slot vote) ->
  exists r, switch_check tower ghost total_stake switch_slot = Ok (r, ∅) /\
    (r = true -> exists used stake, switch_proof tower ghost total_stake (tv_slot vote) switch_slot used stake /\
                                    ratio_above stake total_stake SWITCH_RATIO = true).
Proof.
  intros HR Hlast Hvote. unfold switch_check, fd_ghost_root. rewrite Hlast, (ti_root _ _ (sr_tree _ _ _ HR)). cbn [deref mbind outcome_bind].
  pose proof (sr_tree _ _ _ HR) as HT. apply (switch_walk_ok tower ghost T total_stake (tv_slot vote) switch_slot HR Hvote _ _ [T]).
  - cbn. rewrite app_nil_r. pose proof (tree_inv_size ghost T HT). unfold tree_fuel. lia.
  - split.
    + cbn. rewrite app_nil_r. apply HT.
    + intros t ->%list_elem_of_singleton. eexists _, _. apply HT.
    + intros y. unfold fd_ghost_blk_map_remove. cbn. rewrite list_elem_of_singleton. set_solver.
  - split; [|done]. split; [intros key Hk; by apply elem_of_empty in Hk|]. cbn [sa_used sa_stake]. rewrite elements_empty. done.
  - done.
Qed.
