(* ===== verification/TowerProps.v ===== *)
(** What the tower promises: every vote it casts respects the lockouts of the
    votes before it, and a vote on another fork needs a switch proof. *)
From S2P Require Import Prelude VotorBase Ghost GhostTree GhostInv GhostInsert GhostPublish GhostChoice GhostEqvoc GhostProps.
From S2P Require Import Tower TowerVotes TowerForks TowerSwitch.

(** The tower and the ghost agree: replayed blocks and votes have their metadata,
    and the block we voted for last is in the ghost. *)
Record vote_ready (tower : fd_tower_t) (ghost : fd_ghost_t) (T : tree) : Prop := {
  vr_ok : tower_ok tower;
  vr_switch : switch_ready tower ghost T;
  vr_votes : forall v, v ∈ tw_votes tower -> is_Some (tw_blks tower !! tv_slot v);
  vr_prev : forall v b, last (tw_votes tower) = Some v -> tw_blks tower !! tv_slot v = Some b -> tb_voted_block_id b ∈ ids T
}.

(** * The checks return *)

Lemma kept_lookup votes slot n :
  1 <= n -> n <= simulate_vote votes slot -> exists v, votes !! Z.to_nat (simulate_vote votes slot - n) = Some v.
Proof.
  intros Hn Hle. rewrite simulate_vote_kept in *. destruct (kept_split votes slot) as (popped & E & _).
  apply lookup_lt_is_Some. apply (f_equal length) in E. rewrite length_app in E. lia.
Qed.

Lemma threshold_check_ok tower accts total_stake slot : exists r, threshold_check tower accts total_stake slot = Ok r.
Proof.
  unfold threshold_check. destruct (Z.ltb_spec (simulate_vote (tw_votes tower) slot) THRESHOLD_DEPTH) as [|Hge]; [eauto|].
  destruct (kept_lookup (tw_votes tower) slot THRESHOLD_DEPTH ltac:(unfold THRESHOLD_DEPTH; lia) Hge) as (v & ->). cbn [deref mbind outcome_bind].
  destruct (ofold_total (fun _ => True) (threshold_vtr slot (tv_slot v)) accts) with (s := 0) as (st & -> & _); [|done|cbn; eauto].
  intros st acct _ _. unfold threshold_vtr. destruct (Z.eqb_spec (simulate_vote (vt_votes acct) slot) 0) as [|Hne]; [eauto|].
  destruct (kept_lookup (vt_votes acct) slot 1 ltac:(lia)) as (w & ->); [rewrite simulate_vote_kept in *; lia|]. cbn. eauto.
Qed.

Lemma propagated_check_ok tower slot : is_Some (tw_blks tower !! slot) -> exists r, propagated_check tower slot = Ok r.
Proof.
  intros [b Hb]. unfold propagated_check, fd_tower_blocks_query. rewrite Hb. destruct (tb_leader b); [eauto|].
  destruct (tb_prev_leader_slot b =? ULONG_MAX); [eauto|]. destruct (tw_blks tower !! tb_prev_leader_slot b); eauto.
Qed.

Section Vote.
Context (tower : fd_tower_t) (ghost : fd_ghost_t) (T : tree).
Hypothesis HR : vote_ready tower ghost T.

Let HT : tree_inv ghost T := sr_tree _ _ _ (vr_switch _ _ _ HR).

Lemma in_ghost x : x ∈ ids T -> exists b, gh_blks ghost !! x = Some b /\ 0 <= gb_slot b < SLOT_LIM /\ is_Some (tw_blks tower !! gb_slot b).
Proof using HR.
  intros Hx. apply (ti_dom _ _ HT) in Hx as [b Hb]. exists b. split; [done|]. by apply (sr_slots _ _ _ (vr_switch _ _ _ HR) x).
Qed.

Lemma ancestor_walk_ok x p : x ∈ ids T -> exists o, predicate_ancestor (tree_fuel (gh_blks ghost)) (gh_blks ghost) p (Some x) = Ok o.
Proof using HR.
  intros Hx. destruct (anc_chain ghost T x HT Hx) as (Hc & _ & Hlen). eexists. apply (predicate_ancestor_spec _ _ _ _ _ Hc).
  unfold tree_fuel. lia.
Qed.

Lemma best_ok x : x ∈ ids T -> exists y, fd_ghost_best ghost x = Ok y /\ y ∈ ids T.
Proof using HR.
  intros Hx. destruct (sub_is_Some T x Hx) as [t Ht]. destruct (best_inv ghost T x t HT Ht) as (y & E & Hg). exists y. split; [done|].
  eapply sub_ids; [done|]. by eapply greedy_in.
Qed.

Lemma deepest_ok x : x ∈ ids T -> exists y, fd_ghost_deepest ghost x = Ok (Some y) /\ y ∈ ids T.
Proof using HR.
  intros Hx. destruct (sub_is_Some T x Hx) as [t Ht]. destruct (deepest_spec ghost T x t HT Ht) as (y & E & Hg & _). exists y. split; [done|].
  by eapply sub_ids.
Qed.

(** Why the best block may be voted for. *)
Definition may_vote (flags : list tower_flag) (b : fd_ghost_blk_t) (vote : fd_tower_vote_t) : Prop :=
  flags = [SIBLING_CONFIRMED] \/ gb_slot b = tv_slot vote \/ anc_slot (tw_blks tower) (gb_slot b) (tv_slot vote) \/
  exists used stake, switch_proof tower ghost (gb_total_stake b) (tv_slot vote) (gb_slot b) used stake /\
                     ratio_above stake (gb_total_stake b) SWITCH_RATIO = true.

Lemma choose_fork_ok best b vote :
  best ∈ ids T -> gh_blks ghost !! best = Some b -> last (tw_votes tower) = Some vote ->
  exists flags r ok, choose_fork tower ghost best b (tv_slot vote) = Ok (flags, Some r, ok) /\ r ∈ ids T /\
    (ok = true -> r = best /\ may_vote flags b vote).
Proof using HR.
  intros Hbest Hb Hlast. assert (vote ∈ tw_votes tower) as Hv by (apply last_Some in Hlast as [l ->]; apply elem_of_app; right; by left).
  destruct (vr_votes _ _ _ HR vote Hv) as [tb Htb]. pose proof (vr_prev _ _ _ HR vote tb Hlast Htb) as Hprev.
  unfold choose_fork, fd_tower_blocks_query. rewrite Htb. cbn [deref mbind outcome_bind].
  unfold fd_ghost_query.
  rewrite (bool_decide_true (is_Some (gh_blks ghost !! tb_voted_block_id tb))) by (by apply (ti_dom _ _ HT)).
  unfold fd_ghost_invalid_ancestor. destruct (ancestor_walk_ok (tb_voted_block_id tb) (fun _ b => negb (gb_valid b)) Hprev) as (inv & ->). cbn [mbind outcome_bind].
  assert (exists anc, (if bool_decide (Some (tb_voted_block_id tb) = Some best) then Ok None else fd_ghost_ancestor ghost (tb_voted_block_id tb) best) = Ok anc)
    as (anc & ->) by (case_bool_decide; [eauto|by apply ancestor_walk_ok]).
  cbn [mbind outcome_bind]. set (ia := bool_decide (is_Some inv)).
  destruct (ia && bool_decide (is_Some anc)); [exists [ANCESTOR_ROLLBACK], best, false; done|].
  destruct (ia && _); [exists [SIBLING_CONFIRMED], best, true; split_and!; [done|done|intros _; split; [done|by left]]|].
  destruct (is_ancestor_spec (tw_blks tower) (gb_slot b) (tv_slot vote) (sr_blks _ _ _ (vr_switch _ _ _ HR))) as (same & Es & Hs).
  assert (exists s, (if gb_slot b =? tv_slot vote then Ok true else fd_tower_blocks_is_slot_ancestor tower (gb_slot b) (tv_slot vote)) = Ok s /\
    (s = true -> gb_slot b = tv_slot vote \/ anc_slot (tw_blks tower) (gb_slot b) (tv_slot vote))) as (s & -> & Hs').
  { destruct (Z.eqb_spec (gb_slot b) (tv_slot vote)); [exists true; split; [done|by left]|]. exists same. split; [done|]. intros E. right. by apply Hs. }
  cbn [mbind outcome_bind]. destruct s; [exists [SAME_FORK], best, true; split_and!; [done|done|intros _; split; [done|right; destruct (Hs' eq_refl); tauto]]|].
  destruct (switch_check_ok tower ghost T (gb_total_stake b) (gb_slot b) vote (vr_switch _ _ _ HR) Hlast ltac:(by exists tb)) as (sw & -> & Hsw).
  cbn [mbind outcome_bind fst snd]. destruct sw; [exists [SWITCH_PASS], best, true; split_and!; [done|done|intros _; split; [done|right; right; right; by apply Hsw]]|].
  cbn [deref mbind outcome_bind]. destruct ia.
  - destruct (deepest_ok _ Hprev) as (r & -> & Hr). cbn. exists [SWITCH_FAIL], r, false. done.
  - destruct (best_ok _ Hprev) as (r & -> & Hr). cbn. exists [SWITCH_FAIL], r, false. done.
Qed.

Lemma can_vote_ok b :
  is_Some (tw_blks tower !! gb_slot b) -> tw_votes tower <> [] ->
  exists f, can_vote tower b = Ok f /\ (f = None -> respects_lockouts tower (gb_slot b)).
Proof using HR.
  intros Hb Hne. unfold can_vote. destruct (lockout_check_spec tower (gb_slot b) (vr_ok _ _ _ HR)) as (l & -> & Hl).
  rewrite decide_False in Hl by done. cbn [mbind outcome_bind]. destruct l; cbn [negb]; [|by eexists].
  destruct (threshold_check_ok tower (tw_vtrs tower) (gb_total_stake b) (gb_slot b)) as (t & ->). cbn [mbind outcome_bind]. destruct t; cbn [negb]; [|by eexists].
  destruct (propagated_check_ok tower (gb_slot b) Hb) as (p & ->). cbn [mbind outcome_bind]. eexists. split; [done|]. intros _. by apply Hl.
Qed.

(** Recording and pushing a vote that respects the lockouts. *)
Lemma record_vote_total id slot : is_Some (tw_blks tower !! slot) -> exists tower', record_vote tower slot id = Ok tower'.
Proof using Type. intros [b Hb]. unfold record_vote, fd_tower_blocks_query. rewrite Hb. cbn. eauto. Qed.

(** Pushing the vote and recording it. *)
Lemma cast_vote slot :
  respects_lockouts tower slot -> 0 <= slot < SLOT_LIM ->
  push_vote (tw_votes tower) slot = Ok (voted_tower (tw_votes tower) slot, new_root (tw_votes tower) slot) /\
  tower_ok (tw_set_votes tower (voted_tower (tw_votes tower) slot)).
Proof using HR.
  intros Hres Hlim. split; [|by apply vote_keeps_ok; [apply (vr_ok _ _ _ HR)|..]].
  apply push_vote_code; [apply (tk_votes _ (vr_ok _ _ _ HR))|]. intros v Hv. by apply Hres.
Qed.

Lemma new_root_in slot : new_root (tw_votes tower) slot <> ULONG_MAX -> is_Some (tw_blks tower !! new_root (tw_votes tower) slot).
Proof using HR.
  unfold new_root. destruct (kept_split (tw_votes tower) slot) as (popped & Ev & _). case_if; [|done].
  destruct (kept (tw_votes tower) slot) as [|k l] eqn:Ek; cbn [head]; [done|]. intros _. apply (vr_votes _ _ _ HR). rewrite Ev. by left.
Qed.
End Vote.

(** The outcome of a decision: the best block of the ghost is voted for in accord
    with the lockouts, or the tower does not change. *)
Record vote_outcome (tower : fd_tower_t) (ghost : fd_ghost_t) (T : tree) (tower' : fd_tower_t) (out : fd_tower_out_t) : Prop := {
  vo_ok : tower_ok tower';
  vo_reset : to_reset_block_id out ∈ ids T;
  vo_vote : to_vote_slot out = ULONG_MAX /\ tower' = tower \/
    exists b, fd_ghost_best ghost (tid T) = Ok (to_vote_block_id out) /\ gh_blks ghost !! to_vote_block_id out = Some b /\
      to_vote_slot out = gb_slot b /\ to_reset_block_id out = to_vote_block_id out /\
      respects_lockouts tower (gb_slot b) /\
      tw_votes tower' = voted_tower (tw_votes tower) (gb_slot b) /\ to_root_slot out = new_root (tw_votes tower) (gb_slot b) /\
      match last (tw_votes tower) with Some vote => may_vote tower ghost (to_flags out) b vote | None => True end
}.

Lemma record_after_push tower slot id b :
  tower_ok tower -> tw_blks tower !! slot = Some b ->
  exists tower', record_vote tower slot id = Ok tower' /\ tower_ok tower' /\ tw_votes tower' = tw_votes tower /\
    forall s, is_Some (tw_blks tower !! s) -> is_Some (tw_blks tower' !! s).
Proof.
  intros Hok Hb. destruct (record_vote_total tower id slot ltac:(by exists b)) as (tower' & E). exists tower'. split; [done|].
  destruct (record_vote_ok tower slot id tower' Hok E) as (H1 & H2 & _). split_and!; [done|done|].
  unfold record_vote, fd_tower_blocks_query in E. rewrite Hb in E. cbn in E. injection E as <-. cbn. intros s. rewrite lookup_insert_is_Some.
  destruct (decide (slot = s)); [by left|by right].
Qed.

Lemma vote_and_reset_ok tower ghost T h0 :
  vote_ready tower ghost T ->
  exists tower' out, fd_tower_vote_and_reset tower ghost h0 = Ok (tower', out) /\ vote_outcome tower ghost T tower' out.
Proof.
  intros HR. pose proof (sr_tree _ _ _ (vr_switch _ _ _ HR)) as HT. pose proof (vr_ok _ _ _ HR) as Hok.
  unfold fd_tower_vote_and_reset, fd_ghost_root. rewrite (ti_root _ _ HT). cbn [deref mbind outcome_bind].
  destruct (best_ok tower ghost T HR (tid T) (tid_in T)) as (best & Ebest & Hbest). rewrite Ebest. cbn [mbind outcome_bind].
  destruct (in_ghost tower ghost T HR best Hbest) as (b & Hb & Hlim & [tb Htb]). rewrite Hb. cbn [deref mbind outcome_bind].
  destruct (last (tw_votes tower)) as [vote|] eqn:Hlast.
  - destruct (choose_fork_ok tower ghost T HR best b vote Hbest Hb Hlast) as (flags & r & ok & -> & Hr & Hok1). cbn [mbind outcome_bind fst snd].
    assert (tw_votes tower <> []) as Hne by (intros E; by rewrite E in Hlast).
    destruct (can_vote_ok tower ghost T HR b ltac:(by exists tb) Hne) as (f & Ef & Hf).
    assert (exists f', (if ok then can_vote tower b else Ok None) = Ok f' /\ (ok = true -> f' = f)) as (f' & -> & Hf')
      by (destruct ok; [by exists f|by exists None]).
    cbn [mbind outcome_bind]. destruct (in_ghost tower ghost T HR r Hr) as (br & Hbr & _). rewrite Hbr. cbn [deref mbind outcome_bind].
    destruct (negb ok || bool_decide (is_Some f')) eqn:Ec.
    { eexists _, _. split; [done|]. split; cbn; [done|done|by left]. }
    apply orb_false_iff in Ec as [Eo Es]. apply negb_false_iff in Eo. rewrite Eo in *. apply bool_decide_eq_false, eq_None_not_Some in Es.
    rewrite (Hf' eq_refl) in Es. destruct (Hok1 eq_refl) as [-> Hmay]. assert (b = br) as <- by congruence.
    destruct (cast_vote tower ghost T HR (gb_slot b) (Hf Es) Hlim) as [-> Hok2]. cbn [mbind outcome_bind fst snd].
    unfold fd_tower_blocks_query. cbn [tw_blks tw_set_votes]. rewrite Htb. cbn [deref mbind outcome_bind].
    destruct (record_after_push _ (gb_slot b) best tb Hok2 Htb) as (tower' & -> & Hok' & Ev & Hin). cbn [mbind outcome_bind].
    assert (exists rid, (if new_root (tw_votes tower) (gb_slot b) =? ULONG_MAX then Ok zero_hash
      else root_fork ← deref (tw_blks tower' !! new_root (tw_votes tower) (gb_slot b));
           Ok (if tb_confirmed root_fork then tb_confirmed_block_id root_fork else tb_voted_block_id root_fork)) = Ok rid) as (rid & ->).
    { destruct (Z.eqb_spec (new_root (tw_votes tower) (gb_slot b)) ULONG_MAX) as [|Hn]; [eauto|].
      destruct (Hin _ (new_root_in tower ghost T HR (gb_slot b) Hn)) as [rf ->]. cbn. eauto. }
    cbn [mbind outcome_bind]. eexists _, _. split; [done|]. split; [done|done|]. right. exists b. cbn.
    rewrite Hlast, (Hf' eq_refl), Es, app_nil_r. split_and!; try done. by apply Hf.
  - apply last_None in Hlast. unfold vote_and_reset_empty. destruct (lockout_check_spec tower (gb_slot b) Hok) as (l & -> & _). cbn [mbind outcome_bind].
    destruct l; cbn [negb]; [|eexists _, _; split; [done|]; split; cbn; [done|done|by left]].
    unfold fd_tower_blocks_query. rewrite Htb. cbn [deref mbind outcome_bind].
    destruct (record_after_push tower (gb_slot b) best tb Hok Htb) as (tower' & -> & Hok' & Ev & Hin). cbn [mbind outcome_bind].
    assert (respects_lockouts tower' (gb_slot b)) as Hres by (intros v; rewrite Ev, Hlast; by intros ?%not_elem_of_nil).
    rewrite (push_vote_code (tw_votes tower') (gb_slot b) (tk_votes _ Hok')) by (intros v Hv; by apply Hres).
    cbn [mbind outcome_bind fst snd]. eexists _, _. split; [done|]. split; [by apply vote_keeps_ok|done|]. right. exists b. cbn.
    rewrite Ev, Hlast. split_and!; try done. intros v. rewrite Hlast. by intros ?%not_elem_of_nil.
Qed.

(** * A sample tower *)

(** Slots 10, 11 and 12 of the sample ghost, 11 and 12 being children of 10, and
    one vote, for 10. *)
Definition blk0 (parent : Z) (voted : bool) (id : fd_hash_t) : fd_tower_blk_t :=
  mk_tower_blk parent 0 zero_hash zero_hash true id voted id false zero_hash false false ULONG_MAX.
Definition tower0 : fd_tower_t :=
  mk_tower [mk_tower_vote 10 1] 9 8 4
    (<[10 := blk0 9 true (H 1)]> (<[11 := blk0 10 false (H 2)]> (<[12 := blk0 10 false (H 3)]> ∅))) [] ∅ ∅ ∅ ∅.

Definition blk_fits (s : Z) (b : fd_tower_blk_t) : Prop :=
  (0 <= s < SLOT_LIM) /\ 0 <= tb_parent_slot b /\ (tb_parent_slot b < s \/ tb_parent_slot b = ULONG_MAX).
Definition ghost_blk_fits (x : fd_hash_t) (b : fd_ghost_blk_t) : Prop :=
  (0 <= gb_slot b < SLOT_LIM) /\ is_Some (tw_blks tower0 !! gb_slot b).

Lemma tower0_blks : wf_blks (tw_blks tower0).
Proof. assert (map_Forall blk_fits (tw_blks tower0)) as Hf by by_decide. exact Hf. Qed.

Lemma wf_one slot : 0 <= slot < SLOT_LIM -> wf_votes [mk_tower_vote slot 1].
Proof. intros Hs. split; [repeat constructor|repeat constructor; cbn; unfold FD_TOWER_VOTE_MAX; lia|cbn; unfold FD_TOWER_VOTE_MAX; lia]. Qed.

Lemma tower0_ok : tower_ok tower0.
Proof. split; [apply wf_one; unfold SLOT_LIM; lia|apply tower0_blks|repeat constructor]. Qed.

Lemma tower0_switch : switch_ready tower0 ghost3 tree3.
Proof.
  split; [apply tower0_blks|apply good3| |].
  - assert (map_Forall ghost_blk_fits (gh_blks ghost3)) as Hf by by_decide. exact Hf.
  - intros k e i. unfold lck_at. cbn. rewrite lookup_empty. by intros ?%not_elem_of_nil.
Qed.

Lemma tower0_ready : vote_ready tower0 ghost3 tree3.
Proof.
  split; [apply tower0_ok|apply tower0_switch| |].
  - intros v ->%list_elem_of_singleton. eexists. vm_compute. reflexivity.
  - intros v b E Hb. injection E as <-. vm_compute in Hb. injection Hb as <-. by_decide.
Qed.

(** * Properties *)



(** C8: Pushing a vote for a slot above all votes of a well-formed tower returns a
    well-formed tower, one that passes the tower's own check: at most 31 votes, slots
    growing and confirmations shrinking to the top.  Expired votes are popped from
    the top, and with 31 votes left the bottom one becomes the root.  Incrementing
    consecutive confirmations is the stack-depth rule of the protocol, by which a
    vote gains a confirmation when it has at most as many as there are votes above it. *)
Theorem push_vote_stack_depth votes slot :
  wf_votes votes -> (forall v, v ∈ votes -> tv_slot v < slot) -> 0 <= slot < SLOT_LIM ->
  push_vote votes slot = Ok (voted_tower votes slot, new_root votes slot) /\
  wf_votes (voted_tower votes slot) /\ fd_tower_verify (voted_tower votes slot) = 0 /\
  exists popped, votes = kept votes slot ++ popped /\ Forall (fun v => tv_slot v + 2 ^ tv_conf v < slot) popped /\
    forall v l, kept votes slot = l ++ [v] -> slot <= tv_slot v + 2 ^ tv_conf v.
Proof.
  intros Hw Hs Hlim. pose proof (voted_tower_wf votes slot Hw Hs Hlim) as Hw'. destruct (kept_split votes slot) as (popped & E & Hp).
  assert (forall v, v ∈ votes -> expiration_slot v = tv_slot v + 2 ^ tv_conf v) as Hexp.
  { intros v Hv. apply expiration_small. pose proof (wv_ok _ Hw) as Ho. rewrite Forall_forall in Ho. by apply Ho. }
  split_and!; [by apply push_vote_code|done|by apply verify_wf|]. exists popped. split_and!; [done| |].
  - apply Forall_forall. intros v Hv. rewrite <- Hexp by (rewrite E; apply elem_of_app; by right). rewrite Forall_forall in Hp. by apply Hp.
  - intros v l El. destruct (kept_last votes slot v l El) as [Hl Hx]. rewrite <- Hexp; [done|]. by eapply list_elem_of_lookup_2.
Qed.

Lemma push_vote_stack_depth_witness :
  push_vote [mk_tower_vote 10 1] 11 = Ok ([mk_tower_vote 10 2; mk_tower_vote 11 1], ULONG_MAX) /\
  wf_votes [mk_tower_vote 10 2; mk_tower_vote 11 1].
Proof.
  destruct (push_vote_stack_depth [mk_tower_vote 10 1] 11) as (E & Hw & _).
  - apply wf_one. unfold SLOT_LIM. lia.
  - intros v Hv. apply list_elem_of_singleton in Hv. subst v. cbn. lia.
  - unfold SLOT_LIM. lia.
  - split; [exact E|exact Hw].
Defined.

(** C9: The lockout check is exact: for a tower with votes whose chain is intact it
    accepts a slot if and only if the slot is above every vote and every vote that
    would not be expired by it is its ancestor. *)
Theorem lockout_check_exact tower slot :
  tower_ok tower -> tw_votes tower <> [] ->
  exists r, lockout_check tower slot = Ok r /\ (r = true <-> respects_lockouts tower slot).
Proof.
  intros Hok Hne. destruct (lockout_check_spec tower slot Hok) as (r & E & Hr). rewrite decide_False in Hr by done. eauto.
Qed.

Lemma lockout_check_exact_witness :
  exists r, lockout_check tower0 12 = Ok r /\ r = true /\ respects_lockouts tower0 12.
Proof.
  destruct (lockout_check_exact tower0 12 tower0_ok ltac:(discriminate)) as (r & E & Hr). exists r. split; [exact E|].
  vm_compute in E. injection E as <-. split; [reflexivity|]. apply Hr. reflexivity.
Defined.



(** The lowest common ancestor of two replayed slots: the walk returns the
    highest slot that is, or is an ancestor of, both, and ULONG_MAX if the replayed
    blocks hold none. *)
Theorem lowest_common_ancestor_spec tower s1 s2 :
  wf_blks (tw_blks tower) -> is_Some (tw_blks tower !! s1) -> is_Some (tw_blks tower !! s2) ->
  exists l, fd_tower_blocks_lowest_common_ancestor tower s1 s2 = Ok l /\ is_lca (tw_blks tower) s1 s2 l.
Proof. apply lca_spec. Qed.

Lemma lowest_common_ancestor_spec_witness :
  exists l, fd_tower_blocks_lowest_common_ancestor tower0 11 12 = Ok l /\ is_lca (tw_blks tower0) 11 12 l /\ l = 10.
Proof.
  destruct (lowest_common_ancestor_spec tower0 11 12 tower0_blks) as (l & E & Hl).
  - eexists. vm_compute. reflexivity.
  - eexists. vm_compute. reflexivity.
  - exists l. split; [exact E|]. split; [exact Hl|]. vm_compute in E. injection E as <-. reflexivity.
Defined.
