(* ===== verification/TowerSerde.v ===== *)
(** Wire formats of the tower (src/src/choreo/tower/fd_tower_serdes.h,
    fd_tower_serdes.c): the compact tower sync instruction and the votes of a
    vote account, with the callers in fd_tower.c that build or read them. *)
From S2P Require Import Prelude VotorBase Ghost Tower.

(** * Writing and reading

    Bytes are appended at the end of the buffer, so the bytes written so far
    stand for the buffer and the offset.  [None] is the error return. *)

(** [SER]: writes if the bytes fit, fails otherwise. *)
Definition SER (buf_max : Z) (buf bytes : list Z) : option (list Z) :=
  if buf_max <? Z.of_nat (length buf) +w Z.of_nat (length bytes) then None else Some (buf ++ bytes).

(** A write without a test of the buffer's end. *)
Definition put (buf_max : Z) (buf bytes : list Z) : outcome (list Z) :=
  check OutOfBounds (Z.of_nat (length buf) + Z.of_nat (length bytes) <=? buf_max);; Ok (buf ++ bytes).

(** [DE]: reads [n] bytes. *)
Definition DE (n : nat) (buf : list Z) : option (list Z * list Z) :=
  if Z.of_nat (length buf) <? Z.of_nat n then None else Some (take n buf, drop n buf).

Definition ser_short_u16 (val : Z) : list Z :=
  if val <? 128 then [val]
  else if val <? 16384 then [Z.lor (Z.land val 127) 128; Z.shiftr val 7]
  else [Z.lor (Z.land val 127) 128; Z.lor (Z.land (Z.shiftr val 7) 127) 128; Z.shiftr val 14].

Definition de_short_u16 (src : list Z) : option (Z * list Z) :=
  match src with
  | [] => None
  | s0 :: r0 =>
      if Z.land 128 s0 =? 0 then Some (s0, r0)
      else match r0 with
      | [] => None
      | s1 :: r1 =>
          if Z.land 128 s1 =? 0 then
            if s1 =? 0 then None else Some (Z.land s0 127 + Z.shiftl s1 7, r1)
          else match r1 with
          | [] => None
          | s2 :: r2 =>
              if negb (Z.land 128 s2 =? 0) then None
              else if s2 =? 0 then None
              else let val := Z.land s0 127 + Z.shiftl (Z.land s1 127) 7 + Z.shiftl s2 14 in
                   if USHORT_MAX <? val then None else Some (val, r2)
          end
      end
  end.

(** Seven bits per byte: ten bytes hold a ulong. *)
Definition var_int_fuel : nat := 10.

Fixpoint ser_var_int_loop (fuel : nat) (val : Z) : list Z :=
  match fuel with
  | O => []
  | S k => if 128 <=? val then Z.lor (Z.land val 127) 128 :: ser_var_int_loop k (Z.shiftr val 7) else [val]
  end.
Definition ser_var_int (val : Z) : list Z := ser_var_int_loop var_int_fuel val.

(** The loop ends when the shift reaches 64. *)
Fixpoint de_var_int_loop (fuel : nat) (dst bit : Z) (src : list Z) : option (Z * list Z) :=
  match fuel with
  | O => None
  | S k =>
      match src with
      | [] => None
      | byte :: rest =>
          let dst := Z.lor dst (u64 (Z.shiftl (Z.land byte 127) bit)) in
          if Z.land byte 128 =? 0 then
            if negb (Z.shiftr dst bit =? byte) then None
            else if (byte =? 0) && (negb (bit =? 0) || negb (dst =? 0)) then None
            else Some (dst, rest)
          else de_var_int_loop k dst (bit + 7) rest
      end
  end.
Definition de_var_int (src : list Z) : option (Z * list Z) := de_var_int_loop var_int_fuel 0 0 src.

(** * The compact tower sync instruction *)

(** The entries of [lockouts] in use; [cts_timestamp] is meaningful if the option is set. *)
Record fd_compact_tower_sync_serde_t := mk_cts {
  cts_root : Z;
  cts_lockouts_cnt : Z;
  cts_lockouts : list (Z * Z);
  cts_hash : fd_hash_t;
  cts_timestamp_option : Z;
  cts_timestamp : Z;
  cts_block_id : fd_hash_t
}.

(** A signed 64-bit integer in memory. *)
Definition store_long (x : Z) : list Z := le_store 8 (u64 x).
Definition load_long (l : list Z) : Z := let x := le_load l in if x <? 9223372036854775808 then x else x - 18446744073709551616.

Fixpoint ser_lockouts (buf_max : Z) (buf : list Z) (l : list (Z * Z)) : outcome (option (list Z)) :=
  match l with
  | [] => Ok (Some buf)
  | (offset, conf) :: rest =>
      buf ← put buf_max buf (ser_var_int offset);
      match SER buf_max buf [conf] with None => Ok None | Some buf => ser_lockouts buf_max buf rest end
  end.

Definition fd_compact_tower_sync_ser (serde : fd_compact_tower_sync_serde_t) (buf_max : Z) : outcome (option (list Z)) :=
  match SER buf_max [] (le_store 8 (cts_root serde)) with
  | None => Ok None
  | Some buf =>
      buf ← put buf_max buf (ser_short_u16 (cts_lockouts_cnt serde));
      if FD_TOWER_VOTE_MAX <? cts_lockouts_cnt serde then Ok None else
      check OutOfBounds (cts_lockouts_cnt serde <=? Z.of_nat (length (cts_lockouts serde)));;
      r ← ser_lockouts buf_max buf (take (Z.to_nat (cts_lockouts_cnt serde)) (cts_lockouts serde));
      Ok (buf ← r;
          buf ← SER buf_max buf (cts_hash serde);
          buf ← SER buf_max buf [cts_timestamp_option serde];
          buf ← (if cts_timestamp_option serde =? 0 then Some buf else SER buf_max buf (store_long (cts_timestamp serde)));
          SER buf_max buf (cts_block_id serde))
  end.

Fixpoint de_lockouts (n : nat) (buf : list Z) : option (list (Z * Z) * list Z) :=
  match n with
  | O => Some ([], buf)
  | S k =>
      ob ← de_var_int buf;
      cb ← DE 1 ob.2;
      lb ← de_lockouts k cb.2;
      Some ((ob.1, le_load cb.1) :: lb.1, lb.2)
  end.

(** [timestamp0] is what the structure holds before. *)
Definition fd_compact_tower_sync_de (timestamp0 : Z) (buf : list Z) : option fd_compact_tower_sync_serde_t :=
  root ← DE 8 buf;
  cnt ← de_short_u16 root.2;
  if FD_TOWER_VOTE_MAX <? cnt.1 then None else
  lockouts ← de_lockouts (Z.to_nat cnt.1) cnt.2;
  hash ← DE 32 lockouts.2;
  opt ← DE 1 hash.2;
  if negb (le_load opt.1 =? 1) && negb (le_load opt.1 =? 0) then None else
  ts ← (if le_load opt.1 =? 0 then Some (timestamp0, opt.2) else t ← DE 8 opt.2; Some (load_long t.1, t.2));
  block_id ← DE 32 ts.2;
  Some (mk_cts (le_load root.1) cnt.1 lockouts.1 hash.1 (le_load opt.1) ts.1 block_id.1).

(** The size of a transaction's buffer; the instruction's kind takes the first 4 bytes. *)
Definition FD_TXN_MTU : Z := 4096.

(** The instruction [fd_tower_to_vote_txn] builds: each vote as the distance to
    the one below it. *)
Fixpoint sync_lockouts (prev : Z) (votes : votes_t) : list (Z * Z) :=
  match votes with
  | [] => []
  | vote :: rest => (tv_slot vote -w prev, tv_conf vote mod 256) :: sync_lockouts (tv_slot vote) rest
  end.

Definition tower_sync (tower : fd_tower_t) (bank_hash block_id : fd_hash_t) (now : Z) : outcome fd_compact_tower_sync_serde_t :=
  check FdTest (Z.of_nat (length (tw_votes tower)) <=? FD_TOWER_VOTE_MAX);;
  let root := if tw_root tower =? ULONG_MAX then 0 else tw_root tower in
  Ok (mk_cts root (Z.of_nat (length (tw_votes tower)) mod 65536) (sync_lockouts root (tw_votes tower)) bank_hash 1 now block_id).

(** * Vote accounts *)

Definition FD_VOTE_ACC_V2 : Z := 1.
Definition FD_VOTE_ACC_V3 : Z := 2.
Definition FD_VOTE_ACC_V4 : Z := 3.

Record fd_vote_acc_desc_t := mk_desc { de_kind : Z; de_votes_off : Z; de_vote_cnt : Z; de_vote_stride : Z; de_root_slot : Z }.

(** [FD_LOAD] of [n] bytes at an offset of the account's data. *)
Definition load (n : nat) (data : list Z) (off : Z) : outcome Z :=
  check OutOfBounds ((0 <=? off) && (off + Z.of_nat n <=? Z.of_nat (length data)));;
  Ok (le_load (take n (drop (Z.to_nat off) data))).

(** Where the vote count is: 4 bytes of kind, then the fields before it. *)
Definition V2_VOTES_CNT : Z := 4 + 32 + 32 + 1.
Definition V4_HAS_BLS : Z := 4 + 4 * 32 + 2 + 2 + 8.

(** The offset of the vote count and the size of a vote, by the account's version. *)
Definition vote_cnt_loc (kind : Z) (data : list Z) : outcome (option (Z * Z)) :=
  if kind =? FD_VOTE_ACC_V2 then Ok (Some (V2_VOTES_CNT, 12))
  else if kind =? FD_VOTE_ACC_V3 then Ok (Some (V2_VOTES_CNT, 13))
  else if kind =? FD_VOTE_ACC_V4 then
    (if Z.of_nat (length data) <=? V4_HAS_BLS then Ok None else
     has_bls ← load 1 data V4_HAS_BLS;
     Ok (Some (V4_HAS_BLS + 1 + (if has_bls =? 0 then 0 else 48), 13)))
  else Ok None.

Definition fd_vote_acc_desc (data : list Z) : outcome (option fd_vote_acc_desc_t) :=
  let data_sz := Z.of_nat (length data) in
  if data_sz <? 4 then Ok None else
  kind ← load 4 data 0;
  loc ← vote_cnt_loc kind data;
  match loc with
  | None => Ok None
  | Some (vote_cnt_off, vote_stride) =>
      if data_sz <? vote_cnt_off + 8 then Ok None else
      vote_cnt ← load 8 data vote_cnt_off;
      let vote_cnt := Z.min vote_cnt FD_TOWER_VOTE_MAX in
      let vote_hi := vote_cnt_off + 8 + vote_cnt * vote_stride in
      if data_sz <? vote_hi then Ok None
      else if data_sz <? vote_hi + 1 then Ok None
      else
        root_opt ← load 1 data vote_hi;
        if root_opt =? 1 then
          (if data_sz <? vote_hi + 9 then Ok None else
           root_slot ← load 8 data (vote_hi + 1);
           Ok (Some (mk_desc kind (vote_cnt_off + 8) vote_cnt vote_stride root_slot)))
        else if root_opt =? 0 then Ok (Some (mk_desc kind (vote_cnt_off + 8) vote_cnt vote_stride ULONG_MAX))
        else Ok None
  end.

Definition fd_vote_acc_desc_vote (desc : fd_vote_acc_desc_t) (idx : Z) : Z := de_votes_off desc + idx * de_vote_stride desc.

(** Version 2 votes are a slot and a confirmation count, later ones start with a latency byte. *)
Definition load_vote (desc : fd_vote_acc_desc_t) (data : list Z) (i : Z) : outcome fd_tower_vote_t :=
  let p := fd_vote_acc_desc_vote desc i + (if de_kind desc =? FD_VOTE_ACC_V2 then 0 else 1) in
  slot ← load 8 data p;
  conf ← load 4 data (p + 8);
  Ok (mk_tower_vote slot conf).

Definition fd_tower_from_vote_acc (votes : votes_t) (data : list Z) : outcome (votes_t * Z) :=
  desc ← fd_vote_acc_desc data;
  match desc with
  | None => Ok (votes, ULONG_MAX)
  | Some desc =>
      votes ← ofold (fun votes i => vote ← load_vote desc data i; vote_push_tail votes vote) votes (range 0 (de_vote_cnt desc));
      Ok (votes, de_root_slot desc)
  end.

(** The votes with their latencies; version 2 has none. *)
Definition fd_tower_with_lat_from_vote_acc (data : list Z) : outcome (list (Z * fd_tower_vote_t)) :=
  desc ← fd_vote_acc_desc data;
  match desc with
  | None => Ok []
  | Some desc =>
      ofold (fun l i => vote ← load_vote desc data i;
                        lat ← (if de_kind desc =? FD_VOTE_ACC_V2 then Ok 255 else load 1 data (fd_vote_acc_desc_vote desc i));
                        Ok (l ++ [(lat, vote)])) [] (range 0 (de_vote_cnt desc))
  end.

(** The deque of voters is emptied by the caller before a slot's votes are counted. *)
Definition fd_tower_count_vote (tower : fd_tower_t) (vote_acc : fd_pubkey_t) (stake : Z) (data : list Z) : outcome fd_tower_t :=
  check OutOfBounds (Z.of_nat (length (tw_vtrs tower)) <? tw_vtr_max tower);;
  vr ← fd_tower_from_vote_acc [] data;
  Ok (tw_set_vtrs tower (tw_vtrs tower ++ [mk_tower_vtr vote_acc stake vr.1 vr.2])).
