(* ===== verification/TowerSerdeProps.v ===== *)
(** The wire formats of the tower: round trips, rejection of non-canonical
    encodings, bounds, and a write past the end of a short buffer. *)
From S2P Require Import Prelude VotorBase Ghost Tower TowerVotes TowerSerde.

(** * Bit operations on bytes *)

Lemma land_127 v : Z.land v 127 = v mod 128.
Proof. change 127 with (Z.ones 7). by rewrite Z.land_ones by lia. Qed.

Lemma lor_add a b n : 0 <= n -> 0 <= a < 2 ^ n -> Z.lor a (b * 2 ^ n) = a + b * 2 ^ n.
Proof.
  intros Hn Ha. assert (Z.land a (b * 2 ^ n) = 0) as E.
  { apply Z.bits_inj'. intros i Hi. rewrite Z.land_spec, Z.bits_0. destruct (Z.lt_ge_cases i n).
    - rewrite Z.mul_pow2_bits_low by lia. apply andb_false_r.
    - destruct (Z.eq_dec a 0) as [->|]; [by rewrite Z.bits_0|]. rewrite (Z.bits_above_log2 a i); [done|lia|].
      apply Z.log2_lt_pow2; [lia|]. eapply Z.lt_le_trans; [apply Ha|]. apply Z.pow_le_mono_r; lia. }
  rewrite <- Z.lxor_lor by done. symmetry. by apply Z.add_nocarry_lxor.
Qed.

(** A byte with the continuation bit. *)
Lemma cont_byte v : 0 <= v -> Z.lor (Z.land v 127) 128 = v mod 128 + 128.
Proof. intros Hv. rewrite land_127. change 128 with (1 * 2 ^ 7) at 2. rewrite lor_add; [lia|lia|]. apply Z.mod_pos_bound. lia. Qed.

Lemma cont_bit b : 0 <= b < 256 -> Z.land b 128 = if b <? 128 then 0 else 128.
Proof.
  intros Hb. assert (Forall (fun b => Z.land b 128 = if b <? 128 then 0 else 128) (seqZ 0 256)) as Hall
    by (apply (bool_decide_eq_true_1 (Forall _ _)); vm_compute; reflexivity).
  rewrite Forall_forall in Hall. apply Hall. apply elem_of_seqZ. lia.
Qed.

(** * Variable-length integers *)

Lemma shift7 v : 0 <= v -> Z.shiftr v 7 = v / 128.
Proof. intros Hv. by rewrite Z.shiftr_div_pow2 by lia. Qed.

(** What the loop reads next, with [dst] read so far: the encoding of [v], which
    is not zero after a continuation. *)
Lemma de_ser_loop n : forall k dst bit v rest,
  0 <= bit -> (n <= k)%nat -> 0 <= dst < 2 ^ bit -> 0 <= v < 128 ^ Z.of_nat n -> dst + v * 2 ^ bit <= ULONG_MAX -> (v = 0 -> bit = 0) -> (0 < n)%nat ->
  de_var_int_loop k dst bit (ser_var_int_loop n v ++ rest) = Some (dst + v * 2 ^ bit, rest).
Proof.
  induction n as [|n IH]; intros k dst bit v rest Hbit Hk Hd Hv Hmax Hz Hn; [lia|]. destruct k as [|k]; [lia|].
  cbn [ser_var_int_loop]. assert (0 < 2 ^ bit) as Hp by (apply Z.pow_pos_nonneg; lia). unfold ULONG_MAX in *.
  destruct (Z.leb_spec 128 v) as [Hge|Hlt]; cbn [app de_var_int_loop].
  - rewrite cont_byte by lia. pose proof (Z.mod_pos_bound v 128 ltac:(lia)) as Hm. rewrite cont_bit by lia.
    rewrite (proj2 (Z.ltb_ge _ _)) by lia. cbn [Z.eqb]. rewrite land_127, Zplus_mod, Z_mod_same_full, Z.add_0_r, !Z.mod_mod by lia.
    rewrite Z.shiftl_mul_pow2 by lia. pose proof (Z.div_mod v 128 ltac:(lia)) as Hdm.
    assert (0 <= v mod 128 * 2 ^ bit < 18446744073709551616) as Hsm by nia.
    rewrite u64_small by (unfold is_u64, ULONG_MAX; lia). rewrite lor_add by lia. rewrite shift7 by lia.
    destruct n as [|n]; [change (128 ^ Z.of_nat 1) with 128 in Hv; lia|].
    assert (2 ^ (bit + 7) = 128 * 2 ^ bit) as E7 by (rewrite Z.pow_add_r by lia; lia).
    rewrite (IH k _ (bit + 7)); [do 2 f_equal; rewrite E7; nia|lia|lia|rewrite E7; nia| |rewrite E7; nia| |lia].
    + split; [apply Z.div_pos; lia|]. apply Z.div_lt_upper_bound; [lia|]. rewrite Nat2Z.inj_succ, Z.pow_succ_r in Hv by lia. lia.
    + intros E. apply Z.div_small_iff in E; lia.
  - rewrite cont_bit by lia. rewrite (proj2 (Z.ltb_lt _ _)) by lia. cbn [Z.eqb]. rewrite land_127, Z.mod_small by lia.
    rewrite Z.shiftl_mul_pow2 by lia. rewrite u64_small by (unfold is_u64, ULONG_MAX; nia). rewrite lor_add by lia.
    rewrite Z.shiftr_div_pow2, Z.div_add, Z.div_small, Z.add_0_l, Z.eqb_refl by lia. cbn [negb].
    destruct (Z.eqb_spec v 0) as [->|]; cbn [andb]; [|done]. rewrite (Hz eq_refl) in *. cbn [Z.eqb negb orb].
    replace (dst + 0 * 2 ^ 0) with 0 by lia. done.
Qed.

Lemma de_ser_var_int v rest : is_u64 v -> de_var_int (ser_var_int v ++ rest) = Some (v, rest).
Proof.
  intros Hv. unfold is_u64, ULONG_MAX in Hv. unfold de_var_int, ser_var_int.
  rewrite (de_ser_loop var_int_fuel); [do 2 f_equal; lia|lia|done|lia|change (128 ^ Z.of_nat var_int_fuel) with 1180591620717411303424; lia|unfold ULONG_MAX; lia|done|unfold var_int_fuel; lia].
Qed.

(** Bits shifted out of the top are lost. *)
Lemma shl_u64 c bit : 0 <= bit <= 64 -> u64 (Z.shiftl c bit) = (c mod 2 ^ (64 - bit)) * 2 ^ bit.
Proof.
  intros Hb. unfold u64. rewrite Z.shiftl_mul_pow2 by lia.
  replace 18446744073709551616 with (2 ^ (64 - bit) * 2 ^ bit) by (rewrite <- Z.pow_add_r by lia; by replace (64 - bit + bit) with 64 by lia).
  apply Z.mul_mod_distr_r; apply Z.pow_nonzero; lia.
Qed.

(** Accepted bytes are the encoding of what was read. *)
Lemma de_loop_canonical k : forall dst bit src w rest,
  bit = 7 * (10 - Z.of_nat k) -> (k <= 10)%nat -> 0 <= dst < 2 ^ bit -> Forall is_byte src ->
  de_var_int_loop k dst bit src = Some (w, rest) ->
  exists v, w = dst + v * 2 ^ bit /\ src = ser_var_int_loop k v ++ rest /\ 0 <= v /\ (bit <> 0 -> v <> 0) /\ w <= ULONG_MAX.
Proof.
  induction k as [|k IH]; intros dst bit src w rest Eb Hk Hd Hsrc; cbn [de_var_int_loop]; [done|].
  destruct src as [|byte src]; [done|]. apply Forall_cons in Hsrc as [Hbyte Hsrc']. unfold is_byte in Hbyte.
  assert (0 < 2 ^ bit) as Hp by (apply Z.pow_pos_nonneg; lia).
  assert (2 ^ (64 - bit) * 2 ^ bit = 18446744073709551616) as E64 by (rewrite <- Z.pow_add_r by lia; replace (64 - bit + bit) with 64 by lia; done).
  assert (0 < 2 ^ (64 - bit)) as Hp' by (apply Z.pow_pos_nonneg; lia).
  rewrite shl_u64 by lia. set (c := Z.land byte 127). rewrite lor_add by lia. rewrite cont_bit by lia.
  destruct (Z.ltb_spec byte 128) as [Hlt|Hge]; cbn [Z.eqb].
  - assert (c = byte) as Ec by (unfold c; rewrite land_127; apply Z.mod_small; lia). rewrite Ec.
    rewrite Z.shiftr_div_pow2, Z.div_add, Z.div_small, Z.add_0_l by lia.
    destruct (Z.eqb_spec (byte mod 2 ^ (64 - bit)) byte) as [Em|]; cbn [negb]; [|done]. rewrite Em.
    assert (byte < 2 ^ (64 - bit)) as Hb' by (rewrite <- Em; apply Z.mod_pos_bound; lia).
    destruct (Z.eqb_spec byte 0) as [E0|E0]; cbn [andb].
    + destruct (Z.eqb_spec bit 0) as [Eb0|]; cbn [negb orb]; [|done]. destruct (negb _); [done|]. intros [= <- <-]. exists byte.
      unfold ULONG_MAX. cbn [ser_var_int_loop]. rewrite (proj2 (Z.leb_gt _ _)) by lia. split_and!; [done|done|lia|lia|nia].
    + intros [= <- <-]. exists byte. unfold ULONG_MAX. cbn [ser_var_int_loop]. rewrite (proj2 (Z.leb_gt _ _)) by lia. split_and!; [done|done|lia|done|nia].
  - assert (c = byte - 128) as Ec by (unfold c; rewrite land_127; symmetry; apply (Z.mod_unique_pos _ _ 1); lia).
    destruct k as [|k]; [done|]. assert (c mod 2 ^ (64 - bit) = c) as Em.
    { apply Z.mod_small. split; [lia|]. apply Z.lt_le_trans with (2 ^ 7); [lia|]. apply Z.pow_le_mono_r; lia. }
    rewrite Em. assert (2 ^ (bit + 7) = 128 * 2 ^ bit) as E7 by (rewrite Z.pow_add_r by lia; lia). intros Hde.
    destruct (IH (dst + c * 2 ^ bit) (bit + 7) src w rest) as (v & Ew & Es & Hv & Hv0 & Hw); [lia|lia|rewrite E7; nia|done|done|].
    exists (c + 128 * v). split_and!; [rewrite Ew, E7; lia| |lia|lia|done].
    rewrite Es. change (byte :: ser_var_int_loop (S k) v ++ rest = ser_var_int_loop (S (S k)) (c + 128 * v) ++ rest).
    assert (ser_var_int_loop (S (S k)) (c + 128 * v) = byte :: ser_var_int_loop (S k) v) as ->; [|done].
    assert (v <> 0) by (apply Hv0; lia). remember (S k) as k1. cbn [ser_var_int_loop]. rewrite (proj2 (Z.leb_le _ _)) by lia.
    rewrite cont_byte by lia. rewrite shift7 by lia. f_equal.
    + rewrite Z.mul_comm, Z_mod_plus_full, Z.mod_small by lia. lia.
    + f_equal. rewrite Z.mul_comm, Z.div_add, Z.div_small by lia. lia.
Qed.

Lemma de_var_int_canonical src v rest :
  Forall is_byte src -> de_var_int src = Some (v, rest) -> src = ser_var_int v ++ rest /\ is_u64 v.
Proof.
  intros Hb Hde. destruct (de_loop_canonical 10 0 0 src v rest) as (w & -> & -> & Hw & _ & Hmax); [done|done|lia|done|done|].
  rewrite Z.mul_1_r, Z.add_0_l in *. split; [done|]. unfold is_u64. lia.
Qed.

(** * Short unsigned integers *)

Lemma de_ser_short_u16 v rest : 0 <= v <= USHORT_MAX -> de_short_u16 (ser_short_u16 v ++ rest) = Some (v, rest).
Proof.
  unfold USHORT_MAX. intros Hv. unfold ser_short_u16, de_short_u16. pose proof (Z.mod_pos_bound v 128 ltac:(lia)) as Hm. pose proof (Z.div_mod v 128 ltac:(lia)) as Hd.
  rewrite (Z.shiftr_div_pow2 v 14), shift7 by lia. change (2 ^ 14) with (128 * 128). rewrite <- Z.div_div by lia.
  set (q := v / 128) in *. assert (0 <= q) by (apply Z.div_pos; lia). pose proof (Z.mod_pos_bound q 128 ltac:(lia)) as Hm1. pose proof (Z.div_mod q 128 ltac:(lia)) as Hd1.
  destruct (Z.ltb_spec v 128); cbn [app].
  { rewrite Z.land_comm, cont_bit, (proj2 (Z.ltb_lt _ _)) by lia. done. }
  destruct (Z.ltb_spec v 16384); cbn [app]; rewrite !cont_byte by lia.
  - rewrite Z.land_comm, cont_bit, (proj2 (Z.ltb_ge _ _)) by lia. cbn [Z.eqb]. rewrite Z.land_comm, cont_bit, (proj2 (Z.ltb_lt _ _)) by lia. cbn [Z.eqb].
    rewrite (proj2 (Z.eqb_neq _ _)) by lia. rewrite land_127, Zplus_mod, Z_mod_same_full, Z.add_0_r, !Z.mod_mod, Z.shiftl_mul_pow2 by lia. do 2 f_equal. lia.
  - rewrite Z.land_comm, cont_bit, (proj2 (Z.ltb_ge _ _)) by lia. cbn [Z.eqb]. rewrite Z.land_comm, cont_bit, (proj2 (Z.ltb_ge _ _)) by lia. cbn [Z.eqb].
    rewrite Z.land_comm, cont_bit, (proj2 (Z.ltb_lt _ _)) by lia. cbn [Z.eqb negb]. rewrite (proj2 (Z.eqb_neq (q / 128) 0)) by lia.
    rewrite !land_127, !(Zplus_mod _ 128), Z_mod_same_full, !Z.add_0_r, !Z.mod_mod, !Z.shiftl_mul_pow2 by lia.
    unfold USHORT_MAX. rewrite (proj2 (Z.ltb_ge _ _)) by lia. do 2 f_equal. lia.
Qed.

Lemma de_short_u16_canonical src v rest :
  Forall is_byte src -> de_short_u16 src = Some (v, rest) -> src = ser_short_u16 v ++ rest /\ 0 <= v <= USHORT_MAX.
Proof.
  unfold de_short_u16, ser_short_u16, is_byte, USHORT_MAX. intros Hb.
  destruct src as [|s0 r0]; [done|]. apply Forall_cons in Hb as [B0 Hb0]. rewrite Z.land_comm, cont_bit by done.
  destruct (Z.ltb_spec s0 128); cbn [Z.eqb].
  { intros [= <- <-]. rewrite (proj2 (Z.ltb_lt _ _)) by lia. split; [done|lia]. }
  destruct r0 as [|s1 r1]; [done|]. apply Forall_cons in Hb0 as [B1 Hb1]. rewrite (Z.land_comm 128 s1), cont_bit by done.
  assert (Z.land s0 127 = s0 - 128) as E0 by (rewrite land_127; symmetry; apply (Z.mod_unique_pos _ _ 1); lia). rewrite E0.
  destruct (Z.ltb_spec s1 128); cbn [Z.eqb].
  - destruct (Z.eqb_spec s1 0); [done|]. rewrite Z.shiftl_mul_pow2 by lia. change (2 ^ 7) with 128. intros [= <- <-].
    rewrite (proj2 (Z.ltb_ge _ _)), (proj2 (Z.ltb_lt _ _)) by lia. rewrite cont_byte, shift7 by lia.
    rewrite Z_mod_plus_full, Z.mod_small, Z.div_add, Z.div_small by lia. split; [cbn; do 2 f_equal; lia|lia].
  - destruct r1 as [|s2 r2]; [done|]. apply Forall_cons in Hb1 as [B2 Hb2]. rewrite (Z.land_comm 128 s2), cont_bit by done.
    destruct (Z.ltb_spec s2 128); cbn [Z.eqb negb]; [|done]. destruct (Z.eqb_spec s2 0); [done|].
    assert (Z.land s1 127 = s1 - 128) as E1 by (rewrite land_127; symmetry; apply (Z.mod_unique_pos _ _ 1); lia). rewrite E1.
    rewrite !Z.shiftl_mul_pow2 by lia. change (2 ^ 7) with 128. change (2 ^ 14) with 16384.
    set (val := _ + _ + _). destruct (Z.ltb_spec 65535 val); [done|]. intros [= <- <-].
    rewrite (proj2 (Z.ltb_ge val 128)), (proj2 (Z.ltb_ge val 16384)) by (unfold val; lia).
    rewrite shift7, (Z.shiftr_div_pow2 val 14) by (unfold val; lia). change (2 ^ 14) with (128 * 128).
    assert (val = (s0 - 128) + (s1 - 128 + s2 * 128) * 128) as Ev by (unfold val; lia).
    assert (val / 128 = s1 - 128 + s2 * 128) as Eq by (rewrite Ev, Z.div_add, Z.div_small by lia; lia).
    rewrite <- Z.div_div, Eq by lia. rewrite !cont_byte by (unfold val; lia).
    assert (val mod 128 = s0 - 128) as -> by (rewrite Ev, Z_mod_plus_full, Z.mod_small by lia; done).
    rewrite Z_mod_plus_full, (Z.mod_small (s1 - 128)), Z.div_add, (Z.div_small (s1 - 128)) by lia.
    split; [cbn; do 3 f_equal; lia|unfold val; lia].
Qed.

(** * The compact tower sync instruction *)

Definition lockout_bytes (l : list (Z * Z)) : list Z := concat (map (fun oc => ser_var_int oc.1 ++ [oc.2]) l).

(** The bytes of an instruction. *)
Definition cts_bytes (c : fd_compact_tower_sync_serde_t) : list Z :=
  le_store 8 (cts_root c) ++ ser_short_u16 (cts_lockouts_cnt c) ++ lockout_bytes (cts_lockouts c) ++ cts_hash c ++
  [cts_timestamp_option c] ++ (if cts_timestamp_option c =? 0 then [] else store_long (cts_timestamp c)) ++ cts_block_id c.

Definition is_hash (h : fd_hash_t) : Prop := length h = 32%nat /\ Forall is_byte h.
Definition is_long (x : Z) : Prop := -9223372036854775808 <= x <= LONG_MAX.

Record wf_cts (c : fd_compact_tower_sync_serde_t) : Prop := {
  wc_root : is_u64 (cts_root c);
  wc_cnt : cts_lockouts_cnt c = Z.of_nat (length (cts_lockouts c)) /\ cts_lockouts_cnt c <= FD_TOWER_VOTE_MAX;
  wc_lockouts : Forall (fun oc => is_u64 oc.1 /\ is_byte oc.2) (cts_lockouts c);
  wc_hash : is_hash (cts_hash c);
  wc_opt : cts_timestamp_option c = 0 \/ cts_timestamp_option c = 1;
  wc_ts : is_long (cts_timestamp c);
  wc_block_id : is_hash (cts_block_id c)
}.

(** The largest instruction: 31 lockouts of 11 bytes. *)
Definition CTS_MAX : Z := 8 + 1 + 31 * 11 + 32 + 1 + 8 + 32.

Lemma ser_var_int_len n v : (length (ser_var_int_loop n v) <= n)%nat.
Proof. revert v. induction n as [|n IH]; intros v; cbn; [done|]. case_if; cbn; [|lia]. specialize (IH (Z.shiftr v 7)). lia. Qed.

Lemma lockout_bytes_len l : (length (lockout_bytes l) <= 11 * length l)%nat.
Proof.
  induction l as [|oc l IH]; [done|]. change (lockout_bytes (oc :: l)) with ((ser_var_int oc.1 ++ [oc.2]) ++ lockout_bytes l).
  rewrite !length_app. pose proof (ser_var_int_len 10 oc.1 : (length (ser_var_int oc.1) <= 10)%nat) as Hl. cbn [length]. lia.
Qed.

Lemma cts_bytes_len c : wf_cts c -> Z.of_nat (length (cts_bytes c)) <= CTS_MAX.
Proof.
  intros [_ [Ec Hc] _ [Hh _] _ _ [Hb _]]. unfold cts_bytes, CTS_MAX, FD_TOWER_VOTE_MAX in *. rewrite !length_app, le_store_length, Hh, Hb.
  pose proof (lockout_bytes_len (cts_lockouts c)). unfold ser_short_u16. rewrite (proj2 (Z.ltb_lt _ _)) by lia. cbn [length].
  case_if; cbn [length]; unfold store_long; rewrite ?le_store_length; lia.
Qed.

(** Writing within the buffer. *)
Lemma SER_fits m buf bytes : Z.of_nat (length buf + length bytes) <= m <= ULONG_MAX -> SER m buf bytes = Some (buf ++ bytes).
Proof. intros Hl. unfold SER. rewrite u64_add_small by (unfold is_u64; lia). by rewrite (proj2 (Z.ltb_ge _ _)) by lia. Qed.

Lemma put_fits m buf bytes : Z.of_nat (length buf + length bytes) <= m -> put m buf bytes = Ok (buf ++ bytes).
Proof. intros Hl. unfold put. by rewrite (proj2 (Z.leb_le _ _)) by lia. Qed.

Lemma ser_lockouts_fits m l buf :
  Z.of_nat (length buf + length (lockout_bytes l)) <= m <= ULONG_MAX -> ser_lockouts m buf l = Ok (Some (buf ++ lockout_bytes l)).
Proof.
  revert buf. induction l as [|[o c] l IH]; intros buf Hl; [cbn; by rewrite app_nil_r|].
  change (lockout_bytes ((o, c) :: l)) with ((ser_var_int o ++ [c]) ++ lockout_bytes l) in *. rewrite !length_app in Hl. cbn [length] in Hl.
  cbn [ser_lockouts]. rewrite put_fits by lia. cbn [mbind outcome_bind]. rewrite SER_fits by (rewrite length_app; cbn [length]; lia).
  rewrite IH by (rewrite !length_app; cbn [length]; lia). by rewrite <- !app_assoc.
Qed.

Lemma cts_ser_spec c m :
  wf_cts c -> Z.of_nat (length (cts_bytes c)) <= m <= ULONG_MAX -> fd_compact_tower_sync_ser c m = Ok (Some (cts_bytes c)).
Proof.
  intros Hc Hl. unfold fd_compact_tower_sync_ser. destruct (wc_cnt _ Hc) as [Ec Hmax]. unfold cts_bytes in *. rewrite !length_app in Hl.
  assert (length [cts_timestamp_option c] = 1%nat) as E1 by done.
  rewrite SER_fits by (cbn [length]; lia). rewrite put_fits by (cbn [app]; lia). cbn [mbind outcome_bind app].
  rewrite (proj2 (Z.ltb_ge _ _) Hmax), (proj2 (Z.leb_le (cts_lockouts_cnt c) _)) by lia. cbn [check mbind outcome_bind].
  replace (Z.to_nat (cts_lockouts_cnt c)) with (length (cts_lockouts c)) by lia. rewrite firstn_all.
  rewrite ser_lockouts_fits by (rewrite !length_app; cbn [length] in *; lia). cbn [mbind option_bind outcome_bind].
  rewrite SER_fits by (rewrite !length_app; cbn [length] in *; lia). cbn [mbind option_bind].
  rewrite SER_fits by (rewrite !length_app; cbn [length] in *; lia). cbn [mbind option_bind].
  destruct (cts_timestamp_option c =? 0); cbn [mbind option_bind length] in *; [|rewrite SER_fits by (rewrite !length_app; cbn [length] in *; lia); cbn [mbind option_bind]];
    rewrite SER_fits by (rewrite !length_app; cbn [length]; lia); by rewrite <- !app_assoc.
Qed.

(** * Reading it back *)

Lemma DE_app n bytes rest : length bytes = n -> DE n (bytes ++ rest) = Some (bytes, rest).
Proof.
  intros <-. unfold DE. rewrite length_app, (proj2 (Z.ltb_ge _ _)) by lia. by rewrite take_app_length, drop_app_length.
Qed.

Lemma DE_inv n buf x rest : DE n buf = Some (x, rest) -> buf = x ++ rest /\ length x = n.
Proof.
  unfold DE. destruct (Z.ltb_spec (Z.of_nat (length buf)) (Z.of_nat n)); [done|]. intros [= <- <-].
  split; [by rewrite take_drop|]. rewrite length_take. lia.
Qed.

Lemma long_roundtrip x : is_long x -> load_long (store_long x) = x.
Proof.
  unfold is_long, LONG_MAX, load_long, store_long. intros Hx.
  assert (is_u64 (u64 x)) as Hu by apply u64_range. unfold is_u64, ULONG_MAX in Hu.
  rewrite le_load_store by (change (256 ^ Z.of_nat 8) with 18446744073709551616; lia). unfold u64.
  destruct (Z.ltb_spec (x mod 18446744073709551616) 9223372036854775808); destruct (Z.lt_ge_cases x 0).
  - rewrite <- (Z.mod_unique x 18446744073709551616 (-1) (x + 18446744073709551616)) in *; lia.
  - apply Z.mod_small. lia.
  - rewrite <- (Z.mod_unique x 18446744073709551616 (-1) (x + 18446744073709551616)) in *; lia.
  - rewrite Z.mod_small in *; lia.
Qed.

Lemma store_load_long l : length l = 8%nat -> Forall is_byte l -> store_long (load_long l) = l /\ is_long (load_long l).
Proof.
  intros Hl Hb. pose proof (le_load_range l Hb) as Hr. rewrite Hl in Hr. change (256 ^ Z.of_nat 8) with 18446744073709551616 in Hr.
  unfold store_long, load_long, is_long, LONG_MAX. assert (u64 (if le_load l <? 9223372036854775808 then le_load l else le_load l - 18446744073709551616) = le_load l) as E.
  { unfold u64. case_if; [by apply Z.mod_small|]. symmetry. apply (Z.mod_unique _ _ (-1)); lia. }
  rewrite E, <- Hl, le_store_load by done. split; [done|]. case_if; lia.
Qed.

Lemma de_lockouts_spec l rest :
  Forall (fun oc => is_u64 oc.1 /\ is_byte oc.2) l -> de_lockouts (length l) (lockout_bytes l ++ rest) = Some (l, rest).
Proof.
  induction 1 as [|[o c] l [Ho Hc] _ IH]; [done|]. change (lockout_bytes ((o, c) :: l)) with ((ser_var_int o ++ [c]) ++ lockout_bytes l).
  rewrite <- !app_assoc. cbn [length de_lockouts fst snd] in *. rewrite de_ser_var_int by done. cbn [mbind option_bind fst snd].
  rewrite (DE_app 1 [c]) by done. cbn [mbind option_bind fst snd]. rewrite IH. cbn [mbind option_bind fst snd le_load]. do 4 f_equal. lia.
Qed.

Lemma de_lockouts_canonical n buf l rest :
  Forall is_byte buf -> de_lockouts n buf = Some (l, rest) ->
  buf = lockout_bytes l ++ rest /\ length l = n /\ Forall (fun oc => is_u64 oc.1 /\ is_byte oc.2) l.
Proof.
  revert buf l. induction n as [|n IH]; intros buf l Hb; cbn [de_lockouts]; [intros [= <- <-]; done|].
  destruct (de_var_int buf) as [[o b1]|] eqn:E1; cbn [mbind option_bind fst snd]; [|done].
  destruct (DE 1 b1) as [[cb b2]|] eqn:E2; cbn [mbind option_bind fst snd]; [|done].
  destruct (de_lockouts n b2) as [[l' b3]|] eqn:E3; cbn [mbind option_bind fst snd]; [|done]. intros [= <- <-].
  destruct (de_var_int_canonical _ _ _ Hb E1) as [-> Ho]. apply Forall_app in Hb as [_ Hb]. destruct (DE_inv _ _ _ _ E2) as [-> Hc].
  apply Forall_app in Hb as [Hcb Hb]. destruct cb as [|c [|? ?]]; try done. apply Forall_cons in Hcb as [Hc0 _].
  destruct (IH b2 l' Hb E3) as (-> & <- & Hl). cbn [le_load]. replace (c + 256 * 0) with c by lia. split_and!; [|done|by constructor].
  change (lockout_bytes ((o, c) :: l')) with ((ser_var_int o ++ [c]) ++ lockout_bytes l'). by rewrite <- !app_assoc.
Qed.

(** The timestamp is only read when it is present. *)
Definition cts_read (timestamp0 : Z) (c : fd_compact_tower_sync_serde_t) : fd_compact_tower_sync_serde_t :=
  mk_cts (cts_root c) (cts_lockouts_cnt c) (cts_lockouts c) (cts_hash c) (cts_timestamp_option c)
    (if cts_timestamp_option c =? 0 then timestamp0 else cts_timestamp c) (cts_block_id c).

Lemma cts_de_spec t0 c rest : wf_cts c -> fd_compact_tower_sync_de t0 (cts_bytes c ++ rest) = Some (cts_read t0 c).
Proof.
  intros [Hr [Ec Hmax] Hl [Hh _] Ho Ht [Hb _]]. unfold cts_bytes. rewrite <- !app_assoc. unfold fd_compact_tower_sync_de.
  rewrite (DE_app 8 (le_store 8 _)) by apply le_store_length. cbn [mbind option_bind fst snd].
  unfold FD_TOWER_VOTE_MAX in *. rewrite de_ser_short_u16 by (unfold USHORT_MAX; lia). cbn [mbind option_bind fst snd].
  rewrite (proj2 (Z.ltb_ge _ _) Hmax). replace (Z.to_nat (cts_lockouts_cnt c)) with (length (cts_lockouts c)) by lia.
  rewrite de_lockouts_spec by done. cbn [mbind option_bind fst snd]. rewrite (DE_app 32 (cts_hash c)) by done. cbn [mbind option_bind fst snd].
  rewrite (DE_app 1 [_]) by done. cbn [mbind option_bind fst snd le_load]. rewrite Z.mul_0_r, Z.add_0_r.
  rewrite le_load_store by (unfold is_u64, ULONG_MAX in Hr; change (256 ^ Z.of_nat 8) with 18446744073709551616; lia). unfold cts_read.
  destruct Ho as [E|E]; rewrite E; cbn [Z.eqb negb andb mbind option_bind fst snd app].
  - rewrite (DE_app 32 (cts_block_id c)) by done. done.
  - rewrite (DE_app 8 (store_long _)) by apply le_store_length. cbn [mbind option_bind fst snd].
    rewrite (DE_app 32 (cts_block_id c)) by done. cbn [mbind option_bind fst snd]. by rewrite long_roundtrip.
Qed.

Lemma cts_de_canonical t0 buf c :
  Forall is_byte buf -> is_long t0 -> fd_compact_tower_sync_de t0 buf = Some c -> wf_cts c /\ exists rest, buf = cts_bytes c ++ rest.
Proof.
  intros Hb Ht0. unfold fd_compact_tower_sync_de.
  destruct (DE 8 buf) as [[r b1]|] eqn:E1; cbn [mbind option_bind fst snd]; [|done]. destruct (DE_inv _ _ _ _ E1) as [-> Hr]. apply Forall_app in Hb as [Br Hb].
  destruct (de_short_u16 b1) as [[n b2]|] eqn:E2; cbn [mbind option_bind fst snd]; [|done].
  destruct (de_short_u16_canonical _ _ _ Hb E2) as [-> Hn]. apply Forall_app in Hb as [_ Hb].
  destruct (Z.ltb_spec FD_TOWER_VOTE_MAX n) as [|Hmax]; [done|].
  destruct (de_lockouts (Z.to_nat n) b2) as [[l b3]|] eqn:E3; cbn [mbind option_bind fst snd]; [|done].
  destruct (de_lockouts_canonical _ _ _ _ Hb E3) as (-> & Hln & Hl). apply Forall_app in Hb as [_ Hb].
  destruct (DE 32 b3) as [[h b4]|] eqn:E4; cbn [mbind option_bind fst snd]; [|done]. destruct (DE_inv _ _ _ _ E4) as [-> Hh]. apply Forall_app in Hb as [Bh Hb].
  destruct (DE 1 b4) as [[o b5]|] eqn:E5; cbn [mbind option_bind fst snd]; [|done]. destruct (DE_inv _ _ _ _ E5) as [-> Ho]. apply Forall_app in Hb as [_ Hb].
  destruct o as [|o [|? ?]]; try done. cbn [le_load]. replace (o + 256 * 0) with o by lia.
  destruct (negb (o =? 1) && negb (o =? 0)) eqn:Eo; [done|].
  assert (o = 0 \/ o = 1) as Hopt by (apply andb_false_iff in Eo as [Eo|Eo]; apply negb_false_iff, Z.eqb_eq in Eo; auto).
  assert (is_u64 (le_load r)) as Hru.
  { pose proof (le_load_range r Br) as H. rewrite Hr in H. change (256 ^ Z.of_nat 8) with 18446744073709551616 in H. unfold is_u64, ULONG_MAX. lia. }
  assert (le_store 8 (le_load r) = r) as Er by (rewrite <- Hr; by apply le_store_load).
  destruct (Z.eqb_spec o 0) as [E0|E0]; cbn [mbind option_bind fst snd].
  - destruct (DE 32 b5) as [[bi b6]|] eqn:E6; cbn [mbind option_bind fst snd]; [|done]. destruct (DE_inv _ _ _ _ E6) as [-> Hbi]. apply Forall_app in Hb as [Bbi _].
    intros [= <-]. split; [split; cbn; try done; split; [lia|done]|]. exists b6. unfold cts_bytes. cbn [cts_root cts_lockouts_cnt cts_lockouts cts_hash cts_timestamp_option cts_timestamp cts_block_id].
    rewrite Er, (proj2 (Z.eqb_eq o 0)) by done. by rewrite <- !app_assoc.
  - destruct (DE 8 b5) as [[t b6]|] eqn:E6; cbn [mbind option_bind fst snd]; [|done]. destruct (DE_inv _ _ _ _ E6) as [-> Ht]. apply Forall_app in Hb as [Bt Hb].
    destruct (DE 32 b6) as [[bi b7]|] eqn:E7; cbn [mbind option_bind fst snd]; [|done]. destruct (DE_inv _ _ _ _ E7) as [-> Hbi]. apply Forall_app in Hb as [Bbi _].
    destruct (store_load_long t Ht Bt) as [Et Hlong]. intros [= <-].
    split; [split; cbn; try done; split; [lia|done]|]. exists b7. unfold cts_bytes. cbn [cts_root cts_lockouts_cnt cts_lockouts cts_hash cts_timestamp_option cts_timestamp cts_block_id].
    rewrite Er, Et, (proj2 (Z.eqb_neq o 0)) by done. by rewrite <- !app_assoc.
Qed.

(** * From the tower to the instruction *)

(** How a receiver rebuilds the votes: each offset is added to the slot below. *)
Fixpoint sync_votes (prev : Z) (l : list (Z * Z)) : votes_t :=
  match l with
  | [] => []
  | (offset, conf) :: rest => mk_tower_vote (prev +w offset) conf :: sync_votes (prev +w offset) rest
  end.

Lemma sync_votes_lockouts prev votes :
  is_u64 prev -> Forall vote_ok votes -> sync_votes prev (sync_lockouts prev votes) = votes /\
  Forall (fun oc => is_u64 oc.1 /\ is_byte oc.2) (sync_lockouts prev votes).
Proof.
  intros Hp Hv. revert prev Hp. induction Hv as [|v votes [Hs Hc] _ IH]; intros prev Hp; [done|]. cbn [sync_lockouts sync_votes].
  unfold SLOT_LIM, FD_TOWER_VOTE_MAX, is_u64, ULONG_MAX in *. assert (prev +w (tv_slot v -w prev) = tv_slot v) as ->.
  { unfold u64_add, u64_sub, u64. rewrite Zplus_mod_idemp_r. replace (prev + (tv_slot v - prev)) with (tv_slot v) by lia. apply Z.mod_small. lia. }
  destruct (IH (tv_slot v) ltac:(lia)) as [E Hl]. rewrite E, Z.mod_small by lia. split; [by destruct v|]. constructor; [|done]. cbn.
  split; [|unfold is_byte; lia]. pose proof (u64_range (tv_slot v - prev)). unfold is_u64, ULONG_MAX in *. done.
Qed.

Lemma sync_lockouts_length prev votes : length (sync_lockouts prev votes) = length votes.
Proof. revert prev. induction votes as [|v votes IH]; intros prev; cbn; [done|]. by rewrite IH. Qed.

(** * Vote accounts *)

Lemma load_ok n data off : 0 <= off -> off + Z.of_nat n <= Z.of_nat (length data) -> exists x, load n data off = Ok x.
Proof. intros H1 H2. unfold load. rewrite (proj2 (Z.leb_le _ _) H1), (proj2 (Z.leb_le _ _) H2). cbn. eauto. Qed.

Lemma load_nonneg n data off x : Forall is_byte data -> load n data off = Ok x -> 0 <= x.
Proof.
  intros Hb. unfold load. intros E. inv_ok. apply (le_load_range (take n (drop (Z.to_nat off) data))). by apply Forall_take, Forall_drop.
Qed.

(** A description places every vote inside of the data. *)
Definition desc_fits (data : list Z) (d : fd_vote_acc_desc_t) : Prop :=
  0 <= de_votes_off d /\ 0 <= de_vote_cnt d <= FD_TOWER_VOTE_MAX /\
  de_vote_stride d = (if de_kind d =? FD_VOTE_ACC_V2 then 12 else 13) /\
  de_votes_off d + de_vote_cnt d * de_vote_stride d <= Z.of_nat (length data).

Lemma vote_cnt_loc_ok kind data : exists loc, vote_cnt_loc kind data = Ok loc /\
  match loc with Some (off, stride) => 0 <= off /\ stride = (if kind =? FD_VOTE_ACC_V2 then 12 else 13) | None => True end.
Proof.
  unfold vote_cnt_loc. destruct (kind =? FD_VOTE_ACC_V2); [eexists; split; [done|]; unfold V2_VOTES_CNT; lia|].
  destruct (kind =? FD_VOTE_ACC_V3); [eexists; split; [done|]; unfold V2_VOTES_CNT; lia|].
  destruct (kind =? FD_VOTE_ACC_V4); [|by exists None]. destruct (Z.leb_spec (Z.of_nat (length data)) V4_HAS_BLS); [by exists None|].
  destruct (load_ok 1 data V4_HAS_BLS) as (hb & ->); [unfold V4_HAS_BLS; lia|lia|]. cbn [mbind outcome_bind].
  eexists; split; [done|]. unfold V4_HAS_BLS. split; [|done]. case_if; lia.
Qed.

Lemma desc_total data : Forall is_byte data ->
  exists o, fd_vote_acc_desc data = Ok o /\ match o with Some d => desc_fits data d | None => True end.
Proof.
  intros Hb. unfold fd_vote_acc_desc. destruct (Z.ltb_spec (Z.of_nat (length data)) 4); [by exists None|].
  destruct (load_ok 4 data 0) as (kind & ->); [lia|lia|]. cbn [mbind outcome_bind].
  destruct (vote_cnt_loc_ok kind data) as (loc & -> & Hloc).
  cbn [mbind outcome_bind]. destruct loc as [[off stride]|]; [|by exists None]. destruct Hloc as [Hoff ->].
  set (stride := if kind =? FD_VOTE_ACC_V2 then 12 else 13). assert (0 <= stride) as Hst by (unfold stride; case_if; lia).
  destruct (Z.ltb_spec (Z.of_nat (length data)) (off + 8)); [by exists None|]. destruct (load_ok 8 data off) as (cnt & Ecnt); [lia|lia|]. rewrite Ecnt. cbn [mbind outcome_bind].
  pose proof (load_nonneg _ _ _ _ Hb Ecnt) as Hcnt. set (n := Z.min cnt FD_TOWER_VOTE_MAX). assert (0 <= n <= FD_TOWER_VOTE_MAX) as Hn by (unfold n, FD_TOWER_VOTE_MAX; lia).
  destruct (Z.ltb_spec (Z.of_nat (length data)) (off + 8 + n * stride)); [by exists None|]. destruct (Z.ltb_spec (Z.of_nat (length data)) (off + 8 + n * stride + 1)); [by exists None|].
  destruct (load_ok 1 data (off + 8 + n * stride)) as (opt & ->); [nia|lia|]. cbn [mbind outcome_bind]. destruct (opt =? 1).
  - destruct (Z.ltb_spec (Z.of_nat (length data)) (off + 8 + n * stride + 9)); [by exists None|].
    destruct (load_ok 8 data (off + 8 + n * stride + 1)) as (root & ->); [nia|lia|]. cbn. eexists. split; [done|]. unfold desc_fits. cbn. split_and!; try done; lia.
  - destruct (opt =? 0); [|by exists None]. eexists. split; [done|]. unfold desc_fits. cbn. split_and!; try done; lia.
Qed.

Lemma load_vote_ok data d i : desc_fits data d -> 0 <= i < de_vote_cnt d -> exists v, load_vote d data i = Ok v.
Proof.
  intros (Ho & Hc & Hs & Hf) Hi. unfold load_vote, fd_vote_acc_desc_vote. set (p := de_votes_off d + i * de_vote_stride d + (if de_kind d =? FD_VOTE_ACC_V2 then 0 else 1)).
  assert (0 <= p /\ p + 12 <= Z.of_nat (length data)) as [Hp1 Hp2].
  { unfold p. rewrite Hs in *. destruct (de_kind d =? FD_VOTE_ACC_V2); nia. }
  destruct (load_ok 8 data p) as (s & ->); [lia|lia|]. cbn [mbind outcome_bind]. destruct (load_ok 4 data (p + 8)) as (c & ->); [lia|lia|]. cbn. eauto.
Qed.

Lemma load_votes_total data d votes k n :
  desc_fits data d -> 0 <= k -> k + Z.of_nat n <= de_vote_cnt d -> Z.of_nat (length votes) = k ->
  exists votes', ofold (fun votes i => vote ← load_vote d data i; vote_push_tail votes vote) votes (seqZ k (Z.of_nat n)) = Ok votes' /\
    Z.of_nat (length votes') = k + Z.of_nat n.
Proof.
  intros Hd. revert votes k. induction n as [|n IH]; intros votes k Hk Hle Hl; [cbn; exists votes; split; [done|lia]|].
  rewrite seqZ_cons by lia. cbn [ofold]. destruct (load_vote_ok data d k Hd ltac:(lia)) as (v & ->). cbn [mbind outcome_bind].
  assert (vote_push_tail votes v = Ok (votes ++ [v])) as ->.
  { unfold vote_push_tail. destruct Hd as (_ & Hc & _). by rewrite (proj2 (Z.ltb_lt _ _)) by lia. }
  cbn [mbind outcome_bind].
  replace (Z.pred (Z.of_nat (S n))) with (Z.of_nat n) by lia.
  destruct (IH (votes ++ [v]) (Z.succ k)) as (votes' & E & Hl'); [lia|lia|rewrite length_app; cbn; lia|]. exists votes'. split; [done|lia].
Qed.

Lemma from_vote_acc_total data : Forall is_byte data ->
  exists votes root, fd_tower_from_vote_acc [] data = Ok (votes, root) /\ Z.of_nat (length votes) <= FD_TOWER_VOTE_MAX.
Proof.
  intros Hb. unfold fd_tower_from_vote_acc. destruct (desc_total data Hb) as (o & -> & Ho). cbn [mbind outcome_bind].
  destruct o as [d|]; [|eexists _, _; split; [done|cbn; unfold FD_TOWER_VOTE_MAX; lia]]. pose proof Ho as (_ & Hc & _).
  destruct (load_votes_total data d [] 0 (Z.to_nat (de_vote_cnt d)) Ho) as (votes & E & Hl); [lia|lia|done|].
  unfold range. replace (de_vote_cnt d - 0) with (Z.of_nat (Z.to_nat (de_vote_cnt d))) by lia. rewrite E. cbn. eexists _, _. split; [done|]. lia.
Qed.

(** ** Reading back an encoded account *)

Definition enc_vote (kind : Z) (lv : Z * fd_tower_vote_t) : list Z :=
  (if kind =? FD_VOTE_ACC_V2 then [] else [lv.1]) ++ le_store 8 (tv_slot lv.2) ++ le_store 4 (tv_conf lv.2).
Definition enc_votes (kind : Z) (l : list (Z * fd_tower_vote_t)) : list Z := concat (map (enc_vote kind) l).
Definition enc_root (root : option Z) : list Z := match root with Some r => 1 :: le_store 8 r | None => [0] end.

(** The account: [hdr] holds the fields between the kind and the vote count. *)
Definition enc_acc (kind : Z) (hdr : list Z) (l : list (Z * fd_tower_vote_t)) (root : option Z) (rest : list Z) : list Z :=
  le_store 4 kind ++ hdr ++ le_store 8 (Z.of_nat (length l)) ++ enc_votes kind l ++ enc_root root ++ rest.

Inductive wf_hdr : Z -> list Z -> Prop :=
| hdr_v2 hdr : length hdr = 65%nat -> wf_hdr FD_VOTE_ACC_V2 hdr
| hdr_v3 hdr : length hdr = 65%nat -> wf_hdr FD_VOTE_ACC_V3 hdr
| hdr_v4 hdr flag bls : length hdr = 140%nat -> length bls = (if flag =? 0 then 0%nat else 48%nat) -> wf_hdr FD_VOTE_ACC_V4 (hdr ++ flag :: bls).

Definition enc_ok (lv : Z * fd_tower_vote_t) : Prop := is_u64 (tv_slot lv.2) /\ 0 <= tv_conf lv.2 <= UINT_MAX.

Lemma load_at n data off a b c : data = a ++ b ++ c -> off = Z.of_nat (length a) -> length b = n -> load n data off = Ok (le_load b).
Proof.
  intros -> -> <-. unfold load. rewrite !length_app. rewrite (proj2 (Z.leb_le 0 _)), (proj2 (Z.leb_le _ _)) by lia. cbn [check andb mbind outcome_bind].
  by rewrite Nat2Z.id, drop_app_length, take_app_length.
Qed.

Lemma enc_vote_length kind lv : Z.of_nat (length (enc_vote kind lv)) = if kind =? FD_VOTE_ACC_V2 then 12 else 13.
Proof. unfold enc_vote. rewrite !length_app, !le_store_length. by destruct (kind =? FD_VOTE_ACC_V2). Qed.

Lemma enc_votes_length kind l : Z.of_nat (length (enc_votes kind l)) = Z.of_nat (length l) * (if kind =? FD_VOTE_ACC_V2 then 12 else 13).
Proof.
  induction l as [|lv l IH]; [done|]. change (enc_votes kind (lv :: l)) with (enc_vote kind lv ++ enc_votes kind l).
  rewrite length_app, Nat2Z.inj_add, IH, enc_vote_length. cbn [length]. case_if; lia.
Qed.

(** The description of an encoded account. *)
Definition enc_desc (kind : Z) (hdr : list Z) (l : list (Z * fd_tower_vote_t)) (root : option Z) : fd_vote_acc_desc_t :=
  mk_desc kind (4 + Z.of_nat (length hdr) + 8) (Z.of_nat (length l)) (if kind =? FD_VOTE_ACC_V2 then 12 else 13) (default ULONG_MAX root).

Lemma enc_acc_length kind hdr l root rest :
  Z.of_nat (length (enc_acc kind hdr l root rest)) =
    4 + Z.of_nat (length hdr) + 8 + Z.of_nat (length l) * (if kind =? FD_VOTE_ACC_V2 then 12 else 13) +
    (if root then 9 else 1) + Z.of_nat (length rest).
Proof.
  unfold enc_acc, enc_root. rewrite !length_app, !Nat2Z.inj_add, enc_votes_length, !le_store_length. destruct root; cbn [length]; rewrite ?le_store_length; lia.
Qed.


Lemma enc_vote_cnt_loc kind hdr l root rest : wf_hdr kind hdr ->
  vote_cnt_loc kind (enc_acc kind hdr l root rest) = Ok (Some (4 + Z.of_nat (length hdr), if kind =? FD_VOTE_ACC_V2 then 12 else 13)).
Proof.
  intros Hh. pose proof (enc_acc_length kind hdr l root rest) as Hlen. revert Hlen. destruct Hh as [hdr Hh|hdr Hh|hdr flag bls Hh Hb].
  1,2: unfold vote_cnt_loc, V2_VOTES_CNT; cbn [Z.eqb FD_VOTE_ACC_V2 FD_VOTE_ACC_V3 Pos.eqb]; by rewrite Hh.
  intros Hlen. unfold vote_cnt_loc, V4_HAS_BLS. change (FD_VOTE_ACC_V4 =? FD_VOTE_ACC_V2) with false in *. change (FD_VOTE_ACC_V4 =? FD_VOTE_ACC_V3) with false.
  change (FD_VOTE_ACC_V4 =? FD_VOTE_ACC_V4) with true. cbn iota. rewrite length_app in *. cbn [length] in *.
  rewrite (proj2 (Z.leb_gt _ _)) by (destruct root; lia).
  rewrite (load_at 1 _ (4 + 4 * 32 + 2 + 2 + 8) (le_store 4 FD_VOTE_ACC_V4 ++ hdr) [flag] (bls ++ le_store 8 (Z.of_nat (length l)) ++ enc_votes FD_VOTE_ACC_V4 l ++ enc_root root ++ rest)).
  - cbn [mbind outcome_bind le_load]. rewrite Z.mul_0_r, Z.add_0_r. do 3 f_equal. case_if; lia.
  - unfold enc_acc. by rewrite <- !app_assoc.
  - rewrite length_app, le_store_length. lia.
  - done.
Qed.

Lemma enc_desc_ok kind hdr l root rest :
  wf_hdr kind hdr -> Z.of_nat (length l) <= FD_TOWER_VOTE_MAX -> match root with Some r => is_u64 r | None => True end ->
  fd_vote_acc_desc (enc_acc kind hdr l root rest) = Ok (Some (enc_desc kind hdr l root)).
Proof.
  intros Hh Hl Hr. unfold fd_vote_acc_desc. rewrite (enc_acc_length kind hdr l root rest).
  set (stride := if kind =? FD_VOTE_ACC_V2 then 12 else 13) in *. assert (0 <= stride) as Hst by (unfold stride; case_if; lia).
  pose proof (enc_votes_length kind l) as Hv. fold stride in Hv.
  rewrite (proj2 (Z.ltb_ge _ 4)) by (destruct root; nia).
  assert (0 <= kind < 256 ^ Z.of_nat 4) as Hk by (destruct Hh; unfold FD_VOTE_ACC_V2, FD_VOTE_ACC_V3, FD_VOTE_ACC_V4; lia).
  rewrite (load_at 4 _ 0 [] (le_store 4 kind) (hdr ++ le_store 8 (Z.of_nat (length l)) ++ enc_votes kind l ++ enc_root root ++ rest)) by (done || apply le_store_length).
  rewrite (le_load_store 4 kind Hk). cbn [mbind outcome_bind]. rewrite (enc_vote_cnt_loc _ _ _ _ _ Hh). cbn [mbind outcome_bind]. fold stride.
  rewrite (proj2 (Z.ltb_ge _ _)) by (destruct root; nia).
  rewrite (load_at 8 _ _ (le_store 4 kind ++ hdr) (le_store 8 (Z.of_nat (length l))) (enc_votes kind l ++ enc_root root ++ rest));
    [|by unfold enc_acc; rewrite <- !app_assoc|rewrite length_app, le_store_length; lia|apply le_store_length].
  rewrite le_load_store by (unfold FD_TOWER_VOTE_MAX in *; lia). cbn [mbind outcome_bind]. rewrite (Z.min_l _ _ Hl).
  do 2 (rewrite (proj2 (Z.ltb_ge _ _)) by (destruct root; lia)).
  rewrite (load_at 1 _ _ (le_store 4 kind ++ hdr ++ le_store 8 (Z.of_nat (length l)) ++ enc_votes kind l) (take 1 (enc_root root)) (drop 1 (enc_root root) ++ rest));
    [|unfold enc_acc; rewrite <- !app_assoc; do 4 f_equal; by destruct root|rewrite !length_app, !le_store_length; lia|by destruct root].
  unfold enc_desc. fold stride. destruct root as [r|]; cbn [mbind outcome_bind enc_root take drop le_load default].
  - rewrite (proj2 (Z.ltb_ge _ _)) by lia.
    rewrite (load_at 8 _ _ (le_store 4 kind ++ hdr ++ le_store 8 (Z.of_nat (length l)) ++ enc_votes kind l ++ [1]) (le_store 8 r) rest);
      [|unfold enc_acc; rewrite <- !app_assoc; by do 4 f_equal|rewrite !length_app, !le_store_length; cbn [length]; lia|apply le_store_length].
    unfold is_u64, ULONG_MAX in Hr. rewrite le_load_store by lia. done.
  - done.
Qed.

Lemma enc_load_vote kind hdr pre lv post root rest :
  enc_ok lv ->
  load_vote (enc_desc kind hdr (pre ++ lv :: post) root) (enc_acc kind hdr (pre ++ lv :: post) root rest) (Z.of_nat (length pre)) = Ok lv.2.
Proof.
  intros [Hs Hc]. unfold load_vote, fd_vote_acc_desc_vote, enc_desc. cbn [de_votes_off de_vote_stride de_kind].
  set (tag := if kind =? FD_VOTE_ACC_V2 then [] else [lv.1]).
  set (a := le_store 4 kind ++ hdr ++ le_store 8 (Z.of_nat (length (pre ++ lv :: post))) ++ enc_votes kind pre ++ tag).
  set (z := enc_votes kind post ++ enc_root root ++ rest).
  assert (enc_acc kind hdr (pre ++ lv :: post) root rest = a ++ le_store 8 (tv_slot lv.2) ++ le_store 4 (tv_conf lv.2) ++ z) as ->.
  { unfold enc_acc, a, z, enc_votes. rewrite map_app, concat_app. cbn [map concat]. unfold enc_vote at 2. fold tag. by rewrite <- !app_assoc. }
  assert (4 + Z.of_nat (length hdr) + 8 + Z.of_nat (length pre) * (if kind =? FD_VOTE_ACC_V2 then 12 else 13) + (if kind =? FD_VOTE_ACC_V2 then 0 else 1) = Z.of_nat (length a)) as ->.
  { unfold a. rewrite !length_app, !le_store_length, !Nat2Z.inj_add, enc_votes_length. unfold tag. case_if; cbn [length]; lia. }
  rewrite (load_at 8 _ _ a (le_store 8 (tv_slot lv.2)) (le_store 4 (tv_conf lv.2) ++ z)) by (done || apply le_store_length). cbn [mbind outcome_bind].
  rewrite (load_at 4 _ _ (a ++ le_store 8 (tv_slot lv.2)) (le_store 4 (tv_conf lv.2)) z);
    [|by rewrite <- app_assoc|rewrite length_app, le_store_length; lia|apply le_store_length]. cbn [mbind outcome_bind].
  unfold is_u64, ULONG_MAX, UINT_MAX in *. rewrite !le_load_store by lia. by destruct lv as [? []].
Qed.

Lemma enc_load_votes kind hdr root rest l post pre votes :
  Forall enc_ok post -> l = pre ++ post -> Z.of_nat (length votes) = Z.of_nat (length pre) -> Z.of_nat (length l) <= FD_TOWER_VOTE_MAX ->
  ofold (fun votes i => vote ← load_vote (enc_desc kind hdr l root) (enc_acc kind hdr l root rest) i; vote_push_tail votes vote) votes
    (seqZ (Z.of_nat (length pre)) (Z.of_nat (length post))) = Ok (votes ++ map snd post).
Proof.
  intros Hp. revert pre votes. induction Hp as [|lv post Hlv _ IH]; intros pre votes -> Hl Hmax.
  { change (seqZ _ _) with (seqZ (Z.of_nat (length pre)) 0). rewrite seqZ_nil by lia. cbn. by rewrite app_nil_r. }
 
  cbn [length]. rewrite seqZ_cons by lia. cbn [ofold]. rewrite enc_load_vote by done. cbn [mbind outcome_bind]. rewrite length_app in Hmax. cbn [length] in Hmax.
  assert (vote_push_tail votes lv.2 = Ok (votes ++ [lv.2])) as -> by (unfold vote_push_tail; by rewrite (proj2 (Z.ltb_lt _ _)) by lia).
  cbn [mbind outcome_bind]. replace (Z.succ (Z.of_nat (length pre))) with (Z.of_nat (length (pre ++ [lv]))) by (rewrite length_app; cbn [length]; lia).
  replace (Z.pred (Z.of_nat (S (length post)))) with (Z.of_nat (length post)) by lia.
  rewrite (IH (pre ++ [lv]) (votes ++ [lv.2])); [by rewrite <- app_assoc|by rewrite <- app_assoc|rewrite !length_app; cbn [length]; lia|rewrite length_app; cbn [length]; lia].
Qed.

(** * The properties *)

(** C39: A well-formed tower survives the vote transaction: the instruction built
    from it serializes into the transaction's buffer (and never needs more than 423
    bytes), the bytes parse back to the same instruction whatever follows them, and
    adding up the offsets from the root gives back the votes. *)
Theorem tower_sync_roundtrip tower bank_hash block_id now :
  wf_votes (tw_votes tower) -> is_u64 (tw_root tower) -> is_hash bank_hash -> is_hash block_id -> is_long now ->
  exists c bytes, tower_sync tower bank_hash block_id now = Ok c /\
    fd_compact_tower_sync_ser c (FD_TXN_MTU - 4) = Ok (Some bytes) /\ Z.of_nat (length bytes) <= CTS_MAX /\
    (forall rest t0, fd_compact_tower_sync_de t0 (bytes ++ rest) = Some c) /\
    sync_votes (cts_root c) (cts_lockouts c) = tw_votes tower.
Proof.
  intros Hw Hr Hh Hb Hn. set (root := if tw_root tower =? ULONG_MAX then 0 else tw_root tower).
  assert (is_u64 root) as Hroot by (unfold root, is_u64, ULONG_MAX in *; case_if; lia).
  destruct (sync_votes_lockouts root (tw_votes tower) Hroot (wv_ok _ Hw)) as [Ev Hl]. pose proof (wv_len _ Hw) as Hlen.
  set (c := mk_cts root (Z.of_nat (length (tw_votes tower)) mod 65536) (sync_lockouts root (tw_votes tower)) bank_hash 1 now block_id).
  assert (wf_cts c) as Hc.
  { split; cbn; auto. rewrite sync_lockouts_length, Z.mod_small by (unfold FD_TOWER_VOTE_MAX in *; lia). done. }
  pose proof (cts_bytes_len c Hc) as Hm. exists c, (cts_bytes c). split_and!; [|apply cts_ser_spec; [done|]|done| |done].
  - unfold tower_sync. by rewrite (proj2 (Z.leb_le _ _) Hlen).
  - unfold CTS_MAX, FD_TXN_MTU, ULONG_MAX in *. lia.
  - intros rest t0. by apply cts_de_spec.
Qed.

Lemma bytes_check l : forallb (fun x => (0 <=? x) && (x <? 256)) l = true -> Forall is_byte l.
Proof.
  intros E. apply Forall_forall. intros x Hx. rewrite forallb_forall in E. specialize (E x (proj1 (list_elem_of_In _ _) Hx)).
  apply andb_true_iff in E as [E1%Z.leb_le E2%Z.ltb_lt]. unfold is_byte. lia.
Qed.

(** A hash for the examples. *)
Definition hash0 : fd_hash_t := repeat 7 32.

Lemma hash0_ok : is_hash hash0.
Proof. split; [done|]. unfold hash0. repeat (constructor; [unfold is_byte; lia|]). constructor. Qed.

(** Two votes and no root yet. *)
Definition tower1 : fd_tower_t := mk_tower [mk_tower_vote 10 2; mk_tower_vote 300 1] ULONG_MAX 8 4 ∅ [] ∅ ∅ ∅ ∅.

Lemma tower1_wf : wf_votes (tw_votes tower1).
Proof.
  split; [|repeat constructor; cbn; unfold FD_TOWER_VOTE_MAX; lia|cbn; unfold FD_TOWER_VOTE_MAX; lia].
  repeat constructor; cbn; lia.
Qed.

Lemma tower_sync_roundtrip_witness :
  exists c bytes, tower_sync tower1 hash0 hash0 1700000000 = Ok c /\
    fd_compact_tower_sync_ser c (FD_TXN_MTU - 4) = Ok (Some bytes) /\ Z.of_nat (length bytes) = 87.
Proof.
  destruct (tower_sync_roundtrip tower1 hash0 hash0 1700000000) as (c & bytes & E & Es & _).
  - exact tower1_wf.
  - unfold is_u64, ULONG_MAX. cbn. unfold ULONG_MAX. lia.
  - exact hash0_ok.
  - exact hash0_ok.
  - unfold is_long, LONG_MAX. lia.
  - exists c, bytes. split; [exact E|]. split; [exact Es|]. vm_compute in E. injection E as <-. vm_compute in Es. injection Es as <-. reflexivity.
Defined.

(** C40: The parser of the compact tower sync accepts the writer's encodings only:
    whatever bytes it accepts, the result is well formed and the bytes start with its
    serialization, so that over-long variable-length integers, more than 31 lockouts
    and option tags other than 0 and 1 are refused. *)
Theorem tower_sync_canonical t0 buf c :
  Forall is_byte buf -> is_long t0 -> fd_compact_tower_sync_de t0 buf = Some c ->
  wf_cts c /\ exists rest, buf = cts_bytes c ++ rest /\
    fd_compact_tower_sync_ser c (Z.of_nat (length (cts_bytes c))) = Ok (Some (cts_bytes c)).
Proof.
  intros Hb Ht E. destruct (cts_de_canonical t0 buf c Hb Ht E) as [Hc (rest & ->)]. split; [done|]. exists rest. split; [done|].
  apply cts_ser_spec; [done|]. pose proof (cts_bytes_len c Hc). unfold CTS_MAX, ULONG_MAX in *. lia.
Qed.

Definition cts1 : fd_compact_tower_sync_serde_t := mk_cts 0 2 [(10, 2); (290, 1)] hash0 1 1700000000 hash0.

Lemma cts1_bytes : Forall is_byte (cts_bytes cts1).
Proof. apply bytes_check. vm_compute. reflexivity. Qed.

Lemma tower_sync_canonical_witness : exists c, fd_compact_tower_sync_de 0 (cts_bytes cts1) = Some c /\ wf_cts c.
Proof.
  assert (fd_compact_tower_sync_de 0 (cts_bytes cts1) = Some cts1) as E by (vm_compute; reflexivity).
  exists cts1. split; [exact E|]. apply (tower_sync_canonical 0 (cts_bytes cts1) cts1).
  - exact cts1_bytes.
  - unfold is_long, LONG_MAX. lia.
  - exact E.
Defined.

(** Reading a vote account never goes out of bounds and yields at most 31
    votes, whatever the account's data is, and an account that encodes a list of
    votes in any of the three versions is read back as these votes and their root. *)
Theorem vote_acc_votes data :
  Forall is_byte data ->
  (exists votes root, fd_tower_from_vote_acc [] data = Ok (votes, root) /\ Z.of_nat (length votes) <= FD_TOWER_VOTE_MAX) /\
  forall kind hdr l root rest, wf_hdr kind hdr -> Z.of_nat (length l) <= FD_TOWER_VOTE_MAX -> Forall enc_ok l ->
    match root with Some r => is_u64 r | None => True end -> data = enc_acc kind hdr l root rest ->
    fd_tower_from_vote_acc [] data = Ok (map snd l, default ULONG_MAX root).
Proof.
  intros Hb. split; [by apply from_vote_acc_total|]. intros kind hdr l root rest Hh Hl Hok Hr ->.
  unfold fd_tower_from_vote_acc. rewrite enc_desc_ok by done. cbn [mbind outcome_bind].
  change (range 0 _) with (seqZ (Z.of_nat (length (@nil (Z * fd_tower_vote_t)))) (Z.of_nat (length l) - 0)). rewrite Z.sub_0_r.
  by rewrite (enc_load_votes kind hdr root rest l l [] []).
Qed.

Definition acc1 : list Z := enc_acc FD_VOTE_ACC_V3 (repeat 0 65) [(1, mk_tower_vote 10 2); (2, mk_tower_vote 300 1)] (Some 9) [0; 0].

Lemma acc1_bytes : Forall is_byte acc1.
Proof. apply bytes_check. vm_compute. reflexivity. Qed.

Lemma vote_acc_votes_witness : fd_tower_from_vote_acc [] acc1 = Ok ([mk_tower_vote 10 2; mk_tower_vote 300 1], 9).
Proof.
  destruct (vote_acc_votes acc1 acc1_bytes) as [_ Hrt].
  apply (Hrt FD_VOTE_ACC_V3 (repeat 0 65) [(1, mk_tower_vote 10 2); (2, mk_tower_vote 300 1)] (Some 9) [0; 0]).
  - apply hdr_v3. reflexivity.
  - cbn. unfold FD_TOWER_VOTE_MAX. lia.
  - repeat constructor; cbn; unfold is_u64, ULONG_MAX, UINT_MAX; cbn; lia.
  - cbn. unfold is_u64, ULONG_MAX. lia.
  - reflexivity.
Defined.

(** The writer of the variable-length integers does not look at the end of the
    buffer: a buffer of 8 bytes is overrun instead of refused. *)
Example tower_sync_ser_overruns : wf_cts cts1 /\ fd_compact_tower_sync_ser cts1 8 = Fail OutOfBounds.
Proof.
  split; [|reflexivity]. apply (cts_de_canonical 0 (cts_bytes cts1) cts1); [exact cts1_bytes|unfold is_long, LONG_MAX; lia|vm_compute; reflexivity].
Qed.
