(* ===== verification/Sha256.v ===== *)
(** * SHA-256

    The hash of src/src/ballet/sha256: the portable block function
    [fd_sha256_core_ref], the incremental interface (init, append, fini), the one-shot
    [fd_sha256_hash] and the repeated hash of 32 bytes.  A [uint] is an integer modulo
    2^32, bytes are integers below 256, the eight words of the hash state are a record.
    Data is passed as the list of its bytes, so that [sz] is the length of the list.
    The variants for machines with SHA instructions compute the same function with
    vector intrinsics and are not modelled. *)
From S2P Require Import Prelude.

(** ** 32-bit words *)

Definition u32 (x : Z) : Z := x mod 4294967296.
Definition u32_add (a b : Z) : Z := u32 (a + b).
Infix "+u" := u32_add (at level 50, left associativity) : u64_scope.

Definition fd_uint_rotate_left (x n : Z) : Z := Z.lor (u32 (Z.shiftl x (Z.land n 31))) (Z.shiftr x (Z.land (- n) 31)).
Definition fd_uint_bswap (x : Z) : Z := le_load (rev (le_store 4 x)).
Definition fd_ulong_bswap (x : Z) : Z := le_load (rev (le_store 8 x)).
Definition uint_not (x : Z) : Z := u32 (Z.lnot x).

Definition Sigma0 (x : Z) : Z := Z.lxor (Z.lxor (fd_uint_rotate_left x 30) (fd_uint_rotate_left x 19)) (fd_uint_rotate_left x 10).
Definition Sigma1 (x : Z) : Z := Z.lxor (Z.lxor (fd_uint_rotate_left x 26) (fd_uint_rotate_left x 21)) (fd_uint_rotate_left x 7).
Definition sigma0 (x : Z) : Z := Z.lxor (Z.lxor (fd_uint_rotate_left x 25) (fd_uint_rotate_left x 14)) (Z.shiftr x 3).
Definition sigma1 (x : Z) : Z := Z.lxor (Z.lxor (fd_uint_rotate_left x 15) (fd_uint_rotate_left x 13)) (Z.shiftr x 10).
Definition Ch (x y z : Z) : Z := Z.lxor (Z.land x y) (Z.land (uint_not x) z).
Definition Maj (x y z : Z) : Z := Z.lxor (Z.lxor (Z.land x y) (Z.land x z)) (Z.land y z).

(** ** Constants *)

Definition fd_sha256_K : list Z :=
  0x428a2f98 :: 0x71374491 :: 0xb5c0fbcf :: 0xe9b5dba5 :: 0x3956c25b :: 0x59f111f1 :: 0x923f82a4 :: 0xab1c5ed5 ::
  0xd807aa98 :: 0x12835b01 :: 0x243185be :: 0x550c7dc3 :: 0x72be5d74 :: 0x80deb1fe :: 0x9bdc06a7 :: 0xc19bf174 ::
  0xe49b69c1 :: 0xefbe4786 :: 0x0fc19dc6 :: 0x240ca1cc :: 0x2de92c6f :: 0x4a7484aa :: 0x5cb0a9dc :: 0x76f988da ::
  0x983e5152 :: 0xa831c66d :: 0xb00327c8 :: 0xbf597fc7 :: 0xc6e00bf3 :: 0xd5a79147 :: 0x06ca6351 :: 0x14292967 ::
  0x27b70a85 :: 0x2e1b2138 :: 0x4d2c6dfc :: 0x53380d13 :: 0x650a7354 :: 0x766a0abb :: 0x81c2c92e :: 0x92722c85 ::
  0xa2bfe8a1 :: 0xa81a664b :: 0xc24b8b70 :: 0xc76c51a3 :: 0xd192e819 :: 0xd6990624 :: 0xf40e3585 :: 0x106aa070 ::
  0x19a4c116 :: 0x1e376c08 :: 0x2748774c :: 0x34b0bcb5 :: 0x391c0cb3 :: 0x4ed8aa4a :: 0x5b9cca4f :: 0x682e6ff3 ::
  0x748f82ee :: 0x78a5636f :: 0x84c87814 :: 0x8cc70208 :: 0x90befffa :: 0xa4506ceb :: 0xbef9a3f7 :: 0xc67178f2 ::
  nil.

(** The words [state[0]], ..., [state[7]], and the variables [a], ..., [h]. *)
Record words8 := mk_words { w_a : Z; w_b : Z; w_c : Z; w_d : Z; w_e : Z; w_f : Z; w_g : Z; w_h : Z }.

Definition FD_SHA256_INITIAL : words8 :=
  mk_words 0x6a09e667 0xbb67ae85 0x3c6ef372 0xa54ff53a 0x510e527f 0x9b05688c 0x1f83d9ab 0x5be0cd19.

Definition FD_SHA256_PRIVATE_LG_BUF_MAX : Z := 6.
Definition FD_SHA256_PRIVATE_BUF_MAX : Z := 64.

(** ** The block function *)

(** The part of a round that the two loops share: [X[i]] is the word of the schedule. *)
Definition sha256_round (v : words8) (Xi Ki : Z) : words8 :=
  let T1 := Xi +u w_h v +u Sigma1 (w_e v) +u Ch (w_e v) (w_f v) (w_g v) +u Ki in
  let T2 := Sigma0 (w_a v) +u Maj (w_a v) (w_b v) (w_c v) in
  mk_words (T1 +u T2) (w_a v) (w_b v) (w_c v) (w_d v +u T1) (w_e v) (w_f v) (w_g v).

(** The first 16 rounds load the words of the block into [X]. *)
Definition load_round (W : list Z) (s : list Z * words8) (i : nat) : list Z * words8 :=
  let '(X, v) := s in
  let Xi := fd_uint_bswap (le_load (take 4 (drop (4 * i) W))) in
  (<[i := Xi]> X, sha256_round v Xi (nth i fd_sha256_K 0)).

(** The other rounds keep the last 16 words of the schedule in the ring [X]. *)
Definition ring_round (s : list Z * words8) (i : nat) : list Z * words8 :=
  let '(X, v) := s in
  let at_ (j : nat) := nth (j mod 16)%nat X 0 in
  let s0 := sigma0 (at_ (i + 1)%nat) in
  let s1 := sigma1 (at_ (i + 14)%nat) in
  let Xi := at_ i +u (s0 +u s1 +u at_ (i + 9)%nat) in
  (<[(i mod 16)%nat := Xi]> X, sha256_round v Xi (nth i fd_sha256_K 0)).

Definition add_words (s v : words8) : words8 :=
  mk_words (w_a s +u w_a v) (w_b s +u w_b v) (w_c s +u w_c v) (w_d s +u w_d v) (w_e s +u w_e v) (w_f s +u w_f v) (w_g s +u w_g v) (w_h s +u w_h v).

Definition sha256_block (state : words8) (W : list Z) : words8 :=
  let '(X, v) := foldl (load_round W) (repeat 0 16, state) (seq 0 16) in
  let '(X, v) := foldl ring_round (X, v) (seq 16 48) in
  add_words state v.

(** The loop over the blocks; the callers pass a positive number of them. *)
Fixpoint fd_sha256_core (state : words8) (W : list Z) (block_cnt : nat) : words8 :=
  match block_cnt with
  | O => state
  | S k => fd_sha256_core (sha256_block state W) (drop 64 W) k
  end.

(** ** Incremental hashing *)

Record fd_sha256_t := mk_sha256 { sha_buf : list Z; sha_state : words8; sha_buf_used : Z; sha_bit_cnt : Z }.

(** [fd_memcpy( buf+off, bytes, length bytes )] and [fd_memset] of an array. *)
Definition buf_put (buf : list Z) (off : Z) (bytes : list Z) : outcome (list Z) :=
  check OutOfBounds ((0 <=? off) && (off + Z.of_nat (length bytes) <=? Z.of_nat (length buf)));;
  Ok (take (Z.to_nat off) buf ++ bytes ++ drop (Z.to_nat off + length bytes) buf).

Definition fd_sha256_init (sha : fd_sha256_t) : fd_sha256_t := mk_sha256 (sha_buf sha) FD_SHA256_INITIAL 0 0.

(** The part of [fd_sha256_append] after the handling of buffered bytes. *)
Definition append_bulk (sha : fd_sha256_t) (data : list Z) : outcome fd_sha256_t :=
  let sz := Z.of_nat (length data) in
  let block_cnt := Z.shiftr sz FD_SHA256_PRIVATE_LG_BUF_MAX in
  let state := if block_cnt =? 0 then sha_state sha else fd_sha256_core (sha_state sha) data (Z.to_nat block_cnt) in
  let buf_used := Z.land sz (FD_SHA256_PRIVATE_BUF_MAX - 1) in
  if buf_used =? 0 then Ok (mk_sha256 (sha_buf sha) state (sha_buf_used sha) (sha_bit_cnt sha)) else
  buf ← buf_put (sha_buf sha) 0 (take (Z.to_nat buf_used) (drop (Z.to_nat (Z.shiftl block_cnt FD_SHA256_PRIVATE_LG_BUF_MAX)) data));
  Ok (mk_sha256 buf state buf_used (sha_bit_cnt sha)).

Definition fd_sha256_append (sha : fd_sha256_t) (data : list Z) : outcome fd_sha256_t :=
  let sz := Z.of_nat (length data) in
  if sz =? 0 then Ok sha else
  let buf_used := sha_buf_used sha in
  let sha := mk_sha256 (sha_buf sha) (sha_state sha) buf_used (sha_bit_cnt sha +w u64 (Z.shiftl sz 3)) in
  if buf_used =? 0 then append_bulk sha data else
  let buf_rem := FD_SHA256_PRIVATE_BUF_MAX -w buf_used in
  if sz <? buf_rem then
    buf ← buf_put (sha_buf sha) buf_used data;
    Ok (mk_sha256 buf (sha_state sha) (buf_used +w sz) (sha_bit_cnt sha))
  else
    buf ← buf_put (sha_buf sha) buf_used (take (Z.to_nat buf_rem) data);
    append_bulk (mk_sha256 buf (fd_sha256_core (sha_state sha) buf 1) 0 (sha_bit_cnt sha)) (drop (Z.to_nat buf_rem) data).

(** The end that [fd_sha256_fini] and [fd_sha256_hash] share: the padding, the last
    blocks, and the words in big-endian order. *)
Definition store_words (s : words8) : list Z :=
  le_store 4 (fd_uint_bswap (w_a s)) ++ le_store 4 (fd_uint_bswap (w_b s)) ++ le_store 4 (fd_uint_bswap (w_c s)) ++ le_store 4 (fd_uint_bswap (w_d s)) ++
  le_store 4 (fd_uint_bswap (w_e s)) ++ le_store 4 (fd_uint_bswap (w_f s)) ++ le_store 4 (fd_uint_bswap (w_g s)) ++ le_store 4 (fd_uint_bswap (w_h s)).

Definition finish (buf : list Z) (state : words8) (buf_used bit_cnt : Z) : outcome (list Z) :=
  buf ← buf_put buf buf_used [0x80];
  let buf_used := buf_used + 1 in
  bs ← (if FD_SHA256_PRIVATE_BUF_MAX - 8 <? buf_used then
          buf ← buf_put buf buf_used (repeat 0 (Z.to_nat (FD_SHA256_PRIVATE_BUF_MAX - buf_used)));
          Ok (buf, fd_sha256_core state buf 1, 0)
        else Ok (buf, state, buf_used));
  let '(buf, state, buf_used) := bs in
  buf ← buf_put buf buf_used (repeat 0 (Z.to_nat (FD_SHA256_PRIVATE_BUF_MAX - 8 - buf_used)));
  buf ← buf_put buf (FD_SHA256_PRIVATE_BUF_MAX - 8) (le_store 8 (fd_ulong_bswap bit_cnt));
  Ok (store_words (fd_sha256_core state buf 1)).

Definition fd_sha256_fini (sha : fd_sha256_t) : outcome (list Z) := finish (sha_buf sha) (sha_state sha) (sha_buf_used sha) (sha_bit_cnt sha).

(** ** One-shot hashing

    [mem] is what the uninitialized buffer on the stack holds. *)
Definition fd_sha256_hash (mem data : list Z) : outcome (list Z) :=
  let sz := Z.of_nat (length data) in
  let block_cnt := Z.shiftr sz FD_SHA256_PRIVATE_LG_BUF_MAX in
  let state := if block_cnt =? 0 then FD_SHA256_INITIAL else fd_sha256_core FD_SHA256_INITIAL data (Z.to_nat block_cnt) in
  let buf_used := Z.land sz (FD_SHA256_PRIVATE_BUF_MAX - 1) in
  buf ← (if buf_used =? 0 then Ok mem
         else buf_put mem 0 (take (Z.to_nat buf_used) (drop (Z.to_nat (Z.shiftl block_cnt FD_SHA256_PRIVATE_LG_BUF_MAX)) data)));
  finish buf state buf_used (u64 (Z.shiftl sz 3)).

(** The portable variant of the repeated hash: the padding is written once, every round
    overwrites the first 32 bytes of the block. *)
Definition repeated_round (buf : list Z) : outcome (list Z) := buf_put buf 0 (store_words (fd_sha256_core FD_SHA256_INITIAL buf 1)).

Fixpoint repeated_rounds (cnt : nat) (buf : list Z) : outcome (list Z) :=
  match cnt with
  | O => Ok buf
  | S k => buf ← repeated_round buf; repeated_rounds k buf
  end.

Definition fd_sha256_hash_32_repeated (mem data : list Z) (cnt : nat) : outcome (list Z) :=
  buf ← buf_put mem 0 (take 32 data);
  buf ← buf_put buf 32 [0x80];
  buf ← buf_put buf 33 (repeat 0 (Z.to_nat (FD_SHA256_PRIVATE_BUF_MAX - 8 - 33)));
  buf ← buf_put buf (FD_SHA256_PRIVATE_BUF_MAX - 8) (le_store 8 (fd_ulong_bswap (u64 (Z.shiftl 32 3))));
  buf ← repeated_rounds cnt buf;
  Ok (take 32 buf).
