(* ===== verification/Sha256Props.v ===== *)
(** * SHA-256: the specification and its refinement

    [Fips] is SHA-256 as FIPS 180-4 defines it: constants from the roots of primes, right
    rotations, the schedule of 64 words and one padded message.  The implementation of
    [Sha256] uses tables, left rotations, a ring of 16 words and a buffer; this file
    shows that it computes the same function, however the message is split. *)
From S2P Require Import Prelude Sha256.

Module Fips.

Definition ROTR (n x : Z) : Z := Z.lor (Z.shiftr x n) (u32 (Z.shiftl x (32 - n))).
Definition SHR (n x : Z) : Z := Z.shiftr x n.
Definition Sig0 (x : Z) : Z := Z.lxor (Z.lxor (ROTR 2 x) (ROTR 13 x)) (ROTR 22 x).
Definition Sig1 (x : Z) : Z := Z.lxor (Z.lxor (ROTR 6 x) (ROTR 11 x)) (ROTR 25 x).
Definition sig0 (x : Z) : Z := Z.lxor (Z.lxor (ROTR 7 x) (ROTR 18 x)) (SHR 3 x).
Definition sig1 (x : Z) : Z := Z.lxor (Z.lxor (ROTR 17 x) (ROTR 19 x)) (SHR 10 x).

(** The constants: the first 32 bits of the fractional parts of the cube roots of the
    first 64 primes, and of the square roots of the first eight. *)
Definition is_prime (p : Z) : bool := forallb (fun d => negb (p mod d =? 0)) (range 2 p).
Definition primes : list Z := List.filter is_prime (range 2 312).

(** The largest [r] with [r ^ k <= x], by deciding its bits from the highest one on. *)
Definition root (k x : Z) : Z := foldr (fun i r => if (r + 2 ^ i) ^ k <=? x then r + 2 ^ i else r) 0 (range 0 40).

Definition frac_root (k p : Z) : Z := u32 (root k (p * 2 ^ (32 * k))).
Definition K (t : nat) : Z := frac_root 3 (nth t primes 0).
Definition H0 : words8 :=
  let r i := frac_root 2 (nth i primes 0) in mk_words (r 0%nat) (r 1%nat) (r 2%nat) (r 3%nat) (r 4%nat) (r 5%nat) (r 6%nat) (r 7%nat).

(** Big-endian words. *)
Definition be_load (l : list Z) : Z := le_load (rev l).
Definition be_store (n : nat) (x : Z) : list Z := rev (le_store n x).
Definition block_words (M : list Z) : list Z := (fun i => be_load (take 4 (drop (4 * i) M))) <$> seq 0 16.

(** The message schedule, extended word by word. *)
Definition next_word (W : list Z) : Z :=
  let w k := nth (length W - k) W 0 in sig1 (w 2%nat) +u w 7%nat +u sig0 (w 15%nat) +u w 16%nat.
Fixpoint extend (n : nat) (W : list Z) : list Z :=
  match n with
  | O => W
  | S k => let W := extend k W in W ++ [next_word W]
  end.
Definition schedule (M : list Z) : list Z := extend 48 (block_words M).

Definition round (W : list Z) (v : words8) (t : nat) : words8 :=
  let T1 := w_h v +u Sig1 (w_e v) +u Ch (w_e v) (w_f v) (w_g v) +u K t +u nth t W 0 in
  let T2 := Sig0 (w_a v) +u Maj (w_a v) (w_b v) (w_c v) in
  mk_words (T1 +u T2) (w_a v) (w_b v) (w_c v) (w_d v +u T1) (w_e v) (w_f v) (w_g v).

Definition compress (H : words8) (M : list Z) : words8 := add_words (foldl (round (schedule M)) H (seq 0 64)) H.

Fixpoint digest (H : words8) (l : list Z) (blocks : nat) : words8 :=
  match blocks with
  | O => H
  | S k => digest (compress H (take 64 l)) (drop 64 l) k
  end.

(** The padding of a message of [n] bytes. *)
Definition padding (n : nat) : list Z := [0x80] ++ repeat 0 (Z.to_nat ((55 - Z.of_nat n) mod 64)) ++ be_store 8 (8 * Z.of_nat n).
Definition pad (msg : list Z) : list Z := msg ++ padding (length msg).

Definition words_bytes (s : words8) : list Z :=
  be_store 4 (w_a s) ++ be_store 4 (w_b s) ++ be_store 4 (w_c s) ++ be_store 4 (w_d s) ++
  be_store 4 (w_e s) ++ be_store 4 (w_f s) ++ be_store 4 (w_g s) ++ be_store 4 (w_h s).

Definition SHA256 (msg : list Z) : list Z := words_bytes (digest H0 (pad msg) (length (pad msg) / 64)).
End Fips.

(** ** Words *)

(** Sums modulo 2^32 that differ in the order of their terms only. *)
#[local] Instance eqm_equivalence : Equivalence (eqm 4294967296).
Proof. apply eqm_setoid. Qed.

#[local] Instance plus_eqm_proper : Proper (eqm 4294967296 ==> eqm 4294967296 ==> eqm 4294967296) Z.add.
Proof. apply Zplus_eqm. Qed.

Lemma u32_eqm x y : eqm 4294967296 x y -> u32 x = u32 y.
Proof. done. Qed.

Lemma u32_add_eqm a b : eqm 4294967296 (a +u b) (a + b).
Proof. apply Zmod_eqm. Qed.

Ltac u32_ring := apply u32_eqm; rewrite ?u32_add_eqm; unfold eqm; f_equal; lia.

Lemma rotate_ROTR x n : 0 < n < 32 -> fd_uint_rotate_left x (32 - n) = Fips.ROTR n x.
Proof.
  intros Hn. unfold fd_uint_rotate_left, Fips.ROTR. rewrite Z.lor_comm. change 31 with (Z.ones 5). rewrite !Z.land_ones by lia. change (2 ^ 5) with 32.
  replace (- (32 - n)) with (n + (-1) * 32) by lia. rewrite Z_mod_plus_full, !Z.mod_small by lia. done.
Qed.

Lemma Sigma0_fips x : Sigma0 x = Fips.Sig0 x.
Proof. unfold Fips.Sig0. by rewrite <- !rotate_ROTR by lia. Qed.
Lemma Sigma1_fips x : Sigma1 x = Fips.Sig1 x.
Proof. unfold Fips.Sig1. by rewrite <- !rotate_ROTR by lia. Qed.
Lemma sigma0_fips x : sigma0 x = Fips.sig0 x.
Proof. unfold Fips.sig0. by rewrite <- !rotate_ROTR by lia. Qed.
Lemma sigma1_fips x : sigma1 x = Fips.sig1 x.
Proof. unfold Fips.sig1. by rewrite <- !rotate_ROTR by lia. Qed.

Lemma K_fips t : (t < 64)%nat -> nth t fd_sha256_K 0 = Fips.K t.
Proof.
  intros Ht. assert (fd_sha256_K = Fips.K <$> seq 0 64) as -> by (vm_compute; reflexivity).
  rewrite nth_lookup, list_lookup_fmap, lookup_seq_lt by done. done.
Qed.

Lemma initial_fips : FD_SHA256_INITIAL = Fips.H0.
Proof. vm_compute. reflexivity. Qed.

Lemma round_fips W v t Xi : (t < 64)%nat -> Xi = nth t W 0 -> sha256_round v Xi (nth t fd_sha256_K 0) = Fips.round W v t.
Proof.
  intros Ht ->. unfold sha256_round, Fips.round. rewrite K_fips, Sigma0_fips, Sigma1_fips by done.
  assert (nth t W 0 +u w_h v +u Fips.Sig1 (w_e v) +u Ch (w_e v) (w_f v) (w_g v) +u Fips.K t
    = w_h v +u Fips.Sig1 (w_e v) +u Ch (w_e v) (w_f v) (w_g v) +u Fips.K t +u nth t W 0) as -> by u32_ring.
  done.
Qed.

(** ** The schedule *)

Lemma schedule_length M n : length (Fips.extend n (Fips.block_words M)) = (16 + n)%nat.
Proof. induction n as [|n IH]; cbn [Fips.extend]; [done|]. rewrite length_app, IH. cbn. lia. Qed.

(** A word does not change when the schedule is extended. *)
Lemma schedule_stable M n m t : (t < 16 + n)%nat -> (n <= m)%nat ->
  nth t (Fips.extend m (Fips.block_words M)) 0 = nth t (Fips.extend n (Fips.block_words M)) 0.
Proof.
  intros Ht. induction 1 as [|m Hm IH]; [done|]. cbn [Fips.extend]. rewrite app_nth1; [exact IH|]. rewrite schedule_length. lia.
Qed.

Lemma schedule_at M n t : (t < 16 + n)%nat -> (n <= 48)%nat -> nth t (Fips.schedule M) 0 = nth t (Fips.extend n (Fips.block_words M)) 0.
Proof. apply schedule_stable. Qed.

Lemma schedule_first M t : (t < 16)%nat -> nth t (Fips.schedule M) 0 = Fips.be_load (take 4 (drop (4 * t) M)).
Proof. intros Ht. rewrite (schedule_at M 0) by lia. cbn [Fips.extend]. unfold Fips.block_words. by rewrite nth_lookup, list_lookup_fmap, lookup_seq_lt by done. Qed.

Lemma schedule_next M t : (16 <= t < 64)%nat ->
  let w k := nth (t - k) (Fips.schedule M) 0 in
  nth t (Fips.schedule M) 0 = Fips.sig1 (w 2%nat) +u w 7%nat +u Fips.sig0 (w 15%nat) +u w 16%nat.
Proof.
  intros Ht. cbv zeta. rewrite (schedule_at M (S (t - 16)) t) by lia. rewrite !(schedule_at M (t - 16)) by lia. cbn [Fips.extend].
  rewrite app_nth2; rewrite schedule_length; [|lia]. replace (t - (16 + (t - 16)))%nat with 0%nat by lia. cbn [nth]. unfold Fips.next_word. rewrite schedule_length.
  by replace (16 + (t - 16))%nat with t by lia.
Qed.

(** ** One block *)

Lemma bswap_load l : length l = 4%nat -> Forall is_byte l -> fd_uint_bswap (le_load l) = Fips.be_load l.
Proof. intros Hl Hb. unfold fd_uint_bswap, Fips.be_load. by rewrite <- Hl, le_store_load. Qed.

(** The first [i] words are in [X]. *)
Lemma load_rounds M v i : (i <= 16)%nat -> length M = 64%nat -> Forall is_byte M ->
  exists X, foldl (load_round M) (repeat 0 16, v) (seq 0 i) = (X, foldl (Fips.round (Fips.schedule M)) v (seq 0 i)) /\ length X = 16%nat /\
    forall j, (j < i)%nat -> nth j X 0 = nth j (Fips.schedule M) 0.
Proof.
  intros Hi HM Hb. induction i as [|i IH]; [exists (repeat 0 16); split_and!; [done|done|lia]|]. destruct (IH ltac:(lia)) as (X & E & HX & Hw). rewrite seq_S, !foldl_app, E. cbn [foldl Nat.add].
  unfold load_round. rewrite bswap_load; [|rewrite length_take, length_drop; lia|by apply Forall_take, Forall_drop]. rewrite <- schedule_first by lia.
  eexists. split; [by rewrite (round_fips (Fips.schedule M)) by (done || lia)|]. split; [by rewrite length_insert|]. intros j Hj. rewrite nth_lookup. destruct (decide (j = i)) as [->|Hne].
  - by rewrite list_lookup_insert_eq by lia.
  - rewrite list_lookup_insert_ne, <- nth_lookup by done. apply Hw. lia.
Qed.

(** The ring holds the last 16 words. *)
Lemma ring_rounds M v X i : (i <= 48)%nat -> length X = 16%nat -> (forall j, (j < 16)%nat -> nth j X 0 = nth j (Fips.schedule M) 0) ->
  exists X', foldl ring_round (X, v) (seq 16 i) = (X', foldl (Fips.round (Fips.schedule M)) v (seq 16 i)) /\ length X' = 16%nat /\
    forall j, (i <= j < 16 + i)%nat -> nth (j mod 16) X' 0 = nth j (Fips.schedule M) 0.
Proof.
  intros Hi HX Hw. induction i as [|i IH].
  { exists X. split_and!; [done|done|]. intros j Hj. rewrite Nat.mod_small by lia. apply Hw. lia. }
  destruct (IH ltac:(lia)) as (X' & E & HX' & Hr). rewrite seq_S, !foldl_app, E. cbn [foldl]. set (t := (16 + i)%nat). unfold ring_round.
  assert (forall k, (1 <= k <= 16)%nat -> nth ((t + (16 - k)) mod 16) X' 0 = nth (t - k) (Fips.schedule M) 0) as Hat.
  { intros k Hk. rewrite <- Hr by (subst t; lia). f_equal. replace (t + (16 - k))%nat with ((t - k) + 1 * 16)%nat by (subst t; lia). by rewrite Nat.Div0.mod_add. }
  assert (nth (t mod 16) X' 0 +u (sigma0 (nth ((t + 1) mod 16) X' 0) +u sigma1 (nth ((t + 14) mod 16) X' 0) +u nth ((t + 9) mod 16) X' 0) = nth t (Fips.schedule M) 0) as Ex.
  { rewrite schedule_next by (subst t; lia). rewrite sigma0_fips, sigma1_fips. pose proof (Hat 16%nat ltac:(lia)) as H16. pose proof (Hat 15%nat ltac:(lia)) as H15. pose proof (Hat 7%nat ltac:(lia)) as H7.
    pose proof (Hat 2%nat ltac:(lia)) as H2. cbn [Nat.sub] in H15, H7, H2. rewrite Nat.sub_diag, Nat.add_0_r in H16. rewrite H16, H15, H7, H2. u32_ring. }
  rewrite Ex. eexists. split; [by rewrite (round_fips (Fips.schedule M)) by (done || (subst t; lia))|]. split; [by rewrite length_insert|].
  intros j Hj. rewrite nth_lookup. destruct (decide (j = t)) as [->|Hne].
  - rewrite list_lookup_insert_eq; [done|]. rewrite HX'. apply Nat.mod_upper_bound. lia.
  - rewrite list_lookup_insert_ne, <- nth_lookup; [apply Hr; subst t; lia|]. subst t. pose proof (Nat.div_mod_eq j 16). pose proof (Nat.div_mod_eq (16 + i) 16).
    pose proof (Nat.mod_upper_bound j 16). pose proof (Nat.mod_upper_bound (16 + i) 16). lia.
Qed.

Lemma load_round_take W s i : (i < 16)%nat -> load_round W s i = load_round (take 64 W) s i.
Proof. intros Hi. unfold load_round. destruct s as [X v]. do 3 f_equal; f_equal; rewrite skipn_firstn_comm, take_take; do 2 f_equal; lia. Qed.

Lemma foldl_ext_in {A B} (f g : B -> A -> B) (l : list A) b : (forall b a, a ∈ l -> f b a = g b a) -> foldl f b l = foldl g b l.
Proof. revert b. induction l as [|a l IH]; intros b H; [done|]. cbn. rewrite H by constructor. apply IH. intros; apply H. by constructor. Qed.

Lemma block_fips H W : (64 <= length W)%nat -> Forall is_byte W -> sha256_block H W = Fips.compress H (take 64 W).
Proof.
  intros HW Hb. unfold sha256_block. rewrite (foldl_ext_in _ (load_round (take 64 W))); [|intros s i Hi%elem_of_seq; apply load_round_take; lia].
  destruct (load_rounds (take 64 W) H 16) as (X & -> & HX & Hw); [lia|rewrite length_take; lia|by apply Forall_take|].
  destruct (ring_rounds (take 64 W) (foldl (Fips.round (Fips.schedule (take 64 W))) H (seq 0 16)) X 48) as (X' & -> & _ & _); [lia|done|intros; apply Hw; lia|].
  unfold Fips.compress. replace (seq 0 64) with (seq 0 16 ++ seq 16 48) by reflexivity. rewrite foldl_app. unfold add_words. f_equal; u32_ring.
Qed.

Lemma core_fips H l n : (64 * n <= length l)%nat -> Forall is_byte l -> fd_sha256_core H l n = Fips.digest H l n.
Proof.
  revert H l. induction n as [|n IH]; intros H l Hl Hb; [done|]. cbn [fd_sha256_core Fips.digest]. rewrite block_fips by (done || lia).
  apply IH; [rewrite length_drop; lia|by apply Forall_drop].
Qed.

(** ** Several blocks *)

Lemma core_app H l n m : fd_sha256_core H l (n + m) = fd_sha256_core (fd_sha256_core H l n) (drop (64 * n) l) m.
Proof.
  revert H l. induction n as [|n IH]; intros H l; [by rewrite Nat.mul_0_r, drop_0|]. cbn [Nat.add fd_sha256_core]. rewrite IH, drop_drop. do 2 f_equal. lia.
Qed.

Lemma sha256_block_app H l l' : (64 <= length l)%nat -> sha256_block H (l ++ l') = sha256_block H l.
Proof.
  intros Hl. unfold sha256_block. rewrite (foldl_ext_in (load_round (l ++ l')) (load_round l)); [done|]. intros s i Hi%elem_of_seq. rewrite load_round_take, (load_round_take l) by lia.
  by rewrite take_app_le.
Qed.

Lemma core_prefix H l l' n : (64 * n <= length l)%nat -> fd_sha256_core H (l ++ l') n = fd_sha256_core H l n.
Proof.
  revert H l. induction n as [|n IH]; intros H l Hl; [done|]. cbn [fd_sha256_core]. rewrite sha256_block_app, drop_app_le by lia. apply IH. rewrite length_drop. lia.
Qed.

#[local] Opaque sha256_block fd_sha256_core.

(** The blocks of a message and its unprocessed rest. *)
Definition blocks_of (msg : list Z) : nat := (length msg / 64)%nat.
Definition rest_of (msg : list Z) : list Z := drop (64 * blocks_of msg) msg.
Definition after (msg : list Z) : words8 := fd_sha256_core FD_SHA256_INITIAL msg (blocks_of msg).

Lemma rest_length msg : length (rest_of msg) = (length msg mod 64)%nat.
Proof. unfold rest_of, blocks_of. rewrite length_drop. pose proof (Nat.div_mod_eq (length msg) 64). lia. Qed.

(** Appending to a message whose rest is completed by [data]: the rest and [data]
    are what is left to process. *)
Lemma after_app msg data : after (msg ++ data) = fd_sha256_core (after msg) (rest_of msg ++ data) (blocks_of (rest_of msg ++ data)).
Proof.
  unfold after, rest_of. assert (blocks_of (msg ++ data) = blocks_of msg + blocks_of (drop (64 * blocks_of msg) msg ++ data))%nat as ->.
  { unfold blocks_of. rewrite !length_app, length_drop. pose proof (Nat.div_mod_eq (length msg) 64).
    replace (length msg + length data)%nat with (length msg - 64 * (length msg / 64) + length data + (length msg / 64) * 64)%nat by lia. rewrite Nat.div_add by lia. lia. }
  assert (64 * blocks_of msg <= length msg)%nat by (unfold blocks_of; pose proof (Nat.div_mod_eq (length msg) 64); lia).
  rewrite core_app. rewrite drop_app_le by done. f_equal. apply core_prefix. done.
Qed.

Lemma rest_app msg data : rest_of (msg ++ data) = rest_of (rest_of msg ++ data).
Proof.
  unfold rest_of. assert (64 * blocks_of msg <= length msg)%nat by (unfold blocks_of; pose proof (Nat.div_mod_eq (length msg) 64); lia).
  rewrite <- drop_app_le by done. rewrite drop_drop. f_equal. unfold blocks_of. rewrite length_drop, !length_app. pose proof (Nat.div_mod_eq (length msg) 64).
  replace (length msg + length data - 64 * (length msg / 64))%nat with (length msg + length data - (length msg / 64) * 64)%nat by lia.
  pose proof (Nat.div_add (length msg + length data - (length msg / 64) * 64) (length msg / 64) 64 ltac:(lia)) as E. rewrite Nat.sub_add in E by lia. lia.
Qed.

(** ** The buffer *)

Lemma buf_put_ok buf off bytes : (off + length bytes <= length buf)%nat ->
  buf_put buf (Z.of_nat off) bytes = Ok (take off buf ++ bytes ++ drop (off + length bytes) buf).
Proof. intros H. unfold buf_put. rewrite Nat2Z.id. replace (0 <=? Z.of_nat off) with true by lia. replace (_ <=? Z.of_nat (length buf)) with true by lia. done. Qed.

(** What the state holds of the message hashed so far. *)
Record sha_rep (sha : fd_sha256_t) (msg : list Z) : Prop := mk_sha_rep {
  sr_len : length (sha_buf sha) = 64%nat;
  sr_used : sha_buf_used sha = Z.of_nat (length (rest_of msg));
  sr_buf : take (length (rest_of msg)) (sha_buf sha) = rest_of msg;
  sr_state : sha_state sha = after msg;
  sr_bits : sha_bit_cnt sha = u64 (8 * Z.of_nat (length msg)) }.

Lemma shiftr_blocks l : Z.shiftr (Z.of_nat (length l)) FD_SHA256_PRIVATE_LG_BUF_MAX = Z.of_nat (blocks_of l).
Proof. unfold FD_SHA256_PRIVATE_LG_BUF_MAX, blocks_of. rewrite Z.shiftr_div_pow2 by lia. change (2 ^ 6) with (Z.of_nat 64). by rewrite <- Nat2Z.inj_div. Qed.

Lemma land_rest l : Z.land (Z.of_nat (length l)) (FD_SHA256_PRIVATE_BUF_MAX - 1) = Z.of_nat (length (rest_of l)).
Proof.
  unfold FD_SHA256_PRIVATE_BUF_MAX. change (64 - 1) with (Z.ones 6). rewrite Z.land_ones by lia. change (2 ^ 6) with (Z.of_nat 64). by rewrite rest_length, <- Nat2Z.inj_mod.
Qed.

Lemma shiftl_blocks n : Z.to_nat (Z.shiftl (Z.of_nat n) FD_SHA256_PRIVATE_LG_BUF_MAX) = (64 * n)%nat.
Proof. unfold FD_SHA256_PRIVATE_LG_BUF_MAX. rewrite Z.shiftl_mul_pow2 by lia. change (2 ^ 6) with 64. lia. Qed.

Lemma core_if H data : (if Z.of_nat (blocks_of data) =? 0 then H else fd_sha256_core H data (Z.to_nat (Z.of_nat (blocks_of data)))) = fd_sha256_core H data (blocks_of data).
Proof. rewrite Nat2Z.id. by destruct (blocks_of data). Qed.

Lemma rest_nil_app msg data : rest_of msg = [] -> after (msg ++ data) = fd_sha256_core (after msg) data (blocks_of data) /\ rest_of (msg ++ data) = rest_of data.
Proof. intros E. by rewrite after_app, rest_app, E. Qed.

Lemma take_rest l : take (length (rest_of l)) (drop (64 * blocks_of l) l) = rest_of l.
Proof. unfold rest_of. by rewrite firstn_all. Qed.

Lemma append_bulk_rep sha msg data : rest_of msg = [] -> sha_buf_used sha = 0 -> length (sha_buf sha) = 64%nat -> sha_state sha = after msg ->
  sha_bit_cnt sha = u64 (8 * Z.of_nat (length (msg ++ data))) -> exists sha', append_bulk sha data = Ok sha' /\ sha_rep sha' (msg ++ data).
Proof.
  intros Er Eu Hl Es Eb. destruct (rest_nil_app msg data Er) as [Ea Err]. unfold append_bulk. rewrite shiftr_blocks, land_rest, core_if, Es, <- Ea.
  destruct (Z.eqb_spec (Z.of_nat (length (rest_of data))) 0) as [E|E].
  - eexists. split; [done|]. assert (rest_of data = []) as E' by (apply length_zero_iff_nil; lia). split; cbn [sha_buf sha_state sha_buf_used sha_bit_cnt]; rewrite ?Err, ?E'; done.
  - pose proof (rest_length data). pose proof (Nat.mod_upper_bound (length data) 64). rewrite Nat2Z.id, shiftl_blocks, take_rest.
    change 0 with (Z.of_nat 0). rewrite buf_put_ok by lia. rewrite take_0. cbn [mbind outcome_bind app Nat.add]. eexists. split; [done|]. split; cbn [sha_buf sha_state sha_buf_used sha_bit_cnt]; rewrite ?Err; try done.
    + rewrite length_app, length_drop. lia.
    + by rewrite take_app_length.
Qed.

Lemma bits_append (msg data : list Z) : u64 (8 * Z.of_nat (length msg)) +w u64 (Z.shiftl (Z.of_nat (length data)) 3) = u64 (8 * Z.of_nat (length (msg ++ data))).
Proof. unfold u64_add, u64. rewrite <- Zplus_mod, Z.shiftl_mul_pow2 by lia. f_equal. rewrite length_app. change (2 ^ 3) with 8. lia. Qed.

Lemma append_rep sha msg data : sha_rep sha msg -> exists sha', fd_sha256_append sha data = Ok sha' /\ sha_rep sha' (msg ++ data).
Proof.
  intros [Hl Hu Hbuf Hs Hb]. unfold fd_sha256_append. destruct (Z.eqb_spec (Z.of_nat (length data)) 0) as [E|E].
  { destruct data; [|cbn in E; lia]. rewrite app_nil_r. by exists sha. }
  rewrite Hu, Hb, bits_append. pose proof (rest_length msg) as Hr. pose proof (Nat.mod_upper_bound (length msg) 64 ltac:(lia)).
  destruct (Z.eqb_spec (Z.of_nat (length (rest_of msg))) 0) as [E0|E0].
  { apply append_bulk_rep; try done. destruct (rest_of msg); [done|cbn in E0; lia]. }
  rewrite u64_sub_small by (unfold FD_SHA256_PRIVATE_BUF_MAX, is_u64, ULONG_MAX; lia). cbn [sha_buf sha_state sha_bit_cnt].
  set (k := (64 - length (rest_of msg))%nat). replace (FD_SHA256_PRIVATE_BUF_MAX - Z.of_nat (length (rest_of msg))) with (Z.of_nat k) by (unfold FD_SHA256_PRIVATE_BUF_MAX; lia).
  destruct (Z.ltb_spec (Z.of_nat (length data)) (Z.of_nat k)) as [Hlt|Hge].
  - rewrite buf_put_ok by lia. cbn [mbind outcome_bind]. eexists. split; [done|]. assert (blocks_of (rest_of msg ++ data) = 0%nat) as Eb0 by (unfold blocks_of; rewrite length_app; apply Nat.div_small; lia).
    assert (rest_of (msg ++ data) = rest_of msg ++ data) as Er by (rewrite rest_app; unfold rest_of at 1; by rewrite Eb0, Nat.mul_0_r, drop_0).
    split; cbn [sha_buf sha_state sha_buf_used sha_bit_cnt]; rewrite ?Er.
    + rewrite !length_app, length_take, length_drop. lia.
    + rewrite length_app, u64_add_small by (unfold is_u64, ULONG_MAX; lia). lia.
    + rewrite Hbuf, app_assoc. by rewrite take_app_length.
    + by rewrite after_app, Eb0.
    + done.
  - rewrite Nat2Z.id. rewrite buf_put_ok by (rewrite length_take; lia). cbn [mbind outcome_bind]. rewrite Hbuf, Hs. set (d1 := take k data).
    assert (length (rest_of msg ++ d1) = 64%nat) as L1 by (unfold d1; rewrite length_app, length_take; lia).
    replace (drop (length (rest_of msg) + length d1) (sha_buf sha)) with (@nil Z) by (symmetry; apply drop_ge; rewrite length_app in L1; lia). rewrite app_nil_r.
    assert (after (msg ++ d1) = fd_sha256_core (after msg) (rest_of msg ++ d1) 1) as Ea by (rewrite after_app; unfold blocks_of; by rewrite L1).
    assert (rest_of (msg ++ d1) = []) as Er by (rewrite rest_app; unfold rest_of at 1, blocks_of; rewrite L1; apply drop_ge; rewrite L1; cbn; lia).
    destruct (append_bulk_rep (mk_sha256 (rest_of msg ++ d1) (fd_sha256_core (after msg) (rest_of msg ++ d1) 1) 0 (u64 (8 * Z.of_nat (length (msg ++ data))))) (msg ++ d1) (drop k data)) as (sha' & E' & HR).
    { exact Er. }
    { reflexivity. }
    { exact L1. }
    { symmetry. exact Ea. }
    { cbn [sha_bit_cnt]. unfold d1. by rewrite <- app_assoc, firstn_skipn. }
    exists sha'. split; [exact E'|]. unfold d1 in HR. by rewrite <- app_assoc, firstn_skipn in HR.
Qed.

(** ** The padding *)

Lemma bswap_store n x : le_store n (le_load (rev (le_store n x))) = Fips.be_store n x.
Proof.
  unfold Fips.be_store. pose proof (le_store_load (rev (le_store n x))) as E. rewrite length_rev, le_store_length in E. apply E. apply Forall_rev, le_store_bytes.
Qed.

Lemma store_words_fips s : store_words s = Fips.words_bytes s.
Proof. unfold store_words, Fips.words_bytes, fd_uint_bswap. by rewrite !bswap_store. Qed.

Lemma core_two H B1 B2 : length B1 = 64%nat -> fd_sha256_core (fd_sha256_core H B1 1) B2 1 = fd_sha256_core H (B1 ++ B2) 2.
Proof. intros HB. change 2%nat with (1 + 1)%nat. rewrite core_app, core_prefix by lia. rewrite drop_app_le, drop_ge by lia. done. Qed.

Lemma padding_zeros n : Z.to_nat ((55 - Z.of_nat n) mod 64) = (if decide (n mod 64 <= 55) then 55 - n mod 64 else 119 - n mod 64)%nat.
Proof.
  pose proof (Nat.div_mod_eq n 64). pose proof (Nat.mod_upper_bound n 64 ltac:(lia)). case_decide.
  - replace (55 - Z.of_nat n) with (Z.of_nat (55 - n mod 64) + (- Z.of_nat (n / 64)) * 64) by lia. rewrite Z_mod_plus_full, Z.mod_small; lia.
  - replace (55 - Z.of_nat n) with (Z.of_nat (119 - n mod 64) + (- Z.of_nat (n / 64) - 1) * 64) by lia. rewrite Z_mod_plus_full, Z.mod_small; lia.
Qed.

Lemma be_store_length n x : length (Fips.be_store n x) = n.
Proof. unfold Fips.be_store. by rewrite length_rev, le_store_length. Qed.

(** A buffer of 64 bytes of which the first [n] are known, written from [n] on. *)
Lemma put_after buf r bytes : length buf = 64%nat -> take (length r) buf = r -> (length r + length bytes <= 64)%nat ->
  exists buf', buf_put buf (Z.of_nat (length r)) bytes = Ok buf' /\ length buf' = 64%nat /\ take (length (r ++ bytes)) buf' = r ++ bytes.
Proof.
  intros Hl Ht Hle. rewrite buf_put_ok by lia. eexists. split; [done|]. rewrite Ht. split; [rewrite !length_app, length_drop; lia|]. by rewrite app_assoc, take_app_length.
Qed.

Lemma full_buf (buf l : list Z) : length buf = 64%nat -> length l = 64%nat -> take (length l) buf = l -> buf = l.
Proof. intros Hb Hl E. rewrite <- E. rewrite Hl, <- Hb. by rewrite firstn_all. Qed.

Lemma finish_ok buf state r n : length buf = 64%nat -> length r = (n mod 64)%nat -> take (length r) buf = r -> 8 * Z.of_nat n <= ULONG_MAX ->
  finish buf state (Z.of_nat (length r)) (u64 (8 * Z.of_nat n)) = Ok (Fips.words_bytes (fd_sha256_core state (r ++ Fips.padding n) (length (r ++ Fips.padding n) / 64))).
Proof.
  intros Hl Hr Ht Hn. pose proof (Nat.mod_upper_bound n 64 ltac:(lia)). rewrite u64_small by (unfold is_u64, ULONG_MAX in *; lia). unfold finish.
  destruct (put_after buf r [0x80]) as (b1 & -> & L1 & T1); [done|done|cbn; lia|]. cbn [mbind outcome_bind]. replace (Z.of_nat (length r) + 1) with (Z.of_nat (length (r ++ [0x80]))) by (rewrite length_app; cbn; lia).
  set (r1 := r ++ [0x80]) in *. assert (length r1 = S (length r)) as Lr1 by (unfold r1; rewrite length_app; cbn; lia). unfold fd_ulong_bswap. rewrite bswap_store. set (len := Fips.be_store 8 _).
  assert (length len = 8%nat) as Ll by apply be_store_length. unfold Fips.padding. fold len. rewrite padding_zeros. change (FD_SHA256_PRIVATE_BUF_MAX - 8) with 56.
  destruct (Z.ltb_spec 56 (Z.of_nat (length r1))) as [Hgt|Hle].
  - rewrite decide_False by lia. destruct (put_after b1 r1 (repeat 0 (Z.to_nat (FD_SHA256_PRIVATE_BUF_MAX - Z.of_nat (length r1))))) as (b2 & -> & L2 & T2); [done|done|rewrite repeat_length; unfold FD_SHA256_PRIVATE_BUF_MAX; lia|].
    cbn [mbind outcome_bind]. apply full_buf in T2 as ->; [|done|rewrite length_app, repeat_length; unfold FD_SHA256_PRIVATE_BUF_MAX; lia].
    set (B1 := r1 ++ repeat 0 _) in *. destruct (put_after B1 [] (repeat 0 (Z.to_nat (56 - 0)))) as (b3 & E3 & L3 & T3); [done|done|rewrite repeat_length; cbn [length]; lia|]. change (Z.of_nat (@length Z [])) with 0 in E3. rewrite E3. cbn [mbind outcome_bind app] in *.
    destruct (put_after b3 (repeat 0 (Z.to_nat (56 - 0))) len) as (b4 & E4 & L4 & T4); [done|done|rewrite repeat_length; lia|]. rewrite repeat_length in E4. change (Z.of_nat (Z.to_nat (56 - 0))) with 56 in E4. rewrite E4. cbn [mbind outcome_bind].
    apply full_buf in T4 as ->; [|done|rewrite length_app, repeat_length; lia]. rewrite store_words_fips, core_two by done. do 2 f_equal.
    assert (B1 ++ repeat 0 (Z.to_nat (56 - 0)) ++ len = r ++ [0x80] ++ repeat 0 (119 - n mod 64) ++ len) as ->.
    { unfold B1, r1. rewrite <- !app_assoc. do 2 f_equal. rewrite app_assoc, <- repeat_app. do 2 f_equal. fold r1. unfold FD_SHA256_PRIVATE_BUF_MAX. lia. }
    f_equal. rewrite length_app. cbn [app length]. rewrite length_app, repeat_length, Ll, Hr. replace (n mod 64 + S (119 - n mod 64 + 8))%nat with 128%nat by lia. done.
  - rewrite decide_True by lia. cbn [mbind outcome_bind]. destruct (put_after b1 r1 (repeat 0 (Z.to_nat (56 - Z.of_nat (length r1))))) as (b2 & -> & L2 & T2); [done|done|rewrite repeat_length; lia|]. cbn [mbind outcome_bind].
    set (B := r1 ++ repeat 0 _) in *. assert (length B = 56%nat) as LB by (unfold B; rewrite length_app, repeat_length; lia).
    destruct (put_after b2 B len) as (b3 & E3 & L3 & T3); [done|done|lia|]. rewrite LB in E3. change (Z.of_nat 56) with 56 in E3. rewrite E3. cbn [mbind outcome_bind].
    apply full_buf in T3 as ->; [|done|rewrite length_app; lia]. rewrite store_words_fips. do 2 f_equal.
    assert (B ++ len = r ++ [0x80] ++ repeat 0 (55 - n mod 64) ++ len) as -> by (unfold B, r1; rewrite <- !app_assoc; do 4 f_equal; fold r1; lia).
    f_equal. rewrite length_app. cbn [app length]. rewrite length_app, repeat_length, Ll, Hr. replace (n mod 64 + S (55 - n mod 64 + 8))%nat with 64%nat by lia. done.
Qed.

(** The whole message, hashed from its state after the complete blocks. *)
Lemma digest_pad msg : Forall is_byte msg ->
  fd_sha256_core (after msg) (rest_of msg ++ Fips.padding (length msg)) (length (rest_of msg ++ Fips.padding (length msg)) / 64) = Fips.digest Fips.H0 (Fips.pad msg) (length (Fips.pad msg) / 64).
Proof.
  intros Hb. fold (blocks_of (rest_of msg ++ Fips.padding (length msg))). rewrite <- after_app. unfold after. rewrite initial_fips. apply core_fips.
  - apply Nat.Div0.mul_div_le.
  - unfold Fips.pad, Fips.padding. apply Forall_app; split; [done|]. apply Forall_app; split; [|apply Forall_app; split].
    + repeat constructor; unfold is_byte; lia.
    + apply Forall_forall. intros x Hx. apply list_elem_of_In, repeat_spec in Hx as ->. unfold is_byte. lia.
    + unfold Fips.be_store. apply Forall_rev, le_store_bytes.
Qed.

(** ** The functions *)

Lemma init_rep sha : length (sha_buf sha) = 64%nat -> sha_rep (fd_sha256_init sha) [].
Proof. intros Hl. split; try done. Qed.

Lemma fini_ok sha msg : sha_rep sha msg -> Forall is_byte msg -> 8 * Z.of_nat (length msg) <= ULONG_MAX -> fd_sha256_fini sha = Ok (Fips.SHA256 msg).
Proof.
  intros [Hl Hu Hb Hs Hn] Hby Hm. unfold fd_sha256_fini. rewrite Hu, Hn, Hs, finish_ok by (done || apply rest_length). unfold Fips.SHA256. by rewrite digest_pad.
Qed.

Lemma hash_ok mem data : length mem = 64%nat -> Forall is_byte data -> 8 * Z.of_nat (length data) <= ULONG_MAX -> fd_sha256_hash mem data = Ok (Fips.SHA256 data).
Proof.
  intros Hm Hby Hn. unfold fd_sha256_hash. rewrite shiftr_blocks, land_rest, core_if, Nat2Z.id, shiftl_blocks, take_rest. fold (after data).
  pose proof (rest_length data). pose proof (Nat.mod_upper_bound (length data) 64 ltac:(lia)).
  assert (exists buf, (if Z.of_nat (length (rest_of data)) =? 0 then Ok mem else buf_put mem 0 (rest_of data)) = Ok buf /\ length buf = 64%nat /\ take (length (rest_of data)) buf = rest_of data) as (buf & -> & Hl & Ht).
  { destruct (Z.eqb_spec (Z.of_nat (length (rest_of data))) 0) as [E|E].
    - exists mem. assert (rest_of data = []) as -> by (apply length_zero_iff_nil; lia). done.
    - apply (put_after mem [] (rest_of data)); [done|done|cbn [length]; lia]. }
  cbn [mbind outcome_bind]. rewrite Z.shiftl_mul_pow2 by lia. change (2 ^ 3) with 8. rewrite Z.mul_comm. rewrite finish_ok by done. unfold Fips.SHA256. by rewrite digest_pad.
Qed.

(** Hashing [prefix], then [data], as the Merkle tree does. *)
Lemma append_all_rep sha msg chunks : sha_rep sha msg -> exists sha', ofold fd_sha256_append sha chunks = Ok sha' /\ sha_rep sha' (msg ++ concat chunks).
Proof.
  revert sha msg. induction chunks as [|c chunks IH]; intros sha msg HR; cbn [ofold concat]; [rewrite app_nil_r; eauto|].
  destruct (append_rep sha msg c HR) as (sha1 & -> & HR1). cbn [mbind outcome_bind]. rewrite app_assoc. by apply IH.
Qed.

Lemma streaming_ok sha chunks : length (sha_buf sha) = 64%nat -> Forall is_byte (concat chunks) -> 8 * Z.of_nat (length (concat chunks)) <= ULONG_MAX ->
  (sha' ← ofold fd_sha256_append (fd_sha256_init sha) chunks; fd_sha256_fini sha') = Ok (Fips.SHA256 (concat chunks)).
Proof.
  intros Hl Hb Hn. destruct (append_all_rep (fd_sha256_init sha) [] chunks (init_rep sha Hl)) as (sha' & -> & HR). cbn [mbind outcome_bind]. by apply fini_ok.
Qed.

Lemma words_bytes_length s : length (Fips.words_bytes s) = 32%nat.
Proof. unfold Fips.words_bytes. by rewrite !length_app, !be_store_length. Qed.

Lemma words_bytes_bytes s : Forall is_byte (Fips.words_bytes s).
Proof. unfold Fips.words_bytes, Fips.be_store. rewrite !Forall_app. split_and!; apply Forall_rev, le_store_bytes. Qed.

Lemma SHA256_length msg : length (Fips.SHA256 msg) = 32%nat.
Proof. apply words_bytes_length. Qed.

Lemma SHA256_bytes msg : Forall is_byte (Fips.SHA256 msg).
Proof. apply words_bytes_bytes. Qed.

(** The block that the repeated hash prepares. *)
Lemma repeated_round_ok data : length data = 32%nat -> Forall is_byte data -> repeated_round (data ++ Fips.padding 32) = Ok (Fips.SHA256 data ++ Fips.padding 32).
Proof.
  intros Hl Hb. unfold repeated_round. rewrite store_words_fips. pose proof (digest_pad data Hb) as E. rewrite Hl in E.
  assert (blocks_of data = 0%nat) as E0 by (unfold blocks_of; by rewrite Hl). assert (rest_of data = data) as Er by (unfold rest_of; by rewrite E0).
  rewrite Er in E. unfold after in E. rewrite E0 in E. change (fd_sha256_core FD_SHA256_INITIAL data 0) with FD_SHA256_INITIAL in E.
  assert (length (data ++ Fips.padding 32) = 64%nat) as L by (rewrite length_app, Hl; reflexivity). rewrite L in E. change (64 / 64)%nat with 1%nat in E.
  rewrite E. fold (Fips.SHA256 data). change 0 with (Z.of_nat 0). rewrite buf_put_ok by (rewrite SHA256_length; lia). rewrite take_0. cbn [app Nat.add].
  by rewrite SHA256_length, drop_app_length' by done.
Qed.

Lemma repeated_rounds_ok cnt data : length data = 32%nat -> Forall is_byte data -> repeated_rounds cnt (data ++ Fips.padding 32) = Ok (Nat.iter cnt Fips.SHA256 data ++ Fips.padding 32).
Proof.
  revert data. induction cnt as [|cnt IH]; intros data Hl Hb; [done|]. cbn [repeated_rounds]. rewrite repeated_round_ok by done. cbn [mbind outcome_bind].
  rewrite IH by (apply SHA256_length || apply SHA256_bytes). rewrite Nat.iter_succ_r. done.
Qed.

Lemma repeated_ok mem data cnt : length mem = 64%nat -> length data = 32%nat -> Forall is_byte data ->
  fd_sha256_hash_32_repeated mem data cnt = Ok (Nat.iter cnt Fips.SHA256 data).
Proof.
  intros Hm Hl Hb. unfold fd_sha256_hash_32_repeated. rewrite take_ge by lia. destruct (put_after mem [] data) as (b1 & E1 & L1 & T1); [done|done|cbn [length]; lia|].
  change (Z.of_nat (@length Z [])) with 0 in E1. rewrite E1. cbn [mbind outcome_bind app] in *.
  destruct (put_after b1 data [0x80]) as (b2 & E2 & L2 & T2); [done|done|cbn [length]; lia|]. rewrite Hl in E2. change (Z.of_nat 32) with 32 in E2. rewrite E2. cbn [mbind outcome_bind].
  set (zeros := repeat 0 _). assert (length zeros = 23%nat) as Lz by reflexivity. destruct (put_after b2 (data ++ [0x80]) zeros) as (b3 & E3 & L3 & T3); [done|done|rewrite length_app, Hl, Lz; cbn [length]; lia|].
  rewrite length_app, Hl in E3. change (Z.of_nat (32 + length [0x80])) with 33 in E3. rewrite E3. cbn [mbind outcome_bind]. unfold fd_ulong_bswap. rewrite bswap_store.
  destruct (put_after b3 ((data ++ [0x80]) ++ zeros) (Fips.be_store 8 (u64 (Z.shiftl 32 3)))) as (b4 & E4 & L4 & T4); [done|done|rewrite !length_app, be_store_length, Hl, Lz; cbn [length]; lia|].
  rewrite !length_app, Hl in E4. change (Z.of_nat (32 + length [0x80] + length zeros)) with (FD_SHA256_PRIVATE_BUF_MAX - 8) in E4. rewrite E4. cbn [mbind outcome_bind].
  apply full_buf in T4 as ->; [|done|rewrite !length_app, be_store_length, Hl; reflexivity]. rewrite <- !app_assoc. change ([0x80] ++ zeros ++ Fips.be_store 8 (u64 (Z.shiftl 32 3))) with (Fips.padding 32).
  rewrite repeated_rounds_ok by done. cbn [mbind outcome_bind]. 
  assert (length (Nat.iter cnt Fips.SHA256 data) = 32%nat) as L by (destruct cnt; [done|rewrite Nat.iter_succ; apply SHA256_length]). by rewrite take_app_length' by done.
Qed.

(** C27: SHA-256 is computed as FIPS 180-4 defines it, and no write leaves the block
    buffer: by the one-shot function, by any sequence of appends to a freshly
    initialized state (the digest is that of the concatenation, however it is split),
    and by the repeated hash of 32 bytes, for messages of less than 2^64 bits. *)
Theorem sha256_fips mem sha data chunks seed cnt :
  length mem = 64%nat -> length (sha_buf sha) = 64%nat -> Forall is_byte data -> concat chunks = data -> 8 * Z.of_nat (length data) <= ULONG_MAX ->
  length seed = 32%nat -> Forall is_byte seed ->
  fd_sha256_hash mem data = Ok (Fips.SHA256 data) /\
  (sha' ← ofold fd_sha256_append (fd_sha256_init sha) chunks; fd_sha256_fini sha') = Ok (Fips.SHA256 data) /\
  fd_sha256_hash_32_repeated mem seed cnt = Ok (Nat.iter cnt Fips.SHA256 seed).
Proof. intros Hm Hs Hb <- Hn Hl Hseed. split_and!; [by apply hash_ok|by apply streaming_ok|by apply repeated_ok]. Qed.

(** The digest of the three letters abc, appended in two parts. *)
Definition abc_digest : list Z :=
  le_store 32 0xad1500f261ff10b49c7a1796a36103b02322ae5dde404141eacf018fbf1678ba.

Lemma sha256_fips_witness :
  (sha' ← ofold fd_sha256_append (fd_sha256_init (mk_sha256 (repeat 5 64) FD_SHA256_INITIAL 9 9)) [[97]; []; [98; 99]]; fd_sha256_fini sha') = Ok abc_digest.
Proof.
  assert (Fips.SHA256 [97; 98; 99] = abc_digest) as <- by (vm_compute; reflexivity).
  apply (sha256_fips (repeat 0 64) (mk_sha256 (repeat 5 64) FD_SHA256_INITIAL 9 9) [97; 98; 99] [[97]; []; [98; 99]] (repeat 1 32) 3); try reflexivity.
  - repeat constructor; unfold is_byte; lia.
  - vm_compute. discriminate.
  - repeat constructor; unfold is_byte; lia.
Defined.
