(* ===== verification/Bmtree.v ===== *)
(** * Binary Merkle trees

    src/src/ballet/bmtree: the tree over a vector of leaves, computed leaf by leaf
    ([fd_bmtree_commit_append], [fd_bmtree_commit_fini]) or from inclusion proofs
    ([fd_bmtree_commitp_insert_with_proof], [fd_bmtree_commitp_fini]), and the inclusion
    proofs themselves.  A node is its 32 bytes, of which the first [hash_sz] count.
    [node_buf], the stored nodes [inclusion_proofs] and the words of the bit set
    [inclusion_proofs_valid] are lists, and every access to them tests the bounds.  The
    store of nodes and the bit set are apart here; in the C code the bit set starts at the
    dummy entry of the store, which a calculation by leaves does not read and one by proofs
    does not write. *)
From S2P Require Import Prelude VotorBase Sha256.

(** ** Bit operations of src/src/util/bits/fd_bits.h *)

Definition fd_ulong_is_pow2 (x : Z) : bool := negb (x =? 0) && (Z.land x (x -w 1) =? 0).
Definition fd_ulong_insert_lsb (x n y : Z) : Z := Z.lor (Z.ldiff x (Z.ones n)) y.
Definition fd_ulong_find_msb_w_default (x d : Z) : Z := if x =? 0 then d else Z.log2 x.
Definition fd_ulong_find_lsb (x : Z) : Z := Z.log2 (Z.land x (- x)).

(** ** Hashing *)

Definition FD_BMTREE_LONG_PREFIX_SZ : Z := 26.
Definition fd_bmtree_leaf_prefix : list Z :=
  [0; 83; 79; 76; 65; 78; 65; 95; 77; 69; 82; 75; 76; 69; 95; 83; 72; 82; 69; 68; 83; 95; 76; 69; 65; 70] ++ repeat 0 6.
Definition fd_bmtree_node_prefix : list Z :=
  [1; 83; 79; 76; 65; 78; 65; 95; 77; 69; 82; 75; 76; 69; 95; 83; 72; 82; 69; 68; 83; 95; 78; 79; 68; 69] ++ repeat 0 6.

Definition fd_bmtree_node_t : Type := list Z.

(** The hash state on the stack before its initialization. *)
Definition sha_stack : fd_sha256_t := mk_sha256 (repeat 0 64) FD_SHA256_INITIAL 0 0.

Definition fd_bmtree_hash_leaf (data : list Z) (prefix_sz : Z) : outcome fd_bmtree_node_t :=
  sha ← fd_sha256_append (fd_sha256_init sha_stack) (take (Z.to_nat prefix_sz) fd_bmtree_leaf_prefix);
  sha ← fd_sha256_append sha data;
  fd_sha256_fini sha.

Definition fd_bmtree_private_merge (a b : fd_bmtree_node_t) (hash_sz prefix_sz : Z) : outcome fd_bmtree_node_t :=
  sha ← fd_sha256_append (fd_sha256_init sha_stack) (take (Z.to_nat prefix_sz) fd_bmtree_node_prefix);
  sha ← fd_sha256_append sha (take (Z.to_nat hash_sz) a);
  sha ← fd_sha256_append sha (take (Z.to_nat hash_sz) b);
  fd_sha256_fini sha.

(** The variant for AVX: three stores of 32 bytes, of which the later ones overwrite what
    is not hashed of the earlier ones.  [mem] is the array of 96 bytes on the stack and
    [stack] the buffer of [fd_sha256_hash]. *)
Definition fd_bmtree_private_merge_avx (mem stack : list Z) (a b : fd_bmtree_node_t) (hash_sz prefix_sz : Z) : outcome fd_bmtree_node_t :=
  mem ← buf_put mem 0 fd_bmtree_node_prefix;
  mem ← buf_put mem prefix_sz a;
  mem ← buf_put mem (prefix_sz +w hash_sz) b;
  bytes ← mem_read mem 0 (prefix_sz +w 2 *w hash_sz);
  fd_sha256_hash stack bytes.

(** ** Sizes *)

Definition fd_bmtree_depth (leaf_cnt : Z) : Z :=
  if leaf_cnt <=? 1 then leaf_cnt else fd_ulong_find_msb_w_default (leaf_cnt -w 1) (-1) +w 2.

Definition fd_bmtree_node_cnt (leaf_cnt : Z) : Z :=
  if leaf_cnt =? 0 then 0 else
  let leaf_cnt := leaf_cnt -w 1 in
  let cnt := foldl (fun cnt i => cnt +w Z.shiftr leaf_cnt i) 0 (range 0 64) in
  cnt +w (2 + fd_ulong_find_msb_w_default leaf_cnt (-1)).

(** ** The state of a calculation *)

Record fd_bmtree_commit_t := mk_bmtree {
  bm_leaf_cnt : Z;
  bm_hash_sz : Z;
  bm_prefix_sz : Z;
  bm_inclusion_proof_sz : Z;
  bm_node_buf : list fd_bmtree_node_t;
  bm_inclusion_proofs_valid : list Z;
  bm_inclusion_proofs : list fd_bmtree_node_t }.

Definition bm_set_leaf_cnt (st : fd_bmtree_commit_t) (c : Z) : fd_bmtree_commit_t :=
  mk_bmtree c (bm_hash_sz st) (bm_prefix_sz st) (bm_inclusion_proof_sz st) (bm_node_buf st) (bm_inclusion_proofs_valid st) (bm_inclusion_proofs st).
Definition bm_set_node_buf (st : fd_bmtree_commit_t) (b : list fd_bmtree_node_t) : fd_bmtree_commit_t :=
  mk_bmtree (bm_leaf_cnt st) (bm_hash_sz st) (bm_prefix_sz st) (bm_inclusion_proof_sz st) b (bm_inclusion_proofs_valid st) (bm_inclusion_proofs st).
Definition bm_set_valid (st : fd_bmtree_commit_t) (v : list Z) : fd_bmtree_commit_t :=
  mk_bmtree (bm_leaf_cnt st) (bm_hash_sz st) (bm_prefix_sz st) (bm_inclusion_proof_sz st) (bm_node_buf st) v (bm_inclusion_proofs st).
Definition bm_set_proofs (st : fd_bmtree_commit_t) (p : list fd_bmtree_node_t) : fd_bmtree_commit_t :=
  mk_bmtree (bm_leaf_cnt st) (bm_hash_sz st) (bm_prefix_sz st) (bm_inclusion_proof_sz st) (bm_node_buf st) (bm_inclusion_proofs_valid st) p.

(** Array accesses. *)
Definition arr_get {A} (l : list A) (i : Z) : outcome A :=
  check OutOfBounds (0 <=? i);; match l !! Z.to_nat i with Some x => Ok x | None => Fail OutOfBounds end.
Definition arr_set {A} (l : list A) (i : Z) (x : A) : outcome (list A) :=
  check OutOfBounds ((0 <=? i) && (i <? Z.of_nat (length l)));; Ok (<[Z.to_nat i := x]> l).

Definition buf_node (st : fd_bmtree_commit_t) (layer : Z) : outcome fd_bmtree_node_t := arr_get (bm_node_buf st) layer.
Definition set_buf_node (st : fd_bmtree_commit_t) (layer : Z) (x : fd_bmtree_node_t) : outcome fd_bmtree_commit_t :=
  b ← arr_set (bm_node_buf st) layer x; Ok (bm_set_node_buf st b).
Definition proof_node (st : fd_bmtree_commit_t) (inc_idx : Z) : outcome fd_bmtree_node_t := arr_get (bm_inclusion_proofs st) inc_idx.
Definition set_proof_node (st : fd_bmtree_commit_t) (inc_idx : Z) (x : fd_bmtree_node_t) : outcome fd_bmtree_commit_t :=
  p ← arr_set (bm_inclusion_proofs st) inc_idx x; Ok (bm_set_proofs st p).
Definition merge (st : fd_bmtree_commit_t) (a b : fd_bmtree_node_t) : outcome fd_bmtree_node_t :=
  fd_bmtree_private_merge a b (bm_hash_sz st) (bm_prefix_sz st).

(** [mem] is the memory before the call: its arrays have arbitrary contents. *)
Definition fd_bmtree_commit_init (mem : fd_bmtree_commit_t) (hash_sz prefix_sz inclusion_proof_layer_cnt : Z) : fd_bmtree_commit_t :=
  let inclusion_proof_sz := u64 (Z.shiftl 1 inclusion_proof_layer_cnt) -w 1 in
  let words := Z.to_nat (1 + inclusion_proof_sz / 64) in
  mk_bmtree 0 hash_sz prefix_sz inclusion_proof_sz (bm_node_buf mem) (repeat 0 words ++ drop words (bm_inclusion_proofs_valid mem)) (bm_inclusion_proofs mem).

Definition fd_bmtree_commit_leaf_cnt (st : fd_bmtree_commit_t) : Z := bm_leaf_cnt st.

(** ** Calculation by leaves *)

(** The loop up the tree while the right node of a pair is available. *)
Fixpoint append_up (fuel : nat) (st : fd_bmtree_commit_t) (tmp : fd_bmtree_node_t) (layer inc_idx cursor : Z)
    : outcome (fd_bmtree_commit_t * fd_bmtree_node_t * Z * Z) :=
  match fuel with
  | O => Fail Diverge
  | S k =>
      if Z.odd cursor then Ok (st, tmp, layer, inc_idx) else
      st ← set_proof_node st (Z.min inc_idx (bm_inclusion_proof_sz st)) tmp;
      left ← buf_node st layer;
      tmp ← merge st left tmp;
      append_up k st tmp (layer +w 1) (inc_idx -w u64 (Z.shiftl 1 layer)) (Z.shiftr cursor 1)
  end.

Definition append_leaf (st : fd_bmtree_commit_t) (leaf : fd_bmtree_node_t) : outcome fd_bmtree_commit_t :=
  let leaf_cnt := bm_leaf_cnt st +w 1 in
  r ← append_up 64 st leaf 0 (2 *w bm_leaf_cnt st) leaf_cnt;
  let '(st, tmp, layer, inc_idx) := r in
  st ← set_buf_node st layer tmp;
  st ← set_proof_node st (Z.min inc_idx (bm_inclusion_proof_sz st)) tmp;
  Ok (bm_set_leaf_cnt st leaf_cnt).

Definition fd_bmtree_commit_append (st : fd_bmtree_commit_t) (new_leaf : list fd_bmtree_node_t) : outcome fd_bmtree_commit_t :=
  ofold append_leaf st new_leaf.

(** The index of the last of [layer_cnt] nodes of a layer. *)
Definition last_idx (layer layer_cnt : Z) : Z := u64 (Z.shiftl layer_cnt (layer + 1)) -w u64 (Z.shiftl 1 layer) -w 1.

Fixpoint fini_up (fuel : nat) (st : fd_bmtree_commit_t) (tmp : fd_bmtree_node_t) (layer layer_cnt : Z) : outcome (fd_bmtree_commit_t * fd_bmtree_node_t) :=
  match fuel with
  | O => Fail Diverge
  | S k =>
      if layer_cnt <=? 1 then Ok (st, tmp) else
      tmp2 ← (if Z.odd layer_cnt then Ok tmp else buf_node st layer);
      tmp ← merge st tmp2 tmp;
      let layer := layer +w 1 in
      let layer_cnt := Z.shiftr (layer_cnt +w 1) 1 in
      st ← set_proof_node st (Z.min (last_idx layer layer_cnt) (bm_inclusion_proof_sz st)) tmp;
      fini_up k st tmp layer layer_cnt
  end.

(** The pointer that is returned points into [node_buf]; the node it points to is
    returned with the state. *)
Definition fd_bmtree_commit_fini (st : fd_bmtree_commit_t) : outcome (fd_bmtree_commit_t * fd_bmtree_node_t) :=
  let leaf_cnt := bm_leaf_cnt st in
  let root := fd_bmtree_depth leaf_cnt -w 1 in
  st ← (if negb (fd_ulong_is_pow2 leaf_cnt) then
          let layer := fd_ulong_find_lsb leaf_cnt in
          let layer_cnt := Z.shiftr leaf_cnt layer in
          tmp ← buf_node st layer;
          r ← fini_up 64 st tmp layer layer_cnt;
          set_buf_node r.1 root r.2
        else Ok st);
  node ← buf_node st root;
  Ok (st, node).

(** ** Inclusion proofs *)

(** [None] is the return value -1; [dest] may have been written before. *)
Fixpoint get_proof_up (fuel : nat) (st : fd_bmtree_commit_t) (dest : list Z) (layer layer_cnt inc_idx : Z) : outcome (list Z * option Z) :=
  match fuel with
  | O => Fail Diverge
  | S k =>
      if layer_cnt <=? 1 then Ok (dest, Some layer) else
      let sibling_idx := Z.lxor inc_idx (u64 (Z.shiftl 1 (layer + 1))) in
      let max_idx_for_layer := fd_ulong_insert_lsb (u64 (Z.shiftl (bm_leaf_cnt st -w 1) 1)) (1 + layer) (u64 (Z.shiftl 1 layer) -w 1) in
      let sibling_idx := if max_idx_for_layer <? sibling_idx then inc_idx else sibling_idx in
      if bm_inclusion_proof_sz st <=? sibling_idx then Ok (dest, None) else
      node ← proof_node st sibling_idx;
      dest ← buf_put dest (layer *w bm_hash_sz st) (take (Z.to_nat (bm_hash_sz st)) node);
      let layer := layer +w 1 in
      get_proof_up k st dest layer (Z.shiftr (layer_cnt +w 1) 1) (fd_ulong_insert_lsb inc_idx (layer + 1) (u64 (Z.shiftl 1 layer) -w 1))
  end.

Definition fd_bmtree_get_proof (st : fd_bmtree_commit_t) (dest : list Z) (leaf_idx : Z) : outcome (list Z * option Z) :=
  if bm_leaf_cnt st <=? leaf_idx then Ok (dest, Some 0) else
  get_proof_up 64 st dest 0 (bm_leaf_cnt st) (leaf_idx *w 2).

(** The sibling is a node on the stack of which only the first [hash_sz] bytes are set. *)
Fixpoint from_proof_up (cnt : nat) (tmp : fd_bmtree_node_t) (proof : list Z) (hash_sz prefix_sz layer inc_idx : Z) : outcome fd_bmtree_node_t :=
  match cnt with
  | O => Ok tmp
  | S k =>
      sibling ← mem_read proof (layer *w hash_sz) hash_sz;
      let left := Z.land inc_idx (u64 (Z.shiftl 1 (layer + 1))) =? 0 in
      tmp ← fd_bmtree_private_merge (if left then tmp else sibling) (if left then sibling else tmp) hash_sz prefix_sz;
      from_proof_up k tmp proof hash_sz prefix_sz (layer +w 1) (fd_ulong_insert_lsb inc_idx (layer + 2) (u64 (Z.shiftl 2 layer) -w 1))
  end.

Definition fd_bmtree_from_proof (leaf : fd_bmtree_node_t) (leaf_idx : Z) (proof : list Z) (proof_depth hash_sz prefix_sz : Z) : outcome (option fd_bmtree_node_t) :=
  if proof_depth <? fd_bmtree_depth (leaf_idx +w 1) -w 1 then Ok None else
  root ← from_proof_up (Z.to_nat proof_depth) leaf proof hash_sz prefix_sz 0 (leaf_idx *w 2);
  Ok (Some root).

(** ** Calculation by proofs *)

Definition has_node (st : fd_bmtree_commit_t) (inc_idx : Z) : outcome bool :=
  w ← arr_get (bm_inclusion_proofs_valid st) (inc_idx / 64); Ok (Z.testbit w (inc_idx mod 64)).

Definition mark_node (st : fd_bmtree_commit_t) (inc_idx : Z) : outcome fd_bmtree_commit_t :=
  w ← arr_get (bm_inclusion_proofs_valid st) (inc_idx / 64);
  v ← arr_set (bm_inclusion_proofs_valid st) (inc_idx / 64) (Z.lor w (Z.shiftl 1 (inc_idx mod 64)));
  Ok (bm_set_valid st v).

(** [fd_memeq] of the first [hash_sz] bytes. *)
Definition same_hash (hash_sz : Z) (a b : fd_bmtree_node_t) : bool := bool_decide (take (Z.to_nat hash_sz) a = take (Z.to_nat hash_sz) b).

(** [HAS(inc_idx) && !fd_memeq( x, inclusion_proofs[inc_idx] )]. *)
Definition conflicts (st : fd_bmtree_commit_t) (inc_idx : Z) (x : fd_bmtree_node_t) : outcome bool :=
  h ← has_node st inc_idx;
  if negb h then Ok false else
  y ← proof_node st inc_idx;
  Ok (negb (same_hash (bm_hash_sz st) x y)).

Definition sibling_of (inc_idx layer : Z) : Z := Z.lxor inc_idx (u64 (Z.shiftl 2 layer)).
Definition parent_of (inc_idx layer : Z) : Z := fd_ulong_insert_lsb inc_idx (layer + 2) (u64 (Z.shiftl 2 layer) -w 1).
Definition is_left (inc_idx layer : Z) : bool := Z.land inc_idx (u64 (Z.shiftl 2 layer)) =? 0.

(** The loop over the proof.  [None] stands for the return of 0, after which [node_buf]
    may have changed. *)
Fixpoint proof_up (cnt : nat) (st : fd_bmtree_commit_t) (proof : list Z) (layer inc_idx : Z) : outcome (fd_bmtree_commit_t * option Z) :=
  match cnt with
  | O => Ok (st, Some inc_idx)
  | S k =>
      let sibling_idx := sibling_of inc_idx layer in
      sibling ← mem_read proof (bm_hash_sz st *w layer) (bm_hash_sz st);
      c1 ← conflicts st sibling_idx sibling;
      if (c1 : bool) then Ok (st, None) else
      node ← buf_node st layer;
      c2 ← conflicts st inc_idx node;
      if (c2 : bool) then Ok (st, None) else
      let parent_idx := parent_of inc_idx layer in
      h1 ← has_node st sibling_idx;
      h2 ← has_node st inc_idx;
      parent ← (if h1 && h2 then proof_node st parent_idx
                else merge st (if is_left inc_idx layer then node else sibling) (if is_left inc_idx layer then sibling else node));
      st ← set_buf_node st (layer +w 1) parent;
      proof_up k st proof (layer +w 1) parent_idx
  end.

(** The loop that derives nodes above the proof from siblings that are known. *)
Fixpoint known_up (fuel : nat) (st : fd_bmtree_commit_t) (layer inc_idx : Z) : outcome (fd_bmtree_commit_t * Z * Z) :=
  match fuel with
  | O => Fail Diverge
  | S k =>
      if 63 <=? layer then Ok (st, layer, inc_idx) else
      if bm_inclusion_proof_sz st <=? Z.lor inc_idx (u64 (Z.shiftl 2 layer)) then Ok (st, layer, inc_idx) else
      h ← has_node st inc_idx;
      hs ← has_node st (sibling_of inc_idx layer);
      if h || negb hs then Ok (st, layer, inc_idx) else
      sibling ← proof_node st (sibling_of inc_idx layer);
      node ← buf_node st layer;
      parent ← merge st (if is_left inc_idx layer then node else sibling) (if is_left inc_idx layer then sibling else node);
      st ← set_buf_node st (layer +w 1) parent;
      known_up k st (layer +w 1) (parent_of inc_idx layer)
  end.

(** The nodes of the branch from the leaf up are cached ... *)
Fixpoint cache_branch (cnt : nat) (st : fd_bmtree_commit_t) (i inc_idx : Z) : outcome fd_bmtree_commit_t :=
  match cnt with
  | O => Ok st
  | S k =>
      node ← buf_node st i;
      st ← set_proof_node st inc_idx node;
      st ← mark_node st inc_idx;
      cache_branch k st (i +w 1) (parent_of inc_idx i)
  end.

(** ... and then the nodes of the proof, whose other bytes stay as they are. *)
Fixpoint cache_proof (cnt : nat) (st : fd_bmtree_commit_t) (proof : list Z) (i inc_idx : Z) : outcome fd_bmtree_commit_t :=
  match cnt with
  | O => Ok st
  | S k =>
      let sibling_idx := sibling_of inc_idx i in
      sibling ← mem_read proof (bm_hash_sz st *w i) (bm_hash_sz st);
      old ← proof_node st sibling_idx;
      st ← set_proof_node st sibling_idx (sibling ++ drop (Z.to_nat (bm_hash_sz st)) old);
      st ← mark_node st sibling_idx;
      cache_proof k st proof (i +w 1) (parent_of inc_idx i)
  end.

(** [None] is the return value 0; otherwise the node for [opt_root]. *)
Definition fd_bmtree_commitp_insert_with_proof (st : fd_bmtree_commit_t) (idx : Z) (new_leaf : fd_bmtree_node_t) (proof : list Z) (proof_depth : Z)
    : outcome (fd_bmtree_commit_t * option fd_bmtree_node_t) :=
  let inc_idx := 2 *w idx in
  let inclusion_proof_sz := bm_inclusion_proof_sz st in
  if inclusion_proof_sz <=? inc_idx then Ok (st, None) else
  if (63 <? proof_depth) || (inclusion_proof_sz <=? u64 (Z.shiftl 1 proof_depth) -w 1) then Ok (st, None) else
  st ← set_buf_node st 0 new_leaf;
  r ← proof_up (Z.to_nat proof_depth) st proof 0 inc_idx;
  match r with
  | (st, None) => Ok (st, None)
  | (st, Some inc_idx) =>
      r ← known_up 64 st proof_depth inc_idx;
      let '(st, layer, inc_idx) := r in
      node ← buf_node st layer;
      c ← conflicts st inc_idx node;
      if (c : bool) then Ok (st, None) else
      st ← cache_branch (Z.to_nat layer + 1) st 0 (2 *w idx);
      st ← cache_proof (Z.to_nat proof_depth) st proof 0 (2 *w idx);
      root ← buf_node st layer;
      Ok (st, Some root)
  end.

(** The walk up from the last node of the lowest layer with an odd number of nodes. *)
Fixpoint finip_up (fuel : nat) (st : fd_bmtree_commit_t) (layer layer_cnt inc_idx : Z) : outcome (fd_bmtree_commit_t * bool) :=
  match fuel with
  | O => Fail Diverge
  | S k =>
      if layer_cnt <=? 1 then Ok (st, true) else
      h ← has_node st (sibling_of inc_idx layer);
      if negb (Z.odd layer_cnt) && negb h then Ok (st, false) else
      right ← buf_node st layer;
      left ← (if Z.odd layer_cnt then Ok right else proof_node st (sibling_of inc_idx layer));
      node ← merge st left right;
      st ← set_buf_node st (layer +w 1) node;
      let layer := layer +w 1 in
      let layer_cnt := Z.shiftr (layer_cnt +w 1) 1 in
      let inc_idx := last_idx layer layer_cnt in
      c ← conflicts st inc_idx node;
      if (c : bool) then Ok (st, false) else finip_up k st layer layer_cnt inc_idx
  end.

Fixpoint cache_path (fuel : nat) (st : fd_bmtree_commit_t) (layer layer_cnt : Z) : outcome fd_bmtree_commit_t :=
  match fuel with
  | O => Fail Diverge
  | S k =>
      if layer_cnt <=? 1 then Ok st else
      let layer := layer +w 1 in
      let layer_cnt := Z.shiftr (layer_cnt +w 1) 1 in
      node ← buf_node st layer;
      st ← set_proof_node st (last_idx layer layer_cnt) node;
      st ← mark_node st (last_idx layer layer_cnt);
      cache_path k st layer layer_cnt
  end.

(** Are the words [i], ..., [i+cnt-1] of the bit set full? *)
Fixpoint words_full (cnt : nat) (st : fd_bmtree_commit_t) (i : Z) : outcome bool :=
  match cnt with
  | O => Ok true
  | S k => w ← arr_get (bm_inclusion_proofs_valid st) i; if negb (w =? ULONG_MAX) then Ok false else words_full k st (i +w 1)
  end.

(** Are the nodes at [inc_idx], [inc_idx+step], ..., up to [max_idx] known?  A loop that
    stops at the first one that is not. *)
Fixpoint nodes_known (fuel : nat) (st : fd_bmtree_commit_t) (inc_idx max_idx step : Z) : outcome bool :=
  match fuel with
  | O => Fail Diverge
  | S k =>
      if max_idx <? inc_idx then Ok true else
      h ← has_node st inc_idx;
      if negb h then Ok false else nodes_known k st (inc_idx +w step) max_idx step
  end.

Fixpoint layers_known (fuel : nat) (st : fd_bmtree_commit_t) (leaf_cnt root_idx layer : Z) : outcome bool :=
  match fuel with
  | O => Fail Diverge
  | S k =>
      if root_idx <=? u64 (Z.shiftl 1 layer) -w 1 then Ok true else
      let low := u64 (Z.shiftl 1 layer) -w 1 in
      let min_idx_for_layer := fd_ulong_insert_lsb (64 *w ((root_idx +w 1) / 64)) (1 + layer) low in
      let max_idx_for_layer := fd_ulong_insert_lsb (u64 (Z.shiftl (leaf_cnt -w 1) 1)) (1 + layer) low in
      b ← nodes_known (64 * length (bm_inclusion_proofs_valid st) + 1) st min_idx_for_layer max_idx_for_layer (u64 (Z.shiftl 2 layer));
      if negb b then Ok false else layers_known k st leaf_cnt root_idx (layer +w 1)
  end.

(** The part of [fd_bmtree_commitp_fini] for a number of leaves that is not a power of
    two; [false] is the return of NULL. *)
Definition fini_path (st : fd_bmtree_commit_t) (leaf_cnt : Z) : outcome (fd_bmtree_commit_t * bool) :=
  let layer := fd_ulong_find_lsb leaf_cnt in
  let layer_cnt := Z.shiftr leaf_cnt layer in
  let inc_idx := last_idx layer layer_cnt in
  if bm_inclusion_proof_sz st <=? inc_idx then Ok (st, false) else
  h ← has_node st inc_idx;
  if negb h then Ok (st, false) else
  node ← proof_node st inc_idx;
  st ← set_buf_node st layer node;
  r ← finip_up 64 st layer layer_cnt inc_idx;
  if negb r.2 then Ok (r.1, false) else
  st ← cache_path 64 r.1 layer layer_cnt;
  Ok (st, true).

(** The check of [fd_bmtree_commitp_fini] that all nodes are known; [None] is the return of
    NULL. *)
Definition tail_check (st : fd_bmtree_commit_t) (leaf_cnt : Z) : outcome (option fd_bmtree_node_t) :=
  let root_idx := fd_ulong_pow2_up leaf_cnt -w 1 in
  full ← words_full (Z.to_nat ((root_idx +w 1) / 64)) st 0;
  if negb full then Ok None else
  known ← layers_known 64 st leaf_cnt root_idx 0;
  if negb known then Ok None else
  h ← has_node st root_idx;
  if negb h then Ok None else
  root ← proof_node st root_idx;
  Ok (Some root).

Definition fd_bmtree_commitp_fini (st : fd_bmtree_commit_t) (leaf_cnt : Z) : outcome (fd_bmtree_commit_t * option fd_bmtree_node_t) :=
  if leaf_cnt =? 0 then Ok (st, None) else
  r ← (if negb (fd_ulong_is_pow2 leaf_cnt) then fini_path st leaf_cnt else Ok (st, true));
  if negb r.2 then Ok (r.1, None) else
  t ← tail_check r.1 leaf_cnt;
  match t with
  | Some root => Ok (bm_set_leaf_cnt r.1 leaf_cnt, Some root)
  | None => Ok (r.1, None)
  end.
