(* ===== verification/BmtreeSpec.v ===== *)
(** * The reference Merkle tree

    The tree layer by layer, as the comment of fd_bmtree.h describes it, and the numbering
    of its nodes in the order of a complete binary search tree: node [j] of layer [l] has
    the index [idx l j].  The file relates the bit operations of [Bmtree] to this
    numbering and the array accesses to lookups. *)
From S2P Require Import Prelude VotorBase Sha256 Sha256Props Bmtree.

(** ** The tree *)

Section Tree.
Context (hs ps : Z).

(** A branch node: the hash of the prefix and the first [hs] bytes of its children. *)
Definition H (a b : fd_bmtree_node_t) : fd_bmtree_node_t :=
  Fips.SHA256 (take (Z.to_nat ps) fd_bmtree_node_prefix ++ take (Z.to_nat hs) a ++ take (Z.to_nat hs) b).

(** The layer above: a last node without a partner is paired with itself. *)
Fixpoint pair_up (xs : list fd_bmtree_node_t) : list fd_bmtree_node_t :=
  match xs with
  | a :: b :: r => H a b :: pair_up r
  | [a] => [H a a]
  | [] => []
  end.

Fixpoint layer (l : nat) (L : list fd_bmtree_node_t) : list fd_bmtree_node_t :=
  match l with
  | O => L
  | S k => pair_up (layer k L)
  end.

Definition tree_node (L : list fd_bmtree_node_t) (l j : nat) : fd_bmtree_node_t := nth j (layer l L) [].

(** The first layer with a single node holds the root. *)
Definition height (n : nat) : nat := Nat.log2_up n.
Definition merkle_root (L : list fd_bmtree_node_t) : fd_bmtree_node_t := tree_node L (height (length L)) 0.

(** A node of which the subtree is complete. *)
Fixpoint cnode (L : list fd_bmtree_node_t) (l j : nat) : fd_bmtree_node_t :=
  match l with
  | O => nth j L []
  | S k => H (cnode L k (2 * j)) (cnode L k (2 * j + 1))
  end.

Definition same (a b : fd_bmtree_node_t) : Prop := take (Z.to_nat hs) a = take (Z.to_nat hs) b.

#[export] Instance same_equiv : Equivalence same.
Proof. unfold same. split; [done|by intros a b|]. intros a b c -> ->. done. Qed.

#[export] Instance H_proper : Proper (same ==> same ==> eq) H.
Proof. intros a a' Ha b b' Hb. unfold H, same in *. by rewrite Ha, Hb. Qed.
End Tree.

(** The number of nodes of layer [l] above [n] leaves. *)
Fixpoint width (n l : nat) : nat :=
  match l with
  | O => n
  | S k => (width n k + 1) / 2
  end.

Lemma pair_up_length hs ps xs : length (pair_up hs ps xs) = ((length xs + 1) / 2)%nat.
Proof.
  assert (forall n xs, (length xs <= n)%nat -> length (pair_up hs ps xs) = ((length xs + 1) / 2)%nat) as Hn; [|by apply (Hn (length xs))].
  induction n as [|n IH]; intros [|a [|b r]] Hl; cbn [pair_up length] in *; try done; try lia. rewrite IH by lia.
  replace (S (S (length r)) + 1)%nat with (length r + 1 + 1 * 2)%nat by lia. rewrite Nat.div_add by lia. lia.
Qed.

Lemma layer_length hs ps l L : length (layer hs ps l L) = width (length L) l.
Proof. induction l as [|l IH]; cbn [layer width]; [done|]. by rewrite pair_up_length, IH. Qed.

Lemma nth_pair_up hs ps xs j : (j < length (pair_up hs ps xs))%nat ->
  nth j (pair_up hs ps xs) [] = H hs ps (nth (2 * j) xs []) (nth (if decide (2 * j + 1 < length xs)%nat then 2 * j + 1 else 2 * j)%nat xs []).
Proof.
  revert xs. induction j as [|j IH]; intros [|a [|b r]] Hj; cbn [pair_up length] in Hj; try lia.
  - done.
  - cbn [pair_up nth Nat.mul Nat.add length]. rewrite decide_True by lia. done.
  - cbn [pair_up nth]. rewrite IH by lia. replace (2 * S j)%nat with (S (S (2 * j))) by lia. cbn [nth length]. f_equal. do 2 case_decide; try lia.
    + replace (S (S (2 * j)) + 1)%nat with (S (S (2 * j + 1))) by lia. done.
    + done.
Qed.

Lemma tree_node_S hs ps L l j : (j < width (length L) (S l))%nat ->
  tree_node hs ps L (S l) j = H hs ps (tree_node hs ps L l (2 * j)) (tree_node hs ps L l (if decide (2 * j + 1 < width (length L) l)%nat then 2 * j + 1 else 2 * j)%nat).
Proof.
  intros Hj. unfold tree_node. cbn [layer]. rewrite nth_pair_up by (rewrite pair_up_length, layer_length; exact Hj). by rewrite layer_length.
Qed.

(** ** Widths *)

Lemma half_up a : (1 <= a)%nat -> ((a + 1) / 2 = 1 + (a - 1) / 2)%nat.
Proof. intros Ha. replace (a + 1)%nat with (a - 1 + 1 * 2)%nat by lia. rewrite Nat.div_add by lia. lia. Qed.

Lemma width_eq n l : (1 <= n)%nat -> width n l = (1 + (n - 1) / 2 ^ l)%nat.
Proof.
  intros Hn. induction l as [|l IH]; cbn [width]; [change (2 ^ 0)%nat with 1%nat; rewrite Nat.div_1_r; lia|]. rewrite IH, half_up by lia. f_equal.
  replace (1 + (n - 1) / 2 ^ l - 1)%nat with ((n - 1) / 2 ^ l)%nat by lia. rewrite Nat.Div0.div_div, Nat.mul_comm. done.
Qed.

Lemma pow2_pos l : (0 < 2 ^ l)%nat.
Proof. apply Nat.neq_0_lt_0, Nat.pow_nonzero. lia. Qed.

(** [j] is a node of layer [l] exactly if its first leaf is there. *)
Lemma lt_width n l j : (1 <= n)%nat -> (j < width n l)%nat <-> (j * 2 ^ l < n)%nat.
Proof.
  intros Hn. rewrite width_eq by done. pose proof (pow2_pos l). pose proof (Nat.div_mod_eq (n - 1) (2 ^ l)). pose proof (Nat.mod_upper_bound (n - 1) (2 ^ l) ltac:(lia)). nia.
Qed.

Lemma width_pos n l : (1 <= n)%nat -> (1 <= width n l)%nat.
Proof. intros Hn. rewrite width_eq by done. lia. Qed.

Lemma width_height n l : (1 <= n)%nat -> width n l = 1%nat <-> (height n <= l)%nat.
Proof.
  intros Hn. unfold height. pose proof (pow2_pos l). split.
  - intros Hw. apply Nat.log2_up_le_pow2; [lia|]. destruct (decide (n <= 2 ^ l)%nat) as [|Hgt]; [done|]. assert (1 < width n l)%nat by (apply lt_width; lia). lia.
  - intros Hl. apply Nat.log2_up_le_pow2 in Hl; [|lia]. pose proof (width_pos n l Hn). destruct (decide (1 < width n l)%nat) as [Hw|]; [|lia]. apply lt_width in Hw; lia.
Qed.

Lemma width_le n l : (width n (S l) <= width n l)%nat.
Proof. cbn [width]. destruct (width n l) as [|w]; [done|]. apply Nat.Div0.div_le_upper_bound. lia. Qed.

(** ** Complete nodes *)

Lemma cnode_app hs ps L x l j : ((j + 1) * 2 ^ l <= length L)%nat -> cnode hs ps (L ++ x) l j = cnode hs ps L l j.
Proof.
  revert j. induction l as [|l IH]; intros j Hj; cbn [cnode].
  - rewrite app_nth1; [done|]. cbn in Hj. lia.
  - pose proof (pow2_pos l). cbn [Nat.pow] in Hj. rewrite !IH by nia. done.
Qed.

Lemma cnode_tree hs ps L l j : ((j + 1) * 2 ^ l <= length L)%nat -> tree_node hs ps L l j = cnode hs ps L l j.
Proof.
  revert j. induction l as [|l IH]; intros j Hj; [done|]. pose proof (pow2_pos l). cbn [Nat.pow] in Hj. assert (1 <= length L)%nat by nia.
  rewrite tree_node_S by (apply lt_width; [done|]; cbn [Nat.pow]; nia). rewrite decide_True by (apply lt_width; nia). cbn [cnode]. rewrite !IH by nia. done.
Qed.

(** ** The numbering of the nodes *)

Definition zpow (l : nat) : Z := 2 ^ Z.of_nat l.
Definition idx (l j : nat) : Z := Z.of_nat j * zpow (S l) + zpow l - 1.

Lemma zpow_S l : zpow (S l) = 2 * zpow l.
Proof. unfold zpow. rewrite Nat2Z.inj_succ, Z.pow_succ_r by lia. done. Qed.

Lemma zpow_pos l : 0 < zpow l.
Proof. unfold zpow. apply Z.pow_pos_nonneg; lia. Qed.

Lemma zpow_nat l : zpow l = Z.of_nat (2 ^ l).
Proof. unfold zpow. by rewrite Nat2Z.inj_pow. Qed.

Lemma zpow_mono l m : (l <= m)%nat -> zpow l <= zpow m.
Proof. intros H. unfold zpow. apply Z.pow_le_mono_r; lia. Qed.

Lemma zpow_lt l m : (l < m)%nat -> zpow l < zpow m.
Proof. intros H. unfold zpow. apply Z.pow_lt_mono_r; lia. Qed.

Lemma zpow_63 l : (l <= 63)%nat -> zpow l <= 9223372036854775808.
Proof. intros Hl. change 9223372036854775808 with (zpow 63). by apply zpow_mono. Qed.

Lemma zpow_add l m : zpow (l + m) = zpow l * zpow m.
Proof. unfold zpow. rewrite Nat2Z.inj_add, Z.pow_add_r by lia. done. Qed.

Lemma shiftl1 l : (l <= 63)%nat -> u64 (Z.shiftl 1 (Z.of_nat l)) = zpow l.
Proof. intros Hl. rewrite Z.shiftl_1_l. fold (zpow l). pose proof (zpow_pos l). pose proof (zpow_63 l Hl). apply u64_small. unfold is_u64, ULONG_MAX. lia. Qed.

Lemma shiftl2 l : (l <= 62)%nat -> u64 (Z.shiftl 2 (Z.of_nat l)) = zpow (S l).
Proof.
  intros Hl. rewrite <- shiftl1 by lia. change 2 with (Z.shiftl 1 1). rewrite Z.shiftl_shiftl by lia. do 2 f_equal. lia.
Qed.

(** Replacing the low bits. *)
Lemma lor_low q k r : 0 <= k -> 0 <= r < 2 ^ k -> Z.lor (Z.shiftl q k) r = q * 2 ^ k + r.
Proof.
  intros Hk Hr. rewrite <- Z.shiftl_mul_pow2 by done. assert (Z.land (Z.shiftl q k) r = 0) as E.
  { apply Z.bits_inj'. intros i Hi. rewrite Z.land_spec, Z.bits_0. destruct (Z.ltb_spec i k).
    - by rewrite Z.shiftl_spec_low by lia.
    - assert (Z.testbit r i = false) as ->; [|apply andb_false_r]. destruct (decide (r = 0)) as [->|]; [apply Z.bits_0|]. apply Z.bits_above_log2; [lia|].
      apply Z.log2_lt_pow2; [lia|]. eapply Z.lt_le_trans; [apply Hr|]. apply Z.pow_le_mono_r; lia. }
  rewrite <- Z.lxor_lor by done. by rewrite Z.add_nocarry_lxor.
Qed.

Lemma insert_lsb_eq x n y : 0 <= n -> 0 <= y < 2 ^ n -> fd_ulong_insert_lsb x n y = x / 2 ^ n * 2 ^ n + y.
Proof. intros Hn Hy. unfold fd_ulong_insert_lsb. rewrite Z.ldiff_ones_r, lor_low, Z.shiftr_div_pow2 by lia. done. Qed.

Lemma idx_div l j : idx l j / zpow (S l) = Z.of_nat j.
Proof. unfold idx. rewrite zpow_S. pose proof (zpow_pos l). replace (Z.of_nat j * (2 * zpow l) + zpow l - 1) with (Z.of_nat j * (2 * zpow l) + (zpow l - 1)) by lia. rewrite Z.div_add_l, Z.div_small by lia. lia. Qed.

Lemma idx_range l j : 0 <= idx l j.
Proof. unfold idx. pose proof (zpow_pos l). pose proof (zpow_pos (S l)). nia. Qed.

Lemma idx_0 j : idx 0 j = 2 * Z.of_nat j.
Proof. unfold idx. change (zpow 1) with 2. change (zpow 0) with 1. lia. Qed.

Lemma idx_insert l m j : (l <= m)%nat -> (m <= 62)%nat -> fd_ulong_insert_lsb (idx l j) (1 + Z.of_nat m) (zpow m - 1) = idx m (j / 2 ^ (m - l)).
Proof.
  intros Hl Hm. replace (1 + Z.of_nat m) with (Z.of_nat (S m)) by lia. pose proof (zpow_pos m). rewrite insert_lsb_eq; [|lia|fold (zpow (S m)); rewrite zpow_S; lia]. fold (zpow (S m)).
  assert (idx l j / zpow (S m) = Z.of_nat (j / 2 ^ (m - l))) as ->; [|unfold idx; lia].
  replace (S m) with (S l + (m - l))%nat at 1 by lia. rewrite zpow_add. rewrite <- Z.div_div by (pose proof (zpow_pos (S l)); pose proof (zpow_pos (m - l)); lia). rewrite idx_div, zpow_nat. by rewrite Nat2Z.inj_div.
Qed.

Lemma parent_idx l j : (l <= 61)%nat -> parent_of (idx l j) (Z.of_nat l) = idx (S l) (j / 2).
Proof.
  intros Hl. unfold parent_of. rewrite shiftl2, u64_sub_small by (lia || (pose proof (zpow_pos (S l)); pose proof (zpow_63 (S l) ltac:(lia)); unfold is_u64, ULONG_MAX; lia)).
  replace (Z.of_nat l + 2) with (1 + Z.of_nat (S l)) by lia. rewrite idx_insert by lia. by replace (S l - l)%nat with 1%nat by lia.
Qed.

(** The partner of a node. *)
Definition sib (j : nat) : nat := if Nat.even j then (j + 1)%nat else (j - 1)%nat.

Lemma even_cases j : (Nat.even j = true /\ j = 2 * (j / 2) /\ sib j = j + 1)%nat \/ (Nat.even j = false /\ j = 2 * (j / 2) + 1 /\ sib j = j - 1)%nat.
Proof.
  unfold sib. destruct (Nat.even j) eqn:E; [left|right].
  - apply Nat.even_spec in E as [k ->]. rewrite (Nat.mul_comm 2 k), Nat.div_mul by lia. lia.
  - rewrite <- Nat.negb_odd in E. apply negb_false_iff, Nat.odd_spec in E as [k ->]. rewrite Nat.add_comm, (Nat.mul_comm 2 k), Nat.div_add by lia. change (1 / 2)%nat with 0%nat. lia.
Qed.

Lemma sib_half j : (sib j / 2 = j / 2)%nat.
Proof.
  destruct (even_cases j) as [(_ & E & ->)|(_ & E & ->)]; rewrite E at 1.
  - rewrite (Nat.mul_comm 2), Nat.add_comm, Nat.div_add by lia. done.
  - rewrite Nat.add_sub, (Nat.mul_comm 2), Nat.div_mul by lia. done.
Qed.

Lemma sib_sib j : sib (sib j) = j.
Proof. destruct (even_cases j) as [(_ & E & Es)|(_ & E & Es)], (even_cases (sib j)) as [(_ & E' & ->)|(_ & E' & ->)]; rewrite sib_half in *; lia. Qed.

Lemma idx_lor l j : idx l j = Z.lxor (Z.shiftl (Z.of_nat j) (Z.of_nat (S l))) (zpow l - 1).
Proof.
  pose proof (zpow_pos l). pose proof (zpow_S l). assert (0 <= zpow l - 1 < 2 ^ Z.of_nat (S l)) by (fold (zpow (S l)); lia).
  rewrite Z.lxor_lor.
  - rewrite lor_low by lia. unfold idx. fold (zpow (S l)). lia.
  - apply Z.bits_inj'. intros i Hi. rewrite Z.land_spec, Z.bits_0. unfold zpow. replace (2 ^ Z.of_nat l - 1) with (Z.ones (Z.of_nat l)) by (rewrite Z.ones_equiv; lia).
    destruct (Z.ltb_spec i (Z.of_nat (S l))); [by rewrite Z.shiftl_spec_low by lia|]. rewrite Z.ones_spec_high by lia. apply andb_false_r.
Qed.

Lemma lxor_even k : Z.lxor (Z.of_nat (2 * k)) 1 = Z.of_nat (2 * k + 1).
Proof.
  replace (Z.of_nat (2 * k)) with (Z.shiftl (Z.of_nat k) 1) by (rewrite Z.shiftl_mul_pow2 by lia; lia). rewrite Z.lxor_lor; [rewrite lor_low by lia; lia|].
  apply Z.bits_inj'. intros i Hi. rewrite Z.land_spec, Z.bits_0. destruct (Z.ltb_spec i 1); [by rewrite Z.shiftl_spec_low by lia|].
  change 1 with (2 ^ 0) at 2. rewrite Z.pow2_bits_false by lia. apply andb_false_r.
Qed.

Lemma lxor_one j : Z.lxor (Z.of_nat j) 1 = Z.of_nat (sib j).
Proof.
  destruct (even_cases j) as [(_ & E & ->)|(_ & E & ->)].
  - by rewrite E, lxor_even.
  - rewrite E at 1. rewrite <- lxor_even, Z.lxor_assoc, Z.lxor_nilpotent, Z.lxor_0_r. f_equal. lia.
Qed.

Lemma lxor_pow_idx l j : Z.lxor (idx l j) (zpow (S l)) = idx l (sib j).
Proof.
  rewrite !idx_lor. rewrite Z.lxor_assoc, (Z.lxor_comm (zpow l - 1)), <- Z.lxor_assoc. f_equal. unfold zpow. rewrite <- Z.shiftl_1_l, <- Z.shiftl_lxor. by rewrite lxor_one.
Qed.

Lemma sibling_idx l j : (l <= 62)%nat -> sibling_of (idx l j) (Z.of_nat l) = idx l (sib j).
Proof. intros Hl. unfold sibling_of. by rewrite shiftl2, lxor_pow_idx by done. Qed.

Lemma testbit_idx l j : Z.testbit (idx l j) (Z.of_nat (S l)) = negb (Nat.even j).
Proof.
  rewrite Z.testbit_odd, Z.shiftr_div_pow2 by lia. fold (zpow (S l)). rewrite idx_div, Nat.negb_even. destruct (even_cases j) as [(E & Ej & _)|(E & Ej & _)].
  - rewrite <- Nat.negb_even, E. rewrite Ej, Nat2Z.inj_mul. change (Z.of_nat 2) with 2. by rewrite Z.odd_mul.
  - rewrite <- Nat.negb_even, E. rewrite Ej, Nat2Z.inj_add, Nat2Z.inj_mul. change (Z.of_nat 2) with 2. change (Z.of_nat 1) with 1. rewrite Z.odd_add, Z.odd_mul. done.
Qed.

Lemma land_pow_idx l j : (Z.land (idx l j) (zpow (S l)) =? 0) = Nat.even j.
Proof.
  pose proof (testbit_idx l j) as Hb. unfold zpow. destruct (Nat.even j); apply Z.eqb_eq || apply Z.eqb_neq.
  - apply Z.bits_inj'. intros i Hi. rewrite Z.land_spec, Z.bits_0. destruct (Z.eqb_spec i (Z.of_nat (S l))) as [->|]; [by rewrite Hb|]. rewrite Z.pow2_bits_false by lia. apply andb_false_r.
  - intros E. assert (Z.testbit (Z.land (idx l j) (2 ^ Z.of_nat (S l))) (Z.of_nat (S l)) = true) as Hx; [|by rewrite E, Z.bits_0 in Hx]. rewrite Z.land_spec, Hb, Z.pow2_bits_true by lia. done.
Qed.

Lemma is_left_idx l j : (l <= 62)%nat -> is_left (idx l j) (Z.of_nat l) = Nat.even j.
Proof. intros Hl. unfold is_left. by rewrite shiftl2, land_pow_idx. Qed.

Lemma lor_pow_idx l j : Z.lor (idx l j) (zpow (S l)) = idx l (2 * (j / 2) + 1).
Proof.
  pose proof (land_pow_idx l j) as El. destruct (even_cases j) as [(Ev & E & Es)|(Ev & E & Es)]; rewrite Ev in El.
  - apply Z.eqb_eq in El. rewrite <- Z.lxor_lor by done. rewrite lxor_pow_idx, Es. f_equal. lia.
  - rewrite <- E. apply Z.bits_inj'. intros b Hb. rewrite Z.lor_spec. unfold zpow. destruct (Z.eqb_spec b (Z.of_nat (S l))) as [->|]; [by rewrite testbit_idx, Ev|]. rewrite Z.pow2_bits_false by lia. apply orb_false_r.
Qed.

Lemma idx_inj l j m k : idx l j = idx m k -> l = m /\ j = k.
Proof.
  assert (forall l j m k, (l < m)%nat -> idx l j <> idx m k) as Hne.
  { clear. intros l j m k Hlt E. unfold idx in E. rewrite !zpow_S in E. replace m with (l + S (m - l - 1))%nat in E by lia. rewrite zpow_add, zpow_S in E.
    pose proof (zpow_pos l). set (r := zpow (m - l - 1)) in *. assert (zpow l * (2 * Z.of_nat j + 1) = zpow l * (2 * (r * (2 * Z.of_nat k + 1)))) as E' by lia. apply Z.mul_reg_l in E'; lia. }
  intros E. destruct (lt_eq_lt_dec l m) as [[Hlt|<-]|Hgt].
  - by apply Hne in E.
  - split; [done|]. unfold idx in E. pose proof (zpow_pos (S l)). assert (Z.of_nat j * zpow (S l) = Z.of_nat k * zpow (S l)) as E' by lia. apply Z.mul_reg_r in E'; lia.
  - symmetry in E. by apply Hne in E.
Qed.

Lemma idx_bound l j n : (l < n)%nat -> idx l j < zpow n - 1 <-> (j < 2 ^ (n - 1 - l))%nat.
Proof.
  intros Hl. assert (zpow n = zpow (n - 1 - l) * zpow (S l)) as -> by (rewrite <- zpow_add; f_equal; lia). rewrite Nat2Z.inj_lt, <- zpow_nat. unfold idx. rewrite zpow_S.
  pose proof (zpow_pos l). pose proof (zpow_pos (n - 1 - l)). nia.
Qed.

Lemma idx_high l j n : (n <= l)%nat -> zpow n - 1 <= idx l j.
Proof. intros Hl. unfold idx. pose proof (zpow_mono n l Hl). pose proof (zpow_pos (S l)). nia. Qed.

Lemma idx_parent_bound l j n : (S l < n)%nat -> idx l j < zpow n - 1 -> idx (S l) (j / 2) < zpow n - 1.
Proof.
  intros Hl Hj. apply idx_bound in Hj; [|lia]. apply idx_bound; [lia|]. replace (n - 1 - l)%nat with (S (n - 1 - S l)) in Hj by lia. cbn [Nat.pow] in Hj. apply Nat.Div0.div_lt_upper_bound. lia.
Qed.

Lemma idx_sib_bound l j n : (S l < n)%nat -> idx l j < zpow n - 1 -> idx l (sib j) < zpow n - 1.
Proof.
  intros Hl Hj. apply idx_bound in Hj; [|lia]. apply idx_bound; [lia|]. replace (n - 1 - l)%nat with (S (n - 1 - S l)) in * by lia. cbn [Nat.pow] in *.
  destruct (even_cases j) as [(_ & E & ->)|(_ & E & ->)]; lia.
Qed.

Lemma idx_u64 l j n : (n <= 63)%nat -> idx l j < zpow n - 1 -> is_u64 (idx l j).
Proof. intros Hn Hj. pose proof (zpow_63 n Hn). pose proof (idx_range l j). unfold is_u64, ULONG_MAX. lia. Qed.

Lemma last_idx_eq l w : (1 <= w)%nat -> (l <= 62)%nat -> Z.of_nat w * zpow (S l) < 18446744073709551616 -> last_idx (Z.of_nat l) (Z.of_nat w) = idx l (w - 1).
Proof.
  intros Hw Hl Hb. unfold last_idx. rewrite shiftl1 by lia. replace (Z.of_nat l + 1) with (Z.of_nat (S l)) by lia. rewrite Z.shiftl_mul_pow2 by lia. fold (zpow (S l)).
  pose proof (zpow_pos l). pose proof (zpow_S l). rewrite u64_small by (unfold is_u64, ULONG_MAX; nia). rewrite !u64_sub_small; unfold is_u64, ULONG_MAX in *; rewrite ?u64_sub_small; unfold idx, is_u64, ULONG_MAX; nia.
Qed.

(** ** Powers of two *)

Lemma odd_part n : (1 <= n)%nat -> exists l d, (n = (2 * d + 1) * 2 ^ l)%nat.
Proof.
  induction n as [n IH] using lt_wf_ind. intros Hn. destruct (even_cases n) as [(_ & E & _)|(_ & E & _)].
  - destruct (IH (n / 2)%nat ltac:(lia) ltac:(lia)) as (l & d & Ed). exists (S l), d. rewrite E, Ed. cbn [Nat.pow]. lia.
  - exists 0%nat, (n / 2)%nat. change (2 ^ 0)%nat with 1%nat. lia.
Qed.

Lemma land_split q k a b : 0 <= k -> 0 <= a < 2 ^ k -> 0 <= b < 2 ^ k -> Z.land (q * 2 ^ k + a) (q * 2 ^ k + b) = q * 2 ^ k + Z.land a b.
Proof.
  intros Hk Ha Hb. assert (0 <= Z.land a b < 2 ^ k) as Hab.
  { split; [apply Z.land_nonneg; lia|]. destruct (decide (Z.land a b = 0)) as [->|Hn0]; [lia|]. assert (0 <= Z.land a b) by (apply Z.land_nonneg; lia). apply Z.log2_lt_pow2; [lia|].
    pose proof (Z.log2_land a b ltac:(lia) ltac:(lia)). destruct (decide (a = 0)) as [->|]; [done|]. assert (Z.log2 a < k) by (apply Z.log2_lt_pow2; lia). lia. }
  rewrite <- !lor_low by done. apply Z.bits_inj'. intros i Hi. rewrite !Z.land_spec, !Z.lor_spec, Z.land_spec. by destruct (Z.testbit (Z.shiftl q k) i), (Z.testbit a i), (Z.testbit b i).
Qed.

Lemma land_pow_ones l : Z.land (zpow l) (zpow l - 1) = 0.
Proof. unfold zpow. replace (2 ^ Z.of_nat l - 1) with (Z.ones (Z.of_nat l)) by (rewrite Z.ones_equiv; lia). rewrite Z.land_ones by lia. apply Z_mod_same_full. Qed.

Lemma is_pow2_odd l d : Z.of_nat ((2 * d + 1) * 2 ^ l) <= ULONG_MAX -> fd_ulong_is_pow2 (Z.of_nat ((2 * d + 1) * 2 ^ l)) = Nat.eqb d 0.
Proof.
  intros Hb. unfold fd_ulong_is_pow2. pose proof (zpow_pos l). pose proof (zpow_S l). replace (Z.of_nat ((2 * d + 1) * 2 ^ l)) with (Z.of_nat d * zpow (S l) + zpow l) in * by (rewrite zpow_S, zpow_nat; lia).
  rewrite u64_sub_small by (unfold is_u64; nia). replace (_ =? 0) with false by nia. cbn [negb andb]. replace (Z.of_nat d * zpow (S l) + zpow l - 1) with (Z.of_nat d * zpow (S l) + (zpow l - 1)) by lia.
  unfold zpow at 1 3. rewrite land_split by (lia || (fold (zpow (S l)); lia)). rewrite land_pow_ones. fold (zpow (S l)). destruct (Nat.eqb_spec d 0) as [->|]; [done|]. apply Z.eqb_neq. nia.
Qed.

Lemma find_lsb_odd l d : fd_ulong_find_lsb (Z.of_nat ((2 * d + 1) * 2 ^ l)) = Z.of_nat l.
Proof.
  unfold fd_ulong_find_lsb. pose proof (zpow_pos l). replace (Z.of_nat ((2 * d + 1) * 2 ^ l)) with (Z.of_nat d * zpow (S l) + zpow l) by (rewrite zpow_S, zpow_nat; lia). set (x := _ + zpow l).
  assert (Z.land x (- x) = zpow l) as ->; [|unfold zpow; apply Z.log2_pow2; lia].
  replace (- x) with (Z.lnot (x - 1)) by (unfold Z.lnot; lia). rewrite <- Z.ldiff_land. unfold x. replace (Z.of_nat d * zpow (S l) + zpow l - 1) with (Z.of_nat d * zpow (S l) + (zpow l - 1)) by lia.
  pose proof (zpow_S l). change (zpow (S l)) with (2 ^ Z.of_nat (S l)) in |- *. rewrite <- !lor_low by (lia || (fold (zpow (S l)); lia)). apply Z.bits_inj'. intros i Hi. rewrite Z.ldiff_spec, !Z.lor_spec.
  assert (Z.testbit (zpow l) i && Z.testbit (zpow l - 1) i = false) as Hz by (rewrite <- Z.land_spec, land_pow_ones; apply Z.bits_0).
  destruct (Z.testbit (Z.shiftl _ _) i) eqn:Es, (Z.testbit (zpow l) i) eqn:Ep, (Z.testbit (zpow l - 1) i); try done.
  all: exfalso; unfold zpow in Ep; destruct (Z.eqb_spec i (Z.of_nat l)) as [->|]; [|by rewrite Z.pow2_bits_false in Ep by lia]; by rewrite Z.shiftl_spec_low in Es by lia.
Qed.

Lemma height_spec n : (1 <= n)%nat -> (n <= 2 ^ height n)%nat /\ (1 < n -> 2 ^ (height n - 1) < n)%nat.
Proof.
  intros Hn. unfold height. split; [by apply Nat.log2_up_le_pow2|]. intros Hn'. pose proof (Nat.log2_up_spec n Hn') as [Hl _]. replace (Nat.log2_up n - 1)%nat with (Nat.pred (Nat.log2_up n)) by lia. done.
Qed.

Lemma height_le n h : (1 <= n)%nat -> (n <= 2 ^ h)%nat -> (height n <= h)%nat.
Proof. intros Hn Hh. unfold height. apply Nat.log2_up_le_pow2; [lia|done]. Qed.

Lemma height_le_z n h : (1 <= n)%nat -> Z.of_nat n <= zpow h -> (height n <= h)%nat.
Proof. rewrite zpow_nat, <- Nat2Z.inj_le. apply height_le. Qed.

(** The largest number of leaves the theorems are about. *)
Definition leaf_max : Z := 4611686018427387904.

Lemma height_62 n : (1 <= n)%nat -> Z.of_nat n <= leaf_max -> (height n <= 62)%nat.
Proof. intros Hn Hb. apply height_le_z; [done|]. exact Hb. Qed.

Lemma depth_height n : (1 <= n)%nat -> Z.of_nat n <= ULONG_MAX -> fd_bmtree_depth (Z.of_nat n) = Z.of_nat (height n) + 1.
Proof.
  intros Hn Hb. unfold fd_bmtree_depth. destruct (Z.leb_spec (Z.of_nat n) 1) as [|Hgt]; [by replace n with 1%nat by lia|].
  rewrite u64_sub_small by (unfold is_u64, ULONG_MAX in *; lia). unfold fd_ulong_find_msb_w_default. replace (Z.of_nat n - 1 =? 0) with false by lia.
  unfold height, Nat.log2_up. replace (1 ?= n)%nat with Lt by (symmetry; apply Nat.compare_lt_iff; lia). assert (Z.log2 (Z.of_nat n - 1) = Z.of_nat (Nat.log2 (Nat.pred n))) as ->.
  { replace (Z.of_nat n - 1) with (Z.of_nat (Nat.pred n)) by lia. pose proof (Nat.log2_spec (Nat.pred n) ltac:(lia)) as [Hlo Hhi]. apply Z.log2_unique; [lia|].
    replace (Z.succ (Z.of_nat (Nat.log2 (Nat.pred n)))) with (Z.of_nat (S (Nat.log2 (Nat.pred n)))) by lia. rewrite <- !(Nat2Z.inj_pow 2). lia. }
  assert (Nat.log2 (Nat.pred n) < 64)%nat. { apply Nat.log2_lt_pow2; [lia|]. apply Nat2Z.inj_lt. rewrite <- zpow_nat. change (zpow 64) with 18446744073709551616. unfold ULONG_MAX in Hb. lia. }
  rewrite u64_add_small by (unfold is_u64, ULONG_MAX; lia). lia.
Qed.

Lemma log2_height n m : (2 ^ m < n <= 2 ^ S m)%nat -> height n = S m.
Proof.
  intros [Hlo Hhi]. assert (height n <= S m)%nat by (apply height_le; lia). destruct (decide (height n <= m)%nat) as [Hle|]; [|lia].
  pose proof (pow2_pos m). destruct (height_spec n ltac:(lia)) as [Hs _]. pose proof (Nat.pow_le_mono_r 2 _ _ ltac:(lia) Hle). lia.
Qed.

(** Bit smearing finds the next power of two. *)
Lemma smear_step y k s : 0 < k -> (forall i, 0 <= i -> Z.testbit s i = true <-> exists d, 0 <= d < k /\ Z.testbit y (i + d) = true) ->
  forall i, 0 <= i -> Z.testbit (Z.lor s (Z.shiftr s k)) i = true <-> exists d, 0 <= d < 2 * k /\ Z.testbit y (i + d) = true.
Proof.
  intros Hk Hs i Hi. rewrite Z.lor_spec, Z.shiftr_spec, orb_true_iff, !Hs by lia. split.
  - intros [(d & Hd & Hb)|(d & Hd & Hb)]; [exists d|exists (k + d)]; (split; [lia|]); [done|]. by rewrite Z.add_assoc.
  - intros (d & Hd & Hb). destruct (decide (d < k)); [left; exists d|right; exists (d - k)]; (split; [lia|]); [done|]. by replace (i + k + (d - k)) with (i + d) by lia.
Qed.

Lemma pow2_up_height n : (1 <= n)%nat -> Z.of_nat n <= leaf_max -> fd_ulong_pow2_up (Z.of_nat n) = zpow (height n).
Proof.
  intros Hn Hb. unfold fd_ulong_pow2_up. pose proof (height_62 n Hn Hb) as Hh62. unfold leaf_max in Hb.
  rewrite u64_sub_small by (unfold is_u64, ULONG_MAX; lia). destruct (decide (n = 1)%nat) as [->|Hne]; [done|]. set (y := Z.of_nat n - 1).
  assert (forall i, 0 <= i -> Z.testbit y i = true <-> exists d, 0 <= d < 1 /\ Z.testbit y (i + d) = true) as H1.
  { intros i Hi. split; [intros E; exists 0; rewrite Z.add_0_r; split; [lia|done]|]. intros (d & Hd & E). replace d with 0 in E by lia. by rewrite Z.add_0_r in E. }
  pose proof (smear_step y 1 _ ltac:(lia) H1) as H2. pose proof (smear_step y 2 _ ltac:(lia) H2) as H4. pose proof (smear_step y 4 _ ltac:(lia) H4) as H8. pose proof (smear_step y 8 _ ltac:(lia) H8) as H16.
  pose proof (smear_step y 16 _ ltac:(lia) H16) as H32. pose proof (smear_step y 32 _ ltac:(lia) H32) as H64. cbv zeta. clear H1 H2 H4 H8 H16 H32. set (s := Z.lor _ (Z.shiftr _ 32)) in *.
  assert (exists m, height n = S m /\ Z.log2 y = Z.of_nat m) as (m & Em & El).
  { exists (height n - 1)%nat. destruct (height_spec n Hn) as [Hh Hl]. specialize (Hl ltac:(lia)). assert (1 <= height n)%nat by (destruct (height n); [cbn in *; lia|lia]). split; [lia|]. apply Z.log2_unique; [lia|].
    replace (Z.succ (Z.of_nat (height n - 1))) with (Z.of_nat (height n)) by lia. fold (zpow (height n - 1)) (zpow (height n)). rewrite !zpow_nat. unfold y. lia. }
  assert (s = zpow (height n) - 1) as ->.
  { apply Z.bits_inj'. intros i Hi. unfold zpow. replace (2 ^ Z.of_nat (height n) - 1) with (Z.ones (Z.of_nat (height n))) by (rewrite Z.ones_equiv; lia).
    destruct (Z.ltb_spec i (Z.of_nat (height n))) as [Hlt|Hge].
    - rewrite Z.ones_spec_low by lia. apply H64; [done|]. exists (Z.of_nat m - i). split; [lia|]. rewrite Zplus_minus, <- El. apply Z.bit_log2. lia.
    - rewrite Z.ones_spec_high by lia. apply not_true_iff_false. intros (d & Hd & E)%H64; [|done]. rewrite Z.bits_above_log2 in E by lia. done. }
  pose proof (zpow_pos (height n)). pose proof (zpow_63 (height n) ltac:(lia)). rewrite u64_add_small by (unfold is_u64, ULONG_MAX; lia). lia.
Qed.

(** ** Arrays *)

Definition zat (l : list fd_bmtree_node_t) (i : Z) : fd_bmtree_node_t := nth (Z.to_nat i) l [].

Lemma arr_get_z l i : 0 <= i < Z.of_nat (length l) -> arr_get l i = Ok (zat l i).
Proof. intros Hi. unfold arr_get, zat. replace (0 <=? i) with true by lia. cbn [check mbind outcome_bind]. destruct (nth_lookup_or_length l (Z.to_nat i) []) as [->|]; [done|lia]. Qed.

Lemma arr_set_z {A} (l : list A) i x : 0 <= i < Z.of_nat (length l) -> arr_set l i x = Ok (<[Z.to_nat i := x]> l).
Proof. intros Hi. unfold arr_set. replace (0 <=? i) with true by lia. by replace (i <? Z.of_nat (length l)) with true by lia. Qed.

Lemma zat_insert l i x k : 0 <= i < Z.of_nat (length l) -> 0 <= k -> zat (<[Z.to_nat i := x]> l) k = if decide (k = i) then x else zat l k.
Proof.
  intros Hi Hk. unfold zat. rewrite !nth_lookup. case_decide as E.
  - subst. by rewrite list_lookup_insert_eq by lia.
  - by rewrite list_lookup_insert_ne by lia.
Qed.

Definition node_ok (x : fd_bmtree_node_t) : Prop := length x = 32%nat /\ Forall is_byte x.

Lemma zat_ok l i : Forall node_ok l -> 0 <= i < Z.of_nat (length l) -> node_ok (zat l i).
Proof. intros Hl Hi. unfold zat. rewrite Forall_forall in Hl. apply Hl. destruct (nth_lookup_or_length l (Z.to_nat i) []) as [E|]; [|lia]. by eapply list_elem_of_lookup_2. Qed.

Lemma nodes_insert l i x : Forall node_ok l -> node_ok x -> Forall node_ok (<[i := x]> l).
Proof. intros. by apply Forall_insert. Qed.

(** ** Hashing *)

Lemma H_ok hs ps a b : node_ok (H hs ps a b).
Proof. split; [apply SHA256_length|apply SHA256_bytes]. Qed.

Lemma prefix_bytes : Forall is_byte fd_bmtree_node_prefix /\ Forall is_byte fd_bmtree_leaf_prefix.
Proof. split; repeat constructor; unfold is_byte; lia. Qed.

(** [hash_sz] and [prefix_sz] as the header allows them. *)
Definition sizes_ok (hs ps : Z) : Prop := 0 <= hs <= 32 /\ 0 <= ps <= 32.

Lemma merge_ok hs ps a b : sizes_ok hs ps -> Forall is_byte a -> Forall is_byte b -> fd_bmtree_private_merge a b hs ps = Ok (H hs ps a b).
Proof.
  intros [Hh Hp] Ha Hb. unfold H. set (p := take (Z.to_nat ps) fd_bmtree_node_prefix). set (a' := take (Z.to_nat hs) a). set (b' := take (Z.to_nat hs) b).
  pose proof (streaming_ok sha_stack [p; a'; b'] eq_refl) as E. cbn [concat] in E. rewrite app_nil_r in E. refine (eq_trans _ (E _ _)); clear E.
  - unfold fd_bmtree_private_merge. fold p a' b'. cbn [ofold]. destruct (fd_sha256_append (fd_sha256_init sha_stack) p) as [s1|]; cbn [mbind outcome_bind]; [|done].
    destruct (fd_sha256_append s1 a') as [s2|]; cbn [mbind outcome_bind]; [|done]. by destruct (fd_sha256_append s2 b').
  - rewrite !Forall_app. split_and!; apply Forall_take; [apply prefix_bytes|done|done].
  - rewrite !length_app. unfold p, a', b', ULONG_MAX. rewrite !length_take. lia.
Qed.

Lemma buf_put_z buf off bytes : 0 <= off -> off + Z.of_nat (length bytes) <= Z.of_nat (length buf) ->
  buf_put buf off bytes = Ok (take (Z.to_nat off) buf ++ bytes ++ drop (Z.to_nat off + length bytes) buf).
Proof. intros H0 H1. rewrite <- (Z2Nat.id off) at 1 by done. apply buf_put_ok. lia. Qed.

(** The two variants of the merge agree. *)
Lemma merge_avx_ok mem stack a b hs ps : sizes_ok hs ps -> length mem = 96%nat -> length stack = 64%nat -> node_ok a -> node_ok b -> fd_bmtree_private_merge_avx mem stack a b hs ps = Ok (H hs ps a b).
Proof.
  intros [Hh Hp] Hm Hst [La Ba] [Lb Bb]. unfold fd_bmtree_private_merge_avx. change (length fd_bmtree_node_prefix) with 32%nat. set (pre := fd_bmtree_node_prefix). assert (length pre = 32%nat) as Lp by done.
  rewrite buf_put_z by lia. cbn [mbind outcome_bind]. change (Z.to_nat 0) with 0%nat. rewrite take_0, app_nil_l, Lp. rewrite buf_put_z by (rewrite ?length_app, ?length_drop; lia). cbn [mbind outcome_bind]. rewrite La.
  rewrite (u64_add_small ps hs) by (unfold is_u64, ULONG_MAX; lia). set (m1 := _ ++ a ++ _). assert (length m1 = 96%nat) as L1 by (unfold m1; rewrite !length_app, length_take, !length_drop, length_app, length_drop; lia).
  rewrite buf_put_z by lia. cbn [mbind outcome_bind]. rewrite Lb. set (m2 := _ ++ b ++ _). assert (length m2 = 96%nat) as L2 by (unfold m2; rewrite !length_app, length_take, length_drop; lia).
  unfold mem_read. unfold u64_mul. rewrite (u64_small (2 * hs)), u64_add_small by (unfold is_u64, ULONG_MAX; lia). replace (_ && _ && _) with true by (symmetry; rewrite !andb_true_iff, !Z.leb_le; lia). cbn [check mbind outcome_bind]. change (Z.to_nat 0) with 0%nat. rewrite drop_0.
  assert (take (Z.to_nat (ps + 2 * hs)) m2 = take (Z.to_nat ps) pre ++ take (Z.to_nat hs) a ++ take (Z.to_nat hs) b) as ->.
  { unfold m2. replace (Z.to_nat (ps + 2 * hs)) with (Z.to_nat (ps + hs) + Z.to_nat hs)%nat by lia. rewrite take_app_add' by (rewrite length_take; lia). rewrite take_app_le by lia. rewrite app_assoc. f_equal.
    unfold m1. replace (Z.to_nat (ps + hs)) with (Z.to_nat ps + Z.to_nat hs)%nat by lia. rewrite take_app_add' by (rewrite length_take, length_app, length_drop; lia). rewrite take_app_le by lia. f_equal. by rewrite take_app_le by lia. }
  unfold H. apply hash_ok; [done| |].
  - rewrite !Forall_app. split_and!; apply Forall_take; [apply prefix_bytes|done|done].
  - rewrite !length_app, !length_take. unfold ULONG_MAX. lia.
Qed.

Lemma hash_leaf_ok data ps : 0 <= ps <= 32 -> Forall is_byte data -> 8 * (Z.of_nat (length data) + 32) <= ULONG_MAX ->
  fd_bmtree_hash_leaf data ps = Ok (Fips.SHA256 (take (Z.to_nat ps) fd_bmtree_leaf_prefix ++ data)).
Proof.
  intros Hp Hd Hl. set (p := take (Z.to_nat ps) fd_bmtree_leaf_prefix). pose proof (streaming_ok sha_stack [p; data] eq_refl) as E. cbn [concat] in E. rewrite app_nil_r in E. refine (eq_trans _ (E _ _)); clear E.
  - unfold fd_bmtree_hash_leaf. fold p. cbn [ofold]. destruct (fd_sha256_append (fd_sha256_init sha_stack) p) as [s1|]; cbn [mbind outcome_bind]; [|done]. by destruct (fd_sha256_append s1 data).
  - rewrite !Forall_app. split; [apply Forall_take, prefix_bytes|done].
  - rewrite !length_app. unfold p. rewrite !length_take. change (length fd_bmtree_leaf_prefix) with 32%nat. lia.
Qed.
