(* ===== verification/BmtreeLeaves.v ===== *)
(** * Merkle trees from leaves

    The calculation by leaves computes the reference tree of [BmtreeSpec]: [node_buf] holds
    the last left node of every layer, the store holds the complete nodes, and finishing
    adds the nodes above an odd number of nodes.  Inclusion proofs read from the store lead
    back to the root. *)
From S2P Require Import Prelude VotorBase Sha256 Sha256Props Bmtree BmtreeSpec.

(** ** The state *)

Record bm_ok (hs ps : Z) (n : nat) (st : fd_bmtree_commit_t) : Prop := mk_bm_ok {
  bo_hs : bm_hash_sz st = hs;
  bo_ps : bm_prefix_sz st = ps;
  bo_sz : bm_inclusion_proof_sz st = zpow n - 1;
  bo_buf_len : length (bm_node_buf st) = 63%nat;
  bo_buf : Forall node_ok (bm_node_buf st);
  bo_len : zpow n <= Z.of_nat (length (bm_inclusion_proofs st));
  bo_nodes : Forall node_ok (bm_inclusion_proofs st) }.

Section Leaves.
Context (hs ps : Z) (n : nat) (Hsz : sizes_ok hs ps) (Hn : (n <= 62)%nat).
Notation ok := (bm_ok hs ps n).
Notation node := (cnode hs ps).
Notation hash := (H hs ps).

Lemma buf_node_ok st l : ok st -> (l < 63)%nat -> buf_node st (Z.of_nat l) = Ok (zat (bm_node_buf st) (Z.of_nat l)) /\ node_ok (zat (bm_node_buf st) (Z.of_nat l)).
Proof using Hsz Hn. intros Ho Hl. pose proof (bo_buf_len _ _ _ _ Ho). split; [apply arr_get_z; lia|]. apply zat_ok; [apply Ho|lia]. Qed.

Lemma proof_node_ok st i : ok st -> 0 <= i < zpow n -> proof_node st i = Ok (zat (bm_inclusion_proofs st) i) /\ node_ok (zat (bm_inclusion_proofs st) i).
Proof using Hsz Hn. intros Ho Hi. pose proof (bo_len _ _ _ _ Ho). split; [apply arr_get_z; lia|]. apply zat_ok; [apply Ho|lia]. Qed.

Lemma set_buf_ok st l x : ok st -> (l < 63)%nat -> node_ok x ->
  set_buf_node st (Z.of_nat l) x = Ok (bm_set_node_buf st (<[l := x]> (bm_node_buf st))) /\ ok (bm_set_node_buf st (<[l := x]> (bm_node_buf st))).
Proof using Hsz Hn.
  intros Ho Hl Hx. pose proof (bo_buf_len _ _ _ _ Ho). unfold set_buf_node. rewrite arr_set_z by lia. rewrite Nat2Z.id. split; [done|].
  destruct Ho. split; cbn; try done; [by rewrite length_insert|by apply nodes_insert].
Qed.

Lemma set_proof_ok st i x : ok st -> 0 <= i < zpow n -> node_ok x ->
  set_proof_node st i x = Ok (bm_set_proofs st (<[Z.to_nat i := x]> (bm_inclusion_proofs st))) /\ ok (bm_set_proofs st (<[Z.to_nat i := x]> (bm_inclusion_proofs st))).
Proof using Hsz Hn.
  intros Ho Hi Hx. pose proof (bo_len _ _ _ _ Ho). unfold set_proof_node. rewrite arr_set_z by lia. split; [done|]. destruct Ho. split; cbn; try done; [by rewrite length_insert|by apply nodes_insert].
Qed.

Lemma merge_st st a b : ok st -> node_ok a -> node_ok b -> merge st a b = Ok (hash a b).
Proof using Hsz Hn. intros Ho [_ Ha] [_ Hb]. unfold merge. rewrite (bo_hs _ _ _ _ Ho), (bo_ps _ _ _ _ Ho). by apply merge_ok. Qed.

Lemma cnode_ok L l j : Forall node_ok L -> ((j + 1) * 2 ^ l <= length L)%nat -> node_ok (node L l j).
Proof using Hsz Hn.
  intros HL Hj. destruct l as [|l]; cbn [cnode]; [|apply H_ok]. rewrite Forall_forall in HL. apply HL. destruct (nth_lookup_or_length L j []) as [E|]; [by eapply list_elem_of_lookup_2|]. cbn in Hj. lia.
Qed.

(** The store after a write at the index of a node, or at the dummy index. *)
Lemma zat_write P l j x m k : zpow n <= Z.of_nat (length P) -> idx m k < zpow n - 1 ->
  zat (<[Z.to_nat (Z.min (idx l j) (zpow n - 1)) := x]> P) (idx m k) = if decide (m = l /\ k = j) then x else zat P (idx m k).
Proof using Hsz Hn.
  intros HP Hk. pose proof (idx_range l j). pose proof (idx_range m k). pose proof (zpow_pos n). rewrite zat_insert by lia. destruct (decide (m = l /\ k = j)) as [[-> ->]|Hne].
  - by rewrite decide_True by lia.
  - rewrite decide_False; [done|]. intros E. destruct (Z.min_spec (idx l j) (zpow n - 1)) as [[_ Em]|[_ Em]]; rewrite Em in E; [|lia]. apply idx_inj in E. tauto.
Qed.

(** ** Appending *)

Definition last_left (c : nat) : nat := (2 * ((c - 1) / 2))%nat.

Record leaves_inv (st : fd_bmtree_commit_t) (L : list fd_bmtree_node_t) : Prop := mk_leaves_inv {
  li_ok : ok st;
  li_nodes : Forall node_ok L;
  li_cnt : bm_leaf_cnt st = Z.of_nat (length L);
  li_max : Z.of_nat (length L) <= leaf_max;
  li_buf : forall l, (2 ^ l <= length L)%nat -> zat (bm_node_buf st) (Z.of_nat l) = node L l (last_left (length L / 2 ^ l));
  li_store : forall l j, ((j + 1) * 2 ^ l <= length L)%nat -> idx l j < zpow n - 1 -> zat (bm_inclusion_proofs st) (idx l j) = node L l j }.

Lemma pow_le_62 l k : (2 ^ l <= k)%nat -> Z.of_nat k <= leaf_max -> (l <= 62)%nat.
Proof using Hsz Hn.
  intros Hl Hk. destruct (decide (l <= 62)%nat) as [|Hgt]; [done|]. pose proof (zpow_mono 63 l ltac:(lia)). rewrite (zpow_nat l) in H. change (zpow 63) with 9223372036854775808 in H. unfold leaf_max in Hk. lia.
Qed.

Lemma min_bound i : 0 <= i -> 0 <= Z.min i (zpow n - 1) < zpow n.
Proof using Hsz Hn. pose proof (zpow_pos n). lia. Qed.

Lemma last_left_even c : (1 <= c)%nat -> last_left (2 * c - 1) = (2 * c - 2)%nat.
Proof using Hsz Hn. intros Hc. unfold last_left. replace (2 * c - 1 - 1)%nat with ((c - 1) * 2)%nat by lia. rewrite Nat.div_mul by lia. lia. Qed.

Lemma last_left_odd c : last_left (2 * c + 1) = (2 * c)%nat.
Proof using Hsz Hn. unfold last_left. replace (2 * c + 1 - 1)%nat with (c * 2)%nat by lia. rewrite Nat.div_mul by lia. lia. Qed.

(** What the store holds while the leaf [x] goes up: the nodes that were complete before,
    and the new ones below layer [l]. *)
Definition stored (P L : list fd_bmtree_node_t) (x : fd_bmtree_node_t) (l : nat) : Prop :=
  forall l' j, ((j + 1) * 2 ^ l' <= length L + 1)%nat -> ((j + 1) * 2 ^ l' <= length L \/ l' < l)%nat -> idx l' j < zpow n - 1 -> zat P (idx l' j) = node (L ++ [x]) l' j.

Lemma stored_next P L x l c : zpow n <= Z.of_nat (length P) -> stored P L x l -> (length L + 1 = c * 2 ^ l)%nat -> (1 <= c)%nat ->
  stored (<[Z.to_nat (Z.min (idx l (c - 1)) (zpow n - 1)) := node (L ++ [x]) l (c - 1)]> P) L x (S l).
Proof using Hsz Hn.
  intros HP Hst Ec Hc l' j Hj Hor Hidx. rewrite zat_write by done. case_decide as E; [by destruct E as [-> ->]|]. apply Hst; [done| |done].
  destruct Hor as [|Hlt]; [by left|]. destruct (decide (l' < l)%nat); [by right|left]. assert (l' = l) as -> by lia. pose proof (pow2_pos l). assert (j <> c - 1)%nat by tauto. nia.
Qed.

Lemma append_up_ok fuel st L x l c : ok st -> Forall node_ok (L ++ [x]) -> Z.of_nat (length L + 1) <= leaf_max ->
  (forall l, (2 ^ l <= length L)%nat -> zat (bm_node_buf st) (Z.of_nat l) = node L l (last_left (length L / 2 ^ l))) ->
  (length L + 1 = c * 2 ^ l)%nat -> (1 <= c)%nat -> Z.of_nat c < zpow fuel -> stored (bm_inclusion_proofs st) L x l ->
  exists P l' d, append_up fuel st (node (L ++ [x]) l (c - 1)) (Z.of_nat l) (idx l (c - 1)) (Z.of_nat c) =
      Ok (bm_set_proofs st P, node (L ++ [x]) l' (2 * d), Z.of_nat l', idx l' (2 * d)) /\
    ok (bm_set_proofs st P) /\ stored P L x l' /\ (length L + 1 = (2 * d + 1) * 2 ^ l')%nat.
Proof using Hsz Hn.
  revert st l c. induction fuel as [|fuel IH]; intros st l c Ho HL Hmax Hbuf Ec Hc Hf Hst; [change (zpow 0) with 1 in Hf; lia|]. cbn [append_up].
  destruct (even_cases c) as [(_ & E2 & _)|(_ & E2 & _)]; set (d := (c / 2)%nat) in *.
  - assert (Z.odd (Z.of_nat c) = false) as -> by (rewrite E2, Nat2Z.inj_mul, Z.odd_mul; done). pose proof (pow2_pos l). assert (1 <= d)%nat as Hd by lia. assert (S l <= 62)%nat as Hl by (apply (pow_le_62 _ (length L + 1)); [rewrite Nat.pow_succ_r'; nia|done]).
    assert (node_ok (node (L ++ [x]) l (c - 1))) as Hnode by (apply cnode_ok; [done|]; rewrite length_app; cbn [length]; nia).
    rewrite (bo_sz _ _ _ _ Ho). destruct (set_proof_ok st (Z.min (idx l (c - 1)) (zpow n - 1)) (node (L ++ [x]) l (c - 1)) Ho (min_bound _ (idx_range _ _)) Hnode) as [-> Ho1].
    cbn [mbind outcome_bind]. set (P1 := <[_ := _]> (bm_inclusion_proofs st)) in *. destruct (buf_node_ok _ l Ho1 ltac:(lia)) as [-> Hleft]. cbn [mbind outcome_bind].
    rewrite (merge_st _ _ _ Ho1 Hleft Hnode). cbn [mbind outcome_bind bm_set_proofs bm_node_buf]. rewrite Hbuf by nia.
    assert (length L / 2 ^ l = 2 * d - 1)%nat as Ediv by (symmetry; apply (Nat.div_unique _ _ _ (2 ^ l - 1)); nia). rewrite Ediv, last_left_even by lia.
    rewrite <- (cnode_app hs ps L [x]) by nia. assert (hash (node (L ++ [x]) l (2 * d - 2)) (node (L ++ [x]) l (c - 1)) = node (L ++ [x]) (S l) (d - 1)) as -> by (cbn [cnode]; do 2 f_equal; lia).
    assert (idx l (c - 1) -w u64 (Z.shiftl 1 (Z.of_nat l)) = idx (S l) (d - 1)) as ->.
    { rewrite shiftl1 by lia. assert (idx l (c - 1) - zpow l = idx (S l) (d - 1)) as Es by (unfold idx; rewrite !zpow_S; replace (Z.of_nat (c - 1)) with (2 * Z.of_nat (d - 1) + 1) by lia; lia).
      rewrite u64_sub_small; [done|]. rewrite Es. pose proof (idx_range (S l) (d - 1)). pose proof (zpow_63 (S (S l)) ltac:(lia)). unfold is_u64, ULONG_MAX. split; [done|]. rewrite <- Es. unfold idx.
      assert (Z.of_nat c * zpow l = Z.of_nat (length L + 1)) as Ez by (rewrite zpow_nat, Ec; lia). rewrite zpow_S. unfold leaf_max in Hmax. pose proof (zpow_pos l). nia. }
    assert (Z.shiftr (Z.of_nat c) 1 = Z.of_nat d) as -> by (rewrite Z.shiftr_div_pow2 by lia; change (2 ^ 1) with (Z.of_nat 2); unfold d; by rewrite Nat2Z.inj_div).
    assert (Z.of_nat l +w 1 = Z.of_nat (S l)) as -> by (rewrite u64_add_small by (unfold is_u64, ULONG_MAX; lia); lia).
    destruct (IH (bm_set_proofs st P1) (S l) d) as (P2 & l' & e & Eup & Ho2 & Hst2 & Ee); try done.
    + rewrite Ec. cbn [Nat.pow]. nia.
    + rewrite zpow_S in Hf. lia.
    + cbn [bm_set_proofs bm_inclusion_proofs]. unfold P1. apply stored_next; [apply Ho|done|done|lia].
    + exists P2, l', e. split_and!; done.
  - assert (Z.odd (Z.of_nat c) = true) as -> by (rewrite E2, Nat2Z.inj_add, Nat2Z.inj_mul, Z.odd_add, Z.odd_mul; done). exists (bm_inclusion_proofs st), l, d.
    replace (c - 1)%nat with (2 * d)%nat by lia. destruct st. split_and!; [done|done|done|lia].
Qed.

Lemma append_leaf_ok st L x : leaves_inv st L -> node_ok x -> Z.of_nat (length L + 1) <= leaf_max ->
  exists st', append_leaf st x = Ok st' /\ leaves_inv st' (L ++ [x]).
Proof using Hsz Hn.
  intros [Ho HL Ecnt Hmax Hbuf Hstore] Hx Hmax'. unfold append_leaf. rewrite Ecnt. rewrite u64_add_small by (unfold is_u64, ULONG_MAX, leaf_max in *; lia).
  assert (Forall node_ok (L ++ [x])) as HL' by (apply Forall_app; split; [done|by constructor]). unfold u64_mul. rewrite u64_small by (unfold is_u64, ULONG_MAX, leaf_max in *; lia).
  destruct (append_up_ok 64 st L x 0 (length L + 1)) as (P & l & d & Eup & Ho1 & Hst & Ed); try done.
  { change (2 ^ 0)%nat with 1%nat. lia. }
  { lia. }
  { change (zpow 64) with 18446744073709551616. unfold leaf_max in *. lia. }
  { intros l j Hj [Hj'|]; [|lia]. intros Hi. rewrite cnode_app by done. by apply Hstore. }
  rewrite Nat.add_sub, idx_0 in Eup. cbn [cnode] in Eup. rewrite app_nth2, Nat.sub_diag in Eup by lia. cbn [nth] in Eup. change (Z.of_nat 0) with 0 in Eup.
  replace (Z.of_nat (length L) + 1) with (Z.of_nat (length L + 1)) by lia. rewrite Eup. cbn [mbind outcome_bind]. clear Eup. pose proof (pow2_pos l).
  assert (l <= 62)%nat as Hl by (apply (pow_le_62 _ (length L + 1)); [nia|done]). assert (node_ok (node (L ++ [x]) l (2 * d))) as Hnode by (apply cnode_ok; [done|]; rewrite length_app; cbn [length]; nia).
  destruct (set_buf_ok _ l _ Ho1 ltac:(lia) Hnode) as [-> Ho2]. cbn [mbind outcome_bind bm_set_proofs bm_node_buf bm_set_node_buf] in *.
  rewrite (bo_sz _ _ _ _ Ho2). destruct (set_proof_ok _ (Z.min (idx l (2 * d)) (zpow n - 1)) _ Ho2 (min_bound _ (idx_range _ _)) Hnode) as [-> Ho3]. cbn [mbind outcome_bind]. eexists. split; [done|].
  split; try done.
  - destruct Ho3; split; done.
  - cbn. rewrite length_app. done.
  - by rewrite length_app.
  - cbn [bm_set_leaf_cnt bm_set_proofs bm_set_node_buf bm_node_buf]. rewrite length_app. cbn [length]. intros m Hm. assert (m <= 62)%nat as Hm62 by (apply (pow_le_62 _ (length L + 1)); done).
    pose proof (bo_buf_len _ _ _ _ Ho) as Hlen. unfold zat. rewrite Nat2Z.id, nth_lookup. pose proof (pow2_pos m). destruct (lt_eq_lt_dec m l) as [[Hlt| ->]|Hgt].
    + rewrite list_lookup_insert_ne by lia. rewrite <- nth_lookup, <- (Nat2Z.id m) at 1. fold (zat (bm_node_buf st) (Z.of_nat m)). assert (2 ^ l = 2 ^ m * 2 ^ (l - m))%nat as Epow by (rewrite <- Nat.pow_add_r; f_equal; lia).
      destruct (l - m)%nat as [|e] eqn:Ee; [lia|]. cbn [Nat.pow] in Epow. pose proof (pow2_pos e). set (q := ((2 * d + 1) * 2 ^ e)%nat). assert (length L + 1 = (2 * q) * 2 ^ m)%nat as Eq by (rewrite Ed, Epow; unfold q; nia).
      rewrite Hbuf by nia. assert (length L / 2 ^ m = 2 * q - 1)%nat as -> by (symmetry; apply (Nat.div_unique _ _ _ (2 ^ m - 1)); nia). rewrite Eq, Nat.div_mul, last_left_even by lia.
      assert (last_left (2 * q) = 2 * q - 2)%nat as -> by (unfold last_left; rewrite <- (Nat.div_unique (2 * q - 1) 2 (q - 1) 1) by lia; lia). by rewrite cnode_app by nia.
    + rewrite list_lookup_insert_eq by lia. cbn [default from_option id]. rewrite Ed, Nat.div_mul by lia. by rewrite last_left_odd.
    + rewrite list_lookup_insert_ne by lia. rewrite <- nth_lookup, <- (Nat2Z.id m) at 1. fold (zat (bm_node_buf st) (Z.of_nat m)). assert (2 ^ m = 2 ^ l * 2 ^ (m - l))%nat as Epow by (rewrite <- Nat.pow_add_r; f_equal; lia).
      destruct (m - l)%nat as [|e] eqn:Ee; [lia|]. cbn [Nat.pow] in Epow. pose proof (pow2_pos e). assert (forall q, length L + 1 <> 2 ^ m * q)%nat as Hnd.
      { intros q E. rewrite Ed, Epow in E. assert (2 ^ l * (2 * d + 1) = 2 ^ l * (2 * (2 ^ e * q)))%nat as E' by nia. apply Nat.mul_cancel_l in E'; lia. }
      pose proof (Nat.div_mod_eq (length L + 1) (2 ^ m)) as Edm. pose proof (Nat.mod_upper_bound (length L + 1) (2 ^ m) ltac:(lia)). set (q := ((length L + 1) / 2 ^ m)%nat) in *. specialize (Hnd q). assert (1 <= q)%nat as Hq by (unfold q; apply Nat.div_le_lower_bound; lia).
      assert (2 ^ m <= 2 ^ m * q)%nat by (rewrite <- (Nat.mul_1_r (2 ^ m)) at 1; by apply Nat.mul_le_mono_l).
      assert (length L / 2 ^ m = q)%nat as Eq by (symmetry; apply (Nat.div_unique _ _ _ ((length L + 1) mod 2 ^ m - 1)); nia). rewrite Hbuf by lia. rewrite Eq. rewrite cnode_app; [done|].
      unfold last_left. pose proof (Nat.div_mod_eq (q - 1) 2). nia.
  - cbn [bm_set_leaf_cnt bm_set_proofs bm_set_node_buf bm_inclusion_proofs]. rewrite length_app. cbn [length]. intros m j Hj Hi. rewrite zat_write by (apply Ho1 || done). case_decide as E; [by destruct E as [-> ->]|].
    apply Hst; [done| |done]. destruct (decide ((j + 1) * 2 ^ m <= length L)%nat) as [|Hgt]; [by left|right]. pose proof (pow2_pos m). assert ((j + 1) * 2 ^ m = (2 * d + 1) * 2 ^ l)%nat as Ej by lia.
    destruct (lt_eq_lt_dec m l) as [[Hlt| ->]|Hgt']; [done| |].
    + assert (j = 2 * d)%nat by nia. tauto.
    + replace m with (l + S (m - l - 1))%nat in Ej by lia. rewrite Nat.pow_add_r in Ej. cbn [Nat.pow] in Ej. assert ((j + 1) * (2 * 2 ^ (m - l - 1)) = 2 * d + 1)%nat by nia. lia.
Qed.

Lemma commit_append_ok st L xs : leaves_inv st L -> Forall node_ok xs -> Z.of_nat (length (L ++ xs)) <= leaf_max ->
  exists st', fd_bmtree_commit_append st xs = Ok st' /\ leaves_inv st' (L ++ xs).
Proof using Hsz Hn.
  revert st L. induction xs as [|x xs IH]; intros st L HI Hxs Hmax; unfold fd_bmtree_commit_append; cbn [ofold]; [rewrite app_nil_r; eauto|].
  apply Forall_cons in Hxs as [Hx Hxs]. rewrite length_app in Hmax. cbn [length] in Hmax. destruct (append_leaf_ok st L x HI Hx ltac:(lia)) as (st1 & -> & HI1). cbn [mbind outcome_bind].
  rewrite (app_assoc L [x] xs : L ++ x :: xs = _). apply IH; [done|done|]. rewrite !length_app. cbn [length]. lia.
Qed.

(** Memory for [n] layers. *)
Definition mem_ok (mem : fd_bmtree_commit_t) : Prop :=
  length (bm_node_buf mem) = 63%nat /\ Forall node_ok (bm_node_buf mem) /\ zpow n <= Z.of_nat (length (bm_inclusion_proofs mem)) /\ Forall node_ok (bm_inclusion_proofs mem).

Lemma init_ok mem : mem_ok mem -> ok (fd_bmtree_commit_init mem hs ps (Z.of_nat n)).
Proof using Hsz Hn.
  intros (Hb & Hbn & Hl & Hln). unfold fd_bmtree_commit_init. pose proof (zpow_pos n). pose proof (zpow_63 n ltac:(lia)). rewrite shiftl1, u64_sub_small by (lia || (unfold is_u64, ULONG_MAX; lia)). split; done.
Qed.

Lemma init_leaves mem : mem_ok mem -> leaves_inv (fd_bmtree_commit_init mem hs ps (Z.of_nat n)) [].
Proof using Hsz Hn.
  intros Hm. split; [by apply init_ok|done|done|unfold leaf_max; cbn; lia| |].
  - intros l Hl. pose proof (pow2_pos l). cbn in Hl. lia.
  - intros l j Hj. pose proof (pow2_pos l). cbn [length] in Hj. nia.
Qed.

(** ** Finishing *)

Notation tnode := (tree_node hs ps).

Lemma tnode_ok L l j : Forall node_ok L -> (j < width (length L) l)%nat -> node_ok (tnode L l j).
Proof using Hsz Hn.
  intros HL Hj. destruct l as [|l].
  - rewrite Forall_forall in HL. apply HL. unfold tree_node. cbn [layer]. destruct (nth_lookup_or_length L j []) as [E|]; [by eapply list_elem_of_lookup_2|cbn in Hj; lia].
  - rewrite tree_node_S by done. apply H_ok.
Qed.

(** The nodes of the layers up to [l] and all complete nodes. *)
Definition tree_stored (P L : list fd_bmtree_node_t) (l : nat) : Prop :=
  forall l' j, (j < width (length L) l')%nat -> ((j + 1) * 2 ^ l' <= length L \/ l' <= l)%nat -> idx l' j < zpow n - 1 -> zat P (idx l' j) = tnode L l' j.

Lemma width_odd l d m : (l <= m)%nat -> let k := ((2 * d + 1) * 2 ^ l)%nat in
  (width k m = if decide (m = l) then 2 * d + 1 else k / 2 ^ m + 1)%nat /\ ((width k m - 1) * 2 ^ m < k <= width k m * 2 ^ m)%nat /\ (m <> l -> k < width k m * 2 ^ m)%nat.
Proof using Hsz Hn.
  intros Hm k. pose proof (pow2_pos l). pose proof (pow2_pos m). assert (1 <= k)%nat by (unfold k; nia). pose proof (width_pos k m ltac:(lia)) as Hw1.
  assert ((width k m - 1) * 2 ^ m < k)%nat as Hlo by (apply lt_width; lia). assert (k <= width k m * 2 ^ m)%nat as Hhi. { destruct (decide (k <= width k m * 2 ^ m)%nat); [done|]. assert (width k m < width k m)%nat; [apply lt_width; lia|lia]. }
  case_decide as E.
  - subst m. assert (width k l = 2 * d + 1)%nat by (unfold k in *; nia). split_and!; [done|done|done|done].
  - assert (k <> width k m * 2 ^ m)%nat as Hne.
    { intros E'. unfold k in E' at 1. replace m with (l + S (m - l - 1))%nat in E' at 2 by lia. rewrite Nat.pow_add_r, Nat.pow_succ_r' in E'. set (q := width k m) in *. set (r := (2 ^ (m - l - 1))%nat) in *.
      assert (2 ^ l * (2 * d + 1) = 2 ^ l * (2 * (q * r)))%nat as E2 by nia. apply Nat.mul_cancel_l in E2; lia. }
    split_and!; [|done|lia|intros; lia]. assert (k / 2 ^ m = width k m - 1)%nat as ->; [|lia]. symmetry. apply (Nat.div_unique _ _ _ (k - (width k m - 1) * 2 ^ m)); nia.
Qed.

Lemma half_shift w : Z.of_nat w <= leaf_max -> Z.shiftr (Z.of_nat w +w 1) 1 = Z.of_nat ((w + 1) / 2).
Proof using Hsz Hn.
  intros Hw. rewrite u64_add_small by (unfold is_u64, ULONG_MAX, leaf_max in *; lia). rewrite Z.shiftr_div_pow2 by lia. change (2 ^ 1) with (Z.of_nat 2). rewrite Nat2Z.inj_div. do 2 f_equal. lia.
Qed.

Lemma width_max k l : Z.of_nat k <= leaf_max -> Z.of_nat (width k l) <= leaf_max.
Proof using Hsz Hn. induction l as [|l IH]; [done|]. intros Hk. pose proof (width_le k l). specialize (IH Hk). lia. Qed.

(** The index of the last node of a layer. *)
Lemma last_idx_width k l : (1 <= k)%nat -> Z.of_nat k <= leaf_max -> (l <= 62)%nat -> last_idx (Z.of_nat l) (Z.of_nat (width k l)) = idx l (width k l - 1).
Proof using Hsz Hn.
  intros Hk Hmax Hl. pose proof (width_pos k l Hk) as Hw. apply last_idx_eq; [done|done|]. assert ((width k l - 1) * 2 ^ l < k)%nat as Hlt by (apply lt_width; lia).
  rewrite zpow_S, zpow_nat. pose proof (zpow_63 l ltac:(lia)) as Hz. rewrite zpow_nat in Hz. pose proof (zpow_mono l 62 Hl) as Hz2. rewrite zpow_nat in Hz2. change (zpow 62) with 4611686018427387904 in Hz2. unfold leaf_max in *. nia.
Qed.

Lemma tree_stored_next P L l : (1 <= length L)%nat -> zpow n <= Z.of_nat (length P) -> tree_stored P L l ->
  tree_stored (<[Z.to_nat (Z.min (idx (S l) (width (length L) (S l) - 1)) (zpow n - 1)) := tnode L (S l) (width (length L) (S l) - 1)]> P) L (S l).
Proof using Hsz Hn.
  intros Hk HP Hst l' j Hj Hor Hi. rewrite zat_write by done. case_decide as E; [by destruct E as [-> ->]|]. apply Hst; [done| |done]. destruct Hor as [|Hle]; [by left|].
  destruct (decide (l' <= l)%nat); [by right|left]. assert (l' = S l) as -> by lia. assert (j + 1 < width (length L) (S l))%nat as Hlt by (assert (j <> width (length L) (S l) - 1)%nat by tauto; lia). apply lt_width in Hlt; lia.
Qed.

Lemma fini_up_ok fuel st L l l0 d : leaves_inv st L -> (length L = (2 * d + 1) * 2 ^ l0)%nat -> (l0 <= l <= height (length L))%nat -> (height (length L) - l < fuel)%nat -> forall P, ok (bm_set_proofs st P) -> tree_stored P L l ->
  exists P', fini_up fuel (bm_set_proofs st P) (tnode L l (width (length L) l - 1)) (Z.of_nat l) (Z.of_nat (width (length L) l)) = Ok (bm_set_proofs st P', merkle_root hs ps L) /\
    ok (bm_set_proofs st P') /\ tree_stored P' L (height (length L)).
Proof using Hsz Hn.
  intros HI Ek. revert l. induction fuel as [|fuel IH]; intros l Hl Hf P Ho Hst; [lia|]. cbn [fini_up]. set (k := length L) in *. pose proof (pow2_pos l0) as Hp0.
  assert (1 <= k)%nat as Hk by nia. pose proof (li_max _ _ HI) as Hmax. fold k in Hmax. pose proof (height_62 k Hk Hmax) as Hh. pose proof (width_pos k l Hk) as Hw1.
  destruct (Z.leb_spec (Z.of_nat (width k l)) 1) as [Hle|Hgt].
  { assert (width k l = 1)%nat as Ew by lia. apply width_height in Ew as Hhl; [|done]. assert (l = height k) as -> by lia. exists P. rewrite Ew. done. }
  assert (l < height k)%nat as Hlh. { destruct (decide (l < height k)%nat); [done|]. assert (width k l = 1)%nat by (apply width_height; lia). lia. }
  rewrite Ek in *. destruct (width_odd l0 d l ltac:(lia)) as (Ew & [Hlo Hhi] & Hne). rewrite <- Ek in *. fold k in Ew, Hlo, Hhi, Hne |- *. pose proof (pow2_pos l) as Hpl. set (w := width k l) in *.
  assert (node_ok (tnode L l (w - 1))) as Hnode by (apply tnode_ok; [apply HI|fold k; fold w; lia]).
  assert (exists tmp2, (if Z.odd (Z.of_nat w) then Ok (tnode L l (w - 1)) else buf_node (bm_set_proofs st P) (Z.of_nat l)) = Ok tmp2 /\ node_ok tmp2 /\ hash tmp2 (tnode L l (w - 1)) = tnode L (S l) (width k (S l) - 1)) as (tmp2 & -> & Hok2 & Eh).
  { pose proof (tree_node_S hs ps L l (width k (S l) - 1) ltac:(fold k; pose proof (width_pos k (S l) Hk); lia)) as Et. fold k in Et. change (width k (S l)) with ((w + 1) / 2)%nat in Et |- *.
    destruct (even_cases w) as [(_ & E2 & _)|(_ & E2 & _)]; set (e := (w / 2)%nat) in *.
    - assert (Z.odd (Z.of_nat w) = false) as -> by (rewrite E2, Nat2Z.inj_mul, Z.odd_mul; done). destruct (buf_node_ok _ l Ho ltac:(lia)) as [-> Hb]. eexists. split; [done|]. split; [done|].
      assert ((w + 1) / 2 = e)%nat as Eh by (symmetry; apply (Nat.div_unique _ _ _ 1); lia). rewrite Eh in *. rewrite decide_True in Et by lia. rewrite Et. cbn [bm_set_proofs bm_node_buf].
      assert (l <> l0) as Hll0 by (intros ->; rewrite decide_True in Ew by done; lia). rewrite (li_buf _ _ HI) by (fold k; nia). fold k. rewrite decide_False in Ew by done.
      assert (k / 2 ^ l = 2 * e - 1)%nat as -> by lia. rewrite last_left_even by lia. rewrite <- cnode_tree by (fold k; nia). f_equal; f_equal; lia.
    - assert (Z.odd (Z.of_nat w) = true) as -> by (rewrite E2, Nat2Z.inj_add, Nat2Z.inj_mul, Z.odd_add, Z.odd_mul; done). eexists. split; [done|]. split; [done|].
      assert ((w + 1) / 2 = e + 1)%nat as Eh by (symmetry; apply (Nat.div_unique _ _ _ 0); lia). rewrite Eh in *. rewrite decide_False in Et by lia. rewrite Et. f_equal; f_equal; lia. }
  cbn [mbind outcome_bind]. rewrite (merge_st _ _ _ Ho Hok2 Hnode). cbn [mbind outcome_bind]. rewrite Eh. rewrite half_shift by (by apply width_max). change ((w + 1) / 2)%nat with (width k (S l)).
  assert (Z.of_nat l +w 1 = Z.of_nat (S l)) as -> by (rewrite u64_add_small by (unfold is_u64, ULONG_MAX; lia); lia). rewrite last_idx_width by (done || lia). rewrite (bo_sz _ _ _ _ Ho).
  destruct (set_proof_ok _ (Z.min (idx (S l) (width k (S l) - 1)) (zpow n - 1)) (tnode L (S l) (width k (S l) - 1)) Ho (min_bound _ (idx_range _ _))) as [-> Ho2].
  { apply tnode_ok; [apply HI|]. fold k. pose proof (width_pos k (S l) Hk). lia. }
  cbn [mbind outcome_bind]. cbn [bm_set_proofs bm_inclusion_proofs] in Ho2. apply (IH (S l) ltac:(lia) ltac:(lia) _ Ho2). apply tree_stored_next; [done|apply Ho|done].
Qed.

Lemma complete_stored st L : leaves_inv st L -> forall l, (forall m, (m <= l)%nat -> (length L = width (length L) m * 2 ^ m)%nat) -> tree_stored (bm_inclusion_proofs st) L l.
Proof using Hsz Hn.
  intros HI l Hl l' j Hj Hor Hi. assert ((j + 1) * 2 ^ l' <= length L)%nat as Hc. { destruct Hor as [|Hle]; [done|]. rewrite (Hl l' Hle). apply Nat.mul_le_mono_r. lia. }
  rewrite cnode_tree by done. by apply (li_store _ _ HI).
Qed.

Lemma width_multiple l d m : (m <= l)%nat -> let k := ((2 * d + 1) * 2 ^ l)%nat in (k = width k m * 2 ^ m)%nat.
Proof using Hsz Hn.
  intros Hm k. pose proof (pow2_pos l). pose proof (pow2_pos m). assert (1 <= k)%nat by (unfold k; nia). rewrite width_eq by lia. assert (k = ((2 * d + 1) * 2 ^ (l - m)) * 2 ^ m)%nat as Ek by (unfold k; rewrite <- Nat.mul_assoc, <- Nat.pow_add_r; do 2 f_equal; lia).
  set (q := ((2 * d + 1) * 2 ^ (l - m))%nat) in *. assert (1 <= q)%nat by (unfold q; pose proof (pow2_pos (l - m)); nia). assert ((k - 1) / 2 ^ m = q - 1)%nat as ->; [|nia]. symmetry. apply (Nat.div_unique _ _ _ (2 ^ m - 1)); nia.
Qed.

(** The state after finishing. *)
Record sealed (st : fd_bmtree_commit_t) (L : list fd_bmtree_node_t) : Prop := mk_sealed {
  se_ok : ok st;
  se_nodes : Forall node_ok L;
  se_cnt : bm_leaf_cnt st = Z.of_nat (length L);
  se_pos : (1 <= length L)%nat;
  se_max : Z.of_nat (length L) <= leaf_max;
  se_store : tree_stored (bm_inclusion_proofs st) L (height (length L)) }.

Lemma commit_fini_ok st L : leaves_inv st L -> (1 <= length L)%nat -> exists st', fd_bmtree_commit_fini st = Ok (st', merkle_root hs ps L) /\ sealed st' L.
Proof using Hsz Hn.
  intros HI Hk. pose proof (li_max _ _ HI) as Hmax. pose proof (height_62 _ Hk Hmax) as Hh. unfold fd_bmtree_commit_fini. rewrite (li_cnt _ _ HI). set (k := length L) in *.
  rewrite depth_height by (done || (unfold ULONG_MAX, leaf_max in *; lia)). rewrite u64_sub_small by (unfold is_u64, ULONG_MAX; lia). rewrite Z.add_simpl_r.
  destruct (odd_part k Hk) as (l0 & d & Ek). assert (fd_ulong_is_pow2 (Z.of_nat k) = Nat.eqb d 0) as -> by (rewrite Ek; apply is_pow2_odd; rewrite <- Ek; unfold ULONG_MAX, leaf_max in *; lia).
  pose proof (li_ok _ _ HI) as Ho. destruct (Nat.eqb_spec d 0) as [->|Hd]; cbn [negb].
  - cbn [mbind outcome_bind]. destruct (buf_node_ok st (height k) Ho ltac:(lia)) as [-> _]. cbn [mbind outcome_bind]. assert (k = 2 ^ l0)%nat as Ek2 by lia. assert (height k = l0) as Ehl by (rewrite Ek2; unfold height; apply Nat.log2_up_pow2; lia).
    exists st. split; [do 2 f_equal|].
    + rewrite (li_buf _ _ HI) by (fold k; rewrite Ehl, Ek2; done). fold k. rewrite Ehl, Ek2, Nat.div_same by (pose proof (pow2_pos l0); lia). unfold merkle_root. fold k. rewrite Ehl. symmetry. change (last_left 1) with 0%nat. apply cnode_tree. fold k. rewrite Ek2. lia.
    + split; [done|apply HI|apply HI|done|done|]. apply complete_stored; [done|]. fold k. rewrite Ehl. intros m Hm. rewrite Ek at 1. rewrite (width_multiple l0 0 m Hm) at 1. by rewrite <- Ek.
  - assert (fd_ulong_find_lsb (Z.of_nat k) = Z.of_nat l0) as -> by (rewrite Ek; apply find_lsb_odd). pose proof (pow2_pos l0) as Hp0. assert (width k l0 = 2 * d + 1)%nat as Ew by (destruct (width_odd l0 d l0 ltac:(lia)) as (E & _); rewrite decide_True, <- Ek in E by done; exact E).
    assert (Z.shiftr (Z.of_nat k) (Z.of_nat l0) = Z.of_nat (width k l0)) as ->.
    { rewrite Z.shiftr_div_pow2 by lia. fold (zpow l0). rewrite zpow_nat, <- Nat2Z.inj_div, Ew. f_equal. rewrite Ek. apply Nat.div_mul. lia. }
    assert (l0 < height k)%nat as Hl0. { destruct (decide (l0 < height k)%nat); [done|]. assert (width k l0 = 1)%nat by (apply width_height; lia). lia. }
    destruct (buf_node_ok st l0 Ho ltac:(lia)) as [-> _]. cbn [mbind outcome_bind]. rewrite (li_buf _ _ HI) by (fold k; nia). fold k.
    assert (k / 2 ^ l0 = 2 * d + 1)%nat as -> by (rewrite Ek; apply Nat.div_mul; lia). rewrite last_left_odd.
    rewrite <- cnode_tree by (fold k; nia). replace (2 * d)%nat with (width k l0 - 1)%nat by lia.
    destruct (fini_up_ok 64 st L l0 l0 d HI Ek ltac:(fold k; lia) ltac:(fold k; lia) (bm_inclusion_proofs st)) as (P & Eup & Ho2 & Hst).
    { destruct st; exact Ho. }
    { apply complete_stored; [done|]. fold k. intros m Hm. rewrite Ek at 1. rewrite (width_multiple l0 d m Hm) at 1. by rewrite <- Ek. }
    assert (bm_set_proofs st (bm_inclusion_proofs st) = st) as Est by (by destruct st). rewrite Est in Eup. fold k in Eup. rewrite Eup. cbn [mbind outcome_bind fst snd].
    assert (node_ok (merkle_root hs ps L)) as Hroot by (apply tnode_ok; [apply HI|]; fold k; apply width_pos; done). destruct (set_buf_ok _ (height k) _ Ho2 ltac:(lia) Hroot) as [-> Ho3]. cbn [mbind outcome_bind].
    destruct (buf_node_ok _ (height k) Ho3 ltac:(lia)) as [-> _]. cbn [mbind outcome_bind bm_set_node_buf bm_node_buf bm_set_proofs]. eexists. split; [do 2 f_equal|].
    + unfold zat. rewrite Nat2Z.id, nth_lookup, list_lookup_insert_eq; [done|]. rewrite (bo_buf_len _ _ _ _ Ho). lia.
    + split; [exact Ho3|apply HI|apply HI|done|done|exact Hst].
Qed.
End Leaves.
