(* ===== verification/BmtreePaths.v ===== *)
(** * Inclusion proofs

    The proof of a leaf is the list of the partners of the nodes on its way to the root, a
    node without a partner being its own.  [fd_bmtree_get_proof] reads these nodes from the
    store of a sealed tree, [fd_bmtree_from_proof] hashes its way up again. *)
From S2P Require Import Prelude VotorBase Sha256 Sha256Props Bmtree BmtreeSpec BmtreeLeaves.

(** The node that [j] is hashed with in a layer of [w] nodes. *)
Definition partner (w j : nat) : nat := if decide (sib j < w)%nat then sib j else j.

Section Paths.
Context (hs ps : Z) (n : nat) (Hsz : sizes_ok hs ps) (Hn : (n <= 62)%nat).
Notation ok := (bm_ok hs ps n).
Notation hash := (H hs ps).
Notation tnode := (tree_node hs ps).

Definition hsn : nat := Z.to_nat hs.

(** The proof of leaf [i], from layer [0] to layer [m-1]. *)
Definition proof_chunk (L : list fd_bmtree_node_t) (i l : nat) : list Z := take hsn (tnode L l (partner (width (length L) l) (i / 2 ^ l))).
Definition proof_bytes (L : list fd_bmtree_node_t) (i m : nat) : list Z := concat (proof_chunk L i <$> seq 0 m).

Lemma div_pow_S i l : (i / 2 ^ S l = i / 2 ^ l / 2)%nat.
Proof using Hsz Hn. rewrite Nat.Div0.div_div. f_equal. rewrite Nat.pow_succ_r'. lia. Qed.

Lemma path_lt k i l : (1 <= k)%nat -> (i < k)%nat -> (i / 2 ^ l < width k l)%nat.
Proof using Hsz Hn. intros Hk Hi. apply lt_width; [done|]. pose proof (Nat.div_mod_eq i (2 ^ l)). lia. Qed.

Lemma partner_lt w j : (j < w)%nat -> (partner w j < w)%nat.
Proof using Hsz Hn. unfold partner. case_decide; done. Qed.

Lemma width_0 l : width 0 l = 0%nat.
Proof using Hsz Hn. induction l as [|l IH]; [reflexivity|]. cbn [width]. rewrite IH. reflexivity. Qed.

(** Hashing a node with its partner gives the node above. *)
Lemma hash_partner L l j : (j < width (length L) l)%nat ->
  tnode L (S l) (j / 2) = if Nat.even j then hash (tnode L l j) (tnode L l (partner (width (length L) l) j)) else hash (tnode L l (partner (width (length L) l) j)) (tnode L l j).
Proof using Hsz Hn.
  intros Hj. assert (1 <= length L)%nat as Hk by (destruct (length L); [rewrite width_0 in Hj|]; lia).
  assert (j / 2 < width (length L) (S l))%nat as Hj2. { apply lt_width in Hj; [|done]. apply lt_width; [done|]. rewrite Nat.pow_succ_r'. pose proof (Nat.div_mod_eq j 2). nia. }
  rewrite tree_node_S by done. unfold partner. destruct (even_cases j) as [(-> & E & ->)|(-> & E & ->)].
  - by rewrite <- E.
  - rewrite decide_True by lia. rewrite (decide_True (P := (j - 1 < _)%nat)) by lia. f_equal; f_equal; lia.
Qed.

Lemma chunk_length L i l : Forall node_ok L -> (1 <= length L)%nat -> (i < length L)%nat -> length (proof_chunk L i l) = hsn.
Proof using Hsz Hn.
  intros HL Hk Hi. unfold proof_chunk. rewrite length_take. destruct (tnode_ok hs ps n Hsz Hn L l (partner (width (length L) l) (i / 2 ^ l)) HL (partner_lt _ _ (path_lt _ i l Hk Hi))) as [-> _].
  unfold hsn. destruct Hsz. lia.
Qed.

Lemma proof_bytes_S L i m : proof_bytes L i (S m) = proof_bytes L i m ++ proof_chunk L i m.
Proof using Hsz Hn. unfold proof_bytes. rewrite seq_S, fmap_app, concat_app. cbn. by rewrite app_nil_r. Qed.

Lemma proof_bytes_length L i m : Forall node_ok L -> (1 <= length L)%nat -> (i < length L)%nat -> length (proof_bytes L i m) = (m * hsn)%nat.
Proof using Hsz Hn. intros HL Hk Hi. induction m as [|m IH]; [done|]. rewrite proof_bytes_S, length_app, IH, chunk_length by done. lia. Qed.

Lemma proof_bytes_prefix L i m m' : (m <= m')%nat -> exists r, proof_bytes L i m' = proof_bytes L i m ++ r.
Proof using Hsz Hn. induction 1 as [|m' _ [r Er]]; [exists []; by rewrite app_nil_r|]. rewrite proof_bytes_S, Er. eexists. by rewrite <- app_assoc. Qed.

Lemma idx_in_tree k l j m : (1 <= k)%nat -> (j < width k l)%nat -> (l <= height k)%nat -> (height k < m)%nat -> idx l j < zpow m - 1.
Proof using Hsz Hn.
  intros Hk Hj Hl Hm. apply lt_width in Hj; [|done]. destruct (height_spec k Hk) as [Hh _]. apply idx_bound; [lia|]. assert (2 ^ (height k) <= 2 ^ (m - 1 - l) * 2 ^ l)%nat. { rewrite <- Nat.pow_add_r. apply Nat.pow_le_mono_r; lia. }
  pose proof (pow2_pos l). nia.
Qed.

(** ** Reading a proof *)

Lemma partner_idx k l j m : (1 <= k)%nat -> Z.of_nat k <= leaf_max -> (j < width k l)%nat -> (l <= height k)%nat -> (height k < m)%nat -> (m <= 63)%nat ->
  (if fd_ulong_insert_lsb (u64 (Z.shiftl (Z.of_nat k -w 1) 1)) (1 + Z.of_nat l) (u64 (Z.shiftl 1 (Z.of_nat l)) -w 1) <? Z.lxor (idx l j) (u64 (Z.shiftl 1 (Z.of_nat l + 1)))
   then idx l j else Z.lxor (idx l j) (u64 (Z.shiftl 1 (Z.of_nat l + 1)))) = idx l (partner (width k l) j).
Proof using Hsz Hn.
  intros Hk Hmax Hj Hl Hm H63. replace (Z.of_nat l + 1) with (Z.of_nat (S l)) by lia. rewrite !shiftl1, lxor_pow_idx by lia. pose proof (zpow_pos l). pose proof (zpow_63 l ltac:(lia)).
  rewrite !u64_sub_small by (unfold is_u64, ULONG_MAX, leaf_max in *; lia). rewrite Z.shiftl_mul_pow2 by lia. change (2 ^ 1) with 2. rewrite u64_small by (unfold is_u64, ULONG_MAX, leaf_max in *; lia).
  replace ((Z.of_nat k - 1) * 2) with (idx 0 (k - 1)) by (rewrite idx_0; lia). rewrite idx_insert, Nat.sub_0_r by lia. assert ((k - 1) / 2 ^ l = width k l - 1)%nat as -> by (rewrite width_eq by done; lia).
  unfold partner. pose proof (zpow_pos (S l)). case_decide as Hd.
  - replace (_ <? _) with false; [done|]. symmetry. apply Z.ltb_ge. unfold idx. nia.
  - replace (_ <? _) with true; [done|]. symmetry. apply Z.ltb_lt. unfold idx. nia.
Qed.

Lemma get_proof_up_ok fuel st L i l dest : sealed hs ps n st L -> (i < length L)%nat -> (height (length L) < n)%nat -> (l <= height (length L))%nat -> (height (length L) - l < fuel)%nat ->
  (height (length L) * hsn <= length dest)%nat ->
  get_proof_up fuel st (proof_bytes L i l ++ drop (l * hsn) dest) (Z.of_nat l) (Z.of_nat (width (length L) l)) (idx l (i / 2 ^ l)) =
    Ok (proof_bytes L i (height (length L)) ++ drop (height (length L) * hsn) dest, Some (Z.of_nat (height (length L)))).
Proof using Hsz Hn.
  intros HS Hi Hh. revert l. induction fuel as [|fuel IH]; intros l Hl Hf Hd; [lia|]. cbn [get_proof_up]. set (k := length L) in *. pose proof (se_pos _ _ _ _ _ HS) as Hk. fold k in Hk. pose proof (se_max _ _ _ _ _ HS) as Hmax. fold k in Hmax.
  pose proof (width_pos k l Hk) as Hw1. destruct (Z.leb_spec (Z.of_nat (width k l)) 1) as [Hle|Hgt].
  { assert (height k <= l)%nat as Hhl by (apply width_height; lia). by replace l with (height k) by lia. }
  assert (l < height k)%nat as Hlh. { destruct (decide (l < height k)%nat); [done|]. assert (width k l = 1)%nat by (apply width_height; lia). lia. }
  pose proof (path_lt k i l Hk Hi) as Hp. rewrite (se_cnt _ _ _ _ _ HS). fold k. rewrite (partner_idx k l (i / 2 ^ l) n) by (done || lia). pose proof (se_ok _ _ _ _ _ HS) as Ho. rewrite (bo_sz _ _ _ _ Ho).
  pose proof (partner_lt _ _ Hp) as Hp2. pose proof (idx_in_tree k l _ n Hk Hp2 ltac:(lia) Hh) as Hidx. replace (zpow n - 1 <=? _) with false by lia. pose proof (idx_range l (partner (width k l) (i / 2 ^ l))).
  destruct (proof_node_ok hs ps n Hsz Hn st (idx l (partner (width k l) (i / 2 ^ l))) Ho ltac:(lia)) as [-> _]. cbn [mbind outcome_bind].
  rewrite (se_store _ _ _ _ _ HS) by (done || (right; fold k; lia)). rewrite (bo_hs _ _ _ _ Ho). fold hsn. change (take hsn (tnode L l (partner (width k l) (i / 2 ^ l)))) with (proof_chunk L i l).
  pose proof (se_nodes _ _ _ _ _ HS) as HL. destruct Hsz as [[Hh0 Hh32] _].
  assert (Z.of_nat l *w hs = Z.of_nat (l * hsn)) as -> by (unfold u64_mul, hsn; rewrite u64_small by (unfold is_u64, ULONG_MAX; nia); lia).
  assert (S l * hsn <= length dest)%nat as Hroom by (etrans; [|exact Hd]; apply Nat.mul_le_mono_r; lia).
  rewrite buf_put_ok by (rewrite length_app, length_drop, chunk_length, proof_bytes_length by done; lia). cbn [mbind outcome_bind]. rewrite chunk_length by done.
  rewrite take_app_length' by (by rewrite proof_bytes_length). rewrite drop_app_ge by (rewrite proof_bytes_length by done; lia). rewrite proof_bytes_length by done. rewrite drop_drop.
  replace (l * hsn + (l * hsn + hsn - l * hsn))%nat with (S l * hsn)%nat by lia. rewrite app_assoc, <- proof_bytes_S.
  assert (Z.of_nat l +w 1 = Z.of_nat (S l)) as -> by (rewrite u64_add_small by (unfold is_u64, ULONG_MAX; lia); lia). rewrite (half_shift hs ps n (conj (conj Hh0 Hh32) ltac:(destruct Hsz; done)) Hn) by (by apply (width_max hs ps n Hsz Hn)).
  change ((width k l + 1) / 2)%nat with (width k (S l)). rewrite shiftl1 by lia. pose proof (zpow_pos (S l)). pose proof (zpow_63 (S l) ltac:(lia)). rewrite u64_sub_small by (unfold is_u64, ULONG_MAX; lia).
  replace (Z.of_nat (S l) + 1) with (1 + Z.of_nat (S l)) by lia. rewrite idx_insert by lia. replace (S l - l)%nat with 1%nat by lia. change (2 ^ 1)%nat with 2%nat. rewrite <- div_pow_S. apply IH; lia.
Qed.

Lemma get_proof_ok st L i dest : sealed hs ps n st L -> (i < length L)%nat -> (height (length L) < n)%nat -> (height (length L) * hsn <= length dest)%nat ->
  fd_bmtree_get_proof st dest (Z.of_nat i) = Ok (proof_bytes L i (height (length L)) ++ drop (height (length L) * hsn) dest, Some (Z.of_nat (height (length L)))).
Proof using Hsz Hn.
  intros HS Hi Hh Hd. unfold fd_bmtree_get_proof. rewrite (se_cnt _ _ _ _ _ HS). pose proof (se_max _ _ _ _ _ HS) as Hmax. replace (Z.of_nat (length L) <=? Z.of_nat i) with false by lia.
  unfold u64_mul. rewrite u64_small by (unfold is_u64, ULONG_MAX, leaf_max in *; lia). replace (Z.of_nat i * 2) with (idx 0 (i / 2 ^ 0)) by (rewrite idx_0; change (2 ^ 0)%nat with 1%nat; rewrite Nat.div_1_r; lia).
  pose proof (height_62 _ (se_pos _ _ _ _ _ HS) Hmax). apply (get_proof_up_ok 64 st L i 0 dest HS Hi Hh); lia.
Qed.

(** ** Hashing up a proof *)

(** The node reached from node [j] with value [x] by hashing with [cs]. *)
Fixpoint climb (j : nat) (x : fd_bmtree_node_t) (cs : list (list Z)) : fd_bmtree_node_t :=
  match cs with
  | [] => x
  | c :: cs => climb (j / 2) (if Nat.even j then hash x c else hash c x) cs
  end.

(** The pieces [l], ..., [l+m-1] of a proof. *)
Definition chunk_at (proof : list Z) (l : nat) : list Z := take hsn (drop (l * hsn) proof).
Definition chunks (proof : list Z) (l m : nat) : list (list Z) := chunk_at proof <$> seq l m.

Lemma read_chunk proof l : ((l + 1) * hsn <= length proof)%nat -> (l <= 62)%nat -> mem_read proof (Z.of_nat l *w hs) hs = Ok (chunk_at proof l) /\ mem_read proof (hs *w Z.of_nat l) hs = Ok (chunk_at proof l).
Proof using Hsz Hn.
  intros Hl H62. destruct Hsz as [[Hh0 Hh32] _]. assert (Z.of_nat l *w hs = Z.of_nat (l * hsn)) as E by (unfold u64_mul, hsn; rewrite u64_small by (unfold is_u64, ULONG_MAX; nia); lia).
  assert (hs *w Z.of_nat l = Z.of_nat (l * hsn)) as E' by (rewrite <- E; unfold u64_mul; f_equal; lia). rewrite E, E'. unfold mem_read. replace (_ && _ && _) with true; [|symmetry; unfold hsn in *; rewrite !andb_true_iff, !Z.leb_le; nia].
  cbn [check mbind outcome_bind]. unfold chunk_at, hsn. by rewrite Nat2Z.id.
Qed.

Lemma chunk_bytes_ok proof l : Forall is_byte proof -> Forall is_byte (chunk_at proof l).
Proof using Hsz Hn. intros Hb. unfold chunk_at. by apply Forall_take, Forall_drop. Qed.

Lemma from_proof_up_ok m proof l j x : Forall is_byte proof -> Forall is_byte x -> ((l + m) * hsn <= length proof)%nat -> (l + m <= 62)%nat ->
  from_proof_up m x proof hs ps (Z.of_nat l) (idx l j) = Ok (climb j x (chunks proof l m)).
Proof using Hsz Hn.
  intros Hp. revert l j x. induction m as [|m IH]; intros l j x Hx Hlen Hm; [done|]. cbn [from_proof_up]. destruct (read_chunk proof l) as [-> _]; [nia|lia|]. cbn [mbind outcome_bind].
  replace (Z.of_nat l + 1) with (Z.of_nat (S l)) by lia. rewrite shiftl1 by lia. rewrite land_pow_idx. pose proof (chunk_bytes_ok proof l Hp) as Hc. rewrite merge_ok by (done || by destruct (Nat.even j)). cbn [mbind outcome_bind].
  fold (parent_of (idx l j) (Z.of_nat l)). rewrite parent_idx by lia. assert (Z.of_nat l +w 1 = Z.of_nat (S l)) as -> by (rewrite u64_add_small by (unfold is_u64, ULONG_MAX; lia); lia).
  rewrite IH; [|apply H_ok|nia|lia]. cbn [chunks seq fmap list_fmap climb]. by destruct (Nat.even j).
Qed.

Lemma from_proof_ok leaf i proof m : node_ok leaf -> Forall is_byte proof -> (m * hsn <= length proof)%nat -> (m <= 62)%nat -> Z.of_nat i < leaf_max ->
  fd_bmtree_from_proof leaf (Z.of_nat i) proof (Z.of_nat m) hs ps = Ok (if decide (height (i + 1) <= m)%nat then Some (climb i leaf (chunks proof 0 m)) else None).
Proof using Hsz Hn.
  intros [_ Hx] Hp Hlen Hm Hi. unfold fd_bmtree_from_proof. rewrite u64_add_small by (unfold is_u64, ULONG_MAX, leaf_max in *; lia). replace (Z.of_nat i + 1) with (Z.of_nat (i + 1)) by lia.
  rewrite depth_height by (lia || (unfold ULONG_MAX, leaf_max in *; lia)). pose proof (height_62 (i + 1) ltac:(lia) ltac:(unfold leaf_max in *; lia)). rewrite u64_sub_small by (unfold is_u64, ULONG_MAX; lia). rewrite Z.add_simpl_r.
  case_decide as Hd; [|by replace (Z.of_nat m <? Z.of_nat (height (i + 1))) with true by lia]. replace (Z.of_nat m <? Z.of_nat (height (i + 1))) with false by lia.
  unfold u64_mul. rewrite u64_small by (unfold is_u64, ULONG_MAX, leaf_max in *; lia). replace (Z.of_nat i * 2) with (idx 0 i) by (rewrite idx_0; lia). rewrite Nat2Z.id. change 0 with (Z.of_nat 0). by rewrite from_proof_up_ok by (done || lia).
Qed.

(** The proof of a leaf leads to the root. *)
Lemma climb_path L i m l : Forall node_ok L -> (1 <= length L)%nat -> (i < length L)%nat -> climb (i / 2 ^ l) (tnode L l (i / 2 ^ l)) (proof_chunk L i <$> seq l m) = tnode L (l + m) (i / 2 ^ (l + m)).
Proof using Hsz Hn.
  intros HL Hk Hi. revert l. induction m as [|m IH]; intros l; cbn [seq fmap list_fmap climb]; [by rewrite Nat.add_0_r|]. pose proof (path_lt _ i l Hk Hi) as Hp.
  replace (l + S m)%nat with (S l + m)%nat by lia. rewrite <- IH. rewrite <- div_pow_S. f_equal. rewrite div_pow_S, hash_partner by done. set (j := (i / 2 ^ l)%nat) in *.
  assert (same hs (proof_chunk L i l) (tnode L l (partner (width (length L) l) j))) as Hs. { unfold same, proof_chunk. fold hsn. by rewrite take_idemp. }
  destruct (Nat.even j); by rewrite Hs.
Qed.

Lemma chunks_proof_bytes L i m rest : Forall node_ok L -> (1 <= length L)%nat -> (i < length L)%nat -> chunks (proof_bytes L i m ++ rest) 0 m = proof_chunk L i <$> seq 0 m.
Proof using Hsz Hn.
  intros HL Hk Hi. apply list_fmap_ext. intros l x [-> Hl]%lookup_seq. cbn [Nat.add]. destruct (proof_bytes_prefix L i (S l) m ltac:(lia)) as [r ->]. rewrite proof_bytes_S, <- !app_assoc.
  unfold chunk_at. rewrite drop_app_length' by (by rewrite proof_bytes_length). by rewrite take_app_length' by (by rewrite chunk_length).
Qed.

Lemma div_height k i : (1 <= k)%nat -> (i < k)%nat -> (i / 2 ^ height k = 0)%nat.
Proof using Hsz Hn. intros Hk Hi. destruct (height_spec k Hk) as [Hh _]. apply Nat.div_small. lia. Qed.

Lemma climb_proof L i rest : Forall node_ok L -> (i < length L)%nat -> climb i (nth i L []) (chunks (proof_bytes L i (height (length L)) ++ rest) 0 (height (length L))) = merkle_root hs ps L.
Proof using Hsz Hn.
  intros HL Hi. rewrite chunks_proof_bytes by (done || lia). pose proof (climb_path L i (height (length L)) 0 HL ltac:(lia) Hi) as E. rewrite Nat.add_0_l, div_height in E by lia. change (2 ^ 0)%nat with 1%nat in E. rewrite Nat.div_1_r in E. exact E.
Qed.

Lemma proof_bytes_ok L i m : Forall node_ok L -> (i < length L)%nat -> Forall is_byte (proof_bytes L i m).
Proof using Hsz Hn.
  intros HL Hi. induction m as [|m IH]; [constructor|]. rewrite proof_bytes_S. apply Forall_app. split; [done|]. unfold proof_chunk. apply Forall_take. apply (tnode_ok hs ps n Hsz Hn); [done|]. apply partner_lt, path_lt; lia.
Qed.

Lemma height_mono i k : (1 <= i)%nat -> (i <= k)%nat -> (height i <= height k)%nat.
Proof using Hsz Hn. intros Hi Hik. apply height_le; [done|]. destruct (height_spec k ltac:(lia)). lia. Qed.
End Paths.
