(* ===== verification/BmtreeKnown.v ===== *)
(** * Merkle trees from proofs: insertion

    A calculation by proofs keeps the nodes it knows.  Its invariant [pinv]: the parent of
    two known partners is known and is their hash.  Inserting a leaf with a proof never
    leaves the arrays, and either reports a conflict or adds the leaf, the nodes of the
    proof and the nodes that follow from them. *)
From S2P Require Import Prelude VotorBase Sha256 Sha256Props Bmtree BmtreeSpec BmtreeLeaves BmtreePaths.

Section Known.
Context (hs ps : Z) (n : nat) (Hsz : sizes_ok hs ps) (Hn : (1 <= n <= 62)%nat).
Notation ok := (bm_ok hs ps n).
Notation hash := (H hs ps).
Notation "a ≃ b" := (same hs a b) (at level 70).

Lemma Hn62 : (n <= 62)%nat.
Proof using Hsz Hn. lia. Qed.

(** ** The bit set *)

Definition valid (st : fd_bmtree_commit_t) (i : Z) : bool := Z.testbit (nth (Z.to_nat (i / 64)) (bm_inclusion_proofs_valid st) 0) (i mod 64).

Record words_ok (st : fd_bmtree_commit_t) : Prop := mk_words_ok {
  wo_len : 1 + (zpow n - 1) / 64 <= Z.of_nat (length (bm_inclusion_proofs_valid st));
  wo_words : Forall is_u64 (bm_inclusion_proofs_valid st);
  wo_bound : forall i, 0 <= i -> valid st i = true -> i < zpow n - 1 }.

Lemma word_get st i : words_ok st -> 0 <= i < Z.of_nat (length (bm_inclusion_proofs_valid st)) ->
  arr_get (bm_inclusion_proofs_valid st) i = Ok (nth (Z.to_nat i) (bm_inclusion_proofs_valid st) 0) /\ is_u64 (nth (Z.to_nat i) (bm_inclusion_proofs_valid st) 0).
Proof using Hsz Hn.
  intros Hw Hi. unfold arr_get. replace (0 <=? i) with true by lia. cbn [check mbind outcome_bind]. destruct (nth_lookup_or_length (bm_inclusion_proofs_valid st) (Z.to_nat i) 0) as [E|]; [|lia]. rewrite E. split; [done|].
  pose proof (wo_words _ Hw) as Hf. rewrite Forall_forall in Hf. apply Hf. by eapply list_elem_of_lookup_2.
Qed.

Lemma word_bound st i : words_ok st -> 0 <= i < zpow n -> 0 <= i / 64 < Z.of_nat (length (bm_inclusion_proofs_valid st)).
Proof using Hsz Hn. intros Hw Hi. pose proof (wo_len _ Hw). pose proof (Z.div_le_mono i (zpow n - 1) 64 ltac:(lia) ltac:(lia)). pose proof (Z.div_pos i 64). lia. Qed.

Lemma has_node_ok st i : words_ok st -> 0 <= i < zpow n -> has_node st i = Ok (valid st i).
Proof using Hsz Hn. intros Hw Hi. unfold has_node. by destruct (word_get st (i / 64) Hw (word_bound st i Hw Hi)) as [-> _]. Qed.

Lemma lor_bit_u64 w b : is_u64 w -> 0 <= b < 64 -> is_u64 (Z.lor w (Z.shiftl 1 b)).
Proof using Hsz Hn.
  unfold is_u64, ULONG_MAX. intros Hw Hb. rewrite Z.shiftl_1_l. split; [apply Z.lor_nonneg; split; [lia|apply Z.pow_nonneg; lia]|]. assert (0 <= Z.lor w (2 ^ b)) by (apply Z.lor_nonneg; split; [lia|apply Z.pow_nonneg; lia]).
  enough (Z.lor w (2 ^ b) < 2 ^ 64) by lia. destruct (decide (Z.lor w (2 ^ b) = 0)) as [->|]; [lia|]. apply Z.log2_lt_pow2; [lia|]. rewrite Z.log2_lor by (lia || apply Z.pow_nonneg; lia). rewrite Z.log2_pow2 by lia.
  assert (Z.log2 w < 64); [|lia]. destruct (decide (w = 0)) as [->|]; [done|]. apply Z.log2_lt_pow2; lia.
Qed.

Lemma mark_node_ok st i : words_ok st -> 0 <= i < zpow n - 1 ->
  exists v, mark_node st i = Ok (bm_set_valid st v) /\ words_ok (bm_set_valid st v) /\ forall k, 0 <= k -> valid (bm_set_valid st v) k = valid st k || bool_decide (k = i).
Proof using Hsz Hn.
  intros Hw Hi. unfold mark_node. pose proof (word_bound st i Hw ltac:(lia)) as Hb. destruct (word_get st (i / 64) Hw Hb) as [-> Hu]. cbn [mbind outcome_bind]. rewrite arr_set_z by done. cbn [mbind outcome_bind].
  pose proof (Z.mod_pos_bound i 64 ltac:(lia)) as Hm. set (w := nth _ _ 0) in *. eexists. split; [done|].
  assert (forall k, 0 <= k -> valid (bm_set_valid st (<[Z.to_nat (i / 64) := Z.lor w (Z.shiftl 1 (i mod 64))]> (bm_inclusion_proofs_valid st))) k = valid st k || bool_decide (k = i)) as Hv.
  { intros k Hk. unfold valid. cbn [bm_set_valid bm_inclusion_proofs_valid]. rewrite !nth_lookup. pose proof (Z.div_mod k 64 ltac:(lia)). pose proof (Z.div_mod i 64 ltac:(lia)). pose proof (Z.mod_pos_bound k 64 ltac:(lia)). pose proof (Z.div_pos k 64 Hk ltac:(lia)).
    destruct (decide (k / 64 = i / 64)) as [E|E].
    - rewrite E, list_lookup_insert_eq by lia. cbn [default from_option id]. rewrite <- nth_lookup. fold w. rewrite Z.lor_spec, Z.shiftl_1_l. f_equal. case_bool_decide as Ek; [subst; by rewrite Z.pow2_bits_true by lia|]. apply Z.pow2_bits_false. lia.
    - rewrite list_lookup_insert_ne by lia. rewrite bool_decide_eq_false_2 by (intros ->; done). by rewrite orb_false_r. }
  split; [|done]. destruct Hw as [Hl Hf Hbd]. split; [by cbn; rewrite length_insert| |].
  - cbn. apply Forall_insert; [done|]. by apply lor_bit_u64.
  - intros k Hk. rewrite Hv by done. rewrite orb_true_iff, bool_decide_eq_true. intros [| ->]; [by apply Hbd|lia].
Qed.

(** ** The invariant *)

(** The hash of a node and its partner, in their order. *)
Definition ph (j : nat) (x y : fd_bmtree_node_t) : fd_bmtree_node_t := if Nat.even j then hash x y else hash y x.

Definition known (st : fd_bmtree_commit_t) (l j : nat) : bool := valid st (idx l j).
Definition value (st : fd_bmtree_commit_t) (l j : nat) : fd_bmtree_node_t := zat (bm_inclusion_proofs st) (idx l j).

Definition consistent (K : nat -> nat -> bool) (V : nat -> nat -> fd_bmtree_node_t) : Prop :=
  forall l j, (S l < n)%nat -> K l j = true -> K l (sib j) = true -> K (S l) (j / 2)%nat = true /\ V (S l) (j / 2)%nat ≃ ph j (V l j) (V l (sib j)).

Record pinv (st : fd_bmtree_commit_t) : Prop := mk_pinv {
  pi_ok : ok st;
  pi_words : words_ok st;
  pi_cons : consistent (known st) (value st) }.

Lemma ph_same j x x' y y' : x ≃ x' -> y ≃ y' -> ph j x y = ph j x' y'.
Proof using Hsz Hn. intros Hx Hy. unfold ph. destruct (Nat.even j); [by rewrite Hx, Hy|by rewrite Hx, Hy]. Qed.

Lemma ph_ok j x y : node_ok (ph j x y).
Proof using Hsz Hn. unfold ph. destruct (Nat.even j); apply H_ok. Qed.

Lemma merge_ph st j x y : ok st -> Forall is_byte x -> Forall is_byte y -> merge st (if Nat.even j then x else y) (if Nat.even j then y else x) = Ok (ph j x y).
Proof using Hsz Hn.
  intros Ho Hx Hy. unfold merge, ph. rewrite (bo_hs _ _ _ _ Ho), (bo_ps _ _ _ _ Ho). rewrite merge_ok by (done || by destruct (Nat.even j)). by destruct (Nat.even j).
Qed.

Lemma same_hash_iff x y : same_hash hs x y = true <-> x ≃ y.
Proof using Hsz Hn. unfold same_hash, same. apply bool_decide_eq_true. Qed.

Lemma conflicts_ok st l j x : ok st -> words_ok st -> idx l j < zpow n - 1 ->
  exists c, conflicts st (idx l j) x = Ok c /\ (c = false -> known st l j = true -> x ≃ value st l j) /\ (c = true -> known st l j = true /\ ~ x ≃ value st l j).
Proof using Hsz Hn.
  intros Ho Hw Hi. pose proof (idx_range l j). unfold conflicts. rewrite has_node_ok by (done || lia). cbn [mbind outcome_bind]. unfold known. destruct (valid st (idx l j)); cbn [negb]; [|by exists false].
  destruct (proof_node_ok hs ps n Hsz Hn62 st (idx l j) Ho ltac:(lia)) as [-> _]. cbn [mbind outcome_bind]. rewrite (bo_hs _ _ _ _ Ho). fold (value st l j).
  destruct (same_hash hs x (value st l j)) eqn:E; cbn [negb].
  - exists false. split_and!; [done| |done]. intros _ _. by apply same_hash_iff.
  - exists true. split_and!; [done|done|]. intros _. split; [done|]. intros Hs%same_hash_iff. congruence.
Qed.

(** States that differ in [node_buf] only. *)
Lemma known_buf st B l j : known (bm_set_node_buf st B) l j = known st l j.
Proof using Hsz Hn. done. Qed.
Lemma value_buf st B l j : value (bm_set_node_buf st B) l j = value st l j.
Proof using Hsz Hn. done. Qed.
Lemma words_buf st B : words_ok st -> words_ok (bm_set_node_buf st B).
Proof using Hsz Hn. intros [? ? ?]. by split. Qed.

(** ** Writing nodes *)

(** The node of layer [l] in [node_buf]. *)
Definition bnode (B : list fd_bmtree_node_t) (l : nat) : fd_bmtree_node_t := zat B (Z.of_nat l).

Lemma bnode_insert B l x m : length B = 63%nat -> (l < 63)%nat -> bnode (<[l := x]> B) m = if decide (m = l) then x else bnode B m.
Proof using Hsz Hn.
  intros HB Hl. unfold bnode. rewrite <- (Nat2Z.id l) at 1. rewrite zat_insert by lia. do 2 case_decide; (done || lia).
Qed.

(** States that differ in the stored nodes and the bit set. *)
Definition with_nodes (st : fd_bmtree_commit_t) (P : list fd_bmtree_node_t) (W : list Z) : fd_bmtree_commit_t := bm_set_valid (bm_set_proofs st P) W.

Lemma store_ok st l j x : ok st -> words_ok st -> idx l j < zpow n - 1 -> node_ok x ->
  exists P W, (st ← set_proof_node st (idx l j) x; mark_node st (idx l j)) = Ok (with_nodes st P W) /\ ok (with_nodes st P W) /\ words_ok (with_nodes st P W) /\
    (forall m k, value (with_nodes st P W) m k = if decide (m = l /\ k = j) then x else value st m k) /\ (forall m k, known (with_nodes st P W) m k = known st m k || bool_decide (m = l /\ k = j)).
Proof using Hsz Hn.
  intros Ho Hw Hb Hx. pose proof (idx_range l j). destruct (set_proof_ok hs ps n Hsz Hn62 st (idx l j) x Ho ltac:(lia) Hx) as [-> Ho1]. cbn [mbind outcome_bind]. set (P := <[_ := _]> _) in *.
  assert (words_ok (bm_set_proofs st P)) as Hw1 by (destruct Hw; by split). destruct (mark_node_ok _ (idx l j) Hw1 ltac:(lia)) as (W & -> & Hw2 & Hv). exists P, W. split; [done|]. split; [destruct Ho1; by split|]. split; [done|]. split.
  - intros m k. pose proof (idx_range m k). unfold value. cbn [with_nodes bm_set_valid bm_set_proofs bm_inclusion_proofs]. unfold P. rewrite zat_insert by (pose proof (bo_len _ _ _ _ Ho); lia). apply decide_ext. split; [intros E%idx_inj; tauto|by intros [-> ->]].
  - intros m k. unfold known. pose proof (idx_range m k). change (with_nodes st P W) with (bm_set_valid (bm_set_proofs st P) W). rewrite Hv by done. f_equal. apply bool_decide_ext. split; [intros E%idx_inj; tauto|by intros [-> ->]].
Qed.

Lemma bind_assoc {A B C} (m : outcome A) (f : A -> outcome B) (g : B -> outcome C) : (x ← m; y ← f x; g y) = (y ← (x ← m; f x); g y).
Proof using Hsz Hn. by destruct m. Qed.

Lemma with_with st P W P' W' : with_nodes (with_nodes st P W) P' W' = with_nodes st P' W'.
Proof using Hsz Hn. done. Qed.

(** ** The walk along the proof *)

Section Walk.
Context (st0 : fd_bmtree_commit_t) (Hinv : pinv st0) (i : nat) (proof : list Z) (Hproof : Forall is_byte proof) (Hi : idx 0 i < zpow n - 1).

Definition path (l : nat) : nat := (i / 2 ^ l)%nat.
Notation chunk := (chunk_at hs proof).

Lemma path_S l : path (S l) = (path l / 2)%nat.
Proof using Hsz Hn Hinv Hproof Hi. apply (div_pow_S hs ps n Hsz Hn62). Qed.

Lemma path_bound l : (l < n)%nat -> idx l (path l) < zpow n - 1.
Proof using Hsz Hn Hinv Hproof Hi.
  induction l as [|l IH]; intros Hl; [unfold path; change (2 ^ 0)%nat with 1%nat; by rewrite Nat.div_1_r|]. rewrite path_S. apply idx_parent_bound; [done|]. apply IH. lia.
Qed.

Lemma path_sib_bound l : (S l < n)%nat -> idx l (sib (path l)) < zpow n - 1.
Proof using Hsz Hn Hinv Hproof Hi. intros Hl. apply idx_sib_bound; [done|]. apply path_bound. lia. Qed.


Definition proof_step (B : list fd_bmtree_node_t) (l : nat) : Prop :=
  bnode B (S l) ≃ ph (path l) (bnode B l) (chunk l) /\ (known st0 l (sib (path l)) = true -> chunk l ≃ value st0 l (sib (path l))) /\
  (known st0 l (path l) = true -> bnode B l ≃ value st0 l (path l)) /\
  (known st0 l (sib (path l)) = false -> bnode B (S l) = ph (path l) (bnode B l) (chunk l)).

(** A node of the walk that is known with another hash. *)
Definition conflict_at (B : list fd_bmtree_node_t) (l : nat) : Prop :=
  known st0 l (sib (path l)) = true /\ ~ chunk l ≃ value st0 l (sib (path l)) \/ known st0 l (path l) = true /\ ~ bnode B l ≃ value st0 l (path l).

Lemma buf_len B : ok (bm_set_node_buf st0 B) -> length B = 63%nat.
Proof using Hsz Hn Hinv Hproof Hi. intros Ho. apply (bo_buf_len _ _ _ _ Ho). Qed.

Lemma proof_up_ok m : forall l B, ok (bm_set_node_buf st0 B) -> (l + m < n)%nat -> ((l + m) * hsn hs <= length proof)%nat ->
  exists B' r, proof_up m (bm_set_node_buf st0 B) proof (Z.of_nat l) (idx l (path l)) = Ok (bm_set_node_buf st0 B', r) /\ ok (bm_set_node_buf st0 B') /\
    (forall l', (l' <= l)%nat -> bnode B' l' = bnode B l') /\
    match r with
    | None => exists l', (l <= l' < l + m)%nat /\ conflict_at B' l' /\ forall l'', (l <= l'' < l')%nat -> proof_step B' l''
    | Some q => q = idx (l + m) (path (l + m)) /\ forall l', (l <= l' < l + m)%nat -> proof_step B' l'
    end.
Proof using Hsz Hn Hinv Hproof Hi.
  induction m as [|m IH]; intros l B Ho Hl Hlen; cbn [proof_up].
  { exists B, (Some (idx l (path l))). rewrite Nat.add_0_r. split_and!; try done. intros; lia. }
  pose proof (words_buf st0 B (pi_words _ Hinv)) as Hw. pose proof (path_bound l ltac:(lia)) as Hb. pose proof (path_sib_bound l ltac:(lia)) as Hsb.
  rewrite sibling_idx, parent_idx, is_left_idx by lia. rewrite (bo_hs _ _ _ _ Ho). destruct (read_chunk hs ps n Hsz Hn62 proof l) as [_ ->]; [nia|lia|]. cbn [mbind outcome_bind].
  destruct (conflicts_ok _ l (sib (path l)) (chunk l) Ho Hw Hsb) as (c1 & -> & Hc1 & Hc1'). cbn [mbind outcome_bind]. destruct c1; [exists B, None; split_and!; try done; exists l; split_and!; [lia|lia|left; by apply Hc1'|intros; lia]|]. specialize (Hc1 eq_refl). clear Hc1'.
  destruct (buf_node_ok hs ps n Hsz Hn62 _ l Ho ltac:(lia)) as [-> Hnode]. cbn [mbind outcome_bind bm_set_node_buf bm_node_buf] in Hnode |- *. fold (bnode B l) in Hnode |- *.
  destruct (conflicts_ok _ l (path l) (bnode B l) Ho Hw Hb) as (c2 & -> & Hc2 & Hc2'). cbn [mbind outcome_bind]. destruct c2; [exists B, None; split_and!; try done; exists l; split_and!; [lia|lia|right; by apply Hc2'|intros; lia]|]. specialize (Hc2 eq_refl). clear Hc2'.
  fold (bm_set_node_buf st0 B). pose proof (idx_range l (path l)). pose proof (idx_range l (sib (path l))). rewrite !has_node_ok by (done || lia). cbn [mbind outcome_bind].
  change (valid (bm_set_node_buf st0 B) (idx l (sib (path l)))) with (known st0 l (sib (path l))). change (valid (bm_set_node_buf st0 B) (idx l (path l))) with (known st0 l (path l)).
  assert (exists parent, (if known st0 l (sib (path l)) && known st0 l (path l) then proof_node (bm_set_node_buf st0 B) (idx (S l) (path l / 2))
      else merge (bm_set_node_buf st0 B) (if Nat.even (path l) then bnode B l else chunk l) (if Nat.even (path l) then chunk l else bnode B l)) = Ok parent /\ node_ok parent /\ parent ≃ ph (path l) (bnode B l) (chunk l) /\ (known st0 l (sib (path l)) = false -> parent = ph (path l) (bnode B l) (chunk l))) as (parent & -> & Hpar & Epar & Eparx).
  { destruct (known st0 l (sib (path l))) eqn:K1; [destruct (known st0 l (path l)) eqn:K2|]; cbn [andb].
    - pose proof (path_bound (S l) ltac:(lia)) as HbS. rewrite path_S in HbS. pose proof (idx_range (S l) (path l / 2)). destruct (proof_node_ok hs ps n Hsz Hn62 _ (idx (S l) (path l / 2)) Ho ltac:(lia)) as [-> Hok]. eexists. split; [done|]. split; [done|].
      split; [|done]. destruct (pi_cons _ Hinv l (path l) ltac:(lia) K2 K1) as [_ Hcons]. etrans; [exact Hcons|]. unfold same. f_equal. symmetry. apply ph_same; [by apply Hc2|by apply Hc1].
    - eexists. rewrite merge_ph by (done || apply Hnode || apply (chunk_bytes_ok hs ps n Hsz Hn62); done). split; [done|]. split; [apply ph_ok|split; done].
    - eexists. rewrite merge_ph by (done || apply Hnode || apply (chunk_bytes_ok hs ps n Hsz Hn62); done). split; [done|]. split; [apply ph_ok|split; done]. }
  cbn [mbind outcome_bind]. assert (Z.of_nat l +w 1 = Z.of_nat (S l)) as -> by (rewrite u64_add_small by (unfold is_u64, ULONG_MAX; lia); lia).
  destruct (set_buf_ok hs ps n Hsz Hn62 _ (S l) parent Ho ltac:(lia) Hpar) as [-> Ho2]. cbn [mbind outcome_bind bm_set_node_buf bm_node_buf] in Ho2 |- *. fold (bm_set_node_buf st0 (<[S l := parent]> B)) in Ho2 |- *. rewrite <- path_S.
  destruct (IH (S l) (<[S l := parent]> B) Ho2 ltac:(lia) ltac:(rewrite Nat.add_succ_comm; done)) as (B' & r & E & Ho' & Hpre & Hr). exists B', r. split; [exact E|]. split; [done|].
  assert (forall l', (l' <= l)%nat -> bnode B' l' = bnode B l') as Hpre'. { intros l' Hl'. rewrite Hpre by lia. rewrite bnode_insert by (lia || apply (buf_len _ Ho)). by rewrite decide_False by lia. }
  split; [done|]. assert (proof_step B' l) as Hstep.
  { unfold proof_step. rewrite (Hpre' l) by lia. rewrite (Hpre (S l)) by lia. rewrite bnode_insert by (lia || apply (buf_len _ Ho)). rewrite decide_True by done. split_and!; done. }
  assert (forall l' l'', (forall k, (S l <= k < l')%nat -> proof_step B' k) -> (l <= l'' < l')%nat -> proof_step B' l'') as Hall by (intros l' l'' Hk Hl'; destruct (decide (l'' = l)) as [->|]; [done|apply Hk; lia]).
  rewrite Nat.add_succ_comm in Hr. destruct r as [q|].
  - destruct Hr as [-> Hr]. split; [done|]. intros l' Hl'. by apply (Hall (l + S m)%nat).
  - destruct Hr as (l' & Hl' & Hc & Hr). exists l'. split_and!; [lia|lia|done|]. intros l'' Hl''. by apply (Hall l').
Qed.

Lemma at_top l : (l < n)%nat -> (zpow n - 1 <=? Z.lor (idx l (path l)) (u64 (Z.shiftl 2 (Z.of_nat l)))) = bool_decide (S l = n).
Proof using Hsz Hn Hinv Hproof Hi.
  intros Hl. rewrite shiftl2, lor_pow_idx by lia. pose proof (path_bound l Hl) as Hb. destruct (decide (S l = n)) as [E|E].
  - rewrite bool_decide_eq_true_2 by done. apply Z.leb_le. unfold idx. rewrite E. pose proof (zpow_pos l). pose proof (zpow_pos n). nia.
  - rewrite bool_decide_eq_false_2 by done. apply Z.leb_gt. pose proof (path_sib_bound l ltac:(lia)) as Hsb. destruct (even_cases (path l)) as [(_ & Ej & Es)|(_ & Ej & Es)]; [rewrite Es in Hsb; by replace (2 * (path l / 2) + 1)%nat with (path l + 1)%nat by lia|by rewrite <- Ej].
Qed.

Definition known_step (B : list fd_bmtree_node_t) (l : nat) : Prop :=
  known st0 l (path l) = false /\ known st0 l (sib (path l)) = true /\ bnode B (S l) = ph (path l) (bnode B l) (value st0 l (sib (path l))).

Lemma known_up_ok fuel : forall l B, ok (bm_set_node_buf st0 B) -> (l < n)%nat -> (n - l <= fuel)%nat ->
  exists B' T, known_up fuel (bm_set_node_buf st0 B) (Z.of_nat l) (idx l (path l)) = Ok (bm_set_node_buf st0 B', Z.of_nat T, idx T (path T)) /\ ok (bm_set_node_buf st0 B') /\ (l <= T < n)%nat /\
    (forall l', (l' <= l)%nat -> bnode B' l' = bnode B l') /\ (forall l', (l <= l' < T)%nat -> known_step B' l') /\
    ((S T < n)%nat -> known st0 T (path T) = false -> known st0 T (sib (path T)) = false).
Proof using Hsz Hn Hinv Hproof Hi.
  induction fuel as [|fuel IH]; intros l B Ho Hl Hf; [lia|]. cbn [known_up]. replace (63 <=? Z.of_nat l) with false by lia. rewrite (bo_sz _ _ _ _ Ho), at_top by done.
  case_bool_decide as Etop; [exists B, l; split_and!; try done; intros; lia|]. pose proof (words_buf st0 B (pi_words _ Hinv)) as Hw. pose proof (path_bound l Hl) as Hb. pose proof (path_sib_bound l ltac:(lia)) as Hsb.
  pose proof (idx_range l (path l)). pose proof (idx_range l (sib (path l))). rewrite sibling_idx, is_left_idx, parent_idx by lia. rewrite !has_node_ok by (done || lia). cbn [mbind outcome_bind].
  change (valid (bm_set_node_buf st0 B) (idx l (sib (path l)))) with (known st0 l (sib (path l))). change (valid (bm_set_node_buf st0 B) (idx l (path l))) with (known st0 l (path l)).
  destruct (known st0 l (path l)) eqn:K1; cbn [orb]; [exists B, l; split_and!; try done; intros; (lia || congruence)|]. destruct (known st0 l (sib (path l))) eqn:K2; cbn [negb]; [|exists B, l; split_and!; try done; intros; lia].
  destruct (proof_node_ok hs ps n Hsz Hn62 _ (idx l (sib (path l))) Ho ltac:(lia)) as [-> Hsn]. cbn [mbind outcome_bind]. change (zat (bm_inclusion_proofs (bm_set_node_buf st0 B)) (idx l (sib (path l)))) with (value st0 l (sib (path l))) in *.
  destruct (buf_node_ok hs ps n Hsz Hn62 _ l Ho ltac:(lia)) as [-> Hnode]. cbn [mbind outcome_bind bm_set_node_buf bm_node_buf] in Hnode |- *. fold (bnode B l) in Hnode |- *.
  rewrite merge_ph by (done || apply Hnode || apply Hsn). cbn [mbind outcome_bind]. assert (Z.of_nat l +w 1 = Z.of_nat (S l)) as -> by (rewrite u64_add_small by (unfold is_u64, ULONG_MAX; lia); lia).
  set (parent := ph _ _ _). destruct (set_buf_ok hs ps n Hsz Hn62 _ (S l) parent Ho ltac:(lia) (ph_ok _ _ _)) as [-> Ho2]. cbn [mbind outcome_bind bm_set_node_buf bm_node_buf] in Ho2 |- *. fold (bm_set_node_buf st0 (<[S l := parent]> B)) in Ho2. rewrite <- path_S.
  destruct (IH (S l) (<[S l := parent]> B) Ho2 ltac:(lia) ltac:(lia)) as (B' & T & E & Ho' & HT & Hpre & Hstep & Hstop). exists B', T. split; [exact E|]. split; [done|]. split; [lia|].
  assert (forall l', (l' <= l)%nat -> bnode B' l' = bnode B l') as Hpre'. { intros l' Hl'. rewrite Hpre by lia. rewrite bnode_insert by (lia || apply (buf_len _ Ho)). by rewrite decide_False by lia. }
  split_and!; [done| |done]. intros l' Hl'. destruct (decide (l' = l)) as [->|]; [|apply Hstep; lia]. split_and!; [done|done|]. rewrite (Hpre (S l)), (Hpre' l) by lia. rewrite bnode_insert by (lia || apply (buf_len _ Ho)). by rewrite decide_True by done.
Qed.

(** ** Caching *)


Definition on_branch (lo hi m k : nat) : Prop := (lo <= m < hi)%nat /\ k = path m.
Definition on_proof (lo hi m k : nat) : Prop := (lo <= m < hi)%nat /\ k = sib (path m).
#[local] Instance on_branch_dec lo hi m k : Decision (on_branch lo hi m k) := _.
#[local] Instance on_proof_dec lo hi m k : Decision (on_proof lo hi m k) := _.

Lemma cache_branch_ok cnt : forall l st, ok st -> words_ok st -> (l + cnt <= n)%nat ->
  exists P W, cache_branch cnt st (Z.of_nat l) (idx l (path l)) = Ok (with_nodes st P W) /\ ok (with_nodes st P W) /\ words_ok (with_nodes st P W) /\
    (forall m k, value (with_nodes st P W) m k = if decide (on_branch l (l + cnt) m k) then bnode (bm_node_buf st) m else value st m k) /\
    (forall m k, known (with_nodes st P W) m k = known st m k || bool_decide (on_branch l (l + cnt) m k)).
Proof using Hsz Hn Hinv Hproof Hi.
  induction cnt as [|cnt IH]; intros l st Ho Hw Hl; cbn [cache_branch].
  { exists (bm_inclusion_proofs st), (bm_inclusion_proofs_valid st). assert (with_nodes st (bm_inclusion_proofs st) (bm_inclusion_proofs_valid st) = st) as -> by (by destruct st). split_and!; try done; intros m k.
    - rewrite decide_False; [done|]. intros [? _]. lia.
    - rewrite bool_decide_eq_false_2, orb_false_r; [done|]. intros [? _]. lia. }
  destruct (buf_node_ok hs ps n Hsz Hn62 st l Ho ltac:(lia)) as [-> Hnode]. cbn [mbind outcome_bind]. rewrite bind_assoc. fold (bnode (bm_node_buf st) l) in *.
  destruct (store_ok st l (path l) _ Ho Hw (path_bound l ltac:(lia)) Hnode) as (P1 & W1 & -> & Ho1 & Hw1 & Hv1 & Hk1). cbn [mbind outcome_bind].
  replace (parent_of (idx l (path l)) (Z.of_nat l)) with (idx (S l) (path (S l))) by (rewrite parent_idx, path_S by lia; done). assert (Z.of_nat l +w 1 = Z.of_nat (S l)) as -> by (rewrite u64_add_small by (unfold is_u64, ULONG_MAX; lia); lia).
  destruct (IH (S l) _ Ho1 Hw1 ltac:(lia)) as (P & W & -> & Ho2 & Hw2 & Hv2 & Hk2). exists P, W. rewrite with_with in *. split_and!; try done; intros m k.
  - rewrite Hv2, Hv1. change (bm_node_buf (with_nodes st P1 W1)) with (bm_node_buf st). destruct (decide (m = l)) as [->|Hne].
    + rewrite (decide_False (P := on_branch (S l) _ _ _)) by (intros [? _]; lia). apply decide_ext. unfold on_branch. split; [intros [_ ->]; split; [lia|done]|by intros [_ ->]].
    + rewrite (decide_False (P := m = l /\ _)) by tauto. apply decide_ext. unfold on_branch. split; intros [? ->]; (split; [lia|done]).
  - rewrite Hk2, Hk1, <- orb_assoc. f_equal. rewrite <- bool_decide_or. apply bool_decide_ext. unfold on_branch. split; [intros [[-> ->]|[? ->]]; split; (lia || done)|]. intros [Hm ->]. destruct (decide (m = l)) as [->|]; [by left|right; split; [lia|done]].
Qed.

Lemma chunk_len l : ((l + 1) * hsn hs <= length proof)%nat -> length (chunk l) = hsn hs.
Proof using Hsz Hn Hinv Hproof Hi. intros Hl. unfold chunk_at. rewrite length_take, length_drop. lia. Qed.

(** A node whose first bytes were overwritten. *)
Lemma patched l old : ((l + 1) * hsn hs <= length proof)%nat -> node_ok old -> node_ok (chunk l ++ drop (Z.to_nat hs) old) /\ (chunk l ++ drop (Z.to_nat hs) old) ≃ chunk l.
Proof using Hsz Hn Hinv Hproof Hi.
  intros Hl [Hlen Hb]. pose proof (chunk_len l Hl) as Hc. fold (hsn hs). split.
  - split; [rewrite length_app, length_drop, Hc, Hlen; unfold hsn; destruct Hsz; lia|]. apply Forall_app. split; [by apply (chunk_bytes_ok hs ps n Hsz Hn62)|by apply Forall_drop].
  - unfold same. fold (hsn hs). rewrite take_app_length' by done. by rewrite take_ge by lia.
Qed.

Lemma cache_proof_ok cnt : forall l st, ok st -> words_ok st -> (l + cnt < n)%nat -> ((l + cnt) * hsn hs <= length proof)%nat ->
  exists P W, cache_proof cnt st proof (Z.of_nat l) (idx l (path l)) = Ok (with_nodes st P W) /\ ok (with_nodes st P W) /\ words_ok (with_nodes st P W) /\
    (forall m k, on_proof l (l + cnt) m k -> value (with_nodes st P W) m k ≃ chunk m) /\ (forall m k, ~ on_proof l (l + cnt) m k -> value (with_nodes st P W) m k = value st m k) /\
    (forall m k, known (with_nodes st P W) m k = known st m k || bool_decide (on_proof l (l + cnt) m k)).
Proof using Hsz Hn Hinv Hproof Hi.
  induction cnt as [|cnt IH]; intros l st Ho Hw Hl Hlen; cbn [cache_proof].
  { exists (bm_inclusion_proofs st), (bm_inclusion_proofs_valid st). assert (with_nodes st (bm_inclusion_proofs st) (bm_inclusion_proofs_valid st) = st) as -> by (by destruct st). split_and!; try done; intros m k.
    - intros [? _]. lia.
    - rewrite bool_decide_eq_false_2, orb_false_r; [done|]. intros [? _]. lia. }
  rewrite sibling_idx by lia. rewrite (bo_hs _ _ _ _ Ho). destruct (read_chunk hs ps n Hsz Hn62 proof l) as [_ ->]; [nia|lia|]. cbn [mbind outcome_bind]. pose proof (path_sib_bound l ltac:(lia)) as Hsb. pose proof (idx_range l (sib (path l))).
  destruct (proof_node_ok hs ps n Hsz Hn62 st (idx l (sib (path l))) Ho ltac:(lia)) as [-> Hold]. cbn [mbind outcome_bind]. rewrite bind_assoc. destruct (patched l _ ltac:(nia) Hold) as [Hnew Esame].
  destruct (store_ok st l (sib (path l)) _ Ho Hw Hsb Hnew) as (P1 & W1 & -> & Ho1 & Hw1 & Hv1 & Hk1). cbn [mbind outcome_bind].
  replace (parent_of (idx l (path l)) (Z.of_nat l)) with (idx (S l) (path (S l))) by (rewrite parent_idx, path_S by lia; done). assert (Z.of_nat l +w 1 = Z.of_nat (S l)) as -> by (rewrite u64_add_small by (unfold is_u64, ULONG_MAX; lia); lia).
  destruct (IH (S l) _ Ho1 Hw1 ltac:(lia) ltac:(rewrite Nat.add_succ_comm; done)) as (P & W & -> & Ho2 & Hw2 & Hv2 & Hv2' & Hk2). exists P, W. rewrite with_with in *. split_and!; try done; intros m k.
  - intros [Hm ->]. destruct (decide (m = l)) as [->|]; [|apply Hv2; split; [lia|done]]. rewrite Hv2' by (intros [? _]; lia). rewrite Hv1, decide_True by done. exact Esame.
  - intros Hno. rewrite Hv2' by (intros [? ->]; apply Hno; split; [lia|done]). rewrite Hv1, decide_False; [done|]. intros [-> ->]. apply Hno. split; [lia|done].
  - rewrite Hk2, Hk1, <- orb_assoc. f_equal. rewrite <- bool_decide_or. apply bool_decide_ext. unfold on_proof. split; [intros [[-> ->]|[? ->]]; split; (lia || done)|]. intros [Hm ->]. destruct (decide (m = l)) as [->|]; [by left|right; split; [lia|done]].
Qed.

(** ** Insertion *)

(** The walk up to layer [T] with a proof of [pd] nodes. *)
Record walked (leaf : fd_bmtree_node_t) (pd T : nat) (B : list fd_bmtree_node_t) : Prop := mk_walked {
  wk_T : (pd <= T < n)%nat;
  wk_leaf : bnode B 0 = leaf;
  wk_proof : forall l, (l < pd)%nat -> proof_step B l;
  wk_known : forall l, (pd <= l < T)%nat -> known_step B l;
  wk_stop : (S T < n)%nat -> known st0 T (path T) = false -> known st0 T (sib (path T)) = false;
  wk_top : known st0 T (path T) = true -> bnode B T ≃ value st0 T (path T) }.

(** What the calculation knows afterwards. *)
Record inserted (leaf : fd_bmtree_node_t) (pd T : nat) (B : list fd_bmtree_node_t) (st : fd_bmtree_commit_t) : Prop := mk_inserted {
  in_known : forall m k, known st m k = known st0 m k || bool_decide (on_branch 0 (S T) m k) || bool_decide (on_proof 0 pd m k);
  in_branch : forall m k, on_branch 0 (S T) m k -> value st m k = bnode B m;
  in_proof : forall m k, on_proof 0 pd m k -> value st m k ≃ chunk m;
  in_other : forall m k, ~ on_branch 0 (S T) m k -> ~ on_proof 0 pd m k -> value st m k = value st0 m k }.

Lemma sib_ne j : sib j <> j.
Proof using Hsz Hn Hinv Hproof Hi. destruct (even_cases j) as [(_ & E & ->)|(_ & E & ->)]; lia. Qed.

(** Nodes that were known keep their hashes. *)
Lemma inserted_keeps leaf pd T B st : walked leaf pd T B -> inserted leaf pd T B st -> forall m k, known st0 m k = true -> known st m k = true /\ value st m k ≃ value st0 m k.
Proof using Hsz Hn Hinv Hproof Hi.
  intros HW HI m k Hk. split; [by rewrite (in_known _ _ _ _ _ HI), Hk|]. destruct (decide (on_branch 0 (S T) m k)) as [Hb|Hb].
  - rewrite (in_branch _ _ _ _ _ HI) by done. destruct Hb as [Hm ->]. destruct (decide (m < pd)%nat) as [Hlt|]; [destruct (wk_proof _ _ _ _ HW m Hlt) as (_ & _ & Hx & _); by apply Hx|]. destruct (decide (m = T)) as [->|]; [by apply (wk_top _ _ _ _ HW)|].
    destruct (wk_known _ _ _ _ HW m ltac:(lia)) as (Hf & _). congruence.
  - destruct (decide (on_proof 0 pd m k)) as [Hp|Hp]; [|rewrite (in_other _ _ _ _ _ HI) by done; reflexivity]. rewrite (in_proof _ _ _ _ _ HI) by done. destruct Hp as [Hm ->]. destruct (wk_proof _ _ _ _ HW m ltac:(lia)) as (_ & Hx & _). by apply Hx.
Qed.

(** The parent of the node of the walk at a layer below the top. *)
Lemma inserted_step leaf pd T B st l : walked leaf pd T B -> inserted leaf pd T B st -> (l < T)%nat ->
  value st (S l) (path (S l)) ≃ ph (path l) (value st l (path l)) (value st l (sib (path l))).
Proof using Hsz Hn Hinv Hproof Hi.
  intros HW HI Hl. rewrite (in_branch _ _ _ _ _ HI (S l)) by (split; [lia|done]). rewrite (in_branch _ _ _ _ _ HI l) by (split; [lia|done]). destruct (decide (l < pd)%nat) as [Hpd|Hpd].
  - destruct (wk_proof _ _ _ _ HW l Hpd) as (Hs & _). rewrite Hs. unfold same. f_equal. apply ph_same; [done|]. symmetry. apply (in_proof _ _ _ _ _ HI). split; [lia|done].
  - destruct (wk_known _ _ _ _ HW l ltac:(lia)) as (_ & _ & ->). rewrite (in_other _ _ _ _ _ HI l (sib (path l))); [reflexivity| |]; intros [? E]; [by apply sib_ne in E|lia].
Qed.

Lemma ph_sib j x y : ph (sib j) x y = ph j y x.
Proof using Hsz Hn Hinv Hproof Hi.
  unfold ph. assert (Nat.even (sib j) = negb (Nat.even j)) as ->; [|by destruct (Nat.even j)]. pose proof (sib_half j) as Hh. destruct (even_cases j) as [(-> & E & Es)|(-> & E & Es)], (even_cases (sib j)) as [(-> & E' & _)|(-> & E' & _)]; try done; lia.
Qed.

(** A pair of which one node is new is the pair of the walk. *)
Lemma new_pair leaf pd T B st l b : walked leaf pd T B -> inserted leaf pd T B st -> (S l < n)%nat -> known st l b = true -> known st l (sib b) = true -> known st0 l b = false ->
  (l < T)%nat /\ (b = path l \/ b = sib (path l)).
Proof using Hsz Hn Hinv Hproof Hi.
  intros HW HI Hl K1 K2 K0. pose proof (wk_T _ _ _ _ HW) as HT. rewrite (in_known _ _ _ _ _ HI), K0 in K1. cbn [orb] in K1. apply orb_true_iff in K1. rewrite !bool_decide_eq_true in K1. destruct K1 as [[Hm ->]|[Hm ->]]; [|split; [lia|by right]].
  split; [|by left]. destruct (decide (l < T)%nat) as [|Hge]; [done|]. assert (l = T) as -> by lia. rewrite (in_known _ _ _ _ _ HI), (wk_stop _ _ _ _ HW) in K2 by done. cbn [orb] in K2.
  rewrite orb_true_iff, !bool_decide_eq_true in K2. destruct K2 as [[_ E]|[? _]]; [by apply sib_ne in E|lia].
Qed.

Lemma inserted_consistent leaf pd T B st : walked leaf pd T B -> inserted leaf pd T B st -> consistent (known st) (value st).
Proof using Hsz Hn Hinv Hproof Hi.
  intros HW HI l j Hl K1 K2. pose proof (inserted_keeps _ _ _ _ _ HW HI) as Hkeep. destruct (known st0 l j && known st0 l (sib j)) eqn:K0.
  { apply andb_true_iff in K0 as [K01 K02]. destruct (pi_cons _ Hinv l j Hl K01 K02) as [K3 V3]. destruct (Hkeep _ _ K3) as [K3' V3']. split; [done|]. rewrite V3', V3. unfold same. f_equal. apply ph_same; symmetry; by apply Hkeep. }
  assert ((l < T)%nat /\ (j = path l \/ j = sib (path l))) as [HlT Hj].
  { apply andb_false_iff in K0 as [K0|K0]; [by apply (new_pair leaf pd T B st)|]. destruct (new_pair leaf pd T B st l (sib j) HW HI Hl K2 ltac:(by rewrite sib_sib) K0) as [HlT Hj]. split; [done|].
    destruct Hj as [E|E]; [right; by rewrite <- E, sib_sib|left; apply (f_equal sib) in E; by rewrite !sib_sib in E]. }
  assert (j / 2 = path (S l))%nat as -> by (rewrite path_S; destruct Hj as [->| ->]; [done|apply sib_half]). pose proof (inserted_step _ _ _ _ _ l HW HI HlT) as Hs. split.
  - rewrite (in_known _ _ _ _ _ HI). rewrite (bool_decide_eq_true_2 (on_branch 0 (S T) (S l) (path (S l)))) by (split; [lia|done]). by rewrite orb_true_r.
  - destruct Hj as [->| ->]; [done|]. by rewrite sib_sib, ph_sib.
Qed.

(** Inserting returns; without a node, nothing known has changed. *)
Lemma insert_ok leaf pd : node_ok leaf -> (pd * hsn hs <= length proof)%nat -> (pd < n)%nat ->
  exists st r, fd_bmtree_commitp_insert_with_proof st0 (Z.of_nat i) leaf proof (Z.of_nat pd) = Ok (st, r) /\ ok st /\ words_ok st /\
    ((exists B, r = None /\ (forall m k, known st m k = known st0 m k) /\ (forall m k, value st m k = value st0 m k) /\ bnode B 0 = leaf /\
        exists l, (forall l', (l' < l)%nat -> l' < pd -> proof_step B l')%nat /\ (forall l', (pd <= l' < l)%nat -> known_step B l') /\ (l < n)%nat /\ ((l < pd)%nat /\ conflict_at B l \/ (pd <= l)%nat /\ known st0 l (path l) = true /\ ~ bnode B l ≃ value st0 l (path l))) \/
     exists T B, r = Some (bnode B T) /\ walked leaf pd T B /\ inserted leaf pd T B st).
Proof using Hsz Hn Hinv Hproof Hi.
  intros Hleaf Hlen Hpd. pose proof (pi_ok _ Hinv) as Ho. pose proof (pi_words _ Hinv) as Hw. unfold fd_bmtree_commitp_insert_with_proof. pose proof (zpow_63 n ltac:(lia)) as H63. pose proof (idx_range 0 i) as Hi0. rewrite idx_0 in Hi0.
  assert (2 *w Z.of_nat i = idx 0 i) as -> by (rewrite idx_0; unfold u64_mul; apply u64_small; rewrite idx_0 in Hi; unfold is_u64, ULONG_MAX; lia).
  rewrite (bo_sz _ _ _ _ Ho). replace (zpow n - 1 <=? idx 0 i) with false by lia. rewrite shiftl1 by lia. pose proof (zpow_pos pd). pose proof (zpow_lt pd n Hpd). rewrite u64_sub_small by (unfold is_u64, ULONG_MAX; lia).
  replace (63 <? Z.of_nat pd) with false by lia. replace (zpow n - 1 <=? zpow pd - 1) with false by lia. cbn [orb]. destruct (set_buf_ok hs ps n Hsz Hn62 st0 0 leaf Ho ltac:(lia) Hleaf) as [E1 Ho1]. change (Z.of_nat 0) with 0 in E1. rewrite E1. cbn [mbind outcome_bind]. clear E1.
  set (B0 := <[0%nat := leaf]> (bm_node_buf st0)) in *. assert (bnode B0 0 = leaf) as Hb0 by (unfold B0; rewrite bnode_insert by (lia || apply (bo_buf_len _ _ _ _ Ho)); done).
  assert (path 0 = i) as Hp0 by (unfold path; change (2 ^ 0)%nat with 1%nat; apply Nat.div_1_r). rewrite Nat2Z.id. destruct (proof_up_ok pd 0 B0 Ho1 ltac:(lia) Hlen) as (B1 & r1 & E2 & Ho2 & Hpre1 & Hr1). rewrite Hp0 in E2. change (Z.of_nat 0) with 0 in E2. rewrite E2. cbn [mbind outcome_bind]. clear E2.
  destruct r1 as [q|].
  2: { destruct Hr1 as (l & Hl & Hc & Hsteps). exists (bm_set_node_buf st0 B1), None. split_and!; [done|done|by apply words_buf|]. left. exists B1. split_and!; try done; [by rewrite Hpre1 by lia|]. exists l. split_and!; [intros; apply Hsteps; lia|intros; lia|lia|left; split; [lia|done]]. }
  destruct Hr1 as [-> Hsteps]. rewrite Nat.add_0_l in *. destruct (known_up_ok 64 pd B1 Ho2 Hpd ltac:(lia)) as (B2 & T & -> & Ho3 & HT & Hpre2 & Hknown & Hstop). cbn [mbind outcome_bind].
  destruct (buf_node_ok hs ps n Hsz Hn62 _ T Ho3 ltac:(lia)) as [-> Hnode]. cbn [mbind outcome_bind]. change (zat (bm_node_buf (bm_set_node_buf st0 B2)) (Z.of_nat T)) with (bnode B2 T) in *.
  destruct (conflicts_ok _ T (path T) (bnode B2 T) Ho3 (words_buf _ _ Hw) (path_bound T ltac:(lia))) as (c & -> & Hc & Hc'). cbn [mbind outcome_bind].
  assert (forall l, (l < pd)%nat -> proof_step B2 l) as Hsteps2. { intros l Hl. destruct (Hsteps l ltac:(lia)) as (? & ? & ? & ?). unfold proof_step. rewrite !Hpre2 by lia. split_and!; done. }
  assert (bnode B2 0 = leaf) as Hb2 by (by rewrite Hpre2, Hpre1 by lia).
  destruct c.
  { exists (bm_set_node_buf st0 B2), None. split_and!; [done|done|by apply words_buf|]. left. exists B2. split_and!; try done. exists T. split_and!; [intros; by apply Hsteps2|done|lia|right; split; [lia|by apply Hc']]. }
  specialize (Hc eq_refl). clear Hc'. assert (walked leaf pd T B2) as HW by (split; try done; lia).
  destruct (cache_branch_ok (T + 1) 0 _ Ho3 (words_buf _ _ Hw) ltac:(lia)) as (P1 & W1 & E3 & Ho4 & Hw4 & Hv4 & Hk4). rewrite Hp0 in E3. change (Z.of_nat 0) with 0 in E3. rewrite Nat2Z.id, E3. cbn [mbind outcome_bind]. clear E3.
  destruct (cache_proof_ok pd 0 _ Ho4 Hw4 ltac:(lia) Hlen) as (P2 & W2 & E4 & Ho5 & Hw5 & Hv5 & Hv5' & Hk5). rewrite Hp0 in E4. change (Z.of_nat 0) with 0 in E4. rewrite E4. cbn [mbind outcome_bind]. clear E4. rewrite with_with in *.
  destruct (buf_node_ok hs ps n Hsz Hn62 _ T Ho5 ltac:(lia)) as [-> _]. cbn [mbind outcome_bind]. do 2 eexists. split; [done|]. split; [done|]. split; [done|]. right. exists T, B2. split; [done|]. split; [done|].
  rewrite !Nat.add_0_l in *. replace (T + 1)%nat with (S T) in * by lia. split.
  - intros m k. rewrite Hk5, Hk4. done.
  - intros m k Hb. rewrite Hv5', Hv4, decide_True; [done|done|]. intros [? E]. destruct Hb as [_ ->]. symmetry in E. by apply sib_ne in E.
  - done.
  - intros m k Hb Hp. rewrite Hv5', Hv4, decide_False; done.
Qed.
End Walk.
End Known.
