(* ===== verification/BmtreeFini.v ===== *)
(** * Merkle trees from proofs: finishing

    [fd_bmtree_commitp_fini] returns a root only when every node of the tree is known.
    With the invariant of [BmtreeKnown] the root is then the one of the known leaves.  The
    calls stay within the arrays for every number of leaves. *)
From S2P Require Import Prelude VotorBase Sha256 Sha256Props Bmtree BmtreeSpec BmtreeLeaves BmtreePaths BmtreeKnown.

Section Fini.
Context (hs ps : Z) (n : nat) (Hsz : sizes_ok hs ps) (Hn : (1 <= n <= 62)%nat).
Notation ok := (bm_ok hs ps n).
Notation words_ok := (words_ok n).
Notation hash := (H hs ps).
Notation tnode := (tree_node hs ps).
Notation pinv := (pinv hs ps n).
Notation "a ≃ b" := (same hs a b) (at level 70).

Lemma n62 : (n <= 62)%nat.
Proof using Hsz Hn. lia. Qed.

(** The word that holds the bit after the last node, which is never set. *)
Definition last_word : Z := (zpow n - 1) / 64.

Lemma has_node_word st q : words_ok st -> 0 <= q -> q / 64 <= last_word -> has_node st q = Ok (valid st q).
Proof using Hsz Hn.
  intros Hw Hq Hle. unfold has_node. pose proof (wo_len _ _ Hw). pose proof (Z.div_pos q 64 Hq ltac:(lia)). unfold last_word in *. by destruct (word_get hs ps n Hsz Hn st (q / 64) Hw ltac:(lia)) as [-> _].
Qed.

Lemma full_word st i : 0 <= i -> nth (Z.to_nat i) (bm_inclusion_proofs_valid st) 0 = ULONG_MAX -> forall q, 64 * i <= q < 64 * (i + 1) -> valid st q = true.
Proof using Hsz Hn.
  intros Hi Hf q Hq. unfold valid. assert (q / 64 = i) as -> by (symmetry; apply (Z.div_unique q 64 i (q - 64 * i)); lia). rewrite Hf. pose proof (Z.mod_pos_bound q 64 ltac:(lia)). change ULONG_MAX with (Z.ones 64). apply Z.ones_spec_low. lia.
Qed.

Lemma words_full_ok cnt : forall st i, words_ok st -> 0 <= i <= last_word ->
  exists b, words_full cnt st i = Ok b /\ (b = true -> i + Z.of_nat cnt <= last_word /\ forall q, 64 * i <= q < 64 * (i + Z.of_nat cnt) -> valid st q = true) /\ ((forall q, 64 * i <= q < 64 * (i + Z.of_nat cnt) -> valid st q = true) -> b = true).
Proof using Hsz Hn.
  induction cnt as [|cnt IH]; intros st i Hw Hi; cbn [words_full]; [exists true; split_and!; [done|intros _; split; [lia|intros; lia]|done]|].
  pose proof (wo_len _ _ Hw) as Hl. unfold last_word in Hi. destruct (word_get hs ps n Hsz Hn st i Hw ltac:(lia)) as [-> Hu]. cbn [mbind outcome_bind]. set (w := nth _ _ _) in *. pose proof (zpow_pos n).
  pose proof (Z.div_mod (zpow n - 1) 64 ltac:(lia)) as Edm. pose proof (Z.mod_pos_bound (zpow n - 1) 64 ltac:(lia)).
  destruct (Z.eqb_spec w ULONG_MAX) as [Ew|Ew]; cbn [negb].
  - pose proof (full_word st i ltac:(lia) Ew) as Hfull. assert (i < last_word) as Hlt. { destruct (decide (i < last_word)); [done|]. assert (i = last_word) as -> by (unfold last_word in *; lia). unfold last_word in *. pose proof (wo_bound _ _ Hw (zpow n - 1) ltac:(lia) (Hfull (zpow n - 1) ltac:(lia))). lia. }
    pose proof (zpow_63 n ltac:(lia)). rewrite u64_add_small by (unfold is_u64, ULONG_MAX, last_word in *; lia). destruct (IH st (i + 1) Hw ltac:(lia)) as (b & -> & Hb & Hb'). exists b. split; [done|]. split.
    + intros ->. destruct (Hb eq_refl) as [Hle Hv]. split; [lia|]. intros q Hq. destruct (decide (q < 64 * (i + 1))); [apply Hfull; lia|apply Hv; lia].
    + intros Hv. apply Hb'. intros q Hq. apply Hv. lia.
  - exists false. split_and!; [done|done|]. intros Hv. exfalso. apply Ew. apply Z.bits_inj'. intros b Hb. change ULONG_MAX with (Z.ones 64). destruct (Z.ltb_spec b 64).
    + rewrite Z.ones_spec_low by lia. specialize (Hv (64 * i + b) ltac:(lia)). unfold valid in Hv. replace ((64 * i + b) / 64) with i in Hv by (apply (Z.div_unique (64 * i + b) 64 i b); lia). replace ((64 * i + b) mod 64) with b in Hv by (apply (Z.mod_unique (64 * i + b) 64 i b); lia). done.
    + rewrite Z.ones_spec_high by lia. unfold is_u64, ULONG_MAX in Hu. destruct (decide (w = 0)) as [->|]; [apply Z.bits_0|]. assert (Z.log2 w < 64) by (apply Z.log2_lt_pow2; lia). apply Z.bits_above_log2; lia.
Qed.

(** Indices that are within the bit set. *)
Lemma word_le q m : 0 <= q <= m -> m / 64 <= last_word -> q / 64 <= last_word.
Proof using Hsz Hn. intros Hq Hm. pose proof (Z.div_le_mono q m 64 ltac:(lia) ltac:(lia)). lia. Qed.

Lemma idx_mono l j j' : (j <= j')%nat -> idx l j <= idx l j'.
Proof using Hsz Hn. intros Hj. unfold idx. pose proof (zpow_pos (S l)). nia. Qed.

Lemma nodes_known_ok fuel : forall st l j jm, words_ok st -> (l <= 61)%nat -> idx l jm / 64 <= last_word -> (jm + 1 - j < fuel)%nat ->
  exists b, nodes_known fuel st (idx l j) (idx l jm) (zpow (S l)) = Ok b /\ (b = true <-> forall j', (j <= j' <= jm)%nat -> known st l j' = true).
Proof using Hsz Hn.
  induction fuel as [|fuel IH]; intros st l j jm Hw Hl Hjm Hf; [lia|]. cbn [nodes_known]. destruct (Z.ltb_spec (idx l jm) (idx l j)) as [Hlt|Hge].
  { exists true. split; [done|]. split; [|done]. intros _ j' Hj'. pose proof (idx_mono l j jm ltac:(lia)). lia. }
  assert (j <= jm)%nat as Hj. { destruct (decide (j <= jm)%nat); [done|]. pose proof (zpow_pos (S l)). unfold idx in Hge. nia. }
  pose proof (idx_range l j). rewrite has_node_word; [|done|done|]; [|apply (word_le _ (idx l jm)); [lia|done]]. cbn [mbind outcome_bind]. fold (known st l j). destruct (known st l j) eqn:K; cbn [negb].
  - assert (idx l j +w zpow (S l) = idx l (S j)) as ->.
    { pose proof (zpow_63 (S l) ltac:(lia)). pose proof (zpow_pos (S l)). pose proof (zpow_63 n ltac:(lia)). assert (idx l jm <= 64 * last_word + 63) by (pose proof (Z.div_mod (idx l jm) 64 ltac:(lia)); pose proof (Z.mod_pos_bound (idx l jm) 64 ltac:(lia)); lia).
      assert (64 * last_word <= zpow n - 1) by (unfold last_word; apply Z.mul_div_le; lia). rewrite u64_add_small by (unfold is_u64, ULONG_MAX; lia). unfold idx. lia. }
    destruct (IH st l (S j) jm Hw Hl Hjm ltac:(lia)) as (b & -> & Hb). exists b. split; [done|]. rewrite Hb. split; intros HH j' Hj'; [destruct (decide (j' = j)) as [->|]; [done|]|]; apply HH; lia.
  - exists false. split; [done|]. split; [done|]. intros HH. specialize (HH j ltac:(lia)). congruence.
Qed.

(** The first node of a layer that the words do not cover. *)
Definition start (k l : nat) : nat := ((if decide (6 <= height k)%nat then 2 ^ (height k - 1) else 0) / 2 ^ l)%nat.

(** The tree fits the bit set, or is so small that it fits a word. *)
Definition fits_words (k : nat) : Prop := (height k < n \/ height k <= 5)%nat.

Lemma zpow_words h : (6 <= h)%nat -> zpow h = 64 * zpow (h - 6).
Proof using Hsz Hn. intros Hh. change 64 with (zpow 6). rewrite <- zpow_add. f_equal. lia. Qed.

Lemma low_words k : (1 <= k)%nat -> Z.of_nat k <= leaf_max -> 64 *w ((zpow (height k) - 1 +w 1) / 64) = idx 0 (if decide (6 <= height k)%nat then 2 ^ (height k - 1) else 0)%nat /\ (zpow (height k) - 1 +w 1) / 64 = if decide (6 <= height k)%nat then zpow (height k - 6) else 0.
Proof using Hsz Hn.
  intros Hk Hmax. pose proof (height_62 k Hk Hmax) as Hh. pose proof (zpow_pos (height k)). pose proof (zpow_63 (height k) ltac:(lia)). rewrite u64_add_small by (unfold is_u64, ULONG_MAX; lia). rewrite Z.sub_add. rewrite idx_0. case_decide as H6.
  - rewrite zpow_words by done. rewrite (Z.mul_comm 64), Z.div_mul by lia. split; [|done]. rewrite <- zpow_nat. rewrite zpow_words in * by done. unfold u64_mul. rewrite u64_small by (unfold is_u64, ULONG_MAX; pose proof (zpow_pos (height k - 6)); lia).
    replace (height k - 1)%nat with (5 + (height k - 6))%nat by lia. rewrite zpow_add. change (zpow 5) with 32. lia.
  - pose proof (zpow_mono (height k) 5 ltac:(lia)) as H5. change (zpow 5) with 32 in H5. rewrite Z.div_small by lia. done.
Qed.

Lemma node_word k l j : (1 <= k)%nat -> fits_words k -> (j < width k l)%nat -> (l <= height k)%nat -> idx l j / 64 <= last_word.
Proof using Hsz Hn.
  intros Hk Hfit Hj Hl. pose proof (zpow_pos n). pose proof (idx_range l j). destruct Hfit as [Hh|Hh].
  - pose proof (idx_in_tree hs ps n Hsz n62 k l j n Hk Hj Hl Hh). apply (word_le _ (zpow n - 1)); [lia|done].
  - pose proof (idx_in_tree hs ps n Hsz n62 k l j 6 Hk Hj Hl ltac:(lia)) as Hb. change (zpow 6) with 64 in Hb. rewrite Z.div_small by lia. unfold last_word. apply Z.div_pos; lia.
Qed.

Lemma layers_known_ok fuel : forall st k l, words_ok st -> (1 <= k)%nat -> Z.of_nat k <= leaf_max -> fits_words k -> (l <= height k)%nat -> (height k - l < fuel)%nat ->
  exists b, layers_known fuel st (Z.of_nat k) (zpow (height k) - 1) (Z.of_nat l) = Ok b /\ (b = true <-> forall l' j, (l <= l' < height k)%nat -> (start k l' <= j < width k l')%nat -> known st l' j = true).
Proof using Hsz Hn.
  induction fuel as [|fuel IH]; intros st k l Hw Hk Hmax Hfit Hl Hf; [lia|]. cbn [layers_known]. pose proof (height_62 k Hk Hmax) as Hh62. pose proof (zpow_pos l). pose proof (zpow_63 l ltac:(lia)). rewrite shiftl1 by lia. rewrite (u64_sub_small (zpow l)) by (unfold is_u64, ULONG_MAX; lia).
  destruct (decide (l = height k)) as [->|Hne].
  { replace (zpow (height k) - 1 <=? zpow (height k) - 1) with true by lia. exists true. split; [done|]. split; [|done]. intros; lia. }
  pose proof (zpow_lt l (height k) ltac:(lia)). replace (zpow (height k) - 1 <=? zpow l - 1) with false by lia. assert (l <= 61)%nat as Hl61 by lia. destruct (low_words k Hk Hmax) as [-> _]. rewrite idx_insert, Nat.sub_0_r by lia. fold (start k l).
  rewrite u64_sub_small by (unfold is_u64, ULONG_MAX, leaf_max in *; lia). rewrite Z.shiftl_mul_pow2 by lia. change (2 ^ 1) with 2. rewrite u64_small by (unfold is_u64, ULONG_MAX, leaf_max in *; lia).
  replace ((Z.of_nat k - 1) * 2) with (idx 0 (k - 1)) by (rewrite idx_0; lia). rewrite idx_insert, Nat.sub_0_r by lia. assert ((k - 1) / 2 ^ l = width k l - 1)%nat as -> by (rewrite width_eq by done; lia). rewrite shiftl2 by lia.
  pose proof (width_pos k l Hk) as Hw1. pose proof (node_word k l (width k l - 1) Hk Hfit ltac:(lia) Hl) as Hword.
  destruct (nodes_known_ok (64 * length (bm_inclusion_proofs_valid st) + 1) st l (start k l) (width k l - 1) Hw Hl61 Hword) as (b & -> & Hb).
  { pose proof (wo_len _ _ Hw) as Hlen. fold last_word in Hlen. pose proof (Z.div_mod (idx l (width k l - 1)) 64 ltac:(lia)). pose proof (Z.mod_pos_bound (idx l (width k l - 1)) 64 ltac:(lia)). pose proof (zpow_S l).
    assert (Z.of_nat (width k l - 1) <= idx l (width k l - 1)) by (unfold idx; nia). lia. }
  cbn [mbind outcome_bind]. destruct b; cbn [negb].
  - assert (Z.of_nat l +w 1 = Z.of_nat (S l)) as -> by (rewrite u64_add_small by (unfold is_u64, ULONG_MAX; lia); lia). destruct (IH st k (S l) Hw Hk Hmax Hfit ltac:(lia) ltac:(lia)) as (b & -> & Hb'). exists b. split; [done|]. rewrite Hb'. split; intros HH l' j Hl' Hj.
    + destruct (decide (l' = l)) as [->|]; [apply Hb; [done|lia]|apply HH; [lia|done]].
    + apply HH; [lia|done].
  - exists false. split; [done|]. split; [done|]. intros HH. apply Hb. intros j Hj. apply HH; lia.
Qed.

(** The words below the root index hold the other nodes. *)
Lemma below_start k l j : (1 <= k)%nat -> (l < height k)%nat -> (j < start k l)%nat -> (6 <= height k)%nat /\ idx l j < zpow (height k) - 1.
Proof using Hsz Hn.
  intros Hk Hl Hj. unfold start in Hj. case_decide as H6; [|rewrite Nat.Div0.div_0_l in Hj; lia]. split; [done|]. apply idx_bound; [done|]. replace (height k - 1)%nat with ((height k - 1 - l) + l)%nat in Hj by lia. rewrite Nat.pow_add_r, Nat.div_mul in Hj by (pose proof (pow2_pos l); lia). done.
Qed.

(** All nodes of the tree are known. *)
Definition all_known (st : fd_bmtree_commit_t) (k : nat) : Prop := forall l j, (l <= height k)%nat -> (j < width k l)%nat -> known st l j = true.

Lemma tail_check_ok st k : ok st -> words_ok st -> (1 <= k)%nat -> Z.of_nat k <= leaf_max ->
  exists r, tail_check st (Z.of_nat k) = Ok r /\ (match r with Some root => (height k < n)%nat /\ all_known st k /\ root = value st (height k) 0 | None => ~ all_known st k end).
Proof using Hsz Hn.
  intros Ho Hw Hk Hmax. pose proof (height_62 k Hk Hmax) as Hh62. unfold tail_check. rewrite pow2_up_height by done. pose proof (zpow_pos (height k)). pose proof (zpow_63 (height k) ltac:(lia)). rewrite (u64_sub_small (zpow _)) by (unfold is_u64, ULONG_MAX; lia).
  destruct (low_words k Hk Hmax) as [_ Elow]. rewrite Elow. set (cnt := Z.to_nat _). pose proof (zpow_pos n). assert (0 <= last_word) by (unfold last_word; apply Z.div_pos; lia).
  assert (width k (height k) = 1%nat) as Ew by (by apply width_height). assert (idx (height k) 0 = zpow (height k) - 1) as Eroot by (unfold idx; lia).
  destruct (words_full_ok cnt st 0 Hw ltac:(lia)) as (b & -> & Hb & Hb'). cbn [mbind outcome_bind]. rewrite Z.add_0_l, Z.mul_0_r in *.
  assert (64 * Z.of_nat cnt = if decide (6 <= height k)%nat then zpow (height k) else 0) as Ecnt. { unfold cnt. pose proof (zpow_pos (height k - 6)). case_decide; [rewrite (zpow_words (height k)) by done|]; lia. }
  destruct b; cbn [negb].
  2: { exists None. split; [done|]. intros Hall. enough (false = true) by done. apply Hb'. rewrite Ecnt. case_decide as H6; [|intros; lia]. intros q Hq. destruct (odd_part (Z.to_nat q + 1) ltac:(lia)) as (l & d & Eq).
       assert (idx l d = q) as Eidx by (unfold idx; rewrite zpow_S, zpow_nat; lia). rewrite <- Eidx. destruct (decide (l < height k)%nat) as [Hl|Hl].
       - assert (d < 2 ^ (height k - 1 - l) \/ d = 2 ^ (height k - 1 - l) - 1 + 0 /\ False)%nat as [Hd|[_ []]].
         { left. destruct (decide (q = zpow (height k) - 1)) as [Eq2|]; [|apply idx_bound; [done|]; lia]. exfalso. rewrite <- Eroot, <- Eidx in Eq2. apply idx_inj in Eq2. lia. }
         apply Hall; [lia|]. apply lt_width; [done|]. destruct (height_spec k Hk) as [_ Hlow]. assert (1 < k)%nat as Hk1 by (destruct (decide (k = 1)%nat) as [->|]; [cbn in H6; lia|lia]). specialize (Hlow Hk1).
         replace (height k - 1)%nat with ((height k - 1 - l) + l)%nat in Hlow by lia. rewrite Nat.pow_add_r in Hlow. pose proof (pow2_pos l). nia.
       - pose proof (idx_high l d (height k) ltac:(lia)). assert (idx l d = idx (height k) 0) as E2 by lia. apply idx_inj in E2 as [-> ->]. apply Hall; [done|]. lia. }
  destruct (Hb eq_refl) as [Hle Hwords]. clear Hb Hb'. assert (fits_words k) as Hfit.
  { unfold fits_words. destruct (decide (6 <= height k)%nat) as [H6|]; [left|right; lia]. assert (zpow (height k) <= zpow n - 1). { rewrite <- Ecnt. unfold last_word in Hle. pose proof (Z.mul_div_le (zpow n - 1) 64 ltac:(lia)). lia. }
    destruct (decide (height k < n)%nat); [done|]. pose proof (zpow_mono n (height k) ltac:(lia)). lia. }
  destruct (layers_known_ok 64 st k 0 Hw Hk Hmax Hfit ltac:(lia) ltac:(lia)) as (b & E & Hb). change (Z.of_nat 0) with 0 in E. rewrite E. cbn [mbind outcome_bind]. destruct b; cbn [negb].
  2: { exists None. split; [done|]. intros Hall. enough (false = true) by done. apply Hb. intros l j Hl Hj. apply Hall; lia. }
  pose proof (node_word k (height k) 0 Hk Hfit ltac:(lia) ltac:(lia)) as Hword. rewrite Eroot in Hword. rewrite has_node_word by (done || lia). cbn [mbind outcome_bind]. rewrite <- Eroot. fold (known st (height k) 0). destruct (known st (height k) 0) eqn:Kr; cbn [negb].
  2: { exists None. split; [done|]. intros Hall. specialize (Hall (height k) 0%nat ltac:(lia) ltac:(lia)). congruence. }
  pose proof (idx_range (height k) 0) as Hr0. pose proof (wo_bound _ _ Hw (idx (height k) 0) Hr0 Kr) as Hr1. destruct (proof_node_ok hs ps n Hsz n62 st (idx (height k) 0) Ho ltac:(lia)) as [-> _]. cbn [mbind outcome_bind].
  exists (Some (value st (height k) 0)). split; [done|]. split_and!; [|intros l j Hl Hj|done].
  - destruct (decide (height k < n)%nat); [done|]. pose proof (idx_high (height k) 0 n ltac:(lia)). lia.
  - destruct (decide (l = height k)) as [->|Hne]; [by replace j with 0%nat by lia|]. destruct (decide (start k l <= j)%nat); [apply Hb; [done|lia|lia]|]. destruct (below_start k l j Hk ltac:(lia) ltac:(lia)) as [H6 Hb2]. apply Hwords. rewrite Ecnt, decide_True by done. pose proof (idx_range l j). lia.
Qed.
End Fini.
