(* ===== verification/BmtreeRoot.v ===== *)
(** * Merkle trees from proofs: the root

    [fd_bmtree_commitp_fini] hashes the right edge of a tree whose number of leaves is not
    a power of two, checks it against the known nodes and stores it.  When it then finds
    every node, the root it returns is that of the known leaves: a node of the edge is
    the hash of its children by calculation, every other node by the invariant of
    [BmtreeKnown]. *)
From S2P Require Import Prelude VotorBase Sha256 Sha256Props Bmtree BmtreeSpec BmtreeLeaves BmtreePaths BmtreeKnown BmtreeFini.

Section Root.
Context (hs ps : Z) (n : nat) (Hsz : sizes_ok hs ps) (Hn : (1 <= n <= 62)%nat).
Notation ok := (bm_ok hs ps n).
Notation words_ok := (words_ok n).
Notation hash := (H hs ps).
Notation tnode := (tree_node hs ps).
Notation pinv := (pinv hs ps n).
Notation "a ≃ b" := (same hs a b) (at level 70).

Lemma m62 : (n <= 62)%nat.
Proof using Hsz Hn. lia. Qed.

(** ** The right edge *)

Section Edge.
Context (st0 : fd_bmtree_commit_t) (k : nat) (Hk : (1 <= k)%nat) (Hmax : Z.of_nat k <= leaf_max) (Hh : (height k < n)%nat).
Notation w := (width k).

(** The last node of layer [l+1] is the hash of its children, and agrees with what is known. *)
Definition edge_hash (B : list fd_bmtree_node_t) (l : nat) : Prop :=
  if Nat.odd (w l) then bnode B (S l) = hash (bnode B l) (bnode B l) else known st0 l (w l - 2) = true /\ bnode B (S l) = hash (value st0 l (w l - 2)) (bnode B l).
Definition edge_step (B : list fd_bmtree_node_t) (l : nat) : Prop :=
  edge_hash B l /\ (known st0 (S l) (w (S l) - 1) = true -> bnode B (S l) ≃ value st0 (S l) (w (S l) - 1)).

(** Why the edge is not hashed: a left child is missing, or a node is known differently. *)
Definition edge_fails (B : list fd_bmtree_node_t) (l : nat) : Prop :=
  Nat.odd (w l) = false /\ known st0 l (w l - 2) = false \/
  known st0 (S l) (w (S l) - 1) = true /\ ~ (if Nat.odd (w l) then hash (bnode B l) (bnode B l) else hash (value st0 l (w l - 2)) (bnode B l)) ≃ value st0 (S l) (w (S l) - 1).

Lemma odd_z m : Z.odd (Z.of_nat m) = Nat.odd m.
Proof using Hsz Hn Hk Hmax Hh. 
  rewrite <- Nat.negb_even. destruct (even_cases m) as [(-> & E & _)|(-> & E & _)]; rewrite E, ?Nat2Z.inj_add, Nat2Z.inj_mul, ?Z.odd_add, Z.odd_mul; done.
Qed.

Lemma edge_bound l : (l <= height k)%nat -> idx l (w l - 1) < zpow n - 1.
Proof using Hsz Hn Hk Hmax Hh. intros Hl. pose proof (width_pos k l Hk). apply (idx_in_tree hs ps n Hsz m62 k); [done|lia|done|done]. Qed.

(** The partner of the last node. *)
Lemma edge_sib l : sib (w l - 1) = if Nat.odd (w l) then w l else (w l - 2)%nat.
Proof using Hsz Hn Hk Hmax Hh.
  pose proof (width_pos k l Hk). rewrite <- Nat.negb_even. destruct (even_cases (w l)) as [(-> & E & _)|(-> & E & _)], (even_cases (w l - 1)) as [(_ & E' & ->)|(_ & E' & ->)]; cbn [negb]; lia.
Qed.

Lemma finip_up_ok fuel : forall l B, ok (bm_set_node_buf st0 B) -> words_ok st0 -> (l <= height k)%nat -> (height k - l < fuel)%nat ->
  exists B' r, finip_up fuel (bm_set_node_buf st0 B) (Z.of_nat l) (Z.of_nat (w l)) (idx l (w l - 1)) = Ok (bm_set_node_buf st0 B', r) /\ ok (bm_set_node_buf st0 B') /\
    (forall l', (l' <= l)%nat -> bnode B' l' = bnode B l') /\
    (if (r : bool) then forall l', (l <= l' < height k)%nat -> edge_step B' l' else exists l', (l <= l' < height k)%nat /\ edge_fails B' l' /\ forall l'', (l <= l'' < l')%nat -> edge_step B' l'').
Proof using Hsz Hn Hk Hmax Hh.
  induction fuel as [|fuel IH]; intros l B Ho Hw Hl Hf; [lia|]. cbn [finip_up]. pose proof (width_pos k l Hk) as Hw1. destruct (Z.leb_spec (Z.of_nat (w l)) 1) as [Hle|Hgt].
  { assert (w l = 1)%nat as Ew by lia. apply width_height in Ew; [|done]. exists B, true. split_and!; try done. intros; lia. }
  assert (l < height k)%nat as Hlh. { destruct (decide (l < height k)%nat); [done|]. assert (w l = 1)%nat by (apply width_height; lia). lia. }
  rewrite sibling_idx, odd_z by lia. pose proof (idx_sib_bound l (w l - 1) n ltac:(lia) (edge_bound l Hl)) as Hsb. pose proof (words_buf hs ps n Hsz Hn st0 B Hw) as HwB. pose proof (idx_range l (sib (w l - 1))) as Hs0.
  rewrite (has_node_ok hs ps n Hsz Hn) by (done || lia). cbn [mbind outcome_bind]. change (valid (bm_set_node_buf st0 B) (idx l (sib (w l - 1)))) with (known st0 l (sib (w l - 1))).
  rewrite edge_sib in *. destruct (negb (Nat.odd (w l)) && negb (known st0 l (if Nat.odd (w l) then w l else w l - 2)%nat)) eqn:Eb.
  { apply andb_true_iff in Eb as [E1%negb_true_iff E2%negb_true_iff]. rewrite E1 in E2. exists B, false. split_and!; try done. exists l. split_and!; [lia|lia|by left|intros; lia]. }
  destruct (buf_node_ok hs ps n Hsz m62 _ l Ho ltac:(lia)) as [-> Hnode]. cbn [mbind outcome_bind bm_set_node_buf bm_node_buf] in Hnode |- *. fold (bnode B l) in Hnode |- *.
  set (left := if Nat.odd (w l) then bnode B l else value st0 l (w l - 2)).
  assert ((if Nat.odd (w l) then Ok (bnode B l) else proof_node (bm_set_node_buf st0 B) (idx l (if Nat.odd (w l) then w l else w l - 2)%nat)) = Ok left /\ node_ok left) as [-> Hleft].
  { unfold left. destruct (Nat.odd (w l)); [done|]. destruct (proof_node_ok hs ps n Hsz m62 _ (idx l (w l - 2)) Ho ltac:(lia)) as [-> ?]. done. }
  cbn [mbind outcome_bind]. fold (bm_set_node_buf st0 B). rewrite (merge_st hs ps n Hsz m62 _ _ _ Ho Hleft Hnode). cbn [mbind outcome_bind]. set (parent := hash left (bnode B l)).
  assert (Z.of_nat l +w 1 = Z.of_nat (S l)) as -> by (rewrite u64_add_small by (unfold is_u64, ULONG_MAX; lia); lia). destruct (set_buf_ok hs ps n Hsz m62 _ (S l) parent Ho ltac:(lia) (H_ok _ _ _ _)) as [-> Ho2]. cbn [mbind outcome_bind bm_set_node_buf bm_node_buf] in Ho2 |- *.
  fold (bm_set_node_buf st0 (<[S l := parent]> B)) in Ho2 |- *. rewrite (half_shift hs ps n Hsz m62) by (by apply (width_max hs ps n Hsz m62)). change ((w l + 1) / 2)%nat with (w (S l)). rewrite (last_idx_width hs ps n Hsz m62) by (done || lia).
  destruct (conflicts_ok hs ps n Hsz Hn _ (S l) (w (S l) - 1) parent Ho2 (words_buf hs ps n Hsz Hn _ _ Hw) (edge_bound (S l) ltac:(lia))) as (c & -> & Hc & Hc'). cbn [mbind outcome_bind].
  pose proof (bo_buf_len _ _ _ _ Ho) as HB. cbn in HB. assert (forall m, bnode (<[S l := parent]> B) m = if decide (m = S l) then parent else bnode B m) as Hins by (intros m; apply (bnode_insert hs ps n Hsz Hn); [done|lia]).
  destruct c.
  { exists (<[S l := parent]> B), false. split_and!; try done; [intros l' Hl'; rewrite Hins, decide_False by lia; done|]. exists l. split_and!; [lia|lia| |intros; lia]. right. destruct (Hc' eq_refl) as [Hkn Hne]. split; [done|].
    rewrite Hins, decide_False by lia. destruct (Nat.odd (w l)) eqn:Eo; unfold parent, left in Hne; done. }
  specialize (Hc eq_refl). clear Hc'. destruct (IH (S l) (<[S l := parent]> B) Ho2 Hw ltac:(lia) ltac:(lia)) as (B' & r & E & Ho' & Hpre & Hr). exists B', r. split; [exact E|]. split; [done|].
  assert (forall l', (l' <= l)%nat -> bnode B' l' = bnode B l') as Hpre' by (intros l' Hl'; rewrite Hpre, Hins, decide_False by lia; done). split; [done|].
  assert (edge_step B' l) as Hstep.
  { unfold edge_step, edge_hash. rewrite (Hpre (S l)), (Hpre' l), Hins, decide_True by (done || lia). split; [|done]. unfold parent, left. destruct (Nat.odd (w l)); [done|]. split; [|done]. cbn [negb andb] in Eb. by apply negb_false_iff in Eb. }
  destruct r.
  - intros l' Hl'. destruct (decide (l' = l)) as [->|]; [done|apply Hr; lia].
  - destruct Hr as (l' & Hl' & Hfail & Hr). exists l'. split_and!; [lia|lia|done|]. intros l'' Hl''. destruct (decide (l'' = l)) as [->|]; [done|apply Hr; lia].
Qed.

(** The nodes of the edge above layer [l]. *)
Definition on_edge (l m j : nat) : Prop := (l < m <= height k)%nat /\ j = (w m - 1)%nat.
#[global] Instance on_edge_dec l m j : Decision (on_edge l m j) := _.

Lemma cache_path_ok fuel : forall l st, ok st -> words_ok st -> (l <= height k)%nat -> (height k - l < fuel)%nat ->
  exists P W, cache_path fuel st (Z.of_nat l) (Z.of_nat (w l)) = Ok (with_nodes st P W) /\ ok (with_nodes st P W) /\ words_ok (with_nodes st P W) /\
    (forall m j, value (with_nodes st P W) m j = if decide (on_edge l m j) then bnode (bm_node_buf st) m else value st m j) /\
    (forall m j, known (with_nodes st P W) m j = known st m j || bool_decide (on_edge l m j)).
Proof using Hsz Hn Hk Hmax Hh.
  induction fuel as [|fuel IH]; intros l st Ho Hw Hl Hf; [lia|]. cbn [cache_path]. pose proof (width_pos k l Hk) as Hw1. destruct (Z.leb_spec (Z.of_nat (w l)) 1) as [Hle|Hgt].
  { assert (w l = 1)%nat as Ew by lia. apply width_height in Ew; [|done]. exists (bm_inclusion_proofs st), (bm_inclusion_proofs_valid st). assert (with_nodes st (bm_inclusion_proofs st) (bm_inclusion_proofs_valid st) = st) as -> by (by destruct st).
    split_and!; try done; intros m j; [rewrite decide_False; [done|]|rewrite bool_decide_eq_false_2, orb_false_r; [done|]]; intros [? _]; lia. }
  assert (l < height k)%nat as Hlh. { destruct (decide (l < height k)%nat); [done|]. assert (w l = 1)%nat by (apply width_height; lia). lia. }
  assert (Z.of_nat l +w 1 = Z.of_nat (S l)) as -> by (rewrite u64_add_small by (unfold is_u64, ULONG_MAX; lia); lia). rewrite (half_shift hs ps n Hsz m62) by (by apply (width_max hs ps n Hsz m62)). change ((w l + 1) / 2)%nat with (w (S l)).
  destruct (buf_node_ok hs ps n Hsz m62 st (S l) Ho ltac:(lia)) as [-> Hnode]. cbn [mbind outcome_bind]. fold (bnode (bm_node_buf st) (S l)) in Hnode |- *. rewrite (last_idx_width hs ps n Hsz m62) by (done || lia). rewrite (bind_assoc hs ps n Hsz Hn).
  destruct (store_ok hs ps n Hsz Hn st (S l) (w (S l) - 1) _ Ho Hw (edge_bound (S l) ltac:(lia)) Hnode) as (P1 & W1 & -> & Ho1 & Hw2 & Hv1 & Hk1). cbn [mbind outcome_bind].
  destruct (IH (S l) _ Ho1 Hw2 ltac:(lia) ltac:(lia)) as (P & W & -> & Ho2 & Hw3 & Hv2 & Hk2). exists P, W. rewrite (with_with hs ps n Hsz Hn) in *. split_and!; try done; intros m j.
  - rewrite Hv2, Hv1. change (bm_node_buf (with_nodes st P1 W1)) with (bm_node_buf st). destruct (decide (m = S l)) as [->|Hne].
    + rewrite (decide_False (P := on_edge (S l) _ _)) by (intros [? _]; lia). apply decide_ext. unfold on_edge. split; [intros [_ ->]; split; [lia|done]|by intros [_ ->]].
    + rewrite (decide_False (P := m = S l /\ _)) by tauto. apply decide_ext. unfold on_edge. split; intros [? ->]; (split; [lia|done]).
  - rewrite Hk2, Hk1, <- orb_assoc. f_equal. rewrite <- bool_decide_or. apply bool_decide_ext. unfold on_edge. split; [intros [[-> ->]|[? ->]]; split; (lia || done)|]. intros [Hm ->]. destruct (decide (m = S l)) as [->|]; [by left|right; split; [lia|done]].
Qed.
End Edge.

(** ** The nodes after the edge was stored *)

(** Layers below [l0] have an even number of nodes. *)
Lemma two_children k l0 d l j : (k = (2 * d + 1) * 2 ^ l0)%nat -> (l < l0)%nat -> (j < width k (S l))%nat -> (2 * j + 1 < width k l)%nat.
Proof using Hsz Hn.
  intros Ek Hl Hj. pose proof (pow2_pos l0). assert (1 <= k)%nat by nia. pose proof (width_multiple hs ps n Hsz m62 l0 d l ltac:(lia)) as E1. pose proof (width_multiple hs ps n Hsz m62 l0 d (S l) ltac:(lia)) as E2. cbv zeta in E1, E2. rewrite <- Ek in E1, E2.
  rewrite Nat.pow_succ_r' in E2. pose proof (pow2_pos l). assert (width k l * 2 ^ l = (2 * width k (S l)) * 2 ^ l)%nat as E by lia. apply Nat.mul_cancel_r in E; lia.
Qed.

(** The known leaves. *)
Definition leaves_of (st : fd_bmtree_commit_t) (k : nat) : list fd_bmtree_node_t := value st 0 <$> seq 0 k.

Lemma leaves_of_length st k : length (leaves_of st k) = k.
Proof using Hsz Hn. unfold leaves_of. by rewrite length_fmap, length_seq. Qed.

Lemma leaves_of_nth st k j : (j < k)%nat -> nth j (leaves_of st k) [] = value st 0 j.
Proof using Hsz Hn. intros Hj. unfold leaves_of. rewrite nth_lookup, list_lookup_fmap, lookup_seq_lt by done. done. Qed.

(** The state after the edge above layer [l0] was hashed and stored. *)
Record edged (st0 st : fd_bmtree_commit_t) (k l0 : nat) (B : list fd_bmtree_node_t) : Prop := mk_edged {
  ed_start : bnode B l0 = value st0 l0 (width k l0 - 1);
  ed_steps : forall l, (l0 <= l < height k)%nat -> edge_step st0 k B l;
  ed_value : forall m j, value st m j = if decide (on_edge k l0 m j) then bnode B m else value st0 m j;
  ed_known : forall m j, known st m j = known st0 m j || bool_decide (on_edge k l0 m j) }.

(** A node of the edge, from the nodes below it. *)
Lemma edge_node st0 B L l : (1 <= length L)%nat -> edge_hash st0 (length L) B l -> (2 <= width (length L) l)%nat -> bnode B l ≃ tnode L l (width (length L) l - 1) ->
  (Nat.odd (width (length L) l) = false -> value st0 l (width (length L) l - 2) ≃ tnode L l (width (length L) l - 2)) -> bnode B (S l) = tnode L (S l) (width (length L) (S l) - 1).
Proof using Hsz Hn.
  intros Hk Hs Hw Hb Hv. unfold edge_hash in Hs. pose proof (width_pos _ (S l) Hk) as HwS. rewrite tree_node_S by lia. change (width (length L) (S l)) with ((width (length L) l + 1) / 2)%nat in *. set (w := width (length L) l) in *. rewrite <- Nat.negb_even in *.
  destruct (even_cases w) as [(Ev & E & _)|(Ev & E & _)]; rewrite Ev in *; cbn [negb] in *; set (e := (w / 2)%nat) in *.
  - destruct Hs as [_ ->]. assert ((w + 1) / 2 = e)%nat as Eh by (symmetry; apply (Nat.div_unique _ _ _ 1); lia). rewrite Eh, decide_True by lia. rewrite (Hv eq_refl), Hb. f_equal; f_equal; lia.
  - rewrite Hs. assert ((w + 1) / 2 = e + 1)%nat as Eh by (symmetry; apply (Nat.div_unique _ _ _ 0); lia). rewrite Eh, decide_False by lia. rewrite Hb. f_equal; f_equal; lia.
Qed.

(** Away from the edge a node has two children that were known before. *)
Lemma off_edge k l0 d l j : (k = (2 * d + 1) * 2 ^ l0)%nat -> (1 <= k)%nat -> (l < height k)%nat -> (j < width k (S l))%nat -> ~ on_edge k l0 (S l) j ->
  (2 * j + 1 < width k l)%nat /\ ~ on_edge k l0 l (2 * j) /\ ~ on_edge k l0 l (2 * j + 1).
Proof using Hsz Hn.
  intros Ek Hk Hl Hj Hoff. assert (2 * j + 1 < width k l)%nat as H2. { destruct (decide (l < l0)%nat) as [Hlt|Hge]; [by apply (two_children k l0 d)|]. assert (j <> width k (S l) - 1)%nat as Hne by (intros ->; apply Hoff; split; [lia|done]). cbn [width] in Hj, Hne. pose proof (Nat.div_mod_eq (width k l + 1) 2). pose proof (Nat.mod_upper_bound (width k l + 1) 2 ltac:(lia)). lia. }
  split; [done|]. split; intros [Hm E]; [lia|]. apply Hoff. split; [lia|]. cbn [width]. symmetry. rewrite <- (Nat.div_unique (width k l + 1) 2 (j + 1) 1) by lia. lia.
Qed.

Lemma edged_tree st0 st k l0 d B : pinv st0 -> (k = (2 * d + 1) * 2 ^ l0)%nat -> (l0 <= height k < n)%nat -> edged st0 st k l0 B -> all_known st k ->
  forall l j, (l <= height k)%nat -> (j < width k l)%nat -> value st l j ≃ tnode (leaves_of st0 k) l j.
Proof using Hsz Hn.
  intros Hinv Ek Hl0 HE Hall. pose proof (pow2_pos l0). assert (1 <= k)%nat as Hk by nia. pose proof (leaves_of_length st0 k) as Elen. induction l as [|l IH]; intros j Hl Hj.
  { rewrite (ed_value _ _ _ _ _ HE), decide_False by (intros [? _]; lia). unfold tree_node. cbn [layer]. rewrite leaves_of_nth by done. reflexivity. }
  destruct (decide (on_edge k l0 (S l) j)) as [Hon|Hoff].
  - rewrite (ed_value _ _ _ _ _ HE), decide_True by done. destruct Hon as [Hm ->]. assert (2 <= width k l)%nat as H2. { destruct (decide (2 <= width k l)%nat); [done|]. pose proof (width_pos k l Hk). assert (height k <= l)%nat by (apply width_height; lia). lia. }
    rewrite (edge_node st0 B (leaves_of st0 k) l); rewrite ?Elen; try done; [apply (ed_steps _ _ _ _ _ HE); lia| |].
    + rewrite <- IH by lia. rewrite (ed_value _ _ _ _ _ HE). case_decide as Hd; [reflexivity|]. assert (l = l0) as -> by (destruct (decide (l = l0)); [done|]; exfalso; apply Hd; split; [lia|done]). rewrite (ed_start _ _ _ _ _ HE). reflexivity.
    + intros _. rewrite <- IH by lia. rewrite (ed_value _ _ _ _ _ HE), decide_False by (intros [_ E]; lia). reflexivity.
  - rewrite (ed_value _ _ _ _ _ HE), decide_False by done. destruct (off_edge k l0 d l j Ek Hk ltac:(lia) Hj Hoff) as (H2 & Ho1 & Ho2). rewrite tree_node_S by (by rewrite Elen). rewrite Elen, decide_True by done.
    rewrite <- !IH by lia. rewrite !(ed_value _ _ _ _ _ HE), !decide_False by done. assert (sib (2 * j) = 2 * j + 1)%nat as Es by (destruct (even_cases (2 * j)) as [(_ & _ & ->)|(_ & E & _)]; [done|lia]).
    assert (known st0 l (2 * j) = true /\ known st0 l (2 * j + 1) = true) as [K1 K2]. { pose proof (Hall l (2 * j)%nat ltac:(lia) ltac:(lia)) as K1. pose proof (Hall l (2 * j + 1)%nat ltac:(lia) ltac:(lia)) as K2. rewrite (ed_known _ _ _ _ _ HE), bool_decide_eq_false_2, orb_false_r in K1, K2 by done. done. }
    destruct (pi_cons _ _ _ _ Hinv l (2 * j)%nat ltac:(lia) K1 ltac:(by rewrite Es)) as [_ Hv]. rewrite Es in Hv. rewrite (Nat.mul_comm 2 j), Nat.div_mul in Hv by lia. rewrite (Nat.mul_comm 2 j). etrans; [exact Hv|]. unfold ph. replace (Nat.even (j * 2)) with true; [reflexivity|]. symmetry. rewrite Nat.even_mul. apply orb_true_r.
Qed.

(** ** Finishing *)

(** Why the edge above layer [l0] was not stored. *)
Definition not_edged (st0 : fd_bmtree_commit_t) (k l0 : nat) : Prop :=
  (n <= height k)%nat \/ known st0 l0 (width k l0 - 1) = false \/
  exists B l, bnode B l0 = value st0 l0 (width k l0 - 1) /\ (l0 <= l < height k)%nat /\ edge_fails st0 k B l /\ forall l', (l0 <= l' < l)%nat -> edge_step st0 k B l'.

Lemma fini_path_ok st k l0 d : pinv st -> (k = (2 * d + 1) * 2 ^ l0)%nat -> (1 <= d)%nat -> Z.of_nat k <= leaf_max ->
  exists st' b, fini_path st (Z.of_nat k) = Ok (st', b) /\ ok st' /\ words_ok st' /\ (if (b : bool) then (l0 <= height k < n)%nat /\ exists B, edged st st' k l0 B else not_edged st k l0).
Proof using Hsz Hn.
  intros [Ho Hw _] Ek Hd Hmax. pose proof (pow2_pos l0) as Hp0. assert (1 <= k)%nat as Hk by nia. pose proof (height_62 k Hk Hmax) as Hh62. unfold fini_path.
  assert (fd_ulong_find_lsb (Z.of_nat k) = Z.of_nat l0) as -> by (rewrite Ek; apply find_lsb_odd). assert (width k l0 = 2 * d + 1)%nat as Ew by (destruct (width_odd hs ps n Hsz m62 l0 d l0 ltac:(lia)) as (E & _); rewrite decide_True, <- Ek in E by done; exact E).
  assert (Z.shiftr (Z.of_nat k) (Z.of_nat l0) = Z.of_nat (width k l0)) as ->. { rewrite Z.shiftr_div_pow2 by lia. fold (zpow l0). rewrite zpow_nat, <- Nat2Z.inj_div, Ew. f_equal. rewrite Ek. apply Nat.div_mul. lia. }
  assert (l0 < height k)%nat as Hl0. { destruct (decide (l0 < height k)%nat); [done|]. assert (width k l0 = 1)%nat by (apply width_height; lia). lia. }
  rewrite (last_idx_width hs ps n Hsz m62), (bo_sz _ _ _ _ Ho) by (done || lia). destruct (Z.leb_spec (zpow n - 1) (idx l0 (width k l0 - 1))) as [Hle|Hlt].
  { exists st, false. split_and!; try done. left. destruct (decide (height k < n)%nat) as [Hlt|]; [|lia]. pose proof (idx_in_tree hs ps n Hsz m62 k l0 (width k l0 - 1) n Hk ltac:(lia) ltac:(lia) Hlt). lia. }
  assert (height k < n)%nat as Hh.
  { assert (l0 < n)%nat as Hln by (destruct (decide (l0 < n)%nat); [done|]; pose proof (idx_high l0 (width k l0 - 1) n ltac:(lia)); lia). apply idx_bound in Hlt; [|done]. assert (height k <= n - 1)%nat; [|lia]. apply height_le; [done|].
    replace (n - 1)%nat with (n - 1 - l0 + l0)%nat by lia. rewrite Nat.pow_add_r. nia. }
  pose proof (idx_range l0 (width k l0 - 1)). rewrite (has_node_ok hs ps n Hsz Hn) by (done || lia). cbn [mbind outcome_bind]. fold (known st l0 (width k l0 - 1)). destruct (known st l0 (width k l0 - 1)) eqn:K; cbn [negb]; [|exists st, false; split_and!; try done; right; by left].
  destruct (proof_node_ok hs ps n Hsz m62 st (idx l0 (width k l0 - 1)) Ho ltac:(lia)) as [-> Hnode]. cbn [mbind outcome_bind]. fold (value st l0 (width k l0 - 1)) in Hnode |- *.
  destruct (set_buf_ok hs ps n Hsz m62 st l0 _ Ho ltac:(lia) Hnode) as [-> Ho1]. cbn [mbind outcome_bind]. set (B := <[l0 := _]> (bm_node_buf st)) in *.
  assert (bnode B l0 = value st l0 (width k l0 - 1)) as Hb. { unfold B. rewrite (bnode_insert hs ps n Hsz Hn) by (lia || apply (bo_buf_len _ _ _ _ Ho)). by rewrite decide_True. }
  destruct (finip_up_ok st k Hk Hmax Hh 64 l0 B Ho1 Hw ltac:(lia) ltac:(lia)) as (B' & b & -> & Ho2 & Hpre & Hr). cbn [mbind outcome_bind fst snd]. destruct b; cbn [negb].
  - destruct (cache_path_ok k Hk Hmax Hh 64 l0 _ Ho2 (words_buf hs ps n Hsz Hn _ _ Hw) ltac:(lia) ltac:(lia)) as (P & W & -> & Ho3 & Hw3 & Hv & Hkn). cbn [mbind outcome_bind]. do 2 eexists. split; [done|]. split; [done|]. split; [done|]. split; [lia|].
    exists B'. split; [by rewrite Hpre|done| |].
    + intros m j. rewrite Hv. by rewrite (value_buf hs ps n Hsz Hn).
    + intros m j. rewrite Hkn. by rewrite (known_buf hs ps n Hsz Hn).
  - exists (bm_set_node_buf st B'), false. split_and!; [done|done|by apply (words_buf hs ps n Hsz Hn)|]. destruct Hr as (l & Hl & Hfail & Hsteps). right. right. exists B', l. split_and!; [by rewrite Hpre|lia|lia|done|done].
Qed.

(** Finishing returns; a root is that of the known leaves, and is missing only when the
    edge fails or a node is missing. *)
Lemma commitp_fini_ok st k l0 d : pinv st -> (k = (2 * d + 1) * 2 ^ l0)%nat -> Z.of_nat k <= leaf_max ->
  exists st' r, fd_bmtree_commitp_fini st (Z.of_nat k) = Ok (st', r) /\ ok st' /\ words_ok st' /\
    match r with
    | Some root => (height k < n)%nat /\ root ≃ merkle_root hs ps (leaves_of st k) /\ forall j, (j < k)%nat -> known st 0 j = true
    | None => (1 <= d)%nat /\ not_edged st k l0 \/ exists st1 B, edged st st1 k l0 B /\ ~ all_known st1 k
    end.
Proof using Hsz Hn.
  intros Hinv Ek Hmax. pose proof (pow2_pos l0) as Hp0. assert (1 <= k)%nat as Hk by nia. unfold fd_bmtree_commitp_fini. replace (Z.of_nat k =? 0) with false by lia.
  assert (fd_ulong_is_pow2 (Z.of_nat k) = Nat.eqb d 0) as -> by (rewrite Ek; apply is_pow2_odd; rewrite <- Ek; unfold ULONG_MAX, leaf_max in *; lia).
  assert (exists st1 b, (if negb (Nat.eqb d 0) then fini_path st (Z.of_nat k) else Ok (st, true)) = Ok (st1, b) /\ ok st1 /\ words_ok st1 /\ (if (b : bool) then (l0 <= height k)%nat /\ exists B, edged st st1 k l0 B else (1 <= d)%nat /\ not_edged st k l0)) as (st1 & b & -> & Ho1 & Hw1 & Hb).
  { destruct (Nat.eqb_spec d 0) as [->|Hd]; cbn [negb].
    - exists st, true. split; [done|]. split; [apply Hinv|]. split; [apply Hinv|]. assert (height k = l0) as Eh by (rewrite Ek; unfold height; rewrite Nat.mul_1_l; apply Nat.log2_up_pow2; lia). split; [lia|].
      exists (<[l0 := value st l0 (width k l0 - 1)]> (repeat [] 63)). assert (l0 <= 62)%nat by (rewrite <- Eh; by apply height_62). split.
      + rewrite (bnode_insert hs ps n Hsz Hn) by (apply repeat_length || lia). by rewrite decide_True.
      + intros; lia.
      + intros m j. rewrite decide_False; [done|]. intros [? _]. lia.
      + intros m j. rewrite bool_decide_eq_false_2, orb_false_r; [done|]. intros [? _]. lia.
    - destruct (fini_path_ok st k l0 d Hinv Ek ltac:(lia) Hmax) as (st1 & b & -> & Ho1 & Hw1 & Hb). exists st1, b. split_and!; try done. destruct b; [destruct Hb as [? ?]; split; [lia|done]|split; [lia|done]]. }
  cbn [mbind outcome_bind fst snd]. destruct b; cbn [negb].
  - destruct Hb as [Hl0 [B HE]]. destruct (tail_check_ok hs ps n Hsz Hn st1 k Ho1 Hw1 Hk Hmax) as (t & -> & Ht). cbn [mbind outcome_bind]. destruct t as [root|].
    + destruct Ht as (Hh & Hall & ->). do 2 eexists. split; [done|]. split; [destruct Ho1; by split|]. split; [destruct Hw1; by split|]. split; [done|]. split.
      * unfold merkle_root. rewrite leaves_of_length. apply (edged_tree st st1 k l0 d B Hinv Ek ltac:(lia) HE Hall); [done|]. pose proof (width_pos k (height k) Hk). lia.
      * intros j Hj. pose proof (Hall 0%nat j ltac:(lia) Hj) as K. rewrite (ed_known _ _ _ _ _ HE), bool_decide_eq_false_2, orb_false_r in K; [done|]. intros [? _]. lia.
    + do 2 eexists. split; [done|]. split; [done|]. split; [done|]. right. eauto.
  - do 2 eexists. split; [done|]. split; [done|]. split; [done|]. by left.
Qed.
End Root.
