(* ===== verification/BmtreeAgree.v ===== *)
(** * Merkle trees from proofs: sequences of insertions

    The invariant of [BmtreeKnown] holds from [fd_bmtree_commit_init] on, whatever is
    inserted.  When what is inserted are the proofs of one tree, insertions do not fail
    and finishing finds the root as soon as every leaf was inserted. *)
From S2P Require Import Prelude VotorBase Sha256 Sha256Props Bmtree BmtreeSpec BmtreeLeaves BmtreePaths BmtreeKnown BmtreeFini BmtreeRoot.

Section Agree.
Context (hs ps : Z) (n : nat) (Hsz : sizes_ok hs ps) (Hn : (1 <= n <= 62)%nat).
Notation ok := (bm_ok hs ps n).
Notation words_ok := (words_ok n).
Notation hash := (H hs ps).
Notation tnode := (tree_node hs ps).
Notation pinv := (pinv hs ps n).
Notation "a ≃ b" := (same hs a b) (at level 70).

Lemma l62 : (n <= 62)%nat.
Proof using Hsz Hn. lia. Qed.

(** ** The start *)

(** Memory for a calculation by proofs: the bit set has a bit more than there are nodes. *)
Definition proof_mem (mem : fd_bmtree_commit_t) : Prop :=
  mem_ok n mem /\ Z.of_nat (length (bm_inclusion_proofs_valid mem)) = 1 + (zpow n - 1) / 64.

Lemma init_valid mem i : proof_mem mem -> valid (fd_bmtree_commit_init mem hs ps (Z.of_nat n)) i = false.
Proof using Hsz Hn.
  intros [_ Hl]. unfold valid, fd_bmtree_commit_init. cbn [bm_inclusion_proofs_valid]. pose proof (zpow_pos n). pose proof (zpow_63 n ltac:(lia)). rewrite shiftl1, u64_sub_small by (lia || (unfold is_u64, ULONG_MAX; lia)).
  rewrite drop_ge, app_nil_r by lia. rewrite nth_repeat. apply Z.testbit_0_l.
Qed.

Lemma init_pinv mem : proof_mem mem -> pinv (fd_bmtree_commit_init mem hs ps (Z.of_nat n)).
Proof using Hsz Hn.
  intros Hm. split.
  - apply (init_ok hs ps n Hsz l62), Hm.
  - split.
    + unfold fd_bmtree_commit_init. cbn [bm_inclusion_proofs_valid]. pose proof (zpow_pos n). pose proof (zpow_63 n ltac:(lia)). rewrite shiftl1, u64_sub_small by (lia || (unfold is_u64, ULONG_MAX; lia)). rewrite length_app, repeat_length. pose proof (Z.div_pos (zpow n - 1) 64). lia.
    + unfold fd_bmtree_commit_init. cbn [bm_inclusion_proofs_valid]. pose proof (zpow_pos n). pose proof (zpow_63 n ltac:(lia)). rewrite shiftl1, u64_sub_small by (lia || (unfold is_u64, ULONG_MAX; lia)). destruct Hm as [_ Hl].
      rewrite drop_ge, app_nil_r by lia. rewrite Forall_forall. intros x Hx%list_elem_of_In%repeat_spec. subst. unfold is_u64, ULONG_MAX. lia.
    + intros i Hi. by rewrite init_valid.
  - intros l j _ K. unfold known in K. by rewrite init_valid in K.
Qed.

(** ** Any insertion *)

Record request := mk_request { rq_idx : Z; rq_leaf : fd_bmtree_node_t; rq_proof : list Z; rq_depth : Z }.

Definition insert_request (st : fd_bmtree_commit_t) (q : request) : outcome (fd_bmtree_commit_t * option fd_bmtree_node_t) :=
  fd_bmtree_commitp_insert_with_proof st (rq_idx q) (rq_leaf q) (rq_proof q) (rq_depth q).

(** What a caller passes: a leaf index whose double fits and a proof of the given depth. *)
Record request_ok (q : request) : Prop := mk_request_ok {
  ro_idx : 0 <= rq_idx q < 9223372036854775808;
  ro_leaf : node_ok (rq_leaf q);
  ro_bytes : Forall is_byte (rq_proof q);
  ro_depth : 0 <= rq_depth q;
  ro_len : rq_depth q * hs <= Z.of_nat (length (rq_proof q)) }.

Definition holds (st : fd_bmtree_commit_t) (q : request) : Prop := exists j, rq_idx q = Z.of_nat j /\ known st 0 j = true /\ value st 0 j ≃ rq_leaf q.

(** Insertion returns and keeps the invariant and the known nodes; a success adds the leaf. *)
Lemma insert_request_ok st q : pinv st -> request_ok q -> exists st' r, insert_request st q = Ok (st', r) /\ pinv st' /\
  (forall m j, known st m j = true -> known st' m j = true /\ value st' m j ≃ value st m j) /\ (r <> None -> holds st' q).
Proof using Hsz Hn.
  intros Hinv [Hi Hleaf Hb Hd Hlen]. unfold insert_request. destruct q as [i leaf proof pd]. cbn [rq_idx rq_leaf rq_proof rq_depth] in *.
  assert (exists st' r, Ok (st, @None fd_bmtree_node_t) = Ok (st', r) /\ pinv st' /\ (forall m j, known st m j = true -> known st' m j = true /\ value st' m j ≃ value st m j) /\ (r <> None -> holds st' (mk_request i leaf proof pd))) as Hnone.
  { exists st, None. by split_and!. }
  pose proof (bo_sz _ _ _ _ (pi_ok _ _ _ _ Hinv)) as Esz. pose proof (zpow_pos n) as Hzp. pose proof (zpow_63 n ltac:(lia)) as Hz63. destruct (decide (idx 0 (Z.to_nat i) < zpow n - 1)) as [Hidx|Hidx]; [destruct (decide (pd < Z.of_nat n)) as [Hpd|Hpd]|].
  - assert (Z.to_nat pd * hsn hs <= length proof)%nat as Hlen' by (unfold hsn; destruct Hsz; nia). destruct (insert_ok hs ps n Hsz Hn st Hinv (Z.to_nat i) proof Hb Hidx leaf (Z.to_nat pd) Hleaf Hlen' ltac:(lia)) as (st' & r & E & Ho & Hw & Hr).
    rewrite !Z2Nat.id in E by lia. rewrite E. exists st', r. split; [done|]. destruct Hr as [(B & -> & Hk & Hv & _)|(T & B & -> & HW & HI)].
    + split_and!; [|intros m j K; rewrite Hk, Hv; split; [done|reflexivity]|done]. split; [done|done|]. intros l j Hl. rewrite !Hk, !Hv. by apply Hinv.
    + split_and!; [split; [done|done|by apply (inserted_consistent hs ps n Hsz Hn st Hinv (Z.to_nat i) proof Hb Hidx leaf (Z.to_nat pd) T B)]|by apply (inserted_keeps hs ps n Hsz Hn st Hinv (Z.to_nat i) proof Hb Hidx leaf (Z.to_nat pd) T B)|].
      intros _. exists (Z.to_nat i). cbn [rq_idx rq_leaf]. rewrite Z2Nat.id by lia. assert (on_branch (Z.to_nat i) 0 (S T) 0 (Z.to_nat i)) as Hon by (split; [lia|]; unfold path; change (2 ^ 0)%nat with 1%nat; by rewrite Nat.div_1_r).
      split; [done|]. split; [rewrite (in_known _ _ _ _ _ _ _ _ _ HI), (bool_decide_eq_true_2 (on_branch _ 0 (S T) 0 _)) by done; by rewrite orb_true_r|]. rewrite (in_branch _ _ _ _ _ _ _ _ _ HI) by done. rewrite (wk_leaf _ _ _ _ _ _ _ _ _ _ HW). reflexivity.
  - unfold fd_bmtree_commitp_insert_with_proof. rewrite idx_0, Z2Nat.id in Hidx by lia. unfold u64_mul. rewrite u64_small by (unfold is_u64, ULONG_MAX; lia). rewrite Esz. replace (zpow n - 1 <=? 2 * i) with false by lia.
    destruct (Z.ltb_spec 63 pd); cbn [orb]; [done|]. assert (u64 (Z.shiftl 1 pd) = zpow (Z.to_nat pd)) as -> by (rewrite <- shiftl1 by lia; by rewrite Z2Nat.id). pose proof (zpow_mono n (Z.to_nat pd) ltac:(lia)). pose proof (zpow_63 (Z.to_nat pd) ltac:(lia)). rewrite u64_sub_small by (unfold is_u64, ULONG_MAX; lia).
    replace (zpow n - 1 <=? zpow (Z.to_nat pd) - 1) with true by lia. done.
  - unfold fd_bmtree_commitp_insert_with_proof. rewrite idx_0, Z2Nat.id in Hidx by lia. unfold u64_mul. rewrite u64_small by (unfold is_u64, ULONG_MAX; lia). rewrite Esz. replace (zpow n - 1 <=? 2 * i) with true by lia. done.
Qed.

(** The states of a calculation, with the insertions that succeeded. *)
Inductive calc (mem : fd_bmtree_commit_t) : fd_bmtree_commit_t -> list request -> Prop :=
  | calc_init : calc mem (fd_bmtree_commit_init mem hs ps (Z.of_nat n)) []
  | calc_inserted st acc q st' root : calc mem st acc -> request_ok q -> insert_request st q = Ok (st', Some root) -> calc mem st' (acc ++ [q])
  | calc_rejected st acc q st' : calc mem st acc -> request_ok q -> insert_request st q = Ok (st', None) -> calc mem st' acc.

Lemma calc_ok mem st acc : proof_mem mem -> calc mem st acc -> pinv st /\ Forall (holds st) acc.
Proof using Hsz Hn.
  intros Hm. induction 1 as [|st acc q st' root _ [Hinv Hacc] Hq E|st acc q st' _ [Hinv Hacc] Hq E]; [split; [by apply init_pinv|constructor]| |].
  all: destruct (insert_request_ok st q Hinv Hq) as (st1 & r & E1 & Hinv1 & Hkeep & Hnew); rewrite E in E1; injection E1 as <- <-; split; [done|].
  all: assert (Forall (holds st') acc) as Hacc' by (eapply Forall_impl; [exact Hacc|]; intros q' (j & Ej & K & V); destruct (Hkeep _ _ K) as [K' V']; exists j; split_and!; [done|done|by rewrite V']).
  - apply Forall_app. split; [done|]. constructor; [by apply Hnew|constructor].
  - done.
Qed.

(** ** Insertions of the proofs of one tree *)

Section Honest.
Context (L : list fd_bmtree_node_t) (HL : Forall node_ok L) (Hk : (1 <= length L)%nat) (Hmax : Z.of_nat (length L) <= leaf_max) (Hh : (height (length L) < n)%nat).
Notation k := (length L).
Notation w := (width k).
Notation h := (height k).

(** The nodes of the tree, and the copy of a last node without a partner. *)
Definition in_tree (l j : nat) : Prop := (l <= h /\ j < w l \/ l < h /\ j = w l)%nat.

Definition agrees (st : fd_bmtree_commit_t) : Prop := forall l j, known st l j = true -> in_tree l j /\ value st l j ≃ tnode L l (Nat.min j (w l - 1)).

Lemma sib_in_tree l j : (l < h)%nat -> (j < w l)%nat -> in_tree l (sib j) /\ Nat.min (sib j) (w l - 1) = partner (w l) j.
Proof using Hsz Hn HL Hk Hmax Hh. intros Hl Hj. unfold in_tree, partner. destruct (even_cases j) as [(_ & E & ->)|(_ & E & ->)]; case_decide; lia. Qed.

Lemma honest_chunk i rest l : (i < k)%nat -> (l < h)%nat -> chunk_at hs (proof_bytes hs ps L i h ++ rest) l ≃ tnode L l (partner (w l) (i / 2 ^ l)).
Proof using Hsz Hn HL Hk Hmax Hh.
  intros Hi Hl. pose proof (chunks_proof_bytes hs ps n Hsz l62 L i h rest HL Hk Hi) as E. apply (f_equal (.!! l)) in E. unfold chunks in E. rewrite !list_lookup_fmap, lookup_seq_lt in E by done. cbn [fmap option_fmap option_map Nat.add] in E. injection E as ->.
  unfold proof_chunk, same. fold (hsn hs). by rewrite take_take, Nat.min_id.
Qed.

Section Proof_of.
Context (st : fd_bmtree_commit_t) (Hinv : pinv st) (Hag : agrees st) (i : nat) (Hi : (i < k)%nat) (rest : list Z) (B : list fd_bmtree_node_t) (HB : bnode B 0 = nth i L []).
Notation proof := (proof_bytes hs ps L i h ++ rest).
Notation path := (path i).

Lemma path_width l : (path l < w l)%nat.
Proof using Hsz Hn HL Hk Hmax Hh Hi. by apply (path_lt hs ps n Hsz l62). Qed.

(** The walk along the proof goes through the nodes of the tree. *)
Lemma honest_walk l : (forall l', (l' < l)%nat -> proof_step hs ps st i proof B l') -> (l <= h)%nat -> bnode B l ≃ tnode L l (path l).
Proof using Hsz Hn HL Hk Hmax Hh Hi HB.
  induction l as [|l IH]; intros Hs Hl; [rewrite HB; unfold path, tree_node; change (2 ^ 0)%nat with 1%nat; rewrite Nat.div_1_r; reflexivity|].
  specialize (IH (fun l' Hl' => Hs l' ltac:(lia)) ltac:(lia)). destruct (Hs l ltac:(lia)) as (E & _). rewrite E. unfold path. rewrite (div_pow_S hs ps n Hsz l62). fold (path l). rewrite (hash_partner hs ps n Hsz l62) by apply path_width.
  fold (ph hs ps (path l) (tnode L l (path l)) (tnode L l (partner (w l) (path l)))). rewrite (ph_same hs ps n Hsz Hn _ _ _ _ _ IH (honest_chunk i rest l Hi ltac:(lia))). reflexivity.
Qed.

Lemma honest_no_conflict l : (l < h)%nat -> (forall l', (l' < l)%nat -> proof_step hs ps st i proof B l') -> ~ conflict_at hs st i proof B l.
Proof using Hsz Hn HL Hk Hmax Hh Hi HB Hag.
  intros Hl Hs [[K Hne]|[K Hne]]; apply Hne; destruct (Hag _ _ K) as [_ ->].
  - destruct (sib_in_tree l (path l) Hl (path_width l)) as [_ ->]. by apply honest_chunk.
  - rewrite honest_walk by (done || lia). pose proof (path_width l). by replace (Nat.min (path l) (w l - 1)) with (path l) by lia.
Qed.

Lemma root_alone : known st h (sib (path h)) = false.
Proof using Hsz Hn HL Hk Hmax Hh Hi Hag.
  destruct (known st h (sib (path h))) eqn:K; [|done]. exfalso. apply Hag in K as [Ht _]. pose proof (path_width h) as Hp. assert (w h = 1%nat) as Ew by (by apply width_height). unfold in_tree in Ht. destruct (even_cases (path h)) as [(_ & E & Es)|(_ & E & Es)]; rewrite Es in Ht; lia.
Qed.
End Proof_of.

Definition honest (q : request) (i : nat) : Prop := (i < k)%nat /\ rq_idx q = Z.of_nat i /\ rq_leaf q = nth i L [] /\ rq_depth q = Z.of_nat h /\ exists rest, rq_proof q = proof_bytes hs ps L i h ++ rest /\ Forall is_byte rest.

Lemma leaf_ok i : (i < k)%nat -> node_ok (nth i L []).
Proof using Hsz Hn HL Hk Hmax Hh. intros Hi. by apply (tnode_ok hs ps n Hsz l62 L 0 i). Qed.

Lemma honest_ok q i : honest q i -> request_ok q.
Proof using Hsz Hn HL Hk Hmax Hh.
  intros (Hi & Ei & El & Ed & rest & Ep & Hr). split; rewrite ?Ei, ?El, ?Ed, ?Ep; [unfold leaf_max in Hmax; lia|by apply leaf_ok| |lia|].
  - apply Forall_app. split; [by apply (proof_bytes_ok hs ps n Hsz l62)|done].
  - rewrite length_app, (proof_bytes_length hs ps n Hsz l62) by done. unfold hsn. destruct Hsz. lia.
Qed.

(** Inserting with a proof of the tree gives its root. *)
Lemma insert_honest st q i : pinv st -> agrees st -> honest q i -> exists st' root, insert_request st q = Ok (st', Some root) /\ root ≃ merkle_root hs ps L /\ agrees st'.
Proof using Hsz Hn HL Hk Hmax Hh.
  intros Hinv Hag Hq. pose proof (honest_ok q i Hq) as [_ Hleaf Hb _ Hlen]. destruct Hq as (Hi & Ei & El & Ed & rest & Ep & Hr). unfold insert_request. rewrite Ei, El, Ed, Ep in *.
  assert (idx 0 i < zpow n - 1) as Hidx by (apply (idx_in_tree hs ps n Hsz l62 k); (done || lia)). assert (h * hsn hs <= length (proof_bytes hs ps L i h ++ rest))%nat as Hlen' by (unfold hsn; destruct Hsz; lia).
  destruct (insert_ok hs ps n Hsz Hn st Hinv i _ Hb Hidx _ h Hleaf Hlen' ltac:(lia)) as (st' & r & -> & Ho & Hw & [(B & -> & _ & _ & HB & l & Hs & Hkn & Hl & Hc)|(T & B & -> & HW & HI)]).
  { exfalso. destruct Hc as [[Hlp Hc]|(Hlp & K & Hne)]; [by apply (honest_no_conflict st Hag i Hi rest B HB l Hlp (fun l' Hl' => Hs l' Hl' ltac:(lia)))|]. destruct (decide (l = h)) as [->|Hlh].
    - apply Hne. destruct (Hag _ _ K) as [_ ->]. rewrite (honest_walk st i Hi rest B HB h) by (intros; (by apply Hs) || lia). pose proof (path_width i Hi h). by replace (Nat.min (path i h) (w h - 1)) with (path i h) by lia.
    - destruct (Hkn h ltac:(lia)) as (_ & K1 & _). rewrite (root_alone st Hag i Hi) in K1. done. }
  assert (T = h) as ->. { pose proof (wk_T _ _ _ _ _ _ _ _ _ _ HW). destruct (decide (T = h)) as [|Hne]; [done|]. destruct (wk_known _ _ _ _ _ _ _ _ _ _ HW h ltac:(lia)) as (_ & K1 & _). rewrite (root_alone st Hag i Hi) in K1. done. }
  pose proof (wk_leaf _ _ _ _ _ _ _ _ _ _ HW) as HB. pose proof (wk_proof _ _ _ _ _ _ _ _ _ _ HW) as Hs. exists st', (bnode B h). split; [done|].
  assert (forall l, (l <= h)%nat -> bnode B l ≃ tnode L l (path i l)) as Hnodes by (intros l Hl; apply (honest_walk st i Hi rest B HB l); [intros; apply Hs; lia|done]).
  split; [rewrite Hnodes by done; unfold merkle_root, path; rewrite (div_height hs ps n Hsz l62) by done; reflexivity|].
  intros m j Hm. destruct (known st m j) eqn:K0. { destruct (Hag _ _ K0) as [Ht Hv]. split; [done|]. rewrite <- Hv. by apply (inserted_keeps hs ps n Hsz Hn st Hinv i _ Hb Hidx _ h h B st' HW HI). }
  rewrite (in_known _ _ _ _ _ _ _ _ _ HI), K0, orb_false_l, orb_true_iff, !bool_decide_eq_true in Hm. pose proof (path_width i Hi m) as Hp. destruct Hm as [Hon|Hon].
  - rewrite (in_branch _ _ _ _ _ _ _ _ _ HI) by done. destruct Hon as [Hm ->]. split; [left; lia|]. rewrite Hnodes by lia. by replace (Nat.min (path i m) (w m - 1)) with (path i m) by lia.
  - rewrite (in_proof _ _ _ _ _ _ _ _ _ HI) by done. destruct Hon as [Hm ->]. destruct (sib_in_tree m (path i m) ltac:(lia) Hp) as [Ht ->]. split; [done|]. by apply honest_chunk; [|lia].
Qed.

(** A node of which the subtree is complete follows from the leaves. *)
Lemma complete_known st : pinv st -> (forall i, (i < k)%nat -> known st 0 i = true) -> forall l j, ((j + 1) * 2 ^ l <= k)%nat -> known st l j = true.
Proof using Hsz Hn HL Hk Hmax Hh.
  intros Hinv Hleaves. induction l as [|l IH]; intros j Hj; [apply Hleaves; cbn in Hj; lia|]. pose proof (pow2_pos l). rewrite Nat.pow_succ_r' in Hj. assert (S l <= h)%nat as Hl.
  { destruct (decide (S l <= h)%nat) as [|Hgt]; [done|]. destruct (height_spec k Hk) as [Hs _]. pose proof (Nat.pow_le_mono_r 2 h l ltac:(lia) ltac:(lia)). nia. }
  assert (sib (2 * j) = 2 * j + 1)%nat as Es by (destruct (even_cases (2 * j)) as [(_ & _ & ->)|(_ & E & _)]; [done|lia]).
  destruct (pi_cons _ _ _ _ Hinv l (2 * j)%nat ltac:(lia) (IH (2 * j)%nat ltac:(nia)) ltac:(rewrite Es; apply IH; nia)) as [K _]. by rewrite (Nat.mul_comm 2 j), Nat.div_mul in K by lia.
Qed.

Lemma complete_or_edge l0 d l j : (k = (2 * d + 1) * 2 ^ l0)%nat -> (l <= h)%nat -> (j < w l)%nat -> ((j + 1) * 2 ^ l <= k)%nat \/ on_edge k l0 l j.
Proof using Hsz Hn HL Hk Hmax Hh.
  intros Ek Hl Hj. destruct (decide (j + 1 < w l)%nat) as [Hlt|Hge]; [left; apply lt_width in Hlt; lia|]. destruct (decide (l <= l0)%nat) as [Hle|]; [|right; split; [lia|lia]]. left.
  pose proof (width_multiple hs ps n Hsz l62 l0 d l Hle) as E. cbv zeta in E. rewrite <- Ek in E. assert (j + 1 = w l)%nat as -> by lia. lia.
Qed.

(** The edge of a tree whose leaves are known. *)
Lemma honest_edge st l0 B l : pinv st -> agrees st -> (forall i, (i < k)%nat -> known st 0 i = true) -> known st l0 (w l0 - 1) = true -> bnode B l0 = value st l0 (w l0 - 1) -> (l0 <= l <= h)%nat ->
  (forall l', (l0 <= l' < l)%nat -> edge_step hs ps st k B l') -> bnode B l ≃ tnode L l (w l - 1).
Proof using Hsz Hn HL Hk Hmax Hh.
  intros Hinv Hag Hleaves K0 H0 Hl Hs. destruct Hl as [Hle Hl]. induction Hle as [|l Hle IH].
  { rewrite H0. destruct (Hag _ _ K0) as [_ ->]. by rewrite Nat.min_id. }
  assert (2 <= w l)%nat as H2. { destruct (decide (2 <= w l)%nat); [done|]. pose proof (width_pos k l Hk). assert (h <= l)%nat by (apply width_height; lia). lia. }
  rewrite (edge_node hs ps n Hsz Hn st B L l Hk (proj1 (Hs l ltac:(lia))) H2); [reflexivity|apply IH; [lia|intros; apply Hs; lia]|].
  intros Ho. destruct (Hs l ltac:(lia)) as [He _]. unfold edge_hash in He. rewrite Ho in He. destruct He as [K _]. destruct (Hag _ _ K) as [_ ->]. by replace (Nat.min (w l - 2) (w l - 1)) with (w l - 2)%nat by lia.
Qed.

Lemma honest_edged st l0 d : pinv st -> agrees st -> (forall i, (i < k)%nat -> known st 0 i = true) -> (k = (2 * d + 1) * 2 ^ l0)%nat -> ~ not_edged hs ps n st k l0.
Proof using Hsz Hn HL Hk Hmax Hh.
  intros Hinv Hag Hleaves Ek. pose proof (width_multiple hs ps n Hsz l62 l0 d l0 ltac:(lia)) as E0. cbv zeta in E0. rewrite <- Ek in E0. pose proof (width_pos k l0 Hk).
  assert (known st l0 (w l0 - 1) = true) as K0 by (apply complete_known; [done|done|]; replace (w l0 - 1 + 1)%nat with (w l0) by lia; lia).
  intros [?|[?|(B & l & HB & Hl & Hf & Hs)]]; [lia|congruence|]. pose proof (honest_edge st l0 B l Hinv Hag Hleaves K0 HB ltac:(lia) Hs) as Hbn.
  assert (2 <= w l)%nat as H2. { destruct (decide (2 <= w l)%nat); [done|]. pose proof (width_pos k l Hk). assert (h <= l)%nat by (apply width_height; lia). lia. }
  assert (known st l (w l - 2) = true) as K2. { apply complete_known; [done|done|]. replace (w l - 2 + 1)%nat with (w l - 1)%nat by lia. assert (w l - 1 < w l)%nat as Hlt by lia. apply lt_width in Hlt; lia. }
  destruct Hf as [[_ K]|[K Hne]]; [congruence|]. apply Hne. destruct (Hag _ _ K) as [_ ->]. rewrite Nat.min_id. set (x := if Nat.odd (w l) then _ else _).
  assert (bnode (<[S l := x]> (<[l := bnode B l]> (repeat [] 63))) (S l) = tnode L (S l) (w (S l) - 1)) as Ex.
  { pose proof (height_62 k Hk Hmax). assert (forall m, bnode (<[S l := x]> (<[l := bnode B l]> (repeat [] 63))) m = if decide (m = S l) then x else if decide (m = l) then bnode B l else bnode (repeat [] 63) m) as Hb.
    { intros m. rewrite !(bnode_insert hs ps n Hsz Hn) by (rewrite ?length_insert; apply repeat_length || lia). done. }
    apply (edge_node hs ps n Hsz Hn st); try done.
    - unfold edge_hash. rewrite !Hb, (decide_True (P := S l = S l)), (decide_False (P := l = S l)), (decide_True (P := l = l)) by (done || lia). unfold x. by destruct (Nat.odd (w l)).
    - rewrite Hb, decide_False, decide_True by (done || lia). done.
    - intros _. destruct (Hag _ _ K2) as [_ ->]. by replace (Nat.min (w l - 2) (w l - 1)) with (w l - 2)%nat by lia. }
  pose proof (height_62 k Hk Hmax). rewrite (bnode_insert hs ps n Hsz Hn), decide_True in Ex by (rewrite ?length_insert; apply repeat_length || lia || done). rewrite Ex. reflexivity.
Qed.
End Honest.

(** Leaves with the same hashes have the same root. *)
Lemma tnode_same (L L' : list fd_bmtree_node_t) : length L = length L' -> (forall j, (j < length L)%nat -> nth j L [] ≃ nth j L' []) -> forall l j, (j < width (length L) l)%nat -> tnode L l j ≃ tnode L' l j.
Proof using Hsz Hn.
  intros El Hs. induction l as [|l IH]; intros j Hj; [by apply Hs|]. assert (j < width (length L') (S l))%nat as Hj' by (by rewrite <- El). rewrite (tree_node_S _ _ L _ _ Hj), (tree_node_S _ _ L' _ _ Hj'). rewrite <- El. assert (2 * j < width (length L) l)%nat by (cbn [width] in Hj; pose proof (Nat.div_mod_eq (width (length L) l + 1) 2); lia).
  rewrite (IH (2 * j)%nat), (IH (if decide _ then _ else _)) by (try case_decide; lia). reflexivity.
Qed.

(** With every leaf of the tree known, finishing returns the root. *)
Lemma commitp_fini_complete st (L : list fd_bmtree_node_t) : Forall node_ok L -> (1 <= length L)%nat -> Z.of_nat (length L) <= leaf_max -> (height (length L) < n)%nat -> pinv st -> agrees L st -> (forall i, (i < length L)%nat -> known st 0 i = true) ->
  exists st' root, fd_bmtree_commitp_fini st (Z.of_nat (length L)) = Ok (st', Some root) /\ root ≃ merkle_root hs ps L.
Proof using Hsz Hn.
  intros HL Hk Hmax Hh Hinv Hag Hleaves. destruct (odd_part (length L) Hk) as (l0 & d & Ek). destruct (commitp_fini_ok hs ps n Hsz Hn st (length L) l0 d Hinv Ek Hmax) as (st' & [root|] & -> & _ & _ & Hr).
  - exists st', root. split; [done|]. destruct Hr as (_ & -> & _). unfold merkle_root. rewrite (leaves_of_length hs ps n Hsz Hn). apply tnode_same; [by rewrite (leaves_of_length hs ps n Hsz Hn)| |].
    + rewrite (leaves_of_length hs ps n Hsz Hn). intros j Hj. rewrite (leaves_of_nth hs ps n Hsz Hn) by done. destruct (Hag _ _ (Hleaves j Hj)) as [_ ->]. cbn [width]. by replace (Nat.min j (length L - 1)) with j by lia.
    + rewrite (leaves_of_length hs ps n Hsz Hn). apply width_pos. done.
  - exfalso. destruct Hr as [[_ Hne]|(st1 & B & HE & Hnot)]; [by apply (honest_edged L HL Hk Hmax Hh st l0 d)|]. apply Hnot. intros l j Hl Hj. rewrite (ed_known _ _ _ _ _ _ _ HE).
    destruct (complete_or_edge L HL Hk Hmax Hh l0 d l j Ek Hl Hj) as [Hc|Hon]; [|by rewrite (bool_decide_eq_true_2 (on_edge _ _ _ _)), orb_true_r]. by rewrite (complete_known L HL Hk Hmax Hh st Hinv Hleaves l j Hc).
Qed.
End Agree.
