(* ===== verification/BmtreeProps.v ===== *)
(** * Merkle trees: the results

    Calculations by leaves give the root of the reference tree of [BmtreeSpec], the proofs
    they hand out lead back to the root and bind the leaf, and calculations by proofs give
    the root of the leaves that were inserted. *)
From S2P Require Import Prelude VotorBase Sha256 Sha256Props Bmtree BmtreeSpec BmtreeLeaves BmtreePaths BmtreeKnown BmtreeFini BmtreeRoot BmtreeAgree.

(** A calculation by leaves that come in batches. *)
Definition build (mem : fd_bmtree_commit_t) (hs ps : Z) (n : nat) (batches : list (list fd_bmtree_node_t)) : outcome (fd_bmtree_commit_t * fd_bmtree_node_t) :=
  st ← ofold fd_bmtree_commit_append (fd_bmtree_commit_init mem hs ps (Z.of_nat n)) batches; fd_bmtree_commit_fini st.

(** ** Sizes *)

Lemma foldl_add (f : Z -> Z) xs a : (forall x, x ∈ xs -> 0 <= f x) -> 0 <= a -> a + foldr (fun x s => f x + s) 0 xs <= ULONG_MAX ->
  foldl (fun c i => c +w f i) a xs = a + foldr (fun x s => f x + s) 0 xs.
Proof.
  revert a. induction xs as [|x xs IH]; intros a Hf Ha Hb; cbn [foldl foldr] in *; [lia|]. assert (0 <= f x) by (apply Hf; constructor). assert (forall y, y ∈ xs -> 0 <= f y) as Hf' by (intros y Hy; apply Hf; by constructor).
  assert (0 <= foldr (fun x s => f x + s) 0 xs). { clear - Hf'. induction xs as [|y xs IH]; cbn [foldr]; [lia|]. assert (0 <= f y) by (apply Hf'; constructor). specialize (IH (fun z Hz => Hf' z ltac:(by constructor))). lia. }
  rewrite u64_add_small by (unfold is_u64; lia). rewrite IH by (done || lia). lia.
Qed.

(** The number of nodes of all layers. *)
Definition node_total (k : nat) : Z := foldr (fun l s => Z.of_nat (width k l) + s) 0 (seq 0 (S (height k))).

Lemma halves_sum (m : Z) (c : nat) : 0 <= m -> 0 <= foldr (fun x s => Z.shiftr m x + s) 0 (Z.of_nat <$> seq 0 c) <= 2 * m.
Proof.
  revert m. induction c as [|c IH]; intros m Hm; [cbn; lia|]. cbn [seq fmap list_fmap foldr]. change (Z.of_nat 0) with 0. rewrite Z.shiftr_0_r. rewrite <- fmap_S_seq, <- list_fmap_compose, foldr_fmap.
  assert (foldr (λ x s, Z.shiftr m (Z.of_nat (S x)) + s) 0 (seq 0 c) = foldr (fun x s => Z.shiftr (Z.shiftr m 1) x + s) 0 (Z.of_nat <$> seq 0 c)) as E.
  { rewrite foldr_fmap. apply foldr_ext; [|done|done]. intros x s. rewrite Z.shiftr_shiftr by lia. do 2 f_equal. lia. }
  unfold compose in *. rewrite E. specialize (IH (Z.shiftr m 1)). rewrite Z.shiftr_div_pow2 in * by lia. change (2 ^ 1) with 2 in *. pose proof (Z.mul_div_le m 2 ltac:(lia)). pose proof (Z.div_pos m 2 Hm ltac:(lia)). lia.
Qed.

Lemma sum_app (f : nat -> Z) a b : foldr (fun x s => f x + s) 0 (a ++ b) = foldr (fun x s => f x + s) 0 a + foldr (fun x s => f x + s) 0 b.
Proof. induction a as [|x a IH]; cbn [foldr app]; [lia|]. rewrite IH. lia. Qed.

Lemma sum_zero (f : nat -> Z) a c : (forall x, (a <= x)%nat -> f x = 0) -> foldr (fun x s => f x + s) 0 (seq a c) = 0.
Proof. revert a. induction c as [|c IH]; intros a Hf; cbn [seq foldr]; [done|]. rewrite Hf, IH by (done || (intros; apply Hf; lia)). done. Qed.

Lemma node_total_eq k : (1 <= k)%nat -> Z.of_nat k <= leaf_max -> node_total k = Z.of_nat (height k) + 1 + foldr (fun x s => Z.shiftr (Z.of_nat k - 1) x + s) 0 (Z.of_nat <$> seq 0 64).
Proof.
  intros Hk Hmax. pose proof (height_62 k Hk Hmax) as Hh. rewrite foldr_fmap. replace 64%nat with (S (height k) + (63 - height k))%nat by lia. rewrite seq_app, (sum_app (fun x => Z.shiftr (Z.of_nat k - 1) (Z.of_nat x))).
  assert (forall l, Z.of_nat (width k l) = 1 + Z.shiftr (Z.of_nat k - 1) (Z.of_nat l)) as Hw. { intros l. rewrite width_eq, Z.shiftr_div_pow2 by lia. fold (zpow l). rewrite zpow_nat. replace (Z.of_nat k - 1) with (Z.of_nat (k - 1)) by lia. rewrite <- Nat2Z.inj_div. lia. }
  rewrite (sum_zero (fun x => Z.shiftr (Z.of_nat k - 1) (Z.of_nat x)) (0 + S (height k))).
  - unfold node_total. assert (forall c, foldr (fun l s => Z.of_nat (width k l) + s) 0 (seq 0 c) = Z.of_nat c + foldr (fun x s => Z.shiftr (Z.of_nat k - 1) (Z.of_nat x) + s) 0 (seq 0 c)) as Hsum.
    2: { rewrite Hsum. cbv beta. lia. }
    induction c as [|c IH]; [done|]. rewrite seq_S, (sum_app (fun l => Z.of_nat (width k l))), (sum_app (fun x => Z.shiftr (Z.of_nat k - 1) (Z.of_nat x))), IH. cbn [foldr]. rewrite Hw, Nat.add_0_l. lia.
  - intros x Hx. specialize (Hw x). assert (width k x = 1)%nat as Ew by (apply width_height; lia). lia.
Qed.

Lemma node_cnt_ok k : (1 <= k)%nat -> Z.of_nat k <= leaf_max -> fd_bmtree_node_cnt (Z.of_nat k) = node_total k.
Proof.
  intros Hk Hmax. pose proof (height_62 k Hk Hmax) as Hh. unfold fd_bmtree_node_cnt. replace (Z.of_nat k =? 0) with false by lia. rewrite u64_sub_small by (unfold is_u64, ULONG_MAX, leaf_max in *; lia).
  change (range 0 64) with (Z.of_nat <$> seq 0 64). pose proof (halves_sum (Z.of_nat k - 1) 64 ltac:(lia)) as Hs. rewrite foldl_add; [|intros x _; apply Z.shiftr_nonneg; lia|lia|unfold ULONG_MAX, leaf_max in *; lia]. rewrite node_total_eq by done.
  set (s := foldr _ _ _) in *. assert (2 + fd_ulong_find_msb_w_default (Z.of_nat k - 1) (-1) = Z.of_nat (height k) + 1) as ->; [|rewrite u64_add_small by (unfold is_u64, ULONG_MAX, leaf_max in *; lia); lia].
  pose proof (depth_height k Hk ltac:(unfold ULONG_MAX, leaf_max in *; lia)) as Ed. unfold fd_bmtree_depth in Ed. destruct (Z.leb_spec (Z.of_nat k) 1) as [Hle|Hgt]; [by replace k with 1%nat by lia|].
  rewrite u64_sub_small in Ed by (unfold is_u64, ULONG_MAX, leaf_max in *; lia). assert (0 <= fd_ulong_find_msb_w_default (Z.of_nat k - 1) (-1) <= 62). { unfold fd_ulong_find_msb_w_default. replace (Z.of_nat k - 1 =? 0) with false by lia. split; [apply Z.log2_nonneg|]. assert (Z.log2 (Z.of_nat k - 1) < 63); [|lia]. apply Z.log2_lt_pow2; [lia|]. unfold leaf_max in Hmax. lia. }
  rewrite u64_add_small in Ed by (unfold is_u64, ULONG_MAX; lia). lia.
Qed.

(** ** Calculations by leaves *)

Lemma build_ok mem hs ps n batches : sizes_ok hs ps -> (n <= 62)%nat -> mem_ok n mem -> Forall node_ok (concat batches) -> (1 <= length (concat batches))%nat -> Z.of_nat (length (concat batches)) <= leaf_max ->
  exists st, build mem hs ps n batches = Ok (st, merkle_root hs ps (concat batches)) /\ sealed hs ps n st (concat batches).
Proof.
  intros Hsz Hn Hmem Hnodes Hk Hmax. unfold build. assert (exists st, ofold fd_bmtree_commit_append (fd_bmtree_commit_init mem hs ps (Z.of_nat n)) batches = Ok st /\ leaves_inv hs ps n st (concat batches)) as (st & -> & HI).
  { pose proof (init_leaves hs ps n Hsz Hn mem Hmem) as HI. rewrite <- (app_nil_l (concat batches)). rewrite <- (app_nil_l (concat batches)) in Hmax. revert HI. generalize (fd_bmtree_commit_init mem hs ps (Z.of_nat n)). revert Hmax. generalize (@nil fd_bmtree_node_t). clear Hk.
    induction batches as [|b bs IH]; intros L Hmax st HI; cbn [ofold concat] in *; [rewrite app_nil_r; eauto|]. apply Forall_app in Hnodes as [Hb Hbs].
    destruct (commit_append_ok hs ps n Hsz Hn st L b HI Hb) as (st1 & -> & HI1); [rewrite !length_app in *; lia|]. cbn [mbind outcome_bind]. rewrite app_assoc in Hmax |- *. by apply (IH Hbs). }
  cbn [mbind outcome_bind]. destruct (commit_fini_ok hs ps n Hsz Hn st _ HI Hk) as (st' & E & HS). eauto.
Qed.

(** C26: appending leaves in batches of any sizes and finishing gives the root of the
    reference tree, which is defined layer by layer; [fd_bmtree_depth] and
    [fd_bmtree_node_cnt] are the number of layers and of nodes of that tree, and the AVX
    variant of the merge computes what the portable one does. *)
Theorem bmtree_commit_root mem hs ps n batches :
  sizes_ok hs ps -> (n <= 62)%nat -> mem_ok n mem -> Forall node_ok (concat batches) -> (1 <= length (concat batches))%nat -> Z.of_nat (length (concat batches)) <= leaf_max ->
  (exists st, build mem hs ps n batches = Ok (st, merkle_root hs ps (concat batches))) /\
  fd_bmtree_depth (Z.of_nat (length (concat batches))) = Z.of_nat (height (length (concat batches))) + 1 /\
  fd_bmtree_node_cnt (Z.of_nat (length (concat batches))) = node_total (length (concat batches)) /\
  (forall array stack a b, length array = 96%nat -> length stack = 64%nat -> node_ok a -> node_ok b -> fd_bmtree_private_merge_avx array stack a b hs ps = fd_bmtree_private_merge a b hs ps).
Proof.
  intros Hsz Hn Hmem Hnodes Hk Hmax. split_and!.
  - destruct (build_ok mem hs ps n batches Hsz Hn Hmem Hnodes Hk Hmax) as (st & E & _). eauto.
  - apply depth_height; [done|]. unfold leaf_max, ULONG_MAX in *. lia.
  - by apply node_cnt_ok.
  - intros array stack a b Ha Hs [La Ba] [Lb Bb]. rewrite merge_ok by done. by apply merge_avx_ok.
Qed.

(** ** Inclusion proofs *)

(** an inclusion proof that [fd_bmtree_get_proof] writes for a leaf of a finished tree
    leads [fd_bmtree_from_proof] from that leaf back to the root, when the calculation
    keeps enough layers and the destination has room for the proof. *)
Theorem bmtree_proof_roundtrip mem hs ps n batches st root dest i :
  sizes_ok hs ps -> (n <= 62)%nat -> mem_ok n mem -> Forall node_ok (concat batches) -> (i < length (concat batches))%nat -> Z.of_nat (length (concat batches)) <= leaf_max ->
  build mem hs ps n batches = Ok (st, root) -> (height (length (concat batches)) < n)%nat -> Forall is_byte dest -> (height (length (concat batches)) * hsn hs <= length dest)%nat ->
  exists proof, fd_bmtree_get_proof st dest (Z.of_nat i) = Ok (proof, Some (Z.of_nat (height (length (concat batches))))) /\ length proof = length dest /\
    fd_bmtree_from_proof (nth i (concat batches) []) (Z.of_nat i) proof (Z.of_nat (height (length (concat batches)))) hs ps = Ok (Some root).
Proof.
  intros Hsz Hn Hmem Hnodes Hi Hmax Hbuild Hh Hdest Hlen. set (L := concat batches) in *. destruct (build_ok mem hs ps n batches Hsz Hn Hmem Hnodes ltac:(fold L; lia) Hmax) as (st1 & E & HS). fold L in E, HS. rewrite Hbuild in E. injection E as <- ->.
  rewrite (get_proof_ok hs ps n Hsz Hn st L i dest HS Hi Hh Hlen). eexists. split; [done|]. split; [rewrite length_app, length_drop, (proof_bytes_length hs ps n Hsz Hn) by (done || lia); lia|].
  rewrite (from_proof_ok hs ps n Hsz Hn); [|by apply (tnode_ok hs ps n Hsz Hn L 0 i)|apply Forall_app; split; [by apply (proof_bytes_ok hs ps n Hsz Hn)|by apply Forall_drop]|rewrite length_app, (proof_bytes_length hs ps n Hsz Hn) by (done || lia); lia|lia|lia].
  rewrite decide_True by (apply (height_mono hs ps n Hsz Hn); lia). by rewrite (climb_proof hs ps n Hsz Hn L i _ Hnodes Hi).
Qed.

Section Binding.
Context (hs ps : Z) (Hsz : sizes_ok hs ps).
Notation tnode := (tree_node hs ps).
Notation "a ≃ b" := (same hs a b) (at level 70).

(** The bytes that are hashed for the parent of a node at index [j] and its partner. *)
Definition node_input (j : nat) (x c : list Z) : list Z :=
  take (Z.to_nat ps) fd_bmtree_node_prefix ++ (if Nat.even j then take (hsn hs) x ++ take (hsn hs) c else take (hsn hs) c ++ take (hsn hs) x).

(** What the walk up from [x] at index [i] along the nodes [cs] hashes at layer [l]. *)
Definition walk_input (i : nat) (x : fd_bmtree_node_t) (cs : list (list Z)) (l : nat) : list Z := node_input (i / 2 ^ l) (climb hs ps i x (take l cs)) (nth l cs []).

(** At layer [l] two walks hash different bytes to the same (truncated) hash. *)
Definition collides (i : nat) (x : fd_bmtree_node_t) (cs : list (list Z)) (x' : fd_bmtree_node_t) (cs' : list (list Z)) (l : nat) : Prop :=
  walk_input i x cs l <> walk_input i x' cs' l /\ take (hsn hs) (Fips.SHA256 (walk_input i x cs l)) = take (hsn hs) (Fips.SHA256 (walk_input i x' cs' l)).

Lemma ph_input j x c : ph hs ps j x c = Fips.SHA256 (node_input j x c).
Proof using Hsz. unfold ph, H, node_input, hsn. by destruct (Nat.even j). Qed.

Lemma node_input_inj j x c x' c' : length (take (hsn hs) x) = length (take (hsn hs) x') -> length (take (hsn hs) c) = length (take (hsn hs) c') -> node_input j x c = node_input j x' c' -> x ≃ x'.
Proof using Hsz.
  intros Hx Hc E. unfold node_input in E. apply app_inv_head in E. unfold same. fold (hsn hs). destruct (Nat.even j); apply app_inj_1 in E; tauto.
Qed.

Lemma climb_snoc cs : forall j x c, climb hs ps j x (cs ++ [c]) = ph hs ps (j / 2 ^ length cs) (climb hs ps j x cs) c.
Proof using Hsz.
  induction cs as [|d cs IH]; intros j x c; cbn [app climb length]; [by rewrite Nat.div_1_r|]. by rewrite IH, Nat.pow_succ_r', Nat.Div0.div_div.
Qed.

Lemma climb_node_ok cs : forall j x, node_ok x -> node_ok (climb hs ps j x cs).
Proof using Hsz. induction cs as [|c cs IH]; intros j x Hx; cbn [climb]; [done|]. apply IH. destruct (Nat.even j); apply H_ok. Qed.

(** Two walks of the same length that end in the same hash start from the same node, or
    collide. *)
Lemma climb_binding i x x' cs : forall cs', node_ok x -> node_ok x' -> length cs = length cs' -> Forall (fun c => length c = hsn hs) cs -> Forall (fun c => length c = hsn hs) cs' ->
  climb hs ps i x cs ≃ climb hs ps i x' cs' -> x ≃ x' \/ exists l, (l < length cs)%nat /\ collides i x cs x' cs' l.
Proof using Hsz.
  induction cs as [|c cs IH] using rev_ind; intros cs' Hx Hx' El Hc Hc' E; [destruct cs'; [by left|done]|]. destruct cs' as [|c' cs' _] using rev_ind; [rewrite length_app in El; cbn in El; lia|].
  rewrite !length_app in El. cbn [length] in El. assert (length cs = length cs') as El' by lia. apply Forall_app in Hc as [Hcs [Hc _]%Forall_cons]. apply Forall_app in Hc' as [Hcs' [Hc' _]%Forall_cons]. rewrite !climb_snoc, !ph_input, <- El' in E.
  assert (forall y d ds, length ds = length cs -> walk_input i y (ds ++ [d]) (length cs) = node_input (i / 2 ^ length cs) (climb hs ps i y ds) d) as Hw.
  { intros y d ds Ed. unfold walk_input. rewrite take_app_length' by done. by rewrite app_nth2, Ed, Nat.sub_diag by lia. }
  destruct (decide (walk_input i x (cs ++ [c]) (length cs) = walk_input i x' (cs' ++ [c']) (length cs))) as [Ein|Hne].
  2: { right. exists (length cs). rewrite length_app. cbn [length]. split; [lia|]. split; [done|]. rewrite !Hw by done. exact E. }
  rewrite !Hw in Ein by done. apply node_input_inj in Ein.
  - destruct (IH cs' Hx Hx' El' Hcs Hcs' Ein) as [|(l & Hl & Hcol)]; [by left|]. right. exists l. rewrite length_app. split; [lia|]. unfold collides, walk_input in *. rewrite !take_app_le, !app_nth1 by lia. done.
  - rewrite !length_take. destruct (climb_node_ok cs i x Hx) as [-> _]. by destruct (climb_node_ok cs' i x' Hx') as [-> _].
  - by rewrite !length_take, Hc, Hc'.
Qed.

Lemma chunks_length proof l m : ((l + m) * hsn hs <= length proof)%nat -> Forall (fun c => length c = hsn hs) (chunks hs proof l m).
Proof using Hsz.
  intros Hl. unfold chunks. apply Forall_fmap, Forall_forall. intros x [? ?]%elem_of_seq. cbn. unfold chunk_at. rewrite length_take, length_drop. nia.
Qed.
End Binding.

Lemma zero62 : (0 <= 62)%nat.
Proof. lia. Qed.

(** an inclusion proof binds the leaf.  When [fd_bmtree_from_proof] accepts a leaf for
    an index of a tree with a hash equal to the root, the leaf is the one of the tree, or
    at some layer the bytes hashed along the proof and those hashed along the proof of the
    tree, which differ, are a collision of the truncated SHA-256. *)
Theorem bmtree_proof_binding hs ps L leaf i proof root :
  sizes_ok hs ps -> Forall node_ok L -> (i < length L)%nat -> Z.of_nat (length L) <= leaf_max -> node_ok leaf -> Forall is_byte proof -> (height (length L) * hsn hs <= length proof)%nat ->
  fd_bmtree_from_proof leaf (Z.of_nat i) proof (Z.of_nat (height (length L))) hs ps = Ok (Some root) -> same hs root (merkle_root hs ps L) ->
  same hs leaf (nth i L []) \/ exists l, (l < height (length L))%nat /\
    collides hs ps i leaf (chunks hs proof 0 (height (length L))) (nth i L []) (proof_chunk hs ps L i <$> seq 0 (height (length L))) l.
Proof.
  intros Hsz HL Hi Hmax Hleaf Hp Hlen E Hroot. pose proof (height_62 (length L) ltac:(lia) Hmax). rewrite (from_proof_ok hs ps 0 Hsz zero62) in E by (done || lia). case_decide; [|done]. injection E as <-.
  pose proof (climb_path hs ps 0 Hsz zero62 L i (height (length L)) 0 HL ltac:(lia) Hi) as Et. rewrite Nat.add_0_l, (div_height hs ps 0 Hsz zero62) in Et by lia. change (2 ^ 0)%nat with 1%nat in Et. rewrite Nat.div_1_r in Et. unfold merkle_root in Hroot. rewrite <- Et in Hroot.
  assert (length (chunks hs proof 0 (height (length L))) = height (length L)) as El by (unfold chunks; by rewrite length_fmap, length_seq).
  destruct (climb_binding hs ps Hsz i leaf (nth i L []) (chunks hs proof 0 (height (length L))) (proof_chunk hs ps L i <$> seq 0 (height (length L))) Hleaf) as [|(l & Hl & Hc)]; try done.
  - by apply (tnode_ok hs ps 0 Hsz zero62 L 0 i).
  - by rewrite El, length_fmap, length_seq.
  - by apply (chunks_length hs ps Hsz).
  - apply Forall_fmap, Forall_forall. intros l _. cbn. apply (chunk_length hs ps 0 Hsz zero62); (done || lia).
  - by left.
  - right. exists l. rewrite El in Hl. done.
Qed.

(** ** Calculations by proofs *)

(** C24: in every state of a calculation by proofs, insertions and finishing return, within
    the arrays.  A root that [fd_bmtree_commitp_fini] returns for [k] leaves is the root of
    a tree with [k] leaves that has, at its index, every leaf that was inserted. *)
Theorem bmtree_commitp_sound mem hs ps n st acc :
  sizes_ok hs ps -> (1 <= n <= 62)%nat -> proof_mem n mem -> calc hs ps n mem st acc ->
  (forall q, request_ok hs q -> exists st' r, insert_request st q = Ok (st', r)) /\
  (forall k, 0 <= k <= leaf_max -> exists st' r, fd_bmtree_commitp_fini st k = Ok (st', r) /\
    forall root, r = Some root -> exists L, Z.of_nat (length L) = k /\ same hs root (merkle_root hs ps L) /\ forall q, q ∈ acc -> rq_idx q < k -> same hs (nth (Z.to_nat (rq_idx q)) L []) (rq_leaf q)).
Proof.
  intros Hsz Hn Hmem Hc. destruct (calc_ok hs ps n Hsz Hn mem st acc Hmem Hc) as [Hinv Hacc]. split.
  - intros q Hq. destruct (insert_request_ok hs ps n Hsz Hn st q Hinv Hq) as (st' & r & E & _). eauto.
  - intros k Hk. destruct (decide (k = 0)) as [->|Hk0]; [exists st, None; by split|]. destruct (odd_part (Z.to_nat k) ltac:(lia)) as (l0 & d & Ek).
    destruct (commitp_fini_ok hs ps n Hsz Hn st (Z.to_nat k) l0 d Hinv Ek ltac:(lia)) as (st' & r & E & _ & _ & Hr). rewrite Z2Nat.id in E by lia. exists st', r. split; [done|]. intros root ->. destruct Hr as (_ & Hroot & _).
    exists (leaves_of st (Z.to_nat k)). rewrite (leaves_of_length hs ps n Hsz Hn). split_and!; [lia|done|]. intros q Hq Hlt. rewrite Forall_forall in Hacc. destruct (Hacc q Hq) as (j & Ej & _ & V). rewrite Ej, Nat2Z.id. by rewrite (leaves_of_nth hs ps n Hsz Hn) by lia.
Qed.

(** Inserting a leaf with the proof that a finished calculation writes for it. *)
Definition transfer (src : fd_bmtree_commit_t) (L : list fd_bmtree_node_t) (dest : list Z) (st : fd_bmtree_commit_t) (i : nat) : outcome (fd_bmtree_commit_t * option fd_bmtree_node_t) :=
  p ← fd_bmtree_get_proof src dest (Z.of_nat i);
  fd_bmtree_commitp_insert_with_proof st (Z.of_nat i) (nth i L []) p.1 (default (-1) p.2).

(** Leaves transferred one after the other, each successfully. *)
Inductive transferred (src : fd_bmtree_commit_t) (L : list fd_bmtree_node_t) (dest : list Z) (st : fd_bmtree_commit_t) : fd_bmtree_commit_t -> list nat -> Prop :=
  | transferred_nil : transferred src L dest st st []
  | transferred_snoc st1 st2 root order i : transferred src L dest st st1 order -> transfer src L dest st1 i = Ok (st2, Some root) -> transferred src L dest st st2 (order ++ [i]).

Lemma transfer_ok hs ps n m src L dest st i : sizes_ok hs ps -> (1 <= n <= 62)%nat -> (m <= 62)%nat -> sealed hs ps m src L -> (height (length L) < m)%nat -> (height (length L) < n)%nat -> Forall is_byte dest -> (height (length L) * hsn hs <= length dest)%nat ->
  pinv hs ps n st -> agrees hs ps L st -> (i < length L)%nat ->
  exists st' root, transfer src L dest st i = Ok (st', Some root) /\ same hs root (merkle_root hs ps L) /\ pinv hs ps n st' /\ agrees hs ps L st' /\ known st' 0 i = true /\ (forall j, known st 0 j = true -> known st' 0 j = true).
Proof.
  intros Hsz Hn Hm HS Hhm Hh Hdest Hlen Hinv Hag Hi. unfold transfer. rewrite (get_proof_ok hs ps m Hsz Hm src L i dest HS Hi Hhm Hlen). cbn [mbind outcome_bind fst snd default from_option id].
  pose proof (se_nodes _ _ _ _ _ HS) as HL. pose proof (se_max _ _ _ _ _ HS) as Hmax. set (q := mk_request (Z.of_nat i) (nth i L []) (proof_bytes hs ps L i (height (length L)) ++ drop (height (length L) * hsn hs) dest) (Z.of_nat (height (length L)))).
  assert (honest hs ps L q i) as Hq. { split_and!; try done. eexists. split; [done|]. by apply Forall_drop. }
  destruct (insert_honest hs ps n Hsz Hn L HL ltac:(lia) Hmax Hh st q i Hinv Hag Hq) as (st' & root & E & Hroot & Hag'). destruct (insert_request_ok hs ps n Hsz Hn st q Hinv (honest_ok hs ps n Hsz Hn L HL ltac:(lia) Hmax Hh q i Hq)) as (st1 & r & E1 & Hinv' & Hkeep & Hnew). rewrite E in E1. injection E1 as <- <-.
  exists st', root. split; [exact E|]. split_and!; [done|done|done| |intros j K; by apply Hkeep]. destruct (Hnew ltac:(done)) as (j & Ej & K & _). cbn in Ej. apply Nat2Z.inj in Ej as ->. exact K.
Qed.

(** C25: a calculation by proofs completes.  The leaves of a finished tree, each with the
    proof the tree gives for it, can be inserted into a fresh calculation in any order: no
    insertion fails, each returns the root, and once every leaf was inserted
    [fd_bmtree_commitp_fini] returns the root. *)
Theorem bmtree_commitp_complete hs ps n m mem src_mem batches src root dest order :
  sizes_ok hs ps -> (1 <= n <= 62)%nat -> (m <= 62)%nat -> proof_mem n mem -> mem_ok m src_mem -> Forall node_ok (concat batches) -> (1 <= length (concat batches))%nat -> Z.of_nat (length (concat batches)) <= leaf_max ->
  build src_mem hs ps m batches = Ok (src, root) -> (height (length (concat batches)) < m)%nat -> (height (length (concat batches)) < n)%nat ->
  Forall is_byte dest -> (height (length (concat batches)) * hsn hs <= length dest)%nat -> Forall (fun i => i < length (concat batches))%nat order ->
  exists st, transferred src (concat batches) dest (fd_bmtree_commit_init mem hs ps (Z.of_nat n)) st order /\
    (forall i, (i < length (concat batches))%nat -> exists st' root', transfer src (concat batches) dest st i = Ok (st', Some root') /\ same hs root' root) /\
    ((forall i, (i < length (concat batches))%nat -> i ∈ order) -> exists st' root', fd_bmtree_commitp_fini st (Z.of_nat (length (concat batches))) = Ok (st', Some root') /\ same hs root' root).
Proof.
  intros Hsz Hn Hm Hmem Hsrc HL Hk Hmax Hbuild Hhm Hh Hdest Hlen His. destruct (build_ok src_mem hs ps m batches Hsz Hm Hsrc HL Hk Hmax) as (src1 & E & HS). rewrite Hbuild in E. injection E as <- ->. set (L := concat batches) in *.
  set (st0 := fd_bmtree_commit_init mem hs ps (Z.of_nat n)). pose proof (init_pinv hs ps n Hsz Hn mem Hmem) as Hinv0. fold st0 in Hinv0. assert (agrees hs ps L st0) as Hag0 by (intros l j K; unfold known, st0 in K; by rewrite (init_valid hs ps n Hsz Hn mem _ Hmem) in K).
  assert (exists st, transferred src L dest st0 st order /\ pinv hs ps n st /\ agrees hs ps L st /\ forall i, i ∈ order -> known st 0 i = true) as (st & Ht & Hinv & Hag & Hknown).
  { induction order as [|i order IH] using rev_ind; [exists st0; split_and!; [constructor|done|done|intros i Hi; by apply elem_of_nil in Hi]|]. apply Forall_app in His as [His Hi]. inversion Hi; subst. destruct (IH His) as (st1 & Ht & Hinv & Hag & Hknown).
    destruct (transfer_ok hs ps n m src L dest st1 i Hsz Hn Hm HS Hhm Hh Hdest Hlen Hinv Hag ltac:(done)) as (st2 & root & E & _ & Hinv2 & Hag2 & K & Hkeep). exists st2. split_and!; [by eapply transferred_snoc|done|done|].
    intros j [Hj|Hj]%elem_of_app; [by apply Hkeep, Hknown|]. apply list_elem_of_singleton in Hj as ->. done. }
  exists st. split; [done|]. split.
  - intros i Hi. destruct (transfer_ok hs ps n m src L dest st i Hsz Hn Hm HS Hhm Hh Hdest Hlen Hinv Hag Hi) as (st' & root' & E & Hr & _). eauto.
  - intros Hall. apply (commitp_fini_complete hs ps n Hsz Hn st L HL Hk Hmax Hh Hinv Hag). intros i Hi. by apply Hknown, Hall.
Qed.

(** ** Examples *)

Definition ex_node (b : Z) : fd_bmtree_node_t := repeat b 32.
Definition ex_mem : fd_bmtree_commit_t := mk_bmtree 9 9 9 9 (repeat (ex_node 0) 63) [77] (repeat (ex_node 0) 8).
Definition ex_batches : list (list fd_bmtree_node_t) := [[ex_node 1]; []; [ex_node 2; ex_node 3]].

Lemma ex_node_ok b : is_byte b -> node_ok (ex_node b).
Proof. intros Hb. split; [apply repeat_length|]. rewrite Forall_forall. intros x Hx%list_elem_of_In%repeat_spec. by subst. Qed.

Lemma ex_nodes_ok b c : is_byte b -> Forall node_ok (repeat (ex_node b) c).
Proof. intros Hb. rewrite Forall_forall. intros x Hx%list_elem_of_In%repeat_spec. subst. by apply ex_node_ok. Qed.

Lemma ex_mem_ok : mem_ok 3 ex_mem.
Proof. split_and!; [done|apply ex_nodes_ok; unfold is_byte; lia|done|apply ex_nodes_ok; unfold is_byte; lia]. Qed.

Lemma ex_sizes : sizes_ok 20 26.
Proof. unfold sizes_ok. lia. Qed.

Lemma ex_batches_ok : Forall node_ok (concat ex_batches).
Proof. repeat constructor; try apply repeat_length; repeat constructor; unfold is_byte; lia. Qed.

Lemma ex_bytes (b : Z) c : is_byte b -> Forall is_byte (repeat b c).
Proof. intros Hb. rewrite Forall_forall. intros x Hx%list_elem_of_In%repeat_spec. by subst. Qed.

Lemma ex_build : exists st root, build ex_mem 20 26 3 ex_batches = Ok (st, root).
Proof. destruct (build_ok ex_mem 20 26 3 ex_batches ex_sizes ltac:(lia) ex_mem_ok ex_batches_ok ltac:(cbn; lia) ltac:(cbn; unfold leaf_max; lia)) as (st & E & _). eauto. Qed.

Lemma bmtree_commit_root_witness : exists st, build ex_mem 20 26 3 ex_batches = Ok (st, merkle_root 20 26 (concat ex_batches)).
Proof.
  apply (bmtree_commit_root ex_mem 20 26 3 ex_batches); [apply ex_sizes|lia|apply ex_mem_ok|apply ex_batches_ok|cbn; lia|cbn; unfold leaf_max; lia].
Defined.

Lemma bmtree_proof_roundtrip_witness : exists st root proof, build ex_mem 20 26 3 ex_batches = Ok (st, root) /\
  fd_bmtree_get_proof st (repeat 0 40) 2 = Ok (proof, Some 2) /\ fd_bmtree_from_proof (ex_node 3) 2 proof 2 20 26 = Ok (Some root).
Proof.
  destruct ex_build as (st & root & E).
  destruct (bmtree_proof_roundtrip ex_mem 20 26 3 ex_batches st root (repeat 0 40) 2) as (proof & E1 & _ & E2);
    [apply ex_sizes|lia|apply ex_mem_ok|apply ex_batches_ok|cbn; lia|cbn; unfold leaf_max; lia|exact E|cbn; lia|apply ex_bytes; unfold is_byte; lia|vm_compute; lia|].
  exists st, root, proof. split_and!; [exact E|exact E1|exact E2].
Defined.

Lemma bmtree_proof_binding_witness : same 20 (ex_node 3) (nth 2 (concat ex_batches) []) \/ exists l, (l < 2)%nat /\
  collides 20 26 2 (ex_node 3) (chunks 20 (proof_bytes 20 26 (concat ex_batches) 2 2) 0 2) (nth 2 (concat ex_batches) []) (proof_chunk 20 26 (concat ex_batches) 2 <$> seq 0 2) l.
Proof.
  pose proof (proof_bytes_ok 20 26 0 ex_sizes zero62 (concat ex_batches) 2 2 ex_batches_ok ltac:(cbn; lia)) as Hb.
  pose proof (proof_bytes_length 20 26 0 ex_sizes zero62 (concat ex_batches) 2 2 ex_batches_ok ltac:(cbn; lia) ltac:(cbn; lia)) as El. change (2 * hsn 20)%nat with 40%nat in El.
  pose proof (climb_proof 20 26 0 ex_sizes zero62 (concat ex_batches) 2 [] ex_batches_ok ltac:(cbn; lia)) as Er. rewrite app_nil_r in Er.
  pose proof (from_proof_ok 20 26 0 ex_sizes zero62 (ex_node 3) 2 _ 2 (ex_node_ok 3 ltac:(unfold is_byte; lia)) Hb ltac:(rewrite El; vm_compute; lia) ltac:(lia) ltac:(unfold leaf_max; lia)) as E.
  rewrite decide_True in E by (vm_compute; lia). change (climb 20 26 2 (ex_node 3) _) with (climb 20 26 2 (nth 2 (concat ex_batches) []) (chunks 20 (proof_bytes 20 26 (concat ex_batches) 2 (height (length (concat ex_batches)))) 0 (height (length (concat ex_batches))))) in E. rewrite Er in E.
  apply (bmtree_proof_binding 20 26 (concat ex_batches) (ex_node 3) 2 _ (merkle_root 20 26 (concat ex_batches)));
    [apply ex_sizes|apply ex_batches_ok|cbn; lia|cbn; unfold leaf_max; lia|apply ex_node_ok; unfold is_byte; lia|exact Hb|rewrite El; vm_compute; lia|exact E|reflexivity].
Defined.

(** A leaf that is inserted alone, without a proof, and is then a tree by itself. *)
Definition ex_request : request := mk_request 0 (ex_node 1) [] 0.

Lemma ex_inserted : exists st root, insert_request (fd_bmtree_commit_init ex_mem 20 26 3) ex_request = Ok (st, Some root).
Proof.
  assert (proof_mem 3 ex_mem) as Hm by (split; [apply ex_mem_ok|reflexivity]). destruct (insert_honest 20 26 3 ex_sizes ltac:(lia) [ex_node 1] (ex_nodes_ok 1 1 ltac:(unfold is_byte; lia)) ltac:(cbn; lia) ltac:(cbn; unfold leaf_max; lia) ltac:(cbn; lia)
    (fd_bmtree_commit_init ex_mem 20 26 (Z.of_nat 3)) ex_request 0) as (st & root & E & _); [apply (init_pinv 20 26 3 ex_sizes ltac:(lia) ex_mem Hm)| | |eauto].
  - intros l j K. unfold known in K. by rewrite (init_valid 20 26 3 ex_sizes ltac:(lia) ex_mem _ Hm) in K.
  - split_and!; [cbn; lia|done|done|done|]. exists []. split; [reflexivity|constructor].
Qed.

Lemma bmtree_commitp_sound_witness : exists st, calc 20 26 3 ex_mem st [ex_request] /\ exists st' r, fd_bmtree_commitp_fini st 1 = Ok (st', r) /\
  forall root, r = Some root -> exists L, Z.of_nat (length L) = 1 /\ same 20 root (merkle_root 20 26 L) /\ same 20 (nth 0 L []) (ex_node 1).
Proof.
  destruct ex_inserted as (st & root & E). exists st.
  assert (request_ok 20 ex_request) as Hq by (split; cbn; [lia|apply ex_node_ok; unfold is_byte; lia|constructor|lia|lia]).
  assert (calc 20 26 3 ex_mem st [ex_request]) as Hc. { rewrite <- (app_nil_l [ex_request]). eapply calc_inserted; [apply calc_init|exact Hq|exact E]. }
  split; [exact Hc|]. destruct (bmtree_commitp_sound ex_mem 20 26 3 st [ex_request]) as [_ Hf]; [apply ex_sizes|lia|split; [apply ex_mem_ok|reflexivity]|exact Hc|].
  destruct (Hf 1 ltac:(unfold leaf_max; lia)) as (st' & r & E' & Hr). exists st', r. split; [exact E'|]. intros root' Er. destruct (Hr root' Er) as (L & El & Hroot & Hl). exists L. split_and!; [exact El|exact Hroot|].
  apply (Hl ex_request); [apply list_elem_of_singleton; reflexivity|cbn; lia].
Defined.

Lemma bmtree_commitp_complete_witness : exists src root st st' root', build ex_mem 20 26 3 ex_batches = Ok (src, root) /\
  transferred src (concat ex_batches) (repeat 0 40) (fd_bmtree_commit_init ex_mem 20 26 3) st [2; 0; 1]%nat /\
  fd_bmtree_commitp_fini st 3 = Ok (st', Some root') /\ same 20 root' root.
Proof.
  destruct ex_build as (src & root & E).
  destruct (bmtree_commitp_complete 20 26 3 3 ex_mem ex_mem ex_batches src root (repeat 0 40) [2; 0; 1]%nat) as (st & Ht & _ & Hf);
    [apply ex_sizes|lia|lia|split; [apply ex_mem_ok|reflexivity]|apply ex_mem_ok|apply ex_batches_ok|cbn; lia|cbn; unfold leaf_max; lia|exact E|cbn; lia|cbn; lia|apply ex_bytes; unfold is_byte; lia|vm_compute; lia|repeat constructor; cbn; lia|].
  destruct Hf as (st' & root' & E' & Hr); [|exists src, root, st, st', root'; split_and!; [exact E|exact Ht|exact E'|exact Hr]].
  intros i Hi. cbn in Hi. do 3 (destruct i as [|i]; [apply list_elem_of_In; cbn; tauto|]). lia.
Defined.

(** With too few layers, the nodes of the lower layers are written before the failure is
    noticed. *)
Lemma get_proof_partial_write : exists st dest, fd_bmtree_get_proof st [0; 0] 0 = Ok (dest, None) /\ dest <> [0; 0].
Proof. exists (mk_bmtree 3 1 26 3 [] [] [[11]; [12]; [13]; [14]]), [13; 0]. split; [reflexivity|discriminate]. Qed.
