(* ===== verification/Voters.v ===== *)
(** Voter sets with mark and sweep, the part that fd_votes_update_voters
    (src/src/choreo/votes/fd_votes.c), fd_hfork_update_voters
    (src/src/choreo/hfork/fd_hfork.c) and fd_eqvoc_update_voters
    (src/src/choreo/eqvoc/fd_eqvoc.c) have in common: the voters are in a map and
    in a list; the ones to keep move to the tail of the list and the others are
    popped from its head. *)
From S2P Require Import Prelude VotorBase Ghost.

(** * Code *)

(** The first pass over one account: a known voter is unmarked and moves to the
    tail.  The state is the list and the set of marked voters, those whose [next]
    field is 1. *)
Definition keep_voter {V} (vtrs : gmap fd_pubkey_t V) (st : list fd_pubkey_t * gset fd_pubkey_t) (acc : fd_pubkey_t)
    : list fd_pubkey_t * gset fd_pubkey_t :=
  match vtrs !! acc with
  | Some _ => (dlist_del acc st.1 ++ [acc], st.2 ∖ {[acc]})
  | None => st
  end.

(** Marks every voter of the list, then unmarks the ones to keep. *)
Definition keep_voters {V} (vtrs : gmap fd_pubkey_t V) (dlist accs : list fd_pubkey_t) : list fd_pubkey_t * gset fd_pubkey_t :=
  foldl (keep_voter vtrs) (dlist, list_to_set dlist) accs.

(** Pops the marked voters; the first one that is not marked goes to the tail. *)
Fixpoint sweep_voters {S} (release : S -> fd_pubkey_t -> outcome S) (marks : gset fd_pubkey_t) (s : S) (dlist : list fd_pubkey_t)
    : outcome (S * list fd_pubkey_t) :=
  match dlist with
  | [] => Ok (s, [])
  | vtr :: rest =>
      if bool_decide (vtr ∈ marks) then s ← release s vtr; sweep_voters release marks s rest
      else Ok (s, rest ++ [vtr])
  end.

(** * Lemmas *)

(** The voters of the list that are not kept, in their old order, before the ones kept. *)
Definition not_in (accs : list fd_pubkey_t) (a : fd_pubkey_t) : Prop := a ∉ accs.
#[export] Instance not_in_dec accs a : Decision (not_in accs a).
Proof. unfold not_in. apply _. Defined.

Lemma dlist_del_app a l1 l2 : dlist_del a (l1 ++ l2) = dlist_del a l1 ++ dlist_del a l2.
Proof. apply filter_app. Qed.

Lemma elem_of_dlist_del a b l : b ∈ dlist_del a l <-> b ∈ l /\ b <> a.
Proof. unfold dlist_del. rewrite list_elem_of_filter. tauto. Qed.

Lemma dlist_del_nodup a l : NoDup l -> NoDup (dlist_del a l).
Proof. apply NoDup_filter. Qed.

Lemma dlist_del_id a l : a ∉ l -> dlist_del a l = l.
Proof.
  induction l as [|b l IH]; intros Hn; [done|]. apply not_elem_of_cons in Hn as [Hb Hn].
  unfold dlist_del in *. rewrite filter_cons, decide_True by congruence. by rewrite IH.
Qed.

Lemma dlist_del_length a l : NoDup l -> a ∈ l -> length l = S (length (dlist_del a l)).
Proof.
  induction 1 as [|b l Hb Hnd IH]; intros Ha; [by apply elem_of_nil in Ha|]. unfold dlist_del in *. rewrite filter_cons.
  apply elem_of_cons in Ha as [->|Ha].
  - rewrite decide_False by tauto. cbn [length]. f_equal. exact (eq_sym (f_equal length (dlist_del_id b l Hb))).
  - rewrite decide_True by (intros ->; done). cbn [length]. by rewrite (IH Ha).
Qed.

Lemma size_list_to_set_le `{Countable A} (l : list A) : (size (list_to_set l : gset A) <= length l)%nat.
Proof.
  induction l as [|x l IH]; [done|]. cbn [length].
  change (list_to_set (x :: l) : gset A) with ({[x]} ∪ list_to_set l : gset A). rewrite size_union_alt, size_singleton.
  assert (size (list_to_set l ∖ {[x]} : gset A) <= size (list_to_set l : gset A))%nat by (apply subseteq_size; set_solver). lia.
Qed.

Lemma keep_voters_spec {V} (vtrs : gmap fd_pubkey_t V) dlist accs :
  NoDup dlist -> (forall a, a ∈ dlist <-> is_Some (vtrs !! a)) ->
  exists kept, keep_voters vtrs dlist accs = (filter (not_in accs) dlist ++ kept, list_to_set (filter (not_in accs) dlist)) /\
    NoDup kept /\ (forall a, a ∈ kept <-> a ∈ accs /\ is_Some (vtrs !! a)).
Proof.
  intros Hnd Hdom. unfold keep_voters. induction accs as [|acc accs IH] using rev_ind.
  - exists []. cbn [foldl]. assert (filter (not_in []) dlist = dlist) as ->.
    { clear. induction dlist as [|a l IH]; [done|]. rewrite filter_cons, decide_True by apply not_elem_of_nil. by rewrite IH. }
    rewrite app_nil_r. split_and!; [done|constructor|]. intros a. rewrite !elem_of_nil. tauto.
  - destruct IH as (kept & E & Hk & He). rewrite foldl_snoc, E. unfold keep_voter. cbn [fst snd].
    assert (forall a, not_in (accs ++ [acc]) a <-> not_in accs a /\ a <> acc) as Hin.
    { intros a. unfold not_in. rewrite elem_of_app, list_elem_of_singleton. tauto. }
    assert (filter (not_in (accs ++ [acc])) dlist = dlist_del acc (filter (not_in accs) dlist)) as ->.
    { unfold dlist_del. rewrite list_filter_filter. apply list_filter_ext_in. intros a _. rewrite Hin. tauto. }
    destruct (vtrs !! acc) as [v|] eqn:Ev.
    + exists (dlist_del acc kept ++ [acc]). split_and!.
      * rewrite dlist_del_app, <- app_assoc. f_equal. apply set_eq. intros a.
        rewrite elem_of_difference, !elem_of_list_to_set, elem_of_dlist_del, elem_of_singleton. done.
      * apply NoDup_app. split_and!; [by apply dlist_del_nodup| |apply NoDup_singleton].
        intros a [_ Ha]%elem_of_dlist_del. by rewrite list_elem_of_singleton.
      * intros a. rewrite !elem_of_app, !list_elem_of_singleton, elem_of_dlist_del, He.
        destruct (decide (a = acc)) as [->|Hne]; [rewrite Ev; naive_solver|naive_solver].
    + exists kept. assert (dlist_del acc (filter (not_in accs) dlist) = filter (not_in accs) dlist) as ->.
      { unfold dlist_del. rewrite list_filter_filter. apply list_filter_ext_in. intros a Ha%Hdom.
        split; [tauto|]. intros Hn. split; [|done]. intros ->. rewrite Ev in Ha. by destruct Ha. }
      split_and!; [done|done|]. intros a. rewrite He, elem_of_app, list_elem_of_singleton.
      split; [tauto|]. intros [[?| ->] Hs]; [tauto|]. rewrite Ev in Hs. by destruct Hs.
Qed.

(** The sweep releases the marked prefix and rotates what is left by one. *)
Lemma sweep_voters_spec {S} (release : S -> fd_pubkey_t -> outcome S) marks l kept s :
  Forall (fun a => a ∈ marks) l -> Forall (fun a => a ∉ marks) kept ->
  exists kept', kept' ≡ₚ kept /\ sweep_voters release marks s (l ++ kept) = (s ← ofold release s l; Ok (s, kept')).
Proof.
  intros Hl Hk. revert s. induction Hl as [|a l Ha _ IH]; intros s; cbn [app sweep_voters ofold].
  - destruct kept as [|b kept]; [by exists []|]. apply Forall_cons in Hk as [Hb _]. exists (kept ++ [b]). split; [|].
    + by rewrite Permutation_app_comm.
    + cbn [sweep_voters]. by rewrite bool_decide_eq_false_2.
  - rewrite bool_decide_eq_true_2 by done. destruct (release s a) as [s'|e]; cbn [mbind outcome_bind].
    + apply IH.
    + destruct (IH s) as (kept' & Hp & _). by exists kept'.
Qed.

(** Every key belongs to a voter and no voter has more than its quota of keys. *)
Lemma quota_size `{Countable K} {A V} (m : gmap K A) (vtrs : gmap fd_pubkey_t V) (keys : fd_pubkey_t -> V -> list K) per :
  (forall k, is_Some (m !! k) -> exists a r, vtrs !! a = Some r /\ k ∈ keys a r) -> (forall a r, vtrs !! a = Some r -> Z.of_nat (length (keys a r)) <= per) ->
  Z.of_nat (size m) <= per * Z.of_nat (size vtrs).
Proof.
  intros Hin Hlen. set (f := fun ar : fd_pubkey_t * V => keys ar.1 ar.2).
  assert (size m <= length (concat (f <$> map_to_list vtrs)))%nat as H1.
  { rewrite <- size_dom. etrans; [apply subseteq_size|apply size_list_to_set_le]. intros k Hd%elem_of_dom. apply elem_of_list_to_set.
    destruct (Hin k Hd) as (a & r & Hr & Hk). apply list_elem_of_In, in_concat. exists (f (a, r)). rewrite <- !list_elem_of_In. split; [|done].
    apply list_elem_of_fmap. exists (a, r). by rewrite elem_of_map_to_list. }
  assert (forall l, (forall ar, ar ∈ l -> vtrs !! ar.1 = Some ar.2) -> Z.of_nat (length (concat (f <$> l))) <= per * Z.of_nat (length l)) as H2.
  { induction l as [|ar l IH]; intros Hl; [cbn; lia|]. rewrite fmap_cons. cbn [concat]. rewrite length_app. cbn [length].
    specialize (IH ltac:(intros; apply Hl; by constructor)). specialize (Hlen ar.1 ar.2 (Hl ar ltac:(constructor))). unfold f at 1. lia. }
  etrans; [apply Nat2Z.inj_le, H1|]. rewrite <- (length_map_to_list vtrs). apply H2. intros [a r] Ha%elem_of_map_to_list. done.
Qed.
