(* ===== verification/Votes.v ===== *)
(** Counting vote transactions per block (src/src/choreo/votes/fd_votes.h,
    src/src/choreo/votes/fd_votes.c). *)
From S2P Require Import Prelude VotorBase Ghost Tower Voters.

(** * Data *)

(** A block of a slot: the stake that voted for it and its confirmation flags. *)
Record fd_votes_blk_t := mk_votes_blk { vb_stake : Z; vb_flags : Z }.

(** A voter and its position in the bit sets of the slots. *)
Record votes_vtr_t := mk_votes_vtr { vv_bit : Z }.

(** A slot: its blocks in the order of their first votes, and who has voted. *)
Record votes_slot_t := mk_votes_slot { vs_blks : list fd_hash_t; vs_blk_cnt : Z; vs_vtrs : gset Z }.

(** The set [vtr_set] is only used within [fd_votes_update_voters], where it is a local. *)
Record fd_votes_t := mk_votes {
  vo_root : Z;
  vo_slot_max : Z;
  vo_vtr_max : Z;
  vo_blk_max : Z;
  vo_slots : gmap Z votes_slot_t;
  vo_slot_dlist : list Z;
  vo_blks : gmap (Z * fd_hash_t) fd_votes_blk_t;
  vo_vtrs : gmap fd_pubkey_t votes_vtr_t;
  vo_vtr_dlist : list fd_pubkey_t
}.

Definition vo_set_root (v : fd_votes_t) x := mk_votes x (vo_slot_max v) (vo_vtr_max v) (vo_blk_max v) (vo_slots v) (vo_slot_dlist v) (vo_blks v) (vo_vtrs v) (vo_vtr_dlist v).
Definition vo_set_slots (v : fd_votes_t) x y := mk_votes (vo_root v) (vo_slot_max v) (vo_vtr_max v) (vo_blk_max v) x y (vo_blks v) (vo_vtrs v) (vo_vtr_dlist v).
Definition vo_set_blks (v : fd_votes_t) x := mk_votes (vo_root v) (vo_slot_max v) (vo_vtr_max v) (vo_blk_max v) (vo_slots v) (vo_slot_dlist v) x (vo_vtrs v) (vo_vtr_dlist v).
Definition vo_set_vtrs (v : fd_votes_t) x y := mk_votes (vo_root v) (vo_slot_max v) (vo_vtr_max v) (vo_blk_max v) (vo_slots v) (vo_slot_dlist v) (vo_blks v) x y.

Inductive votes_err := FD_VOTES_SUCCESS | FD_VOTES_ERR_VOTE_TOO_NEW | FD_VOTES_ERR_UNKNOWN_VTR | FD_VOTES_ERR_ALREADY_VOTED.

(** * Construction *)

Definition fd_votes_align : Z := 128.

Definition fd_votes_blk_max (slot_max vtr_max : Z) : Z :=
  if (slot_max =? 0) || (vtr_max =? 0) then 0 else
  let slot_max := fd_ulong_pow2_up slot_max in
  let vtr_max := fd_ulong_pow2_up vtr_max in
  if (slot_max =? 0) || (vtr_max =? 0) || (UINT_MAX / vtr_max <? slot_max) then 0 else
  let blk_max := fd_ulong_pow2_up (slot_max *w vtr_max) in
  if blk_max <=? UINT_MAX then blk_max else 0.

(** [shmem] is the address of the memory region, 0 for NULL. *)
Definition fd_votes_new (shmem slot_max vtr_max : Z) : option fd_votes_t :=
  if shmem =? 0 then None
  else if negb (shmem mod fd_votes_align =? 0) then None
  else if fd_votes_blk_max slot_max vtr_max =? 0 then None
  else
    let slot_max := fd_ulong_pow2_up slot_max in
    let vtr_max := fd_ulong_pow2_up vtr_max in
    Some (mk_votes ULONG_MAX slot_max vtr_max (fd_votes_blk_max slot_max vtr_max) ∅ [] ∅ ∅ []).

(** * Counting a vote *)

(** The record of the slot, created on its first vote. *)
Definition votes_slot (v : fd_votes_t) (slot : Z) : outcome (fd_votes_t * votes_slot_t) :=
  match vo_slots v !! slot with
  | Some s => Ok (v, s)
  | None =>
      check OutOfBounds (Z.of_nat (size (vo_slots v)) <? vo_slot_max v);;
      let s := mk_votes_slot [] 0 ∅ in
      Ok (vo_set_slots v (<[slot := s]> (vo_slots v)) (vo_slot_dlist v ++ [slot]), s)
  end.

(** The block, created on its first vote, and the slot's record with it. *)
Definition votes_blk (v : fd_votes_t) (slot : Z) (block_id : fd_hash_t) (s : votes_slot_t) : outcome (fd_votes_blk_t * votes_slot_t) :=
  match vo_blks v !! (slot, block_id) with
  | Some b => Ok (b, s)
  | None =>
      check OutOfBounds (Z.of_nat (size (vo_blks v)) <? vo_blk_max v);;
      Ok (mk_votes_blk 0 0, mk_votes_slot (vs_blks s ++ [block_id]) (vs_blk_cnt s +w 1) (vs_vtrs s))
  end.

Definition fd_votes_count_vote (v : fd_votes_t) (vote_acc : fd_pubkey_t) (stake vote_slot : Z) (vote_block_id : fd_hash_t)
    : outcome (fd_votes_t * votes_err) :=
  if vo_root v +w vo_slot_max v <=? vote_slot then Ok (v, FD_VOTES_ERR_VOTE_TOO_NEW) else
  match vo_vtrs v !! vote_acc with
  | None => Ok (v, FD_VOTES_ERR_UNKNOWN_VTR)
  | Some vtr =>
      vs ← votes_slot v vote_slot;
      let '(v, s) := vs in
      if bool_decide (vv_bit vtr ∈ vs_vtrs s) then Ok (v, FD_VOTES_ERR_ALREADY_VOTED) else
      check OutOfBounds (vv_bit vtr <? vo_vtr_max v);;
      let s := mk_votes_slot (vs_blks s) (vs_blk_cnt s) ({[vv_bit vtr]} ∪ vs_vtrs s) in
      bs ← votes_blk v vote_slot vote_block_id s;
      let '(b, s) := bs in
      let v := vo_set_slots v (<[vote_slot := s]> (vo_slots v)) (vo_slot_dlist v) in
      Ok (vo_set_blks v (<[(vote_slot, vote_block_id) := mk_votes_blk (vb_stake b +w stake) (vb_flags b)]> (vo_blks v)), FD_VOTES_SUCCESS)
  end.

(** * Queries *)

Definition fwd_level (b : fd_votes_blk_t) : Z := Z.shiftr (vb_flags b) 4.

(** The loop over the blocks of a slot. *)
Definition query_best (v : fd_votes_t) (slot : Z) (best : option (fd_hash_t * fd_votes_blk_t)) (id : fd_hash_t)
    : outcome (option (fd_hash_t * fd_votes_blk_t)) :=
  blk ← deref (vo_blks v !! (slot, id));
  Ok (if match best with Some b => fwd_level b.2 | None => 0 end <? fwd_level blk then Some (id, blk) else best).

Definition fd_votes_query (v : fd_votes_t) (slot : Z) (block_id : option fd_hash_t) : outcome (option (fd_hash_t * fd_votes_blk_t)) :=
  match block_id with
  | Some id => Ok ((fun b => (id, b)) <$> vo_blks v !! (slot, id))
  | None =>
      match vo_slots v !! slot with
      | None => Ok None
      | Some s => ofold (query_best v slot) None (vs_blks s)
      end
  end.

(** * A new root *)

Definition publish_slot (v : fd_votes_t) (slot : Z) : fd_votes_t :=
  match vo_slots v !! slot with
  | None => v
  | Some s =>
      let v := vo_set_blks v (foldl (fun m id => delete (slot, id) m) (vo_blks v) (vs_blks s)) in
      vo_set_slots v (delete slot (vo_slots v)) (filter (fun s => s <> slot) (vo_slot_dlist v))
  end.

Definition fd_votes_publish (v : fd_votes_t) (root : Z) : fd_votes_t :=
  if vo_root v =? ULONG_MAX then vo_set_root v root
  else vo_set_root (foldl publish_slot v (range (vo_root v) root)) root.

(** * A new set of voters *)

(** The bits of the voters that stay. *)
Definition keep_bit (v : fd_votes_t) (set : gset Z) (acc : fd_pubkey_t) : gset Z :=
  match vo_vtrs v !! acc with Some vtr => {[vv_bit vtr]} ∪ set | None => set end.

(** The next position that is not taken; the set has one word per 64 voters and
    is not read past its end. *)
Fixpoint next_free_bit (fuel : nat) (vtr_max : Z) (set : gset Z) (free_bit : Z) : outcome Z :=
  match fuel with
  | O => Fail Diverge
  | S k =>
      check OutOfBounds (free_bit <? vtr_max);;
      if bool_decide (free_bit ∈ set) then next_free_bit k vtr_max set (free_bit + 1) else Ok free_bit
  end.

(** The second pass over one account: a new voter takes a free position. *)
Definition add_voter (st : fd_votes_t * gset Z * Z) (acc : fd_pubkey_t) : outcome (fd_votes_t * gset Z * Z) :=
  let '(v, set, free_bit) := st in
  match vo_vtrs v !! acc with
  | Some _ => Ok st
  | None =>
      check OutOfBounds (Z.of_nat (size (vo_vtrs v)) <? vo_vtr_max v);;
      bit ← next_free_bit (S (size set)) (vo_vtr_max v) set free_bit;
      Ok (vo_set_vtrs v (<[acc := mk_votes_vtr bit]> (vo_vtrs v)) (vo_vtr_dlist v ++ [acc]), {[bit]} ∪ set, bit + 1)
  end.

Definition mask_slot (set : gset Z) (s : votes_slot_t) : votes_slot_t := mk_votes_slot (vs_blks s) (vs_blk_cnt s) (vs_vtrs s ∩ set).

Definition release_voter (v : fd_votes_t) (acc : fd_pubkey_t) : outcome fd_votes_t :=
  Ok (vo_set_vtrs v (delete acc (vo_vtrs v)) (vo_vtr_dlist v)).

Definition fd_votes_update_voters (v : fd_votes_t) (vote_accs : list fd_pubkey_t) : outcome fd_votes_t :=
  let '(dlist, marks) := keep_voters (vo_vtrs v) (vo_vtr_dlist v) vote_accs in
  let set := foldl (keep_bit v) ∅ vote_accs in
  sw ← sweep_voters release_voter marks v dlist;
  let v := vo_set_vtrs sw.1 (vo_vtrs sw.1) sw.2 in
  let v := vo_set_slots v (foldl (fun m slot => alter (mask_slot set) slot m) (vo_slots v) (vo_slot_dlist v)) (vo_slot_dlist v) in
  r ← ofold add_voter (v, set, 0) vote_accs;
  Ok r.1.1.
