(* ===== verification/VotesProps.v ===== *)
(** The vote counter refines a list of ballots: what is counted, what is refused,
    and when the pool of blocks is large enough. *)
From S2P Require Import Prelude VotorBase Ghost Tower Voters Votes.

(** * The specification *)

(** A vote that was counted. *)
Record ballot := mk_ballot { ba_acc : fd_pubkey_t; ba_slot : Z; ba_id : fd_hash_t; ba_stake : Z }.

(** The ballots of the slots from the root on, and which voters have voted for
    which slots and may not vote for them again. *)
Record tally := mk_tally { ta_root : Z; ta_voters : gset fd_pubkey_t; ta_ballots : list ballot; ta_open : gset (fd_pubkey_t * Z) }.

Inductive votes_op :=
| CountVote (acc : fd_pubkey_t) (stake slot : Z) (id : fd_hash_t)
| UpdateVoters (accs : list fd_pubkey_t)
| Publish (root : Z).

Definition spec_count (slot_max : Z) (t : tally) acc stake slot id : tally * votes_err :=
  if ta_root t + slot_max <=? slot then (t, FD_VOTES_ERR_VOTE_TOO_NEW)
  else if bool_decide (acc ∉ ta_voters t) then (t, FD_VOTES_ERR_UNKNOWN_VTR)
  else if bool_decide ((acc, slot) ∈ ta_open t) then (t, FD_VOTES_ERR_ALREADY_VOTED)
  else (mk_tally (ta_root t) (ta_voters t) (ta_ballots t ++ [mk_ballot acc slot id stake]) ({[(acc, slot)]} ∪ ta_open t), FD_VOTES_SUCCESS).

(** A voter that leaves keeps its ballots but may come back and vote again. *)
Definition spec_update (t : tally) (accs : list fd_pubkey_t) : tally :=
  mk_tally (ta_root t) (list_to_set accs) (ta_ballots t) (filter (fun k => k.1 ∈ accs) (ta_open t)).

Definition spec_publish (t : tally) (root : Z) : tally :=
  mk_tally root (ta_voters t) (filter (fun b => root <= ba_slot b) (ta_ballots t)) (filter (fun k => root <= k.2) (ta_open t)).

Definition spec_step (slot_max : Z) (t : tally) (op : votes_op) : tally * option votes_err :=
  match op with
  | CountVote acc stake slot id => let r := spec_count slot_max t acc stake slot id in (r.1, Some r.2)
  | UpdateVoters accs => (spec_update t accs, None)
  | Publish root => (spec_publish t root, None)
  end.

Definition votes_step (v : fd_votes_t) (op : votes_op) : outcome (fd_votes_t * option votes_err) :=
  match op with
  | CountVote acc stake slot id => r ← fd_votes_count_vote v acc stake slot id; Ok (r.1, Some r.2)
  | UpdateVoters accs => v ← fd_votes_update_voters v accs; Ok (v, None)
  | Publish root => Ok (fd_votes_publish v root, None)
  end.

(** * The representation *)

Definition ballots_for (t : tally) (slot : Z) (id : fd_hash_t) : list ballot :=
  filter (fun b => ba_slot b = slot /\ ba_id b = id) (ta_ballots t).
Definition has_slot (t : tally) (slot : Z) : Prop := exists b, b ∈ ta_ballots t /\ ba_slot b = slot.

Record rep (v : fd_votes_t) (t : tally) : Prop := {
  rp_root : vo_root v = ta_root t;
  rp_boot : ta_root t = ULONG_MAX -> ta_ballots t = [];
  rp_voters : forall a, is_Some (vo_vtrs v !! a) <-> a ∈ ta_voters t;
  rp_bits : forall a x, vo_vtrs v !! a = Some x -> 0 <= vv_bit x < vo_vtr_max v;
  rp_inj : forall a b x y, vo_vtrs v !! a = Some x -> vo_vtrs v !! b = Some y -> vv_bit x = vv_bit y -> a = b;
  rp_vlist : NoDup (vo_vtr_dlist v) /\ forall a, a ∈ vo_vtr_dlist v <-> is_Some (vo_vtrs v !! a);
  rp_window : forall b, b ∈ ta_ballots t -> ta_root t <= ba_slot b < ta_root t + vo_slot_max v;
  rp_slots : forall s, is_Some (vo_slots v !! s) <-> has_slot t s;
  rp_slist : NoDup (vo_slot_dlist v) /\ forall s, s ∈ vo_slot_dlist v <-> is_Some (vo_slots v !! s);
  rp_open : forall s r bit, vo_slots v !! s = Some r ->
    (bit ∈ vs_vtrs r <-> exists a x, vo_vtrs v !! a = Some x /\ vv_bit x = bit /\ (a, s) ∈ ta_open t);
  rp_open_in : forall a s, (a, s) ∈ ta_open t -> a ∈ ta_voters t /\ has_slot t s;
  rp_blks : forall s r, vo_slots v !! s = Some r -> NoDup (vs_blks r) /\ vs_blk_cnt r = u64 (Z.of_nat (length (vs_blks r)));
  rp_blk_in : forall s r id, vo_slots v !! s = Some r -> id ∈ vs_blks r <-> is_Some (vo_blks v !! (s, id));
  rp_none : forall s id, vo_blks v !! (s, id) = None <-> ballots_for t s id = [];
  rp_stake : forall s id b, vo_blks v !! (s, id) = Some b -> vb_stake b = u64 (lsum ba_stake (ballots_for t s id))
}.

(** * Counting *)

(** Keys within a window are no more than its length. *)
Lemma window_size {A} (m : gmap Z A) lo n :
  0 <= n -> (forall k, is_Some (m !! k) -> lo <= k < lo + n) -> Z.of_nat (size m) <= n.
Proof.
  intros Hn Hk. assert (dom m ⊆ list_to_set (seqZ lo n)) as Hsub.
  { intros k Hd%elem_of_dom. apply elem_of_list_to_set, elem_of_seqZ. by apply Hk. }
  apply subseteq_size in Hsub. rewrite size_dom, size_list_to_set, length_seqZ in Hsub by apply NoDup_seqZ. lia.
Qed.

Lemma window_room {A} (m : gmap Z A) lo n k :
  0 <= n -> (forall k, is_Some (m !! k) -> lo <= k < lo + n) -> lo <= k < lo + n -> m !! k = None -> Z.of_nat (size m) < n.
Proof.
  intros Hn Hm Hk Hnone. destruct (decide (m = ∅)) as [->|Hne]; [rewrite map_size_empty; lia|].
  destruct (map_choose m Hne) as (i & x & Hi). pose proof (window_size (<[k := x]> m) lo n Hn) as Hsz.
  rewrite map_size_insert_None in Hsz by done. enough (Z.of_nat (S (size m)) <= n) by lia. apply Hsz.
  intros j Hj. destruct (decide (j = k)) as [->|Hne']; [done|]. rewrite lookup_insert_ne in Hj by done. by apply Hm.
Qed.

Lemma ballots_for_app t slot id b root voters open :
  ballots_for (mk_tally root voters (ta_ballots t ++ [b]) open) slot id =
  ballots_for t slot id ++ (if decide (ba_slot b = slot /\ ba_id b = id) then [b] else []).
Proof. unfold ballots_for. cbn [ta_ballots]. rewrite filter_app, filter_cons, filter_nil. by case_decide. Qed.

Lemma ballots_for_nil t s id : ballots_for t s id = [] <-> forall b, b ∈ ta_ballots t -> ba_slot b = s -> ba_id b <> id.
Proof.
  unfold ballots_for. split.
  - intros E b Hb Hs Hi. by eapply (filter_nil_not_elem_of _ _ b E).
  - intros Hn. apply elem_of_nil_inv. intros b [[Hs Hi] Hb]%list_elem_of_filter. by apply (Hn b Hb).
Qed.

Lemma ballots_for_has_slot t s id : ballots_for t s id <> [] -> has_slot t s.
Proof.
  intros Hne. destruct (ballots_for t s id) as [|b l] eqn:E; [done|].
  assert (b ∈ ballots_for t s id) as [[Hs _] Hb]%list_elem_of_filter by (rewrite E; constructor). by exists b.
Qed.

(** Adding a ballot and a bit to a representation whose slot exists. *)
Section Count.
Context (v : fd_votes_t) (t : tally) (HR : rep v t).
Context (acc : fd_pubkey_t) (vtr : votes_vtr_t) (stake slot : Z) (id : fd_hash_t).
Context (Hvtr : vo_vtrs v !! acc = Some vtr).
Context (Hwin : ta_root t <= slot < ta_root t + vo_slot_max v) (Hboot : ta_root t <> ULONG_MAX).

Let b0 := mk_ballot acc slot id stake.
Let t' := mk_tally (ta_root t) (ta_voters t) (ta_ballots t ++ [b0]) ({[(acc, slot)]} ∪ ta_open t).
(** The slot's record before the vote, empty if there is none. *)
Let r0 := default (mk_votes_slot [] 0 ∅) (vo_slots v !! slot).
Let dl := if vo_slots v !! slot then vo_slot_dlist v else vo_slot_dlist v ++ [slot].
Let blk0 := default (mk_votes_blk 0 0) (vo_blks v !! (slot, id)).
Let ids := if vo_blks v !! (slot, id) then vs_blks r0 else vs_blks r0 ++ [id].
Let r1 := mk_votes_slot ids (u64 (Z.of_nat (length ids))) ({[vv_bit vtr]} ∪ vs_vtrs r0).
Let v' := vo_set_blks (vo_set_slots v (<[slot := r1]> (vo_slots v)) dl)
            (<[(slot, id) := mk_votes_blk (vb_stake blk0 +w stake) (vb_flags blk0)]> (vo_blks v)).

Lemma has_slot_app s : has_slot t' s <-> has_slot t s \/ s = slot.
Proof using All.
  unfold has_slot. cbn [ta_ballots t']. split.
  - intros (b & [Hb|Hb]%elem_of_app & Hs); [left; eauto|]. apply list_elem_of_singleton in Hb as ->. by right.
  - intros [(b & Hb & Hs)| ->]; [exists b; rewrite elem_of_app; auto|]. exists b0. rewrite elem_of_app, list_elem_of_singleton. auto.
Qed.

Lemma r0_blks : NoDup (vs_blks r0) /\ vs_blk_cnt r0 = u64 (Z.of_nat (length (vs_blks r0))) /\
  (forall i, i ∈ vs_blks r0 <-> is_Some (vo_blks v !! (slot, i))).
Proof using All.
  unfold r0. destruct (vo_slots v !! slot) as [r|] eqn:E; cbn [default].
  - destruct (rp_blks _ _ HR _ _ E). split_and!; [done|done|]. intros i. apply (rp_blk_in _ _ HR _ _ i E).
  - split_and!; [constructor|done|]. intros i. cbn [vs_blks]. rewrite elem_of_nil. split; [done|]. intros Hi.
    assert (ballots_for t slot i <> []) as Hne by (intros Hn%(rp_none _ _ HR); rewrite Hn in Hi; by destruct Hi).
    apply ballots_for_has_slot, (rp_slots _ _ HR) in Hne. rewrite E in Hne. by destruct Hne.
Qed.

Lemma r0_open bit : bit ∈ vs_vtrs r0 <-> exists a x, vo_vtrs v !! a = Some x /\ vv_bit x = bit /\ (a, slot) ∈ ta_open t.
Proof using All.
  unfold r0. destruct (vo_slots v !! slot) as [r|] eqn:E; cbn [default]; [by apply (rp_open _ _ HR)|].
  cbn [vs_vtrs]. split; [by intros ?%elem_of_empty|]. intros (a & x & _ & _ & Ho).
  apply (rp_open_in _ _ HR) in Ho as [_ Ho%(rp_slots _ _ HR)]. rewrite E in Ho. by destruct Ho.
Qed.

Lemma r0_bit : vv_bit vtr ∈ vs_vtrs r0 <-> (acc, slot) ∈ ta_open t.
Proof using All.
  rewrite r0_open. split; [|intros Ho; by exists acc, vtr]. intros (a & x & Ha & Hb & Ho).
  by rewrite <- (rp_inj _ _ HR _ _ _ _ Ha Hvtr Hb).
Qed.

Lemma ids_spec : NoDup ids /\ forall i, i ∈ ids <-> i = id \/ is_Some (vo_blks v !! (slot, i)).
Proof using All.
  destruct r0_blks as (Hnd & _ & Hin). unfold ids. destruct (vo_blks v !! (slot, id)) as [b|] eqn:E.
  - split; [done|]. intros i. rewrite Hin. split; [tauto|]. intros [-> |?]; [by rewrite E|done].
  - split.
    + apply NoDup_app. split_and!; [done| |apply NoDup_singleton]. intros i Hi Ei%list_elem_of_singleton. subst i.
      apply Hin in Hi. rewrite E in Hi. by destruct Hi.
    + intros i. rewrite elem_of_app, list_elem_of_singleton, Hin. tauto.
Qed.

Lemma counted_rep : rep v' t'.
Proof using All.
  destruct ids_spec as [Hnd Hids]. split; cbn [v' t' vo_set_blks vo_set_slots vo_root vo_vtrs vo_vtr_max vo_slot_max vo_slots vo_slot_dlist vo_blks vo_vtr_dlist ta_root ta_voters ta_ballots ta_open].
  - apply HR.
  - done.
  - apply HR.
  - apply HR.
  - apply HR.
  - apply HR.
  - intros b [Hb|Hb%list_elem_of_singleton]%elem_of_app; [by apply HR|by subst b].
  - intros s. rewrite has_slot_app. destruct (decide (s = slot)) as [->|Hne]; [rewrite lookup_insert_eq; naive_solver|].
    rewrite lookup_insert_ne by done. rewrite (rp_slots _ _ HR). naive_solver.
  - destruct (rp_slist _ _ HR) as [Hsn Hsl]. unfold dl. destruct (vo_slots v !! slot) as [r|] eqn:E.
    + split; [done|]. intros s. rewrite Hsl. destruct (decide (s = slot)) as [->|Hne]; [rewrite lookup_insert_eq, E; naive_solver|by rewrite lookup_insert_ne].
    + split.
      * apply NoDup_app. split_and!; [done| |apply NoDup_singleton]. intros s Hs Es%list_elem_of_singleton. subst s. apply Hsl in Hs. rewrite E in Hs. by destruct Hs.
      * intros s. rewrite elem_of_app, list_elem_of_singleton, Hsl.
        destruct (decide (s = slot)) as [->|Hne]; [rewrite lookup_insert_eq; naive_solver|rewrite lookup_insert_ne by done; naive_solver].
  - intros s r bit. destruct (decide (s = slot)) as [->|Hne].
    + rewrite lookup_insert_eq. intros [= <-]. cbn [vs_vtrs r1]. rewrite elem_of_union, elem_of_singleton, r0_open. split.
      * intros [->|(a & x & Ha & Hb & Ho)]; [exists acc, vtr; set_solver|exists a, x; set_solver].
      * intros (a & x & Ha & Hb & Ho). apply elem_of_union in Ho as [[= ->]%elem_of_singleton|Ho]; [left; congruence|right; eauto].
    + rewrite lookup_insert_ne by done. intros E. rewrite (rp_open _ _ HR _ _ _ E). split; intros (a & x & Ha & Hb & Ho); exists a, x; split_and!; try done; [set_solver|].
      apply elem_of_union in Ho as [[= -> ->]%elem_of_singleton|Ho]; done.
  - intros a s [[= -> ->]%elem_of_singleton|Ho]%elem_of_union.
    + split; [apply (rp_voters _ _ HR); by rewrite Hvtr|apply has_slot_app; auto].
    + apply (rp_open_in _ _ HR) in Ho as [? ?]. split; [done|apply has_slot_app; auto].
  - intros s r. destruct (decide (s = slot)) as [->|Hne]; [rewrite lookup_insert_eq; intros [= <-]; by cbn|rewrite lookup_insert_ne by done; apply HR].
  - intros s r i. destruct (decide (s = slot)) as [->|Hne].
    + rewrite lookup_insert_eq. intros [= <-]. cbn [vs_blks r1]. rewrite Hids.
      destruct (decide (i = id)) as [->|Hi]; [rewrite lookup_insert_eq; naive_solver|rewrite lookup_insert_ne by congruence; naive_solver].
    + rewrite lookup_insert_ne by done. intros E. rewrite lookup_insert_ne by congruence. by apply (rp_blk_in _ _ HR).
  - intros s i. unfold t'. rewrite ballots_for_app. cbn [b0 ba_slot ba_id]. destruct (decide (slot = s /\ id = i)) as [[<- <-]|Hne].
    + rewrite lookup_insert_eq. split; [done|]. by intros [_ ?]%app_nil.
    + rewrite lookup_insert_ne by (intros [= -> ->]; tauto). rewrite app_nil_r. apply HR.
  - intros s i b. unfold t'. rewrite ballots_for_app. cbn [b0 ba_slot ba_id]. destruct (decide (slot = s /\ id = i)) as [[<- <-]|Hne].
    + rewrite lookup_insert_eq. intros [= <-]. cbn [vb_stake]. rewrite lsum_app. cbn [lsum foldr ba_stake]. rewrite Z.add_0_r.
      assert (vb_stake blk0 = u64 (lsum ba_stake (ballots_for t slot id))) as ->.
      { unfold blk0. destruct (vo_blks v !! (slot, id)) as [b|] eqn:E; cbn [default]; [by apply (rp_stake _ _ HR)|].
        apply (rp_none _ _ HR) in E. by rewrite E. }
      unfold u64_add, u64. apply Zplus_mod_idemp_l.
    + rewrite lookup_insert_ne by (intros [= -> ->]; tauto). rewrite app_nil_r. apply HR.
Qed.
End Count.

Definition limits (v : fd_votes_t) : Z * Z * Z := (vo_slot_max v, vo_vtr_max v, vo_blk_max v).

(** What the caller sees to: the root is set, the window does not wrap, old votes
    are dropped before, and the pool of blocks has room for a new block. *)
Definition countable (v : fd_votes_t) (t : tally) (slot : Z) (id : fd_hash_t) : Prop :=
  0 <= ta_root t /\ ta_root t <> ULONG_MAX /\ 0 <= vo_slot_max v /\ ta_root t + vo_slot_max v <= ULONG_MAX /\ ta_root t <= slot /\
  (is_Some (vo_blks v !! (slot, id)) \/ Z.of_nat (size (vo_blks v)) < vo_blk_max v).

Lemma count_refines v t acc stake slot id :
  rep v t -> countable v t slot id ->
  let r := spec_count (vo_slot_max v) t acc stake slot id in
  exists v', fd_votes_count_vote v acc stake slot id = Ok (v', r.2) /\ rep v' r.1 /\ limits v' = limits v.
Proof.
  intros HR (Hr0 & Hboot & Hsm & Hmax & Hslot & Hroom). unfold spec_count, fd_votes_count_vote.
  rewrite (rp_root _ _ HR), u64_add_small by (unfold is_u64; lia).
  destruct (Z.leb_spec (ta_root t + vo_slot_max v) slot) as [|Hnew]; [by exists v|].
  destruct (vo_vtrs v !! acc) as [vtr|] eqn:Evtr.
  2:{ rewrite bool_decide_eq_true_2; [by exists v|]. rewrite <- (rp_voters _ _ HR), Evtr. by intros [? ?]. }
  assert (acc ∈ ta_voters t) as Hacc by (apply (rp_voters _ _ HR); by rewrite Evtr).
  rewrite (bool_decide_eq_false_2 (acc ∉ ta_voters t)) by tauto.
  assert (ta_root t <= slot < ta_root t + vo_slot_max v) as Hwin by lia.
  pose proof (r0_bit v t HR acc vtr stake slot id Evtr Hwin Hboot) as Hbit. pose proof (r0_blks v t HR acc vtr stake slot id Evtr Hwin Hboot) as (_ & Hcnt & _).
  pose proof (counted_rep v t HR acc vtr stake slot id Evtr Hwin Hboot) as Hrep.
  set (r0 := default (mk_votes_slot [] 0 ∅) (vo_slots v !! slot)) in *.
  set (dl := if vo_slots v !! slot then vo_slot_dlist v else vo_slot_dlist v ++ [slot]) in *.
  assert (exists m, votes_slot v slot = Ok (vo_set_slots v m dl, r0) /\ (forall r, <[slot := r]> m = <[slot := r]> (vo_slots v)) /\
            (is_Some (vo_slots v !! slot) -> vo_set_slots v m dl = v)) as (m & -> & Hm & Hsame).
  { unfold votes_slot, r0, dl. destruct (vo_slots v !! slot) as [r|] eqn:E; cbn [default].
    - exists (vo_slots v). split_and!; [by destruct v|done|by destruct v].
    - exists (<[slot := mk_votes_slot [] 0 ∅]> (vo_slots v)). split_and!; [|intros r; by rewrite insert_insert_eq|by intros [? ?]].
      rewrite (proj2 (Z.ltb_lt _ _)); [done|]. apply (window_room _ (ta_root t) _ slot); [done| |lia|done].
      intros k (b & Hb & <-)%(rp_slots _ _ HR). by apply (rp_window _ _ HR). }
  cbn [mbind outcome_bind]. destruct (bool_decide (vv_bit vtr ∈ vs_vtrs r0)) eqn:Eb; boolp.
  - rewrite bool_decide_eq_true_2 by tauto. exists v. split_and!; [|done|done]. rewrite Hsame; [done|].
    apply (rp_slots _ _ HR), (rp_open_in _ _ HR acc slot). tauto.
  - rewrite bool_decide_eq_false_2 by tauto. cbn [vo_set_slots vo_vtr_max vo_blks vo_slots vo_slot_dlist].
    destruct (rp_bits _ _ HR _ _ Evtr) as [_ Hlt]. rewrite (proj2 (Z.ltb_lt _ _) Hlt). cbn [check mbind outcome_bind].
    unfold votes_blk. cbn [vs_blks vs_blk_cnt vs_vtrs vo_set_slots vo_blks vo_blk_max]. rewrite Hcnt.
    destruct (vo_blks v !! (slot, id)) as [b|] eqn:Eb'; cbn [default] in Hrep.
    + cbn [mbind outcome_bind]. eexists. split; [done|]. cbn [vo_set_blks vo_set_slots vo_root vo_slot_max vo_vtr_max vo_blk_max vo_slots vo_slot_dlist vo_blks vo_vtrs vo_vtr_dlist].
      rewrite Hm. split; [exact Hrep|done].
    + destruct Hroom as [[? ?]|Hroom]; [done|]. rewrite (proj2 (Z.ltb_lt _ _) Hroom). cbn [check mbind outcome_bind]. eexists. split; [done|].
      cbn [vo_set_blks vo_set_slots vo_root vo_slot_max vo_vtr_max vo_blk_max vo_slots vo_slot_dlist vo_blks vo_vtrs vo_vtr_dlist vs_blks vs_blk_cnt vs_vtrs].
      rewrite Hm. assert (forall n, u64 (Z.of_nat n) +w 1 = u64 (Z.of_nat (n + 1))) as -> by (intros n; unfold u64_add, u64; rewrite Zplus_mod_idemp_l; f_equal; lia).
      rewrite length_app in Hrep. split; [exact Hrep|done].
Qed.

(** * Publishing *)

Definition keeps (root : Z) (t : tally) (lo : Z) : tally :=
  mk_tally root (ta_voters t) (filter (fun b => lo <= ba_slot b) (ta_ballots t)) (filter (fun k => lo <= k.2) (ta_open t)).

Lemma keeps_has_slot root t lo s : has_slot (keeps root t lo) s <-> has_slot t s /\ lo <= s.
Proof.
  unfold has_slot. cbn [ta_ballots keeps]. split.
  - intros (b & [Hl Hb]%list_elem_of_filter & <-). eauto.
  - intros [(b & Hb & <-) Hl]. exists b. by rewrite list_elem_of_filter.
Qed.

Lemma keeps_ballots root t lo s id : ballots_for (keeps root t lo) s id = if decide (lo <= s) then ballots_for t s id else [].
Proof.
  unfold ballots_for. cbn [ta_ballots keeps]. rewrite list_filter_filter. case_decide as Hd.
  - apply list_filter_ext_in. intros b _. split; [tauto|]. intros [<- ?]. tauto.
  - apply elem_of_nil_inv. intros b [[[<- _] Hl] _]%list_elem_of_filter. lia.
Qed.

Lemma delete_ids {A} (m : gmap (Z * fd_hash_t) A) slot ids s i :
  foldl (fun m id => delete (slot, id) m) m ids !! (s, i) = if decide (s = slot /\ i ∈ ids) then None else m !! (s, i).
Proof.
  induction ids as [|id ids IH] using rev_ind; cbn [foldl].
  - rewrite decide_False; [done|]. by intros [_ ?%elem_of_nil].
  - rewrite foldl_snoc. destruct (decide ((slot, id) = (s, i))) as [[= -> ->]|Hne].
    + rewrite lookup_delete_eq, decide_True; [done|]. split; [done|]. rewrite elem_of_app, list_elem_of_singleton. auto.
    + rewrite lookup_delete_ne, IH by done. assert (s = slot /\ i ∈ ids ++ [id] <-> s = slot /\ i ∈ ids) as Hiff.
      { rewrite elem_of_app, list_elem_of_singleton. split; [|tauto]. intros [-> [?| ->]]; [tauto|done]. }
      do 2 case_decide; tauto.
Qed.

Lemma publish_slot_rep v t slot :
  rep v t -> (forall b, b ∈ ta_ballots t -> slot <= ba_slot b) -> rep (publish_slot v slot) (keeps (ta_root t) t (slot + 1)).
Proof.
  intros HR Hlow. assert (forall s, has_slot t s -> slot <= s) as Hge by (intros s (b & Hb & <-); auto).
  set (t' := keeps (ta_root t) t (slot + 1)).
  assert (forall s, has_slot t' s <-> has_slot t s /\ s <> slot) as Hhs.
  { intros s. unfold t'. rewrite keeps_has_slot. split; intros [Hs ?]; (split; [done|]); [lia|]. specialize (Hge s Hs). lia. }
  assert (forall s id, s <> slot -> ballots_for t' s id = ballots_for t s id) as Hother.
  { intros s id Hne. unfold t'. rewrite keeps_ballots. case_decide as Hd; [done|]. destruct (ballots_for t s id) eqn:E; [done|].
    assert (has_slot t s) as Hs by (apply (ballots_for_has_slot t s id); by rewrite E). specialize (Hge s Hs). lia. }
  assert (forall a s, (a, s) ∈ ta_open t' <-> (a, s) ∈ ta_open t /\ s <> slot) as Hopen.
  { intros a s. unfold t'. cbn [ta_open keeps]. rewrite elem_of_filter. cbn [snd]. split; [intros [? ?]; split; [done|lia]|].
    intros [Ho Hne]. split; [|done]. apply (rp_open_in _ _ HR) in Ho as [_ Ho%Hge]. lia. }
  assert (exists m, publish_slot v slot = mk_votes (vo_root v) (vo_slot_max v) (vo_vtr_max v) (vo_blk_max v) (delete slot (vo_slots v))
            (filter (fun s => s <> slot) (vo_slot_dlist v)) m (vo_vtrs v) (vo_vtr_dlist v) /\
            forall s i, m !! (s, i) = if decide (s = slot) then None else vo_blks v !! (s, i)) as (m & -> & Hm).
  { unfold publish_slot. destruct (vo_slots v !! slot) as [r|] eqn:E.
    - exists (foldl (fun m id => delete (slot, id) m) (vo_blks v) (vs_blks r)). split; [done|]. intros s i. rewrite delete_ids. destruct (decide (s = slot)) as [->|Hne]; [|rewrite decide_False by tauto; done].
      case_decide as Hd; [done|]. apply eq_None_not_Some. rewrite <- (rp_blk_in _ _ HR _ _ i E). tauto.
    - exists (vo_blks v). split.
      + rewrite delete_id by done. rewrite (list_filter_ext_in _ (fun _ => True)); [|intros s Hs; split; [done|]; intros _ ->; apply (rp_slist _ _ HR) in Hs; rewrite E in Hs; by destruct Hs].
        assert (filter (fun _ => True) (vo_slot_dlist v) = vo_slot_dlist v) as -> by (clear; induction (vo_slot_dlist v) as [|x l IH]; [done|by rewrite filter_cons, decide_True, IH]). by destruct v.
      + intros s i. case_decide as Hd; [subst s|done]. apply (rp_none _ _ HR). destruct (ballots_for t slot i) eqn:Eb; [done|].
        assert (has_slot t slot) as Hs by (apply (ballots_for_has_slot t slot i); by rewrite Eb). apply (rp_slots _ _ HR) in Hs. rewrite E in Hs. by destruct Hs. }
  split; cbn [vo_root vo_vtrs vo_vtr_max vo_slot_max vo_slots vo_slot_dlist vo_blks vo_vtr_dlist]; try apply HR.
  - intros Hr. cbn [t' keeps ta_ballots]. by rewrite (rp_boot _ _ HR Hr).
  - intros b [_ Hb]%list_elem_of_filter. by apply (rp_window _ _ HR).
  - intros s. rewrite Hhs, <- (rp_slots _ _ HR), lookup_delete_is_Some. naive_solver.
  - destruct (rp_slist _ _ HR) as [Hn Hl]. split; [by apply NoDup_filter|]. intros s. rewrite list_elem_of_filter, Hl, lookup_delete_is_Some. naive_solver.
  - intros s r bit [Hne E]%lookup_delete_Some. rewrite (rp_open _ _ HR _ _ _ E).
    split; intros (a & x & Ha & Hb & Ho); exists a, x; split_and!; try done; [by apply Hopen|by apply Hopen in Ho as [? _]].
  - intros a s [Ho Hne]%Hopen. apply (rp_open_in _ _ HR) in Ho as [? ?]. split; [done|by apply Hhs].
  - intros s r [_ E]%lookup_delete_Some. by apply (rp_blks _ _ HR s).
  - intros s r i [Hne E]%lookup_delete_Some. rewrite Hm, decide_False by done. by apply (rp_blk_in _ _ HR).
  - intros s i. rewrite Hm. case_decide as Hd; [subst s|rewrite Hother by done; apply HR].
    unfold t'. rewrite keeps_ballots, decide_False by lia. done.
  - intros s i b. rewrite Hm. case_decide as Hd; [done|]. rewrite Hother by done. apply HR.
Qed.

Lemma keeps_keeps r t a b : a <= b -> keeps r (keeps r t a) b = keeps r t b.
Proof.
  intros Hab. unfold keeps. cbn [ta_voters ta_ballots ta_open]. rewrite list_filter_filter. f_equal.
  - apply list_filter_ext_in. intros x _. lia.
  - apply set_eq. intros k. rewrite !elem_of_filter. naive_solver lia.
Qed.

Lemma publish_slots_rep n v t lo :
  rep v t -> (forall b, b ∈ ta_ballots t -> lo <= ba_slot b) ->
  rep (foldl publish_slot v (seqZ lo (Z.of_nat n))) (keeps (ta_root t) t (lo + Z.of_nat n)) /\
  limits (foldl publish_slot v (seqZ lo (Z.of_nat n))) = limits v.
Proof.
  revert v t lo. induction n as [|n IH]; intros v t lo HR Hlow.
  - change (seqZ lo (Z.of_nat 0)) with (seqZ lo 0). rewrite seqZ_nil by lia. cbn [foldl]. split; [|done].
    assert (keeps (ta_root t) t (lo + Z.of_nat 0) = t) as ->; [|done]. destruct t as [r vs bs os]. unfold keeps. cbn in *. f_equal.
    + rewrite (list_filter_ext_in _ (fun _ => True)); [clear; induction bs as [|x l IH]; [done|by rewrite filter_cons, decide_True, IH]|]. intros b Hb%Hlow. split; [done|lia].
    + apply set_eq. intros [a s]. rewrite elem_of_filter. split; [tauto|]. intros Ho. split; [|done].
      destruct (rp_open_in _ _ HR a s Ho) as [_ (b & Hb%Hlow & <-)]. cbn [snd]. lia.
  - rewrite seqZ_cons by lia. cbn [foldl]. replace (Z.pred (Z.of_nat (S n))) with (Z.of_nat n) by lia.
    destruct (IH (publish_slot v lo) (keeps (ta_root t) t (lo + 1)) (Z.succ lo)) as [HR' Hlim].
    + by apply publish_slot_rep.
    + intros b [Hb _]%list_elem_of_filter. lia.
    + cbn [ta_root keeps] in HR'. rewrite keeps_keeps in HR' by lia. replace (Z.succ lo + Z.of_nat n) with (lo + Z.of_nat (S n)) in HR' by lia.
      split; [done|]. rewrite Hlim. unfold publish_slot. by destruct (vo_slots v !! lo).
Qed.

Lemma publish_refines v t root :
  rep v t -> 0 <= root < ULONG_MAX -> (ta_root t = ULONG_MAX \/ ta_root t <= root) ->
  rep (fd_votes_publish v root) (spec_publish t root) /\ limits (fd_votes_publish v root) = limits v.
Proof.
  intros HR Hroot Hle. unfold fd_votes_publish. rewrite (rp_root _ _ HR). destruct (Z.eqb_spec (ta_root t) ULONG_MAX) as [Eb|Hne].
  - split; [|done]. unfold spec_publish. pose proof (rp_boot _ _ HR Eb) as E0. rewrite E0, filter_nil.
    assert (ta_open t = ∅) as Eo.
    { apply set_eq. intros [a s]. split; [|by intros ?%elem_of_empty]. intros Ho. destruct (rp_open_in _ _ HR a s Ho) as [_ (b & Hb & _)].
      rewrite E0 in Hb. by apply elem_of_nil in Hb. }
    rewrite Eo. assert (filter (fun k : fd_pubkey_t * Z => root <= k.2) (∅ : gset (fd_pubkey_t * Z)) = ∅) as ->
      by (apply set_eq; intros k; rewrite elem_of_filter; set_solver). destruct HR as [H1 H2 H3 H4 H5 H6 H7 H8 H9 H10 H11 H12 H13 H14 H15]. destruct t as [r vs bs os]. cbn in *. subst bs os.
    split; cbn; try done. intros b Hb. by apply elem_of_nil in Hb.
  - destruct Hle as [?|Hle]; [done|]. destruct (publish_slots_rep (Z.to_nat (root - ta_root t)) v t (ta_root t) HR) as [HR' Hlim]; [intros b Hb; by apply (rp_window _ _ HR)|].
    unfold range. rewrite Z2Nat.id in HR', Hlim by lia. replace (ta_root t + (root - ta_root t)) with root in HR' by lia.
    split; [|done]. set (v' := foldl publish_slot v (seqZ (ta_root t) (root - ta_root t))) in *.
    assert (vo_slot_max v' = vo_slot_max v) as Esm by (unfold limits in Hlim; congruence).
    destruct HR' as [H1 H2 H3 H4 H5 H6 H7 H8 H9 H10 H11 H12 H13 H14 H15]. cbn in *.
    split; cbn; try done; [lia|]. intros b Hb. pose proof (H7 b Hb). apply list_elem_of_filter in Hb as [? _]. lia.
Qed.

(** * New voters *)

Lemma release_all v l : ofold release_voter v l = Ok (vo_set_vtrs v (foldl (fun m a => delete a m) (vo_vtrs v) l) (vo_vtr_dlist v)).
Proof.
  revert v. induction l as [|a l IH]; intros v; [by destruct v|].
  change (ofold release_voter v (a :: l)) with (ofold release_voter (vo_set_vtrs v (delete a (vo_vtrs v)) (vo_vtr_dlist v)) l). by rewrite IH.
Qed.

Lemma delete_accs {A} (m : gmap fd_pubkey_t A) l a : foldl (fun m a => delete a m) m l !! a = if decide (a ∈ l) then None else m !! a.
Proof.
  revert m. induction l as [|b l IH]; intros m; cbn [foldl]; [rewrite decide_False; [done|apply not_elem_of_nil]|].
  rewrite IH. destruct (decide (a = b)) as [->|Hne].
  - rewrite lookup_delete_eq, (decide_True (P := b ∈ b :: l)) by constructor. by case_decide.
  - rewrite lookup_delete_ne by done. assert (a ∈ b :: l <-> a ∈ l) as Hiff by (rewrite elem_of_cons; tauto). do 2 case_decide; tauto.
Qed.

Lemma mask_slots set (m : gmap Z votes_slot_t) l s :
  NoDup l -> foldl (fun m slot => alter (mask_slot set) slot m) m l !! s = if decide (s ∈ l) then mask_slot set <$> m !! s else m !! s.
Proof.
  intros Hnd. revert m. induction Hnd as [|x l Hx _ IH]; intros m; cbn [foldl]; [rewrite decide_False; [done|apply not_elem_of_nil]|].
  rewrite IH. destruct (decide (s = x)) as [->|Hne].
  - rewrite decide_False, decide_True, lookup_alter_eq by (done || constructor). done.
  - rewrite lookup_alter_ne by done. assert (s ∈ x :: l <-> s ∈ l) as Hiff by (rewrite elem_of_cons; tauto). do 2 case_decide; tauto.
Qed.

Lemma keep_bits v accs bit : bit ∈ foldl (keep_bit v) ∅ accs <-> exists a x, a ∈ accs /\ vo_vtrs v !! a = Some x /\ vv_bit x = bit.
Proof.
  induction accs as [|acc accs IH] using rev_ind; cbn [foldl].
  - rewrite elem_of_empty. split; [done|]. intros (a & x & Ha & _). by apply elem_of_nil in Ha.
  - rewrite foldl_snoc. unfold keep_bit at 1. setoid_rewrite elem_of_app. setoid_rewrite list_elem_of_singleton.
    destruct (vo_vtrs v !! acc) as [y|] eqn:E; [rewrite elem_of_union, elem_of_singleton|]; rewrite IH; naive_solver.
Qed.

(** The taken positions. *)
Definition bits_of (vtrs : gmap fd_pubkey_t votes_vtr_t) : gset Z := list_to_set ((fun kv => vv_bit kv.2) <$> map_to_list vtrs).

Lemma elem_of_bits vtrs bit : bit ∈ bits_of vtrs <-> exists a x, vtrs !! a = Some x /\ vv_bit x = bit.
Proof.
  unfold bits_of. rewrite elem_of_list_to_set, list_elem_of_fmap. split.
  - intros ([a x] & -> & Hx%elem_of_map_to_list). eauto.
  - intros (a & x & Hx & <-). exists (a, x). by rewrite elem_of_map_to_list.
Qed.

Lemma size_bits vtrs : (size (bits_of vtrs) <= size vtrs)%nat.
Proof. unfold bits_of. rewrite <- length_map_to_list, <- (length_fmap (fun kv => vv_bit kv.2)). apply size_list_to_set_le. Qed.

Lemma prefix_size (set : gset Z) n : 0 <= n -> (forall j, 0 <= j < n -> j ∈ set) -> n <= Z.of_nat (size set).
Proof.
  intros Hn Hp. assert (list_to_set (seqZ 0 n) ⊆ set) as Hsub.
  { intros j Hj%elem_of_list_to_set%elem_of_seqZ. apply Hp. lia. }
  apply subseteq_size in Hsub. rewrite size_list_to_set, length_seqZ in Hsub by apply NoDup_seqZ. lia.
Qed.

Lemma next_free_bit_spec fuel vtr_max set b :
  0 <= b -> (forall j, 0 <= j < b -> j ∈ set) -> Z.of_nat (size set) < vtr_max -> (keys_from set b < fuel)%nat ->
  exists bit, next_free_bit fuel vtr_max set b = Ok bit /\ 0 <= bit < vtr_max /\ bit ∉ set /\ forall j, 0 <= j < bit -> j ∈ set.
Proof.
  revert b. induction fuel as [|k IH]; intros b Hb Hp Hsz Hf; [lia|]. cbn [next_free_bit].
  pose proof (prefix_size set b Hb Hp). rewrite (proj2 (Z.ltb_lt b vtr_max)) by lia. cbn [check mbind outcome_bind].
  destruct (decide (b ∈ set)) as [Hin|Hin].
  - rewrite bool_decide_eq_true_2 by done. apply IH; [lia| |done|rewrite (keys_from_step _ _ Hin) in Hf; lia].
    intros j Hj. destruct (decide (j = b)) as [->|]; [done|]. apply Hp. lia.
  - rewrite bool_decide_eq_false_2 by done. exists b. split_and!; [done|lia|lia|done|done].
Qed.

Lemma add_voter_rep v t acc bit :
  rep v t -> vo_vtrs v !! acc = None -> 0 <= bit < vo_vtr_max v -> bit ∉ bits_of (vo_vtrs v) ->
  rep (vo_set_vtrs v (<[acc := mk_votes_vtr bit]> (vo_vtrs v)) (vo_vtr_dlist v ++ [acc])) (mk_tally (ta_root t) ({[acc]} ∪ ta_voters t) (ta_ballots t) (ta_open t)).
Proof.
  intros HR Hacc Hbit Hfree. assert (acc ∉ ta_voters t) as Hnv by (intros Hv%(rp_voters _ _ HR); rewrite Hacc in Hv; by destruct Hv).
  assert (forall a x, vo_vtrs v !! a = Some x -> vv_bit x <> bit) as Hne by (intros a x Hx Eb; apply Hfree, elem_of_bits; eauto).
  destruct HR as [H1 H2 H3 H4 H5 [H6 H6'] H7 H8 H9 H10 H11 H12 H13 H14 H15].
  split; cbn [vo_set_vtrs vo_root vo_vtrs vo_vtr_max vo_slot_max vo_slots vo_slot_dlist vo_blks vo_vtr_dlist ta_root ta_voters ta_ballots ta_open]; try done.
  - intros a. rewrite elem_of_union, elem_of_singleton. destruct (decide (a = acc)) as [->|Hn]; [rewrite lookup_insert_eq; naive_solver|].
    rewrite lookup_insert_ne, H3 by done. naive_solver.
  - intros a x [[<- <-]|[_ Hx]]%lookup_insert_Some; [done|by apply (H4 a)].
  - intros a b x y [[<- <-]|[Hna Hx]]%lookup_insert_Some [[<- <-]|[Hnb Hy]]%lookup_insert_Some Eb; [done| | |by apply (H5 a b x y)].
    + by destruct (Hne b y Hy).
    + by destruct (Hne a x Hx).
  - split.
    + apply NoDup_app. split_and!; [done| |apply NoDup_singleton]. intros a Ha Ea%list_elem_of_singleton. subst a. apply H6' in Ha. rewrite Hacc in Ha. by destruct Ha.
    + intros a. rewrite elem_of_app, list_elem_of_singleton, H6'. destruct (decide (a = acc)) as [->|Hn]; [rewrite lookup_insert_eq; naive_solver|rewrite lookup_insert_ne by done; naive_solver].
  - intros s r b Er. rewrite (H10 s r b Er). split; intros (a & x & Ha & Hb & Ho); exists a, x; (split_and!; [|done|done]).
    + rewrite lookup_insert_ne; [done|]. intros ->. by rewrite Hacc in Ha.
    + apply lookup_insert_Some in Ha as [[<- <-]|[_ Ha]]; [|done]. by apply H11 in Ho as [? _].
  - intros a s Ho. destruct (H11 a s Ho) as [Ha Hs]. split; [set_solver|done].
Qed.

Lemma rep_size (v : fd_votes_t) (t : tally) (accs : gset fd_pubkey_t) (acc : fd_pubkey_t) :
  rep v t -> ta_voters t ⊆ accs -> acc ∈ accs -> vo_vtrs v !! acc = None -> (size (vo_vtrs v) < size accs)%nat.
Proof.
  intros HR Hsub Hin Hnone. assert (dom (vo_vtrs v) ⊂ accs) as Hss.
  { split; [intros a Ha%elem_of_dom; apply Hsub; by apply (rp_voters _ _ HR)|]. intros Hc. specialize (Hc acc Hin). apply elem_of_dom in Hc. rewrite Hnone in Hc. by destruct Hc. }
  apply subset_size in Hss. by rewrite size_dom in Hss.
Qed.

Lemma add_voters_rep (accs : gset fd_pubkey_t) (l : list fd_pubkey_t) (v : fd_votes_t) (t : tally) (set : gset Z) (fb : Z) :
  rep v t -> set = bits_of (vo_vtrs v) -> 0 <= fb -> (forall j, 0 <= j < fb -> j ∈ set) ->
  (forall a, a ∈ l -> a ∈ accs) -> ta_voters t ⊆ accs -> Z.of_nat (size accs) <= vo_vtr_max v ->
  exists v' set' fb', ofold add_voter (v, set, fb) l = Ok (v', set', fb') /\
    rep v' (mk_tally (ta_root t) (list_to_set l ∪ ta_voters t) (ta_ballots t) (ta_open t)) /\ limits v' = limits v.
Proof.
  revert v t set fb. induction l as [|acc l IH]; intros v t set fb HR -> Hfb Hpre Hl Hsub Hmax; cbn [ofold].
  - eexists _, _, _. split; [done|]. split; [|done]. replace (list_to_set [] ∪ ta_voters t) with (ta_voters t) by set_solver. by destruct t.
  - destruct (vo_vtrs v !! acc) as [x|] eqn:E.
    + assert (add_voter (v, bits_of (vo_vtrs v), fb) acc = Ok (v, bits_of (vo_vtrs v), fb)) as -> by (unfold add_voter; by rewrite E).
      cbn [mbind outcome_bind]. destruct (IH v t (bits_of (vo_vtrs v)) fb) as (v' & set' & fb' & Ef & HR' & Hlim); try done; [intros a Ha; apply Hl; by constructor|].
      exists v', set', fb'. split_and!; [done| |done]. assert (acc ∈ ta_voters t) by (apply (rp_voters _ _ HR); by rewrite E).
      replace (list_to_set (acc :: l) ∪ ta_voters t) with (list_to_set l ∪ ta_voters t) by set_solver. done.
    + assert (acc ∈ accs) as Hin by (apply Hl; constructor). pose proof (rep_size v t accs acc HR Hsub Hin E) as Hsz.
      pose proof (size_bits (vo_vtrs v)) as Hb.
      assert (keys_from (bits_of (vo_vtrs v)) fb < S (size (bits_of (vo_vtrs v))))%nat as Hk.
      { unfold keys_from. apply Nat.lt_succ_r, subseteq_size. set_solver. }
      destruct (next_free_bit_spec _ (vo_vtr_max v) _ fb Hfb Hpre ltac:(lia) Hk) as (bit & En & Hbit & Hfree & Hp).
      assert (add_voter (v, bits_of (vo_vtrs v), fb) acc = Ok (vo_set_vtrs v (<[acc := mk_votes_vtr bit]> (vo_vtrs v)) (vo_vtr_dlist v ++ [acc]), {[bit]} ∪ bits_of (vo_vtrs v), bit + 1)) as ->.
      { unfold add_voter. rewrite E, (proj2 (Z.ltb_lt _ _)) by lia. cbn [check mbind outcome_bind]. by rewrite En. }
      cbn [mbind outcome_bind].
      pose proof (add_voter_rep v t acc bit HR E Hbit Hfree) as HR1.
      destruct (IH _ _ ({[bit]} ∪ bits_of (vo_vtrs v)) (bit + 1) HR1) as (v' & set' & fb' & Ef & HR' & Hlim).
      * apply set_eq. intros j. cbn [vo_set_vtrs vo_vtrs]. rewrite elem_of_union, elem_of_singleton, !elem_of_bits. split.
        -- intros [->|(a & x & Ha & Hj)]; [exists acc, (mk_votes_vtr bit); by rewrite lookup_insert_eq|]. exists a, x. rewrite lookup_insert_ne; [done|]. intros ->. by rewrite E in Ha.
        -- intros (a & x & [[<- <-]|[_ Ha]]%lookup_insert_Some & Hj); [by left|right; eauto].
      * lia.
      * intros j Hj. destruct (decide (j = bit)) as [->|]; [set_solver|]. apply elem_of_union_r, Hp. lia.
      * intros a Ha. apply Hl. by constructor.
      * cbn [ta_voters]. set_solver.
      * done.
      * exists v', set', fb'. split_and!; [done| |done]. cbn [ta_root ta_voters ta_ballots ta_open] in HR'.
        replace (list_to_set (acc :: l) ∪ ta_voters t) with (list_to_set l ∪ ({[acc]} ∪ ta_voters t)) by set_solver. done.
Qed.

(** The state between the two passes. *)
Lemma swept_rep v t accs set kept' vtrs' slots' :
  rep v t -> set = foldl (keep_bit v) ∅ accs ->
  (forall a, vtrs' !! a = if decide (a ∈ accs) then vo_vtrs v !! a else None) ->
  (forall s, slots' !! s = mask_slot set <$> vo_slots v !! s) ->
  NoDup kept' -> (forall a, a ∈ kept' <-> a ∈ accs /\ is_Some (vo_vtrs v !! a)) ->
  rep (vo_set_slots (vo_set_vtrs v vtrs' kept') slots' (vo_slot_dlist v))
    (mk_tally (ta_root t) (filter (fun a => a ∈ accs) (ta_voters t)) (ta_ballots t) (filter (fun k => k.1 ∈ accs) (ta_open t))) /\
  set = bits_of vtrs'.
Proof.
  intros HR -> Hv Hs Hnd Hk. set (set := foldl (keep_bit v) ∅ accs) in *.
  assert (forall a x, vtrs' !! a = Some x <-> a ∈ accs /\ vo_vtrs v !! a = Some x) as Hv'.
  { intros a x. rewrite Hv. case_decide; [tauto|]. split; [done|tauto]. }
  assert (forall s, is_Some (slots' !! s) <-> is_Some (vo_slots v !! s)) as Hs' by (intros s; by rewrite Hs, fmap_is_Some).
  split; [|apply set_eq; intros b; unfold set; rewrite keep_bits, elem_of_bits; setoid_rewrite Hv'; naive_solver].
  destruct HR as [H1 H2 H3 H4 H5 H6 H7 H8 [H9 H9'] H10 H11 H12 H13 H14 H15].
  split; cbn [vo_set_slots vo_set_vtrs vo_root vo_vtrs vo_vtr_max vo_slot_max vo_slots vo_slot_dlist vo_blks vo_vtr_dlist ta_root ta_voters ta_ballots ta_open]; try done.
  - intros a. rewrite elem_of_filter, <- H3. unfold is_Some. setoid_rewrite Hv'. naive_solver.
  - intros a x [_ Hx]%Hv'. by apply (H4 a).
  - intros a b x y [_ Hx]%Hv' [_ Hy]%Hv'. by apply (H5 a b x y).
  - split; [done|]. intros a. rewrite Hk. unfold is_Some. setoid_rewrite Hv'. naive_solver.
  - intros s. rewrite Hs'. apply H8.
  - split; [done|]. intros s. by rewrite Hs', H9'.
  - intros s r b Er. rewrite Hs in Er. apply fmap_Some in Er as (r0 & Er & ->). cbn [mask_slot vs_vtrs].
    rewrite elem_of_intersection, (H10 s r0 b Er). unfold set. rewrite keep_bits. setoid_rewrite elem_of_filter. cbn [fst]. setoid_rewrite Hv'. split.
    + intros [(a & x & Ha & Hb & Ho) (a' & x' & Hin & Ha' & Hb')]. rewrite <- (H5 _ _ _ _ Ha Ha' ltac:(congruence)) in Hin. by exists a, x.
    + intros (a & x & [Hin Ha] & Hb & _ & Ho). split; by exists a, x.
  - intros a s [Hin Ho]%elem_of_filter. destruct (H11 a s Ho). split; [by apply elem_of_filter|done].
  - intros s r Er. rewrite Hs in Er. apply fmap_Some in Er as (r0 & Er & ->). exact (H12 s r0 Er).
  - intros s r id Er. rewrite Hs in Er. apply fmap_Some in Er as (r0 & Er & ->). exact (H13 s r0 id Er).
Qed.

Lemma update_refines v t accs :
  rep v t -> Z.of_nat (size (list_to_set accs : gset fd_pubkey_t)) <= vo_vtr_max v ->
  exists v', fd_votes_update_voters v accs = Ok v' /\ rep v' (spec_update t accs) /\ limits v' = limits v.
Proof.
  intros HR Hmax. unfold fd_votes_update_voters. destruct (rp_vlist _ _ HR) as [Hnd Hdom].
  destruct (keep_voters_spec (vo_vtrs v) (vo_vtr_dlist v) accs Hnd Hdom) as (kept & -> & Hkn & Hk).
  set (dead := filter (not_in accs) (vo_vtr_dlist v)). set (set := foldl (keep_bit v) ∅ accs).
  destruct (sweep_voters_spec release_voter (list_to_set dead) dead kept v) as (kept' & Hp & ->).
  - apply Forall_forall. intros a. by rewrite elem_of_list_to_set.
  - apply Forall_forall. intros a [Ha _]%Hk. rewrite elem_of_list_to_set. unfold dead. rewrite list_elem_of_filter. unfold not_in. tauto.
  - rewrite release_all. cbn [mbind outcome_bind fst snd]. cbn [vo_set_vtrs vo_vtrs vo_slots vo_slot_dlist].
    set (vtrs' := foldl (fun m a => delete a m) (vo_vtrs v) dead). set (slots' := foldl _ (vo_slots v) (vo_slot_dlist v)).
    destruct (swept_rep v t accs set kept' vtrs' slots' HR eq_refl) as [HR1 Hset].
    + intros a. unfold vtrs'. rewrite delete_accs. destruct (decide (a ∈ dead)) as [[Hn _]%list_elem_of_filter|Hn]; [by rewrite (decide_False (P := a ∈ accs)) by exact Hn|].
      case_decide as Hin; [done|]. destruct (vo_vtrs v !! a) eqn:E; [|done]. destruct Hn. apply list_elem_of_filter. split; [done|]. apply Hdom. by rewrite E.
    + intros s. unfold slots'. destruct (rp_slist _ _ HR) as [Hsn Hsd]. rewrite mask_slots by done. case_decide as Hd; [done|].
      destruct (vo_slots v !! s) eqn:E; [|done]. destruct Hd. apply Hsd. by rewrite E.
    + by rewrite Hp.
    + intros a. rewrite Hp. apply Hk.
    + destruct (add_voters_rep (list_to_set accs) accs _ _ set 0 HR1) as (v' & set' & fb' & Ef & HR' & Hlim); try done.
      * lia.
      * intros a. by rewrite elem_of_list_to_set.
      * cbn [ta_voters]. intros a [Ha _]%elem_of_filter. by apply elem_of_list_to_set.
      * exists v'. split.
        -- change (vo_set_slots (vo_set_vtrs (vo_set_vtrs v vtrs' (vo_vtr_dlist v)) vtrs' kept') slots' (vo_slot_dlist v))
             with (vo_set_slots (vo_set_vtrs v vtrs' kept') slots' (vo_slot_dlist v)). by rewrite Ef.
        -- split; [|done]. unfold spec_update. cbn [ta_root ta_voters ta_ballots ta_open] in HR'.
           replace (list_to_set accs ∪ filter (fun a => a ∈ accs) (ta_voters t)) with (list_to_set accs : gset fd_pubkey_t) in HR'; [done|].
           apply set_eq. intros a. rewrite elem_of_union, elem_of_filter, elem_of_list_to_set. tauto.
Qed.

(** * The properties *)

Definition admissible (v : fd_votes_t) (t : tally) (op : votes_op) : Prop :=
  match op with
  | CountVote acc stake slot id => countable v t slot id
  | UpdateVoters accs => Z.of_nat (size (list_to_set accs : gset fd_pubkey_t)) <= vo_vtr_max v
  | Publish root => 0 <= root < ULONG_MAX /\ (ta_root t = ULONG_MAX \/ ta_root t <= root)
  end.

Definition tally_new : tally := mk_tally ULONG_MAX ∅ [] ∅.

(** What calls lead to, with the specification alongside. *)
Inductive votes_reach : fd_votes_t -> tally -> Prop :=
| reach_new shmem slot_max vtr_max v : fd_votes_new shmem slot_max vtr_max = Some v -> votes_reach v tally_new
| reach_step v t op v' code :
    votes_reach v t -> admissible v t op -> votes_step v op = Ok (v', code) -> votes_reach v' (spec_step (vo_slot_max v) t op).1.

Lemma new_rep shmem slot_max vtr_max v : fd_votes_new shmem slot_max vtr_max = Some v -> rep v tally_new.
Proof.
  unfold fd_votes_new. do 3 (case_if; [done|]). intros [= <-].
  split; cbn; try done; try (intros; set_solver).
  - intros a. rewrite lookup_empty. split; [by intros [? ?]|set_solver].
  - split; [constructor|]. intros a. rewrite lookup_empty, elem_of_nil. split; [done|by intros [? ?]].
  - intros s. rewrite lookup_empty. split; [by intros [? ?]|]. intros (b & Hb & _). by apply elem_of_nil in Hb.
  - split; [constructor|]. intros a. rewrite lookup_empty, elem_of_nil. split; [done|by intros [? ?]].
Qed.

Lemma step_refines v t op :
  rep v t -> admissible v t op ->
  exists v', votes_step v op = Ok (v', (spec_step (vo_slot_max v) t op).2) /\ rep v' (spec_step (vo_slot_max v) t op).1 /\ limits v' = limits v.
Proof.
  intros HR Ha. destruct op as [acc stake slot id|accs|root]; cbn [votes_step spec_step admissible fst snd] in *.
  - destruct (count_refines v t acc stake slot id HR Ha) as (v' & -> & HR' & Hl). cbn. eauto.
  - destruct (update_refines v t accs HR Ha) as (v' & -> & HR' & Hl). cbn. eauto.
  - destruct Ha as [H1 H2]. destruct (publish_refines v t root HR H1 H2). eauto.
Qed.

Lemma reach_rep v t : votes_reach v t -> rep v t.
Proof.
  induction 1 as [|v t op v' code _ IH Ha E]; [by eapply new_rep|].
  destruct (step_refines v t op IH Ha) as (v2 & E2 & HR & _). rewrite E in E2. by injection E2 as -> ->.
Qed.


(** ** Capacity *)

Lemma blks_le_ballots v t : rep v t -> (size (vo_blks v) <= length (ta_ballots t))%nat.
Proof.
  intros HR. etrans; [|rewrite <- (length_fmap (fun b => (ba_slot b, ba_id b))); apply size_list_to_set_le].
  rewrite <- size_dom. apply subseteq_size. intros [s id] Hd%elem_of_dom. apply elem_of_list_to_set, list_elem_of_fmap.
  destruct (ballots_for t s id) as [|b l] eqn:E; [apply (rp_none _ _ HR) in E; rewrite E in Hd; by destruct Hd|].
  assert (b ∈ ballots_for t s id) as [[<- <-] Hb]%list_elem_of_filter by (rewrite E; constructor). by exists b.
Qed.

Lemma voters_le_max v t : rep v t -> Z.of_nat (size (ta_voters t)) <= Z.max 0 (vo_vtr_max v).
Proof.
  intros HR. assert (ta_voters t = dom (vo_vtrs v)) as ->.
  { apply set_eq. intros a. by rewrite elem_of_dom, (rp_voters _ _ HR). }
  rewrite size_dom, <- length_map_to_list, <- (length_fmap (fun kv => vv_bit kv.2)).
  rewrite <- (Z2Nat.id (Z.max 0 (vo_vtr_max v))) by lia. apply Nat2Z.inj_le.
  replace (Z.to_nat (Z.max 0 (vo_vtr_max v))) with (length (seqZ 0 (vo_vtr_max v))) by (rewrite length_seqZ; lia).
  apply submseteq_length, NoDup_submseteq.
  - apply NoDup_fmap_2_strong; [|apply NoDup_map_to_list]. intros [a x] [b y] Ha%elem_of_map_to_list Hb%elem_of_map_to_list Eb. cbn in *.
    pose proof (rp_inj _ _ HR _ _ _ _ Ha Hb Eb) as ->. congruence.
  - intros b ([a x] & -> & Hx%elem_of_map_to_list)%list_elem_of_fmap. apply elem_of_seqZ. pose proof (rp_bits _ _ HR _ _ Hx). cbn. lia.
Qed.


(** ** Examples *)

Definition accA : fd_pubkey_t := [1].
Definition accB : fd_pubkey_t := [2].
Definition ok_or {A} (d : A) (o : outcome A) : A := match o with Ok a => a | Fail _ => d end.

(** Four slots, two voters, rooted at slot 10. *)
Definition votes0 : fd_votes_t := default (mk_votes 0 0 0 0 ∅ [] ∅ ∅ []) (fd_votes_new 128 4 2).
Definition votes1 : fd_votes_t := fd_votes_publish votes0 10.
Definition votes2 : fd_votes_t := ok_or votes1 (fd_votes_update_voters votes1 [accA; accB]).
Definition votes3 : fd_votes_t := (ok_or (votes2, FD_VOTES_SUCCESS) (fd_votes_count_vote votes2 accA 5 11 [7])).1.
Definition tally2 : tally := mk_tally 10 (list_to_set [accA; accB]) [] ∅.
Definition tally3 : tally := (spec_count 4 tally2 accA 5 11 [7]).1.

Lemma votes2_reach : votes_reach votes2 tally2.
Proof.
  assert (votes_reach votes0 tally_new) as H0 by (apply (reach_new 128 4 2); vm_compute; reflexivity).
  assert (votes_reach votes1 (spec_step (vo_slot_max votes0) tally_new (Publish 10)).1) as H1.
  { apply (reach_step votes0 tally_new (Publish 10) votes1 None H0); [cbn; unfold ULONG_MAX; lia|reflexivity]. }
  apply (reach_step votes1 _ (UpdateVoters [accA; accB]) votes2 None) in H1; [|vm_compute; discriminate|vm_compute; reflexivity].
  replace tally2 with (spec_step (vo_slot_max votes1) (spec_step (vo_slot_max votes0) tally_new (Publish 10)).1 (UpdateVoters [accA; accB])).1 by (vm_compute; reflexivity). exact H1.
Qed.

Lemma votes3_reach : votes_reach votes3 tally3.
Proof.
  apply (reach_step votes2 tally2 (CountVote accA 5 11 [7]) votes3 (Some FD_VOTES_SUCCESS) votes2_reach); [|vm_compute; reflexivity].
  unfold admissible, countable. cbn [tally2 ta_root]. replace (vo_slot_max votes2) with 4 by (vm_compute; reflexivity).
  replace (Z.of_nat (size (vo_blks votes2))) with 0 by (vm_compute; reflexivity). replace (vo_blk_max votes2) with 8 by (vm_compute; reflexivity).
  unfold ULONG_MAX. lia.
Qed.



(** The ballots of a voter that has left keep their blocks while its positions are
    given to new voters: with one slot and one voter, the vote of a second voter
    for another block takes a block from an exhausted pool. *)
Definition one_voter : fd_votes_t := fd_votes_publish (default votes0 (fd_votes_new 128 1 1)) 10.
Definition one_vote : outcome fd_votes_t :=
  v ← fd_votes_update_voters one_voter [accA];
  r ← fd_votes_count_vote v accA 5 10 [7];
  fd_votes_update_voters r.1 [accB].

Example votes_blk_pool_exhausted :
  is_ok one_vote = true /\ (v ← one_vote; fd_votes_count_vote v accB 5 10 [8]) = Fail OutOfBounds.
Proof. split; vm_compute; reflexivity. Qed.

(** * Queries *)

Definition level (o : option (fd_hash_t * fd_votes_blk_t)) : Z := match o with Some b => fwd_level b.2 | None => 0 end.

Lemma query_best_spec v slot l best :
  (forall id, id ∈ l -> is_Some (vo_blks v !! (slot, id))) ->
  exists r, ofold (query_best v slot) best l = Ok r /\ level best <= level r /\
    (forall id b, id ∈ l -> vo_blks v !! (slot, id) = Some b -> fwd_level b <= level r) /\
    (r = best \/ exists id b, r = Some (id, b) /\ id ∈ l /\ vo_blks v !! (slot, id) = Some b /\ level best < fwd_level b).
Proof.
  revert best. induction l as [|id l IH]; intros best Hin.
  - exists best. split_and!; [done|lia| |by left]. intros id b Hid. by apply elem_of_nil in Hid.
  - destruct (Hin id ltac:(constructor)) as (b & Eb). set (best' := if level best <? fwd_level b then Some (id, b) else best).
    destruct (IH best') as (r & E & Hle & Hmax & Hr); [intros i Hi; apply Hin; by constructor|].
    assert (query_best v slot best id = Ok best') as Eq by (unfold query_best; by rewrite Eb).
    assert (level best <= level best' /\ fwd_level b <= level best') as [Hb1 Hb2].
    { unfold best'. destruct (Z.ltb_spec (level best) (fwd_level b)); cbn [level snd]; lia. }
    exists r. cbn [ofold]. rewrite Eq. cbn [mbind outcome_bind]. split_and!; [done|lia| |].
    + intros i x [->|Hi]%elem_of_cons Ex; [rewrite Eb in Ex; injection Ex as <-; lia|by apply (Hmax i)].
    + destruct Hr as [->|(i & x & -> & Hi & Ex & Hlt)].
      * unfold best'. destruct (Z.ltb_spec (level best) (fwd_level b)); [right; exists id, b; split_and!; [done|constructor|done|done]|by left].
      * right. exists i, x. split_and!; [done|by constructor|done|lia].
Qed.

(** Without a block id the query returns a block of the slot that no other block
    of the slot exceeds in forward confirmation, and nothing if no block of the
    slot is forward confirmed. *)
Lemma votes_query_best v t slot :
  rep v t -> exists r, fd_votes_query v slot None = Ok r /\
    (forall id b, vo_blks v !! (slot, id) = Some b -> fwd_level b <= level r) /\
    (r = None \/ exists id b, r = Some (id, b) /\ vo_blks v !! (slot, id) = Some b /\ 0 < fwd_level b).
Proof.
  intros HR. unfold fd_votes_query. destruct (vo_slots v !! slot) as [s|] eqn:E.
  - destruct (query_best_spec v slot (vs_blks s) None) as (r & Er & _ & Hmax & Hr); [intros id; apply (rp_blk_in _ _ HR _ _ id E)|].
    exists r. split_and!; [done| |naive_solver]. intros id b Eb. apply (Hmax id b); [|done]. apply (rp_blk_in _ _ HR _ _ id E). by rewrite Eb.
  - exists None. split_and!; [done| |by left]. intros id b Eb. destruct (ballots_for t slot id) as [|x l] eqn:En.
    + apply (rp_none _ _ HR) in En. congruence.
    + assert (has_slot t slot) as Hs by (apply (ballots_for_has_slot t slot id); by rewrite En). apply (rp_slots _ _ HR) in Hs. rewrite E in Hs. by destruct Hs.
Qed.
