(* ===== verification/Hfork.v ===== *)
(** Hard fork detection: votes with bank hashes other than ours
    (src/src/choreo/hfork/fd_hfork.h, src/src/choreo/hfork/fd_hfork.c). *)
From Stdlib Require Import Floats.SpecFloat.
From S2P Require Import Prelude VotorBase Ghost Tower Voters.

(** * Data *)

(** A bank hash of a block: the stake that voted for it. *)
Record bhm_t := mk_bhm { bh_slot : Z; bh_stake : Z }.

(** A block: our bank hash and the bank hashes voted for, the latest vote last. *)
Record hfork_blk_t := mk_hblk { hb_our_bank_hash : fd_hash_t; hb_bhms : list fd_hash_t; hb_bhm_cnt : Z }.

(** A vote of one voter for one block. *)
Record vte_t := mk_vte { ve_bank_hash : fd_hash_t; ve_slot : Z; ve_stake : Z }.

(** A voter: the blocks it voted for, the oldest vote first. *)
Record hfork_vtr_t := mk_hvtr { hv_vtes : list fd_hash_t; hv_vte_cnt : Z }.

Record fd_hfork_t := mk_hfork {
  hf_max : Z;
  hf_per_vtr_max : Z;
  hf_vtr_max : Z;
  hf_bhms : gmap (fd_hash_t * fd_hash_t) bhm_t;
  hf_blks : gmap fd_hash_t hfork_blk_t;
  hf_blk_dlist : list fd_hash_t;
  hf_vtes : gmap (fd_pubkey_t * fd_hash_t) vte_t;
  hf_vtrs : gmap fd_pubkey_t hfork_vtr_t;
  hf_vtr_dlist : list fd_pubkey_t
}.

Definition hf_set_bhms (h : fd_hfork_t) x := mk_hfork (hf_max h) (hf_per_vtr_max h) (hf_vtr_max h) x (hf_blks h) (hf_blk_dlist h) (hf_vtes h) (hf_vtrs h) (hf_vtr_dlist h).
Definition hf_set_blks (h : fd_hfork_t) x y := mk_hfork (hf_max h) (hf_per_vtr_max h) (hf_vtr_max h) (hf_bhms h) x y (hf_vtes h) (hf_vtrs h) (hf_vtr_dlist h).
Definition hf_set_vtes (h : fd_hfork_t) x := mk_hfork (hf_max h) (hf_per_vtr_max h) (hf_vtr_max h) (hf_bhms h) (hf_blks h) (hf_blk_dlist h) x (hf_vtrs h) (hf_vtr_dlist h).
Definition hf_set_vtrs (h : fd_hfork_t) x y := mk_hfork (hf_max h) (hf_per_vtr_max h) (hf_vtr_max h) (hf_bhms h) (hf_blks h) (hf_blk_dlist h) (hf_vtes h) x y.

Inductive hfork_code :=
| FD_HFORK_SUCCESS_MATCHED | FD_HFORK_SUCCESS | FD_HFORK_ERR_MISMATCHED
| FD_HFORK_ERR_UNKNOWN_VTR | FD_HFORK_ERR_ALREADY_VOTED | FD_HFORK_ERR_VOTE_TOO_OLD.

#[export] Instance hfork_code_eq_dec : EqDecision hfork_code.
Proof. solve_decision. Defined.

Definition hash_null : fd_hash_t := repeat 0 32.
Definition hash_invalid : fd_hash_t := repeat 255 32.

(** * Construction *)

Definition fd_hfork_align : Z := 128.

(** The number of elements of the pools, 0 if the limits are refused. *)
Definition hfork_max (per_vtr_max vtr_max : Z) : Z :=
  let vtr_max := fd_ulong_pow2_up vtr_max in
  if (per_vtr_max =? 0) || (vtr_max =? 0) || (UINT_MAX <? vtr_max) || (UINT_MAX / vtr_max <? per_vtr_max) then 0 else
  let max := fd_ulong_pow2_up (per_vtr_max *w vtr_max) in
  if (max =? 0) || (UINT_MAX <? max) then 0 else max.

Definition fd_hfork_new (shmem per_vtr_max vtr_max : Z) : option fd_hfork_t :=
  if shmem =? 0 then None
  else if negb (shmem mod fd_hfork_align =? 0) then None
  else if hfork_max per_vtr_max vtr_max =? 0 then None
  else Some (mk_hfork (hfork_max per_vtr_max vtr_max) per_vtr_max (fd_ulong_pow2_up vtr_max) ∅ ∅ [] ∅ ∅ []).

(** * Bank hashes *)

(** A block without bank hashes is released. *)
Definition bhm_remove (h : fd_hfork_t) (id bank_hash : fd_hash_t) : outcome fd_hfork_t :=
  match hf_blks h !! id with
  | None => Fail FdTest
  | Some blk =>
      let h := hf_set_bhms h (delete (id, bank_hash) (hf_bhms h)) in
      let blk := mk_hblk (hb_our_bank_hash blk) (dlist_del bank_hash (hb_bhms blk)) (hb_bhm_cnt blk -w 1) in
      Ok (hf_set_blks h (if hb_bhm_cnt blk =? 0 then delete id (hf_blks h) else <[id := blk]> (hf_blks h)) (hf_blk_dlist h))
  end.

(** [pct < 52.0] in double precision. *)
Definition below_52 (stake total_stake : Z) : bool :=
  SFltb (double_div (SFmul 53 1024 (to_double stake) (to_double 100)) (to_double total_stake)) (to_double 52).

Definition compare (blk : hfork_blk_t) (bank_hash : fd_hash_t) (bhm : bhm_t) (total_stake : Z) : hfork_code :=
  if bool_decide (hb_our_bank_hash blk = hash_null) then FD_HFORK_SUCCESS
  else if below_52 (bh_stake bhm) total_stake then FD_HFORK_SUCCESS
  else if negb (bool_decide (hb_our_bank_hash blk = bank_hash)) then FD_HFORK_ERR_MISMATCHED
  else FD_HFORK_SUCCESS_MATCHED.

(** * Blocks *)

(** When the pool is used up the oldest block without votes makes room; [None] is
    the NULL of the code. *)
Definition blk_insert (h : fd_hfork_t) (id : fd_hash_t) : option fd_hfork_t :=
  let add h := hf_set_blks h (<[id := mk_hblk hash_null [] 0]> (hf_blks h)) (hf_blk_dlist h) in
  if Z.of_nat (size (hf_blks h)) <? hf_max h then Some (add h)
  else match hf_blk_dlist h with
       | [] => None
       | evicted :: rest => Some (add (hf_set_blks h (delete evicted (hf_blks h)) rest))
       end.

(** * Votes *)

(** Takes a vote's stake back from its bank hash. *)
Definition unvote (h : fd_hfork_t) (id bank_hash : fd_hash_t) (bhm : bhm_t) (stake : Z) : outcome fd_hfork_t :=
  let bhm := mk_bhm (bh_slot bhm) (bh_stake bhm -w stake) in
  let h := hf_set_bhms h (<[(id, bank_hash) := bhm]> (hf_bhms h)) in
  if bh_stake bhm =? 0 then bhm_remove h id bank_hash else Ok h.

(** Drops the oldest vote of a voter that has used up its quota. *)
Definition evict_vte (h : fd_hfork_t) (vote_acc : fd_pubkey_t) (vtr : hfork_vtr_t) : outcome fd_hfork_t :=
  if negb (hv_vte_cnt vtr =? hf_per_vtr_max h) then Ok h else
  match hv_vtes vtr with
  | [] => Fail NullPtr
  | id :: rest =>
      vte ← deref (hf_vtes h !! (vote_acc, id));
      let h := hf_set_vtes h (delete (vote_acc, id) (hf_vtes h)) in
      let h := hf_set_vtrs h (<[vote_acc := mk_hvtr rest (hv_vte_cnt vtr -w 1)]> (hf_vtrs h)) (hf_vtr_dlist h) in
      bhm ← deref (hf_bhms h !! (id, ve_bank_hash vte));
      unvote h id (ve_bank_hash vte) bhm (ve_stake vte)
  end.

(** The block, with its record: inserted if it is new, taken out of the list of
    blocks without votes otherwise. *)
Definition upsert_blk (h : fd_hfork_t) (id : fd_hash_t) : outcome (fd_hfork_t * hfork_blk_t) :=
  match hf_blks h !! id with
  | None =>
      h ← deref (blk_insert h id);
      blk ← deref (hf_blks h !! id);
      Ok (h, blk)
  | Some blk =>
      Ok (if hb_bhm_cnt blk =? 0 then hf_set_blks h (hf_blks h) (dlist_del id (hf_blk_dlist h)) else h, blk)
  end.

(** The bank hash with the vote's stake added; it becomes the last of its block. *)
Definition upsert_bhm (h : fd_hfork_t) (id bank_hash : fd_hash_t) (blk : hfork_blk_t) (slot stake : Z)
    : outcome (fd_hfork_t * hfork_blk_t * bhm_t) :=
  sb ← (match hf_bhms h !! (id, bank_hash) with
        | Some bhm => Ok (bhm, blk)
        | None =>
            check OutOfBounds (Z.of_nat (size (hf_bhms h)) <? hf_max h);;
            Ok (mk_bhm slot 0, mk_hblk (hb_our_bank_hash blk) (hb_bhms blk ++ [bank_hash]) (hb_bhm_cnt blk +w 1))
        end);
  let '(bhm, blk) := sb in
  let bhm := mk_bhm (bh_slot bhm) (bh_stake bhm +w stake) in
  let blk := mk_hblk (hb_our_bank_hash blk) (dlist_del bank_hash (hb_bhms blk) ++ [bank_hash]) (hb_bhm_cnt blk) in
  let h := hf_set_bhms h (<[(id, bank_hash) := bhm]> (hf_bhms h)) in
  Ok (hf_set_blks h (<[id := blk]> (hf_blks h)) (hf_blk_dlist h), blk, bhm).

Definition push_vte (h : fd_hfork_t) (vote_acc : fd_pubkey_t) (id bank_hash : fd_hash_t) (slot stake : Z) : outcome fd_hfork_t :=
  check OutOfBounds (Z.of_nat (size (hf_vtes h)) <? hf_max h);;
  vtr ← deref (hf_vtrs h !! vote_acc);
  let h := hf_set_vtes h (<[(vote_acc, id) := mk_vte bank_hash slot stake]> (hf_vtes h)) in
  Ok (hf_set_vtrs h (<[vote_acc := mk_hvtr (hv_vtes vtr ++ [id]) (hv_vte_cnt vtr +w 1)]> (hf_vtrs h)) (hf_vtr_dlist h)).

(** The slot of the voter's latest vote. *)
Definition last_vte_slot (h : fd_hfork_t) (vote_acc : fd_pubkey_t) (vtr : hfork_vtr_t) : outcome Z :=
  id ← deref (last (hv_vtes vtr));
  vte ← deref (hf_vtes h !! (vote_acc, id));
  Ok (ve_slot vte).

Definition fd_hfork_count_vote (h : fd_hfork_t) (vote_acc : fd_pubkey_t) (block_id bank_hash : fd_hash_t) (slot stake total_stake : Z)
    : outcome (fd_hfork_t * hfork_code) :=
  match hf_vtrs h !! vote_acc with
  | None => Ok (h, FD_HFORK_ERR_UNKNOWN_VTR)
  | Some vtr =>
      match hf_vtes h !! (vote_acc, block_id) with
      | Some _ => Ok (h, FD_HFORK_ERR_ALREADY_VOTED)
      | None =>
          old ← (if hv_vte_cnt vtr =? 0 then Ok false else s ← last_vte_slot h vote_acc vtr; Ok (slot <=? s));
          if (old : bool) then Ok (h, FD_HFORK_ERR_VOTE_TOO_OLD) else
          if stake =? 0 then Ok (h, FD_HFORK_SUCCESS) else
          h ← evict_vte h vote_acc vtr;
          hb ← upsert_blk h block_id;
          r ← upsert_bhm hb.1 block_id bank_hash hb.2 slot stake;
          h ← push_vte r.1.1 vote_acc block_id bank_hash slot stake;
          Ok (h, compare r.1.2 bank_hash r.2 total_stake)
      end
  end.

(** * Our bank hash *)

(** The first bank hash of the block whose comparison is not open. *)
Fixpoint compare_all (h : fd_hfork_t) (id : fd_hash_t) (blk : hfork_blk_t) (total_stake : Z) (l : list fd_hash_t) : outcome hfork_code :=
  match l with
  | [] => Ok FD_HFORK_SUCCESS
  | bank_hash :: rest =>
      bhm ← deref (hf_bhms h !! (id, bank_hash));
      match compare blk bank_hash bhm total_stake with
      | FD_HFORK_SUCCESS => compare_all h id blk total_stake rest
      | cmp => Ok cmp
      end
  end.

(** [None] for a block that was marked dead. *)
Definition fd_hfork_record_our_bank_hash (h : fd_hfork_t) (block_id : fd_hash_t) (bank_hash : option fd_hash_t) (total_stake : Z)
    : outcome (fd_hfork_t * hfork_code) :=
  let inserted :=
    match hf_blks h !! block_id with
    | Some _ => Some h
    | None => h ← blk_insert h block_id; Some (hf_set_blks h (hf_blks h) (hf_blk_dlist h ++ [block_id]))
    end in
  match inserted with
  | None => Ok (h, FD_HFORK_SUCCESS)
  | Some h =>
      blk ← deref (hf_blks h !! block_id);
      let blk := mk_hblk (default hash_invalid bank_hash) (hb_bhms blk) (hb_bhm_cnt blk) in
      let h := hf_set_blks h (<[block_id := blk]> (hf_blks h)) (hf_blk_dlist h) in
      cmp ← compare_all h block_id blk total_stake (hb_bhms blk);
      Ok (h, cmp)
  end.

(** * A new set of voters *)

Definition release_vte (vote_acc : fd_pubkey_t) (h : fd_hfork_t) (id : fd_hash_t) : outcome fd_hfork_t :=
  vte ← deref (hf_vtes h !! (vote_acc, id));
  let h := hf_set_vtes h (delete (vote_acc, id) (hf_vtes h)) in
  match hf_bhms h !! (id, ve_bank_hash vte) with
  | Some bhm => unvote h id (ve_bank_hash vte) bhm (ve_stake vte)
  | None => Ok h
  end.

Definition release_vtr (h : fd_hfork_t) (vote_acc : fd_pubkey_t) : outcome fd_hfork_t :=
  vtr ← deref (hf_vtrs h !! vote_acc);
  h ← ofold (release_vte vote_acc) h (hv_vtes vtr);
  Ok (hf_set_vtrs h (delete vote_acc (hf_vtrs h)) (hf_vtr_dlist h)).

Definition add_vtr (h : fd_hfork_t) (vote_acc : fd_pubkey_t) : outcome fd_hfork_t :=
  match hf_vtrs h !! vote_acc with
  | Some _ => Ok h
  | None =>
      check OutOfBounds (Z.of_nat (size (hf_vtrs h)) <? hf_vtr_max h);;
      Ok (hf_set_vtrs h (<[vote_acc := mk_hvtr [] 0]> (hf_vtrs h)) (hf_vtr_dlist h ++ [vote_acc]))
  end.

Definition fd_hfork_update_voters (h : fd_hfork_t) (vote_accs : list fd_pubkey_t) : outcome fd_hfork_t :=
  let '(dlist, marks) := keep_voters (hf_vtrs h) (hf_vtr_dlist h) vote_accs in
  sw ← sweep_voters release_vtr marks h dlist;
  ofold add_vtr (hf_set_vtrs sw.1 (hf_vtrs sw.1) sw.2) vote_accs.
