(* ===== verification/HforkInv.v ===== *)
(** The hard fork detector: the invariant that ties stakes, blocks and voters to
    the votes that are kept, and that every operation preserves it. *)
From S2P Require Import Prelude VotorBase Ghost Tower Voters Hfork.

(** * Sums over maps *)

Definition ksum `{Countable K} {A} (f : K -> A -> Z) (m : gmap K A) : Z := lsum (fun kv => f kv.1 kv.2) (map_to_list m).

Lemma ksum_insert `{Countable K} {A} (f : K -> A -> Z) (m : gmap K A) k v : m !! k = None -> ksum f (<[k := v]> m) = f k v + ksum f m.
Proof. intros Hk. unfold ksum. by rewrite (lsum_perm _ _ _ (map_to_list_insert m k v Hk)). Qed.

Lemma ksum_delete `{Countable K} {A} (f : K -> A -> Z) (m : gmap K A) k v : m !! k = Some v -> ksum f m = f k v + ksum f (delete k m).
Proof. intros Hk. rewrite <- (insert_delete_id m k v Hk) at 1. apply ksum_insert. apply lookup_delete_eq. Qed.

Lemma ksum_nonneg `{Countable K} {A} (f : K -> A -> Z) (m : gmap K A) : (forall k v, m !! k = Some v -> 0 <= f k v) -> 0 <= ksum f m.
Proof. intros Hf. apply lsum_nonneg. intros [k v] Hkv%elem_of_map_to_list. by apply Hf. Qed.

Lemma ksum_pos `{Countable K} {A} (f : K -> A -> Z) (m : gmap K A) : 0 < ksum f m -> exists k v, m !! k = Some v /\ 0 < f k v.
Proof.
  intros Hp. destruct (decide (Exists (fun kv => 0 < f kv.1 kv.2) (map_to_list m))) as [He|Hn].
  - apply Exists_exists in He as ([k v] & Hkv%elem_of_map_to_list & Hf). eauto.
  - exfalso. apply (Z.lt_irrefl 0). eapply Z.lt_le_trans; [exact Hp|]. transitivity (lsum (fun _ : K * A => 0) (map_to_list m)); [|rewrite lsum_const; lia].
    apply lsum_le. intros kv Hkv. destruct (decide (0 < f kv.1 kv.2)); [|lia]. destruct Hn. apply Exists_exists. eauto.
Qed.

Lemma ksum_one `{Countable K} {A} (f : K -> A -> Z) (m : gmap K A) k v :
  m !! k = Some v -> (forall k v, m !! k = Some v -> 0 <= f k v) -> f k v <= ksum f m.
Proof.
  intros Hk Hf. rewrite (ksum_delete f m k v Hk). enough (0 <= ksum f (delete k m)) by lia.
  apply ksum_nonneg. intros j w [_ Hj]%lookup_delete_Some. by apply Hf.
Qed.

(** * The invariant *)

(** What a vote adds to the stake of a bank hash. *)
Definition vte_for (id bh : fd_hash_t) (k : fd_pubkey_t * fd_hash_t) (v : vte_t) : Z :=
  if bool_decide (k.2 = id /\ ve_bank_hash v = bh) then ve_stake v else 0.

(** The stake of the votes for a bank hash of a block. *)
Definition votes_stake (vtes : gmap (fd_pubkey_t * fd_hash_t) vte_t) (id bh : fd_hash_t) : Z := ksum (vte_for id bh) vtes.

(** Bank hashes and blocks follow from the votes. *)
Record binv (vtes : gmap (fd_pubkey_t * fd_hash_t) vte_t) (h : fd_hfork_t) : Prop := {
  bi_some : forall id bh b, hf_bhms h !! (id, bh) = Some b -> bh_stake b = votes_stake vtes id bh /\ 0 < votes_stake vtes id bh;
  bi_none : forall id bh, hf_bhms h !! (id, bh) = None -> votes_stake vtes id bh = 0;
  bi_blk : forall id blk, hf_blks h !! id = Some blk ->
    NoDup (hb_bhms blk) /\ hb_bhm_cnt blk = Z.of_nat (length (hb_bhms blk)) /\ forall bh, bh ∈ hb_bhms blk <-> is_Some (hf_bhms h !! (id, bh));
  bi_in : forall id bh, is_Some (hf_bhms h !! (id, bh)) -> is_Some (hf_blks h !! id);
  bi_list : NoDup (hf_blk_dlist h) /\ forall id, id ∈ hf_blk_dlist h <-> exists blk, hf_blks h !! id = Some blk /\ hb_bhms blk = [];
  bi_room : Z.of_nat (size (hf_blks h)) <= hf_max h
}.

(** The slot of a vote of a voter. *)
Definition vslot (vtes : gmap (fd_pubkey_t * fd_hash_t) vte_t) (a : fd_pubkey_t) (id : fd_hash_t) : Z :=
  match vtes !! (a, id) with Some v => ve_slot v | None => 0 end.

(** The votes of each voter, for ascending slots. *)
Record vtr_inv (per : Z) (vtes : gmap (fd_pubkey_t * fd_hash_t) vte_t) (vtrs : gmap fd_pubkey_t hfork_vtr_t) : Prop := {
  vr_list : forall a r, vtrs !! a = Some r ->
    NoDup (hv_vtes r) /\ hv_vte_cnt r = Z.of_nat (length (hv_vtes r)) /\ Z.of_nat (length (hv_vtes r)) <= per /\
    forall id, id ∈ hv_vtes r <-> is_Some (vtes !! (a, id));
  vr_in : forall a id, is_Some (vtes !! (a, id)) -> is_Some (vtrs !! a);
  vr_sorted : forall a r, vtrs !! a = Some r -> StronglySorted (fun i j => vslot vtes a i < vslot vtes a j) (hv_vtes r)
}.

Lemma sorted_ext {A} (f g : A -> Z) l : (forall x, x ∈ l -> f x = g x) -> StronglySorted (fun i j => f i < f j) l -> StronglySorted (fun i j => g i < g j) l.
Proof.
  intros Hfg. induction 1 as [|x l _ IH Hx]; constructor.
  - apply IH. intros y Hy. apply Hfg. by constructor.
  - rewrite Forall_forall in *. intros y Hy. rewrite <- !Hfg by (by constructor). by apply Hx.
Qed.

Lemma sorted_snoc {A} (f : A -> Z) l y : StronglySorted (fun i j => f i < f j) l -> (forall x, x ∈ l -> f x < f y) -> StronglySorted (fun i j => f i < f j) (l ++ [y]).
Proof.
  induction 1 as [|x l _ IH Hx]; intros Hy; cbn [app]; constructor; try done.
  - constructor.
  - apply IH. intros z Hz. apply Hy. by constructor.
  - apply Forall_app. split; [done|]. constructor; [|constructor]. apply Hy. constructor.
Qed.

Section Inv.
(** A bound on the stake of every account such that the total fits. *)
Context (W : fd_pubkey_t -> Z) (HW : forall l, NoDup l -> lsum W l <= ULONG_MAX) (HW0 : forall a, 0 <= W a).

Definition stakes_ok (vtes : gmap (fd_pubkey_t * fd_hash_t) vte_t) : Prop :=
  forall k v, vtes !! k = Some v -> 0 < ve_stake v <= W k.1.

Record hinv (h : fd_hfork_t) : Prop := {
  hi_b : binv (hf_vtes h) h;
  hi_v : vtr_inv (hf_per_vtr_max h) (hf_vtes h) (hf_vtrs h);
  hi_stake : stakes_ok (hf_vtes h);
  hi_vlist : NoDup (hf_vtr_dlist h) /\ forall a, a ∈ hf_vtr_dlist h <-> is_Some (hf_vtrs h !! a);
  hi_size : Z.of_nat (size (hf_vtrs h)) <= hf_vtr_max h;
  hi_max : 0 < hf_per_vtr_max h /\ hf_per_vtr_max h * hf_vtr_max h <= hf_max h <= UINT_MAX
}.

Lemma votes_stake_nonneg vtes id bh : stakes_ok vtes -> 0 <= votes_stake vtes id bh.
Proof using. intros Hs. apply ksum_nonneg. intros k v Hk. unfold vte_for. case_bool_decide; [|done]. specialize (Hs k v Hk). lia. Qed.

(** The votes for one block are of different accounts, so their stakes do not wrap. *)
Lemma votes_stake_bound vtes id bh : stakes_ok vtes -> votes_stake vtes id bh <= ULONG_MAX.
Proof using HW HW0.
  intros Hs. set (l := filter (fun kv : fd_pubkey_t * fd_hash_t * vte_t => kv.1.2 = id) (map_to_list vtes)).
  etrans; [|apply (HW ((fun kv : fd_pubkey_t * fd_hash_t * vte_t => kv.1.1) <$> l))].
  - unfold votes_stake, ksum. assert (forall l0 : list (fd_pubkey_t * fd_hash_t * vte_t), (forall kv, kv ∈ l0 -> kv ∈ map_to_list vtes) ->
      lsum (fun kv => vte_for id bh kv.1 kv.2) l0 <= lsum W ((fun kv => kv.1.1) <$> filter (fun kv => kv.1.2 = id) l0)) as Hgen; [|by apply Hgen].
    induction l0 as [|[k v] l0 IH]; intros Hin; [done|]. specialize (IH ltac:(intros; apply Hin; by constructor)). rewrite filter_cons. cbn [fst].
    assert (0 < ve_stake v <= W k.1) as Hv by (apply (Hs k v), elem_of_map_to_list, Hin; constructor).
    change (lsum (fun kv => vte_for id bh kv.1 kv.2) ((k, v) :: l0)) with (vte_for id bh k v + lsum (fun kv => vte_for id bh kv.1 kv.2) l0).
    case_decide as Hd.
    + rewrite fmap_cons. change (lsum W (?x :: ?l)) with (W x + lsum W l). cbn [fst]. unfold vte_for at 1. case_bool_decide; lia.
    + unfold vte_for at 1. rewrite bool_decide_eq_false_2 by tauto. lia.
  - apply NoDup_fmap_2_strong; [|apply NoDup_filter, NoDup_map_to_list]. intros [[a i] v] [[b j] w] [Hi Ha%elem_of_map_to_list]%list_elem_of_filter [Hj Hb%elem_of_map_to_list]%list_elem_of_filter Eab.
    cbn in *. subst. congruence.
Qed.

(** * Sizes *)

Lemma vte_for_pos id bh k v : 0 < vte_for id bh k v -> k.2 = id /\ ve_bank_hash v = bh.
Proof using. unfold vte_for. case_bool_decide; [done|lia]. Qed.

Lemma bhms_le_vtes vtes h : binv vtes h -> (size (hf_bhms h) <= size vtes)%nat.
Proof using.
  intros HB. rewrite <- size_dom, <- length_map_to_list, <- (length_fmap (fun kv : fd_pubkey_t * fd_hash_t * vte_t => (kv.1.2, ve_bank_hash kv.2))).
  etrans; [apply subseteq_size|apply size_list_to_set_le]. intros [id bh] [b Hb]%elem_of_dom. apply elem_of_list_to_set, list_elem_of_fmap.
  destruct (bi_some _ _ HB _ _ _ Hb) as [_ Hp]. apply ksum_pos in Hp as (k & v & Hk & [<- <-]%vte_for_pos). exists (k, v). by rewrite elem_of_map_to_list.
Qed.

Lemma blks_le_bhms vtes h : binv vtes h -> hf_blk_dlist h = [] -> (size (hf_blks h) <= size (hf_bhms h))%nat.
Proof using.
  intros HB He. rewrite <- size_dom, <- length_map_to_list, <- (length_fmap (fun kv : fd_hash_t * fd_hash_t * bhm_t => kv.1.1)).
  etrans; [apply subseteq_size|apply size_list_to_set_le]. intros id [blk Hb]%elem_of_dom. apply elem_of_list_to_set, list_elem_of_fmap.
  destruct (bi_blk _ _ HB _ _ Hb) as (_ & _ & Hin). destruct (hb_bhms blk) as [|bh l] eqn:E.
  - assert (id ∈ hf_blk_dlist h) as Hd by (apply (bi_list _ _ HB); eauto). rewrite He in Hd. by apply elem_of_nil in Hd.
  - destruct (proj1 (Hin bh) ltac:(constructor)) as [b Hbh]. exists (id, bh, b). by rewrite elem_of_map_to_list.
Qed.

Lemma vtes_le_quota per vtes vtrs : vtr_inv per vtes vtrs -> Z.of_nat (size vtes) <= per * Z.of_nat (size vtrs).
Proof using.
  intros HV. apply (quota_size vtes vtrs (fun a r => (fun id => (a, id)) <$> hv_vtes r)).
  - intros [a id] Hd. destruct (vr_in _ _ _ HV a id Hd) as [r Hr]. exists a, r. split; [done|]. apply list_elem_of_fmap. exists id. split; [done|]. by apply (vr_list _ _ _ HV a r Hr).
  - intros a r Hr. rewrite length_fmap. by destruct (vr_list _ _ _ HV a r Hr) as (_ & _ & ? & _).
Qed.

(** A block has no more bank hashes than there are votes. *)
Lemma bhms_room vtes h id blk : binv vtes h -> hf_blks h !! id = Some blk -> (length (hb_bhms blk) <= size vtes)%nat.
Proof using.
  intros HB Hb. destruct (bi_blk _ _ HB _ _ Hb) as (Hnd & _ & Hin). etrans; [|apply (bhms_le_vtes vtes h HB)].
  rewrite <- (length_fmap (fun bh => (id, bh))), <- length_map_to_list, <- (length_fmap fst (map_to_list (hf_bhms h))).
  apply submseteq_length, NoDup_submseteq; [by apply (NoDup_fmap_2 _ _)|]. intros k (bh & -> & [b Hbh]%Hin)%list_elem_of_fmap.
  apply list_elem_of_fmap. exists (id, bh, b). by rewrite elem_of_map_to_list.
Qed.

(** * Taking a vote back *)

Lemma votes_stake_delete vtes a i v id bh : vtes !! (a, i) = Some v ->
  votes_stake vtes id bh = vte_for id bh (a, i) v + votes_stake (delete (a, i) vtes) id bh.
Proof using. apply ksum_delete. Qed.

Lemma stakes_ok_delete vtes k : stakes_ok vtes -> stakes_ok (delete k vtes).
Proof using. intros Hs j v [_ Hj]%lookup_delete_Some. by apply Hs. Qed.

(** The fields that taking a vote back leaves alone. *)
Definition same_voters (h h' : fd_hfork_t) : Prop :=
  hf_max h' = hf_max h /\ hf_per_vtr_max h' = hf_per_vtr_max h /\ hf_vtr_max h' = hf_vtr_max h /\
  hf_vtes h' = hf_vtes h /\ hf_vtrs h' = hf_vtrs h /\ hf_vtr_dlist h' = hf_vtr_dlist h.

Lemma hunvote_ok vtes h a id v bhm :
  binv vtes h -> stakes_ok vtes -> vtes !! (a, id) = Some v -> hf_bhms h !! (id, ve_bank_hash v) = Some bhm -> Z.of_nat (size vtes) <= UINT_MAX ->
  exists h', unvote h id (ve_bank_hash v) bhm (ve_stake v) = Ok h' /\ binv (delete (a, id) vtes) h' /\ same_voters h h' /\
    forall i, i <> id -> hf_blks h' !! i = hf_blks h !! i.
Proof using HW HW0.
  intros HB Hs Hv Hbhm Hmax. set (bh := ve_bank_hash v) in *. pose proof (bi_some _ _ HB _ _ _ Hbhm) as [Est Hpos].
  pose proof (votes_stake_delete vtes a id v id bh Hv) as Ed. unfold vte_for in Ed. rewrite bool_decide_eq_true_2 in Ed by done.
  pose proof (votes_stake_bound vtes id bh Hs) as Hb. pose proof (votes_stake_nonneg _ id bh (stakes_ok_delete vtes (a, id) Hs)) as Hn.
  pose proof (Hs _ _ Hv) as Hvs. set (S' := votes_stake (delete (a, id) vtes) id bh) in *.
  assert (bh_stake bhm -w ve_stake v = S') as Esub by (rewrite u64_sub_small; unfold is_u64, ULONG_MAX in *; lia).
  assert (forall i b, (i, b) <> (id, bh) -> votes_stake vtes i b = votes_stake (delete (a, id) vtes) i b) as Eother.
  { intros i b Hne. rewrite (votes_stake_delete vtes a id v i b Hv). unfold vte_for. rewrite bool_decide_eq_false_2; [lia|]. cbn. intros [<- <-]. by apply Hne. }
  unfold unvote. cbn [bh_stake bh_slot]. rewrite Esub. destruct (bi_in _ _ HB id bh ltac:(by rewrite Hbhm)) as [blk Hblk].
  destruct (bi_blk _ _ HB _ _ Hblk) as (Hnd & Hcnt & Hin). destruct (bi_list _ _ HB) as [Hdn Hdl]. destruct (Z.eqb_spec S' 0) as [E0|E0].
  - unfold bhm_remove. cbn [hf_set_bhms hf_set_blks hf_blks hf_bhms hf_blk_dlist hb_bhm_cnt]. rewrite Hblk, delete_insert_eq.
    assert (bh ∈ hb_bhms blk) as Hbin by (apply Hin; by rewrite Hbhm). pose proof (dlist_del_length bh _ Hnd Hbin) as Hlen.
    set (L := dlist_del bh (hb_bhms blk)) in *.
    assert (hb_bhm_cnt blk -w 1 = Z.of_nat (length L)) as -> .
    { rewrite Hcnt, u64_sub_small by (pose proof (bhms_room vtes h id blk HB Hblk); unfold is_u64, ULONG_MAX, UINT_MAX in *; lia). lia. }
    set (blk' := mk_hblk (hb_our_bank_hash blk) L (Z.of_nat (length L))). set (blks' := if _ =? 0 then _ else _).
    assert (forall i, blks' !! i = if decide (i = id) then (if decide (L = []) then None else Some blk') else hf_blks h !! i) as Hl.
    { intros i. unfold blks'. destruct (Z.eqb_spec (Z.of_nat (length L)) 0) as [El|El].
      - rewrite (decide_True (P := L = [])) by (apply length_zero_iff_nil; lia). case_decide; [subst; by rewrite lookup_delete_eq|by rewrite lookup_delete_ne].
      - rewrite (decide_False (P := L = [])) by (intros E; rewrite E in El; done). case_decide; [subst; by rewrite lookup_insert_eq|by rewrite lookup_insert_ne]. }
    eexists. split; [done|]. split; [|split; [done|intros i Hi; cbn [hf_blks hf_set_blks hf_set_bhms]; rewrite Hl; by rewrite decide_False]].
    split; cbn [hf_bhms hf_blks hf_blk_dlist hf_max hf_set_bhms hf_set_blks].
    + intros i b x [Hne Hx]%lookup_delete_Some. rewrite <- Eother by congruence. by apply (bi_some _ _ HB).
    + intros i b [[= -> ->]|Hx]%lookup_delete_None; [done|]. destruct (decide ((i, b) = (id, bh))) as [[= -> ->]|Hne]; [done|]. rewrite <- Eother by done. by apply (bi_none _ _ HB).
    + intros i x. rewrite Hl. destruct (decide (i = id)) as [->|Hi].
      * destruct (decide (L = [])) as [HL|HL]; [done|]. intros Ex. assert (x = blk') as -> by congruence. cbn [hb_bhms hb_bhm_cnt blk']. split_and!; [by apply dlist_del_nodup|done|]. intros b.
        unfold L. rewrite elem_of_dlist_del, Hin, lookup_delete_is_Some. naive_solver.
      * intros Hx. destruct (bi_blk _ _ HB _ _ Hx) as (? & ? & Hb'). split_and!; [done|done|]. intros b. rewrite Hb', lookup_delete_ne by congruence. done.
    + intros i b [Hne Hx]%lookup_delete_is_Some. rewrite Hl. destruct (decide (i = id)) as [->|Hi]; [|by apply (bi_in _ _ HB i b)].
      rewrite decide_False; [done|]. intros HL. assert (b ∈ L) as Hb' by (apply elem_of_dlist_del; split; [by apply Hin|congruence]). rewrite HL in Hb'. by apply elem_of_nil in Hb'.
    + split; [done|]. intros i. rewrite Hdl, Hl. destruct (decide (i = id)) as [->|Hi]; [|done]. split.
      * intros (x & Hx & Hx0). rewrite Hblk in Hx. injection Hx as <-. rewrite Hx0 in Hbin. by apply elem_of_nil in Hbin.
      * destruct (decide (L = [])) as [HL|HL]; [by intros (? & ? & _)|]. intros (x & Ex & Hx0). assert (x = blk') as -> by congruence. done.
    + etrans; [|apply (bi_room _ _ HB)]. apply Nat2Z.inj_le. rewrite <- !size_dom. apply subseteq_size. intros i Hi%elem_of_dom. apply elem_of_dom. rewrite Hl in Hi.
      destruct (decide (i = id)) as [->|Hd]; [by rewrite Hblk|done].
  - eexists. split; [done|]. split; [|split; done]. split; cbn [hf_bhms hf_blks hf_blk_dlist hf_max hf_set_bhms].
    + intros i b x [[[= <- <-] <-]|[Hne Hx]]%lookup_insert_Some; [cbn [bh_stake]; fold S'; lia|]. rewrite <- Eother by congruence. by apply (bi_some _ _ HB).
    + intros i b [Hx Hne]%lookup_insert_None. rewrite <- Eother by congruence. by apply (bi_none _ _ HB).
    + intros i x Hx. destruct (bi_blk _ _ HB _ _ Hx) as (? & ? & Hb'). split_and!; [done|done|]. intros b. rewrite Hb'.
      destruct (decide ((id, bh) = (i, b))) as [[= <- <-]|Hne]; [rewrite lookup_insert_eq, Hbhm; naive_solver|by rewrite lookup_insert_ne].
    + intros i b Hx. apply (bi_in _ _ HB i b). destruct (decide ((id, bh) = (i, b))) as [[= <- <-]|Hne]; [by rewrite Hbhm|by rewrite lookup_insert_ne in Hx].
    + done.
    + apply (bi_room _ _ HB).
Qed.

Lemma vtes_room h : hinv h -> Z.of_nat (size (hf_vtes h)) <= hf_max h /\ Z.of_nat (size (hf_vtes h)) <= UINT_MAX.
Proof using.
  intros [_ HV _ _ Hsz [Hp Hm]]. pose proof (vtes_le_quota _ _ _ HV). assert (hf_per_vtr_max h * Z.of_nat (size (hf_vtrs h)) <= hf_per_vtr_max h * hf_vtr_max h) by nia. lia.
Qed.

Lemma binv_set_vtes vtes h x : binv vtes h -> binv vtes (hf_set_vtes h x).
Proof using. by intros []. Qed.
Lemma binv_set_vtrs vtes h x y : binv vtes h -> binv vtes (hf_set_vtrs h x y).
Proof using. by intros []. Qed.

Lemma vte_has_bhm vtes h a id v : binv vtes h -> stakes_ok vtes -> vtes !! (a, id) = Some v -> is_Some (hf_bhms h !! (id, ve_bank_hash v)).
Proof using.
  intros HB Hs Hv. destruct (hf_bhms h !! (id, ve_bank_hash v)) as [b|] eqn:E; [done|]. apply (bi_none _ _ HB) in E.
  assert (vte_for id (ve_bank_hash v) (a, id) v <= votes_stake vtes id (ve_bank_hash v)) as Hle.
  { apply (ksum_one _ vtes (a, id) v Hv). intros k w Hk. unfold vte_for. case_bool_decide; [|done]. specialize (Hs k w Hk). lia. }
  unfold vte_for in Hle. rewrite bool_decide_eq_true_2 in Hle by done. specialize (Hs _ _ Hv). lia.
Qed.

(** ** A full quota *)

(** The votes that are left when the oldest one of a voter with a full quota is dropped. *)
Definition evicted (per : Z) (a : fd_pubkey_t) (r : hfork_vtr_t) (vtes : gmap (fd_pubkey_t * fd_hash_t) vte_t) : gmap (fd_pubkey_t * fd_hash_t) vte_t :=
  if Z.of_nat (length (hv_vtes r)) =? per then match hv_vtes r with id :: _ => delete (a, id) vtes | [] => vtes end else vtes.

Lemma vtr_inv_pop per vtes vtrs a id rest cnt :
  vtr_inv per vtes vtrs -> vtrs !! a = Some (mk_hvtr (id :: rest) cnt) ->
  vtr_inv per (delete (a, id) vtes) (<[a := mk_hvtr rest (Z.of_nat (length rest))]> vtrs).
Proof using.
  intros HV Hr. destruct (vr_list _ _ _ HV a _ Hr) as (Hnd & _ & Hle & Hin). cbn [hv_vtes] in *. apply NoDup_cons in Hnd as [Hid Hnd]. cbn [length] in Hle. split.
  - intros b x [[<- <-]|[Hne Hx]]%lookup_insert_Some; cbn [hv_vtes hv_vte_cnt].
    + split_and!; [done|done|lia|]. intros i. rewrite lookup_delete_is_Some, <- Hin, elem_of_cons. split; [|naive_solver].
      intros Hi. split; [intros [= ->]; done|by right].
    + destruct (vr_list _ _ _ HV b x Hx) as (? & ? & ? & Hb). split_and!; [done|done|done|]. intros i. rewrite Hb, lookup_delete_ne by congruence. done.
  - intros b i [_ Hi]%lookup_delete_is_Some. apply (vr_in _ _ _ HV) in Hi. destruct (decide (a = b)) as [->|Hne]; [by rewrite lookup_insert_eq|by rewrite lookup_insert_ne].
  - intros b x [[<- <-]|[Hne Hx]]%lookup_insert_Some.
    + pose proof (vr_sorted _ _ _ HV a _ Hr) as Hso. cbn [hv_vtes] in *. apply StronglySorted_inv in Hso as [Hso _]. revert Hso. apply sorted_ext.
      intros i Hi. unfold vslot. rewrite lookup_delete_ne; [done|]. intros [= ->]. done.
    + pose proof (vr_sorted _ _ _ HV b x Hx) as Hso. revert Hso. apply sorted_ext. intros i _. unfold vslot. by rewrite lookup_delete_ne by congruence.
Qed.

Lemma per_small h a r : hinv h -> hf_vtrs h !! a = Some r -> hf_per_vtr_max h <= UINT_MAX.
Proof using.
  intros [_ _ _ _ Hsz [Hp Hm]] Hr. assert (size (hf_vtrs h) <> 0%nat) by (apply map_size_non_empty_iff; intros E; by rewrite E in Hr).
  assert (1 <= hf_vtr_max h) by lia. nia.
Qed.

Definition same_limits (h h' : fd_hfork_t) : Prop :=
  hf_max h' = hf_max h /\ hf_per_vtr_max h' = hf_per_vtr_max h /\ hf_vtr_max h' = hf_vtr_max h.

Lemma evict_ok h a r : hinv h -> hf_vtrs h !! a = Some r ->
  exists h1 r1, evict_vte h a r = Ok h1 /\ hinv h1 /\ hf_vtrs h1 !! a = Some r1 /\ Z.of_nat (length (hv_vtes r1)) < hf_per_vtr_max h /\
    hf_vtes h1 = evicted (hf_per_vtr_max h) a r (hf_vtes h) /\ same_limits h h1 /\
    forall id, hf_vtes h !! (a, id) = None -> hf_blks h1 !! id = hf_blks h !! id.
Proof using HW HW0.
  intros HI Hr. pose proof (vtes_room h HI) as [_ Hroom]. pose proof (per_small h a r HI Hr) as Hper. destruct HI as [HB HV Hs Hl Hsz Hm]. destruct (vr_list _ _ _ HV a r Hr) as (Hnd & Hcnt & Hle & Hin).
  unfold evict_vte, evicted. rewrite Hcnt. destruct (Z.eqb_spec (Z.of_nat (length (hv_vtes r))) (hf_per_vtr_max h)) as [Ef|Ef]; cbn [negb].
  - destruct r as [[|id rest] cnt]; cbn [hv_vtes hv_vte_cnt length] in *; [lia|]. destruct (proj1 (Hin id) ltac:(constructor)) as [v Hv]. rewrite Hv. cbn [deref mbind outcome_bind].
    destruct (vte_has_bhm _ _ _ _ _ HB Hs Hv) as [b Hb]. cbn [hf_bhms hf_set_vtes hf_set_vtrs]. rewrite Hb. cbn [deref mbind outcome_bind].
    rewrite u64_sub_small by (unfold is_u64, ULONG_MAX, UINT_MAX in *; lia). replace (Z.of_nat (S (length rest)) - 1) with (Z.of_nat (length rest)) by lia.
    set (h0 := hf_set_vtrs _ _ _). assert (binv (hf_vtes h) h0) as HB0 by (by apply binv_set_vtrs, binv_set_vtes).
    destruct (hunvote_ok _ h0 a id v b HB0 Hs Hv Hb Hroom) as (h1 & -> & HB1 & (E1 & E2 & E3 & E4 & E5 & E6) & Hblks). exists h1, (mk_hvtr rest (Z.of_nat (length rest))).
    cbn [h0 hf_set_vtrs hf_set_vtes hf_vtes hf_vtrs hf_vtr_dlist hf_max hf_per_vtr_max hf_vtr_max] in *. split_and!; [done| |by rewrite E5, lookup_insert_eq|cbn [hv_vtes]; lia|done|done|intros i Hi; rewrite Hblks; [done|congruence]].
    split; rewrite ?E1, ?E2, ?E3, ?E4, ?E5, ?E6; [done|by apply vtr_inv_pop with cnt|by apply stakes_ok_delete| | |done].
    + split; [apply Hl|]. intros b'. rewrite (proj2 Hl). destruct (decide (a = b')) as [->|Hne]; [rewrite lookup_insert_eq, Hr; naive_solver|by rewrite lookup_insert_ne].
    + rewrite map_size_insert_Some; [done|by rewrite Hr].
  - exists h, r. split_and!; [done|by split|done|lia|done|done|done].
Qed.

(** ** A new vote *)

Definition no_blk : hfork_blk_t := mk_hblk hash_null [] 0.

(** The block that makes room has no bank hashes. *)
Lemma binv_evict_blk vtes h i rest : binv vtes h -> hf_blk_dlist h = i :: rest -> binv vtes (hf_set_blks h (delete i (hf_blks h)) rest).
Proof using.
  intros HB E. destruct (bi_list _ _ HB) as [Hnd Hin]. rewrite E in Hnd, Hin. apply NoDup_cons in Hnd as [Hi Hnd].
  destruct (proj1 (Hin i) ltac:(constructor)) as (blk & Hblk & Hnil). destruct (bi_blk _ _ HB _ _ Hblk) as (_ & _ & Hb).
  split; cbn [hf_set_blks hf_blks hf_bhms hf_blk_dlist hf_max].
  - apply (bi_some _ _ HB).
  - apply (bi_none _ _ HB).
  - intros j x [_ Hx]%lookup_delete_Some. by apply (bi_blk _ _ HB).
  - intros j bh Hj. rewrite lookup_delete_is_Some. split; [|by apply (bi_in _ _ HB j bh)]. intros ->. apply Hb in Hj. rewrite Hnil in Hj. by apply elem_of_nil in Hj.
  - split; [done|]. intros j. specialize (Hin j). rewrite elem_of_cons in Hin. setoid_rewrite lookup_delete_Some. split.
    + intros Hj. destruct (proj1 Hin (or_intror Hj)) as (x & Hx & Hx0). exists x. split_and!; [|done|done]. by intros ->.
    + intros (x & [Hne Hx] & Hx0). destruct (proj2 Hin) as [->|?]; [eauto|done|done].
  - pose proof (bi_room _ _ HB). rewrite map_size_delete_Some by (by rewrite Hblk). lia.
Qed.

Lemma upsert_blk_ok vtes h id : binv vtes h -> Z.of_nat (size vtes) < hf_max h ->
  exists h0 blk, upsert_blk h id = Ok (hf_set_blks h0 (<[id := blk]> (hf_blks h0)) (dlist_del id (hf_blk_dlist h0)), blk) /\
    binv vtes h0 /\ same_voters h h0 /\ blk = default no_blk (hf_blks h0 !! id) /\
    Z.of_nat (size (<[id := blk]> (hf_blks h0))) <= hf_max h /\ hb_our_bank_hash blk = default hash_null (hb_our_bank_hash <$> hf_blks h !! id).
Proof using.
  intros HB Hlt. pose proof (bi_room _ _ HB) as Hroom. destruct (bi_list _ _ HB) as [Hdn Hdl]. unfold upsert_blk. destruct (hf_blks h !! id) as [blk|] eqn:E.
  - exists h, blk. cbn [default from_option fmap option_fmap option_map]. rewrite insert_id, E by done. split_and!; [|done|done|done|done|done].
    f_equal. f_equal. destruct (bi_blk _ _ HB _ _ E) as (_ & -> & _). destruct (Z.eqb_spec (Z.of_nat (length (hb_bhms blk))) 0) as [E0|E0]; [done|].
    rewrite dlist_del_id; [by destruct h|]. rewrite Hdl. intros (x & Hx & Hx0). rewrite E in Hx. injection Hx as <-. by rewrite Hx0 in E0.
  - cbn [default from_option fmap option_fmap option_map]. unfold blk_insert. destruct (Z.ltb_spec (Z.of_nat (size (hf_blks h))) (hf_max h)) as [Hf|Hf].
    + cbn [deref mbind outcome_bind hf_set_blks hf_blks]. rewrite lookup_insert_eq. cbn [deref mbind outcome_bind].
      exists h, no_blk. rewrite E. split_and!; [|done|done|done| |done]; cycle 1.
      { rewrite map_size_insert_None by done. lia. }
      rewrite dlist_del_id; [done|]. rewrite Hdl. intros (x & Hx & _). congruence.
    + destruct (hf_blk_dlist h) as [|i rest] eqn:Ed.
      * pose proof (blks_le_bhms _ _ HB Ed). pose proof (bhms_le_vtes _ _ HB). lia.
      * cbn [deref mbind outcome_bind hf_set_blks hf_blks]. rewrite lookup_insert_eq. cbn [deref mbind outcome_bind].
        assert (id ∉ i :: rest) as Hnin. { rewrite Hdl. intros (x & Hx & _). congruence. }
        destruct (proj1 (Hdl i) ltac:(constructor)) as (x & Hx & _). apply not_elem_of_cons in Hnin as [Hi Hrest].
        exists (hf_set_blks h (delete i (hf_blks h)) rest), no_blk. cbn [hf_set_blks hf_blks hf_blk_dlist]. rewrite lookup_delete_ne, E by done. split_and!.
        -- by rewrite dlist_del_id.
        -- by apply binv_evict_blk.
        -- done.
        -- done.
        -- rewrite map_size_insert_None by (by rewrite lookup_delete_ne). rewrite map_size_delete_Some by (by rewrite Hx). assert (size (hf_blks h) <> 0%nat) by (apply map_size_non_empty_iff; intros E0; by rewrite E0 in Hx). lia.
        -- done.
Qed.

(** The state after a vote for a bank hash, from the state before it. *)
Lemma binv_add vtes h a id v b blk L :
  binv vtes h -> stakes_ok vtes -> vtes !! (a, id) = None -> 0 < ve_stake v -> let bh := ve_bank_hash v in
  bh_stake b = votes_stake vtes id bh + ve_stake v -> L = dlist_del bh (hb_bhms (default no_blk (hf_blks h !! id))) ++ [bh] ->
  hb_bhms blk = L -> hb_bhm_cnt blk = Z.of_nat (length L) -> Z.of_nat (size (<[id := blk]> (hf_blks h))) <= hf_max h ->
  binv (<[(a, id) := v]> vtes) (hf_set_blks (hf_set_bhms h (<[(id, bh) := b]> (hf_bhms h))) (<[id := blk]> (hf_blks h)) (dlist_del id (hf_blk_dlist h))).
Proof using.
  intros HB Hs Hnone Hpos bh Eb EL Ebl Ecnt Hroom. pose proof (votes_stake_nonneg vtes id bh Hs) as Hnn.
  assert (forall i x, votes_stake (<[(a, id) := v]> vtes) i x = (if decide ((i, x) = (id, bh)) then ve_stake v else 0) + votes_stake vtes i x) as Est.
  { intros i x. unfold votes_stake. rewrite ksum_insert by done. f_equal. unfold vte_for. cbn [snd]. case_decide as Hd.
    - injection Hd as -> ->. by rewrite bool_decide_eq_true_2.
    - rewrite bool_decide_eq_false_2; [done|]. intros [<- <-]. done. }
  assert (NoDup L /\ forall x, x ∈ L <-> is_Some (hf_bhms h !! (id, x)) \/ x = bh) as [HLn HLin].
  { assert (NoDup (hb_bhms (default no_blk (hf_blks h !! id))) /\ forall x, x ∈ hb_bhms (default no_blk (hf_blks h !! id)) <-> is_Some (hf_bhms h !! (id, x))) as [Hn0 Hi0].
    { destruct (hf_blks h !! id) as [y|] eqn:E; cbn [default]; [destruct (bi_blk _ _ HB _ _ E) as (? & _ & ?); done|]. split; [constructor|]. intros x. split; [intros Hx; by apply elem_of_nil in Hx|].
      intros Hx%(bi_in _ _ HB). rewrite E in Hx. by destruct Hx. }
    subst L. split.
    - apply NoDup_app. split_and!; [by apply dlist_del_nodup| |apply NoDup_singleton]. intros x [_ Hx]%elem_of_dlist_del. by rewrite list_elem_of_singleton.
    - intros x. rewrite elem_of_app, list_elem_of_singleton, elem_of_dlist_del, Hi0. destruct (decide (x = bh)); tauto. }
  destruct (bi_list _ _ HB) as [Hdn Hdl]. split; cbn [hf_set_blks hf_set_bhms hf_blks hf_bhms hf_blk_dlist hf_max].
  - intros i x y [[[= <- <-] <-]|[Hne Hy]]%lookup_insert_Some; rewrite Est; [rewrite decide_True by done; lia|]. rewrite decide_False by congruence. by apply (bi_some _ _ HB).
  - intros i x [Hx Hne]%lookup_insert_None. rewrite Est, decide_False by congruence. by apply (bi_none _ _ HB).
  - intros i x [[<- <-]|[Hne Hx]]%lookup_insert_Some.
    + rewrite Ebl, Ecnt. split_and!; [done|done|]. intros y. rewrite HLin. destruct (decide (y = bh)) as [->|Hy]; [rewrite lookup_insert_eq; naive_solver|rewrite lookup_insert_ne by congruence; naive_solver].
    + destruct (bi_blk _ _ HB _ _ Hx) as (? & ? & Hb'). split_and!; [done|done|]. intros y. rewrite lookup_insert_ne by congruence. apply Hb'.
  - intros i x Hx. destruct (decide (id = i)) as [->|Hne]; [by rewrite lookup_insert_eq|]. rewrite lookup_insert_ne in Hx by congruence. rewrite lookup_insert_ne by done. by apply (bi_in _ _ HB i x).
  - split; [by apply dlist_del_nodup|]. intros i. rewrite elem_of_dlist_del, Hdl. destruct (decide (id = i)) as [->|Hne].
    + rewrite lookup_insert_eq. split; [tauto|]. intros (x & [= <-] & Hx0). assert (bh ∈ L) as Hb by (rewrite EL; apply elem_of_app; right; constructor). rewrite <- Ebl, Hx0 in Hb. by apply elem_of_nil in Hb.
    + rewrite lookup_insert_ne by done. naive_solver.
  - done.
Qed.

Lemma upsert_bhm_ok vtes h a id bh slot stake blk :
  binv vtes h -> stakes_ok vtes -> vtes !! (a, id) = None -> 0 < stake -> votes_stake vtes id bh + stake <= ULONG_MAX ->
  blk = default no_blk (hf_blks h !! id) -> Z.of_nat (size vtes) < hf_max h <= UINT_MAX -> Z.of_nat (size (<[id := blk]> (hf_blks h))) <= hf_max h ->
  exists h' blk' bhm, upsert_bhm (hf_set_blks h (<[id := blk]> (hf_blks h)) (dlist_del id (hf_blk_dlist h))) id bh blk slot stake = Ok (h', blk', bhm) /\
    binv (<[(a, id) := mk_vte bh slot stake]> vtes) h' /\ same_voters h h' /\ hf_blks h' !! id = Some blk' /\ hf_bhms h' !! (id, bh) = Some bhm /\
    hb_our_bank_hash blk' = hb_our_bank_hash blk.
Proof using.
  intros HB Hs Hnone Hpos Hsum Eblk Hlt Hroom. pose proof (votes_stake_nonneg vtes id bh Hs) as Hnn.
  set (L := dlist_del bh (hb_bhms blk) ++ [bh]). set (b := mk_bhm (bh_slot (default (mk_bhm slot 0) (hf_bhms h !! (id, bh)))) (votes_stake vtes id bh + stake)).
  set (blk' := mk_hblk (hb_our_bank_hash blk) L (Z.of_nat (length L))).
  exists (hf_set_blks (hf_set_bhms h (<[(id, bh) := b]> (hf_bhms h))) (<[id := blk']> (hf_blks h)) (dlist_del id (hf_blk_dlist h))), blk', b.
  split_and!; [|apply (binv_add vtes h a id (mk_vte bh slot stake) b blk' L); try done|done|by apply lookup_insert_eq|by apply lookup_insert_eq|done]; cycle 1.
  { unfold L. by rewrite Eblk. }
  { rewrite Eblk in Hroom. destruct (hf_blks h !! id) eqn:E; [rewrite map_size_insert_Some in * by (by rewrite E); done|rewrite map_size_insert_None in * by done; done]. }
  unfold upsert_bhm. cbn [hf_set_blks hf_bhms hf_max].
  assert (NoDup (hb_bhms blk) /\ hb_bhm_cnt blk = Z.of_nat (length (hb_bhms blk)) /\ (forall x, x ∈ hb_bhms blk <-> is_Some (hf_bhms h !! (id, x))) /\
    (length (hb_bhms blk) <= size vtes)%nat) as (Hn & Hc & Hi & Hlen).
  { destruct (hf_blks h !! id) as [y|] eqn:E; cbn [default] in Eblk; subst blk.
    - destruct (bi_blk _ _ HB _ _ E) as (? & ? & ?). split_and!; [done|done|done|]. by apply (bhms_room vtes h id y).
    - split_and!; [constructor|done| |cbn; lia]. intros x. split; [intros Hx; by apply elem_of_nil in Hx|]. intros Hx%(bi_in _ _ HB). rewrite E in Hx. by destruct Hx. }
  destruct (hf_bhms h !! (id, bh)) as [b0|] eqn:Eb; cbn [default from_option] in b.
  - destruct (bi_some _ _ HB _ _ _ Eb) as [Es _]. cbn [mbind outcome_bind hf_set_bhms hf_set_blks hf_blks hf_bhms hf_blk_dlist]. rewrite Es, u64_add_small by (unfold is_u64, ULONG_MAX in *; lia). rewrite insert_insert_eq.
    assert (hb_bhm_cnt blk = Z.of_nat (length L)) as ->; [|done]. rewrite Hc. unfold L. rewrite length_app. cbn [length].
    rewrite (dlist_del_length bh (hb_bhms blk) Hn) by (apply Hi; by rewrite Eb). lia.
  - pose proof (bhms_le_vtes _ _ HB). rewrite (proj2 (Z.ltb_lt _ _)) by lia.
    cbn [mbind outcome_bind check hf_set_bhms hf_set_blks hf_blks hf_bhms hf_blk_dlist hb_our_bank_hash hb_bhms hb_bhm_cnt bh_stake bh_slot]. rewrite insert_insert_eq.
    assert (votes_stake vtes id bh = 0) as E0 by (by apply (bi_none _ _ HB)). rewrite u64_add_small by (unfold is_u64, ULONG_MAX in *; lia).
    assert (bh ∉ hb_bhms blk) as Hnb by (rewrite Hi, Eb; by intros [? ?]).
    assert (dlist_del bh (hb_bhms blk ++ [bh]) ++ [bh] = L) as ->.
    { unfold L. rewrite dlist_del_app. f_equal. unfold dlist_del at 2. rewrite filter_cons, decide_False by tauto. by rewrite filter_nil, app_nil_r. }
    rewrite Hc, u64_add_small by (unfold is_u64, ULONG_MAX, UINT_MAX in *; lia).
    assert (Z.of_nat (length (hb_bhms blk)) + 1 = Z.of_nat (length L)) as -> by (unfold L; rewrite (dlist_del_id bh _ Hnb), length_app; cbn [length]; lia).
    unfold b. by rewrite E0.
Qed.

Lemma vtr_inv_push per vtes vtrs a id v r :
  vtr_inv per vtes vtrs -> vtrs !! a = Some r -> vtes !! (a, id) = None -> Z.of_nat (length (hv_vtes r)) < per ->
  (forall i x, vtes !! (a, i) = Some x -> ve_slot x < ve_slot v) ->
  vtr_inv per (<[(a, id) := v]> vtes) (<[a := mk_hvtr (hv_vtes r ++ [id]) (Z.of_nat (length (hv_vtes r)) + 1)]> vtrs).
Proof using.
  intros HV Hr Hnone Hlt Hnew. destruct (vr_list _ _ _ HV a _ Hr) as (Hnd & _ & Hle & Hin). split.
  - intros b x [[<- <-]|[Hne Hx]]%lookup_insert_Some; cbn [hv_vtes hv_vte_cnt].
    + rewrite length_app. cbn [length]. split_and!; [|lia|lia|].
      * apply NoDup_app. split_and!; [done| |apply NoDup_singleton]. intros i Hi%Hin. rewrite list_elem_of_singleton. intros ->. rewrite Hnone in Hi. by destruct Hi.
      * intros i. rewrite elem_of_app, list_elem_of_singleton, Hin. destruct (decide (i = id)) as [->|Hi]; [rewrite lookup_insert_eq; naive_solver|rewrite lookup_insert_ne by congruence; naive_solver].
    + destruct (vr_list _ _ _ HV b x Hx) as (? & ? & ? & Hb). split_and!; [done|done|done|]. intros i. rewrite Hb, lookup_insert_ne by congruence. done.
  - intros b i Hi. destruct (decide (a = b)) as [->|Hne]; [by rewrite lookup_insert_eq|]. rewrite lookup_insert_ne in Hi by congruence. rewrite lookup_insert_ne by done. by apply (vr_in _ _ _ HV b i).
  - assert (forall b i, (b, i) <> (a, id) -> vslot (<[(a, id) := v]> vtes) b i = vslot vtes b i) as Hsame by (intros b i Hne; unfold vslot; by rewrite lookup_insert_ne).
    intros b x [[<- <-]|[Hne Hx]]%lookup_insert_Some; cbn [hv_vtes].
    + assert (forall i, i ∈ hv_vtes r -> exists x, vtes !! (a, i) = Some x) as Hsome by (by intros i [x ?]%Hin; eauto).
      assert (forall i, i ∈ hv_vtes r -> (a, i) <> (a, id)) as Hne by (intros i [x Hx]%Hsome [= ->]; congruence). apply sorted_snoc.
      * pose proof (vr_sorted _ _ _ HV a r Hr) as Hso. revert Hso. apply sorted_ext. intros i Hi. symmetry. by apply Hsame, Hne.
      * intros i Hi. destruct (Hsome i Hi) as [x Hx]. rewrite Hsame by (by apply Hne). unfold vslot. rewrite lookup_insert_eq, Hx. by apply (Hnew i).
    + pose proof (vr_sorted _ _ _ HV b x Hx) as Hso. revert Hso. apply sorted_ext. intros i _. symmetry. apply Hsame. congruence.
Qed.

(** Counting a vote of a voter with room in its quota. *)
Lemma add_ok h a r id bh slot stake :
  hinv h -> hf_vtrs h !! a = Some r -> Z.of_nat (length (hv_vtes r)) < hf_per_vtr_max h -> hf_vtes h !! (a, id) = None -> 0 < stake <= W a ->
  (forall i x, hf_vtes h !! (a, i) = Some x -> ve_slot x < slot) ->
  exists hb h1 blk bhm h2, upsert_blk h id = Ok hb /\ upsert_bhm hb.1 id bh hb.2 slot stake = Ok (h1, blk, bhm) /\ push_vte h1 a id bh slot stake = Ok h2 /\
    hinv h2 /\ hf_vtes h2 = <[(a, id) := mk_vte bh slot stake]> (hf_vtes h) /\ hf_blks h2 !! id = Some blk /\ hf_bhms h2 !! (id, bh) = Some bhm /\
    hb_our_bank_hash blk = default hash_null (hb_our_bank_hash <$> hf_blks h !! id) /\ same_limits h h2.
Proof using HW HW0.
  intros HI Hr Hlen Hnone Hst Hnew. pose proof (per_small h a r HI Hr) as Hper. destruct HI as [HB HV Hs Hl Hsz Hm]. set (v := mk_vte bh slot stake).
  pose proof (vtr_inv_push _ _ _ a id v r HV Hr Hnone Hlen Hnew) as HV'. pose proof (vtes_le_quota _ _ _ HV') as Hq.
  rewrite map_size_insert_None in Hq by done. rewrite map_size_insert_Some in Hq by (by rewrite Hr).
  assert (Z.of_nat (size (hf_vtes h)) < hf_max h) as Hlt by nia.
  assert (stakes_ok (<[(a, id) := v]> (hf_vtes h))) as Hs'. { intros k x [[<- <-]|[_ Hk]]%lookup_insert_Some; [done|by apply Hs]. }
  destruct (upsert_blk_ok _ h id HB Hlt) as (h0 & blk0 & E0 & HB0 & (S1 & S2 & S3 & S4 & S5 & S6) & Eblk & Hroom & Hour).
  destruct (upsert_bhm_ok (hf_vtes h) h0 a id bh slot stake blk0 HB0 Hs Hnone) as (h1 & blk & bhm & E1 & HB1 & (T1 & T2 & T3 & T4 & T5 & T6) & Hblk & Hbhm & Ho);
    [lia| |done|rewrite S1; lia|rewrite S1; done|].
  { pose proof (votes_stake_bound _ id bh Hs') as Hb. unfold votes_stake in Hb. rewrite ksum_insert in Hb by done. unfold vte_for in Hb at 1. rewrite bool_decide_eq_true_2 in Hb by done. cbn [ve_stake v] in Hb. unfold votes_stake. lia. }
  destruct (vr_list _ _ _ HV a _ Hr) as (_ & Hc & _).
  exists (hf_set_blks h0 (<[id := blk0]> (hf_blks h0)) (dlist_del id (hf_blk_dlist h0)), blk0), h1, blk, bhm,
    (hf_set_vtrs (hf_set_vtes h1 (<[(a, id) := v]> (hf_vtes h1))) (<[a := mk_hvtr (hv_vtes r ++ [id]) (hv_vte_cnt r +w 1)]> (hf_vtrs h1)) (hf_vtr_dlist h1)).
  split_and!; [done|done| | |cbn [hf_set_vtrs hf_set_vtes hf_vtes]; by rewrite T4, S4|done|done|by rewrite Ho|].
  - unfold push_vte. rewrite T1, T4, T5, S1, S4, S5, Hr, (proj2 (Z.ltb_lt _ _)) by lia. cbn [check mbind outcome_bind deref hf_set_vtes hf_vtrs]. by rewrite T5, S5.
  - cbn [hf_set_vtrs hf_set_vtes hf_vtes hf_vtrs]. rewrite T4, T5, S4, S5, Hc, u64_add_small by (unfold is_u64, ULONG_MAX, UINT_MAX in *; lia).
    split; cbn [hf_set_vtrs hf_set_vtes hf_vtes hf_vtrs hf_vtr_dlist hf_max hf_per_vtr_max hf_vtr_max]; rewrite ?T1, ?T2, ?T3, ?T6, ?S1, ?S2, ?S3, ?S6; [by apply binv_set_vtrs, binv_set_vtes|done|done| | |done].
    + split; [apply Hl|]. intros b'. rewrite (proj2 Hl). destruct (decide (a = b')) as [->|Hne]; [rewrite lookup_insert_eq, Hr; naive_solver|by rewrite lookup_insert_ne].
    + rewrite map_size_insert_Some; [done|by rewrite Hr].
  - cbn. unfold same_limits. cbn. rewrite ?T1, ?T2, ?T3, ?S1, ?S2, ?S3. done.
Qed.
End Inv.
