(* ===== verification/HforkProps.v ===== *)
(** The hard fork detector: every operation returns and keeps the invariant, and
    the verdict on a vote is the one of the exact stake behind its bank hash. *)
From S2P Require Import Prelude VotorBase Ghost Tower Voters Hfork HforkInv.

(** * Limits *)

Lemma lor_lt n a b : 0 <= n -> 0 <= a < 2 ^ n -> 0 <= b < 2 ^ n -> a <= Z.lor a b < 2 ^ n.
Proof.
  intros Hn Ha Hb. split.
  - rewrite <- (Z.add_0_r a) at 1. pose proof (Z.lor_nonneg a b). assert (Z.lor a b = a + Z.ldiff b a) as ->.
    { rewrite Z.add_nocarry_lxor.
      - apply Z.bits_inj'. intros k Hk. rewrite Z.lxor_spec, Z.lor_spec, Z.ldiff_spec. by destruct (Z.testbit a k), (Z.testbit b k).
      - apply Z.bits_inj'. intros k Hk. rewrite Z.land_spec, Z.ldiff_spec, Z.bits_0. by destruct (Z.testbit a k), (Z.testbit b k). }
    assert (0 <= Z.ldiff b a) by (apply Z.ldiff_nonneg; lia). lia.
  - assert (0 <= Z.lor a b) by (apply Z.lor_nonneg; lia). destruct (Z.eq_dec (Z.lor a b) 0) as [->|Hne]; [lia|].
    apply Z.log2_lt_pow2; [lia|]. rewrite Z.log2_lor by lia. destruct (Z.eq_dec n 0) as [->|Hn0]; [assert (a = 0) as -> by lia; assert (b = 0) as -> by lia; done|].
    apply Z.max_lub_lt; (destruct (Z.eq_dec a 0) as [->|]; destruct (Z.eq_dec b 0) as [->|]; cbn; try lia; apply Z.log2_lt_pow2; lia).
Qed.

Lemma smear_lt a k : 0 <= k -> 0 <= a < 2 ^ 64 -> a <= Z.lor a (Z.shiftr a k) < 2 ^ 64.
Proof.
  intros Hk Ha. apply lor_lt; [lia|done|]. rewrite Z.shiftr_div_pow2 by done. split; [apply Z.div_pos; lia|].
  apply Z.le_lt_trans with a; [|lia]. apply Z.div_le_upper_bound; [lia|]. assert (1 <= 2 ^ k) by lia. nia.
Qed.

(** Rounding up to a power of two does not go below the argument unless it wraps. *)
Lemma pow2_up_ge x : is_u64 x -> fd_ulong_pow2_up x <> 0 -> x <= fd_ulong_pow2_up x.
Proof.
  intros Hx. unfold fd_ulong_pow2_up. pose proof (u64_range (x - 1)) as Hr. fold (u64_sub x 1) in Hr. set (x0 := x -w 1) in *.
  unfold is_u64, ULONG_MAX in *. assert (0 <= x0 < 2 ^ 64) as H0 by lia.
  pose proof (smear_lt x0 1 ltac:(lia) H0) as H1. set (x1 := Z.lor x0 (Z.shiftr x0 1)) in *. pose proof (smear_lt x1 2 ltac:(lia) ltac:(lia)) as H2. set (x2 := Z.lor x1 (Z.shiftr x1 2)) in *.
  pose proof (smear_lt x2 4 ltac:(lia) ltac:(lia)) as H3. set (x3 := Z.lor x2 (Z.shiftr x2 4)) in *. pose proof (smear_lt x3 8 ltac:(lia) ltac:(lia)) as H4. set (x4 := Z.lor x3 (Z.shiftr x3 8)) in *.
  pose proof (smear_lt x4 16 ltac:(lia) ltac:(lia)) as H5. set (x5 := Z.lor x4 (Z.shiftr x4 16)) in *. pose proof (smear_lt x5 32 ltac:(lia) ltac:(lia)) as H6. set (x6 := Z.lor x5 (Z.shiftr x5 32)) in *.
  destruct (Z.eq_dec x6 (2 ^ 64 - 1)) as [E|E]; [unfold u64_add; rewrite E; by intros []|]. rewrite u64_add_small by (unfold is_u64, ULONG_MAX; lia).
  intros _. destruct (Z.eq_dec x 0) as [->|Hne]; [lia|]. unfold x0 in *. rewrite u64_sub_small in H1 by (unfold is_u64, ULONG_MAX; lia). lia.
Qed.

Lemma hfork_max_ge per vtr : is_u64 per -> hfork_max per vtr <> 0 -> 0 < per /\ per * fd_ulong_pow2_up vtr <= hfork_max per vtr <= UINT_MAX.
Proof.
  intros Hp. unfold hfork_max. set (v := fd_ulong_pow2_up vtr). destruct (Z.eqb_spec per 0); [done|]. destruct (Z.eqb_spec v 0); [done|].
  destruct (Z.ltb_spec UINT_MAX v) as [|Hv]; [done|]. assert (is_u64 v) as Hv0 by apply u64_range. cbn [orb].
  destruct (Z.ltb_spec (UINT_MAX / v) per) as [|Hpv]; [done|]. assert (per * v <= UINT_MAX) as Hmul.
  { unfold is_u64 in *. transitivity (UINT_MAX / v * v); [nia|]. rewrite Z.mul_comm. apply Z.mul_div_le. lia. }
  assert (is_u64 (per * v)) as Hm by (unfold is_u64, UINT_MAX, ULONG_MAX in *; nia). assert (per *w v = per * v) as -> by (by apply u64_small).
  pose proof (pow2_up_ge _ Hm) as Hge. destruct (Z.eqb_spec (fd_ulong_pow2_up (per * v)) 0); [done|]. destruct (Z.ltb_spec UINT_MAX (fd_ulong_pow2_up (per * v))); [done|].
  cbn [orb]. intros _. unfold is_u64 in *. split; [lia|]. split; [by apply Hge|done].
Qed.

Section Ops.
Context (W : fd_pubkey_t -> Z) (HW : forall l, NoDup l -> lsum W l <= ULONG_MAX) (HW0 : forall a, 0 <= W a).

Lemma new_hinv shmem per vtr h : is_u64 per -> fd_hfork_new shmem per vtr = Some h -> hinv W h.
Proof using.
  intros Hp. unfold fd_hfork_new. destruct (Z.eqb_spec shmem 0); [done|]. destruct (negb _); [done|]. destruct (Z.eqb_spec (hfork_max per vtr) 0) as [|Hm]; [done|].
  intros [= <-]. destruct (hfork_max_ge per vtr Hp Hm) as [Hp0 Hle]. assert (0 <= hf_max (mk_hfork (hfork_max per vtr) per (fd_ulong_pow2_up vtr) ∅ ∅ [] ∅ ∅ [])) as Hmax.
  { cbn. assert (is_u64 (fd_ulong_pow2_up vtr)) as [? _] by apply u64_range. nia. }
  split; [split|split| | | |]; cbn in *; try done.
  - intros id bh. rewrite lookup_empty. by intros [? ?].
  - split; [constructor|]. intros id. rewrite elem_of_nil. split; [done|]. intros (? & E & _). by rewrite lookup_empty in E.
  - intros a id. rewrite lookup_empty. by intros [? ?].
  - split; [constructor|]. intros a. rewrite lookup_empty, elem_of_nil. split; [done|by intros [? ?]].
  - apply u64_range.
Qed.

(** * Counting a vote *)

(** Our bank hash of a block, null if the block is not known or not replayed. *)
Definition our_hash (h : fd_hfork_t) (id : fd_hash_t) : fd_hash_t := default hash_null (hb_our_bank_hash <$> hf_blks h !! id).

(** The verdict on a bank hash with the given stake. *)
Definition verdict (our bank_hash : fd_hash_t) (stake total_stake : Z) : hfork_code :=
  if bool_decide (our = hash_null) || below_52 stake total_stake then FD_HFORK_SUCCESS
  else if bool_decide (our = bank_hash) then FD_HFORK_SUCCESS_MATCHED else FD_HFORK_ERR_MISMATCHED.

Lemma compare_verdict blk bh b total : compare blk bh b total = verdict (hb_our_bank_hash blk) bh (bh_stake b) total.
Proof using. unfold compare, verdict. destruct (bool_decide (_ = hash_null)), (below_52 _ _), (bool_decide (_ = bh)); done. Qed.

(** Why a vote is not counted. *)
Inductive refused (h : fd_hfork_t) (a : fd_pubkey_t) (id : fd_hash_t) (slot stake : Z) : hfork_code -> Prop :=
| refused_unknown : hf_vtrs h !! a = None -> refused h a id slot stake FD_HFORK_ERR_UNKNOWN_VTR
| refused_voted : is_Some (hf_vtrs h !! a) -> is_Some (hf_vtes h !! (a, id)) -> refused h a id slot stake FD_HFORK_ERR_ALREADY_VOTED
| refused_old i v : is_Some (hf_vtrs h !! a) -> hf_vtes h !! (a, id) = None -> hf_vtes h !! (a, i) = Some v -> slot <= ve_slot v ->
    refused h a id slot stake FD_HFORK_ERR_VOTE_TOO_OLD
| refused_stake : is_Some (hf_vtrs h !! a) -> hf_vtes h !! (a, id) = None -> (forall i v, hf_vtes h !! (a, i) = Some v -> ve_slot v < slot) -> stake = 0 ->
    refused h a id slot stake FD_HFORK_SUCCESS.

Lemma sorted_last {A} (f : A -> Z) l y x : StronglySorted (fun i j => f i < f j) l -> last l = Some y -> x ∈ l -> f x <= f y.
Proof using.
  induction 1 as [|z l Hs IH Hz]; [done|]. intros Hl Hx. destruct l as [|w l].
  - injection Hl as ->. apply list_elem_of_singleton in Hx as ->. done.
  - rewrite last_cons_cons in Hl. apply elem_of_cons in Hx as [->|Hx]; [|by apply IH]. apply last_Some in Hl as [l' El].
    rewrite Forall_forall in Hz. apply Z.lt_le_incl, Hz. rewrite El. apply elem_of_app. right. constructor.
Qed.

(** The vote at the tail is the one for the highest slot. *)
Lemma last_slot_ok h a r : hinv W h -> hf_vtrs h !! a = Some r ->
  if hv_vte_cnt r =? 0 then forall i, hf_vtes h !! (a, i) = None
  else exists i v, last_vte_slot h a r = Ok (ve_slot v) /\ hf_vtes h !! (a, i) = Some v /\ forall j w, hf_vtes h !! (a, j) = Some w -> ve_slot w <= ve_slot v.
Proof using.
  intros [_ HV _ _ _ _] Hr. destruct (vr_list _ _ _ HV a r Hr) as (_ & -> & _ & Hin). pose proof (vr_sorted _ _ _ HV a r Hr) as Hs.
  destruct (Z.eqb_spec (Z.of_nat (length (hv_vtes r))) 0) as [E|E].
  - intros i. destruct (hf_vtes h !! (a, i)) as [v|] eqn:Ev; [|done]. assert (i ∈ hv_vtes r) as Hi by (apply Hin; by rewrite Ev).
    destruct (hv_vtes r); [by apply elem_of_nil in Hi|done].
  - unfold last_vte_slot. destruct (last (hv_vtes r)) as [i|] eqn:El; [|apply last_None in El; by rewrite El in E]. cbn [deref mbind outcome_bind].
    assert (i ∈ hv_vtes r) as Hi by (apply last_Some in El as [l' ->]; apply elem_of_app; right; constructor). destruct (proj1 (Hin i) Hi) as [v Hv]. rewrite Hv.
    exists i, v. split_and!; [done|done|]. intros j w Hw. assert (j ∈ hv_vtes r) as Hj by (apply Hin; by rewrite Hw).
    pose proof (sorted_last _ _ _ _ Hs El Hj) as Hle. unfold vslot in Hle. by rewrite Hv, Hw in Hle.
Qed.

Lemma count_ok h a id bh slot stake total : hinv W h -> 0 <= stake <= W a ->
  exists h' code, fd_hfork_count_vote h a id bh slot stake total = Ok (h', code) /\ hinv W h' /\ same_limits h h' /\
    (h' = h /\ refused h a id slot stake code \/
     exists r, hf_vtrs h !! a = Some r /\ hf_vtes h !! (a, id) = None /\ (forall i v, hf_vtes h !! (a, i) = Some v -> ve_slot v < slot) /\ 0 < stake /\
       hf_vtes h' = <[(a, id) := mk_vte bh slot stake]> (evicted (hf_per_vtr_max h) a r (hf_vtes h)) /\ our_hash h' id = our_hash h id /\
       code = verdict (our_hash h id) bh (votes_stake (hf_vtes h') id bh) total).
Proof using HW HW0.
  intros HI Hst. unfold fd_hfork_count_vote. destruct (hf_vtrs h !! a) as [r|] eqn:Er; [|exists h, FD_HFORK_ERR_UNKNOWN_VTR; split_and!; try done; left; split; [done|by constructor]].
  destruct (hf_vtes h !! (a, id)) as [v0|] eqn:Ev; [exists h, FD_HFORK_ERR_ALREADY_VOTED; split_and!; try done; left; split; [done|constructor; by eexists]|].
  pose proof (last_slot_ok h a r HI Er) as Hlast.
  assert (exists b : bool, (if hv_vte_cnt r =? 0 then Ok false else s ← last_vte_slot h a r; Ok (slot <=? s)) = Ok b /\
    if b then exists i v, hf_vtes h !! (a, i) = Some v /\ slot <= ve_slot v else forall i v, hf_vtes h !! (a, i) = Some v -> ve_slot v < slot) as (b & -> & Hb).
  { destruct (hv_vte_cnt r =? 0); [exists false; split; [done|]; intros i v Hi; by rewrite Hlast in Hi|]. destruct Hlast as (i & v & -> & Hv & Hmax).
    cbn [mbind outcome_bind]. eexists. split; [done|]. destruct (Z.leb_spec slot (ve_slot v)); [by eauto|]. intros j w Hw. specialize (Hmax j w Hw). lia. }
  cbn [mbind outcome_bind]. destruct b; [destruct Hb as (i & v & Hv & Hle); exists h, FD_HFORK_ERR_VOTE_TOO_OLD; split_and!; try done; left; split; [done|by eapply refused_old; eauto]|].
  destruct (Z.eqb_spec stake 0) as [->|Hpos]; [exists h, FD_HFORK_SUCCESS; split_and!; try done; left; split; [done|by apply refused_stake; eauto]|].
  destruct (evict_ok W HW HW0 h a r HI Er) as (h1 & r1 & -> & HI1 & Er1 & Hlen & Evt & (L1 & L2 & L3) & Hblks). cbn [mbind outcome_bind].
  assert (forall k x, hf_vtes h1 !! k = Some x -> hf_vtes h !! k = Some x) as Hsub.
  { intros k x. rewrite Evt. unfold evicted. destruct (Z.of_nat (length (hv_vtes r)) =? hf_per_vtr_max h); [|tauto]. destruct (hv_vtes r); [tauto|]. by intros [_ ?]%lookup_delete_Some. }
  assert (hf_vtes h1 !! (a, id) = None) as Hn1 by (destruct (hf_vtes h1 !! (a, id)) eqn:E1; [apply Hsub in E1; congruence|done]).
  destruct (add_ok W HW HW0 h1 a r1 id bh slot stake HI1 Er1) as (hb & h2 & blk & bhm & h3 & -> & E2 & E3 & HI3 & Evt3 & Hblk & Hbhm & Hour & (M1 & M2 & M3)); [by rewrite L2|done|lia|eauto|].
  cbn [mbind outcome_bind]. rewrite E2. cbn [mbind outcome_bind fst snd]. rewrite E3. cbn [mbind outcome_bind].
  exists h3, (compare blk bh bhm total). split_and!; [done|done|unfold same_limits; by rewrite M1, M2, M3, L1, L2, L3|]. right. exists r.
  assert (our_hash h3 id = our_hash h id) as Ho by (unfold our_hash; rewrite Hblk; cbn; rewrite Hour, (Hblks id) by done; done).
  split_and!; [done|done|done|lia|by rewrite Evt3, Evt|done|]. rewrite compare_verdict. destruct (bi_some _ _ (hi_b _ _ HI3) _ _ _ Hbhm) as [<- _]. f_equal. rewrite <- Ho. unfold our_hash. by rewrite Hblk.
Qed.

(** * Recording our bank hash *)

(** Our bank hash plays no part in the invariant. *)
Lemma binv_our vtes h id blk x : binv vtes h -> hf_blks h !! id = Some blk ->
  binv vtes (hf_set_blks h (<[id := mk_hblk x (hb_bhms blk) (hb_bhm_cnt blk)]> (hf_blks h)) (hf_blk_dlist h)).
Proof using.
  intros HB Hb. destruct (bi_list _ _ HB) as [Hdn Hdl]. split; cbn [hf_set_blks hf_blks hf_bhms hf_blk_dlist hf_max].
  - apply (bi_some _ _ HB).
  - apply (bi_none _ _ HB).
  - intros i y [[<- <-]|[_ Hy]]%lookup_insert_Some; [apply (bi_blk _ _ HB _ _ Hb)|apply (bi_blk _ _ HB _ _ Hy)].
  - intros i bh Hi%(bi_in _ _ HB). destruct (decide (id = i)) as [->|]; [by rewrite lookup_insert_eq|by rewrite lookup_insert_ne].
  - split; [done|]. intros i. rewrite Hdl. destruct (decide (id = i)) as [->|]; [rewrite lookup_insert_eq, Hb; naive_solver|by rewrite lookup_insert_ne].
  - rewrite map_size_insert_Some by (by rewrite Hb). apply (bi_room _ _ HB).
Qed.

Lemma binv_new_blk vtes h id : binv vtes h -> hf_blks h !! id = None -> Z.of_nat (size (hf_blks h)) < hf_max h ->
  binv vtes (hf_set_blks h (<[id := no_blk]> (hf_blks h)) (hf_blk_dlist h ++ [id])).
Proof using.
  intros HB Hn Hlt. destruct (bi_list _ _ HB) as [Hdn Hdl]. split; cbn [hf_set_blks hf_blks hf_bhms hf_blk_dlist hf_max].
  - apply (bi_some _ _ HB).
  - apply (bi_none _ _ HB).
  - intros i y [[<- <-]|[_ Hy]]%lookup_insert_Some; [|apply (bi_blk _ _ HB _ _ Hy)]. split_and!; [constructor|done|]. intros bh. cbn. rewrite elem_of_nil. split; [done|].
    intros Hb%(bi_in _ _ HB). rewrite Hn in Hb. by destruct Hb.
  - intros i bh Hi%(bi_in _ _ HB). destruct (decide (id = i)) as [->|]; [by rewrite lookup_insert_eq|by rewrite lookup_insert_ne].
  - assert (id ∉ hf_blk_dlist h) as Hnin by (rewrite Hdl; intros (? & ? & _); congruence). split.
    + apply NoDup_app. split_and!; [done| |apply NoDup_singleton]. intros i Hi. rewrite list_elem_of_singleton. by intros ->.
    + intros i. rewrite elem_of_app, list_elem_of_singleton, Hdl. destruct (decide (id = i)) as [->|]; [rewrite lookup_insert_eq; naive_solver|rewrite lookup_insert_ne by done; naive_solver].
  - rewrite map_size_insert_None by done. lia.
Qed.

Lemma compare_all_ok h id blk total l : (forall bh, bh ∈ l -> is_Some (hf_bhms h !! (id, bh))) ->
  exists code, compare_all h id blk total l = Ok code /\
    ((code = FD_HFORK_SUCCESS /\ forall bh b, bh ∈ l -> hf_bhms h !! (id, bh) = Some b -> compare blk bh b total = FD_HFORK_SUCCESS) \/
     (code <> FD_HFORK_SUCCESS /\ exists bh b, bh ∈ l /\ hf_bhms h !! (id, bh) = Some b /\ compare blk bh b total = code)).
Proof using.
  induction l as [|bh l IH]; intros Hin.
  - exists FD_HFORK_SUCCESS. split; [done|]. left. split; [done|]. intros bh b Hb. by apply elem_of_nil in Hb.
  - cbn [compare_all]. destruct (Hin bh ltac:(constructor)) as [b Hb]. rewrite Hb. cbn [deref mbind outcome_bind].
    destruct (decide (compare blk bh b total = FD_HFORK_SUCCESS)) as [E|E].
    + destruct IH as (code & Ec & Hc); [intros x Hx; apply Hin; by constructor|]. exists code. rewrite E. split; [done|]. destruct Hc as [[-> Hall]|(Hne & x & y & Hx & Hy & Hxy)].
      * left. split; [done|]. intros x y [->|Hx]%elem_of_cons Hy; [congruence|by apply (Hall x)].
      * right. split; [done|]. exists x, y. split_and!; [by constructor|done|done].
    + exists (compare blk bh b total). split; [by destruct (compare blk bh b total)|]. right. split; [done|]. exists bh, b. split_and!; [constructor|done|done].
Qed.

Lemma hinv_blks h blks dl : hinv W h -> binv (hf_vtes h) (hf_set_blks h blks dl) -> hinv W (hf_set_blks h blks dl).
Proof using. by intros [] ?; split. Qed.

Lemma record_blk_ok h id : hinv W h ->
  match (match hf_blks h !! id with
         | Some _ => Some h
         | None => h ← blk_insert h id; Some (hf_set_blks h (hf_blks h) (hf_blk_dlist h ++ [id]))
         end) with
  | Some h1 => hinv W h1 /\ is_Some (hf_blks h1 !! id) /\ hf_vtes h1 = hf_vtes h /\ same_limits h h1
  | None => True
  end.
Proof using.
  intros HI. destruct (hf_blks h !! id) as [blk|] eqn:E; [split_and!; [done|by rewrite E|done|done]|]. pose proof (hi_b _ _ HI) as HB. unfold blk_insert.
  destruct (Z.ltb_spec (Z.of_nat (size (hf_blks h))) (hf_max h)) as [Hlt|Hge].
  - cbn. split_and!; [|by rewrite lookup_insert_eq|done|done]. exact (hinv_blks h _ _ HI (binv_new_blk _ h id HB E Hlt)).
  - destruct (hf_blk_dlist h) as [|i rest] eqn:Ed; [done|]. cbn. split_and!; [|by rewrite lookup_insert_eq|done|done].
    pose proof (binv_evict_blk _ _ i rest HB Ed) as HB1. destruct (proj1 (proj2 (bi_list _ _ HB) i)) as (x & Hx & _); [rewrite Ed; constructor|].
    apply (binv_new_blk _ _ id) in HB1; cbn [hf_set_blks hf_blks hf_max] in *.
    + by apply (hinv_blks h).
    + by rewrite lookup_delete_None; right.
    + pose proof (bi_room _ _ HB). rewrite map_size_delete_Some by (by rewrite Hx). assert (size (hf_blks h) <> 0%nat) by (apply map_size_non_empty_iff; intros E0; by rewrite E0 in Hx). lia.
Qed.

(** The verdict on our own bank hash: that of a bank hash with votes, if one is decided. *)
Lemma record_ok h id bh total : hinv W h ->
  exists h' code, fd_hfork_record_our_bank_hash h id bh total = Ok (h', code) /\ hinv W h' /\ same_limits h h' /\ hf_vtes h' = hf_vtes h /\
    (h' = h /\ code = FD_HFORK_SUCCESS \/
     our_hash h' id = default hash_invalid bh /\
     (code = FD_HFORK_SUCCESS /\ (forall x, 0 < votes_stake (hf_vtes h) id x -> verdict (default hash_invalid bh) x (votes_stake (hf_vtes h) id x) total = FD_HFORK_SUCCESS) \/
      code <> FD_HFORK_SUCCESS /\ exists x, code = verdict (default hash_invalid bh) x (votes_stake (hf_vtes h) id x) total)).
Proof using.
  intros HI. unfold fd_hfork_record_our_bank_hash. pose proof (record_blk_ok h id HI) as Hrec. destruct (match hf_blks h !! id with Some _ => _ | None => _ end) as [h1|].
  - destruct Hrec as (HI1 & [blk Hblk] & Evt & Hlim). rewrite Hblk. cbn [deref mbind outcome_bind]. set (h2 := hf_set_blks _ _ _). set (blk2 := mk_hblk _ _ _).
    assert (hinv W h2) as HI2 by (apply hinv_blks, binv_our; [done|apply HI1|done]). destruct (bi_blk _ _ (hi_b _ _ HI1) _ _ Hblk) as (_ & _ & Hin).
    destruct (compare_all_ok h2 id blk2 total (hb_bhms blk)) as (code & Ec & Hc); [by intros x Hx%Hin|]. cbn [hb_bhms]. change (hb_bhms blk2) with (hb_bhms blk). rewrite Ec. cbn [mbind outcome_bind].
    assert (hf_vtes h2 = hf_vtes h) as Evt2 by done. pose proof (hi_b _ _ HI2) as HB2. rewrite Evt2 in HB2.
    exists h2, code. split_and!; [done|done|done|done|]. right. split; [unfold our_hash; cbn; by rewrite lookup_insert_eq|]. destruct Hc as [[-> Hall]|(Hne & x & b & Hx & Hb & <-)].
    + left. split; [done|]. intros x Hpos. destruct (hf_bhms h2 !! (id, x)) as [b|] eqn:Eb; [|apply (bi_none _ _ HB2) in Eb; lia].
      destruct (bi_some _ _ HB2 _ _ _ Eb) as [Es _]. rewrite <- Es. specialize (Hall x b). rewrite compare_verdict in Hall. apply Hall; [|done]. apply Hin. by exists b.
    + right. split; [done|]. exists x. rewrite compare_verdict. by destruct (bi_some _ _ HB2 _ _ _ Hb) as [-> _].
  - exists h, FD_HFORK_SUCCESS. split_and!; try done. by left.
Qed.

(** * A new set of voters *)

(** What holds while voters are released: the invariant without the list of voters. *)
Record hcore (h : fd_hfork_t) : Prop := {
  hc_b : binv (hf_vtes h) h;
  hc_v : vtr_inv (hf_per_vtr_max h) (hf_vtes h) (hf_vtrs h);
  hc_stake : stakes_ok W (hf_vtes h);
  hc_room : Z.of_nat (size (hf_vtes h)) <= UINT_MAX
}.

Lemma hinv_core h : hinv W h -> hcore h.
Proof using. intros HI. pose proof (vtes_room W h HI) as [_ Hr]. by destruct HI. Qed.

Definition drop_votes (a : fd_pubkey_t) (l : list fd_hash_t) (vtes : gmap (fd_pubkey_t * fd_hash_t) vte_t) : gmap (fd_pubkey_t * fd_hash_t) vte_t :=
  foldl (fun m id => delete (a, id) m) vtes l.

Lemma drop_votes_lookup a l vtes k : drop_votes a l vtes !! k = if decide (k.1 = a /\ k.2 ∈ l) then None else vtes !! k.
Proof using.
  revert vtes. induction l as [|id l IH]; intros vtes; cbn [drop_votes foldl].
  - rewrite decide_False; [done|]. intros [_ Hk]. by apply elem_of_nil in Hk.
  - fold (drop_votes a l (delete (a, id) vtes)). rewrite IH. destruct k as [b i]. cbn [fst snd]. destruct (decide (b = a /\ i ∈ l)) as [H1|H1].
    + rewrite decide_True; [done|]. rewrite elem_of_cons. tauto.
    + destruct (decide ((a, id) = (b, i))) as [[= -> ->]|Hne]; [rewrite lookup_delete_eq, decide_True by (split; [done|constructor]); done|].
      rewrite lookup_delete_ne by done. rewrite decide_False; [done|]. intros [-> [->|Hi]%elem_of_cons]; [done|tauto].
Qed.

Lemma release_votes_ok a l h : binv (hf_vtes h) h -> stakes_ok W (hf_vtes h) -> Z.of_nat (size (hf_vtes h)) <= UINT_MAX -> NoDup l ->
  (forall id, id ∈ l -> is_Some (hf_vtes h !! (a, id))) ->
  exists h', ofold (release_vte a) h l = Ok h' /\ binv (hf_vtes h') h' /\ hf_vtes h' = drop_votes a l (hf_vtes h) /\ hf_vtrs h' = hf_vtrs h /\
    same_limits h h' /\ hf_vtr_dlist h' = hf_vtr_dlist h.
Proof using HW HW0.
  intros HB Hs Hr Hnd. revert h HB Hs Hr. induction Hnd as [|id l Hid _ IH]; intros h HB Hs Hr Hin; [exists h; by split_and!|].
  cbn [ofold]. destruct (Hin id ltac:(constructor)) as [v Hv]. destruct (vte_has_bhm W _ _ _ _ _ HB Hs Hv) as [b Hb].
  assert (exists h1, release_vte a h id = Ok h1 /\ binv (hf_vtes h1) h1 /\ hf_vtes h1 = delete (a, id) (hf_vtes h) /\ hf_vtrs h1 = hf_vtrs h /\ same_limits h h1 /\ hf_vtr_dlist h1 = hf_vtr_dlist h)
    as (h1 & E1 & HB1 & V1 & R1 & (L1 & L2 & L3) & D1).
  { unfold release_vte. rewrite Hv. cbn [deref mbind outcome_bind hf_set_vtes hf_bhms]. rewrite Hb.
    destruct (hunvote_ok W HW HW0 (hf_vtes h) (hf_set_vtes h (delete (a, id) (hf_vtes h))) a id v b) as (h1 & E & HB1 & (S1 & S2 & S3 & S4 & S5 & S6) & _); [by apply binv_set_vtes|done|done|done|done|].
    cbn [hf_set_vtes hf_vtes hf_vtrs hf_vtr_dlist hf_max hf_per_vtr_max hf_vtr_max] in *. exists h1. split_and!; [done|by rewrite S4|done|done|done|done]. }
  rewrite E1. cbn [mbind outcome_bind]. destruct (IH h1) as (h2 & E2 & HB2 & V2 & R2 & (M1 & M2 & M3) & D2).
  - done.
  - rewrite V1. by apply stakes_ok_delete.
  - rewrite V1. etrans; [|exact Hr]. rewrite map_size_delete_Some by (by rewrite Hv). lia.
  - intros i Hi. rewrite V1, lookup_delete_ne by (intros [= ->]; done). apply Hin. by constructor.
  - exists h2. split_and!; [done|done|by rewrite V2, V1|by rewrite R2|unfold same_limits; by rewrite M1, M2, M3, L1, L2, L3|by rewrite D2].
Qed.

(** The votes of all voters but one. *)
Lemma vtr_inv_remove per vtes vtrs a r : vtr_inv per vtes vtrs -> vtrs !! a = Some r -> vtr_inv per (drop_votes a (hv_vtes r) vtes) (delete a vtrs).
Proof using.
  intros HV Hr. destruct (vr_list _ _ _ HV a r Hr) as (_ & _ & _ & Hin).
  assert (forall b i, b <> a -> drop_votes a (hv_vtes r) vtes !! (b, i) = vtes !! (b, i)) as Hne by (intros b i Hb; rewrite drop_votes_lookup, decide_False; [done|]; cbn; tauto).
  split.
  - intros b x [Hb Hx]%lookup_delete_Some. destruct (vr_list _ _ _ HV b x Hx) as (? & ? & ? & Hbi). split_and!; [done|done|done|]. intros i. rewrite Hne by done. apply Hbi.
  - intros b i Hi. destruct (decide (b = a)) as [->|Hb].
    + rewrite drop_votes_lookup in Hi. cbn [fst snd] in Hi. case_decide as Hd; [by destruct Hi|]. destruct Hd. split; [done|]. by apply Hin.
    + rewrite Hne in Hi by done. rewrite lookup_delete_ne by done. by apply (vr_in _ _ _ HV b i).
  - intros b x [Hb Hx]%lookup_delete_Some. pose proof (vr_sorted _ _ _ HV b x Hx) as Hso. revert Hso. apply sorted_ext. intros i _. unfold vslot. by rewrite Hne.
Qed.

Lemma release_vtr_ok h a : hcore h -> is_Some (hf_vtrs h !! a) ->
  exists h', release_vtr h a = Ok h' /\ hcore h' /\ hf_vtrs h' = delete a (hf_vtrs h) /\ same_limits h h' /\
    forall k, hf_vtes h' !! k = if decide (k.1 = a) then None else hf_vtes h !! k.
Proof using HW HW0.
  intros [HB HV Hs Hr] [r Hv]. destruct (vr_list _ _ _ HV a r Hv) as (Hnd & _ & _ & Hin). unfold release_vtr. rewrite Hv. cbn [deref mbind outcome_bind].
  destruct (release_votes_ok a (hv_vtes r) h HB Hs Hr Hnd) as (h1 & -> & HB1 & V1 & R1 & (L1 & L2 & L3) & D1); [by intros id Hi%Hin|]. cbn [mbind outcome_bind].
  assert (forall k, hf_vtes h1 !! k = if decide (k.1 = a) then None else hf_vtes h !! k) as Hlook.
  { intros [b i]. rewrite V1, drop_votes_lookup. cbn [fst snd]. destruct (decide (b = a)) as [->|Hb]; [|by rewrite decide_False by tauto].
    destruct (decide (a = a /\ i ∈ hv_vtes r)) as [|Hn]; [done|]. destruct (hf_vtes h !! (a, i)) eqn:E; [|done]. destruct Hn. split; [done|]. apply Hin. by rewrite E. }
  eexists. split; [done|]. split_and!; cbn [hf_set_vtrs hf_vtrs hf_vtes]; [|by rewrite R1|done|done]. split; cbn [hf_set_vtrs hf_vtrs hf_vtes hf_per_vtr_max].
  - by apply binv_set_vtrs.
  - rewrite R1, V1, L2. by apply vtr_inv_remove.
  - intros k v. rewrite Hlook. case_decide; [done|]. apply Hs.
  - etrans; [|exact Hr]. apply Nat2Z.inj_le. rewrite <- !size_dom. apply subseteq_size. intros k Hk%elem_of_dom. apply elem_of_dom. rewrite Hlook in Hk. case_decide; [by destruct Hk|done].
Qed.

Lemma release_vtrs_ok l h : hcore h -> NoDup l -> (forall a, a ∈ l -> is_Some (hf_vtrs h !! a)) ->
  exists h', ofold release_vtr h l = Ok h' /\ hcore h' /\ same_limits h h' /\ (forall a, hf_vtrs h' !! a = if decide (a ∈ l) then None else hf_vtrs h !! a) /\
    forall k, hf_vtes h' !! k = if decide (k.1 ∈ l) then None else hf_vtes h !! k.
Proof using HW HW0.
  intros HC Hnd. revert h HC. induction Hnd as [|a l Ha _ IH]; intros h HC Hin.
  - exists h. split_and!; [done|done|done| |]; intros k; (rewrite decide_False; [done|apply not_elem_of_nil]).
  - cbn [ofold]. destruct (release_vtr_ok h a HC) as (h1 & -> & HC1 & R1 & (L1 & L2 & L3) & V1); [apply Hin; constructor|]. cbn [mbind outcome_bind].
    destruct (IH h1 HC1) as (h2 & -> & HC2 & (M1 & M2 & M3) & R2 & V2).
    { intros b Hb. rewrite R1, lookup_delete_ne by (intros ->; done). apply Hin. by constructor. }
    exists h2. split_and!; [done|done|unfold same_limits; by rewrite M1, M2, M3, L1, L2, L3| |].
    + intros b. rewrite R2, R1. destruct (decide (b ∈ l)) as [Hb|Hb]; [by rewrite decide_True by (by constructor)|]. destruct (decide (a = b)) as [->|Hne].
      * rewrite lookup_delete_eq, decide_True by constructor. done.
      * rewrite lookup_delete_ne by done. rewrite decide_False; [done|]. intros [->|?]%elem_of_cons; done.
    + intros k. rewrite V2, V1. destruct (decide (k.1 ∈ l)) as [Hb|Hb]; [by rewrite decide_True by (by constructor)|]. destruct (decide (k.1 = a)) as [<-|Hne].
      * by rewrite decide_True by constructor.
      * rewrite decide_False; [done|]. intros [?|?]%elem_of_cons; done.
Qed.

Lemma add_vtrs_ok (S : gset fd_pubkey_t) l h : hinv W h -> (forall a, a ∈ l -> a ∈ S) -> dom (hf_vtrs h) ⊆ S -> Z.of_nat (size S) <= hf_vtr_max h ->
  exists h', ofold add_vtr h l = Ok h' /\ hinv W h' /\ same_limits h h' /\ hf_vtes h' = hf_vtes h /\
    (forall a, is_Some (hf_vtrs h' !! a) <-> is_Some (hf_vtrs h !! a) \/ a ∈ l) /\ dom (hf_vtrs h') ⊆ S.
Proof using HW HW0.
  revert h. induction l as [|a l IH]; intros h HI Hl Hdom Hsz.
  - exists h. split_and!; try done. intros a. rewrite elem_of_nil. tauto.
  - cbn [ofold]. assert (exists h1, add_vtr h a = Ok h1 /\ hinv W h1 /\ same_limits h h1 /\ hf_vtes h1 = hf_vtes h /\
      (forall b, is_Some (hf_vtrs h1 !! b) <-> is_Some (hf_vtrs h !! b) \/ b = a) /\ dom (hf_vtrs h1) ⊆ S) as (h1 & -> & HI1 & (L1 & L2 & L3) & V1 & R1 & D1).
    { unfold add_vtr. destruct (hf_vtrs h !! a) as [r|] eqn:E.
      - exists h. split_and!; try done. intros b. split; [tauto|]. intros [?| ->]; [done|by rewrite E].
      - assert (a ∈ S) as HaS by (apply Hl; constructor). assert (a ∉ dom (hf_vtrs h)) as Hna by (by rewrite not_elem_of_dom).
        assert (size (hf_vtrs h) < size S)%nat as Hlt by (rewrite <- size_dom; apply subset_size; set_solver). rewrite (proj2 (Z.ltb_lt _ _)) by lia. cbn [check mbind outcome_bind].
        eexists. split; [done|]. destruct HI as [HB HV Hs [Hvn Hvl] Hvs Hm]. split_and!; [|done|done| |]; cbn [hf_set_vtrs hf_vtrs].
        + split; cbn [hf_set_vtrs hf_vtrs hf_vtes hf_vtr_dlist hf_per_vtr_max hf_vtr_max hf_max]; [by apply binv_set_vtrs| |done| | |done].
          * split.
            -- intros b x [[<- <-]|[_ Hx]]%lookup_insert_Some; [|by apply (vr_list _ _ _ HV)]. cbn. split_and!; [constructor|done|lia|]. intros i. rewrite elem_of_nil. split; [done|].
               intros Hi%(vr_in _ _ _ HV). rewrite E in Hi. by destruct Hi.
            -- intros b i Hi%(vr_in _ _ _ HV). destruct (decide (a = b)) as [->|]; [by rewrite lookup_insert_eq|by rewrite lookup_insert_ne].
            -- intros b x [[<- <-]|[_ Hx]]%lookup_insert_Some; [constructor|by apply (vr_sorted _ _ _ HV)].
          * split.
            -- apply NoDup_app. split_and!; [done| |apply NoDup_singleton]. intros b Hb%Hvl. rewrite list_elem_of_singleton. intros ->. rewrite E in Hb. by destruct Hb.
            -- intros b. rewrite elem_of_app, list_elem_of_singleton, Hvl. destruct (decide (a = b)) as [->|]; [rewrite lookup_insert_eq; naive_solver|rewrite lookup_insert_ne by done; naive_solver].
          * rewrite map_size_insert_None by done. lia.
        + intros b. destruct (decide (a = b)) as [->|]; [rewrite lookup_insert_eq; naive_solver|rewrite lookup_insert_ne by done; naive_solver].
        + rewrite dom_insert. set_solver. }
    cbn [mbind outcome_bind]. destruct (IH h1 HI1) as (h2 & -> & HI2 & (M1 & M2 & M3) & V2 & R2 & D2); [intros b Hb; apply Hl; by constructor|done|by rewrite L3|].
    exists h2. split_and!; [done|done|unfold same_limits; by rewrite M1, M2, M3, L1, L2, L3|by rewrite V2| |done]. intros b. rewrite R2, R1, elem_of_cons. tauto.
Qed.

(** The voters become the given accounts; the votes of the others are dropped. *)
Lemma update_ok h accs : hinv W h -> Z.of_nat (size (list_to_set accs : gset fd_pubkey_t)) <= hf_vtr_max h ->
  exists h', fd_hfork_update_voters h accs = Ok h' /\ hinv W h' /\ same_limits h h' /\ (forall a, is_Some (hf_vtrs h' !! a) <-> a ∈ accs) /\
    forall k, hf_vtes h' !! k = if decide (k.1 ∈ accs) then hf_vtes h !! k else None.
Proof using HW HW0.
  intros HI Hsz. pose proof (hinv_core h HI) as HC. destruct (hi_vlist _ _ HI) as [Hnd Hdl]. unfold fd_hfork_update_voters.
  destruct (keep_voters_spec (hf_vtrs h) (hf_vtr_dlist h) accs Hnd Hdl) as (kept & -> & Hkn & Hk). set (dead := filter (not_in accs) (hf_vtr_dlist h)).
  destruct (sweep_voters_spec release_vtr (list_to_set dead) dead kept h) as (kept' & Hp & ->).
  { apply Forall_forall. intros a Ha. by apply elem_of_list_to_set. }
  { apply Forall_forall. intros a [Ha _]%Hk [Hn _]%elem_of_list_to_set%list_elem_of_filter. by apply Hn. }
  assert (forall a, a ∈ dead <-> a ∉ accs /\ is_Some (hf_vtrs h !! a)) as Hdead by (intros a; unfold dead; rewrite list_elem_of_filter, Hdl; done).
  destruct (release_vtrs_ok dead h HC) as (h1 & -> & [HB1 HV1 Hs1 Hr1] & (L1 & L2 & L3) & R1 & V1); [by apply NoDup_filter|intros a [_ ?]%Hdead; done|]. cbn [mbind outcome_bind fst snd].
  assert (forall a, is_Some (hf_vtrs h1 !! a) <-> a ∈ accs /\ is_Some (hf_vtrs h !! a)) as R1'.
  { intros a. rewrite R1. case_decide as Hd; rewrite Hdead in Hd; [split; [by intros [? ?]|tauto]|]. destruct (decide (a ∈ accs)); tauto. }
  destruct (add_vtrs_ok (list_to_set accs) accs (hf_set_vtrs h1 (hf_vtrs h1) kept')) as (h2 & E2 & HI2 & (M1 & M2 & M3) & V2 & R2 & _).
  - pose proof (hi_size _ _ HI) as Hvs. pose proof (hi_max _ _ HI) as Hm.
    split; cbn [hf_set_vtrs hf_vtrs hf_vtes hf_vtr_dlist hf_per_vtr_max hf_vtr_max hf_max]; rewrite ?L1, ?L2, ?L3; [by apply binv_set_vtrs|by rewrite <- L2|done| | |done].
    + split; [by rewrite Hp|]. intros a. rewrite Hp, R1'. apply Hk.
    + etrans; [|exact Hvs]. apply Nat2Z.inj_le. rewrite <- !size_dom. apply subseteq_size. intros a Ha%elem_of_dom. apply R1' in Ha as [_ Ha]. by apply elem_of_dom.
  - intros a Ha. by apply elem_of_list_to_set.
  - intros a Ha%elem_of_dom. cbn in Ha. apply R1' in Ha as [Ha _]. by apply elem_of_list_to_set.
  - cbn. by rewrite L3.
  - exists h2. split_and!; [done|done| | |].
    + unfold same_limits in *. rewrite M1, M2, M3. done.
    + intros a. rewrite R2. cbn [hf_set_vtrs hf_vtrs]. rewrite R1'. tauto.
    + intros [a i]. rewrite V2. cbn [hf_set_vtrs hf_vtes]. rewrite V1. cbn [fst]. destruct (decide (a ∈ dead)) as [Hd|Hd]; rewrite Hdead in Hd; [by rewrite decide_False by tauto|].
      destruct (decide (a ∈ accs)) as [|Hn]; [done|]. destruct (hf_vtes h !! (a, i)) eqn:E; [|done]. destruct Hd. split; [done|]. apply (vr_in _ _ _ (hc_v _ HC) a i). by rewrite E.
Qed.
End Ops.

(** * The properties *)

Inductive hfork_op :=
| HCountVote (a : fd_pubkey_t) (id bank_hash : fd_hash_t) (slot stake total_stake : Z)
| HRecord (id : fd_hash_t) (bank_hash : option fd_hash_t) (total_stake : Z)
| HUpdateVoters (accs : list fd_pubkey_t).

Definition hfork_step (h : fd_hfork_t) (op : hfork_op) : outcome (fd_hfork_t * option hfork_code) :=
  match op with
  | HCountVote a id bh slot stake total => r ← fd_hfork_count_vote h a id bh slot stake total; Ok (r.1, Some r.2)
  | HRecord id bh total => r ← fd_hfork_record_our_bank_hash h id bh total; Ok (r.1, Some r.2)
  | HUpdateVoters accs => h ← fd_hfork_update_voters h accs; Ok (h, None)
  end.

(** The stake of a vote is that of its account; the voters fit their pool. *)
Definition hfork_admissible (W : fd_pubkey_t -> Z) (h : fd_hfork_t) (op : hfork_op) : Prop :=
  match op with
  | HCountVote a id bh slot stake total => 0 <= stake <= W a
  | HRecord id bh total => True
  | HUpdateVoters accs => Z.of_nat (size (list_to_set accs : gset fd_pubkey_t)) <= hf_vtr_max h
  end.

(** Stakes whose total fits 64 bits. *)
Definition fits (W : fd_pubkey_t -> Z) : Prop := (forall a, 0 <= W a) /\ forall l, NoDup l -> lsum W l <= ULONG_MAX.

Inductive hfork_reach (W : fd_pubkey_t -> Z) : fd_hfork_t -> Prop :=
| hreach_new shmem per_vtr_max vtr_max h : is_u64 per_vtr_max -> fd_hfork_new shmem per_vtr_max vtr_max = Some h -> hfork_reach W h
| hreach_step h op h' code : hfork_reach W h -> hfork_admissible W h op -> hfork_step h op = Ok (h', code) -> hfork_reach W h'.

Lemma hfork_step_ok W h op : fits W -> hinv W h -> hfork_admissible W h op -> exists h' code, hfork_step h op = Ok (h', code) /\ hinv W h'.
Proof.
  intros [HW0 HW] HI Ha. destruct op as [a id bh slot stake total|id bh total|accs]; cbn [hfork_step hfork_admissible] in *.
  - destruct (count_ok W HW HW0 h a id bh slot stake total HI Ha) as (h' & code & -> & HI' & _). cbn. eauto.
  - destruct (record_ok W h id bh total HI) as (h' & code & -> & HI' & _). cbn. eauto.
  - destruct (update_ok W HW HW0 h accs HI Ha) as (h' & -> & HI' & _). cbn. eauto.
Qed.

Lemma hfork_reach_inv W h : fits W -> hfork_reach W h -> hinv W h.
Proof.
  intros HW. induction 1 as [shmem per vtr h Hp E|h op h' code _ IH Ha E]; [by eapply new_hinv|].
  destruct (hfork_step_ok W h op HW IH Ha) as (h2 & code2 & E2 & HI). congruence.
Qed.

(** C32: From every state that calls lead to, every call returns: no pool is
    exhausted, no record is missing and the FD_TEST in bhm_remove holds.  In every
    such state the stake of a bank hash is the exact sum, without wrap-around, of the
    kept votes for it, a bank hash is there exactly if a vote for it is kept, a voter
    keeps at most [per_vtr_max] votes, and the blocks without votes are exactly those
    of the list that is evicted from. *)
Theorem hfork_total_and_exact W h op :
  fits W -> hfork_reach W h -> hfork_admissible W h op -> hinv W h /\ exists h' code, hfork_step h op = Ok (h', code) /\ hinv W h'.
Proof. intros HW HI%hfork_reach_inv Ha; [|done]. split; [done|]. by apply hfork_step_ok. Qed.

(** Counting a vote either refuses it and changes nothing - the account is not
    a voter, it has voted for the block, it has a vote for this slot or a later one,
    or its stake is zero - or keeps it in place of the oldest vote of a full quota.
    The code is then the comparison of our bank hash of the block with the vote's,
    made once the kept votes for that bank hash reach 52% of the total stake. *)
Theorem hfork_count_vote_verdict W h a id bh slot stake total :
  fits W -> hfork_reach W h -> 0 <= stake <= W a ->
  exists h' code, fd_hfork_count_vote h a id bh slot stake total = Ok (h', code) /\
    (h' = h /\ refused h a id slot stake code \/
     exists r, hf_vtrs h !! a = Some r /\ hf_vtes h !! (a, id) = None /\ (forall i v, hf_vtes h !! (a, i) = Some v -> ve_slot v < slot) /\ 0 < stake /\
       hf_vtes h' = <[(a, id) := mk_vte bh slot stake]> (evicted (hf_per_vtr_max h) a r (hf_vtes h)) /\ our_hash h' id = our_hash h id /\
       code = verdict (our_hash h id) bh (votes_stake (hf_vtes h') id bh) total).
Proof.
  intros HW HI%hfork_reach_inv Hst; [|done]. destruct HW as [HW0 HW]. destruct (count_ok W HW HW0 h a id bh slot stake total HI Hst) as (h' & code & E & _ & _ & H). eauto.
Qed.

(** A new set of voters takes effect exactly: the voters are the given
    accounts, the votes of the accounts that stay are kept, the votes of the ones
    that leave are gone, and the stakes follow. *)
Theorem hfork_update_voters_exact W h accs :
  fits W -> hfork_reach W h -> Z.of_nat (size (list_to_set accs : gset fd_pubkey_t)) <= hf_vtr_max h ->
  exists h', fd_hfork_update_voters h accs = Ok h' /\ (forall a, is_Some (hf_vtrs h' !! a) <-> a ∈ accs) /\
    (forall k, hf_vtes h' !! k = if decide (k.1 ∈ accs) then hf_vtes h !! k else None) /\
    forall id bh b, hf_bhms h' !! (id, bh) = Some b -> bh_stake b = votes_stake (hf_vtes h') id bh.
Proof.
  intros HW HI%hfork_reach_inv Ha; [|done]. destruct HW as [HW0 HW]. destruct (update_ok W HW HW0 h accs HI Ha) as (h' & E & HI' & _ & Hr & Hv).
  exists h'. split_and!; [done|done|done|]. intros id bh b Hb. by destruct (bi_some _ _ (hi_b _ _ HI') _ _ _ Hb).
Qed.

(** ** Examples *)

Definition hacc : fd_pubkey_t := [1].
Definition hstake (a : fd_pubkey_t) : Z := if decide (a = hacc) then 100 else 0.

Lemma hstake_fits : fits hstake.
Proof.
  split; [intros a; unfold hstake; case_decide; lia|]. intros l Hnd. enough (lsum hstake l <= if decide (hacc ∈ l) then 100 else 0) by (unfold ULONG_MAX; case_decide; lia).
  induction Hnd as [|a l Ha _ IH]; [by case_decide|]. change (lsum hstake (a :: l)) with (hstake a + lsum hstake l). unfold hstake at 1.
  destruct (decide (a = hacc)) as [->|Hne]; [rewrite (decide_True (P := hacc ∈ hacc :: l)) by constructor; rewrite decide_False in IH by done; lia|].
  destruct (decide (hacc ∈ a :: l)) as [Hin|Hn]; [case_decide; lia|]. rewrite decide_False in IH; [lia|]. intros ?. apply Hn. by constructor.
Qed.

(** One voter with a quota of two votes, which has voted for block 7 with bank hash 8. *)
Definition ok_state {A} (d : A) (o : outcome (A * option hfork_code)) : A := match o with Ok r => r.1 | Fail _ => d end.
Definition hfork0 : fd_hfork_t := default (mk_hfork 0 0 0 ∅ ∅ [] ∅ ∅ []) (fd_hfork_new 128 2 1).
Definition hfork1 : fd_hfork_t := ok_state hfork0 (hfork_step hfork0 (HUpdateVoters [hacc])).
Definition hfork2 : fd_hfork_t := ok_state hfork1 (hfork_step hfork1 (HCountVote hacc [7] [8] 10 60 100)).
Definition hfork3 : fd_hfork_t := ok_state hfork2 (hfork_step hfork2 (HRecord [9] (Some [5]) 100)).

Lemma hfork3_reach : hfork_reach hstake hfork3.
Proof.
  assert (hfork_reach hstake hfork0) as H0 by (apply (hreach_new _ 128 2 1); [unfold is_u64, ULONG_MAX; lia|vm_compute; reflexivity]).
  assert (hfork_reach hstake hfork1) as H1 by (apply (hreach_step _ hfork0 (HUpdateVoters [hacc]) _ None H0); [vm_compute; discriminate|vm_compute; reflexivity]).
  assert (hfork_reach hstake hfork2) as H2.
  { apply (hreach_step _ hfork1 (HCountVote hacc [7] [8] 10 60 100) _ (Some FD_HFORK_SUCCESS) H1); [|vm_compute; reflexivity]. change (0 <= 60 <= 100). lia. }
  apply (hreach_step _ hfork2 (HRecord [9] (Some [5]) 100) _ (Some FD_HFORK_SUCCESS) H2); [done|vm_compute; reflexivity].
Qed.

Lemma hfork_total_and_exact_witness : exists h' code, hfork_step hfork3 (HCountVote hacc [9] [6] 11 60 100) = Ok (h', code).
Proof.
  destruct (hfork_total_and_exact hstake hfork3 (HCountVote hacc [9] [6] 11 60 100) hstake_fits hfork3_reach) as [_ (h' & code & E & _)].
  - change (0 <= 60 <= 100). lia.
  - exists h', code. exact E.
Defined.

(** The vote for block 9 with a bank hash other than ours and 60% of the stake. *)
Lemma hfork_count_vote_verdict_witness :
  exists h' code, fd_hfork_count_vote hfork3 hacc [9] [6] 11 60 100 = Ok (h', code) /\ code = FD_HFORK_ERR_MISMATCHED.
Proof.
  destruct (hfork_count_vote_verdict hstake hfork3 hacc [9] [6] 11 60 100 hstake_fits hfork3_reach) as (h' & code & E & _).
  - change (0 <= 60 <= 100). lia.
  - exists h', code. split; [exact E|]. assert ((fun r => snd r) <$> match fd_hfork_count_vote hfork3 hacc [9] [6] 11 60 100 with Ok r => Some r | Fail _ => None end = Some FD_HFORK_ERR_MISMATCHED) as Ev by (vm_compute; reflexivity).
    rewrite E in Ev. by injection Ev.
Defined.

Lemma hfork_update_voters_exact_witness : exists h', fd_hfork_update_voters hfork3 [] = Ok h' /\ forall a, is_Some (hf_vtrs h' !! a) <-> a ∈ [].
Proof.
  destruct (hfork_update_voters_exact hstake hfork3 [] hstake_fits hfork3_reach) as (h' & E & Hv & _).
  - vm_compute. discriminate.
  - exists h'. split; [exact E|exact Hv].
Defined.
