(* ===== verification/Shred.v ===== *)
(** Shreds, the pieces a block is sent in: the header fields, the sizes and offsets
    of the sections, validation of an untrusted buffer and the leaf of the Merkle
    tree (src/src/ballet/shred/fd_shred.h, src/src/ballet/shred/fd_shred.c). *)
From S2P Require Import Prelude VotorBase.

(** * Constants *)

Definition FD_SHRED_MAX_SZ : Z := 1228.
Definition FD_SHRED_MIN_SZ : Z := 1203.
Definition FD_SHRED_DATA_HEADER_SZ : Z := 88.
Definition FD_SHRED_CODE_HEADER_SZ : Z := 89.

Definition FD_SHRED_TYPE_LEGACY_DATA : Z := 0xA0.
Definition FD_SHRED_TYPE_LEGACY_CODE : Z := 0x50.
Definition FD_SHRED_TYPE_MERKLE_DATA : Z := 0x80.
Definition FD_SHRED_TYPE_MERKLE_CODE : Z := 0x40.
Definition FD_SHRED_TYPE_MERKLE_DATA_CHAINED : Z := 0x90.
Definition FD_SHRED_TYPE_MERKLE_CODE_CHAINED : Z := 0x60.
Definition FD_SHRED_TYPE_MERKLE_DATA_CHAINED_RESIGNED : Z := 0xB0.
Definition FD_SHRED_TYPE_MERKLE_CODE_CHAINED_RESIGNED : Z := 0x70.
Definition FD_SHRED_TYPEMASK_DATA : Z := FD_SHRED_TYPE_MERKLE_DATA.
Definition FD_SHRED_TYPEMASK_CODE : Z := FD_SHRED_TYPE_MERKLE_CODE.

Definition FD_SHRED_MERKLE_ROOT_SZ : Z := 32.
Definition FD_SHRED_MERKLE_NODE_SZ : Z := 20.
Definition FD_SHRED_MERKLE_LAYER_CNT : Z := 7.
Definition FD_SHRED_SIGNATURE_SZ : Z := 64.
Definition FD_SHRED_DATA_FLAG_SLOT_COMPLETE : Z := 0x80.
Definition FD_SHRED_BLK_MAX : Z := 32768.

(** * Fields

    A [fd_shred_t const *] is the bytes it points to; the fields are packed. *)

Definition fd_shred_t : Type := list Z.

Definition field (off n : nat) (shred : fd_shred_t) : Z := le_load (take n (drop off shred)).

Definition sh_signature (shred : fd_shred_t) : list Z := take 64 shred.
Definition sh_variant : fd_shred_t -> Z := field 64 1.
Definition sh_slot : fd_shred_t -> Z := field 65 8.
Definition sh_idx : fd_shred_t -> Z := field 73 4.
Definition sh_version : fd_shred_t -> Z := field 77 2.
Definition sh_fec_set_idx : fd_shred_t -> Z := field 79 4.
Definition sh_data_parent_off : fd_shred_t -> Z := field 83 2.
Definition sh_data_flags : fd_shred_t -> Z := field 85 1.
Definition sh_data_size : fd_shred_t -> Z := field 86 2.
Definition sh_code_data_cnt : fd_shred_t -> Z := field 83 2.
Definition sh_code_code_cnt : fd_shred_t -> Z := field 85 2.
Definition sh_code_idx : fd_shred_t -> Z := field 87 2.

(** * Types, sizes and offsets *)

Definition fd_shred_type (variant : Z) : Z := Z.land variant 0xf0.

Definition fd_shred_variant (type merkle_cnt : Z) : Z :=
  let merkle_cnt := if type =? FD_SHRED_TYPE_LEGACY_DATA then 5 else merkle_cnt in
  let merkle_cnt := if type =? FD_SHRED_TYPE_LEGACY_CODE then 10 else merkle_cnt in
  Z.lor type merkle_cnt mod 256.

(** [x & mask] as a condition. *)
Definition has (x mask : Z) : bool := negb (Z.land x mask =? 0).

Definition fd_shred_sz (shred : fd_shred_t) : Z :=
  let type := fd_shred_type (sh_variant shred) in
  if has type FD_SHRED_TYPEMASK_CODE then FD_SHRED_MAX_SZ
  else if type =? FD_SHRED_TYPE_LEGACY_DATA then sh_data_size shred else FD_SHRED_MIN_SZ.

Definition fd_shred_header_sz (variant : Z) : Z :=
  let type := fd_shred_type variant in
  if has type FD_SHRED_TYPEMASK_DATA then FD_SHRED_DATA_HEADER_SZ
  else if has type FD_SHRED_TYPEMASK_CODE then FD_SHRED_CODE_HEADER_SZ else 0.

Definition fd_shred_merkle_cnt (variant : Z) : Z :=
  let type := fd_shred_type variant in
  if (type =? FD_SHRED_TYPE_LEGACY_DATA) || (type =? FD_SHRED_TYPE_LEGACY_CODE) then 0 else Z.land variant 0xf.

Definition fd_shred_merkle_sz (variant : Z) : Z := fd_shred_merkle_cnt variant *w FD_SHRED_MERKLE_NODE_SZ.

Definition fd_shred_is_chained (type : Z) : bool :=
  (type =? FD_SHRED_TYPE_MERKLE_DATA_CHAINED) || (type =? FD_SHRED_TYPE_MERKLE_CODE_CHAINED) ||
  (type =? FD_SHRED_TYPE_MERKLE_DATA_CHAINED_RESIGNED) || (type =? FD_SHRED_TYPE_MERKLE_CODE_CHAINED_RESIGNED).

Definition fd_shred_is_resigned (type : Z) : bool :=
  (type =? FD_SHRED_TYPE_MERKLE_DATA_CHAINED_RESIGNED) || (type =? FD_SHRED_TYPE_MERKLE_CODE_CHAINED_RESIGNED).

Definition fd_shred_is_data (type : Z) : bool := Z.land type 0xC0 =? 0x80.
Definition fd_shred_is_code (type : Z) : bool := Z.land type 0xC0 =? 0x40.

Definition fd_shred_swap_type (type : Z) : Z := Z.lor (Z.shiftl (Z.land type 0x50) 1) (Z.shiftr (Z.land type 0xA0) 1).

(** What the trailer has besides the Merkle proof. *)
Definition chained_sz (type : Z) : Z := if fd_shred_is_chained type then FD_SHRED_MERKLE_ROOT_SZ else 0.
Definition resigned_sz (type : Z) : Z := if fd_shred_is_resigned type then FD_SHRED_SIGNATURE_SZ else 0.

Definition fd_shred_payload_sz (shred : fd_shred_t) : Z :=
  let type := fd_shred_type (sh_variant shred) in
  if has type FD_SHRED_TYPEMASK_DATA then sh_data_size shred -w FD_SHRED_DATA_HEADER_SZ
  else fd_shred_sz shred -w FD_SHRED_CODE_HEADER_SZ -w fd_shred_merkle_sz (sh_variant shred) -w chained_sz type -w resigned_sz type.

Definition fd_shred_merkle_off (shred : fd_shred_t) : Z :=
  fd_shred_sz shred -w fd_shred_merkle_sz (sh_variant shred) -w resigned_sz (fd_shred_type (sh_variant shred)).

Definition fd_shred_merkle_nodes (shred : fd_shred_t) : list Z := drop (Z.to_nat (fd_shred_merkle_off shred)) shred.

Definition fd_shred_chain_off (variant : Z) : Z :=
  let type := fd_shred_type variant in
  (if has type FD_SHRED_TYPEMASK_CODE then FD_SHRED_MAX_SZ else FD_SHRED_MIN_SZ)
    -w FD_SHRED_MERKLE_ROOT_SZ -w fd_shred_merkle_sz variant -w resigned_sz type.

Definition fd_shred_retransmitter_sig_off (shred : fd_shred_t) : Z := fd_shred_sz shred -w FD_SHRED_SIGNATURE_SZ.

(** * Validation *)

Definition valid_variant (variant : Z) : bool :=
  let type := fd_shred_type variant in
  (type =? FD_SHRED_TYPE_MERKLE_DATA) || (type =? FD_SHRED_TYPE_MERKLE_CODE) ||
  (type =? FD_SHRED_TYPE_MERKLE_DATA_CHAINED) || (type =? FD_SHRED_TYPE_MERKLE_CODE_CHAINED) ||
  (type =? FD_SHRED_TYPE_MERKLE_DATA_CHAINED_RESIGNED) || (type =? FD_SHRED_TYPE_MERKLE_CODE_CHAINED_RESIGNED) ||
  (variant =? 0xa5) || (variant =? 0x5a).

(** The sizes of the sections: the zero padding and the payload, [None] where the
    code returns NULL. *)
Definition parse_sections (shred : fd_shred_t) (sz header_sz trailer_sz : Z) : option (Z * Z) :=
  let type := fd_shred_type (sh_variant shred) in
  if has type FD_SHRED_TYPEMASK_DATA then
    if sh_data_size shred <? header_sz then None else
    let payload_sz := sh_data_size shred -w header_sz in
    if negb (type =? FD_SHRED_TYPE_LEGACY_DATA) && (sz <? FD_SHRED_MIN_SZ) then None else
    let effective_sz := if type =? FD_SHRED_TYPE_LEGACY_DATA then sz else FD_SHRED_MIN_SZ in
    if effective_sz <? header_sz +w payload_sz +w trailer_sz then None else
    Some (effective_sz -w header_sz -w payload_sz -w trailer_sz, payload_sz)
  else if has type FD_SHRED_TYPEMASK_CODE then
    let zero_padding_sz := 0 in
    if FD_SHRED_MAX_SZ <? header_sz +w zero_padding_sz +w trailer_sz then None else
    Some (zero_padding_sz, FD_SHRED_MAX_SZ -w header_sz -w zero_padding_sz -w trailer_sz)
  else None.

Definition parse_data_fields (shred : fd_shred_t) (max_shred_idx : Z) : bool :=
  let parent_off := sh_data_parent_off shred in
  let slot := sh_slot shred in
  if Z.land (sh_data_flags shred) 0xC0 =? 0x80 then false
  else if slot <? parent_off then false
  else if (negb (slot =? 0) && (parent_off =? 0)) || ((1 <? slot) && (parent_off =? slot)) then false
  else if sh_idx shred <? sh_fec_set_idx shred then false
  else if max_shred_idx <=? sh_idx shred then false
  else true.

Definition parse_code_fields (shred : fd_shred_t) (max_shred_idx : Z) : bool :=
  if sh_code_code_cnt shred <=? sh_code_idx shred then false
  else if sh_idx shred <? sh_code_idx shred then false
  else if (sh_code_data_cnt shred =? 0) || (sh_code_code_cnt shred =? 0) then false
  else if 256 <? sh_code_code_cnt shred then false
  else if 256 <? sh_code_data_cnt shred +w sh_code_code_cnt shred then false
  else if max_shred_idx <=? sh_idx shred then false
  else if max_shred_idx <=? sh_fec_set_idx shred +w sh_code_data_cnt shred -w 1 then false
  else if max_shred_idx <=? (sh_idx shred - sh_code_idx shred) mod 4294967296 +w sh_code_code_cnt shred -w 1 then false
  else true.

(** [None] for NULL; otherwise the pointer that was passed in. *)
Definition fd_shred_parse (buf : list Z) (sz max_shred_idx : Z) : option fd_shred_t :=
  if sz <? Z.min FD_SHRED_DATA_HEADER_SZ FD_SHRED_CODE_HEADER_SZ then None else
  let shred := buf in
  let variant := sh_variant shred in
  let type := fd_shred_type variant in
  if negb (valid_variant variant) then None else
  let header_sz := fd_shred_header_sz variant in
  let trailer_sz := fd_shred_merkle_sz variant +w resigned_sz type +w chained_sz type in
  match parse_sections shred sz header_sz trailer_sz with
  | None => None
  | Some (zero_padding_sz, payload_sz) =>
      if sz <? header_sz +w payload_sz +w zero_padding_sz +w trailer_sz then None else
      let ok := if has type FD_SHRED_TYPEMASK_DATA then parse_data_fields shred max_shred_idx else parse_code_fields shred max_shred_idx in
      if ok then Some shred else None
  end.

(** * The Merkle root

    Hashing a leaf and inserting it with its proof are those of
    src/src/ballet/bmtree, for nodes of 20 bytes and the long prefix; the insertion
    reads as many nodes from the pointer it is given as the proof is deep. *)
Section MerkleRoot.
Context (fd_bmtree_hash_leaf : list Z -> list Z).
Context (fd_bmtree_commitp_insert_with_proof : Z -> list Z -> list Z -> Z -> option (list Z)).

(** The position of the shred among the leaves. *)
Definition merkle_leaf_idx (shred : fd_shred_t) : Z :=
  if fd_shred_is_data (fd_shred_type (sh_variant shred)) then (sh_idx shred - sh_fec_set_idx shred) mod 4294967296
  else sh_code_idx shred +w sh_code_data_cnt shred.

(** The number of bytes after the signature that the leaf covers. *)
Definition merkle_protected_sz (variant : Z) : Z :=
  let type := fd_shred_type variant in
  let reedsol_protected_sz := 1115 +w FD_SHRED_DATA_HEADER_SZ -w FD_SHRED_SIGNATURE_SZ -w FD_SHRED_MERKLE_NODE_SZ *w fd_shred_merkle_cnt variant
    -w chained_sz type -w resigned_sz type in
  let data_merkle_protected_sz := reedsol_protected_sz +w chained_sz type in
  let parity_merkle_protected_sz := reedsol_protected_sz +w chained_sz type +w FD_SHRED_CODE_HEADER_SZ -w 64 in
  if fd_shred_is_data type then data_merkle_protected_sz else parity_merkle_protected_sz.

Definition fd_shred_merkle_root (shred : fd_shred_t) : option (list Z) :=
  let variant := sh_variant shred in
  let tree_depth := fd_shred_merkle_cnt variant in
  if negb (tree_depth =? FD_SHRED_MERKLE_LAYER_CNT -w 1) then None else
  let leaf := fd_bmtree_hash_leaf (take (Z.to_nat (merkle_protected_sz variant)) (drop 64 shred)) in
  let proof := take (Z.to_nat (fd_shred_merkle_sz variant)) (fd_shred_merkle_nodes shred) in
  fd_bmtree_commitp_insert_with_proof (merkle_leaf_idx shred) leaf proof (fd_shred_merkle_cnt variant).
End MerkleRoot.
