(* ===== verification/ShredProps.v ===== *)
(** Shreds: what validation promises about the sections and fields of a shred, and
    that it does not look past the buffer. *)
From S2P Require Import Prelude VotorBase Shred.

(** * Variants *)

Definition trailer_sz (variant : Z) : Z := fd_shred_merkle_sz variant +w resigned_sz (fd_shred_type variant) +w chained_sz (fd_shred_type variant).

(** The case distinction on a valid variant, as a check of all 256 bytes. *)
Definition variant_check (v : Z) : bool :=
  let t := fd_shred_type v in
  implb (valid_variant v)
    ((0 <=? fd_shred_merkle_sz v) && (fd_shred_merkle_sz v <=? 300) &&
     (trailer_sz v =? fd_shred_merkle_sz v + resigned_sz t + chained_sz t) &&
     (0 <=? resigned_sz t) && (resigned_sz t <=? 64) && (0 <=? chained_sz t) && (chained_sz t <=? 32) &&
     (if has t FD_SHRED_TYPEMASK_DATA
      then negb (has t FD_SHRED_TYPEMASK_CODE) && (fd_shred_header_sz v =? 88) && fd_shred_is_data t && negb (fd_shred_is_code t) &&
           (negb (t =? FD_SHRED_TYPE_LEGACY_DATA) || (trailer_sz v =? 0))
      else has t FD_SHRED_TYPEMASK_CODE && (fd_shred_header_sz v =? 89) && negb (fd_shred_is_data t) && fd_shred_is_code t && negb (t =? FD_SHRED_TYPE_LEGACY_DATA))).

Lemma variant_checks : forallb variant_check (seqZ 0 256) = true.
Proof. vm_compute. reflexivity. Qed.

Record variant_facts (v : Z) : Prop := {
  vf_merkle : 0 <= fd_shred_merkle_sz v <= 300;
  vf_trailer : trailer_sz v = fd_shred_merkle_sz v + resigned_sz (fd_shred_type v) + chained_sz (fd_shred_type v);
  vf_resigned : 0 <= resigned_sz (fd_shred_type v) <= 64;
  vf_chained : 0 <= chained_sz (fd_shred_type v) <= 32;
  vf_kind : let t := fd_shred_type v in
    if has t FD_SHRED_TYPEMASK_DATA
    then has t FD_SHRED_TYPEMASK_CODE = false /\ fd_shred_header_sz v = 88 /\ fd_shred_is_data t = true /\ (t = FD_SHRED_TYPE_LEGACY_DATA -> trailer_sz v = 0)
    else has t FD_SHRED_TYPEMASK_CODE = true /\ fd_shred_header_sz v = 89 /\ fd_shred_is_data t = false /\ t <> FD_SHRED_TYPE_LEGACY_DATA
}.

Lemma valid_variant_facts v : is_byte v -> valid_variant v = true -> variant_facts v.
Proof.
  intros Hb Hv. pose proof variant_checks as Hc. rewrite forallb_forall in Hc. specialize (Hc v).
  rewrite <- list_elem_of_In, elem_of_seqZ in Hc. specialize (Hc ltac:(unfold is_byte in Hb; lia)). unfold variant_check in Hc. rewrite Hv in Hc. cbn [implb] in Hc.
  repeat (apply andb_true_iff in Hc as [Hc ?]). rewrite ?Z.leb_le, ?Z.eqb_eq in *. split; try lia. cbn zeta.
  destruct (has (fd_shred_type v) FD_SHRED_TYPEMASK_DATA); match goal with H : _ && _ = true |- _ => repeat (apply andb_true_iff in H as [H ?]) end;
    rewrite ?negb_true_iff, ?orb_true_iff, ?Z.eqb_eq, ?Z.eqb_neq in *; split_and!; try done. intros Ht. rewrite Ht in *. naive_solver.
Qed.

(** * Fields *)

Lemma field_bound off n s : Forall is_byte s -> 0 <= field off n s < 256 ^ Z.of_nat n.
Proof.
  intros Hs. unfold field. assert (Forall is_byte (take n (drop off s))) as Hf by (by apply Forall_take, Forall_drop).
  pose proof (le_load_range _ Hf) as Hr. split; [lia|]. eapply Z.lt_le_trans; [apply Hr|]. apply Z.pow_le_mono_r; [lia|]. rewrite length_take. lia.
Qed.

Lemma field_take off n sz s : (off + n <= sz)%nat -> field off n s = field off n (take sz s).
Proof. intros Hle. unfold field. f_equal. rewrite !take_drop_commute, take_take. f_equal. f_equal. lia. Qed.

Lemma variant_byte s : Forall is_byte s -> is_byte (sh_variant s).
Proof. intros Hs. apply (field_bound 64 1 s Hs). Qed.

(** * Sections *)

(** What an accepted shred looks like. *)
Record shred_ok (s : fd_shred_t) (sz max_shred_idx : Z) : Prop := {
  so_variant : valid_variant (sh_variant s) = true;
  so_fits : fd_shred_sz s <= sz;
  so_sections : fd_shred_header_sz (sh_variant s) + fd_shred_payload_sz s + trailer_sz (sh_variant s) <= fd_shred_sz s;
  so_payload : 0 <= fd_shred_payload_sz s;
  so_data : fd_shred_is_data (fd_shred_type (sh_variant s)) = true ->
    sh_data_size s = FD_SHRED_DATA_HEADER_SZ + fd_shred_payload_sz s /\ sh_fec_set_idx s <= sh_idx s < max_shred_idx /\
    sh_data_parent_off s <= sh_slot s /\ (sh_slot s <> 0 -> sh_data_parent_off s <> 0) /\ (1 < sh_slot s -> sh_data_parent_off s < sh_slot s) /\
    Z.land (sh_data_flags s) 0xC0 <> 0x80;
  so_code : fd_shred_is_data (fd_shred_type (sh_variant s)) = false ->
    sh_code_idx s < sh_code_code_cnt s /\ sh_code_idx s <= sh_idx s < max_shred_idx /\ 0 < sh_code_data_cnt s /\ sh_code_data_cnt s + sh_code_code_cnt s <= 256 /\
    sh_fec_set_idx s + sh_code_data_cnt s <= max_shred_idx /\ sh_idx s - sh_code_idx s + sh_code_code_cnt s <= max_shred_idx
}.

Ltac small := unfold is_u64, ULONG_MAX in *; lia.

Lemma sections_ok s sz : Forall is_byte s -> valid_variant (sh_variant s) = true -> 0 <= sz <= ULONG_MAX ->
  forall pad pay, parse_sections s sz (fd_shred_header_sz (sh_variant s)) (trailer_sz (sh_variant s)) = Some (pad, pay) ->
    (sz <? fd_shred_header_sz (sh_variant s) +w pay +w pad +w trailer_sz (sh_variant s)) = false ->
    fd_shred_sz s <= sz /\ fd_shred_header_sz (sh_variant s) + fd_shred_payload_sz s + trailer_sz (sh_variant s) <= fd_shred_sz s /\ 0 <= fd_shred_payload_sz s /\
    (fd_shred_is_data (fd_shred_type (sh_variant s)) = true -> sh_data_size s = FD_SHRED_DATA_HEADER_SZ + fd_shred_payload_sz s).
Proof.
  intros Hs Hv Hsz pad pay. pose proof (valid_variant_facts _ (variant_byte s Hs) Hv) as [Hm Ht Hr Hc Hk]. cbn zeta in Hk.
  pose proof (field_bound 86 2 s Hs) as Hsize. change (field 86 2 s) with (sh_data_size s) in Hsize. change (256 ^ Z.of_nat 2) with 65536 in Hsize.
  unfold parse_sections, fd_shred_payload_sz, fd_shred_sz, FD_SHRED_MIN_SZ, FD_SHRED_MAX_SZ, FD_SHRED_DATA_HEADER_SZ, FD_SHRED_CODE_HEADER_SZ in *.
  set (v := sh_variant s) in *. set (t := fd_shred_type v) in *. destruct (has t FD_SHRED_TYPEMASK_DATA).
  - destruct Hk as (-> & -> & _ & Hleg). destruct (Z.ltb_spec (sh_data_size s) 88) as [|Hge]; [done|]. rewrite (u64_sub_small (sh_data_size s) 88) by small.
    destruct (negb (t =? FD_SHRED_TYPE_LEGACY_DATA) && (sz <? 1203)) eqn:E1; [done|]. rewrite (u64_add_small 88), (u64_add_small _ (trailer_sz v)) by small.
    destruct (Z.eqb_spec t FD_SHRED_TYPE_LEGACY_DATA) as [El|El]; cbn [negb andb] in E1.
    + specialize (Hleg El). destruct (Z.ltb_spec sz (88 + (sh_data_size s - 88) + trailer_sz v)); [done|]. intros _ _. split_and!; lia.
    + apply Z.ltb_ge in E1. destruct (Z.ltb_spec 1203 (88 + (sh_data_size s - 88) + trailer_sz v)); [done|]. intros _ _. split_and!; lia.
  - destruct Hk as (-> & -> & -> & Hleg). rewrite (u64_add_small 89 0), (u64_add_small _ (trailer_sz v)) by small. destruct (Z.ltb_spec 1228 (89 + 0 + trailer_sz v)) as [|_]; [done|].
    intros [= <- <-]. rewrite (u64_sub_small 1228 89), (u64_sub_small _ 0), (u64_sub_small _ (trailer_sz v)) by small.
    rewrite (u64_add_small 89), (u64_add_small _ 0), (u64_add_small _ (trailer_sz v)) by small. intros Hle%Z.ltb_ge.
    rewrite ?(u64_sub_small 1228 89), (u64_sub_small _ (fd_shred_merkle_sz v)), (u64_sub_small _ (chained_sz t)), (u64_sub_small _ (resigned_sz t)) by small. split_and!; [lia|lia|lia|done].
Qed.

Lemma data_fields_ok s m : Forall is_byte s -> parse_data_fields s m = true ->
  sh_fec_set_idx s <= sh_idx s < m /\ sh_data_parent_off s <= sh_slot s /\ (sh_slot s <> 0 -> sh_data_parent_off s <> 0) /\
  (1 < sh_slot s -> sh_data_parent_off s < sh_slot s) /\ Z.land (sh_data_flags s) 0xC0 <> 0x80.
Proof.
  intros Hs. unfold parse_data_fields. destruct (Z.eqb_spec (Z.land (sh_data_flags s) 0xC0) 0x80); [done|]. destruct (Z.ltb_spec (sh_slot s) (sh_data_parent_off s)); [done|].
  destruct ((negb (sh_slot s =? 0) && (sh_data_parent_off s =? 0)) || ((1 <? sh_slot s) && (sh_data_parent_off s =? sh_slot s))) eqn:E; [done|].
  destruct (Z.ltb_spec (sh_idx s) (sh_fec_set_idx s)); [done|]. destruct (Z.leb_spec m (sh_idx s)); [done|]. intros _.
  apply orb_false_iff in E as [E1 E2]. apply andb_false_iff in E1, E2. rewrite negb_false_iff in E1. rewrite ?Z.eqb_eq, ?Z.eqb_neq, ?Z.ltb_ge in *. split_and!; lia || done.
Qed.

Lemma code_fields_ok s m : Forall is_byte s -> parse_code_fields s m = true ->
  sh_code_idx s < sh_code_code_cnt s /\ sh_code_idx s <= sh_idx s < m /\ 0 < sh_code_data_cnt s /\ sh_code_data_cnt s + sh_code_code_cnt s <= 256 /\
  sh_fec_set_idx s + sh_code_data_cnt s <= m /\ sh_idx s - sh_code_idx s + sh_code_code_cnt s <= m.
Proof.
  intros Hs. pose proof (field_bound 83 2 s Hs) as H1. pose proof (field_bound 85 2 s Hs) as H2. pose proof (field_bound 87 2 s Hs) as H3.
  pose proof (field_bound 73 4 s Hs) as H4. pose proof (field_bound 79 4 s Hs) as H5. change (256 ^ Z.of_nat 2) with 65536 in *. change (256 ^ Z.of_nat 4) with 4294967296 in *.
  fold (sh_code_data_cnt s) in H1. fold (sh_code_code_cnt s) in H2. fold (sh_code_idx s) in H3. fold (sh_idx s) in H4. fold (sh_fec_set_idx s) in H5. unfold parse_code_fields.
  destruct (Z.leb_spec (sh_code_code_cnt s) (sh_code_idx s)); [done|]. destruct (Z.ltb_spec (sh_idx s) (sh_code_idx s)); [done|].
  destruct (Z.eqb_spec (sh_code_data_cnt s) 0); [done|]. destruct (Z.eqb_spec (sh_code_code_cnt s) 0); [done|]. cbn [orb]. destruct (Z.ltb_spec 256 (sh_code_code_cnt s)); [done|].
  rewrite (u64_add_small (sh_code_data_cnt s)) by small. destruct (Z.ltb_spec 256 (sh_code_data_cnt s + sh_code_code_cnt s)); [done|]. destruct (Z.leb_spec m (sh_idx s)); [done|].
  rewrite (u64_add_small (sh_fec_set_idx s)), (u64_sub_small _ 1) by small. destruct (Z.leb_spec m (sh_fec_set_idx s + sh_code_data_cnt s - 1)); [done|].
  rewrite (Z.mod_small (sh_idx s - sh_code_idx s)) by lia. rewrite (u64_add_small (sh_idx s - sh_code_idx s)), (u64_sub_small _ 1) by small.
  destruct (Z.leb_spec m (sh_idx s - sh_code_idx s + sh_code_code_cnt s - 1)); [done|]. intros _. split_and!; lia.
Qed.

(** What validation promises. *)
Lemma parse_ok buf sz m s : Forall is_byte buf -> 0 <= sz <= ULONG_MAX -> fd_shred_parse buf sz m = Some s -> s = buf /\ shred_ok s sz m.
Proof.
  intros Hb Hsz. unfold fd_shred_parse. destruct (sz <? _); [done|]. destruct (valid_variant (sh_variant buf)) eqn:Ev; [|done]. cbn [negb].
  fold (trailer_sz (sh_variant buf)). destruct (parse_sections _ _ _ _) as [[pad pay]|] eqn:Ep; [|done]. destruct (sz <? _ +w _) eqn:Es; [done|].
  destruct (sections_ok buf sz Hb Ev Hsz pad pay Ep Es) as (F1 & F2 & F3 & F4). pose proof (valid_variant_facts _ (variant_byte buf Hb) Ev) as [_ _ _ _ Hk]. cbn zeta in Hk.
  destruct (has (fd_shred_type (sh_variant buf)) FD_SHRED_TYPEMASK_DATA); destruct Hk as (_ & _ & Hd & _).
  - destruct (parse_data_fields buf m) eqn:Ef; [|done]. intros [= <-]. split; [done|]. split; try done; rewrite Hd; [|done]. intros _. split; [by apply F4|by apply data_fields_ok].
  - destruct (parse_code_fields buf m) eqn:Ef; [|done]. intros [= <-]. split; [done|]. split; try done; rewrite Hd; [done|]. intros _. by apply code_fields_ok.
Qed.

(** ** Validation accepts exactly these shreds *)

Lemma data_fields_complete s m : sh_fec_set_idx s <= sh_idx s < m -> sh_data_parent_off s <= sh_slot s -> (sh_slot s <> 0 -> sh_data_parent_off s <> 0) ->
  (1 < sh_slot s -> sh_data_parent_off s < sh_slot s) -> Z.land (sh_data_flags s) 0xC0 <> 0x80 -> parse_data_fields s m = true.
Proof.
  intros H1 H2 H3 H4 H5. unfold parse_data_fields. rewrite (proj2 (Z.eqb_neq _ _) H5), (proj2 (Z.ltb_ge _ _)) by lia.
  replace ((negb (sh_slot s =? 0) && (sh_data_parent_off s =? 0)) || ((1 <? sh_slot s) && (sh_data_parent_off s =? sh_slot s))) with false.
  - by rewrite (proj2 (Z.ltb_ge _ _)), (proj2 (Z.leb_gt _ _)) by lia.
  - symmetry. apply orb_false_iff. rewrite !andb_false_iff, negb_false_iff, !Z.eqb_eq, !Z.eqb_neq, Z.ltb_ge. lia.
Qed.

Lemma code_fields_complete s m : Forall is_byte s -> sh_code_idx s < sh_code_code_cnt s -> sh_code_idx s <= sh_idx s < m -> 0 < sh_code_data_cnt s ->
  sh_code_data_cnt s + sh_code_code_cnt s <= 256 -> sh_fec_set_idx s + sh_code_data_cnt s <= m -> sh_idx s - sh_code_idx s + sh_code_code_cnt s <= m -> parse_code_fields s m = true.
Proof.
  intros Hs. pose proof (field_bound 83 2 s Hs) as H1. pose proof (field_bound 85 2 s Hs) as H2. pose proof (field_bound 87 2 s Hs) as H3.
  pose proof (field_bound 73 4 s Hs) as H4. pose proof (field_bound 79 4 s Hs) as H5. change (256 ^ Z.of_nat 2) with 65536 in *. change (256 ^ Z.of_nat 4) with 4294967296 in *.
  fold (sh_code_data_cnt s) in H1. fold (sh_code_code_cnt s) in H2. fold (sh_code_idx s) in H3. fold (sh_idx s) in H4. fold (sh_fec_set_idx s) in H5. intros G1 G2 G3 G4 G5 G6.
  unfold parse_code_fields. rewrite (proj2 (Z.leb_gt (sh_code_code_cnt s) (sh_code_idx s))), (proj2 (Z.ltb_ge (sh_idx s) _)), (proj2 (Z.eqb_neq (sh_code_data_cnt s) 0)), (proj2 (Z.eqb_neq (sh_code_code_cnt s) 0)) by lia.
  cbn [orb]. rewrite (proj2 (Z.ltb_ge 256 (sh_code_code_cnt s))) by lia. rewrite (u64_add_small (sh_code_data_cnt s)) by small. rewrite (proj2 (Z.ltb_ge 256 _)), (proj2 (Z.leb_gt m (sh_idx s))) by lia.
  rewrite (u64_add_small (sh_fec_set_idx s)), (u64_sub_small _ 1) by small. rewrite (proj2 (Z.leb_gt m (_ + sh_code_data_cnt s - 1))) by lia.
  rewrite (Z.mod_small (sh_idx s - sh_code_idx s)) by lia. rewrite (u64_add_small (sh_idx s - sh_code_idx s)), (u64_sub_small _ 1) by small. by rewrite (proj2 (Z.leb_gt m _)) by lia.
Qed.

Lemma parse_complete s sz m : Forall is_byte s -> 0 <= sz <= ULONG_MAX -> shred_ok s sz m -> fd_shred_parse s sz m = Some s.
Proof.
  intros Hs Hsz [Hv Hfit Hsec Hpay Hdata Hcode]. pose proof (valid_variant_facts _ (variant_byte s Hs) Hv) as [Hm Ht Hr Hc Hk]. cbn zeta in Hk.
  pose proof (field_bound 86 2 s Hs) as Hsize. change (field 86 2 s) with (sh_data_size s) in Hsize. change (256 ^ Z.of_nat 2) with 65536 in Hsize.
  unfold fd_shred_parse. rewrite Hv. cbn [negb]. fold (trailer_sz (sh_variant s)).
  unfold parse_sections, fd_shred_sz, FD_SHRED_MIN_SZ, FD_SHRED_MAX_SZ, FD_SHRED_DATA_HEADER_SZ, FD_SHRED_CODE_HEADER_SZ in *. change (Z.min 88 89) with 88.
  set (v := sh_variant s) in *. set (t := fd_shred_type v) in *. destruct (has t FD_SHRED_TYPEMASK_DATA).
  - destruct Hk as (Ecode & Eh & Ed & Hleg). rewrite Ecode in *. rewrite Eh in *. destruct (Hdata Ed) as (Esz & G1 & G2 & G3 & G4 & G5). set (pay := fd_shred_payload_sz s) in *.
    assert (88 + pay + trailer_sz v <= (if t =? FD_SHRED_TYPE_LEGACY_DATA then sz else 1203) <= sz) as [He1 He2].
    { destruct (Z.eqb_spec t FD_SHRED_TYPE_LEGACY_DATA) as [El|El]; [specialize (Hleg El); lia|lia]. }
    rewrite (proj2 (Z.ltb_ge sz 88)), (proj2 (Z.ltb_ge (sh_data_size s) 88)) by lia. rewrite Esz, (u64_sub_small (88 + pay) 88) by small. replace (88 + pay - 88) with pay by lia.
    replace (negb (t =? FD_SHRED_TYPE_LEGACY_DATA) && (sz <? 1203)) with false by (destruct (t =? FD_SHRED_TYPE_LEGACY_DATA); [done|]; cbn; symmetry; apply Z.ltb_ge; lia).
    set (eff := if t =? FD_SHRED_TYPE_LEGACY_DATA then sz else 1203) in *. rewrite (u64_add_small 88 pay), (u64_add_small _ (trailer_sz v)) by small. rewrite (proj2 (Z.ltb_ge eff _)) by lia. cbn beta iota.
    rewrite (u64_sub_small eff 88), (u64_sub_small _ pay), (u64_sub_small _ (trailer_sz v)) by small. rewrite (u64_add_small 88 pay), (u64_add_small (88 + pay)), (u64_add_small _ (trailer_sz v)) by small.
    rewrite (proj2 (Z.ltb_ge sz _)) by lia. by rewrite data_fields_complete.
  - destruct Hk as (Ecode & Eh & Ed & Hleg). rewrite Ecode in *. rewrite Eh in *. destruct (Hcode Ed) as (G1 & G2 & G3 & G4 & G5 & G6).
    rewrite (proj2 (Z.ltb_ge sz 88)) by lia. rewrite (u64_add_small 89 0), (u64_add_small _ (trailer_sz v)) by small. rewrite (proj2 (Z.ltb_ge 1228 _)) by lia. cbn beta iota.
    rewrite (u64_sub_small 1228 89), (u64_sub_small _ 0), (u64_sub_small _ (trailer_sz v)) by small. rewrite (u64_add_small 89), (u64_add_small _ 0), (u64_add_small _ (trailer_sz v)) by small.
    rewrite (proj2 (Z.ltb_ge sz _)) by lia. by rewrite code_fields_complete.
Qed.

(** The sections of an accepted shred that the offsets of the header point at. *)
Lemma offsets_ok s sz m : Forall is_byte s -> shred_ok s sz m ->
  fd_shred_merkle_off s + fd_shred_merkle_sz (sh_variant s) + resigned_sz (fd_shred_type (sh_variant s)) = fd_shred_sz s /\
  (fd_shred_is_chained (fd_shred_type (sh_variant s)) = true ->
   fd_shred_header_sz (sh_variant s) + fd_shred_payload_sz s <= fd_shred_chain_off (sh_variant s) /\ fd_shred_chain_off (sh_variant s) + FD_SHRED_MERKLE_ROOT_SZ = fd_shred_merkle_off s) /\
  (fd_shred_is_resigned (fd_shred_type (sh_variant s)) = true -> fd_shred_merkle_off s + fd_shred_merkle_sz (sh_variant s) = fd_shred_retransmitter_sig_off s).
Proof.
  intros Hs [Hv Hfit Hsec Hpay Hdata Hcode]. pose proof (valid_variant_facts _ (variant_byte s Hs) Hv) as [Hm Ht Hr Hc Hk]. cbn zeta in Hk.
  pose proof (field_bound 86 2 s Hs) as Hsize. change (field 86 2 s) with (sh_data_size s) in Hsize. change (256 ^ Z.of_nat 2) with 65536 in Hsize.
  assert (0 <= fd_shred_header_sz (sh_variant s)) as Hh by (destruct (has (fd_shred_type (sh_variant s)) FD_SHRED_TYPEMASK_DATA); lia).
  assert (0 <= fd_shred_sz s <= 65536) as Hbound by (unfold fd_shred_sz, FD_SHRED_MAX_SZ, FD_SHRED_MIN_SZ; repeat case_match; lia).
  assert (fd_shred_merkle_off s = fd_shred_sz s - fd_shred_merkle_sz (sh_variant s) - resigned_sz (fd_shred_type (sh_variant s))) as Eoff.
  { unfold fd_shred_merkle_off. rewrite (u64_sub_small (fd_shred_sz s)), (u64_sub_small _ (resigned_sz _)) by small. done. }
  split_and!; [lia| |].
  - intros Ech. assert (chained_sz (fd_shred_type (sh_variant s)) = 32) as E32 by (unfold chained_sz; by rewrite Ech).
    assert (fd_shred_chain_off (sh_variant s) = fd_shred_sz s - 32 - fd_shred_merkle_sz (sh_variant s) - resigned_sz (fd_shred_type (sh_variant s))) as Ech2.
    { assert (fd_shred_sz s = if has (fd_shred_type (sh_variant s)) FD_SHRED_TYPEMASK_CODE then FD_SHRED_MAX_SZ else FD_SHRED_MIN_SZ) as Esz.
      { unfold fd_shred_sz. cbn zeta. destruct (has (fd_shred_type (sh_variant s)) FD_SHRED_TYPEMASK_CODE); [done|]. destruct (Z.eqb_spec (fd_shred_type (sh_variant s)) FD_SHRED_TYPE_LEGACY_DATA) as [E|]; [|done]. rewrite E in Ech. done. }
      unfold fd_shred_chain_off. rewrite <- Esz. unfold FD_SHRED_MERKLE_ROOT_SZ. rewrite (u64_sub_small (fd_shred_sz s) 32), (u64_sub_small _ (fd_shred_merkle_sz _)), (u64_sub_small _ (resigned_sz _)) by small. done. }
    unfold FD_SHRED_MERKLE_ROOT_SZ. lia.
  - intros Ers. assert (resigned_sz (fd_shred_type (sh_variant s)) = 64) as E64 by (unfold resigned_sz; by rewrite Ers). unfold fd_shred_retransmitter_sig_off, FD_SHRED_SIGNATURE_SZ.
    rewrite u64_sub_small by small. lia.
Qed.

(** ** The buffer *)

Lemma shred_ok_sz s sz m : Forall is_byte s -> shred_ok s sz m ->
  88 <= sz /\ (fd_shred_is_data (fd_shred_type (sh_variant s)) = false -> fd_shred_sz s = FD_SHRED_MAX_SZ).
Proof.
  intros Hs [Hv Hfit Hsec Hpay _ _]. pose proof (valid_variant_facts _ (variant_byte s Hs) Hv) as [Hm Ht Hr Hc Hk]. cbn zeta in Hk.
  unfold fd_shred_sz in *. cbn zeta in *. destruct (has (fd_shred_type (sh_variant s)) FD_SHRED_TYPEMASK_DATA); destruct Hk as (Ec & Eh & Ed & _); rewrite Ec in *; split; [lia|by rewrite Ed|lia|done].
Qed.

(** Validation reads the first [sz] bytes only. *)
Lemma shred_ok_take b1 b2 sz m : Forall is_byte b1 -> take (Z.to_nat sz) b1 = take (Z.to_nat sz) b2 -> shred_ok b1 sz m -> shred_ok b2 sz m.
Proof.
  intros Hb Et Hok. destruct (shred_ok_sz b1 sz m Hb Hok) as [Hsz Hcode]. destruct Hok as [Hv Hfit Hsec Hpay Hd Hc].
  assert (forall off n, (off + n <= 88)%nat -> field off n b1 = field off n b2) as Hf.
  { intros off n Hle. rewrite (field_take off n (Z.to_nat sz) b1), (field_take off n (Z.to_nat sz) b2) by lia. by rewrite Et. }
  assert (fd_shred_is_data (fd_shred_type (sh_variant b1)) = false -> sh_code_idx b1 = sh_code_idx b2) as Hci.
  { intros E%Hcode. unfold FD_SHRED_MAX_SZ in E. unfold sh_code_idx. rewrite (field_take 87 2 (Z.to_nat sz) b1), (field_take 87 2 (Z.to_nat sz) b2) by lia. by rewrite Et. }
  assert (sh_variant b1 = sh_variant b2) as Ev by (apply Hf; lia). assert (sh_data_size b1 = sh_data_size b2) as Es by (apply Hf; lia).
  assert (fd_shred_sz b1 = fd_shred_sz b2) as Esz by (unfold fd_shred_sz; by rewrite Ev, Es).
  assert (fd_shred_payload_sz b1 = fd_shred_payload_sz b2) as Epay by (unfold fd_shred_payload_sz; by rewrite Esz, Ev, Es).
  unfold sh_idx, sh_fec_set_idx, sh_slot, sh_data_parent_off, sh_data_flags, sh_code_code_cnt, sh_code_data_cnt in *. rewrite Ev, Esz, Epay, Es in *.
  split; try done; unfold sh_idx, sh_fec_set_idx, sh_slot, sh_data_parent_off, sh_data_flags, sh_code_code_cnt, sh_code_data_cnt.
  - intros E. rewrite <- !Hf by lia. by apply Hd.
  - intros E. rewrite <- !Hf by lia. rewrite <- Hci by done. by apply Hc.
Qed.

(** * The properties *)


(** Validation does not read past the [sz] bytes of the buffer: two buffers that
    agree on them are accepted or rejected alike. *)
Theorem shred_parse_reads_within b1 b2 sz m :
  Forall is_byte b1 -> Forall is_byte b2 -> 0 <= sz <= ULONG_MAX -> take (Z.to_nat sz) b1 = take (Z.to_nat sz) b2 ->
  fd_shred_parse b1 sz m = Some b1 <-> fd_shred_parse b2 sz m = Some b2.
Proof.
  intros H1 H2 Hsz Et. split; intros E.
  - apply parse_complete; [done|done|]. apply (shred_ok_take b1); [done|done|]. by destruct (parse_ok b1 sz m b1 H1 Hsz E).
  - apply parse_complete; [done|done|]. apply (shred_ok_take b2); [done|done|]. by destruct (parse_ok b2 sz m b2 H2 Hsz E).
Qed.

(** ** Examples *)

(** A chained Merkle data shred of slot 5 with parent 4, its payload bytes all [x]. *)
Definition data_shred (idx fec_set_idx flags x : Z) : list Z :=
  repeat 7 64 ++ [0x96] ++ le_store 8 5 ++ le_store 4 idx ++ le_store 2 1 ++ le_store 4 fec_set_idx ++ le_store 2 1 ++ [flags] ++ le_store 2 188 ++ repeat x 1115.

(** A chained Merkle code shred of slot 5. *)
Definition code_shred (idx fec_set_idx x : Z) : list Z :=
  repeat 7 64 ++ [0x66] ++ le_store 8 5 ++ le_store 4 idx ++ le_store 2 1 ++ le_store 4 fec_set_idx ++ le_store 2 32 ++ le_store 2 32 ++ le_store 2 0 ++ repeat x 1139.

Lemma shred_bytes_check l : forallb (fun b => (0 <=? b) && (b <? 256)) l = true -> Forall is_byte l.
Proof. intros H. apply Forall_forall. intros b Hb. rewrite forallb_forall in H. specialize (H b (proj1 (list_elem_of_In _ _) Hb)). unfold is_byte. lia. Qed.


Lemma shred_parse_reads_within_witness : fd_shred_parse (code_shred 3 0 9 ++ [1; 2]) 1228 FD_SHRED_BLK_MAX = Some (code_shred 3 0 9 ++ [1; 2]).
Proof.
  apply (shred_parse_reads_within (code_shred 3 0 9) (code_shred 3 0 9 ++ [1; 2]) 1228 FD_SHRED_BLK_MAX).
  - apply shred_bytes_check. vm_compute. reflexivity.
  - apply shred_bytes_check. vm_compute. reflexivity.
  - unfold ULONG_MAX. lia.
  - vm_compute. reflexivity.
  - vm_compute. reflexivity.
Defined.
