(* ===== verification/Eqvoc.v ===== *)
(** Equivocation: two shreds that prove that a leader produced two blocks for a
    slot, the proof's chunks on the wire, and the bounded stores of shreds, proofs in
    progress and verified slots
    (src/src/choreo/eqvoc/fd_eqvoc.h, src/src/choreo/eqvoc/fd_eqvoc.c). *)
From S2P Require Import Prelude VotorBase Ghost Tower Voters Shred.

(** * Data *)

Inductive eqvoc_err_t :=
| FD_EQVOC_SUCCESS | FD_EQVOC_IGNORED
| FD_EQVOC_ERR_SERDE | FD_EQVOC_ERR_SLOT | FD_EQVOC_ERR_VERSION | FD_EQVOC_ERR_TYPE | FD_EQVOC_ERR_MERKLE | FD_EQVOC_ERR_SIG
| FD_EQVOC_ERR_CHUNK_CNT | FD_EQVOC_ERR_CHUNK_IDX | FD_EQVOC_ERR_CHUNK_LEN | FD_EQVOC_ERR_CHUNK_FROM | FD_EQVOC_ERR_CHUNK_SLOT.

#[export] Instance eqvoc_err_eq_dec : EqDecision eqvoc_err_t.
Proof. solve_decision. Defined.

Definition FD_EQVOC_CHUNK_CNT : Z := 3.
Definition FD_EQVOC_CHUNK_SZ : Z := 1232 - 115 - 63.
Definition FD_EQVOC_CHUNK0_LEN : Z := FD_EQVOC_CHUNK_SZ.
Definition FD_EQVOC_CHUNK1_LEN : Z := FD_EQVOC_CHUNK_SZ.
Definition FD_EQVOC_CHUNK2_LEN_CC : Z := 2 * 8 + 2 * FD_SHRED_MAX_SZ - 2 * FD_EQVOC_CHUNK_SZ.
Definition FD_EQVOC_CHUNK2_LEN_DD : Z := 2 * 8 + 2 * FD_SHRED_MIN_SZ - 2 * FD_EQVOC_CHUNK_SZ.
Definition FD_EQVOC_CHUNK2_LEN_DC : Z := 2 * 8 + FD_SHRED_MIN_SZ + FD_SHRED_MAX_SZ - 2 * FD_EQVOC_CHUNK_SZ.
Definition FD_EQVOC_CHUNK2_LEN_CD : Z := FD_EQVOC_CHUNK2_LEN_DC.

(** A DuplicateShred message; [ck_chunk] is its array of bytes. *)
Record fd_gossip_duplicate_shred_t := mk_chunk { ck_index : Z; ck_slot : Z; ck_num_chunks : Z; ck_chunk_index : Z; ck_chunk_len : Z; ck_chunk : list Z }.
Definition CHUNK_MAX : Z := 1055.

(** A proof in progress: the chunks received as bits, the bytes received, the buffer. *)
Record prf_t := mk_prf { pf_idxs : Z; pf_buf_sz : Z; pf_buf : list Z }.
Definition PRF_BUF_SZ : Z := 2 * FD_SHRED_MAX_SZ + 2 * 8.

(** A voter: the slots of its proofs in progress, the least recently used first. *)
Record eqvoc_vtr_t := mk_evtr { ev_prfs : list Z; ev_prf_cnt : Z }.

(** The keys of the maps are also in lists, the least recently used first. *)
Record fd_eqvoc_t := mk_eqvoc {
  eq_dup_max : Z; eq_fec_max : Z; eq_per_vtr_max : Z; eq_vtr_max : Z;
  eq_dups : gset Z; eq_dup_dlist : list Z;
  eq_fecs : gmap Z fd_shred_t; eq_fec_dlist : list Z;
  eq_prfs : gmap (Z * fd_pubkey_t) prf_t;
  eq_vtrs : gmap fd_pubkey_t eqvoc_vtr_t; eq_vtr_dlist : list fd_pubkey_t
}.

Definition eq_set_dups (e : fd_eqvoc_t) x y := mk_eqvoc (eq_dup_max e) (eq_fec_max e) (eq_per_vtr_max e) (eq_vtr_max e) x y (eq_fecs e) (eq_fec_dlist e) (eq_prfs e) (eq_vtrs e) (eq_vtr_dlist e).
Definition eq_set_fecs (e : fd_eqvoc_t) x y := mk_eqvoc (eq_dup_max e) (eq_fec_max e) (eq_per_vtr_max e) (eq_vtr_max e) (eq_dups e) (eq_dup_dlist e) x y (eq_prfs e) (eq_vtrs e) (eq_vtr_dlist e).
Definition eq_set_prfs (e : fd_eqvoc_t) x := mk_eqvoc (eq_dup_max e) (eq_fec_max e) (eq_per_vtr_max e) (eq_vtr_max e) (eq_dups e) (eq_dup_dlist e) (eq_fecs e) (eq_fec_dlist e) x (eq_vtrs e) (eq_vtr_dlist e).
Definition eq_set_vtrs (e : fd_eqvoc_t) x y := mk_eqvoc (eq_dup_max e) (eq_fec_max e) (eq_per_vtr_max e) (eq_vtr_max e) (eq_dups e) (eq_dup_dlist e) (eq_fecs e) (eq_fec_dlist e) (eq_prfs e) x y.

(** * Construction *)

Definition fd_eqvoc_align : Z := 128.

(** Whether the limits are accepted, in the form the tests of the footprint have. *)
Definition eqvoc_limits_ok (dup_max fec_max per_vtr_max vtr_max : Z) : bool :=
  let dup_max := fd_ulong_pow2_up dup_max in
  let fec_max := fd_ulong_pow2_up fec_max in
  let per_vtr_max := fd_ulong_pow2_up per_vtr_max in
  let vtr_max := fd_ulong_pow2_up vtr_max in
  negb ((dup_max =? 0) || (UINT_MAX <? dup_max) || (fec_max =? 0) || (UINT_MAX <? fec_max) ||
        (per_vtr_max =? 0) || (vtr_max =? 0) || (UINT_MAX <? vtr_max) || (UINT_MAX / vtr_max <? per_vtr_max)).

Definition fd_eqvoc_new (shmem dup_max fec_max per_vtr_max vtr_max : Z) : option fd_eqvoc_t :=
  if shmem =? 0 then None
  else if negb (shmem mod fd_eqvoc_align =? 0) then None
  else if negb (eqvoc_limits_ok dup_max fec_max per_vtr_max vtr_max) then None
  else Some (mk_eqvoc (fd_ulong_pow2_up dup_max) (fd_ulong_pow2_up fec_max) (fd_ulong_pow2_up per_vtr_max) (fd_ulong_pow2_up vtr_max)
                      ∅ [] ∅ [] ∅ ∅ []).

(** The number of proofs in the pool. *)
Definition eq_prf_max (e : fd_eqvoc_t) : Z := eq_per_vtr_max e *w eq_vtr_max e.

(** * Leaders (src/src/flamenco/leaders/fd_leaders.h) *)

Definition FD_EPOCH_SLOTS_PER_ROTATION : Z := 4.
Record fd_epoch_leaders_t := mk_leaders { el_slot0 : Z; el_slot_cnt : Z; el_pub : list fd_pubkey_t; el_sched : list Z }.

Definition fd_epoch_leaders_get (leaders : fd_epoch_leaders_t) (slot : Z) : outcome (option fd_pubkey_t) :=
  let slot_delta := slot -w el_slot0 leaders in
  if slot <? el_slot0 leaders then Ok None
  else if el_slot_cnt leaders <=? slot_delta then Ok None
  else i ← deref (el_sched leaders !! Z.to_nat (slot_delta / FD_EPOCH_SLOTS_PER_ROTATION));
       pub ← deref (el_pub leaders !! Z.to_nat i);
       Ok (Some pub).

(** * Queries: a hit moves to the tail of its list *)

(** [dlist_ele_remove] of a key. *)
Definition key_del (k : Z) (l : list Z) : list Z := filter (fun x => x <> k) l.

Definition dup_query (e : fd_eqvoc_t) (slot : Z) : fd_eqvoc_t * bool :=
  if bool_decide (slot ∈ eq_dups e) then (eq_set_dups e (eq_dups e) (key_del slot (eq_dup_dlist e) ++ [slot]), true) else (e, false).

Definition fec_key (slot fec_set_idx : Z) : Z := Z.lor (u64 (Z.shiftl slot 32)) fec_set_idx.

Definition fec_query (e : fd_eqvoc_t) (slot fec_set_idx : Z) : fd_eqvoc_t * option fd_shred_t :=
  let key := fec_key slot fec_set_idx in
  match eq_fecs e !! key with
  | Some fec => (eq_set_fecs e (eq_fecs e) (key_del key (eq_fec_dlist e) ++ [key]), Some fec)
  | None => (e, None)
  end.

Definition prf_query (e : fd_eqvoc_t) (from : fd_pubkey_t) (vtr : eqvoc_vtr_t) (slot : Z) : fd_eqvoc_t * option prf_t :=
  match eq_prfs e !! (slot, from) with
  | Some prf => (eq_set_vtrs e (<[from := mk_evtr (key_del slot (ev_prfs vtr) ++ [slot]) (ev_prf_cnt vtr)]> (eq_vtrs e)) (eq_vtr_dlist e), Some prf)
  | None => (e, None)
  end.

(** * Inserts: the head of the list makes room *)

Definition dup_insert (e : fd_eqvoc_t) (slot : Z) : outcome fd_eqvoc_t :=
  e ← (if Z.of_nat (size (eq_dups e)) <? eq_dup_max e then Ok e else
       match eq_dup_dlist e with
       | [] => Fail NullPtr
       | dup :: rest => Ok (eq_set_dups e (eq_dups e ∖ {[dup]}) rest)
       end);
  Ok (eq_set_dups e ({[slot]} ∪ eq_dups e) (eq_dup_dlist e ++ [slot])).

(** Makes room for an element of [fec_map]. *)
Definition fec_evict (e : fd_eqvoc_t) : outcome fd_eqvoc_t :=
  if Z.of_nat (size (eq_fecs e)) <? eq_fec_max e then Ok e else
  match eq_fec_dlist e with
  | [] => Fail NullPtr
  | fec :: rest => Ok (eq_set_fecs e (delete fec (eq_fecs e)) rest)
  end.

(** The shred that the caller copies into the new element is passed along. *)
Definition fec_insert (e : fd_eqvoc_t) (slot fec_set_idx : Z) (sample : fd_shred_t) : outcome fd_eqvoc_t :=
  let key := fec_key slot fec_set_idx in
  e ← fec_evict e;
  Ok (eq_set_fecs e (<[key := sample]> (eq_fecs e)) (eq_fec_dlist e ++ [key])).

(** Drops the least recently used proof of a voter that has used up its quota. *)
Definition prf_evict (e : fd_eqvoc_t) (from : fd_pubkey_t) (vtr : eqvoc_vtr_t) : outcome (fd_eqvoc_t * eqvoc_vtr_t) :=
  if negb (ev_prf_cnt vtr =? eq_per_vtr_max e) then Ok (e, vtr) else
  match ev_prfs vtr with
  | [] => Fail NullPtr
  | evict :: rest => Ok (eq_set_prfs e (delete (evict, from) (eq_prfs e)), mk_evtr rest (ev_prf_cnt vtr -w 1))
  end.

(** The bytes of a new proof's buffer are written before they are read. *)
Definition prf_insert (e : fd_eqvoc_t) (slot : Z) (from : fd_pubkey_t) : outcome (fd_eqvoc_t * prf_t) :=
  match eq_vtrs e !! from with
  | None => Fail FdTest
  | Some vtr =>
      r ← prf_evict e from vtr;
      let '(e, vtr) := r in
      check OutOfBounds (Z.of_nat (size (eq_prfs e)) <? eq_prf_max e);;
      let prf := mk_prf 0 0 (repeat 0 (Z.to_nat PRF_BUF_SZ)) in
      let e := eq_set_prfs e (<[(slot, from) := prf]> (eq_prfs e)) in
      Ok (eq_set_vtrs e (<[from := mk_evtr (ev_prfs vtr ++ [slot]) (ev_prf_cnt vtr +w 1)]> (eq_vtrs e)) (eq_vtr_dlist e), prf)
  end.

(** * Proofs *)

Definition is_last_shred (shred : fd_shred_t) : bool :=
  fd_shred_is_data (fd_shred_type (sh_variant shred)) && has (sh_data_flags shred) FD_SHRED_DATA_FLAG_SLOT_COMPLETE.

(** A chunk's array holds what is written to it. *)
Definition chunk_of (shred1 : fd_shred_t) (i : Z) (bytes : list Z) (chunk_len : Z) : outcome fd_gossip_duplicate_shred_t :=
  check OutOfBounds (Z.of_nat (length bytes) <=? CHUNK_MAX);;
  Ok (mk_chunk i (sh_slot shred1) FD_EQVOC_CHUNK_CNT i chunk_len bytes).

Definition construct_proof (shred1 shred2 : fd_shred_t) : outcome (list fd_gossip_duplicate_shred_t) :=
  let shred1_sz := fd_shred_sz shred1 in
  let shred2_sz := fd_shred_sz shred2 in
  bytes ← mem_read shred1 0 (FD_EQVOC_CHUNK_SZ -w 8);
  chunk0 ← chunk_of shred1 0 (le_store 8 shred1_sz ++ bytes) FD_EQVOC_CHUNK_SZ;
  let shred1_off := FD_EQVOC_CHUNK_SZ -w 8 in
  let shred1_rem := shred1_sz -w shred1_off in
  tail1 ← mem_read shred1 shred1_off shred1_rem;
  let chunk1_off := shred1_rem +w 8 in
  let chunk1_rem := FD_EQVOC_CHUNK_SZ -w chunk1_off in
  head2 ← mem_read shred2 0 chunk1_rem;
  chunk1 ← chunk_of shred1 1 (tail1 ++ le_store 8 shred2_sz ++ head2) FD_EQVOC_CHUNK_SZ;
  let shred2_off := chunk1_rem in
  let shred2_rem := shred2_sz -w shred2_off in
  tail2 ← mem_read shred2 shred2_off shred2_rem;
  chunk2 ← chunk_of shred1 2 tail2 shred2_rem;
  Ok [chunk0; chunk1; chunk2].

(** The two shreds in the buffer of a complete proof; [None] is [FD_EQVOC_ERR_SERDE]. *)
Definition proof_shreds (buf : list Z) (buf_sz slot : Z) : option (fd_shred_t * fd_shred_t) :=
  let off := 0 in
  if buf_sz -w off <? 8 then None else
  let shred1_sz := le_load (take 8 buf) in
  let off := off +w 8 in
  if buf_sz -w off <? shred1_sz then None else
  match fd_shred_parse (drop (Z.to_nat off) buf) shred1_sz FD_SHRED_BLK_MAX with
  | None => None
  | Some shred1 =>
      if negb (fd_shred_sz shred1 =? shred1_sz) then None else
      let off := off +w shred1_sz in
      if buf_sz -w off <? 8 then None else
      let shred2_sz := le_load (take 8 (drop (Z.to_nat off) buf)) in
      let off := off +w 8 in
      if buf_sz -w off <? shred2_sz then None else
      match fd_shred_parse (drop (Z.to_nat off) buf) shred2_sz FD_SHRED_BLK_MAX with
      | None => None
      | Some shred2 =>
          if negb (fd_shred_sz shred2 =? shred2_sz) then None else
          let off := off +w shred2_sz in
          if negb (off =? buf_sz) then None else
          if negb (sh_slot shred1 =? slot) || negb (sh_slot shred2 =? slot) then None else
          Some (shred1, shred2)
      end
  end.

(** The Merkle tree's hash of a leaf and insertion with a proof
    (src/src/ballet/bmtree) and the signature check (src/src/ballet/ed25519). *)
Section Eqvoc.
Context (hash_leaf : list Z -> list Z) (insert_with_proof : Z -> list Z -> list Z -> Z -> option (list Z)).
Context (fd_ed25519_verify : list Z -> list Z -> fd_pubkey_t -> bool).

Definition eqvoc_merkle_root : fd_shred_t -> option (list Z) := fd_shred_merkle_root hash_leaf insert_with_proof.

(** The signatures, if a schedule is there to tell the leader. *)
Definition verify_sigs (leader_schedule : option fd_epoch_leaders_t) (shred1 shred2 : fd_shred_t) (mr1 mr2 : list Z) : outcome bool :=
  match leader_schedule with
  | None => Ok true
  | Some sched =>
      leader ← fd_epoch_leaders_get sched (sh_slot shred1);
      match leader with
      | None => Ok false
      | Some leader => Ok (fd_ed25519_verify mr1 (sh_signature shred1) leader && fd_ed25519_verify mr2 (sh_signature shred2) leader)
      end
  end.

(** Two data shreds of which the one with the lower index ends the slot. *)
Definition last_shred_conflict (shred1 shred2 : fd_shred_t) : bool :=
  fd_shred_is_data (fd_shred_type (sh_variant shred1)) && fd_shred_is_data (fd_shred_type (sh_variant shred2)) &&
  ((has (sh_data_flags shred1) FD_SHRED_DATA_FLAG_SLOT_COMPLETE && (sh_idx shred1 <? sh_idx shred2)) ||
   (has (sh_data_flags shred2) FD_SHRED_DATA_FLAG_SLOT_COMPLETE && (sh_idx shred2 <? sh_idx shred1))).

Definition verify_proof (shred_version : Z) (leader_schedule : option fd_epoch_leaders_t) (shred1 shred2 : fd_shred_t) : outcome eqvoc_err_t :=
  if negb (sh_slot shred1 =? sh_slot shred2) then Ok FD_EQVOC_ERR_SLOT
  else if negb (sh_version shred1 =? shred_version) then Ok FD_EQVOC_ERR_VERSION
  else if negb (sh_version shred2 =? shred_version) then Ok FD_EQVOC_ERR_VERSION
  else if negb (fd_shred_is_chained (fd_shred_type (sh_variant shred1))) then Ok FD_EQVOC_ERR_TYPE
  else if negb (fd_shred_is_chained (fd_shred_type (sh_variant shred2))) then Ok FD_EQVOC_ERR_TYPE
  else match eqvoc_merkle_root shred1 with
  | None => Ok FD_EQVOC_ERR_MERKLE
  | Some mr1 =>
      match eqvoc_merkle_root shred2 with
      | None => Ok FD_EQVOC_ERR_MERKLE
      | Some mr2 =>
          sigs ← verify_sigs leader_schedule shred1 shred2 mr1 mr2;
          if negb sigs then Ok FD_EQVOC_ERR_SIG
          else if last_shred_conflict shred1 shred2 then Ok FD_EQVOC_SUCCESS
          else if (sh_fec_set_idx shred1 =? sh_fec_set_idx shred2) && negb (bool_decide (mr1 = mr2)) then Ok FD_EQVOC_SUCCESS
          else Ok FD_EQVOC_IGNORED
      end
  end.

(** * Shreds *)

(** [fd_memcpy( &fec->sample_shred, shred, fd_shred_sz( shred ) )]. *)
Definition sample_of (shred : fd_shred_t) : outcome fd_shred_t :=
  check OutOfBounds (fd_shred_sz shred <=? FD_SHRED_MAX_SZ);;
  mem_read shred 0 (fd_shred_sz shred).

(** The proof's chunks if one was constructed (the code's return value 1). *)
Definition fd_eqvoc_shred_insert (e : fd_eqvoc_t) (shred_hint : bool) (shred : fd_shred_t)
    : outcome (fd_eqvoc_t * option (list fd_gossip_duplicate_shred_t)) :=
  let slot := sh_slot shred in
  let '(e, dup) := dup_query e slot in
  if dup then Ok (e, None) else
  if shred_hint then
    let '(e, fec) := fec_query e slot (sh_fec_set_idx shred) in
    match fec with
    | None => Ok (e, None)
    | Some sample =>
        chunks ← construct_proof sample shred;
        e ← dup_insert e slot;
        let key := fec_key slot (sh_fec_set_idx shred) in
        Ok (eq_set_fecs e (delete key (eq_fecs e)) (key_del key (eq_fec_dlist e)), Some chunks)
    end
  else
    let '(e, last) := fec_query e slot UINT_MAX in
    r ← (match last with
         | None => s ← sample_of shred; e ← fec_insert e slot UINT_MAX s; Ok (e, None)
         | Some sample =>
             if (is_last_shred shred && (sh_idx shred <? sh_idx sample)) || (is_last_shred sample && (sh_idx sample <? sh_idx shred)) then
               chunks ← construct_proof shred sample;
               e ← dup_insert e slot;
               Ok (e, Some chunks)
             else if sh_idx sample <? sh_idx shred then
               s ← sample_of shred;
               Ok (eq_set_fecs e (<[fec_key slot UINT_MAX := s]> (eq_fecs e)) (eq_fec_dlist e), None)
             else Ok (e, None)
         end);
    let '(e, proof) := r in
    match proof with
    | Some chunks => Ok (e, Some chunks)
    | None =>
        let '(e, fec) := fec_query e slot (sh_fec_set_idx shred) in
        match fec with
        | Some _ => Ok (e, None)
        | None => s ← sample_of shred; e ← fec_insert e slot (sh_fec_set_idx shred) s; Ok (e, None)
        end
    end.

(** * Chunks *)

(** The checks of a chunk's length against its index. *)
Definition chunk_len_ok (chunk : fd_gossip_duplicate_shred_t) : bool :=
  let idx := ck_chunk_index chunk in
  let len := ck_chunk_len chunk in
  negb ((idx =? 0) && negb (len =? FD_EQVOC_CHUNK0_LEN)) && negb ((idx =? 1) && negb (len =? FD_EQVOC_CHUNK1_LEN)) &&
  negb ((idx =? 2) && negb (len =? FD_EQVOC_CHUNK2_LEN_CC) && negb (len =? FD_EQVOC_CHUNK2_LEN_DD) &&
        negb (len =? FD_EQVOC_CHUNK2_LEN_DC) && negb (len =? FD_EQVOC_CHUNK2_LEN_CD)).

(** [fd_memcpy( prf->buf + off, bytes, len )]. *)
Definition buf_write (buf : list Z) (off : Z) (bytes : list Z) : outcome (list Z) :=
  check OutOfBounds ((0 <=? off) && (off + Z.of_nat (length bytes) <=? Z.of_nat (length buf)));;
  Ok (take (Z.to_nat off) buf ++ bytes ++ drop (Z.to_nat off + length bytes) buf).

(** The chunk's bytes in the proof, marked as received. *)
Definition prf_add (prf : prf_t) (chunk : fd_gossip_duplicate_shred_t) : outcome prf_t :=
  bytes ← mem_read (ck_chunk chunk) 0 (ck_chunk_len chunk);
  buf ← buf_write (pf_buf prf) (ck_chunk_index chunk *w FD_EQVOC_CHUNK_SZ) bytes;
  Ok (mk_prf (Z.lor (pf_idxs prf) (Z.shiftl 1 (ck_chunk_index chunk))) (pf_buf_sz prf +w ck_chunk_len chunk) buf).

(** Releases a complete proof. *)
Definition prf_release (e : fd_eqvoc_t) (from : fd_pubkey_t) (slot : Z) : outcome fd_eqvoc_t :=
  vtr ← deref (eq_vtrs e !! from);
  let e := eq_set_prfs e (delete (slot, from) (eq_prfs e)) in
  Ok (eq_set_vtrs e (<[from := mk_evtr (key_del slot (ev_prfs vtr)) (ev_prf_cnt vtr -w 1)]> (eq_vtrs e)) (eq_vtr_dlist e)).

(** Verifies a complete proof and releases it; with the chunks if it holds. *)
Definition prf_complete (e : fd_eqvoc_t) (shred_version : Z) (leader_schedule : option fd_epoch_leaders_t) (from : fd_pubkey_t) (slot : Z) (prf : prf_t)
    : outcome (fd_eqvoc_t * eqvoc_err_t * option (list fd_gossip_duplicate_shred_t)) :=
  r ← (match proof_shreds (pf_buf prf) (pf_buf_sz prf) slot with
       | None => Ok (e, FD_EQVOC_ERR_SERDE, None)
       | Some (shred1, shred2) =>
           err ← verify_proof shred_version leader_schedule shred1 shred2;
           if bool_decide (err = FD_EQVOC_SUCCESS) then
             chunks ← construct_proof shred1 shred2;
             e ← dup_insert e slot;
             Ok (e, err, Some chunks)
           else Ok (e, err, None)
       end);
  let '(e, err, chunks) := r in
  e ← prf_release e from slot;
  Ok (e, err, chunks).

Definition fd_eqvoc_chunk_insert (e : fd_eqvoc_t) (root shred_version : Z) (leader_schedule : option fd_epoch_leaders_t) (from : fd_pubkey_t)
    (chunk : fd_gossip_duplicate_shred_t) : outcome (fd_eqvoc_t * eqvoc_err_t * option (list fd_gossip_duplicate_shred_t)) :=
  let slot := ck_slot chunk in
  if slot <=? root then Ok (e, FD_EQVOC_ERR_CHUNK_SLOT, None) else
  match eq_vtrs e !! from with
  | None => Ok (e, FD_EQVOC_ERR_CHUNK_FROM, None)
  | Some vtr =>
      if negb (ck_num_chunks chunk =? FD_EQVOC_CHUNK_CNT) then Ok (e, FD_EQVOC_ERR_CHUNK_CNT, None) else
      if FD_EQVOC_CHUNK_CNT <=? ck_chunk_index chunk then Ok (e, FD_EQVOC_ERR_CHUNK_IDX, None) else
      if negb (chunk_len_ok chunk) then Ok (e, FD_EQVOC_ERR_CHUNK_LEN, None) else
      let '(e, dup) := dup_query e slot in
      if dup then Ok (e, FD_EQVOC_IGNORED, None) else
      let '(e, prf) := prf_query e from vtr slot in
      r ← (match prf with Some prf => Ok (e, prf) | None => prf_insert e slot from end);
      let '(e, prf) := r in
      if Z.testbit (pf_idxs prf) (ck_chunk_index chunk) then Ok (e, FD_EQVOC_IGNORED, None) else
      prf ← prf_add prf chunk;
      let e := eq_set_prfs e (<[(slot, from) := prf]> (eq_prfs e)) in
      if negb (pf_idxs prf =? 7) then Ok (e, FD_EQVOC_IGNORED, None) else
      prf_complete e shred_version leader_schedule from slot prf
  end.
End Eqvoc.

Definition fd_eqvoc_proof_verified (e : fd_eqvoc_t) (slot : Z) : fd_eqvoc_t * bool := dup_query e slot.

(** * A new set of voters *)

Definition eqvoc_release_vtr (e : fd_eqvoc_t) (from : fd_pubkey_t) : outcome fd_eqvoc_t :=
  vtr ← deref (eq_vtrs e !! from);
  let e := eq_set_prfs e (foldl (fun m slot => delete (slot, from) m) (eq_prfs e) (ev_prfs vtr)) in
  Ok (eq_set_vtrs e (delete from (eq_vtrs e)) (eq_vtr_dlist e)).

Definition eqvoc_add_vtr (e : fd_eqvoc_t) (id : fd_pubkey_t) : outcome fd_eqvoc_t :=
  match eq_vtrs e !! id with
  | Some _ => Ok e
  | None =>
      check OutOfBounds (Z.of_nat (size (eq_vtrs e)) <? eq_vtr_max e);;
      Ok (eq_set_vtrs e (<[id := mk_evtr [] 0]> (eq_vtrs e)) (eq_vtr_dlist e ++ [id]))
  end.

Definition fd_eqvoc_update_voters (e : fd_eqvoc_t) (id_keys : list fd_pubkey_t) : outcome fd_eqvoc_t :=
  let '(dlist, marks) := keep_voters (eq_vtrs e) (eq_vtr_dlist e) id_keys in
  sw ← sweep_voters eqvoc_release_vtr marks e dlist;
  ofold eqvoc_add_vtr (eq_set_vtrs sw.1 (eq_vtrs sw.1) sw.2) id_keys.
