(* ===== verification/EqvocProof.v ===== *)
(** Equivocation proofs on the wire: the chunks of a proof are those of its encoding,
    the two shreds are read back from them, and verification sees the same shreds. *)
From S2P Require Import Prelude VotorBase Ghost Tower Voters Shred ShredProps Eqvoc.

(** * Merkle shreds *)

(** The shreds that proofs are about: Merkle variants, which have a fixed size. *)
Definition merkle_type (t : Z) : bool := negb (t =? FD_SHRED_TYPE_LEGACY_DATA) && negb (t =? FD_SHRED_TYPE_LEGACY_CODE).

Record merkle_shred (s : fd_shred_t) : Prop := {
  ms_bytes : Forall is_byte s;
  ms_variant : valid_variant (sh_variant s) = true;
  ms_type : merkle_type (fd_shred_type (sh_variant s)) = true;
  ms_length : fd_shred_sz s <= Z.of_nat (length s)
}.

Lemma merkle_sz s : Forall is_byte s -> valid_variant (sh_variant s) = true -> merkle_type (fd_shred_type (sh_variant s)) = true ->
  fd_shred_sz s = if fd_shred_is_data (fd_shred_type (sh_variant s)) then FD_SHRED_MIN_SZ else FD_SHRED_MAX_SZ.
Proof.
  intros Hb Hv Ht. pose proof (valid_variant_facts _ (variant_byte s Hb) Hv) as [_ _ _ _ Hk]. cbn zeta in Hk. unfold fd_shred_sz. cbn zeta. apply andb_true_iff in Ht as [Ht _].
  apply negb_true_iff in Ht. destruct (has (fd_shred_type (sh_variant s)) FD_SHRED_TYPEMASK_DATA); destruct Hk as (-> & _ & -> & _); [by rewrite Ht|done].
Qed.

Lemma merkle_sz_bounds s : merkle_shred s -> fd_shred_sz s = 1203 \/ fd_shred_sz s = 1228.
Proof. intros [Hb Hv Ht _]. rewrite (merkle_sz s Hb Hv Ht). unfold FD_SHRED_MIN_SZ, FD_SHRED_MAX_SZ. destruct (fd_shred_is_data _); auto. Qed.

(** * The encoding *)

Definition shred_bytes (s : fd_shred_t) : list Z := take (Z.to_nat (fd_shred_sz s)) s.

(** [ shred1_sz (8 bytes) | shred1 | shred2_sz (8 bytes) | shred2 ] *)
Definition encoding (s1 s2 : fd_shred_t) : list Z := le_store 8 (fd_shred_sz s1) ++ shred_bytes s1 ++ le_store 8 (fd_shred_sz s2) ++ shred_bytes s2.

Definition chunk_spec (slot i : Z) (bytes : list Z) : fd_gossip_duplicate_shred_t := mk_chunk i slot 3 i (Z.of_nat (length bytes)) bytes.

(** The encoding cut in three. *)
Definition chunks_spec (s1 s2 : fd_shred_t) : list fd_gossip_duplicate_shred_t :=
  let enc := encoding s1 s2 in
  [chunk_spec (sh_slot s1) 0 (take 1054 enc); chunk_spec (sh_slot s1) 1 (take 1054 (drop 1054 enc)); chunk_spec (sh_slot s1) 2 (drop 2108 enc)].


Lemma shred_bytes_length s : merkle_shred s -> length (shred_bytes s) = Z.to_nat (fd_shred_sz s).
Proof. intros Hs. pose proof (merkle_sz_bounds s Hs). pose proof (ms_length s Hs). unfold shred_bytes. rewrite length_take. lia. Qed.

Lemma encoding_length s1 s2 : merkle_shred s1 -> merkle_shred s2 -> length (encoding s1 s2) = Z.to_nat (16 + fd_shred_sz s1 + fd_shred_sz s2).
Proof.
  intros H1 H2. unfold encoding. rewrite !length_app, !le_store_length, !shred_bytes_length by done. pose proof (merkle_sz_bounds s1 H1). pose proof (merkle_sz_bounds s2 H2). lia.
Qed.

Lemma take_past {A} (l1 l2 : list A) k n : length l1 = k -> take (k + n) (l1 ++ l2) = l1 ++ take n l2.
Proof. intros <-. rewrite take_app, take_ge by lia. f_equal. f_equal. lia. Qed.

Lemma drop_past {A} (l1 l2 : list A) k n : length l1 = k -> drop (k + n) (l1 ++ l2) = drop n l2.
Proof. intros <-. rewrite drop_app, drop_ge by lia. cbn. f_equal. lia. Qed.

(** The first chunk ends inside the first shred, the second one inside the second shred. *)
Lemma construct_proof_spec s1 s2 : merkle_shred s1 -> merkle_shred s2 -> construct_proof s1 s2 = Ok (chunks_spec s1 s2).
Proof.
  intros H1 H2. pose proof (merkle_sz_bounds s1 H1) as B1. pose proof (merkle_sz_bounds s2 H2) as B2. pose proof (ms_length s1 H1) as L1. pose proof (ms_length s2 H2) as L2.
  pose proof (encoding_length s1 s2 H1 H2) as Le. pose proof (shred_bytes_length s1 H1) as Lb1. pose proof (shred_bytes_length s2 H2) as Lb2. set (z1 := fd_shred_sz s1) in *. set (z2 := fd_shred_sz s2) in *.
  assert (take 1054 (encoding s1 s2) = le_store 8 z1 ++ take 1046 s1) as E0.
  { unfold encoding. fold z1 z2. change 1054%nat with (8 + 1046)%nat. rewrite (take_past _ _ 8) by apply le_store_length. f_equal.
    rewrite take_app_le by lia. unfold shred_bytes. rewrite take_take. f_equal. lia. }
  assert (drop 1054 (encoding s1 s2) = drop 1046 (shred_bytes s1) ++ le_store 8 z2 ++ shred_bytes s2) as E1.
  { unfold encoding. fold z1 z2. change 1054%nat with (8 + 1046)%nat. rewrite (drop_past _ _ 8) by apply le_store_length. apply drop_app_le. lia. }
  set (q := Z.to_nat (z1 - 1046)). set (r := Z.to_nat (2092 - z1)).
  assert (drop 1046 (shred_bytes s1) = take q (drop 1046 s1)) as E1' by (unfold shred_bytes; fold z1; rewrite take_drop_commute; f_equal; f_equal; lia).
  assert (length (take q (drop 1046 s1)) = q) as Ld by (rewrite length_take, length_drop; lia). rewrite E1' in E1.
  assert (take 1054 (drop 1054 (encoding s1 s2)) = take q (drop 1046 s1) ++ le_store 8 z2 ++ take r s2) as E2.
  { rewrite E1. replace 1054%nat with (q + (8 + r))%nat by lia. rewrite (take_past _ _ q) by done. f_equal. rewrite (take_past _ _ 8) by apply le_store_length. f_equal.
    unfold shred_bytes. rewrite take_take. f_equal. lia. }
  set (w := Z.to_nat (z2 - (2092 - z1))). assert (drop 2108 (encoding s1 s2) = take w (drop r s2)) as E3.
  { change 2108%nat with (1054 + 1054)%nat. rewrite <- drop_drop, E1. replace 1054%nat with (q + (8 + r))%nat by lia. rewrite (drop_past _ _ q) by done.
    rewrite (drop_past _ _ 8) by apply le_store_length. unfold shred_bytes. fold z2. rewrite take_drop_commute. f_equal. f_equal. lia. }
  unfold construct_proof, chunks_spec. rewrite E0, E2, E3. fold z1 z2. change (FD_EQVOC_CHUNK_SZ -w 8) with 1046. change FD_EQVOC_CHUNK_SZ with 1054.
  rewrite (mem_read_ok s1 0 1046) by lia. cbn [mbind outcome_bind]. change (drop (Z.to_nat 0) s1) with s1. change (Z.to_nat 1046) with 1046%nat.
  rewrite (u64_sub_small z1 1046), (u64_add_small _ 8), (u64_sub_small 1054), (u64_sub_small z2) by small. replace (1054 - (z1 - 1046 + 8)) with (2092 - z1) by lia.
  rewrite (mem_read_ok s1 1046), (mem_read_ok s2 0), (mem_read_ok s2 (2092 - z1)) by lia. change (Z.to_nat 1046) with 1046%nat. change (drop (Z.to_nat 0) s2) with s2. fold q r w.
  assert (length (le_store 8 z1 ++ take 1046 s1) = 1054%nat) as N0 by (rewrite length_app, le_store_length, length_take; lia).
  assert (length (take q (drop 1046 s1) ++ le_store 8 z2 ++ take r s2) = 1054%nat) as N1 by (rewrite !length_app, le_store_length, Ld, length_take; lia).
  assert (length (take w (drop r s2)) = w) as N2 by (rewrite length_take, length_drop; lia).
  unfold chunk_of, chunk_spec, CHUNK_MAX. rewrite N0. change (Z.of_nat 1054 <=? 1055) with true. cbn [mbind outcome_bind check].
  rewrite N1. change (Z.of_nat 1054 <=? 1055) with true. cbn [mbind outcome_bind check]. rewrite N2, (proj2 (Z.leb_le (Z.of_nat w) 1055)) by lia. cbn [mbind outcome_bind check].
  replace (Z.of_nat w) with (z2 - (2092 - z1)) by lia. done.
Qed.

(** * Two pointers to the same shred *)

(** The bytes of a shred at another address, with other bytes after them. *)
Definition same (s s' : fd_shred_t) : Prop := take (Z.to_nat (fd_shred_sz s)) s = take (Z.to_nat (fd_shred_sz s)) s'.

Lemma slice_same {A} (l l' : list A) z off n : take z l = take z l' -> (off + n <= z)%nat -> take n (drop off l) = take n (drop off l').
Proof.
  intros E Hle. rewrite !take_drop_commute. f_equal. replace (take (off + n) l) with (take (off + n) (take z l)) by (rewrite take_take; f_equal; lia).
  rewrite E, take_take. f_equal. lia.
Qed.

Lemma same_field s s' off n : merkle_shred s -> same s s' -> (off + n <= 1203)%nat -> field off n s = field off n s'.
Proof. intros Hs E Hle. pose proof (merkle_sz_bounds s Hs). unfold field. f_equal. apply (slice_same s s' (Z.to_nat (fd_shred_sz s))); [exact E|lia]. Qed.

Lemma same_variant s s' : merkle_shred s -> same s s' -> sh_variant s' = sh_variant s.
Proof. intros Hs E. symmetry. apply (same_field s s' 64 1 Hs E). lia. Qed.

Lemma same_sz s s' : merkle_shred s -> same s s' -> fd_shred_sz s' = fd_shred_sz s.
Proof.
  intros Hs E. unfold fd_shred_sz. rewrite (same_variant s s' Hs E). unfold sh_data_size. by rewrite (same_field s s' 86 2 Hs E) by lia.
Qed.

Lemma same_merkle s s' : merkle_shred s -> same s s' -> Forall is_byte s' -> merkle_shred s'.
Proof.
  intros Hs E Hb. pose proof (same_sz s s' Hs E) as Ez. pose proof (merkle_sz_bounds s Hs) as B. pose proof (ms_length s Hs) as L. split; [done| | |]; rewrite ?(same_variant s s' Hs E); [apply Hs|apply Hs|].
  rewrite Ez. apply (f_equal length) in E. rewrite !length_take in E. lia.
Qed.

(** The leaf of the tree is what lies between the signature and the Merkle proof. *)
Definition leaf_check (v : Z) : bool :=
  implb (valid_variant v && merkle_type (fd_shred_type v) && (fd_shred_merkle_cnt v =? 6))
    (64 + merkle_protected_sz v =? (if fd_shred_is_data (fd_shred_type v) then FD_SHRED_MIN_SZ else FD_SHRED_MAX_SZ) - fd_shred_merkle_sz v - resigned_sz (fd_shred_type v)).

Lemma leaf_checks : forallb leaf_check (seqZ 0 256) = true.
Proof. vm_compute. reflexivity. Qed.

Lemma merkle_off_eq s : merkle_shred s ->
  fd_shred_merkle_off s = fd_shred_sz s - fd_shred_merkle_sz (sh_variant s) - resigned_sz (fd_shred_type (sh_variant s)) /\
  0 <= fd_shred_merkle_sz (sh_variant s) <= 300 /\ 0 <= resigned_sz (fd_shred_type (sh_variant s)) <= 64.
Proof.
  intros Hs. pose proof (merkle_sz_bounds s Hs). pose proof (valid_variant_facts _ (variant_byte s (ms_bytes s Hs)) (ms_variant s Hs)) as [Hm _ Hr _ _].
  split_and!; try lia. unfold fd_shred_merkle_off. rewrite (u64_sub_small (fd_shred_sz s)), (u64_sub_small _ (resigned_sz _)) by small. done.
Qed.

Lemma leaf_covers s : merkle_shred s -> fd_shred_merkle_cnt (sh_variant s) = 6 -> 64 + merkle_protected_sz (sh_variant s) = fd_shred_merkle_off s.
Proof.
  intros Hs E6. destruct (merkle_off_eq s Hs) as [-> _]. rewrite (merkle_sz s (ms_bytes s Hs) (ms_variant s Hs) (ms_type s Hs)).
  pose proof leaf_checks as Hc. rewrite forallb_forall in Hc. pose proof (variant_byte s (ms_bytes s Hs)) as Hb. specialize (Hc (sh_variant s)). rewrite <- list_elem_of_In, elem_of_seqZ in Hc.
  specialize (Hc ltac:(unfold is_byte in Hb; lia)). unfold leaf_check in Hc. rewrite (ms_variant s Hs), (ms_type s Hs), E6 in Hc. cbn [andb implb Z.eqb Pos.eqb] in Hc. by apply Z.eqb_eq in Hc.
Qed.

Section Verify.
Context (hash_leaf : list Z -> list Z) (insert_with_proof : Z -> list Z -> list Z -> Z -> option (list Z)).
Context (ed25519_verify : list Z -> list Z -> fd_pubkey_t -> bool).

Lemma merkle_root_same s s' : merkle_shred s -> same s s' -> eqvoc_merkle_root hash_leaf insert_with_proof s' = eqvoc_merkle_root hash_leaf insert_with_proof s.
Proof.
  intros Hs E. pose proof (same_variant s s' Hs E) as Ev. pose proof (merkle_sz_bounds s Hs) as B. destruct (merkle_off_eq s Hs) as (Eo & Bm & Br).
  unfold eqvoc_merkle_root, fd_shred_merkle_root. rewrite Ev. change (FD_SHRED_MERKLE_LAYER_CNT -w 1) with 6. destruct (Z.eqb_spec (fd_shred_merkle_cnt (sh_variant s)) 6) as [E6|]; [|done].
  cbn [negb]. pose proof (leaf_covers s Hs E6) as Hcov.
  assert (merkle_leaf_idx s' = merkle_leaf_idx s) as ->.
  { unfold merkle_leaf_idx, sh_idx, sh_fec_set_idx, sh_code_idx, sh_code_data_cnt. by rewrite Ev, !(same_field s s' _ _ Hs E) by lia. }
  assert (fd_shred_merkle_off s' = fd_shred_merkle_off s) as Eoff by (unfold fd_shred_merkle_off; by rewrite (same_sz s s' Hs E), Ev).
  assert (0 <= merkle_protected_sz (sh_variant s)) as Hp by lia.
  rewrite (slice_same s' s (Z.to_nat (fd_shred_sz s)) 64 (Z.to_nat (merkle_protected_sz (sh_variant s)))) by (try done; lia).
  unfold fd_shred_merkle_nodes. rewrite Eoff. rewrite (slice_same s' s (Z.to_nat (fd_shred_sz s)) (Z.to_nat (fd_shred_merkle_off s))) by (try done; lia). done.
Qed.

(** Verification does not see where a shred is. *)
Lemma verify_proof_same ver sched s1 s2 s1' s2' : merkle_shred s1 -> merkle_shred s2 -> same s1 s1' -> same s2 s2' ->
  verify_proof hash_leaf insert_with_proof ed25519_verify ver sched s1' s2' = verify_proof hash_leaf insert_with_proof ed25519_verify ver sched s1 s2.
Proof.
  intros H1 H2 E1 E2. unfold verify_proof. rewrite (merkle_root_same s1 s1' H1 E1), (merkle_root_same s2 s2' H2 E2), (same_variant s1 s1' H1 E1), (same_variant s2 s2' H2 E2).
  unfold last_shred_conflict, verify_sigs. rewrite (same_variant s1 s1' H1 E1), (same_variant s2 s2' H2 E2).
  unfold sh_slot, sh_version, sh_fec_set_idx, sh_data_flags, sh_idx, sh_signature.
  rewrite <- !(same_field s1 s1' _ _ H1 E1), <- !(same_field s2 s2' _ _ H2 E2) by lia.
  pose proof (merkle_sz_bounds s1 H1). pose proof (merkle_sz_bounds s2 H2).
  rewrite (slice_same s1' s1 (Z.to_nat (fd_shred_sz s1)) 0 64 ltac:(done) ltac:(lia) : take 64 s1' = take 64 s1).
  rewrite (slice_same s2' s2 (Z.to_nat (fd_shred_sz s2)) 0 64 ltac:(done) ltac:(lia) : take 64 s2' = take 64 s2). done.
Qed.
End Verify.

Lemma shred_bytes_same s s' : merkle_shred s -> same s s' -> shred_bytes s' = shred_bytes s.
Proof. intros Hs E. unfold shred_bytes. rewrite (same_sz s s' Hs E). by rewrite <- E. Qed.

Lemma chunks_spec_same s1 s2 s1' s2' : merkle_shred s1 -> merkle_shred s2 -> same s1 s1' -> same s2 s2' -> chunks_spec s1' s2' = chunks_spec s1 s2.
Proof.
  intros H1 H2 E1 E2. unfold chunks_spec, encoding. rewrite !(shred_bytes_same s1 s1' H1 E1), !(shred_bytes_same s2 s2' H2 E2), (same_sz s1 s1' H1 E1), (same_sz s2 s2' H2 E2).
  unfold sh_slot. by rewrite <- (same_field s1 s1' _ _ H1 E1) by lia.
Qed.

(** * Reading a proof *)

Lemma drop_bytes n l : Forall is_byte l -> Forall is_byte (drop n l).
Proof. apply Forall_drop. Qed.

Lemma load8_range l : Forall is_byte l -> is_u64 (le_load (take 8 l)).
Proof. intros Hl. pose proof (field_bound 0 8 l Hl) as H. unfold field in H. rewrite drop_0 in H. change (256 ^ Z.of_nat 8) with 18446744073709551616 in H. small. Qed.

(** What a well-formed proof is: two accepted shreds of the slot that fill the bytes. *)
Lemma proof_shreds_sound buf buf_sz slot s1 s2 :
  Forall is_byte buf -> 0 <= buf_sz <= Z.of_nat (length buf) -> Z.of_nat (length buf) <= UINT_MAX -> proof_shreds buf buf_sz slot = Some (s1, s2) ->
  shred_ok s1 (fd_shred_sz s1) FD_SHRED_BLK_MAX /\ shred_ok s2 (fd_shred_sz s2) FD_SHRED_BLK_MAX /\ sh_slot s1 = slot /\ sh_slot s2 = slot /\
  buf_sz = 16 + fd_shred_sz s1 + fd_shred_sz s2 /\ s1 = drop 8 buf /\ s2 = drop (Z.to_nat (16 + fd_shred_sz s1)) buf.
Proof.
  intros Hb Hsz Hlen. unfold proof_shreds. set (z1 := le_load (take 8 buf)). pose proof (load8_range buf Hb) as Hz1. fold z1 in Hz1.
  assert (UINT_MAX < ULONG_MAX) as Hmax by (unfold UINT_MAX, ULONG_MAX; lia). assert (forall x, 0 <= x <= UINT_MAX -> is_u64 x) as Hsm by small.
  rewrite (u64_sub_small buf_sz 0) by (apply Hsm; lia). change (0 +w 8) with 8. destruct (Z.ltb_spec (buf_sz - 0) 8) as [|H8]; [done|].
  rewrite (u64_sub_small buf_sz 8) by (apply Hsm; lia). destruct (Z.ltb_spec (buf_sz - 8) z1) as [|Hf1]; [done|]. change (Z.to_nat 8) with 8%nat.
  destruct (fd_shred_parse (drop 8 buf) z1 FD_SHRED_BLK_MAX) as [t1|] eqn:P1; [|done]. destruct (parse_ok _ _ _ _ (drop_bytes 8 buf Hb) Hz1 P1) as [-> K1].
  destruct (Z.eqb_spec (fd_shred_sz (drop 8 buf)) z1) as [Q1|]; [|done]. cbn [negb]. unfold is_u64 in Hz1.
  rewrite (u64_add_small 8 z1), (u64_sub_small buf_sz (8 + z1)) by (apply Hsm; lia). destruct (Z.ltb_spec (buf_sz - (8 + z1)) 8) as [|H16]; [done|].
  set (z2 := le_load (take 8 (drop (Z.to_nat (8 + z1)) buf))). pose proof (load8_range _ (drop_bytes (Z.to_nat (8 + z1)) buf Hb)) as Hz2. fold z2 in Hz2.
  rewrite (u64_add_small (8 + z1) 8), (u64_sub_small buf_sz) by (apply Hsm; lia). destruct (Z.ltb_spec (buf_sz - (8 + z1 + 8)) z2) as [|Hf2]; [done|].
  destruct (fd_shred_parse (drop (Z.to_nat (8 + z1 + 8)) buf) z2 FD_SHRED_BLK_MAX) as [t2|] eqn:P2; [|done]. destruct (parse_ok _ _ _ _ (drop_bytes _ buf Hb) Hz2 P2) as [-> K2].
  destruct (Z.eqb_spec (fd_shred_sz (drop (Z.to_nat (8 + z1 + 8)) buf)) z2) as [Q2|]; [|done]. cbn [negb]. unfold is_u64 in Hz2.
  rewrite (u64_add_small (8 + z1 + 8) z2) by (apply Hsm; lia). destruct (Z.eqb_spec (8 + z1 + 8 + z2) buf_sz) as [Hend|]; [|done]. cbn [negb].
  destruct (Z.eqb_spec (sh_slot (drop 8 buf)) slot); [|done]. destruct (Z.eqb_spec (sh_slot (drop (Z.to_nat (8 + z1 + 8)) buf)) slot); [|done]. cbn [negb orb]. intros [= <- <-].
  rewrite Q1, Q2. split_and!; try done; [lia|]. f_equal. f_equal. lia.
Qed.

(** The shreds of an encoding are found where it put them. *)
Lemma proof_shreds_encoding s1 s2 buf :
  merkle_shred s1 -> merkle_shred s2 -> shred_ok s1 (fd_shred_sz s1) FD_SHRED_BLK_MAX -> shred_ok s2 (fd_shred_sz s2) FD_SHRED_BLK_MAX -> sh_slot s1 = sh_slot s2 ->
  Forall is_byte buf -> take (length (encoding s1 s2)) buf = encoding s1 s2 ->
  exists s1' s2', proof_shreds buf (Z.of_nat (length (encoding s1 s2))) (sh_slot s1) = Some (s1', s2') /\ same s1 s1' /\ same s2 s2' /\ Forall is_byte s1' /\ Forall is_byte s2'.
Proof.
  intros H1 H2 K1 K2 Eslot Hb Et. pose proof (merkle_sz_bounds s1 H1) as B1. pose proof (merkle_sz_bounds s2 H2) as B2. pose proof (encoding_length s1 s2 H1 H2) as Le.
  pose proof (shred_bytes_length s1 H1) as Lb1. pose proof (shred_bytes_length s2 H2) as Lb2. set (z1 := fd_shred_sz s1) in *. set (z2 := fd_shred_sz s2) in *.
  rewrite Le, Z2Nat.id by lia. set (n1 := Z.to_nat z1) in *. set (n2 := Z.to_nat z2) in *.
  assert (forall off n, (off + n <= length (encoding s1 s2))%nat -> take n (drop off buf) = take n (drop off (encoding s1 s2))) as Hslice.
  { intros off n Hle. rewrite (slice_same buf (encoding s1 s2) (length (encoding s1 s2)) off n); [done| |done]. rewrite Et. symmetry. by apply take_ge. }
  assert (drop 8 (encoding s1 s2) = shred_bytes s1 ++ le_store 8 z2 ++ shred_bytes s2) as D1.
  { unfold encoding. change 8%nat with (8 + 0)%nat at 1. rewrite (drop_past _ _ 8) by apply le_store_length. by rewrite drop_0. }
  assert (drop (8 + n1) (encoding s1 s2) = le_store 8 z2 ++ shred_bytes s2) as D2.
  { rewrite <- drop_drop, D1. rewrite <- (Nat.add_0_r n1). rewrite (drop_past _ _ n1) by done. by rewrite drop_0. }
  assert (drop (16 + n1) (encoding s1 s2) = shred_bytes s2) as D3.
  { replace (16 + n1)%nat with (8 + n1 + 8)%nat by lia. rewrite <- drop_drop, D2. change 8%nat with (8 + 0)%nat at 1. rewrite (drop_past _ _ 8) by apply le_store_length. by rewrite drop_0. }
  assert (same s1 (drop 8 buf)) as S1. { unfold same. fold z1 n1. rewrite (Hslice 8%nat n1) by lia. rewrite D1, take_app_le, (take_ge (shred_bytes s1)) by lia. done. }
  assert (same s2 (drop (16 + n1) buf)) as S2. { unfold same. fold z2 n2. rewrite (Hslice (16 + n1)%nat n2) by lia. rewrite D3, (take_ge (shred_bytes s2)) by lia. done. }
  assert (le_load (take 8 buf) = z1) as Z1.
  { pose proof (Hslice 0%nat 8%nat ltac:(lia)) as E. rewrite !drop_0 in E. rewrite E. unfold encoding. rewrite take_app_le, take_ge by (rewrite le_store_length; lia). apply le_load_store. cbn. lia. }
  assert (le_load (take 8 (drop (8 + n1) buf)) = z2) as Z2.
  { rewrite (Hslice (8 + n1)%nat 8%nat) by lia. rewrite D2, take_app_le, take_ge by (rewrite le_store_length; lia). apply le_load_store. cbn. lia. }
  assert (fd_shred_parse (drop 8 buf) z1 FD_SHRED_BLK_MAX = Some (drop 8 buf)) as P1.
  { apply parse_complete; [by apply drop_bytes|small|]. apply (shred_ok_take s1); [apply H1|exact S1|exact K1]. }
  assert (fd_shred_parse (drop (16 + n1) buf) z2 FD_SHRED_BLK_MAX = Some (drop (16 + n1) buf)) as P2.
  { apply parse_complete; [by apply drop_bytes|small|]. apply (shred_ok_take s2); [apply H2|exact S2|exact K2]. }
  exists (drop 8 buf), (drop (16 + n1) buf). split_and!; [|done|done|by apply drop_bytes|by apply drop_bytes].
  unfold proof_shreds. rewrite Z1. rewrite (u64_sub_small _ 0), (proj2 (Z.ltb_ge _ 8)) by small. change (0 +w 8) with 8. rewrite (u64_sub_small _ 8), (proj2 (Z.ltb_ge _ z1)) by small.
  change (Z.to_nat 8) with 8%nat. rewrite P1, (same_sz s1 _ H1 S1). fold z1. rewrite Z.eqb_refl. cbn [negb]. rewrite (u64_add_small 8 z1) by small. replace (Z.to_nat (8 + z1)) with (8 + n1)%nat by lia.
  rewrite (u64_sub_small _ (8 + z1)), (proj2 (Z.ltb_ge _ 8)), Z2 by small. rewrite (u64_add_small (8 + z1) 8), (u64_sub_small _ (8 + z1 + 8)), (proj2 (Z.ltb_ge _ z2)) by small.
  replace (Z.to_nat (8 + z1 + 8)) with (16 + n1)%nat by lia. rewrite P2, (same_sz s2 _ H2 S2). fold z2. rewrite Z.eqb_refl. cbn [negb]. rewrite (u64_add_small (8 + z1 + 8)) by small.
  rewrite (proj2 (Z.eqb_eq (8 + z1 + 8 + z2) (16 + z1 + z2))) by lia. cbn [negb].
  assert (sh_slot (drop 8 buf) = sh_slot s1) as -> by (symmetry; apply (same_field s1 _ 65 8 H1 S1); lia).
  assert (sh_slot (drop (16 + n1) buf) = sh_slot s1) as -> by (rewrite Eslot; symmetry; apply (same_field s2 _ 65 8 H2 S2); lia).
  by rewrite Z.eqb_refl.
Qed.
