(* ===== verification/EqvocInv.v ===== *)
(** Equivocation detection: the invariant of the bounded stores, and that every
    operation returns and keeps it. *)
From S2P Require Import Prelude VotorBase Ghost Tower Voters Shred ShredProps Eqvoc EqvocProof.

(** * The invariant *)

(** The proofs in progress of each voter. *)
Record evtr_inv (per : Z) (prfs : gmap (Z * fd_pubkey_t) prf_t) (vtrs : gmap fd_pubkey_t eqvoc_vtr_t) : Prop := {
  ev_list : forall from r, vtrs !! from = Some r ->
    NoDup (ev_prfs r) /\ ev_prf_cnt r = Z.of_nat (length (ev_prfs r)) /\ Z.of_nat (length (ev_prfs r)) <= per /\
    forall slot, slot ∈ ev_prfs r <-> is_Some (prfs !! (slot, from));
  ev_in : forall slot from, is_Some (prfs !! (slot, from)) -> is_Some (vtrs !! from)
}.

(** The bytes that the received chunks have. *)
Definition received_sz (idxs len2 : Z) : Z :=
  (if Z.testbit idxs 0 then 1054 else 0) + (if Z.testbit idxs 1 then 1054 else 0) + (if Z.testbit idxs 2 then len2 else 0).

Record prf_wf (p : prf_t) : Prop := {
  pw_bytes : Forall is_byte (pf_buf p);
  pw_length : length (pf_buf p) = 2472%nat;
  pw_idxs : 0 <= pf_idxs p < 8;
  pw_sz : exists len2, 0 <= len2 <= 364 /\ pf_buf_sz p = received_sz (pf_idxs p) len2
}.

Record einv (e : fd_eqvoc_t) : Prop := {
  ei_dup : NoDup (eq_dup_dlist e) /\ forall s, s ∈ eq_dup_dlist e <-> s ∈ eq_dups e;
  ei_dup_max : 0 < eq_dup_max e /\ Z.of_nat (size (eq_dups e)) <= eq_dup_max e;
  ei_fec : NoDup (eq_fec_dlist e) /\ forall k, k ∈ eq_fec_dlist e <-> is_Some (eq_fecs e !! k);
  ei_fec_max : 0 < eq_fec_max e /\ Z.of_nat (size (eq_fecs e)) <= eq_fec_max e;
  ei_sample : forall k s, eq_fecs e !! k = Some s -> merkle_shred s;
  ei_vtr : evtr_inv (eq_per_vtr_max e) (eq_prfs e) (eq_vtrs e);
  ei_prf : forall k p, eq_prfs e !! k = Some p -> prf_wf p;
  ei_vlist : NoDup (eq_vtr_dlist e) /\ forall a, a ∈ eq_vtr_dlist e <-> is_Some (eq_vtrs e !! a);
  ei_vsize : Z.of_nat (size (eq_vtrs e)) <= eq_vtr_max e;
  ei_max : 0 < eq_per_vtr_max e /\ eq_per_vtr_max e * eq_vtr_max e <= UINT_MAX
}.

(** What the operations on one store leave alone. *)
Definition same_limits (e e' : fd_eqvoc_t) : Prop :=
  eq_dup_max e' = eq_dup_max e /\ eq_fec_max e' = eq_fec_max e /\ eq_per_vtr_max e' = eq_per_vtr_max e /\ eq_vtr_max e' = eq_vtr_max e.
Definition same_proofs (e e' : fd_eqvoc_t) : Prop := eq_prfs e' = eq_prfs e /\ eq_vtrs e' = eq_vtrs e.

Lemma key_del_app k l1 l2 : key_del k (l1 ++ l2) = key_del k l1 ++ key_del k l2.
Proof. apply filter_app. Qed.

Lemma elem_of_key_del k x l : x ∈ key_del k l <-> x ∈ l /\ x <> k.
Proof. unfold key_del. rewrite list_elem_of_filter. tauto. Qed.

Lemma key_del_id k l : k ∉ l -> key_del k l = l.
Proof.
  induction l as [|b l IH]; intros Hn; [done|]. apply not_elem_of_cons in Hn as [Hb Hn]. unfold key_del in *. rewrite filter_cons, decide_True by congruence. by rewrite IH.
Qed.

Lemma key_del_length k l : NoDup l -> k ∈ l -> length l = S (length (key_del k l)).
Proof.
  induction 1 as [|b l Hb Hnd IH]; intros Ha; [by apply elem_of_nil in Ha|]. unfold key_del in *. rewrite filter_cons. apply elem_of_cons in Ha as [->|Ha].
  - rewrite decide_False by tauto. cbn [length]. f_equal. exact (eq_sym (f_equal length (key_del_id b l Hb))).
  - rewrite decide_True by (intros ->; done). cbn [length]. by rewrite (IH Ha).
Qed.

Lemma snoc_nodup {A} (l : list A) k : NoDup l -> k ∉ l -> NoDup (l ++ [k]).
Proof. intros Hn Hk. apply NoDup_app. split_and!; [done| |apply NoDup_singleton]. intros x Hx. rewrite list_elem_of_singleton. by intros ->. Qed.

Lemma elem_of_push {A} (l : list A) k x : x ∈ l ++ [k] <-> x ∈ l \/ x = k.
Proof. by rewrite elem_of_app, list_elem_of_singleton. Qed.

(** Moving a key to the tail changes the order only. *)
Lemma touch_ok k l : NoDup l -> k ∈ l -> NoDup (key_del k l ++ [k]) /\ (forall x, x ∈ key_del k l ++ [k] <-> x ∈ l) /\ length (key_del k l ++ [k]) = length l.
Proof.
  intros Hn Hk. split_and!.
  - apply snoc_nodup; [by apply NoDup_filter|]. rewrite elem_of_key_del. tauto.
  - intros x. rewrite elem_of_push, elem_of_key_del. destruct (decide (x = k)) as [->|]; tauto.
  - rewrite (key_del_length k l Hn Hk), length_app. cbn. lia.
Qed.

(** * Verified slots *)

Lemma dup_query_ok e slot : einv e -> einv (dup_query e slot).1 /\ (dup_query e slot).2 = bool_decide (slot ∈ eq_dups e) /\
  eq_dups (dup_query e slot).1 = eq_dups e /\ (slot ∉ eq_dups e -> (dup_query e slot).1 = e) /\ same_proofs e (dup_query e slot).1 /\ same_limits e (dup_query e slot).1.
Proof.
  intros HI. unfold dup_query. case_bool_decide as Hd; cbn [fst snd]; [|by split_and!]. split_and!; try done.
  destruct HI as [[Hn Hin] ? ? ? ? ? ? ? ? ?]. destruct (touch_ok slot (eq_dup_dlist e) Hn) as (Hn' & Hin' & _); [by apply Hin|].
  split; try done. cbn. split; [done|]. intros s. by rewrite Hin', Hin.
Qed.

Lemma dup_insert_ok e slot : einv e -> slot ∉ eq_dups e ->
  exists e', dup_insert e slot = Ok e' /\ einv e' /\ slot ∈ eq_dups e' /\ (forall s, s ∈ eq_dups e' -> s = slot \/ s ∈ eq_dups e) /\
    same_proofs e e' /\ same_limits e e' /\ eq_fecs e' = eq_fecs e /\ eq_fec_dlist e' = eq_fec_dlist e.
Proof.
  intros HI Hslot. destruct HI as [[Hn Hin] [Hm0 Hm] H1 H2 H3 H4 H5 H6 H7 H8]. unfold dup_insert. destruct (Z.ltb_spec (Z.of_nat (size (eq_dups e))) (eq_dup_max e)) as [Hlt|Hge]; cbn [mbind outcome_bind].
  - eexists. split; [done|]. split_and!; try done; cbn; [|set_solver|set_solver]. split; try done; cbn.
    + split; [apply snoc_nodup; [done|by rewrite Hin]|]. intros s. rewrite elem_of_push, Hin. set_solver.
    + split; [done|]. rewrite size_union, size_singleton by set_solver. lia.
  - destruct (eq_dup_dlist e) as [|d rest] eqn:Ed.
    + assert (eq_dups e = ∅) as E0 by (apply set_eq; intros s; rewrite <- Hin; set_solver). rewrite E0, size_empty in Hge. lia.
    + cbn [mbind outcome_bind]. eexists. split; [done|]. apply NoDup_cons in Hn as [Hd Hn]. assert (d ∈ eq_dups e) as Hdin by (apply Hin; constructor).
      split_and!; try done; cbn; [|set_solver|set_solver]. split; try done; cbn.
      * assert (forall s, s ∈ rest <-> s ∈ eq_dups e ∖ {[d]}) as Hrest.
        { intros s. rewrite elem_of_difference, <- Hin, elem_of_cons, elem_of_singleton. split; [intros Hs; split; [by right|by intros ->]|tauto]. }
        split; [apply snoc_nodup; [done|]; rewrite Hrest; set_solver|]. intros s. rewrite elem_of_push, Hrest. set_solver.
      * split; [done|]. rewrite size_union, size_singleton by set_solver. rewrite size_difference, size_singleton by set_solver. lia.
Qed.

(** * First shreds *)

Lemma fec_query_ok e slot idx : einv e -> einv (fec_query e slot idx).1 /\ (fec_query e slot idx).2 = eq_fecs e !! fec_key slot idx /\
  eq_fecs (fec_query e slot idx).1 = eq_fecs e /\ eq_dups (fec_query e slot idx).1 = eq_dups e /\ same_proofs e (fec_query e slot idx).1 /\ same_limits e (fec_query e slot idx).1.
Proof.
  intros HI. unfold fec_query. destruct (eq_fecs e !! fec_key slot idx) as [s|] eqn:E; cbn [fst snd]; [|by split_and!]. split_and!; try done.
  destruct HI as [? ? [Hn Hin] ? ? ? ? ? ? ?]. destruct (touch_ok (fec_key slot idx) (eq_fec_dlist e) Hn) as (Hn' & Hin' & _); [apply Hin; by rewrite E|].
  split; try done. cbn. split; [done|]. intros k. by rewrite Hin', Hin.
Qed.

Lemma fec_insert_ok e slot idx s : einv e -> eq_fecs e !! fec_key slot idx = None -> merkle_shred s ->
  exists e', fec_insert e slot idx s = Ok e' /\ einv e' /\ eq_fecs e' !! fec_key slot idx = Some s /\ eq_dups e' = eq_dups e /\ same_proofs e e' /\ same_limits e e' /\
    (forall k x, eq_fecs e' !! k = Some x -> k = fec_key slot idx /\ x = s \/ eq_fecs e !! k = Some x).
Proof.
  intros HI Hnone Hs. set (key := fec_key slot idx) in *. destruct HI as [H1 H2 [Hn Hin] [Hm0 Hm] H3 H4 H5 H6 H7 H8]. unfold fec_insert, fec_evict. fold key.
  destruct (Z.ltb_spec (Z.of_nat (size (eq_fecs e))) (eq_fec_max e)) as [Hlt|Hge]; cbn [mbind outcome_bind].
  - eexists. split; [done|]. split_and!; try done; cbn; [|by rewrite lookup_insert_eq|intros k x [[<- <-]|[_ Hx]]%lookup_insert_Some; auto]. split; try done; cbn.
    + split; [apply snoc_nodup; [done|]; rewrite Hin, Hnone; by intros [? ?]|]. intros k. rewrite elem_of_push, Hin. destruct (decide (key = k)) as [<-|Hne]; [rewrite lookup_insert_eq; naive_solver|rewrite lookup_insert_ne by done; naive_solver].
    + split; [done|]. rewrite map_size_insert_None by done. lia.
    + intros k x [[_ <-]|[_ Hx]]%lookup_insert_Some; [done|by apply (H3 k)].
  - destruct (eq_fec_dlist e) as [|d rest] eqn:Ed.
    + assert (eq_fecs e = ∅) as E0. { apply map_eq. intros k. rewrite lookup_empty. destruct (eq_fecs e !! k) eqn:E; [|done]. assert (k ∈ @nil Z) as Hk by (apply Hin; by rewrite E). by apply elem_of_nil in Hk. }
      rewrite E0, map_size_empty in Hge. lia.
    + cbn [mbind outcome_bind]. eexists. split; [done|]. apply NoDup_cons in Hn as [Hd Hn]. destruct (proj1 (Hin d) ltac:(constructor)) as [y Hy]. cbn [eq_set_fecs eq_fecs eq_fec_dlist].
      assert (d <> key) as Hdk by (intros ->; congruence). assert (delete d (eq_fecs e) !! key = None) as Hnone' by (by rewrite lookup_delete_ne).
      split_and!; try done; cbn; [|by rewrite lookup_insert_eq|intros k x [[<- <-]|[_ [_ Hx]%lookup_delete_Some]]%lookup_insert_Some; auto]. split; try done; cbn.
      * assert (forall k, k ∈ rest <-> is_Some (delete d (eq_fecs e) !! k)) as Hrest.
        { intros k. rewrite lookup_delete_is_Some, <- Hin, elem_of_cons. split; [intros Hk; split; [by intros ->|by right]|]. intros [Hne [->|Hk]]; [done|done]. }
        split; [apply snoc_nodup; [done|]; rewrite Hrest, Hnone'; by intros [? ?]|]. intros k. rewrite elem_of_push, Hrest.
        destruct (decide (key = k)) as [<-|Hne]; [rewrite lookup_insert_eq; naive_solver|rewrite (lookup_insert_ne _ key) by done; naive_solver].
      * split; [done|]. rewrite map_size_insert_None by done. rewrite map_size_delete_Some by (by rewrite Hy). lia.
      * intros k x [[_ <-]|[_ [_ Hx]%lookup_delete_Some]]%lookup_insert_Some; [done|by apply (H3 k)].
Qed.

(** Replacing or removing a sample. *)
Lemma fec_replace_ok e k s s' : einv e -> eq_fecs e !! k = Some s -> merkle_shred s' -> einv (eq_set_fecs e (<[k := s']> (eq_fecs e)) (eq_fec_dlist e)).
Proof.
  intros [H1 H2 [Hn Hin] [Hm0 Hm] H3 H4 H5 H6 H7 H8] Hk Hs. split; try done; cbn.
  - split; [done|]. intros j. rewrite Hin. destruct (decide (k = j)) as [<-|Hne]; [rewrite lookup_insert_eq, Hk; naive_solver|by rewrite lookup_insert_ne].
  - rewrite map_size_insert_Some by (by rewrite Hk). done.
  - intros j x [[_ <-]|[_ Hx]]%lookup_insert_Some; [done|by apply (H3 j)].
Qed.

Lemma fec_remove_ok e k : einv e -> einv (eq_set_fecs e (delete k (eq_fecs e)) (key_del k (eq_fec_dlist e))).
Proof.
  intros [H1 H2 [Hn Hin] [Hm0 Hm] H3 H4 H5 H6 H7 H8]. split; try done; cbn.
  - split; [by apply NoDup_filter|]. intros j. rewrite elem_of_key_del, Hin, lookup_delete_is_Some. naive_solver.
  - split; [done|]. etrans; [|exact Hm]. apply Nat2Z.inj_le. rewrite <- !size_dom. apply subseteq_size. rewrite dom_delete. set_solver.
  - intros j x [_ Hx]%lookup_delete_Some. by apply (H3 j).
Qed.

Lemma sample_ok s : merkle_shred s -> sample_of s = Ok (shred_bytes s) /\ merkle_shred (shred_bytes s) /\ same s (shred_bytes s).
Proof.
  intros Hs. pose proof (merkle_sz_bounds s Hs) as B. pose proof (ms_length s Hs) as L. assert (same s (shred_bytes s)) as E by (unfold same, shred_bytes; rewrite take_take; f_equal; lia).
  split_and!; [|apply (same_merkle s _ Hs E), Forall_take, Hs|done]. unfold sample_of, FD_SHRED_MAX_SZ. rewrite (proj2 (Z.leb_le _ 1228)) by lia. cbn [check mbind outcome_bind].
  rewrite mem_read_ok by lia. by rewrite drop_0.
Qed.

(** * Inserting a shred *)

(** Of two shreds, one ends the slot and the other has a higher index. *)
Definition last_conflict (s t : fd_shred_t) : bool :=
  (is_last_shred s && (sh_idx s <? sh_idx t)) || (is_last_shred t && (sh_idx t <? sh_idx s)).

(** The stored shred that an inserted shred is in conflict with. *)
Definition conflicting (e : fd_eqvoc_t) (hint : bool) (s sample : fd_shred_t) : Prop :=
  if hint then eq_fecs e !! fec_key (sh_slot s) (sh_fec_set_idx s) = Some sample
  else eq_fecs e !! fec_key (sh_slot s) UINT_MAX = Some sample /\ last_conflict s sample = true.

Definition shred_proof (hint : bool) (s sample : fd_shred_t) : list fd_gossip_duplicate_shred_t := if hint then chunks_spec sample s else chunks_spec s sample.

Definition shred_result (e : fd_eqvoc_t) (hint : bool) (s : fd_shred_t) (e' : fd_eqvoc_t) (r : option (list fd_gossip_duplicate_shred_t)) : Prop :=
  match r with
  | None => eq_dups e' = eq_dups e /\ (sh_slot s ∈ eq_dups e \/ forall sample, ~ conflicting e hint s sample)
  | Some chunks => sh_slot s ∉ eq_dups e /\ sh_slot s ∈ eq_dups e' /\ (forall t, t ∈ eq_dups e' -> t = sh_slot s \/ t ∈ eq_dups e) /\
      exists sample, merkle_shred sample /\ conflicting e hint s sample /\ chunks = shred_proof hint s sample
  end.

(** Stores the shred as the first one of its FEC set unless there is one. *)
Lemma fec_first_ok e slot idx s : einv e -> merkle_shred s ->
  exists e', (let '(e, fec) := fec_query e slot idx in
    match fec with
    | Some _ => Ok (e, None)
    | None => x ← sample_of s; e ← fec_insert e slot idx x; Ok (e, None : option (list fd_gossip_duplicate_shred_t))
    end) = Ok (e', None) /\ einv e' /\ eq_dups e' = eq_dups e /\ same_proofs e e' /\ same_limits e e'.
Proof.
  intros HI Hs. destruct (fec_query_ok e slot idx HI) as (HI1 & Er & Ef & Ed & Hp & Hl). destruct (fec_query e slot idx) as [e1 r]. cbn [fst snd] in *. destruct r as [x|].
  - exists e1. by split_and!.
  - destruct (sample_ok s Hs) as (-> & Hs' & _). cbn [mbind outcome_bind]. destruct (fec_insert_ok e1 slot idx (shred_bytes s) HI1) as (e2 & -> & HI2 & _ & Ed2 & Hp2 & Hl2 & _); [by rewrite Ef|done|].
    cbn [mbind outcome_bind]. exists e2. split_and!; [done|done|by rewrite Ed2|unfold same_proofs in *; intuition congruence|unfold same_limits in *; intuition congruence].
Qed.

Lemma shred_insert_ok e hint s : einv e -> merkle_shred s ->
  exists e' r, fd_eqvoc_shred_insert e hint s = Ok (e', r) /\ einv e' /\ same_proofs e e' /\ same_limits e e' /\ shred_result e hint s e' r.
Proof.
  intros HI Hs. unfold fd_eqvoc_shred_insert. set (slot := sh_slot s). destruct (dup_query_ok e slot HI) as (HI1 & Eb & Ed & Hsame & Hp & Hl).
  destruct (dup_query e slot) as [e1 dup]. cbn [fst snd] in *. subst dup. case_bool_decide as Hdup.
  { exists e1, None. split_and!; try done. split; [done|by left]. }
  rewrite (Hsame Hdup) in *. clear e1 Hsame Hp Hl Ed HI1. destruct hint.
  - destruct (fec_query_ok e slot (sh_fec_set_idx s) HI) as (HI1 & Er & Ef & Ed & Hp & Hl). destruct (fec_query e slot (sh_fec_set_idx s)) as [e1 r]. cbn [fst snd] in *. subst r.
    destruct (eq_fecs e !! fec_key slot (sh_fec_set_idx s)) as [sample|] eqn:Es.
    + pose proof (ei_sample e HI _ _ Es) as Hm. rewrite (construct_proof_spec sample s Hm Hs). cbn [mbind outcome_bind].
      destruct (dup_insert_ok e1 slot HI1) as (e2 & -> & HI2 & Hin & Hsub & Hp2 & Hl2 & Ef2 & El2); [by rewrite Ed|]. cbn [mbind outcome_bind].
      eexists _, _. split; [done|]. split_and!; [by apply fec_remove_ok|unfold same_proofs in *; cbn; intuition congruence|unfold same_limits in *; cbn; intuition congruence|].
      cbn. fold slot. split_and!; [done|done|by rewrite <- Ed|]. exists sample. by split_and!.
    + exists e1, None. split_and!; try done. split; [done|]. right. intros x Hx. cbn in Hx. fold slot in Hx. congruence.
  - destruct (fec_query_ok e slot UINT_MAX HI) as (HI1 & Er & Ef & Ed & Hp & Hl). destruct (fec_query e slot UINT_MAX) as [e1 r]. cbn [fst snd] in *. subst r.
    destruct (sample_ok s Hs) as (Ess & Hs' & _). rewrite Ess. cbn [mbind outcome_bind].
    assert (forall e2, einv e2 -> eq_dups e2 = eq_dups e -> same_proofs e e2 -> same_limits e e2 -> (forall x, ~ conflicting e false s x) ->
      exists e' r, (let '(e, fec) := fec_query e2 slot (sh_fec_set_idx s) in
        match fec with Some _ => Ok (e, None) | None => e ← fec_insert e slot (sh_fec_set_idx s) (shred_bytes s); Ok (e, None) end) = Ok (e', r) /\
        einv e' /\ same_proofs e e' /\ same_limits e e' /\ shred_result e false s e' r) as Hend.
    { intros e2 HI2 Hd2 Hp2 Hl2 Hno. destruct (fec_first_ok e2 slot (sh_fec_set_idx s) s HI2 Hs) as (e3 & E3 & HI3 & Hd3 & Hp3 & Hl3). rewrite Ess in E3. cbn [mbind outcome_bind] in E3. exists e3, None.
      split_and!; [done|done|unfold same_proofs in *; intuition congruence|unfold same_limits in *; intuition congruence|]. split; [congruence|by right]. }
    destruct (eq_fecs e !! fec_key slot UINT_MAX) as [sample|] eqn:Es.
    + fold (last_conflict s sample). pose proof (ei_sample e HI _ _ Es) as Hm. destruct (last_conflict s sample) eqn:Ec.
      * rewrite (construct_proof_spec s sample Hs Hm). cbn [mbind outcome_bind]. destruct (dup_insert_ok e1 slot HI1) as (e2 & -> & HI2 & Hin & Hsub & Hp2 & Hl2 & _); [by rewrite Ed|]. cbn [mbind outcome_bind].
        exists e2, (Some (chunks_spec s sample)). split_and!; [done|done|unfold same_proofs in *; intuition congruence|unfold same_limits in *; intuition congruence|].
        cbn. fold slot. split_and!; [done|done|by rewrite <- Ed|]. exists sample. by split_and!.
      * assert (forall x, ~ conflicting e false s x) as Hno by (intros x [Hx Hc]; fold slot in Hx; congruence). destruct (sh_idx sample <? sh_idx s).
        -- cbn [mbind outcome_bind]. apply Hend; try done. apply (fec_replace_ok e1 _ sample); [done|by rewrite Ef|done].
        -- cbn [mbind outcome_bind]. by apply Hend.
    + destruct (fec_insert_ok e1 slot UINT_MAX (shred_bytes s) HI1) as (e2 & -> & HI2 & _ & Ed2 & Hp2 & Hl2 & _); [by rewrite Ef|done|].
      cbn [mbind outcome_bind]. apply Hend; [done|by rewrite Ed2|unfold same_proofs in *; intuition congruence|unfold same_limits in *; intuition congruence|].
      intros x [Hx _]. fold slot in Hx. congruence.
Qed.

(** * Proofs in progress *)

Definition prf_empty : prf_t := mk_prf 0 0 (repeat 0 (Z.to_nat PRF_BUF_SZ)).

Lemma prf_empty_wf : prf_wf prf_empty.
Proof.
  split; [apply shred_bytes_check; vm_compute; reflexivity|reflexivity|cbn; lia|]. exists 0. split; [lia|reflexivity].
Qed.

(** Replacing the record of a voter by one with the same proofs. *)
Lemma evtr_inv_touch per prfs vtrs from r slot : evtr_inv per prfs vtrs -> vtrs !! from = Some r -> slot ∈ ev_prfs r ->
  evtr_inv per prfs (<[from := mk_evtr (key_del slot (ev_prfs r) ++ [slot]) (ev_prf_cnt r)]> vtrs).
Proof.
  intros HV Hr Hs. destruct (ev_list _ _ _ HV from r Hr) as (Hn & Hc & Hle & Hin). destruct (touch_ok slot (ev_prfs r) Hn Hs) as (Hn' & Hin' & Hlen). split.
  - intros b x [[<- <-]|[_ Hx]]%lookup_insert_Some; [|by apply (ev_list _ _ _ HV)]. cbn [ev_prfs ev_prf_cnt]. rewrite Hlen. split_and!; [done|done|done|]. intros t. by rewrite Hin'.
  - intros t b Ht%(ev_in _ _ _ HV). destruct (decide (from = b)) as [->|]; [by rewrite lookup_insert_eq|by rewrite lookup_insert_ne].
Qed.

Lemma evtr_inv_del per prfs vtrs from r slot cnt : evtr_inv per prfs vtrs -> vtrs !! from = Some r -> slot ∈ ev_prfs r -> cnt = Z.of_nat (length (ev_prfs r)) - 1 ->
  evtr_inv per (delete (slot, from) prfs) (<[from := mk_evtr (key_del slot (ev_prfs r)) cnt]> vtrs).
Proof.
  intros HV Hr Hs ->. destruct (ev_list _ _ _ HV from r Hr) as (Hn & Hc & Hle & Hin). pose proof (key_del_length slot _ Hn Hs) as Hlen. split.
  - intros b x [[<- <-]|[Hne Hx]]%lookup_insert_Some; cbn [ev_prfs ev_prf_cnt].
    + split_and!; [by apply NoDup_filter|lia|lia|]. intros t. rewrite elem_of_key_del, Hin, lookup_delete_is_Some. naive_solver.
    + destruct (ev_list _ _ _ HV b x Hx) as (? & ? & ? & Hb). split_and!; [done|done|done|]. intros t. rewrite Hb, lookup_delete_ne by congruence. done.
  - intros t b [_ Ht]%lookup_delete_is_Some. apply (ev_in _ _ _ HV) in Ht. destruct (decide (from = b)) as [->|]; [by rewrite lookup_insert_eq|by rewrite lookup_insert_ne].
Qed.

Lemma evtr_inv_push per prfs vtrs from r slot p : evtr_inv per prfs vtrs -> vtrs !! from = Some r -> prfs !! (slot, from) = None -> Z.of_nat (length (ev_prfs r)) < per ->
  evtr_inv per (<[(slot, from) := p]> prfs) (<[from := mk_evtr (ev_prfs r ++ [slot]) (Z.of_nat (length (ev_prfs r)) + 1)]> vtrs).
Proof.
  intros HV Hr Hnone Hlt. destruct (ev_list _ _ _ HV from r Hr) as (Hn & Hc & Hle & Hin). split.
  - intros b x [[<- <-]|[Hne Hx]]%lookup_insert_Some; cbn [ev_prfs ev_prf_cnt].
    + rewrite length_app. cbn [length]. split_and!; [|lia|lia|].
      * apply snoc_nodup; [done|]. rewrite Hin, Hnone. by intros [? ?].
      * intros t. rewrite elem_of_push, Hin. destruct (decide (t = slot)) as [->|Ht]; [rewrite lookup_insert_eq; naive_solver|rewrite lookup_insert_ne by congruence; naive_solver].
    + destruct (ev_list _ _ _ HV b x Hx) as (? & ? & ? & Hb). split_and!; [done|done|done|]. intros t. rewrite Hb, lookup_insert_ne by congruence. done.
  - intros t b Ht. destruct (decide (from = b)) as [->|Hne]; [by rewrite lookup_insert_eq|]. rewrite lookup_insert_ne in Ht by congruence. rewrite lookup_insert_ne by done. by apply (ev_in _ _ _ HV t b).
Qed.

Lemma evtr_inv_put per prfs vtrs k p : evtr_inv per prfs vtrs -> is_Some (prfs !! k) -> evtr_inv per (<[k := p]> prfs) vtrs.
Proof.
  intros HV Hk. assert (forall j, is_Some (<[k := p]> prfs !! j) <-> is_Some (prfs !! j)) as Hj.
  { intros j. destruct (decide (k = j)) as [<-|]; [rewrite lookup_insert_eq; naive_solver|by rewrite lookup_insert_ne]. }
  split.
  - intros b x Hx. destruct (ev_list _ _ _ HV b x Hx) as (? & ? & ? & Hb). split_and!; [done|done|done|]. intros t. by rewrite Hj.
  - intros t b. rewrite Hj. apply (ev_in _ _ _ HV).
Qed.

Lemma evtrs_room e : einv e -> Z.of_nat (size (eq_prfs e)) <= eq_per_vtr_max e * Z.of_nat (size (eq_vtrs e)).
Proof.
  intros HI. pose proof (ei_vtr e HI) as HV. apply (quota_size (eq_prfs e) (eq_vtrs e) (fun from r => (fun slot => (slot, from)) <$> ev_prfs r)).
  - intros [slot from] Hd. destruct (ev_in _ _ _ HV slot from Hd) as [r Hr]. exists from, r. split; [done|]. apply list_elem_of_fmap. exists slot. split; [done|]. by apply (ev_list _ _ _ HV from r Hr).
  - intros from r Hr. rewrite length_fmap. by destruct (ev_list _ _ _ HV from r Hr) as (_ & _ & ? & _).
Qed.

(** The invariant after a change of the proofs and voters only. *)
Lemma einv_prfs e prfs vtrs : einv e -> evtr_inv (eq_per_vtr_max e) prfs vtrs -> (forall k p, prfs !! k = Some p -> prf_wf p) ->
  (forall a, is_Some (vtrs !! a) <-> is_Some (eq_vtrs e !! a)) -> einv (eq_set_vtrs (eq_set_prfs e prfs) vtrs (eq_vtr_dlist e)).
Proof.
  intros [H1 H2 H3 H4 H5 H6 H7 [Hn Hl] H8 H9] HV Hp Hd. split; try done; cbn.
  - split; [done|]. intros a. by rewrite Hd.
  - etrans; [|exact H8]. apply Nat2Z.inj_le. rewrite <- !size_dom. apply subseteq_size. intros a Ha%elem_of_dom. apply elem_of_dom. by apply Hd.
Qed.

(** What opening a proof leaves alone. *)
Definition same_dups (e e' : fd_eqvoc_t) : Prop := eq_dups e' = eq_dups e /\ same_limits e e' /\ forall a, is_Some (eq_vtrs e' !! a) <-> is_Some (eq_vtrs e !! a).

Lemma insert_some_iff {V} (m : gmap fd_pubkey_t V) k v : is_Some (m !! k) -> forall a, is_Some (<[k := v]> m !! a) <-> is_Some (m !! a).
Proof. intros Hk a. destruct (decide (k = a)) as [<-|]; [rewrite lookup_insert_eq; naive_solver|by rewrite lookup_insert_ne]. Qed.

Lemma evicted_ok e from r : einv e -> eq_vtrs e !! from = Some r ->
  exists e1 r1, prf_evict e from r = Ok (e1, r1) /\ einv (eq_set_vtrs e1 (<[from := r1]> (eq_vtrs e)) (eq_vtr_dlist e)) /\ Z.of_nat (length (ev_prfs r1)) < eq_per_vtr_max e /\
    eq_vtrs e1 = eq_vtrs e /\ eq_vtr_dlist e1 = eq_vtr_dlist e /\ eq_dups e1 = eq_dups e /\ same_limits e e1 /\ ev_prf_cnt r1 = Z.of_nat (length (ev_prfs r1)) /\
    forall k, eq_prfs e !! k = None -> eq_prfs e1 !! k = None.
Proof.
  intros HI Hr. pose proof (ei_vtr e HI) as HV. destruct (ev_list _ _ _ HV from r Hr) as (Hn & Hc & Hle & Hin). pose proof (ei_max e HI) as [Hp0 Hp1]. unfold prf_evict. rewrite Hc.
  destruct (Z.eqb_spec (Z.of_nat (length (ev_prfs r))) (eq_per_vtr_max e)) as [Ef|Ef]; cbn [negb].
  - destruct (ev_prfs r) as [|s rest] eqn:Er; [cbn in *; lia|]. eexists _, _. split; [done|]. cbn [length] in *. apply NoDup_cons in Hn as [Hs Hn].
    assert (1 <= eq_vtr_max e) as Hv1. { pose proof (ei_vsize e HI). assert (size (eq_vtrs e) <> 0%nat) by (apply map_size_non_empty_iff; intros E; by rewrite E in Hr). lia. }
    assert (Z.of_nat (S (length rest)) -w 1 = Z.of_nat (length rest)) as Esub by (rewrite u64_sub_small by (unfold is_u64, ULONG_MAX, UINT_MAX in *; nia); lia). rewrite Esub.
    assert (key_del s (s :: rest) = rest) as Ek. { unfold key_del. rewrite filter_cons, decide_False by tauto. exact (key_del_id s rest Hs). }
    split_and!; try done; [|cbn; lia|cbn; intros k Hk; rewrite lookup_delete_None; auto].
    apply (einv_prfs e (delete (s, from) (eq_prfs e)) (<[from := mk_evtr rest (Z.of_nat (length rest))]> (eq_vtrs e)) HI).
    + rewrite <- Ek at 1. rewrite <- Er. apply (evtr_inv_del _ _ _ from r s); [done|done|rewrite Er; constructor|rewrite Er; cbn [length]; lia].
    + intros k p [_ Hk]%lookup_delete_Some. by apply (ei_prf e HI k).
    + apply insert_some_iff. by rewrite Hr.
  - exists e, r. split_and!; try done; [|lia]. rewrite insert_id by done. destruct e. exact HI.
Qed.

Lemma prf_insert_ok e from r slot : einv e -> eq_vtrs e !! from = Some r -> eq_prfs e !! (slot, from) = None ->
  exists e', prf_insert e slot from = Ok (e', prf_empty) /\ einv e' /\ eq_prfs e' !! (slot, from) = Some prf_empty /\ same_dups e e'.
Proof.
  intros HI Hr Hnone. unfold prf_insert. rewrite Hr. destruct (evicted_ok e from r HI Hr) as (e1 & r1 & -> & HI1 & Hlt & Ev & El & Ed & (L1 & L2 & L3 & L4) & Hc & Hn1). cbn [mbind outcome_bind].
  pose proof (ei_vtr _ HI1) as HV1. cbn in HV1. rewrite L3 in HV1. specialize (Hn1 _ Hnone). pose proof (ei_max e HI) as [Hp0 Hp1]. pose proof (ei_vsize e HI) as Hvs.
  pose proof (evtr_inv_push _ _ _ from r1 slot prf_empty HV1 ltac:(by rewrite lookup_insert_eq) Hn1 Hlt) as HV2. rewrite insert_insert_eq in HV2.
  set (e2 := eq_set_vtrs (eq_set_prfs e1 (<[(slot, from) := prf_empty]> (eq_prfs e1))) (<[from := mk_evtr (ev_prfs r1 ++ [slot]) (Z.of_nat (length (ev_prfs r1)) + 1)]> (eq_vtrs e1)) (eq_vtr_dlist e1)).
  assert (einv e2) as HI2.
  { pose proof (einv_prfs _ (<[(slot, from) := prf_empty]> (eq_prfs e1)) (<[from := mk_evtr (ev_prfs r1 ++ [slot]) (Z.of_nat (length (ev_prfs r1)) + 1)]> (eq_vtrs e)) HI1) as HE.
    unfold e2. rewrite Ev, El. apply HE; cbn [eq_set_vtrs eq_per_vtr_max eq_vtrs].
    - by rewrite L3.
    - intros k p [[_ <-]|[_ Hk]]%lookup_insert_Some; [apply prf_empty_wf|]. apply (ei_prf _ HI1 k). done.
    - intros a. rewrite !insert_some_iff by (by rewrite Hr). done. }
  assert (eq_prf_max e1 = eq_per_vtr_max e * eq_vtr_max e) as Emax.
  { unfold eq_prf_max. rewrite L3, L4. unfold u64_mul. apply u64_small. unfold is_u64, ULONG_MAX, UINT_MAX in *. nia. }
  pose proof (evtrs_room e2 HI2) as Hroom. cbn in Hroom. rewrite map_size_insert_None in Hroom by done. rewrite map_size_insert_Some in Hroom by (rewrite Ev, Hr; done). rewrite L3, Ev in Hroom.
  rewrite (proj2 (Z.ltb_lt _ (eq_prf_max e1))) by (rewrite Emax; nia). cbn [check mbind outcome_bind]. fold prf_empty.
  assert (ev_prf_cnt r1 +w 1 = Z.of_nat (length (ev_prfs r1)) + 1) as -> .
  { rewrite Hc. apply u64_add_small. assert (1 <= eq_vtr_max e). { assert (size (eq_vtrs e) <> 0%nat) by (apply map_size_non_empty_iff; intros E; by rewrite E in Hr). lia. } unfold is_u64, ULONG_MAX, UINT_MAX in *. nia. }
  exists e2. split_and!; [done|done|cbn; by rewrite lookup_insert_eq|]. split_and!; [done|done|]. cbn. rewrite Ev. apply insert_some_iff. by rewrite Hr.
Qed.

Lemma prf_query_ok e from r slot : einv e -> eq_vtrs e !! from = Some r ->
  einv (prf_query e from r slot).1 /\ (prf_query e from r slot).2 = eq_prfs e !! (slot, from) /\ eq_prfs (prf_query e from r slot).1 = eq_prfs e /\ same_dups e (prf_query e from r slot).1.
Proof.
  intros HI Hr. unfold prf_query. destruct (eq_prfs e !! (slot, from)) as [p|] eqn:E; cbn [fst snd]; [|by split_and!]. pose proof (ei_vtr e HI) as HV.
  assert (slot ∈ ev_prfs r) as Hs by (apply (ev_list _ _ _ HV from r Hr); by rewrite E). split_and!; try done.
  - pose proof (einv_prfs e (eq_prfs e) (<[from := mk_evtr (key_del slot (ev_prfs r) ++ [slot]) (ev_prf_cnt r)]> (eq_vtrs e)) HI) as HE. apply HE.
    + by apply evtr_inv_touch.
    + apply (ei_prf e HI).
    + apply insert_some_iff. by rewrite Hr.
  - split_and!; try done. apply insert_some_iff. by rewrite Hr.
Qed.

(** Opens the proof of a voter for a slot: the one in progress or an empty one. *)
Lemma open_prf_ok e from r slot : einv e -> eq_vtrs e !! from = Some r ->
  exists e', (let '(e, prf) := prf_query e from r slot in match prf with Some prf => Ok (e, prf) | None => prf_insert e slot from end) =
      Ok (e', default prf_empty (eq_prfs e !! (slot, from))) /\
    einv e' /\ eq_prfs e' !! (slot, from) = Some (default prf_empty (eq_prfs e !! (slot, from))) /\ same_dups e e'.
Proof.
  intros HI Hr. destruct (prf_query_ok e from r slot HI Hr) as (HI1 & Er & Ep & Hs). destruct (prf_query e from r slot) as [e1 p] eqn:Eq. cbn [fst snd] in *. subst p. destruct (eq_prfs e !! (slot, from)) as [p|] eqn:E.
  - exists e1. split_and!; [done|done|by rewrite Ep|done].
  - assert (e1 = e) as -> by (unfold prf_query in Eq; rewrite E in Eq; by injection Eq). destruct (prf_insert_ok e from r slot HI Hr E) as (e2 & -> & HI2 & E2 & Hs2). exists e2. by split_and!.
Qed.
