(* ===== verification/EqvocChunk.v ===== *)
(** Equivocation detection: a chunk is added to its proof, a complete proof is
    verified and released, and a new set of voters takes effect. *)
From S2P Require Import Prelude VotorBase Ghost Tower Voters Shred ShredProps Eqvoc EqvocProof EqvocInv.

(** * Adding a chunk to a proof *)

(** A message as gossip delivers it: bytes, at least as many as it claims. *)
Record chunk_wf (c : fd_gossip_duplicate_shred_t) : Prop := {
  cw_bytes : Forall is_byte (ck_chunk c);
  cw_len : 0 <= ck_chunk_len c <= Z.of_nat (length (ck_chunk c));
  cw_idx : 0 <= ck_chunk_index c
}.

Definition chunk_bytes (c : fd_gossip_duplicate_shred_t) : list Z := take (Z.to_nat (ck_chunk_len c)) (ck_chunk c).

(** The lengths that pass the checks. *)
Lemma chunk_len_cases c : chunk_len_ok c = true -> 0 <= ck_chunk_index c < 3 ->
  (ck_chunk_index c = 0 /\ ck_chunk_len c = 1054) \/ (ck_chunk_index c = 1 /\ ck_chunk_len c = 1054) \/
  (ck_chunk_index c = 2 /\ (ck_chunk_len c = 364 \/ ck_chunk_len c = 314 \/ ck_chunk_len c = 339)).
Proof.
  intros H Hi. unfold chunk_len_ok in H.
  change FD_EQVOC_CHUNK0_LEN with 1054 in H. change FD_EQVOC_CHUNK1_LEN with 1054 in H. change FD_EQVOC_CHUNK2_LEN_CC with 364 in H. change FD_EQVOC_CHUNK2_LEN_DD with 314 in H.
  change FD_EQVOC_CHUNK2_LEN_DC with 339 in H. change FD_EQVOC_CHUNK2_LEN_CD with 339 in H. lia.
Qed.

Lemma splice_length {A} (l m : list A) off : (off + length m <= length l)%nat -> length (take off l ++ m ++ drop (off + length m) l) = length l.
Proof. intros Hle. rewrite !length_app, length_take, length_drop. lia. Qed.

(** Setting a bit that is clear adds the chunk's length to the size. *)
Lemma received_set idxs i len len2 : 0 <= idxs < 8 -> 0 <= i < 3 -> Z.testbit idxs i = false -> 0 <= len <= 364 \/ i < 2 -> (i < 2 -> len = 1054) -> 0 <= len2 <= 364 ->
  0 <= Z.lor idxs (Z.shiftl 1 i) < 8 /\ exists len2', 0 <= len2' <= 364 /\ received_sz idxs len2 + len = received_sz (Z.lor idxs (Z.shiftl 1 i)) len2'.
Proof.
  intros Hx Hi Hb Hl Hl2 H2. assert (i = 0 \/ i = 1 \/ i = 2) as Hi' by lia. split.
  - assert (idxs = 0 \/ idxs = 1 \/ idxs = 2 \/ idxs = 3 \/ idxs = 4 \/ idxs = 5 \/ idxs = 6 \/ idxs = 7) as Hx' by lia.
    destruct Hi' as [->|[->| ->]]; destruct Hx' as [->|[->|[->|[->|[->|[->|[->| ->]]]]]]]; split; by vm_compute.
  - unfold received_sz. rewrite Z.shiftl_1_l, !Z.lor_spec, !Z.pow2_bits_eqb by lia. destruct Hi' as [->|[->| ->]]; rewrite Hb; cbn [Z.eqb Pos.eqb orb]; rewrite ?orb_true_r, ?orb_false_r.
    + exists len2. split; [done|]. lia.
    + exists len2. split; [done|]. lia.
    + exists len. split; [lia|]. lia.
Qed.

Definition prf_write (p : prf_t) (c : fd_gossip_duplicate_shred_t) : prf_t :=
  let off := Z.to_nat (ck_chunk_index c * 1054) in
  mk_prf (Z.lor (pf_idxs p) (Z.shiftl 1 (ck_chunk_index c))) (pf_buf_sz p + ck_chunk_len c)
    (take off (pf_buf p) ++ chunk_bytes c ++ drop (off + length (chunk_bytes c)) (pf_buf p)).

Lemma prf_add_ok p c : prf_wf p -> chunk_wf c -> chunk_len_ok c = true -> ck_chunk_index c < 3 -> Z.testbit (pf_idxs p) (ck_chunk_index c) = false ->
  prf_add p c = Ok (prf_write p c) /\ prf_wf (prf_write p c).
Proof.
  intros [Hb Hlen Hx (len2 & Hl2 & Hsz)] [Cb Cl Ci] Hok Hi Hbit. pose proof (chunk_len_cases c Hok ltac:(lia)) as Hc.
  assert (length (chunk_bytes c) = Z.to_nat (ck_chunk_len c)) as Lc by (unfold chunk_bytes; rewrite length_take; lia).
  assert (ck_chunk_index c *w FD_EQVOC_CHUNK_SZ = ck_chunk_index c * 1054) as Eoff by (unfold u64_mul; change FD_EQVOC_CHUNK_SZ with 1054; apply u64_small; small).
  assert (Z.to_nat (ck_chunk_index c * 1054) + length (chunk_bytes c) <= length (pf_buf p))%nat as Hfit by lia.
  destruct (received_set (pf_idxs p) (ck_chunk_index c) (ck_chunk_len c) len2) as (Hx' & len2' & Hl2' & Hsz'); try done; try lia. split.
  - unfold prf_add. rewrite mem_read_ok by lia. cbn [mbind outcome_bind]. change (drop (Z.to_nat 0) (ck_chunk c)) with (ck_chunk c). fold (chunk_bytes c). rewrite Eoff. unfold buf_write.
    rewrite (proj2 (Z.leb_le 0 _)), (proj2 (Z.leb_le _ (Z.of_nat (length (pf_buf p))))) by lia. cbn [check andb mbind outcome_bind]. unfold prf_write. repeat f_equal.
    apply u64_add_small. rewrite Hsz. unfold received_sz. small || (repeat case_match; small).
  - split; cbn [pf_buf pf_idxs pf_buf_sz prf_write].
    + apply Forall_app. split; [by apply Forall_take|]. apply Forall_app. split; [by apply Forall_take|by apply Forall_drop].
    + by rewrite splice_length.
    + done.
    + exists len2'. split; [done|]. by rewrite Hsz.
Qed.

(** * Verification returns *)

(** A schedule that covers its slots and points into its table of keys. *)
Definition leaders_wf (l : fd_epoch_leaders_t) : Prop :=
  is_u64 (el_slot0 l) /\ forall r, 0 <= r -> r * 4 < el_slot_cnt l -> exists i, el_sched l !! Z.to_nat r = Some i /\ 0 <= i < Z.of_nat (length (el_pub l)).

Lemma leaders_get_ok l slot : leaders_wf l -> is_u64 slot -> exists o, fd_epoch_leaders_get l slot = Ok o.
Proof.
  intros [H0 Hs] Hslot. unfold fd_epoch_leaders_get. destruct (Z.ltb_spec slot (el_slot0 l)); [eauto|]. rewrite u64_sub_small by small.
  destruct (Z.leb_spec (el_slot_cnt l) (slot - el_slot0 l)); [eauto|]. unfold FD_EPOCH_SLOTS_PER_ROTATION. destruct (Hs ((slot - el_slot0 l) / 4)) as (i & -> & Hi).
  - apply Z.div_pos; lia.
  - pose proof (Z.mul_div_le (slot - el_slot0 l) 4). lia.
  - cbn [deref mbind outcome_bind]. destruct (lookup_lt_is_Some_2 (el_pub l) (Z.to_nat i)) as [k ->]; [lia|]. cbn. eauto.
Qed.

Definition sched_wf (sched : option fd_epoch_leaders_t) : Prop := match sched with Some l => leaders_wf l | None => True end.

Section Chunk.
Context (hash_leaf : list Z -> list Z) (insert_with_proof : Z -> list Z -> list Z -> Z -> option (list Z)).
Context (ed25519_verify : list Z -> list Z -> fd_pubkey_t -> bool).
Notation verify := (verify_proof hash_leaf insert_with_proof ed25519_verify).
Notation merkle_root := (eqvoc_merkle_root hash_leaf insert_with_proof).

(** What a verified proof shows: two shreds of one slot and version, chained, with
    Merkle roots signed by the slot's leader, that cannot both belong to one block. *)
Record equivocate (ver : Z) (sched : option fd_epoch_leaders_t) (s1 s2 : fd_shred_t) : Prop := {
  eqv_slot : sh_slot s1 = sh_slot s2;
  eqv_version : sh_version s1 = ver /\ sh_version s2 = ver;
  eqv_chained : fd_shred_is_chained (fd_shred_type (sh_variant s1)) = true /\ fd_shred_is_chained (fd_shred_type (sh_variant s2)) = true;
  eqv_conflict : exists mr1 mr2, merkle_root s1 = Some mr1 /\ merkle_root s2 = Some mr2 /\
    (forall l, sched = Some l -> exists leader, fd_epoch_leaders_get l (sh_slot s1) = Ok (Some leader) /\
       ed25519_verify mr1 (sh_signature s1) leader = true /\ ed25519_verify mr2 (sh_signature s2) leader = true) /\
    (last_shred_conflict s1 s2 = true \/ sh_fec_set_idx s1 = sh_fec_set_idx s2 /\ mr1 <> mr2)
}.

Lemma verify_total ver sched s1 s2 : sched_wf sched -> Forall is_byte s1 -> exists code, verify ver sched s1 s2 = Ok code /\ (code = FD_EQVOC_SUCCESS <-> equivocate ver sched s1 s2).
Proof using.
  intros Hsched Hb. unfold verify_proof.
  destruct (Z.eqb_spec (sh_slot s1) (sh_slot s2)) as [Es|]; cbn [negb]; [|eexists; split; [done|]; split; [done|by intros []]].
  destruct (Z.eqb_spec (sh_version s1) ver) as [Ev1|Ev1]; cbn [negb]; [|eexists; split; [done|]; split; [done|intros [_ [] _ _]; congruence]].
  destruct (Z.eqb_spec (sh_version s2) ver) as [Ev2|Ev2]; cbn [negb]; [|eexists; split; [done|]; split; [done|intros [_ [] _ _]; congruence]].
  destruct (fd_shred_is_chained (fd_shred_type (sh_variant s1))) eqn:C1; cbn [negb]; [|eexists; split; [done|]; split; [done|intros [_ _ [] _]; congruence]].
  destruct (fd_shred_is_chained (fd_shred_type (sh_variant s2))) eqn:C2; cbn [negb]; [|eexists; split; [done|]; split; [done|intros [_ _ [] _]; congruence]].
  destruct (merkle_root s1) as [mr1|] eqn:M1; [|eexists; split; [done|]; split; [done|intros [_ _ _ (? & ? & ? & _)]; congruence]].
  destruct (merkle_root s2) as [mr2|] eqn:M2; [|eexists; split; [done|]; split; [done|intros [_ _ _ (? & ? & _ & ? & _)]; congruence]].
  assert (exists b, verify_sigs ed25519_verify sched s1 s2 mr1 mr2 = Ok b /\ (b = true <-> forall l, sched = Some l -> exists leader, fd_epoch_leaders_get l (sh_slot s1) = Ok (Some leader) /\
       ed25519_verify mr1 (sh_signature s1) leader = true /\ ed25519_verify mr2 (sh_signature s2) leader = true)) as (b & -> & Hsig).
  { unfold verify_sigs. destruct sched as [l|]; [|exists true; split; [done|]; split; [by intros _ l|done]].
    destruct (leaders_get_ok l (sh_slot s1) Hsched) as [[k|] Ek].
    - pose proof (field_bound 65 8 s1 Hb) as Hr. change (256 ^ Z.of_nat 8) with 18446744073709551616 in Hr. unfold sh_slot. small.
    - rewrite Ek. cbn [mbind outcome_bind]. eexists. split; [done|]. rewrite andb_true_iff. split; [intros [? ?] l' [= <-]; exists k; by split_and!|]. intros H. destruct (H l eq_refl) as (k' & Ek' & ? & ?). rewrite Ek in Ek'. by injection Ek' as <-.
    - rewrite Ek. cbn [mbind outcome_bind]. exists false. split; [done|]. split; [done|]. intros H. destruct (H l eq_refl) as (k' & Ek' & _). rewrite Ek in Ek'. done. }
  cbn [mbind outcome_bind]. destruct b; cbn [negb].
  - destruct (last_shred_conflict s1 s2) eqn:Ec.
    { eexists. split; [done|]. split; [intros _|done]. split; try done. exists mr1, mr2. split_and!; [done|done|by apply Hsig|by left]. }
    destruct (Z.eqb_spec (sh_fec_set_idx s1) (sh_fec_set_idx s2)) as [Ef|Ef]; cbn [andb]; [case_bool_decide as Em; cbn [negb]|].
    + eexists. split; [done|]. split; [done|]. intros [_ _ _ (? & ? & ? & ? & _ & [?|[_ ?]])]; congruence.
    + eexists. split; [done|]. split; [intros _|done]. split; try done. exists mr1, mr2. split_and!; [done|done|by apply Hsig|by right].
    + eexists. split; [done|]. split; [done|]. intros [_ _ _ (? & ? & ? & ? & _ & [?|[? _]])]; congruence.
  - eexists. split; [done|]. split; [done|]. intros [_ _ _ (x1 & x2 & X1 & X2 & Hs & _)]. assert (x1 = mr1) as -> by congruence. assert (x2 = mr2) as -> by congruence. apply Hsig in Hs. done.
Qed.

(** * A complete proof *)

Lemma release_ok e from slot : einv e -> is_Some (eq_prfs e !! (slot, from)) ->
  exists e', prf_release e from slot = Ok e' /\ einv e' /\ eq_prfs e' = delete (slot, from) (eq_prfs e) /\ same_dups e e'.
Proof using.
  intros HI Hp. pose proof (ei_vtr e HI) as HV. destruct (ev_in _ _ _ HV slot from Hp) as [r Hr]. destruct (ev_list _ _ _ HV from r Hr) as (Hn & Hc & Hle & Hin). pose proof (ei_max e HI) as [Hp0 Hp1].
  pose proof (ei_vsize e HI) as Hvs. unfold prf_release. rewrite Hr. cbn [deref mbind outcome_bind].
  assert (slot ∈ ev_prfs r) as Hs by (by apply Hin). pose proof (key_del_length slot _ Hn Hs) as Hlen.
  assert (1 <= eq_vtr_max e) as Hv1. { assert (size (eq_vtrs e) <> 0%nat) by (apply map_size_non_empty_iff; intros E; by rewrite E in Hr). lia. }
  rewrite Hc, u64_sub_small by (unfold is_u64, ULONG_MAX, UINT_MAX in *; nia). eexists. split; [done|].
  split_and!; [|done|split_and!; [done|done|cbn; apply insert_some_iff; by rewrite Hr]]. apply (einv_prfs e (delete (slot, from) (eq_prfs e))); [done| | |].
  - apply evtr_inv_del; done.
  - intros k p [_ Hk]%lookup_delete_Some. by apply (ei_prf e HI k).
  - apply insert_some_iff. by rewrite Hr.
Qed.

(** What becomes of a complete proof. *)
Definition proof_result (ver : Z) (sched : option fd_epoch_leaders_t) (slot : Z) (p : prf_t) (e e' : fd_eqvoc_t) (code : eqvoc_err_t) (r : option (list fd_gossip_duplicate_shred_t)) : Prop :=
  match proof_shreds (pf_buf p) (pf_buf_sz p) slot with
  | None => code = FD_EQVOC_ERR_SERDE /\ r = None /\ eq_dups e' = eq_dups e
  | Some (s1, s2) => verify ver sched s1 s2 = Ok code /\
      if decide (code = FD_EQVOC_SUCCESS)
      then merkle_shred s1 /\ merkle_shred s2 /\ sh_slot s1 = slot /\ equivocate ver sched s1 s2 /\ r = Some (chunks_spec s1 s2) /\ slot ∈ eq_dups e' /\ forall t, t ∈ eq_dups e' -> t = slot \/ t ∈ eq_dups e
      else r = None /\ eq_dups e' = eq_dups e
  end.

Lemma chained_merkle t : fd_shred_is_chained t = true -> merkle_type t = true.
Proof using.
  unfold fd_shred_is_chained, merkle_type, FD_SHRED_TYPE_MERKLE_DATA_CHAINED, FD_SHRED_TYPE_MERKLE_CODE_CHAINED, FD_SHRED_TYPE_MERKLE_DATA_CHAINED_RESIGNED, FD_SHRED_TYPE_MERKLE_CODE_CHAINED_RESIGNED, FD_SHRED_TYPE_LEGACY_DATA, FD_SHRED_TYPE_LEGACY_CODE. lia.
Qed.

Lemma complete_ok e ver sched from slot p : einv e -> sched_wf sched -> eq_prfs e !! (slot, from) = Some p -> slot ∉ eq_dups e ->
  exists e' code r, prf_complete hash_leaf insert_with_proof ed25519_verify e ver sched from slot p = Ok (e', code, r) /\ einv e' /\ eq_prfs e' = delete (slot, from) (eq_prfs e) /\
    proof_result ver sched slot p e e' code r /\ same_limits e e' /\ forall a, is_Some (eq_vtrs e' !! a) <-> is_Some (eq_vtrs e !! a).
Proof using.
  intros HI Hsched Hp Hslot. destruct (ei_prf e HI _ _ Hp) as [Hb Hlen Hx (len2 & Hl2 & Hsz)].
  assert (0 <= pf_buf_sz p <= 2472) as Hbsz by (rewrite Hsz; unfold received_sz; repeat case_match; lia).
  unfold prf_complete, proof_result. destruct (proof_shreds (pf_buf p) (pf_buf_sz p) slot) as [[s1 s2]|] eqn:Ep.
  - destruct (proof_shreds_sound (pf_buf p) (pf_buf_sz p) slot s1 s2 Hb ltac:(lia) ltac:(rewrite Hlen; unfold UINT_MAX; lia) Ep) as (K1 & K2 & Es1 & Es2 & Etot & E1 & E2).
    assert (Forall is_byte s1) as B1 by (rewrite E1; by apply drop_bytes). assert (Forall is_byte s2) as B2 by (rewrite E2; by apply drop_bytes).
    destruct (verify_total ver sched s1 s2 Hsched B1) as (code & Ev & Hcode). rewrite Ev. cbn [mbind outcome_bind]. destruct (decide (code = FD_EQVOC_SUCCESS)) as [->|Hne].
    + rewrite bool_decide_eq_true_2 by done. pose proof (proj1 Hcode eq_refl) as Heq. pose proof (eqv_chained _ _ _ _ Heq) as [C1 C2].
      assert (merkle_shred s1) as M1. { split; [done|apply K1|by apply chained_merkle|]. rewrite E1, length_drop, Hlen. rewrite <- E1. assert (0 <= fd_shred_sz s2) by (pose proof (so_payload _ _ _ K2); pose proof (shred_ok_sz _ _ _ B2 K2); lia). lia. }
      assert (merkle_shred s2) as M2. { split; [done|apply K2|by apply chained_merkle|]. pose proof (merkle_sz_bounds s1 M1). rewrite E2, length_drop, Hlen. rewrite <- E2. lia. }
      rewrite (construct_proof_spec s1 s2 M1 M2). cbn [mbind outcome_bind]. destruct (dup_insert_ok e slot HI Hslot) as (e1 & -> & HI1 & Hin & Hsub & (P1 & P2) & L1 & _ & _). cbn [mbind outcome_bind].
      destruct (release_ok e1 from slot HI1) as (e2 & -> & HI2 & P3 & (D2 & L2 & V2)); [by rewrite P1, Hp|]. cbn [mbind outcome_bind]. exists e2, FD_EQVOC_SUCCESS, (Some (chunks_spec s1 s2)).
      split; [done|]. split; [done|]. split; [by rewrite P3, P1|]. split; [|split; [unfold same_limits in *; intuition congruence|intros a; by rewrite V2, P2]].
      split; [done|]. rewrite decide_True by done. rewrite D2. by split_and!.
    + rewrite bool_decide_eq_false_2 by done. cbn [mbind outcome_bind]. destruct (release_ok e from slot HI) as (e2 & -> & HI2 & P3 & (D2 & L2 & V2)); [by rewrite Hp|]. cbn [mbind outcome_bind].
      exists e2, code, None. split_and!; try done. by rewrite decide_False.
  - cbn [mbind outcome_bind]. destruct (release_ok e from slot HI) as (e2 & -> & HI2 & P3 & (D2 & L2 & V2)); [by rewrite Hp|]. cbn [mbind outcome_bind]. exists e2, FD_EQVOC_ERR_SERDE, None. by split_and!.
Qed.

(** * Inserting a chunk *)

(** Why a chunk is refused before it is looked up. *)
Definition chunk_refused (e : fd_eqvoc_t) (root : Z) (from : fd_pubkey_t) (c : fd_gossip_duplicate_shred_t) : option eqvoc_err_t :=
  if ck_slot c <=? root then Some FD_EQVOC_ERR_CHUNK_SLOT
  else if eq_vtrs e !! from then
    if negb (ck_num_chunks c =? FD_EQVOC_CHUNK_CNT) then Some FD_EQVOC_ERR_CHUNK_CNT
    else if FD_EQVOC_CHUNK_CNT <=? ck_chunk_index c then Some FD_EQVOC_ERR_CHUNK_IDX
    else if negb (chunk_len_ok c) then Some FD_EQVOC_ERR_CHUNK_LEN else None
  else Some FD_EQVOC_ERR_CHUNK_FROM.

(** The proof that a chunk is for, before and after it. *)
Definition current_prf (e : fd_eqvoc_t) (from : fd_pubkey_t) (c : fd_gossip_duplicate_shred_t) : prf_t := default prf_empty (eq_prfs e !! (ck_slot c, from)).

(** The outcome of an accepted chunk for a slot that is not verified yet. *)
Definition chunk_result (ver : Z) (sched : option fd_epoch_leaders_t) (e : fd_eqvoc_t) (from : fd_pubkey_t) (c : fd_gossip_duplicate_shred_t)
    (e' : fd_eqvoc_t) (code : eqvoc_err_t) (r : option (list fd_gossip_duplicate_shred_t)) : Prop :=
  let p := current_prf e from c in
  if Z.testbit (pf_idxs p) (ck_chunk_index c) then code = FD_EQVOC_IGNORED /\ r = None /\ eq_dups e' = eq_dups e /\ eq_prfs e' !! (ck_slot c, from) = Some p
  else if decide (pf_idxs (prf_write p c) = 7)
  then proof_result ver sched (ck_slot c) (prf_write p c) e e' code r /\ eq_prfs e' !! (ck_slot c, from) = None
  else code = FD_EQVOC_IGNORED /\ r = None /\ eq_dups e' = eq_dups e /\ eq_prfs e' !! (ck_slot c, from) = Some (prf_write p c).

Lemma chunk_insert_ok e root ver sched from c : einv e -> sched_wf sched -> chunk_wf c ->
  exists e' code r, fd_eqvoc_chunk_insert hash_leaf insert_with_proof ed25519_verify e root ver sched from c = Ok (e', code, r) /\ einv e' /\ same_limits e e' /\
    (forall a, is_Some (eq_vtrs e' !! a) <-> is_Some (eq_vtrs e !! a)) /\
    match chunk_refused e root from c with
    | Some err => e' = e /\ code = err /\ r = None
    | None => if decide (ck_slot c ∈ eq_dups e) then code = FD_EQVOC_IGNORED /\ r = None /\ eq_dups e' = eq_dups e
              else chunk_result ver sched e from c e' code r
    end.
Proof using.
  intros HI Hsched Hc. unfold fd_eqvoc_chunk_insert, chunk_refused. destruct (ck_slot c <=? root); [by eexists _, _, _; split_and!|]. destruct (eq_vtrs e !! from) as [vtr|] eqn:Ev; [|by eexists _, _, _; split_and!].
  destruct (negb (ck_num_chunks c =? FD_EQVOC_CHUNK_CNT)); [by eexists _, _, _; split_and!|]. destruct (Z.leb_spec FD_EQVOC_CHUNK_CNT (ck_chunk_index c)) as [|Hidx]; [by eexists _, _, _; split_and!|].
  destruct (chunk_len_ok c) eqn:Hlen; [|by eexists _, _, _; split_and!]. cbn [negb]. destruct (dup_query_ok e (ck_slot c) HI) as (HI1 & Eb & Ed & Hsame & (P1 & P2) & Hl).
  destruct (dup_query e (ck_slot c)) as [e1 dup]. cbn [fst snd] in *. subst dup. destruct (decide (ck_slot c ∈ eq_dups e)) as [Hin|Hnin].
  { rewrite bool_decide_eq_true_2 by done. eexists _, _, _. split; [done|]. split_and!; try done. intros a. by rewrite P2. }
  rewrite bool_decide_eq_false_2 by done. rewrite (Hsame Hnin) in *. clear e1 Hsame P1 P2 Hl Ed HI1. destruct (open_prf_ok e from vtr (ck_slot c) HI Ev) as (e1 & Eo & HI1 & Ep & (Ed & Hl & Hv)).
  destruct (prf_query e from vtr (ck_slot c)) as [e0 p0]. rewrite Eo. cbn [mbind outcome_bind]. fold (current_prf e from c) in *. unfold chunk_result. set (p := current_prf e from c) in *.
  pose proof (ei_prf _ HI1 _ _ Ep) as Hwf. destruct (Z.testbit (pf_idxs p) (ck_chunk_index c)) eqn:Ebit; [by eexists _, _, _; split_and!|].
  destruct (prf_add_ok p c Hwf Hc Hlen Hidx Ebit) as (-> & Hwf'). cbn [mbind outcome_bind]. set (p' := prf_write p c) in *. set (e2 := eq_set_prfs e1 (<[(ck_slot c, from) := p']> (eq_prfs e1))).
  assert (einv e2) as HI2.
  { pose proof (einv_prfs e1 (<[(ck_slot c, from) := p']> (eq_prfs e1)) (eq_vtrs e1) HI1) as HE. replace e2 with (eq_set_vtrs e2 (eq_vtrs e1) (eq_vtr_dlist e1)) by (by destruct e1). apply HE; [|  |done].
    - apply evtr_inv_put; [apply HI1|by rewrite Ep].
    - intros k x [[_ <-]|[_ Hk]]%lookup_insert_Some; [done|by apply (ei_prf _ HI1 k)]. }
  assert (eq_prfs e2 !! (ck_slot c, from) = Some p') as Ep2 by (cbn; by rewrite lookup_insert_eq). destruct (decide (pf_idxs p' = 7)) as [E7|E7].
  - rewrite (proj2 (Z.eqb_eq _ _) E7). cbn [negb]. destruct (complete_ok e2 ver sched from (ck_slot c) p' HI2 Hsched Ep2) as (e3 & code & r & -> & HI3 & Ep3 & Hres & Hl3 & Hv3); [cbn; by rewrite Ed|].
    exists e3, code, r. split_and!; [done|done|unfold same_limits in *; cbn in *; intuition congruence|intros a; by rewrite Hv3, <- Hv| |by rewrite Ep3, lookup_delete_eq].
    unfold proof_result in *. destruct (proof_shreds (pf_buf p') (pf_buf_sz p') (ck_slot c)) as [[s1 s2]|]; cbn [e2 eq_set_prfs eq_dups] in Hres; rewrite Ed in Hres; done.
  - rewrite (proj2 (Z.eqb_neq _ _) E7). cbn [negb]. exists e2, FD_EQVOC_IGNORED, None. by split_and!.
Qed.
End Chunk.
