(* ===== verification/EqvocProps.v ===== *)
(** Equivocation detection: every call returns and keeps the invariant, a proof that
    is accepted shows an equivocation, and a proof that was constructed is read back by
    the receiver of its chunks. *)
From S2P Require Import Prelude VotorBase Ghost Tower Voters Shred ShredProps Eqvoc EqvocProof EqvocInv EqvocChunk.

(** * A new set of voters *)

Lemma drop_prfs_lookup (from : fd_pubkey_t) (l : list Z) (prfs : gmap (Z * fd_pubkey_t) prf_t) (k : Z * fd_pubkey_t) :
  foldl (fun m slot => delete (slot, from) m) prfs l !! k = if decide (k.2 = from /\ k.1 ∈ l) then None else prfs !! k.
Proof.
  revert prfs. induction l as [|s l IH]; intros prfs; cbn [foldl].
  - rewrite decide_False; [done|]. intros [_ Hk]. by apply elem_of_nil in Hk.
  - rewrite IH. destruct k as [i b]. cbn [fst snd]. destruct (decide (b = from /\ i ∈ l)) as [H1|H1].
    + rewrite decide_True; [done|]. rewrite elem_of_cons. tauto.
    + destruct (decide ((s, from) = (i, b))) as [[= -> ->]|Hne]; [rewrite lookup_delete_eq, decide_True by (split; [done|constructor]); done|].
      rewrite lookup_delete_ne by done. rewrite decide_False; [done|]. intros [-> [->|Hi]%elem_of_cons]; [done|tauto].
Qed.

(** What holds while voters are released: the proofs are those of the voters left. *)
Record ecore (e : fd_eqvoc_t) : Prop := {
  ec_vtr : evtr_inv (eq_per_vtr_max e) (eq_prfs e) (eq_vtrs e);
  ec_prf : forall k p, eq_prfs e !! k = Some p -> prf_wf p
}.

(** The other stores. *)
Definition same_stores (e e' : fd_eqvoc_t) : Prop :=
  eq_dups e' = eq_dups e /\ eq_dup_dlist e' = eq_dup_dlist e /\ eq_fecs e' = eq_fecs e /\ eq_fec_dlist e' = eq_fec_dlist e /\ same_limits e e'.

Lemma evtr_release_ok e a : ecore e -> is_Some (eq_vtrs e !! a) ->
  exists e', eqvoc_release_vtr e a = Ok e' /\ ecore e' /\ same_stores e e' /\ eq_vtrs e' = delete a (eq_vtrs e) /\
    forall k, eq_prfs e' !! k = if decide (k.2 = a) then None else eq_prfs e !! k.
Proof.
  intros [HV Hp] [r Hr]. destruct (ev_list _ _ _ HV a r Hr) as (_ & _ & _ & Hin). unfold eqvoc_release_vtr. rewrite Hr. cbn [deref mbind outcome_bind].
  assert (forall k, foldl (fun m slot => delete (slot, a) m) (eq_prfs e) (ev_prfs r) !! k = if decide (k.2 = a) then None else eq_prfs e !! k) as Hlook.
  { intros [i b]. rewrite drop_prfs_lookup. cbn [fst snd]. destruct (decide (b = a)) as [->|Hb]; [|by rewrite decide_False by tauto].
    destruct (decide (a = a /\ i ∈ ev_prfs r)) as [|Hn]; [done|]. destruct (eq_prfs e !! (i, a)) eqn:E; [|done]. destruct Hn. split; [done|]. apply Hin. by rewrite E. }
  eexists. split; [done|]. split_and!; [|done|done|done]. split; cbn.
  - split.
    + intros b x [Hb Hx]%lookup_delete_Some. destruct (ev_list _ _ _ HV b x Hx) as (? & ? & ? & Hbi). split_and!; [done|done|done|]. intros i. rewrite Hlook. cbn [snd]. rewrite decide_False by done. apply Hbi.
    + intros i b. rewrite Hlook. cbn [snd]. case_decide as Hd; [by intros [? ?]|]. intros Hi%(ev_in _ _ _ HV). by rewrite lookup_delete_ne.
  - intros k p. rewrite Hlook. case_decide; [done|]. apply Hp.
Qed.

Lemma evtrs_release_ok l e : ecore e -> NoDup l -> (forall a, a ∈ l -> is_Some (eq_vtrs e !! a)) ->
  exists e', ofold eqvoc_release_vtr e l = Ok e' /\ ecore e' /\ same_stores e e' /\ (forall a, eq_vtrs e' !! a = if decide (a ∈ l) then None else eq_vtrs e !! a) /\
    forall k, eq_prfs e' !! k = if decide (k.2 ∈ l) then None else eq_prfs e !! k.
Proof.
  intros HC Hnd. revert e HC. induction Hnd as [|a l Ha _ IH]; intros e HC Hin.
  - exists e. split_and!; [done|done|done| |]; intros k; (rewrite decide_False; [done|apply not_elem_of_nil]).
  - cbn [ofold]. destruct (evtr_release_ok e a HC) as (e1 & -> & HC1 & S1 & R1 & V1); [apply Hin; constructor|]. cbn [mbind outcome_bind]. destruct (IH e1 HC1) as (e2 & -> & HC2 & S2 & R2 & V2).
    { intros b Hb. rewrite R1, lookup_delete_ne by (intros ->; done). apply Hin. by constructor. }
    exists e2. split_and!; [done|done|unfold same_stores, same_limits in *; intuition congruence| |].
    + intros b. rewrite R2, R1. destruct (decide (b ∈ l)) as [Hb|Hb]; [by rewrite decide_True by (by constructor)|]. destruct (decide (a = b)) as [->|Hne].
      * rewrite lookup_delete_eq, decide_True by constructor. done.
      * rewrite lookup_delete_ne by done. rewrite decide_False; [done|]. intros [?|?]%elem_of_cons; congruence.
    + intros k. rewrite V2, V1. destruct (decide (k.2 ∈ l)) as [Hb|Hb]; [by rewrite decide_True by (by constructor)|]. destruct (decide (k.2 = a)) as [E|Hne].
      * rewrite decide_True by (rewrite E; constructor). done.
      * rewrite decide_False; [done|]. intros [?|?]%elem_of_cons; done.
Qed.

Lemma evtr_add_ok (S : gset fd_pubkey_t) e a : einv e -> a ∈ S -> dom (eq_vtrs e) ⊆ S -> Z.of_nat (size S) <= eq_vtr_max e ->
  exists e', eqvoc_add_vtr e a = Ok e' /\ einv e' /\ same_stores e e' /\ eq_prfs e' = eq_prfs e /\ (forall b, is_Some (eq_vtrs e' !! b) <-> is_Some (eq_vtrs e !! b) \/ b = a) /\ dom (eq_vtrs e') ⊆ S.
Proof.
  intros HI HaS Hdom Hsz. unfold eqvoc_add_vtr. destruct (eq_vtrs e !! a) as [r|] eqn:E.
  - exists e. split_and!; try done. intros b. split; [tauto|]. intros [?| ->]; [done|by rewrite E].
  - assert (a ∉ dom (eq_vtrs e)) as Hna by (by rewrite not_elem_of_dom). assert (size (eq_vtrs e) < size S)%nat as Hlt by (rewrite <- size_dom; apply subset_size; set_solver).
    rewrite (proj2 (Z.ltb_lt _ _)) by lia. cbn [check mbind outcome_bind]. eexists. split; [done|]. destruct HI as [H1 H2 H3 H4 H5 HV H6 [Hvn Hvl] Hvs Hm].
    assert (forall b, is_Some (<[a := mk_evtr [] 0]> (eq_vtrs e) !! b) <-> is_Some (eq_vtrs e !! b) \/ b = a) as Hd.
    { intros b. destruct (decide (a = b)) as [->|]; [rewrite lookup_insert_eq; naive_solver|rewrite lookup_insert_ne by done; naive_solver]. }
    split_and!; [|done|done|done|cbn; rewrite dom_insert; set_solver]. split; try done; cbn.
    + split.
      * intros b x [[<- <-]|[_ Hx]]%lookup_insert_Some; [|by apply (ev_list _ _ _ HV)]. cbn. split_and!; [constructor|done|lia|]. intros i. rewrite elem_of_nil. split; [done|].
        intros Hi%(ev_in _ _ _ HV). rewrite E in Hi. by destruct Hi.
      * intros i b Hi%(ev_in _ _ _ HV). apply Hd. by left.
    + split; [apply snoc_nodup; [done|]; rewrite Hvl, E; by intros [? ?]|]. intros b. by rewrite elem_of_push, Hvl, Hd.
    + rewrite map_size_insert_None by done. lia.
Qed.

Lemma evtrs_add_ok (S : gset fd_pubkey_t) l e : einv e -> (forall a, a ∈ l -> a ∈ S) -> dom (eq_vtrs e) ⊆ S -> Z.of_nat (size S) <= eq_vtr_max e ->
  exists e', ofold eqvoc_add_vtr e l = Ok e' /\ einv e' /\ same_stores e e' /\ eq_prfs e' = eq_prfs e /\ (forall a, is_Some (eq_vtrs e' !! a) <-> is_Some (eq_vtrs e !! a) \/ a ∈ l).
Proof.
  revert e. induction l as [|a l IH]; intros e HI Hl Hdom Hsz.
  - exists e. split_and!; try done. intros a. rewrite elem_of_nil. tauto.
  - cbn [ofold]. destruct (evtr_add_ok S e a HI) as (e1 & -> & HI1 & S1 & V1 & R1 & D1); [apply Hl; constructor|done|done|]. cbn [mbind outcome_bind].
    destruct (IH e1 HI1) as (e2 & -> & HI2 & S2 & V2 & R2); [intros b Hb; apply Hl; by constructor|done|unfold same_stores, same_limits in *; intuition congruence|].
    exists e2. split_and!; [done|done|unfold same_stores, same_limits in *; intuition congruence|by rewrite V2|]. intros b. rewrite R2, R1, elem_of_cons. tauto.
Qed.

Lemma eupdate_ok e ids : einv e -> Z.of_nat (size (list_to_set ids : gset fd_pubkey_t)) <= eq_vtr_max e ->
  exists e', fd_eqvoc_update_voters e ids = Ok e' /\ einv e' /\ same_stores e e' /\ (forall a, is_Some (eq_vtrs e' !! a) <-> a ∈ ids) /\
    forall k, eq_prfs e' !! k = if decide (k.2 ∈ ids) then eq_prfs e !! k else None.
Proof.
  intros HI Hsz. destruct (ei_vlist e HI) as [Hnd Hdl]. unfold fd_eqvoc_update_voters.
  destruct (keep_voters_spec (eq_vtrs e) (eq_vtr_dlist e) ids Hnd Hdl) as (kept & -> & Hkn & Hk). set (dead := filter (not_in ids) (eq_vtr_dlist e)).
  destruct (sweep_voters_spec eqvoc_release_vtr (list_to_set dead) dead kept e) as (kept' & Hp & ->).
  { apply Forall_forall. intros a Ha. by apply elem_of_list_to_set. }
  { apply Forall_forall. intros a [Ha _]%Hk [Hn _]%elem_of_list_to_set%list_elem_of_filter. by apply Hn. }
  assert (forall a, a ∈ dead <-> a ∉ ids /\ is_Some (eq_vtrs e !! a)) as Hdead by (intros a; unfold dead; rewrite list_elem_of_filter, Hdl; done).
  destruct (evtrs_release_ok dead e) as (e1 & -> & [HV1 Hp1] & S1 & R1 & V1); [split; [apply HI|apply (ei_prf e HI)]|by apply NoDup_filter|intros a [_ ?]%Hdead; done|]. cbn [mbind outcome_bind fst snd].
  assert (forall a, is_Some (eq_vtrs e1 !! a) <-> a ∈ ids /\ is_Some (eq_vtrs e !! a)) as R1'.
  { intros a. rewrite R1. case_decide as Hd; rewrite Hdead in Hd; [split; [by intros [? ?]|tauto]|]. destruct (decide (a ∈ ids)); tauto. }
  destruct S1 as (D1 & D2 & F1 & F2 & (L1 & L2 & L3 & L4)).
  destruct (evtrs_add_ok (list_to_set ids) ids (eq_set_vtrs e1 (eq_vtrs e1) kept')) as (e2 & E2 & HI2 & S2 & V2 & R2).
  - destruct HI as [H1 H2 H3 H4 H5 H6 H7 H8 Hvs Hm]. split; cbn; rewrite ?D1, ?D2, ?F1, ?F2, ?L1, ?L2, ?L4; try done; rewrite ?L3; try done.
    + split; [by rewrite Hp|]. intros a. rewrite Hp, R1'. apply Hk.
    + etrans; [|exact Hvs]. apply Nat2Z.inj_le. rewrite <- !size_dom. apply subseteq_size. intros a Ha%elem_of_dom. apply R1' in Ha as [_ Ha]. by apply elem_of_dom.
  - intros a Ha. by apply elem_of_list_to_set.
  - intros a Ha%elem_of_dom. cbn in Ha. apply R1' in Ha as [Ha _]. by apply elem_of_list_to_set.
  - cbn. by rewrite L4.
  - exists e2. split_and!; [done|done|unfold same_stores, same_limits in *; cbn in *; intuition congruence| |].
    + intros a. rewrite R2. cbn. rewrite R1'. tauto.
    + intros [i a]. rewrite V2. cbn. rewrite V1. cbn [snd]. destruct (decide (a ∈ dead)) as [Hd|Hd]; rewrite Hdead in Hd; [by rewrite decide_False by tauto|].
      destruct (decide (a ∈ ids)) as [|Hn]; [done|]. destruct (eq_prfs e !! (i, a)) eqn:E; [|done]. destruct Hd. split; [done|]. apply (ev_in _ _ _ (ei_vtr e HI) i a). by rewrite E.
Qed.

(** * Construction *)

Lemma new_einv shmem dup_max fec_max per vtr e : fd_eqvoc_new shmem dup_max fec_max per vtr = Some e -> einv e.
Proof.
  unfold fd_eqvoc_new. destruct (shmem =? 0); [done|]. destruct (negb _); [done|]. destruct (eqvoc_limits_ok dup_max fec_max per vtr) eqn:El; [|done]. cbn [negb]. intros [= <-].
  unfold eqvoc_limits_ok in El. apply negb_true_iff in El. repeat (apply orb_false_iff in El as [El ?]). rewrite ?Z.eqb_neq, ?Z.ltb_ge in *.
  assert (forall x, is_u64 (fd_ulong_pow2_up x)) as Hu by (intros x; apply u64_range). pose proof (Hu dup_max). pose proof (Hu fec_max). pose proof (Hu per). pose proof (Hu vtr). unfold is_u64 in *.
  split; cbn; try (split; [constructor|]); try done; try lia.
  - intros s. rewrite elem_of_nil. set_solver.
  - rewrite size_empty. lia.
  - intros k. rewrite elem_of_nil, lookup_empty. split; [done|by intros [? ?]].
  - rewrite map_size_empty. lia.
  - intros slot from. rewrite lookup_empty. by intros [? ?].
  - intros a. rewrite elem_of_nil, lookup_empty. split; [done|by intros [? ?]].
  - rewrite map_size_empty. lia.
  - split; [lia|]. transitivity (UINT_MAX / fd_ulong_pow2_up vtr * fd_ulong_pow2_up vtr); [nia|]. rewrite Z.mul_comm. apply Z.mul_div_le. lia.
Qed.

(** * Reassembly *)

(** The part of a buffer that a chunk fills: 1054 bytes for the first two. *)
Definition part_len (n i : nat) : nat := if decide (i = 2%nat) then n - 2108 else 1054.
Definition part (n i : nat) (l : list Z) : list Z := take (part_len n i) (drop (i * 1054) l).

Lemma parts_join n l : (2108 <= n <= length l)%nat -> take n l = part n 0 l ++ part n 1 l ++ part n 2 l.
Proof.
  intros Hn. unfold part, part_len. cbn [Nat.mul Nat.add]. repeat (case_decide; [lia|] || rewrite decide_True by done). rewrite drop_0.
  replace n with (1054 + (1054 + (n - 2108)))%nat at 1 by lia. rewrite <- (take_drop 1054 l) at 1. rewrite take_past by (rewrite length_take; lia). f_equal.
  rewrite <- (take_drop 1054 (drop 1054 l)) at 1. rewrite take_past by (rewrite length_take, length_drop; lia). by rewrite drop_drop.
Qed.

(** Writing one part leaves the others alone. *)
Lemma part_splice_same n i l m : length m = part_len n i -> (i * 1054 + length m <= length l)%nat -> part n i (take (i * 1054) l ++ m ++ drop (i * 1054 + length m) l) = m.
Proof.
  intros Hm Hle. unfold part. rewrite <- (Nat.add_0_r (i * 1054)) at 1. rewrite drop_past by (rewrite length_take; lia). rewrite drop_0, take_app_le by lia. apply take_ge. lia.
Qed.

Lemma part_splice_other n i j l m : length m = part_len n i -> (i < 3)%nat -> (j < 3)%nat -> i <> j -> (i * 1054 + length m <= length l)%nat -> (n <= 3162)%nat ->
  part n j (take (i * 1054) l ++ m ++ drop (i * 1054 + length m) l) = part n j l.
Proof.
  intros Hm Hi Hj Hne Hle Hn. unfold part. destruct (decide (j < i)%nat) as [Hlt|Hge].
  - assert (part_len n j = 1054%nat) as -> by (unfold part_len; case_decide; lia). rewrite !take_drop_commute. f_equal. rewrite take_app_le by (rewrite length_take; lia). rewrite take_take. f_equal. lia.
  - assert (part_len n i = 1054%nat) as Ei by (unfold part_len; case_decide; lia). f_equal. replace (j * 1054)%nat with (i * 1054 + (1054 + (j - S i) * 1054))%nat by lia.
    rewrite drop_past by (rewrite length_take; lia). rewrite drop_past by lia. rewrite drop_drop. f_equal. lia.
Qed.

(** A proof in progress that has parts of an encoding. *)
Record holds (enc : list Z) (p : prf_t) : Prop := {
  ho_wf : prf_wf p;
  ho_sz : pf_buf_sz p = received_sz (pf_idxs p) (Z.of_nat (length enc) - 2108);
  ho_part : forall i, (i < 3)%nat -> Z.testbit (pf_idxs p) (Z.of_nat i) = true -> part (length enc) i (pf_buf p) = part (length enc) i enc
}.

Lemma holds_empty enc : holds enc prf_empty.
Proof. split; [apply prf_empty_wf|done|]. intros i _. cbn. by rewrite Z.bits_0. Qed.

Definition part_chunk (slot : Z) (enc : list Z) (i : nat) : fd_gossip_duplicate_shred_t := chunk_spec slot (Z.of_nat i) (part (length enc) i enc).

Lemma part_length enc i : (2108 <= length enc <= 2472)%nat -> (i < 3)%nat -> length (part (length enc) i enc) = part_len (length enc) i.
Proof. intros Hn Hi. unfold part, part_len. rewrite length_take, length_drop. case_decide; lia. Qed.

Lemma chunk_bytes_part slot enc i : chunk_bytes (part_chunk slot enc i) = part (length enc) i enc.
Proof. unfold chunk_bytes, part_chunk, chunk_spec. cbn [ck_chunk_len ck_chunk]. rewrite Nat2Z.id. apply take_ge. done. Qed.

Lemma holds_write slot enc p i : (2108 <= length enc <= 2472)%nat -> holds enc p -> (i < 3)%nat -> Z.testbit (pf_idxs p) (Z.of_nat i) = false -> prf_wf (prf_write p (part_chunk slot enc i)) ->
  holds enc (prf_write p (part_chunk slot enc i)).
Proof.
  intros Hn [Hw Hs Hp] Hi Hb Hw'. pose proof (part_length enc i Hn Hi) as Hlen. split; [done| |].
  - cbn [prf_write pf_buf_sz pf_idxs part_chunk chunk_spec ck_chunk_index ck_chunk_len]. rewrite Hs, Hlen. unfold received_sz, part_len. rewrite Z.shiftl_1_l, !Z.lor_spec, !Z.pow2_bits_eqb by lia.
    assert (i = 0 \/ i = 1 \/ i = 2)%nat as [->|[->| ->]] by lia; change (Z.of_nat 0) with 0 in *; change (Z.of_nat 1) with 1 in *; change (Z.of_nat 2) with 2 in *; rewrite Hb; cbn [Z.eqb Pos.eqb orb]; rewrite ?orb_true_r, ?orb_false_r;
      destruct (decide _) as [?|?]; try lia; try done.
  - intros j Hj. cbn [prf_write pf_buf pf_idxs]. rewrite chunk_bytes_part. cbn [part_chunk chunk_spec ck_chunk_index]. rewrite Z.shiftl_1_l, Z.lor_spec, Z.pow2_bits_eqb by lia.
    replace (Z.to_nat (Z.of_nat i * 1054)) with (i * 1054)%nat by lia. pose proof (pw_length p Hw) as Hl.
    assert (i * 1054 + length (part (length enc) i enc) <= length (pf_buf p))%nat as Hfit by (rewrite Hlen, Hl; unfold part_len; case_decide; lia). destruct (decide (i = j)) as [<-|Hne].
    + intros _. by apply part_splice_same.
    + rewrite (proj2 (Z.eqb_neq (Z.of_nat i) (Z.of_nat j))) by lia. rewrite orb_false_r. intros Hbj. rewrite part_splice_other by (try done; lia). by apply Hp.
Qed.

(** All parts make the encoding. *)
Lemma holds_all enc p : (2108 <= length enc <= 2472)%nat -> holds enc p -> pf_idxs p = 7 -> take (length enc) (pf_buf p) = enc /\ pf_buf_sz p = Z.of_nat (length enc).
Proof.
  intros Hn [Hw Hs Hp] E7. rewrite E7 in *. split; [|rewrite Hs; unfold received_sz; change (Z.testbit 7 0) with true; change (Z.testbit 7 1) with true; change (Z.testbit 7 2) with true; lia]. pose proof (pw_length p Hw).
  rewrite (parts_join (length enc) (pf_buf p)) by lia. rewrite (Hp 0%nat), (Hp 1%nat), (Hp 2%nat) by (try lia; done). rewrite <- (parts_join (length enc) enc) by lia. by apply take_ge.
Qed.

Lemma chunks_are_parts s1 s2 : merkle_shred s1 -> merkle_shred s2 -> chunks_spec s1 s2 = part_chunk (sh_slot s1) (encoding s1 s2) <$> [0; 1; 2]%nat.
Proof.
  intros H1 H2. pose proof (encoding_length s1 s2 H1 H2) as Hl. pose proof (merkle_sz_bounds s1 H1). pose proof (merkle_sz_bounds s2 H2).
  unfold chunks_spec, part_chunk, part, part_len. cbn [fmap list_fmap Nat.mul Nat.add]. repeat (case_decide; [lia|] || rewrite decide_True by done). rewrite drop_0.
  rewrite (take_ge (drop 2108 (encoding s1 s2))) by (rewrite length_drop; lia). done.
Qed.

Section Claims.
Context (hash_leaf : list Z -> list Z) (insert_with_proof : Z -> list Z -> list Z -> Z -> option (list Z)).
Context (ed25519_verify : list Z -> list Z -> fd_pubkey_t -> bool).
Notation chunk_insert := (fd_eqvoc_chunk_insert hash_leaf insert_with_proof ed25519_verify).
Notation verify := (verify_proof hash_leaf insert_with_proof ed25519_verify).

(** * Calls *)

Inductive eqvoc_op :=
| EShred (hint : bool) (shred : fd_shred_t)
| EChunk (root ver : Z) (sched : option fd_epoch_leaders_t) (from : fd_pubkey_t) (c : fd_gossip_duplicate_shred_t)
| EVerified (slot : Z)
| EUpdateVoters (ids : list fd_pubkey_t).

Definition eqvoc_step (e : fd_eqvoc_t) (op : eqvoc_op) : outcome fd_eqvoc_t :=
  match op with
  | EShred hint shred => r ← fd_eqvoc_shred_insert e hint shred; Ok r.1
  | EChunk root ver sched from c => r ← chunk_insert e root ver sched from c; Ok r.1.1
  | EVerified slot => Ok (fd_eqvoc_proof_verified e slot).1
  | EUpdateVoters ids => fd_eqvoc_update_voters e ids
  end.

(** Shreds are Merkle shreds; chunks and schedules are well-formed but untrusted. *)
Definition eqvoc_admissible (e : fd_eqvoc_t) (op : eqvoc_op) : Prop :=
  match op with
  | EShred hint shred => merkle_shred shred
  | EChunk root ver sched from c => sched_wf sched /\ chunk_wf c
  | EVerified slot => True
  | EUpdateVoters ids => Z.of_nat (size (list_to_set ids : gset fd_pubkey_t)) <= eq_vtr_max e
  end.

Inductive eqvoc_reach : fd_eqvoc_t -> Prop :=
| ereach_new shmem dup_max fec_max per_vtr_max vtr_max e : fd_eqvoc_new shmem dup_max fec_max per_vtr_max vtr_max = Some e -> eqvoc_reach e
| ereach_step e op e' : eqvoc_reach e -> eqvoc_admissible e op -> eqvoc_step e op = Ok e' -> eqvoc_reach e'.

Lemma eqvoc_step_ok e op : einv e -> eqvoc_admissible e op -> exists e', eqvoc_step e op = Ok e' /\ einv e'.
Proof using.
  intros HI Ha. destruct op as [hint s|root ver sched from c|slot|ids]; cbn [eqvoc_step eqvoc_admissible] in *.
  - destruct (shred_insert_ok e hint s HI Ha) as (e' & r & -> & HI' & _). cbn. eauto.
  - destruct Ha as [H1 H2]. destruct (chunk_insert_ok hash_leaf insert_with_proof ed25519_verify e root ver sched from c HI H1 H2) as (e' & code & r & -> & HI' & _). cbn. eauto.
  - exists (fd_eqvoc_proof_verified e slot).1. split; [done|]. by apply dup_query_ok.
  - destruct (eupdate_ok e ids HI Ha) as (e' & -> & HI' & _). eauto.
Qed.

Lemma eqvoc_reach_inv e : eqvoc_reach e -> einv e.
Proof using.
  induction 1 as [|e op e' _ IH Ha E]; [by eapply new_einv|]. destruct (eqvoc_step_ok e op IH Ha) as (e2 & E2 & HI). congruence.
Qed.

(** * Reading back a constructed proof *)

(** One more chunk of an encoding for the proof of a voter that has some of them. *)
Lemma part_insert e root ver sched from slot enc i :
  einv e -> sched_wf sched -> root < slot -> is_Some (eq_vtrs e !! from) -> slot ∉ eq_dups e -> Forall is_byte enc ->
  length enc = 2472%nat \/ length enc = 2447%nat \/ length enc = 2422%nat -> (i < 3)%nat ->
  holds enc (default prf_empty (eq_prfs e !! (slot, from))) -> Z.testbit (pf_idxs (default prf_empty (eq_prfs e !! (slot, from)))) (Z.of_nat i) = false ->
  let p' := prf_write (default prf_empty (eq_prfs e !! (slot, from))) (part_chunk slot enc i) in
  holds enc p' /\ exists e' code r, chunk_insert e root ver sched from (part_chunk slot enc i) = Ok (e', code, r) /\ einv e' /\ (forall a, is_Some (eq_vtrs e' !! a) <-> is_Some (eq_vtrs e !! a)) /\
    if decide (pf_idxs p' = 7) then proof_result hash_leaf insert_with_proof ed25519_verify ver sched slot p' e e' code r
    else code = FD_EQVOC_IGNORED /\ r = None /\ eq_dups e' = eq_dups e /\ eq_prfs e' !! (slot, from) = Some p'.
Proof using.
  intros HI Hsched Hroot [vtr Hv] Hd Hb Hn Hi Hh Hbit p'. assert (2108 <= length enc <= 2472)%nat as Hn' by lia. pose proof (part_length enc i Hn' Hi) as Hpl.
  set (c := part_chunk slot enc i) in *. assert (Forall is_byte (part (length enc) i enc)) as Hpb by (by apply Forall_take, Forall_drop).
  assert (chunk_wf c) as Hc by (split; cbn [c part_chunk chunk_spec ck_chunk ck_chunk_len ck_chunk_index]; [done|lia|lia]).
  assert (chunk_len_ok c = true) as Hlen.
  { unfold chunk_len_ok. cbn [c part_chunk chunk_spec ck_chunk_index ck_chunk_len]. rewrite Hpl.
    assert (i = 0 \/ i = 1 \/ i = 2)%nat as [->|[->| ->]] by lia; destruct Hn as [->|[->| ->]]; vm_compute; reflexivity. }
  destruct (prf_add_ok (default prf_empty (eq_prfs e !! (slot, from))) c) as [_ Hw']; [apply Hh|done|done|cbn [c part_chunk chunk_spec ck_chunk_index]; lia|done|]. assert (holds enc p') as Hh' by (by apply holds_write). split; [done|].
  destruct (chunk_insert_ok hash_leaf insert_with_proof ed25519_verify e root ver sched from c HI Hsched Hc) as (e' & code & r & E & HI' & _ & Hv' & Hres). exists e', code, r. split_and!; [done|done|done|].
  assert (chunk_refused e root from c = None) as Hr.
  { unfold chunk_refused. rewrite Hv, Hlen. cbn [c part_chunk chunk_spec ck_slot ck_num_chunks ck_chunk_index negb]. rewrite (proj2 (Z.leb_gt slot root)) by lia. change (3 =? FD_EQVOC_CHUNK_CNT) with true. cbn [negb].
    unfold FD_EQVOC_CHUNK_CNT. by rewrite (proj2 (Z.leb_gt 3 (Z.of_nat i))) by lia. }
  rewrite Hr in Hres. change (ck_slot c) with slot in Hres. rewrite decide_False in Hres by done. unfold chunk_result, current_prf in Hres. change (ck_slot c) with slot in Hres.
  change (ck_chunk_index c) with (Z.of_nat i) in Hres. rewrite Hbit in Hres. fold p' in Hres. destruct (decide (pf_idxs p' = 7)); tauto.
Qed.

(** The chunks of a constructed proof arrive in some order. *)
Lemma perm_indices s1 s2 c1 c2 c3 : merkle_shred s1 -> merkle_shred s2 -> [c1; c2; c3] ≡ₚ chunks_spec s1 s2 ->
  exists i j k, [i; j; k] ≡ₚ [0; 1; 2]%nat /\ c1 = part_chunk (sh_slot s1) (encoding s1 s2) i /\ c2 = part_chunk (sh_slot s1) (encoding s1 s2) j /\ c3 = part_chunk (sh_slot s1) (encoding s1 s2) k.
Proof using.
  intros H1 H2 Hp. rewrite (chunks_are_parts s1 s2 H1 H2) in Hp. apply Permutation_map_inv in Hp as (l & El & Hl).
  pose proof (Permutation_length Hl) as Hlen. destruct l as [|i [|j [|k [|? ?]]]]; try done. exists i, j, k. cbn in El. split; [by symmetry|]. by injection El as -> -> ->.
Qed.

Lemma encoding_bytes s1 s2 : merkle_shred s1 -> merkle_shred s2 -> Forall is_byte (encoding s1 s2).
Proof using.
  intros H1 H2. unfold encoding, shred_bytes. repeat (apply Forall_app; split); try apply le_store_bytes; apply Forall_take; [apply H1|apply H2].
Qed.

(** The bits of three different chunks. *)
Lemma bits_of_three i j k : [i; j; k] ≡ₚ [0; 1; 2]%nat ->
  (i < 3)%nat /\ (j < 3)%nat /\ (k < 3)%nat /\
  let b1 := Z.lor 0 (Z.shiftl 1 (Z.of_nat i)) in let b2 := Z.lor b1 (Z.shiftl 1 (Z.of_nat j)) in let b3 := Z.lor b2 (Z.shiftl 1 (Z.of_nat k)) in
  b1 <> 7 /\ Z.testbit b1 (Z.of_nat j) = false /\ b2 <> 7 /\ Z.testbit b2 (Z.of_nat k) = false /\ b3 = 7.
Proof using.
  intros Hp. assert (i ∈ [0; 1; 2]%nat) as Hi by (rewrite <- Hp; constructor). assert (j ∈ [0; 1; 2]%nat) as Hj by (rewrite <- Hp; right; constructor). assert (k ∈ [0; 1; 2]%nat) as Hk by (rewrite <- Hp; right; right; constructor).
  assert (NoDup [i; j; k]) as Hnd by (rewrite Hp; repeat constructor; set_solver). apply NoDup_cons in Hnd as [N1 Hnd]. apply NoDup_cons in Hnd as [N2 _].
  rewrite list_elem_of_In in Hi, Hj, Hk, N1, N2. cbn [In] in *. destruct Hi as [<-|[<-|[<-|[]]]]; destruct Hj as [<-|[<-|[<-|[]]]]; destruct Hk as [<-|[<-|[<-|[]]]]; try tauto;
    (split_and!; [lia|lia|lia|by vm_compute|reflexivity|by vm_compute|reflexivity|reflexivity]).
Qed.

(** * The properties *)

(** C35: From every state that calls lead to, every call with a Merkle shred, with a
    chunk however malformed its contents, or with a set of voters that fits, returns: no
    store is read or written out of bounds and no pool is exhausted.  In every such state
    the three bounded stores agree with their lists and limits, a voter has at most
    [per_vtr_max] proofs in progress, and the size of a proof is that of its chunks. *)
Theorem eqvoc_total e op : eqvoc_reach e -> eqvoc_admissible e op -> einv e /\ exists e', eqvoc_step e op = Ok e' /\ einv e'.
Proof using. intros HI%eqvoc_reach_inv Ha. split; [done|]. by apply eqvoc_step_ok. Qed.

(** C33: A chunk that completes an accepted proof shows an equivocation: its sender is
    a voter, its slot is past the root and was not verified before, and there are two
    shreds of that slot and of the given version, chained, with Merkle roots that the
    slot's leader signed, of which one ends the slot below the other or which share an FEC
    set with different roots.  Only that slot becomes verified, and the chunks handed out
    are those of the two shreds. *)
Theorem eqvoc_chunk_sound e root ver sched from c e' r :
  eqvoc_reach e -> sched_wf sched -> chunk_wf c -> chunk_insert e root ver sched from c = Ok (e', FD_EQVOC_SUCCESS, r) ->
  root < ck_slot c /\ is_Some (eq_vtrs e !! from) /\ ck_slot c ∉ eq_dups e /\ ck_slot c ∈ eq_dups e' /\ (forall t, t ∈ eq_dups e' -> t = ck_slot c \/ t ∈ eq_dups e) /\
  exists s1 s2, sh_slot s1 = ck_slot c /\ equivocate hash_leaf insert_with_proof ed25519_verify ver sched s1 s2 /\ construct_proof s1 s2 = Ok (chunks_spec s1 s2) /\ r = Some (chunks_spec s1 s2).
Proof using.
  intros HI%eqvoc_reach_inv Hsched Hc E. destruct (chunk_insert_ok hash_leaf insert_with_proof ed25519_verify e root ver sched from c HI Hsched Hc) as (e2 & code & r2 & E2 & _ & _ & _ & Hres).
  rewrite E in E2. injection E2 as <- <- <-. destruct (chunk_refused e root from c) as [err|] eqn:Er.
  { destruct Hres as (_ & <- & _). unfold chunk_refused in Er. destruct (ck_slot c <=? root), (eq_vtrs e !! from), (negb (ck_num_chunks c =? FD_EQVOC_CHUNK_CNT)), (FD_EQVOC_CHUNK_CNT <=? ck_chunk_index c), (negb (chunk_len_ok c)); done. }
  assert (root < ck_slot c /\ is_Some (eq_vtrs e !! from)) as [Hroot Hv]. { unfold chunk_refused in Er. destruct (Z.leb_spec (ck_slot c) root); [done|]. destruct (eq_vtrs e !! from); [|done]. split; [lia|done]. }
  destruct (decide (ck_slot c ∈ eq_dups e)) as [|Hd]; [by destruct Hres as (? & _)|]. unfold chunk_result in Hres. destruct (Z.testbit _ _); [by destruct Hres as (? & _)|].
  destruct (decide (pf_idxs _ = 7)); [|by destruct Hres as (? & _)]. destruct Hres as [Hres _]. unfold proof_result in Hres. destruct (proof_shreds _ _ _) as [[s1 s2]|]; [|by destruct Hres as (? & _)].
  destruct Hres as [_ Hres]. rewrite decide_True in Hres by done. destruct Hres as (M1 & M2 & Es & Heq & -> & Hin & Hsub). split_and!; try done. exists s1, s2. split_and!; try done. by apply construct_proof_spec.
Qed.

(** C34: A proof that was constructed can be read back.  For two Merkle shreds of a
    slot that validation accepts, the three chunks of [construct_proof], delivered in any
    order by a voter that has no proof in progress for the slot, are put together to the
    two shreds again: the first two are kept and the third one returns what verification of
    the two shreds returns, with the same chunks handed out on success. *)
Theorem eqvoc_proof_roundtrip e root ver sched from s1 s2 chunks c1 c2 c3 :
  eqvoc_reach e -> sched_wf sched -> merkle_shred s1 -> merkle_shred s2 -> sh_slot s1 = sh_slot s2 ->
  fd_shred_parse s1 (fd_shred_sz s1) FD_SHRED_BLK_MAX = Some s1 -> fd_shred_parse s2 (fd_shred_sz s2) FD_SHRED_BLK_MAX = Some s2 ->
  construct_proof s1 s2 = Ok chunks -> [c1; c2; c3] ≡ₚ chunks ->
  root < sh_slot s1 -> is_Some (eq_vtrs e !! from) -> sh_slot s1 ∉ eq_dups e -> eq_prfs e !! (sh_slot s1, from) = None ->
  exists e1 e2 e3 code r,
    chunk_insert e root ver sched from c1 = Ok (e1, FD_EQVOC_IGNORED, None) /\ chunk_insert e1 root ver sched from c2 = Ok (e2, FD_EQVOC_IGNORED, None) /\
    chunk_insert e2 root ver sched from c3 = Ok (e3, code, r) /\ verify ver sched s1 s2 = Ok code /\ r = (if decide (code = FD_EQVOC_SUCCESS) then Some chunks else None).
Proof using.
  intros HI%eqvoc_reach_inv Hsched M1 M2 Es P1 P2 Ec Hp Hroot Hv Hd Hnone. rewrite (construct_proof_spec s1 s2 M1 M2) in Ec. injection Ec as <-.
  pose proof (merkle_sz_bounds s1 M1) as B1. pose proof (merkle_sz_bounds s2 M2) as B2. destruct (parse_ok s1 (fd_shred_sz s1) FD_SHRED_BLK_MAX s1 (ms_bytes s1 M1) ltac:(small) P1) as [_ K1].
  destruct (parse_ok s2 (fd_shred_sz s2) FD_SHRED_BLK_MAX s2 (ms_bytes s2 M2) ltac:(small) P2) as [_ K2]. destruct (perm_indices s1 s2 c1 c2 c3 M1 M2 Hp) as (i & j & k & Hijk & -> & -> & ->).
  destruct (bits_of_three i j k Hijk) as (Hi & Hj & Hk & N1 & T2 & N2 & T3 & N3). set (enc := encoding s1 s2) in *. set (slot := sh_slot s1) in *.
  assert (length enc = 2472%nat \/ length enc = 2447%nat \/ length enc = 2422%nat) as Hn by (unfold enc; rewrite encoding_length by done; lia). pose proof (encoding_bytes s1 s2 M1 M2) as Hb.
  pose proof (part_insert e root ver sched from slot enc i HI Hsched Hroot Hv Hd Hb Hn Hi) as S1. cbv zeta in S1. rewrite Hnone in S1. cbn [default from_option id] in S1. destruct (S1 (holds_empty enc) ltac:(by rewrite Z.bits_0)) as (H1 & e1 & code1 & r1 & E1 & HI1 & V1 & R1).
  set (p1 := prf_write prf_empty (part_chunk slot enc i)) in *. change (pf_idxs p1) with (Z.lor 0 (Z.shiftl 1 (Z.of_nat i))) in R1. rewrite decide_False in R1 by done. destruct R1 as (-> & -> & D1 & Ep1).
  pose proof (part_insert e1 root ver sched from slot enc j HI1 Hsched Hroot ltac:(by apply V1) ltac:(by rewrite D1) Hb Hn Hj) as S2. cbv zeta in S2. rewrite Ep1 in S2. cbn [default from_option id] in S2. destruct (S2 H1 T2) as (H2 & e2 & code2 & r2 & E2 & HI2 & V2 & R2).
  set (p2 := prf_write p1 (part_chunk slot enc j)) in *. rewrite decide_False in R2 by done. destruct R2 as (-> & -> & D2 & Ep2).
  pose proof (part_insert e2 root ver sched from slot enc k HI2 Hsched Hroot ltac:(by apply V2, V1) ltac:(by rewrite D2, D1) Hb Hn Hk) as S3. cbv zeta in S3. rewrite Ep2 in S3. cbn [default from_option id] in S3. destruct (S3 H2 T3) as (H3 & e3 & code & r & E3 & HI3 & V3 & R3).
  set (p3 := prf_write p2 (part_chunk slot enc k)) in *. assert (pf_idxs p3 = 7) as E7 by exact N3. rewrite decide_True in R3 by done. destruct (holds_all enc p3 ltac:(lia) H3 E7) as [Ht Hsz].
  destruct (proof_shreds_encoding s1 s2 (pf_buf p3) M1 M2 K1 K2 Es (pw_bytes _ (ho_wf _ _ H3)) Ht) as (t1 & t2 & Eps & W1 & W2 & _). unfold proof_result in R3. fold enc slot in Eps. rewrite <- Hsz in Eps. change (prf_write p2 (part_chunk slot enc k)) with p3 in R3. rewrite Eps in R3.
  destruct R3 as [Ev Hr]. rewrite (verify_proof_same _ _ _ ver sched s1 s2 t1 t2 M1 M2 W1 W2) in Ev. exists e1, e2, e3, code, r. split_and!; try done. destruct (decide (code = FD_EQVOC_SUCCESS)).
  - destruct Hr as (_ & _ & _ & _ & -> & _). by rewrite (chunks_spec_same s1 s2 t1 t2).
  - by destruct Hr.
Qed.
End Claims.


(** * Examples *)

(** A tree whose root is its leaf and signatures that all hold. *)
Definition toy_leaf (l : list Z) : list Z := l.
Definition toy_insert (idx : Z) (leaf proof : list Z) (cnt : Z) : option (list Z) := Some leaf.
Definition toy_verify (msg sig : list Z) (pk : fd_pubkey_t) : bool := true.
Definition toy_sched : option fd_epoch_leaders_t := Some (mk_leaders 0 8 [[9]] [0; 0]).
Definition voter : fd_pubkey_t := [1].

Definition ok_state (d : fd_eqvoc_t) (o : outcome fd_eqvoc_t) : fd_eqvoc_t := match o with Ok e => e | Fail _ => d end.
Definition toy_step : fd_eqvoc_t -> eqvoc_op -> outcome fd_eqvoc_t := eqvoc_step toy_leaf toy_insert toy_verify.

(** Two shreds of one FEC set with different contents, and their proof. *)
Definition shredA : fd_shred_t := data_shred 3 0 0 9.
Definition shredB : fd_shred_t := data_shred 3 0 0 8.
Definition proofAB : list fd_gossip_duplicate_shred_t := match construct_proof shredA shredB with Ok l => l | Fail _ => [] end.
Definition chunkAB (i : nat) : fd_gossip_duplicate_shred_t := nth i proofAB (mk_chunk 0 0 0 0 0 []).

Definition eqvoc0 : fd_eqvoc_t := default (mk_eqvoc 0 0 0 0 ∅ [] ∅ [] ∅ ∅ []) (fd_eqvoc_new 128 4 4 2 2).
Definition eqvoc1 : fd_eqvoc_t := ok_state eqvoc0 (toy_step eqvoc0 (EUpdateVoters [voter])).
Definition eqvoc2 : fd_eqvoc_t := ok_state eqvoc1 (toy_step eqvoc1 (EChunk 4 1 toy_sched voter (chunkAB 2))).
Definition eqvoc3 : fd_eqvoc_t := ok_state eqvoc2 (toy_step eqvoc2 (EChunk 4 1 toy_sched voter (chunkAB 0))).

Lemma toy_sched_wf : sched_wf toy_sched.
Proof.
  split; [unfold is_u64, ULONG_MAX; cbn; lia|]. cbn [el_slot_cnt el_sched el_pub]. intros r H0 H4. assert (r = 0 \/ r = 1) as [->| ->] by lia; exists 0; (split; [reflexivity|cbn; lia]).
Qed.

Lemma merkle_check s : forallb (fun b => (0 <=? b) && (b <? 256)) s && valid_variant (sh_variant s) && merkle_type (fd_shred_type (sh_variant s)) && (fd_shred_sz s <=? Z.of_nat (length s)) = true -> merkle_shred s.
Proof. intros H. repeat (apply andb_true_iff in H as [H ?]). split; [by apply shred_bytes_check|done|done|lia]. Qed.

Lemma chunk_check c : forallb (fun b => (0 <=? b) && (b <? 256)) (ck_chunk c) && (0 <=? ck_chunk_len c) && (ck_chunk_len c <=? Z.of_nat (length (ck_chunk c))) && (0 <=? ck_chunk_index c) = true -> chunk_wf c.
Proof. intros H. repeat (apply andb_true_iff in H as [H ?]). split; [by apply shred_bytes_check|lia|lia]. Qed.

Lemma eqvoc1_reach : eqvoc_reach toy_leaf toy_insert toy_verify eqvoc1.
Proof.
  apply (ereach_step _ _ _ eqvoc0 (EUpdateVoters [voter])); [apply (ereach_new _ _ _ 128 4 4 2 2); vm_compute; reflexivity|vm_compute; discriminate|vm_compute; reflexivity].
Qed.

Lemma eqvoc3_reach : eqvoc_reach toy_leaf toy_insert toy_verify eqvoc3.
Proof.
  apply (ereach_step _ _ _ eqvoc2 (EChunk 4 1 toy_sched voter (chunkAB 0))); [|split; [exact toy_sched_wf|apply chunk_check; vm_compute; reflexivity]|vm_compute; reflexivity].
  apply (ereach_step _ _ _ eqvoc1 (EChunk 4 1 toy_sched voter (chunkAB 2)) _ eqvoc1_reach); [split; [exact toy_sched_wf|apply chunk_check; vm_compute; reflexivity]|vm_compute; reflexivity].
Qed.

Lemma eqvoc_total_witness : exists e', toy_step eqvoc3 (EShred false shredA) = Ok e' /\ einv e'.
Proof.
  destruct (eqvoc_total toy_leaf toy_insert toy_verify eqvoc3 (EShred false shredA) eqvoc3_reach) as [_ H].
  - apply merkle_check. vm_compute. reflexivity.
  - exact H.
Defined.

Definition eqvoc4 : option (fd_eqvoc_t * eqvoc_err_t * option (list fd_gossip_duplicate_shred_t)) :=
  match fd_eqvoc_chunk_insert toy_leaf toy_insert toy_verify eqvoc3 4 1 toy_sched voter (chunkAB 1) with Ok r => Some r | Fail _ => None end.
Definition eqvoc4_state : fd_eqvoc_t := match eqvoc4 with Some r => r.1.1 | None => eqvoc3 end.

Lemma eqvoc_chunk_sound_witness : 5 ∈ eq_dups eqvoc4_state.
Proof.
  destruct (eqvoc_chunk_sound toy_leaf toy_insert toy_verify eqvoc3 4 1 toy_sched voter (chunkAB 1) eqvoc4_state (Some proofAB) eqvoc3_reach toy_sched_wf) as (_ & _ & _ & H & _).
  - apply chunk_check. vm_compute. reflexivity.
  - vm_compute. reflexivity.
  - exact H.
Defined.

(** The chunks of the proof arrive last one first. *)
Lemma eqvoc_proof_roundtrip_witness : exists e1 e2 e3 code r,
  fd_eqvoc_chunk_insert toy_leaf toy_insert toy_verify eqvoc1 4 1 toy_sched voter (chunkAB 2) = Ok (e1, FD_EQVOC_IGNORED, None) /\
  fd_eqvoc_chunk_insert toy_leaf toy_insert toy_verify e1 4 1 toy_sched voter (chunkAB 0) = Ok (e2, FD_EQVOC_IGNORED, None) /\
  fd_eqvoc_chunk_insert toy_leaf toy_insert toy_verify e2 4 1 toy_sched voter (chunkAB 1) = Ok (e3, code, r) /\ code = FD_EQVOC_SUCCESS.
Proof.
  destruct (eqvoc_proof_roundtrip toy_leaf toy_insert toy_verify eqvoc1 4 1 toy_sched voter shredA shredB proofAB (chunkAB 2) (chunkAB 0) (chunkAB 1) eqvoc1_reach toy_sched_wf) as (e1 & e2 & e3 & code & r & E1 & E2 & E3 & Ev & _).
  - apply merkle_check. vm_compute. reflexivity.
  - apply merkle_check. vm_compute. reflexivity.
  - vm_compute. reflexivity.
  - vm_compute. reflexivity.
  - vm_compute. reflexivity.
  - vm_compute. reflexivity.
  - assert (proofAB = [chunkAB 0; chunkAB 1; chunkAB 2]) as -> by (vm_compute; reflexivity). generalize (chunkAB 0), (chunkAB 1), (chunkAB 2). intros a b c. apply Permutation_sym. etransitivity; [apply perm_skip, perm_swap|apply perm_swap].
  - vm_compute. reflexivity.
  - vm_compute. eexists. reflexivity.
  - assert (bool_decide (sh_slot shredA ∈ eq_dups eqvoc1) = false) as E by (vm_compute; reflexivity). by apply bool_decide_eq_false in E.
  - vm_compute. reflexivity.
  - exists e1, e2, e3, code, r. split; [exact E1|]. split; [exact E2|]. split; [exact E3|].
    assert (verify_proof toy_leaf toy_insert toy_verify 1 toy_sched shredA shredB = Ok FD_EQVOC_SUCCESS) as E by (vm_compute; reflexivity). rewrite Ev in E. by injection E.
Defined.


(** Only data shreds can contradict the end of a slot, and verification requires two
    of them; inserting a shred does not.  A code shred with index 5 followed by the last
    data shred, with index 3, of the same FEC set and tree makes a proof that no receiver
    accepts, and marks the slot. *)
Definition same_root (idx : Z) (leaf proof : list Z) (cnt : Z) : option (list Z) := Some [1].
Definition code5 : fd_shred_t := code_shred 5 0 9.
Definition last3 : fd_shred_t := data_shred 3 0 0xC0 9.
Definition after_code5 : outcome (fd_eqvoc_t * option (list fd_gossip_duplicate_shred_t)) := fd_eqvoc_shred_insert eqvoc1 false code5.

Example code_shred_false_proof :
  is_ok after_code5 = true /\ fd_shred_parse code5 1228 FD_SHRED_BLK_MAX = Some code5 /\ fd_shred_parse last3 1203 FD_SHRED_BLK_MAX = Some last3 /\
  match after_code5 with
  | Ok (e, _) => match fd_eqvoc_shred_insert e false last3 with
                 | Ok (e', Some chunks) => bool_decide (5 ∈ eq_dups e') = true
                 | _ => False
                 end
  | Fail _ => False
  end /\
  verify_proof toy_leaf same_root toy_verify 1 toy_sched last3 code5 = Ok FD_EQVOC_IGNORED.
Proof. split_and!; vm_compute; reflexivity. Qed.
