(* ===== verification/ShredTree.v ===== *)
(** * The Merkle root of a shred

    [fd_shred_merkle_root] with the Merkle tree it calls: [Shred] and the equivocation
    checks take the hash of a leaf and the insertion with a proof as parameters, which are
    here the functions of [Bmtree], on a tree that was just initialised for nodes of 20
    bytes and seven layers. *)
From S2P Require Import Prelude VotorBase Sha256 Sha256Props Bmtree BmtreeSpec BmtreeLeaves BmtreePaths BmtreeKnown BmtreeFini BmtreeRoot BmtreeAgree BmtreeProps Shred ShredProps Eqvoc EqvocProof.

Notation "a ≃ b" := (BmtreeSpec.same 20 a b) (at level 70).

(** ** The calls *)

(** The tree of [fd_shred_merkle_root], in the memory [bmtree_mem]. *)
Definition shred_tree (bmtree_mem : fd_bmtree_commit_t) : fd_bmtree_commit_t :=
  fd_bmtree_commit_init bmtree_mem FD_SHRED_MERKLE_NODE_SZ FD_BMTREE_LONG_PREFIX_SZ FD_SHRED_MERKLE_LAYER_CNT.

(** [fd_shred_merkle_root] with the calls it makes; [None] is the return of 0. *)
Definition shred_merkle_root_calls (bmtree_mem : fd_bmtree_commit_t) (shred : fd_shred_t) : outcome (option fd_bmtree_node_t) :=
  let variant := sh_variant shred in
  let tree_depth := fd_shred_merkle_cnt variant in
  if negb (tree_depth =? FD_SHRED_MERKLE_LAYER_CNT -w 1) then Ok None else
  bytes ← mem_read shred 64 (merkle_protected_sz variant);
  leaf ← fd_bmtree_hash_leaf bytes FD_BMTREE_LONG_PREFIX_SZ;
  r ← fd_bmtree_commitp_insert_with_proof (shred_tree bmtree_mem) (merkle_leaf_idx shred) leaf (fd_shred_merkle_nodes shred) (fd_shred_merkle_cnt variant);
  Ok r.2.

(** The parameters of [Shred.fd_shred_merkle_root]. *)
Definition shred_hash_leaf (data : list Z) : list Z := match fd_bmtree_hash_leaf data FD_BMTREE_LONG_PREFIX_SZ with Ok leaf => leaf | Fail _ => [] end.
Definition shred_insert (bmtree_mem : fd_bmtree_commit_t) (shred_idx : Z) (leaf proof : list Z) (depth : Z) : option (list Z) :=
  match fd_bmtree_commitp_insert_with_proof (shred_tree bmtree_mem) shred_idx leaf proof depth with Ok (_, root) => root | Fail _ => None end.

(** ** A tree without nodes *)

(** The first insertion gives the end of the walk along the proof. *)
Lemma fresh_insert hs ps n mem i leaf proof pd : sizes_ok hs ps -> (1 <= n <= 62)%nat -> proof_mem n mem -> node_ok leaf -> Forall is_byte proof -> (pd * hsn hs <= length proof)%nat -> (pd < n)%nat -> idx 0 i < zpow n - 1 ->
  exists st, fd_bmtree_commitp_insert_with_proof (fd_bmtree_commit_init mem hs ps (Z.of_nat n)) (Z.of_nat i) leaf proof (Z.of_nat pd) = Ok (st, Some (climb hs ps i leaf (chunks hs proof 0 pd))).
Proof.
  intros Hsz Hn Hmem Hleaf Hb Hlen Hpd Hi. pose proof (init_pinv hs ps n Hsz Hn mem Hmem) as Hinv. set (st0 := fd_bmtree_commit_init mem hs ps (Z.of_nat n)) in *. assert (forall l j, known st0 l j = false) as Hk by (intros l j; apply (init_valid hs ps n Hsz Hn mem _ Hmem)).
  destruct (insert_ok hs ps n Hsz Hn st0 Hinv i proof Hb Hi leaf pd Hleaf Hlen Hpd) as (st & r & -> & _ & _ & [(B & _ & _ & _ & _ & l & _ & _ & _ & Hc)|(T & B & -> & HW & _)]).
  { exfalso. unfold conflict_at in Hc. rewrite !Hk in Hc. naive_solver. }
  assert (T = pd) as ->. { pose proof (wk_T _ _ _ _ _ _ _ _ _ _ HW). destruct (decide (T = pd)) as [|Hne]; [done|]. destruct (wk_known _ _ _ _ _ _ _ _ _ _ HW pd ltac:(lia)) as (_ & K & _). by rewrite Hk in K. }
  exists st. do 3 f_equal. assert (forall m, (m <= pd)%nat -> bnode B m = climb hs ps i leaf (chunks hs proof 0 m)) as Hw; [|by apply Hw].
  induction m as [|m IH]; intros Hm; [apply (wk_leaf _ _ _ _ _ _ _ _ _ _ HW)|]. destruct (wk_proof _ _ _ _ _ _ _ _ _ _ HW m ltac:(lia)) as (_ & _ & _ & E). rewrite E by apply Hk. rewrite IH by lia.
  unfold chunks. rewrite seq_S, fmap_app. cbn [fmap list_fmap Nat.add]. rewrite (climb_snoc hs ps Hsz), length_fmap, length_seq. done.
Qed.

(** ** Shreds *)

(** The bytes the leaf is the hash of: from the signature to the Merkle proof. *)
Definition covered (s : fd_shred_t) : list Z := take (Z.to_nat (fd_shred_merkle_off s - 64)) (drop 64 s).
Definition shred_leaf (s : fd_shred_t) : fd_bmtree_node_t := Fips.SHA256 (take 26 fd_bmtree_leaf_prefix ++ covered s).
Definition leaf_pos (s : fd_shred_t) : nat := Z.to_nat (merkle_leaf_idx s).
Definition shred_proof (s : fd_shred_t) : list (list Z) := chunks 20 (fd_shred_merkle_nodes s) 0 6.

(** Shreds of which the tree has seven layers, at a position in the tree. *)
Definition tree_shred (s : fd_shred_t) : Prop := fd_shred_merkle_cnt (sh_variant s) = 6 /\ merkle_leaf_idx s < 64.
#[export] Instance tree_shred_dec s : Decision (tree_shred s) := _.

Lemma sizes_20 : sizes_ok 20 26.
Proof. unfold sizes_ok. lia. Qed.

Lemma leaf_idx_nonneg s : Forall is_byte s -> 0 <= merkle_leaf_idx s < 9223372036854775808.
Proof.
  intros Hb. unfold merkle_leaf_idx. case_match.
  - pose proof (Z.mod_pos_bound (sh_idx s - sh_fec_set_idx s) 4294967296 ltac:(lia)). lia.
  - pose proof (field_bound 87 2 s Hb) as H1. pose proof (field_bound 83 2 s Hb) as H2. unfold sh_code_idx, sh_code_data_cnt. change (256 ^ Z.of_nat 2) with 65536 in *. rewrite u64_add_small by small. lia.
Qed.

Lemma leaf_hash_ok data : Forall is_byte data -> (length data <= 2000)%nat -> fd_bmtree_hash_leaf data FD_BMTREE_LONG_PREFIX_SZ = Ok (Fips.SHA256 (take 26 fd_bmtree_leaf_prefix ++ data)).
Proof. intros Hb Hl. unfold FD_BMTREE_LONG_PREFIX_SZ. rewrite hash_leaf_ok by (done || lia || (unfold ULONG_MAX; lia)). done. Qed.

Lemma leaf_node_ok data : node_ok (Fips.SHA256 data).
Proof. split; [apply SHA256_length|apply SHA256_bytes]. Qed.

Section Root.
Context (mem : fd_bmtree_commit_t) (Hmem : proof_mem 7 mem).
Notation merkle_root := (fd_shred_merkle_root shred_hash_leaf (shred_insert mem)).

(** Where the proof of a shred lies. *)
Lemma shred_sections s : merkle_shred s -> fd_shred_merkle_cnt (sh_variant s) = 6 ->
  64 + merkle_protected_sz (sh_variant s) = fd_shred_merkle_off s /\ fd_shred_merkle_off s + 120 <= fd_shred_sz s /\ 1000 <= fd_shred_merkle_off s /\ fd_shred_sz s <= 1228 /\ fd_shred_merkle_sz (sh_variant s) = 120.
Proof using Hmem.
  intros Hs E6. pose proof (leaf_covers s Hs E6). destruct (merkle_off_eq s Hs) as (Eo & _ & Hr). pose proof (merkle_sz_bounds s Hs). assert (fd_shred_merkle_sz (sh_variant s) = 120) as E120 by (unfold fd_shred_merkle_sz; by rewrite E6). lia.
Qed.

Lemma proof_taken s : chunks 20 (take 120 (fd_shred_merkle_nodes s)) 0 6 = shred_proof s.
Proof using Hmem.
  unfold shred_proof, chunks. apply list_fmap_ext. intros l x [-> Hl]%lookup_seq. cbn [Nat.add]. unfold chunk_at. change (hsn 20) with 20%nat. rewrite skipn_firstn_comm, take_take. f_equal. lia.
Qed.

Lemma insert_of s proof : merkle_shred s -> fd_shred_merkle_cnt (sh_variant s) = 6 -> Forall is_byte proof -> (120 <= length proof)%nat -> 
  exists st, fd_bmtree_commitp_insert_with_proof (shred_tree mem) (merkle_leaf_idx s) (shred_leaf s) proof 6 = Ok (st, if decide (tree_shred s) then Some (climb 20 26 (leaf_pos s) (shred_leaf s) (chunks 20 proof 0 6)) else None).
Proof using Hmem.
  intros Hs E6 Hb Hl. pose proof (leaf_idx_nonneg s (ms_bytes s Hs)) as Hi. case_decide as Ht.
  - destruct Ht as [_ Hlt]. destruct (fresh_insert 20 26 7 mem (leaf_pos s) (shred_leaf s) proof 6 sizes_20 ltac:(lia) Hmem (leaf_node_ok _) Hb) as (st & E); [change (6 * hsn 20)%nat with 120%nat; lia|lia|rewrite idx_0; unfold leaf_pos; change (zpow 7) with 128; lia|].
    unfold leaf_pos in E at 1. rewrite Z2Nat.id in E by lia. exists st. exact E.
  - exists (shred_tree mem). assert (64 <= merkle_leaf_idx s) as Hge by (destruct (decide (merkle_leaf_idx s < 64)); [exfalso; by apply Ht|lia]). unfold fd_bmtree_commitp_insert_with_proof. cbv zeta.
    change (bm_inclusion_proof_sz (shred_tree mem)) with 127. unfold u64_mul. rewrite u64_small by (unfold is_u64, ULONG_MAX; lia). by replace (127 <=? 2 * merkle_leaf_idx s) with true by lia.
Qed.

Lemma root_ok s : merkle_shred s -> shred_merkle_root_calls mem s = Ok (merkle_root s) /\
  merkle_root s = if decide (tree_shred s) then Some (climb 20 26 (leaf_pos s) (shred_leaf s) (shred_proof s)) else None.
Proof using Hmem.
  intros Hs. unfold shred_merkle_root_calls, fd_shred_merkle_root. change (FD_SHRED_MERKLE_LAYER_CNT -w 1) with 6. destruct (Z.eqb_spec (fd_shred_merkle_cnt (sh_variant s)) 6) as [E6|Hne]; cbn [negb].
  2: { split; [done|]. by rewrite decide_False by (intros [? _]; done). }
  destruct (shred_sections s Hs E6) as (Hcov & Hend & Hoff & Hsz & E120). pose proof (ms_length s Hs) as Hlen. pose proof (ms_bytes s Hs) as Hb.
  assert (take (Z.to_nat (merkle_protected_sz (sh_variant s))) (drop 64 s) = covered s) as Ecov by (unfold covered; f_equal; lia).
  assert (fd_bmtree_hash_leaf (covered s) FD_BMTREE_LONG_PREFIX_SZ = Ok (shred_leaf s)) as Eleaf. { apply leaf_hash_ok; [by apply Forall_take, Forall_drop|]. unfold covered. rewrite length_take, length_drop. lia. }
  assert (length (fd_shred_merkle_nodes s) >= 120)%nat as Hn by (unfold fd_shred_merkle_nodes; rewrite length_drop; lia). assert (Forall is_byte (fd_shred_merkle_nodes s)) as Hbn by (by apply Forall_drop).
  rewrite (mem_read_ok s 64) by lia. change (Z.to_nat 64) with 64%nat. cbn [mbind outcome_bind]. rewrite Ecov, E6, E120. unfold shred_hash_leaf. rewrite Eleaf. cbn [mbind outcome_bind].
  destruct (insert_of s (fd_shred_merkle_nodes s) Hs E6 Hbn ltac:(lia)) as (st1 & ->). cbn [mbind outcome_bind snd]. unfold shred_insert. destruct (insert_of s (take (Z.to_nat 120) (fd_shred_merkle_nodes s)) Hs E6) as (st2 & ->); [by apply Forall_take|rewrite length_take; lia|].
  change (Z.to_nat 120) with 120%nat. rewrite proof_taken. done.
Qed.
End Root.

(** the Merkle root of a Merkle shred.  [fd_shred_merkle_root] returns, within the
    shred and the tree's memory; without a proof of six nodes or with a position past 64
    it fails, otherwise the root is the end of the walk from the hash of the bytes between
    the signature and the proof along the nodes of the proof.  When the proof is that of a
    set of 64 leaves with this one at its position, that is the root of the set. *)
Theorem shred_merkle_root_spec mem s :
  proof_mem 7 mem -> merkle_shred s ->
  shred_merkle_root_calls mem s = Ok (fd_shred_merkle_root shred_hash_leaf (shred_insert mem) s) /\
  fd_shred_merkle_root shred_hash_leaf (shred_insert mem) s = (if decide (tree_shred s) then Some (climb 20 26 (leaf_pos s) (shred_leaf s) (shred_proof s)) else None) /\
  (forall L, length L = 64%nat -> Forall node_ok L -> tree_shred s -> nth (leaf_pos s) L [] = shred_leaf s -> take 120 (fd_shred_merkle_nodes s) = proof_bytes 20 26 L (leaf_pos s) 6 ->
    fd_shred_merkle_root shred_hash_leaf (shred_insert mem) s = Some (merkle_root 20 26 L)).
Proof.
  intros Hmem Hs. destruct (root_ok mem Hmem s Hs) as [-> E]. split; [done|]. split; [done|]. intros L El HL Ht Eleaf Ep. rewrite E, decide_True by done. f_equal. pose proof (leaf_idx_nonneg s (ms_bytes s Hs)) as Hi. destruct Ht as [_ Hlt].
  assert (leaf_pos s < length L)%nat as Hpos by (rewrite El; unfold leaf_pos; lia). pose proof (climb_proof 20 26 7 sizes_20 ltac:(lia) L (leaf_pos s) [] HL Hpos) as Ec. rewrite El in Ec. change (height 64) with 6%nat in Ec. rewrite app_nil_r, <- Ep, Eleaf, (proof_taken mem Hmem) in Ec. exact Ec.
Qed.

(** C28: shreds at the same position with the same Merkle root cover the same bytes, or
    their hashes collide: two different leaves with the same (truncated) hash, or two
    different pairs of nodes at a layer of the two walks. *)
Theorem shred_root_binding mem s1 s2 root :
  proof_mem 7 mem -> merkle_shred s1 -> merkle_shred s2 -> merkle_leaf_idx s1 = merkle_leaf_idx s2 ->
  fd_shred_merkle_root shred_hash_leaf (shred_insert mem) s1 = Some root -> fd_shred_merkle_root shred_hash_leaf (shred_insert mem) s2 = Some root ->
  covered s1 = covered s2 \/ (covered s1 <> covered s2 /\ shred_leaf s1 ≃ shred_leaf s2) \/
  exists l, (l < 6)%nat /\ collides 20 26 (leaf_pos s1) (shred_leaf s1) (shred_proof s1) (shred_leaf s2) (shred_proof s2) l.
Proof.
  intros Hmem H1 H2 Epos E1 E2. destruct (root_ok mem Hmem s1 H1) as [_ R1]. destruct (root_ok mem Hmem s2 H2) as [_ R2]. rewrite R1 in E1. rewrite R2 in E2. case_decide as T1; [|done]. case_decide as T2; [|done].
  destruct (decide (covered s1 = covered s2)) as [|Hne]; [by left|]. right. assert (leaf_pos s2 = leaf_pos s1) as Ep by (unfold leaf_pos; by rewrite Epos). rewrite Ep in E2. apply (inj Some) in E1, E2.
  assert (forall s, merkle_shred s -> tree_shred s -> Forall (fun c => length c = hsn 20) (shred_proof s)) as Hc.
  { intros s Hs [E6 _]. destruct (shred_sections mem Hmem s Hs E6) as (_ & Hend & Hoff & _ & _). pose proof (ms_length s Hs). apply (chunks_length 20 26 sizes_20). unfold fd_shred_merkle_nodes. rewrite length_drop. change ((0 + 6) * hsn 20)%nat with 120%nat. lia. }
  assert (forall s, length (shred_proof s) = 6%nat) as Hl by (intros s; unfold shred_proof, chunks; by rewrite length_fmap, length_seq).
  destruct (climb_binding 20 26 sizes_20 (leaf_pos s1) (shred_leaf s1) (shred_leaf s2) (shred_proof s1) (shred_proof s2) (leaf_node_ok _) (leaf_node_ok _)) as [|(l & Hlt & Hcol)]; [by rewrite !Hl|by apply Hc|by apply Hc|rewrite E1, E2; reflexivity|by left|].
  right. exists l. rewrite Hl in Hlt. done.
Qed.

(** ** Examples *)

Definition ex_tree_mem : fd_bmtree_commit_t := mk_bmtree 9 9 9 9 (repeat (ex_node 0) 63) [77; 78] (repeat (ex_node 0) 128).

Lemma ex_tree_mem_ok : proof_mem 7 ex_tree_mem.
Proof. split; [|done]. split_and!; [done|apply ex_nodes_ok; unfold is_byte; lia|done|apply ex_nodes_ok; unfold is_byte; lia]. Qed.

(** A shred and the same one with another signature. *)
Definition ex_shred : fd_shred_t := data_shred 3 0 0 9.
Definition ex_shred_resigned : fd_shred_t := repeat 8 64 ++ drop 64 ex_shred.

Lemma ex_shred_ok : merkle_shred ex_shred.
Proof. split; [apply shred_bytes_check; vm_compute; reflexivity|vm_compute; reflexivity..|vm_compute; discriminate]. Qed.

Lemma ex_shred_resigned_ok : merkle_shred ex_shred_resigned.
Proof. split; [apply shred_bytes_check; vm_compute; reflexivity|vm_compute; reflexivity..|vm_compute; discriminate]. Qed.

Lemma shred_merkle_root_spec_witness : shred_merkle_root_calls ex_tree_mem ex_shred = Ok (Some (climb 20 26 3 (shred_leaf ex_shred) (shred_proof ex_shred))).
Proof.
  destruct (shred_merkle_root_spec ex_tree_mem ex_shred ex_tree_mem_ok ex_shred_ok) as (E1 & E2 & _). rewrite E1, E2. rewrite decide_True by (split; vm_compute; reflexivity). reflexivity.
Defined.

Lemma ex_same : leaf_pos ex_shred_resigned = leaf_pos ex_shred /\ covered ex_shred_resigned = covered ex_shred /\ shred_proof ex_shred_resigned = shred_proof ex_shred.
Proof. split_and!; vm_compute; reflexivity. Qed.

Lemma shred_root_binding_witness : exists root, fd_shred_merkle_root shred_hash_leaf (shred_insert ex_tree_mem) ex_shred = Some root /\ fd_shred_merkle_root shred_hash_leaf (shred_insert ex_tree_mem) ex_shred_resigned = Some root /\
  (covered ex_shred = covered ex_shred_resigned \/ (covered ex_shred <> covered ex_shred_resigned /\ shred_leaf ex_shred ≃ shred_leaf ex_shred_resigned) \/
   exists l, (l < 6)%nat /\ collides 20 26 (leaf_pos ex_shred) (shred_leaf ex_shred) (shred_proof ex_shred) (shred_leaf ex_shred_resigned) (shred_proof ex_shred_resigned) l).
Proof.
  destruct (root_ok ex_tree_mem ex_tree_mem_ok ex_shred ex_shred_ok) as [_ E1]. destruct (root_ok ex_tree_mem ex_tree_mem_ok ex_shred_resigned ex_shred_resigned_ok) as [_ E2].
  rewrite decide_True in E1 by (split; vm_compute; reflexivity). rewrite decide_True in E2 by (split; vm_compute; reflexivity). destruct ex_same as (Ep & Ec & Epr). unfold shred_leaf in E2. rewrite Ep, Ec, Epr in E2. fold (shred_leaf ex_shred) in E2.
  eexists. split; [exact E1|]. split; [exact E2|]. apply (shred_root_binding ex_tree_mem ex_shred ex_shred_resigned (climb 20 26 (leaf_pos ex_shred) (shred_leaf ex_shred) (shred_proof ex_shred)) ex_tree_mem_ok ex_shred_ok ex_shred_resigned_ok); [vm_compute; reflexivity|exact E1|exact E2].
Defined.
