(* ===== verification/Txn.v ===== *)
(** * Transactions: the parser and the parsed form

    src/src/ballet/txn: compact-u16 ([fd_compact_u16.h]), the parser of transactions from
    the network ([fd_txn_parse.c]) with the configuration of version 1 ([fd_txn_v1.h]),
    and the functions on a parsed transaction ([fd_txn.h]).

    A parsing step is a function of the position [i] in the payload ([parser]): it gives a
    value and the next position, or the line of the [CHECK] that failed, or ends the
    process.  Every access to the payload tests the length of the payload and every write
    to the output tests [FD_TXN_MAX_SZ], which is the room the caller gives.  The
    instruction array and the address tables behind it are lists; what the output holds
    after a failed parse is undefined, and the model gives no transaction there. *)
From S2P Require Import Prelude.

(** ** Constants *)

Definition FD_TXN_VLEGACY : Z := 0xFF.
Definition FD_TXN_V0 : Z := 0.
Definition FD_TXN_V1 : Z := 1.
Definition FD_TXN_SIGNATURE_SZ : Z := 64.
Definition FD_TXN_ACCT_ADDR_SZ : Z := 32.
Definition FD_TXN_BLOCKHASH_SZ : Z := 32.
Definition FD_TXN_SIG_MAX : Z := 12.
Definition FD_TXN_ACCT_ADDR_MAX : Z := 64.
Definition FD_TXN_ADDR_TABLE_LOOKUP_MAX : Z := 127.
Definition FD_TXN_INSTR_MAX : Z := 64.
Definition FD_TXN_INSTR_ACCT_MAX : Z := 255.
Definition FD_TXN_MAX_SZ : Z := 854.
Definition FD_TXN_MTU : Z := 4096.
Definition FD_TXN_MTU_V0 : Z := 1232.
Definition FD_TXN_PARSE_COUNTERS_RING_SZ : Z := 32.
Definition FD_TXN_V1_DEFAULT_HEAP_SZ : Z := 32 * 1024.
Definition FD_TXN_V1_MIN_HEAP_SZ : Z := 32 * 1024.
Definition FD_TXN_V1_MAX_HEAP_SZ : Z := 256 * 1024.
Definition FD_TXN_V1_HEAP_GRANULARITY : Z := 1024.
Definition MIN_INSTR_SZ : Z := 3.
Definition MIN_ADDR_LUT_SIZE : Z := 34.

Definition uchar (x : Z) : Z := x mod 256.
Definition ushort (x : Z) : Z := x mod 65536.

(** ** Data *)

Record fd_txn_instr_t := mk_instr {
  in_program_id : Z;
  in_padding_reserved_1 : Z;
  in_acct_cnt : Z;
  in_data_sz : Z;
  in_acct_off : Z;
  in_data_off : Z;
}.

Record fd_txn_acct_addr_lut_t := mk_lut {
  lu_addr_off : Z;
  lu_writable_cnt : Z;
  lu_readonly_cnt : Z;
  lu_writable_off : Z;
  lu_readonly_off : Z;
}.

Record fd_txn_t := mk_txn {
  tx_transaction_version : Z;
  tx_signature_cnt : Z;
  tx_signature_off : Z;
  tx_message_off : Z;
  tx_readonly_signed_cnt : Z;
  tx_readonly_unsigned_cnt : Z;
  tx_acct_addr_cnt : Z;
  tx_acct_addr_off : Z;
  tx_recent_blockhash_off : Z;
  tx_addr_table_lookup_cnt : Z;
  tx_addr_table_adtl_writable_cnt : Z;
  tx_addr_table_adtl_cnt : Z;
  tx_padding_reserved_1 : Z;
  tx_v1_txn_config_values_off : Z;
  tx_instr_cnt : Z;
  tx_instr : list fd_txn_instr_t;
  tx_address_tables : list fd_txn_acct_addr_lut_t;
}.

Record fd_txn_parse_counters_t := mk_counters {
  pc_success_cnt : Z;
  pc_failure_cnt : Z;
  pc_failure_ring : list Z;
}.

(** [sizeof( fd_txn_t )], [sizeof( fd_txn_instr_t )], [sizeof( fd_txn_acct_addr_lut_t )]. *)
Definition fd_txn_footprint (instr_cnt addr_table_lookup_cnt : Z) : Z :=
  22 +w instr_cnt *w 10 +w addr_table_lookup_cnt *w 8.

(** [FD_LOAD] of [n] bytes at an offset. *)
Definition ld (n : nat) (buf : list Z) (off : Z) : outcome Z :=
  bytes ← mem_read buf off (Z.of_nat n); Ok (le_load bytes).

(** ** compact-u16 *)

(** [a && b], where [b] reads memory. *)
Definition and_then (a : bool) (b : outcome bool) : outcome bool := if a then b else Ok false.

Definition fd_cu16_dec_fixed (buf : list Z) (sz : Z) : outcome Z :=
  check LogCrit ((1 <=? sz) && (sz <=? 3));;
  b0 ← ld 1 buf 0;
  if sz =? 1 then Ok (ushort b0) else
  b1 ← ld 1 buf 1;
  if sz =? 2 then Ok (ushort (Z.land b0 0x7F +w Z.shiftl b1 7)) else
  b2 ← ld 1 buf 2;
  Ok (ushort (Z.land b0 0x7F +w Z.shiftl (Z.land b1 0x7F) 7 +w Z.shiftl b2 14)).

Definition fd_cu16_dec_sz (buf : list Z) (bytes_avail : Z) : outcome Z :=
  c1 ← and_then (1 <=? bytes_avail) (b ← ld 1 buf 0; Ok (Z.land 0x80 b =? 0));
  if (c1 : bool) then Ok 1 else
  c2 ← and_then (2 <=? bytes_avail) (b ← ld 1 buf 1; Ok (Z.land 0x80 b =? 0));
  if (c2 : bool) then b ← ld 1 buf 1; Ok (if b =? 0 then 0 else 2) else
  c3 ← and_then (3 <=? bytes_avail) (b ← ld 1 buf 2; Ok (Z.land 0xFC b =? 0));
  if (c3 : bool) then b ← ld 1 buf 2; Ok (if b =? 0 then 0 else 3) else
  Ok 0.

(** The value at [result_out] is written only on success. *)
Definition fd_cu16_dec (buf : list Z) (bytes_avail result_out : Z) : outcome (Z * Z) :=
  sz ← fd_cu16_dec_sz buf bytes_avail;
  if negb (sz =? 0) then v ← fd_cu16_dec_fixed buf sz; Ok (sz, v) else Ok (sz, result_out).

(** The bytes stored at [out]; their number is what the function returns. *)
Definition fd_cu16_enc (val : Z) : list Z :=
  let byte0 := Z.land val 0x7F in
  let byte1 := Z.land (Z.shiftr val 7) 0x7F in
  let byte2 := Z.shiftr val 14 in
  let needs_byte1 := 0x7F <? val in
  let needs_byte2 := 0x3FFF <? val in
  [uchar (Z.lor byte0 (Z.shiftl (Z.b2z needs_byte1) 7))]
  ++ (if needs_byte1 then [uchar (Z.lor byte1 (Z.shiftl (Z.b2z needs_byte2) 7))] else [])
  ++ (if needs_byte2 then [uchar byte2] else []).

(** ** Parsing steps *)

Definition parser (A : Type) : Type := Z -> outcome (Z + A * Z).

#[export] Instance parser_ret : MRet parser := fun A a i => Ok (inr (a, i)).
#[export] Instance parser_bind : MBind parser :=
  fun A B f m i =>
    match m i with
    | Ok (inr (a, i')) => f a i'
    | Ok (inl line) => Ok (inl line)
    | Fail e => Fail e
    end.

(** [CHECK( cond )] on line [line]. *)
Definition CHECK (line : Z) (cond : bool) : parser unit :=
  fun i => Ok (if cond then inr (tt, i) else inl line).

(** The current value of [i]. *)
Definition here : parser Z := fun i => Ok (inr (i, i)).

(** [i+=n]. *)
Definition advance (n : Z) : parser unit := fun i => Ok (inr (tt, i +w n)).

(** A computation that does not move [i]. *)
Definition lift {A} (m : outcome A) : parser A := fun i => a ← m; Ok (inr (a, i)).

Definition fd_uchar_max (a b : Z) : Z := Z.max a b.

Section Parse.
  Context (payload : list Z) (payload_sz original_payload_sz : Z).
  (** [payload_sz_opt!=NULL] *)
  Context (payload_sz_opt : bool).

Definition CHECK_LEFT (line n : Z) : parser unit :=
  i ← here; CHECK line (n <=? payload_sz -w i).

(** [payload[ off+i ]], [fd_ushort_load_2( payload+off+i )], [fd_uint_load_4( payload+off+i )]. *)
Definition peek (n : nat) (off : Z) : parser Z := i ← here; lift (ld n payload (off +w i)).

(** [CHECK_LEFT( n ); x = load( payload+i ); i+=n]. *)
Definition READ (line : Z) (n : nat) : parser Z :=
  CHECK_LEFT line (Z.of_nat n);;
  x ← peek n 0;
  advance (Z.of_nat n);;
  mret x.

(** [CHECK_LEFT( n ); off = i; i+=n]. *)
Definition FIELD (line n : Z) : parser Z :=
  CHECK_LEFT line n;;
  off ← here;
  advance n;;
  mret off.

(** [READ_CHECKED_COMPACT_U16( bytes_consumed, x, i ); i+=bytes_consumed]. *)
Definition READ_CHECKED_COMPACT_U16 (line : Z) : parser Z :=
  where_ ← here;
  let buf := drop (Z.to_nat where_) payload in
  out_sz ← lift (fd_cu16_dec_sz buf (payload_sz -w where_));
  CHECK line (negb (out_sz =? 0));;
  x ← lift (fd_cu16_dec_fixed buf out_sz);
  advance out_sz;;
  mret x.

(** A write behind the structure of [instr_cnt] instructions and [lut_cnt] tables. *)
Definition room (instr_cnt lut_cnt : Z) : parser unit :=
  lift (check OutOfBounds (fd_txn_footprint instr_cnt lut_cnt <=? FD_TXN_MAX_SZ)).

(** ** Version 1 *)

Definition fd_uint_popcnt (x : Z) : Z := lsum (fun k => Z.b2z (Z.testbit x k)) (seqZ 0 32).

(** The fields of [instr[ j ]] that the first pass writes: [program_id], [acct_cnt] and
    [data_sz]. *)
Fixpoint v1_headers (acct_addr_cnt j : Z) (n : nat) : parser (list (Z * Z * Z)) :=
  match n with
  | O => mret []
  | S n' =>
      program_id ← READ 164 1;
      CHECK 167 ((0 <? program_id) && (program_id <? acct_addr_cnt));;
      acct_cnt ← READ 168 1;
      data_sz ← READ 169 2;
      room (j + 1) 0;;
      rest ← v1_headers acct_addr_cnt (j + 1) n';
      mret ((program_id, acct_cnt, data_sz) :: rest)
  end.

Fixpoint v1_check_accts (acct_addr_cnt : Z) (n : nat) : parser unit :=
  match n with
  | O => mret tt
  | S n' =>
      b ← peek 1 0;
      CHECK 184 (b <? acct_addr_cnt);;
      advance 1;;
      v1_check_accts acct_addr_cnt n'
  end.

Fixpoint v1_payloads (acct_addr_cnt : Z) (headers : list (Z * Z * Z)) : parser (list fd_txn_instr_t) :=
  match headers with
  | [] => mret []
  | (program_id, acct_cnt, data_sz) :: headers' =>
      CHECK_LEFT 182 acct_cnt;;
      acct_off ← here;
      v1_check_accts acct_addr_cnt (Z.to_nat acct_cnt);;
      data_off ← FIELD 185 data_sz;
      rest ← v1_payloads acct_addr_cnt headers';
      mret (mk_instr program_id 0 acct_cnt data_sz (ushort acct_off) (ushort data_off) :: rest)
  end.

(** [requested_heap] is read back from the last of the configuration values.  The [CHECK]
    spans three lines; the model records the first of them. *)
Definition v1_check_heap (config_mask config_values_off num_config_values : Z) : parser unit :=
  if Z.testbit config_mask 4 then
    requested_heap ← lift (ld 4 payload (config_values_off +w 4 *w (num_config_values -w 1)));
    CHECK 150 ((FD_TXN_V1_MIN_HEAP_SZ <=? requested_heap) && (requested_heap <=? FD_TXN_V1_MAX_HEAP_SZ)
               && (requested_heap mod FD_TXN_V1_HEAP_GRANULARITY =? 0))
  else mret tt.

(** The header of version 1 up to the configuration values, as the C code reads it. *)
Definition v1_header : parser (Z * Z * Z * Z * Z * Z * Z * Z * Z) :=
  version_byte ← READ 108 1;
  CHECK 109 (Z.land version_byte 0x7F =? FD_TXN_V1);;
  signature_cnt ← READ 112 1;
  CHECK 113 ((1 <=? signature_cnt) && (signature_cnt <=? FD_TXN_SIG_MAX));;
  ro_signed_cnt ← READ 114 1;
  CHECK 117 (ro_signed_cnt <? signature_cnt);;
  ro_unsigned_cnt ← READ 118 1;
  config_mask ← READ 124 4;
  CHECK 125 (Z.ldiff config_mask 0x1F =? 0);;
  CHECK 126 (Bool.eqb (Z.testbit config_mask 0) (Z.testbit config_mask 1));;
  recent_blockhash_off ← FIELD 128 FD_TXN_BLOCKHASH_SZ;
  instr_cnt ← READ 130 1;
  CHECK 131 (instr_cnt <=? FD_TXN_INSTR_MAX);;
  acct_addr_cnt ← READ 134 1;
  CHECK 135 ((signature_cnt <=? acct_addr_cnt) && (acct_addr_cnt <=? FD_TXN_ACCT_ADDR_MAX));;
  CHECK 136 (signature_cnt + ro_unsigned_cnt <=? acct_addr_cnt);;
  acct_addr_off ← FIELD 138 (FD_TXN_ACCT_ADDR_SZ *w acct_addr_cnt);
  let num_config_values := fd_uint_popcnt config_mask in
  config_values_off ← FIELD 143 (4 *w num_config_values);
  v1_check_heap config_mask config_values_off num_config_values;;
  mret (signature_cnt, ro_signed_cnt, ro_unsigned_cnt, config_mask, recent_blockhash_off, instr_cnt,
        acct_addr_cnt, acct_addr_off, config_values_off).

Definition parse_v1 : parser fd_txn_t :=
  '(signature_cnt, ro_signed_cnt, ro_unsigned_cnt, _, recent_blockhash_off, instr_cnt,
    acct_addr_cnt, acct_addr_off, config_values_off) ← v1_header;
  headers ← v1_headers acct_addr_cnt 0 (Z.to_nat instr_cnt);
  instr ← v1_payloads acct_addr_cnt headers;
  signature_off ← FIELD 191 (FD_TXN_SIGNATURE_SZ *w signature_cnt);
  i ← here;
  CHECK 213 (payload_sz_opt || (i =? original_payload_sz));;
  mret (mk_txn FD_TXN_V1 signature_cnt (ushort signature_off) 0 ro_signed_cnt ro_unsigned_cnt
          acct_addr_cnt (ushort acct_addr_off) (ushort recent_blockhash_off) 0 0 0 0
          (ushort config_values_off) instr_cnt instr []).

(** ** Legacy and version 0 *)

(** [for( k=0; k<acct_cnt; k++ ) max_acct = fd_uchar_max( max_acct, payload[ k+i ] )]. *)
Fixpoint max_accts (max_acct k : Z) (n : nat) : parser Z :=
  match n with
  | O => mret max_acct
  | S n' => b ← peek 1 k; max_accts (fd_uchar_max max_acct b) (k + 1) n'
  end.

Definition parse_instr (acct_addr_cnt max_acct : Z) : parser (fd_txn_instr_t * Z) :=
  CHECK_LEFT 294 MIN_INSTR_SZ;;
  program_id ← peek 1 0;
  advance 1;;
  acct_cnt ← READ_CHECKED_COMPACT_U16 295;
  CHECK 296 (acct_cnt <=? FD_TXN_INSTR_ACCT_MAX);;
  CHECK_LEFT 297 acct_cnt;;
  acct_off ← here;
  max_acct ← max_accts max_acct 0 (Z.to_nat acct_cnt);
  advance acct_cnt;;
  data_sz ← READ_CHECKED_COMPACT_U16 299;
  data_off ← FIELD 300 data_sz;
  CHECK 308 ((0 <? program_id) && (program_id <? acct_addr_cnt));;
  mret (mk_instr program_id 0 acct_cnt data_sz (ushort acct_off) (ushort data_off), max_acct).

Fixpoint parse_instrs (acct_addr_cnt max_acct j : Z) (n : nat) : parser (list fd_txn_instr_t * Z) :=
  match n with
  | O => mret ([], max_acct)
  | S n' =>
      '(instr, max_acct) ← parse_instr acct_addr_cnt max_acct;
      room (j + 1) 0;;
      '(rest, max_acct) ← parse_instrs acct_addr_cnt max_acct (j + 1) n';
      mret (instr :: rest, max_acct)
  end.

(** One table with its two counts. *)
Definition parse_lut (acct_addr_cnt : Z) : parser (fd_txn_acct_addr_lut_t * Z * Z) :=
  addr_off ← FIELD 334 FD_TXN_ACCT_ADDR_SZ;
  writable_cnt ← READ_CHECKED_COMPACT_U16 338;
  writable_off ← FIELD 339 writable_cnt;
  readonly_cnt ← READ_CHECKED_COMPACT_U16 340;
  readonly_off ← FIELD 341 readonly_cnt;
  CHECK 343 (writable_cnt <=? FD_TXN_ACCT_ADDR_MAX -w acct_addr_cnt);;
  CHECK 344 (readonly_cnt <=? FD_TXN_ACCT_ADDR_MAX -w acct_addr_cnt);;
  CHECK 345 (1 <=? writable_cnt + readonly_cnt);;
  mret (mk_lut (ushort addr_off) (uchar writable_cnt) (uchar readonly_cnt) (ushort writable_off) (ushort readonly_off),
        writable_cnt, readonly_cnt).

(** The tables with the sums [addr_table_adtl_writable_cnt] and [addr_table_adtl_cnt]. *)
Fixpoint parse_luts (acct_addr_cnt instr_cnt j adtl_writable_cnt adtl_cnt : Z) (n : nat) : parser (list fd_txn_acct_addr_lut_t * Z * Z) :=
  match n with
  | O => mret ([], adtl_writable_cnt, adtl_cnt)
  | S n' =>
      '(lut, writable_cnt, readonly_cnt) ← parse_lut acct_addr_cnt;
      room instr_cnt (j + 1);;
      '(rest, adtl_writable_cnt, adtl_cnt) ←
        parse_luts acct_addr_cnt instr_cnt (j + 1) (adtl_writable_cnt +w writable_cnt)
          (adtl_cnt +w (writable_cnt +w readonly_cnt)) n';
      mret (lut :: rest, adtl_writable_cnt, adtl_cnt)
  end.

(** [addr_table_cnt], the tables and the two sums. *)
Definition parse_tables (transaction_version acct_addr_cnt instr_cnt : Z) : parser (Z * list fd_txn_acct_addr_lut_t * Z * Z) :=
  if transaction_version =? FD_TXN_V0 then
    addr_table_cnt ← READ_CHECKED_COMPACT_U16 329;
    CHECK 330 (addr_table_cnt <=? FD_TXN_ADDR_TABLE_LOOKUP_MAX);;
    CHECK_LEFT 331 (MIN_ADDR_LUT_SIZE *w addr_table_cnt);;
    '(address_tables, adtl_writable_cnt, adtl_cnt) ← parse_luts acct_addr_cnt instr_cnt 0 0 0 (Z.to_nat addr_table_cnt);
    mret (addr_table_cnt, address_tables, adtl_writable_cnt, adtl_cnt)
  else mret (0, [], 0, 0).

(** Lines 233 to 245: the version, from the first byte of the message. *)
Definition parse_version (signature_cnt : Z) : parser Z :=
  header_b0 ← READ 233 1;
  if negb (Z.land header_b0 0x80 =? 0) then
    let transaction_version := Z.land header_b0 0x7F in
    CHECK 239 (transaction_version =? FD_TXN_V0);;
    CHECK_LEFT 241 1;;
    b ← peek 1 0;
    CHECK 241 (signature_cnt =? b);;
    advance 1;;
    mret transaction_version
  else
    CHECK 244 (signature_cnt =? header_b0);;
    mret FD_TXN_VLEGACY.

Definition parse_header : parser (Z * Z * Z * Z * Z * Z * Z * Z * Z * Z) :=
  signature_cnt ← READ 227 1;
  CHECK 229 ((1 <=? signature_cnt) && (signature_cnt <=? FD_TXN_SIG_MAX));;
  signature_off ← FIELD 230 (FD_TXN_SIGNATURE_SZ *w signature_cnt);
  message_off ← here;
  transaction_version ← parse_version signature_cnt;
  ro_signed_cnt ← READ 246 1;
  CHECK 248 (ro_signed_cnt <? signature_cnt);;
  ro_unsigned_cnt ← READ 250 1;
  acct_addr_cnt ← READ_CHECKED_COMPACT_U16 253;
  CHECK 254 ((signature_cnt <=? acct_addr_cnt) && (acct_addr_cnt <=? FD_TXN_ACCT_ADDR_MAX));;
  CHECK 255 (signature_cnt + ro_unsigned_cnt <=? acct_addr_cnt);;
  acct_addr_off ← FIELD 257 (FD_TXN_ACCT_ADDR_SZ *w acct_addr_cnt);
  recent_blockhash_off ← FIELD 258 FD_TXN_BLOCKHASH_SZ;
  instr_cnt ← READ_CHECKED_COMPACT_U16 261;
  CHECK 263 (instr_cnt <=? FD_TXN_INSTR_MAX);;
  CHECK_LEFT 265 (MIN_INSTR_SZ *w instr_cnt);;
  CHECK 268 (Z.b2z (negb (instr_cnt =? 0)) <? acct_addr_cnt);;
  mret (transaction_version, signature_cnt, signature_off, message_off, ro_signed_cnt, ro_unsigned_cnt,
        acct_addr_cnt, acct_addr_off, recent_blockhash_off, instr_cnt).

Definition parse_legacy_v0 : parser fd_txn_t :=
  '(transaction_version, signature_cnt, signature_off, message_off, ro_signed_cnt, ro_unsigned_cnt,
    acct_addr_cnt, acct_addr_off, recent_blockhash_off, instr_cnt) ← parse_header;
  '(instr, max_acct) ← parse_instrs acct_addr_cnt 0 0 (Z.to_nat instr_cnt);
  '(addr_table_cnt, address_tables, addr_table_adtl_writable_cnt, addr_table_adtl_cnt) ← parse_tables transaction_version acct_addr_cnt instr_cnt;
  i ← here;
  CHECK 358 (payload_sz_opt || (i =? original_payload_sz));;
  CHECK 360 (acct_addr_cnt +w addr_table_adtl_cnt <=? FD_TXN_ACCT_ADDR_MAX);;
  CHECK 363 (max_acct <? acct_addr_cnt +w addr_table_adtl_cnt);;
  mret (mk_txn transaction_version signature_cnt (ushort signature_off) (ushort message_off) ro_signed_cnt ro_unsigned_cnt
          acct_addr_cnt (ushort acct_addr_off) (ushort recent_blockhash_off)
          (uchar addr_table_cnt) (uchar addr_table_adtl_writable_cnt) (uchar addr_table_adtl_cnt)
          0 0 instr_cnt instr address_tables).
End Parse.

(** ** The parser *)

Record parse_result := mk_result {
  pr_ret : Z;
  pr_out : option fd_txn_t;
  pr_counters : option fd_txn_parse_counters_t;
  pr_payload_sz : option Z;
}.

(** What [CHECK] does to the counters before it returns. *)
Definition count_failure (line : Z) (counters : fd_txn_parse_counters_t) : fd_txn_parse_counters_t :=
  mk_counters (pc_success_cnt counters) (pc_failure_cnt counters +w 1)
    (<[Z.to_nat (pc_failure_cnt counters mod FD_TXN_PARSE_COUNTERS_RING_SZ) := line]> (pc_failure_ring counters)).

Definition count_success (counters : fd_txn_parse_counters_t) : fd_txn_parse_counters_t :=
  mk_counters (pc_success_cnt counters +w 1) (pc_failure_cnt counters) (pc_failure_ring counters).

Definition fd_txn_parse_core (payload : list Z) (original_payload_sz : Z)
    (counters_opt : option fd_txn_parse_counters_t) (payload_sz_opt : bool) : outcome parse_result :=
  let failed line := Ok (mk_result 0 None (count_failure line <$> counters_opt) None) in
  if original_payload_sz =? 0 then failed 94 else
  payload_msb ← ld 1 payload 0;
  let is_v1 := negb (Z.land payload_msb 0x80 =? 0) in
  let maximum_payload_sz := if is_v1 then FD_TXN_MTU else FD_TXN_MTU_V0 in
  let payload_sz := Z.min original_payload_sz maximum_payload_sz in
  let p := if is_v1 then parse_v1 else parse_legacy_v0 in
  r ← p payload payload_sz original_payload_sz payload_sz_opt 0;
  match r with
  | inl line => failed line
  | inr (parsed, i) =>
      Ok (mk_result (fd_txn_footprint (tx_instr_cnt parsed) (tx_addr_table_lookup_cnt parsed)) (Some parsed)
            (count_success <$> counters_opt) (if payload_sz_opt then Some i else None))
  end.

Definition fd_txn_parse (payload : list Z) (payload_sz : Z) (counters_opt : option fd_txn_parse_counters_t) : outcome parse_result :=
  fd_txn_parse_core payload payload_sz counters_opt false.

(** ** The configuration of version 1 *)

(** [out_priority_fee_lamports], [out_compute_unit_limit],
    [out_loaded_accounts_data_sz_limit], [out_heap_size]; [v] is the read pointer. *)
Definition fd_txn_parse_v1_config (config_mask : Z) (config_values : list Z) : outcome (Z * Z * Z * Z) :=
  let v := 0 in
  '(priority_fee, v) ← (if Z.testbit config_mask 0 then x ← ld 8 config_values v; Ok (x, v + 8) else Ok (0, v));
  '(cu_limit, v) ← (if Z.testbit config_mask 2 then x ← ld 4 config_values v; Ok (x, v + 4) else Ok (0, v));
  '(lads_limit, v) ← (if Z.testbit config_mask 3 then x ← ld 4 config_values v; Ok (x, v + 4) else Ok (0, v));
  heap ← (if Z.testbit config_mask 4 then ld 4 config_values v else Ok FD_TXN_V1_DEFAULT_HEAP_SZ);
  Ok (priority_fee, cu_limit, lads_limit, heap).

(** ** Reading a parsed transaction *)

(** [n] objects of [sz] bytes from a pointer into the payload. *)
Definition objects (payload : list Z) (off sz n : Z) : list (list Z) :=
  (fun k => take (Z.to_nat sz) (drop (Z.to_nat (off + sz * k)) payload)) <$> seqZ 0 n.

Definition fd_txn_get_signatures (txn : fd_txn_t) (payload : list Z) : list (list Z) :=
  objects payload (tx_signature_off txn) FD_TXN_SIGNATURE_SZ (tx_signature_cnt txn).
Definition fd_txn_get_acct_addrs (txn : fd_txn_t) (payload : list Z) : list (list Z) :=
  objects payload (tx_acct_addr_off txn) FD_TXN_ACCT_ADDR_SZ (tx_acct_addr_cnt txn).
Definition fd_txn_get_recent_blockhash (txn : fd_txn_t) (payload : list Z) : list Z :=
  take (Z.to_nat FD_TXN_BLOCKHASH_SZ) (drop (Z.to_nat (tx_recent_blockhash_off txn)) payload).
Definition fd_txn_get_instr_accts (instr : fd_txn_instr_t) (payload : list Z) : list Z :=
  take (Z.to_nat (in_acct_cnt instr)) (drop (Z.to_nat (in_acct_off instr)) payload).
Definition fd_txn_get_instr_data (instr : fd_txn_instr_t) (payload : list Z) : list Z :=
  take (Z.to_nat (in_data_sz instr)) (drop (Z.to_nat (in_data_off instr)) payload).

Definition fd_txn_msg_sz (txn : fd_txn_t) (payload_sz : Z) : Z :=
  let msg_end := if tx_transaction_version txn =? FD_TXN_V1 then tx_signature_off txn else payload_sz in
  msg_end -w tx_message_off txn.

Definition vote_program_id : list Z :=
  [0x07; 0x61; 0x48; 0x1d; 0x35; 0x74; 0x74; 0xbb; 0x7c; 0x4d; 0x76; 0x24; 0xeb; 0xd3; 0xbd; 0xb3;
   0xd8; 0x35; 0x5e; 0x73; 0xd1; 0x10; 0x43; 0xfc; 0x0d; 0xa3; 0x53; 0x80; 0x00; 0x00; 0x00; 0x00].

Definition fd_txn_is_simple_vote_transaction (txn : fd_txn_t) (payload : list Z) : outcome bool :=
  if negb (tx_instr_cnt txn =? 1) then Ok false else
  if negb (tx_transaction_version txn =? FD_TXN_VLEGACY) then Ok false else
  if 2 <? tx_signature_cnt txn then Ok false else
  match tx_instr txn with
  | [] => Fail OutOfBounds
  | instr :: _ =>
      prog_id ← mem_read payload (tx_acct_addr_off txn +w FD_TXN_ACCT_ADDR_SZ *w in_program_id instr) FD_TXN_ACCT_ADDR_SZ;
      Ok (bool_decide (prog_id = vote_program_id))
  end.
