(* ===== verification/TxnRuns.v ===== *)
(** * What a parsing step accepts

    [runs_at pre suf p F]: at the position behind [pre] the step [p] ends neither with an
    access out of bounds nor otherwise abnormally, and it gives [x] and consumes [bs]
    exactly when [bs] starts [suf] and [F x bs].  One lemma for each primitive and a rule
    for sequences; the specifications of the parser are put together from them. *)
From S2P Require Import Prelude Txn.

Notation len l := (Z.of_nat (length l)).

Section Runs.
  Context (payload : list Z) (payload_sz : Z).
  Context (Hsz : 0 <= payload_sz <= len payload) (Hmtu : payload_sz <= 4096) (Hbytes : Forall is_byte payload).

(** The bytes the parser may read. *)
Definition pl : list Z := take (Z.to_nat payload_sz) payload.

Definition runs_at {A} (pre suf : list Z) (p : parser A) (F : A -> list Z -> Prop) : Prop :=
  pl = pre ++ suf /\
  exists r, p (len pre) = Ok r /\
    forall x i, r = inr (x, i) <-> exists bs rest, suf = bs ++ rest /\ i = len pre + len bs /\ F x bs.

Lemma pl_length : len pl = payload_sz.
Proof using Hsz. unfold pl. rewrite length_take. lia. Qed.

Lemma pl_bytes : Forall is_byte pl.
Proof using Hbytes. by apply Forall_take. Qed.

Lemma runs_split {A} pre suf (p : parser A) F : runs_at pre suf p F -> pl = pre ++ suf.
Proof. by intros [? _]. Qed.

Lemma split_bounds pre suf : pl = pre ++ suf -> len pre + len suf = payload_sz.
Proof using Hsz. intros E. pose proof pl_length as H. rewrite E, length_app in H. lia. Qed.

Lemma split_bytes pre suf : pl = pre ++ suf -> Forall is_byte suf.
Proof using Hbytes. intros E. pose proof pl_bytes as H. rewrite E in H. by apply Forall_app in H as [_ ?]. Qed.

Lemma payload_drop pre suf : pl = pre ++ suf -> exists tail, drop (length pre) payload = suf ++ tail.
Proof using Hsz.
  intros E. exists (drop (Z.to_nat payload_sz) payload).
  rewrite <- (take_drop (Z.to_nat payload_sz) payload) at 1. fold pl. by rewrite E, <- app_assoc, drop_app_length.
Qed.

(** Rules *)

Lemma runs_iff {A} pre suf (p : parser A) F G :
  runs_at pre suf p F -> (forall x bs rest, suf = bs ++ rest -> F x bs <-> G x bs) -> runs_at pre suf p G.
Proof.
  intros [E (r & Er & Hr)] HFG. split; [done|]. exists r. split; [done|]. intros x i. rewrite Hr.
  split; intros (bs & rest & Es & Ei & HF); exists bs, rest; (split; [done|]; split; [done|]); by apply (HFG x bs rest Es).
Qed.

(** The second step starts behind [b1] and sees [rest]. *)
Lemma runs_bind {A B} pre suf (p : parser A) (f : A -> parser B) F G :
  runs_at pre suf p F ->
  (forall x b1 rest, suf = b1 ++ rest -> F x b1 -> runs_at (pre ++ b1) rest (f x) (G x b1 rest)) ->
  runs_at pre suf (p ≫= f) (fun y bs => exists x b1 b2 rest, bs = b1 ++ b2 /\ suf = b1 ++ rest /\ F x b1 /\ G x b1 rest y b2).
Proof.
  intros [E (r & Er & Hr)] Hf. split; [done|]. unfold mbind, parser_bind. rewrite Er. destruct r as [line|[x i]].
  - exists (inl line). split; [done|]. intros y i. split; [done|]. intros (bs & rest & _ & -> & x & b1 & b2 & rest1 & -> & Es & HF & _).
    assert (inl line = inr (x, len pre + len b1)) as C; [|discriminate C]. apply Hr. by exists b1, rest1.
  - destruct (proj1 (Hr x i) eq_refl) as (b1 & rest1 & Es & Ei & HF). destruct (Hf x b1 rest1 Es HF) as [E' (r2 & Er2 & Hr2)].
    rewrite length_app, Nat2Z.inj_add in Er2, Hr2. rewrite Ei, Er2. exists r2. split; [done|]. intros y k. rewrite Hr2. split.
    + intros (bs & rest & -> & -> & HG). exists (b1 ++ bs), rest. rewrite <- app_assoc, length_app. split; [done|]. split; [lia|]. by exists x, b1, bs, (bs ++ rest).
    + intros (bs & rest & Es' & -> & x' & b1' & b2 & rest1' & -> & Es1 & HF' & HG).
      assert (inr (A := Z) (x, i) = inr (x', len pre + len b1')) as C.
      { apply Hr. by exists b1', rest1'. }
      injection C as <- C. assert (b1' = b1 /\ rest1' = rest1) as [-> ->].
      { rewrite Es in Es1. symmetry in Es1. apply app_inj_1 in Es1; [done|lia]. }
      exists b2, rest. rewrite length_app. split; [|split; [lia|done]]. rewrite Es, <- app_assoc in Es'. by apply app_inv_head in Es'.
Qed.

Lemma runs_ret {A} pre suf (a : A) : pl = pre ++ suf -> runs_at pre suf (mret a) (fun x bs => bs = [] /\ x = a).
Proof.
  intros E. split; [done|]. exists (inr (a, len pre)). split; [done|]. intros x i. split.
  - intros [= <- <-]. exists [], suf. split; [done|]. split; [cbn; lia|done].
  - intros (bs & rest & _ & -> & -> & ->). cbn. by rewrite Z.add_0_r.
Qed.

Lemma runs_check pre suf line cond : pl = pre ++ suf -> runs_at pre suf (CHECK line cond) (fun _ bs => bs = [] /\ cond = true).
Proof.
  intros E. destruct cond.
  - eapply runs_iff; [exact (runs_ret pre suf tt E)|]. intros [] bs rest _. naive_solver.
  - split; [done|]. exists (inl line). split; [done|]. intros x i. split; [done|]. by intros (bs & rest & _ & _ & _ & [=]).
Qed.

Lemma runs_lift {A} pre suf (m : outcome A) a : pl = pre ++ suf -> m = Ok a -> runs_at pre suf (lift m) (fun x bs => bs = [] /\ x = a).
Proof. intros E Em. unfold lift. rewrite Em. exact (runs_ret pre suf a E). Qed.

Lemma runs_here pre suf : pl = pre ++ suf -> runs_at pre suf here (fun x bs => bs = [] /\ x = len pre).
Proof. intros E. exact (runs_ret pre suf (len pre) E). Qed.

Lemma runs_advance pre suf n : pl = pre ++ suf -> 0 <= n <= len suf -> runs_at pre suf (advance n) (fun _ bs => len bs = n).
Proof using Hsz Hmtu.
  intros E Hn. split; [done|]. pose proof (split_bounds pre suf E). unfold advance. rewrite u64_add_small by (unfold is_u64, ULONG_MAX; lia).
  eexists. split; [reflexivity|]. intros [] i. split.
  - intros [= <-]. exists (take (Z.to_nat n) suf), (drop (Z.to_nat n) suf). rewrite take_drop, length_take. split; [done|]. lia.
  - intros (bs & rest & _ & -> & ->). done.
Qed.

(** Sequences whose first step consumes nothing. *)

Lemma runs_val {A B} pre suf (p : parser A) (f : A -> parser B) a G :
  runs_at pre suf p (fun x bs => bs = [] /\ x = a) -> runs_at pre suf (f a) G -> runs_at pre suf (p ≫= f) G.
Proof.
  intros Hp Hf. eapply runs_iff.
  - apply (runs_bind _ _ _ f _ (fun _ _ _ => G) Hp). intros x bs rest Es [-> ->]. cbn in Es. subst rest. by rewrite app_nil_r.
  - intros y bs rest _. split; [by intros (x & b1 & b2 & rest1 & -> & _ & [-> ->] & HG)|]. intros HG. by exists a, [], bs, suf.
Qed.

Lemma runs_then {B} pre suf (p : parser unit) (q : parser B) (P : Prop) G :
  runs_at pre suf p (fun _ bs => bs = [] /\ P) -> (P -> runs_at pre suf q G) -> runs_at pre suf (p;; q) (fun y bs => P /\ G y bs).
Proof.
  intros Hp Hq. eapply runs_iff.
  - apply (runs_bind _ _ _ (fun _ => q) _ (fun _ _ _ => G) Hp). intros x bs rest Es [-> HP]. cbn in Es. subst rest. rewrite app_nil_r. auto.
  - intros y bs rest _. split; [by intros (x & b1 & b2 & rest1 & -> & _ & [-> HP] & HG)|]. intros [HP HG]. by exists tt, [], bs, suf.
Qed.

(** Sequences whose first step gives a function [g] of what it read. *)

Lemma runs_unique {A} pre suf (p : parser A) F G x bs rest : runs_at pre suf p F -> runs_at pre suf p G -> suf = bs ++ rest -> F x bs -> G x bs.
Proof.
  intros [_ (r & Er & Hr)] [_ (r' & Er' & Hr')] Es HF. rewrite Er in Er'. injection Er' as <-.
  destruct (proj1 (Hr' x (len pre + len bs))) as (bs' & rest' & Es' & El & HG); [apply Hr; by exists bs, rest|].
  rewrite Es in Es'. apply app_inj_1 in Es' as [<- _]; [done|lia].
Qed.

Lemma runs_bind_of {A B W} pre suf (p : parser A) (f : A -> parser B) (g : W -> A) P G :
  runs_at pre suf p (fun y bs => exists w, y = g w /\ P w bs) ->
  (forall w b1 rest, suf = b1 ++ rest -> P w b1 -> runs_at (pre ++ b1) rest (f (g w)) (G w b1 rest)) ->
  runs_at pre suf (p ≫= f) (fun y bs => exists w b1 b2 rest, bs = b1 ++ b2 /\ suf = b1 ++ rest /\ P w b1 /\ G w b1 rest y b2).
Proof.
  intros Hp Hf. eapply runs_iff.
  - apply (runs_bind _ _ _ f _ (fun y b1 rest z b2 => exists w, y = g w /\ P w b1 /\ G w b1 rest z b2) Hp).
    intros y b1 rest Es (w & -> & HP). eapply runs_iff; [by apply Hf|]. intros z b2 rest2 E2. split; [by exists w|].
    intros (w' & Ew & HP' & HG). pose proof (Hf w' b1 rest Es HP') as Hf'. rewrite <- Ew in Hf'. by eapply (runs_unique _ _ _ _ _ _ _ _ Hf' (Hf w b1 rest Es HP)).
  - intros z bs rest _. split.
    + intros (y & b1 & b2 & rest1 & -> & Es & _ & w & _ & HP & HG). by exists w, b1, b2, rest1.
    + intros (w & b1 & b2 & rest1 & -> & Es & HP & HG). exists (g w), b1, b2, rest1. split; [done|]. split; [done|]. split; by exists w.
Qed.

(** Primitives that read *)

Lemma runs_left pre suf line n : pl = pre ++ suf -> runs_at pre suf (CHECK_LEFT payload_sz line n) (fun _ bs => bs = [] /\ n <= len suf).
Proof using Hsz Hmtu.
  intros E. eapply runs_val; [by apply runs_here|]. pose proof (split_bounds pre suf E).
  eapply runs_iff; [by apply runs_check|]. intros [] bs rest _.
  rewrite u64_sub_small, Z.leb_le by (unfold is_u64, ULONG_MAX; lia). by replace (payload_sz - len pre) with (len suf) by lia.
Qed.

Lemma ld_at pre suf n off : pl = pre ++ suf -> 0 <= off -> off + Z.of_nat n <= len suf ->
  ld n payload (off + len pre) = Ok (le_load (take n (drop (Z.to_nat off) suf))).
Proof using Hsz Hmtu.
  intros E H0 Hn. pose proof (split_bounds pre suf E). destruct (payload_drop pre suf E) as [tail Ht].
  unfold ld. rewrite mem_read_ok by lia. cbn [mbind outcome_bind]. do 2 f_equal. rewrite Nat2Z.id.
  replace (Z.to_nat (off + len pre)) with (length pre + Z.to_nat off)%nat by lia.
  rewrite <- drop_drop, Ht, drop_app_le by lia. apply take_app_le. rewrite length_drop. lia.
Qed.

Lemma runs_peek pre suf n off : pl = pre ++ suf -> 0 <= off -> off + Z.of_nat n <= len suf ->
  runs_at pre suf (peek payload n off) (fun x bs => bs = [] /\ x = le_load (take n (drop (Z.to_nat off) suf))).
Proof using Hsz Hmtu.
  intros E H0 Hn. eapply runs_val; [by apply runs_here|]. pose proof (split_bounds pre suf E).
  apply runs_lift; [done|]. rewrite u64_add_small by (unfold is_u64, ULONG_MAX; lia). by apply ld_at.
Qed.

Lemma runs_read pre suf line n : pl = pre ++ suf ->
  runs_at pre suf (READ payload payload_sz line n) (fun x bs => 0 <= x < 256 ^ Z.of_nat n /\ bs = le_store n x).
Proof using Hsz Hmtu Hbytes.
  intros E. pose proof (split_bounds pre suf E). pose proof (split_bytes pre suf E) as HB. eapply runs_iff.
  - eapply runs_then; [by apply runs_left|]. intros Hn. eapply runs_val; [apply runs_peek; [done|lia|lia]|].
    eapply runs_bind; [apply runs_advance; [done|lia]|]. intros u b1 rest Es Hb1.
    apply runs_ret. by rewrite <- app_assoc, <- Es.
  - intros x bs rest ->. apply Forall_app in HB as [HB _]. split.
    + intros (Hn & [] & b1 & b2 & rest1 & -> & _ & Hb1 & -> & ->). rewrite app_nil_r in *. change (drop (Z.to_nat 0) ?l) with l. rewrite take_app_length' by lia.
      rewrite <- (le_store_load b1) at 3 by done. replace (length b1) with n by lia. split; [|done]. pose proof (le_load_range b1 HB). by replace (length b1) with n in * by lia.
    + intros [Hx ->]. rewrite length_app, le_store_length. split; [lia|]. exists tt, (le_store n x), [], rest. rewrite app_nil_r. split; [done|]. split; [done|].
      rewrite le_store_length. split; [done|]. split; [done|]. change (drop (Z.to_nat 0) ?l) with l. rewrite take_app_length' by (by rewrite le_store_length). by rewrite le_load_store.
Qed.

Lemma runs_byte pre suf line : pl = pre ++ suf -> runs_at pre suf (READ payload payload_sz line 1) (fun x bs => is_byte x /\ bs = [x]).
Proof using Hsz Hmtu Hbytes.
  intros E. eapply runs_iff; [by apply runs_read|]. intros x bs rest _. unfold is_byte. change (256 ^ Z.of_nat 1) with 256.
  split; intros [H ->]; (split; [done|]); cbn; by rewrite Z.mod_small.
Qed.

Lemma runs_field pre suf line n : pl = pre ++ suf -> 0 <= n ->
  runs_at pre suf (FIELD payload_sz line n) (fun off bs => off = len pre /\ len bs = n).
Proof using Hsz Hmtu.
  intros E H0. eapply runs_iff.
  - eapply runs_then; [by apply runs_left|]. intros Hn. eapply runs_val; [by apply runs_here|].
    eapply runs_bind; [apply runs_advance; [done|lia]|]. intros u b1 rest Es Hb1.
    apply runs_ret. by rewrite <- app_assoc, <- Es.
  - intros x bs rest ->. split.
    + intros (Hn & [] & b1 & b2 & rest1 & -> & _ & Hb1 & -> & ->). by rewrite app_nil_r.
    + intros [-> Hn]. rewrite length_app. split; [lia|]. exists tt, bs, [], rest. by rewrite app_nil_r.
Qed.
End Runs.
