(* ===== verification/TxnCu16.v ===== *)
(** * compact-u16

    The decoder accepts exactly what the encoder writes: a value of 16 bits in its
    shortest form and nothing else. *)
From S2P Require Import Prelude Txn TxnRuns.

(** ** The encoding in arithmetic *)

Lemma byte_ind (P : Z -> bool) b : forallb P (seqZ 0 256) = true -> is_byte b -> P b = true.
Proof. intros HP Hb. rewrite forallb_forall in HP. apply HP, list_elem_of_In, elem_of_seqZ. unfold is_byte in Hb. lia. Qed.

Lemma byte_high b : is_byte b -> Z.land 0x80 b = 0 <-> b < 128.
Proof.
  intros Hb. rewrite <- Z.ltb_lt, <- Z.eqb_eq. pose proof (byte_ind (fun b => Bool.eqb (Z.land 0x80 b =? 0) (b <? 128)) b eq_refl Hb) as E.
  apply Bool.eqb_prop in E. by rewrite E.
Qed.

Lemma byte_top b : is_byte b -> Z.land 0xFC b = 0 <-> b < 4.
Proof.
  intros Hb. rewrite <- Z.ltb_lt, <- Z.eqb_eq. pose proof (byte_ind (fun b => Bool.eqb (Z.land 0xFC b =? 0) (b <? 4)) b eq_refl Hb) as E.
  apply Bool.eqb_prop in E. by rewrite E.
Qed.

Lemma byte_high_not b : is_byte b -> (Z.land 0x80 b =? 0) = (b <? 128).
Proof. intros Hb. apply eq_true_iff_eq. rewrite Z.eqb_eq, Z.ltb_lt. by apply byte_high. Qed.

Lemma byte_low b : 128 <= b < 256 -> Z.land b 0x7F = b - 128.
Proof.
  intros Hb. apply Z.eqb_eq. assert (is_byte b) as Hb' by (unfold is_byte; lia).
  pose proof (byte_ind (fun b => (b <? 128) || (Z.land b 0x7F =? b - 128)) b eq_refl Hb') as E.
  apply orb_true_iff in E as [E|E]; [apply Z.ltb_lt in E; lia|done].
Qed.

Lemma lor_high a : 0 <= a < 128 -> uchar (Z.lor a 128) = a + 128.
Proof.
  intros Ha. apply Z.eqb_eq. assert (is_byte a) as Ha' by (unfold is_byte; lia).
  pose proof (byte_ind (fun a => (128 <=? a) || (uchar (Z.lor a 128) =? a + 128)) a eq_refl Ha') as E.
  apply orb_true_iff in E as [E|E]; [apply Z.leb_le in E; lia|done].
Qed.

Definition cu16_enc (x : Z) : list Z :=
  if x <? 128 then [x] else
  if x <? 16384 then [x mod 128 + 128; x / 128] else [x mod 128 + 128; (x / 128) mod 128 + 128; x / 16384].

Lemma cu16_enc_ok x : 0 <= x < 65536 -> fd_cu16_enc x = cu16_enc x.
Proof.
  intros Hx. unfold fd_cu16_enc, cu16_enc. change 0x7F with (Z.ones 7). rewrite !Z.land_ones, !Z.shiftr_div_pow2 by lia.
  change (2 ^ 7) with 128. change (2 ^ 14) with 16384. change (Z.ones 7) with 127.
  pose proof (Z.mod_pos_bound x 128). pose proof (Z.mod_pos_bound (x / 128) 128).
  assert (x / 16384 < 4) by (apply Z.div_lt_upper_bound; lia). pose proof (Z.div_pos x 16384).
  destruct (x <? 128) eqn:E1; boolp.
  - rewrite (proj2 (Z.ltb_ge 127 x)), (proj2 (Z.ltb_ge 0x3FFF x)) by lia. cbn [app Z.b2z]. change (Z.shiftl 0 7) with 0.
    rewrite Z.lor_0_r, Z.mod_small by lia. unfold uchar. by rewrite Z.mod_small by lia.
  - rewrite (proj2 (Z.ltb_lt 127 x)) by lia. cbn [Z.b2z]. change (Z.shiftl 1 7) with 128. rewrite lor_high by lia.
    destruct (x <? 16384) eqn:E2; boolp.
    + rewrite (proj2 (Z.ltb_ge 0x3FFF x)) by lia. cbn [Z.b2z app]. change (Z.shiftl 0 7) with 0. rewrite Z.lor_0_r. unfold uchar.
      assert (x / 128 < 128) by (apply Z.div_lt_upper_bound; lia). pose proof (Z.div_pos x 128). by rewrite (Z.mod_small (x / 128) 128), (Z.mod_small (x / 128) 256) by lia.
    + rewrite (proj2 (Z.ltb_lt 0x3FFF x)) by lia. cbn [Z.b2z app]. change (Z.shiftl 1 7) with 128. rewrite lor_high by lia.
      unfold uchar. by rewrite (Z.mod_small (x / 16384)) by lia.
Qed.

Lemma cu16_enc_bytes x : 0 <= x < 65536 -> Forall is_byte (cu16_enc x).
Proof.
  intros Hx. unfold cu16_enc, is_byte. pose proof (Z.mod_pos_bound x 128). pose proof (Z.mod_pos_bound (x / 128) 128). pose proof (Z.div_pos x 16384). pose proof (Z.div_pos x 128).
  assert (x / 16384 < 4) by (apply Z.div_lt_upper_bound; lia).
  destruct (x <? 128) eqn:E1; boolp; [repeat constructor; lia|]. destruct (x <? 16384) eqn:E2; boolp; [|repeat constructor; lia].
  assert (x / 128 < 128) by (apply Z.div_lt_upper_bound; lia). repeat constructor; lia.
Qed.

Lemma cu16_enc_length x : (1 <= length (cu16_enc x) <= 3)%nat.
Proof. unfold cu16_enc. repeat case_match; cbn; lia. Qed.

(** ** The decoder *)

(** What a buffer that starts with a compact-u16 looks like. *)
Inductive cu16_at : list Z -> Z -> list Z -> Prop :=
| Cu1 b0 rest : b0 < 128 -> cu16_at (b0 :: rest) b0 [b0]
| Cu2 b0 b1 rest : 128 <= b0 -> 0 < b1 < 128 -> cu16_at (b0 :: b1 :: rest) (b0 - 128 + b1 * 128) [b0; b1]
| Cu3 b0 b1 b2 rest : 128 <= b0 -> 128 <= b1 -> 0 < b2 < 4 -> cu16_at (b0 :: b1 :: b2 :: rest) (b0 - 128 + (b1 - 128) * 128 + b2 * 16384) [b0; b1; b2].

Lemma cu16_at_enc suf x bs : Forall is_byte suf -> cu16_at suf x bs <-> 0 <= x < 65536 /\ bs = cu16_enc x /\ exists rest, suf = bs ++ rest.
Proof.
  intros HB. split.
  - intros H. destruct H as [b0 rest H0|b0 b1 rest H0 H1|b0 b1 b2 rest H0 H1 H2];
      repeat match goal with H : Forall _ (_ :: _) |- _ => apply Forall_cons in H as [? H] end; unfold is_byte in *; unfold cu16_enc.
    + rewrite (proj2 (Z.ltb_lt b0 128)) by lia. split; [lia|]. split; [done|]. by exists rest.
    + set (x := b0 - 128 + b1 * 128). assert (x / 128 = b1) as E1 by (unfold x; rewrite Z.div_add, Z.div_small by lia; lia).
      assert (x mod 128 = b0 - 128) as E0 by (unfold x; rewrite Z.mod_add, Z.mod_small by lia; lia).
      assert (128 <= x < 16384) by (unfold x; lia). rewrite (proj2 (Z.ltb_ge x 128)), (proj2 (Z.ltb_lt x 16384)) by lia. rewrite E0, E1.
      split; [lia|]. split; [by rewrite !Z.sub_add|]. by exists rest.
    + set (x := b0 - 128 + (b1 - 128) * 128 + b2 * 16384).
      assert (x / 128 = b1 - 128 + b2 * 128) as E1 by (unfold x; replace (_ + b2 * 16384) with (b0 - 128 + (b1 - 128 + b2 * 128) * 128) by lia; rewrite Z.div_add, Z.div_small by lia; lia).
      assert (x mod 128 = b0 - 128) as E0 by (unfold x; replace (_ + b2 * 16384) with (b0 - 128 + (b1 - 128 + b2 * 128) * 128) by lia; rewrite Z.mod_add, Z.mod_small by lia; lia).
      assert (x / 16384 = b2) as E2 by (unfold x; rewrite Z.div_add, Z.div_small by lia; lia).
      assert (16384 <= x < 65536) by (unfold x; lia). rewrite (proj2 (Z.ltb_ge x 128)), (proj2 (Z.ltb_ge x 16384)) by lia.
      rewrite E0, E1, E2, Z.mod_add, Z.mod_small by lia. split; [lia|]. split; [by rewrite !Z.sub_add|]. by exists rest.
  - intros (Hx & -> & rest & ->). unfold cu16_enc. pose proof (Z.mod_pos_bound x 128). pose proof (Z.mod_pos_bound (x / 128) 128).
    assert (x / 16384 < 4) by (apply Z.div_lt_upper_bound; lia). pose proof (Z.div_mod x 128). pose proof (Z.div_mod (x / 128) 128).
    assert (x / 128 / 128 = x / 16384) as E by (by rewrite Z.div_div by lia).
    destruct (x <? 128) eqn:E1; boolp; [by apply Cu1|]. destruct (x <? 16384) eqn:E2; boolp.
    + assert (x / 128 < 128) by (apply Z.div_lt_upper_bound; lia). assert (1 <= x / 128) by (apply Z.div_le_lower_bound; lia).
      replace x with (x mod 128 + 128 - 128 + x / 128 * 128) at 3 by lia. apply Cu2; lia.
    + assert (1 <= x / 16384) by (apply Z.div_le_lower_bound; lia).
      replace x with (x mod 128 + 128 - 128 + ((x / 128) mod 128 + 128 - 128) * 128 + x / 16384 * 16384) at 4 by lia. apply Cu3; lia.
Qed.

Lemma ld_cons n b l k : 0 <= k -> ld n (b :: l) (k + 1) = ld n l k.
Proof.
  intros Hk. unfold ld, mem_read. cbn [length]. replace (Z.to_nat (k + 1)) with (S (Z.to_nat k)) by lia.
  replace (k + 1 + Z.of_nat n <=? Z.of_nat (S (length l))) with (k + Z.of_nat n <=? len l) by (apply eq_true_iff_eq; rewrite !Z.leb_le; lia).
  by rewrite (proj2 (Z.leb_le 0 (k + 1))), (proj2 (Z.leb_le 0 k)) by lia.
Qed.

Lemma ld_byte b l : ld 1 (b :: l) 0 = Ok b.
Proof. unfold ld. rewrite mem_read_ok by (cbn; lia). change (Ok (b + 256 * 0) = Ok b). f_equal. lia. Qed.

Lemma ld_byte1 b c l : ld 1 (b :: c :: l) 1 = Ok c.
Proof. change 1 with (0 + 1) at 1. rewrite ld_cons by lia. apply ld_byte. Qed.

Lemma ld_byte2 a b c l : ld 1 (a :: b :: c :: l) 2 = Ok c.
Proof. change 2 with (1 + 1). rewrite ld_cons by lia. apply ld_byte1. Qed.

#[export] Hint Rewrite ld_byte ld_byte1 ld_byte2 : choreo.

Lemma cu16_dec_fixed_ok buf x bs : Forall is_byte buf -> cu16_at buf x bs -> fd_cu16_dec_fixed buf (len bs) = Ok x.
Proof.
  intros HB H. destruct (proj1 (cu16_at_enc buf x bs HB) H) as [Hx _]. unfold fd_cu16_dec_fixed.
  destruct H as [b0 rest H0|b0 b1 rest H0 H1|b0 b1 b2 rest H0 H1 H2]; cbn [length];
    repeat match goal with H : Forall _ (_ :: _) |- _ => apply Forall_cons in H as [? H] end; unfold is_byte in *;
    autorewrite with choreo.
  - change (Ok (ushort b0) = Ok b0). unfold ushort. by rewrite Z.mod_small by lia.
  - change (Ok (ushort (Z.land b0 0x7F +w Z.shiftl b1 7)) = Ok (b0 - 128 + b1 * 128)). unfold ushort. rewrite byte_low, Z.shiftl_mul_pow2, u64_add_small by (unfold is_u64, ULONG_MAX; lia). change (2 ^ 7) with 128. by rewrite Z.mod_small by lia.
  - change (Ok (ushort (Z.land b0 0x7F +w Z.shiftl (Z.land b1 0x7F) 7 +w Z.shiftl b2 14)) = Ok (b0 - 128 + (b1 - 128) * 128 + b2 * 16384)). unfold ushort.
    rewrite !byte_low, !Z.shiftl_mul_pow2 by lia. change (2 ^ 7) with 128. change (2 ^ 14) with 16384.
    rewrite (u64_add_small (b0 - 128)), u64_add_small by (unfold is_u64, ULONG_MAX; lia). by rewrite Z.mod_small by lia.
Qed.

(** The size: [None] where the bytes available start with no compact-u16. *)
Definition cu16_sz (suf : list Z) : Z :=
  match suf with
  | [] => 0
  | b0 :: s1 =>
      if b0 <? 128 then 1 else
      match s1 with
      | [] => 0
      | b1 :: s2 =>
          if b1 <? 128 then (if b1 =? 0 then 0 else 2) else
          match s2 with
          | [] => 0
          | b2 :: _ => if b2 <? 4 then (if b2 =? 0 then 0 else 3) else 0
          end
      end
  end.

Lemma cu16_dec_sz_eq suf tail : Forall is_byte suf -> fd_cu16_dec_sz (suf ++ tail) (len suf) = Ok (cu16_sz suf).
Proof.
  intros HB. unfold fd_cu16_dec_sz, cu16_sz. destruct suf as [|b0 s1]; [done|]. apply Forall_cons in HB as [H0 HB].
  rewrite <- app_comm_cons. autorewrite with choreo. rewrite (proj2 (Z.leb_le 1 (len (b0 :: s1)))) by (cbn [length]; lia).
  cbn [and_then mbind outcome_bind]. rewrite (byte_high_not b0 H0). destruct (b0 <? 128); [done|].
  destruct s1 as [|b1 s2]; [done|]. apply Forall_cons in HB as [H1 HB].
  rewrite <- app_comm_cons. autorewrite with choreo. rewrite (proj2 (Z.leb_le 2 (len (b0 :: b1 :: s2)))) by (cbn [length]; lia).
  cbn [and_then mbind outcome_bind]. rewrite (byte_high_not b1 H1). destruct (b1 <? 128); [done|].
  destruct s2 as [|b2 s3]; [done|]. apply Forall_cons in HB as [H2 HB].
  rewrite <- app_comm_cons. autorewrite with choreo. rewrite (proj2 (Z.leb_le 3 (len (b0 :: b1 :: b2 :: s3)))) by (cbn [length]; lia).
  cbn [and_then mbind outcome_bind]. replace (Z.land 252 b2 =? 0) with (b2 <? 4); [by destruct (b2 <? 4)|].
  apply eq_true_iff_eq. rewrite Z.ltb_lt, Z.eqb_eq. symmetry. by apply byte_top.
Qed.

Lemma cu16_sz_pos suf : Forall is_byte suf -> cu16_sz suf <> 0 -> exists x bs, cu16_at suf x bs /\ cu16_sz suf = len bs.
Proof.
  intros HB. unfold cu16_sz. destruct suf as [|b0 s1]; [done|]. destruct (b0 <? 128) eqn:E0; boolp.
  { exists b0, [b0]. split; [by apply Cu1|done]. }
  destruct s1 as [|b1 s2]; [done|]. destruct (b1 <? 128) eqn:E1; boolp.
  { destruct (b1 =? 0) eqn:E1'; [done|]. boolp. intros _. exists (b0 - 128 + b1 * 128), [b0; b1]. split; [|done].
    rewrite !Forall_cons in HB. unfold is_byte in HB. apply Cu2; lia. }
  destruct s2 as [|b2 s3]; [done|]. destruct (b2 <? 4) eqn:E2; [|done]. boolp. destruct (b2 =? 0) eqn:E2'; [done|]. boolp. intros _.
  exists (b0 - 128 + (b1 - 128) * 128 + b2 * 16384), [b0; b1; b2]. split; [|done]. rewrite !Forall_cons in HB. unfold is_byte in HB. apply Cu3; lia.
Qed.

Lemma cu16_sz_at suf x bs : cu16_at suf x bs -> cu16_sz suf = len bs.
Proof.
  unfold cu16_sz. intros [b0 rest H0|b0 b1 rest H0 H1|b0 b1 b2 rest H0 H1 H2].
  - by rewrite (proj2 (Z.ltb_lt b0 128)) by lia.
  - rewrite (proj2 (Z.ltb_ge b0 128)), (proj2 (Z.ltb_lt b1 128)), (proj2 (Z.eqb_neq b1 0)) by lia. done.
  - rewrite (proj2 (Z.ltb_ge b0 128)), (proj2 (Z.ltb_ge b1 128)), (proj2 (Z.ltb_lt b2 4)), (proj2 (Z.eqb_neq b2 0)) by lia. done.
Qed.

Lemma cu16_at_app suf tail x bs : cu16_at suf x bs -> cu16_at (suf ++ tail) x bs.
Proof. intros []; cbn; by constructor. Qed.

Lemma cu16_at_len suf x bs : cu16_at suf x bs -> 1 <= len bs <= len suf.
Proof. intros []; cbn; lia. Qed.

(** The step that reads a compact-u16, by its two outcomes. *)
Lemma read_cu16_eq payload payload_sz pre suf line :
  0 <= payload_sz <= len payload -> payload_sz <= 4096 -> Forall is_byte payload -> pl payload payload_sz = pre ++ suf ->
  (cu16_sz suf = 0 /\ READ_CHECKED_COMPACT_U16 payload payload_sz line (len pre) = Ok (inl line)) \/
  (exists x bs, cu16_at suf x bs /\ READ_CHECKED_COMPACT_U16 payload payload_sz line (len pre) = Ok (inr (x, len pre + len bs))).
Proof.
  intros Hsz Hmtu Hbytes E. pose proof (split_bounds _ _ Hsz pre suf E) as Hlen. pose proof (split_bytes _ _ Hbytes pre suf E) as HB.
  destruct (payload_drop _ _ Hsz pre suf E) as [tail Ht].
  unfold READ_CHECKED_COMPACT_U16, mbind, parser_bind, here, lift, CHECK, advance, mret, parser_ret.
  rewrite Nat2Z.id, Ht, u64_sub_small by (unfold is_u64, ULONG_MAX; lia). replace (payload_sz - len pre) with (len suf) by lia.
  rewrite cu16_dec_sz_eq by done. cbn [mbind outcome_bind]. destruct (decide (cu16_sz suf = 0)) as [E0|E0]; [left; by rewrite E0|].
  right. destruct (cu16_sz_pos suf HB E0) as (x & bs & Hat & Es). exists x, bs. split; [done|].
  rewrite (proj2 (Z.eqb_neq _ _) E0), Es. cbn [negb].
  rewrite (cu16_dec_fixed_ok (suf ++ tail) x bs); [|rewrite <- Ht; by apply Forall_drop|by apply cu16_at_app]. cbn [mbind outcome_bind].
  pose proof (cu16_at_len _ _ _ Hat). by rewrite u64_add_small by (unfold is_u64, ULONG_MAX; lia).
Qed.

Lemma runs_cu16 payload payload_sz pre suf line :
  0 <= payload_sz <= len payload -> payload_sz <= 4096 -> Forall is_byte payload -> pl payload payload_sz = pre ++ suf ->
  runs_at payload payload_sz pre suf (READ_CHECKED_COMPACT_U16 payload payload_sz line) (fun x bs => 0 <= x < 65536 /\ bs = fd_cu16_enc x).
Proof.
  intros Hsz Hmtu Hbytes E. split; [done|]. pose proof (split_bytes _ _ Hbytes pre suf E) as HB.
  assert (forall y bs rest, suf = bs ++ rest -> 0 <= y < 65536 /\ bs = fd_cu16_enc y -> cu16_at suf y bs) as Hat.
  { intros y bs rest Es [Hy ->]. apply cu16_at_enc; [done|]. rewrite cu16_enc_ok in * by done. eauto. }
  destruct (read_cu16_eq payload payload_sz pre suf line Hsz Hmtu Hbytes E) as [[E0 Er]|(x & b & Hx & Er)]; rewrite Er; eexists; (split; [done|]).
  - intros y i. split; [done|]. intros (bs & rest & Es & _ & Hy). pose proof (Hat y bs rest Es Hy) as H.
    pose proof (cu16_sz_at _ _ _ H). pose proof (cu16_at_len _ _ _ H). lia.
  - destruct (proj1 (cu16_at_enc suf x b HB) Hx) as (Hr & Eb & rest & Es). intros y i. split.
    + intros [= <- <-]. exists b, rest. by rewrite cu16_enc_ok.
    + intros (bs & rest' & Es' & -> & Hy). pose proof (Hat y bs rest' Es' Hy) as H. pose proof (cu16_sz_at _ _ _ H). pose proof (cu16_sz_at _ _ _ Hx).
      assert (bs = b) as -> by (rewrite Es in Es'; apply app_inj_1 in Es'; [naive_solver|lia]).
      apply (cu16_dec_fixed_ok suf) in H, Hx; [|done..]. congruence.
Qed.


