(* ===== verification/TxnGrammar.v ===== *)
(** * The wire format of transactions

    The grammar the parser is held against: a [message] is the content of a transaction,
    [ser] its bytes, [describe] the structure of offsets a parser should give for them,
    and [wf] the conditions of the format.  Nothing here refers to the parser. *)
From S2P Require Import Prelude Txn TxnRuns.

Record instr_m := mk_im { im_program : Z; im_accts : list Z; im_data : list Z }.
Record lut_m := mk_lm { lm_addr : list Z; lm_writable : list Z; lm_readonly : list Z }.
Record config_m := mk_cm { cm_fee : option Z; cm_cu : option Z; cm_lads : option Z; cm_heap : option Z }.

Inductive kind_m := Legacy | V0 (luts : list lut_m) | V1 (config : config_m).

Record message := mk_msg {
  m_kind : kind_m;
  m_sigs : list (list Z);
  m_ro_signed : Z;
  m_ro_unsigned : Z;
  m_addrs : list (list Z);
  m_blockhash : list Z;
  m_instrs : list instr_m;
}.

(** ** Bytes *)

Definition ser_instr (x : instr_m) : list Z :=
  [im_program x] ++ fd_cu16_enc (len (im_accts x)) ++ im_accts x ++ fd_cu16_enc (len (im_data x)) ++ im_data x.

Definition ser_lut (x : lut_m) : list Z :=
  lm_addr x ++ fd_cu16_enc (len (lm_writable x)) ++ lm_writable x ++ fd_cu16_enc (len (lm_readonly x)) ++ lm_readonly x.

(** In version 1 the headers of all instructions come before the accounts and the data. *)
Definition ser_instr_header (x : instr_m) : list Z := [im_program x; len (im_accts x)] ++ le_store 2 (len (im_data x)).
Definition ser_instr_body (x : instr_m) : list Z := im_accts x ++ im_data x.

Definition ser_opt (n : nat) (o : option Z) : list Z := from_option (le_store n) [] o.
Definition bit_opt (b : Z) (o : option Z) : Z := from_option (fun _ => b) 0 o.

Definition config_mask (c : config_m) : Z := bit_opt 3 (cm_fee c) + bit_opt 4 (cm_cu c) + bit_opt 8 (cm_lads c) + bit_opt 16 (cm_heap c).
Definition config_values (c : config_m) : list Z := ser_opt 8 (cm_fee c) ++ ser_opt 4 (cm_cu c) ++ ser_opt 4 (cm_lads c) ++ ser_opt 4 (cm_heap c).

Definition ser_tables (luts : list lut_m) : list Z := fd_cu16_enc (len luts) ++ concat (ser_lut <$> luts).

Definition m_luts (m : message) : list lut_m := match m_kind m with V0 luts => luts | _ => [] end.

(** The part of the transaction that is signed. *)
Definition ser_message (m : message) : list Z :=
  match m_kind m with
  | V1 c =>
      [0x81; len (m_sigs m); m_ro_signed m; m_ro_unsigned m] ++ le_store 4 (config_mask c) ++ m_blockhash m
      ++ [len (m_instrs m); len (m_addrs m)] ++ concat (m_addrs m) ++ config_values c
      ++ concat (ser_instr_header <$> m_instrs m) ++ concat (ser_instr_body <$> m_instrs m)
  | k =>
      (match k with V0 _ => [0x80] | _ => [] end) ++ [len (m_sigs m); m_ro_signed m; m_ro_unsigned m]
      ++ fd_cu16_enc (len (m_addrs m)) ++ concat (m_addrs m) ++ m_blockhash m
      ++ fd_cu16_enc (len (m_instrs m)) ++ concat (ser_instr <$> m_instrs m)
      ++ (match k with V0 luts => ser_tables luts | _ => [] end)
  end.

Definition is_v1 (m : message) : bool := match m_kind m with V1 _ => true | _ => false end.

Definition ser (m : message) : list Z :=
  if is_v1 m then ser_message m ++ concat (m_sigs m) else [len (m_sigs m)] ++ concat (m_sigs m) ++ ser_message m.

(** ** Offsets *)

(** Consecutive objects of the given sizes from offset [off]. *)
Fixpoint layout {A B} (size : A -> Z) (f : Z -> A -> B) (off : Z) (l : list A) : list B :=
  match l with
  | [] => []
  | x :: l' => f off x :: layout size f (off + size x) l'
  end.

Definition describe_instr (off : Z) (x : instr_m) : fd_txn_instr_t :=
  let acct_off := off + 1 + len (fd_cu16_enc (len (im_accts x))) in
  mk_instr (im_program x) 0 (len (im_accts x)) (len (im_data x)) acct_off
    (acct_off + len (im_accts x) + len (fd_cu16_enc (len (im_data x)))).

Definition describe_lut (off : Z) (x : lut_m) : fd_txn_acct_addr_lut_t :=
  let writable_off := off + 32 + len (fd_cu16_enc (len (lm_writable x))) in
  mk_lut off (len (lm_writable x)) (len (lm_readonly x)) writable_off
    (writable_off + len (lm_writable x) + len (fd_cu16_enc (len (lm_readonly x)))).

Definition describe_instr_v1 (off : Z) (x : instr_m) : fd_txn_instr_t :=
  mk_instr (im_program x) 0 (len (im_accts x)) (len (im_data x)) off (off + len (im_accts x)).

Definition m_writable (m : message) : Z := lsum (fun x => len (lm_writable x)) (m_luts m).
Definition m_adtl (m : message) : Z := lsum (fun x => len (lm_writable x) + len (lm_readonly x)) (m_luts m).

Definition describe_legacy (version : Z) (m : message) : fd_txn_t :=
  let nsig := len (m_sigs m) in
  let message_off := 1 + 64 * nsig in
  let acct_addr_off := message_off + (if version =? FD_TXN_V0 then 1 else 0) + 3 + len (fd_cu16_enc (len (m_addrs m))) in
  let blockhash_off := acct_addr_off + 32 * len (m_addrs m) in
  let instr_off := blockhash_off + 32 + len (fd_cu16_enc (len (m_instrs m))) in
  let lut_off := instr_off + len (concat (ser_instr <$> m_instrs m)) + len (fd_cu16_enc (len (m_luts m))) in
  mk_txn version nsig 1 message_off (m_ro_signed m) (m_ro_unsigned m) (len (m_addrs m)) acct_addr_off blockhash_off
    (len (m_luts m)) (m_writable m) (m_adtl m) 0 0 (len (m_instrs m))
    (layout (fun x => len (ser_instr x)) describe_instr instr_off (m_instrs m))
    (layout (fun x => len (ser_lut x)) describe_lut lut_off (m_luts m)).

Definition describe_v1 (c : config_m) (m : message) : fd_txn_t :=
  let nsig := len (m_sigs m) in
  let config_off := 42 + 32 * len (m_addrs m) in
  let body_off := config_off + len (config_values c) + 4 * len (m_instrs m) in
  mk_txn FD_TXN_V1 nsig (len (ser_message m)) 0 (m_ro_signed m) (m_ro_unsigned m) (len (m_addrs m)) 42 8
    0 0 0 0 config_off (len (m_instrs m))
    (layout (fun x => len (ser_instr_body x)) describe_instr_v1 body_off (m_instrs m)) [].

Definition describe (m : message) : fd_txn_t :=
  match m_kind m with
  | Legacy => describe_legacy FD_TXN_VLEGACY m
  | V0 _ => describe_legacy FD_TXN_V0 m
  | V1 c => describe_v1 c m
  end.

(** ** Conditions *)

Definition opt_fits (n : nat) (o : option Z) : Prop := forall v, o = Some v -> 0 <= v < 256 ^ Z.of_nat n.

Record wf_config (c : config_m) : Prop := mk_wf_config {
  wc_fee : opt_fits 8 (cm_fee c);
  wc_cu : opt_fits 4 (cm_cu c);
  wc_lads : opt_fits 4 (cm_lads c);
  wc_heap : forall h, cm_heap c = Some h -> 32768 <= h <= 262144 /\ h mod 1024 = 0;
}.

Definition wf_kind (m : message) : Prop :=
  match m_kind m with
  | Legacy => True
  | V0 luts => Forall (fun x => length (lm_addr x) = 32%nat /\ 1 <= len (lm_writable x) + len (lm_readonly x)) luts
  | V1 c => wf_config c
  end.

(** The account indices of an instruction may name an account of a lookup table; its
    program is one of the addresses of the transaction and not the fee payer. *)
Definition wf_instr (m : message) (x : instr_m) : Prop :=
  0 < im_program x < len (m_addrs m) /\ len (im_accts x) <= 255 /\ Forall (fun a => a < len (m_addrs m) + m_adtl m) (im_accts x).

Definition mtu (m : message) : Z := if is_v1 m then FD_TXN_MTU else FD_TXN_MTU_V0.

Record wf (m : message) : Prop := mk_wf {
  wf_kind_ok : wf_kind m;
  wf_sig_cnt : 1 <= len (m_sigs m) <= 12;
  wf_sigs : Forall (fun s => length s = 64%nat) (m_sigs m);
  wf_ro_signed : m_ro_signed m < len (m_sigs m);
  wf_ro_unsigned : len (m_sigs m) + m_ro_unsigned m <= len (m_addrs m);
  wf_acct_cnt : len (m_addrs m) + m_adtl m <= 64;
  wf_addrs : Forall (fun a => length a = 32%nat) (m_addrs m);
  wf_blockhash : length (m_blockhash m) = 32%nat;
  wf_instr_cnt : len (m_instrs m) <= 64;
  wf_instrs : Forall (wf_instr m) (m_instrs m);
  wf_bytes : Forall is_byte (ser m);
  wf_mtu : len (ser m) <= mtu m;
}.
