(* ===== verification/TxnLegacy.v ===== *)
(** * The parser of legacy and version 0 transactions

    The specification of each step of [parse_legacy_v0], put together by the rules of
    TxnRuns: the step accepts exactly the bytes of its part of the grammar. *)
From S2P Require Import Prelude Txn TxnRuns TxnCu16 TxnGrammar.

(** Blocks of objects of a fixed size *)

Lemma concat_length {A} (k : nat) (l : list (list A)) : Forall (fun x => length x = k) l -> length (concat l) = (length l * k)%nat.
Proof. induction 1 as [|x l Hx Hl IH]; cbn [concat length]; [done|]. rewrite length_app, Hx, IH. lia. Qed.

Lemma concat_split {A} (k n : nat) (bs : list A) : length bs = (n * k)%nat -> exists l, bs = concat l /\ length l = n /\ Forall (fun x => length x = k) l.
Proof.
  revert bs. induction n as [|n IH]; intros bs Hbs.
  - exists []. cbn. destruct bs; [done|discriminate Hbs].
  - destruct (IH (drop k bs)) as (l & El & Hl & HF); [rewrite length_drop; lia|]. exists (take k bs :: l). cbn [concat length].
    rewrite <- El, take_drop. split; [done|]. split; [lia|]. constructor; [rewrite length_take; lia|done].
Qed.

(** [pl = pre ++ suf] for a later position, from the equations of the steps before. *)
Ltac spl := solve [subst; match goal with E : pl _ _ = _ |- _ => rewrite E end; by rewrite <- ?app_assoc].
Ltac side := first [done | lia | spl | solve [unfold MIN_INSTR_SZ, MIN_ADDR_LUT_SIZE, FD_TXN_ACCT_ADDR_SZ, FD_TXN_BLOCKHASH_SZ in *; lia]].

(** The next value and the bytes it takes, for the step of a sequence. *)
Ltac chunk v b := exists v, b; do 2 eexists; split; [first [reflexivity|symmetry; apply app_nil_r]|]; split; [first [eassumption|reflexivity]|].

Lemma ushort_small x : 0 <= x < 65536 -> ushort x = x.
Proof. apply Z.mod_small. Qed.

Lemma uchar_small x : 0 <= x < 256 -> uchar x = x.
Proof. apply Z.mod_small. Qed.

Lemma length_1 (l : list Z) : len l = 1 -> exists b, l = [b].
Proof. destruct l as [|b [|c l]]; cbn [length]; intros H; [lia|eauto|lia]. Qed.

Lemma le_load_1 b (l : list Z) : le_load (take 1 (drop (Z.to_nat 0) ([b] ++ l))) = b.
Proof. change (b + 256 * 0 = b). lia. Qed.

Lemma field_blocks k n (b : list Z) : 0 <= n -> len b = Z.of_nat k * n -> exists l, b = concat l /\ len l = n /\ Forall (fun x => length x = k) l.
Proof.
  intros Hn Hb. destruct (concat_split k (Z.to_nat n) b) as (l & El & Hl & HF); [nia|]. exists l. split; [done|]. split; [lia|done].
Qed.

Lemma blocks_len (k : nat) (l : list (list Z)) : Forall (fun x => length x = k) l -> len (concat l) = Z.of_nat k * len l.
Proof. intros H. rewrite (concat_length k l H). lia. Qed.

Lemma mul_small a b : 0 <= a <= 64 -> 0 <= b <= 65536 -> a *w b = a * b.
Proof. intros Ha Hb. apply u64_small. unfold is_u64, ULONG_MAX. nia. Qed.

Definition lut_ok (naddr : Z) (x : lut_m) : Prop :=
  length (lm_addr x) = 32%nat /\ 1 <= len (lm_writable x) + len (lm_readonly x) /\ len (lm_writable x) <= 64 - naddr /\ len (lm_readonly x) <= 64 - naddr.

Lemma ser_lut_len naddr x : lut_ok naddr x -> 0 <= naddr -> 35 <= len (ser_lut x).
Proof.
  intros (Ha & Hwr & Hw & Hr) Hn. unfold ser_lut. rewrite !length_app, Ha, !cu16_enc_ok by lia.
  pose proof (cu16_enc_length (len (lm_writable x))). pose proof (cu16_enc_length (len (lm_readonly x))). lia.
Qed.

(** At least the bytes that come before table [j]: a signature, the header, the address of
    the fee payer and of a program if there is an instruction, the block hash. *)
Definition lut_pos (ni j i : Z) : Prop := 0 <= j /\ 0 <= ni <= 64 /\ (167 + 3 * ni + 35 * j <= i \/ (ni = 0 /\ 135 + 35 * j <= i)).

Definition wsum (xs : list lut_m) : Z := lsum (fun x => len (lm_writable x)) xs.
Definition asum (xs : list lut_m) : Z := lsum (fun x => len (lm_writable x) + len (lm_readonly x)) xs.

Lemma luts_len naddr xs : 0 <= naddr -> Forall (lut_ok naddr) xs -> 35 * len xs <= len (concat (ser_lut <$> xs)).
Proof.
  intros Hn. induction 1 as [|x xs Hx Hxs IH]; [cbn; lia|]. rewrite fmap_cons. cbn [concat length]. rewrite length_app.
  pose proof (ser_lut_len naddr x Hx Hn). lia.
Qed.

Record header_m := mk_hm { h_v0 : bool; h_sigs : list (list Z); h_ros : Z; h_rou : Z; h_addrs : list (list Z); h_bh : list Z; h_ni : Z }.

Definition h_version (h : header_m) : list Z := if h_v0 h then [0x80] else [].

Definition ser_header (h : header_m) : list Z :=
  [len (h_sigs h)] ++ concat (h_sigs h) ++ (h_version h ++ [len (h_sigs h)]) ++ [h_ros h] ++ [h_rou h]
  ++ fd_cu16_enc (len (h_addrs h)) ++ concat (h_addrs h) ++ h_bh h ++ fd_cu16_enc (h_ni h).

Record header_ok (h : header_m) : Prop := mk_header_ok {
  ho_nsig : 1 <= len (h_sigs h) <= 12;
  ho_sigs : Forall (fun x => length x = 64%nat) (h_sigs h);
  ho_ros : 0 <= h_ros h < len (h_sigs h);
  ho_rou : 0 <= h_rou h;
  ho_naddr : len (h_sigs h) + h_rou h <= len (h_addrs h) <= 64;
  ho_addrs : Forall (fun x => length x = 32%nat) (h_addrs h);
  ho_bh : length (h_bh h) = 32%nat;
  ho_ni : 0 <= h_ni h <= 64;
  ho_prog : 0 < h_ni h -> 1 < len (h_addrs h);
}.

Definition h_acct_off (h : header_m) : Z := 1 + 64 * len (h_sigs h) + len (h_version h) + 3 + len (fd_cu16_enc (len (h_addrs h))).

Definition header_of (h : header_m) : Z * Z * Z * Z * Z * Z * Z * Z * Z * Z :=
  (if h_v0 h then FD_TXN_V0 else FD_TXN_VLEGACY, len (h_sigs h), 1, 1 + 64 * len (h_sigs h), h_ros h, h_rou h,
   len (h_addrs h), h_acct_off h, h_acct_off h + 32 * len (h_addrs h), h_ni h).

Lemma foldl_max_lt l b : forall a, foldl Z.max a l < b <-> a < b /\ Forall (fun x => x < b) l.
Proof. induction l as [|x l IH]; intros a; cbn [foldl]; [naive_solver|]. rewrite IH, Forall_cons, Z.max_lub_lt_iff. tauto. Qed.

Lemma ser_instr_len x : 3 <= len (ser_instr x).
Proof. unfold ser_instr. rewrite !length_app. unfold fd_cu16_enc. cbn [length app]. lia. Qed.

Lemma instrs_len xs : 3 * len xs <= len (concat (ser_instr <$> xs)).
Proof. induction xs as [|x xs IH]; [cbn; lia|]. rewrite fmap_cons. cbn [concat length]. rewrite length_app. pose proof (ser_instr_len x). lia. Qed.

Lemma cu16_len_pos v : 1 <= len (fd_cu16_enc v).
Proof. unfold fd_cu16_enc. rewrite length_app. cbn [length]. lia. Qed.

Lemma header_len h : header_ok h -> 135 <= len (ser_header h) + 1 /\ (0 < h_ni h -> 167 <= len (ser_header h) + 1).
Proof.
  intros []. unfold ser_header. rewrite !length_app. cbn [length]. pose proof (blocks_len 64 _ ho_sigs0). pose proof (blocks_len 32 _ ho_addrs0).
  pose proof (cu16_len_pos (len (h_addrs h))). pose proof (cu16_len_pos (h_ni h)). rewrite ho_bh0. lia.
Qed.

Lemma asum_bounds naddr xs : 0 <= naddr -> Forall (lut_ok naddr) xs -> 0 <= wsum xs <= asum xs /\ asum xs <= 128 * len xs /\ len xs <= asum xs.
Proof.
  intros Hn. unfold wsum, asum, lsum. induction 1 as [|x xs Hx Hxs IH]; cbn [foldr length]; [lia|]. destruct Hx as (_ & ? & ? & ?). lia.
Qed.

Definition msg_of (h : header_m) (instrs : list instr_m) (luts : list lut_m) : message :=
  mk_msg (if h_v0 h then V0 luts else Legacy) (h_sigs h) (h_ros h) (h_rou h) (h_addrs h) (h_bh h) instrs.

Lemma ser_msg_of h instrs luts : h_ni h = len instrs ->
  ser (msg_of h instrs luts) = ser_header h ++ concat (ser_instr <$> instrs) ++ (if h_v0 h then ser_tables luts else []).
Proof.
  intros Hni. unfold ser, is_v1, ser_message, msg_of, ser_header, h_version. cbn [m_kind m_sigs m_ro_signed m_ro_unsigned m_addrs m_blockhash m_instrs].
  rewrite Hni. destruct (h_v0 h); cbn [app]; rewrite <- ?app_assoc; cbn [app]; rewrite <- ?app_assoc; cbn [app]. all: done.
Qed.

Lemma luts_msg_of h instrs luts : (h_v0 h = false -> luts = []) -> m_luts (msg_of h instrs luts) = luts.
Proof. intros Hl. unfold m_luts, msg_of. cbn [m_kind]. destruct (h_v0 h); [done|]. by rewrite Hl. Qed.

Lemma header_bytes h : len (ser_header h) = h_acct_off h + len (concat (h_addrs h)) + len (h_bh h) + len (fd_cu16_enc (h_ni h)) + (len (concat (h_sigs h)) - 64 * len (h_sigs h)).
Proof. unfold ser_header, h_acct_off. rewrite !length_app. cbn [length]. lia. Qed.

Lemma describe_msg_of h instrs luts : header_ok h -> h_ni h = len instrs -> (h_v0 h = false -> luts = []) ->
  describe (msg_of h instrs luts) =
  mk_txn (if h_v0 h then FD_TXN_V0 else FD_TXN_VLEGACY) (len (h_sigs h)) 1 (1 + 64 * len (h_sigs h)) (h_ros h) (h_rou h)
    (len (h_addrs h)) (h_acct_off h) (h_acct_off h + 32 * len (h_addrs h)) (len luts) (wsum luts) (asum luts) 0 0 (h_ni h)
    (layout (fun x => len (ser_instr x)) describe_instr (len (ser_header h)) instrs)
    (layout (fun x => len (ser_lut x)) describe_lut (len (ser_header h) + len (concat (ser_instr <$> instrs)) + len (fd_cu16_enc (len luts))) luts).
Proof.
  intros Hok Hni Hl. rewrite header_bytes, (blocks_len 64 _ (ho_sigs h Hok)), (blocks_len 32 _ (ho_addrs h Hok)), (ho_bh h Hok).
  assert (describe (msg_of h instrs luts) = describe_legacy (if h_v0 h then FD_TXN_V0 else FD_TXN_VLEGACY) (msg_of h instrs luts)) as ->
    by (unfold describe, msg_of; cbn [m_kind]; by destruct (h_v0 h)).
  unfold describe_legacy, m_writable, m_adtl. rewrite (luts_msg_of h instrs luts Hl). unfold h_acct_off, h_version, msg_of. cbn [m_kind m_sigs m_ro_signed m_ro_unsigned m_addrs m_blockhash m_instrs].
  rewrite <- Hni. destruct (h_v0 h); (f_equal; try done; try (cbn; lia)); f_equal; cbn; lia.
Qed.

(** What the grammar asks of the parts of a legacy or version 0 transaction. *)
Lemma wf_msg_of h instrs luts : header_ok h -> h_ni h = len instrs -> (h_v0 h = false -> luts = []) ->
  Forall (fun x => 0 < im_program x < len (h_addrs h) /\ len (im_accts x) <= 255) instrs -> Forall (lut_ok (len (h_addrs h))) luts ->
  len (h_addrs h) + asum luts <= 64 -> Forall (fun a => a < len (h_addrs h) + asum luts) (concat (im_accts <$> instrs)) ->
  Forall is_byte (ser (msg_of h instrs luts)) -> len (ser (msg_of h instrs luts)) <= 1232 -> wf (msg_of h instrs luts).
Proof.
  intros Hok Hni Hl Hi Hlu Hsum Hacc HB Hlen. destruct Hok.
  assert (m_adtl (msg_of h instrs luts) = asum luts) as Ea by (unfold m_adtl; by rewrite luts_msg_of).
  split; [..|done|]; unfold wf_kind, mtu, is_v1, msg_of in *; rewrite ?Ea; cbn [m_kind m_sigs m_ro_signed m_ro_unsigned m_addrs m_blockhash m_instrs] in *; try (done || lia).
  - destruct (h_v0 h); [|done]. eapply Forall_impl; [exact Hlu|]. intros x (? & ? & _). done.
  - rewrite Forall_forall in Hi. rewrite Forall_forall in Hacc. apply Forall_forall. intros x Hx. unfold wf_instr. rewrite Ea. cbn [m_addrs]. destruct (Hi x Hx) as [H1 H2]. split; [done|]. split; [done|].
    apply Forall_forall. intros a Ha. apply Hacc. apply list_elem_of_In, in_concat. exists (im_accts x). split; [|by apply list_elem_of_In].
    by apply list_elem_of_In, list_elem_of_fmap_2.
  - destruct (h_v0 h); by unfold FD_TXN_MTU_V0.
Qed.

Lemma wf_legacy_inv m : wf m -> is_v1 m = false -> exists h luts, m = msg_of h (m_instrs m) luts /\ header_ok h /\ h_ni h = len (m_instrs m) /\
  (h_v0 h = false -> luts = []) /\ Forall (fun x => 0 < im_program x < len (h_addrs h) /\ len (im_accts x) <= 255) (m_instrs m) /\
  Forall (lut_ok (len (h_addrs h))) luts /\ len (h_addrs h) + asum luts <= 64 /\ Forall (fun a => a < len (h_addrs h) + asum luts) (concat (im_accts <$> m_instrs m)).
Proof.
  intros Hwf Hv. set (h := mk_hm (match m_kind m with V0 _ => true | _ => false end) (m_sigs m) (m_ro_signed m) (m_ro_unsigned m) (m_addrs m) (m_blockhash m) (len (m_instrs m))).
  exists h, (m_luts m). assert (m = msg_of h (m_instrs m) (m_luts m)) as Em.
  { unfold msg_of, m_luts, is_v1, h in *. cbn. destruct m as [[]]; done. }
  assert (Forall is_byte (ser_header h)) as HB.
  { pose proof (wf_bytes m Hwf) as H. rewrite Em, ser_msg_of in H by done. by apply Forall_app in H as [? _]. }
  assert (0 <= m_ro_signed m /\ 0 <= m_ro_unsigned m) as [Hr1 Hr2].
  { unfold ser_header in HB. rewrite !Forall_app, !Forall_singleton in HB. unfold is_byte in HB. cbn in HB. lia. }
  assert (0 <= asum (m_luts m)) as Ha0 by (unfold asum; apply lsum_nonneg; intros; lia).
  pose proof (wf_acct_cnt m Hwf) as Hac. change (m_adtl m) with (asum (m_luts m)) in Hac. pose proof (wf_instrs m Hwf) as Hin.
  split; [done|]. split; [|split; [done|split; [|split; [|split; [|split; [done|]]]]]].
  - destruct Hwf. split; cbn; try (done || lia). destruct (m_instrs m) as [|x xs]; [cbn; lia|]. intros _. apply Forall_cons in Hin as [[? _] _]. lia.
  - unfold h, m_luts. cbn. by destruct (m_kind m).
  - eapply Forall_impl; [exact Hin|]. intros x (? & ? & _). done.
  - assert (Forall (fun x => length (lm_addr x) = 32%nat /\ 1 <= len (lm_writable x) + len (lm_readonly x)) (m_luts m)) as Hl.
    { pose proof (wf_kind_ok m Hwf) as Hk. unfold wf_kind, m_luts in *. by destruct (m_kind m). }
    rewrite Forall_forall in Hl |- *. intros x Hx. destruct (Hl x Hx) as [H1 H2]. assert (len (lm_writable x) + len (lm_readonly x) <= asum (m_luts m)).
    { clear -Hx. unfold asum, lsum. induction (m_luts m) as [|y ys IH]; [by apply elem_of_nil in Hx|]. cbn [foldr].
      assert (0 <= foldr (fun a acc => len (lm_writable a) + len (lm_readonly a) + acc) 0 ys) by (apply (lsum_nonneg (fun a => len (lm_writable a) + len (lm_readonly a))); intros; lia).
      apply elem_of_cons in Hx as [->|Hx]; [lia|]. specialize (IH Hx). lia. }
    unfold lut_ok. cbn. lia.
  - apply Forall_concat, Forall_fmap. eapply Forall_impl; [exact Hin|]. intros x (_ & _ & Hx). exact Hx.
Qed.

Lemma sums_small naddr xs : 0 <= naddr <= 64 -> Forall (lut_ok naddr) xs -> len xs <= 127 -> naddr +w asum xs = naddr + asum xs.
Proof. intros Hn Hxs Hl. pose proof (asum_bounds naddr xs ltac:(lia) Hxs). apply u64_add_small. unfold is_u64, ULONG_MAX. lia. Qed.

Lemma casts_small naddr xs : 0 <= naddr -> Forall (lut_ok naddr) xs -> naddr + asum xs <= 64 -> uchar (len xs) = len xs /\ uchar (wsum xs) = wsum xs /\ uchar (asum xs) = asum xs.
Proof. intros Hn Hxs Hs. pose proof (asum_bounds naddr xs Hn Hxs). rewrite !uchar_small by lia. done. Qed.

Lemma offsets_small h : header_ok h -> len (ser_header h) <= 1232 ->
  ushort 1 = 1 /\ ushort (1 + 64 * len (h_sigs h)) = 1 + 64 * len (h_sigs h) /\ ushort (h_acct_off h) = h_acct_off h /\
  ushort (h_acct_off h + 32 * len (h_addrs h)) = h_acct_off h + 32 * len (h_addrs h).
Proof.
  intros Hok Hl. pose proof (header_bytes h) as Hb. rewrite (blocks_len 64 _ (ho_sigs h Hok)), (blocks_len 32 _ (ho_addrs h Hok)) in Hb.
  pose proof (ho_nsig h Hok). unfold h_acct_off in *. rewrite !ushort_small by lia. done.
Qed.

Section Legacy.
  Context (payload : list Z) (payload_sz original_payload_sz : Z) (payload_sz_opt : bool).
  Context (Hsz : 0 <= payload_sz <= len payload) (Hmtu : payload_sz <= 1232) (Hbytes : Forall is_byte payload).

Notation runs := (runs_at payload payload_sz).
Notation PL := (pl payload payload_sz).

Let Hmtu' : payload_sz <= 4096.
Proof. lia. Qed.

Lemma runs_max_accts n : forall pre suf mx k, PL = pre ++ suf -> 0 <= k -> k + Z.of_nat n <= len suf ->
  runs pre suf (max_accts payload mx k n) (fun y bs => bs = [] /\ y = foldl Z.max mx (take n (drop (Z.to_nat k) suf))).
Proof using Hsz Hmtu'.
  induction n as [|n IH]; intros pre suf mx k E Hk Hn; cbn [max_accts].
  - by apply runs_ret.
  - eapply runs_val; [apply runs_peek; side|]. eapply runs_iff; [apply IH; side|].
    intros y bs rest _. cbn beta. replace (Z.to_nat (k + 1)) with (S (Z.to_nat k)) by lia.
    destruct (lookup_lt_is_Some_2 suf (Z.to_nat k)) as [b Hb]; [lia|]. rewrite (drop_S _ _ _ Hb). cbn [take foldl].
    unfold fd_uchar_max. rewrite take_0. cbn [le_load]. by replace (b + 256 * 0) with b by lia.
Qed.

Lemma runs_instr pre suf naddr mx : PL = pre ++ suf ->
  runs pre suf (parse_instr payload payload_sz naddr mx) (fun y bs => exists x,
    y = (describe_instr (len pre) x, foldl Z.max mx (im_accts x)) /\ bs = ser_instr x /\ 0 < im_program x < naddr /\ len (im_accts x) <= 255).
Proof using Hsz Hmtu' Hbytes.
  intros E. eapply runs_iff.
  - eapply runs_then; [by apply runs_left|]. intros Hleft.
    eapply runs_val; [apply runs_peek; side|]. eapply runs_bind; [apply runs_advance; side|]. intros u b1 r1 E1 Hb1.
    eapply runs_bind; [apply runs_cu16; side|]. intros acct_cnt b2 r2 E2 [Hac Eb2].
    eapply runs_then; [apply runs_check; side|]. intros Hmax. eapply runs_then; [apply runs_left; side|]. intros Hleft2.
    eapply runs_val; [apply runs_here; side|]. eapply runs_val; [apply runs_max_accts; side|].
    eapply runs_bind; [apply runs_advance; side|]. intros u' b3 r3 E3 Hb3.
    eapply runs_bind; [apply runs_cu16; side|]. intros data_sz b4 r4 E4 [Hdc Eb4].
    eapply runs_bind; [apply runs_field; side|]. intros data_off b5 r5 E5 [Eoff Hb5].
    eapply runs_then; [apply runs_check; side|]. intros Hpid. apply runs_ret; side.
  - intros y bs rest Es. split.
    + intros (Hleft & u & b1 & ? & r1 & -> & E1 & Hb1 & acct_cnt & ? & ? & r2 & -> & E2 & [Hac ->] & Hmax & Hleft2 & u' & b3 & ? & r3 & -> & E3 & Hb3 & data_sz & ? & ? & r4 & -> & E4 & [Hdc ->] & data_off & b5 & ? & r5 & -> & E5 & [-> Hb5] & Hpid & -> & ->).
      destruct (length_1 b1 Hb1) as [p ->]. pose proof (split_bounds _ _ Hsz pre suf E) as Hlen. rewrite E1 in *. rewrite E2, E3, E4, E5 in *.
      rewrite !length_app in Hlen. rewrite le_load_1 in *. apply andb_true_iff in Hpid as [Hp1 Hp2]. boolp. unfold FD_TXN_INSTR_ACCT_MAX in Hmax.
      exists (mk_im p b3 b5). cbn [im_program im_accts im_data]. unfold ser_instr, describe_instr. cbn [im_program im_accts im_data].
      rewrite Hb3, Hb5, app_nil_r. split; [|split; [done|lia]]. rewrite !length_app, !ushort_small by (cbn [length] in *; lia).
      change (drop (Z.to_nat 0) ?l) with l. rewrite take_app_length' by lia. f_equal. f_equal; cbn [length]; lia.
    + intros (x & -> & -> & Hpid & Hmax). pose proof (split_bounds _ _ Hsz pre suf E) as Hlen. unfold ser_instr in Es. rewrite <- !app_assoc in Es.
      rewrite Es in Hlen. rewrite !length_app in Hlen. pose proof (cu16_enc_length (len (im_accts x))). pose proof (cu16_enc_length (len (im_data x))).
      split; [rewrite Es, !length_app, !cu16_enc_ok by lia; cbn [length]; unfold MIN_INSTR_SZ; lia|].
      chunk tt [im_program x]. split; [done|]. chunk (len (im_accts x)) (fd_cu16_enc (len (im_accts x))). split; [split; [lia|done]|].
      unfold FD_TXN_INSTR_ACCT_MAX. split; [by apply Z.leb_le|]. split; [rewrite length_app; lia|].
      chunk tt (im_accts x). split; [done|]. chunk (len (im_data x)) (fd_cu16_enc (len (im_data x))). split; [split; [lia|done]|].
      chunk (len ((((pre ++ [im_program x]) ++ fd_cu16_enc (len (im_accts x))) ++ im_accts x) ++ fd_cu16_enc (len (im_data x)))) (im_data x). split; [done|].
      rewrite Es, le_load_1. split; [apply andb_true_iff; split; apply Z.ltb_lt; lia|]. split; [done|]. unfold describe_instr.
      change (drop (Z.to_nat 0) ?l) with l. rewrite take_app_length' by lia. rewrite !length_app, !ushort_small by (cbn [length]; lia). f_equal. f_equal; cbn [length]; lia.
Qed.

Lemma runs_room pre suf a b : PL = pre ++ suf -> 0 <= a <= 64 -> 0 <= b -> 22 + 10 * a + 8 * b <= 854 ->
  runs pre suf (room a b) (fun u bs => bs = [] /\ u = tt).
Proof.
  intros E Ha Hb Hr. apply runs_lift; [done|]. unfold fd_txn_footprint, u64_mul. rewrite !u64_small, !u64_add_small by (unfold is_u64, ULONG_MAX; rewrite ?u64_add_small; unfold is_u64, ULONG_MAX; lia).
  unfold FD_TXN_MAX_SZ. by rewrite (proj2 (Z.leb_le _ _)) by lia.
Qed.

Lemma runs_instrs naddr n : forall pre suf mx j, PL = pre ++ suf -> 0 <= j -> j + Z.of_nat n <= 64 ->
  runs pre suf (parse_instrs payload payload_sz naddr mx j n) (fun y bs => exists xs,
    y = (layout (fun x => len (ser_instr x)) describe_instr (len pre) xs, foldl Z.max mx (concat (im_accts <$> xs))) /\
    length xs = n /\ bs = concat (ser_instr <$> xs) /\ Forall (fun x => 0 < im_program x < naddr /\ len (im_accts x) <= 255) xs).
Proof using Hsz Hmtu' Hbytes.
  induction n as [|n IH]; intros pre suf mx j E Hj Hn; cbn [parse_instrs].
  - eapply runs_iff; [by apply runs_ret|]. intros y bs rest _. split; [intros [-> ->]; by exists []|].
    intros (xs & -> & Hl & -> & _). by destruct xs.
  - eapply runs_iff.
    + eapply runs_bind_of; [apply runs_instr; side|]. intros x b1 r1 E1 Hx. cbn beta iota.
      eapply runs_val; [apply runs_room; side|].
      eapply runs_bind_of; [apply IH; side|]. intros xs b2 r2 E2 Hxs. cbn beta iota. apply runs_ret; side.
    + intros y bs rest Es. split.
      * intros (x & b1 & ? & r1 & -> & E1 & (-> & Hx) & xs & b2 & ? & r2 & -> & E2 & (Hl & -> & Hxs) & -> & ->). exists (x :: xs).
        rewrite !fmap_cons. cbn [concat layout length]. rewrite foldl_app, length_app, Nat2Z.inj_add, app_nil_r. split; [done|]. split; [lia|]. split; [done|]. by constructor.
      * intros (xs & -> & Hl & -> & Hxs). destruct xs as [|x xs]; [discriminate Hl|]. apply Forall_cons in Hxs as [Hx Hxs]. rewrite !fmap_cons in *. cbn [concat layout length] in *.
        rewrite <- app_assoc in Es. chunk x (ser_instr x). split; [done|]. chunk xs (concat (ser_instr <$> xs)). split; [split; [lia|done]|].
        split; [done|]. by rewrite foldl_app, length_app, Nat2Z.inj_add.
Qed.

Lemma runs_lut pre suf naddr : PL = pre ++ suf -> 0 <= naddr <= 64 ->
  runs pre suf (parse_lut payload payload_sz naddr) (fun y bs => exists x,
    y = (describe_lut (len pre) x, len (lm_writable x), len (lm_readonly x)) /\ bs = ser_lut x /\ lut_ok naddr x).
Proof using Hsz Hmtu' Hbytes.
  intros E Hna. eapply runs_iff.
  - eapply runs_bind; [apply runs_field; side|]. intros addr_off b1 r1 E1 [Eo1 Hb1].
    eapply runs_bind; [apply runs_cu16; side|]. intros writable_cnt b2 r2 E2 [Hw Eb2].
    eapply runs_bind; [apply runs_field; side|]. intros writable_off b3 r3 E3 [Eo3 Hb3].
    eapply runs_bind; [apply runs_cu16; side|]. intros readonly_cnt b4 r4 E4 [Hr Eb4].
    eapply runs_bind; [apply runs_field; side|]. intros readonly_off b5 r5 E5 [Eo5 Hb5].
    eapply runs_then; [apply runs_check; side|]. intros C1. eapply runs_then; [apply runs_check; side|]. intros C2.
    eapply runs_then; [apply runs_check; side|]. intros C3. apply runs_ret; side.
  - unfold FD_TXN_ACCT_ADDR_MAX. rewrite u64_sub_small by (unfold is_u64, ULONG_MAX; lia). intros y bs rest Es. split.
    + intros (? & b1 & ? & r1 & -> & E1 & [-> Hb1] & wc & ? & ? & r2 & -> & E2 & [Hw ->] & ? & b3 & ? & r3 & -> & E3 & [-> Hb3] & rc & ? & ? & r4 & -> & E4 & [Hr ->] & ? & b5 & ? & r5 & -> & E5 & [-> Hb5] & C1 & C2 & C3 & -> & ->).
      boolp. pose proof (split_bounds _ _ Hsz pre suf E) as Hlen. rewrite E1, E2, E3, E4, E5, !length_app in Hlen. unfold FD_TXN_ACCT_ADDR_SZ in Hb1.
      exists (mk_lm b1 b3 b5). unfold lut_ok, ser_lut, describe_lut. cbn [lm_addr lm_writable lm_readonly]. rewrite Hb3, Hb5, app_nil_r. split; [|split; [done|lia]].
      rewrite !length_app, !uchar_small, !ushort_small by lia. do 2 f_equal. f_equal; lia.
    + intros (x & -> & -> & Ha & Hwr & Hw & Hr). pose proof (split_bounds _ _ Hsz pre suf E) as Hlen. unfold ser_lut in Es. rewrite <- !app_assoc in Es.
      rewrite Es in Hlen. rewrite !length_app in Hlen.
      chunk (len pre) (lm_addr x). split; [split; [done|rewrite Ha; done]|]. chunk (len (lm_writable x)) (fd_cu16_enc (len (lm_writable x))). split; [split; [lia|done]|].
      eexists; exists (lm_writable x); do 2 eexists. split; [reflexivity|]. split; [reflexivity|]. split; [done|].
      chunk (len (lm_readonly x)) (fd_cu16_enc (len (lm_readonly x))). split; [split; [lia|done]|].
      eexists; exists (lm_readonly x); do 2 eexists. split; [symmetry; apply app_nil_r|]. split; [reflexivity|]. split; [done|].
      split; [by apply Z.leb_le|]. split; [by apply Z.leb_le|]. split; [by apply Z.leb_le|]. split; [done|]. unfold describe_lut.
      rewrite !length_app, !uchar_small, !ushort_small by lia. do 2 f_equal. f_equal; lia.
Qed.

Lemma runs_luts naddr ni n : 0 <= naddr <= 64 -> forall pre suf j aw ac, PL = pre ++ suf -> lut_pos ni j (len pre) -> 0 <= aw <= 64 * j -> 0 <= ac <= 128 * j ->
  runs pre suf (parse_luts payload payload_sz naddr ni j aw ac n) (fun y bs => exists xs,
    y = (layout (fun x => len (ser_lut x)) describe_lut (len pre) xs, aw + wsum xs, ac + asum xs) /\
    length xs = n /\ bs = concat (ser_lut <$> xs) /\ Forall (lut_ok naddr) xs).
Proof using Hsz Hmtu Hmtu' Hbytes.
  intros Hna. induction n as [|n IH]; intros pre suf j aw ac E Hj Haw Hac; cbn [parse_luts].
  - eapply runs_iff; [by apply runs_ret|]. intros y bs rest _. split.
    + intros [-> ->]. exists []. cbn. by rewrite !Z.add_0_r.
    + intros (xs & -> & Hl & -> & _). destruct xs; [|done]. cbn. by rewrite !Z.add_0_r.
  - assert (j < 40) as Hj40. { pose proof (split_bounds _ _ Hsz pre suf E). unfold lut_pos in Hj. lia. }
    assert (forall x, lut_ok naddr x -> aw +w len (lm_writable x) = aw + len (lm_writable x) /\ ac +w (len (lm_writable x) +w len (lm_readonly x)) = ac + (len (lm_writable x) + len (lm_readonly x))) as Hadd.
    { intros x (? & ? & ? & ?). rewrite (u64_add_small (len _) (len _)), !u64_add_small by (unfold is_u64, ULONG_MAX; lia). done. }
    eapply runs_iff.
    + eapply runs_bind_of; [apply runs_lut; side|]. intros x b1 r1 E1 [Eb1 Hx]. cbn beta iota. destruct (Hadd x Hx) as [-> ->].
      pose proof (ser_lut_len naddr x Hx ltac:(lia)) as Hl. pose proof (split_bounds _ _ Hsz pre suf E) as Hlen. rewrite E1, length_app, Eb1 in Hlen.
      eapply runs_val; [unfold lut_pos in Hj; apply runs_room; side|].
      eapply runs_bind_of; [apply IH; [side|unfold lut_pos in *; rewrite length_app, Eb1; lia|unfold lut_ok in Hx; lia..]|].
      intros xs b2 r2 E2 Hxs. cbn beta iota. apply runs_ret; side.
    + intros y bs rest Es. split.
      * intros (x & b1 & ? & r1 & -> & E1 & (-> & Hx) & xs & b2 & ? & r2 & -> & E2 & (Hl & -> & Hxs) & -> & ->). exists (x :: xs).
        rewrite !fmap_cons. unfold wsum, asum, lsum. cbn [concat layout length foldr]. rewrite length_app, Nat2Z.inj_add, app_nil_r. split; [f_equal; [f_equal|]; lia|]. split; [lia|]. split; [done|]. by constructor.
      * intros (xs & -> & Hl & -> & Hxs). destruct xs as [|x xs]; [discriminate Hl|]. apply Forall_cons in Hxs as [Hx Hxs]. rewrite !fmap_cons in *. unfold wsum, asum, lsum. cbn [concat layout length foldr] in *.
        rewrite <- app_assoc in Es. chunk x (ser_lut x). split; [done|]. chunk xs (concat (ser_lut <$> xs)). split; [split; [lia|done]|].
        split; [done|]. rewrite length_app, Nat2Z.inj_add. f_equal; [f_equal|]; unfold wsum, asum, lsum; lia.
Qed.

Lemma runs_tables pre suf naddr ni : PL = pre ++ suf -> 0 <= naddr <= 64 -> lut_pos ni 0 (len pre + 1) ->
  runs pre suf (parse_tables payload payload_sz FD_TXN_V0 naddr ni) (fun y bs => exists xs,
    y = (len xs, layout (fun x => len (ser_lut x)) describe_lut (len pre + len (fd_cu16_enc (len xs))) xs, wsum xs, asum xs) /\
    bs = ser_tables xs /\ len xs <= 127 /\ Forall (lut_ok naddr) xs).
Proof using Hsz Hmtu Hmtu' Hbytes.
  intros E Hna Hpos. pose proof (split_bounds _ _ Hsz pre suf E) as Hlen. unfold parse_tables, FD_TXN_V0, FD_TXN_ADDR_TABLE_LOOKUP_MAX. rewrite Z.eqb_refl. eapply runs_iff.
  - eapply runs_bind; [apply runs_cu16; side|]. intros cnt b1 r1 E1 [Hc Eb1]. eapply runs_then; [apply runs_check; side|]. intros C1.
    eapply runs_then; [apply runs_left; side|]. intros C2.
    eapply runs_bind_of; [apply runs_luts; [side|side| |lia|lia]|].
    { rewrite length_app, Eb1, cu16_enc_ok by done. pose proof (cu16_enc_length cnt). unfold lut_pos in *. lia. }
    intros xs b2 r2 E2 Hxs. cbn beta iota. apply runs_ret; side.
  - intros y bs rest Es. split.
    + intros (cnt & ? & ? & r1 & -> & E1 & [Hc ->] & C1 & C2 & xs & ? & ? & r2 & -> & E2 & (Hl & -> & Hxs) & -> & ->). boolp. exists xs.
      assert (len xs = cnt) as <- by lia. rewrite !length_app, app_nil_r, Nat2Z.inj_add, !Z.add_0_l. by repeat split.
    + intros (xs & -> & -> & Hl & Hxs). unfold ser_tables in Es. rewrite <- app_assoc in Es. chunk (len xs) (fd_cu16_enc (len xs)). split; [split; [lia|done]|].
      split; [by apply Z.leb_le|]. split.
      { unfold u64_mul. rewrite u64_small by (unfold is_u64, ULONG_MAX, MIN_ADDR_LUT_SIZE; lia). rewrite length_app. pose proof (luts_len naddr xs ltac:(lia) Hxs). unfold MIN_ADDR_LUT_SIZE. lia. }
      chunk xs (concat (ser_lut <$> xs)). split; [split; [lia|done]|]. split; [done|]. by rewrite length_app, Nat2Z.inj_add, !Z.add_0_l.
Qed.

Lemma runs_version pre suf nsig : PL = pre ++ suf -> 1 <= nsig <= 12 ->
  runs pre suf (parse_version payload payload_sz nsig) (fun y bs => exists v0 : bool,
    y = (if v0 then FD_TXN_V0 else FD_TXN_VLEGACY) /\ bs = (if v0 then [0x80] else []) ++ [nsig]).
Proof using Hsz Hmtu' Hbytes.
  intros E Hn. eapply runs_iff.
  - eapply (runs_bind _ _ _ _ _ _ _ (fun x b1 rest y b2 => (x = 0x80 /\ y = FD_TXN_V0 /\ b2 = [nsig]) \/ (x = nsig /\ y = FD_TXN_VLEGACY /\ b2 = []))); [apply runs_byte; side|].
    intros x b1 r1 E1 [Hx Eb1]. rewrite (Z.land_comm x), byte_high_not by done. destruct (x <? 128) eqn:Ex; boolp; cbn [negb].
    + eapply runs_iff.
      * eapply runs_then; [apply runs_check; side|]. intros C. apply runs_ret; side.
      * intros y bs rest _. cbn beta. rewrite Z.eqb_eq. naive_solver lia.
    + rewrite byte_low by (unfold is_byte in Hx; lia). eapply runs_iff.
      * eapply runs_then; [apply runs_check; side|]. intros C. eapply runs_then; [apply runs_left; side|]. intros C1.
        eapply runs_val; [apply runs_peek; side|]. eapply runs_then; [apply runs_check; side|]. intros C2.
        eapply runs_bind; [apply runs_advance; side|]. intros u b2 r2 E2 Hb2. apply runs_ret; side.
      * unfold FD_TXN_V0. intros y bs rest Er. cbn beta. split.
        -- intros (C & C1 & C2 & u & b2 & ? & r2 & -> & E2 & Hb2 & -> & ->). boolp. left. destruct (length_1 b2 Hb2) as [q ->]. rewrite E2, le_load_1 in C2. subst q. split; [lia|]. split; [lia|by rewrite app_nil_r].
        -- intros [(-> & -> & ->)|(-> & _)]; [|lia]. split; [done|]. rewrite Er. split; [cbn; lia|]. split; [rewrite le_load_1; by apply Z.eqb_eq|].
           exists tt, [nsig], [], rest. by repeat split.
  - intros y bs rest Es. cbn beta. split.
    + intros (x & b1 & b2 & r1 & -> & E1 & [Hx ->] & [(-> & -> & ->)|(-> & -> & ->)]); [by exists true|by exists false].
    + intros ([] & -> & ->).
      * exists 0x80, [0x80], [nsig], ([nsig] ++ rest). split; [done|]. split; [done|]. split; [split; [unfold is_byte; lia|done]|]. by left.
      * exists nsig, [nsig], [], rest. split; [done|]. split; [done|]. split; [split; [unfold is_byte; lia|done]|]. by right.
Qed.

(** ** The header *)

Lemma runs_header suf : PL = [] ++ suf ->
  runs [] suf (parse_header payload payload_sz) (fun y bs => exists h,
    y = header_of h /\ bs = ser_header h /\ header_ok h /\ 3 * h_ni h <= len suf - len bs).
Proof using Hsz Hmtu' Hbytes.
  intros E. unfold parse_header, FD_TXN_SIG_MAX, FD_TXN_SIGNATURE_SZ, FD_TXN_ACCT_ADDR_MAX, FD_TXN_ACCT_ADDR_SZ, FD_TXN_BLOCKHASH_SZ, FD_TXN_INSTR_MAX, MIN_INSTR_SZ. eapply runs_iff.
  - eapply runs_bind; [apply runs_byte; side|]. intros nsig b1 r1 E1 [Hn1 Eb1]. eapply runs_then; [apply runs_check; side|]. intros C1.
    apply andb_true_iff in C1 as [C1 C1']. apply Z.leb_le in C1, C1'. rewrite mul_small by lia.
    eapply runs_bind; [apply runs_field; side|]. intros soff b2 r2 E2 [Eo2 Hb2]. eapply runs_val; [apply runs_here; side|].
    eapply runs_bind_of; [apply runs_version; side|]. intros v0 b3 r3 E3 Eb3.
    eapply runs_bind; [apply runs_byte; side|]. intros ros b4 r4 E4 [Hn4 Eb4]. eapply runs_then; [apply runs_check; side|]. intros C4.
    eapply runs_bind; [apply runs_byte; side|]. intros rou b5 r5 E5 [Hn5 Eb5].
    eapply runs_bind; [apply runs_cu16; side|]. intros naddr b6 r6 E6 [Hn6 Eb6]. eapply runs_then; [apply runs_check; side|]. intros C6.
    apply andb_true_iff in C6 as [C6 C6']. apply Z.leb_le in C6, C6'. eapply runs_then; [apply runs_check; side|]. intros C7. rewrite mul_small by lia.
    eapply runs_bind; [apply runs_field; side|]. intros aoff b7 r7 E7 [Eo7 Hb7].
    eapply runs_bind; [apply runs_field; side|]. intros hoff b8 r8 E8 [Eo8 Hb8].
    eapply runs_bind; [apply runs_cu16; side|]. intros ni b9 r9 E9 [Hn9 Eb9]. eapply runs_then; [apply runs_check; side|]. intros C9.
    apply Z.leb_le in C9. rewrite mul_small by lia. eapply runs_then; [apply runs_left; side|]. intros C10.
    eapply runs_then; [apply runs_check; side|]. intros C11. apply runs_ret; side.
  - intros y bs rest Es. split.
    + intros (nsig & ? & ? & r1 & -> & E1 & [Hn1 ->] & C1 & soff & b2 & ? & r2 & -> & E2 & [-> Hb2] & v0 & ? & ? & r3 & -> & E3 & -> & ros & ? & ? & r4 & -> & E4 & [Hn4 ->] & C4
        & rou & ? & ? & r5 & -> & E5 & [Hn5 ->] & naddr & ? & ? & r6 & -> & E6 & [Hn6 ->] & C6 & C7 & aoff & b7 & ? & r7 & -> & E7 & [-> Hb7] & hoff & b8 & ? & r8 & -> & E8 & [-> Hb8]
        & ni & ? & ? & r9 & -> & E9 & [Hn9 ->] & C9 & C10 & C11 & -> & ->).
      apply andb_true_iff in C1 as [C1 C1'], C6 as [C6 C6']. apply Z.leb_le in C1, C1', C6, C6', C7, C9. apply Z.ltb_lt in C4, C11. unfold is_byte in *.
      destruct (field_blocks 64 nsig b2) as (sigs & -> & Hs & Hsigs); [lia..|]. destruct (field_blocks 32 naddr b7) as (addrs & -> & Ha & Haddrs); [lia..|].
      exists (mk_hm v0 sigs ros rou addrs b8 ni). split; [|split; [|split]].
      * unfold header_of, h_acct_off, h_version. cbn [h_v0 h_sigs h_ros h_rou h_addrs h_bh h_ni]. rewrite Hs, Ha, !length_app. cbn [length].
        repeat (apply f_equal2; [|first [done|lia]]). done.
      * unfold ser_header, h_version. cbn [h_v0 h_sigs h_ros h_rou h_addrs h_bh h_ni]. by rewrite Hs, Ha, app_nil_r.
      * split; cbn [h_v0 h_sigs h_ros h_rou h_addrs h_bh h_ni]; try (done || lia). intros Hni. rewrite (proj2 (Z.eqb_neq ni 0)) in C11 by lia. cbn in C11. lia.
      * cbn [h_ni]. rewrite E1, E2, E3, E4, E5, E6, E7, E8, E9, !length_app. cbn [length]. lia.
    + intros (h & -> & -> & [] & Hleft). unfold ser_header in Es. rewrite <- !app_assoc in Es. unfold is_byte. pose proof (blocks_len 64 _ ho_sigs0) as Ls. pose proof (blocks_len 32 _ ho_addrs0) as La.
      chunk (len (h_sigs h)) [len (h_sigs h)]. split; [split; [lia|done]|]. split; [apply andb_true_iff; split; apply Z.leb_le; lia|].
      eexists; exists (concat (h_sigs h)); do 2 eexists. split; [reflexivity|]. split; [reflexivity|]. split; [split; [reflexivity|lia]|].
      exists (h_v0 h), (h_version h ++ [len (h_sigs h)]); do 2 eexists. split; [reflexivity|]. split; [by rewrite <- app_assoc|]. split; [done|].
      chunk (h_ros h) [h_ros h]. split; [split; [lia|done]|]. split; [apply Z.ltb_lt; lia|]. chunk (h_rou h) [h_rou h]. split; [split; [lia|done]|].
      chunk (len (h_addrs h)) (fd_cu16_enc (len (h_addrs h))). split; [split; [lia|done]|]. split; [apply andb_true_iff; split; apply Z.leb_le; lia|]. split; [apply Z.leb_le; lia|].
      eexists; exists (concat (h_addrs h)); do 2 eexists. split; [reflexivity|]. split; [reflexivity|]. split; [split; [reflexivity|lia]|].
      eexists; exists (h_bh h); do 2 eexists. split; [reflexivity|]. split; [reflexivity|]. split; [split; [reflexivity|lia]|].
      chunk (h_ni h) (fd_cu16_enc (h_ni h)). split; [split; [lia|done]|]. split; [apply Z.leb_le; lia|].
      split; [rewrite Es in Hleft; unfold ser_header in Hleft; rewrite <- !app_assoc, !length_app in Hleft; lia|].
      split; [apply Z.ltb_lt; destruct (h_ni h =? 0) eqn:En; boolp; cbn; lia|]. split; [done|].
      unfold header_of, h_acct_off, h_version. rewrite !length_app. cbn [length]. repeat (apply f_equal2; [|first [done|lia]]). done.
Qed.

(** ** The whole transaction *)

Lemma runs_tables_of pre suf (v0 : bool) naddr ni : PL = pre ++ suf -> 0 <= naddr <= 64 -> lut_pos ni 0 (len pre + 1) ->
  runs pre suf (parse_tables payload payload_sz (if v0 then FD_TXN_V0 else FD_TXN_VLEGACY) naddr ni) (fun y bs => exists xs,
    y = (len xs, layout (fun x => len (ser_lut x)) describe_lut (len pre + len (fd_cu16_enc (len xs))) xs, wsum xs, asum xs) /\
    bs = (if v0 then ser_tables xs else []) /\ (v0 = false -> xs = []) /\ len xs <= 127 /\ Forall (lut_ok naddr) xs).
Proof using Hsz Hmtu Hmtu' Hbytes.
  intros E Hna Hpos. destruct v0.
  - eapply runs_iff; [by apply runs_tables|]. naive_solver.
  - eapply runs_iff; [by apply runs_ret|]. intros y bs rest _. split.
    + intros [-> ->]. by exists [].
    + intros (xs & -> & -> & Hxs & _). by rewrite (Hxs eq_refl).
Qed.

Lemma runs_legacy_v0 : runs [] PL (parse_legacy_v0 payload payload_sz original_payload_sz payload_sz_opt) (fun t bs => exists m,
    t = describe m /\ bs = ser m /\ is_v1 m = false /\ wf m /\ (payload_sz_opt = true \/ len bs = original_payload_sz)).
Proof using Hsz Hmtu Hmtu' Hbytes.
  assert (PL = [] ++ PL) as E by done. pose proof (split_bounds _ _ Hsz [] PL E) as Hlen. unfold parse_legacy_v0, FD_TXN_ACCT_ADDR_MAX. eapply runs_iff.
  - eapply runs_bind_of; [by apply runs_header|]. intros h b1 r1 E1 (Eb1 & Hok & Hleft). unfold header_of. cbn beta iota. pose proof (header_len h Hok) as Hhl.
    eapply runs_bind_of; [apply runs_instrs; [side|lia|pose proof (ho_ni h Hok); lia]|]. intros xs b2 r2 E2 (Hn & Eb2 & Hxs). cbn beta iota.
    eapply runs_bind_of; [apply runs_tables_of; [side|pose proof (ho_naddr h Hok); pose proof (ho_nsig h Hok); pose proof (ho_rou h Hok); lia|]|].
    { pose proof (instrs_len xs). pose proof (ho_ni h Hok). rewrite !length_app, Eb1, Eb2. unfold lut_pos. cbn [length]. lia. }
    intros luts b3 r3 E3 (Eb3 & Hl & Hc & Hlu). cbn beta iota. eapply runs_val; [apply runs_here; side|].
    eapply runs_then; [apply runs_check; side|]. intros C1. eapply runs_then; [apply runs_check; side|]. intros C2. eapply runs_then; [apply runs_check; side|]. intros C3. apply runs_ret; side.
  - intros t bs rest Es. split.
    + intros (h & ? & ? & r1 & -> & E1 & (-> & Hok & Hleft) & xs & ? & ? & r2 & -> & E2 & (Hn & -> & Hxs) & luts & ? & ? & r3 & -> & E3 & (-> & Hl & Hc & Hlu) & C1 & C2 & C3 & -> & ->).
      assert (h_ni h = len xs) as Hni by (pose proof (ho_ni h Hok); lia). pose proof (ser_msg_of h xs luts Hni) as Eser. rewrite app_nil_r, <- Eser in Es |- *.
      assert (0 <= len (h_addrs h) <= 64) as Hna by (pose proof (ho_naddr h Hok); lia). rewrite (sums_small _ _ Hna Hlu Hc) in C2, C3. apply Z.leb_le in C2. apply Z.ltb_lt, foldl_max_lt in C3 as [_ C3].
      exists (msg_of h xs luts). pose proof (split_bytes _ _ Hbytes [] PL E) as HB. rewrite Es in HB, Hlen. apply Forall_app in HB as [HB _]. rewrite length_app in Hlen. cbn [length] in Hlen.
      destruct (casts_small _ _ (proj1 Hna) Hlu C2) as (-> & -> & ->).
      split; [|split; [done|split; [unfold is_v1, msg_of; cbn; by destruct (h_v0 h)|split; [apply wf_msg_of; (done || lia)|]]]].
      * rewrite (describe_msg_of h xs luts Hok Hni Hl). cbn [app]. rewrite length_app, Nat2Z.inj_add. rewrite Eser, length_app in Hlen.
        by destruct (offsets_small h Hok ltac:(lia)) as (-> & -> & -> & ->).
      * apply orb_true_iff in C1 as [->|C1]; [by left|right]. apply Z.eqb_eq in C1. rewrite <- C1, Eser, !length_app. cbn [length]. lia.
    + intros (m & -> & -> & Hv & Hwf & Hopt). destruct (wf_legacy_inv m Hwf Hv) as (h & luts & Em & Hok & Hni & Hl & Hi & Hlu & Hsum & Hacc).
      set (xs := m_instrs m) in *. clearbody xs. subst m. pose proof (ser_msg_of h xs luts Hni) as Eser. pose proof (describe_msg_of h xs luts Hok Hni Hl) as Edesc.
      rewrite Eser in Es, Hopt |- *. rewrite Edesc. clear Eser Edesc. rewrite <- !app_assoc in Es. pose proof (instrs_len xs). rewrite Es, !length_app in Hlen.
      assert (0 <= len (h_addrs h) <= 64) as Hna by (pose proof (ho_naddr h Hok); pose proof (ho_nsig h Hok); pose proof (ho_rou h Hok); lia).
      pose proof (asum_bounds _ luts (proj1 Hna) Hlu) as Hab. destruct (casts_small _ _ (proj1 Hna) Hlu Hsum) as (Ec1 & Ec2 & Ec3). destruct (offsets_small h Hok ltac:(lia)) as (Eo1 & Eo2 & Eo3 & Eo4).
      chunk h (ser_header h). split; [split; [done|split; [done|rewrite Es, !length_app; lia]]|].
      chunk xs (concat (ser_instr <$> xs)). split; [split; [lia|done]|]. exists luts, (if h_v0 h then ser_tables luts else []); do 2 eexists. split; [symmetry; apply app_nil_r|]. split; [reflexivity|].
      split; [split; [done|split; [done|split; [lia|done]]]|]. rewrite (sums_small _ _ Hna Hlu ltac:(lia)), Ec1, Ec2, Ec3, Eo1, Eo2, Eo3, Eo4. cbn [app].
      split; [apply orb_true_iff; destruct Hopt as [->|Hopt]; [by left|right]; apply Z.eqb_eq; rewrite <- Hopt, !length_app; lia|].
      split; [by apply Z.leb_le|]. split; [apply Z.ltb_lt, foldl_max_lt; split; [pose proof (ho_naddr h Hok); pose proof (ho_nsig h Hok); pose proof (ho_rou h Hok); lia|done]|]. split; [done|]. by rewrite length_app, Nat2Z.inj_add.
Qed.
End Legacy.
