(* ===== verification/TxnV1.v ===== *)
(** * The parser of version 1 transactions

    As TxnLegacy for [parse_v1]: the header with the configuration mask, the two passes
    over the instructions, the signatures at the end. *)
From S2P Require Import Prelude Txn TxnRuns TxnCu16 TxnGrammar TxnLegacy.

(** ** The configuration *)

Definition bit (k : Z) (b : bool) : Z := if b then k else 0.

Lemma mask_bits mask : 0 <= mask -> Z.ldiff mask 0x1F = 0 -> Bool.eqb (Z.testbit mask 0) (Z.testbit mask 1) = true ->
  mask = bit 3 (Z.testbit mask 0) + bit 4 (Z.testbit mask 2) + bit 8 (Z.testbit mask 3) + bit 16 (Z.testbit mask 4).
Proof.
  intros H0 Hl Hb. assert (is_byte mask) as Hm.
  { change 0x1F with (Z.ones 5) in Hl. rewrite Z.ldiff_ones_r, Z.shiftl_eq_0_iff, Z.shiftr_div_pow2 in Hl by lia. change (2 ^ 5) with 32 in Hl.
    pose proof (Z.div_mod mask 32). pose proof (Z.mod_pos_bound mask 32). unfold is_byte. lia. }
  pose proof (byte_ind (fun m => negb (Z.ldiff m 0x1F =? 0) || negb (Bool.eqb (Z.testbit m 0) (Z.testbit m 1)) ||
    (m =? bit 3 (Z.testbit m 0) + bit 4 (Z.testbit m 2) + bit 8 (Z.testbit m 3) + bit 16 (Z.testbit m 4))) mask eq_refl Hm) as H.
  cbn beta in H. rewrite Hl, Hb in H. by apply Z.eqb_eq.
Qed.

Definition some_b {A} (o : option A) : bool := match o with Some _ => true | None => false end.

Lemma config_mask_facts c : Z.ldiff (config_mask c) 0x1F = 0 /\ 0 <= config_mask c < 32 /\
  Z.testbit (config_mask c) 0 = some_b (cm_fee c) /\ Z.testbit (config_mask c) 1 = some_b (cm_fee c) /\ Z.testbit (config_mask c) 2 = some_b (cm_cu c) /\
  Z.testbit (config_mask c) 3 = some_b (cm_lads c) /\ Z.testbit (config_mask c) 4 = some_b (cm_heap c).
Proof. destruct c as [[f|] [u|] [l|] [h|]]; (split; [reflexivity|]); (split; [unfold config_mask; cbn; lia|]); repeat split. Qed.

Lemma config_popcnt c : len (config_values c) = 4 * fd_uint_popcnt (config_mask c).
Proof. unfold config_values. destruct c as [[f|] [u|] [l|] [h|]]; rewrite !length_app; cbn [cm_fee cm_cu cm_lads cm_heap ser_opt from_option]; rewrite ?le_store_length; reflexivity. Qed.

Lemma opt_split (b : bool) n (l : list Z) : Forall is_byte l -> length l = (if b then n else 0%nat) ->
  exists o, l = ser_opt n o /\ some_b o = b /\ opt_fits n o.
Proof.
  intros HB Hl. destruct b.
  - exists (Some (le_load l)). unfold ser_opt, opt_fits. cbn [from_option]. rewrite <- Hl, le_store_load by done. split; [done|]. split; [done|].
    intros v [= <-]. by apply le_load_range.
  - exists None. destruct l; [|discriminate Hl]. done.
Qed.

Lemma config_split mask vals : 0 <= mask -> Z.ldiff mask 0x1F = 0 -> Bool.eqb (Z.testbit mask 0) (Z.testbit mask 1) = true ->
  Forall is_byte vals -> len vals = 4 * fd_uint_popcnt mask ->
  exists c, mask = config_mask c /\ vals = config_values c /\ opt_fits 8 (cm_fee c) /\ opt_fits 4 (cm_cu c) /\ opt_fits 4 (cm_lads c) /\ opt_fits 4 (cm_heap c).
Proof.
  intros H0 Hl Hb HB Hlen. pose proof (mask_bits mask H0 Hl Hb) as Em. revert Em. generalize (Z.testbit mask 0) (Z.testbit mask 2) (Z.testbit mask 3) (Z.testbit mask 4). intros b0 b2 b3 b4 Em.
  assert (length vals = (if b0 then 8 else 0) + ((if b2 then 4 else 0) + ((if b3 then 4 else 0) + (if b4 then 4 else 0))))%nat as Hv.
  { apply Nat2Z.inj. rewrite Hlen, Em. by destruct b0, b2, b3, b4. }
  set (n0 := if b0 then 8%nat else 0%nat) in *. set (n2 := if b2 then 4%nat else 0%nat) in *. set (n3 := if b3 then 4%nat else 0%nat) in *. set (n4 := if b4 then 4%nat else 0%nat) in *.
  destruct (opt_split b0 8 (take n0 vals)) as (o0 & E0 & B0 & F0); [by apply Forall_take|rewrite length_take; fold n0; lia|].
  destruct (opt_split b2 4 (take n2 (drop n0 vals))) as (o2 & E2 & B2 & F2); [by apply Forall_take, Forall_drop|rewrite length_take, length_drop; fold n2; lia|].
  destruct (opt_split b3 4 (take n3 (drop n2 (drop n0 vals)))) as (o3 & E3 & B3 & F3); [by apply Forall_take, Forall_drop, Forall_drop|rewrite length_take, !length_drop; fold n3; lia|].
  destruct (opt_split b4 4 (drop n3 (drop n2 (drop n0 vals)))) as (o4 & E4 & B4 & F4); [by apply Forall_drop, Forall_drop, Forall_drop|rewrite !length_drop; fold n4; lia|].
  exists (mk_cm o0 o2 o3 o4). split; [|split; [|done]].
  - rewrite Em. subst b0 b2 b3 b4. by destruct o0, o2, o3, o4.
  - unfold config_values. cbn [cm_fee cm_cu cm_lads cm_heap]. by rewrite <- E0, <- E2, <- E3, <- E4, !take_drop.
Qed.

(** The value of the heap size is the last word. *)
Lemma config_heap c h : cm_heap c = Some h -> opt_fits 4 (cm_heap c) ->
  1 <= fd_uint_popcnt (config_mask c) /\ le_load (take 4 (drop (Z.to_nat (4 * (fd_uint_popcnt (config_mask c) - 1))) (config_values c))) = h.
Proof.
  intros Eh Hf. pose proof (config_popcnt c) as Hp. assert (config_values c = (ser_opt 8 (cm_fee c) ++ ser_opt 4 (cm_cu c) ++ ser_opt 4 (cm_lads c)) ++ le_store 4 h) as Ev
    by (unfold config_values; rewrite Eh; by rewrite <- !app_assoc).
  rewrite Ev, length_app, le_store_length in Hp. split; [lia|]. rewrite Ev, drop_app_length' by lia. rewrite take_ge by (by rewrite le_store_length). apply le_load_store. by apply Hf.
Qed.

Definition ser_hdr (h : Z * Z * Z) : list Z := let '(p, a, d) := h in [p; a] ++ le_store 2 d.
Definition hdr_ok (naddr : Z) (h : Z * Z * Z) : Prop := let '(p, a, d) := h in 0 < p < naddr /\ is_byte a /\ 0 <= d < 65536.

Definition hdr_of (x : instr_m) : Z * Z * Z := (im_program x, len (im_accts x), len (im_data x)).

Definition heap_ok (h : Z) : Prop := 32768 <= h <= 262144 /\ h mod 1024 = 0.

Record v1h := mk_v1h { v_nsig : Z; v_ros : Z; v_rou : Z; v_config : config_m; v_bh : list Z; v_ni : Z; v_addrs : list (list Z) }.

Definition ser_v1h (h : v1h) : list Z :=
  [0x81] ++ [v_nsig h] ++ [v_ros h] ++ [v_rou h] ++ le_store 4 (config_mask (v_config h)) ++ v_bh h ++ [v_ni h] ++ [len (v_addrs h)] ++ concat (v_addrs h) ++ config_values (v_config h).

Record v1h_ok (h : v1h) : Prop := mk_v1h_ok {
  vo_nsig : 1 <= v_nsig h <= 12;
  vo_ros : 0 <= v_ros h < v_nsig h;
  vo_rou : 0 <= v_rou h;
  vo_config : wf_config (v_config h);
  vo_bh : length (v_bh h) = 32%nat;
  vo_ni : 0 <= v_ni h <= 64;
  vo_naddr : v_nsig h + v_rou h <= len (v_addrs h) <= 64;
  vo_addrs : Forall (fun x => length x = 32%nat) (v_addrs h);
}.

Definition v1h_of (h : v1h) : Z * Z * Z * Z * Z * Z * Z * Z * Z :=
  (v_nsig h, v_ros h, v_rou h, config_mask (v_config h), 8, v_ni h, len (v_addrs h), 42, 42 + 32 * len (v_addrs h)).

Lemma popcnt_pos mask l : 0 <= lsum (fun k => Z.b2z (Z.testbit mask k)) l.
Proof. apply lsum_nonneg. intros k _. destruct (Z.testbit mask k); cbn; lia. Qed.

Lemma popcnt_bounds mask : 0 <= fd_uint_popcnt mask <= 32.
Proof.
  split; [apply popcnt_pos|]. unfold fd_uint_popcnt.
  etransitivity; [apply (lsum_le _ (fun _ => 1)); intros k _; destruct (Z.testbit mask k); cbn; lia|]. rewrite lsum_const, length_seqZ. lia.
Qed.

Lemma popcnt_heap mask : Z.testbit mask 4 = true -> 1 <= fd_uint_popcnt mask.
Proof.
  intros Hb. unfold fd_uint_popcnt. change (seqZ 0 32) with (seqZ 0 4 ++ [4] ++ seqZ 5 27). rewrite !lsum_app.
  change (lsum ?f [4]) with (f 4 + 0). cbn beta. rewrite Hb. pose proof (popcnt_pos mask (seqZ 0 4)). pose proof (popcnt_pos mask (seqZ 5 27)). cbn [Z.b2z]. lia.
Qed.

Definition v1_msg (h : v1h) (xs : list instr_m) (sigs : list (list Z)) : message :=
  mk_msg (V1 (v_config h)) sigs (v_ros h) (v_rou h) (v_addrs h) (v_bh h) xs.

Lemma ser_v1_msg h xs sigs : v_nsig h = len sigs -> v_ni h = len xs ->
  ser_message (v1_msg h xs sigs) = ser_v1h h ++ concat (ser_instr_header <$> xs) ++ concat (ser_instr_body <$> xs).
Proof.
  intros Hs Hn. unfold ser_message, v1_msg, ser_v1h. cbn [m_kind m_sigs m_ro_signed m_ro_unsigned m_addrs m_blockhash m_instrs]. rewrite Hs, Hn, <- !app_assoc. done.
Qed.

Lemma headers_of xs : concat (ser_hdr <$> (hdr_of <$> xs)) = concat (ser_instr_header <$> xs).
Proof. induction xs as [|x xs IH]; [done|]. rewrite !fmap_cons. cbn [concat]. by rewrite IH. Qed.

Lemma headers_len xs : len (concat (ser_instr_header <$> xs)) = 4 * len xs.
Proof. induction xs as [|x xs IH]; [done|]. rewrite !fmap_cons. cbn [concat length]. rewrite length_app. unfold ser_instr_header at 1. rewrite length_app, le_store_length. cbn [length]. lia. Qed.

Lemma v1h_len h : v1h_ok h -> len (ser_v1h h) = 42 + 32 * len (v_addrs h) + len (config_values (v_config h)).
Proof. intros []. unfold ser_v1h. rewrite !length_app, le_store_length. cbn [length]. pose proof (blocks_len 32 _ vo_addrs0). lia. Qed.

Lemma describe_v1_msg h xs sigs : v1h_ok h -> v_nsig h = len sigs -> v_ni h = len xs ->
  describe (v1_msg h xs sigs) = mk_txn FD_TXN_V1 (v_nsig h) (len (ser_message (v1_msg h xs sigs))) 0 (v_ros h) (v_rou h) (len (v_addrs h)) 42 8 0 0 0 0
    (42 + 32 * len (v_addrs h)) (v_ni h) (layout (fun x => len (ser_instr_body x)) describe_instr_v1 (len (ser_v1h h) + len (concat (ser_instr_header <$> xs))) xs) [].
Proof.
  intros Hok Hs Hn. unfold describe, describe_v1, v1_msg. cbn [m_kind m_sigs m_ro_signed m_ro_unsigned m_addrs m_blockhash m_instrs]. by rewrite (v1h_len h Hok), headers_len, Hs, Hn.
Qed.

Lemma hdrs_ok naddr xs : Forall (hdr_ok naddr) (hdr_of <$> xs) <-> Forall (fun x => 0 < im_program x < naddr /\ len (im_accts x) < 256 /\ len (im_data x) < 65536) xs.
Proof. rewrite Forall_fmap. split; (intros H; eapply Forall_impl; [exact H|]); intros x; unfold hdr_of, hdr_ok, is_byte; cbn; lia. Qed.

Lemma adtl_v1 h xs sigs : m_adtl (v1_msg h xs sigs) = 0.
Proof. done. Qed.

Lemma data_le_concat (x : instr_m) xs : x ∈ xs -> len (im_data x) <= len (concat (ser_instr_body <$> xs)).
Proof.
  induction xs as [|y xs IH]; intros Hx; [by apply elem_of_nil in Hx|]. rewrite fmap_cons. cbn [concat]. rewrite length_app.
  apply elem_of_cons in Hx as [->|Hx]; [unfold ser_instr_body; rewrite length_app; lia|]. specialize (IH Hx). lia.
Qed.

Lemma wf_v1_msg h xs sigs : v1h_ok h -> v_nsig h = len sigs -> v_ni h = len xs -> Forall (fun s => length s = 64%nat) sigs ->
  Forall (hdr_ok (len (v_addrs h))) (hdr_of <$> xs) -> Forall (fun x => Forall (fun a => a < len (v_addrs h)) (im_accts x)) xs ->
  Forall is_byte (ser (v1_msg h xs sigs)) -> len (ser (v1_msg h xs sigs)) <= 4096 -> wf (v1_msg h xs sigs).
Proof.
  intros [] Hs Hn Hsig Hh Ha HB Hl. apply hdrs_ok in Hh. split; [..|done|done]; rewrite ?adtl_v1; unfold wf_kind; cbn [v1_msg m_kind m_sigs m_ro_signed m_ro_unsigned m_addrs m_blockhash m_instrs]; try (done || lia).
  rewrite Forall_forall in Hh. rewrite Forall_forall in Ha. apply Forall_forall. intros x Hx. unfold wf_instr. rewrite adtl_v1, Z.add_0_r. cbn [v1_msg m_addrs]. destruct (Hh x Hx) as (? & ? & ?). split; [done|]. split; [lia|]. by apply Ha.
Qed.

Lemma wf_v1_inv m : wf m -> is_v1 m = true -> exists h, m = v1_msg h (m_instrs m) (m_sigs m) /\ v1h_ok h /\ v_nsig h = len (m_sigs m) /\ v_ni h = len (m_instrs m) /\
  Forall (hdr_ok (len (v_addrs h))) (hdr_of <$> m_instrs m) /\ Forall (fun x => Forall (fun a => a < len (v_addrs h)) (im_accts x)) (m_instrs m).
Proof.
  intros Hwf Hv. destruct m as [k sigs ros rou addrs bh xs]. destruct k as [|luts|c]; [discriminate Hv..|]. set (h := mk_v1h (len sigs) ros rou c bh (len xs) addrs).
  exists h. cbn [m_instrs m_sigs]. change (mk_msg (V1 c) sigs ros rou addrs bh xs) with (v1_msg h xs sigs) in *.
  assert (ser (v1_msg h xs sigs) = (ser_v1h h ++ concat (ser_instr_header <$> xs) ++ concat (ser_instr_body <$> xs)) ++ concat sigs) as Eser by (by rewrite <- (ser_v1_msg h xs sigs)).
  assert (0 <= ros /\ 0 <= rou) as [Hr1 Hr2].
  { pose proof (wf_bytes _ Hwf) as HB. rewrite Eser in HB. rewrite !Forall_app in HB. destruct HB as [[HB _] _]. unfold ser_v1h in HB. rewrite !Forall_app, !Forall_singleton in HB. unfold is_byte in HB. cbn in HB. lia. }
  pose proof (wf_mtu _ Hwf) as Hm. rewrite Eser, !length_app in Hm. unfold mtu, is_v1, FD_TXN_MTU in Hm. cbn [v1_msg m_kind] in Hm.
  split; [done|]. pose proof (wf_instrs _ Hwf) as Hin. pose proof (wf_kind_ok _ Hwf) as Hk. pose proof (wf_acct_cnt _ Hwf) as Hac. rewrite adtl_v1, Z.add_0_r in Hac.
  split; [|split; [done|split; [done|split]]].
  - destruct Hwf. split; cbn in *; (done || lia).
  - apply hdrs_ok. rewrite Forall_forall in Hin. apply Forall_forall. intros x Hx. destruct (Hin x Hx) as (? & ? & _). pose proof (data_le_concat x xs Hx). cbn in *. lia.
  - eapply Forall_impl; [exact Hin|]. intros x (_ & _ & Hx). by rewrite adtl_v1, Z.add_0_r in Hx.
Qed.

Section V1.
  Context (payload : list Z) (payload_sz original_payload_sz : Z) (payload_sz_opt : bool).
  Context (Hsz : 0 <= payload_sz <= len payload) (Hmtu : payload_sz <= 4096) (Hbytes : Forall is_byte payload).

Notation runs := (runs_at payload payload_sz).
Notation PL := (pl payload payload_sz).

(** ** Instructions *)

Lemma runs_check_accts naddr n : forall pre suf, PL = pre ++ suf -> Z.of_nat n <= len suf ->
  runs pre suf (v1_check_accts payload naddr n) (fun _ bs => length bs = n /\ Forall (fun a => a < naddr) bs).
Proof using Hsz Hmtu.
  induction n as [|n IH]; intros pre suf E Hn; cbn [v1_check_accts].
  - eapply runs_iff; [by apply runs_ret|]. intros [] bs rest _. split; [intros [-> _]; by split|]. intros [Hl _]. by destruct bs.
  - eapply runs_iff.
    + eapply runs_val; [apply runs_peek; side|]. eapply runs_then; [apply runs_check; side|]. intros C.
      eapply runs_bind; [apply runs_advance; side|]. intros u b1 r1 E1 Hb1. apply IH; [side|]. cbn beta in Hb1. rewrite E1, length_app in Hn. lia.
    + intros [] bs rest Es. split.
      * intros (C & u & b1 & b2 & r1 & -> & E1 & Hb1 & Hl & HF). destruct (length_1 b1 Hb1) as [b ->]. rewrite E1, le_load_1 in C. apply Z.ltb_lt in C.
        split; [cbn; lia|by constructor].
      * intros [Hl HF]. destruct bs as [|b bs]; [discriminate Hl|]. apply Forall_cons in HF as [Hb HF]. change (b :: bs) with ([b] ++ bs) in *. rewrite <- app_assoc in Es.
        rewrite Es, le_load_1. split; [by apply Z.ltb_lt|]. exists tt, [b], bs, (bs ++ rest). split; [done|]. split; [done|]. split; [done|]. split; [cbn in Hl; lia|done].
Qed.

Lemma runs_v1_headers naddr n : 0 <= naddr <= 255 -> forall pre suf j, PL = pre ++ suf -> 0 <= j -> j + Z.of_nat n <= 64 ->
  runs pre suf (v1_headers payload payload_sz naddr j n) (fun y bs => length y = n /\ bs = concat (ser_hdr <$> y) /\ Forall (hdr_ok naddr) y).
Proof using Hsz Hmtu Hbytes.
  intros Hna. induction n as [|n IH]; intros pre suf j E Hj Hn; cbn [v1_headers].
  - eapply runs_iff; [by apply runs_ret|]. intros y bs rest _. split; [by intros [-> ->]|]. intros (Hl & -> & _). by destruct y.
  - eapply runs_iff.
    + eapply runs_bind; [apply runs_byte; side|]. intros p b1 r1 E1 [Hp Eb1]. eapply runs_then; [apply runs_check; side|]. intros C.
      eapply runs_bind; [apply runs_byte; side|]. intros a b2 r2 E2 [Ha Eb2]. eapply runs_bind; [apply runs_read; side|]. intros d b3 r3 E3 [Hd Eb3].
      eapply runs_val; [eapply runs_room; side|]. eapply runs_bind; [apply IH; side|]. intros y b4 r4 E4 Hy. apply runs_ret; side.
    + intros y bs rest Es. change (256 ^ Z.of_nat 2) with 65536. split.
      * intros (p & ? & ? & r1 & -> & E1 & [Hp ->] & C & a & ? & ? & r2 & -> & E2 & [Ha ->] & d & ? & ? & r3 & -> & E3 & [Hd ->] & y' & ? & ? & r4 & -> & E4 & (Hl & -> & HF) & -> & ->).
        apply andb_true_iff in C as [C1 C2]. apply Z.ltb_lt in C1, C2. rewrite app_nil_r, fmap_cons. cbn [concat length ser_hdr]. rewrite <- !app_assoc. split; [lia|]. split; [done|]. constructor; [|done]. split; [lia|done].
      * intros (Hl & -> & HF). destruct y as [|[[p a] d] y]; [discriminate Hl|]. apply Forall_cons in HF as [(Hp & Ha & Hd) HF]. rewrite fmap_cons in *. cbn [concat ser_hdr] in *.
        change ([p; a] ++ le_store 2 d) with ([p] ++ [a] ++ le_store 2 d) in *. rewrite <- !app_assoc in *. 
        chunk p [p]. split; [split; [unfold is_byte; lia|done]|]. split; [apply andb_true_iff; split; apply Z.ltb_lt; lia|].
        chunk a [a]. split; [done|]. chunk d (le_store 2 d). split; [done|]. chunk y (concat (ser_hdr <$> y)). split; [|done]. split; [cbn in Hl; lia|done].
Qed.

Lemma runs_v1_payloads naddr hs : Forall (hdr_ok naddr) hs -> forall pre suf, PL = pre ++ suf ->
  runs pre suf (v1_payloads payload payload_sz naddr hs) (fun y bs => exists xs,
    y = layout (fun x => len (ser_instr_body x)) describe_instr_v1 (len pre) xs /\
    hdr_of <$> xs = hs /\ bs = concat (ser_instr_body <$> xs) /\ Forall (fun x => Forall (fun a => a < naddr) (im_accts x)) xs).
Proof using Hsz Hmtu.
  intros Hhs. induction Hhs as [|[[p a] d] hs (Hp & Ha & Hd) Hhs IH]; intros pre suf E; cbn [v1_payloads].
  - eapply runs_iff; [by apply runs_ret|]. intros y bs rest _. split; [intros [-> ->]; by exists []|]. intros (xs & -> & Hx & -> & _). by destruct xs.
  - unfold is_byte in Ha. pose proof (split_bounds _ _ Hsz pre suf E) as Hlen. eapply runs_iff.
    + eapply runs_then; [apply runs_left; side|]. intros C1. eapply runs_val; [apply runs_here; side|].
      eapply runs_bind; [apply runs_check_accts; side|]. intros u b1 r1 E1 [Hb1 HF1]. eapply runs_bind; [apply runs_field; side|]. intros off b2 r2 E2 [Eo Hb2].
      eapply runs_bind_of; [apply IH; side|]. intros xs b3 r3 E3 Hxs. apply runs_ret; side.
    + intros y bs rest Es. split.
      * intros (C1 & u & b1 & ? & r1 & -> & E1 & [Hb1 HF1] & off & b2 & ? & r2 & -> & E2 & [-> Hb2] & xs & b3 & ? & r3 & -> & E3 & (Hhd & -> & HF) & -> & ->).
        rewrite E1, E2, !length_app in Hlen. exists (mk_im p b1 b2 :: xs). rewrite !fmap_cons. unfold hdr_of, ser_instr_body, describe_instr_v1 in *. cbn [concat layout im_program im_accts im_data].
        rewrite app_nil_r, <- Hhd. split; [|split; [repeat f_equal; lia|split; [by rewrite <- ?app_assoc|by constructor]]].
        rewrite !length_app, !ushort_small by lia. f_equal; [f_equal; lia|]. f_equal; lia.
      * intros (xs & -> & Hx & -> & HF). destruct xs as [|x xs]; [discriminate Hx|]. rewrite !fmap_cons in *. injection Hx as <- <- <- <-. apply Forall_cons in HF as [Hx HF]. cbn [concat] in *.
        unfold ser_instr_body in Es at 1. rewrite <- !app_assoc in Es. rewrite Es, !length_app in Hlen. split; [rewrite Es, !length_app; lia|].
        unfold ser_instr_body at 1. rewrite <- app_assoc. chunk tt (im_accts x). split; [split; [lia|done]|].
        eexists; exists (im_data x); do 2 eexists. split; [reflexivity|]. split; [reflexivity|]. split; [done|]. chunk xs (concat (ser_instr_body <$> xs)). split; [done|]. split; [done|].
        cbn [layout]. unfold describe_instr_v1 at 1, ser_instr_body at 1. rewrite !length_app, !ushort_small by lia. f_equal; [f_equal; lia|]. f_equal. unfold ser_instr_body. rewrite length_app. lia.
Qed.

(** ** The header *)

(** The heap size is read at the end of the values just passed. *)
Lemma runs_check_heap pre vals suf mask num off : off = len pre -> PL = (pre ++ vals) ++ suf -> len vals = 4 * num -> (Z.testbit mask 4 = true -> 1 <= num) ->
  runs (pre ++ vals) suf (v1_check_heap payload mask off num) (fun _ bs => bs = [] /\
    (Z.testbit mask 4 = true -> heap_ok (le_load (take 4 (drop (Z.to_nat (4 * (num - 1))) vals))))).
Proof using Hsz Hmtu.
  intros -> E Hl Hn. pose proof (split_bounds _ _ Hsz _ _ E) as Hlen. rewrite length_app in Hlen. unfold v1_check_heap. destruct (Z.testbit mask 4).
  - specialize (Hn eq_refl). assert (PL = pre ++ (vals ++ suf)) as E' by (by rewrite app_assoc).
    eapply runs_iff.
    + eapply runs_val; [apply runs_lift; [done|]|].
      { rewrite u64_sub_small by (unfold is_u64, ULONG_MAX; lia). unfold u64_mul. rewrite u64_small, u64_add_small by (unfold is_u64, ULONG_MAX; lia).
        rewrite Z.add_comm. apply (ld_at _ _ Hsz Hmtu pre (vals ++ suf) 4 (4 * (num - 1)) E'); [lia|rewrite length_app; lia]. }
      apply runs_check; side.
    + intros [] bs rest _. cbn beta. rewrite drop_app_le, take_app_le by (rewrite ?length_drop; lia).
      unfold heap_ok, FD_TXN_V1_MIN_HEAP_SZ, FD_TXN_V1_MAX_HEAP_SZ, FD_TXN_V1_HEAP_GRANULARITY. rewrite !andb_true_iff, !Z.leb_le, Z.eqb_eq. change (32 * 1024) with 32768. change (256 * 1024) with 262144. naive_solver lia.
  - eapply runs_iff; [apply runs_ret; side|]. intros [] bs rest _. naive_solver.
Qed.

Lemma runs_v1_header b l : PL = b :: l -> 128 <= b ->
  runs [] PL (v1_header payload payload_sz) (fun y bs => exists h, y = v1h_of h /\ bs = ser_v1h h /\ v1h_ok h).
Proof using Hsz Hmtu Hbytes.
  intros Eb Hb. assert (PL = [] ++ PL) as E by done.
  unfold v1_header, FD_TXN_V1, FD_TXN_SIG_MAX, FD_TXN_ACCT_ADDR_MAX, FD_TXN_ACCT_ADDR_SZ, FD_TXN_BLOCKHASH_SZ, FD_TXN_INSTR_MAX. eapply runs_iff.
  - eapply runs_bind; [apply runs_byte; side|]. intros ver b1 r1 E1 [Hver Eb1]. eapply runs_then; [apply runs_check; side|]. intros C1.
    eapply runs_bind; [apply runs_byte; side|]. intros nsig b2 r2 E2 [Hn2 Eb2]. eapply runs_then; [apply runs_check; side|]. intros C2.
    eapply runs_bind; [apply runs_byte; side|]. intros ros b3 r3 E3 [Hn3 Eb3]. eapply runs_then; [apply runs_check; side|]. intros C3.
    eapply runs_bind; [apply runs_byte; side|]. intros rou b4 r4 E4 [Hn4 Eb4].
    eapply runs_bind; [apply runs_read; side|]. intros mask b5 r5 E5 [Hn5 Eb5]. eapply runs_then; [apply runs_check; side|]. intros C5. eapply runs_then; [apply runs_check; side|]. intros C5'.
    eapply runs_bind; [apply runs_field; side|]. intros hoff b6 r6 E6 [Eo6 Hb6].
    eapply runs_bind; [apply runs_byte; side|]. intros ni b7 r7 E7 [Hn7 Eb7]. eapply runs_then; [apply runs_check; side|]. intros C7.
    eapply runs_bind; [apply runs_byte; side|]. intros naddr b8 r8 E8 [Hn8 Eb8]. eapply runs_then; [apply runs_check; side|]. intros C8. eapply runs_then; [apply runs_check; side|]. intros C8'.
    unfold is_byte in Hn8. rewrite (mul_small 32 naddr) by lia. eapply runs_bind; [apply runs_field; side|]. intros aoff b9 r9 E9 [Eo9 Hb9]. pose proof (popcnt_bounds mask). rewrite (mul_small 4) by lia.
    eapply runs_bind; [apply runs_field; side|]. intros coff b10 r10 E10 [Eo10 Hb10].
    eapply runs_then; [apply runs_check_heap; [done|side|done|apply popcnt_heap]|]. intros C10. apply runs_ret; side.
  - change (256 ^ Z.of_nat 4) with 4294967296. intros y bs rest Es. split.
    + intros (ver & ? & ? & r1 & -> & E1 & [Hver ->] & C1 & nsig & ? & ? & r2 & -> & E2 & [Hn2 ->] & C2 & ros & ? & ? & r3 & -> & E3 & [Hn3 ->] & C3 & rou & ? & ? & r4 & -> & E4 & [Hn4 ->]
        & mask & ? & ? & r5 & -> & E5 & [Hn5 ->] & C5 & C5' & hoff & b6 & ? & r6 & -> & E6 & [-> Hb6] & ni & ? & ? & r7 & -> & E7 & [Hn7 ->] & C7 & naddr & ? & ? & r8 & -> & E8 & [Hn8 ->] & C8 & C8'
        & aoff & b9 & ? & r9 & -> & E9 & [-> Hb9] & coff & b10 & ? & r10 & -> & E10 & [-> Hb10] & C10 & -> & ->).
      apply andb_true_iff in C2 as [C2 C2'], C8 as [C8 C8'']. apply Z.leb_le in C2, C2', C8, C8'', C8', C7. apply Z.ltb_lt in C3. apply Z.eqb_eq in C1, C5. unfold is_byte in *.
      assert (ver = 0x81) as ->. { rewrite Eb in E1. injection E1 as -> _. rewrite byte_low in C1 by lia. lia. }
      destruct (field_blocks 32 naddr b9) as (addrs & -> & Ha & Haddrs); [lia..|].
      assert (Forall is_byte b10) as HB. { pose proof (split_bytes _ _ Hbytes [] PL E) as HB. rewrite Es, !Forall_app in HB. naive_solver. }
      destruct (config_split mask b10) as (c & -> & -> & F1 & F2 & F3 & F4); [lia|done..|].
      exists (mk_v1h nsig ros rou c b6 ni addrs). split; [|split].
      * unfold v1h_of. cbn [v_nsig v_ros v_rou v_config v_bh v_ni v_addrs]. rewrite !length_app, !le_store_length. cbn [length]. repeat (apply f_equal2; [|first [done|lia]]). done.
      * unfold ser_v1h. cbn [v_nsig v_ros v_rou v_config v_bh v_ni v_addrs]. by rewrite Ha, app_nil_r.
      * split; cbn [v_nsig v_ros v_rou v_config v_bh v_ni v_addrs]; try (done || lia). split; try done. intros h Eh. destruct (config_heap c h Eh F4) as [_ <-]. apply C10.
        destruct (config_mask_facts c) as (_ & _ & _ & _ & _ & _ & ->). by rewrite Eh.
    + intros (h & -> & -> & [? ? ? [W1 W2 W3 W4] ? ? ? ?]). unfold ser_v1h in Es. rewrite <- !app_assoc in Es. unfold is_byte. pose proof (blocks_len 32 _ vo_addrs0) as La.
      destruct (config_mask_facts (v_config h)) as (M1 & M2 & M3 & M4 & M5 & M6 & M7).
      chunk 0x81 [0x81]. split; [split; [lia|done]|]. split; [done|]. chunk (v_nsig h) [v_nsig h]. split; [split; [lia|done]|]. split; [apply andb_true_iff; split; apply Z.leb_le; lia|].
      chunk (v_ros h) [v_ros h]. split; [split; [lia|done]|]. split; [apply Z.ltb_lt; lia|]. chunk (v_rou h) [v_rou h]. split; [split; [lia|done]|].
      chunk (config_mask (v_config h)) (le_store 4 (config_mask (v_config h))). split; [split; [lia|done]|]. split; [by apply Z.eqb_eq|]. split; [rewrite M3, M4; apply Bool.eqb_reflx|].
      eexists; exists (v_bh h); do 2 eexists. split; [reflexivity|]. split; [reflexivity|]. split; [split; [reflexivity|lia]|].
      chunk (v_ni h) [v_ni h]. split; [split; [lia|done]|]. split; [apply Z.leb_le; lia|]. chunk (len (v_addrs h)) [len (v_addrs h)]. split; [split; [lia|done]|].
      split; [apply andb_true_iff; split; apply Z.leb_le; lia|]. split; [apply Z.leb_le; lia|].
      eexists; exists (concat (v_addrs h)); do 2 eexists. split; [reflexivity|]. split; [reflexivity|]. split; [split; [reflexivity|lia]|].
      eexists; exists (config_values (v_config h)); do 2 eexists. split; [symmetry; apply app_nil_r|]. split; [reflexivity|]. split; [split; [reflexivity|apply config_popcnt]|].
      split.
      { rewrite M7. destruct (cm_heap (v_config h)) as [hp|] eqn:Eh; [|done]. intros _. destruct (config_heap (v_config h) hp Eh) as [_ ->]; [|by apply W4].
        rewrite Eh. intros v [= <-]. destruct (W4 hp eq_refl). change (256 ^ Z.of_nat 4) with 4294967296. lia. }
      split; [done|]. unfold v1h_of. rewrite !length_app, !le_store_length. cbn [length]. repeat (apply f_equal2; [|first [done|lia]]). done.
Qed.

(** ** The whole transaction *)

Lemma runs_v1 b l : PL = b :: l -> 128 <= b ->
  runs [] PL (parse_v1 payload payload_sz original_payload_sz payload_sz_opt) (fun t bs => exists m,
    t = describe m /\ bs = ser m /\ is_v1 m = true /\ wf m /\ (payload_sz_opt = true \/ len bs = original_payload_sz)).
Proof using Hsz Hmtu Hbytes.
  intros Eb Hb. assert (PL = [] ++ PL) as E by done. pose proof (split_bounds _ _ Hsz [] PL E) as Hlen. unfold parse_v1, FD_TXN_SIGNATURE_SZ. eapply runs_iff.
  - eapply runs_bind_of; [by eapply runs_v1_header|]. intros h b1 r1 E1 (Eb1 & Hok). unfold v1h_of. cbn beta iota.
    assert (0 <= len (v_addrs h) <= 255) as Hna by (pose proof (vo_naddr h Hok); lia). assert (0 <= v_nsig h <= 12) as Hns by (pose proof (vo_nsig h Hok); lia). pose proof (vo_ni h Hok) as Hni.
    eapply runs_bind; [apply runs_v1_headers; side|]. intros hs b2 r2 E2 (Hl2 & Eb2 & Hhs). eapply runs_bind_of; [apply (runs_v1_payloads _ hs Hhs); side|]. intros xs b3 r3 E3 (Hhd & Eb3 & Hxs).
    rewrite mul_small by lia. eapply runs_bind; [apply runs_field; side|]. intros soff b4 r4 E4 [Eo4 Hb4]. eapply runs_val; [apply runs_here; side|].
    eapply runs_then; [apply runs_check; side|]. intros C1. apply runs_ret; side.
  - intros t bs rest Es. split.
    + intros (h & ? & ? & r1 & -> & E1 & (-> & Hok) & hs & ? & ? & r2 & -> & E2 & (Hl2 & -> & Hhs) & xs & ? & ? & r3 & -> & E3 & (Hhd & -> & Hxs) & soff & b4 & ? & r4 & -> & E4 & [-> Hb4] & C1 & -> & ->).
      assert (0 <= len (v_addrs h) <= 255) as Hna by (pose proof (vo_naddr h Hok); lia). pose proof (vo_nsig h Hok) as Hns. pose proof (vo_ni h Hok) as Hni.
      destruct (field_blocks 64 (v_nsig h) b4) as (sigs & -> & Hs & Hsigs); [lia|done|]. assert (v_ni h = len xs) as Hnx by (rewrite <- Hhd, length_fmap in Hl2; lia).
      subst hs. rewrite headers_of in *. pose proof (ser_v1_msg h xs sigs ltac:(done) Hnx) as Eser. rewrite app_nil_r in *.
      replace (ser_v1h h ++ concat (ser_instr_header <$> xs) ++ concat (ser_instr_body <$> xs) ++ concat sigs) with (ser (v1_msg h xs sigs)) in Es |- * by (unfold ser; cbn [v1_msg is_v1 m_kind m_sigs]; rewrite Eser; by rewrite <- !app_assoc).
      pose proof (split_bytes _ _ Hbytes [] PL E) as HB. rewrite Es in HB, Hlen. apply Forall_app in HB as [HB _]. rewrite length_app in Hlen. cbn [length] in Hlen.
      exists (v1_msg h xs sigs). split; [|split; [done|split; [done|split; [apply wf_v1_msg; (done || lia)|]]]].
      * rewrite (describe_v1_msg h xs sigs Hok ltac:(done) Hnx), Eser. assert (len (ser (v1_msg h xs sigs)) = len (ser_v1h h) + len (concat (ser_instr_header <$> xs)) + len (concat (ser_instr_body <$> xs)) + len (concat sigs)) as El
          by (unfold ser; cbn [v1_msg is_v1 m_kind m_sigs]; rewrite Eser, !length_app; lia).
        pose proof (v1h_len h Hok). cbn [app]. rewrite !length_app, !ushort_small by lia. f_equal; [lia|]. f_equal; lia.
      * apply orb_true_iff in C1 as [->|C1]; [by left|right]. apply Z.eqb_eq in C1. rewrite <- C1. unfold ser. cbn [v1_msg is_v1 m_kind m_sigs]. rewrite Eser, !length_app. cbn [length]. lia.
    + intros (m & -> & -> & Hv & Hwf & Hopt). destruct (wf_v1_inv m Hwf Hv) as (h & Em & Hok & Hns & Hni & Hhs & Hxs). pose proof (wf_sigs m Hwf) as Hsigs. pose proof (blocks_len 64 _ Hsigs) as Ls.
      set (xs := m_instrs m) in *. set (sigs := m_sigs m) in *. clearbody xs sigs. subst m. pose proof (ser_v1_msg h xs sigs Hns Hni) as Eser. pose proof (describe_v1_msg h xs sigs Hok Hns Hni) as Edesc.
      rewrite Edesc. clear Edesc. unfold ser in *. cbn [v1_msg is_v1 m_kind m_sigs] in *. fold (v1_msg h xs sigs) in *. rewrite Eser, <- !app_assoc in *. pose proof (v1h_len h Hok) as Hvl. rewrite Es, !length_app in Hlen. cbn [length] in Hlen.
      pose proof (vo_naddr h Hok) as Hna. pose proof (vo_nsig h Hok) as Hns'.
      chunk h (ser_v1h h). split; [done|]. exists (hdr_of <$> xs), (concat (ser_instr_header <$> xs)); do 2 eexists. split; [reflexivity|]. split; [reflexivity|]. split; [split; [rewrite length_fmap; lia|split; [by rewrite headers_of|done]]|].
      chunk xs (concat (ser_instr_body <$> xs)). split; [done|]. eexists; exists (concat sigs); do 2 eexists. split; [symmetry; apply app_nil_r|]. split; [reflexivity|]. split; [split; [reflexivity|lia]|].
      cbn [app]. split; [apply orb_true_iff; destruct Hopt as [->|Hopt]; [by left|right]; apply Z.eqb_eq; rewrite <- Hopt, !length_app; lia|]. split; [done|].
      rewrite !length_app, !ushort_small by lia. f_equal; [lia|]. f_equal; lia.
Qed.
End V1.
