(* ===== verification/TxnProps.v ===== *)
(** * The parser of transactions is exact

    [fd_txn_parse_core] against the grammar: it ends normally on every payload, accepts
    exactly the well formed transactions, and the structure it gives leads the accessors
    back to every part of the transaction. *)
From S2P Require Import Prelude Txn TxnRuns TxnCu16 TxnGrammar TxnLegacy TxnV1.

(** ** Slices of the payload *)

Lemma slice_app (a b c : list Z) : take (length b) (drop (length a) (a ++ b ++ c)) = b.
Proof. by rewrite drop_app_length, take_app_length. Qed.

Lemma slice_at (a b c p : list Z) n off : p = a ++ b ++ c -> n = len b -> off = len a -> take (Z.to_nat n) (drop (Z.to_nat off) p) = b.
Proof. intros -> -> ->. rewrite !Nat2Z.id. apply slice_app. Qed.

Lemma objects_cons p off sz n : 0 <= n -> objects p off sz (n + 1) = take (Z.to_nat sz) (drop (Z.to_nat off) p) :: objects p (off + sz) sz n.
Proof.
  intros Hn. unfold objects. rewrite seqZ_cons by lia. replace (Z.pred (n + 1)) with n by lia. rewrite fmap_cons, Z.mul_0_r, Z.add_0_r. f_equal.
  change (Z.succ 0) with (1 + 0). rewrite <- fmap_add_seqZ, <- list_fmap_compose. apply list_fmap_ext. intros i x _. cbn. do 3 f_equal. lia.
Qed.

Lemma objects_at (k : nat) (l : list (list Z)) p c : Forall (fun x => length x = k) l ->
  forall a off n, p = a ++ concat l ++ c -> off = len a -> n = len l -> objects p off (Z.of_nat k) n = l.
Proof.
  induction 1 as [|x l Hx Hl IH]; intros a off n Ep Eo En; subst off n; [done|]. cbn [concat length] in *. rewrite <- app_assoc in Ep.
  replace (Z.of_nat (S (length l))) with (len l + 1) by lia. rewrite objects_cons by lia. f_equal.
  - apply (slice_at a x (concat l ++ c)); [done|lia|done].
  - apply (IH (a ++ x)); [by rewrite <- app_assoc|rewrite length_app; lia|done].
Qed.

Lemma layout_at {A B} (ser_x : A -> list Z) (f : Z -> A -> B) (g : B -> A) (P : A -> Prop) p c xs : Forall P xs ->
  (forall a x c, P x -> p = a ++ ser_x x ++ c -> g (f (len a) x) = x) ->
  forall a off, p = a ++ concat (ser_x <$> xs) ++ c -> off = len a -> g <$> layout (fun x => len (ser_x x)) f off xs = xs.
Proof.
  intros HP Hg. induction HP as [|x xs Hx HP IH]; intros a off Ep ->; [done|]. rewrite fmap_cons in Ep. cbn [concat layout] in *. rewrite <- app_assoc in Ep. rewrite fmap_cons. f_equal.
  - by eapply Hg.
  - apply (IH (a ++ ser_x x)); [by rewrite <- app_assoc|rewrite length_app; lia].
Qed.

(** ** Reading back *)

Definition instr_of (payload : list Z) (i : fd_txn_instr_t) : instr_m :=
  mk_im (in_program_id i) (fd_txn_get_instr_accts i payload) (fd_txn_get_instr_data i payload).

Definition lut_of (payload : list Z) (u : fd_txn_acct_addr_lut_t) : lut_m :=
  mk_lm (take 32 (drop (Z.to_nat (lu_addr_off u)) payload))
    (take (Z.to_nat (lu_writable_cnt u)) (drop (Z.to_nat (lu_writable_off u)) payload))
    (take (Z.to_nat (lu_readonly_cnt u)) (drop (Z.to_nat (lu_readonly_off u)) payload)).

(** Everything a reader of the parsed transaction [t] finds in the payload is the part of
    the message [m] it should be. *)
Record reads_as (t : fd_txn_t) (payload : list Z) (m : message) : Prop := mk_reads {
  ra_version : tx_transaction_version t = match m_kind m with Legacy => FD_TXN_VLEGACY | V0 _ => FD_TXN_V0 | V1 _ => FD_TXN_V1 end;
  ra_counts : tx_readonly_signed_cnt t = m_ro_signed m /\ tx_readonly_unsigned_cnt t = m_ro_unsigned m;
  ra_signatures : fd_txn_get_signatures t payload = m_sigs m;
  ra_addrs : fd_txn_get_acct_addrs t payload = m_addrs m;
  ra_blockhash : fd_txn_get_recent_blockhash t payload = m_blockhash m;
  ra_instr_cnt : tx_instr_cnt t = len (tx_instr t) /\ tx_addr_table_lookup_cnt t = len (tx_address_tables t);
  ra_instrs : instr_of payload <$> tx_instr t = m_instrs m;
  ra_luts : lut_of payload <$> tx_address_tables t = m_luts m;
  ra_adtl : tx_addr_table_adtl_writable_cnt t = m_writable m /\ tx_addr_table_adtl_cnt t = m_adtl m;
  ra_message : take (Z.to_nat (fd_txn_msg_sz t (len (ser m)))) (drop (Z.to_nat (tx_message_off t)) payload) = ser_message m;
  ra_config : forall c, m_kind m = V1 c -> exists mask, ld 4 payload 4 = Ok mask /\ mask = config_mask c /\
    fd_txn_parse_v1_config mask (drop (Z.to_nat (tx_v1_txn_config_values_off t)) payload) =
    Ok (default 0 (cm_fee c), default 0 (cm_cu c), default 0 (cm_lads c), default FD_TXN_V1_DEFAULT_HEAP_SZ (cm_heap c));
}.

Lemma layout_length {A B} size (f : Z -> A -> B) off xs : length (layout size f off xs) = length xs.
Proof. revert off. induction xs as [|x xs IH]; intros off; cbn [layout length]; [done|]. by rewrite IH. Qed.

Lemma instr_read payload a x c : payload = a ++ ser_instr x ++ c -> instr_of payload (describe_instr (len a) x) = x.
Proof.
  intros E. unfold ser_instr in E. rewrite <- !app_assoc in E. unfold instr_of, fd_txn_get_instr_accts, fd_txn_get_instr_data, describe_instr. cbn [in_program_id in_acct_cnt in_acct_off in_data_sz in_data_off].
  destruct x as [p accts data]. cbn [im_program im_accts im_data] in *. f_equal.
  - eapply (slice_at (a ++ [p] ++ fd_cu16_enc (len accts))); [rewrite <- !app_assoc; exact E|done|rewrite !length_app; cbn [length]; lia].
  - eapply (slice_at (a ++ [p] ++ fd_cu16_enc (len accts) ++ accts ++ fd_cu16_enc (len data)) _ c); [rewrite <- !app_assoc; exact E|done|rewrite !length_app; cbn [length]; lia].
Qed.

Lemma instr_read_v1 payload a x c : payload = a ++ ser_instr_body x ++ c -> instr_of payload (describe_instr_v1 (len a) x) = x.
Proof.
  intros E. unfold ser_instr_body in E. rewrite <- !app_assoc in E. unfold instr_of, fd_txn_get_instr_accts, fd_txn_get_instr_data, describe_instr_v1. cbn [in_program_id in_acct_cnt in_acct_off in_data_sz in_data_off].
  destruct x as [p accts data]. cbn [im_program im_accts im_data] in *. f_equal.
  - by eapply slice_at.
  - eapply (slice_at (a ++ accts) _ c); [rewrite <- !app_assoc; exact E|done|rewrite length_app; lia].
Qed.

Lemma lut_read payload a x c : length (lm_addr x) = 32%nat -> payload = a ++ ser_lut x ++ c -> lut_of payload (describe_lut (len a) x) = x.
Proof.
  intros Hl E. unfold ser_lut in E. rewrite <- !app_assoc in E. unfold lut_of, describe_lut. cbn [lu_addr_off lu_writable_cnt lu_writable_off lu_readonly_cnt lu_readonly_off].
  destruct x as [addr w r]. cbn [lm_addr lm_writable lm_readonly] in *. f_equal.
  - change 32%nat with (Z.to_nat 32). eapply slice_at; [exact E|lia|done].
  - eapply (slice_at (a ++ addr ++ fd_cu16_enc (len w))); [rewrite <- !app_assoc; exact E|done|rewrite !length_app; lia].
  - eapply (slice_at (a ++ addr ++ fd_cu16_enc (len w) ++ w ++ fd_cu16_enc (len r)) _ c); [rewrite <- !app_assoc; exact E|done|rewrite !length_app; lia].
Qed.

Lemma ld_store n v a b off : off = len a -> 0 <= v < 256 ^ Z.of_nat n -> ld n (a ++ le_store n v ++ b) off = Ok v.
Proof.
  intros -> Hv. unfold ld. rewrite mem_read_ok by (rewrite ?length_app, ?le_store_length; lia). cbn [mbind outcome_bind]. rewrite !Nat2Z.id.
  rewrite <- (le_store_length n v) at 1. by rewrite slice_app, le_load_store.
Qed.

Lemma config_step (n : nat) (k : Z) (o : option Z) d a b v : opt_fits n o -> v = len a -> k = Z.of_nat n ->
  (if some_b o then x ← ld n (a ++ ser_opt n o ++ b) v; Ok (x, v + k) else Ok (d, v)) = Ok (default d o, len (a ++ ser_opt n o)).
Proof.
  intros Hf -> ->. destruct o as [x|]; cbn [some_b ser_opt from_option default].
  - rewrite ld_store by (try apply Hf; done). cbn [mbind outcome_bind]. by rewrite length_app, le_store_length, Nat2Z.inj_add.
  - by rewrite app_nil_r.
Qed.

Lemma config_read c tail : wf_config c ->
  fd_txn_parse_v1_config (config_mask c) (config_values c ++ tail) =
  Ok (default 0 (cm_fee c), default 0 (cm_cu c), default 0 (cm_lads c), default FD_TXN_V1_DEFAULT_HEAP_SZ (cm_heap c)).
Proof.
  intros [W1 W2 W3 W4]. destruct (config_mask_facts c) as (_ & _ & M0 & _ & M2 & M3 & M4). unfold fd_txn_parse_v1_config, config_values. rewrite M0, M2, M3, M4. cbn beta zeta. rewrite <- !app_assoc.
  pose proof (config_step 8 8 (cm_fee c) 0 [] (ser_opt 4 (cm_cu c) ++ ser_opt 4 (cm_lads c) ++ ser_opt 4 (cm_heap c) ++ tail) 0 W1 eq_refl eq_refl) as S0. cbn [app] in S0. rewrite S0. cbn [mbind outcome_bind].
  rewrite (config_step 4 4 (cm_cu c) 0 (ser_opt 8 (cm_fee c)) _ _ W2 eq_refl eq_refl). cbn [mbind outcome_bind].
  rewrite (app_assoc (ser_opt 8 (cm_fee c))). rewrite (config_step 4 4 (cm_lads c) 0 (ser_opt 8 (cm_fee c) ++ ser_opt 4 (cm_cu c)) _ _ W3 eq_refl eq_refl). cbn [mbind outcome_bind].
  destruct (cm_heap c) as [h|]; [|done]. cbn [some_b ser_opt from_option default]. rewrite (app_assoc (_ ++ _) (ser_opt 4 (cm_lads c))).
  rewrite ld_store; [done|done|]. destruct (W4 h eq_refl). change (256 ^ Z.of_nat 4) with 4294967296. lia.
Qed.

Lemma msg_sz_legacy a b : 0 <= a -> 0 <= b -> a + b <= 4096 -> (a + b) -w a = b.
Proof. intros Ha Hb Hs. rewrite u64_sub_small by (unfold is_u64, ULONG_MAX; lia). lia. Qed.

Lemma reads_legacy h xs luts tail : wf (msg_of h xs luts) -> header_ok h -> h_ni h = len xs -> (h_v0 h = false -> luts = []) ->
  Forall (lut_ok (len (h_addrs h))) luts ->
  reads_as (describe (msg_of h xs luts)) (ser (msg_of h xs luts) ++ tail) (msg_of h xs luts).
Proof.
  intros Hwf Hok Hni Hl Hlu. pose proof (luts_msg_of h xs luts Hl) as Eluts. pose proof (blocks_len 64 _ (ho_sigs h Hok)) as Ls. pose proof (blocks_len 32 _ (ho_addrs h Hok)) as La.
  pose proof (wf_mtu _ Hwf) as Hm. assert (mtu (msg_of h xs luts) = 1232) as Em by (unfold mtu, is_v1, msg_of; cbn; by destruct (h_v0 h)). rewrite Em in Hm.
  rewrite (describe_msg_of h xs luts Hok Hni Hl). remember (ser (msg_of h xs luts) ++ tail) as p eqn:Ep.
  assert (p = ser_header h ++ concat (ser_instr <$> xs) ++ (if h_v0 h then ser_tables luts else []) ++ tail) as E1 by (by rewrite Ep, ser_msg_of, <- !app_assoc).
  assert (ser (msg_of h xs luts) = [len (h_sigs h)] ++ concat (h_sigs h) ++ ser_message (msg_of h xs luts)) as E2 by (unfold ser, is_v1, msg_of; cbn; by destruct (h_v0 h)).
  assert (exists mid rest, p = (([len (h_sigs h)] ++ concat (h_sigs h)) ++ mid) ++ concat (h_addrs h) ++ h_bh h ++ rest /\ len (([len (h_sigs h)] ++ concat (h_sigs h)) ++ mid) = h_acct_off h) as (mid & rest & E3 & Eoff).
  { exists ((h_version h ++ [len (h_sigs h)]) ++ [h_ros h] ++ [h_rou h] ++ fd_cu16_enc (len (h_addrs h))), (fd_cu16_enc (h_ni h) ++ concat (ser_instr <$> xs) ++ (if h_v0 h then ser_tables luts else []) ++ tail).
    split; [rewrite E1; unfold ser_header; by rewrite <- !app_assoc|]. unfold h_acct_off. rewrite !length_app. cbn [length]. lia. }
  split; cbn [tx_transaction_version tx_readonly_signed_cnt tx_readonly_unsigned_cnt tx_instr_cnt tx_instr tx_addr_table_lookup_cnt tx_address_tables tx_addr_table_adtl_writable_cnt tx_addr_table_adtl_cnt].
  - unfold msg_of. cbn. by destruct (h_v0 h).
  - done.
  - unfold fd_txn_get_signatures. cbn [tx_signature_off tx_signature_cnt]. apply (objects_at 64 (h_sigs h) p (ser_message (msg_of h xs luts) ++ tail) (ho_sigs h Hok) [len (h_sigs h)]); [|done|done]. by rewrite Ep, E2, <- !app_assoc.
  - unfold fd_txn_get_acct_addrs. cbn [tx_acct_addr_off tx_acct_addr_cnt]. by apply (objects_at 32 (h_addrs h) p (h_bh h ++ rest) (ho_addrs h Hok) _ _ _ E3).
  - unfold fd_txn_get_recent_blockhash. cbn [tx_recent_blockhash_off]. apply (slice_at ((([len (h_sigs h)] ++ concat (h_sigs h)) ++ mid) ++ concat (h_addrs h)) (h_bh h) rest); [rewrite E3; by rewrite <- !app_assoc|rewrite (ho_bh h Hok); done|rewrite length_app; lia].
  - by rewrite !layout_length.
  - eapply (layout_at ser_instr describe_instr (instr_of p) (fun _ => True)); [by apply Forall_true| |exact E1|done]. intros a x c _. apply instr_read.
  - rewrite Eluts. destruct (h_v0 h) eqn:Ev; [|by rewrite Hl].
    apply (layout_at ser_lut describe_lut (lut_of p) _ p tail luts Hlu) with (a := ser_header h ++ concat (ser_instr <$> xs) ++ fd_cu16_enc (len luts)); [intros a x c [Hx _]; by apply lut_read| |].
    + rewrite E1. unfold ser_tables. by rewrite <- !app_assoc.
    + rewrite !length_app. lia.
  - unfold m_writable, m_adtl. by rewrite Eluts.
  - unfold fd_txn_msg_sz. cbn [tx_transaction_version tx_message_off]. assert (((if h_v0 h then FD_TXN_V0 else FD_TXN_VLEGACY) =? FD_TXN_V1) = false) as -> by (by destruct (h_v0 h)).
    apply (slice_at ([len (h_sigs h)] ++ concat (h_sigs h)) _ tail); [by rewrite Ep, E2, <- !app_assoc| |rewrite length_app; cbn [length]; lia].
    rewrite E2, !length_app in Hm |- *. cbn [length] in *. rewrite u64_sub_small by (unfold is_u64, ULONG_MAX; lia). lia.
  - intros c Hc. unfold msg_of in Hc. cbn in Hc. by destruct (h_v0 h).
Qed.

Lemma reads_v1 h xs sigs tail : wf (v1_msg h xs sigs) -> v1h_ok h -> v_nsig h = len sigs -> v_ni h = len xs ->
  reads_as (describe (v1_msg h xs sigs)) (ser (v1_msg h xs sigs) ++ tail) (v1_msg h xs sigs).
Proof.
  intros Hwf Hok Hs Hni. pose proof (blocks_len 32 _ (vo_addrs h Hok)) as La. pose proof (wf_mtu _ Hwf) as Hm. change (mtu (v1_msg h xs sigs)) with 4096 in Hm.
  rewrite (describe_v1_msg h xs sigs Hok Hs Hni). assert (ser (v1_msg h xs sigs) = ser_message (v1_msg h xs sigs) ++ concat sigs) as E2 by done.
  pose proof (ser_v1_msg h xs sigs Hs Hni) as E0. remember (ser (v1_msg h xs sigs) ++ tail) as p eqn:Ep.
  assert (p = ser_v1h h ++ concat (ser_instr_header <$> xs) ++ concat (ser_instr_body <$> xs) ++ concat sigs ++ tail) as E1 by (by rewrite Ep, E2, E0, <- !app_assoc).
  set (b4 := [0x81] ++ [v_nsig h] ++ [v_ros h] ++ [v_rou h]). set (mask := config_mask (v_config h)). set (vals := config_values (v_config h)).
  assert (exists rest, p = b4 ++ le_store 4 mask ++ v_bh h ++ ([v_ni h] ++ [len (v_addrs h)]) ++ concat (v_addrs h) ++ vals ++ rest) as [rest E3].
  { exists (concat (ser_instr_header <$> xs) ++ concat (ser_instr_body <$> xs) ++ concat sigs ++ tail). rewrite E1. unfold ser_v1h, b4, mask, vals. by rewrite <- !app_assoc. }
  split; cbn [tx_transaction_version tx_readonly_signed_cnt tx_readonly_unsigned_cnt tx_instr_cnt tx_instr tx_addr_table_lookup_cnt tx_address_tables tx_addr_table_adtl_writable_cnt tx_addr_table_adtl_cnt tx_v1_txn_config_values_off].
  - done.
  - done.
  - unfold fd_txn_get_signatures. cbn [tx_signature_off tx_signature_cnt]. apply (objects_at 64 sigs p tail (wf_sigs _ Hwf) (ser_message (v1_msg h xs sigs))); [by rewrite Ep, E2, <- !app_assoc|done|done].
  - unfold fd_txn_get_acct_addrs. cbn [tx_acct_addr_off tx_acct_addr_cnt].
    apply (objects_at 32 (v_addrs h) p (vals ++ rest) (vo_addrs h Hok) (b4 ++ le_store 4 mask ++ v_bh h ++ ([v_ni h] ++ [len (v_addrs h)]))); [rewrite E3; by rewrite <- !app_assoc| |done].
    rewrite !length_app, le_store_length, (vo_bh h Hok). reflexivity.
  - unfold fd_txn_get_recent_blockhash. cbn [tx_recent_blockhash_off]. apply (slice_at (b4 ++ le_store 4 mask) (v_bh h) (([v_ni h] ++ [len (v_addrs h)]) ++ concat (v_addrs h) ++ vals ++ rest)); [rewrite E3; by rewrite <- !app_assoc|by rewrite (vo_bh h Hok)|].
    rewrite !length_app, le_store_length. reflexivity.
  - by rewrite layout_length.
  - apply (layout_at ser_instr_body describe_instr_v1 (instr_of p) (fun _ => True) p (concat sigs ++ tail)) with (a := ser_v1h h ++ concat (ser_instr_header <$> xs)); [by apply Forall_true| | |].
    + intros a x c _. apply instr_read_v1.
    + rewrite E1. by rewrite <- !app_assoc.
    + rewrite length_app. lia.
  - done.
  - done.
  - unfold fd_txn_msg_sz. cbn [tx_transaction_version tx_message_off tx_signature_off]. change (FD_TXN_V1 =? FD_TXN_V1) with true. cbn iota.
    rewrite E2, length_app in Hm. apply (slice_at [] _ (concat sigs ++ tail)); [by rewrite Ep, E2, <- !app_assoc| |done]. rewrite u64_sub_small by (unfold is_u64, ULONG_MAX; lia). lia.
  - intros c [= <-]. exists mask. rewrite E3 at 1. destruct (config_mask_facts (v_config h)) as (_ & Hmask & _). split; [apply ld_store; [done|]; fold mask in Hmask; change (256 ^ Z.of_nat 4) with 4294967296; lia|]. split; [done|].
    replace (drop (Z.to_nat (42 + 32 * len (v_addrs h))) p) with (vals ++ rest); [by apply config_read, (vo_config h Hok)|].
    rewrite E3, !app_assoc, <- (app_assoc _ vals). rewrite drop_app_length'; [done|]. rewrite !length_app, le_store_length, (vo_bh h Hok). unfold b4. cbn [length app]. lia.
Qed.

Lemma reads_back m tail : wf m -> reads_as (describe m) (ser m ++ tail) m.
Proof.
  intros Hwf. destruct (is_v1 m) eqn:Hv.
  - destruct (wf_v1_inv m Hwf Hv) as (h & Em & Hok & Hs & Hn & _). rewrite Em in Hwf |- *. by apply reads_v1.
  - destruct (wf_legacy_inv m Hwf Hv) as (h & luts & Em & Hok & Hn & Hl & _ & Hlu & _). rewrite Em in Hwf |- *. by apply reads_legacy.
Qed.

(** ** The parser *)

Lemma ser_first m : wf m -> exists b l, ser m = b :: l /\ (is_v1 m = true <-> 128 <= b).
Proof.
  intros Hwf. destruct (is_v1 m) eqn:Hv.
  - destruct (wf_v1_inv m Hwf Hv) as (h & Em & _ & Hs & Hn & _). exists 0x81. unfold ser. rewrite Hv. rewrite Em, (ser_v1_msg h _ _ Hs Hn). unfold ser_v1h. cbn [app]. eexists. split; [reflexivity|]. split; [lia|done].
  - exists (len (m_sigs m)). unfold ser. rewrite Hv. cbn [app]. eexists. split; [reflexivity|]. pose proof (wf_sig_cnt m Hwf). split; [done|lia].
Qed.

(** What the parser accepts: a well formed transaction at the start of the payload, or the
    whole payload where the caller does not ask for the size. *)
Definition accepts (payload_sz_opt : bool) (payload : list Z) (m : message) : Prop :=
  wf m /\ ser m `prefix_of` payload /\ (payload_sz_opt = true \/ len (ser m) = len payload).

Lemma prefix_pl payload payload_sz bs rest : pl payload payload_sz = bs ++ rest -> bs `prefix_of` payload.
Proof. intros E. exists (rest ++ drop (Z.to_nat payload_sz) payload). rewrite app_assoc, <- E. symmetry. apply take_drop. Qed.

Lemma prefix_in_pl payload payload_sz bs : bs `prefix_of` payload -> len bs <= payload_sz -> exists rest, pl payload payload_sz = bs ++ rest.
Proof. intros [rest ->] Hl. unfold pl. rewrite take_app_ge by lia. eauto. Qed.

(** The part of the parser behind the choice of the version. *)
Lemma parse_body payload payload_sz_opt b l : Forall is_byte payload -> payload = b :: l ->
  exists r, (if 128 <=? b then parse_v1 else parse_legacy_v0) payload (Z.min (len payload) (if 128 <=? b then FD_TXN_MTU else FD_TXN_MTU_V0)) (len payload) payload_sz_opt 0 = Ok r /\
    forall t i, r = inr (t, i) <-> exists m, accepts payload_sz_opt payload m /\ t = describe m /\ i = len (ser m).
Proof.
  intros HB Ep. set (sz := Z.min (len payload) (if 128 <=? b then FD_TXN_MTU else FD_TXN_MTU_V0)). unfold FD_TXN_MTU, FD_TXN_MTU_V0 in sz.
  assert (0 <= sz <= len payload) as Hsz by (unfold sz; destruct (128 <=? b); lia). assert (1 <= len payload) as H1 by (rewrite Ep; cbn [length]; lia).
  assert (exists l', pl payload sz = b :: l') as [l' El].
  { unfold pl. rewrite Ep. assert (1 <= sz) by (unfold sz; destruct (128 <=? b); lia). destruct (Z.to_nat sz) as [|k] eqn:E; [lia|]. by eexists. }
  assert (runs_at payload sz [] (pl payload sz) ((if 128 <=? b then parse_v1 else parse_legacy_v0) payload sz (len payload) payload_sz_opt)
    (fun t bs => exists m, t = describe m /\ bs = ser m /\ is_v1 m = (128 <=? b) /\ wf m /\ (payload_sz_opt = true \/ len bs = len payload))) as [_ (r & Er & Hr)].
  { destruct (128 <=? b) eqn:Eb; boolp; [apply (runs_v1 _ _ _ _ Hsz) with (b := b) (l := l'); try done; unfold sz; lia|]. apply runs_legacy_v0; try done. unfold sz. lia. }
  exists r. split; [done|]. intros t i. rewrite Hr. split.
  - intros (bs & rest & Es & -> & m & -> & -> & _ & Hwf & Ho). exists m. split; [|done]. split; [done|]. split; [by eapply prefix_pl|done].
  - intros (m & (Hwf & Hp & Ho) & -> & ->). destruct (ser_first m Hwf) as (b' & l2 & E2 & Hv). assert (b' = b) as ->. { destruct Hp as [rest Er']. rewrite Ep, E2 in Er'. by injection Er'. }
    assert (is_v1 m = (128 <=? b)) as Ev. { apply eq_true_iff_eq. by rewrite Hv, Z.leb_le. }
    destruct (prefix_in_pl payload sz (ser m) Hp) as [rest Er'].
    { pose proof (wf_mtu m Hwf) as Hm. unfold mtu in Hm. rewrite Ev in Hm. pose proof (prefix_length _ _ Hp). unfold FD_TXN_MTU, FD_TXN_MTU_V0, sz in *. destruct (128 <=? b); lia. }
    exists (ser m), rest. split; [done|]. split; [done|]. by exists m.
Qed.

Lemma wf_sizes m : wf m -> 134 <= len (ser m) /\ 22 + 10 * len (m_instrs m) + 8 * len (m_luts m) <= 854.
Proof.
  intros Hwf. pose proof (wf_instr_cnt m Hwf) as Hi. pose proof (wf_mtu m Hwf) as Hm. unfold mtu in Hm. destruct (is_v1 m) eqn:Hv.
  - assert (m_luts m = []) as -> by (unfold m_luts, is_v1 in *; by destruct (m_kind m)). split; [|cbn [length]; lia].
    pose proof (blocks_len 64 _ (wf_sigs m Hwf)). pose proof (wf_sig_cnt m Hwf). destruct (wf_v1_inv m Hwf Hv) as (h & Em & Hok & Hs & Hn & _). unfold ser. rewrite Hv, length_app.
    rewrite Em, (ser_v1_msg h _ _ Hs Hn), !length_app. pose proof (v1h_len h Hok). destruct Hok. cbn [v1_msg m_sigs]. lia.
  - destruct (wf_legacy_inv m Hwf Hv) as (h & luts & Em & Hok & Hn & Hl & _ & Hlu & _). rewrite Em in Hm |- *. rewrite ser_msg_of, luts_msg_of, !length_app in * by done. unfold FD_TXN_MTU_V0 in Hm. cbn [msg_of m_instrs].
    pose proof (header_len h Hok) as [Hh1 Hh2]. pose proof (instrs_len (m_instrs m)). pose proof (luts_len (len (h_addrs h)) luts ltac:(lia) Hlu).
    split; [lia|]. destruct (h_v0 h) eqn:Ev; [|rewrite (Hl eq_refl); cbn [length]; lia]. unfold ser_tables in Hm. rewrite length_app in Hm. pose proof (cu16_len_pos (len luts)). lia.
Qed.

Lemma describe_counts m : wf m -> tx_instr_cnt (describe m) = len (m_instrs m) /\ tx_addr_table_lookup_cnt (describe m) = len (m_luts m) /\
  len (tx_instr (describe m)) = len (m_instrs m) /\ len (tx_address_tables (describe m)) = len (m_luts m).
Proof.
  intros Hwf. unfold describe, describe_legacy, describe_v1, m_luts. destruct (m_kind m); cbn [tx_instr_cnt tx_addr_table_lookup_cnt tx_instr tx_address_tables]; by rewrite ?layout_length.
Qed.

Lemma footprint_eq a b : 0 <= a <= 64 -> 0 <= b <= 127 -> fd_txn_footprint a b = 22 + 10 * a + 8 * b.
Proof.
  intros Ha Hb. unfold fd_txn_footprint, u64_mul. rewrite !u64_small by (unfold is_u64, ULONG_MAX; lia).
  rewrite (u64_add_small 22), u64_add_small by (unfold is_u64, ULONG_MAX; lia). lia.
Qed.

(** What the caller of the parser sees. *)
Lemma parse_core_eq payload counters_opt payload_sz_opt : Forall is_byte payload -> exists r,
  fd_txn_parse_core payload (len payload) counters_opt payload_sz_opt = Ok r /\
  ((exists m, accepts payload_sz_opt payload m /\ (forall m', accepts payload_sz_opt payload m' -> describe m' = describe m) /\ r = mk_result (22 + 10 * len (m_instrs m) + 8 * len (m_luts m)) (Some (describe m)) (count_success <$> counters_opt) (if payload_sz_opt then Some (len (ser m)) else None)) \/
   ((forall m, ~ accepts payload_sz_opt payload m) /\ exists line, r = mk_result 0 None (count_failure line <$> counters_opt) None)).
Proof.
  intros HB. unfold fd_txn_parse_core. assert (payload = [] \/ exists b l, payload = b :: l) as [->|(b & l & Ep)] by (destruct payload; eauto).
  - cbn [length]. change (Z.of_nat 0 =? 0) with true. cbn iota. eexists. split; [reflexivity|]. right. split; [|by exists 94]. intros m (Hwf & Hp & _).
    destruct (ser_first m Hwf) as (b & l & E & _). rewrite E in Hp. by apply prefix_nil_not in Hp.
  - rewrite (proj2 (Z.eqb_neq (len payload) 0)) by (rewrite Ep; cbn [length]; lia). assert (ld 1 payload 0 = Ok b) as -> by (rewrite Ep; apply ld_byte). cbn [mbind outcome_bind].
    assert (is_byte b) as Hb by (rewrite Ep in HB; by apply Forall_cons in HB as [? _]).
    assert (negb (Z.land b 0x80 =? 0) = (128 <=? b)) as -> by (rewrite Z.land_comm, byte_high_not by done; rewrite Z.leb_antisym; done).
    destruct (parse_body payload payload_sz_opt b l HB Ep) as (r & Er & Hr). rewrite Er. cbn [mbind outcome_bind]. destruct r as [line|[t i]].
    + eexists. split; [reflexivity|]. right. split; [|by exists line]. intros m Hm.
      assert (inl line = inr (describe m, len (ser m))) as C by (apply Hr; by exists m). discriminate C.
    + destruct (proj1 (Hr t i) eq_refl) as (m & Hm & -> & ->). eexists. split; [reflexivity|]. left. exists m. split; [done|]. split.
      { intros m' Hm'. assert (inr (A := Z) (describe m, len (ser m)) = inr (describe m', len (ser m'))) as C by (apply Hr; by exists m'). by injection C. }
      pose proof Hm as (Hwf & _). destruct (describe_counts m Hwf) as (-> & -> & _).
      pose proof (wf_sizes m Hwf). pose proof (wf_instr_cnt m Hwf). by rewrite footprint_eq by lia.
Qed.

(** C10: [fd_txn_parse_core] on any sequence of bytes: it ends without an access outside
    the payload and without a write outside the [FD_TXN_MAX_SZ] bytes of the output, and it
    gives the transaction [t] exactly when the payload is (or, if the caller asks for the
    size, starts with) a well formed transaction that [t] describes.  Otherwise it returns
    0.  The size it returns is that of the structure, at most [FD_TXN_MAX_SZ]; an accepted
    payload has at least 134 bytes. *)
Theorem txn_parse_exact (payload : list Z) (counters_opt : option fd_txn_parse_counters_t) (payload_sz_opt : bool) :
  Forall is_byte payload ->
  exists r, fd_txn_parse_core payload (len payload) counters_opt payload_sz_opt = Ok r /\
    (forall t, pr_out r = Some t <-> exists m, accepts payload_sz_opt payload m /\ t = describe m) /\
    match pr_out r with
    | Some t => pr_ret r = 22 + 10 * len (tx_instr t) + 8 * len (tx_address_tables t) /\ 22 <= pr_ret r <= FD_TXN_MAX_SZ /\
                134 <= len payload /\ pr_counters r = count_success <$> counters_opt
    | None => pr_ret r = 0 /\ exists line, pr_counters r = count_failure line <$> counters_opt
    end.
Proof.
  intros HB. destruct (parse_core_eq payload counters_opt payload_sz_opt HB) as (r & Er & [(m & Hm & Hu & ->)|(Hno & line & ->)]); eexists; (split; [exact Er|]); cbn [pr_out pr_ret pr_counters].
  - pose proof Hm as (Hwf & Hp & _). destruct (wf_sizes m Hwf) as [H1 H2]. destruct (describe_counts m Hwf) as (_ & _ & -> & ->). pose proof (prefix_length _ _ Hp). unfold FD_TXN_MAX_SZ.
    split; [|split; [done|split; [lia|split; [lia|done]]]]. intros t. split; [intros [= <-]; by exists m|]. intros (m' & Hm' & ->). by rewrite (Hu m' Hm').
  - split; [|split; [done|by exists line]]. intros t. split; [done|]. intros (m & Hm & _). by destruct (Hno m).
Qed.

Lemma option_default_inj (o o' : option Z) d : some_b o = some_b o' -> default d o = default d o' -> o = o'.
Proof. destruct o, o'; cbn; congruence. Qed.

Lemma config_inj c c' d : config_mask c = config_mask c' ->
  (default 0 (cm_fee c), default 0 (cm_cu c), default 0 (cm_lads c), default d (cm_heap c)) = (default 0 (cm_fee c'), default 0 (cm_cu c'), default 0 (cm_lads c'), default d (cm_heap c')) -> c = c'.
Proof.
  intros Em [= E1 E2 E3 E4]. destruct (config_mask_facts c) as (_ & _ & M0 & _ & M2 & M3 & M4), (config_mask_facts c') as (_ & _ & M0' & _ & M2' & M3' & M4'). rewrite Em in *.
  destruct c as [f u l h], c' as [f' u' l' h']. cbn [cm_fee cm_cu cm_lads cm_heap] in *.
  rewrite (option_default_inj f f' 0), (option_default_inj u u' 0), (option_default_inj l l' 0), (option_default_inj h h' d); congruence.
Qed.

(** The parsed form and the payload determine the message. *)
Lemma reads_inj t p m m' : reads_as t p m -> reads_as t p m' -> m = m'.
Proof.
  intros R R'. assert (m_kind m = m_kind m') as Ek.
  { pose proof (ra_version _ _ _ R) as V. rewrite (ra_version _ _ _ R') in V. pose proof (ra_luts _ _ _ R) as L. rewrite (ra_luts _ _ _ R') in L. unfold m_luts in L.
    destruct (m_kind m) as [|lu|c] eqn:Em, (m_kind m') as [|lu'|c'] eqn:Em'; try discriminate V; [done|by rewrite L|]. f_equal.
    destruct (ra_config _ _ _ R c Em) as (k & K1 & K2 & K3), (ra_config _ _ _ R' c' Em') as (k' & K1' & K2' & K3'). rewrite K1 in K1'. injection K1' as <-. rewrite K3 in K3'. injection K3' as E1 E2 E3 E4.
    apply (config_inj c c' FD_TXN_V1_DEFAULT_HEAP_SZ); congruence. }
  destruct R as [_ [C1 C2] S A B _ I _ _ _ _], R' as [_ [C1' C2'] S' A' B' _ I' _ _ _ _]. destruct m, m'. cbn in *. congruence.
Qed.

Lemma wf_app_bytes m tail : wf m -> Forall is_byte tail -> Forall is_byte (ser m ++ tail).
Proof. intros Hwf Ht. apply Forall_app. split; [exact (wf_bytes m Hwf)|done]. Qed.

(** C11: Every well formed transaction is parsed, on its own or in front of other bytes if
    the caller asks for the size, and the parsed form reads back as that transaction:
    signatures, addresses, block hash, every instruction's program, accounts and data,
    every lookup table, the signed message, and for version 1 the configuration.  No other
    transaction is accepted at the same place, so a payload has one meaning. *)
Theorem txn_parse_roundtrip (m : message) (tail : list Z) (counters_opt : option fd_txn_parse_counters_t) (payload_sz_opt : bool) :
  wf m -> Forall is_byte tail -> payload_sz_opt = true \/ tail = [] ->
  let payload := ser m ++ tail in
  exists r t, fd_txn_parse_core payload (len payload) counters_opt payload_sz_opt = Ok r /\ pr_out r = Some t /\
    pr_ret r = fd_txn_footprint (len (m_instrs m)) (len (m_luts m)) /\
    pr_payload_sz r = (if payload_sz_opt then Some (len (ser m)) else None) /\
    reads_as t payload m /\ (forall m', accepts payload_sz_opt payload m' -> m' = m).
Proof.
  intros Hwf Ht Ho payload. assert (accepts payload_sz_opt payload m) as Hacc.
  { split; [done|]. split; [by exists tail|]. destruct Ho as [->| ->]; [by left|right]. unfold payload. by rewrite app_nil_r. }
  pose proof (reads_back m tail Hwf) as Hread. fold payload in Hread.
  destruct (parse_core_eq payload counters_opt payload_sz_opt (wf_app_bytes m tail Hwf Ht)) as (r & Er & [(m0 & Hm0 & Hu & ->)|(Hno & _)]); [|by destruct (Hno m)].
  assert (forall m', accepts payload_sz_opt payload m' -> m' = m) as Huniq.
  { intros m' Hm'. apply (reads_inj (describe m) payload); [|done]. rewrite (Hu m Hacc), <- (Hu m' Hm'). destruct Hm' as (Hwf' & [tail' ->] & _). by apply reads_back. }
  assert (m0 = m) as -> by (by apply Huniq). eexists _, _. split; [exact Er|]. cbn [pr_out pr_ret pr_payload_sz]. split; [done|].
  pose proof (wf_sizes m Hwf). pose proof (wf_instr_cnt m Hwf). rewrite footprint_eq by lia. done.
Qed.

(** ** An example *)

Lemma bytes_dec l : forallb (fun b => (0 <=? b) && (b <? 256)) l = true -> Forall is_byte l.
Proof. intros H. rewrite forallb_forall in H. apply Forall_forall. intros b Hb. apply list_elem_of_In, H, andb_true_iff in Hb as [H1 H2]. unfold is_byte. lia. Qed.

(** A version 0 transaction of one instruction, which uses an account of a lookup table. *)
Definition sample_v0 : message :=
  mk_msg (V0 [mk_lm (repeat 4 32) [5] []]) [repeat 7 64] 0 0 [repeat 1 32; repeat 2 32] (repeat 3 32) [mk_im 1 [0; 2] [9; 9; 9]].

Lemma sample_v0_wf : wf sample_v0.
Proof.
  split; try (cbn; lia); repeat constructor; cbn; (done || lia).
Qed.

Lemma txn_parse_exact_witness :
  Forall is_byte (ser sample_v0) /\
  exists r, fd_txn_parse_core (ser sample_v0) (len (ser sample_v0)) None false = Ok r /\
    (forall t, pr_out r = Some t <-> exists m, accepts false (ser sample_v0) m /\ t = describe m) /\
    match pr_out r with
    | Some t => pr_ret r = 22 + 10 * len (tx_instr t) + 8 * len (tx_address_tables t) /\ 22 <= pr_ret r <= FD_TXN_MAX_SZ /\
                134 <= len (ser sample_v0) /\ pr_counters r = count_success <$> None
    | None => pr_ret r = 0 /\ exists line, pr_counters r = count_failure line <$> None
    end.
Proof.
  assert (Forall is_byte (ser sample_v0)) as HB by (apply bytes_dec; vm_compute; reflexivity).
  split; [exact HB|]. exact (txn_parse_exact (ser sample_v0) None false HB).
Defined.

Lemma txn_parse_roundtrip_witness :
  let payload := ser sample_v0 ++ [1; 2; 3] in
  exists r t, fd_txn_parse_core payload (len payload) None true = Ok r /\ pr_out r = Some t /\
    pr_ret r = fd_txn_footprint (len (m_instrs sample_v0)) (len (m_luts sample_v0)) /\
    pr_payload_sz r = (if true then Some (len (ser sample_v0)) else None) /\
    reads_as t payload sample_v0 /\ (forall m', accepts true payload m' -> m' = sample_v0).
Proof.
  apply (txn_parse_roundtrip sample_v0 [1; 2; 3] None true sample_v0_wf); [apply bytes_dec; reflexivity|left; reflexivity].
Defined.
