(* ===== verification/TxnAccounts.v ===== *)
(** * Accounts of a transaction by category

    src/src/ballet/txn/fd_txn.h: the number of the accounts of a category, the iterator
    over them, packed in one 64-bit word, and the two tests of a single account.  They are
    held against the definition of the categories: [acct_cat] gives the category of an
    account index, and a set of categories selects the indices whose category it has. *)
From S2P Require Import Prelude Txn TxnRuns TxnCu16 TxnGrammar TxnLegacy TxnV1 TxnProps.

Definition FD_TXN_ACCT_CAT_WRITABLE_SIGNER : Z := 0x01.
Definition FD_TXN_ACCT_CAT_READONLY_SIGNER : Z := 0x02.
Definition FD_TXN_ACCT_CAT_WRITABLE_NONSIGNER_IMM : Z := 0x04.
Definition FD_TXN_ACCT_CAT_READONLY_NONSIGNER_IMM : Z := 0x08.
Definition FD_TXN_ACCT_CAT_WRITABLE_ALT : Z := 0x10.
Definition FD_TXN_ACCT_CAT_READONLY_ALT : Z := 0x20.
Definition FD_TXN_ACCT_CAT_WRITABLE : Z := 0x15.
Definition FD_TXN_ACCT_CAT_SIGNER : Z := 0x03.

(** [include_cat & f]. *)
Definition in_cat (include_cat f : Z) : bool := negb (Z.land include_cat f =? 0).

Definition fd_txn_account_cnt (txn : fd_txn_t) (include_cat : Z) : Z :=
  let cnt := 0 in
  let cnt := if in_cat include_cat FD_TXN_ACCT_CAT_WRITABLE_SIGNER then cnt +w (tx_signature_cnt txn -w tx_readonly_signed_cnt txn) else cnt in
  let cnt := if in_cat include_cat FD_TXN_ACCT_CAT_READONLY_SIGNER then cnt +w tx_readonly_signed_cnt txn else cnt in
  let cnt := if in_cat include_cat FD_TXN_ACCT_CAT_READONLY_NONSIGNER_IMM then cnt +w tx_readonly_unsigned_cnt txn else cnt in
  let cnt := if in_cat include_cat FD_TXN_ACCT_CAT_WRITABLE_ALT then cnt +w tx_addr_table_adtl_writable_cnt txn else cnt in
  let cnt := if in_cat include_cat FD_TXN_ACCT_CAT_WRITABLE_NONSIGNER_IMM
             then cnt +w (tx_acct_addr_cnt txn -w tx_signature_cnt txn -w tx_readonly_unsigned_cnt txn) else cnt in
  if in_cat include_cat FD_TXN_ACCT_CAT_READONLY_ALT then cnt +w (tx_addr_table_adtl_cnt txn -w tx_addr_table_adtl_writable_cnt txn) else cnt.

(** [control[ i ]]: the array of three words. *)
Definition ctl_get (control : list Z) (i : Z) : outcome Z :=
  match control !! Z.to_nat i with Some c => Ok c | None => Fail OutOfBounds end.
Definition ctl_set (control : list Z) (i v : Z) : outcome (list Z) :=
  match control !! Z.to_nat i with Some _ => Ok (<[Z.to_nat i := v]> control) | None => Fail OutOfBounds end.

(** [INCLUDE_RANGE( f, start, cnt )] on the array and the index [i]. *)
Definition INCLUDE_RANGE (include_cat f start cnt : Z) (st : list Z * Z) : outcome (list Z * Z) :=
  if in_cat include_cat f then
    st ← (let '(control, i) := st in
          if negb (in_cat include_cat (Z.shiftr f 1)) then
            let i := i +w 1 in control ← ctl_set control i start; Ok (control, i)
          else Ok (control, i));
    let '(control, i) := (st : list Z * Z) in
    c ← ctl_get control i;
    control ← ctl_set control i (c +w u64 (Z.shiftl cnt 8));
    Ok (control, i)
  else Ok st.

Definition fd_ulong_if (c : bool) (t f : Z) : Z := if c then t else f.

Definition fd_txn_acct_iter_init (txn : fd_txn_t) (include_cat : Z) : outcome Z :=
  let s := tx_signature_cnt txn in
  let q := tx_readonly_signed_cnt txn in
  let r := tx_readonly_unsigned_cnt txn in
  let a := tx_acct_addr_cnt txn in
  let t := tx_addr_table_adtl_cnt txn in
  let u := tx_addr_table_adtl_writable_cnt txn in
  st ← INCLUDE_RANGE include_cat FD_TXN_ACCT_CAT_WRITABLE_SIGNER 0 (s -w q) ([0; 0; 0], ULONG_MAX);
  st ← INCLUDE_RANGE include_cat FD_TXN_ACCT_CAT_READONLY_SIGNER (s -w q) q st;
  st ← INCLUDE_RANGE include_cat FD_TXN_ACCT_CAT_WRITABLE_NONSIGNER_IMM s (a -w r -w s) st;
  st ← INCLUDE_RANGE include_cat FD_TXN_ACCT_CAT_READONLY_NONSIGNER_IMM (a -w r) r st;
  st ← INCLUDE_RANGE include_cat FD_TXN_ACCT_CAT_WRITABLE_ALT a u st;
  st ← INCLUDE_RANGE include_cat FD_TXN_ACCT_CAT_READONLY_ALT (a +w u) (t -w u) st;
  let '(control, _) := (st : list Z * Z) in
  control0 ← ctl_get control 0;
  control1 ← ctl_get control 1;
  control2 ← ctl_get control 2;
  let control2_empty := Z.land control2 0xFF00 =? 0 in
  let control2 := fd_ulong_if control2_empty 0 control2 in
  let control1_empty := Z.land control1 0xFF00 =? 0 in
  let control1 := fd_ulong_if control1_empty control2 control1 in
  let control2 := fd_ulong_if control1_empty 0 control2 in
  let control0_empty := Z.land control0 0xFF00 =? 0 in
  let control0 := fd_ulong_if control0_empty control1 control0 in
  let control1 := fd_ulong_if control0_empty control2 control1 in
  let control2 := fd_ulong_if control0_empty 0 control2 in
  Ok (Z.lor (Z.lor control0 (u64 (Z.shiftl control1 16))) (u64 (Z.shiftl control2 32))).

Definition fd_txn_acct_iter_next (cur : Z) : Z :=
  let cur := cur +w 0x0001 -w 0x0100 in
  fd_ulong_if (negb (Z.land cur 0xFF00 =? 0)) cur (Z.shiftr cur 16).

Definition fd_txn_acct_iter_end : Z := 0.
Definition fd_txn_acct_iter_idx (cur : Z) : Z := Z.land cur 0xFF.

(** The loop of the example usage: the indices it visits, for at most [fuel] rounds. *)
Fixpoint iterate (fuel : nat) (cur : Z) : option (list Z) :=
  if cur =? fd_txn_acct_iter_end then Some [] else
  match fuel with
  | O => None
  | S fuel' => cons (fd_txn_acct_iter_idx cur) <$> iterate fuel' (fd_txn_acct_iter_next cur)
  end.

Definition fd_txn_is_writable (txn : fd_txn_t) (idx : Z) : bool :=
  if (tx_transaction_version txn =? FD_TXN_V0) && (tx_acct_addr_cnt txn <=? idx) then
    idx <? tx_acct_addr_cnt txn + tx_addr_table_adtl_writable_cnt txn
  else if idx <? tx_signature_cnt txn - tx_readonly_signed_cnt txn then true
  else (tx_signature_cnt txn <=? idx) && (idx <? tx_acct_addr_cnt txn - tx_readonly_unsigned_cnt txn).

Definition fd_txn_is_signer (txn : fd_txn_t) (idx : Z) : bool := idx <? tx_signature_cnt txn.

(** ** The categories *)

(** The table in the comment on [acct_addr_off]: the category of account [idx]. *)
Definition acct_cat (t : fd_txn_t) (idx : Z) : Z :=
  if idx <? tx_signature_cnt t - tx_readonly_signed_cnt t then FD_TXN_ACCT_CAT_WRITABLE_SIGNER else
  if idx <? tx_signature_cnt t then FD_TXN_ACCT_CAT_READONLY_SIGNER else
  if idx <? tx_acct_addr_cnt t - tx_readonly_unsigned_cnt t then FD_TXN_ACCT_CAT_WRITABLE_NONSIGNER_IMM else
  if idx <? tx_acct_addr_cnt t then FD_TXN_ACCT_CAT_READONLY_NONSIGNER_IMM else
  if idx <? tx_acct_addr_cnt t + tx_addr_table_adtl_writable_cnt t then FD_TXN_ACCT_CAT_WRITABLE_ALT else FD_TXN_ACCT_CAT_READONLY_ALT.

Definition all_accts (t : fd_txn_t) : list Z := seqZ 0 (tx_acct_addr_cnt t + tx_addr_table_adtl_cnt t).

Definition selected (t : fd_txn_t) (include_cat : Z) : list Z :=
  filter (fun idx => in_cat include_cat (acct_cat t idx) = true) (all_accts t).

(** What the parser guarantees of the counts. *)
Record counts_ok (t : fd_txn_t) : Prop := mk_counts_ok {
  co_signed : 0 <= tx_readonly_signed_cnt t <= tx_signature_cnt t;
  co_unsigned : 0 <= tx_readonly_unsigned_cnt t /\ tx_signature_cnt t + tx_readonly_unsigned_cnt t <= tx_acct_addr_cnt t;
  co_tables : 0 <= tx_addr_table_adtl_writable_cnt t <= tx_addr_table_adtl_cnt t;
  co_total : tx_acct_addr_cnt t + tx_addr_table_adtl_cnt t <= 64;
  co_version : tx_transaction_version t <> FD_TXN_V0 -> tx_addr_table_adtl_cnt t = 0;
}.

(** ** Packed ranges *)

Definition seg_ok (x : Z * Z) : Prop := 0 <= x.1 /\ 0 <= x.2 /\ x.1 + x.2 <= 64.
Definition enc (x : Z * Z) : Z := x.1 + 256 * x.2.
Definition segs_list (l : list (Z * Z)) : list Z := concat ((fun x => seqZ x.1 x.2) <$> l).

Definition rep (segs : list (Z * Z)) : list Z * Z := ((enc <$> segs) ++ repeat 0 (3 - length segs), u64 (len segs - 1)).

Lemma enc_range x : seg_ok x -> 0 <= enc x < 65536.
Proof. unfold seg_ok, enc. lia. Qed.

Lemma u64_last n : 0 <= n <= 3 -> u64 (n - 1) +w 1 = n /\ (1 <= n -> u64 (n - 1) = n - 1).
Proof.
  intros Hn. split; [|intros; apply u64_small; unfold is_u64, ULONG_MAX; lia]. unfold u64_add, u64. rewrite Zplus_mod_idemp_l. replace (n - 1 + 1) with n by lia. apply Z.mod_small. lia.
Qed.

Lemma rep_set_new segs v : (length segs < 3)%nat ->
  ctl_set ((enc <$> segs) ++ repeat 0 (3 - length segs)) (len segs) v = Ok ((enc <$> segs) ++ v :: repeat 0 (3 - S (length segs))).
Proof.
  intros Hl. unfold ctl_set. rewrite Nat2Z.id. replace (3 - length segs)%nat with (S (3 - S (length segs))) by lia. cbn [repeat].
  rewrite lookup_app_r, length_fmap, Nat.sub_diag by (by rewrite length_fmap). cbn. f_equal. rewrite insert_app_r_alt, length_fmap, Nat.sub_diag by (by rewrite length_fmap). done.
Qed.

Lemma rep_last segs x v : (length segs < 3)%nat -> let l := (enc <$> segs) ++ x :: repeat 0 (3 - S (length segs)) in
  ctl_get l (len segs) = Ok x /\ ctl_set l (len segs) v = Ok ((enc <$> segs) ++ v :: repeat 0 (3 - S (length segs))).
Proof.
  intros Hl l. unfold l, ctl_get, ctl_set. rewrite Nat2Z.id, lookup_app_r, length_fmap, Nat.sub_diag by (by rewrite length_fmap). cbn. split; [done|]. f_equal.
  rewrite insert_app_r_alt, length_fmap, Nat.sub_diag by (by rewrite length_fmap). done.
Qed.

Lemma rep_snoc segs x : (length segs < 3)%nat -> rep (segs ++ [x]) = ((enc <$> segs) ++ enc x :: repeat 0 (3 - S (length segs)), len segs).
Proof.
  intros Hl. unfold rep. rewrite fmap_app, <- app_assoc, length_app. cbn [length fmap list_fmap app]. rewrite Nat.add_1_r. f_equal.
  replace (Z.of_nat (S (length segs)) - 1) with (len segs) by lia. apply u64_small. unfold is_u64, ULONG_MAX. lia.
Qed.

Lemma shl8 c : 0 <= c <= 64 -> u64 (Z.shiftl c 8) = 256 * c.
Proof. intros Hc. rewrite Z.shiftl_mul_pow2, u64_small by (unfold is_u64, ULONG_MAX; lia). change (2 ^ 8) with 256. lia. Qed.

Lemma include_new inc f start cnt segs : in_cat inc f = true -> in_cat inc (Z.shiftr f 1) = false -> (length segs < 3)%nat -> seg_ok (start, cnt) ->
  INCLUDE_RANGE inc f start cnt (rep segs) = Ok (rep (segs ++ [(start, cnt)])).
Proof.
  intros Hf Hp Hl (H1 & H2 & H3). cbn [fst snd] in *. unfold INCLUDE_RANGE. rewrite Hf, Hp. rewrite rep_snoc by done. unfold rep. cbn [negb]. destruct (u64_last (len segs) ltac:(lia)) as [-> _].
  rewrite rep_set_new by done. cbn [mbind outcome_bind]. destruct (rep_last segs start (start +w u64 (Z.shiftl cnt 8)) Hl) as [Eg Es]. rewrite Eg. cbn [mbind outcome_bind]. rewrite Es. cbn [mbind outcome_bind].
  rewrite shl8, u64_add_small by (unfold is_u64, ULONG_MAX; lia). done.
Qed.

Lemma include_more inc f start cnt segs s c : in_cat inc f = true -> in_cat inc (Z.shiftr f 1) = true -> (length segs < 3)%nat -> seg_ok (s, c) -> 0 <= cnt -> s + c + cnt <= 64 ->
  INCLUDE_RANGE inc f start cnt (rep (segs ++ [(s, c)])) = Ok (rep (segs ++ [(s, c + cnt)])).
Proof.
  intros Hf Hp Hl (H1 & H2 & H3) Hc Hs. cbn [fst snd] in *. unfold INCLUDE_RANGE. rewrite Hf, Hp, !rep_snoc by done. cbn [negb]. cbn [mbind outcome_bind].
  destruct (rep_last segs (enc (s, c)) (enc (s, c) +w u64 (Z.shiftl cnt 8)) Hl) as [Eg Es]. rewrite Eg. cbn [mbind outcome_bind]. rewrite Es. cbn [mbind outcome_bind].
  unfold enc. cbn [fst snd]. rewrite shl8, u64_add_small by (unfold is_u64, ULONG_MAX; lia). do 4 f_equal. lia.
Qed.

(** The array after the ranges of the first [k] categories, of which the last one is in
    the set if [b]: the ranges cover [sel] and up to [start]. *)
Definition covers (k : Z) (b : bool) (st : list Z * Z) (start : Z) (sel : list Z) : Prop :=
  exists segs, st = rep segs /\ 2 * len segs <= k + Z.b2z b /\ Forall seg_ok segs /\ segs_list segs = sel /\
    (b = true -> exists segs' s c, segs = segs' ++ [(s, c)] /\ s + c = start).

Lemma segs_list_snoc segs x : segs_list (segs ++ [x]) = segs_list segs ++ seqZ x.1 x.2.
Proof. unfold segs_list. rewrite fmap_app, concat_app. cbn. by rewrite app_nil_r. Qed.

Lemma include_covers inc f start cnt k b st sel : 0 <= k <= 5 -> in_cat inc (Z.shiftr f 1) = b -> 0 <= start -> 0 <= cnt -> start + cnt <= 64 -> covers k b st start sel ->
  exists st', INCLUDE_RANGE inc f start cnt st = Ok st' /\ covers (k + 1) (in_cat inc f) st' (start + cnt) (sel ++ if in_cat inc f then seqZ start cnt else []).
Proof.
  intros Hk Hb H0 Hc Hs (segs & -> & Hlen & Hok & Hsel & Hlast). destruct (in_cat inc f) eqn:Hf.
  - destruct b.
    + destruct (Hlast eq_refl) as (segs' & s & c & -> & Hsc). apply Forall_app in Hok as [Hok Hx]. rewrite Forall_singleton in Hx. rewrite length_app in Hlen. cbn in Hlen. pose proof Hx as Hx'. unfold seg_ok in Hx'. cbn [fst snd] in Hx'.
      eexists. split; [apply include_more; (done || lia)|]. exists (segs' ++ [(s, c + cnt)]). split; [done|]. rewrite length_app. cbn [length Z.b2z]. split; [lia|]. split; [apply Forall_app; split; [done|]; constructor; [|done]; unfold seg_ok; cbn; lia|].
      split; [|intros _; exists segs', s, (c + cnt); split; [done|lia]]. rewrite <- Hsel, !segs_list_snoc, <- app_assoc. cbn [fst snd]. by rewrite seqZ_app, Hsc by lia.
    + cbn in Hlen. eexists. split; [apply include_new; (done || lia || (unfold seg_ok; cbn; lia))|]. exists (segs ++ [(start, cnt)]). split; [done|]. rewrite length_app. cbn [length Z.b2z]. split; [lia|]. split; [apply Forall_app; split; [done|]; constructor; [|done]; unfold seg_ok; cbn; lia|].
      split; [by rewrite segs_list_snoc, Hsel|]. intros _. by exists segs, start, cnt.
  - eexists. split; [unfold INCLUDE_RANGE; by rewrite Hf|]. exists segs. split; [done|]. cbn [Z.b2z]. split; [destruct b; cbn in Hlen; lia|]. split; [done|]. split; [by rewrite app_nil_r|done].
Qed.

(** ** The iterator on packed ranges *)

Fixpoint pack (l : list (Z * Z)) : Z := match l with [] => 0 | x :: l' => enc x + 65536 * pack l' end.

Lemma land_byte1 x : Z.land x 0xFF00 = 256 * ((x / 256) mod 256).
Proof.
  change 0xFF00 with (Z.shiftl (Z.ones 8) 8). transitivity (Z.shiftl (Z.land (Z.shiftr x 8) (Z.ones 8)) 8).
  - apply Z.bits_inj'. intros n Hn. rewrite Z.land_spec, !Z.shiftl_spec, Z.land_spec by done. destruct (Z.lt_ge_cases n 8).
    + rewrite (Z.testbit_neg_r (Z.ones 8)) by lia. by rewrite !andb_false_r.
    + rewrite Z.shiftr_spec by lia. by replace (n - 8 + 8) with n by lia.
  - rewrite Z.land_ones, Z.shiftr_div_pow2, Z.shiftl_mul_pow2 by lia. change (2 ^ 8) with 256. lia.
Qed.

Lemma pack_fields s c r : 0 <= s < 256 -> 0 <= c < 256 ->
  (s + 256 * c + 65536 * r) mod 256 = s /\ ((s + 256 * c + 65536 * r) / 256) mod 256 = c /\ (s + 256 * c + 65536 * r) / 65536 = r.
Proof.
  intros Hs Hc. assert ((s + 256 * c + 65536 * r) / 256 = c + r * 256) as E.
  { replace (s + 256 * c + 65536 * r) with (s + (c + r * 256) * 256) by lia. rewrite Z.div_add, Z.div_small by lia. lia. }
  split; [replace (s + 256 * c + 65536 * r) with (s + (c + r * 256) * 256) by lia; rewrite Z.mod_add, Z.mod_small by lia; done|].
  split; [rewrite E, Z.mod_add, Z.mod_small by lia; done|]. replace (s + 256 * c + 65536 * r) with (s + 256 * c + r * 65536) by lia. rewrite Z.div_add, Z.div_small by lia. lia.
Qed.

Lemma pack_range l : Forall seg_ok l -> (length l <= 2)%nat -> 0 <= pack l <= 2 ^ 32.
Proof.
  intros Hok Hl. assert (0 <= pack l < 65536 ^ len l) as H.
  { clear Hl. induction Hok as [|x l Hx Hok IH]; cbn [pack length]; [lia|]. pose proof (enc_range x Hx). rewrite Nat2Z.inj_succ, Z.pow_succ_r by lia. lia. }
  assert (65536 ^ len l <= 65536 ^ 2) by (apply Z.pow_le_mono_r; lia). change (65536 ^ 2) with (2 ^ 32) in *. lia.
Qed.

Lemma next_pack s c l : seg_ok (s, c) -> 1 <= c -> 0 <= pack l <= 2 ^ 32 ->
  fd_txn_acct_iter_next (pack ((s, c) :: l)) = if c =? 1 then pack l else pack ((s + 1, c - 1) :: l).
Proof.
  intros (H1 & H2 & H3) Hc Hp. cbn [fst snd] in *. unfold fd_txn_acct_iter_next. cbn [pack]. unfold enc. cbn [fst snd].
  assert (s + 256 * c + 65536 * pack l +w 1 -w 256 = (s + 1) + 256 * (c - 1) + 65536 * pack l) as ->.
  { change (2 ^ 32) with 4294967296 in Hp. rewrite u64_add_small, u64_sub_small by (unfold is_u64, ULONG_MAX; lia). lia. }
  destruct (pack_fields (s + 1) (c - 1) (pack l)) as (F1 & F2 & F3); [lia|lia|]. rewrite land_byte1, F2. destruct (c =? 1) eqn:E1; boolp.
  - subst c. cbn [Z.sub]. change (1 - 1) with 0. rewrite Z.mul_0_r, Z.eqb_refl. cbn [negb fd_ulong_if]. rewrite Z.shiftr_div_pow2 by lia. exact F3.
  - rewrite (proj2 (Z.eqb_neq (256 * (c - 1)) 0)) by lia. done.
Qed.

Lemma idx_pack s c l : seg_ok (s, c) -> fd_txn_acct_iter_idx (pack ((s, c) :: l)) = s.
Proof.
  intros (H1 & H2 & H3). cbn [fst snd] in *. unfold fd_txn_acct_iter_idx. cbn [pack]. unfold enc. cbn [fst snd]. change 0xFF with (Z.ones 8). rewrite Z.land_ones by lia. change (2 ^ 8) with 256.
  by destruct (pack_fields s c (pack l)) as (F1 & _); [lia|lia|].
Qed.

Lemma iterate_seg fuel n : forall s l rest, seg_ok (s, Z.of_nat n) -> (1 <= n)%nat -> 0 <= pack l <= 2 ^ 32 -> iterate fuel (pack l) = Some rest ->
  iterate (n + fuel) (pack ((s, Z.of_nat n) :: l)) = Some (seqZ s (Z.of_nat n) ++ rest).
Proof.
  induction n as [|n IH]; intros s l rest Hok Hn Hp Hrest; [lia|]. cbn [Nat.add iterate]. pose proof Hok as (H1 & H2 & H3). cbn [fst snd] in *.
  assert (pack ((s, Z.of_nat (S n)) :: l) <> 0) as Hnz by (cbn [pack]; unfold enc; cbn [fst snd]; lia). unfold fd_txn_acct_iter_end. rewrite (proj2 (Z.eqb_neq _ _) Hnz), next_pack, idx_pack by (done || lia).
  rewrite seqZ_cons by lia. replace (Z.pred (Z.of_nat (S n))) with (Z.of_nat n) by lia. destruct (Z.of_nat (S n) =? 1) eqn:E; boolp.
  - assert (n = 0)%nat as -> by lia. cbn [Nat.add]. rewrite Hrest. done.
  - replace (Z.of_nat (S n) - 1) with (Z.of_nat n) by lia. rewrite (IH (s + 1) l rest); [done|unfold seg_ok; cbn; lia|lia|done|done].
Qed.

Lemma iterate_pack l : Forall (fun x => seg_ok x /\ 1 <= x.2) l -> (length l <= 3)%nat ->
  iterate (length (segs_list l)) (pack l) = Some (segs_list l).
Proof.
  induction 1 as [|[s c] l [Hx Hc] Hok IH]; intros Hl; [done|]. cbn [length] in Hl. unfold segs_list. rewrite fmap_cons. cbn [concat fst snd]. fold (segs_list l). rewrite length_app, length_seqZ.
  cbn [snd] in Hc. rewrite <- (Z2Nat.id c) at 2 3 by lia. apply iterate_seg; [by rewrite Z2Nat.id by lia|lia| |apply IH; lia].
  apply pack_range; [|lia]. eapply Forall_impl; [exact Hok|]. by intros ? [? _].
Qed.

Lemma iterate_more n cur l : iterate n cur = Some l -> forall k, iterate (n + k) cur = Some l.
Proof.
  revert cur l. induction n as [|n IH]; intros cur l; cbn [iterate Nat.add].
  - destruct (cur =? fd_txn_acct_iter_end) eqn:E; [|done]. intros [= <-] k. destruct k; cbn [iterate]; by rewrite E.
  - destruct (cur =? fd_txn_acct_iter_end); [done|]. intros H k. destruct (iterate n (fd_txn_acct_iter_next cur)) as [l'|] eqn:El; [|discriminate H]. by rewrite (IH _ _ El k).
Qed.

(** ** Removing the empty ranges *)

Lemma lor_shift a b n : 0 <= n -> 0 <= a < 2 ^ n -> 0 <= b -> Z.lor a (Z.shiftl b n) = a + b * 2 ^ n.
Proof.
  intros Hn Ha Hb. rewrite <- Z.shiftl_mul_pow2 by done. pose proof (Z.add_lor_land a (Z.shiftl b n)) as E. assert (Z.land a (Z.shiftl b n) = 0) as E0; [|lia].
  apply Z.bits_inj'. intros i Hi. rewrite Z.land_spec, Z.shiftl_spec, Z.bits_0 by done. destruct (Z.lt_ge_cases i n).
  - rewrite (Z.testbit_neg_r b) by lia. apply andb_false_r.
  - rewrite <- (Z.mod_small a (2 ^ n)) by done. by rewrite Z.mod_pow2_bits_high by lia.
Qed.

Lemma word_of a b c : 0 <= a < 65536 -> 0 <= b < 65536 -> 0 <= c < 65536 -> Z.lor (Z.lor a (u64 (Z.shiftl b 16))) (u64 (Z.shiftl c 32)) = a + 65536 * (b + 65536 * c).
Proof.
  intros Ha Hb Hc. rewrite (Z.shiftl_mul_pow2 b), (Z.shiftl_mul_pow2 c) by lia. change (2 ^ 16) with 65536. change (2 ^ 32) with 4294967296.
  rewrite !u64_small by (unfold is_u64, ULONG_MAX; lia). change (b * 65536) with (b * 2 ^ 16). change (c * 4294967296) with (c * 2 ^ 32). rewrite <- !Z.shiftl_mul_pow2 by lia.
  rewrite (lor_shift a b 16), lor_shift by (try change (2 ^ 16) with 65536; try change (2 ^ 32) with 4294967296; lia). change (2 ^ 16) with 65536. change (2 ^ 32) with 4294967296. lia.
Qed.

Definition nonempty (l : list (Z * Z)) : list (Z * Z) := filter (fun x => x.2 <> 0) l.

Lemma enc_empty x : seg_ok x -> (Z.land (enc x) 0xFF00 =? 0) = (x.2 =? 0).
Proof.
  intros (H1 & H2 & H3). rewrite land_byte1. unfold enc. destruct (pack_fields x.1 x.2 0) as (_ & F & _); [lia|lia|]. rewrite Z.mul_0_r, Z.add_0_r in F. rewrite F.
  apply eq_true_iff_eq. rewrite !Z.eqb_eq. lia.
Qed.

Lemma nonempty_list l : segs_list (nonempty l) = segs_list l.
Proof.
  unfold nonempty, segs_list. induction l as [|x l IH]; [done|]. rewrite filter_cons. case_decide as Hx; rewrite fmap_cons; cbn [concat]; [by rewrite IH|].
  rewrite IH. assert (x.2 = 0) as -> by lia. done.
Qed.

Definition squeeze (control0 control1 control2 : Z) : Z :=
  let control2_empty := Z.land control2 0xFF00 =? 0 in
  let control2 := fd_ulong_if control2_empty 0 control2 in
  let control1_empty := Z.land control1 0xFF00 =? 0 in
  let control1 := fd_ulong_if control1_empty control2 control1 in
  let control2 := fd_ulong_if control1_empty 0 control2 in
  let control0_empty := Z.land control0 0xFF00 =? 0 in
  let control0 := fd_ulong_if control0_empty control1 control0 in
  let control1 := fd_ulong_if control0_empty control2 control1 in
  let control2 := fd_ulong_if control0_empty 0 control2 in
  Z.lor (Z.lor control0 (u64 (Z.shiftl control1 16))) (u64 (Z.shiftl control2 32)).

Lemma squeeze_pack x y z : seg_ok x -> seg_ok y -> seg_ok z -> squeeze (enc x) (enc y) (enc z) = pack (nonempty [x; y; z]).
Proof.
  intros Hx Hy Hz. unfold squeeze, nonempty. cbn zeta. rewrite (enc_empty x), (enc_empty y), (enc_empty z) by done. rewrite !filter_cons, filter_nil.
  pose proof (enc_range x Hx). pose proof (enc_range y Hy). pose proof (enc_range z Hz).
  destruct (x.2 =? 0) eqn:Ex, (y.2 =? 0) eqn:Ey, (z.2 =? 0) eqn:Ez; boolp; repeat case_decide; try lia; cbn [fd_ulong_if pack]; rewrite word_of by lia; lia.
Qed.

(** ** The whole iterator *)

Lemma rep_words segs : (length segs <= 3)%nat -> Forall seg_ok segs -> exists x y z,
  (rep segs).1 = [enc x; enc y; enc z] /\ seg_ok x /\ seg_ok y /\ seg_ok z /\ segs_list [x; y; z] = segs_list segs.
Proof.
  intros Hl Hok. assert (seg_ok (0, 0)) as H0 by (unfold seg_ok; cbn; lia).
  destruct segs as [|x [|y [|z [|w segs]]]]; [| | | |cbn in Hl; lia]; repeat match goal with H : Forall _ (_ :: _) |- _ => apply Forall_cons in H as [? H] end.
  - by exists (0, 0), (0, 0), (0, 0).
  - exists x, (0, 0), (0, 0). done.
  - exists x, y, (0, 0). done.
  - by exists x, y, z.
Qed.

Definition part (inc f start cnt : Z) : list Z := if in_cat inc f then seqZ start cnt else [].

(** The six ranges, in the order of the account list. *)
Definition parts (t : fd_txn_t) (inc : Z) : list Z :=
  let s := tx_signature_cnt t in let q := tx_readonly_signed_cnt t in let r := tx_readonly_unsigned_cnt t in
  let a := tx_acct_addr_cnt t in let n := tx_addr_table_adtl_cnt t in let u := tx_addr_table_adtl_writable_cnt t in
  part inc 0x01 0 (s - q) ++ part inc 0x02 (s - q) q ++ part inc 0x04 s (a - r - s) ++ part inc 0x08 (a - r) r ++ part inc 0x10 a u ++ part inc 0x20 (a + u) (n - u).

Lemma init_parts t inc : counts_ok t -> exists l, fd_txn_acct_iter_init t inc = Ok (pack l) /\
  Forall (fun x => seg_ok x /\ 1 <= x.2) l /\ (length l <= 3)%nat /\ segs_list l = parts t inc.
Proof.
  intros [C1 C2 C3 C4 _]. unfold fd_txn_acct_iter_init. rewrite !u64_sub_small, ?u64_add_small by (unfold is_u64, ULONG_MAX; rewrite ?u64_sub_small; unfold is_u64, ULONG_MAX; lia).
  assert (covers 0 (in_cat inc 0) ([0; 0; 0], ULONG_MAX) 0 []) as H0.
  { assert (in_cat inc 0 = false) as -> by (unfold in_cat; by rewrite Z.land_0_r). exists []. by repeat split. }
  set (s := tx_signature_cnt t) in *. set (q := tx_readonly_signed_cnt t) in *. set (r := tx_readonly_unsigned_cnt t) in *. set (a := tx_acct_addr_cnt t) in *.
  set (n := tx_addr_table_adtl_cnt t) in *. set (u := tx_addr_table_adtl_writable_cnt t) in *.
  destruct (include_covers inc FD_TXN_ACCT_CAT_WRITABLE_SIGNER 0 (s - q) 0 _ _ _ ltac:(lia) eq_refl ltac:(lia) ltac:(lia) ltac:(lia) H0) as (s1 & -> & H1). cbn [mbind outcome_bind].
  destruct (include_covers inc FD_TXN_ACCT_CAT_READONLY_SIGNER (s - q) q 1 _ _ _ ltac:(lia) eq_refl ltac:(lia) ltac:(lia) ltac:(lia) H1) as (s2 & -> & H2). cbn [mbind outcome_bind].
  replace (s - q + q) with s in H2 by lia.
  destruct (include_covers inc FD_TXN_ACCT_CAT_WRITABLE_NONSIGNER_IMM s (a - r - s) 2 _ _ _ ltac:(lia) eq_refl ltac:(lia) ltac:(lia) ltac:(lia) H2) as (s3 & -> & H3). cbn [mbind outcome_bind].
  replace (s + (a - r - s)) with (a - r) in H3 by lia.
  destruct (include_covers inc FD_TXN_ACCT_CAT_READONLY_NONSIGNER_IMM (a - r) r 3 _ _ _ ltac:(lia) eq_refl ltac:(lia) ltac:(lia) ltac:(lia) H3) as (s4 & -> & H4). cbn [mbind outcome_bind].
  replace (a - r + r) with a in H4 by lia.
  destruct (include_covers inc FD_TXN_ACCT_CAT_WRITABLE_ALT a u 4 _ _ _ ltac:(lia) eq_refl ltac:(lia) ltac:(lia) ltac:(lia) H4) as (s5 & -> & H5). cbn [mbind outcome_bind].
  destruct (include_covers inc FD_TXN_ACCT_CAT_READONLY_ALT (a + u) (n - u) 5 _ _ _ ltac:(lia) eq_refl ltac:(lia) ltac:(lia) ltac:(lia) H5) as (s6 & -> & segs & -> & Hlen & Hok & Hsel & _). cbn [mbind outcome_bind].
  assert (length segs <= 3)%nat as Hl3 by (destruct (in_cat inc FD_TXN_ACCT_CAT_READONLY_ALT); cbn in Hlen; lia).
  destruct (rep_words segs Hl3 Hok) as (x & y & z & Ew & Hx & Hy & Hz & Exyz). unfold rep in *. cbn [fst] in Ew. rewrite Ew.
  change (ctl_get [enc x; enc y; enc z] 0) with (Ok (enc x)). change (ctl_get [enc x; enc y; enc z] 1) with (Ok (enc y)). change (ctl_get [enc x; enc y; enc z] 2) with (Ok (enc z)). cbn [mbind outcome_bind].
  exists (nonempty [x; y; z]). split; [f_equal; exact (squeeze_pack x y z Hx Hy Hz)|]. split; [|split].
  - apply Forall_forall. intros w Hw. unfold nonempty in Hw. apply list_elem_of_filter in Hw as [Hw1 Hw2]. assert (seg_ok w) as Hwo by (rewrite !elem_of_cons, elem_of_nil in Hw2; naive_solver). split; [done|]. destruct Hwo as (? & ? & ?). lia.
  - unfold nonempty. etransitivity; [apply length_filter|]. done.
  - rewrite nonempty_list, Exyz, Hsel. unfold parts, part. fold s q r a n u. rewrite app_nil_l, <- !app_assoc. done.
Qed.

Lemma part_filter t inc f start cnt : (forall idx, start <= idx < start + cnt -> acct_cat t idx = f) ->
  filter (fun idx => in_cat inc (acct_cat t idx) = true) (seqZ start cnt) = part inc f start cnt.
Proof.
  intros Hcat. unfold part. assert (forall idx, idx ∈ seqZ start cnt -> acct_cat t idx = f) as H by (intros idx Hi%elem_of_seqZ; by apply Hcat).
  clear Hcat. induction (seqZ start cnt) as [|x l IH]; [by destruct (in_cat inc f)|]. rewrite filter_cons, (H x), IH by (try (intros; apply H); by constructor). destruct (in_cat inc f); by case_decide.
Qed.

Lemma selected_parts t inc : counts_ok t -> selected t inc = parts t inc.
Proof.
  intros [C1 C2 C3 C4 _]. unfold selected, all_accts, parts.
  set (s := tx_signature_cnt t) in *. set (q := tx_readonly_signed_cnt t) in *. set (r := tx_readonly_unsigned_cnt t) in *. set (a := tx_acct_addr_cnt t) in *.
  set (n := tx_addr_table_adtl_cnt t) in *. set (u := tx_addr_table_adtl_writable_cnt t) in *.
  replace (a + n) with ((s - q) + (q + ((a - r - s) + (r + (u + (n - u)))))) by lia. rewrite !seqZ_app by lia. rewrite !filter_app.
  replace (0 + (s - q)) with (s - q) by lia. replace (s - q + q) with s by lia. replace (s + (a - r - s)) with (a - r) by lia. replace (a - r + r) with a by lia.
  unfold acct_cat. fold s q r a u.
  repeat f_equal; apply part_filter; intros idx Hidx; unfold acct_cat; fold s q r a u; repeat case_match; boolp; (done || lia).
Qed.

Definition bval (b : bool) (x : Z) : Z := if b then x else 0.

Lemma cnt_step (b : bool) cnt x : 0 <= x <= 64 -> 0 <= cnt <= 1000 -> (if b then cnt +w x else cnt) = cnt + bval b x.
Proof. intros Hx Hc. unfold bval. destruct b; [rewrite u64_add_small by (unfold is_u64, ULONG_MAX; lia); done|lia]. Qed.

Lemma bval_range b x : 0 <= x -> 0 <= bval b x <= x.
Proof. unfold bval. destruct b; lia. Qed.

Lemma part_len inc f start cnt : 0 <= cnt -> len (part inc f start cnt) = bval (in_cat inc f) cnt.
Proof. intros Hc. unfold part, bval. destruct (in_cat inc f); [rewrite length_seqZ; lia|done]. Qed.

Lemma account_cnt_parts t inc : counts_ok t -> fd_txn_account_cnt t inc = len (parts t inc).
Proof.
  intros [C1 C2 C3 C4 _]. unfold fd_txn_account_cnt, parts. cbn zeta.
  set (s := tx_signature_cnt t) in *. set (q := tx_readonly_signed_cnt t) in *. set (r := tx_readonly_unsigned_cnt t) in *. set (a := tx_acct_addr_cnt t) in *.
  set (n := tx_addr_table_adtl_cnt t) in *. set (u := tx_addr_table_adtl_writable_cnt t) in *.
  rewrite !length_app, !Nat2Z.inj_add, !part_len by lia. rewrite (u64_sub_small s q), (u64_sub_small n u), (u64_sub_small a s), (u64_sub_small (a - s) r) by (unfold is_u64, ULONG_MAX; lia).
  unfold FD_TXN_ACCT_CAT_WRITABLE_SIGNER, FD_TXN_ACCT_CAT_READONLY_SIGNER, FD_TXN_ACCT_CAT_READONLY_NONSIGNER_IMM, FD_TXN_ACCT_CAT_WRITABLE_ALT, FD_TXN_ACCT_CAT_WRITABLE_NONSIGNER_IMM, FD_TXN_ACCT_CAT_READONLY_ALT.
  pose proof (bval_range (in_cat inc 1) (s - q) ltac:(lia)). pose proof (bval_range (in_cat inc 2) q ltac:(lia)). pose proof (bval_range (in_cat inc 8) r ltac:(lia)).
  pose proof (bval_range (in_cat inc 16) u ltac:(lia)). pose proof (bval_range (in_cat inc 4) (a - s - r) ltac:(lia)). pose proof (bval_range (in_cat inc 32) (n - u) ltac:(lia)).
  rewrite (cnt_step (in_cat inc 1)) by lia. rewrite (cnt_step (in_cat inc 2)) by lia. rewrite (cnt_step (in_cat inc 8)) by lia. rewrite (cnt_step (in_cat inc 16)) by lia. rewrite (cnt_step (in_cat inc 4)) by lia. rewrite (cnt_step (in_cat inc 32)) by lia.
  replace (a - r - s) with (a - s - r) by lia. lia.
Qed.

Lemma parts_small t inc : counts_ok t -> (length (parts t inc) <= 64)%nat.
Proof.
  intros Hok. rewrite <- selected_parts by done. unfold selected, all_accts. etransitivity; [apply length_filter|]. rewrite length_seqZ. pose proof (co_total t Hok). lia.
Qed.

Lemma counts_describe m : wf m -> counts_ok (describe m).
Proof.
  intros Hwf. assert (0 <= m_ro_signed m /\ 0 <= m_ro_unsigned m) as [H1 H2].
  { destruct (is_v1 m) eqn:Hv.
    - destruct (wf_v1_inv m Hwf Hv) as (h & Em & [] & _). rewrite Em. cbn. lia.
    - destruct (wf_legacy_inv m Hwf Hv) as (h & luts & Em & [] & _). rewrite Em. cbn. lia. }
  assert (0 <= m_writable m <= m_adtl m) as H3.
  { unfold m_writable, m_adtl. split; [apply lsum_nonneg; intros; lia|apply lsum_le; intros; lia]. }
  pose proof (wf_ro_signed m Hwf). pose proof (wf_ro_unsigned m Hwf). pose proof (wf_acct_cnt m Hwf).
  unfold describe. destruct (m_kind m) eqn:Ek; [| |assert (m_adtl m = 0) by (unfold m_adtl, m_luts; by rewrite Ek)]; split; cbn; try (done || lia);
    intros _; unfold m_adtl, m_luts; by rewrite Ek.
Qed.

(** C29: The accounts of a parsed transaction by category.  For every set of categories the
    iterator stops, within 64 rounds, after it has given exactly the indices whose category
    is in the set, in increasing order; [fd_txn_account_cnt] is their number.  An account
    is writable or a signer, by the tests for one index, exactly when its category says so. *)
Theorem txn_accounts_by_category (payload : list Z) (counters_opt : option fd_txn_parse_counters_t) (payload_sz_opt : bool) (r : parse_result) (t : fd_txn_t) :
  Forall is_byte payload -> fd_txn_parse_core payload (len payload) counters_opt payload_sz_opt = Ok r -> pr_out r = Some t ->
  (forall include_cat, exists it, fd_txn_acct_iter_init t include_cat = Ok it /\ iterate 64 it = Some (selected t include_cat) /\
     fd_txn_account_cnt t include_cat = len (selected t include_cat)) /\
  (forall idx, idx ∈ all_accts t ->
     fd_txn_is_writable t idx = in_cat FD_TXN_ACCT_CAT_WRITABLE (acct_cat t idx) /\
     fd_txn_is_signer t idx = in_cat FD_TXN_ACCT_CAT_SIGNER (acct_cat t idx)).
Proof.
  intros HB Er Ht. assert (counts_ok t) as Hok.
  { destruct (parse_core_eq payload counters_opt payload_sz_opt HB) as (r' & Er' & Hr'). rewrite Er in Er'. injection Er' as <-.
    destruct Hr' as [(m & (Hwf & _) & _ & ->)|(_ & line & ->)]; [|discriminate Ht]. injection Ht as <-. by apply counts_describe. }
  split.
  - intros inc. destruct (init_parts t inc Hok) as (l & Ei & Hl & Hl3 & El). exists (pack l). split; [done|]. rewrite selected_parts, account_cnt_parts by done. split; [|done].
    pose proof (iterate_pack l Hl Hl3) as Hit. rewrite El in Hit. pose proof (parts_small t inc Hok). replace 64%nat with (length (parts t inc) + (64 - length (parts t inc)))%nat by lia. by apply iterate_more.
  - intros idx Hidx%elem_of_seqZ. destruct Hok as [C1 C2 C3 C4 C5]. unfold fd_txn_is_writable, fd_txn_is_signer, acct_cat.
    destruct (tx_transaction_version t =? FD_TXN_V0) eqn:Ev; boolp; [|specialize (C5 Ev)]; cbn [andb]; repeat case_match; boolp; (split; match goal with |- context [in_cat ?a ?b] => let v := eval vm_compute in (in_cat a b) in change (in_cat a b) with v end);
      rewrite ?andb_true_iff, ?andb_false_iff, ?Z.ltb_lt, ?Z.ltb_ge, ?Z.leb_le, ?Z.leb_gt; (done || lia).
Qed.

Lemma txn_accounts_by_category_witness :
  exists r t, fd_txn_parse_core (ser sample_v0) (len (ser sample_v0)) None false = Ok r /\ pr_out r = Some t /\
  (forall include_cat, exists it, fd_txn_acct_iter_init t include_cat = Ok it /\ iterate 64 it = Some (selected t include_cat) /\
     fd_txn_account_cnt t include_cat = len (selected t include_cat)) /\
  (forall idx, idx ∈ all_accts t ->
     fd_txn_is_writable t idx = in_cat FD_TXN_ACCT_CAT_WRITABLE (acct_cat t idx) /\
     fd_txn_is_signer t idx = in_cat FD_TXN_ACCT_CAT_SIGNER (acct_cat t idx)).
Proof.
  assert (Forall is_byte (ser sample_v0)) as HB by (apply bytes_dec; vm_compute; reflexivity).
  destruct (fd_txn_parse_core (ser sample_v0) (len (ser sample_v0)) None false) as [r|e] eqn:Er; [|vm_compute in Er; discriminate Er].
  destruct (pr_out r) as [t|] eqn:Et; [|vm_compute in Er; injection Er as <-; discriminate Et].
  exists r, t. split; [reflexivity|]. split; [exact Et|]. exact (txn_accounts_by_category (ser sample_v0) None false r t HB Er Et).
Defined.

(** Every account of the example is writable: the fee payer, the program and the account of the table. *)
Example sample_v0_writable : selected (describe sample_v0) FD_TXN_ACCT_CAT_WRITABLE = [0; 1; 2].
Proof. reflexivity. Qed.
