(* ===== verification/Pb.v ===== *)
(** * Protobuf decoding

    The parts of nanopb (src/src/third_party/nanopb/pb_decode.c, built with
    PB_BUFFER_ONLY) that the decoder of the BAM client uses.

    A stream is the list of the bytes it has left: the bytes from [state] on, as many as
    [bytes_left] says.  nanopb reads a byte only after a test of [bytes_left], so a read
    takes from the front of the list or fails.  A function that fails leaves its stream in a
    state nobody looks at again, so failure carries no stream.  A substream and the rest
    of its parent are two lists: [pb_make_string_substream] splits the parent, and
    [pb_close_string_substream] continues behind the substream wherever reading it stopped. *)
From S2P Require Import Prelude.

Definition PB_WT_VARINT : Z := 0.
Definition PB_WT_64BIT : Z := 1.
Definition PB_WT_STRING : Z := 2.
Definition PB_WT_32BIT : Z := 5.

Definition u32 (x : Z) : Z := x mod 4294967296.

Definition pb_istream_t : Type := list Z.

(** [pb_read( stream, NULL, count )]. *)
Definition pb_read (stream : pb_istream_t) (count : Z) : option pb_istream_t :=
  if Z.of_nat (length stream) <? count then None else Some (drop (Z.to_nat count) stream).

Definition pb_readbyte (stream : pb_istream_t) : option (Z * pb_istream_t) :=
  match stream with [] => None | byte :: stream' => Some (byte, stream') end.

(** ** Integers *)

(** The loop for the second and later bytes. *)
Fixpoint varint32_more (bitpos result : Z) (stream : pb_istream_t) : option (Z * pb_istream_t) :=
  match stream with
  | [] => None
  | byte :: stream' =>
      let next result := if negb (Z.land byte 0x80 =? 0) then varint32_more (bitpos + 7) result stream' else Some (result, stream') in
      if 32 <=? bitpos then
        let sign_extension := if bitpos <? 63 then 0xFF else 0x01 in
        let valid_extension := (Z.land byte 0x7F =? 0) || (negb (Z.shiftr result 31 =? 0) && (byte =? sign_extension)) in
        if (64 <=? bitpos) || negb valid_extension then None else next result
      else if bitpos =? 28 then
        if negb (Z.land byte 0x70 =? 0) && negb (Z.land byte 0x78 =? 0x78) then None
        else next (Z.lor result (u32 (Z.shiftl (Z.land byte 0x0F) bitpos)))
      else next (Z.lor result (u32 (Z.shiftl (Z.land byte 0x7F) bitpos)))
  end.

(** The result of reading an integer where the end of the stream is told apart. *)
Inductive varint_result :=
| VarintOk (value : Z) (stream : pb_istream_t)
| VarintEof
| VarintError.

Definition pb_decode_varint32_eof (stream : pb_istream_t) : varint_result :=
  match pb_readbyte stream with
  | None => VarintEof
  | Some (byte, stream) =>
      if Z.land byte 0x80 =? 0 then VarintOk byte stream
      else match varint32_more 7 (Z.land byte 0x7F) stream with
           | Some (result, stream) => VarintOk result stream
           | None => VarintError
           end
  end.

Definition pb_decode_varint32 (stream : pb_istream_t) : option (Z * pb_istream_t) :=
  match pb_decode_varint32_eof stream with
  | VarintOk value stream => Some (value, stream)
  | _ => None
  end.

Fixpoint varint_bytes (bitpos result : Z) (stream : pb_istream_t) : option (Z * pb_istream_t) :=
  match stream with
  | [] => None
  | byte :: stream' =>
      if (63 <=? bitpos) && negb (Z.land byte 0xFE =? 0) then None
      else
        let result := Z.lor result (u64 (Z.shiftl (Z.land byte 0x7F) bitpos)) in
        if negb (Z.land byte 0x80 =? 0) then varint_bytes (bitpos + 7) result stream' else Some (result, stream')
  end.

Definition pb_decode_varint (stream : pb_istream_t) : option (Z * pb_istream_t) := varint_bytes 0 0 stream.

Definition pb_decode_bool (stream : pb_istream_t) : option (bool * pb_istream_t) :=
  '(value, stream) ← pb_decode_varint32 stream;
  Some (negb (value =? 0), stream).

(** ** Fields *)

Fixpoint pb_skip_varint (stream : pb_istream_t) : option pb_istream_t :=
  match stream with
  | [] => None
  | byte :: stream' => if negb (Z.land byte 0x80 =? 0) then pb_skip_varint stream' else Some stream'
  end.

Definition pb_skip_string (stream : pb_istream_t) : option pb_istream_t :=
  '(length, stream) ← pb_decode_varint32 stream;
  pb_read stream length.

Definition pb_skip_field (stream : pb_istream_t) (wire_type : Z) : option pb_istream_t :=
  if wire_type =? PB_WT_VARINT then pb_skip_varint stream
  else if wire_type =? PB_WT_64BIT then pb_read stream 8
  else if wire_type =? PB_WT_STRING then pb_skip_string stream
  else if wire_type =? PB_WT_32BIT then pb_read stream 4
  else None.

Inductive tag_result :=
| TagOk (wire_type tag : Z) (stream : pb_istream_t)
| TagEof
| TagError.

Definition pb_decode_tag (stream : pb_istream_t) : tag_result :=
  match pb_decode_varint32_eof stream with
  | VarintOk temp stream => TagOk (Z.land temp 7) (Z.shiftr temp 3) stream
  | VarintEof => TagEof
  | VarintError => TagError
  end.

(** The substream and what follows it in the parent. *)
Definition pb_make_string_substream (stream : pb_istream_t) : option (pb_istream_t * pb_istream_t) :=
  '(size, stream) ← pb_decode_varint32 stream;
  if Z.of_nat (length stream) <? size then None
  else Some (take (Z.to_nat size) stream, drop (Z.to_nat size) stream).

(** The value of a scalar field, copied to a buffer of [max_size] bytes. *)
Fixpoint raw_varint (max_size : nat) (stream : pb_istream_t) : option (list Z * pb_istream_t) :=
  match max_size, stream with
  | O, _ | _, [] => None
  | S max_size', byte :: stream' =>
      if negb (Z.land byte 0x80 =? 0) then '(buf, rest) ← raw_varint max_size' stream'; Some (byte :: buf, rest)
      else Some ([byte], stream')
  end.

Definition read_raw_value (stream : pb_istream_t) (wire_type : Z) (max_size : nat) : option (list Z * pb_istream_t) :=
  if wire_type =? PB_WT_VARINT then raw_varint max_size stream
  else if wire_type =? PB_WT_64BIT then rest ← pb_read stream 8; Some (take 8 stream, rest)
  else if wire_type =? PB_WT_32BIT then rest ← pb_read stream 4; Some (take 4 stream, rest)
  else None.

(** ** Messages

    [field st wire_type tag stream] decodes one field of the message into [st]; it also says
    what [st] is when it fails.  Required fields, extensions and fixed counts do not
    occur in the messages decoded here. *)
Section Message.
  Context {S : Type} (field : S -> Z -> Z -> pb_istream_t -> outcome (S * option pb_istream_t)).

Fixpoint decode_fields (fuel : nat) (st : S) (stream : pb_istream_t) : outcome (S * bool) :=
  match fuel with
  | O => Fail Diverge
  | Datatypes.S fuel' =>
      match stream with
      | [] => Ok (st, true)
      | _ =>
          match pb_decode_tag stream with
          | TagEof => Ok (st, true)
          | TagError => Ok (st, false)
          | TagOk wire_type tag stream =>
              if tag =? 0 then Ok (st, false) else
              r ← field st wire_type tag stream;
              match r with
              | (st, Some stream) => decode_fields fuel' st stream
              | (st, None) => Ok (st, false)
              end
          end
      end
  end.

Definition pb_decode_inner (st : S) (stream : pb_istream_t) : outcome (S * bool) :=
  decode_fields (Datatypes.S (length stream)) st stream.
End Message.

(** [decode_basic_field] of an integer of [size] bits ([pb_dec_varint]): the value and the rest. *)
Definition pb_dec_uvarint (size : Z) (wire_type : Z) (stream : pb_istream_t) : option (Z * pb_istream_t) :=
  if negb (wire_type =? PB_WT_VARINT) then None else
  '(value, stream) ← pb_decode_varint stream;
  if value =? value mod 2 ^ size then Some (value, stream) else None.

Definition pb_dec_bool (wire_type : Z) (stream : pb_istream_t) : option (bool * pb_istream_t) :=
  if negb (wire_type =? PB_WT_VARINT) then None else pb_decode_bool stream.

(** ** What the functions do to the length *)

Lemma varint32_more_shorter stream : forall bitpos result v rest,
  varint32_more bitpos result stream = Some (v, rest) -> (length rest < length stream)%nat.
Proof.
  induction stream as [|byte stream IH]; intros bitpos result v rest; cbn [varint32_more length]; [done|]. cbv zeta.
  repeat case_if; intros Hv; first [discriminate Hv | apply IH in Hv; lia | injection Hv as _ <-; lia].
Qed.

Lemma varint32_shorter stream v rest : pb_decode_varint32_eof stream = VarintOk v rest -> (length rest < length stream)%nat.
Proof.
  unfold pb_decode_varint32_eof. destruct stream as [|byte stream]; cbn [pb_readbyte length]; [done|].
  case_if; [intros [= _ <-]; lia|]. destruct (varint32_more _ _ _) as [[? ?]|] eqn:Em; [|done]. apply varint32_more_shorter in Em. intros [= _ <-]. lia.
Qed.

Lemma decode_tag_shorter stream w t rest : pb_decode_tag stream = TagOk w t rest -> (length rest < length stream)%nat.
Proof. unfold pb_decode_tag. destruct (pb_decode_varint32_eof stream) eqn:E; [|done..]. apply varint32_shorter in E. by intros [= _ _ <-]. Qed.

(** ** What is left of a stream is its end *)

Lemma varint32_more_suffix stream : forall bitpos result v rest, varint32_more bitpos result stream = Some (v, rest) -> rest `suffix_of` stream.
Proof.
  induction stream as [|byte stream IH]; intros bitpos result v rest; cbn [varint32_more]; [done|]. cbv zeta.
  repeat case_if; intros Hv; first [discriminate Hv | apply IH in Hv; by apply suffix_cons_r | injection Hv as _ <-; by apply suffix_cons_r].
Qed.

Lemma varint32_suffix stream v rest : pb_decode_varint32_eof stream = VarintOk v rest -> rest `suffix_of` stream.
Proof.
  unfold pb_decode_varint32_eof. destruct stream as [|byte stream]; cbn [pb_readbyte]; [done|].
  case_if; [intros [= _ <-]; by apply suffix_cons_r|]. destruct (varint32_more _ _ _) as [[? ?]|] eqn:Em; [|done]. apply varint32_more_suffix in Em. intros [= _ <-]. by apply suffix_cons_r.
Qed.

Lemma decode_varint32_suffix stream v rest : pb_decode_varint32 stream = Some (v, rest) -> rest `suffix_of` stream.
Proof. unfold pb_decode_varint32. destruct (pb_decode_varint32_eof stream) eqn:E; [|done..]. apply varint32_suffix in E. by intros [= _ <-]. Qed.

Lemma varint_bytes_suffix stream : forall bitpos result v rest, varint_bytes bitpos result stream = Some (v, rest) -> rest `suffix_of` stream.
Proof.
  induction stream as [|byte stream IH]; intros bitpos result v rest; cbn [varint_bytes]; [done|]. cbv zeta.
  repeat case_if; intros Hv; first [discriminate Hv | apply IH in Hv; by apply suffix_cons_r | injection Hv as _ <-; by apply suffix_cons_r].
Qed.

Lemma decode_tag_suffix stream w t rest : pb_decode_tag stream = TagOk w t rest -> rest `suffix_of` stream.
Proof. unfold pb_decode_tag. destruct (pb_decode_varint32_eof stream) eqn:E; [|done..]. apply varint32_suffix in E. by intros [= _ _ <-]. Qed.

Lemma drop_suffix {A} n (l : list A) : drop n l `suffix_of` l.
Proof. exists (take n l). by rewrite take_drop. Qed.

Lemma pb_read_suffix stream n rest : pb_read stream n = Some rest -> rest `suffix_of` stream.
Proof. unfold pb_read. case_if; [done|]. intros [= <-]. apply drop_suffix. Qed.

Lemma skip_varint_suffix stream rest : pb_skip_varint stream = Some rest -> rest `suffix_of` stream.
Proof. induction stream as [|byte stream IH]; cbn [pb_skip_varint]; [done|]. case_if; [intros H; apply IH in H|intros [= <-]]; by apply suffix_cons_r. Qed.

Lemma skip_field_suffix stream w rest : pb_skip_field stream w = Some rest -> rest `suffix_of` stream.
Proof.
  unfold pb_skip_field. repeat case_if; [apply skip_varint_suffix|apply pb_read_suffix| |apply pb_read_suffix|done].
  unfold pb_skip_string. destruct (pb_decode_varint32 stream) as [[v s]|] eqn:Em; [|done]. apply decode_varint32_suffix in Em. cbn. intros H. apply pb_read_suffix in H. by etrans.
Qed.

Lemma substream_parts stream sub rest : pb_make_string_substream stream = Some (sub, rest) -> (sub ++ rest) `suffix_of` stream.
Proof.
  unfold pb_make_string_substream. destruct (pb_decode_varint32 stream) as [[v s]|] eqn:Em; [|done]. apply decode_varint32_suffix in Em. cbn. case_if; [done|]. intros [= <- <-]. by rewrite take_drop.
Qed.

Lemma raw_varint_parts n : forall stream buf rest, raw_varint n stream = Some (buf, rest) -> stream = buf ++ rest.
Proof.
  induction n as [|n IH]; intros [|byte stream] buf rest; cbn [raw_varint]; try done. case_if; [|by intros [= <- <-]].
  destruct (raw_varint n stream) as [[b r]|] eqn:Em; [|done]. apply IH in Em as ->. cbn. by intros [= <- <-].
Qed.

Lemma read_raw_parts stream w n buf rest : read_raw_value stream w n = Some (buf, rest) -> stream = buf ++ rest.
Proof.
  unfold read_raw_value. repeat case_if; [apply raw_varint_parts| | |done];
    (unfold pb_read; case_if; [done|]; cbn; intros [= <- <-]; symmetry; apply take_drop).
Qed.

(** What holds of all bytes of a stream. *)
Lemma Forall_suffix {A} (Q : A -> Prop) l1 l2 : l1 `suffix_of` l2 -> Forall Q l2 -> Forall Q l1.
Proof. intros [k ->] H. by apply Forall_app in H as [_ H]. Qed.

(** A message is decoded in as many steps as it has bytes, and what holds of the state is
    kept if every field keeps it.  [Q] is what holds of the bytes. *)
Lemma decode_inner_inv {S} (field : S -> Z -> Z -> pb_istream_t -> outcome (S * option pb_istream_t)) (P : S -> Prop) (Q : Z -> Prop) stream st :
  (forall st w t s, P st -> Forall Q s -> exists st' o, field st w t s = Ok (st', o) /\ P st' /\ forall r, o = Some r -> r `suffix_of` s) ->
  Forall Q stream -> P st -> exists st' b, pb_decode_inner field st stream = Ok (st', b) /\ P st'.
Proof.
  intros Hf. unfold pb_decode_inner. set (n := Datatypes.S (length stream)). assert (length stream < n)%nat as Hn by lia. clearbody n. revert st stream Hn.
  induction n as [|n IH]; intros st stream Hn HQ HP; [lia|]. cbn [decode_fields]. destruct stream as [|byte stream]; [by eauto|].
  destruct (pb_decode_tag (byte :: stream)) as [w t s| |] eqn:Et; [|by eauto|by eauto]. pose proof (decode_tag_suffix _ _ _ _ Et) as Hs. apply decode_tag_shorter in Et. case_if; [by eauto|].
  pose proof (Forall_suffix Q _ _ Hs HQ) as HQs. destruct (Hf st w t s HP HQs) as (st' & o & -> & HP' & Ho). cbn [mbind outcome_bind]. destruct o as [r|]; [|by eauto].
  specialize (Ho r eq_refl). pose proof (suffix_length _ _ Ho). apply IH; [lia|by eapply Forall_suffix|done].
Qed.
