(* ===== verification/Bam.v ===== *)
(** * The BAM client: its state, the feedback queue and the queue of transactions

    src/src/disco/bam: the block assembly marketplace sends batches of transactions over a
    stream, the tile queues them for verification and queues a result for every batch to
    be sent back.  Modelled here: the fields of [fd_bam_tile_t] (fd_bam_tile_private.h) that
    these operations use, the ring of results, the record of arrival times, the leader state,
    the generations, and the hand-over of queued transactions ([after_credit] in
    fd_bam_tile.c).  The decoder is in [BamDecode].

    The ring of results is the array of the C code with its head, tail and depth; the deque of
    pending transactions, an instance of a template, is a list with its capacity.
    Histograms, log messages and the outgoing status message for the GUI are left out. *)
From S2P Require Import Prelude Txn Pb.

Definition FD_BAM_MAX_PENDING_RESULTS : Z := 2048.
Definition FD_BAM_RESULTS_PER_MESSAGE : Z := 64.
Definition FD_BAM_MAX_TXN_PER_ATOMIC_BATCH : Z := 5.
Definition FD_PACK_MAX_TXN_PER_BUNDLE : Z := 5.
Definition FD_BAM_FULL_ATOMIC_BATCHES_PER_STEM_BURST : Z := 8.
Definition FD_BAM_MAX_ATOMIC_BATCHES_PER_MESSAGE : Z := 8.
Definition FD_BAM_STEM_BURST : Z := FD_BAM_MAX_TXN_PER_ATOMIC_BATCH * FD_BAM_FULL_ATOMIC_BATCHES_PER_STEM_BURST.
Definition FD_BAM_BUNDLE_ERR_NONE : Z := 0.
Definition FD_BAM_BUNDLE_ERR_DESER : Z := 1.
Definition FD_BAM_SCHED_ERR_NONE : Z := USHORT_MAX.
Definition FD_BAM_SCHED_ERR_POH_TIMEOUT : Z := 0.
Definition FD_BAM_SCHED_ERR_OUTSIDE_SLOT : Z := 1.
Definition FD_BAM_SCHED_ERR_CONTAINER_FULL : Z := 2.
Definition DESER_EMPTY : Z := 0.
Definition DESER_INCONSISTENT_BUNDLE : Z := 1.
Definition DESER_SANITIZE_ERROR : Z := 4.
Definition DESER_VOTE_TRANSACTION_FAILURE : Z := 6.
Definition FD_BAM_SLOT_INGRESS_TIMING_CNT : Z := 128.
Definition FD_BAM_SLOT_INGRESS_RETENTION_SLOTS : Z := 2.
Definition FD_BAM_DEBUG_DUMP_MODE_SLOT_FIRST : Z := 1.
Definition FD_BAM_DEBUG_DUMP_MODE_ALL : Z := 2.
Definition FD_BAM_LEADER_SLOT_END_TRACKER_CNT : Z := 64.
Definition UINT_MAX : Z := 4294967295.

(** ** Data *)

Record fd_bam_bundle_result_t := mk_bam_result {
  re_seq_id : Z;
  re_scheduler_gen : Z;
  re_slot : Z;
  re_bundle_txn_cnt : Z;
  re_execution_success : bool;
  re_scheduling_error : Z;
  re_transaction_err : list Z;
  re_transaction_err_count : Z;
  re_consumed_cus : list Z;
  re_feepayer_balance_lamports : list Z;
  re_loaded_accounts_data_size : list Z;
  re_sanitize_success : list bool;
  re_bundle_err : Z;
  re_deser_index : Z;
  re_deser_reason : Z;
}.

(** A result whose other fields are zero. *)
Definition result_of (seq_id scheduler_gen slot bundle_txn_cnt scheduling_error bundle_err deser_reason deser_index : Z) : fd_bam_bundle_result_t :=
  mk_bam_result seq_id scheduler_gen slot bundle_txn_cnt false scheduling_error (replicate 5 0) 0 (replicate 5 0)
    (replicate 5 0) (replicate 5 0) (replicate 5 false) bundle_err deser_index deser_reason.

Record fd_bam_leader_state_t := mk_leader_state {
  ls_slot : Z;
  ls_slot_end_ns : Z;
  ls_slot_cu_budget_remaining : Z;
  ls_tick : Z;
  ls_current_slot_has_bam_work : Z;
}.

Record fd_bam_slot_ingress_timing_t := mk_timing {
  ti_slot : Z;
  ti_first_rx_ts_ns : Z;
  ti_slot_end_ns : Z;
  ti_txn_before_slot_end : Z;
  ti_txn_after_slot_end : Z;
  ti_txn_unknown_slot_end : Z;
  ti_first_rx_after_slot_end : bool;
  ti_summary_emitted : bool;
  ti_valid : bool;
}.

Definition timing_zero : fd_bam_slot_ingress_timing_t := mk_timing 0 0 0 0 0 0 false false false.

(** [bt_status_counted_healthy] below stands for
    [bam_status_counted==FD_PLUGIN_MSG_BAM_UPDATE_STATUS_CONNECTED_HEALTHY]. *)
Record fd_bam_leader_slot_end_tracker_t := mk_tracker {
  tr_slot : Z;
  tr_slot_end_ns : Z;
  tr_healthy_at_end : bool;
  tr_fresh_seen_before_end : bool;
  tr_counted : bool;
  tr_valid : bool;
}.

(** [payload] and [txn_t] hold [payload_sz] and [txn_t_sz] bytes; the parsed form is the
    structure itself, absent when the transaction did not parse. *)
Record fd_bam_pending_txn_t := mk_pending {
  pt_payload : list Z;
  pt_first_seen_nanos : Z;
  pt_max_schedule_slot : Z;
  pt_seq_id : Z;
  pt_source_ipv4 : Z;
  pt_txn_t_sz : Z;
  pt_batch_idx : Z;
  pt_batch_cnt : Z;
  pt_revert_on_error : bool;
  pt_txn_t : option fd_txn_t;
}.

(** The counters these operations change.  The ones the code indexes by an enumeration have
    one name per enumerator. *)
Inductive counter :=
| transaction_published_cnt
| atomic_batch_published_cnt
| feedback_results_dropped_cnt
| ingress_packet_oversize_cnt
| builder_heartbeats_decoded_cnt
| failure_scheduler_envelope_decode
| failure_unsupported_version
| ingress_multi_message_received_cnt
| ingress_batch_commit_attempt_cnt
| ingress_batch_published_cnt
| transaction_rejected_backpressure_cnt
| batch_rejected_invalid_batch
| batch_rejected_empty_batch
| batch_rejected_vote_transaction
| message_rejected_empty_message
| message_rejected_overflow_message
| outbound_result_enqueued
| outbound_result_no_stream
| outbound_result_enqueue_fail
| leader_pending_replaced_cnt
| slot_ingress_no_ingress
| slot_ingress_first_before_end
| slot_ingress_first_after_end
| slot_ingress_unknown_slot_end
| slot_ingress_txn_before_end
| slot_ingress_txn_after_end
| slot_ingress_txn_unknown_slot_end
| pong_send_enqueued
| pong_send_frame_tx_busy
| pong_send_request_busy
| pong_send_send_fail.

#[export] Instance counter_eq_dec : EqDecision counter.
Proof. solve_decision. Defined.

Definition fd_bam_metrics_t : Type := counter -> Z.

(** [metrics.c += n]. *)
Definition count_by (c : counter) (n : Z) (m : fd_bam_metrics_t) : fd_bam_metrics_t :=
  fun c' => if decide (c = c') then m c' +w n else m c'.

(** [bam_results] with [bam_results_head], [bam_results_tail] and [feedback_queue_depth]. *)
Record results_t := mk_results {
  rs_ring : list fd_bam_bundle_result_t;
  rs_head : Z;
  rs_tail : Z;
  rs_depth : Z;
}.

Record fd_bam_tile_t := mk_tile {
  bt_scheduler_gen : Z;
  bt_ownership_gen : Z;
  bt_ownership_gen_retired : bool;
  bt_results : results_t;
  bt_leader_state : fd_bam_leader_state_t;
  bt_leader_pending : bool;
  bt_leader_slot_end : list fd_bam_leader_slot_end_tracker_t;
  bt_status_counted_healthy : bool;
  bt_timing : list fd_bam_slot_ingress_timing_t;
  bt_pending_txns : list fd_bam_pending_txn_t;
  bt_pending_max : Z;
  bt_dump_bam_mode : Z;
  bt_dump_bam_last_slot : Z;
  bt_dump_bam_last_slot_valid : bool;
  bt_defer_reset : bool;
  bt_last_builder_activity_ns : Z;
  bt_builder_heartbeat_received : bool;
  bt_metrics : fd_bam_metrics_t;
}.

(** Assignments to one field. *)
Definition set_results (c : fd_bam_tile_t) (x : results_t) : fd_bam_tile_t :=
  mk_tile (bt_scheduler_gen c) (bt_ownership_gen c) (bt_ownership_gen_retired c) x (bt_leader_state c) (bt_leader_pending c) (bt_leader_slot_end c) (bt_status_counted_healthy c) (bt_timing c) (bt_pending_txns c)
    (bt_pending_max c) (bt_dump_bam_mode c) (bt_dump_bam_last_slot c) (bt_dump_bam_last_slot_valid c) (bt_defer_reset c)
    (bt_last_builder_activity_ns c) (bt_builder_heartbeat_received c) (bt_metrics c).
Definition set_timing (c : fd_bam_tile_t) (x : list fd_bam_slot_ingress_timing_t) : fd_bam_tile_t :=
  mk_tile (bt_scheduler_gen c) (bt_ownership_gen c) (bt_ownership_gen_retired c) (bt_results c) (bt_leader_state c) (bt_leader_pending c) (bt_leader_slot_end c) (bt_status_counted_healthy c) x (bt_pending_txns c)
    (bt_pending_max c) (bt_dump_bam_mode c) (bt_dump_bam_last_slot c) (bt_dump_bam_last_slot_valid c) (bt_defer_reset c)
    (bt_last_builder_activity_ns c) (bt_builder_heartbeat_received c) (bt_metrics c).
Definition set_pending (c : fd_bam_tile_t) (x : list fd_bam_pending_txn_t) : fd_bam_tile_t :=
  mk_tile (bt_scheduler_gen c) (bt_ownership_gen c) (bt_ownership_gen_retired c) (bt_results c) (bt_leader_state c) (bt_leader_pending c) (bt_leader_slot_end c) (bt_status_counted_healthy c) (bt_timing c) x
    (bt_pending_max c) (bt_dump_bam_mode c) (bt_dump_bam_last_slot c) (bt_dump_bam_last_slot_valid c) (bt_defer_reset c)
    (bt_last_builder_activity_ns c) (bt_builder_heartbeat_received c) (bt_metrics c).
Definition set_dump (c : fd_bam_tile_t) (last_slot : Z) (valid : bool) : fd_bam_tile_t :=
  mk_tile (bt_scheduler_gen c) (bt_ownership_gen c) (bt_ownership_gen_retired c) (bt_results c) (bt_leader_state c) (bt_leader_pending c) (bt_leader_slot_end c) (bt_status_counted_healthy c) (bt_timing c) (bt_pending_txns c)
    (bt_pending_max c) (bt_dump_bam_mode c) last_slot valid (bt_defer_reset c)
    (bt_last_builder_activity_ns c) (bt_builder_heartbeat_received c) (bt_metrics c).
Definition set_defer_reset (c : fd_bam_tile_t) : fd_bam_tile_t :=
  mk_tile (bt_scheduler_gen c) (bt_ownership_gen c) (bt_ownership_gen_retired c) (bt_results c) (bt_leader_state c) (bt_leader_pending c) (bt_leader_slot_end c) (bt_status_counted_healthy c) (bt_timing c) (bt_pending_txns c)
    (bt_pending_max c) (bt_dump_bam_mode c) (bt_dump_bam_last_slot c) (bt_dump_bam_last_slot_valid c) true
    (bt_last_builder_activity_ns c) (bt_builder_heartbeat_received c) (bt_metrics c).
Definition set_heartbeat (c : fd_bam_tile_t) (rx_ts_ns : Z) : fd_bam_tile_t :=
  mk_tile (bt_scheduler_gen c) (bt_ownership_gen c) (bt_ownership_gen_retired c) (bt_results c) (bt_leader_state c) (bt_leader_pending c) (bt_leader_slot_end c) (bt_status_counted_healthy c) (bt_timing c) (bt_pending_txns c)
    (bt_pending_max c) (bt_dump_bam_mode c) (bt_dump_bam_last_slot c) (bt_dump_bam_last_slot_valid c) (bt_defer_reset c)
    rx_ts_ns true (bt_metrics c).
Definition set_leader (c : fd_bam_tile_t) (x : fd_bam_leader_state_t) (pending : bool) : fd_bam_tile_t :=
  mk_tile (bt_scheduler_gen c) (bt_ownership_gen c) (bt_ownership_gen_retired c) (bt_results c) x pending (bt_leader_slot_end c) (bt_status_counted_healthy c) (bt_timing c) (bt_pending_txns c)
    (bt_pending_max c) (bt_dump_bam_mode c) (bt_dump_bam_last_slot c) (bt_dump_bam_last_slot_valid c) (bt_defer_reset c)
    (bt_last_builder_activity_ns c) (bt_builder_heartbeat_received c) (bt_metrics c).
Definition set_leader_slot_end (c : fd_bam_tile_t) (x : list fd_bam_leader_slot_end_tracker_t) : fd_bam_tile_t :=
  mk_tile (bt_scheduler_gen c) (bt_ownership_gen c) (bt_ownership_gen_retired c) (bt_results c) (bt_leader_state c) (bt_leader_pending c) x (bt_status_counted_healthy c) (bt_timing c) (bt_pending_txns c)
    (bt_pending_max c) (bt_dump_bam_mode c) (bt_dump_bam_last_slot c) (bt_dump_bam_last_slot_valid c) (bt_defer_reset c)
    (bt_last_builder_activity_ns c) (bt_builder_heartbeat_received c) (bt_metrics c).
Definition set_gens (c : fd_bam_tile_t) (scheduler_gen ownership_gen : Z) (retired : bool) : fd_bam_tile_t :=
  mk_tile scheduler_gen ownership_gen retired (bt_results c) (bt_leader_state c) (bt_leader_pending c) (bt_leader_slot_end c) (bt_status_counted_healthy c) (bt_timing c) (bt_pending_txns c)
    (bt_pending_max c) (bt_dump_bam_mode c) (bt_dump_bam_last_slot c) (bt_dump_bam_last_slot_valid c) (bt_defer_reset c)
    (bt_last_builder_activity_ns c) (bt_builder_heartbeat_received c) (bt_metrics c).
Definition set_metrics (c : fd_bam_tile_t) (x : fd_bam_metrics_t) : fd_bam_tile_t :=
  mk_tile (bt_scheduler_gen c) (bt_ownership_gen c) (bt_ownership_gen_retired c) (bt_results c) (bt_leader_state c) (bt_leader_pending c) (bt_leader_slot_end c) (bt_status_counted_healthy c) (bt_timing c) (bt_pending_txns c)
    (bt_pending_max c) (bt_dump_bam_mode c) (bt_dump_bam_last_slot c) (bt_dump_bam_last_slot_valid c) (bt_defer_reset c)
    (bt_last_builder_activity_ns c) (bt_builder_heartbeat_received c) x.
Definition bump (c : counter) (n : Z) (x : fd_bam_tile_t) : fd_bam_tile_t := set_metrics x (count_by c n (bt_metrics x)).

(** ** The feedback queue *)

(** Two results of the same batch. *)
Definition same_batch (pending res : fd_bam_bundle_result_t) : bool :=
  (re_scheduler_gen pending =? re_scheduler_gen res) && (re_slot pending =? re_slot res) && (re_seq_id pending =? re_seq_id res).

Definition ring_get (r : results_t) (idx : Z) : outcome fd_bam_bundle_result_t :=
  match rs_ring r !! Z.to_nat idx with Some x => Ok x | None => Fail OutOfBounds end.

(** The loop over the entries behind the newest one, [i] of them already seen. *)
Fixpoint seen_before (r : results_t) (res : fd_bam_bundle_result_t) (i : Z) (n : nat) : outcome bool :=
  match n with
  | O => Ok false
  | S n' =>
      let idx := (rs_tail r + FD_BAM_MAX_PENDING_RESULTS - 1 - i) mod FD_BAM_MAX_PENDING_RESULTS in
      pending ← ring_get r idx;
      if same_batch pending res then Ok true else seen_before r res (i + 1) n'
  end.

Definition fd_bam_enqueue_result (ctx : fd_bam_tile_t) (res : fd_bam_bundle_result_t) : outcome fd_bam_tile_t :=
  if negb (re_scheduler_gen res =? bt_scheduler_gen ctx) then Ok (bump feedback_results_dropped_cnt 1 ctx) else
  let r := bt_results ctx in
  newest ← (if negb (rs_depth r =? 0) then
              pending ← ring_get r ((rs_tail r + FD_BAM_MAX_PENDING_RESULTS - 1) mod FD_BAM_MAX_PENDING_RESULTS);
              Ok (same_batch pending res)
            else Ok false);
  if (newest : bool) then Ok ctx else
  older ← seen_before r res 1 (Z.to_nat (rs_depth r - 1));
  if (older : bool) then Ok ctx else
  if FD_BAM_MAX_PENDING_RESULTS <=? rs_depth r then Ok (bump feedback_results_dropped_cnt 1 ctx) else
  check OutOfBounds (rs_tail r <? Z.of_nat (length (rs_ring r)));;
  Ok (set_results ctx (mk_results (<[Z.to_nat (rs_tail r) := res]> (rs_ring r)) (rs_head r)
        ((rs_tail r + 1) mod FD_BAM_MAX_PENDING_RESULTS) (ushort (rs_depth r + 1)))).

(** What a queued result says on the wire ([AtomicTxnBatchResult]).  The results of the
    transactions of a committed batch are the execution units, balance, size and success of
    each. *)
Inductive not_committed :=
| deserialization_error (index reason : Z)
| scheduling_error (error : Z)
| transaction_error (index reason : Z)
| generic_invalid.

Inductive batch_result :=
| committed (results : list (Z * Z * Z * bool))
| not_committed_result (reason : not_committed).

Definition COMMIT_CANCELLED : Z := 38.

Definition at_idx {A} (l : list A) (i : Z) : outcome A :=
  match l !! Z.to_nat i with Some x => Ok x | None => Fail OutOfBounds end.

(** The loops over the transactions [i, i+n) of a batch. *)
Fixpoint first_unsanitized (res : fd_bam_bundle_result_t) (i : Z) (n : nat) : outcome (option Z) :=
  match n with
  | O => Ok None
  | S n' => ok ← at_idx (re_sanitize_success res) i; if negb ok then Ok (Some i) else first_unsanitized res (i + 1) n'
  end.

Fixpoint first_not_cancelled (res : fd_bam_bundle_result_t) (i : Z) (n : nat) : outcome (option Z) :=
  match n with
  | O => Ok None
  | S n' => e ← at_idx (re_transaction_err res) i; if negb (e =? COMMIT_CANCELLED) then Ok (Some i) else first_not_cancelled res (i + 1) n'
  end.

Definition not_committed_of (res : fd_bam_bundle_result_t) : outcome not_committed :=
  let cnt := Z.to_nat (re_bundle_txn_cnt res) in
  if re_bundle_err res =? FD_BAM_BUNDLE_ERR_DESER then Ok (deserialization_error (re_deser_index res) (re_deser_reason res)) else
  if negb (re_scheduling_error res =? FD_BAM_SCHED_ERR_NONE) then Ok (scheduling_error (re_scheduling_error res)) else
  unsanitized ← first_unsanitized res 0 cnt;
  match unsanitized with
  | Some i => Ok (deserialization_error i DESER_SANITIZE_ERROR)
  | None =>
      if re_transaction_err_count res =? 0 then Ok generic_invalid else
      found ← first_not_cancelled res 0 cnt;
      if negb (bool_decide (is_Some found)) && (1 <? re_bundle_txn_cnt res)
      then Ok (scheduling_error FD_BAM_SCHED_ERR_POH_TIMEOUT)
      else let err_idx := default 0 found in
           e ← at_idx (re_transaction_err res) err_idx;
           Ok (transaction_error err_idx e)
  end.

Fixpoint committed_of (res : fd_bam_bundle_result_t) (i : Z) (n : nat) : outcome (list (Z * Z * Z * bool)) :=
  match n with
  | O => Ok []
  | S n' =>
      cus ← at_idx (re_consumed_cus res) i;
      balance ← at_idx (re_feepayer_balance_lamports res) i;
      size ← at_idx (re_loaded_accounts_data_size res) i;
      sane ← at_idx (re_sanitize_success res) i;
      err ← at_idx (re_transaction_err res) i;
      rest ← committed_of res (i + 1) n';
      Ok ((cus, balance, size, sane && (err =? 0)) :: rest)
  end.

(** One entry of the message: the sequence number and the outcome of the batch. *)
Definition encode_result (res : fd_bam_bundle_result_t) : outcome (Z * batch_result) :=
  if re_execution_success res
  then results ← committed_of res 0 (Z.to_nat (re_bundle_txn_cnt res)); Ok (re_seq_id res, committed results)
  else reason ← not_committed_of res; Ok (re_seq_id res, not_committed_result reason).

Fixpoint encode_results (r : results_t) (result_i : Z) (n : nat) : outcome (list (Z * batch_result)) :=
  match n with
  | O => Ok []
  | S n' =>
      res ← ring_get r ((rs_head r + result_i) mod FD_BAM_MAX_PENDING_RESULTS);
      x ← encode_result res;
      rest ← encode_results r (result_i + 1) n';
      Ok (x :: rest)
  end.

Definition fd_bam_encode_batch_results_cb (ctx : fd_bam_tile_t) : outcome (list (Z * batch_result)) :=
  encode_results (bt_results ctx) 0 (Z.to_nat (Z.min (rs_depth (bt_results ctx)) FD_BAM_RESULTS_PER_MESSAGE)).

(** [live] is [ctx->bam_stream && ctx->bam_stream_live]; [send_res] is what the gRPC client
    says to the message.  Gives the message that was accepted, if any. *)
Definition fd_bam_send_results (ctx : fd_bam_tile_t) (live send_res : bool) : outcome (fd_bam_tile_t * option (list (Z * batch_result))) :=
  if negb live then Ok (bump outbound_result_no_stream 1 ctx, None) else
  msg ← fd_bam_encode_batch_results_cb ctx;
  if send_res then Ok (bump outbound_result_enqueued 1 ctx, Some msg) else Ok (bump outbound_result_enqueue_fail 1 ctx, None).

(** [sends] are the answers of the gRPC client to the successive calls; a call without an
    answer fails.  Gives the messages that were accepted; [busy] is that there are some. *)
Fixpoint fd_bam_flush_results (ctx : fd_bam_tile_t) (live : bool) (sends : list bool) : outcome (fd_bam_tile_t * list (list (Z * batch_result))) :=
  let r := bt_results ctx in
  if rs_depth r =? 0 then Ok (ctx, []) else
  let result_cnt := Z.min (rs_depth r) FD_BAM_RESULTS_PER_MESSAGE in
  match sends with
  | [] => '(ctx, _) ← fd_bam_send_results ctx live false; Ok (ctx, [])
  | send_res :: sends' =>
      '(ctx, msg) ← fd_bam_send_results ctx live send_res;
      match msg with
      | None => Ok (ctx, [])
      | Some msg =>
          let ctx := set_results ctx (mk_results (rs_ring r) ((rs_head r + result_cnt) mod FD_BAM_MAX_PENDING_RESULTS) (rs_tail r) (rs_depth r - result_cnt)) in
          '(ctx, msgs) ← fd_bam_flush_results ctx live sends';
          Ok (ctx, msg :: msgs)
      end
  end.

(** ** Generations

    The socket addresses announced by the marketplace, which the C function also clears, and
    the fences that pack reads are not part of the model. *)
Definition next_gen (gen : Z) : Z := let gen := ushort (gen + 1) in if gen =? 0 then gen + 1 else gen.

Definition fd_bam_tile_begin_ownership_generation (ctx : fd_bam_tile_t) (forget_feedback : bool) : fd_bam_tile_t :=
  let ctx := set_gens ctx (bt_scheduler_gen ctx) (next_gen (bt_ownership_gen ctx)) true in
  let ctx := set_pending ctx [] in
  let r := bt_results ctx in
  if forget_feedback && negb (rs_depth r =? 0)
  then set_results (bump feedback_results_dropped_cnt (rs_depth r) ctx) (mk_results (rs_ring r) (rs_tail r) (rs_tail r) 0)
  else ctx.

Definition fd_bam_tile_begin_scheduler_generation (ctx : fd_bam_tile_t) : fd_bam_tile_t :=
  fd_bam_tile_begin_ownership_generation (set_gens ctx (next_gen (bt_scheduler_gen ctx)) (bt_ownership_gen ctx) (bt_ownership_gen_retired ctx)) true.

(** ** Arrival times by slot *)

(** Only the flag: the rest of the function writes to the log. *)
Definition fd_bam_try_emit_slot_ingress_timing_summary (dump_bam_mode : Z) (e : fd_bam_slot_ingress_timing_t) : fd_bam_slot_ingress_timing_t :=
  if (dump_bam_mode =? 0) || ti_summary_emitted e then e
  else mk_timing (ti_slot e) (ti_first_rx_ts_ns e) (ti_slot_end_ns e) (ti_txn_before_slot_end e) (ti_txn_after_slot_end e)
         (ti_txn_unknown_slot_end e) (ti_first_rx_after_slot_end e) true (ti_valid e).

(** Adds the entry at [idx] to the counters and clears it. *)
Definition fd_bam_finalize_slot_ingress_rollup (ctx : fd_bam_tile_t) (idx : Z) : outcome fd_bam_tile_t :=
  entry ← at_idx (bt_timing ctx) idx;
  if negb (ti_valid entry) then Ok ctx else
  let entry := fd_bam_try_emit_slot_ingress_timing_summary (bt_dump_bam_mode ctx) entry in
  let tx_before := ti_txn_before_slot_end entry in
  let tx_after := ti_txn_after_slot_end entry in
  let tx_unknown := ti_txn_unknown_slot_end entry in
  let result_idx := if negb (ti_slot_end_ns entry =? 0) then slot_ingress_no_ingress else slot_ingress_unknown_slot_end in
  let '(result_idx, tx_before, tx_after, tx_unknown) :=
    if negb (ti_first_rx_ts_ns entry =? 0) && negb (ti_slot_end_ns entry =? 0)
    then ((if ti_first_rx_ts_ns entry <=? ti_slot_end_ns entry then slot_ingress_first_before_end else slot_ingress_first_after_end),
          tx_before, tx_after, tx_unknown)
    else if negb (ti_first_rx_ts_ns entry =? 0) then (result_idx, 0, 0, tx_unknown +w (tx_before +w tx_after))
    else (result_idx, tx_before, tx_after, tx_unknown) in
  let ctx := bump result_idx 1 ctx in
  let ctx := bump slot_ingress_txn_before_end tx_before ctx in
  let ctx := bump slot_ingress_txn_after_end tx_after ctx in
  let ctx := bump slot_ingress_txn_unknown_slot_end tx_unknown ctx in
  Ok (set_timing ctx (<[Z.to_nat idx := timing_zero]> (bt_timing ctx))).

(** The loop over the probes: the entry of the slot, or else the first free entry and the
    oldest entry that may be evicted. *)
Fixpoint timing_scan (tbl : list fd_bam_slot_ingress_timing_t) (slot current_leader_slot probe : Z) (n : nat)
    (free_entry aged_entry : option Z) : outcome (Z + option Z * option Z) :=
  match n with
  | O => Ok (inr (free_entry, aged_entry))
  | S n' =>
      let idx := Z.land (Z.land slot (FD_BAM_SLOT_INGRESS_TIMING_CNT - 1) + probe) (FD_BAM_SLOT_INGRESS_TIMING_CNT - 1) in
      entry ← at_idx tbl idx;
      if ti_valid entry then
        if ti_slot entry =? slot then Ok (inl idx) else
        oldest ← match aged_entry with
                 | None => Ok true
                 | Some a => e ← at_idx tbl a; Ok (ti_slot entry <? ti_slot e)
                 end;
        let aged := negb (current_leader_slot =? ULONG_MAX) && (ti_slot entry <? current_leader_slot)
                    && (FD_BAM_SLOT_INGRESS_RETENTION_SLOTS <=? current_leader_slot -w ti_slot entry) && oldest in
        timing_scan tbl slot current_leader_slot (probe + 1) n' free_entry (if (aged : bool) then Some idx else aged_entry)
      else timing_scan tbl slot current_leader_slot (probe + 1) n' (match free_entry with None => Some idx | Some _ => free_entry end) aged_entry
  end.

(** The index of the entry. *)
Definition fd_bam_slot_ingress_timing_query_or_insert (ctx : fd_bam_tile_t) (slot current_leader_slot : Z) : outcome (fd_bam_tile_t * option Z) :=
  r ← timing_scan (bt_timing ctx) slot current_leader_slot 0 (Z.to_nat FD_BAM_SLOT_INGRESS_TIMING_CNT) None None;
  let insert ctx idx := Ok (set_timing ctx (<[Z.to_nat idx := mk_timing slot 0 0 0 0 0 false false true]> (bt_timing ctx)), Some idx) in
  match r with
  | inl idx => Ok (ctx, Some idx)
  | inr (Some free_entry, _) => insert ctx free_entry
  | inr (None, Some aged_entry) => ctx ← fd_bam_finalize_slot_ingress_rollup ctx aged_entry; insert ctx aged_entry
  | inr (None, None) => Ok (ctx, None)
  end.

Definition fd_uint_sat_add (x y : Z) : Z := Z.min (x + y) UINT_MAX.

(** ** Leader state *)

Definition fd_bam_leader_state_eq (a b : fd_bam_leader_state_t) : bool :=
  (ls_slot a =? ls_slot b) && (ls_tick a =? ls_tick b) && (ls_slot_cu_budget_remaining a =? ls_slot_cu_budget_remaining b)
  && (ls_slot_end_ns a =? ls_slot_end_ns b) && (ls_current_slot_has_bam_work a =? ls_current_slot_has_bam_work b).

(** The probes for the tracker of a slot: found, or the first free one and the oldest
    counted one. *)
Fixpoint tracker_scan (tbl : list fd_bam_leader_slot_end_tracker_t) (slot probe : Z) (n : nat)
    (free_tracker counted_tracker : option Z) : outcome (option Z * option Z * option Z) :=
  match n with
  | O => Ok (None, free_tracker, counted_tracker)
  | S n' =>
      let idx := Z.land (Z.land slot (FD_BAM_LEADER_SLOT_END_TRACKER_CNT - 1) + probe) (FD_BAM_LEADER_SLOT_END_TRACKER_CNT - 1) in
      candidate ← at_idx tbl idx;
      if negb (tr_valid candidate)
      then tracker_scan tbl slot (probe + 1) n' (match free_tracker with None => Some idx | Some _ => free_tracker end) counted_tracker
      else if tr_slot candidate =? slot then Ok (Some idx, free_tracker, counted_tracker) else
      older ← match counted_tracker with
              | None => Ok true
              | Some a => c ← at_idx tbl a; Ok (tr_slot candidate <? tr_slot c)
              end;
      tracker_scan tbl slot (probe + 1) n' free_tracker (if tr_counted candidate && (older : bool) then Some idx else counted_tracker)
  end.

Definition note_slot_end (ctx : fd_bam_tile_t) (state : fd_bam_leader_state_t) : outcome fd_bam_tile_t :=
  let tbl := bt_leader_slot_end ctx in
  '(found, free_tracker, counted_tracker) ← tracker_scan tbl (ls_slot state) 0 (Z.to_nat FD_BAM_LEADER_SLOT_END_TRACKER_CNT) None None;
  let tracker := match found with Some i => Some i | None => match free_tracker with Some i => Some i | None => counted_tracker end end in
  match tracker with
  | None => Ok ctx
  | Some idx =>
      t ← at_idx tbl idx;
      let t := if negb (tr_valid t) || negb (tr_slot t =? ls_slot state)
               then mk_tracker (ls_slot state) (ls_slot_end_ns state) (bt_status_counted_healthy ctx) false false true else t in
      let fresh := if negb (tr_counted t) && negb (ls_current_slot_has_bam_work state =? 0) then true else tr_fresh_seen_before_end t in
      let t := mk_tracker (tr_slot t) (ls_slot_end_ns state) (tr_healthy_at_end t) fresh (tr_counted t) (tr_valid t) in
      Ok (set_leader_slot_end ctx (<[Z.to_nat idx := t]> tbl))
  end.

Definition fd_bam_stage_leader_state (ctx : fd_bam_tile_t) (state : fd_bam_leader_state_t) : outcome fd_bam_tile_t :=
  let track_slot_end := negb (ls_slot state =? ULONG_MAX) && negb (ls_slot_end_ns state =? 0) in
  let ctx := if bt_leader_pending ctx && negb (fd_bam_leader_state_eq (bt_leader_state ctx) state) then bump leader_pending_replaced_cnt 1 ctx else ctx in
  ctx ← (if track_slot_end then
           '(ctx, entry) ← fd_bam_slot_ingress_timing_query_or_insert ctx (ls_slot state) (ls_slot state);
           ctx ← match entry with
                 | None => Ok ctx
                 | Some idx =>
                     e ← at_idx (bt_timing ctx) idx;
                     let e := mk_timing (ti_slot e) (ti_first_rx_ts_ns e) (ls_slot_end_ns state) (ti_txn_before_slot_end e) (ti_txn_after_slot_end e)
                                (ti_txn_unknown_slot_end e) (ls_slot_end_ns state <? ti_first_rx_ts_ns e) (ti_summary_emitted e) (ti_valid e) in
                     Ok (set_timing ctx (<[Z.to_nat idx := e]> (bt_timing ctx)))
                 end;
           note_slot_end ctx state
         else Ok ctx);
  Ok (set_leader ctx state true).

Definition fd_bam_should_dump_batch (ctx : fd_bam_tile_t) (max_schedule_slot : Z) : fd_bam_tile_t * bool :=
  if bt_dump_bam_mode ctx =? FD_BAM_DEBUG_DUMP_MODE_ALL then (ctx, true) else
  if negb (bt_dump_bam_mode ctx =? FD_BAM_DEBUG_DUMP_MODE_SLOT_FIRST) then (ctx, false) else
  if bt_dump_bam_last_slot_valid ctx && (bt_dump_bam_last_slot ctx =? max_schedule_slot) then (ctx, false) else
  (set_dump ctx max_schedule_slot true, true).

(** ** Handing the transactions over *)

(** What verify receives. *)
Record fd_txn_m_t := mk_txn_m {
  tm_payload : list Z;
  tm_txn_t : option fd_txn_t;
  tm_txn_t_sz : Z;
  tm_source_ipv4 : Z;
  tm_first_seen_nanos : Z;
  tm_bundle_id : Z;
  tm_bundle_txn_cnt : Z;
  tm_max_schedule_slot : Z;
  tm_seq_id : Z;
  tm_scheduler_gen : Z;
  tm_ownership_gen : Z;
  tm_txn_cnt : Z;
  tm_batch_idx : Z;
  tm_revert_on_error : bool;
}.

Definition txn_m_of (ctx : fd_bam_tile_t) (p : fd_bam_pending_txn_t) : fd_txn_m_t :=
  mk_txn_m (pt_payload p) (pt_txn_t p) (pt_txn_t_sz p) (pt_source_ipv4 p) (pt_first_seen_nanos p)
    (if pt_revert_on_error p then pt_seq_id p +w 1 else 0)
    (if pt_revert_on_error p && (pt_batch_idx p =? 0) then pt_batch_cnt p else 0)
    (pt_max_schedule_slot p) (pt_seq_id p) (bt_scheduler_gen ctx) (bt_ownership_gen ctx) (pt_batch_cnt p) (pt_batch_idx p) (pt_revert_on_error p).

(** The loop over one batch.  The head of an empty deque does not exist. *)
Fixpoint drain_batch (ctx : fd_bam_tile_t) (n : nat) : outcome (fd_bam_tile_t * list fd_txn_m_t) :=
  match n with
  | O => Ok (ctx, [])
  | S n' =>
      match bt_pending_txns ctx with
      | [] => Fail OutOfBounds
      | pending :: rest =>
          let txnm := txn_m_of ctx pending in
          let ctx := match n' with
                     | O => let ctx := bump ingress_batch_published_cnt 1 ctx in
                            if pt_revert_on_error pending then bump atomic_batch_published_cnt 1 ctx else ctx
                     | S _ => ctx
                     end in
          let ctx := bump transaction_published_cnt 1 (set_pending ctx rest) in
          '(ctx, out) ← drain_batch ctx n';
          Ok (ctx, txnm :: out)
      end
  end.

(** Every round takes at least one transaction unless a batch of none is at the head. *)
Fixpoint drain_batches (ctx : fd_bam_tile_t) (drain_cnt : Z) (fuel : nat) : outcome (fd_bam_tile_t * list fd_txn_m_t) :=
  match fuel with
  | O => Fail Diverge
  | S fuel' =>
      match bt_pending_txns ctx with
      | [] => Ok (ctx, [])
      | head :: _ =>
          if negb (drain_cnt <? FD_BAM_STEM_BURST) then Ok (ctx, []) else
          let batch_cnt := pt_batch_cnt head in
          if FD_BAM_STEM_BURST <? drain_cnt + batch_cnt then Ok (ctx, []) else
          '(ctx, out) ← drain_batch ctx (Z.to_nat batch_cnt);
          '(ctx, more) ← drain_batches ctx (drain_cnt + batch_cnt) fuel';
          Ok (ctx, out ++ more)
      end
  end.

(** The part of [after_credit] that hands transactions over. *)
Definition after_credit (ctx : fd_bam_tile_t) (override_active : bool) : outcome (fd_bam_tile_t * list fd_txn_m_t) :=
  if override_active then drain_batches ctx 0 (S (length (bt_pending_txns ctx))) else Ok (ctx, []).
