(* ===== verification/BamDecode.v ===== *)
(** * The BAM client: decoding a message of the scheduler

    src/src/disco/bam/fd_bam_client_decode.c: a [SchedulerResponse] is unwrapped, its
    batches are decoded into a staging buffer, and once the whole message was read each
    batch is validated and queued or answered.

    A packet is a view of the bytes of its transaction, not a copy.  [pk_rx] says that the
    pointer is into the buffer the message was received in, which lives until the
    message is dealt with.  A stream over that buffer hands out such views; nanopb also calls
    the decoder of packets on a copy of a scalar value in its own stack frame, and a view of that
    is dead when the function returns.  Using the bytes of a dead view is [Dangling]. *)
From S2P Require Import Prelude Txn Pb Bam.

Record fd_bam_packet_view_t := mk_view {
  pk_rx : bool;
  pk_payload : list Z;
}.

(** [packet_cnt] is the length of [bc_packets]. *)
Record fd_bam_batch_ctx_t := mk_batch_ctx {
  bc_ingress_rx_ts_ns : Z;
  bc_ingress_slot_end_ns : Z;
  bc_packets : list fd_bam_packet_view_t;
  bc_revert_on_error : bool;
  bc_has_deser_err : bool;
  bc_packet_decode_failed : bool;
  bc_deser_index : Z;
  bc_deser_reason : Z;
}.

Definition packet_cnt (s : fd_bam_batch_ctx_t) : Z := Z.of_nat (length (bc_packets s)).

(** The state at the start of a batch.  The C code keeps the fields of an earlier batch that
    are only read after they are written. *)
Definition batch_ctx_reset : fd_bam_batch_ctx_t := mk_batch_ctx 0 0 [] false false false 0 0.

Definition set_deser_err (s : fd_bam_batch_ctx_t) (reason index : Z) : fd_bam_batch_ctx_t :=
  mk_batch_ctx (bc_ingress_rx_ts_ns s) (bc_ingress_slot_end_ns s) (bc_packets s) (bc_revert_on_error s) true (bc_packet_decode_failed s) index reason.
Definition set_packet_decode_failed (s : fd_bam_batch_ctx_t) : fd_bam_batch_ctx_t :=
  mk_batch_ctx (bc_ingress_rx_ts_ns s) (bc_ingress_slot_end_ns s) (bc_packets s) (bc_revert_on_error s) (bc_has_deser_err s) true (bc_deser_index s) (bc_deser_reason s).
Definition add_packet (s : fd_bam_batch_ctx_t) (p : fd_bam_packet_view_t) (revert : bool) : fd_bam_batch_ctx_t :=
  mk_batch_ctx (bc_ingress_rx_ts_ns s) (bc_ingress_slot_end_ns s) (bc_packets s ++ [p]) revert (bc_has_deser_err s) (bc_packet_decode_failed s) (bc_deser_index s) (bc_deser_reason s).
Definition set_ingress (s : fd_bam_batch_ctx_t) (rx_ts_ns slot_end_ns : Z) : fd_bam_batch_ctx_t :=
  mk_batch_ctx rx_ts_ns slot_end_ns (bc_packets s) (bc_revert_on_error s) (bc_has_deser_err s) (bc_packet_decode_failed s) (bc_deser_index s) (bc_deser_reason s).

Record bam_types_AtomicTxnBatch := mk_atomic_batch {
  ab_seq_id : Z;
  ab_max_schedule_slot : Z;
}.

(** ** Packets *)

(** [PacketFlags]: the value of [revert_on_error]. *)
Definition packet_flags_field (revert : bool) (wire_type tag : Z) (stream : pb_istream_t) : outcome (bool * option pb_istream_t) :=
  Ok (if tag =? 1 then match pb_dec_bool wire_type stream with Some (_, s) => (revert, Some s) | None => (revert, None) end
      else if tag =? 2 then match pb_dec_bool wire_type stream with Some (v, s) => (v, Some s) | None => (revert, None) end
      else (revert, pb_skip_field stream wire_type)).

(** [Meta]: [has_flags] and [flags.revert_on_error]. *)
Definition meta_field (st : bool * bool) (wire_type tag : Z) (stream : pb_istream_t) : outcome ((bool * bool) * option pb_istream_t) :=
  if tag =? 1 then Ok (match pb_dec_uvarint 64 wire_type stream with Some (_, s) => (st, Some s) | None => (st, None) end)
  else if tag =? 2 then
    if negb (wire_type =? PB_WT_STRING) then Ok ((true, snd st), None) else
    match pb_make_string_substream stream with
    | None => Ok ((true, snd st), None)
    | Some (sub, rest) =>
        '(revert, ok) ← pb_decode_inner packet_flags_field (snd st) sub;
        Ok ((true, revert), if (ok : bool) then Some rest else None)
    end
  else Ok (st, pb_skip_field stream wire_type).

(** How the loop over the fields of a packet ends. *)
Inductive packet_end :=
| PacketRead (packet : fd_bam_packet_view_t) (revert_on_error : bool)
| PacketMalformed
| PacketOversize.

Fixpoint packet_fields (rx : bool) (fuel : nat) (packet : fd_bam_packet_view_t) (has_meta : bool) (meta : bool * bool)
    (stream : pb_istream_t) : outcome packet_end :=
  match fuel with
  | O => Fail Diverge
  | S fuel' =>
      match stream with
      | [] => Ok (PacketRead packet (has_meta && fst meta && snd meta))
      | _ =>
          match pb_decode_tag stream with
          | TagEof | TagError => Ok PacketMalformed
          | TagOk wire_type tag stream =>
              if tag =? 0 then Ok PacketMalformed
              else if tag =? 1 then
                if negb (wire_type =? PB_WT_STRING) then Ok PacketMalformed else
                match pb_make_string_substream stream with
                | None => Ok PacketMalformed
                | Some (data, rest) =>
                    if FD_TXN_MTU <? Z.of_nat (length data) then Ok PacketOversize
                    else packet_fields rx fuel' (mk_view rx data) has_meta meta rest
                end
              else if tag =? 2 then
                if negb (wire_type =? PB_WT_STRING) then Ok PacketMalformed else
                match pb_make_string_substream stream with
                | None => Ok PacketMalformed
                | Some (sub, rest) =>
                    '(meta, meta_ok) ← pb_decode_inner meta_field (if has_meta then meta else (false, false)) sub;
                    if (meta_ok : bool) then packet_fields rx fuel' packet true meta rest else Ok PacketMalformed
                end
              else match pb_skip_field stream wire_type with
                   | Some rest => packet_fields rx fuel' packet has_meta meta rest
                   | None => Ok PacketMalformed
                   end
          end
      end
  end.

(** [rx] says that the stream is over the receive buffer. *)
Definition fd_bam_collect_packet (ctx : fd_bam_tile_t) (state : fd_bam_batch_ctx_t) (rx : bool) (stream : pb_istream_t)
    : outcome (fd_bam_tile_t * fd_bam_batch_ctx_t * bool) :=
  if FD_BAM_MAX_TXN_PER_ATOMIC_BATCH <=? packet_cnt state then Ok (ctx, set_deser_err state DESER_SANITIZE_ERROR 0, false) else
  r ← packet_fields rx (S (length stream)) (mk_view rx []) false (false, false) stream;
  match r with
  | PacketMalformed => Ok (ctx, set_packet_decode_failed state, false)
  | PacketOversize => Ok (bump ingress_packet_oversize_cnt 1 ctx, set_deser_err state DESER_INCONSISTENT_BUNDLE (packet_cnt state), false)
  | PacketRead packet packet_revert_on_error =>
      if negb (packet_cnt state =? 0) && negb (Bool.eqb (bc_revert_on_error state) packet_revert_on_error)
      then Ok (ctx, set_deser_err state DESER_INCONSISTENT_BUNDLE 0, false)
      else Ok (ctx, add_packet state packet packet_revert_on_error, true)
  end.

(** ** Batches *)

(** The fields of [AtomicTxnBatch].  Packets go to [fd_bam_collect_packet], a field of another
    wire type through a buffer of ten bytes on the stack ([decode_callback_field]); when the
    callback returns true it has read its whole stream, so it is called once per field. *)
Definition atomic_batch_field (st : fd_bam_tile_t * fd_bam_batch_ctx_t * bam_types_AtomicTxnBatch) (wire_type tag : Z) (stream : pb_istream_t)
    : outcome ((fd_bam_tile_t * fd_bam_batch_ctx_t * bam_types_AtomicTxnBatch) * option pb_istream_t) :=
  let '(ctx, state, batch) := st in
  if tag =? 1 then
    Ok (match pb_dec_uvarint 32 wire_type stream with
        | Some (v, s) => ((ctx, state, mk_atomic_batch v (ab_max_schedule_slot batch)), Some s)
        | None => (st, None)
        end)
  else if tag =? 2 then
    Ok (match pb_dec_uvarint 64 wire_type stream with
        | Some (v, s) => ((ctx, state, mk_atomic_batch (ab_seq_id batch) v), Some s)
        | None => (st, None)
        end)
  else if tag =? 3 then
    match (if wire_type =? PB_WT_STRING then '(sub, rest) ← pb_make_string_substream stream; Some (true, sub, rest)
           else '(buffer, rest) ← read_raw_value stream wire_type 10; Some (false, buffer, rest)) with
    | None => Ok (st, None)
    | Some (rx, sub, rest) =>
        '(ctx, state, ok) ← fd_bam_collect_packet ctx state rx sub;
        Ok ((ctx, state, batch), if (ok : bool) then Some rest else None)
    end
  else Ok (st, pb_skip_field stream wire_type).

Record fd_bam_batch_decode_err_t := mk_decode_err {
  de_deser_reason : Z;
  de_deser_index : Z;
  de_packet_cnt : Z;
}.

(** The batch and its state, and the error if the batch was not decoded. *)
Definition fd_bam_decode_batch (ctx : fd_bam_tile_t) (stream : pb_istream_t) (rx_ts_ns leader_slot_at_rx leader_slot_end_ns_at_rx : Z)
    : outcome (fd_bam_tile_t * bam_types_AtomicTxnBatch * fd_bam_batch_ctx_t * option fd_bam_batch_decode_err_t) :=
  '(st, ok) ← pb_decode_inner atomic_batch_field (ctx, batch_ctx_reset, mk_atomic_batch 0 0) stream;
  let '(ctx, state, batch) := st in
  if negb ok then
    let err := if bc_has_deser_err state then mk_decode_err (bc_deser_reason state) (bc_deser_index state) (packet_cnt state)
               else mk_decode_err DESER_INCONSISTENT_BUNDLE (packet_cnt state) (packet_cnt state) in
    Ok (bump batch_rejected_invalid_batch 1 ctx, batch, state, Some err)
  else
    Ok (ctx, batch, set_ingress state rx_ts_ns (if ab_max_schedule_slot batch =? leader_slot_at_rx then leader_slot_end_ns_at_rx else 0), None).

Record fd_bam_batch_identity_t := mk_identity {
  id_seq_id : Z;
  id_max_schedule_slot : Z;
  id_has_seq_id : bool;
  id_has_max_schedule_slot : bool;
}.

(** The second pass over a batch that was not decoded; the flag is [eof]. *)
Fixpoint identity_fields (fuel : nat) (identity : fd_bam_batch_identity_t) (stream : pb_istream_t) : outcome (fd_bam_batch_identity_t * bool) :=
  match fuel with
  | O => Fail Diverge
  | S fuel' =>
      match pb_decode_tag stream with
      | TagEof => Ok (identity, true)
      | TagError => Ok (identity, false)
      | TagOk wire_type tag stream =>
          if tag =? 0 then Ok (identity, false)
          else if tag =? 1 then
            if negb (wire_type =? PB_WT_VARINT) then Ok (identity, false) else
            match pb_decode_varint stream with
            | None => Ok (identity, false)
            | Some (val, rest) =>
                if negb (u32 val =? val) then Ok (identity, false)
                else identity_fields fuel' (mk_identity (u32 val) (id_max_schedule_slot identity) true (id_has_max_schedule_slot identity)) rest
            end
          else if tag =? 2 then
            if negb (wire_type =? PB_WT_VARINT) then Ok (identity, false) else
            match pb_decode_varint stream with
            | None => Ok (identity, false)
            | Some (val, rest) => identity_fields fuel' (mk_identity (id_seq_id identity) val (id_has_seq_id identity) true) rest
            end
          else match pb_skip_field stream wire_type with
               | None => Ok (identity, false)
               | Some rest => identity_fields fuel' identity rest
               end
      end
  end.

Definition fd_bam_decode_batch_identity (stream : pb_istream_t) : outcome (fd_bam_batch_identity_t * bool) :=
  identity_fields (S (length stream)) (mk_identity 0 0 false false) stream.

Definition fd_bam_deser_result_from_identity (ctx : fd_bam_tile_t) (identity : fd_bam_batch_identity_t) (err : fd_bam_batch_decode_err_t) : fd_bam_bundle_result_t :=
  result_of (id_seq_id identity) (bt_scheduler_gen ctx) (if id_has_max_schedule_slot identity then id_max_schedule_slot identity else 0)
    (de_packet_cnt err) FD_BAM_SCHED_ERR_NONE FD_BAM_BUNDLE_ERR_DESER (de_deser_reason err) (de_deser_index err).

(** ** Messages *)

(** [FD_BAM_MULTI_DECODE_ROLLBACK], with [before] the state at the start of the message. *)
Definition rollback_metrics (before m : fd_bam_metrics_t) : fd_bam_metrics_t := fun c =>
  match c with
  | ingress_packet_oversize_cnt | feedback_results_dropped_cnt
  | batch_rejected_invalid_batch | batch_rejected_empty_batch | batch_rejected_vote_transaction
  | message_rejected_empty_message | message_rejected_overflow_message => before c
  | _ => m c
  end.

Definition rollback (before ctx : fd_bam_tile_t) : fd_bam_tile_t :=
  let ctx := set_metrics ctx (rollback_metrics (bt_metrics before) (bt_metrics ctx)) in
  set_results ctx (mk_results (rs_ring (bt_results ctx)) (rs_head (bt_results ctx)) (rs_tail (bt_results before)) (rs_depth (bt_results before))).

Section Message.
  Context (before : fd_bam_tile_t) (rx_ts_ns leader_slot_at_rx leader_slot_end_ns_at_rx : Z).

(** The loop; [decoded] are the batches of the staging buffer. *)
Fixpoint multi_fields (fuel : nat) (ctx : fd_bam_tile_t) (seen_batch_count : Z) (decoded : list (fd_bam_batch_ctx_t * bam_types_AtomicTxnBatch))
    (stream : pb_istream_t) : outcome (fd_bam_tile_t * option (list (fd_bam_batch_ctx_t * bam_types_AtomicTxnBatch))) :=
  match fuel with
  | O => Fail Diverge
  | S fuel' =>
      match pb_decode_tag stream with
      | TagError => Ok (rollback before ctx, None)
      | TagEof =>
          Ok (if seen_batch_count =? 0 then bump message_rejected_empty_message 1 ctx else ctx, Some decoded)
      | TagOk wire_type tag stream =>
          if (tag =? 0) || negb (tag =? 3) || negb (wire_type =? PB_WT_STRING) then Ok (rollback before ctx, None) else
          match pb_make_string_substream stream with
          | None => Ok (rollback before ctx, None)
          | Some (sub, rest) =>
              if FD_BAM_MAX_ATOMIC_BATCHES_PER_MESSAGE <=? seen_batch_count
              then Ok (bump message_rejected_overflow_message 1 (rollback before ctx), None) else
              '(ctx, batch, state, err) ← fd_bam_decode_batch ctx sub rx_ts_ns leader_slot_at_rx leader_slot_end_ns_at_rx;
              match err with
              | None =>
                  check OutOfBounds (Z.of_nat (length decoded) <? FD_BAM_MAX_ATOMIC_BATCHES_PER_MESSAGE);;
                  multi_fields fuel' ctx (seen_batch_count + 1) (decoded ++ [(state, batch)]) rest
              | Some err =>
                  '(identity, identity_ok) ← fd_bam_decode_batch_identity sub;
                  ctx ← (if (id_has_seq_id identity || identity_ok) && bc_has_deser_err state && negb (bc_packet_decode_failed state)
                         then fd_bam_enqueue_result ctx (fd_bam_deser_result_from_identity ctx identity err)
                         else Ok ctx);
                  multi_fields fuel' ctx (seen_batch_count + 1) decoded rest
              end
          end
      end
  end.
End Message.

Definition fd_bam_decode_multiple_atomic_txn_batch (ctx : fd_bam_tile_t) (stream : pb_istream_t) (rx_ts_ns leader_slot_at_rx leader_slot_end_ns_at_rx : Z)
    : outcome (fd_bam_tile_t * option (list (fd_bam_batch_ctx_t * bam_types_AtomicTxnBatch))) :=
  multi_fields ctx rx_ts_ns leader_slot_at_rx leader_slot_end_ns_at_rx (S (length stream)) ctx 0 [] stream.

(** ** Committing a batch *)

Definition fd_bam_record_batch_ingress_timing (ctx : fd_bam_tile_t) (state : fd_bam_batch_ctx_t) (max_schedule_slot : Z) : outcome fd_bam_tile_t :=
  let leader_slot := ls_slot (bt_leader_state ctx) in
  let rx_ts_ns := bc_ingress_rx_ts_ns state in
  if packet_cnt state =? 0 then Ok ctx else
  let slot_end_ns := if (bc_ingress_slot_end_ns state =? 0) && (max_schedule_slot =? leader_slot)
                     then ls_slot_end_ns (bt_leader_state ctx) else bc_ingress_slot_end_ns state in
  '(ctx, entry) ← fd_bam_slot_ingress_timing_query_or_insert ctx max_schedule_slot leader_slot;
  match entry with
  | None => Ok ctx
  | Some idx =>
      e ← at_idx (bt_timing ctx) idx;
      let entry_end := if negb (slot_end_ns =? 0) then slot_end_ns else ti_slot_end_ns e in
      let first_after := if negb (slot_end_ns =? 0) then slot_end_ns <? ti_first_rx_ts_ns e else ti_first_rx_after_slot_end e in
      let have_slot_end := negb (entry_end =? 0) in
      let first_observation := (ti_txn_before_slot_end e =? 0) && (ti_txn_after_slot_end e =? 0) && (ti_txn_unknown_slot_end e =? 0) in
      let after_slot_end := if have_slot_end then entry_end <? rx_ts_ns
                            else negb (leader_slot =? ULONG_MAX) && (max_schedule_slot <? leader_slot) in
      let first_rx := if first_observation then rx_ts_ns else ti_first_rx_ts_ns e in
      let first_after := if first_observation then after_slot_end else first_after in
      let add (b : bool) n := if b then fd_uint_sat_add n (packet_cnt state) else n in
      let e := mk_timing (ti_slot e) first_rx entry_end
                 (add (have_slot_end && negb after_slot_end) (ti_txn_before_slot_end e))
                 (add (have_slot_end && after_slot_end) (ti_txn_after_slot_end e))
                 (add (negb have_slot_end) (ti_txn_unknown_slot_end e))
                 first_after (ti_summary_emitted e) (ti_valid e) in
      Ok (set_timing ctx (<[Z.to_nat idx := e]> (bt_timing ctx)))
  end.

(** The bytes behind a view. *)
Definition packet_bytes (p : fd_bam_packet_view_t) : outcome (list Z) :=
  check Dangling (pk_rx p || (Z.of_nat (length (pk_payload p)) =? 0));;
  Ok (pk_payload p).

(** The parsed transactions with their sizes, or the index of the first simple vote. *)
Fixpoint parse_packets (packets : list fd_bam_packet_view_t) (i : Z) : outcome (Z + list (Z * option fd_txn_t)) :=
  match packets with
  | [] => Ok (inr [])
  | packet :: packets' =>
      payload ← packet_bytes packet;
      r ← fd_txn_parse payload (Z.of_nat (length payload)) None;
      let txn_t_sz := ushort (pr_ret r) in
      vote ← match pr_out r with
             | Some txn => if txn_t_sz =? 0 then Ok false else fd_txn_is_simple_vote_transaction txn payload
             | None => Ok false
             end;
      if (vote : bool) then Ok (inl i) else
      rest ← parse_packets packets' (i + 1);
      Ok (match rest with inl v => inl v | inr l => inr ((txn_t_sz, pr_out r) :: l) end)
  end.

(** [parsed] on success. *)
Definition fd_bam_validate_batch (ctx : fd_bam_tile_t) (state : fd_bam_batch_ctx_t) (batch : bam_types_AtomicTxnBatch)
    : outcome (fd_bam_tile_t * option (list (Z * option fd_txn_t))) :=
  let reject ctx scheduling_error bundle_err reason index :=
    ctx ← fd_bam_enqueue_result ctx (result_of (ab_seq_id batch) (bt_scheduler_gen ctx) (ab_max_schedule_slot batch) (packet_cnt state)
                                       scheduling_error bundle_err reason index);
    Ok (ctx, None) in
  if negb (ls_slot (bt_leader_state ctx) =? ULONG_MAX) && (ab_max_schedule_slot batch <? ls_slot (bt_leader_state ctx)) then
    ctx ← fd_bam_record_batch_ingress_timing ctx state (ab_max_schedule_slot batch);
    reject ctx FD_BAM_SCHED_ERR_OUTSIDE_SLOT FD_BAM_BUNDLE_ERR_NONE 0 0
  else if bc_has_deser_err state then
    reject (bump batch_rejected_invalid_batch 1 ctx) FD_BAM_SCHED_ERR_NONE FD_BAM_BUNDLE_ERR_DESER (bc_deser_reason state) (bc_deser_index state)
  else if packet_cnt state =? 0 then
    reject (bump batch_rejected_empty_batch 1 ctx) FD_BAM_SCHED_ERR_NONE FD_BAM_BUNDLE_ERR_DESER DESER_EMPTY 0
  else
    r ← parse_packets (bc_packets state) 0;
    match r with
    | inl simple_vote_idx =>
        reject (bump batch_rejected_vote_transaction 1 ctx) FD_BAM_SCHED_ERR_NONE FD_BAM_BUNDLE_ERR_DESER DESER_VOTE_TRANSACTION_FAILURE simple_vote_idx
    | inr parsed => Ok (ctx, Some parsed)
    end.

(** The entries pushed for the packets [i] and later. *)
Fixpoint pending_of (state : fd_bam_batch_ctx_t) (batch : bam_types_AtomicTxnBatch) (i : Z)
    (l : list (fd_bam_packet_view_t * (Z * option fd_txn_t))) : outcome (list fd_bam_pending_txn_t) :=
  match l with
  | [] => Ok []
  | (packet, (txn_t_sz, txn_t)) :: l' =>
      payload ← packet_bytes packet;
      rest ← pending_of state batch (i + 1) l';
      Ok (mk_pending payload (bc_ingress_rx_ts_ns state) (ab_max_schedule_slot batch) (ab_seq_id batch) 0 txn_t_sz i (packet_cnt state)
            (bc_revert_on_error state) txn_t :: rest)
  end.

Definition fd_bam_publish_batch (ctx : fd_bam_tile_t) (state : fd_bam_batch_ctx_t) (batch : bam_types_AtomicTxnBatch)
    (parsed : list (Z * option fd_txn_t)) : outcome fd_bam_tile_t :=
  ctx ← fd_bam_record_batch_ingress_timing ctx state (ab_max_schedule_slot batch);
  let '(ctx, _) := fd_bam_should_dump_batch ctx (ab_max_schedule_slot batch) in
  if bt_pending_max ctx - Z.of_nat (length (bt_pending_txns ctx)) <? packet_cnt state then
    let ctx := bump transaction_rejected_backpressure_cnt (packet_cnt state) ctx in
    fd_bam_enqueue_result ctx (result_of (ab_seq_id batch) (bt_scheduler_gen ctx) (ab_max_schedule_slot batch) (packet_cnt state)
                                 FD_BAM_SCHED_ERR_CONTAINER_FULL FD_BAM_BUNDLE_ERR_NONE 0 0)
  else
    pending ← pending_of state batch 0 (zip (bc_packets state) parsed);
    Ok (set_pending ctx (bt_pending_txns ctx ++ pending)).

Definition commit_batch (ctx : fd_bam_tile_t) (b : fd_bam_batch_ctx_t * bam_types_AtomicTxnBatch) : outcome fd_bam_tile_t :=
  '(ctx, parsed) ← fd_bam_validate_batch ctx (fst b) (snd b);
  match parsed with
  | None => Ok ctx
  | Some parsed => fd_bam_publish_batch ctx (fst b) (snd b) parsed
  end.

(** ** Scheduler responses *)

(** The version tag that is not known, and the bytes of the last message of version 0;
    [None] when the envelope does not decode. *)
Fixpoint response_fields (fuel : nat) (unsupported_version_tag : Z) (selected_v0 : option pb_istream_t) (stream : pb_istream_t)
    : outcome (option (Z * option pb_istream_t)) :=
  match fuel with
  | O => Fail Diverge
  | S fuel' =>
      match pb_decode_tag stream with
      | TagEof => Ok (Some (unsupported_version_tag, selected_v0))
      | TagError => Ok None
      | TagOk wire_type tag stream =>
          if (tag =? 0) || negb (wire_type =? PB_WT_STRING) then Ok None
          else if negb (tag =? 1) then
            match pb_skip_field stream wire_type with
            | None => Ok None
            | Some rest => response_fields fuel' tag selected_v0 rest
            end
          else match pb_make_string_substream stream with
               | None => Ok None
               | Some (sub, rest) => response_fields fuel' unsupported_version_tag (Some sub) rest
               end
      end
  end.

(** The tag and the bytes of the last response in the message. *)
Fixpoint v0_fields (fuel : nat) (selected : option (Z * pb_istream_t)) (stream : pb_istream_t) : outcome (option (Z * pb_istream_t)) :=
  match fuel with
  | O => Fail Diverge
  | S fuel' =>
      match pb_decode_tag stream with
      | TagEof => Ok selected
      | TagError => Ok None
      | TagOk wire_type tag stream =>
          if negb ((tag =? 1) || (tag =? 2) || (tag =? 3)) || negb (wire_type =? PB_WT_STRING) then Ok None
          else match pb_make_string_substream stream with
               | None => Ok None
               | Some (sub, rest) => v0_fields fuel' (Some (tag, sub)) rest
               end
      end
  end.

(** A message with one integer, the field of tag 1. *)
Definition single_uint_field (size : Z) (st : Z) (wire_type tag : Z) (stream : pb_istream_t) : outcome (Z * option pb_istream_t) :=
  Ok (if tag =? 1 then match pb_dec_uvarint size wire_type stream with Some (v, s) => (v, Some s) | None => (st, None) end
      else (st, pb_skip_field stream wire_type)).

(** What the gRPC client says while a pong is sent: whether the stream is live, whether
    the message was taken, and if not, whether its buffer is empty and a request is busy. *)
Record pong_env := mk_pong_env {
  pe_live : bool;
  pe_send_ok : bool;
  pe_tx_empty : bool;
  pe_request_busy : bool;
}.

Definition pong_outcome (env : pong_env) : counter :=
  if pe_send_ok env then pong_send_enqueued
  else if negb (pe_tx_empty env) then pong_send_frame_tx_busy
  else if pe_request_busy env then pong_send_request_busy
  else pong_send_send_fail.

Definition fd_bam_handle_scheduler_response (ctx : fd_bam_tile_t) (data : list Z) (rx_ts_ns : Z) (env : pong_env) : outcome fd_bam_tile_t :=
  let leader_slot_at_rx := ls_slot (bt_leader_state ctx) in
  let leader_slot_end_ns_at_rx := ls_slot_end_ns (bt_leader_state ctx) in
  let fail ctx := Ok (bump failure_scheduler_envelope_decode 1 ctx) in
  envelope ← response_fields (S (length data)) 0 None data;
  match envelope with
  | None => fail ctx
  | Some (unsupported_version_tag, None) =>
      if negb (unsupported_version_tag =? 0) then Ok (set_defer_reset (bump failure_unsupported_version 1 ctx))
      else fail ctx
  | Some (_, Some v0) =>
      selected ← v0_fields (S (length v0)) None v0;
      match selected with
      | None => fail ctx
      | Some (selected_tag, selected_data) =>
          if selected_tag =? 1 then
            '(_, ok) ← pb_decode_inner (single_uint_field 64) 0 selected_data;
            if negb ok then fail ctx else Ok (bump builder_heartbeats_decoded_cnt 1 (set_heartbeat ctx rx_ts_ns))
          else if selected_tag =? 2 then
            '(ctx, decoded) ← fd_bam_decode_multiple_atomic_txn_batch ctx selected_data rx_ts_ns leader_slot_at_rx leader_slot_end_ns_at_rx;
            match decoded with
            | None => fail ctx
            | Some batches =>
                let ctx := bump ingress_multi_message_received_cnt 1 ctx in
                let ctx := bump ingress_batch_commit_attempt_cnt (Z.of_nat (length batches)) ctx in
                ofold commit_batch ctx batches
            end
          else
            '(_, ok) ← pb_decode_inner (single_uint_field 32) 0 selected_data;
            if negb ok then fail ctx
            else if negb (pe_live env) then Ok ctx
            else Ok (bump (pong_outcome env) 1 ctx)
      end
  end.
