(* ===== verification/BamFeedback.v ===== *)
(** * The feedback queue refines a list of results

    The array with head, tail and depth represents the list [queue]; queueing a result,
    sending results and starting a generation are operations on that list.  The
    specification keeps the list: a result is added at the end unless it is stale, a
    duplicate or one too many; messages take the oldest results; a new scheduler
    generation forgets them all. *)
From S2P Require Import Prelude Txn Pb Bam.

(** ** The ring as a list *)

Notation RING := FD_BAM_MAX_PENDING_RESULTS.

(** The queued results, oldest first. *)
Definition queue (r : results_t) : list fd_bam_bundle_result_t :=
  take (Z.to_nat (rs_depth r)) (rotate (Z.to_nat (rs_head r)) (rs_ring r)).

Record results_ok (r : results_t) : Prop := mk_results_ok {
  ro_ring : Z.of_nat (length (rs_ring r)) = RING;
  ro_head : 0 <= rs_head r < RING;
  ro_depth : 0 <= rs_depth r <= RING;
  ro_tail : rs_tail r = (rs_head r + rs_depth r) mod RING;
}.

Lemma queue_length r : results_ok r -> Z.of_nat (length (queue r)) = rs_depth r.
Proof. intros [H1 H2 H3 H4]. unfold queue. rewrite length_take, length_rotate. unfold RING in *. lia. Qed.

Lemma queue_lookup r i : results_ok r -> 0 <= i < rs_depth r -> queue r !! Z.to_nat i = rs_ring r !! Z.to_nat ((rs_head r + i) mod RING).
Proof.
  intros [H1 H2 H3 H4] Hi. unfold queue. rewrite lookup_take, decide_True by lia.
  rewrite lookup_rotate_r by (unfold RING in *; lia). unfold rotate_nat_add. by rewrite H1, !Z2Nat.id by lia.
Qed.

Lemma queue_get r i : results_ok r -> 0 <= i < rs_depth r ->
  exists x, queue r !! Z.to_nat i = Some x /\ ring_get r ((rs_head r + i) mod RING) = Ok x.
Proof.
  intros Hr Hi. pose proof (queue_length r Hr) as Hl. destruct (lookup_lt_is_Some_2 (queue r) (Z.to_nat i)) as [x Hx]; [lia|].
  exists x. split; [done|]. unfold ring_get. by rewrite <- queue_lookup, Hx.
Qed.

(** Counting from the tail. *)
Lemma tail_index r i : results_ok r -> 0 <= i < rs_depth r ->
  (rs_tail r + RING - 1 - i) mod RING = (rs_head r + (rs_depth r - 1 - i)) mod RING.
Proof.
  intros [H1 H2 H3 ->] Hi. unfold RING in *. replace ((rs_head r + rs_depth r) mod 2048 + 2048 - 1 - i) with ((rs_head r + rs_depth r) mod 2048 + (2047 - i)) by lia.
  rewrite Z.add_mod_idemp_l by lia. replace (rs_head r + rs_depth r + (2047 - i)) with (rs_head r + (rs_depth r - 1 - i) + 1 * 2048) by lia. apply Z_mod_plus_full.
Qed.

Lemma newest_get r i : results_ok r -> 0 <= i < rs_depth r ->
  exists x, reverse (queue r) !! Z.to_nat i = Some x /\ ring_get r ((rs_tail r + RING - 1 - i) mod RING) = Ok x.
Proof.
  intros Hr Hi. rewrite (tail_index r i Hr Hi). destruct (queue_get r (rs_depth r - 1 - i) Hr ltac:(lia)) as (x & Hx & ->).
  exists x. split; [|done]. pose proof (queue_length r Hr). rewrite reverse_lookup by lia. rewrite <- Hx. f_equal. lia.
Qed.

Definition queued (q : list fd_bam_bundle_result_t) (res : fd_bam_bundle_result_t) : bool := existsb (fun p => same_batch p res) q.

Lemma seen_before_spec r res n : results_ok r -> forall i, 0 <= i -> i + Z.of_nat n <= rs_depth r ->
  seen_before r res i n = Ok (queued (take n (drop (Z.to_nat i) (reverse (queue r)))) res).
Proof.
  intros Hr. induction n as [|n IH]; intros i Hi Hn; [done|]. cbn [seen_before]. destruct (newest_get r i Hr ltac:(lia)) as (x & Hx & ->). cbn [mbind outcome_bind].
  rewrite (drop_S _ _ _ Hx). cbn [take queued existsb]. destruct (same_batch x res); [done|]. cbn [orb]. rewrite IH by lia. by replace (Z.to_nat (i + 1)) with (S (Z.to_nat i)) by lia.
Qed.

Lemma queued_reverse q res : queued (reverse q) res = queued q res.
Proof.
  unfold queued. induction q as [|x q IH]; [done|]. rewrite reverse_cons, existsb_app, IH. cbn [existsb]. by rewrite orb_false_r, orb_comm.
Qed.

(** What queueing a result does to the list, and whether the result is counted as
    dropped. *)
Definition enqueue (gen : Z) (q : list fd_bam_bundle_result_t) (res : fd_bam_bundle_result_t) : list fd_bam_bundle_result_t * bool :=
  if negb (re_scheduler_gen res =? gen) then (q, true)
  else if queued q res then (q, false)
  else if RING <=? Z.of_nat (length q) then (q, true)
  else (q ++ [res], false).

Lemma queue_push r res : results_ok r -> rs_depth r < RING ->
  let r' := mk_results (<[Z.to_nat (rs_tail r) := res]> (rs_ring r)) (rs_head r) ((rs_tail r + 1) mod RING) (rs_depth r + 1) in
  results_ok r' /\ queue r' = queue r ++ [res].
Proof.
  intros [H1 H2 H3 H4] Hd r'. unfold RING in *. split.
  - split; cbn [r' rs_ring rs_head rs_tail rs_depth]; rewrite ?length_insert; unfold RING; [lia..|]. rewrite H4. rewrite Z.add_mod_idemp_l by lia. f_equal. lia.
  - unfold queue. cbn [r' rs_ring rs_head rs_depth]. assert (Z.to_nat (rs_tail r) = rotate_nat_add (Z.to_nat (rs_head r)) (Z.to_nat (rs_depth r)) (length (rs_ring r))) as ->.
    { unfold rotate_nat_add. rewrite H1, !Z2Nat.id by lia. by rewrite H4. }
    rewrite rotate_insert_l by lia. replace (Z.to_nat (rs_depth r + 1)) with (S (Z.to_nat (rs_depth r))) by lia.
    erewrite take_S_r by (apply list_lookup_insert_eq; rewrite length_rotate; lia). by rewrite take_insert_ge by lia.
Qed.

(** Only the ring and the counters change. *)
Definition feedback_only (ctx ctx' : fd_bam_tile_t) : Prop := ctx' = set_metrics (set_results ctx (bt_results ctx')) (bt_metrics ctx').

Lemma enqueue_spec ctx res : results_ok (bt_results ctx) ->
  exists ctx', fd_bam_enqueue_result ctx res = Ok ctx' /\ results_ok (bt_results ctx') /\ feedback_only ctx ctx' /\
    (queue (bt_results ctx'), bt_metrics ctx') =
      let '(q, dropped) := enqueue (bt_scheduler_gen ctx) (queue (bt_results ctx)) res in
      (q, if (dropped : bool) then count_by feedback_results_dropped_cnt 1 (bt_metrics ctx) else bt_metrics ctx).
Proof.
  intros Hr. pose proof (queue_length _ Hr) as Hl. unfold fd_bam_enqueue_result, enqueue. destruct (negb (re_scheduler_gen res =? bt_scheduler_gen ctx)).
  { eexists. split; [reflexivity|]. by destruct ctx. }
  cbv zeta. set (r := bt_results ctx) in *.
  assert (exists b : bool, (if negb (rs_depth r =? 0) then pending ← ring_get r ((rs_tail r + RING - 1) mod RING); Ok (same_batch pending res) else Ok false) = Ok b /\
    (if b then Ok true else seen_before r res 1 (Z.to_nat (rs_depth r - 1))) = Ok (queued (queue r) res)) as (b & -> & Hb).
  { rewrite <- queued_reverse. case_if.
    - destruct (newest_get r 0 Hr) as (x & Hx & Hg); [pose proof (ro_depth r Hr); lia|]. rewrite Z.sub_0_r in Hg. rewrite Hg. cbn [mbind outcome_bind]. eexists. split; [reflexivity|].
      destruct (reverse (queue r)) as [|y l] eqn:Eq; [done|]. injection Hx as ->. cbn [queued existsb]. destruct (same_batch x res); [done|]. cbn [orb].
      rewrite (seen_before_spec r res _ Hr) by (pose proof (ro_depth r Hr); lia). rewrite Eq. change (drop (Z.to_nat 1) (x :: l)) with l. f_equal. unfold queued. f_equal. apply take_ge.
      apply (f_equal length) in Eq. rewrite length_reverse in Eq. cbn [length] in Eq. lia.
    - exists false. split; [done|]. rewrite E. replace (Z.to_nat (0 - 1)) with 0%nat by lia. cbn [seen_before]. destruct (queue r); [done|]. cbn [length] in Hl. lia. }
  cbn [mbind outcome_bind]. destruct b.
  { injection Hb as <-. eexists. split; [reflexivity|]. by destruct ctx. }
  rewrite Hb. cbn [mbind outcome_bind]. destruct (queued (queue r) res). { eexists. split; [reflexivity|]. by destruct ctx. }
  rewrite Hl. case_if. { eexists. split; [reflexivity|]. by destruct ctx. }
  pose proof (ro_ring r Hr) as H1. pose proof (ro_tail r Hr) as H4. pose proof (ro_depth r Hr) as H3. unfold RING in *.
  assert (0 <= rs_tail r < 2048) as Ht by (rewrite H4; apply Z.mod_pos_bound; lia). rewrite (proj2 (Z.ltb_lt (rs_tail r) (Z.of_nat (length (rs_ring r))))) by lia. cbn [check mbind outcome_bind].
  eexists. split; [reflexivity|]. cbn [set_results bt_results bt_metrics]. unfold ushort. rewrite (Z.mod_small (rs_depth r + 1)) by lia. destruct (queue_push r res Hr ltac:(unfold RING; lia)) as [H5 H6].
  split; [done|]. split; [by destruct ctx|]. unfold RING in H6. by rewrite H6.
Qed.

(** ** Sending *)

Lemma queue_pop r k : results_ok r -> 0 <= k <= rs_depth r ->
  let r' := mk_results (rs_ring r) ((rs_head r + k) mod RING) (rs_tail r) (rs_depth r - k) in
  results_ok r' /\ queue r' = drop (Z.to_nat k) (queue r).
Proof.
  intros Hr Hk r'. pose proof Hr as [H1 H2 H3 H4]. assert (results_ok r') as Hr'.
  { unfold RING in *. split; cbn [r' rs_ring rs_head rs_tail rs_depth]; unfold RING; [lia| |lia|]; [apply Z.mod_pos_bound; lia|]. rewrite Z.add_mod_idemp_l by lia. rewrite H4. unfold RING. f_equal. lia. }
  split; [done|]. apply list_eq. intros i. rewrite lookup_drop. pose proof (queue_length r Hr) as L. pose proof (queue_length r' Hr') as L'. cbn [r' rs_depth] in L'.
  destruct (decide (Z.of_nat i < rs_depth r - k)) as [Hi|Hi].
  - replace i with (Z.to_nat (Z.of_nat i)) at 1 by lia. rewrite (queue_lookup r' _ Hr') by (cbn [r' rs_depth]; lia).
    replace (Z.to_nat k + i)%nat with (Z.to_nat (k + Z.of_nat i)) by lia. rewrite (queue_lookup r _ Hr) by lia. cbn [r' rs_ring rs_head]. do 2 f_equal. unfold RING. rewrite Z.add_mod_idemp_l by lia. f_equal. lia.
  - rewrite !lookup_ge_None_2; [done|lia..].
Qed.

(** Arrays of the size the structure has, and a count that the producers keep to. *)
Record result_wf (res : fd_bam_bundle_result_t) : Prop := mk_result_wf {
  rw_cnt : 0 <= re_bundle_txn_cnt res <= FD_PACK_MAX_TXN_PER_BUNDLE;
  rw_err : length (re_transaction_err res) = 5%nat;
  rw_cus : length (re_consumed_cus res) = 5%nat;
  rw_balance : length (re_feepayer_balance_lamports res) = 5%nat;
  rw_size : length (re_loaded_accounts_data_size res) = 5%nat;
  rw_sane : length (re_sanitize_success res) = 5%nat;
}.

Lemma at_idx_ok {A} (l : list A) i : 0 <= i < Z.of_nat (length l) -> exists x, at_idx l i = Ok x.
Proof. intros Hi. unfold at_idx. destruct (lookup_lt_is_Some_2 l (Z.to_nat i)) as [x ->]; [lia|]. eauto. Qed.

Lemma unsanitized_ok res n : result_wf res -> forall i, 0 <= i -> i + Z.of_nat n <= 5 -> exists o, first_unsanitized res i n = Ok o.
Proof.
  intros W. induction n as [|n IH]; intros i Hi Hn; cbn [first_unsanitized]; [eauto|].
  destruct (at_idx_ok (re_sanitize_success res) i) as [x ->]; [rewrite (rw_sane res W); lia|]. cbn. case_if; [eauto|]. apply IH; lia.
Qed.

Lemma not_cancelled_ok res n : result_wf res -> forall i, 0 <= i -> i + Z.of_nat n <= 5 -> exists o, first_not_cancelled res i n = Ok o /\ forall k, o = Some k -> i <= k < i + Z.of_nat n.
Proof.
  intros W. induction n as [|n IH]; intros i Hi Hn; cbn [first_not_cancelled]; [by exists None|].
  destruct (at_idx_ok (re_transaction_err res) i) as [x ->]; [rewrite (rw_err res W); lia|]. cbn. case_if; [eexists; split; [done|]; intros k [= <-]; lia|].
  destruct (IH (i + 1) ltac:(lia) ltac:(lia)) as (o & -> & Ho). eexists. split; [done|]. intros k Hk. specialize (Ho k Hk). lia.
Qed.

Lemma committed_ok res n : result_wf res -> forall i, 0 <= i -> i + Z.of_nat n <= 5 -> exists l, committed_of res i n = Ok l.
Proof.
  intros W. induction n as [|n IH]; intros i Hi Hn; cbn [committed_of]; [eauto|]. destruct W as [_ H1 H2 H3 H4 H5].
  destruct (at_idx_ok (re_consumed_cus res) i) as [? ->]; [lia|]. destruct (at_idx_ok (re_feepayer_balance_lamports res) i) as [? ->]; [lia|].
  destruct (at_idx_ok (re_loaded_accounts_data_size res) i) as [? ->]; [lia|]. destruct (at_idx_ok (re_sanitize_success res) i) as [? ->]; [lia|].
  destruct (at_idx_ok (re_transaction_err res) i) as [? ->]; [lia|]. destruct (IH (i + 1) ltac:(lia) ltac:(lia)) as [l ->]. eauto.
Qed.

(** Every well-formed result has an entry of the message. *)
Lemma encode_result_ok res : result_wf res -> exists e, encode_result res = Ok e.
Proof.
  intros W. pose proof (rw_cnt res W) as Hc. unfold FD_PACK_MAX_TXN_PER_BUNDLE in Hc. unfold encode_result. case_if.
  { destruct (committed_ok res (Z.to_nat (re_bundle_txn_cnt res)) W 0 ltac:(lia) ltac:(lia)) as [l ->]. cbn. eauto. }
  enough (exists r, not_committed_of res = Ok r) as [r ->] by (cbn; eauto). unfold not_committed_of. do 2 (case_if; [by eauto|]).
  destruct (unsanitized_ok res (Z.to_nat (re_bundle_txn_cnt res)) W 0 ltac:(lia) ltac:(lia)) as [[k|] ->]; [cbn; eauto|]. cbn [mbind outcome_bind]. case_if; [by eauto|].
  destruct (not_cancelled_ok res (Z.to_nat (re_bundle_txn_cnt res)) W 0 ltac:(lia) ltac:(lia)) as (o & -> & Ho). cbn [mbind outcome_bind]. case_if; [by eauto|].
  destruct (at_idx_ok (re_transaction_err res) (default 0 o)) as [x ->]; [|cbn; eauto]. rewrite (rw_err res W). destruct o as [k|]; simpl; [specialize (Ho k eq_refl)|]; lia.
Qed.

(** The entry of a result. *)
Definition entry_of (res : fd_bam_bundle_result_t) : Z * batch_result :=
  match encode_result res with Ok e => e | Fail _ => (0, not_committed_result generic_invalid) end.

Lemma encode_results_spec r n : results_ok r -> Forall result_wf (queue r) -> forall i, 0 <= i -> i + Z.of_nat n <= rs_depth r ->
  encode_results r i n = Ok (entry_of <$> take n (drop (Z.to_nat i) (queue r))).
Proof.
  intros Hr Hwf. induction n as [|n IH]; intros i Hi Hn; [done|]. cbn [encode_results]. destruct (queue_get r i Hr ltac:(lia)) as (x & Hx & ->). cbn [mbind outcome_bind].
  destruct (encode_result_ok x) as [e He]; [by eapply Forall_lookup_1|]. rewrite (drop_S _ _ _ Hx). cbn [take fmap list_fmap]. unfold entry_of at 1. rewrite He. cbn [mbind outcome_bind].
  rewrite IH by lia. by replace (Z.to_nat (i + 1)) with (S (Z.to_nat i)) by lia.
Qed.

(** One message takes the oldest results, at most 64. *)
Lemma send_spec ctx live send_res : results_ok (bt_results ctx) -> Forall result_wf (queue (bt_results ctx)) ->
  exists ctx' msg, fd_bam_send_results ctx live send_res = Ok (ctx', msg) /\ feedback_only ctx ctx' /\ bt_results ctx' = bt_results ctx /\
    bt_metrics ctx' feedback_results_dropped_cnt = bt_metrics ctx feedback_results_dropped_cnt /\
    msg = if live && send_res then Some (entry_of <$> take 64 (queue (bt_results ctx))) else None.
Proof.
  intros Hr Hwf. unfold fd_bam_send_results, fd_bam_encode_batch_results_cb. destruct live; cbn [negb andb]; [|by eexists _, _; split; [reflexivity|]; destruct ctx].
  pose proof (ro_depth _ Hr) as Hd. pose proof (queue_length _ Hr) as Hl. unfold RING in Hd. rewrite encode_results_spec by (done || unfold FD_BAM_RESULTS_PER_MESSAGE; lia).
  cbn [mbind outcome_bind]. change (Z.to_nat 0) with 0%nat. rewrite drop_0. assert (take (Z.to_nat (Z.min (rs_depth (bt_results ctx)) FD_BAM_RESULTS_PER_MESSAGE)) (queue (bt_results ctx)) = take 64 (queue (bt_results ctx))) as ->.
  { unfold FD_BAM_RESULTS_PER_MESSAGE. destruct (decide (rs_depth (bt_results ctx) <= 64)); [|f_equal; lia]. rewrite !take_ge; [done|lia..]. }
  destruct send_res; by eexists _, _; split; [reflexivity|]; destruct ctx.
Qed.

(** The messages taken off a list and what is left, when the client answers [sends]. *)
Fixpoint flush (q : list fd_bam_bundle_result_t) (sends : list bool) : list (list fd_bam_bundle_result_t) * list fd_bam_bundle_result_t :=
  match q, sends with
  | _ :: _, true :: sends' => let '(msgs, rest) := flush (drop 64 q) sends' in (take 64 q :: msgs, rest)
  | _, _ => ([], q)
  end.

Lemma flush_concat sends : forall q, concat (fst (flush q sends)) ++ snd (flush q sends) = q.
Proof.
  induction sends as [|s sends IH]; intros [|x q]; [done..|]. cbn [flush]. destruct s; [|done]. specialize (IH (drop 64 (x :: q))).
  destruct (flush (drop 64 (x :: q)) sends) as [msgs rest]. cbn [fst snd concat] in *. rewrite <- app_assoc, IH. apply take_drop.
Qed.

Lemma flush_sizes sends : forall q, Forall (fun m => (0 < length m <= 64)%nat) (fst (flush q sends)).
Proof.
  induction sends as [|s sends IH]; intros [|x q]; [constructor..|]. cbn [flush]. destruct s; [|constructor]. specialize (IH (drop 64 (x :: q))).
  destruct (flush (drop 64 (x :: q)) sends) as [msgs rest]. cbn [fst] in *. constructor; [|done]. cbn [take length]. rewrite length_take. lia.
Qed.

Lemma feedback_only_refl ctx : feedback_only ctx ctx.
Proof. by destruct ctx. Qed.

Lemma feedback_only_trans a b c : feedback_only a b -> feedback_only b c -> feedback_only a c.
Proof. unfold feedback_only. intros -> ->. by destruct a. Qed.

Lemma flush_spec live sends : forall ctx, results_ok (bt_results ctx) -> Forall result_wf (queue (bt_results ctx)) ->
  let '(msgs, rest) := flush (queue (bt_results ctx)) (if (live : bool) then sends else []) in
  exists ctx', fd_bam_flush_results ctx live sends = Ok (ctx', map (fmap entry_of) msgs) /\ results_ok (bt_results ctx') /\ feedback_only ctx ctx' /\
    bt_metrics ctx' feedback_results_dropped_cnt = bt_metrics ctx feedback_results_dropped_cnt /\ queue (bt_results ctx') = rest.
Proof.
  induction sends as [|s sends IH]; intros ctx Hr Hwf; cbn [fd_bam_flush_results]; pose proof (queue_length _ Hr) as Hl; pose proof (ro_depth _ Hr) as Hd.
  { replace (flush _ _) with (@nil (list fd_bam_bundle_result_t), queue (bt_results ctx)) by (destruct live; by destruct (queue (bt_results ctx))).
    case_if; [by exists ctx; auto using feedback_only_refl|]. destruct (send_spec ctx live false Hr Hwf) as (ctx' & msg & -> & H1 & H2 & Hm & H3). exists ctx'. by rewrite H2. }
  destruct (queue (bt_results ctx)) as [|x q] eqn:Eq.
  { cbn [length] in Hl. rewrite <- Hl. replace (flush _ _) with (@nil (list fd_bam_bundle_result_t), @nil fd_bam_bundle_result_t) by by destruct live. exists ctx. auto using feedback_only_refl. }
  cbn [length] in Hl. rewrite (proj2 (Z.eqb_neq _ _)) by lia. rewrite <- Eq in Hwf. destruct (send_spec ctx live s Hr Hwf) as (ctx1 & msg & -> & H1 & H2 & Hm & H3). cbn [mbind outcome_bind].
  rewrite Eq in H3. destruct live; cbn [andb] in H3; [|subst msg; exists ctx1; rewrite H2; by rewrite Eq]. cbn [flush]. destruct s; subst msg; [|exists ctx1; rewrite H2; by rewrite Eq].
  destruct (queue_pop (bt_results ctx) (Z.min (rs_depth (bt_results ctx)) FD_BAM_RESULTS_PER_MESSAGE) Hr) as [H5 H6]; [unfold FD_BAM_RESULTS_PER_MESSAGE; lia|].
  set (r' := mk_results _ _ _ _) in *. rewrite Eq in H6. assert (queue r' = drop 64 (x :: q)) as H7.
  { rewrite H6. unfold FD_BAM_RESULTS_PER_MESSAGE. destruct (decide (rs_depth (bt_results ctx) <= 64)); [|f_equal; lia]. rewrite !drop_ge; [done|cbn [length]; lia..]. }
  specialize (IH (set_results ctx1 r')). cbn [set_results bt_results] in IH. rewrite H7 in IH. rewrite Eq in Hwf. specialize (IH H5 (Forall_drop _ _ _ Hwf)).
  destruct (flush (drop 64 (x :: q)) sends) as [msgs rest]. destruct IH as (ctx' & -> & H8 & H9 & Hm' & H10). cbn [mbind outcome_bind]. exists ctx'. split; [done|]. split; [done|]. split; [|split; [by rewrite Hm'|done]].
  eapply feedback_only_trans; [exact H1|]. eapply feedback_only_trans; [|exact H9]. clear. by destruct ctx1.
Qed.

(** ** Sequences of operations *)

Inductive feedback_op :=
| OpEnqueue (res : fd_bam_bundle_result_t)
| OpFlush (live : bool) (sends : list bool)
| OpOwnership (forget_feedback : bool)
| OpScheduler.

(** The tile and the messages that were sent, in order. *)
Definition feedback_step (st : fd_bam_tile_t * list (list (Z * batch_result))) (op : feedback_op)
    : outcome (fd_bam_tile_t * list (list (Z * batch_result))) :=
  let '(ctx, sent) := st in
  match op with
  | OpEnqueue res => ctx ← fd_bam_enqueue_result ctx res; Ok (ctx, sent)
  | OpFlush live sends => '(ctx, msgs) ← fd_bam_flush_results ctx live sends; Ok (ctx, sent ++ msgs)
  | OpOwnership forget => Ok (fd_bam_tile_begin_ownership_generation ctx forget, sent)
  | OpScheduler => Ok (fd_bam_tile_begin_scheduler_generation ctx, sent)
  end.

(** The specification. *)
Record feedback_spec := mk_feedback_spec {
  fs_gen : Z;
  fs_queue : list fd_bam_bundle_result_t;
  fs_sent : list (list fd_bam_bundle_result_t);
  fs_dropped : Z;
}.

Definition spec_step (s : feedback_spec) (op : feedback_op) : feedback_spec :=
  match op with
  | OpEnqueue res =>
      let '(q, dropped) := enqueue (fs_gen s) (fs_queue s) res in
      mk_feedback_spec (fs_gen s) q (fs_sent s) (if (dropped : bool) then fs_dropped s + 1 else fs_dropped s)
  | OpFlush live sends =>
      let '(msgs, rest) := flush (fs_queue s) (if (live : bool) then sends else []) in
      mk_feedback_spec (fs_gen s) rest (fs_sent s ++ msgs) (fs_dropped s)
  | OpOwnership forget =>
      if (forget : bool) then mk_feedback_spec (fs_gen s) [] (fs_sent s) (fs_dropped s + Z.of_nat (length (fs_queue s))) else s
  | OpScheduler => mk_feedback_spec (next_gen (fs_gen s)) [] (fs_sent s) (fs_dropped s + Z.of_nat (length (fs_queue s)))
  end.

Definition spec_run (s : feedback_spec) (ops : list feedback_op) : feedback_spec := fold_left spec_step ops s.

(** The batch a result is about. *)
Definition batch_key (res : fd_bam_bundle_result_t) : Z * Z * Z := (re_scheduler_gen res, re_slot res, re_seq_id res).

Record spec_ok (s : feedback_spec) : Prop := mk_spec_ok {
  so_gen : Forall (fun res => re_scheduler_gen res = fs_gen s) (fs_queue s);
  so_nodup : NoDup (batch_key <$> fs_queue s);
  so_len : Z.of_nat (length (fs_queue s)) <= RING;
  so_wf : Forall result_wf (fs_queue s);
  so_sent : Forall (fun m => (0 < length m <= 64)%nat) (fs_sent s);
}.

Definition op_wf (op : feedback_op) : Prop := match op with OpEnqueue res => result_wf res | _ => True end.

Lemma same_batch_key a b : same_batch a b = true <-> batch_key a = batch_key b.
Proof.
  unfold same_batch, batch_key. rewrite !andb_true_iff, !Z.eqb_eq. split; [by intros [[-> ->] ->]|]. by intros [= -> -> ->].
Qed.

Lemma queued_false q res : queued q res = false -> batch_key res ∉ batch_key <$> q.
Proof.
  unfold queued. intros H [p [Hk Hp]]%list_elem_of_fmap. enough (existsb (fun p => same_batch p res) q = true) by congruence.
  apply existsb_exists. exists p. split; [by apply list_elem_of_In|]. by apply same_batch_key.
Qed.

Lemma spec_step_ok s op : spec_ok s -> op_wf op -> spec_ok (spec_step s op).
Proof.
  intros [H1 H2 H3 H4 H5] Hop. destruct op as [res|live sends|[]|]; cbn [spec_step op_wf] in *.
  - unfold enqueue. repeat (case_if; [by split|]). split; cbn [fs_gen fs_queue fs_sent]; [| | | |done].
    + apply Forall_app. split; [done|]. repeat constructor. lia.
    + rewrite fmap_app. apply NoDup_app. split; [done|]. split; [|apply NoDup_singleton]. intros k Hk Hn. apply list_elem_of_singleton in Hn as ->. by apply queued_false in Hk.
    + rewrite length_app. cbn [length]. lia.
    + apply Forall_app. split; [done|by apply Forall_singleton].
  - pose proof (flush_concat (if live then sends else []) (fs_queue s)) as Hc. pose proof (flush_sizes (if live then sends else []) (fs_queue s)) as Hs.
    destruct (flush _ _) as [msgs rest]. cbn [fst snd] in *. rewrite <- Hc in H1, H2, H3, H4. rewrite fmap_app in H2. apply NoDup_app in H2 as (_ & _ & H2).
    apply Forall_app in H1 as [_ H1]. apply Forall_app in H4 as [_ H4]. rewrite length_app in H3.
    split; cbn [fs_gen fs_queue fs_sent]; [done|done|lia|done|]. by apply Forall_app.
  - split; cbn [fs_gen fs_queue fs_sent]; [constructor|constructor|unfold RING; cbn; lia|constructor|done].
  - by split.
  - split; cbn [fs_gen fs_queue fs_sent]; [constructor|constructor|unfold RING; cbn; lia|constructor|done].
Qed.

(** The array represents the list. *)
Record represents (st : fd_bam_tile_t * list (list (Z * batch_result))) (s : feedback_spec) : Prop := mk_represents {
  rp_ok : results_ok (bt_results (fst st));
  rp_queue : queue (bt_results (fst st)) = fs_queue s;
  rp_gen : bt_scheduler_gen (fst st) = fs_gen s;
  rp_sent : snd st = map (fmap entry_of) (fs_sent s);
  rp_dropped : bt_metrics (fst st) feedback_results_dropped_cnt = u64 (fs_dropped s);
}.

Lemma count_same c n m : count_by c n m c = m c +w n.
Proof. unfold count_by. by rewrite decide_True. Qed.

Lemma u64_add_l a b : u64 a +w b = u64 (a + b).
Proof. unfold u64_add, u64. apply Z.add_mod_idemp_l. lia. Qed.

(** Forgetting the queue. *)
Lemma forget_queue ctx : results_ok (bt_results ctx) -> bt_metrics ctx feedback_results_dropped_cnt = u64 (bt_metrics ctx feedback_results_dropped_cnt) ->
  let ctx' := fd_bam_tile_begin_ownership_generation ctx true in
  results_ok (bt_results ctx') /\ queue (bt_results ctx') = [] /\ bt_scheduler_gen ctx' = bt_scheduler_gen ctx /\
  bt_metrics ctx' feedback_results_dropped_cnt = bt_metrics ctx feedback_results_dropped_cnt +w Z.of_nat (length (queue (bt_results ctx))).
Proof.
  intros Hr Hm ctx'. rewrite (queue_length _ Hr). unfold ctx', fd_bam_tile_begin_ownership_generation. cbn [set_gens set_pending bt_results andb].
  pose proof Hr as [H1 H2 H3 H4]. case_if; cbn [set_gens set_pending set_results bump set_metrics bt_results bt_scheduler_gen bt_metrics].
  - split; [|rewrite count_same; done]. split; cbn [rs_ring rs_head rs_tail rs_depth]; [done|rewrite H4; apply Z.mod_pos_bound; unfold RING; lia|unfold RING; lia|].
    rewrite Z.add_0_r, H4, Z.mod_mod by (unfold RING; lia). done.
  - split; [done|]. assert (rs_depth (bt_results ctx) = 0) as Hz by lia. unfold queue. rewrite Hz. split; [done|]. split; [done|].
    rewrite Hm, u64_add_l, Z.add_0_r. done.
Qed.

Lemma feedback_step_refines st s op : represents st s -> spec_ok s -> op_wf op -> exists st', feedback_step st op = Ok st' /\ represents st' (spec_step s op).
Proof.
  destruct st as [ctx sent]. intros [H1 H2 H3 H4 H5] Hs Hop. cbn [fst snd] in *. pose proof (forget_queue ctx H1) as Hf. specialize (Hf ltac:(rewrite H5; unfold u64; by rewrite Z.mod_mod by lia)).
  destruct op as [res|live sends|[]|]; cbn [spec_step feedback_step].
  - destruct (enqueue_spec ctx res H1) as (ctx' & -> & Hr & Ho & Hq). rewrite H2, H3 in Hq. destruct (enqueue _ _ _) as [q d]. injection Hq as Hq Hm.
    eexists. split; [reflexivity|]. split; cbn [fst snd fs_queue fs_gen fs_sent fs_dropped]; [done|done|rewrite Ho; by destruct ctx|done|].
    rewrite Hm. destruct d; [|done]. by rewrite count_same, H5, u64_add_l.
  - pose proof (flush_spec live sends ctx H1) as Hl. rewrite H2 in Hl. specialize (Hl (so_wf s Hs)). destruct (flush _ _) as [msgs rest]. destruct Hl as (ctx' & -> & Hr & Ho & Hm & Hq).
    eexists. split; [reflexivity|]. split; cbn [fst snd fs_queue fs_gen fs_sent fs_dropped]; [done|done|rewrite Ho; by destruct ctx|by rewrite map_app, H4|by rewrite Hm].
  - destruct Hf as (Ha & Hb & Hc & Hd). eexists. split; [reflexivity|]. split; cbn [fst snd fs_queue fs_gen fs_sent fs_dropped]; [done|done|by rewrite Hc|done|].
    by rewrite Hd, H2, H5, u64_add_l.
  - eexists. split; [reflexivity|]. by destruct s.
  - unfold fd_bam_tile_begin_scheduler_generation. set (c := set_gens _ _ _ _). destruct (forget_queue c) as (Ha & Hb & Hc & Hd); [done|cbn [c set_gens bt_metrics]; rewrite H5; unfold u64; by rewrite Z.mod_mod by lia|].
    eexists. split; [reflexivity|]. split; cbn [fst snd fs_queue fs_gen fs_sent fs_dropped]; [done|done|rewrite Hc; cbn; by rewrite H3|done|].
    rewrite Hd. cbn [c set_gens bt_metrics bt_results]. by rewrite H2, H5, u64_add_l.
Qed.

Lemma run_refines ops : forall st s, represents st s -> spec_ok s -> Forall op_wf ops ->
  exists st', ofold feedback_step st ops = Ok st' /\ represents st' (spec_run s ops) /\ spec_ok (spec_run s ops).
Proof.
  induction ops as [|op ops IH]; intros st s Hr Hs Hw; cbn [ofold spec_run fold_left]; [by eauto|]. inversion_clear Hw as [|? ? Hop Hops].
  destruct (feedback_step_refines st s op Hr Hs Hop) as (st1 & -> & H1). cbn [mbind outcome_bind]. apply IH; [done|by apply spec_step_ok|done].
Qed.

(** What holds of the queue in every state. *)
Record feedback_inv (ctx : fd_bam_tile_t) : Prop := mk_feedback_inv {
  fi_ok : results_ok (bt_results ctx);
  fi_gen : Forall (fun res => re_scheduler_gen res = bt_scheduler_gen ctx) (queue (bt_results ctx));
  fi_nodup : NoDup (batch_key <$> queue (bt_results ctx));
  fi_wf : Forall result_wf (queue (bt_results ctx));
}.

Lemma feedback_inv_spec ctx : feedback_inv ctx <-> results_ok (bt_results ctx) /\ spec_ok (mk_feedback_spec (bt_scheduler_gen ctx) (queue (bt_results ctx)) [] 0).
Proof.
  split; [intros [H1 H2 H3 H4]|by intros [H1 [H2 H3 H4 H5 H6]]]. split; [done|]. split; cbn; [done|done| |done|constructor]. rewrite queue_length by done. by destruct H1 as [_ _ [_ H] _].
Qed.

(** Queueing a result keeps it, as does every step that leaves the queue and the generation
    alone, and every new generation. *)
Lemma feedback_inv_enqueue ctx ctx' res : feedback_inv ctx -> result_wf res -> results_ok (bt_results ctx') -> bt_scheduler_gen ctx' = bt_scheduler_gen ctx ->
  queue (bt_results ctx') = fst (enqueue (bt_scheduler_gen ctx) (queue (bt_results ctx)) res) -> feedback_inv ctx'.
Proof.
  intros Hi Hw Hr Hg Hq. apply feedback_inv_spec in Hi as [_ Hi]. apply feedback_inv_spec. split; [done|]. apply (spec_step_ok _ (OpEnqueue res)) in Hi; [|done].
  cbn [spec_step fs_gen fs_queue fs_sent fs_dropped] in Hi. rewrite Hg, Hq. destruct (enqueue _ _ _) as [q d]. destruct Hi. by split.
Qed.

Lemma feedback_inv_same ctx ctx' : feedback_inv ctx -> bt_results ctx' = bt_results ctx -> bt_scheduler_gen ctx' = bt_scheduler_gen ctx -> feedback_inv ctx'.
Proof. intros [H1 H2 H3 H4] Hr Hg. split; rewrite ?Hr, ?Hg; done. Qed.

(** C15: the feedback queue of the BAM client refines a list.  From a tile with an
    empty queue, any sequence of queueing results, sending them (with any answers of the gRPC
    client) and starting ownership or scheduler generations runs without an access outside
    the ring, and gives the queue, the messages and the count of dropped results
    that the specification gives.  The messages are sent in order, have 1 to 64 entries,
    and the results queued at any time are at most 2048, all of the current scheduler
    generation, no two of them about the same batch. *)
Theorem feedback_refines_list (ctx : fd_bam_tile_t) (ops : list feedback_op) :
  results_ok (bt_results ctx) -> rs_depth (bt_results ctx) = 0 -> bt_metrics ctx feedback_results_dropped_cnt = 0 -> Forall op_wf ops ->
  let s := spec_run (mk_feedback_spec (bt_scheduler_gen ctx) [] [] 0) ops in
  exists ctx' sent, ofold feedback_step (ctx, []) ops = Ok (ctx', sent) /\
    queue (bt_results ctx') = fs_queue s /\ bt_scheduler_gen ctx' = fs_gen s /\ sent = map (map entry_of) (fs_sent s) /\
    bt_metrics ctx' feedback_results_dropped_cnt = u64 (fs_dropped s) /\
    Forall (fun m => (0 < length m <= 64)%nat) sent /\
    Z.of_nat (length (queue (bt_results ctx'))) <= FD_BAM_MAX_PENDING_RESULTS /\
    Forall (fun res => re_scheduler_gen res = bt_scheduler_gen ctx') (queue (bt_results ctx')) /\
    NoDup (batch_key <$> queue (bt_results ctx')).
Proof.
  intros Hr Hd Hm Hw s. destruct (run_refines ops (ctx, []) (mk_feedback_spec (bt_scheduler_gen ctx) [] [] 0)) as ([ctx' sent] & Hs & [H1 H2 H3 H4 H5] & [K1 K2 K3 K4 K5]).
  - split; cbn; [done| |done|done|by rewrite Hm]. unfold queue. by rewrite Hd.
  - split; cbn; [constructor|constructor|unfold RING; lia|constructor|constructor].
  - done.
  - exists ctx', sent. fold s in K1, K2, K3, K4, K5, H2, H3, H4, H5. cbn [fst snd] in *. rewrite H2, H3. split; [done|]. split; [done|]. split; [done|]. split; [done|]. split; [done|].
    split; [|done]. rewrite H4. apply Forall_map. eapply Forall_impl; [exact K5|]. intros m Hm'. cbn. by rewrite length_fmap.
Qed.


(** A tile just started, with room for [pending_max] transactions. *)
Definition tile_new (pending_max : Z) : fd_bam_tile_t :=
  mk_tile 1 1 false (mk_results (replicate 2048 (result_of 0 0 0 0 0 0 0 0)) 0 0 0) (mk_leader_state ULONG_MAX 0 0 0 0) false
    (replicate 64 (mk_tracker 0 0 false false false false)) false (replicate 128 timing_zero) [] pending_max 0 0 false false 0 false (fun _ => 0).

Lemma tile_new_results n : results_ok (bt_results (tile_new n)).
Proof. split; cbn [tile_new bt_results rs_ring rs_head rs_tail rs_depth]; [rewrite length_replicate; done|unfold RING; lia..|done]. Qed.

Lemma result_of_wf seq gen slot cnt se be dr di : 0 <= cnt <= 5 -> result_wf (result_of seq gen slot cnt se be dr di).
Proof. intros H. by split. Qed.

(** A result, the same once more, one of a stale generation and one of another batch; then two
    messages of which the client takes the first, and a new generation with the last
    result forgotten. *)
Definition ops_sample : list feedback_op :=
  [OpEnqueue (result_of 7 1 100 2 FD_BAM_SCHED_ERR_CONTAINER_FULL FD_BAM_BUNDLE_ERR_NONE 0 0);
   OpEnqueue (result_of 7 1 100 2 FD_BAM_SCHED_ERR_CONTAINER_FULL FD_BAM_BUNDLE_ERR_NONE 0 0);
   OpEnqueue (result_of 8 2 100 2 FD_BAM_SCHED_ERR_NONE FD_BAM_BUNDLE_ERR_DESER DESER_EMPTY 0);
   OpFlush true [true; false];
   OpEnqueue (result_of 9 1 101 2 FD_BAM_SCHED_ERR_NONE FD_BAM_BUNDLE_ERR_DESER DESER_EMPTY 0);
   OpFlush true [false];
   OpScheduler].

Lemma feedback_refines_list_witness :
  exists ctx' sent, ofold feedback_step (tile_new 64, []) ops_sample = Ok (ctx', sent) /\
    queue (bt_results ctx') = [] /\ bt_scheduler_gen ctx' = 2 /\
    sent = [[(7, not_committed_result (scheduling_error FD_BAM_SCHED_ERR_CONTAINER_FULL))]] /\
    bt_metrics ctx' feedback_results_dropped_cnt = 2.
Proof.
  destruct (feedback_refines_list (tile_new 64) ops_sample) as (ctx' & sent & H1 & H2 & H3 & H4 & H5 & _).
  - apply tile_new_results.
  - reflexivity.
  - reflexivity.
  - repeat (apply List.Forall_cons || apply List.Forall_nil); first [exact I | apply result_of_wf; lia].
  - exists ctx', sent. split; [exact H1|]. split; [exact H2|]. split; [exact H3|]. split; [exact H4|exact H5].
Defined.
