(* ===== verification/BamTiming.v ===== *)
(** * The tables by slot of the BAM client

    Probing the record of arrival times and the trackers of slot ends stays inside the
    tables, ends, and changes nothing but the tables and the counters of arrival times. *)
From S2P Require Import Prelude Txn Pb Bam BamDecode BamFeedback.

Notation TCNT := FD_BAM_SLOT_INGRESS_TIMING_CNT.
Notation ECNT := FD_BAM_LEADER_SLOT_END_TRACKER_CNT.

Definition in_table (n : Z) (o : option Z) : Prop := forall i, o = Some i -> 0 <= i < n.

Lemma land_mask x n : 0 <= n -> 0 <= Z.land x (Z.ones n) < 2 ^ n.
Proof. intros Hn. rewrite Z.land_ones by done. apply Z.mod_pos_bound. lia. Qed.

Lemma timing_idx x : 0 <= Z.land x (TCNT - 1) < TCNT.
Proof. exact (land_mask x 7 ltac:(lia)). Qed.

Lemma tracker_idx x : 0 <= Z.land x (ECNT - 1) < ECNT.
Proof. exact (land_mask x 6 ltac:(lia)). Qed.

Lemma timing_scan_ok tbl slot cur n : Z.of_nat (length tbl) = TCNT -> forall probe free aged, in_table TCNT free -> in_table TCNT aged ->
  exists r, timing_scan tbl slot cur probe n free aged = Ok r /\
    match r with
    | inl idx => 0 <= idx < TCNT /\ exists e, tbl !! Z.to_nat idx = Some e /\ ti_valid e = true /\ ti_slot e = slot
    | inr (f, a) => in_table TCNT f /\ in_table TCNT a
    end.
Proof.
  intros Ht. induction n as [|n IH]; intros probe free aged Hf Ha; cbn [timing_scan]; [by eexists|]. set (x := Z.land slot _ + probe). pose proof (timing_idx x) as Hi. set (idx := Z.land x _) in *.
  destruct (lookup_lt_is_Some_2 tbl (Z.to_nat idx)) as [e He]; [lia|]. assert (at_idx tbl idx = Ok e) as -> by (unfold at_idx; by rewrite He). cbn [mbind outcome_bind]. assert (in_table TCNT (Some idx)) as Hs by (by intros ? [= <-]).
  destruct (ti_valid e) eqn:Ev; [|apply IH; [by destruct free|done]]. destruct (ti_slot e =? slot) eqn:Es; [apply Z.eqb_eq in Es; eexists; split; [reflexivity|]; split; [exact Hi|by eauto]|].
  destruct aged as [a|]; cbn [mbind outcome_bind]; [|case_if; by apply IH]. destruct (at_idx_ok tbl a) as [ea ->]; [rewrite Ht; by apply Ha|]. cbn [mbind outcome_bind]. case_if; by apply IH.
Qed.

(** The counters of arrival times. *)
Definition slot_counter (c : counter) : bool :=
  match c with
  | slot_ingress_no_ingress | slot_ingress_first_before_end | slot_ingress_first_after_end | slot_ingress_unknown_slot_end
  | slot_ingress_txn_before_end | slot_ingress_txn_after_end | slot_ingress_txn_unknown_slot_end => true
  | _ => false
  end.

(** Nothing but the record of arrival times and its counters changes. *)
Record timing_only (ctx ctx' : fd_bam_tile_t) : Prop := mk_timing_only {
  to_frame : ctx' = set_metrics (set_timing ctx (bt_timing ctx')) (bt_metrics ctx');
  to_len : length (bt_timing ctx') = length (bt_timing ctx);
  to_metrics : forall c, slot_counter c = false -> bt_metrics ctx' c = bt_metrics ctx c;
}.

Lemma timing_only_refl ctx : timing_only ctx ctx.
Proof. split; [by destruct ctx|done|done]. Qed.

Lemma timing_only_trans a b c : timing_only a b -> timing_only b c -> timing_only a c.
Proof.
  intros [H1 H2 H3] [K1 K2 K3]. split; [|congruence|]; [rewrite K1, H1; by destruct a|]. intros x Hx. by rewrite K3, H3.
Qed.

Lemma timing_only_set ctx t : length t = length (bt_timing ctx) -> timing_only ctx (set_timing ctx t).
Proof. intros H. split; [by destruct ctx|done|done]. Qed.

Lemma timing_only_bump ctx c n : slot_counter c = true -> timing_only ctx (bump c n ctx).
Proof.
  intros H. split; [by destruct ctx|done|]. intros x Hx. cbn [bump set_metrics bt_metrics]. unfold count_by. rewrite decide_False; [done|]. intros ->. congruence.
Qed.

Lemma finalize_ok ctx idx : 0 <= idx < Z.of_nat (length (bt_timing ctx)) -> exists ctx', fd_bam_finalize_slot_ingress_rollup ctx idx = Ok ctx' /\ timing_only ctx ctx'.
Proof.
  intros Hi. unfold fd_bam_finalize_slot_ingress_rollup. destruct (at_idx_ok (bt_timing ctx) idx Hi) as [e ->]. cbn [mbind outcome_bind]. case_if; [by eexists; split; [reflexivity|]; apply timing_only_refl|].
  destruct (if negb (ti_first_rx_ts_ns (fd_bam_try_emit_slot_ingress_timing_summary (bt_dump_bam_mode ctx) e) =? 0) && _ then _ else _) as [[[c b] a] u] eqn:Eq.
  assert (slot_counter c = true) as Hc. { revert Eq. repeat case_if; by intros [= <- _ _ _]. }
  eexists. split; [reflexivity|]. eapply timing_only_trans; [|apply timing_only_set; by rewrite length_insert].
  do 3 (eapply timing_only_trans; [|by apply timing_only_bump]). by apply timing_only_bump.
Qed.

Lemma query_or_insert_ok ctx slot cur : Z.of_nat (length (bt_timing ctx)) = TCNT ->
  exists ctx' o, fd_bam_slot_ingress_timing_query_or_insert ctx slot cur = Ok (ctx', o) /\ timing_only ctx ctx' /\
    forall idx, o = Some idx -> 0 <= idx < TCNT /\ exists e, bt_timing ctx' !! Z.to_nat idx = Some e /\ ti_valid e = true /\ ti_slot e = slot.
Proof.
  intros Ht. unfold fd_bam_slot_ingress_timing_query_or_insert.
  destruct (timing_scan_ok (bt_timing ctx) slot cur (Z.to_nat TCNT) Ht 0 None None) as (r & -> & Hr); [done..|]. cbn [mbind outcome_bind]. destruct r as [idx|[[f|] a]].
  - eexists _, _. split; [reflexivity|]. split; [apply timing_only_refl|]. by intros ? [= <-].
  - destruct Hr as [Hf _]. specialize (Hf f eq_refl). eexists _, _. split; [reflexivity|]. split; [apply timing_only_set; by rewrite length_insert|]. intros ? [= <-]. split; [done|].
    cbn [set_timing bt_timing]. eexists. rewrite list_lookup_insert_eq by lia. done.
  - destruct a as [a|]; [|by eexists _, _; split; [reflexivity|]; split; [apply timing_only_refl|]]. destruct Hr as [_ Ha]. specialize (Ha a eq_refl).
    destruct (finalize_ok ctx a) as (ctx1 & -> & H1); [by rewrite Ht|]. cbn [mbind outcome_bind]. eexists _, _. split; [reflexivity|].
    pose proof (to_len _ _ H1). split; [eapply timing_only_trans; [exact H1|apply timing_only_set; by rewrite length_insert]|]. intros ? [= <-]. split; [done|].
    cbn [set_timing bt_timing]. eexists. rewrite list_lookup_insert_eq by lia. done.
Qed.

Lemma record_timing_ok ctx state slot : Z.of_nat (length (bt_timing ctx)) = TCNT ->
  exists ctx', fd_bam_record_batch_ingress_timing ctx state slot = Ok ctx' /\ timing_only ctx ctx'.
Proof.
  intros Ht. unfold fd_bam_record_batch_ingress_timing. case_if; [by eexists; split; [reflexivity|]; apply timing_only_refl|].
  destruct (query_or_insert_ok ctx slot (ls_slot (bt_leader_state ctx)) Ht) as (ctx' & o & -> & H1 & H2). cbn [mbind outcome_bind]. destruct o as [idx|]; [|eauto].
  destruct (H2 idx eq_refl) as (Hi & e & He & _). unfold at_idx. rewrite He. cbn [mbind outcome_bind]. eexists. split; [reflexivity|]. eapply timing_only_trans; [exact H1|apply timing_only_set; by rewrite length_insert].
Qed.

(** ** Leader state *)

Lemma tracker_scan_ok tbl slot n : Z.of_nat (length tbl) = ECNT -> forall probe free counted, in_table ECNT free -> in_table ECNT counted ->
  exists f a b, tracker_scan tbl slot probe n free counted = Ok (f, a, b) /\ in_table ECNT f /\ in_table ECNT a /\ in_table ECNT b.
Proof.
  intros Ht. induction n as [|n IH]; intros probe free counted Hf Ha; cbn [tracker_scan]; [by eexists _, _, _|]. set (x := Z.land slot _ + probe). pose proof (tracker_idx x) as Hi. set (idx := Z.land x _) in *.
  destruct (at_idx_ok tbl idx) as [e ->]; [lia|]. cbn [mbind outcome_bind]. assert (in_table ECNT (Some idx)) as Hs by (by intros ? [= <-]).
  case_if; [apply IH; [by destruct free|done]|]. case_if; [by eexists _, _, _|].
  destruct counted as [a|]; cbn [mbind outcome_bind]; [|case_if; by apply IH]. destruct (at_idx_ok tbl a) as [ea ->]; [rewrite Ht; by apply Ha|]. cbn [mbind outcome_bind]. case_if; by apply IH.
Qed.

Lemma note_slot_end_ok ctx st : Z.of_nat (length (bt_leader_slot_end ctx)) = ECNT ->
  exists t, note_slot_end ctx st = Ok (set_leader_slot_end ctx t) /\ length t = length (bt_leader_slot_end ctx).
Proof.
  intros Ht. unfold note_slot_end. destruct (tracker_scan_ok (bt_leader_slot_end ctx) (ls_slot st) (Z.to_nat ECNT) Ht 0 None None) as (f & a & b & -> & Hf & Ha & Hb); [done..|]. cbn [mbind outcome_bind].
  set (tr := match f with Some _ => _ | None => _ end). assert (in_table ECNT tr) as Htr by (unfold tr; destruct f; [done|]; by destruct a). destruct tr as [idx|]; [|exists (bt_leader_slot_end ctx); by destruct ctx].
  destruct (at_idx_ok (bt_leader_slot_end ctx) idx) as [e ->]; [rewrite Ht; by apply Htr|]. cbn [mbind outcome_bind]. eexists. split; [reflexivity|]. by rewrite length_insert.
Qed.

(** Staging a leader state ends, and leaves the queues alone. *)
Lemma stage_leader_ok ctx st : Z.of_nat (length (bt_timing ctx)) = TCNT -> Z.of_nat (length (bt_leader_slot_end ctx)) = ECNT ->
  exists ctx', fd_bam_stage_leader_state ctx st = Ok ctx' /\ length (bt_timing ctx') = length (bt_timing ctx) /\ length (bt_leader_slot_end ctx') = length (bt_leader_slot_end ctx) /\
    ctx' = set_metrics (set_leader (set_leader_slot_end (set_timing ctx (bt_timing ctx')) (bt_leader_slot_end ctx')) st true) (bt_metrics ctx').
Proof.
  intros Ht He. unfold fd_bam_stage_leader_state. set (c := if _ && _ then bump leader_pending_replaced_cnt 1 ctx else ctx).
  assert (c = set_metrics ctx (bt_metrics c)) as Hc by (unfold c; case_if; by destruct ctx). clearbody c. case_if.
  2:{ cbn [mbind outcome_bind]. eexists. split; [reflexivity|]. rewrite Hc. by destruct ctx. }
  assert (bt_timing c = bt_timing ctx /\ bt_leader_slot_end c = bt_leader_slot_end ctx) as [Hct Hce] by (rewrite Hc; by destruct ctx).
  destruct (query_or_insert_ok c (ls_slot st) (ls_slot st)) as (c1 & o & -> & H1 & H2); [by rewrite Hct|]. cbn [mbind outcome_bind].
  assert (exists c2, match o with None => Ok c1 | Some idx => e ← at_idx (bt_timing c1) idx; Ok (set_timing c1 (<[Z.to_nat idx := mk_timing (ti_slot e) (ti_first_rx_ts_ns e) (ls_slot_end_ns st) (ti_txn_before_slot_end e) (ti_txn_after_slot_end e) (ti_txn_unknown_slot_end e) (ls_slot_end_ns st <? ti_first_rx_ts_ns e) (ti_summary_emitted e) (ti_valid e)]> (bt_timing c1))) end = Ok c2 /\ timing_only c c2) as (c2 & Hm & H3).
  { destruct o as [idx|]; [|by eauto]. destruct (H2 idx eq_refl) as (Hi & e & Hl & _). unfold at_idx. rewrite Hl. cbn [mbind outcome_bind]. eexists. split; [reflexivity|]. eapply timing_only_trans; [exact H1|apply timing_only_set; by rewrite length_insert]. }
  cbv zeta in Hm |- *. rewrite Hm. cbn [mbind outcome_bind]. destruct H3 as [H3 H4 _].
  destruct (note_slot_end_ok c2 st) as (t & -> & Hl); [rewrite H3; cbn [set_metrics set_timing bt_leader_slot_end]; by rewrite Hce|]. cbn [mbind outcome_bind]. eexists. split; [reflexivity|].
  cbn [set_leader set_leader_slot_end bt_timing bt_leader_slot_end bt_metrics]. split; [by rewrite H4, Hct|]. split; [rewrite Hl, H3; cbn; by rewrite Hce|]. rewrite H3, Hc. by destruct ctx.
Qed.
