(* ===== verification/BamCommit.v ===== *)
(** * Committing a batch

    What happens to one decoded batch: its transactions are queued together, or one
    result is queued.  The parser of transactions is used through what [TxnProps] says
    about it. *)
From S2P Require Import Prelude Txn TxnRuns TxnCu16 TxnGrammar TxnLegacy TxnV1 TxnProps Pb Bam BamDecode BamFeedback BamTiming.

(** ** Simple votes *)

(** A legacy transaction with one instruction, of the vote program, and at most two
    signatures. *)
Definition simple_vote (m : message) : bool :=
  match m_kind m, m_instrs m with
  | Legacy, [x] => (len (m_sigs m) <=? 2) && bool_decide (m_addrs m !! Z.to_nat (im_program x) = Some vote_program_id)
  | _, _ => false
  end.

Lemma objects_lookup p off sz n k : 0 <= k < n -> objects p off sz n !! Z.to_nat k = Some (take (Z.to_nat sz) (drop (Z.to_nat (off + sz * k)) p)).
Proof. intros Hk. unfold objects. rewrite list_lookup_fmap, lookup_seqZ_lt by lia. cbn. by rewrite Z2Nat.id by lia. Qed.

Lemma simple_vote_spec payload m : accepts false payload m -> fd_txn_is_simple_vote_transaction (describe m) payload = Ok (simple_vote m).
Proof.
  intros (Hwf & [tail ->] & Hlen). pose proof (reads_back m tail Hwf) as R. pose proof (wf_addrs m Hwf) as Ha.
  unfold fd_txn_is_simple_vote_transaction, simple_vote. destruct (describe_counts m Hwf) as (Hc & _ & _ & _). rewrite Hc, (ra_version _ _ _ R).
  destruct (m_instrs m) as [|x [|y l]] eqn:Ei; [by destruct (m_kind m)| |].
  2:{ cbn [length]. replace (negb (Z.of_nat (S (S (length l))) =? 1)) with true by (symmetry; apply negb_true_iff, Z.eqb_neq; lia). by destruct (m_kind m). }
  cbn [length]. change (negb (Z.of_nat 1 =? 1)) with false. destruct (m_kind m) eqn:Ek; [|done..]. change (negb (FD_TXN_VLEGACY =? FD_TXN_VLEGACY)) with false. cbn iota.
  pose proof (ra_addrs _ _ _ R) as Hx. pose proof (wf_instrs m Hwf) as Hi. rewrite Ei in Hi. apply Forall_singleton in Hi as [Hp _]. pose proof (wf_mtu m Hwf) as Hm.
  unfold mtu, FD_TXN_MTU, FD_TXN_MTU_V0 in Hm. unfold fd_txn_get_acct_addrs, FD_TXN_ACCT_ADDR_SZ in Hx. unfold describe in *. rewrite Ek in *.
  cbn [describe_legacy tx_signature_cnt tx_instr tx_acct_addr_off tx_acct_addr_cnt] in *. rewrite Ei in *. cbn [layout]. set (off := _ + len (fd_cu16_enc (len (m_addrs m)))) in *.
  assert (0 <= off) as Ho by (unfold off; destruct (FD_TXN_VLEGACY =? FD_TXN_V0); lia). clearbody off. rewrite Z.ltb_antisym. destruct (len (m_sigs m) <=? 2); [|done]. cbn [negb andb describe_instr in_program_id].
  pose proof (objects_lookup (ser m ++ tail) off 32 _ (im_program x) (conj (Z.lt_le_incl _ _ (proj1 Hp)) (proj2 Hp))) as Hl. rewrite Hx in Hl.
  pose proof (Forall_lookup_1 _ _ _ _ Ha Hl) as H32. cbn beta in H32. rewrite length_take, length_drop in H32. rewrite Hl. unfold FD_TXN_ACCT_ADDR_SZ.
  assert (len (ser m ++ tail) <= 4096) by (destruct Hlen as [|<-]; [done|]; destruct (is_v1 m); lia).
  unfold u64_mul. rewrite (u64_small (32 * _)), u64_add_small by (unfold is_u64, ULONG_MAX; lia). rewrite mem_read_ok by lia. cbn [mbind outcome_bind]. do 2 f_equal. apply bool_decide_ext. split; [by intros ->|by intros [= ->]].
Qed.

(** What the parser gives for a packet, with its size, and whether it is a simple vote. *)
Definition parsed_as (payload : list Z) (x : Z * option fd_txn_t) : Prop :=
  (exists m, accepts false payload m /\ x = (22 + 10 * len (m_instrs m) + 8 * len (m_luts m), Some (describe m)) /\ simple_vote m = false)
  \/ ((forall m, ~ accepts false payload m) /\ x = (0, None)).

Definition view_ok (p : fd_bam_packet_view_t) : Prop := Forall is_byte (pk_payload p).

(** The packets up to the first simple vote, or all. *)
Lemma parse_packets_spec packets : Forall view_ok packets -> forall i,
  (parse_packets packets i = Fail Dangling /\ exists p, p ∈ packets /\ pk_rx p = false) \/
  (exists k m, parse_packets packets i = Ok (inl (i + Z.of_nat k)) /\ (exists p, packets !! k = Some p /\ accepts false (pk_payload p) m) /\ simple_vote m = true) \/
  (exists l, parse_packets packets i = Ok (inr l) /\ Forall2 (fun p x => packet_bytes p = Ok (pk_payload p) /\ parsed_as (pk_payload p) x) packets l).
Proof.
  induction 1 as [|p packets Hp Hps IH]; intros i; [right; right; exists []; by split|]. remember (parse_packets (p :: packets) i) as R eqn:ER. cbn [parse_packets] in ER.
  destruct (packet_bytes p) as [payload|a] eqn:Eb; cbn [mbind outcome_bind] in ER; unfold packet_bytes in Eb; (destruct (pk_rx p || (len (pk_payload p) =? 0)) eqn:Erx; [|left; split; [cbn in Eb; congruence|exists p; split; [by left|by destruct (pk_rx p)]]]); [|done].
  cbn in Eb. injection Eb as <-. unfold fd_txn_parse in ER. destruct (parse_core_eq (pk_payload p) None false Hp) as (r & Er & Hr). rewrite Er in ER. cbn [mbind outcome_bind] in ER. assert (packet_bytes p = Ok (pk_payload p)) as Hb by (unfold packet_bytes; by rewrite Erx).
  assert (exists x, parsed_as (pk_payload p) x /\ R = (rest ← parse_packets packets (i + 1); Ok (match rest with inl v => inl v | inr l => inr (x :: l) end)) \/
    exists m, accepts false (pk_payload p) m /\ simple_vote m = true /\ R = Ok (inl i)) as Hx.
  { destruct Hr as [(m & Hm & _ & ->)|(Hn & line & ->)]; cbn [pr_ret pr_out] in ER; [|eexists; left; split; [right; by split|exact ER]].
    pose proof (wf_sizes m (proj1 Hm)) as [_ Hs]. unfold ushort in ER. rewrite Z.mod_small in ER by lia. rewrite (proj2 (Z.eqb_neq _ _)) in ER by lia. rewrite (simple_vote_spec _ _ Hm) in ER. cbn [mbind outcome_bind] in ER.
    destruct (simple_vote m) eqn:Ev; [exists (0, None); right; by eauto|]. eexists. left. split; [left; by eauto|exact ER]. }
  destruct Hx as (x & [[Hx ->]|(m & Hm & Hv & ->)]); [|right; left; exists 0%nat, m; rewrite Z.add_0_r; by eauto].
  destruct (IH (i + 1)) as [(-> & q & Hq & Hd)|[(k & m' & -> & (q & Hq & Hacc) & Hv)|(l & -> & Hl)]]; [left; split; [done|exists q; split; [by right|done]]|right; left; exists (S k), m'; split; [cbn; do 2 f_equal; lia|by eauto]|].
  right; right. eexists. split; [reflexivity|]. by constructor.
Qed.

(** ** Publishing *)

(** The entry for the transaction [k] of a batch. *)
Definition queued_txn (state : fd_bam_batch_ctx_t) (batch : bam_types_AtomicTxnBatch) (k : Z) (px : fd_bam_packet_view_t * (Z * option fd_txn_t)) : fd_bam_pending_txn_t :=
  mk_pending (pk_payload px.1) (bc_ingress_rx_ts_ns state) (ab_max_schedule_slot batch) (ab_seq_id batch) 0 px.2.1 k (packet_cnt state) (bc_revert_on_error state) px.2.2.

Definition readable (p : fd_bam_packet_view_t) (x : Z * option fd_txn_t) : Prop := packet_bytes p = Ok (pk_payload p) /\ parsed_as (pk_payload p) x.

Lemma pending_of_spec state batch packets parsed : Forall2 readable packets parsed -> forall i,
  pending_of state batch i (zip packets parsed) = Ok (imap (fun k px => queued_txn state batch (i + Z.of_nat k) px) (zip packets parsed)).
Proof.
  induction 1 as [|p x packets parsed [Hp _] H IH]; intros i; [done|]. destruct x as [sz t]. cbn [zip zip_with pending_of]. rewrite Hp. cbn [mbind outcome_bind]. rewrite IH. cbn [mbind outcome_bind].
  rewrite imap_cons. unfold queued_txn at 2. cbn [fst snd]. rewrite Z.add_0_r. do 2 f_equal. apply imap_ext. intros k px _. unfold compose. f_equal. lia.
Qed.

(** The answers a batch can get instead: the scheduling error, the kind, reason and index of the
    error. *)
Inductive rejected (ctx : fd_bam_tile_t) (state : fd_bam_batch_ctx_t) (batch : bam_types_AtomicTxnBatch) : Z -> Z -> Z -> Z -> Prop :=
| rejected_outside_slot :
    ls_slot (bt_leader_state ctx) <> ULONG_MAX -> ab_max_schedule_slot batch < ls_slot (bt_leader_state ctx) ->
    rejected ctx state batch FD_BAM_SCHED_ERR_OUTSIDE_SLOT FD_BAM_BUNDLE_ERR_NONE 0 0
| rejected_decoding :
    bc_has_deser_err state = true ->
    rejected ctx state batch FD_BAM_SCHED_ERR_NONE FD_BAM_BUNDLE_ERR_DESER (bc_deser_reason state) (bc_deser_index state)
| rejected_empty :
    bc_packets state = [] ->
    rejected ctx state batch FD_BAM_SCHED_ERR_NONE FD_BAM_BUNDLE_ERR_DESER DESER_EMPTY 0
| rejected_vote k p m :
    bc_packets state !! k = Some p -> accepts false (pk_payload p) m -> simple_vote m = true ->
    rejected ctx state batch FD_BAM_SCHED_ERR_NONE FD_BAM_BUNDLE_ERR_DESER DESER_VOTE_TRANSACTION_FAILURE (Z.of_nat k)
| rejected_full :
    bt_pending_max ctx - len (bt_pending_txns ctx) < packet_cnt state ->
    rejected ctx state batch FD_BAM_SCHED_ERR_CONTAINER_FULL FD_BAM_BUNDLE_ERR_NONE 0 0.

(** What can become of a batch. *)
Inductive settled (ctx : fd_bam_tile_t) (state : fd_bam_batch_ctx_t) (batch : bam_types_AtomicTxnBatch) (ctx' : fd_bam_tile_t) : Prop :=
| settled_published parsed :
    Forall2 readable (bc_packets state) parsed ->
    bc_packets state <> [] ->
    (ls_slot (bt_leader_state ctx) = ULONG_MAX \/ ls_slot (bt_leader_state ctx) <= ab_max_schedule_slot batch) ->
    len (bt_pending_txns ctx) + packet_cnt state <= bt_pending_max ctx ->
    bt_pending_txns ctx' = bt_pending_txns ctx ++ imap (fun k px => queued_txn state batch (Z.of_nat k) px) (zip (bc_packets state) parsed) ->
    bt_results ctx' = bt_results ctx ->
    settled ctx state batch ctx'
| settled_answered scheduling_error bundle_err reason index :
    rejected ctx state batch scheduling_error bundle_err reason index ->
    bt_pending_txns ctx' = bt_pending_txns ctx ->
    queue (bt_results ctx') = fst (enqueue (bt_scheduler_gen ctx) (queue (bt_results ctx))
      (result_of (ab_seq_id batch) (bt_scheduler_gen ctx) (ab_max_schedule_slot batch) (packet_cnt state) scheduling_error bundle_err reason index)) ->
    settled ctx state batch ctx'.

(** The fields that no batch changes. *)
Record batch_frame (ctx ctx' : fd_bam_tile_t) : Prop := mk_batch_frame {
  bf_gen : bt_scheduler_gen ctx' = bt_scheduler_gen ctx;
  bf_ownership : bt_ownership_gen ctx' = bt_ownership_gen ctx;
  bf_leader : bt_leader_state ctx' = bt_leader_state ctx;
  bf_max : bt_pending_max ctx' = bt_pending_max ctx;
  bf_slot_end : bt_leader_slot_end ctx' = bt_leader_slot_end ctx;
  bf_timing : length (bt_timing ctx') = length (bt_timing ctx);
}.

Lemma batch_frame_refl ctx : batch_frame ctx ctx.
Proof. by split. Qed.
Lemma batch_frame_trans a b c : batch_frame a b -> batch_frame b c -> batch_frame a c.
Proof. intros [] []. split; congruence. Qed.
Lemma batch_frame_timing a b : timing_only a b -> batch_frame a b.
Proof. intros [H1 H2 _]. split; [rewrite H1; by destruct a..|done]. Qed.
Lemma batch_frame_feedback a b : feedback_only a b -> batch_frame a b.
Proof. intros H1. rewrite H1. by split; destruct a. Qed.
Lemma batch_frame_bump c n a : batch_frame a (bump c n a).
Proof. by split; destruct a. Qed.
Lemma timing_only_queues a b : timing_only a b -> bt_results b = bt_results a /\ bt_pending_txns b = bt_pending_txns a.
Proof. intros [H1 _ _]. rewrite H1. by destruct a. Qed.
Lemma feedback_only_pending a b : feedback_only a b -> bt_pending_txns b = bt_pending_txns a.
Proof. intros H1. rewrite H1. by destruct a. Qed.
Lemma dump_frame ctx slot : let ctx' := fst (fd_bam_should_dump_batch ctx slot) in
  batch_frame ctx ctx' /\ bt_results ctx' = bt_results ctx /\ bt_pending_txns ctx' = bt_pending_txns ctx.
Proof. cbv zeta. unfold fd_bam_should_dump_batch. repeat case_if; split; by try split; destruct ctx. Qed.

(** Queueing an answer. *)
Lemma answer_ok ctx res : results_ok (bt_results ctx) -> exists ctx', fd_bam_enqueue_result ctx res = Ok ctx' /\ results_ok (bt_results ctx') /\
  batch_frame ctx ctx' /\ bt_pending_txns ctx' = bt_pending_txns ctx /\ queue (bt_results ctx') = fst (enqueue (bt_scheduler_gen ctx) (queue (bt_results ctx)) res).
Proof.
  intros Hr. destruct (enqueue_spec ctx res Hr) as (ctx' & H1 & H2 & H3 & H4). exists ctx'. split; [done|]. split; [done|]. split; [by apply batch_frame_feedback|].
  split; [by apply feedback_only_pending|]. destruct (enqueue _ _ _) as [q d]. by injection H4.
Qed.

(** The same queues. *)
Definition idle (ctx c : fd_bam_tile_t) : Prop := batch_frame ctx c /\ bt_results c = bt_results ctx /\ bt_pending_txns c = bt_pending_txns ctx.

Lemma idle_refl ctx : idle ctx ctx.
Proof. split; [apply batch_frame_refl|done]. Qed.
Lemma idle_trans a b c : idle a b -> idle b c -> idle a c.
Proof. intros (H1 & H2 & H3) (K1 & K2 & K3). split; [by eapply batch_frame_trans|]. split; congruence. Qed.
Lemma idle_bump c n a : idle a (bump c n a).
Proof. split; [apply batch_frame_bump|by destruct a]. Qed.
Lemma idle_timing a b : timing_only a b -> idle a b.
Proof. intros H. split; [by apply batch_frame_timing|by apply timing_only_queues]. Qed.

#[local] Hint Resolve idle_refl idle_bump : core.

(** An answer after steps that leave the queues alone. *)
Lemma answered_ok ctx c state batch se be reason index : results_ok (bt_results ctx) -> idle ctx c -> rejected ctx state batch se be reason index ->
  exists ctx', fd_bam_enqueue_result c (result_of (ab_seq_id batch) (bt_scheduler_gen c) (ab_max_schedule_slot batch) (packet_cnt state) se be reason index) = Ok ctx' /\
    settled ctx state batch ctx' /\ results_ok (bt_results ctx') /\ batch_frame ctx ctx'.
Proof.
  intros Hr (Hf & Hq & Hp) Hj. rewrite (bf_gen _ _ Hf). destruct (answer_ok c (result_of (ab_seq_id batch) (bt_scheduler_gen ctx) (ab_max_schedule_slot batch) (packet_cnt state) se be reason index)) as (ctx' & H1 & H2 & H3 & H4 & H5); [by rewrite Hq|].
  exists ctx'. split; [done|]. split; [|split; [done|by eapply batch_frame_trans]]. eapply settled_answered; [exact Hj|congruence|]. by rewrite H5, Hq, (bf_gen _ _ Hf).
Qed.

Lemma publish_ok ctx state batch parsed : results_ok (bt_results ctx) -> Z.of_nat (length (bt_timing ctx)) = TCNT -> Forall2 readable (bc_packets state) parsed -> bc_packets state <> [] ->
  (ls_slot (bt_leader_state ctx) = ULONG_MAX \/ ls_slot (bt_leader_state ctx) <= ab_max_schedule_slot batch) ->
  exists ctx', fd_bam_publish_batch ctx state batch parsed = Ok ctx' /\ settled ctx state batch ctx' /\ results_ok (bt_results ctx') /\ batch_frame ctx ctx'.
Proof.
  intros Hr Ht Hp Hne Hs. unfold fd_bam_publish_batch. destruct (record_timing_ok ctx state (ab_max_schedule_slot batch) Ht) as (c & -> & H1). cbn [mbind outcome_bind].
  pose proof (dump_frame c (ab_max_schedule_slot batch)) as H2. destruct (fd_bam_should_dump_batch c _) as [c2 ?]. cbn [fst] in H2.
  assert (idle ctx c2) as Hi by (eapply idle_trans; [by apply idle_timing|exact H2]). pose proof Hi as (Hf & Hq & Hpe). rewrite (bf_max _ _ Hf), Hpe. case_if.
  - eapply answered_ok; [done| |by constructor]. eapply idle_trans; [exact Hi|auto].
  - rewrite pending_of_spec by done. cbn [mbind outcome_bind]. eexists. split; [reflexivity|]. split; [|split; [cbn [set_pending bt_results]; by rewrite Hq|]].
    + eapply settled_published; [exact Hp|done|done|lia|cbn [set_pending bt_pending_txns]; done|done].
    + eapply batch_frame_trans; [exact Hf|]. by split; destruct c2.
Qed.

Lemma commit_ok ctx state batch : results_ok (bt_results ctx) -> Z.of_nat (length (bt_timing ctx)) = TCNT -> Forall view_ok (bc_packets state) ->
  (commit_batch ctx (state, batch) = Fail Dangling /\ exists p, p ∈ bc_packets state /\ pk_rx p = false) \/
  exists ctx', commit_batch ctx (state, batch) = Ok ctx' /\ settled ctx state batch ctx' /\ results_ok (bt_results ctx') /\ batch_frame ctx ctx'.
Proof.
  intros Hr Ht Hv. unfold commit_batch, fd_bam_validate_batch. cbn [fst snd]. cbv zeta. case_if.
  { right. destruct (record_timing_ok ctx state (ab_max_schedule_slot batch) Ht) as (c & -> & H1). cbn [mbind outcome_bind].
    edestruct (answered_ok ctx c state batch) as (ctx' & -> & Hres); [done|by apply idle_timing| |cbn; eauto]. constructor; lia. }
  case_if. { right. edestruct (answered_ok ctx (bump batch_rejected_invalid_batch 1 ctx) state batch) as (ctx' & -> & Hres); [done|auto|by constructor|cbn; eauto]. }
  destruct (packet_cnt state =? 0) eqn:Ec.
  { right. edestruct (answered_ok ctx (bump batch_rejected_empty_batch 1 ctx) state batch) as (ctx' & -> & Hres); [done|auto|constructor|cbn; eauto].
    unfold packet_cnt in Ec. destruct (bc_packets state); [done|]. apply Z.eqb_eq in Ec. cbn [length] in Ec. lia. }
  destruct (parse_packets_spec (bc_packets state) Hv 0) as [[-> Hd]|[(k & m & -> & (p & Hk & Hm) & Hs)|(l & -> & Hl)]]; [by left| |].
  - right. cbn [mbind outcome_bind]. edestruct (answered_ok ctx (bump batch_rejected_vote_transaction 1 ctx) state batch) as (ctx' & Ea & Hres); [done|auto|by eapply rejected_vote|]. rewrite Z.add_0_l. rewrite Ea. cbn; eauto.
  - right. cbn [mbind outcome_bind]. apply publish_ok; [done|done|done| |lia]. intros Hn. unfold packet_cnt in Ec. by rewrite Hn in Ec.
Qed.
