(* ===== verification/BamDrain.v ===== *)
(** * Handing transactions over in whole batches

    The queue of transactions holds batches one after the other.  A round of
    [after_credit] takes whole batches from its head, as many as fit the burst. *)
From S2P Require Import Prelude Txn Pb Bam BamFeedback.

(** The entries of one batch: numbered, with the same count, sequence number, slot and mode. *)
Record whole (b : list fd_bam_pending_txn_t) : Prop := mk_whole {
  wh_size : 1 <= Z.of_nat (length b) <= FD_BAM_MAX_TXN_PER_ATOMIC_BATCH;
  wh_index : forall i p, b !! i = Some p -> pt_batch_idx p = Z.of_nat i /\ pt_batch_cnt p = Z.of_nat (length b);
  wh_same : exists seq slot revert, Forall (fun p => pt_seq_id p = seq /\ pt_max_schedule_slot p = slot /\ pt_revert_on_error p = revert) b;
}.

(** Nothing but the queue of transactions and the counters changes. *)
Definition pending_only (ctx ctx' : fd_bam_tile_t) : Prop := ctx' = set_metrics (set_pending ctx (bt_pending_txns ctx')) (bt_metrics ctx').

Lemma pending_only_refl ctx : pending_only ctx ctx.
Proof. by destruct ctx. Qed.
Lemma pending_only_trans a b c : pending_only a b -> pending_only b c -> pending_only a c.
Proof. unfold pending_only. intros -> ->. by destruct a. Qed.
Lemma txn_m_pending ctx ctx' : pending_only ctx ctx' -> txn_m_of ctx' = txn_m_of ctx.
Proof. intros ->. by destruct ctx. Qed.

Lemma u64_count c c' n m : u64 (count_by c n m c') = u64 (m c' + if decide (c = c') then n else 0).
Proof. unfold count_by. case_decide; [|by rewrite Z.add_0_r]. unfold u64_add, u64. by rewrite Z.mod_mod by lia. Qed.

Lemma u64_plus a b a' b' : u64 a = u64 a' -> u64 b = u64 b' -> u64 (a + b) = u64 (a' + b').
Proof. unfold u64. intros Ha Hb. rewrite (Z.add_mod a), (Z.add_mod a'), Ha, Hb by lia. done. Qed.

(** The counters after [n] transactions of [k] batches. *)
Definition published (n k : Z) (m m' : fd_bam_metrics_t) : Prop :=
  u64 (m' transaction_published_cnt) = u64 (m transaction_published_cnt + n) /\
  u64 (m' ingress_batch_published_cnt) = u64 (m ingress_batch_published_cnt + k).

Lemma published_trans n k n' k' a b c : published n k a b -> published n' k' b c -> published (n + n') (k + k') a c.
Proof. intros [H1 H2] [K1 K2]. split; [rewrite K1, Z.add_assoc|rewrite K2, Z.add_assoc]; by apply u64_plus. Qed.

Lemma drain_batch_spec n : forall ctx b rest, bt_pending_txns ctx = b ++ rest -> length b = n ->
  exists ctx', drain_batch ctx n = Ok (ctx', txn_m_of ctx <$> b) /\ bt_pending_txns ctx' = rest /\ pending_only ctx ctx' /\
    published (Z.of_nat n) (match n with O => 0 | _ => 1 end) (bt_metrics ctx) (bt_metrics ctx').
Proof.
  induction n as [|n IH]; intros ctx b rest Hp Hb.
  { apply nil_length_inv in Hb as ->. exists ctx. split; [done|]. split; [done|]. split; [apply pending_only_refl|]. split; by rewrite Z.add_0_r. }
  destruct b as [|p b]; [done|]. injection Hb as Hb. cbn [drain_batch]. rewrite Hp. cbn [app].
  set (c1 := match n with O => _ | S _ => _ end). assert (pending_only ctx c1 /\ published 0 (match n with O => 1 | _ => 0 end) (bt_metrics ctx) (bt_metrics c1)) as [Hc Hm].
  { unfold c1. destruct n; [|split; [apply pending_only_refl|split; by rewrite Z.add_0_r]]. case_if; (split; [by destruct ctx|]); split; cbn [bump set_metrics bt_metrics];
      unfold count_by; repeat (case_decide; [discriminate || idtac|]); rewrite ?Z.add_0_r; done || (unfold u64_add, u64; by rewrite Z.mod_mod by lia) || (exfalso; eauto). }
  clearbody c1. set (c2 := bump transaction_published_cnt 1 (set_pending c1 (b ++ rest))). assert (pending_only ctx c2) as Hc2 by (eapply pending_only_trans; [exact Hc|]; by destruct c1).
  assert (published 1 0 (bt_metrics c1) (bt_metrics c2)) as Hm2. { unfold c2. split; cbn [bump set_metrics set_pending bt_metrics]; by rewrite u64_count. }
  destruct (IH c2 b rest eq_refl Hb) as (ctx' & -> & H1 & H2 & H3). cbn [mbind outcome_bind]. exists ctx'. split; [by rewrite (txn_m_pending _ _ Hc2)|]. split; [done|]. split; [by eapply pending_only_trans|].
  pose proof (published_trans _ _ _ _ _ _ _ (published_trans _ _ _ _ _ _ _ Hm Hm2) H3) as Ht. replace (Z.of_nat (S n)) with (0 + 1 + Z.of_nat n) by lia. by destruct n.
Qed.

(** As many batches as fit, without a change of their order. *)
Fixpoint fitting (drain_cnt : Z) (bs : list (list fd_bam_pending_txn_t)) : list (list fd_bam_pending_txn_t) * list (list fd_bam_pending_txn_t) :=
  match bs with
  | [] => ([], [])
  | b :: bs' =>
      if drain_cnt + Z.of_nat (length b) <=? FD_BAM_STEM_BURST
      then let '(now, later) := fitting (drain_cnt + Z.of_nat (length b)) bs' in (b :: now, later)
      else ([], bs)
  end.

Lemma fitting_app bs : forall cnt, fst (fitting cnt bs) ++ snd (fitting cnt bs) = bs.
Proof. induction bs as [|b bs IH]; intros cnt; cbn [fitting]; [done|]. case_if; [|done]. specialize (IH (cnt + Z.of_nat (length b))). destruct (fitting _ bs). cbn in *. by rewrite IH. Qed.

Lemma fitting_size bs : forall cnt, cnt <= FD_BAM_STEM_BURST -> cnt + Z.of_nat (length (concat (fst (fitting cnt bs)))) <= FD_BAM_STEM_BURST.
Proof.
  induction bs as [|b bs IH]; intros cnt Hc; cbn [fitting]; [cbn; lia|]. case_if; [|cbn; lia]. specialize (IH (cnt + Z.of_nat (length b)) ltac:(lia)). destruct (fitting _ bs). cbn in *. rewrite length_app. lia.
Qed.

Lemma drain_batches_spec fuel : forall ctx cnt bs, bt_pending_txns ctx = concat bs -> Forall whole bs -> (length bs < fuel)%nat -> cnt <= FD_BAM_STEM_BURST ->
  exists ctx', drain_batches ctx cnt fuel = Ok (ctx', txn_m_of ctx <$> concat (fst (fitting cnt bs))) /\ bt_pending_txns ctx' = concat (snd (fitting cnt bs)) /\ pending_only ctx ctx' /\
    published (Z.of_nat (length (concat (fst (fitting cnt bs))))) (Z.of_nat (length (fst (fitting cnt bs)))) (bt_metrics ctx) (bt_metrics ctx').
Proof.
  induction fuel as [|fuel IH]; intros ctx cnt bs Hp Hw Hf Hc; [lia|]. cbn [drain_batches].
  assert (published 0 0 (bt_metrics ctx) (bt_metrics ctx)) as H0 by (split; by rewrite Z.add_0_r).
  destruct bs as [|b bs]; [rewrite Hp; cbn; exists ctx; auto using pending_only_refl|]. inversion_clear Hw as [|? ? Hb Hbs]. pose proof (wh_size b Hb) as Hs. cbn [length] in Hf.
  destruct b as [|p b]; [cbn in Hs; lia|]. rewrite Hp. cbn [concat app]. destruct (wh_index _ Hb 0%nat p eq_refl) as [_ Hn]. rewrite Hn. cbn [fitting].
  assert (forall P : Prop, (cnt < FD_BAM_STEM_BURST -> cnt + Z.of_nat (length (p :: b)) <= FD_BAM_STEM_BURST -> P) -> (FD_BAM_STEM_BURST < cnt + Z.of_nat (length (p :: b)) -> P) -> P) as Hcase.
  { intros P H1 H2. destruct (Z.le_gt_cases (cnt + Z.of_nat (length (p :: b))) FD_BAM_STEM_BURST); [apply H1|apply H2]; lia. }
  apply Hcase; intros Ha.
  - intros Hd. rewrite (proj2 (Z.ltb_lt _ _) Ha), (proj2 (Z.leb_le _ _) Hd). rewrite (proj2 (Z.ltb_ge _ _)) by lia. cbn [negb]. rewrite Nat2Z.id.
    destruct (drain_batch_spec (length (p :: b)) ctx (p :: b) (concat bs) Hp eq_refl) as (c1 & -> & H1 & H2 & H3). cbn [mbind outcome_bind].
    destruct (IH c1 (cnt + Z.of_nat (length (p :: b))) bs H1 Hbs ltac:(lia) Hd) as (ctx' & -> & H4 & H5 & H6). cbn [mbind outcome_bind]. destruct (fitting _ bs) as [now later]. cbn [fst snd concat] in *.
    exists ctx'. split; [by rewrite (txn_m_pending _ _ H2), <- fmap_app|]. split; [done|]. split; [by eapply pending_only_trans|].
    rewrite length_app. cbn [length] in *. pose proof (published_trans _ _ _ _ _ _ _ H3 H6) as Ht. by rewrite Nat2Z.inj_add, (Nat2Z.inj_succ (length now)), <- Z.add_1_l.
  - rewrite (proj2 (Z.leb_gt _ _) Ha), (proj2 (Z.ltb_lt _ _) Ha). assert (forall A (x : A), (if negb (cnt <? FD_BAM_STEM_BURST) then x else x) = x) as -> by (intros; by case_if).
    exists ctx. cbn [fst snd concat]. split; [done|]. split; [done|]. auto using pending_only_refl.
Qed.

Lemma fitting_first bs : forall cnt b later, snd (fitting cnt bs) = b :: later -> FD_BAM_STEM_BURST < cnt + Z.of_nat (length (concat (fst (fitting cnt bs)))) + Z.of_nat (length b).
Proof.
  induction bs as [|b bs IH]; intros cnt b' later; cbn [fitting]; [done|]. case_if; [|intros [= -> ->]; cbn; lia]. specialize (IH (cnt + Z.of_nat (length b)) b' later).
  destruct (fitting _ bs). cbn in *. intros H. specialize (IH H). rewrite length_app. lia.
Qed.

Lemma whole_length bs : Forall whole bs -> (length bs <= length (concat bs))%nat.
Proof. induction 1 as [|b bs Hb _ IH]; cbn [concat length]; [lia|]. rewrite length_app. pose proof (wh_size b Hb). lia. Qed.

(** C16: transactions are handed over in whole batches.  When the queue of transactions holds
    whole batches, [after_credit] returns; while the override is active it sends the
    transactions of the first batches, in order and each with its batch's size, position and
    mode and the current generations, at most 40 of them, at least one batch if there is one,
    and stops only where the next batch would not fit; whole batches are left.  Nothing else
    but the counters changes. *)
Theorem after_credit_whole_batches (ctx : fd_bam_tile_t) (bs : list (list fd_bam_pending_txn_t)) :
  bt_pending_txns ctx = concat bs -> Forall whole bs ->
  after_credit ctx false = Ok (ctx, []) /\
  exists now later ctx', bs = now ++ later /\ after_credit ctx true = Ok (ctx', txn_m_of ctx <$> concat now) /\
    bt_pending_txns ctx' = concat later /\
    ctx' = set_metrics (set_pending ctx (concat later)) (bt_metrics ctx') /\
    Z.of_nat (length (concat now)) <= FD_BAM_STEM_BURST /\
    (bs <> [] -> now <> []) /\
    (forall b l, later = b :: l -> FD_BAM_STEM_BURST < Z.of_nat (length (concat now)) + Z.of_nat (length b)) /\
    u64 (bt_metrics ctx' transaction_published_cnt) = u64 (bt_metrics ctx transaction_published_cnt + Z.of_nat (length (concat now))) /\
    u64 (bt_metrics ctx' ingress_batch_published_cnt) = u64 (bt_metrics ctx ingress_batch_published_cnt + Z.of_nat (length now)).
Proof.
  intros Hp Hw. split; [done|]. pose proof (whole_length bs Hw) as Hl. unfold after_credit. rewrite Hp.
  destruct (drain_batches_spec (S (length (concat bs))) ctx 0 bs Hp Hw ltac:(lia)) as (ctx' & H1 & H2 & H3 & H4 & H5); [unfold FD_BAM_STEM_BURST, FD_BAM_MAX_TXN_PER_ATOMIC_BATCH, FD_BAM_FULL_ATOMIC_BATCHES_PER_STEM_BURST; lia|].
  exists (fst (fitting 0 bs)), (snd (fitting 0 bs)), ctx'. split; [by rewrite fitting_app|]. split; [done|]. split; [done|]. split; [rewrite <- H2; exact H3|].
  split; [apply (fitting_size bs 0); unfold FD_BAM_STEM_BURST, FD_BAM_MAX_TXN_PER_ATOMIC_BATCH, FD_BAM_FULL_ATOMIC_BATCHES_PER_STEM_BURST; lia|].
  split; [|split; [exact (fitting_first bs 0)|done]]. intros Hne. destruct bs as [|b bs]; [done|]. inversion_clear Hw as [|? ? Hb _]. pose proof (wh_size b Hb) as Hs. cbn [fitting].
  unfold FD_BAM_STEM_BURST, FD_BAM_MAX_TXN_PER_ATOMIC_BATCH, FD_BAM_FULL_ATOMIC_BATCHES_PER_STEM_BURST in *. rewrite (proj2 (Z.leb_le _ _)) by lia. by destruct (fitting _ bs).
Qed.

(** Nine batches of five transactions: eight are sent. *)
Definition txn_sample (seq i : Z) : fd_bam_pending_txn_t := mk_pending [] 0 100 seq 0 0 i 5 true None.
Definition batch_sample (seq : Z) : list fd_bam_pending_txn_t := txn_sample seq <$> [0; 1; 2; 3; 4].

Lemma batch_sample_whole seq : whole (batch_sample seq).
Proof.
  split; [cbn; unfold FD_BAM_MAX_TXN_PER_ATOMIC_BATCH; lia| |exists seq, 100, true; by repeat constructor].
  intros i p Hi. do 5 (destruct i as [|i]; [injection Hi as <-; by split|]). by destruct i.
Qed.

Lemma after_credit_whole_batches_witness :
  let ctx := set_pending (mk_tile 1 1 false (mk_results [] 0 0 0) (mk_leader_state ULONG_MAX 0 0 0 0) false [] false [] [] 64 0 0 false false 0 false (fun _ => 0))
               (concat (batch_sample <$> [0; 1; 2; 3; 4; 5; 6; 7; 8])) in
  exists now later ctx', batch_sample <$> [0; 1; 2; 3; 4; 5; 6; 7; 8] = now ++ later /\ after_credit ctx true = Ok (ctx', txn_m_of ctx <$> concat now) /\
    bt_pending_txns ctx' = concat later /\ Z.of_nat (length (concat now)) <= 40 /\ now <> [].
Proof.
  intros ctx. destruct (after_credit_whole_batches ctx (batch_sample <$> [0; 1; 2; 3; 4; 5; 6; 7; 8])) as [_ (now & later & ctx' & H1 & H2 & H3 & H4 & H5 & H6 & _)].
  - reflexivity.
  - apply Forall_fmap, Forall_true. intros x. apply batch_sample_whole.
  - exists now, later, ctx'. split; [exact H1|]. split; [exact H2|]. split; [exact H3|]. split; [exact H5|]. apply H6. discriminate.
Defined.
