(* ===== verification/BamMessage.v ===== *)
(** * Decoding a message of batches

    Decoding ends, touches nothing but the feedback queue and its own counters, and when the
    message is refused the queue and the counters are as before. *)
From S2P Require Import Prelude Txn Pb Bam BamDecode BamFeedback BamCommit.

Notation bytes := (Forall is_byte).

(** ** Packets *)

Lemma dec_bool_suffix w s v r : pb_dec_bool w s = Some (v, r) -> r `suffix_of` s.
Proof. unfold pb_dec_bool, pb_decode_bool. case_if; [done|]. destruct (pb_decode_varint32 s) as [[x r']|] eqn:Em; [|done]. apply decode_varint32_suffix in Em. cbn. by intros [= _ <-]. Qed.

Lemma dec_uvarint_suffix n w s v r : pb_dec_uvarint n w s = Some (v, r) -> r `suffix_of` s.
Proof. unfold pb_dec_uvarint, pb_decode_varint. case_if; [done|]. destruct (varint_bytes 0 0 s) as [[x r']|] eqn:Em; [|done]. apply varint_bytes_suffix in Em. cbn. case_if; [|done]. by intros [= _ <-]. Qed.

Lemma skip_ok {S} (st : S) s w (P : S -> Prop) : P st ->
  exists st' o, Ok (st, pb_skip_field s w) = Ok (st', o) /\ P st' /\ forall r, o = Some r -> r `suffix_of` s.
Proof. intros H. eexists _, _. split; [reflexivity|]. split; [done|]. intros r. apply skip_field_suffix. Qed.

Lemma flags_field_ok b w t s : exists b' o, packet_flags_field b w t s = Ok (b', o) /\ forall r, o = Some r -> r `suffix_of` s.
Proof.
  unfold packet_flags_field. repeat case_if; try (destruct (pb_dec_bool w s) as [[v r]|] eqn:Em; (eexists _, _; split; [reflexivity|]); [|done]; intros ? [= <-]; by eapply dec_bool_suffix).
  eexists _, _. split; [reflexivity|]. intros r. apply skip_field_suffix.
Qed.

Lemma meta_field_ok st w t s : exists st' o, meta_field st w t s = Ok (st', o) /\ forall r, o = Some r -> r `suffix_of` s.
Proof.
  unfold meta_field. case_if; [destruct (pb_dec_uvarint 64 w s) as [[v r]|] eqn:Em; (eexists _, _; split; [reflexivity|]); [|done]; intros ? [= <-]; by eapply dec_uvarint_suffix|].
  case_if; [|eexists _, _; split; [reflexivity|]; intros r; apply skip_field_suffix]. case_if; [by eexists _, _; split; [reflexivity|]|].
  destruct (pb_make_string_substream s) as [[sub rest]|] eqn:Em; [|by eexists _, _; split; [reflexivity|]]. apply substream_parts in Em.
  destruct (decode_inner_inv packet_flags_field (fun _ => True) (fun _ => True) sub (snd st)) as (rv & ok & -> & _); [|by apply Forall_true|done|].
  { intros b w' t' s' _ _. destruct (flags_field_ok b w' t' s') as (b' & o & -> & Ho). eauto. }
  cbn [mbind outcome_bind]. eexists _, _. split; [reflexivity|]. destruct ok; [|done]. intros ? [= <-]. etrans; [|exact Em]. by exists sub.
Qed.

(** A view that may be kept. *)
Definition packet_ok (p : fd_bam_packet_view_t) : Prop := view_ok p /\ Z.of_nat (length (pk_payload p)) <= FD_TXN_MTU.

Lemma packet_fields_ok rx fuel : forall packet has_meta meta stream, (length stream < fuel)%nat -> bytes stream -> packet_ok packet -> pk_rx packet = rx ->
  exists e, packet_fields rx fuel packet has_meta meta stream = Ok e /\ match e with PacketRead p _ => packet_ok p /\ pk_rx p = rx | _ => True end.
Proof.
  induction fuel as [|fuel IH]; intros packet has_meta meta stream Hf Hb Hp Hx; [lia|]. cbn [packet_fields]. destruct stream as [|byte stream]; [by eexists; split; [reflexivity|]|].
  destruct (pb_decode_tag (byte :: stream)) as [w t s| |] eqn:Et; [|by eexists; split; [reflexivity|]..]. pose proof (decode_tag_suffix _ _ _ _ Et) as Hs. apply decode_tag_shorter in Et.
  pose proof (Forall_suffix _ _ _ Hs Hb) as Hsb. case_if; [by eexists; split; [reflexivity|]|]. case_if.
  - case_if; [by eexists; split; [reflexivity|]|]. destruct (pb_make_string_substream s) as [[data rest]|] eqn:Em; [|by eexists; split; [reflexivity|]]. apply substream_parts in Em. pose proof (suffix_length _ _ Em) as Hl. rewrite length_app in Hl.
    pose proof (Forall_suffix _ _ _ Em Hsb) as Hd. apply Forall_app in Hd as [Hd Hr]. case_if; [by eexists; split; [reflexivity|]|]. apply IH; [lia|done|split; [done|cbn; lia]|done].
  - case_if.
    + case_if; [by eexists; split; [reflexivity|]|]. destruct (pb_make_string_substream s) as [[sub rest]|] eqn:Em; [|by eexists; split; [reflexivity|]]. apply substream_parts in Em. pose proof (suffix_length _ _ Em) as Hl. rewrite length_app in Hl.
      pose proof (Forall_suffix _ _ _ Em Hsb) as Hd. apply Forall_app in Hd as [Hd Hr].
      destruct (decode_inner_inv meta_field (fun _ => True) is_byte sub (if has_meta then meta else (false, false))) as (mt & ok & -> & _); [|done|done|].
      { intros st w' t' s' _ _. destruct (meta_field_ok st w' t' s') as (st' & o & -> & Ho). eauto. }
      cbn [mbind outcome_bind]. destruct ok; [|by eexists; split; [reflexivity|]]. apply IH; [lia|done..].
    + destruct (pb_skip_field s w) as [rest|] eqn:Em; [|by eexists; split; [reflexivity|]]. apply skip_field_suffix in Em. pose proof (suffix_length _ _ Em) as Hl. apply IH; [lia|by eapply Forall_suffix|done..].
Qed.

(** ** Batches *)

(** The counters that decoding changes; they are the ones a refused message restores. *)
Definition decode_counter (c : counter) : bool :=
  match c with
  | ingress_packet_oversize_cnt | feedback_results_dropped_cnt
  | batch_rejected_invalid_batch | batch_rejected_empty_batch | batch_rejected_vote_transaction
  | message_rejected_empty_message | message_rejected_overflow_message => true
  | _ => false
  end.

(** Decoding changes the feedback queue at its end and its counters. *)
Record decode_only (ctx ctx' : fd_bam_tile_t) : Prop := mk_decode_only {
  do_frame : feedback_only ctx ctx';
  do_ok : results_ok (bt_results ctx) -> results_ok (bt_results ctx');
  do_head : rs_head (bt_results ctx') = rs_head (bt_results ctx);
  do_queue : results_ok (bt_results ctx) -> exists new, queue (bt_results ctx') = queue (bt_results ctx) ++ new /\ Forall result_wf new;
  do_inv : feedback_inv ctx -> feedback_inv ctx';
  do_metrics : forall c, decode_counter c = false -> bt_metrics ctx' c = bt_metrics ctx c;
}.

Lemma decode_only_refl ctx : decode_only ctx ctx.
Proof. split; [apply feedback_only_refl|done|done| |done|done]. exists []. by rewrite app_nil_r. Qed.

Lemma decode_only_trans a b c : decode_only a b -> decode_only b c -> decode_only a c.
Proof.
  intros [H1 H2 H3 H4 Hi H5] [K1 K2 K3 K4 Ki K5]. split; [by eapply feedback_only_trans|auto|congruence| |auto|intros x Hx; by rewrite K5, H5].
  intros Hr. destruct (H4 Hr) as (n1 & E1 & W1). destruct (K4 (H2 Hr)) as (n2 & E2 & W2). exists (n1 ++ n2). split; [by rewrite E2, E1, app_assoc|by apply Forall_app].
Qed.

Lemma decode_only_bump c n ctx : decode_counter c = true -> decode_only ctx (bump c n ctx).
Proof.
  intros Hc. split; [by destruct ctx|done|done|exists []; by rewrite app_nil_r|intros Hi; by eapply feedback_inv_same|]. intros x Hx. cbn [bump set_metrics bt_metrics]. unfold count_by. rewrite decide_False; [done|]. intros ->. congruence.
Qed.

Lemma enqueue_head ctx res ctx' : fd_bam_enqueue_result ctx res = Ok ctx' -> rs_head (bt_results ctx') = rs_head (bt_results ctx).
Proof.
  unfold fd_bam_enqueue_result. case_if; [by intros [= <-]|]. cbv zeta. set (nw := if negb (rs_depth _ =? 0) then _ else _). destruct nw as [[]|]; cbn [mbind outcome_bind]; [by intros [= <-]| |done].
  destruct (seen_before _ _ _ _) as [[]|]; cbn [mbind outcome_bind]; [by intros [= <-]| |done]. case_if; [by intros [= <-]|]. unfold check. case_if; cbn; [by intros [= <-]|done].
Qed.

Lemma enqueue_decode_only ctx res : results_ok (bt_results ctx) -> result_wf res -> exists ctx', fd_bam_enqueue_result ctx res = Ok ctx' /\ decode_only ctx ctx'.
Proof.
  intros Hr Hw. destruct (enqueue_spec ctx res Hr) as (ctx' & H1 & H2 & H3 & H4). exists ctx'. split; [done|]. unfold enqueue in H4. split; [done|done|by eapply enqueue_head| | |].
  - intros _. revert H4. repeat case_if; intros [= -> _]; [exists []; by rewrite app_nil_r..|]. exists [res]. by rewrite Forall_singleton.
  - intros Hi. eapply feedback_inv_enqueue; [exact Hi|exact Hw|done|rewrite H3; by destruct ctx|]. fold (enqueue (bt_scheduler_gen ctx) (queue (bt_results ctx)) res) in H4. destruct (enqueue _ _ _). by injection H4.
  - intros c Hc. revert H4. repeat case_if; intros [= _ ->]; try done; unfold count_by; rewrite decide_False; try done; intros <-; done.
Qed.

(** The packets collected so far. *)
Definition batch_ok (s : fd_bam_batch_ctx_t) : Prop := packet_cnt s <= FD_BAM_MAX_TXN_PER_ATOMIC_BATCH /\ Forall packet_ok (bc_packets s).

Lemma batch_ok_reset : batch_ok batch_ctx_reset.
Proof. split; [by vm_compute|constructor]. Qed.

Lemma collect_packet_ok ctx state rx stream : batch_ok state -> bytes stream ->
  exists ctx' state' ok, fd_bam_collect_packet ctx state rx stream = Ok (ctx', state', ok) /\ decode_only ctx ctx' /\ batch_ok state'.
Proof.
  intros Hs Hb. unfold fd_bam_collect_packet. case_if; [by eexists _, _, _; split; [reflexivity|]; split; [apply decode_only_refl|]|].
  destruct (packet_fields_ok rx (S (length stream)) (mk_view rx []) false (false, false) stream ltac:(lia) Hb) as (e & -> & He); [split; [constructor|unfold FD_TXN_MTU; cbn; lia]|done|].
  cbn [mbind outcome_bind]. destruct e as [p rv| |].
  - case_if; eexists _, _, _; (split; [reflexivity|]); (split; [apply decode_only_refl|]); [done|]. destruct Hs as [H1 H2]. unfold packet_cnt, batch_ok in *. split; cbn [add_packet bc_packets packet_cnt].
    + unfold packet_cnt. cbn. rewrite length_app. cbn [length]. lia.
    + apply Forall_app. split; [done|]. apply Forall_singleton, He.
  - eexists _, _, _. split; [reflexivity|]. split; [apply decode_only_refl|done].
  - eexists _, _, _. split; [reflexivity|]. split; [by apply decode_only_bump|done].
Qed.

(** What holds while the fields of a batch are read. *)
Definition batch_inv (ctx0 : fd_bam_tile_t) (st : fd_bam_tile_t * fd_bam_batch_ctx_t * bam_types_AtomicTxnBatch) : Prop :=
  decode_only ctx0 st.1.1 /\ batch_ok st.1.2.

Lemma batch_field_ok ctx0 st w t s : batch_inv ctx0 st -> bytes s ->
  exists st' o, atomic_batch_field st w t s = Ok (st', o) /\ batch_inv ctx0 st' /\ forall r, o = Some r -> r `suffix_of` s.
Proof.
  destruct st as [[ctx state] batch]. intros [H1 H2] Hb. cbn [fst snd] in *. unfold atomic_batch_field.
  case_if; [destruct (pb_dec_uvarint 32 w s) as [[v r]|] eqn:Em; (eexists _, _; split; [reflexivity|]); (split; [done|]); [|done]; intros ? [= <-]; by eapply dec_uvarint_suffix|].
  case_if; [destruct (pb_dec_uvarint 64 w s) as [[v r]|] eqn:Em; (eexists _, _; split; [reflexivity|]); (split; [done|]); [|done]; intros ? [= <-]; by eapply dec_uvarint_suffix|].
  case_if; [|eexists _, _; split; [reflexivity|]; split; [done|]; intros r; apply skip_field_suffix].
  set (o := if w =? PB_WT_STRING then _ else _). assert (forall rx sub rest, o = Some (rx, sub, rest) -> (sub ++ rest) `suffix_of` s) as Ho.
  { intros rx sub rest. unfold o. case_if.
    - destruct (pb_make_string_substream s) as [[a b]|] eqn:Em; [|done]. apply substream_parts in Em. cbn. by intros [= _ <- <-].
    - destruct (read_raw_value s w 10) as [[a b]|] eqn:Em; [|done]. apply read_raw_parts in Em. cbn. intros [= _ <- <-]. by rewrite Em. }
  clearbody o. destruct o as [[[rx sub] rest]|]; [|by eexists _, _; split; [reflexivity|]; split]. specialize (Ho _ _ _ eq_refl). pose proof (Forall_suffix _ _ _ Ho Hb) as Hs. apply Forall_app in Hs as [Hs _].
  destruct (collect_packet_ok ctx state rx sub H2 Hs) as (ctx' & state' & ok & -> & H3 & H4). cbn [mbind outcome_bind]. eexists _, _. split; [reflexivity|]. split; [split; [by eapply decode_only_trans|done]|].
  destruct ok; [|done]. intros ? [= <-]. etrans; [|exact Ho]. by exists sub.
Qed.

Lemma decode_batch_ok ctx stream a b c : bytes stream ->
  exists ctx' batch state err, fd_bam_decode_batch ctx stream a b c = Ok (ctx', batch, state, err) /\ decode_only ctx ctx' /\ batch_ok state /\
    forall e, err = Some e -> 0 <= de_packet_cnt e <= FD_BAM_MAX_TXN_PER_ATOMIC_BATCH.
Proof.
  intros Hb. unfold fd_bam_decode_batch. destruct (decode_inner_inv atomic_batch_field (batch_inv ctx) is_byte stream (ctx, batch_ctx_reset, mk_atomic_batch 0 0)) as (st & ok & -> & H1).
  - intros st w t s. apply batch_field_ok.
  - done.
  - split; [apply decode_only_refl|apply batch_ok_reset].
  - destruct st as [[ctx' state] batch]. destruct H1 as [H1 H2]. cbn [fst snd] in *. cbn [mbind outcome_bind]. case_if.
    + eexists _, _, _, _. split; [reflexivity|]. split; [eapply decode_only_trans; [exact H1|by apply decode_only_bump]|]. split; [done|]. intros e [= <-]. destruct H2 as [H2 _]. case_if; cbn; unfold packet_cnt in *; lia.
    + eexists _, _, _, _. split; [reflexivity|]. by split.
Qed.

Lemma identity_ok fuel : forall i stream, (length stream < fuel)%nat -> exists r, identity_fields fuel i stream = Ok r.
Proof.
  induction fuel as [|fuel IH]; intros i stream Hf; [lia|]. cbn [identity_fields]. destruct (pb_decode_tag stream) as [w t s| |] eqn:Et; [|by eauto..]. apply decode_tag_shorter in Et.
  case_if; [by eauto|]. case_if.
  { case_if; [by eauto|]. unfold pb_decode_varint. destruct (varint_bytes 0 0 s) as [[v rest]|] eqn:Em; [|by eauto]. apply varint_bytes_suffix, suffix_length in Em. case_if; [by eauto|]. apply IH. lia. }
  case_if.
  { case_if; [by eauto|]. unfold pb_decode_varint. destruct (varint_bytes 0 0 s) as [[v rest]|] eqn:Em; [|by eauto]. apply varint_bytes_suffix, suffix_length in Em. apply IH. lia. }
  destruct (pb_skip_field s w) as [rest|] eqn:Em; [|by eauto]. apply skip_field_suffix, suffix_length in Em. apply IH. lia.
Qed.

(** ** Messages *)

(** Taking a refused message back. *)
Lemma rollback_spec before c : results_ok (bt_results before) -> decode_only before c ->
  results_ok (bt_results (rollback before c)) /\ queue (bt_results (rollback before c)) = queue (bt_results before) /\ feedback_only before (rollback before c) /\
  forall x, bt_metrics (rollback before c) x = bt_metrics before x.
Proof.
  intros Hr [H1 H2 H3 H4 _ H5]. specialize (H2 Hr). destruct (H4 Hr) as (new & Hq & _). pose proof Hr as [R1 R2 R3 R4]. pose proof H2 as [K1 K2 K3 K4].
  pose proof (queue_length _ Hr) as L. pose proof (queue_length _ H2) as L'. rewrite Hq, length_app in L'. unfold rollback. cbn [set_metrics set_results bt_results].
  split; [split; cbn [rs_ring rs_head rs_tail rs_depth]; [done|done|done|by rewrite R4, H3]|]. split.
  - unfold queue at 1. cbn [rs_ring rs_head rs_depth]. transitivity (take (Z.to_nat (rs_depth (bt_results before))) (queue (bt_results c))); [unfold queue; rewrite take_take; f_equal; lia|].
    rewrite Hq. replace (Z.to_nat (rs_depth (bt_results before))) with (length (queue (bt_results before))) by lia. apply take_app_length.
  - split; [rewrite H1; by destruct before|]. intros x. cbn [set_metrics bt_metrics set_results]. unfold rollback_metrics. destruct x; first [done | by apply H5].
Qed.

(** The result of reading the whole message. *)
Definition message_result (before : fd_bam_tile_t) (r : fd_bam_tile_t * option (list (fd_bam_batch_ctx_t * bam_types_AtomicTxnBatch))) : Prop :=
  match r.2 with
  | Some decoded => decode_only before r.1 /\ Forall (fun b => batch_ok b.1) decoded /\ Z.of_nat (length decoded) <= FD_BAM_MAX_ATOMIC_BATCHES_PER_MESSAGE
  | None => exists c, decode_only before c /\ (r.1 = rollback before c \/ r.1 = bump message_rejected_overflow_message 1 (rollback before c))
  end.

Lemma multi_fields_ok before a b d fuel : results_ok (bt_results before) -> forall ctx seen decoded stream, (length stream < fuel)%nat -> bytes stream -> decode_only before ctx ->
  Forall (fun x => batch_ok x.1) decoded -> Z.of_nat (length decoded) <= seen <= FD_BAM_MAX_ATOMIC_BATCHES_PER_MESSAGE ->
  exists r, multi_fields before a b d fuel ctx seen decoded stream = Ok r /\ message_result before r.
Proof.
  intros Hr. induction fuel as [|fuel IH]; intros ctx seen decoded stream Hf Hb Hc Hd Hn; [lia|]. cbn [multi_fields].
  assert (forall P : Prop, P -> exists r, Ok (rollback before ctx, @None (list (fd_bam_batch_ctx_t * bam_types_AtomicTxnBatch))) = Ok r /\ message_result before r) as Hback by (intros _ _; eexists; split; [reflexivity|]; exists ctx; auto).
  destruct (pb_decode_tag stream) as [w t s| |] eqn:Et; [|eexists; split; [reflexivity|]|exact (Hback True I)].
  2:{ split; [|split; [done|cbn; lia]]. cbn [fst]. case_if; [|done]. eapply decode_only_trans; [exact Hc|by apply decode_only_bump]. }
  pose proof (decode_tag_suffix _ _ _ _ Et) as Hs. apply decode_tag_shorter in Et. pose proof (Forall_suffix _ _ _ Hs Hb) as Hsb. case_if; [exact (Hback True I)|].
  destruct (pb_make_string_substream s) as [[sub rest]|] eqn:Em; [|exact (Hback True I)]. apply substream_parts in Em. pose proof (suffix_length _ _ Em) as Hl. rewrite length_app in Hl.
  pose proof (Forall_suffix _ _ _ Em Hsb) as Hsr. apply Forall_app in Hsr as [Hsub Hrest]. case_if; [eexists; split; [reflexivity|]; exists ctx; auto|].
  destruct (decode_batch_ok ctx sub a b d Hsub) as (c1 & batch & state & err & -> & Hd1 & Hd2 & Hd3). cbn [mbind outcome_bind]. pose proof (decode_only_trans _ _ _ Hc Hd1) as Hc1. destruct err as [e|].
  - unfold fd_bam_decode_batch_identity. destruct (identity_ok (S (length sub)) (mk_identity 0 0 false false) sub ltac:(lia)) as [[i iok] ->]. cbn [mbind outcome_bind].
    assert (exists c2, (if (id_has_seq_id i || iok) && bc_has_deser_err state && negb (bc_packet_decode_failed state) then fd_bam_enqueue_result c1 (fd_bam_deser_result_from_identity c1 i e) else Ok c1) = Ok c2 /\ decode_only c1 c2) as (c2 & -> & Hd4).
    { case_if; [|by eauto using decode_only_refl]. apply enqueue_decode_only; [by apply (do_ok _ _ Hc1)|]. pose proof (Hd3 e eq_refl). split; cbn; [unfold FD_PACK_MAX_TXN_PER_BUNDLE, FD_BAM_MAX_TXN_PER_ATOMIC_BATCH in *; lia|done..]. }
    cbn [mbind outcome_bind]. apply IH; [lia|done|by eapply decode_only_trans|done|lia].
  - rewrite (proj2 (Z.ltb_lt (Z.of_nat (length decoded)) _)) by lia. cbn [check mbind outcome_bind]. apply IH; [lia|done|done|apply Forall_app; split; [done|by apply Forall_singleton]|rewrite length_app; cbn [length]; lia].
Qed.
