(* ===== verification/BamProps.v ===== *)
(** * The BAM client is safe

    The message is taken as a whole or not at all; every batch of it is queued or
    answered; over any sequence of messages, results, leader states, generations and rounds
    of [after_credit] the state stays well formed. *)
From S2P Require Import Prelude Txn TxnRuns TxnCu16 TxnGrammar TxnLegacy TxnV1 TxnProps Pb Bam BamDecode BamFeedback BamTiming BamCommit BamDrain BamMessage.


(** A message of one packet whose length runs past the end, after a batch that was already
    answered with an error. *)
Definition tlv (tag : Z) (l : list Z) : list Z := (tag * 8 + 2) :: Z.of_nat (length l) :: l.



(** Two packets that do not parse. *)
Definition state_sample : fd_bam_batch_ctx_t := mk_batch_ctx 5 0 [mk_view true [1; 2; 3]; mk_view true []] true false false 0 0.


(** ** Invariant of the tile *)

Record tile_ok (ctx : fd_bam_tile_t) : Prop := mk_tile_ok {
  tk_feedback : feedback_inv ctx;
  tk_timing : Z.of_nat (length (bt_timing ctx)) = FD_BAM_SLOT_INGRESS_TIMING_CNT;
  tk_trackers : Z.of_nat (length (bt_leader_slot_end ctx)) = FD_BAM_LEADER_SLOT_END_TRACKER_CNT;
  tk_pending : exists bs, bt_pending_txns ctx = concat bs /\ Forall whole bs;
  tk_room : Z.of_nat (length (bt_pending_txns ctx)) <= bt_pending_max ctx;
}.

Inductive bam_op :=
| OpResponse (data : list Z) (rx_ts_ns : Z) (env : pong_env)
| OpFeedback (op : feedback_op)
| OpLeader (state : fd_bam_leader_state_t)
| OpCredit (override_active : bool).

(** One call into the tile; what it sends is left out. *)
Definition bam_step (ctx : fd_bam_tile_t) (op : bam_op) : outcome fd_bam_tile_t :=
  match op with
  | OpResponse data rx_ts_ns env => fd_bam_handle_scheduler_response ctx data rx_ts_ns env
  | OpFeedback op => '(ctx, _) ← feedback_step (ctx, []) op; Ok ctx
  | OpLeader state => fd_bam_stage_leader_state ctx state
  | OpCredit override_active => '(ctx, _) ← after_credit ctx override_active; Ok ctx
  end.

Definition bam_op_wf (op : bam_op) : Prop :=
  match op with
  | OpResponse data _ _ => Forall is_byte data
  | OpFeedback op => op_wf op
  | _ => True
  end.

(** A view that is used after its buffer is gone is the only way to fail. *)
Definition safe (r : outcome fd_bam_tile_t) : Prop := r = Fail Dangling \/ exists ctx', r = Ok ctx' /\ tile_ok ctx'.

Lemma tile_ok_bump c n ctx : tile_ok ctx -> tile_ok (bump c n ctx).
Proof. intros [H1 H2 H3 H4 H5]. split; [by eapply feedback_inv_same|done..]. Qed.

Lemma safe_ok ctx : tile_ok ctx -> safe (Ok ctx).
Proof. intros H. right. eauto. Qed.

#[local] Hint Resolve tile_ok_bump safe_ok : core.

Lemma queued_whole state batch parsed : packet_cnt state <= FD_BAM_MAX_TXN_PER_ATOMIC_BATCH -> bc_packets state <> [] -> Forall2 readable (bc_packets state) parsed ->
  whole (imap (fun k px => queued_txn state batch (Z.of_nat k) px) (zip (bc_packets state) parsed)).
Proof.
  intros Hc Hne Hf. pose proof (Forall2_length _ _ _ Hf) as Hl. assert (length (imap (fun k px => queued_txn state batch (Z.of_nat k) px) (zip (bc_packets state) parsed)) = length (bc_packets state)) as Hn by (rewrite length_imap, length_zip; lia).
  split; rewrite ?Hn.
  - unfold packet_cnt in Hc. split; [|done]. destruct (bc_packets state); [done|]. cbn [length]. lia.
  - intros i p Hi. rewrite list_lookup_imap in Hi. destruct (zip _ _ !! i) as [px|]; [|done]. injection Hi as <-. done.
  - exists (ab_seq_id batch), (ab_max_schedule_slot batch), (bc_revert_on_error state). apply Forall_lookup. intros i p Hi. rewrite list_lookup_imap in Hi. destruct (zip _ _ !! i) as [px|]; [|done]. by injection Hi as <-.
Qed.

Lemma rejected_wf ctx state batch se be reason index : packet_cnt state <= FD_BAM_MAX_TXN_PER_ATOMIC_BATCH ->
  result_wf (result_of (ab_seq_id batch) (bt_scheduler_gen ctx) (ab_max_schedule_slot batch) (packet_cnt state) se be reason index).
Proof. intros H. apply result_of_wf. unfold FD_BAM_MAX_TXN_PER_ATOMIC_BATCH, packet_cnt in *. lia. Qed.

Lemma commit_safe ctx b : tile_ok ctx -> batch_ok b.1 -> safe (commit_batch ctx b).
Proof.
  destruct b as [state batch]. intros [H1 H2 H3 H4 H5] [Hc Hp]. cbn [fst] in *.
  destruct (commit_ok ctx state batch (fi_ok _ H1) H2) as [[-> _]|(ctx' & -> & Hs & Hr & Hf)]; [eapply Forall_impl; [exact Hp|]; by intros p [Hv _]|by left|]. right. exists ctx'. split; [done|].
  destruct Hs as [parsed S1 S2 S3 S4 S5 S6|se be reason index S1 S2 S3].
  - split; [eapply feedback_inv_same; [exact H1|done|apply (bf_gen _ _ Hf)]|by rewrite (bf_timing _ _ Hf)|by rewrite (bf_slot_end _ _ Hf)| |].
    + destruct H4 as (bs & Eb & Hw). eexists (bs ++ [_]). rewrite S5, Eb, concat_app. cbn [concat]. rewrite app_nil_r. split; [reflexivity|]. apply Forall_app. split; [done|]. apply Forall_singleton. by apply queued_whole.
    + pose proof (Forall2_length _ _ _ S1). unfold packet_cnt in *. rewrite S5, (bf_max _ _ Hf), length_app, length_imap, length_zip. lia.
  - split; [|by rewrite (bf_timing _ _ Hf)|by rewrite (bf_slot_end _ _ Hf)|by rewrite S2|by rewrite S2, (bf_max _ _ Hf)].
    eapply feedback_inv_enqueue; [exact H1| |done|apply (bf_gen _ _ Hf)|exact S3]. by apply rejected_wf.
Qed.

Lemma commits_safe batches : forall ctx, tile_ok ctx -> Forall (fun b => batch_ok b.1) batches -> safe (ofold commit_batch ctx batches).
Proof.
  induction batches as [|b batches IH]; intros ctx Hc Hb; cbn [ofold]; [by auto|]. inversion_clear Hb as [|? ? Hb1 Hb2]. destruct (commit_safe ctx b Hc Hb1) as [->|(ctx' & -> & H)]; [by left|]. cbn [mbind outcome_bind]. by apply IH.
Qed.

Lemma response_fields_ok fuel : forall v sel stream, (length stream < fuel)%nat -> bytes stream -> (forall s, sel = Some s -> bytes s) ->
  exists r, response_fields fuel v sel stream = Ok r /\ forall v' s, r = Some (v', Some s) -> bytes s.
Proof.
  induction fuel as [|fuel IH]; intros v sel stream Hf Hb Hs; [lia|]. cbn [response_fields]. destruct (pb_decode_tag stream) as [w t s| |] eqn:Et; [|eexists; split; [reflexivity|]; intros ? ? [= _ E]; by apply Hs|by eexists; split; [reflexivity|]].
  pose proof (Forall_suffix _ _ _ (decode_tag_suffix _ _ _ _ Et) Hb) as Hsb. apply decode_tag_shorter in Et. case_if; [by eexists; split; [reflexivity|]|]. case_if.
  - destruct (pb_skip_field s w) as [rest|] eqn:Em; [|by eexists; split; [reflexivity|]]. apply skip_field_suffix in Em. pose proof (suffix_length _ _ Em). apply IH; [lia|by eapply Forall_suffix|done].
  - destruct (pb_make_string_substream s) as [[sub rest]|] eqn:Em; [|by eexists; split; [reflexivity|]]. apply substream_parts in Em. pose proof (suffix_length _ _ Em) as Hl. rewrite length_app in Hl.
    pose proof (Forall_suffix _ _ _ Em Hsb) as Hsr. apply Forall_app in Hsr as [H1 H2]. apply IH; [lia|done|]. by intros ? [= <-].
Qed.

Lemma v0_fields_ok fuel : forall sel stream, (length stream < fuel)%nat -> bytes stream -> (forall t s, sel = Some (t, s) -> bytes s) ->
  exists r, v0_fields fuel sel stream = Ok r /\ forall t s, r = Some (t, s) -> bytes s.
Proof.
  induction fuel as [|fuel IH]; intros sel stream Hf Hb Hs; [lia|]. cbn [v0_fields]. destruct (pb_decode_tag stream) as [w t s| |] eqn:Et; [|by eexists; split; [reflexivity|]..].
  pose proof (Forall_suffix _ _ _ (decode_tag_suffix _ _ _ _ Et) Hb) as Hsb. apply decode_tag_shorter in Et. case_if; [by eexists; split; [reflexivity|]|].
  destruct (pb_make_string_substream s) as [[sub rest]|] eqn:Em; [|by eexists; split; [reflexivity|]]. apply substream_parts in Em. pose proof (suffix_length _ _ Em) as Hl. rewrite length_app in Hl.
  pose proof (Forall_suffix _ _ _ Em Hsb) as Hsr. apply Forall_app in Hsr as [H1 H2]. apply IH; [lia|done|]. by intros ? ? [= _ <-].
Qed.

Lemma single_uint_ok n v stream : exists r, pb_decode_inner (single_uint_field n) v stream = Ok r.
Proof.
  destruct (decode_inner_inv (single_uint_field n) (fun _ => True) (fun _ => True) stream v) as (st & ok & -> & _); [|by apply Forall_true|done|by eauto].
  intros st w t s _ _. unfold single_uint_field. case_if; [|eexists _, _; split; [reflexivity|]; split; [done|]; intros r; apply skip_field_suffix].
  destruct (pb_dec_uvarint n w s) as [[x r]|] eqn:Em; (eexists _, _; split; [reflexivity|]); (split; [done|]); [|done]. intros ? [= <-]. by eapply dec_uvarint_suffix.
Qed.

Lemma decode_only_tile ctx ctx' : tile_ok ctx -> decode_only ctx ctx' -> tile_ok ctx'.
Proof. intros [H1 H2 H3 H4 H5] [D1 D2 D3 D4 Di D5]. rewrite D1. split; [|done..]. eapply feedback_inv_same; [by apply Di|done|rewrite D1; by destruct ctx]. Qed.

Lemma rollback_tile ctx c : tile_ok ctx -> decode_only ctx c -> tile_ok (rollback ctx c).
Proof.
  intros [H1 H2 H3 H4 H5] Hd. destruct (rollback_spec ctx c (fi_ok _ H1) Hd) as (K1 & K2 & K3 & _). rewrite K3. split; [|done..]. destruct H1 as [F1 F2 F3 F4]. by split; cbn [set_metrics set_results bt_results bt_scheduler_gen]; rewrite ?K2.
Qed.

Lemma response_safe ctx data ts env : tile_ok ctx -> bytes data -> safe (fd_bam_handle_scheduler_response ctx data ts env).
Proof.
  intros Hc Hb. unfold fd_bam_handle_scheduler_response. destruct (response_fields_ok (S (length data)) 0 None data ltac:(lia) Hb) as (r & Er & Hr); [done|]. change pb_istream_t with (list Z) in *. rewrite Er. cbn [mbind outcome_bind].
  destruct r as [[v [v0|]]|]; [|case_if; [|by auto]|by auto]. 2:{ apply safe_ok. apply (tile_ok_bump failure_unsupported_version 1) in Hc as [H1 H2 H3 H4 H5]. split; [by eapply feedback_inv_same|done..]. }
  specialize (Hr v v0 eq_refl). destruct (v0_fields_ok (S (length v0)) None v0 ltac:(lia) Hr) as (sel & -> & Hsel); [done|]. cbn [mbind outcome_bind]. destruct sel as [[tag d]|]; [|by auto]. specialize (Hsel tag d eq_refl).
  case_if. { destruct (single_uint_ok 64 0 d) as [[x ok] ->]. cbn [mbind outcome_bind]. case_if; [by auto|]. apply safe_ok, tile_ok_bump. destruct Hc as [H1 H2 H3 H4 H5]. split; [by eapply feedback_inv_same|done..]. }
  case_if.
  - unfold fd_bam_decode_multiple_atomic_txn_batch.
    destruct (multi_fields_ok ctx ts (ls_slot (bt_leader_state ctx)) (ls_slot_end_ns (bt_leader_state ctx)) (S (length d)) (fi_ok _ (tk_feedback _ Hc)) ctx 0 [] d ltac:(lia) Hsel (decode_only_refl ctx)) as ([ctx' r] & -> & Hm); [constructor|by vm_compute|].
    cbn [mbind outcome_bind]. unfold message_result in Hm. cbn [fst snd] in Hm. destruct r as [batches|].
    + destruct Hm as (D1 & D2 & _). apply commits_safe; [|done]. apply tile_ok_bump, tile_ok_bump. by eapply decode_only_tile.
    + destruct Hm as (c & D1 & [-> | ->]); auto using rollback_tile.
  - destruct (single_uint_ok 32 0 d) as [[x ok] ->]. cbn [mbind outcome_bind]. repeat case_if; auto.
Qed.

(** Starting a generation. *)
Lemma forget_inv ctx : results_ok (bt_results ctx) -> feedback_inv (fd_bam_tile_begin_ownership_generation ctx true).
Proof.
  intros Hr. pose proof Hr as [R1 R2 R3 R4]. unfold fd_bam_tile_begin_ownership_generation. cbn [set_pending set_gens bt_results andb]. case_if.
  - split; cbn [set_results bt_results bt_scheduler_gen bump set_metrics]; unfold queue; cbn [rs_depth rs_head rs_ring]; [|constructor..].
    split; cbn [rs_ring rs_head rs_tail rs_depth]; [done|rewrite R4; apply Z.mod_pos_bound; by vm_compute|by vm_compute|]. by rewrite Z.add_0_r, R4, Z.mod_mod.
  - split; cbn [set_pending set_gens bt_results bt_scheduler_gen]; [done|..]; unfold queue; (assert (rs_depth (bt_results ctx) = 0) as -> by lia); constructor.
Qed.

Lemma ownership_frame ctx forget : let c := fd_bam_tile_begin_ownership_generation ctx forget in
  bt_pending_txns c = [] /\ bt_pending_max c = bt_pending_max ctx /\ bt_timing c = bt_timing ctx /\ bt_leader_slot_end c = bt_leader_slot_end ctx.
Proof. cbv zeta. unfold fd_bam_tile_begin_ownership_generation. by case_if. Qed.

Lemma ownership_tile ctx forget : Z.of_nat (length (bt_timing ctx)) = FD_BAM_SLOT_INGRESS_TIMING_CNT -> Z.of_nat (length (bt_leader_slot_end ctx)) = FD_BAM_LEADER_SLOT_END_TRACKER_CNT ->
  0 <= bt_pending_max ctx -> feedback_inv (fd_bam_tile_begin_ownership_generation ctx forget) -> tile_ok (fd_bam_tile_begin_ownership_generation ctx forget).
Proof.
  intros H1 H2 H3 Hi. destruct (ownership_frame ctx forget) as (F1 & F2 & F3 & F4). split; [done|by rewrite F3|by rewrite F4|rewrite F1; exists []; by split|by rewrite F1, F2].
Qed.

Lemma feedback_safe ctx op : tile_ok ctx -> op_wf op -> safe (bam_step ctx (OpFeedback op)).
Proof.
  intros Hc Hop. pose proof Hc as [H1 H2 H3 H4 H5]. pose proof (fi_ok _ H1) as Hr. destruct op as [res|live sends|forget|]; cbn [bam_step feedback_step].
  - destruct (enqueue_decode_only ctx res Hr Hop) as (ctx' & -> & Hd). cbn. apply safe_ok. by eapply decode_only_tile.
  - pose proof (flush_spec live sends ctx Hr (fi_wf _ H1)) as Hl. pose proof (proj1 (feedback_inv_spec ctx) H1) as [_ Hs]. apply (spec_step_ok _ (OpFlush live sends)) in Hs; [|done]. cbn [spec_step fs_queue fs_gen] in Hs.
    destruct (flush _ _) as [msgs rest]. destruct Hl as (ctx' & -> & K1 & K2 & _ & K3). cbn. apply safe_ok.
    assert (feedback_inv ctx') as Hi by (destruct Hs as [S1 S2 S3 S4 _]; split; rewrite ?K3; [done| |done|done]; rewrite K2; by destruct ctx).
    rewrite K2 in Hi |- *. by split.
  - cbn. apply safe_ok, ownership_tile; [done|done|lia|]. destruct forget; [by apply forget_inv|]. eapply feedback_inv_same; [exact H1|done..].
  - cbn. apply safe_ok, ownership_tile; [done|done|cbn; lia|by apply forget_inv].
Qed.

Lemma step_safe ctx op : tile_ok ctx -> bam_op_wf op -> safe (bam_step ctx op).
Proof.
  intros Hc Hop. pose proof Hc as [H1 H2 H3 H4 H5]. destruct op as [data ts env|op|st|ov]; cbn [bam_op_wf] in Hop.
  - by apply response_safe.
  - by apply feedback_safe.
  - cbn [bam_step]. destruct (stage_leader_ok ctx st H2 H3) as (ctx' & -> & K1 & K2 & K3). apply safe_ok. rewrite <- K1 in H2. rewrite <- K2 in H3. rewrite K3 in H2, H3 |- *. split; [by eapply feedback_inv_same|done..].
  - cbn [bam_step]. destruct H4 as (bs & Hp & Hw). pose proof (whole_length bs Hw) as Hl. unfold after_credit. destruct ov; [|cbn; by auto]. rewrite Hp.
    destruct (drain_batches_spec (S (length (concat bs))) ctx 0 bs Hp Hw ltac:(lia)) as (ctx' & -> & K2 & K3 & _); [by vm_compute|]. cbn. apply safe_ok. pose proof (fitting_app bs 0) as Ha.
    rewrite <- Ha, Forall_app in Hw. assert (length (concat (snd (fitting 0 bs))) <= length (concat bs))%nat as Hle by (rewrite <- Ha at 2; rewrite concat_app, length_app; lia).
    rewrite Hp in H5. rewrite K3, K2. split; [by eapply feedback_inv_same|done|done|exists (snd (fitting 0 bs)); split; [done|by apply Hw]|cbn; lia].
Qed.

(** C12: the BAM client stays well formed over every sequence of calls: scheduler responses with
    any bytes, results from the other tiles, flushes, generations, leader states and rounds of
    [after_credit].  As long as no view of a packet is used after its buffer is gone, every call
    returns, so no access leaves the ring of results, the tables by slot, the
    staging buffer or the queue of transactions, and no loop runs forever; and
    the feedback queue stays bounded, of one generation and without duplicates, the queue of transactions
    holds whole batches and at most what it has room for. *)
Theorem bam_tile_safe (ctx : fd_bam_tile_t) (ops : list bam_op) :
  tile_ok ctx -> Forall bam_op_wf ops ->
  ofold bam_step ctx ops = Fail Dangling \/ exists ctx', ofold bam_step ctx ops = Ok ctx' /\ tile_ok ctx'.
Proof.
  revert ctx. induction ops as [|op ops IH]; intros ctx Hc Hw; cbn [ofold]; [by right; eauto|]. inversion_clear Hw as [|? ? Hop Hops].
  destruct (step_safe ctx op Hc Hop) as [->|(ctx' & -> & H)]; [by left|]. cbn [mbind outcome_bind]. by apply IH.
Qed.

Lemma tile_new_ok n : 0 <= n -> tile_ok (tile_new n).
Proof.
  intros Hn. split; [|done|done|exists []; by split|done]. pose proof (tile_new_results n) as Hr. split; [done|..]; unfold queue; cbn [tile_new bt_results rs_depth]; constructor.
Qed.

(** A leader state, a message of one batch with one packet, a round of [after_credit]. *)
Definition response_of (batches : list (list Z)) : list Z := tlv 1 (tlv 2 (concat (tlv 3 <$> batches))).
Definition ops_message : list bam_op :=
  [OpLeader (mk_leader_state 90 1000 0 0 0);
   OpResponse (response_of [[8; 7; 16; 100] ++ tlv 3 (tlv 1 [1; 2; 3])]) 500 (mk_pong_env true true true false);
   OpCredit true].

Lemma bam_tile_safe_witness : exists ctx', ofold bam_step (tile_new 64) ops_message = Ok ctx' /\ tile_ok ctx' /\ bt_metrics ctx' transaction_published_cnt = 1.
Proof.
  assert (match ofold bam_step (tile_new 64) ops_message with Ok c => bt_metrics c transaction_published_cnt =? 1 | Fail _ => false end = true) as Hv by (vm_compute; reflexivity).
  destruct (bam_tile_safe (tile_new 64) ops_message) as [Hf|(ctx' & H1 & H2)].
  - apply tile_new_ok. discriminate.
  - apply List.Forall_cons; [exact I|]. apply List.Forall_cons; [|apply List.Forall_cons; [exact I|apply List.Forall_nil]].
    change (bytes (response_of [[8; 7; 16; 100] ++ tlv 3 (tlv 1 [1; 2; 3])])). vm_compute. repeat (apply List.Forall_cons; [split; [discriminate|reflexivity]|]). apply List.Forall_nil.
  - rewrite Hf in Hv. discriminate Hv.
  - exists ctx'. split; [exact H1|]. split; [exact H2|]. rewrite H1 in Hv. apply Z.eqb_eq, Hv.
Defined.

(** A packet sent as a fixed 64-bit value is collected from a copy in the decoder's stack
    frame, and its bytes are used after the copy is gone. *)
Example scalar_packet_dangles :
  fd_bam_handle_scheduler_response (tile_new 64) (response_of [[8; 7; 16; 100] ++ [25] ++ tlv 1 [1; 2; 3; 4; 5; 6]]) 500 (mk_pong_env true true true false) = Fail Dangling.
Proof. vm_compute. reflexivity. Qed.
